(* ===== verification/_CoqProject ===== *)
-Q . S2P
Prelude.v
KPermuter.v
NodeVersion.v
Slice.v
Key.v
StringOrder.v
KSearch.v
CircularInt.v
StringBag.v
PathKey.v
Node.v
Get.v
Split.v
Insert.v
Remove.v
Scan.v
Namespace.v
NamespaceOps.v
NamespacePaths.v
Limbo.v
LimboFacts.v
Epochs.v
Json.v
JsonObject.v
JsonText.v
JsonTextInvariant.v
JsonTextFacts.v
JsonTextReread.v
JsonObjectFacts.v
Msgpack.v
MsgpackFacts.v
MsgpackStream.v
MsgpackParser.v
ValueBag.v
ValueBagFacts.v
ValueString.v
ValueStringFacts.v
RowHeap.v
ValueArray.v
ValueArrayFacts.v
ValueVersioned.v
Snapshots.v
ValueVersionedFacts.v
Log.v
LogReplay.v
LogFacts.v
LogWriter.v
Recovery.v
RecoveryPhases.v
Query.v
QueryFacts.v
LogApply.v
LogApplyFacts.v
LogOrder.v
Kvout.v
Checkpoint.v
CheckpointFacts.v
Checkpointer.v
CheckpointText.v
Server.v
LeafFacts.v
SplitFacts.v
LayerTree.v
LayerEdge.v
TrieGet.v
Pivots.v
CheckpointRanges.v
LayerInsert.v
LayerRemove.v
LeafLinks.v
NamespaceFacts.v
Readdir.v
GraphUpdate.v
NamespaceUpdate.v
FileCreate.v
NamespaceRemove.v
Checker.v
Scenarios.v
