(* ===== verification/Prelude.v ===== *)
(** * Verification of MasstreeLHM

    MasstreeLHM keeps a file-system namespace in a Masstree: a trie of B+trees in
    which every directory is a layer of its own.  It contains the key-value store
    Masstree with its reclamation, rows, queries, log and client protocol.  This
    library models both and states what makes them correct.

    ** Conventions

    Definitions follow the functions of [src/] by name, statement by statement.
    Machine integers are [Z] with their wrap-around written out (module [Word]
    below).  Code that changes state is a function in the monad [sm S] of this
    file, from a state to a result and a state or a [fault]: null and wild
    pointers, reads outside of an object, failed assertions, exceptions, waits
    that nobody will end.  A theorem that an operation equals [Ok ..] excludes all
    of these.  The configuration (byte order, unaligned access) is the class
    [Config] of Key, the parameters of a tree the class [nodeparams] of Node.

    ** The parts, and their files

    Words and bytes.  KPermuter (kpermuter.hh), NodeVersion (nodeversion.hh, with
    the protocol of readers and writers as a step relation), Slice
    (string_slice.hh, and of compiler.hh and string.cc what it uses), Key
    (masstree_key.hh), StringOrder (string_base.hh), KSearch (ksearch.hh), CircularInt (circular_int.hh),
    StringBag (stringbag.hh), PathKey (path_key.hh, directory_meta.hh).

    The tree.  Node (masstree_struct.hh, masstree.hh, btree_leaflink.hh: a heap of
    leaves and internodes), Get (masstree_tcursor.hh, masstree_get.hh), Split
    (masstree_split.hh), Insert (masstree_insert.hh), Remove (masstree_remove.hh),
    Scan (masstree_scan.hh).  LeafFacts and SplitFacts say what a leaf holds and
    what a split does to it; LayerTree says that a heap holds a well-formed layer,
    with its leaves in order; LayerEdge, LayerInsert and LayerRemove show that
    finding, adding and removing an edge are the operations of the finite map of
    the layer's items; TrieGet that lookup is that of the finite map of the whole
    trie; LeafLinks is about the list of leaves.

    The namespace.  Namespace, NamespaceOps (lhm_namespace.hh).  NamespaceFacts has
    the abstract specification: a graph of directories, each with a finite map from
    the hashes of names, and [represents], which relates a heap to a graph.
    Lookups walk the graph (NamespaceFacts, Readdir); NamespaceUpdate (mkdir),
    FileCreate (creat_file) and NamespaceRemove (rmdir, unlink) are simulations
    of the changes to the graph on the heap (GraphUpdate has what they share).
    NamespacePaths is the arithmetic of renames.  Checker decides [represents] on a
    concrete heap, so that Scenarios runs programs of operations from an empty
    table, applies the theorems to the states they reach, and shows executions in
    which an operation does not do what it means to.

    Reclamation.  Limbo and LimboFacts (kvthread.cc: the limbo groups of a thread
    refine a queue of objects with epochs), Epochs (kvthread.hh, mtd.cc: the
    threads as an interleaving of their accesses to the epochs; the queues of Limbo
    refine its steps).

    JSON and MessagePack.  Json (values), JsonText (json.cc: the text of values and
    its streaming parser), JsonTextInvariant (the parser's pointers and saved parts),
    JsonTextFacts and JsonTextReread (tokens, and whole texts read back), JsonObject and JsonObjectFacts (the hash
    table of objects refines the list of pairs), Msgpack, MsgpackFacts and
    MsgpackStream (writers, the unparser and the streaming parser), MsgpackParser
    (the reader of complete buffers).

    Rows.  ValueBag and ValueBagFacts (value_bag.hh, byte for byte), ValueString
    and ValueStringFacts (value_string.hh), RowHeap, ValueArray and ValueArrayFacts
    (value_array.hh: rows that share columns, and their memory), ValueVersioned and
    ValueVersionedFacts (value_versioned_array.hh), Snapshots (its readers and
    in-place updates as a step model).

    Queries.  Query and QueryFacts (kvrow.hh, kvproto.hh, and [onego] of mtd.cc).
    A query sees its rows and its table through the classes [RowType] and [Table],
    whose promises are [RowLaws] and [TableLaws]; ValueBag implements the first,
    and a map with phantom epochs stands for the second.

    The log.  Log (records, writers, the logger), LogReplay (analysis and replay of
    a file), LogFacts (records as encodings of entries, and recovery), LogWriter
    (writers, the logger and crashes as a step relation), LogApply (how a replayed
    record changes its key's slot, with delta markers), LogApplyFacts (the slot's
    chain as lists of pending changes and a row, with the memory it owns) and
    LogOrder (replay in any order).  What runs a record is a parameter of the replay
    of a file, which LogApply's [run] is one instance of.  Recovery (log.cc, mtd.cc:
    what [recover] computes from the logs together) and RecoveryPhases (its threads'
    phases as a step relation).

    Checkpoints.  Pivots and CheckpointRanges (query_masstree.cc: the keys that cut
    the tree into the threads' ranges), Checkpoint and CheckpointFacts
    (checkpoint.hh, checkpoint.cc, mtd.cc: the files of the ranges and reading them
    back, over a row type with [CheckpointRow] and a table with [ScanLaws]),
    Checkpointer (mtd.cc: when a checkpoint is committed, and its threads with
    crashes as a step relation), CheckpointText (the committed description as JSON
    text, and what [recover] reads from it).

    The server.  Kvout (kvio.hh, kvio.cc, and the unparser of msgpack.hh on a
    buffer): output buffers, with what [write] answers given.  Server (mtd.cc):
    connections, with what [read] answers given, whose requests [onego] executes;
    handshakes; datagrams.

    ** What the theorems show

    - The namespace: mkdir, creat_file, rmdir, unlink, lookups and readdir are
      those of the directory graph, with every refusal (refinement, errors); the
      graph, locks and list of leaves stay well-formed (invariants).  Additions
      need room in the leaf; removals that the leaf keeps an item or is the
      leftmost of its layer (Remove has the code that takes other leaves out of
      the tree, without a theorem); the listing of the root that it has not split.
    - The tree: lookup is the finite map's through any number of layers; edges
      found, added and removed; splits partition; keys order as strings; searches
      end with the right bound; optimistic reads are sound under any interleaving
      within the counters' range.
    - Reclamation: nothing is freed that an open read section may still read, in
      any interleaving; quiescing ends and frees in order.
    - Codecs: what is written is read back, MessagePack however its input is cut,
      JSON text in every layout; the text parser's pointers stay inside the value.
    - Rows: updates apply the changes to the columns, in memory of the exact size
      and with no object lost or retired twice; snapshots are of one time and end
      when updates pause.
    - Queries and the log: gets read what puts wrote; time stamps of a key grow,
      across removals too; a crash leaves a prefix of what was recorded; recovery
      runs exactly the records that the checkpoint may lack; the records of a key
      lead to the same row in whatever order the logs are replayed.
    - Recovery and checkpoints: the range of epochs that is replayed; recovery's
      phases do not overlap and end; the files of a checkpoint are read back into
      the rows they were taken of; the committed checkpoint is whole at every crash
      and passes recovery's checks; its description is read back, if its keys are text.
    - The server: a connection's requests are executed once, in order, and answered
      in order, however the input is cut and the output is taken.

    Some statements show faults of the code; the executions of Scenarios do too.

    ** Bounds

    Loops whose end is not structural take fuel, and run out of it with the fault
    [OutOfFuel].  [np_fuel] bounds the loops on a tree: the theorems on lookups and
    updates ask for more than the depth of the layers involved.  Loops with a
    measure have enough by construction and are shown not to run out: the width of
    a node for searches, the cells of a limbo group ([clean_fuel]) and the objects
    freed in one go ([quiesce_fuel]) for reclamation, the number of items plus one
    for hash chains, of bytes for parsers, strings of JSON text, the loops over a log
    and the input of a connection, of requests plus one for its turns.  A buffer's capacity doubles at
    most 32 times ([grow_fuel] of Kvout).  The loops that do not end are in splits
    (SplitFacts) and in buffers past 2^31 bytes (Kvout).  Lock words, counters and time
    stamps are at their width; theorems that need less than half of a circular range say so.

    ** Not modelled

    The tree and the namespace run in one thread: retries after a concurrent
    change are in the loops, and their tests are shown not to succeed; concurrency
    is in NodeVersion, Epochs, Snapshots, LogWriter, RecoveryPhases and
    Checkpointer, each with one order of accesses that all threads see, as the
    code's fences and locks ask for.  A server's thread executes commands on a table
    of its own: commands of different threads meet in the tree's protocol, which
    NodeVersion has.  Memory is allocated without failure.  Not modelled: printing
    and statistics; small_vector (which nothing modelled uses); the storage of
    strings and string accumulators (their contents are lists of bytes); the type
    [int] of the sizes in a JSON object's hash table, which has fewer than 2^31
    buckets; the
    text of doubles (parameters of JsonText); sockets, files, options and signals,
    which are the operating system's; the client, drivers, benchmarks and tests. *)

From Stdlib Require Export ZArith Lia Bool.
From stdpp Require Export prelude list_numbers numbers gmap option list.

#[export] Set Default Goal Selector "!".

Local Open Scope Z_scope.

(** ** Machine words

    An unsigned machine integer of [b] bits is a [Z] in [0, 2^b).  The
    operators of C++ that can leave that range are written with their
    wrap-around. *)

Module Word.

(** Reduction of the mathematical result to [b] bits. *)
Definition wrap (b x : Z) : Z := x mod 2 ^ b.

(** [x << n], [~x], [x + y], [x - y], [-x] on [b]-bit unsigned words. *)
Definition shlw (b x n : Z) : Z := wrap b (Z.shiftl x n).
Definition notw (b x : Z) : Z := wrap b (Z.lnot x).
Definition addw (b x y : Z) : Z := wrap b (x + y).
Definition subw (b x y : Z) : Z := wrap b (x - y).
Definition mulw (b x y : Z) : Z := wrap b (x * y).

(** Signed reading of a [b]-bit word (two's complement). *)
Definition signed (b x : Z) : Z :=
  let y := wrap b x in if y <? 2 ^ (b - 1) then y else y - 2 ^ b.

Definition is_word (b x : Z) : Prop := 0 <= x < 2 ^ b.

Lemma wrap_range b x : 0 <= b -> 0 <= wrap b x < 2 ^ b.
Proof. intros Hb. apply Z.mod_pos_bound. apply Z.pow_pos_nonneg; lia. Qed.

Lemma wrap_small b x : is_word b x -> wrap b x = x.
Proof. intros H. apply Z.mod_small. exact H. Qed.

Lemma wrap_idemp b x : 0 <= b -> wrap b (wrap b x) = wrap b x.
Proof. intros Hb. apply wrap_small, wrap_range, Hb. Qed.

Lemma wrap_spec b x n :
  0 <= b -> 0 <= n -> Z.testbit (wrap b x) n = ((n <? b) && Z.testbit x n)%bool.
Proof.
  intros Hb Hn. unfold wrap. destruct (Z.ltb_spec n b).
  - rewrite Z.mod_pow2_bits_low by lia. done.
  - rewrite Z.mod_pow2_bits_high by lia. done.
Qed.

Lemma is_word_testbit b x n : is_word b x -> 0 <= b -> b <= n -> Z.testbit x n = false.
Proof.
  intros Hx Hb Hn. rewrite <- (wrap_small b x Hx), wrap_spec by lia.
  destruct (Z.ltb_spec n b); [lia | done].
Qed.

(** A number whose bits from [b] on are clear is a [b]-bit word. *)
Lemma is_word_bits b x :
  0 <= b -> (forall n, b <= n -> Z.testbit x n = false) -> is_word b x.
Proof.
  intros Hb Hx. enough (x = wrap b x) as ->; [by apply wrap_range|].
  apply Z.bits_inj'. intros n Hn. rewrite wrap_spec by lia.
  destruct (Z.ltb_spec n b); [done|]. by rewrite Hx by lia.
Qed.

Lemma mod_succ_ne q M : 2 <= M -> (q + 1) mod M <> q mod M.
Proof.
  intros HM Heq. rewrite <- Zplus_mod_idemp_l in Heq.
  pose proof (Z.mod_pos_bound q M ltac:(lia)).
  destruct (Z.eq_dec (q mod M + 1) M) as [He|Hne].
  - rewrite He, Z.mod_same in Heq by lia. lia.
  - rewrite (Z.mod_small (q mod M + 1)) in Heq by lia. lia.
Qed.

Lemma mod_div_pow2 a m p : 0 <= p <= m -> (a mod 2 ^ m) / 2 ^ p = (a / 2 ^ p) mod 2 ^ (m - p).
Proof.
  intros Hp. apply Z.bits_inj'. intros n Hn.
  rewrite Z.div_pow2_bits by lia.
  change (a mod 2 ^ m) with (wrap m a). change ((a / 2 ^ p) mod 2 ^ (m - p)) with (wrap (m - p) (a / 2 ^ p)).
  rewrite !wrap_spec, Z.div_pow2_bits by lia.
  destruct (Z.ltb_spec (n + p) m), (Z.ltb_spec n (m - p)); try lia; done.
Qed.

Lemma ones_spec_ltb k n : 0 <= k -> 0 <= n -> Z.testbit (Z.ones k) n = (n <? k).
Proof.
  intros Hk Hn. destruct (Z.ltb_spec n k).
  - apply Z.ones_spec_low. lia.
  - apply Z.ones_spec_high. lia.
Qed.

Lemma pow2_pred_ones k : 0 <= k -> 2 ^ k - 1 = Z.ones k.
Proof. intros _. rewrite Z.ones_equiv. lia. Qed.

Lemma shiftl_pow2 a k : 0 <= a -> 0 <= k -> Z.shiftl (2 ^ a) k = 2 ^ (a + k).
Proof. intros. rewrite Z.shiftl_mul_pow2, Z.pow_add_r by lia. done. Qed.

Lemma lnot_wrap_testbit b x n :
  0 <= b -> 0 <= n -> Z.testbit (notw b x) n = ((n <? b) && negb (Z.testbit x n))%bool.
Proof. intros. unfold notw. rewrite wrap_spec, Z.lnot_spec by lia. done. Qed.

Lemma shlw_testbit b x k n :
  0 <= b -> 0 <= n -> Z.testbit (shlw b x k) n = ((n <? b) && Z.testbit x (n - k))%bool.
Proof. intros. unfold shlw. rewrite wrap_spec, Z.shiftl_spec by lia. done. Qed.

(** The masks [(2^k << n) - 1] of the code, also when the shift overflows
    to zero and the subtraction wraps to all ones. *)
Lemma mask_testbit b k n :
  0 <= b -> 0 <= k -> 0 <= n ->
  Z.testbit (wrap b (wrap b (2 ^ k) - 1)) n = ((n <? b) && (n <? k))%bool.
Proof.
  intros Hb Hk Hn. rewrite wrap_spec by lia.
  destruct (Z.ltb_spec n b) as [Hnb|]; [cbn|done].
  destruct (Z.lt_ge_cases k b) as [Hkb|Hkb].
  - rewrite (wrap_small b (2 ^ k)).
    + rewrite pow2_pred_ones, ones_spec_ltb by lia. done.
    + split; [apply Z.pow_nonneg; lia | apply Z.pow_lt_mono_r; lia].
  - assert (wrap b (2 ^ k) = 0) as ->.
    { unfold wrap. replace k with (b + (k - b)) by lia.
      rewrite Z.pow_add_r, Z.mul_comm by lia. apply Z.mod_mul. lia. }
    replace (0 - 1) with (-1) by lia. rewrite Z.bits_m1 by lia.
    destruct (Z.ltb_spec n k); [done | lia].
Qed.

End Word.

Create HintDb lhm.
#[export] Hint Resolve Word.wrap_range : lhm.

Create Rewrite HintDb testbits.
#[export] Hint Rewrite Z.land_spec Z.lor_spec Z.lxor_spec Z.shiftr_spec
  Z.shiftl_spec Z.lnot_spec Word.wrap_spec Word.lnot_wrap_testbit Word.shlw_testbit
  Word.ones_spec_ltb using lia : testbits.

(** Decide the comparisons left in a goal about single bits. *)
Ltac bit_cases :=
  repeat match goal with
    | |- context [ (?a <? ?b)%Z ] =>
        destruct (Z.ltb_spec a b); try lia; cbn [andb orb negb xorb]
    | |- context [ Z.testbit ?x ?n ] => rewrite (Z.testbit_neg_r x n) by lia
    end.

(** Prove an equation between bits of words built with the operators above:
    push [Z.testbit] inwards, decide the index comparisons, equate indices. *)
Ltac bits_auto :=
  autorewrite with testbits; bit_cases;
  rewrite ?andb_true_r, ?andb_false_r, ?orb_false_r, ?orb_true_r, ?xorb_false_r;
  cbn [andb orb negb xorb];
  try reflexivity; try (f_equal; lia).

(** Decide every integer comparison in the goal that [lia] does not refute. *)
Ltac zcases :=
  repeat match goal with
    | |- context [ (?a <? ?b)%Z ] => destruct (Z.ltb_spec a b); try lia
    | |- context [ (?a <=? ?b)%Z ] => destruct (Z.leb_spec a b); try lia
    | |- context [ (?a =? ?b)%Z ] => destruct (Z.eqb_spec a b); try lia
    end.

(** ** Nibbles: the 4-bit digits of a word *)

Definition nib (x j : Z) : Z := Z.land (Z.shiftr x (4 * j)) 15.

Lemma nib_testbit x j k :
  0 <= j -> 0 <= k -> Z.testbit (nib x j) k = ((k <? 4) && Z.testbit x (4 * j + k))%bool.
Proof.
  intros Hj Hk. unfold nib. change 15 with (Z.ones 4).
  rewrite Z.land_spec, Word.ones_spec_ltb, Z.shiftr_spec by lia.
  rewrite andb_comm. f_equal. f_equal. lia.
Qed.

Lemma nib_range x j : 0 <= nib x j < 16.
Proof.
  unfold nib. change 15 with (Z.ones 4). rewrite Z.land_ones by lia.
  apply Z.mod_pos_bound. lia.
Qed.

(** Two nibbles agree when their four bits do. *)
Lemma nib_ext x y j j' :
  0 <= j -> 0 <= j' ->
  (forall k, 0 <= k < 4 -> Z.testbit x (4 * j + k) = Z.testbit y (4 * j' + k)) ->
  nib x j = nib y j'.
Proof.
  intros Hj Hj' H. apply Z.bits_inj'. intros k Hk. rewrite !nib_testbit by lia.
  destruct (Z.ltb_spec k 4); [cbn; apply H; lia | done].
Qed.

Lemma nib_0 x : nib x 0 = x mod 16.
Proof. unfold nib. change 15 with (Z.ones 4). rewrite Z.land_ones by lia. done. Qed.

Lemma nib_S x j : 0 <= j -> nib x (j + 1) = nib (x / 16) j.
Proof.
  intros Hj. unfold nib. f_equal. change 16 with (2 ^ 4).
  rewrite <- (Z.shiftr_div_pow2 x 4), Z.shiftr_shiftr by lia. f_equal. lia.
Qed.

(** Adding one to the low nibble carries into no other nibble. *)
Lemma nib_succ x j :
  0 <= j -> nib x 0 < 15 -> nib (x + 1) j = if j =? 0 then nib x 0 + 1 else nib x j.
Proof.
  intros Hj Hs. rewrite nib_0 in *. destruct (Z.eqb_spec j 0) as [->|Hne].
  - rewrite nib_0. Z.div_mod_to_equations. lia.
  - replace j with ((j - 1) + 1) by lia. rewrite !nib_S by lia. f_equal.
    Z.div_mod_to_equations. lia.
Qed.

(** Subtracting one from a nonzero low nibble borrows from no other nibble. *)
Lemma nib_pred x j :
  0 <= j -> 0 < nib x 0 -> nib (x - 1) j = if j =? 0 then nib x 0 - 1 else nib x j.
Proof.
  intros Hj Hs.
  assert (nib (x - 1) 0 < 15) as Hlt.
  { rewrite nib_0 in *. Z.div_mod_to_equations. lia. }
  pose proof (nib_succ (x - 1) j Hj Hlt) as H. pose proof (nib_succ (x - 1) 0 ltac:(lia) Hlt) as H0.
  replace (x - 1 + 1) with x in * by lia. cbn in H0.
  destruct (Z.eqb_spec j 0) as [->|]; lia.
Qed.

(** *** Nibbles of the composite words the permuter builds

    [V] is the width of the word; every nibble looked at lies inside it. *)

Section nibbles.
Context (V : Z) (HV : 0 <= V).

(** The mask covering the nibbles below [m]. *)
Definition lowmask (m : Z) : Z := Word.wrap V (Word.wrap V (2 ^ (4 * m)) - 1).

Lemma lowmask_testbit m n :
  0 <= m -> 0 <= n -> Z.testbit (lowmask m) n = ((n <? V) && (n <? 4 * m))%bool.
Proof. intros. unfold lowmask. apply Word.mask_testbit; lia. Qed.

Lemma lnot_lowmask_testbit m n :
  0 <= m -> 0 <= n ->
  Z.testbit (Word.notw V (lowmask m)) n = ((n <? V) && negb (n <? 4 * m))%bool.
Proof.
  intros. rewrite Word.lnot_wrap_testbit, lowmask_testbit by lia.
  destruct (n <? V); done.
Qed.

Lemma lnot_lnot_lowmask m : 0 <= m -> Word.notw V (Word.notw V (lowmask m)) = lowmask m.
Proof.
  intros. apply Z.bits_inj'. intros n Hn.
  rewrite Word.lnot_wrap_testbit, lnot_lowmask_testbit, lowmask_testbit by lia.
  bit_cases; done.
Qed.

Lemma nib_lor a b j : 0 <= j -> nib (Z.lor a b) j = Z.lor (nib a j) (nib b j).
Proof.
  intros. apply Z.bits_inj'. intros k Hk.
  rewrite Z.lor_spec, !nib_testbit, Z.lor_spec by lia.
  destruct (k <? 4); done.
Qed.

Lemma nib_lxor a b j : 0 <= j -> nib (Z.lxor a b) j = Z.lxor (nib a j) (nib b j).
Proof.
  intros. apply Z.bits_inj'. intros k Hk.
  rewrite Z.lxor_spec, !nib_testbit, Z.lxor_spec by lia.
  destruct (k <? 4); done.
Qed.

Lemma nib_land_low a m j :
  0 <= j -> 0 <= m -> (j < m -> 4 * j + 4 <= V) ->
  nib (Z.land a (lowmask m)) j = if j <? m then nib a j else 0.
Proof.
  intros. destruct (Z.ltb_spec j m).
  - apply nib_ext; [lia..|]. intros k Hk. rewrite Z.land_spec, ?lnot_lowmask_testbit, ?lowmask_testbit by lia; bits_auto.
  - rewrite <- (Z.bits_inj' (nib (Z.land a (lowmask m)) j) 0); [done|].
    intros k Hk. rewrite nib_testbit, Z.testbit_0_l by lia. rewrite Z.land_spec, ?lnot_lowmask_testbit, ?lowmask_testbit by lia; bits_auto.
Qed.

Lemma nib_land_high a m j :
  0 <= j -> 0 <= m -> (m <= j -> 4 * j + 4 <= V) ->
  nib (Z.land a (Word.notw V (lowmask m))) j = if j <? m then 0 else nib a j.
Proof.
  intros. destruct (Z.ltb_spec j m).
  - rewrite <- (Z.bits_inj' (nib (Z.land a (Word.notw V (lowmask m))) j) 0); [done|].
    intros k Hk. rewrite nib_testbit, Z.testbit_0_l by lia. rewrite Z.land_spec, ?lnot_lowmask_testbit, ?lowmask_testbit by lia; bits_auto.
  - apply nib_ext; [lia..|]. intros k Hk. rewrite Z.land_spec, ?lnot_lowmask_testbit, ?lowmask_testbit by lia; bits_auto.
Qed.

Lemma nib_shlw a m j :
  0 <= j -> 0 <= m -> 4 * j + 4 <= V ->
  nib (Word.shlw V a (4 * m)) j = if j <? m then 0 else nib a (j - m).
Proof.
  intros. destruct (Z.ltb_spec j m).
  - rewrite <- (Z.bits_inj' (nib (Word.shlw V a (4 * m)) j) 0); [done|].
    intros k Hk. rewrite nib_testbit, Z.testbit_0_l by lia. bits_auto.
  - apply nib_ext; [lia..|]. intros k Hk. bits_auto.
Qed.

(** A window of [m] nibbles from nibble [c] on, and its complement. *)
Lemma window_testbit c m n :
  0 <= c -> 0 <= m -> 0 <= n ->
  Z.testbit (Word.shlw V (lowmask m) (4 * c)) n =
    ((n <? V) && (4 * c <=? n) && (n <? 4 * (c + m)))%bool.
Proof.
  intros. rewrite Word.shlw_testbit by lia. destruct (Z.leb_spec (4 * c) n).
  - rewrite lowmask_testbit by lia. bit_cases; done.
  - rewrite Z.testbit_neg_r by lia. by rewrite !andb_false_r.
Qed.

Lemma nib_land_window a c m j :
  0 <= j -> 0 <= c -> 0 <= m -> (j < c + m -> 4 * j + 4 <= V) ->
  nib (Z.land a (Word.shlw V (lowmask m) (4 * c))) j =
    if (c <=? j) && (j <? c + m) then nib a j else 0.
Proof.
  intros. destruct (Z.leb_spec c j), (Z.ltb_spec j (c + m)); cbn.
  1: apply nib_ext; [lia..|]; intros k Hk; rewrite Z.land_spec, window_testbit by lia;
    bit_cases; destruct (Z.leb_spec (4 * c) (4 * j + k)); [by rewrite !andb_true_r | lia].
  all: rewrite <- (Z.bits_inj' (nib (Z.land a (Word.shlw V (lowmask m) (4 * c))) j) 0);
    [done|]; intros k Hk; rewrite nib_testbit, Z.testbit_0_l, Z.land_spec, window_testbit by lia;
    bit_cases; destruct (Z.leb_spec (4 * c) (4 * j + k)); try lia; by rewrite ?andb_false_r.
Qed.

Lemma nib_land_not_window a c m j :
  0 <= j -> 0 <= c -> 0 <= m -> 4 * j + 4 <= V ->
  nib (Z.land a (Word.notw V (Word.shlw V (lowmask m) (4 * c)))) j =
    if (c <=? j) && (j <? c + m) then 0 else nib a j.
Proof.
  intros. destruct (Z.leb_spec c j), (Z.ltb_spec j (c + m)); cbn.
  1: rewrite <- (Z.bits_inj' (nib (Z.land a (Word.notw V (Word.shlw V (lowmask m) (4 * c)))) j) 0);
    [done|]; intros k Hk;
    rewrite nib_testbit, Z.testbit_0_l, Z.land_spec, Word.lnot_wrap_testbit, window_testbit by lia;
    bit_cases; destruct (Z.leb_spec (4 * c) (4 * j + k)); try lia; by rewrite ?andb_false_r.
  all: apply nib_ext; [lia..|]; intros k Hk;
    rewrite Z.land_spec, Word.lnot_wrap_testbit, window_testbit by lia;
    bit_cases; destruct (Z.leb_spec (4 * c) (4 * j + k)); try lia;
    by rewrite ?andb_true_r, ?andb_false_r.
Qed.

Lemma nib_wrap a j : 0 <= j -> 4 * j + 4 <= V -> nib (Word.wrap V a) j = nib a j.
Proof. intros. apply nib_ext; [lia..|]. intros k Hk. bits_auto. Qed.

Lemma nib_shiftr a m j : 0 <= j -> 0 <= m -> nib (Z.shiftr a (4 * m)) j = nib a (j + m).
Proof. intros. apply nib_ext; [lia..|]. intros k Hk. bits_auto. Qed.

Lemma nib_digit v j : 0 <= j -> 0 <= v < 16 -> nib v j = if j =? 0 then v else 0.
Proof.
  intros Hj Hv. unfold nib. change 15 with (Z.ones 4).
  rewrite Z.land_ones, Z.shiftr_div_pow2 by lia. destruct (Z.eqb_spec j 0) as [->|].
  - rewrite Z.div_1_r. apply Z.mod_small. lia.
  - rewrite (Z.div_small v); [done|]. split; [lia|].
    apply Z.lt_le_trans with (2 ^ 4); [lia|]. apply Z.pow_le_mono_r; lia.
Qed.
End nibbles.

(** ** Results and stateful computations *)

(** The ways an execution can go wrong or not return. *)
Inductive fault :=
  | NullPointer      (* dereference of a null pointer *)
  | WrongKind        (* a static_cast to the wrong node type or union member *)
  | OutOfBounds      (* an access outside an array or buffer *)
  | AssertFailed     (* a precondition or invariant of the source fails *)
  | Deadlock         (* a spin loop whose condition no other thread will change *)
  | InvalidArgument  (* a thrown std::invalid_argument *)
  | OutOfFuel.       (* the bound on loop iterations was too small *)

#[export] Instance fault_eq_dec : EqDecision fault.
Proof. solve_decision. Defined.

Inductive res (A : Type) :=
  | Ok (a : A)
  | Fault (f : fault).
Arguments Ok {A} a.
Arguments Fault {A} f.

#[export] Instance res_ret : MRet res := fun A a => Ok a.
#[export] Instance res_bind : MBind res := fun A B k r =>
  match r with Ok a => k a | Fault f => Fault f end.
#[export] Instance res_fmap : FMap res := fun A B g r =>
  match r with Ok a => Ok (g a) | Fault f => Fault f end.

(** Stateful computations that may fault: the code's side effects on [S]. *)
Definition sm (S A : Type) : Type := S -> res (A * S).

#[export] Instance sm_ret {S} : MRet (sm S) := fun A a s => Ok (a, s).
#[export] Instance sm_bind {S} : MBind (sm S) := fun A B k m s =>
  match m s with Ok (a, s') => k a s' | Fault f => Fault f end.

(** The same bind, its arguments in the order of execution. *)
Definition sbind {S A B} (m : sm S A) (k : A -> sm S B) : sm S B := sm_bind A B k m.

Declare Scope lhm_scope.
Delimit Scope lhm_scope with lhm.
Notation "'let*' x ':=' m 'in' k" := (sbind m (fun x => k))
  (at level 10, x pattern, m at level 200, k at level 200) : lhm_scope.

Definition rbind {A B} (r : res A) (k : A -> res B) : res B := res_bind A B k r.
Notation "'let?' x ':=' m 'in' k" := (rbind m (fun x => k))
  (at level 10, x pattern, m at level 200, k at level 200) : lhm_scope.

Definition get_state {S} : sm S S := fun s => Ok (s, s).
Definition put_state {S} (s : S) : sm S unit := fun _ => Ok (tt, s).
Definition fail {S A} (f : fault) : sm S A := fun _ => Fault f.
Definition lift {S A} (r : res A) : sm S A :=
  fun s => match r with Ok a => Ok (a, s) | Fault f => Fault f end.
Definition check {S} (b : bool) : sm S unit := if b then mret tt else fail AssertFailed.
Definition check_res (b : bool) : res unit := if b then Ok tt else Fault AssertFailed.
Definition deref {S A} (p : option A) : sm S A :=
  match p with Some a => mret a | None => fail NullPointer end.

Lemma res_bind_ok {A B} (r : res A) (k : A -> res B) b :
  (r ≫= k) = Ok b <-> exists a, r = Ok a /\ k a = Ok b.
Proof.
  destruct r as [a|f]; cbn.
  - split; [eauto|]. by intros (? & [= ->] & ?).
  - split; [done|]. by intros (? & ? & ?).
Qed.

Lemma sm_bind_ok {S A B} (m : sm S A) (k : A -> sm S B) s r :
  (m ≫= k) s = Ok r <-> exists a s', m s = Ok (a, s') /\ k a s' = Ok r.
Proof.
  unfold mbind, sm_bind. destruct (m s) as [[a s']|f].
  - split; [eauto|]. by intros (? & ? & [= -> ->] & ?).
  - split; [done|]. by intros (? & ? & ? & ?).
Qed.

Lemma sbind_ok {S A B} (m : sm S A) (k : A -> sm S B) s r :
  sbind m k s = Ok r <-> exists a s', m s = Ok (a, s') /\ k a s' = Ok r.
Proof. apply (sm_bind_ok m k). Qed.

Lemma rbind_ok {A B} (r : res A) (k : A -> res B) b :
  rbind r k = Ok b <-> exists a, r = Ok a /\ k a = Ok b.
Proof. apply (res_bind_ok r k). Qed.

Lemma rbind_Ok {A B} (a : A) (k : A -> res B) : rbind (Ok a) k = k a.
Proof. done. Qed.

(** ** Running the state monad *)

Lemma sbind_run {S A B} (m : sm S A) (k : A -> sm S B) s a s' :
  m s = Ok (a, s') -> sbind m k s = k a s'.
Proof. intros H. unfold sbind, sm_bind. by rewrite H. Qed.

Lemma mbind_run {S A B} (m : sm S A) (k : A -> sm S B) s a s' :
  m s = Ok (a, s') -> (m ≫= k) s = k a s'.
Proof. intros H. unfold mbind, sm_bind. by rewrite H. Qed.

Lemma mbind_ret_run {S A B} (a : A) (k : A -> sm S B) s : (mret a ≫= k) s = k a s.
Proof. done. Qed.

Lemma mbind_assoc_run {S A B C} (m : sm S A) (k1 : A -> sm S B) (k2 : B -> sm S C) s :
  ((m ≫= k1) ≫= k2) s = (m ≫= (fun a => k1 a ≫= k2)) s.
Proof. unfold mbind, sm_bind. by destruct (m s) as [[a s']|f]. Qed.

Lemma sbind_mbind {S A B C} (m : sm S A) (k1 : A -> sm S B) (k2 : B -> sm S C) s :
  sbind (m ≫= k1) k2 s = (m ≫= (fun a => sbind (k1 a) k2)) s.
Proof. unfold sbind, mbind, sm_bind. by destruct (m s) as [[a s']|f]. Qed.

Lemma sbind_assoc {S A B C} (m : sm S A) (k1 : A -> sm S B) (k2 : B -> sm S C) s :
  sbind (sbind m k1) k2 s = sbind m (fun a => sbind (k1 a) k2) s.
Proof. unfold sbind, sm_bind. by destruct (m s) as [[a s']|f]. Qed.

Lemma sbind_ret {S A B} (a : A) (k : A -> sm S B) s : sbind (mret a) k s = k a s.
Proof. done. Qed.

Lemma lift_run {S A} (r : res A) a (s : S) : r = Ok a -> lift r s = Ok (a, s).
Proof. by intros ->. Qed.

Lemma check_true {S} b (s : S) : b = true -> check b s = Ok (tt, s).
Proof. by intros ->. Qed.

(** Fixed-size arrays: an access outside the array is a fault. *)
Definition aget {A} (l : list A) (i : Z) : res A :=
  if i <? 0 then Fault OutOfBounds
  else match l !! Z.to_nat i with Some a => Ok a | None => Fault OutOfBounds end.

Definition aset {A} (l : list A) (i : Z) (a : A) : res (list A) :=
  if (0 <=? i) && (i <? Z.of_nat (length l)) then Ok (<[Z.to_nat i := a]> l)
  else Fault OutOfBounds.

(** A read whose index is known to be in range, as in the comparators. *)
Definition nthZ (d : Z) (l : list Z) (i : Z) : Z := nth (Z.to_nat i) l d.

Lemma aget_ok {A} (l : list A) i a :
  aget l i = Ok a <-> 0 <= i /\ l !! Z.to_nat i = Some a.
Proof.
  unfold aget. destruct (Z.ltb_spec i 0); [split; [done|lia]|].
  destruct (l !! Z.to_nat i) as [x|]; split.
  - by intros [= ->].
  - by intros [_ [= ->]].
  - done.
  - by intros [_ ?].
Qed.

Lemma aset_ok {A} (l l' : list A) i a :
  aset l i a = Ok l' <-> 0 <= i < Z.of_nat (length l) /\ l' = <[Z.to_nat i := a]> l.
Proof.
  unfold aset. destruct (Z.leb_spec 0 i), (Z.ltb_spec i (Z.of_nat (length l))); cbn; split.
  - intros [= <-]. split; [lia|done].
  - by intros [_ ->].
  - done.
  - intros [? ?]. lia.
  - done.
  - intros [? ?]. lia.
  - done.
  - intros [? ?]. lia.
Qed.

(** A decided fact on every element of a list holds of each of them. *)
Lemma forallb_elem {A} (f : A -> bool) xs x : forallb f xs = true -> x ∈ xs -> f x = true.
Proof. rewrite forallb_forall. intros H Hx. by apply H, list_elem_of_In. Qed.

Lemma aget_total {A} (xs : list A) i : 0 <= i < Z.of_nat (length xs) -> exists x, aget xs i = Ok x.
Proof.
  intros Hi. destruct (lookup_lt_is_Some_2 xs (Z.to_nat i)) as [x Hx]; [lia|].
  exists x. apply aget_ok. split; [lia|done].
Qed.

Lemma aset_total {A} (xs : list A) i x :
  0 <= i < Z.of_nat (length xs) -> aset xs i x = Ok (<[Z.to_nat i := x]> xs).
Proof. intros Hi. by apply aset_ok. Qed.

(** ** Configuration *)

(** The longest key, as the build is configured by default. *)
Definition MASSTREE_MAXKEYLEN : Z := 1024.

(** ** Bytes *)

(** Little-endian value of a byte string and back. *)
Fixpoint le_value (bs : list Z) : Z :=
  match bs with [] => 0 | b :: r => b + 256 * le_value r end.

Fixpoint le_bytes (n : nat) (x : Z) : list Z :=
  match n with O => [] | S n' => x mod 256 :: le_bytes n' (x / 256) end.

Definition is_byte (b : Z) : Prop := 0 <= b < 256.

Lemma length_le_bytes n x : length (le_bytes n x) = n.
Proof. revert x. induction n; intros; cbn; auto. Qed.

Lemma le_bytes_range n x : Forall is_byte (le_bytes n x).
Proof.
  revert x. induction n as [|n IH]; intros x; cbn; constructor; [|apply IH].
  apply Z.mod_pos_bound. lia.
Qed.

Lemma le_value_bytes n x : le_value (le_bytes n x) = x mod 2 ^ (8 * Z.of_nat n).
Proof.
  revert x. induction n as [|n IH]; intros x; cbn [le_value le_bytes].
  - by rewrite Z.mod_1_r.
  - rewrite IH. replace (8 * Z.of_nat (S n)) with (8 + 8 * Z.of_nat n) by lia.
    rewrite Z.pow_add_r, Z.rem_mul_r by lia. change (2 ^ 8) with 256.
    pose proof (Z.pow_pos_nonneg 2 (8 * Z.of_nat n) ltac:(lia) ltac:(lia)). lia.
Qed.

Lemma le_bytes_value bs : Forall is_byte bs -> le_bytes (length bs) (le_value bs) = bs.
Proof.
  induction 1 as [|b bs Hb _ IH]; cbn; [done|]. unfold is_byte in Hb. f_equal.
  - rewrite Z.mul_comm, Z.mod_add, Z.mod_small by lia. done.
  - rewrite Z.mul_comm, Z.div_add, Z.div_small by lia. exact IH.
Qed.

Lemma le_value_range bs :
  Forall is_byte bs -> 0 <= le_value bs < 2 ^ (8 * Z.of_nat (length bs)).
Proof.
  induction 1 as [|b bs Hb _ IH]; cbn [le_value length]; [done|]. unfold is_byte in Hb.
  replace (8 * Z.of_nat (S (length bs))) with (8 + 8 * Z.of_nat (length bs)) by lia.
  rewrite Z.pow_add_r by lia. change (2 ^ 8) with 256. lia.
Qed.

Lemma le_value_app bs cs :
  le_value (bs ++ cs) = le_value bs + 2 ^ (8 * Z.of_nat (length bs)) * le_value cs.
Proof.
  induction bs as [|b bs IH]; cbn [le_value app length].
  - rewrite Z.mul_0_r. change (2 ^ 0) with 1. lia.
  - rewrite IH. replace (8 * Z.of_nat (S (length bs))) with (8 + 8 * Z.of_nat (length bs)) by lia.
    rewrite Z.pow_add_r by lia. change (2 ^ 8) with 256. lia.
Qed.
