(* ===== verification/KPermuter.v ===== *)
(** * Key permuters (kpermuter.hh)

    A permuter packs a permutation of the slots of a leaf and the number of
    slots in use into one word: nibble 0 is the size, nibble [i + 1] is the
    slot at position [i].  The definitions are the word operations of the
    source with their wrap-around; [elems] reads a word as a list, and the
    lemmas relate every operation to an operation on that list. *)

From S2P Require Import Prelude.
Local Open Scope Z_scope.

Import Word.

(** ** [sized_kpermuter_info] *)

(** [info<W>]: the storage width, the width of [value_type] and the two
    constants, chosen by [(W > 3) + (W > 7) + (W > 15)]. *)
Record info := mk_info {
  storage_bits : Z;
  value_bits : Z;
  initial_value : Z;
  full_value : Z
}.

Definition sized_kpermuter_info (W : Z) : info :=
  if W <=? 3 then mk_info 16 32 0x0120 0x2100
  else if W <=? 7 then mk_info 32 32 0x01234560 0x65432100
  else mk_info 64 64 0x0123456789ABCDE0 0xEDCBA98765432100.

Definition max_width (W : Z) : Z := storage_bits (sized_kpermuter_info W) / 8 * 2 - 1.

Definition size_bits : Z := 4.

(** Bits of [value_type]. *)
Definition vbits (W : Z) : Z := value_bits (sized_kpermuter_info W).

Section kpermuter.
Context (W : Z).

Definition make_empty : Z :=
  let p := Z.shiftr (initial_value (sized_kpermuter_info W))
                    (Z.shiftl (max_width W - W) 2) in
  Z.land p (notw (vbits W) 15).

Definition make_sorted (n : Z) : Z :=
  let mask := subw (vbits W) (if n =? W then 0 else shlw (vbits W) 16 (Z.shiftl n 2)) 1 in
  Z.lor (Z.lor (shlw (vbits W) make_empty (Z.shiftl n 2))
               (Z.land (full_value (sized_kpermuter_info W)) mask)) n.

Definition size (x : Z) : Z := Z.land x 15.

Definition get (x i : Z) : Z := Z.land (Z.shiftr x (Z.shiftl i 2 + 4)) 15.

Definition back (x : Z) : Z := get x (W - 1).

Definition value_from (x i : Z) : Z := Z.shiftr x (Z.shiftl (i + 1) 2).

Definition set_size (x n : Z) : Z := Z.lor (Z.land x (notw (vbits W) 15)) n.

(** Returns the new word and the slot that was allocated. *)
Definition insert_from_back (x i : Z) : Z * Z :=
  let value := back x in
  (Z.lor (Z.lor
     (Z.land (addw (vbits W) x 1) (subw (vbits W) (shlw (vbits W) 16 (Z.shiftl i 2)) 1))
     (shlw (vbits W) value (Z.shiftl i 2 + 4)))
     (Z.land (shlw (vbits W) x 4) (notw (vbits W) (subw (vbits W) (shlw (vbits W) 256 (Z.shiftl i 2)) 1))),
   value).

Definition insert_selected (x di si : Z) : Z :=
  let value := get x si in
  let mask := subw (vbits W) (shlw (vbits W) 256 (Z.shiftl si 2)) 1 in
  Z.lor (Z.lor (Z.lor
     (Z.land (addw (vbits W) x 1) (subw (vbits W) (shlw (vbits W) 16 (Z.shiftl di 2)) 1))
     (shlw (vbits W) value (Z.shiftl di 2 + 4)))
     (Z.land (Z.land (shlw (vbits W) x 4) mask)
             (notw (vbits W) (subw (vbits W) (shlw (vbits W) 256 (Z.shiftl di 2)) 1))))
     (Z.land x (notw (vbits W) mask)).

Definition remove (x i : Z) : Z :=
  if Z.land x 15 =? i + 1 then subw (vbits W) x 1
  else
    let rot_amount := Z.shiftl (Z.land x 15 - i - 1) 2 in
    let rot_mask := shlw (vbits W) (subw (vbits W) (shlw (vbits W) 16 rot_amount) 1) (Z.shiftl (i + 1) 2) in
    Z.lor (Z.lor
      (Z.land (subw (vbits W) x 1) (notw (vbits W) rot_mask))
      (Z.land (Z.shiftr (Z.land x rot_mask) 4) rot_mask))
      (Z.land (shlw (vbits W) (Z.land x rot_mask) rot_amount) rot_mask).

Definition remove_to_back (x i : Z) : Z :=
  let mask := notw (vbits W) (subw (vbits W) (shlw (vbits W) 16 (Z.shiftl i 2)) 1) in
  let x := Z.land x (subw (vbits W) (shlw (vbits W) 16 (Z.shiftl W 2)) 1) in
  Z.lor (Z.lor
    (Z.land (subw (vbits W) x 1) (notw (vbits W) mask))
    (Z.land (Z.shiftr x 4) mask))
    (shlw (vbits W) (Z.land x mask) (Z.shiftl (W - i - 1) 2)).

Definition rotate (x i j : Z) : Z :=
  let mask := subw (vbits W) (if i =? W then 0 else shlw (vbits W) 16 (Z.shiftl i 2)) 1 in
  let x := Z.land x (subw (vbits W) (shlw (vbits W) 16 (Z.shiftl W 2)) 1) in
  Z.lor (Z.lor
    (Z.land x mask)
    (Z.land (Z.shiftr x (Z.shiftl (j - i) 2)) (notw (vbits W) mask)))
    (shlw (vbits W) (Z.land x (notw (vbits W) mask)) (Z.shiftl (W - j) 2)).

Definition exchange (x i j : Z) : Z :=
  let diff := Z.land (Z.lxor (Z.shiftr x (Z.shiftl i 2)) (Z.shiftr x (Z.shiftl j 2))) 240 in
  Z.lxor x (Z.lor (shlw (vbits W) diff (Z.shiftl i 2)) (shlw (vbits W) diff (Z.shiftl j 2))).

(** The loop [for (i = 0; i < W; ++i, diff <<= 4, p <<= 4)]: [n] iterations
    are left. *)
Fixpoint exchange_values_loop (n : nat) (diff p a b : Z) : Z :=
  match n with
  | O => diff
  | S n' =>
      let v := Z.land (Z.shiftr p (Z.shiftl W 2)) 15 in
      let diff' := Z.lxor diff
        (Z.land (wrap (vbits W) (- Z.lor (Z.b2z (v =? a)) (Z.b2z (v =? b)))) (Z.lxor a b)) in
      exchange_values_loop n' (shlw (vbits W) diff' 4) (shlw (vbits W) p 4) a b
  end.

Definition exchange_values (x a b : Z) : Z :=
  Z.lxor x (exchange_values_loop (Z.to_nat W) 0 x a b).

(** One round of [unparse]'s loop prints the element [p & 15]. *)
Definition unparse_digit (d : Z) : Z :=
  if d <? 10 then 48 + d else 97 + d - 10.

Fixpoint unparse_loop (fuel : nat) (i n p seen : Z) : list Z * Z :=
  match fuel with
  | O => ([], seen)
  | S fuel' =>
      let colon := if i =? n then [58] else [] in
      if i =? W then (colon, seen)
      else
        let '(rest, seen') :=
          unparse_loop fuel' (i + 1) n (Z.shiftr p 4)
            (Z.lor seen (shlw (vbits W) 1 (Z.land p 15))) in
        (colon ++ unparse_digit (Z.land p 15) :: rest, seen')
  end.

(** [unparse]: the digits of the permutation, a colon after the elements
    in use, and ["?!"] when the elements are not exactly [0..W). *)
Definition unparse (x : Z) : list Z :=
  let '(s, seen) := unparse_loop (Z.to_nat W + 1) 0 (Z.land x 15) (Z.shiftr x 4) 0 in
  if seen =? Z.shiftl 1 W - 1 then s else s ++ [63; 33].

End kpermuter.

(** [identity_kpermuter]: the permuter of an internode, where position and
    slot coincide. *)
Definition identity_kpermuter : Type := Z.
Definition identity_size (p : identity_kpermuter) : Z := p.
Definition identity_get (p : identity_kpermuter) (i : Z) : Z := i.

(** ** Operations digit by digit *)

Lemma shl2 i : Z.shiftl i 2 = 4 * i.
Proof. rewrite Z.shiftl_mul_pow2 by lia. lia. Qed.

Lemma shl2_pos i : Z.shiftl i 2 + 4 = 4 * (i + 1).
Proof. rewrite shl2. lia. Qed.

Lemma get_nib x i : get x i = nib x (i + 1).
Proof. unfold get, nib. rewrite shl2. do 2 f_equal. lia. Qed.

Lemma size_nib x : size x = nib x 0.
Proof. unfold size, nib. cbn. by rewrite Z.shiftr_0_r. Qed.

Lemma get_range x i : 0 <= get x i < 16.
Proof. rewrite get_nib. apply nib_range. Qed.

Lemma size_range x : 0 <= size x < 16.
Proof. rewrite size_nib. apply nib_range. Qed.

Lemma mask16 V i : 0 <= i -> subw V (shlw V 16 (4 * i)) 1 = lowmask V (i + 1).
Proof.
  intros. unfold subw, shlw, lowmask.
  change 16 with (2 ^ 4). rewrite shiftl_pow2 by lia. do 5 f_equal. lia.
Qed.

Lemma mask256 V i : 0 <= i -> subw V (shlw V 256 (4 * i)) 1 = lowmask V (i + 2).
Proof.
  intros. unfold subw, shlw, lowmask.
  change 256 with (2 ^ 8). rewrite shiftl_pow2 by lia. do 5 f_equal. lia.
Qed.

Lemma mask15 V : 8 <= V -> 15 = lowmask V 1.
Proof.
  intros. unfold lowmask. change (2 ^ (4 * 1)) with 16.
  assert (2 ^ 8 <= 2 ^ V) by (apply Z.pow_le_mono_r; lia).
  rewrite (wrap_small V 16), wrap_small; [done|split; lia..].
Qed.

Lemma nib_addw_1 V x j :
  0 <= j -> 4 * j + 4 <= V -> nib x 0 < 15 ->
  nib (addw V x 1) j = if j =? 0 then nib x 0 + 1 else nib x j.
Proof. intros. unfold addw. rewrite nib_wrap by lia. by apply nib_succ. Qed.

Lemma nib_subw_1 V x j :
  0 <= j -> 4 * j + 4 <= V -> 0 < nib x 0 ->
  nib (subw V x 1) j = if j =? 0 then nib x 0 - 1 else nib x j.
Proof. intros. unfold subw. rewrite nib_wrap by lia. by apply nib_pred. Qed.

Lemma shlw_4 V a : shlw V a 4 = shlw V a (4 * 1).
Proof. done. Qed.

Lemma shiftr_4 a : Z.shiftr a 4 = Z.shiftr a (4 * 1).
Proof. done. Qed.

(** Evaluate one digit of a word built by the permuter, then decide the
    position comparisons. *)
Ltac digit_step :=
  first
    [ rewrite nib_lor by lia
    | rewrite nib_lxor by lia
    | rewrite nib_land_not_window by lia
    | rewrite nib_land_window by lia
    | rewrite nib_land_low by lia
    | rewrite nib_land_high by lia
    | rewrite nib_shlw by lia
    | rewrite nib_shiftr by lia
    | rewrite nib_addw_1 by (rewrite ?nib_land_low by lia; zcases; lia)
    | rewrite nib_subw_1 by (rewrite ?nib_land_low by lia; zcases; lia)
    | match goal with |- context [nib ?v ?j] =>
        rewrite (nib_digit v j) by (apply nib_range || lia) end ].

Ltac digits :=
  zcases; cbn [andb]; rewrite ?Z.lor_0_r, ?Z.lor_0_l;
  first [ digit_step; digits
        | subst; first [reflexivity | lia | f_equal; lia | idtac] ].

Section digit_ops.
Context (W : Z) (HW : 1 <= W <= 15).

Lemma vbits_wide : 4 * W + 4 <= vbits W.
Proof.
  unfold vbits, sized_kpermuter_info.
  destruct (Z.leb_spec W 3), (Z.leb_spec W 7); cbn; lia.
Qed.

Lemma vbits_32 : 32 <= vbits W.
Proof.
  unfold vbits, sized_kpermuter_info.
  destruct (Z.leb_spec W 3), (Z.leb_spec W 7); cbn; lia.
Qed.

Lemma insert_from_back_nib x i j :
  0 <= i < W -> size x < W -> 0 <= j <= W ->
  nib (fst (insert_from_back W x i)) j =
    if j =? 0 then size x + 1
    else if j <=? i then nib x j
    else if j =? i + 1 then nib x W
    else nib x (j - 1).
Proof.
  intros Hi Hs Hj. pose proof vbits_wide.
  rewrite size_nib in *. unfold insert_from_back, back; cbn [fst].
  rewrite shl2_pos, shl2, mask16, mask256, shlw_4, get_nib by lia.
  replace (W - 1 + 1) with W by lia. digits.
Qed.

Lemma set_size_nib x n j :
  0 <= n < 16 -> 0 <= j <= W ->
  nib (set_size W x n) j = if j =? 0 then n else nib x j.
Proof.
  intros Hn Hj. pose proof vbits_wide. pose proof vbits_32. unfold set_size.
  rewrite (mask15 (vbits W)) by lia. digits.
Qed.

Lemma insert_selected_nib x di si j :
  0 <= di <= si -> si < W -> size x < W -> 0 <= j <= W ->
  nib (insert_selected W x di si) j =
    if j =? 0 then size x + 1
    else if j <=? di then nib x j
    else if j =? di + 1 then nib x (si + 1)
    else if j <=? si + 1 then nib x (j - 1)
    else nib x j.
Proof.
  intros Hd Hs Hsz Hj. pose proof vbits_wide.
  rewrite size_nib in *. unfold insert_selected.
  rewrite shl2_pos, !shl2, mask16, !mask256, shlw_4, get_nib by lia. digits.
Qed.

Lemma remove_nib x i j :
  0 <= i < size x -> size x <= W -> 0 <= j <= W ->
  nib (remove W x i) j =
    if j =? 0 then size x - 1
    else if j <=? i then nib x j
    else if j <? size x then nib x (j + 1)
    else if j =? size x then nib x (i + 1)
    else nib x j.
Proof.
  intros Hi Hs Hj. pose proof vbits_wide. unfold remove.
  fold (size x). rewrite size_nib in *. destruct (Z.eqb_spec (nib x 0) (i + 1)).
  - digits.
  - rewrite !shl2, mask16, shiftr_4 by lia. digits.
Qed.

Lemma remove_to_back_nib x i j :
  0 <= i < size x -> size x <= W -> 0 <= j <= W ->
  nib (remove_to_back W x i) j =
    if j =? 0 then size x - 1
    else if j <=? i then nib x j
    else if j <? W then nib x (j + 1)
    else nib x (i + 1).
Proof.
  intros Hi Hs Hj. pose proof vbits_wide. unfold remove_to_back.
  rewrite size_nib in *. rewrite !shl2, !mask16, shiftr_4, lnot_lnot_lowmask by lia. digits.
Qed.

Lemma rotate_nib x i k j :
  0 <= i <= k -> k <= W -> 0 <= j <= W ->
  nib (rotate W x i k) j =
    if j <=? i then nib x j
    else if j <=? W - (k - i) then nib x (j + (k - i))
    else nib x (j - (W - k)).
Proof.
  intros Hi Hk Hj. pose proof vbits_wide. pose proof vbits_32. unfold rotate.
  assert (subw (vbits W) (if i =? W then 0 else shlw (vbits W) 16 (Z.shiftl i 2)) 1
          = if i =? W then lowmask (vbits W) (vbits W) else lowmask (vbits W) (i + 1)) as ->.
  { destruct (Z.eqb_spec i W); [|rewrite shl2; apply mask16; lia].
    unfold subw, lowmask. f_equal. f_equal. unfold wrap.
    replace (4 * vbits W) with (vbits W + 3 * vbits W) by lia.
    rewrite Z.pow_add_r, Z.mul_comm by lia. symmetry. apply Z.mod_mul. lia. }
  rewrite !shl2, mask16 by lia. digits.
Qed.

Lemma exchange_nib x a b j :
  0 <= a < W -> 0 <= b < W -> 0 <= j <= W ->
  nib (exchange W x a b) j =
    if j =? a + 1 then nib x (b + 1)
    else if j =? b + 1 then nib x (a + 1)
    else nib x j.
Proof.
  intros Ha Hb Hj. pose proof vbits_wide. pose proof vbits_32. unfold exchange.
  rewrite !shl2.
  set (d := Z.land (Z.lxor (Z.shiftr x (4 * a)) (Z.shiftr x (4 * b))) 240).
  assert (forall m, 0 <= m ->
    nib d m = if m =? 1 then Z.lxor (nib x (a + 1)) (nib x (b + 1)) else 0) as Hd.
  { intros m Hm. unfold d. apply Z.bits_inj'. intros k Hk.
    change 240 with (Z.shiftl (Z.ones 4) 4).
    rewrite nib_testbit, Z.land_spec, Z.shiftl_spec, Z.lxor_spec, !Z.shiftr_spec by lia.
    destruct (Z.eqb_spec m 1) as [->|Hm1].
    - rewrite Z.lxor_spec, !nib_testbit, ones_spec_ltb by lia.
      bit_cases; try done. rewrite andb_true_r. f_equal; f_equal; lia.
    - rewrite Z.testbit_0_l. destruct (Z.ltb_spec k 4); [|done]. cbn [andb].
      destruct (Z.eq_dec m 0) as [->|].
      + rewrite (Z.testbit_neg_r _ (4 * 0 + k - 4)) by lia. apply andb_false_r.
      + rewrite ones_spec_ltb by lia. bit_cases; apply andb_false_r. }
  rewrite nib_lxor, nib_lor, !nib_shlw by lia.
  zcases; rewrite ?Hd by lia; zcases; subst;
    rewrite ?Z.lor_0_r, ?Z.lor_0_l, ?Z.lxor_0_r; try reflexivity; try (f_equal; lia).
  all: try (replace b with a by lia).
  all: rewrite ?Z.lor_diag, ?Z.lxor_nilpotent, ?Z.lxor_0_r, <- ?Z.lxor_assoc.
  all: rewrite ?Z.lxor_nilpotent, ?Z.lxor_0_l; try done.
  all: rewrite (Z.lxor_comm (nib x (b + 1))), Z.lxor_assoc, Z.lxor_nilpotent, Z.lxor_0_r; done.
Qed.
End digit_ops.

(** ** The list a permuter stands for *)

(** The slots in position order: the first [size x] are in use. *)
Definition elems (W x : Z) : list Z := get x <$> seqZ 0 W.

(** The slots in use, in key order. *)
Definition active (W x : Z) : list Z := take (Z.to_nat (size x)) (elems W x).

(** A permuter is well formed when it permutes the slots [0..W). *)
Definition wf (W x : Z) : Prop := size x <= W /\ elems W x ≡ₚ seqZ 0 W.

Section lists.
Context (W : Z) (HW : 1 <= W <= 15).

Lemma length_elems x : length (elems W x) = Z.to_nat W.
Proof. unfold elems. by rewrite length_fmap, length_seqZ. Qed.

Lemma elems_lookup x (j : nat) :
  Z.of_nat j < W -> elems W x !! j = Some (get x (Z.of_nat j)).
Proof.
  intros. unfold elems. rewrite list_lookup_fmap, lookup_seqZ_lt by lia.
  done.
Qed.

(** Words with the same digits list the same slots. *)
Lemma elems_eq x l :
  length l = Z.to_nat W ->
  (forall j : nat, Z.of_nat j < W -> l !! j = Some (nib x (Z.of_nat j + 1))) ->
  elems W x = l.
Proof.
  intros Hlen Hl. apply list_eq. intros j. destruct (decide (Z.of_nat j < W)) as [Hj|Hj].
  - by rewrite elems_lookup, Hl, get_nib by lia.
  - by rewrite !lookup_ge_None_2 by (rewrite ?length_elems; lia).
Qed.

Lemma elems_nib_lookup x (j : nat) :
  Z.of_nat j < W -> elems W x !! j = Some (nib x (Z.of_nat j + 1)).
Proof. intros. by rewrite elems_lookup, get_nib. Qed.

Lemma back_last x : back W x = nib x W.
Proof. unfold back. rewrite get_nib. f_equal. lia. Qed.

Ltac list_digit Hnib :=
  apply elems_eq;
  [ repeat progress (rewrite ?length_app, ?length_take, ?length_drop, ?length_elems;
      cbn [length]); lia
  | let j := fresh "j" in
    intros j ?; rewrite Hnib by lia ].

Lemma insert_from_back_elems x (i : nat) :
  Z.of_nat i < W -> size x < W ->
  elems W (fst (insert_from_back W x (Z.of_nat i))) =
    take i (elems W x) ++ back W x :: drop i (take (Z.to_nat (W - 1)) (elems W x)).
Proof.
  intros Hi Hs. list_digit (insert_from_back_nib W HW).
  destruct (lt_eq_lt_dec j i) as [[Hlt| ->]|Hgt].
  - rewrite lookup_app_l by (rewrite length_take, length_elems; lia).
    rewrite lookup_take_lt, elems_nib_lookup by lia. by zcases.
  - rewrite lookup_app_r by (rewrite length_take, length_elems; lia).
    rewrite length_take, length_elems.
    replace (i - i `min` Z.to_nat W)%nat with 0%nat by lia. cbn.
    rewrite back_last. by zcases.
  - rewrite lookup_app_r by (rewrite length_take, length_elems; lia).
    rewrite length_take, length_elems.
    replace (j - i `min` Z.to_nat W)%nat with (S (j - i - 1)) by lia.
    rewrite lookup_cons; cbv iota. rewrite lookup_drop, lookup_take_lt, elems_nib_lookup by lia. zcases.
    do 2 f_equal. lia.
Qed.

Lemma remove_elems x (i : nat) :
  Z.of_nat i < size x -> size x <= W ->
  elems W (remove W x (Z.of_nat i)) =
    take i (elems W x)
    ++ drop (S i) (take (Z.to_nat (size x)) (elems W x))
    ++ get x (Z.of_nat i) :: drop (Z.to_nat (size x)) (elems W x).
Proof.
  intros Hi Hs. pose proof (size_range x).
  list_digit (remove_nib W HW). rewrite get_nib.
  repeat (rewrite lookup_app; rewrite ?length_take, ?length_drop, ?length_take, ?length_elems).
  destruct (lt_dec j i) as [Hlt|Hge].
  { rewrite lookup_take_lt, elems_nib_lookup by lia. by zcases. }
  rewrite (lookup_ge_None_2 (take i _)) by (rewrite length_take, length_elems; lia).
  destruct (lt_dec (S j) (Z.to_nat (size x))) as [Hlt|Hge2].
  { rewrite lookup_drop, lookup_take_lt, elems_nib_lookup by lia. zcases. do 2 f_equal. lia. }
  rewrite (lookup_ge_None_2 (drop _ (take _ _)))
    by (rewrite length_drop, length_take, length_elems; lia).
  destruct (decide (S j = Z.to_nat (size x))) as [Heq|Hne].
  { match goal with |- (_ :: _) !! ?n = _ => replace n with 0%nat by lia end.
    cbn. by zcases. }
  match goal with |- (_ :: _) !! ?n = _ => replace n with (S (j - Z.to_nat (size x))) by lia end.
  rewrite lookup_cons; cbv iota. rewrite lookup_drop, elems_nib_lookup by lia.
  zcases. do 2 f_equal. lia.
Qed.

Lemma remove_to_back_elems x (i : nat) :
  Z.of_nat i < size x -> size x <= W ->
  elems W (remove_to_back W x (Z.of_nat i)) =
    take i (elems W x) ++ drop (S i) (elems W x) ++ [get x (Z.of_nat i)].
Proof.
  intros Hi Hs. pose proof (size_range x).
  list_digit (remove_to_back_nib W HW). rewrite get_nib.
  repeat (rewrite lookup_app; rewrite ?length_take, ?length_drop, ?length_take, ?length_elems).
  destruct (lt_dec j i) as [Hlt|Hge].
  { rewrite lookup_take_lt, elems_nib_lookup by lia. by zcases. }
  rewrite (lookup_ge_None_2 (take i _)) by (rewrite length_take, length_elems; lia).
  destruct (lt_dec (S j) (Z.to_nat W)) as [Hlt|Hge2].
  { rewrite lookup_drop, elems_nib_lookup by lia. zcases. do 2 f_equal. lia. }
  rewrite (lookup_ge_None_2 (drop _ _)) by (rewrite length_drop, length_elems; lia).
  match goal with |- [_] !! ?n = _ => replace n with 0%nat by lia end.
  cbn. zcases. do 2 f_equal.
Qed.

Lemma rotate_elems x (i j : nat) :
  (i <= j)%nat -> Z.of_nat j <= W ->
  elems W (rotate W x (Z.of_nat i) (Z.of_nat j)) =
    take i (elems W x) ++ drop j (elems W x) ++ drop i (take j (elems W x)).
Proof.
  intros Hi Hj. apply elems_eq.
  { rewrite !length_app, !length_drop, !length_take, !length_elems. lia. }
  intros k Hk. rewrite rotate_nib by lia.
  repeat (rewrite lookup_app; rewrite ?length_take, ?length_drop, ?length_take, ?length_elems).
  destruct (lt_dec k i) as [Hlt|Hge].
  { rewrite lookup_take_lt, elems_nib_lookup by lia. by zcases. }
  rewrite (lookup_ge_None_2 (take i _)) by (rewrite length_take, length_elems; lia).
  destruct (lt_dec (j + (k - i)) (Z.to_nat W)) as [Hlt|Hge2].
  { rewrite lookup_drop, elems_nib_lookup by lia. zcases. do 2 f_equal. lia. }
  rewrite (lookup_ge_None_2 (drop _ _)) by (rewrite length_drop, length_elems; lia).
  rewrite lookup_drop, lookup_take_lt, elems_nib_lookup by lia. zcases. do 2 f_equal. lia.
Qed.

Lemma exchange_elems x (i j : nat) :
  Z.of_nat i < W -> Z.of_nat j < W ->
  elems W (exchange W x (Z.of_nat i) (Z.of_nat j)) =
    <[i := get x (Z.of_nat j)]> (<[j := get x (Z.of_nat i)]> (elems W x)).
Proof.
  intros Hi Hj. apply elems_eq; [by rewrite !length_insert, length_elems|].
  intros k Hk. rewrite exchange_nib, !get_nib by lia.
  destruct (decide (k = i)) as [->|Hki].
  { rewrite list_lookup_insert_eq by (rewrite length_insert, length_elems; lia).
    by zcases. }
  rewrite list_lookup_insert_ne by done. destruct (decide (k = j)) as [->|Hkj].
  { rewrite list_lookup_insert_eq by (rewrite length_elems; lia). by zcases. }
  rewrite list_lookup_insert_ne, elems_nib_lookup by lia. by zcases.
Qed.

(** Sizes. *)
Lemma insert_from_back_size x i :
  0 <= i < W -> size x < W -> size (fst (insert_from_back W x i)) = size x + 1.
Proof. intros. rewrite (size_nib (fst _)), insert_from_back_nib by lia; by zcases. Qed.

Lemma remove_size x i : 0 <= i < size x -> size x <= W -> size (remove W x i) = size x - 1.
Proof. intros. rewrite (size_nib (remove _ _ _)), remove_nib by lia; by zcases. Qed.

Lemma remove_to_back_size x i :
  0 <= i < size x -> size x <= W -> size (remove_to_back W x i) = size x - 1.
Proof. intros. rewrite (size_nib (remove_to_back _ _ _)), remove_to_back_nib by lia; by zcases. Qed.

Lemma exchange_size x i j : 0 <= i < W -> 0 <= j < W -> size (exchange W x i j) = size x.
Proof. intros. rewrite !size_nib, exchange_nib by lia. by zcases. Qed.

Lemma set_size_size x n : 0 <= n < 16 -> size (set_size W x n) = n.
Proof. intros. rewrite size_nib, set_size_nib by lia; by zcases. Qed.

Lemma set_size_elems x n : 0 <= n < 16 -> elems W (set_size W x n) = elems W x.
Proof.
  intros. apply elems_eq; [apply length_elems|]. intros j Hj.
  rewrite set_size_nib, elems_nib_lookup by lia. by zcases.
Qed.
End lists.

(** ** Correctness of the operations *)

Section correctness.
Context (W : Z) (HW : 1 <= W <= 15).

Lemma wf_NoDup x : wf W x -> NoDup (elems W x).
Proof. intros [_ ->]. apply NoDup_seqZ. Qed.

Lemma active_lookup x (j : nat) :
  size x <= W -> Z.of_nat j < size x -> active W x !! j = Some (get x (Z.of_nat j)).
Proof. intros. unfold active. by rewrite lookup_take_lt, elems_lookup by lia. Qed.

Lemma length_active x : size x <= W -> length (active W x) = Z.to_nat (size x).
Proof. intros. unfold active. rewrite length_take, length_elems. pose proof (size_range x). lia. Qed.

(** A list split around its last element. *)
Lemma elems_split_back x :
  elems W x = take (Z.to_nat (W - 1)) (elems W x) ++ [back W x].
Proof.
  rewrite <- (take_drop (Z.to_nat (W - 1)) (elems W x)) at 1. f_equal.
  rewrite (drop_S _ (back W x)), drop_ge; [done|rewrite length_elems; lia|].
  rewrite elems_lookup by lia. unfold back. do 2 f_equal. lia.
Qed.

Lemma insert_from_back_wf x (i : nat) :
  wf W x -> Z.of_nat i <= size x -> size x < W ->
  wf W (fst (insert_from_back W x (Z.of_nat i))).
Proof.
  intros [Hs Hp] Hi Hlt. split.
  - rewrite insert_from_back_size; lia.
  - rewrite <- Hp, insert_from_back_elems by lia. set (m := Z.to_nat (W - 1)).
    transitivity (take i (elems W x) ++ drop i (take m (elems W x)) ++ [back W x]).
    + apply Permutation_app_head. rewrite Permutation_app_comm. done.
    + replace (take i (elems W x)) with (take i (take m (elems W x)))
        by (rewrite take_take; f_equal; lia).
      rewrite app_assoc, take_drop. by rewrite <- elems_split_back.
Qed.

Lemma insert_from_back_active x (i : nat) :
  Z.of_nat i <= size x -> size x < W ->
  active W (fst (insert_from_back W x (Z.of_nat i))) =
    take i (active W x) ++ back W x :: drop i (active W x).
Proof.
  intros Hi Hs. pose proof (size_range x). unfold active.
  rewrite insert_from_back_size, insert_from_back_elems by lia.
  rewrite take_app, length_take, length_elems, take_take.
  replace (i `min` Z.to_nat W)%nat with i by lia.
  replace (Z.to_nat (size x + 1) - i)%nat with (S (Z.to_nat (size x) - i)) by lia.
  rewrite firstn_cons, !take_take, take_drop_commute, take_take.
  f_equal; [f_equal; lia|]. f_equal. f_equal. f_equal. lia.
Qed.

Lemma remove_wf x (i : nat) :
  wf W x -> Z.of_nat i < size x -> wf W (remove W x (Z.of_nat i)).
Proof.
  intros [Hs Hp] Hi. split; [rewrite remove_size; lia|].
  rewrite <- Hp, remove_elems by lia. set (n := Z.to_nat (size x)).
  transitivity (take i (elems W x) ++ drop i (elems W x)); [|by rewrite take_drop].
  apply Permutation_app_head.
  rewrite (drop_S _ (get x (Z.of_nat i)) i) by (apply elems_lookup; lia).
  rewrite <- Permutation_middle. apply perm_skip.
  rewrite <- (take_drop (n - S i) (drop (S i) (elems W x))), drop_drop, take_drop_commute.
  by replace (S i + (n - S i))%nat with n by lia.
Qed.

Lemma remove_active x (i : nat) :
  Z.of_nat i < size x -> size x <= W ->
  active W (remove W x (Z.of_nat i)) = delete i (active W x).
Proof.
  intros Hi Hs. pose proof (size_range x). unfold active.
  rewrite remove_size, remove_elems, delete_take_drop by lia.
  rewrite app_assoc, take_app_le, take_ge.
  - rewrite take_take. f_equal. f_equal. lia.
  - rewrite length_app, length_drop, !length_take, length_elems. lia.
  - rewrite length_app, length_drop, !length_take, length_elems. lia.
Qed.

Lemma remove_to_back_wf x (i : nat) :
  wf W x -> Z.of_nat i < size x -> wf W (remove_to_back W x (Z.of_nat i)).
Proof.
  intros [Hs Hp] Hi. split; [rewrite remove_to_back_size; lia|].
  rewrite <- Hp, remove_to_back_elems by lia.
  transitivity (take i (elems W x) ++ drop i (elems W x)); [|by rewrite take_drop].
  apply Permutation_app_head.
  rewrite (drop_S _ (get x (Z.of_nat i)) i) by (apply elems_lookup; lia).
  rewrite Permutation_app_comm. done.
Qed.

Lemma remove_to_back_active x (i : nat) :
  Z.of_nat i < size x -> size x <= W ->
  active W (remove_to_back W x (Z.of_nat i)) = delete i (active W x).
Proof.
  intros Hi Hs. pose proof (size_range x). unfold active.
  rewrite remove_to_back_size, remove_to_back_elems, delete_take_drop by lia.
  rewrite take_app, length_take, length_elems, !take_take.
  rewrite (take_app_le (drop _ _)) by (rewrite length_drop, length_elems; lia).
  rewrite take_drop_commute. f_equal; [f_equal; lia|]. f_equal. f_equal. lia.
Qed.

Lemma remove_to_back_back x (i : nat) :
  Z.of_nat i < size x -> size x <= W ->
  back W (remove_to_back W x (Z.of_nat i)) = get x (Z.of_nat i).
Proof.
  intros Hi Hs. rewrite back_last, remove_to_back_nib, get_nib by lia. by zcases.
Qed.

Lemma exchange_wf x (i j : nat) :
  wf W x -> Z.of_nat i < W -> Z.of_nat j < W ->
  wf W (exchange W x (Z.of_nat i) (Z.of_nat j)).
Proof.
  intros [Hs Hp] Hi Hj. split; [by rewrite exchange_size by lia|].
  rewrite <- Hp, exchange_elems by done.
  apply Permutation_insert_swap; by apply elems_lookup.
Qed.

Lemma set_size_wf x n : wf W x -> 0 <= n <= W -> wf W (set_size W x n).
Proof.
  intros [Hs Hp] Hn. split; [rewrite set_size_size; lia|]. by rewrite set_size_elems by lia.
Qed.

(** Exchanging positions beyond the ones in use. *)
Lemma exchange_active x (i j : nat) :
  size x <= Z.of_nat i < W -> size x <= Z.of_nat j < W ->
  active W (exchange W x (Z.of_nat i) (Z.of_nat j)) = active W x.
Proof.
  intros Hi Hj. unfold active. rewrite exchange_size, exchange_elems by lia.
  by rewrite !take_insert_ge by lia.
Qed.

Lemma set_size_active x n :
  0 <= n <= size x -> size x <= W -> active W (set_size W x n) = take (Z.to_nat n) (active W x).
Proof.
  intros Hn Hs. unfold active. rewrite set_size_size, set_size_elems, take_take by lia.
  f_equal. lia.
Qed.

(** The digits of [make_sorted] for every width and size. *)
Definition make_sorted_check : bool :=
  forallb (fun w => forallb (fun n =>
    bool_decide (elems w (make_sorted w n) = seqZ 0 n ++ reverse (seqZ n (w - n)))
    && (size (make_sorted w n) =? n)) (seqZ 0 (w + 1))) (seqZ 1 15).

Lemma make_sorted_spec n :
  0 <= n <= W ->
  elems W (make_sorted W n) = seqZ 0 n ++ reverse (seqZ n (W - n)) /\
  size (make_sorted W n) = n.
Proof.
  intros Hn. assert (make_sorted_check = true) as Hc by (vm_compute; reflexivity).
  unfold make_sorted_check in Hc. rewrite forallb_forall in Hc.
  specialize (Hc W). rewrite <- list_elem_of_In, elem_of_seqZ, forallb_forall in Hc.
  specialize (Hc ltac:(lia) n). rewrite <- list_elem_of_In, elem_of_seqZ in Hc.
  specialize (Hc ltac:(lia)). apply andb_prop in Hc as [H1 H2].
  apply bool_decide_eq_true in H1. by apply Z.eqb_eq in H2.
Qed.

Lemma make_sorted_wf n : 0 <= n <= W -> wf W (make_sorted W n).
Proof.
  intros Hn. destruct (make_sorted_spec n Hn) as [He Hs]. split; [lia|].
  rewrite He, reverse_Permutation.
  replace (seqZ 0 W) with (seqZ 0 n ++ seqZ (0 + n) (W - n)); [done|].
  rewrite <- seqZ_app by lia. f_equal. lia.
Qed.

Lemma make_sorted_active n : 0 <= n <= W -> active W (make_sorted W n) = seqZ 0 n.
Proof.
  intros Hn. destruct (make_sorted_spec n Hn) as [He Hs]. unfold active.
  rewrite Hs, He, take_app_le, take_ge; rewrite ?length_seqZ; done || lia.
Qed.
End correctness.

(** ** Properties *)

(** C37: for every width up to 15, [make_sorted], [insert_from_back], [remove],
    [remove_to_back], [exchange] and [set_size] keep a permuter a permutation of
    the slots, whatever the position. *)
Theorem permuter_ops_wf (W : Z) (HW : 1 <= W <= 15) :
  (forall n, 0 <= n <= W -> wf W (make_sorted W n)) /\
  (forall x, wf W x ->
     (forall i : nat, Z.of_nat i <= size x -> size x < W ->
        wf W (fst (insert_from_back W x (Z.of_nat i)))) /\
     (forall i : nat, Z.of_nat i < size x -> wf W (remove W x (Z.of_nat i))) /\
     (forall i : nat, Z.of_nat i < size x -> wf W (remove_to_back W x (Z.of_nat i))) /\
     (forall i j : nat, Z.of_nat i < W -> Z.of_nat j < W ->
        wf W (exchange W x (Z.of_nat i) (Z.of_nat j))) /\
     (forall n, 0 <= n <= W -> wf W (set_size W x n))).
Proof.
  split; [by apply make_sorted_wf|]. intros x Hx. repeat split_and.
  - intros. by apply insert_from_back_wf.
  - intros. by apply remove_wf.
  - intros. by apply remove_to_back_wf.
  - intros. by apply exchange_wf.
  - intros. by apply set_size_wf.
Qed.

Lemma permuter_ops_wf_witness : wf 7 (fst (insert_from_back 7 (make_sorted 7 3) (Z.of_nat 1))).
Proof.
  assert (wf 7 (make_sorted 7 3)) as H by (apply (permuter_ops_wf 7); lia).
  exact (proj1 (proj2 (permuter_ops_wf 7 ltac:(lia)) _ H) 1%nat
           ltac:(vm_compute; congruence) ltac:(vm_compute; congruence)).
Defined.

(** [insert_from_back i] allocates the slot at the back of the word, one
    that was not in use, and puts it at position [i] of the slots in use:
    earlier positions keep their slot, later ones move up by one. *)
Lemma insert_from_back_spec (W x : Z) (i : nat) (HW : 1 <= W <= 15) (Hx : wf W x)
    (Hi : Z.of_nat i <= size x) (Hs : size x < W) :
  let '(x', v) := insert_from_back W x (Z.of_nat i) in
  v = back W x /\ (v ∉ active W x) /\ size x' = size x + 1 /\
  active W x' = take i (active W x) ++ v :: drop i (active W x).
Proof.
  pose proof (insert_from_back_active W HW x i Hi Hs) as Ha.
  pose proof (insert_from_back_size W HW x (Z.of_nat i) ltac:(lia) Hs) as Hsz.
  destruct (insert_from_back W x (Z.of_nat i)) as [x' v] eqn:E. cbn in *.
  assert (v = back W x) as -> by (injection E; congruence).
  repeat split_and; try done. pose proof (wf_NoDup W x Hx) as Hnd.
  rewrite (elems_split_back W HW x) in Hnd. apply NoDup_app in Hnd. destruct Hnd as (_ & Hd & _).
  intros Hin. apply (Hd (back W x)); [|by apply list_elem_of_singleton]. unfold active in Hin.
  replace (Z.to_nat (size x)) with (Z.to_nat (size x) `min` Z.to_nat (W - 1))%nat in Hin by lia.
  rewrite <- take_take in Hin. apply elem_of_take in Hin as (k & Hk & _).
  by apply list_elem_of_lookup_2 in Hk.
Qed.

(** [remove i] and [remove_to_back i] both delete position [i] from the
    slots in use and shrink the size by one; [remove] parks the freed slot
    just behind the slots in use, [remove_to_back] at the very back, where
    the next [insert_from_back] takes it from. *)
Lemma remove_spec (W x : Z) (i : nat) (HW : 1 <= W <= 15) (Hx : size x <= W)
    (Hi : Z.of_nat i < size x) :
  active W (remove W x (Z.of_nat i)) = delete i (active W x) /\
  get (remove W x (Z.of_nat i)) (size x - 1) = get x (Z.of_nat i) /\
  active W (remove_to_back W x (Z.of_nat i)) = delete i (active W x) /\
  back W (remove_to_back W x (Z.of_nat i)) = get x (Z.of_nat i) /\
  size (remove W x (Z.of_nat i)) = size x - 1 /\
  size (remove_to_back W x (Z.of_nat i)) = size x - 1.
Proof.
  repeat split_and.
  - by apply remove_active.
  - rewrite get_nib, remove_nib, get_nib by lia. zcases; f_equal; lia.
  - by apply remove_to_back_active.
  - by apply remove_to_back_back.
  - apply remove_size; lia.
  - apply remove_to_back_size; lia.
Qed.

(** removing a slot to the back and inserting from the back at the same
    position restores the size and every position of the permutation. *)
Lemma remove_to_back_insert (W x : Z) (i : nat) (HW : 1 <= W <= 15) (Hx : size x <= W)
    (Hi : Z.of_nat i < size x) :
  let x' := fst (insert_from_back W (remove_to_back W x (Z.of_nat i)) (Z.of_nat i)) in
  size x' = size x /\ elems W x' = elems W x.
Proof.
  intros x'. pose proof (remove_to_back_size W HW x (Z.of_nat i) ltac:(lia) Hx) as Hs.
  unfold x'. split; [rewrite insert_from_back_size; lia|].
  apply (elems_eq W HW); [by apply length_elems|]. intros j Hj.
  rewrite insert_from_back_nib, elems_nib_lookup by lia.
  rewrite !remove_to_back_nib by lia. zcases; do 2 f_equal; lia.
Qed.

(** [rotate i j] rotates the positions from [i] up to the width [W], free
    slots included; the documented rotation up to [size()] is what it computes
    only for a full permuter. *)
Lemma rotate_spec (W x : Z) (i j : nat) (HW : 1 <= W <= 15) (Hij : (i <= j)%nat)
    (Hj : Z.of_nat j <= W) :
  elems W (rotate W x (Z.of_nat i) (Z.of_nat j)) =
    take i (elems W x) ++ drop j (elems W x) ++ drop i (take j (elems W x)) /\
  size (rotate W x (Z.of_nat i) (Z.of_nat j)) = size x.
Proof.
  split; [by apply rotate_elems|].
  rewrite !size_nib, rotate_nib by lia. by zcases.
Qed.

