(* ===== verification/NodeVersion.v ===== *)
(** * Node versions (nodeversion.hh)

    Every Masstree node starts with a version word that is at once its lock,
    its set of flags and a pair of counters that readers compare.  The
    definitions are the word operations of the class [nodeversion<P>]; [P] is
    given by the positions of its bits, so both parameter sets of the source
    are instances.  The last part is a small-step model of one version word
    shared by writers and a reader. *)

From S2P Require Import Prelude.
Local Open Scope Z_scope.

Import Word.

(** ** [nodeversion_parameters] *)

(** [lock_pos] is the position of [lock_bit] (the inserting, splitting and
    [vinsert_lowbit] bits follow it), [vsplit_pos] that of [vsplit_lowbit],
    [vwidth] the width of the word, whose top four bits are flags. *)
Record nodeversion_parameters := mk_params {
  lock_pos : Z;
  vsplit_pos : Z;
  vwidth : Z
}.

Definition params32 : nodeversion_parameters := mk_params 0 9 32.
Definition params64 : nodeversion_parameters := mk_params 8 27 64.

Section parameters.
Context (P : nodeversion_parameters).

Definition lock_bit : Z := Z.shiftl 1 (lock_pos P).
Definition inserting_shift : Z := lock_pos P + 1.
Definition inserting_bit : Z := Z.shiftl 1 (lock_pos P + 1).
Definition splitting_bit : Z := Z.shiftl 1 (lock_pos P + 2).
Definition dirty_mask : Z := Z.lor inserting_bit splitting_bit.
Definition vinsert_lowbit : Z := Z.shiftl 1 (lock_pos P + 3).
Definition vsplit_lowbit : Z := Z.shiftl 1 (vsplit_pos P).
Definition unused1_bit : Z := Z.shiftl 1 (vwidth P - 4).
Definition deleted_bit : Z := Z.shiftl 1 (vwidth P - 3).
Definition root_bit : Z := Z.shiftl 1 (vwidth P - 2).
Definition isleaf_bit : Z := Z.shiftl 1 (vwidth P - 1).
Definition split_unlock_mask : Z :=
  notw (vwidth P) (Z.lor (Z.lor root_bit unused1_bit) (vsplit_lowbit - 1)).
Definition unlock_mask : Z :=
  notw (vwidth P) (Z.lor unused1_bit (vinsert_lowbit - 1)).
Definition top_stable_bits : Z := 4.

(** ** [nodeversion<P>] *)

Definition flag (v b : Z) : bool := negb (Z.land v b =? 0).

Definition make_version (is_leaf : bool) : Z := if is_leaf then isleaf_bit else 0.

Definition isleaf (v : Z) : bool := flag v isleaf_bit.
Definition is_dirty (v : Z) : bool := flag v dirty_mask.
Definition locked (v : Z) : bool := flag v lock_bit.
Definition inserting (v : Z) : bool := flag v inserting_bit.
Definition splitting (v : Z) : bool := flag v splitting_bit.
Definition deleted (v : Z) : bool := flag v deleted_bit.
Definition is_root (v : Z) : bool := flag v root_bit.

(** [v] is the current word, [x] the version the caller holds. *)
Definition has_changed (v x : Z) : bool := Z.lxor x v >? lock_bit.
Definition has_split (v x : Z) : bool := Z.lxor x v >=? vsplit_lowbit.
Definition simple_has_split (v x : Z) : bool := Z.lxor x v >=? vsplit_lowbit.

(** [stable]: returns once the word read is not dirty.  With no other thread
    running the word cannot change, so a dirty word spins for ever: [None]. *)
Definition stable (v : Z) : option Z := if is_dirty v then None else Some v.
Definition stable_annotated (v : Z) : option Z := stable v.

(** One round of the loop of [lock]: the compare-and-swap succeeds when the
    expected word is unlocked and is the current one. *)
Definition try_cas_lock (v expected : Z) : option Z :=
  if negb (locked expected) && (v =? expected) then Some (Z.lor expected lock_bit) else None.

(** [lock(expected)]: after a failed round the expected word is reloaded, so
    when no other thread runs the second round decides. *)
Definition lock (v expected : Z) : option Z :=
  match try_cas_lock v expected with
  | Some v' => Some v'
  | None => try_cas_lock v v
  end.

Definition try_lock (v : Z) : option Z := try_cas_lock v v.

Definition unlock (x : Z) : Z :=
  if splitting x then Z.land (addw (vwidth P) x vsplit_lowbit) split_unlock_mask
  else Z.land (addw (vwidth P) x (shlw (vwidth P) (Z.land x inserting_bit) 2)) unlock_mask.

Definition mark_insert (v : Z) : Z := Z.lor v inserting_bit.
Definition mark_split (v : Z) : Z := Z.lor v splitting_bit.
Definition mark_change (v : Z) (is_split : bool) : Z :=
  Z.lor v (Z.shiftl (Z.b2z is_split + 1) inserting_shift).
Definition mark_deleted (v : Z) : Z := Z.lor v (Z.lor deleted_bit splitting_bit).
Definition mark_deleted_tree (v : Z) : Z := Z.lor v deleted_bit.
Definition mark_root (v : Z) : Z := Z.lor v root_bit.
Definition mark_nonroot (v : Z) : Z := Z.land v (notw (vwidth P) root_bit).

Definition assign_version (v x : Z) : Z := x.
Definition version_value (v : Z) : Z := v.
Definition unlocked_version_value (v : Z) : Z := Z.land v unlock_mask.

(** ** [singlethreaded_nodeversion<P>] *)

Definition st_make_version (is_leaf : bool) : Z := if is_leaf then isleaf_bit else 0.
Definition st_isleaf (v : Z) : bool := flag v isleaf_bit.
Definition st_stable (v : Z) : Z := v.
Definition st_locked (v : Z) : bool := false.
Definition st_inserting (v : Z) : bool := false.
Definition st_splitting (v : Z) : bool := false.
Definition st_deleted (v : Z) : bool := false.
Definition st_has_changed (v x : Z) : bool := false.
Definition st_is_root (v : Z) : bool := flag v root_bit.
Definition st_has_split (v x : Z) : bool := false.
Definition st_lock (v : Z) : Z := v.
Definition st_try_lock (v : Z) : bool := true.
Definition st_unlock (v : Z) : Z := v.
Definition st_mark_insert (v : Z) : Z := v.
Definition st_mark_split (v : Z) : Z := Z.land v (notw (vwidth P) root_bit).
Definition st_mark_change (v : Z) (is_split : bool) : Z :=
  if is_split then st_mark_split v else v.
Definition st_mark_deleted (v : Z) : Z := v.
Definition st_mark_deleted_tree (v : Z) : Z := Z.lor v deleted_bit.
Definition st_mark_root (v : Z) : Z := Z.lor v root_bit.
Definition st_mark_nonroot (v : Z) : Z := Z.land v (notw (vwidth P) root_bit).
Definition st_version_value (v : Z) : Z := v.

End parameters.

(** ** Bits of a version word *)

(** The parameter sets the proofs cover: the fields follow each other in the
    order of the source. *)
Class ParamsOk (P : nodeversion_parameters) : Prop := {
  ok_lock : 0 <= lock_pos P;
  ok_vsplit : lock_pos P + 3 < vsplit_pos P;
  ok_vwidth : vsplit_pos P < vwidth P - 4
}.

#[export] Instance params32_ok : ParamsOk params32.
Proof. split; cbn; lia. Qed.

#[export] Instance params64_ok : ParamsOk params64.
Proof. split; cbn; lia. Qed.

(** A word the protocol can reach: in range, nothing set below the lock bit,
    and the bit that absorbs the carry of the split counter clear. *)
Definition version_ok (P : nodeversion_parameters) (v : Z) : Prop :=
  is_word (vwidth P) v /\
  (forall n, 0 <= n < lock_pos P -> Z.testbit v n = false) /\
  Z.testbit v (vwidth P - 4) = false.

Lemma flag_testbit v n : 0 <= n -> flag v (Z.shiftl 1 n) = Z.testbit v n.
Proof.
  intros Hn. unfold flag. rewrite Z.shiftl_1_l.
  destruct (Z.testbit v n) eqn:E.
  - destruct (Z.eqb_spec (Z.land v (2 ^ n)) 0) as [H|]; [|done].
    apply (f_equal (fun z => Z.testbit z n)) in H.
    rewrite Z.land_spec, Z.pow2_bits_true, E, Z.testbit_0_l in H by lia. done.
  - destruct (Z.eqb_spec (Z.land v (2 ^ n)) 0) as [|H]; [done|]. exfalso. apply H.
    apply Z.bits_inj'. intros k Hk. rewrite Z.land_spec, Z.testbit_0_l.
    destruct (Z.eq_dec k n) as [->|Hne]; [by rewrite E|].
    rewrite Z.pow2_bits_false by lia. apply andb_false_r.
Qed.

Lemma shiftl1_testbit k n : 0 <= k -> 0 <= n -> Z.testbit (Z.shiftl 1 k) n = (n =? k).
Proof.
  intros Hk Hn. rewrite Z.shiftl_1_l. destruct (Z.eqb_spec n k) as [->|].
  - apply Z.pow2_bits_true. lia.
  - apply Z.pow2_bits_false. lia.
Qed.

Lemma flag_lor v a b : flag v (Z.lor a b) = flag v a || flag v b.
Proof.
  unfold flag. rewrite Z.land_lor_distr_r.
  destruct (Z.eqb_spec (Z.land v a) 0) as [->|Ha]; cbn; [by rewrite Z.lor_0_l|].
  destruct (Z.eqb_spec (Z.lor (Z.land v a) (Z.land v b)) 0) as [H|]; [|done].
  apply Z.lor_eq_0_iff in H. tauto.
Qed.

Section bits.
Context (P : nodeversion_parameters) {HP : ParamsOk P}.

Abbreviation l := (lock_pos P).
Abbreviation s := (vsplit_pos P).
Abbreviation N := (vwidth P).

Ltac pos := destruct HP; lia.

Lemma locked_bit v : locked P v = Z.testbit v l.
Proof. apply flag_testbit. pos. Qed.
Lemma inserting_testbit v : inserting P v = Z.testbit v (l + 1).
Proof. apply flag_testbit. pos. Qed.
Lemma splitting_testbit v : splitting P v = Z.testbit v (l + 2).
Proof. apply flag_testbit. pos. Qed.
Lemma dirty_testbit v : is_dirty P v = Z.testbit v (l + 1) || Z.testbit v (l + 2).
Proof.
  unfold is_dirty, dirty_mask. rewrite flag_lor. unfold inserting_bit, splitting_bit.
  rewrite !flag_testbit by pos. done.
Qed.
Lemma is_root_testbit v : is_root P v = Z.testbit v (N - 2).
Proof. apply flag_testbit. pos. Qed.
Lemma deleted_testbit v : deleted P v = Z.testbit v (N - 3).
Proof. apply flag_testbit. pos. Qed.
Lemma isleaf_testbit v : isleaf P v = Z.testbit v (N - 1).
Proof. apply flag_testbit. pos. Qed.

Lemma mark_insert_testbit v n :
  0 <= n -> Z.testbit (mark_insert P v) n = Z.testbit v n || (n =? l + 1).
Proof. intros. unfold mark_insert, inserting_bit. rewrite Z.lor_spec, shiftl1_testbit by pos. done. Qed.

Lemma mark_split_testbit v n :
  0 <= n -> Z.testbit (mark_split P v) n = Z.testbit v n || (n =? l + 2).
Proof. intros. unfold mark_split, splitting_bit. rewrite Z.lor_spec, shiftl1_testbit by pos. done. Qed.

Lemma mark_deleted_testbit v n :
  0 <= n -> Z.testbit (mark_deleted P v) n = Z.testbit v n || (n =? N - 3) || (n =? l + 2).
Proof.
  intros. unfold mark_deleted, splitting_bit, deleted_bit.
  rewrite !Z.lor_spec, !shiftl1_testbit by pos. by rewrite orb_assoc.
Qed.

Lemma low_mask_testbit k n : 0 <= k -> 0 <= n -> Z.testbit (Z.shiftl 1 k - 1) n = (n <? k).
Proof. intros. rewrite Z.shiftl_1_l, pow2_pred_ones, ones_spec_ltb by lia. done. Qed.

Lemma split_unlock_mask_testbit n :
  0 <= n ->
  Z.testbit (split_unlock_mask P) n =
    (n <? N) && negb ((n =? N - 2) || (n =? N - 4) || (n <? s)).
Proof.
  intros. unfold split_unlock_mask, root_bit, unused1_bit, vsplit_lowbit.
  rewrite lnot_wrap_testbit, !Z.lor_spec, !shiftl1_testbit, low_mask_testbit by pos. done.
Qed.

Lemma unlock_mask_testbit n :
  0 <= n ->
  Z.testbit (unlock_mask P) n = (n <? N) && negb ((n =? N - 4) || (n <? l + 3)).
Proof.
  intros. unfold unlock_mask, unused1_bit, vinsert_lowbit.
  rewrite lnot_wrap_testbit, !Z.lor_spec, !shiftl1_testbit, low_mask_testbit by pos. done.
Qed.

(** What [unlock] adds to the word before masking. *)
Definition unlock_pos (x : Z) : Z := if splitting P x then s else l + 3.
Definition unlock_add (x : Z) : Z := if is_dirty P x then 2 ^ unlock_pos x else 0.

Lemma inserting_shifted x :
  is_word N x ->
  shlw N (Z.land x (inserting_bit P)) 2 = if inserting P x then 2 ^ (l + 3) else 0.
Proof.
  intros Hx. rewrite inserting_testbit. apply Z.bits_inj'. intros n Hn. unfold inserting_bit.
  rewrite shlw_testbit by pos. destruct (Z.lt_ge_cases n 2).
  { rewrite Z.testbit_neg_r by lia. rewrite andb_false_r.
    destruct (Z.testbit x (l + 1)); [|by rewrite Z.testbit_0_l].
    rewrite Z.pow2_bits_false by pos. done. }
  rewrite Z.land_spec, shiftl1_testbit by pos.
  destruct (Z.eqb_spec (n - 2) (l + 1)) as [He|He].
  - rewrite He, andb_true_r. replace n with (l + 3) by lia.
    destruct (Z.testbit x (l + 1)).
    + rewrite Z.pow2_bits_true by pos. destruct (Z.ltb_spec (l + 3) N); [done|pos].
    + rewrite Z.testbit_0_l. apply andb_false_r.
  - rewrite !andb_false_r. destruct (Z.testbit x (l + 1)); [|by rewrite Z.testbit_0_l].
    rewrite Z.pow2_bits_false by lia. done.
Qed.

(** Bits below the counters are cleared, the counters count, the flags stay
    (but a split clears the root flag). *)
Lemma unlock_testbit x n :
  version_ok P x -> 0 <= n ->
  Z.testbit (unlock P x) n =
    (unlock_pos x <=? n) && negb (n =? N - 4) && negb (splitting P x && (n =? N - 2))
    && (n <? N) && Z.testbit (x + unlock_add x) n.
Proof.
  intros [Hw _] Hn. unfold unlock, unlock_add, unlock_pos.
  destruct (splitting P x) eqn:Es.
  - assert (is_dirty P x = true) as ->.
    { rewrite dirty_testbit, <- splitting_testbit, Es. apply orb_true_r. }
    unfold vsplit_lowbit. rewrite Z.shiftl_1_l, Z.land_spec, split_unlock_mask_testbit by lia.
    unfold addw. rewrite wrap_spec by pos. destruct (Z.ltb_spec n s), (Z.leb_spec s n); try lia;
    destruct (n =? N - 2), (n =? N - 4), (n <? N); cbn; by rewrite ?andb_true_r, ?andb_false_r.
  - assert (is_dirty P x = inserting P x) as ->.
    { rewrite dirty_testbit, <- splitting_testbit, Es, inserting_testbit. apply orb_false_r. }
    rewrite inserting_shifted, Z.land_spec, unlock_mask_testbit by done.
    unfold addw. rewrite wrap_spec by pos.
    destruct (Z.ltb_spec n (l + 3)), (Z.leb_spec (l + 3) n); try lia;
    destruct (inserting P x); destruct (n =? N - 4), (n <? N); cbn; by rewrite ?andb_true_r, ?andb_false_r.
Qed.

(** The insert and split counters read as one number, and its modulus. *)
Definition vcount (v : Z) : Z := (v mod 2 ^ (N - 4)) / 2 ^ (l + 3).
Definition vcount_modulus : Z := 2 ^ (N - 4 - (l + 3)).
(** A split step rounds the counter up to a multiple of this. *)
Definition vcount_stride : Z := 2 ^ (s - (l + 3)).

Lemma unlock_counter_bits x :
  version_ok P x ->
  unlock P x mod 2 ^ (N - 4) =
    2 ^ unlock_pos x * (((x + unlock_add x) / 2 ^ unlock_pos x) mod 2 ^ (N - 4 - unlock_pos x)).
Proof.
  intros Hx. assert (0 <= unlock_pos x < N - 4).
  { unfold unlock_pos. destruct (splitting P x); pos. }
  apply Z.bits_inj'. intros n Hn. rewrite Z.mul_comm, Z.mul_pow2_bits by lia.
  change (unlock P x mod 2 ^ (N - 4)) with (wrap (N - 4) (unlock P x)).
  rewrite wrap_spec, unlock_testbit by (done || lia).
  destruct (Z.leb_spec (unlock_pos x) n).
  - rewrite <- mod_div_pow2, Z.div_pow2_bits by lia.
    replace (n - unlock_pos x + unlock_pos x) with n by lia.
    change ((x + unlock_add x) mod 2 ^ (N - 4)) with (wrap (N - 4) (x + unlock_add x)).
    rewrite wrap_spec by lia.
    destruct (Z.ltb_spec n (N - 4)); [|done]. cbn.
    destruct (Z.eqb_spec n (N - 4)), (Z.eqb_spec n (N - 2)), (Z.ltb_spec n N); try lia.
    by rewrite andb_false_r.
  - rewrite (Z.testbit_neg_r _ (n - _)) by lia. apply andb_false_r.
Qed.

Lemma unlock_count x :
  version_ok P x ->
  exists d, vcount (unlock P x) = (vcount x + d) mod vcount_modulus /\
    (if is_dirty P x then 1 <= d <= vcount_stride else d = 0).
Proof.
  intros Hx. unfold vcount at 1. rewrite unlock_counter_bits by done.
  assert (l + 3 <= unlock_pos x < N - 4) as Hp.
  { unfold unlock_pos. destruct (splitting P x); pos. }
  set (p := unlock_pos x) in *. set (q := x / 2 ^ (l + 3)).
  assert (0 < 2 ^ (p - (l + 3))) by (apply Z.pow_pos_nonneg; lia).
  assert (0 < 2 ^ (l + 3)) by (apply Z.pow_pos_nonneg; pos).
  assert (0 < 2 ^ p) by (apply Z.pow_pos_nonneg; pos).
  assert (forall y, 2 ^ p * y / 2 ^ (l + 3) = 2 ^ (p - (l + 3)) * y) as Hdiv.
  { intros y. replace p with ((p - (l + 3)) + (l + 3)) at 1 by lia.
    rewrite Z.pow_add_r, Z.mul_shuffle0 by pos. apply Z.div_mul. lia. }
  rewrite Hdiv.
  assert (vcount_modulus = 2 ^ (p - (l + 3)) * 2 ^ (N - 4 - p)) as HM.
  { unfold vcount_modulus. rewrite <- Z.pow_add_r by lia. f_equal. lia. }
  assert (vcount x = q mod vcount_modulus) as Hc.
  { unfold vcount, vcount_modulus, q. rewrite mod_div_pow2 by pos. done. }
  rewrite Hc.
  assert ((x + unlock_add x) / 2 ^ p = q / 2 ^ (p - (l + 3)) + (if is_dirty P x then 1 else 0)) as Hq.
  { unfold q. rewrite Z.div_div, <- Z.pow_add_r by pos.
    replace (l + 3 + (p - (l + 3))) with p by lia. unfold unlock_add. fold p.
    destruct (is_dirty P x); [|by rewrite !Z.add_0_r].
    rewrite <- (Z.mul_1_l (2 ^ p)) at 1. rewrite Z.div_add by lia. done. }
  rewrite Hq, <- Z.mul_mod_distr_l, <- HM by lia.
  set (K := 2 ^ (p - (l + 3))) in *.
  pose proof (Z.div_mod q K ltac:(lia)). pose proof (Z.mod_pos_bound q K ltac:(lia)).
  destruct (is_dirty P x) eqn:Ed.
  - exists (K - q mod K). split; [rewrite Zplus_mod_idemp_l; f_equal; lia|]. split; [lia|].
    enough (K <= vcount_stride) by lia. unfold K, vcount_stride. apply Z.pow_le_mono_r; [lia|].
    unfold p, unlock_pos. destruct (splitting P x); pos.
  - assert (p = l + 3) as Hp3.
    { unfold p, unlock_pos. rewrite dirty_testbit, <- splitting_testbit in Ed.
      apply orb_false_elim in Ed as [_ ->]. done. }
    exists 0. split; [|done]. rewrite Zplus_mod_idemp_l. f_equal. unfold K. rewrite Hp3, Z.sub_diag, Z.pow_0_r, Z.div_1_r. lia.
Qed.

(** The carry of the counters never reaches the flags. *)
Lemma unlock_add_high x n :
  version_ok P x -> N - 3 <= n -> Z.testbit (x + unlock_add x) n = Z.testbit x n.
Proof.
  intros (_ & _ & Hu) Hn. pose proof HP as [Hp1 Hp2 Hp3].
  assert (0 <= unlock_add x < 2 ^ (N - 4)) as Ha.
  { unfold unlock_add. destruct (is_dirty P x); [|split; [done|apply Z.pow_pos_nonneg; lia]].
    unfold unlock_pos. split; [apply Z.pow_nonneg; lia|].
    apply Z.pow_lt_mono_r; destruct (splitting P x); lia. }
  assert (x mod 2 ^ (N - 3) < 2 ^ (N - 4)) as Hlt.
  { enough (x mod 2 ^ (N - 3) = x mod 2 ^ (N - 4)) as ->.
    { apply Z.mod_pos_bound, Z.pow_pos_nonneg; lia. }
    apply Z.bits_inj'. intros k Hk.
    change (?a mod 2 ^ ?b) with (wrap b a). rewrite !wrap_spec by lia.
    destruct (Z.ltb_spec k (N - 3)), (Z.ltb_spec k (N - 4)); try lia; [done|].
    by replace k with (N - 4) by lia. }
  assert (2 ^ (N - 3) = 2 * 2 ^ (N - 4)) as H2.
  { replace (N - 3) with (Z.succ (N - 4)) by lia. apply Z.pow_succ_r. lia. }
  replace n with ((n - (N - 3)) + (N - 3)) by lia. rewrite <- !Z.div_pow2_bits by lia. f_equal.
  pose proof (Z.div_mod x (2 ^ (N - 3)) ltac:(lia)) as Hdm.
  pose proof (Z.mod_pos_bound x (2 ^ (N - 3)) ltac:(lia)).
  symmetry. apply (Z.div_unique _ _ _ (x mod 2 ^ (N - 3) + unlock_add x)); lia.
Qed.

Lemma unlock_ok x : version_ok P x -> version_ok P (unlock P x).
Proof.
  intros Hx. assert (0 <= unlock_pos x < N - 4 /\ l <= unlock_pos x).
  { unfold unlock_pos. destruct (splitting P x); pos. }
  split; [|split].
  - apply is_word_bits; [pos|]. intros n Hn. rewrite unlock_testbit by (done || pos).
    destruct (Z.ltb_spec n N); [lia|]. by rewrite !andb_false_r.
  - intros n Hn. rewrite unlock_testbit by (done || lia).
    destruct (Z.leb_spec (unlock_pos x) n); [lia|done].
  - rewrite unlock_testbit by (done || pos). rewrite Z.eqb_refl. cbn. by rewrite andb_false_r.
Qed.
End bits.

(** ** One version word shared by writers and a reader *)

Module Protocol.
Section protocol.
Context (P : nodeversion_parameters) {HP : ParamsOk P}.
(** [D]: the node contents that the dirty bits protect. *)
Context {D : Type}.

Abbreviation l := (lock_pos P).
Abbreviation s := (vsplit_pos P).
Abbreviation N := (vwidth P).

Record state := mk_state {
  ver : Z;
  holder : option nat;
  data : D
}.

(** The steps of the threads that use the word: a thread takes the lock with
    the compare-and-swap of [lock]; the lock holder marks, rewrites the
    protected contents while the word is dirty, and unlocks.  The boolean
    tells the steps that publish a change: unlocking a dirty word. *)
Inductive step : bool -> state -> state -> Prop :=
| step_lock t st v' :
    holder st = None -> try_cas_lock P (ver st) (ver st) = Some v' ->
    step false st (mk_state v' (Some t) (data st))
| step_mark_insert t st :
    holder st = Some t ->
    step false st (mk_state (mark_insert P (ver st)) (Some t) (data st))
| step_mark_split t st :
    holder st = Some t ->
    step false st (mk_state (mark_split P (ver st)) (Some t) (data st))
| step_mark_deleted t st :
    holder st = Some t ->
    step false st (mk_state (mark_deleted P (ver st)) (Some t) (data st))
| step_write t st d :
    holder st = Some t -> is_dirty P (ver st) = true ->
    step false st (mk_state (ver st) (Some t) d)
| step_unlock t st :
    holder st = Some t ->
    step (is_dirty P (ver st)) st (mk_state (unlock P (ver st)) None (data st)).

(** Executions, with the number of changes they publish. *)
Inductive steps : nat -> state -> state -> Prop :=
| steps_refl st : steps 0 st st
| steps_step k b st1 st2 st3 :
    steps k st1 st2 -> step b st2 st3 -> steps (if b then S k else k) st1 st3.

(** The word is well formed, locked exactly when some thread holds it, and
    dirty only while held. *)
Definition state_ok (st : state) : Prop :=
  version_ok P (ver st) /\
  locked P (ver st) = bool_decide (is_Some (holder st)) /\
  (holder st = None -> is_dirty P (ver st) = false).

(** [m] is [v] with flags set that are neither the lock bit nor counter bits. *)
Definition marked (v m : Z) : Prop :=
  0 <= m /\
  exists f, (forall n, 0 <= n -> Z.testbit m n = Z.testbit v n || f n) /\
    (forall n, f n = true -> l < n < N /\ (n < l + 3 \/ N - 4 < n)).

Lemma marked_spec v m :
  marked v m -> version_ok P v ->
  version_ok P m /\ locked P m = locked P v /\ vcount P m = vcount P v /\
  (is_dirty P v = true -> is_dirty P m = true).
Proof.
  intros (Hm & f & Hb & Hf) (Hw & Hl & Hu). destruct HP.
  assert (forall n, (n <= l \/ N <= n \/ l + 3 <= n <= N - 4) -> f n = false) as Hf0.
  { intros n Hn. destruct (f n) eqn:E; [|done]. apply Hf in E. lia. }
  split; [|split; [|split]].
  - split; [|split].
    + apply is_word_bits; [lia|]. intros n Hn.
      rewrite Hb, (is_word_testbit N v), Hf0 by (done || lia). done.
    + intros n Hn. rewrite Hb, Hl, Hf0 by lia. done.
    + rewrite Hb, Hu, Hf0 by lia. done.
  - rewrite !locked_bit, Hb, Hf0 by (done || lia). apply orb_false_r.
  - unfold vcount. apply Z.bits_inj'. intros n Hn. rewrite !Z.div_pow2_bits by lia.
    change (?a mod 2 ^ ?b) with (wrap b a). rewrite !wrap_spec by lia.
    destruct (Z.ltb_spec (n + (l + 3)) (N - 4)); [cbn|done].
    rewrite Hb, Hf0 by lia. apply orb_false_r.
  - rewrite !dirty_testbit, !Hb by (done || lia).
    intros [-> | ->]%orb_prop; by rewrite ?orb_true_r.
Qed.

Lemma marked_insert v : is_word N v -> marked v (mark_insert P v).
Proof.
  intros Hv. destruct HP. split.
  - apply Z.lor_nonneg. split; [apply Hv|]. apply Z.shiftl_nonneg. lia.
  - exists (fun n => n =? l + 1). split.
    + intros. by apply mark_insert_testbit.
    + intros n Hn%Z.eqb_eq. lia.
Qed.

Lemma marked_split v : is_word N v -> marked v (mark_split P v).
Proof.
  intros Hv. destruct HP. split.
  - apply Z.lor_nonneg. split; [apply Hv|]. apply Z.shiftl_nonneg. lia.
  - exists (fun n => n =? l + 2). split.
    + intros. by apply mark_split_testbit.
    + intros n Hn%Z.eqb_eq. lia.
Qed.

Lemma marked_deleted v : is_word N v -> marked v (mark_deleted P v).
Proof.
  intros Hv. destruct HP. split.
  - apply Z.lor_nonneg. split; [apply Hv|]. apply Z.lor_nonneg.
    split; apply Z.shiftl_nonneg; lia.
  - exists (fun n => (n =? N - 3) || (n =? l + 2)). split.
    + intros. by rewrite mark_deleted_testbit, orb_assoc.
    + intros n [Hn%Z.eqb_eq | Hn%Z.eqb_eq]%orb_prop; lia.
Qed.

(** Taking the lock sets the lock bit of an unlocked word and nothing else. *)
Lemma try_cas_lock_spec v v' :
  version_ok P v -> try_cas_lock P v v = Some v' ->
  locked P v = false /\ version_ok P v' /\ locked P v' = true /\
  vcount P v' = vcount P v /\ is_dirty P v' = is_dirty P v.
Proof.
  intros (Hw & Hl & Hu) H. unfold try_cas_lock in H. rewrite Z.eqb_refl, andb_true_r in H.
  destruct (locked P v) eqn:El; [done|]. injection H as <-. destruct HP.
  assert (forall n, 0 <= n -> Z.testbit (Z.lor v (lock_bit P)) n = Z.testbit v n || (n =? l)) as Hb.
  { intros. unfold lock_bit. rewrite Z.lor_spec, shiftl1_testbit by lia. done. }
  assert (0 <= Z.lor v (lock_bit P)).
  { apply Z.lor_nonneg. split; [apply Hw|]. apply Z.shiftl_nonneg. lia. }
  split; [done|]. split; [split; [|split]|split; [|split]].
  - apply is_word_bits; [lia|]. intros n Hn. rewrite Hb, (is_word_testbit N v) by (done || lia).
    cbn. apply Z.eqb_neq. lia.
  - intros n Hn. rewrite Hb, Hl by lia. apply Z.eqb_neq. lia.
  - rewrite Hb, Hu by lia. apply Z.eqb_neq. lia.
  - rewrite locked_bit, Hb, Z.eqb_refl by (done || lia). apply orb_true_r.
  - unfold vcount. apply Z.bits_inj'. intros n Hn. rewrite !Z.div_pow2_bits by lia.
    change (?a mod 2 ^ ?b) with (wrap b a). rewrite !wrap_spec, Hb by lia.
    destruct (Z.eqb_spec (n + (l + 3)) l); [lia|]. by rewrite orb_false_r.
  - rewrite !dirty_testbit, !Hb by (done || lia).
    destruct (Z.eqb_spec (l + 1) l), (Z.eqb_spec (l + 2) l); try lia. by rewrite !orb_false_r.
Qed.

Lemma unlock_clean v : version_ok P v -> locked P (unlock P v) = false /\ is_dirty P (unlock P v) = false.
Proof.
  intros Hv. destruct HP. assert (l + 3 <= unlock_pos P v).
  { unfold unlock_pos. destruct (splitting P v); lia. }
  rewrite locked_bit, dirty_testbit, !unlock_testbit by (done || lia).
  destruct (Z.leb_spec (unlock_pos P v) l), (Z.leb_spec (unlock_pos P v) (l + 1)),
    (Z.leb_spec (unlock_pos P v) (l + 2)); by try lia.
Qed.

Lemma step_ok b st st' : step b st st' -> state_ok st -> state_ok st'.
Proof.
  intros Hs (Hv & Hl & Hd). destruct Hs as [t st v' Hh Hc|t st Hh|t st Hh|t st Hh|t st d Hh Hdd|t st Hh];
    unfold state_ok; cbn.
  - destruct (try_cas_lock_spec _ _ Hv Hc) as (_ & ? & -> & _). done.
  - destruct (marked_spec _ _ (marked_insert _ (proj1 Hv)) Hv) as (? & -> & _).
    rewrite Hh in Hl. done.
  - destruct (marked_spec _ _ (marked_split _ (proj1 Hv)) Hv) as (? & -> & _).
    rewrite Hh in Hl. done.
  - destruct (marked_spec _ _ (marked_deleted _ (proj1 Hv)) Hv) as (? & -> & _).
    rewrite Hh in Hl. done.
  - rewrite Hh in Hl. done.
  - destruct (unlock_clean _ Hv) as [-> ->]. split; [|done]. by apply unlock_ok.
Qed.

(** What is known of a state [k] published changes after the version [v0]
    was read with contents [d0]. *)
Definition since (v0 : Z) (d0 : D) (k : nat) (st : state) : Prop :=
  state_ok st /\
  (exists d, vcount P (ver st) = (vcount P v0 + d) mod vcount_modulus P /\
     Z.of_nat k <= d <= vcount_stride P * Z.of_nat k) /\
  (k = 0%nat -> is_dirty P (ver st) = false -> data st = d0).

Lemma vcount_range v : 0 <= vcount P v < vcount_modulus P.
Proof.
  unfold vcount, vcount_modulus. destruct HP. rewrite mod_div_pow2 by lia.
  apply Z.mod_pos_bound, Z.pow_pos_nonneg; lia.
Qed.

Lemma since_refl st : state_ok st -> since (ver st) (data st) 0 st.
Proof.
  intros Hok. split; [done|]. split; [|done]. exists 0. split; [|lia].
  rewrite Z.add_0_r, Z.mod_small; [done|apply vcount_range].
Qed.

Lemma since_step v0 d0 k b st st' :
  since v0 d0 k st -> step b st st' -> since v0 d0 (if b then S k else k) st'.
Proof.
  intros (Hok & (d & Hd & Hk) & Hdata) Hs.
  pose proof (step_ok _ _ _ Hs Hok) as Hok'. split; [done|]. clear Hok'.
  destruct Hok as (Hv & Hl & _).
  destruct Hs as [t st v' Hh Hc|t st Hh|t st Hh|t st Hh|t st dd Hh Hdd|t st Hh]; cbn.
  - destruct (try_cas_lock_spec _ _ Hv Hc) as (_ & _ & _ & -> & ->). eauto.
  - destruct (marked_spec _ _ (marked_insert _ (proj1 Hv)) Hv) as (_ & _ & -> & Hm).
    split; [eauto|]. intros ? ?. apply Hdata; [done|]. destruct (is_dirty P (ver st)); [by rewrite Hm in *|done].
  - destruct (marked_spec _ _ (marked_split _ (proj1 Hv)) Hv) as (_ & _ & -> & Hm).
    split; [eauto|]. intros ? ?. apply Hdata; [done|]. destruct (is_dirty P (ver st)); [by rewrite Hm in *|done].
  - destruct (marked_spec _ _ (marked_deleted _ (proj1 Hv)) Hv) as (_ & _ & -> & Hm).
    split; [eauto|]. intros ? ?. apply Hdata; [done|]. destruct (is_dirty P (ver st)); [by rewrite Hm in *|done].
  - split; [eauto|]. congruence.
  - destruct (unlock_count P _ Hv) as (e & -> & He). rewrite Hd, Zplus_mod_idemp_l.
    split; [exists (d + e); split; [f_equal; lia|]|].
    + destruct (is_dirty P (ver st)); lia.
    + destruct (is_dirty P (ver st)); [done|]. auto.
Qed.

Lemma since_steps v0 d0 k1 k2 st st' :
  since v0 d0 k1 st -> steps k2 st st' -> since v0 d0 (k1 + k2) st'.
Proof.
  intros Hs Hsteps. revert Hs. induction Hsteps as [st|k b st1 st2 st3 Hst IH Hstep]; intros Hs.
  - by rewrite Nat.add_0_r.
  - specialize (IH Hs). pose proof (since_step _ _ _ _ _ _ IH Hstep) as H.
    destruct b; [|done]. by rewrite Nat.add_succ_r.
Qed.

(** Without a publication a dirty word stays dirty. *)
Lemma dirty_until_published k st st' :
  steps k st st' -> k = 0%nat -> state_ok st ->
  is_dirty P (ver st) = true -> state_ok st' /\ is_dirty P (ver st') = true.
Proof.
  induction 1 as [st|k b st1 st2 st3 Hst IH Hstep]; intros Hk Hok Hd; [done|].
  destruct b; [lia|]. destruct (IH Hk Hok Hd) as [Hok2 Hd2].
  split; [by eapply step_ok|]. destruct Hok2 as (Hv & _).
  inversion Hstep as [t st v' Hh Hc|t st Hh|t st Hh|t st Hh|t st dd Hh Hdd|t st Hh Hb]; subst; cbn.
  - by destruct (try_cas_lock_spec _ _ Hv Hc) as (_ & _ & _ & _ & ->).
  - by apply (marked_spec _ _ (marked_insert _ (proj1 Hv)) Hv).
  - by apply (marked_spec _ _ (marked_split _ (proj1 Hv)) Hv).
  - by apply (marked_spec _ _ (marked_deleted _ (proj1 Hv)) Hv).
  - done.
  - congruence.
Qed.

Lemma unchanged_bits v v0 n :
  is_word N v -> is_word N v0 -> has_changed P v v0 = false -> l < n ->
  Z.testbit v n = Z.testbit v0 n.
Proof.
  intros Hv Hv0 Hc Hn. destruct HP. unfold has_changed in Hc.
  rewrite Z.gtb_ltb, Z.ltb_ge in Hc. unfold lock_bit in Hc. rewrite Z.shiftl_1_l in Hc.
  assert (0 <= Z.lxor v0 v) by (apply Z.lxor_nonneg; destruct Hv, Hv0; lia).
  assert (Z.testbit (Z.lxor v0 v) n = false) as Hb.
  { apply (is_word_testbit (l + 1)); [|lia..]. split; [done|].
    rewrite Z.pow_add_r by lia. pose proof (Z.pow_pos_nonneg 2 l). lia. }
  rewrite Z.lxor_spec in Hb. by destruct (Z.testbit v n), (Z.testbit v0 n).
Qed.

Lemma unchanged_count v v0 :
  is_word N v -> is_word N v0 -> has_changed P v v0 = false ->
  vcount P v = vcount P v0 /\ is_dirty P v = is_dirty P v0.
Proof.
  intros Hv Hv0 Hc. destruct HP. split.
  - unfold vcount. apply Z.bits_inj'. intros n Hn. rewrite !Z.div_pow2_bits by lia.
    change (?a mod 2 ^ ?b) with (wrap b a). rewrite !wrap_spec by lia.
    f_equal. apply unchanged_bits; (done || lia).
  - rewrite !dirty_testbit by done. f_equal; apply unchanged_bits; (done || lia).
Qed.

Lemma modulus_stride : vcount_modulus P = vcount_stride P * 2 ^ (N - 4 - s).
Proof.
  destruct HP. unfold vcount_modulus, vcount_stride. rewrite <- Z.pow_add_r by lia.
  f_equal. lia.
Qed.

Lemma unchanged_no_publication v0 d0 k st :
  is_word N v0 -> since v0 d0 k st -> Z.of_nat k < 2 ^ (N - 4 - s) ->
  has_changed P (ver st) v0 = false -> k = 0%nat.
Proof.
  intros Hv0 (Hok & (d & Hd & Hkd) & _) Hk Hc.
  destruct (unchanged_count _ _ (proj1 (proj1 Hok)) Hv0 Hc) as [Hcnt _].
  rewrite Hcnt in Hd. pose proof (vcount_range v0).
  assert (d < vcount_modulus P).
  { rewrite modulus_stride.
    assert (0 < vcount_stride P) as HS by (apply Z.pow_pos_nonneg; destruct HP; lia).
    apply (Z.mul_lt_mono_pos_l _ _ _ HS) in Hk. lia. }
  pose proof (Z.div_mod (vcount P v0 + d) (vcount_modulus P) ltac:(lia)) as Hdm.
  rewrite <- Hd in Hdm.
  assert ((vcount P v0 + d) / vcount_modulus P = 0) as Hq by nia.
  rewrite Hq in Hdm. lia.
Qed.
End protocol.
End Protocol.

(** ** Properties *)

(** Unlocking a word that was only locked gives it back. *)
Lemma unlock_locked (P : nodeversion_parameters) {HP : ParamsOk P} (v : Z) :
  version_ok P v -> is_dirty P v = false -> locked P v = false ->
  unlock P (Z.lor v (lock_bit P)) = v.
Proof.
  intros Hv Hd Hlv. set (v' := Z.lor v (lock_bit P)).
  assert (try_cas_lock P v v = Some v') as Ht by (unfold try_cas_lock; by rewrite Hlv, Z.eqb_refl).
  destruct (Protocol.try_cas_lock_spec P _ _ Hv Ht) as (_ & Hv' & _ & _ & Hd').
  rewrite Hd in Hd'. pose proof Hv as (Hw & Hlow & Hu). destruct HP.
  assert (forall n, 0 <= n -> n <> lock_pos P -> Z.testbit v' n = Z.testbit v n) as Hb.
  { intros n Hn Hne. unfold v', lock_bit. rewrite Z.lor_spec, shiftl1_testbit by lia.
    destruct (Z.eqb_spec n (lock_pos P)); [done|]. apply orb_false_r. }
  assert (splitting P v' = false) as Hs.
  { rewrite dirty_testbit, <- splitting_testbit in Hd' by done.
    by apply orb_false_elim in Hd' as [_ ?]. }
  apply Z.bits_inj'. intros n Hn. rewrite unlock_testbit by done.
  unfold unlock_pos, unlock_add. rewrite Hd', Hs, Z.add_0_r. cbn [andb negb].
  destruct (Z.leb_spec (lock_pos P + 3) n).
  - rewrite Hb by lia. destruct (Z.eqb_spec n (vwidth P - 4)) as [->|]; [by rewrite Hu|].
    destruct (Z.ltb_spec n (vwidth P)); [done|].
    by rewrite (is_word_testbit (vwidth P) v) by (done || lia).
  - cbn. symmetry. destruct (Z.lt_ge_cases n (lock_pos P)); [apply Hlow; lia|].
    rewrite dirty_testbit in Hd by done. apply orb_false_elim in Hd as [? ?].
    rewrite locked_bit in Hlv by done.
    destruct (decide (n = lock_pos P)) as [->|]; [done|].
    destruct (decide (n = lock_pos P + 1)) as [->|]; [done|].
    by replace n with (lock_pos P + 2) by lia.
Qed.

(** Locking a clean word and unlocking it without a mark in between gives
    the word back, and while it is locked no compare-and-swap of [lock]
    succeeds. *)
Lemma lock_unlock (P : nodeversion_parameters) {HP : ParamsOk P} (v v' : Z)
    (Hv : version_ok P v) (Hd : is_dirty P v = false) (Hl : lock P v v = Some v') :
  unlock P v' = v /\ has_changed P v' v = false /\ (forall e, lock P v' e = None).
Proof.
  assert (try_cas_lock P v v = Some v') as Ht.
  { unfold lock in Hl. by destruct (try_cas_lock P v v). }
  destruct (Protocol.try_cas_lock_spec P _ _ Hv Ht) as (Hlv & Hv' & Hlv' & _ & _).
  assert (v' = Z.lor v (lock_bit P)) as Hvv.
  { unfold try_cas_lock in Ht. rewrite Hlv, Z.eqb_refl in Ht. by injection Ht as <-. }
  split; [|split].
  - rewrite Hvv. by apply unlock_locked.
  - unfold has_changed. rewrite Z.gtb_ltb. apply Z.ltb_ge.
    replace (Z.lxor v v') with (lock_bit P); [done|]. destruct HP. apply Z.bits_inj'. intros n Hn.
    rewrite Hvv. unfold lock_bit. rewrite Z.lxor_spec, Z.lor_spec, shiftl1_testbit by lia.
    destruct (Z.eqb_spec n (lock_pos P)) as [->|].
    + rewrite <- locked_bit, Hlv by done. done.
    + by rewrite orb_false_r, xorb_nilpotent.
  - intros e. unfold lock, try_cas_lock. rewrite Hlv'. cbn.
    destruct (locked P e) eqn:Ee; cbn; [done|].
    destruct (Z.eqb_spec v' e) as [->|]; [congruence|done].
Qed.

(** C36: optimistic reads are sound.  A reader takes a clean version, reads the
    contents at some later state of any execution of writers, and finds the
    version unchanged at a state after that: then no change was published in
    between and the contents it read are those of the version it took, as long
    as fewer changes than the split counter has values were published. *)
Theorem optimistic_read_sound (P : nodeversion_parameters) {HP : ParamsOk P} (D : Type)
    (k1 k2 : nat) (s0 s1 s2 : Protocol.state (D := D)) :
  Protocol.state_ok P s0 ->
  stable P (Protocol.ver s0) = Some (Protocol.ver s0) ->
  Protocol.steps P k1 s0 s1 -> Protocol.steps P k2 s1 s2 ->
  Z.of_nat (k1 + k2) < 2 ^ (vwidth P - 4 - vsplit_pos P) ->
  has_changed P (Protocol.ver s2) (Protocol.ver s0) = false ->
  Protocol.data s1 = Protocol.data s0 /\ (k1 + k2 = 0)%nat.
Proof.
  intros Hok Hst H1 H2 Hk Hc. unfold stable in Hst.
  destruct (is_dirty P (Protocol.ver s0)) eqn:Hd0; [done|]. clear Hst.
  pose proof (Protocol.since_steps P _ _ _ _ _ _ (Protocol.since_refl P _ Hok) H1) as Hs1.
  pose proof (Protocol.since_steps P _ _ _ _ _ _ Hs1 H2) as Hs2.
  pose proof (Protocol.unchanged_no_publication P _ _ _ _ (proj1 (proj1 Hok)) Hs2 Hk Hc) as Hk0.
  cbn in Hk0. assert (k1 = 0%nat /\ k2 = 0%nat) as [-> ->] by lia. split; [|done].
  destruct Hs1 as (Hok1 & _ & Hdata). apply Hdata; [done|].
  destruct (is_dirty P (Protocol.ver s1)) eqn:Hd1; [|done].
  destruct (Protocol.dirty_until_published P _ _ _ H2 eq_refl Hok1 Hd1) as [Hok2 Hd2].
  destruct (Protocol.unchanged_count P _ _ (proj1 (proj1 Hok2)) (proj1 (proj1 Hok)) Hc) as [_ Hdd].
  congruence.
Qed.

(** A writer takes and releases the lock around the reader's second look. *)
Lemma optimistic_read_sound_witness :
  let s0 := Protocol.mk_state 0x80000000 None 5 in
  let s1 := Protocol.mk_state 0x80000001 (Some 7%nat) 5 in
  Protocol.data s1 = Protocol.data s0 /\ (0 + 0 = 0)%nat.
Proof.
  intros s0 s1.
  refine (optimistic_read_sound params32 Z 0 0 s0 s1 s0 _ eq_refl
            (Protocol.steps_step params32 0 false s0 s0 s1 (Protocol.steps_refl _ _) _)
            (Protocol.steps_step params32 0 false s1 s1 s0 (Protocol.steps_refl _ _) _)
            eq_refl eq_refl).
  - split; [|done]. split; [split; done|]. split; [|done]. cbn. lia.
  - exact (Protocol.step_lock params32 7%nat s0 0x80000001 eq_refl eq_refl).
  - exact (Protocol.step_unlock params32 7%nat s1 eq_refl).
Defined.

(** A split is visible.  After a lock holder marks a split and unlocks, the
    word is unlocked, clean, no longer a root, and [has_split] tells every
    reader that holds the version from before. *)
Lemma split_visible (P : nodeversion_parameters) {HP : ParamsOk P} (v : Z)
    (Hv : version_ok P v) :
  let v' := unlock P (mark_split P v) in
  locked P v' = false /\ is_dirty P v' = false /\ is_root P v' = false /\
  isleaf P v' = isleaf P v /\ has_split P v' v = true.
Proof.
  intros v'. pose proof (Protocol.marked_split P _ (proj1 Hv)) as Hm.
  destruct (Protocol.marked_spec P _ _ Hm Hv) as (Hv2 & _).
  destruct (Protocol.unlock_clean P _ Hv2) as [Hul Hud].
  pose proof Hv as (Hw & Hlow & Hu). pose proof HP as [Hp1 Hp2 Hp3].
  assert (splitting P (mark_split P v) = true) as Hs.
  { rewrite splitting_testbit, mark_split_testbit, Z.eqb_refl by (done || lia). apply orb_true_r. }
  assert (is_dirty P (mark_split P v) = true) as Hd.
  { rewrite dirty_testbit, <- splitting_testbit, Hs by done. apply orb_true_r. }
  split; [done|]. split; [done|]. unfold v'.
  set (x := mark_split P v) in *. set (s := vsplit_pos P) in *. set (N := vwidth P) in *.
  assert (forall n, 0 <= n -> n <> lock_pos P + 2 -> Z.testbit x n = Z.testbit v n) as Hb.
  { intros n Hn Hne. unfold x. rewrite mark_split_testbit by (done || lia).
    destruct (Z.eqb_spec n (lock_pos P + 2)); [lia|]. apply orb_false_r. }
  split; [|split].
  - rewrite is_root_testbit, unlock_testbit by (done || lia). rewrite Hs.
    fold N. rewrite Z.eqb_refl. cbn. by rewrite !andb_false_r.
  - rewrite !isleaf_testbit by done. fold N. rewrite unlock_testbit by (done || lia). fold N.
    unfold unlock_pos. rewrite Hs, unlock_add_high, Hb by (done || lia). fold s.
    destruct (Z.leb_spec s (N - 1)), (Z.eqb_spec (N - 1) (N - 4)), (Z.eqb_spec (N - 1) (N - 2)),
      (Z.ltb_spec (N - 1) N); try lia. done.
  - unfold has_split. apply Z.geb_le. apply Z.le_ngt. intros Hlt.
    unfold vsplit_lowbit in Hlt. fold s in Hlt. rewrite Z.shiftl_1_l in Hlt.
    assert (v / 2 ^ s = unlock P x / 2 ^ s) as Heq.
    { apply Z.bits_inj'. intros n Hn. rewrite !Z.div_pow2_bits by lia.
      assert (Z.testbit (Z.lxor v (unlock P x)) (n + s) = false) as Hx.
      { apply (is_word_testbit s); [|lia..]. split; [|done].
        apply Z.lxor_nonneg. pose proof (unlock_ok P _ Hv2) as ((? & _) & _).
        destruct Hw. split; lia. }
      rewrite Z.lxor_spec in Hx. by destruct (Z.testbit v (n + s)), (Z.testbit (unlock P x) (n + s)). }
    pose proof (unlock_counter_bits P x Hv2) as Hc. unfold unlock_add, unlock_pos in Hc.
    rewrite Hd, Hs in Hc. fold s N in Hc.
    assert (0 < 2 ^ s) by (apply Z.pow_pos_nonneg; lia).
    apply (f_equal (fun z => z / 2 ^ s)) in Hc.
    rewrite mod_div_pow2, (Z.mul_comm (2 ^ s)), Z.div_mul, <- Heq in Hc by lia.
    assert ((x + 2 ^ s) / 2 ^ s = v / 2 ^ s + 1) as Hx.
    { rewrite <- (Z.mul_1_l (2 ^ s)) at 1. rewrite Z.div_add by lia. f_equal.
      apply Z.bits_inj'. intros n Hn. rewrite !Z.div_pow2_bits by lia.
      apply Hb; lia. }
    rewrite Hx in Hc.
    assert (2 <= 2 ^ (N - 4 - s)).
    { change 2 with (2 ^ 1) at 1. apply Z.pow_le_mono_r; lia. }
    symmetry in Hc. by apply mod_succ_ne in Hc.
Qed.

