(* ===== verification/Slice.v ===== *)
(** * Byte strings, slices and byte-order conversion (compiler.hh, string_slice.hh, string.cc)

    Memory is a function from addresses to bytes, so that the reads outside the
    string that the [sloppy] accessors make are visible in the model.  The
    build configuration (byte order, unaligned access) is a parameter: every
    theorem holds for both byte orders and both access modes. *)

From S2P Require Export Prelude.

#[local] Open Scope Z_scope.

(** ** Byte strings *)

(** The sign of the first difference, the part of [memcmp]'s result the C
    standard specifies. *)
Fixpoint memcmp (a b : list Z) : Z :=
  match a, b with
  | x :: a', y :: b' => if x <? y then -1 else if y <? x then 1 else memcmp a' b'
  | _, _ => 0
  end.

(** [String_generic::compare] *)
Definition String_compare (a b : list Z) : Z :=
  let a_len := Z.of_nat (length a) in
  let b_len := Z.of_nat (length b) in
  let len := if a_len <? b_len then a_len else b_len in
  let cmp := memcmp (take (Z.to_nat len) a) (take (Z.to_nat len) b) in
  if negb (cmp =? 0) then cmp else a_len - b_len.

(** The three-way [compare] of compiler.hh *)
Definition compare (a b : Z) : Z := if a =? b then 0 else if a <? b then -1 else 1.

Definition iceil (x y : Z) : Z :=
  let m := x mod y in x + (if m =? 0 then 0 else y - m).

(** [__builtin_clz] and [__builtin_ctz] on a [w]-bit word; undefined at 0. *)
Definition clz (w x : Z) : Z := w - 1 - Z.log2 x.

Fixpoint ctz_aux (fuel : nat) (x : Z) : Z :=
  match fuel with
  | O => 0
  | S n => if Z.odd x then 0 else 1 + ctz_aux n (x / 2)
  end.
Definition ctz (w x : Z) : Z := ctz_aux (Z.to_nat w) x.

Definition iceil_log2 (w x : Z) : Z :=
  Word.shlw w 1 (w - clz w x - (if Z.land x (Word.subw w x 1) =? 0 then 1 else 0)).

Definition ifloor_log2 (w x : Z) : Z := Word.shlw w 1 (w - 1 - clz w x).

(** ** Machine words in memory *)

Definition memory := Z -> Z.

Fixpoint load (m : memory) (p : Z) (n : nat) : list Z :=
  match n with O => [] | S n' => m p :: load m (p + 1) n' end.

Definition byte_memory (m : memory) : Prop := forall p, is_byte (m p).

Definition be_value (bs : list Z) : Z := le_value (rev bs).

Section slice.
(** [size] is [sizeof(T)]; [big_endian] is [WORDS_BIGENDIAN], [unaligned] is
    [HAVE_UNALIGNED_ACCESS]. *)
Context (size : nat) (big_endian unaligned : bool).

Abbreviation sizeZ := (Z.of_nat size).
Abbreviation bits := (8 * Z.of_nat size).

(** The value of type T that [size] bytes of memory represent, and back. *)
Definition word_of (bs : list Z) : Z := if big_endian then be_value bs else le_value bs.
Definition bytes_of (x : Z) : list Z :=
  if big_endian then rev (le_bytes size x) else le_bytes size x.

Definition bswap (x : Z) : Z := le_value (rev (le_bytes size x)).
Definition net_to_host_order (x : Z) : Z := if big_endian then x else bswap x.
Definition host_to_net_order (x : Z) : Z := if big_endian then x else bswap x.

Definition zeros (n : nat) : list Z := replicate n 0.
Definition pad (bs : list Z) : list Z := bs ++ zeros (size - length bs).

Definition make (m : memory) (s len : Z) : Z :=
  if len <=? 0 then 0
  else if unaligned && (sizeZ <=? len) then word_of (load m s size)
  else word_of (pad (load m s (Z.to_nat (Z.min len sizeZ)))).

Definition make_comparable (m : memory) (s len : Z) : Z := net_to_host_order (make m s len).

Definition make_sloppy (m : memory) (s len : Z) : Z :=
  if len <=? 0 then 0
  else if unaligned then
    if sizeZ <=? len then word_of (load m s size)
    else if big_endian then
      Z.land (word_of (load m s size)) (Word.shlw bits (Word.notw bits 0) (8 * (sizeZ - len)))
    else Z.shiftr (word_of (load m (s - (sizeZ - len)) size)) (8 * (sizeZ - len))
  else word_of (pad (load m s (Z.to_nat (Z.min len sizeZ)))).

Definition make_comparable_sloppy (m : memory) (s len : Z) : Z :=
  net_to_host_order (make_sloppy m s len).

(** The loop that drops trailing null characters. *)
Fixpoint trim_length (bs : list Z) (l : nat) : nat :=
  match l with
  | O => O
  | S l' => if nth l' bs 0 =? 0 then trim_length bs l' else l
  end.

(** [unparse_comparable(buf, buflen, value)]: the characters written. *)
Definition unparse_comparable (buflen value : Z) : list Z :=
  let u := bytes_of (host_to_net_order value) in
  let l := trim_length u size in
  take (Z.to_nat (Z.min (Z.of_nat l) buflen)) u.

(** [unparse_comparable(buf, buflen, value, len)] *)
Definition unparse_comparable_len (buflen value len : Z) : list Z :=
  let u := bytes_of (host_to_net_order value) in
  take (Z.to_nat (Z.min (Z.min len sizeZ) buflen)) u.

Definition equals_sloppy (m : memory) (a b len : Z) : bool :=
  if unaligned && (len <=? sizeZ) then
    let delta := Z.lxor (word_of (load m a size)) (word_of (load m b size)) in
    if len <=? 0 then true
    else if big_endian then Z.shiftr delta (8 * (sizeZ - len)) =? 0
    else Word.shlw bits delta (8 * (sizeZ - len)) =? 0
  else memcmp (load m a (Z.to_nat len)) (load m b (Z.to_nat len)) =? 0.
End slice.

(** ** Lemmas on loads and byte strings *)

Lemma length_load m p n : length (load m p n) = n.
Proof. revert p. induction n; intros; cbn; auto. Qed.

Lemma load_range m p n : byte_memory m -> Forall is_byte (load m p n).
Proof. intros Hm. revert p. induction n; intros; cbn; constructor; auto. Qed.

Lemma load_app m p n k : load m p (n + k) = load m p n ++ load m (p + Z.of_nat n) k.
Proof.
  revert p. induction n as [|n IH]; intros p; cbn.
  - by rewrite Z.add_0_r.
  - rewrite IH. do 3 f_equal. lia.
Qed.

Lemma take_load m p n k : (n <= k)%nat -> take n (load m p k) = load m p n.
Proof.
  intros. replace k with (n + (k - n))%nat by lia.
  rewrite load_app, take_app_le by (rewrite length_load; lia).
  by rewrite take_ge by (rewrite length_load; lia).
Qed.

Lemma Forall_zeros n : Forall is_byte (zeros n).
Proof. apply Forall_replicate. unfold is_byte. lia. Qed.

Lemma le_value_zeros n : le_value (zeros n) = 0.
Proof. induction n as [|n IH]; cbn; [done|]. unfold zeros in IH. lia. Qed.

Lemma rev_zeros n : rev (zeros n) = zeros n.
Proof. unfold zeros. rewrite rev_alt. apply (reverse_replicate n 0). Qed.

Lemma Forall_rev_byte bs : Forall is_byte bs -> Forall is_byte (rev bs).
Proof. intros. rewrite rev_alt. by apply (Forall_reverse _ bs). Qed.

Lemma length_pad size bs : (length bs <= size)%nat -> length (pad size bs) = size.
Proof. intros. unfold pad, zeros. rewrite length_app, length_replicate. lia. Qed.

Lemma pad_range size bs : Forall is_byte bs -> Forall is_byte (pad size bs).
Proof. intros. unfold pad. apply Forall_app; split; [done|apply Forall_zeros]. Qed.

Lemma be_value_cons b bs : be_value (b :: bs) = b * 2 ^ (8 * Z.of_nat (length bs)) + be_value bs.
Proof.
  unfold be_value. cbn. rewrite le_value_app, length_rev. cbn [le_value]. lia.
Qed.

Lemma be_value_range bs :
  Forall is_byte bs -> 0 <= be_value bs < 2 ^ (8 * Z.of_nat (length bs)).
Proof.
  intros. unfold be_value. rewrite <- (length_rev bs). by apply le_value_range, Forall_rev_byte.
Qed.

Lemma be_value_app a b :
  be_value (a ++ b) = be_value a * 2 ^ (8 * Z.of_nat (length b)) + be_value b.
Proof. unfold be_value. rewrite rev_app_distr, le_value_app, length_rev. lia. Qed.

Lemma be_value_zeros n : be_value (zeros n) = 0.
Proof. unfold be_value. by rewrite rev_zeros, le_value_zeros. Qed.

Lemma be_value_inj a b :
  length a = length b -> Forall is_byte a -> Forall is_byte b ->
  be_value a = be_value b -> a = b.
Proof.
  intros Hl Ha Hb He. rewrite <- (rev_involutive a), <- (rev_involutive b). f_equal.
  rewrite <- (le_bytes_value (rev a)), <- (le_bytes_value (rev b)) by by apply Forall_rev_byte.
  unfold be_value in He. by rewrite He, !length_rev, Hl.
Qed.

(** Numeric order of big-endian values is lexicographic order of the bytes. *)
Lemma be_value_compare a b :
  length a = length b -> Forall is_byte a -> Forall is_byte b ->
  compare (be_value a) (be_value b) = memcmp a b.
Proof.
  intros Hl Ha. revert b Hl. induction Ha as [|x a Hx Ha IH]; intros [|y b] Hl Hb; try done.
  injection Hl as Hl. inversion_clear Hb as [|? ? Hy Hb'].
  rewrite !be_value_cons. cbn [memcmp]. rewrite <- Hl, <- (IH b Hl Hb').
  pose proof (be_value_range a Ha). pose proof (be_value_range b Hb') as Hr. rewrite <- Hl in Hr.
  set (P := 2 ^ (8 * Z.of_nat (length a))) in *. unfold is_byte in *. unfold compare.
  destruct (Z.ltb_spec x y), (Z.ltb_spec y x); try lia.
  - assert (x * P + P <= y * P) by nia.
    destruct (Z.eqb_spec (x * P + be_value a) (y * P + be_value b)); [lia|].
    destruct (Z.ltb_spec (x * P + be_value a) (y * P + be_value b)); [done|lia].
  - assert (y * P + P <= x * P) by nia.
    destruct (Z.eqb_spec (x * P + be_value a) (y * P + be_value b)); [lia|].
    destruct (Z.ltb_spec (x * P + be_value a) (y * P + be_value b)); [lia|done].
  - replace y with x in * by lia.
    destruct (Z.eqb_spec (x * P + be_value a) (x * P + be_value b)), (Z.eqb_spec (be_value a) (be_value b)); try lia; try done.
    destruct (Z.ltb_spec (x * P + be_value a) (x * P + be_value b)), (Z.ltb_spec (be_value a) (be_value b)); try lia; done.
Qed.

Lemma memcmp_refl a : memcmp a a = 0.
Proof. induction a as [|x a IH]; cbn; [done|]. by rewrite Z.ltb_irrefl. Qed.

Lemma memcmp_eq a b : length a = length b -> memcmp a b = 0 <-> a = b.
Proof.
  revert b. induction a as [|x a IH]; intros [|y b] Hl; try done. injection Hl as Hl.
  cbn. destruct (Z.ltb_spec x y), (Z.ltb_spec y x); try lia.
  1,2: split; [done|intros [= -> _]; lia].
  replace y with x by lia. rewrite (IH b Hl). split; [by intros ->|by intros [= ->]].
Qed.

(** ** What the slice operations compute *)

Section slice_facts.
Context (size : nat) (big_endian unaligned : bool).

Lemma word_of_bytes_range bs :
  Forall is_byte bs -> 0 <= word_of big_endian bs < 2 ^ (8 * Z.of_nat (length bs)).
Proof. unfold word_of. destruct big_endian; [apply be_value_range|apply le_value_range]. Qed.

Lemma net_to_host_word_of bs :
  length bs = size -> Forall is_byte bs ->
  net_to_host_order size big_endian (word_of big_endian bs) = be_value bs.
Proof.
  intros <- Hb. unfold net_to_host_order, word_of, bswap. destruct big_endian; [done|].
  by rewrite le_bytes_value.
Qed.

Lemma bytes_of_net_order bs :
  length bs = size -> Forall is_byte bs ->
  bytes_of size big_endian (host_to_net_order size big_endian (be_value bs)) = bs.
Proof.
  intros <- Hb. unfold bytes_of, host_to_net_order, bswap, be_value. pose proof (Forall_rev_byte _ Hb).
  assert (le_bytes (length bs) (le_value (rev bs)) = rev bs) as He.
  { rewrite <- length_rev. by apply le_bytes_value. }
  destruct big_endian; rewrite He, rev_involutive; [done|]. by apply le_bytes_value.
Qed.

Lemma net_to_host_0 : net_to_host_order size big_endian 0 = 0.
Proof.
  unfold net_to_host_order, bswap. destruct big_endian; [done|].
  replace (le_bytes size 0) with (zeros size); [by rewrite rev_zeros, le_value_zeros|].
  induction size as [|n IH]; [done|]. cbn [le_bytes]. rewrite Z.div_0_l, <- IH by lia. done.
Qed.

(** The bytes of a slice: the prefix of the string, zero-padded. *)
Definition slice_bytes (m : memory) (s len : Z) : list Z :=
  pad size (load m s (Z.to_nat (Z.min len (Z.of_nat size)))).

Lemma length_slice_bytes m s len : length (slice_bytes m s len) = size.
Proof. apply length_pad. rewrite length_load. lia. Qed.

Lemma slice_bytes_range m s len : byte_memory m -> Forall is_byte (slice_bytes m s len).
Proof. intros. by apply pad_range, load_range. Qed.

Lemma make_comparable_spec m s len :
  byte_memory m ->
  make_comparable size big_endian unaligned m s len = be_value (slice_bytes m s len).
Proof.
  intros Hm. unfold make_comparable, make, slice_bytes.
  destruct (Z.leb_spec len 0).
  - rewrite net_to_host_0, (Z.min_l len), (Z2Nat.nonpos len) by lia.
    unfold pad. by rewrite app_nil_l, be_value_zeros.
  - destruct unaligned; cbn [andb]; [destruct (Z.leb_spec (Z.of_nat size) len)|].
    + rewrite net_to_host_word_of by (apply length_load || by apply load_range).
      rewrite Z.min_r, Nat2Z.id by lia. unfold pad.
      by rewrite length_load, Nat.sub_diag, app_nil_r.
    + apply net_to_host_word_of; [apply length_slice_bytes|by apply slice_bytes_range].
    + apply net_to_host_word_of; [apply length_slice_bytes|by apply slice_bytes_range].
Qed.

Lemma shiftr_le_value a b :
  Forall is_byte a ->
  Z.shiftr (le_value (a ++ b)) (8 * Z.of_nat (length a)) = le_value b.
Proof.
  intros Ha. pose proof (le_value_range a Ha).
  rewrite le_value_app, Z.shiftr_div_pow2 by lia.
  rewrite (Z.mul_comm (2 ^ _)), Z.div_add, Z.div_small by lia. done.
Qed.

Lemma land_high_mask w x k :
  0 <= k <= w -> 0 <= x < 2 ^ w ->
  Z.land x (Word.shlw w (Word.notw w 0) k) = x / 2 ^ k * 2 ^ k.
Proof.
  intros Hk Hx. rewrite <- Z.shiftr_div_pow2, <- Z.shiftl_mul_pow2 by lia.
  apply Z.bits_inj'. intros n Hn. rewrite Z.land_spec, Word.shlw_testbit by lia.
  rewrite Z.shiftl_spec by lia.
  destruct (Z.leb_spec k n).
  - rewrite Z.shiftr_spec by lia. replace (n - k + k) with n by lia.
    rewrite Word.lnot_wrap_testbit, Z.bits_0 by lia.
    destruct (Z.ltb_spec n w), (Z.ltb_spec (n - k) w); try lia; cbn.
    1: by rewrite andb_true_r.
    all: rewrite andb_false_r; symmetry; by apply Word.is_word_testbit with w; [|lia..].
  - rewrite !(Z.testbit_neg_r _ (n - k)) by lia. by rewrite !andb_false_r.
Qed.

Lemma shiftl_le_value (a b c : list Z) :
  length b = length c ->
  Word.shlw (8 * Z.of_nat (length (a ++ b))) (le_value (a ++ b)) (8 * Z.of_nat (length c)) =
  le_value a mod 2 ^ (8 * Z.of_nat (length a)) * 2 ^ (8 * Z.of_nat (length b)).
Proof.
  intros <-. unfold Word.shlw, Word.wrap. rewrite Z.shiftl_mul_pow2, le_value_app by lia.
  set (P := 2 ^ (8 * Z.of_nat (length a))). set (Q := 2 ^ (8 * Z.of_nat (length b))).
  replace (2 ^ (8 * Z.of_nat (length (a ++ b)))) with (P * Q).
  - rewrite Z.mul_mod_distr_r by (apply Z.pow_nonzero; lia). f_equal.
    rewrite (Z.mul_comm P), Z.mod_add by (apply Z.pow_nonzero; lia). done.
  - unfold P, Q. rewrite length_app, <- Z.pow_add_r by lia. f_equal. lia.
Qed.

Lemma make_sloppy_eq m s len :
  byte_memory m ->
  make_sloppy size big_endian unaligned m s len = make size big_endian unaligned m s len.
Proof.
  intros Hm. unfold make_sloppy, make. destruct (Z.leb_spec len 0); [done|].
  destruct unaligned; [|done]. cbn [andb]. destruct (Z.leb_spec (Z.of_nat size) len); [done|].
  rewrite Z.min_l by lia. set (n := Z.to_nat len).
  assert (Z.of_nat n = len) as Hn by lia. set (k := (size - n)%nat).
  replace (Z.of_nat size - len) with (Z.of_nat k) by lia.
  unfold word_of, pad. rewrite length_load. fold k. destruct big_endian.
  - pose proof (load_range m s size Hm) as Hr. pose proof (be_value_range _ Hr) as Hv.
    rewrite length_load in Hv.
    rewrite land_high_mask by lia. replace size with (n + k)%nat by lia.
    rewrite load_app, !be_value_app, be_value_zeros, length_load.
    unfold zeros. rewrite length_replicate.
    pose proof (be_value_range _ (load_range m (s + Z.of_nat n) k Hm)) as Hk.
    rewrite length_load in Hk. rewrite Z.div_add_l, Z.div_small by lia. lia.
  - replace size with (k + n)%nat by lia. rewrite load_app.
    replace (s - Z.of_nat k + Z.of_nat k) with s by lia.
    pose proof (shiftr_le_value (load m (s - Z.of_nat k) k) (load m s n) (load_range _ _ _ Hm)) as Hs.
    rewrite length_load in Hs. rewrite Hs, le_value_app, le_value_zeros. lia.
Qed.

Lemma equals_sloppy_eq m a b len :
  byte_memory m ->
  equals_sloppy size big_endian unaligned m a b len =
  (memcmp (load m a (Z.to_nat len)) (load m b (Z.to_nat len)) =? 0).
Proof.
  intros Hm. unfold equals_sloppy. destruct unaligned; [|done]. cbn [andb].
  destruct (Z.leb_spec len (Z.of_nat size)); [|done].
  destruct (Z.leb_spec len 0); [by rewrite Z2Nat.nonpos by lia|].
  set (n := Z.to_nat len). set (k := (size - n)%nat).
  replace (Z.of_nat size - len) with (Z.of_nat k) by lia.
  replace size with (n + k)%nat by lia. rewrite !load_app.
  pose proof (load_range m a n Hm) as Ha. pose proof (load_range m b n Hm) as Hb.
  pose proof (load_range m (a + Z.of_nat n) k Hm) as Ha'.
  pose proof (load_range m (b + Z.of_nat n) k Hm) as Hb'.
  pose proof (length_load m a n) as La. pose proof (length_load m b n) as Lb.
  pose proof (length_load m (a + Z.of_nat n) k) as La'.
  pose proof (length_load m (b + Z.of_nat n) k) as Lb'.
  revert Ha Hb Ha' Hb' La Lb La' Lb'.
  generalize (load m a n) (load m b n) (load m (a + Z.of_nat n) k) (load m (b + Z.of_nat n) k).
  intros x y x' y' Hx Hy Hx' Hy' Lx Ly Lx' Ly'.
  apply eq_bool_prop_intro. rewrite Is_true_true, Is_true_true. unfold word_of.
  destruct big_endian; rewrite !Z.eqb_eq, (memcmp_eq x y) by congruence.
  - rewrite Z.shiftr_lxor, Z.lxor_eq_0_iff, !Z.shiftr_div_pow2 by lia.
    rewrite !be_value_app, Lx', Ly'.
    pose proof (be_value_range _ Hx'). pose proof (be_value_range _ Hy'). rewrite Lx', Ly' in *.
    rewrite !Z.div_add_l, !Z.div_small, !Z.add_0_r by lia.
    split; [apply be_value_inj; congruence|by intros ->].
  - assert (forall w p q s, 0 <= w -> Word.shlw w (Z.lxor p q) s =
      Z.lxor (Word.shlw w p s) (Word.shlw w q s)) as Hxor.
    { intros w p q t ?. apply Z.bits_inj'. intros i Hi. rewrite Z.lxor_spec, !Word.shlw_testbit by lia.
      destruct (i <? w); cbn; [|done]. destruct (Z.leb_spec 0 (i - t)).
      - by rewrite Z.lxor_spec.
      - by rewrite !Z.testbit_neg_r by lia. }
    rewrite Hxor, Z.lxor_eq_0_iff by lia.
    pose proof (shiftl_le_value x x' x' eq_refl) as H1. rewrite length_app, Lx, Lx' in H1. rewrite H1.
    pose proof (shiftl_le_value y y' y' eq_refl) as H2. rewrite length_app, Ly, Ly' in H2. rewrite H2.
    pose proof (le_value_range _ Hx) as Rx. pose proof (le_value_range _ Hy) as Ry. rewrite Lx, Ly in *.
    rewrite !Z.mod_small by lia. pose proof (Z.pow_pos_nonneg 2 (8 * Z.of_nat k) ltac:(lia) ltac:(lia)).
    split; [|by intros ->]. intros He. rewrite <- (le_bytes_value x), <- (le_bytes_value y) by done.
    rewrite Lx, Ly. f_equal. nia.
Qed.
End slice_facts.

(** ** Properties *)

(** The single-access "sloppy" accessors compute exactly what the portable
    byte-by-byte ones do, whatever bytes lie around the string, for both byte
    orders: [make_sloppy] equals [make], and [equals_sloppy] equals
    [memcmp(...) == 0]. *)
Lemma sloppy_accessors_exact (size : nat) (be un : bool) (m : memory) (a b len : Z) :
  byte_memory m ->
  make_sloppy size be un m a len = make size be un m a len /\
  make_comparable_sloppy size be un m a len = make_comparable size be un m a len /\
  equals_sloppy size be un m a b len =
    (memcmp (load m a (Z.to_nat len)) (load m b (Z.to_nat len)) =? 0).
Proof.
  intros Hm. unfold make_comparable_sloppy, make_comparable.
  rewrite make_sloppy_eq, equals_sloppy_eq by done. done.
Qed.

Lemma trim_length_spec bs l :
  (l <= length bs)%nat ->
  let t := trim_length bs l in
  (t <= l)%nat /\ take l bs = take t bs ++ zeros (l - t) /\
  ((0 < t)%nat -> nth (t - 1) bs 0 <> 0).
Proof.
  induction l as [|l IH]; intros Hl; cbn [trim_length].
  - split; [lia|]. split; [done|lia].
  - destruct (Z.eqb_spec (nth l bs 0) 0) as [Hz|Hz].
    + destruct (IH ltac:(lia)) as (Ht & Htake & Hlast). split; [lia|]. split; [|done].
      rewrite (take_S_r bs l 0), Htake.
      * rewrite <- app_assoc. f_equal.
        replace (S l - trim_length bs l)%nat with (l - trim_length bs l + 1)%nat by lia.
        unfold zeros. rewrite replicate_add. done.
      * rewrite <- Hz. apply nth_lookup_Some_iff || idtac.
        destruct (lookup_lt_is_Some_2 bs l ltac:(lia)) as [x Hx].
        rewrite Hx. by rewrite (nth_lookup_Some _ _ _ _ Hx).
    + split; [lia|]. rewrite Nat.sub_diag, app_nil_r. split; [done|].
      intros _. cbn. by rewrite Nat.sub_0_r.
Qed.

(** Unparsing a comparable slice gives the string back: with its length,
    exactly the first [len] bytes; without it, the slice's bytes less trailing
    null characters, and no more can be removed. *)
Lemma unparse_make_comparable (size : nat) (be un : bool) (m : memory) (s len : Z) :
  byte_memory m -> 0 <= len <= Z.of_nat size ->
  let v := make_comparable size be un m s len in
  let u := unparse_comparable size be (Z.of_nat size) v in
  unparse_comparable_len size be (Z.of_nat size) v len = load m s (Z.to_nat len) /\
  slice_bytes size m s len = u ++ zeros (size - length u) /\
  (u <> [] -> last u <> Some 0).
Proof.
  intros Hm Hl v u. subst u v. unfold unparse_comparable, unparse_comparable_len.
  rewrite make_comparable_spec, bytes_of_net_order
    by (done || apply length_slice_bytes || by apply slice_bytes_range).
  set (w := slice_bytes size m s len).
  assert (length w = size) as Lw by apply length_slice_bytes.
  split.
  - rewrite Z.min_l by lia. unfold w, slice_bytes, pad.
    rewrite take_app_le by (rewrite length_load; lia).
    rewrite Z.min_l by lia. by rewrite take_ge by (rewrite length_load; lia).
  - destruct (trim_length_spec w size ltac:(lia)) as (Ht & Htake & Hlast).
    set (t := trim_length w size) in *. rewrite Z.min_l, Nat2Z.id by lia.
    rewrite length_take, Lw, (Nat.min_l t) by lia.
    rewrite take_ge in Htake by lia. split; [exact Htake|].
    intros Hne Hz. destruct t as [|t']; [by rewrite take_0 in Hne|].
    apply (Hlast ltac:(lia)). rewrite last_lookup, length_take, Lw, Nat.min_l in Hz by lia.
    cbn in Hz |- *. rewrite lookup_take_lt in Hz by lia. rewrite Nat.sub_0_r.
    by apply nth_lookup_Some.
Qed.

