(* ===== verification/Key.v ===== *)
(** * Masstree keys (masstree_key.hh)

    [key<uint64_t>]: an 8-byte integer slice ([ikey]) and the rest of the
    string, with the shift operations that follow a descent through the trie of
    layers.  [k_buf] is the buffer [first_] points to and [k_pos] is
    [s_ - first_]; operations that write through [s_] fault when the write does
    not fit the buffer. *)

From S2P Require Export Slice.

#[local] Open Scope Z_scope.

(** The build configuration: byte order and unaligned access. *)
Class Config := { cfg_big_endian : bool; cfg_unaligned : bool }.

Definition ikey_size : Z := 8.
Abbreviation ikey_bits := 64.

Record key := Key {
  k_ikey : Z;       (* ikey0_ *)
  k_len : Z;        (* len_ *)
  k_pos : Z;        (* s_ - first_ *)
  k_buf : list Z    (* the bytes at first_ *)
}.

#[export] Instance key_eq_dec : EqDecision key.
Proof. solve_decision. Defined.

Definition buf_memory (buf : list Z) : memory :=
  fun p => if p <? 0 then 0 else nth (Z.to_nat p) buf 0.

(** [memcpy(buf + p, bs, n)] *)
Definition store (buf : list Z) (p : Z) (bs : list Z) : res (list Z) :=
  if (0 <=? p) && (p + Z.of_nat (length bs) <=? Z.of_nat (length buf)) then
    Ok (take (Z.to_nat p) buf ++ bs ++ drop (Z.to_nat p + length bs) buf)
  else Fault OutOfBounds.

Section key.
Context {cfg : Config}.

Definition ikey_make_comparable (buf : list Z) (p len : Z) : Z :=
  make_comparable 8 cfg_big_endian cfg_unaligned (buf_memory buf) p len.
Definition ikey_make_comparable_sloppy (buf : list Z) (p len : Z) : Z :=
  make_comparable_sloppy 8 cfg_big_endian cfg_unaligned (buf_memory buf) p len.

(** [key(Str s)] and [key(const char* s, int len)] *)
Definition key_of_str (s : list Z) : key :=
  Key (ikey_make_comparable s 0 (Z.of_nat (length s))) (Z.of_nat (length s)) 0 s.
Definition key_of_buf (s : list Z) (len : Z) : key :=
  Key (ikey_make_comparable s 0 len) len 0 s.

(** [explicit key(ikey_type ikey)] *)
Definition key_of_ikey (ikey : Z) : key :=
  Key ikey (if negb (ikey =? 0) then ikey_size - ctz ikey_bits ikey / 8 else 0) 0 [].

(** [key(ikey_type ikey, int len)] *)
Definition key_of_ikey_len (ikey len : Z) : key := Key ikey (Z.min len ikey_size) 0 [].

(** [key(ikey_type ikey, Str suf)]: [s_] is [suf.s - ikey_size], so the eight
    bytes before the suffix belong to the buffer but are not meaningful. *)
Definition key_of_ikey_suffix (ikey : Z) (suf : list Z) : key :=
  Key ikey (ikey_size + Z.of_nat (length suf)) 0 (zeros 8 ++ suf).

Definition key_empty (k : key) : bool := (k_ikey k =? 0) && (k_len k =? 0).
Definition has_suffix (k : key) : bool := ikey_size <? k_len k.

Definition suffix_length (k : key) : Z := k_len k - ikey_size.
Definition suffix (k : key) : list Z :=
  load (buf_memory (k_buf k)) (k_pos k + ikey_size) (Z.to_nat (suffix_length k)).

Definition shift_by (delta : Z) (k : key) : key :=
  let s := k_pos k + delta in
  let len := k_len k - delta in
  Key (ikey_make_comparable_sloppy (k_buf k) s len) len s (k_buf k).
Definition shift (k : key) : key :=
  let s := k_pos k + ikey_size in
  let len := k_len k - ikey_size in
  Key (ikey_make_comparable_sloppy (k_buf k) s len) len s (k_buf k).

Definition is_shifted (k : key) : bool := negb (k_pos k =? 0).

Definition unshift_all (k : key) : key :=
  if negb (k_pos k =? 0) then
    let len := k_len k + k_pos k in
    Key (ikey_make_comparable (k_buf k) 0 len) len 0 (k_buf k)
  else k.

(** [compare(ikey_type ikey, int keylenx)] and [compare(const key& x)] *)
Definition key_compare (k : key) (ikey keylenx : Z) : Z :=
  let cmp := compare (k_ikey k) ikey in
  if cmp =? 0 then
    let al := k_len k in
    if ikey_size <? al then (if keylenx <=? ikey_size then 1 else 0) else al - keylenx
  else cmp.
Definition key_compare_key (k x : key) : Z := key_compare k (k_ikey x) (k_len x).

(** [unparse(char* data, int datalen)]: the bytes written. *)
Definition key_unparse (k : key) (datalen : Z) : list Z :=
  let cplen := Z.min (k_len k) datalen in
  unparse_comparable_len 8 cfg_big_endian cplen (k_ikey k) ikey_size ++
  (if ikey_size <? cplen then
     load (buf_memory (k_buf k)) (k_pos k + ikey_size) (Z.to_nat (cplen - ikey_size))
   else []).
(** [String unparse() const] *)
Definition key_unparse_string (k : key) : list Z := key_unparse k (k_len k).

Definition unparse_ikey (ikey : Z) : list Z := key_unparse_string (key_of_ikey ikey).

(** ** Operations used during scans *)

Definition prefix_string (k : key) : list Z :=
  load (buf_memory (k_buf k)) 0 (Z.to_nat (k_pos k)).
Definition prefix_length (k : key) : Z := k_pos k.
Definition full_string (k : key) : list Z :=
  load (buf_memory (k_buf k)) 0 (Z.to_nat (k_pos k + k_len k)).

Definition increment (k : key) : bool * key :=
  if has_suffix k then
    let ikey := Word.addw ikey_bits (k_ikey k) 1 in
    (ikey =? 0, Key ikey 1 (k_pos k) (k_buf k))
  else (false, Key (k_ikey k) (k_len k + 1) (k_pos k) (k_buf k)).

Definition assign_store_ikey (ikey : Z) (k : key) : res key :=
  buf ← store (k_buf k) (k_pos k)
          (bytes_of 8 cfg_big_endian (host_to_net_order 8 cfg_big_endian ikey));
  Ok (Key ikey (k_len k) (k_pos k) buf).

Definition assign_store_suffix (s : list Z) (k : key) : res (Z * key) :=
  buf ← store (k_buf k) (k_pos k + ikey_size) s;
  Ok (ikey_size + Z.of_nat (length s), Key (k_ikey k) (k_len k) (k_pos k) buf).

Definition assign_store_length (len : Z) (k : key) : key :=
  Key (k_ikey k) len (k_pos k) (k_buf k).

Definition unshift (k : key) : res key :=
  check_res (is_shifted k) ;;
  let s := k_pos k - ikey_size in
  Ok (Key (ikey_make_comparable_sloppy (k_buf k) s ikey_size) (ikey_size + 1) s (k_buf k)).

Definition shift_clear (k : key) : key := Key 0 0 (k_pos k + ikey_size) (k_buf k).

Definition shift_clear_reverse (k : key) : key :=
  Key (Word.notw ikey_bits 0) (ikey_size + 1) (k_pos k + ikey_size) (k_buf k).
End key.

(** ** Lexicographic comparison *)

Lemma String_compare_nil_l t : String_compare [] t = - Z.of_nat (length t).
Proof. unfold String_compare. rewrite firstn_nil. cbn. lia. Qed.

Lemma memcmp_nil_r s : memcmp s [] = 0.
Proof. by destruct s. Qed.

Lemma String_compare_nil_r s : String_compare s [] = Z.of_nat (length s).
Proof.
  unfold String_compare. rewrite firstn_nil, memcmp_nil_r. cbn. lia.
Qed.

Lemma String_compare_cons x s y t :
  String_compare (x :: s) (y :: t) =
    if x <? y then -1 else if y <? x then 1 else String_compare s t.
Proof.
  unfold String_compare. cbn [length]. rewrite !Nat2Z.inj_succ.
  assert (forall n k : nat, (Z.of_nat n < Z.of_nat k <-> Z.succ (Z.of_nat n) < Z.succ (Z.of_nat k))) as Hs by lia.
  destruct (Z.ltb_spec (Z.succ (Z.of_nat (length s))) (Z.succ (Z.of_nat (length t))));
    destruct (Z.ltb_spec (Z.of_nat (length s)) (Z.of_nat (length t))); try lia;
    rewrite Z2Nat.inj_succ by lia; cbn [take memcmp];
    destruct (x <? y); try done; destruct (y <? x); try done;
    match goal with |- context [memcmp ?a ?b] => destruct (Z.eqb_spec (memcmp a b) 0) end;
    cbn; lia.
Qed.

Lemma memcmp_zeros_l n bs :
  Forall is_byte bs -> memcmp (zeros n) bs = 0 \/ memcmp (zeros n) bs = -1.
Proof.
  revert bs. induction n as [|n IH]; intros [|b bs] H; cbn; auto.
  inversion_clear H as [|? ? Hb ?]. unfold is_byte in Hb.
  destruct (Z.ltb_spec 0 b); [auto|]. destruct (Z.ltb_spec b 0); [lia|]. by apply IH.
Qed.

Lemma memcmp_zeros_r n bs :
  Forall is_byte bs -> memcmp bs (zeros n) = 0 \/ memcmp bs (zeros n) = 1.
Proof.
  revert bs. induction n as [|n IH]; intros [|b bs] H; cbn; auto.
  inversion_clear H as [|? ? Hb ?]. unfold is_byte in Hb.
  destruct (Z.ltb_spec b 0); [lia|]. destruct (Z.ltb_spec 0 b); [auto|]. by apply IH.
Qed.

Lemma pad_nil n : pad n [] = zeros n.
Proof. unfold pad. cbn. by rewrite Nat.sub_0_r. Qed.

Lemma pad_cons n x s : pad (S n) (x :: s) = x :: pad n s.
Proof. done. Qed.

(** Lexicographic order through zero-padded prefixes of [n] bytes. *)
Lemma String_compare_prefix n s t :
  Forall is_byte s -> Forall is_byte t ->
  let c := memcmp (pad n (take n s)) (pad n (take n t)) in
  Z.sgn (String_compare s t) =
    if negb (c =? 0) then c
    else if (n <? length s)%nat then
      if (length t <=? n)%nat then 1 else Z.sgn (String_compare (drop n s) (drop n t))
    else Z.sgn (Z.of_nat (length s) - Z.of_nat (length t)).
Proof.
  revert s t. induction n as [|n IH]; intros s t Hs Ht; cbn zeta.
  - rewrite !take_0. cbn. destruct s as [|x s]; cbn; [by rewrite String_compare_nil_l|].
    destruct t as [|y t]; cbn; [|done]. rewrite String_compare_nil_r. cbn. lia.
  - destruct s as [|x s], t as [|y t]; rewrite ?firstn_nil, ?firstn_cons, ?pad_nil, ?pad_cons.
    + rewrite memcmp_refl. cbn. done.
    + inversion_clear Ht as [|? ? Hy Ht']. unfold is_byte in Hy. rewrite String_compare_nil_l.
      pose proof (pad_range n _ (Forall_take _ n _ Ht')) as Hp.
      change (zeros (S n)) with (0 :: zeros n). cbn [memcmp length Nat.ltb Nat.leb].
      destruct (Z.ltb_spec 0 y); [cbn; lia|]. destruct (Z.ltb_spec y 0); [lia|].
      destruct (memcmp_zeros_l n _ Hp) as [-> | ->]; cbn; lia.
    + inversion_clear Hs as [|? ? Hx Hs']. unfold is_byte in Hx. rewrite String_compare_nil_r.
      pose proof (pad_range n _ (Forall_take _ n _ Hs')) as Hp.
      change (zeros (S n)) with (0 :: zeros n). cbn [memcmp length].
      destruct (Z.ltb_spec x 0); [lia|]. destruct (Z.ltb_spec 0 x); [cbn; lia|].
      destruct (memcmp_zeros_r n _ Hp) as [-> | ->]; cbn [Z.eqb negb]; [|lia].
      destruct (_ <? _)%nat; cbn; lia.
    + inversion_clear Hs as [|? ? Hx Hs']. inversion_clear Ht as [|? ? Hy Ht'].
      rewrite String_compare_cons. cbn [memcmp length drop].
      destruct (Z.ltb_spec x y); [done|]. destruct (Z.ltb_spec y x); [done|].
      rewrite (IH s t Hs' Ht'). cbn zeta. rewrite !Nat2Z.inj_succ.
      change (S n <? S (length s))%nat with (n <? length s)%nat.
      change (S (length t) <=? S n)%nat with (length t <=? n)%nat.
      replace (Z.succ (Z.of_nat (length s)) - Z.succ (Z.of_nat (length t)))
        with (Z.of_nat (length s) - Z.of_nat (length t)) by lia.
      done.
Qed.

(** ** The string a key stands for *)

(** [k] represents the string [s]: its slice, its length and the bytes at
    [s_] are those of [s]. *)
Definition key_rep (k : key) (s : list Z) : Prop :=
  Forall is_byte (k_buf k) /\ Forall is_byte s /\
  k_len k = Z.of_nat (length s) /\ k_ikey k = be_value (pad 8 (take 8 s)) /\
  load (buf_memory (k_buf k)) (k_pos k) (length s) = s.

Lemma buf_memory_bytes buf : Forall is_byte buf -> byte_memory (buf_memory buf).
Proof.
  intros H p. unfold buf_memory, is_byte. destruct (p <? 0); [lia|].
  destruct (nth_in_or_default (Z.to_nat p) buf 0) as [Hi| ->]; [|lia].
  rewrite List.Forall_forall in H. by apply H.
Qed.

Lemma load_buf_drop buf p n :
  0 <= p -> (Z.to_nat p + n <= length buf)%nat ->
  load (buf_memory buf) p n = take n (drop (Z.to_nat p) buf).
Proof.
  revert p. induction n as [|n IH]; intros p Hp Hl; [by rewrite take_0|].
  cbn [load]. rewrite IH by lia.
  rewrite (drop_S buf (nth (Z.to_nat p) buf 0) (Z.to_nat p)).
  - unfold buf_memory. destruct (Z.ltb_spec p 0); [lia|].
    replace (Z.to_nat (p + 1)) with (S (Z.to_nat p)) by lia. done.
  - destruct (lookup_lt_is_Some_2 buf (Z.to_nat p) ltac:(lia)) as [x Hx].
    by rewrite (nth_lookup_Some _ _ _ _ Hx).
Qed.

Lemma slice_bytes_load m p s :
  load m p (length s) = s ->
  slice_bytes 8 m p (Z.of_nat (length s)) = pad 8 (take 8 s).
Proof.
  intros H. unfold slice_bytes. f_equal. destruct (le_lt_dec (length s) 8).
  - rewrite Z.min_l, Nat2Z.id, H, take_ge by lia. done.
  - rewrite Z.min_r, Nat2Z.id by lia. rewrite <- H at 1. by rewrite take_load by lia.
Qed.

Lemma drop_load m p n k : (n <= k)%nat -> drop n (load m p k) = load m (p + Z.of_nat n) (k - n).
Proof.
  intros. replace k with (n + (k - n))%nat at 1 by lia. rewrite load_app.
  rewrite drop_app_ge by (rewrite length_load; lia). by rewrite length_load, Nat.sub_diag.
Qed.

Section key_facts.
Context {cfg : Config}.

Lemma key_of_str_rep s : Forall is_byte s -> key_rep (key_of_str s) s.
Proof.
  intros Hs. assert (load (buf_memory s) 0 (length s) = s) as Hl.
  { rewrite load_buf_drop by (cbn; lia). cbn. by rewrite take_ge, drop_0 by (rewrite drop_0; lia). }
  split; [done|]. split; [done|]. split; [done|]. split; [|done].
  cbn. unfold ikey_make_comparable. rewrite make_comparable_spec by by apply buf_memory_bytes.
  by rewrite slice_bytes_load.
Qed.

Lemma shift_by_rep k s d :
  key_rep k s -> (d <= length s)%nat -> key_rep (shift_by (Z.of_nat d) k) (drop d s).
Proof.
  intros (Hb & Hs & Hlen & _ & Hl) Hd.
  assert (load (buf_memory (k_buf k)) (k_pos k + Z.of_nat d) (length (drop d s)) = drop d s) as Hl'.
  { rewrite <- Hl at 2. rewrite length_drop, drop_load by lia. done. }
  split; [done|]. split; [by apply Forall_drop|].
  split; [cbn; rewrite length_drop; lia|]. split; [|done].
  cbn. unfold ikey_make_comparable_sloppy, make_comparable_sloppy.
  rewrite make_sloppy_eq by by apply buf_memory_bytes.
  fold (make_comparable 8 cfg_big_endian cfg_unaligned (buf_memory (k_buf k))
    (k_pos k + Z.of_nat d) (k_len k - Z.of_nat d)).
  rewrite make_comparable_spec by by apply buf_memory_bytes.
  replace (k_len k - Z.of_nat d) with (Z.of_nat (length (drop d s))) by (rewrite length_drop; lia).
  by rewrite slice_bytes_load.
Qed.

Lemma shift_is_shift_by k : shift k = shift_by (Z.of_nat 8) k.
Proof. done. Qed.
End key_facts.

Lemma store_ok buf p bs buf' :
  store buf p bs = Ok buf' ->
  0 <= p /\ (Z.to_nat p + length bs <= length buf)%nat /\
  buf' = take (Z.to_nat p) buf ++ bs ++ drop (Z.to_nat p + length bs) buf /\
  length buf' = length buf.
Proof.
  unfold store. destruct (Z.leb_spec 0 p); cbn; [|done].
  destruct (Z.leb_spec (p + Z.of_nat (length bs)) (Z.of_nat (length buf))); [|done].
  intros [= <-]. split; [done|]. split; [lia|]. split; [done|].
  rewrite !length_app, length_take, length_drop. lia.
Qed.

Lemma take_store buf p bs buf' n :
  store buf p bs = Ok buf' -> (n <= Z.to_nat p)%nat -> take n buf' = take n buf.
Proof.
  intros (? & ? & -> & _)%store_ok Hn. rewrite take_app_le by (rewrite length_take; lia).
  rewrite take_take. f_equal. lia.
Qed.

Lemma take_store_end buf p bs buf' :
  store buf p bs = Ok buf' -> take (Z.to_nat p + length bs) buf' = take (Z.to_nat p) buf ++ bs.
Proof.
  intros (? & ? & -> & _)%store_ok. rewrite app_assoc.
  rewrite take_app_length'; [done|]. rewrite length_app, length_take. lia.
Qed.

(** ** Properties *)

Section key_props.
Context {cfg : Config}.

(** C38: comparing keys slice by slice is comparing the strings: for keys that
    represent byte strings [s] and [t], the sign of [key::compare] is the sign
    of [String_generic::compare]; when it answers 0 for two keys with suffixes,
    the strings compare as their suffixes do, which is what the next trie layer
    decides. *)
Theorem key_compare_lexicographic (k x : key) (s t : list Z) :
  key_rep k s -> key_rep x t ->
  Z.sgn (String_compare s t) =
    (if (key_compare_key k x =? 0) && has_suffix k
     then Z.sgn (String_compare (drop 8 s) (drop 8 t))
     else Z.sgn (key_compare_key k x)) /\
  (key_compare_key k x = 0 -> has_suffix k = has_suffix x /\ take 8 s = take 8 t).
Proof.
  intros (_ & Hs & Hkl & Hki & _) (_ & Ht & Hxl & Hxi & _).
  pose proof (String_compare_prefix 8 s t Hs Ht) as Hp. cbn zeta in Hp.
  assert (forall u, length (pad 8 (take 8 u)) = 8%nat) as Hlp.
  { intros u. apply length_pad. rewrite length_take. lia. }
  unfold key_compare_key, key_compare, has_suffix, ikey_size.
  rewrite Hki, Hxi, Hkl, Hxl.
  rewrite be_value_compare by (by rewrite !Hlp || by apply pad_range, Forall_take).
  rewrite Hp. clear Hp.
  destruct (Z.eqb_spec (memcmp (pad 8 (take 8 s)) (pad 8 (take 8 t))) 0) as [He|He]; cbn [negb].
  - apply memcmp_eq in He; [|by rewrite !Hlp].
    destruct (Z.ltb_spec 8 (Z.of_nat (length s))), (Nat.ltb_spec 8 (length s)); try lia.
    + destruct (Z.leb_spec (Z.of_nat (length t)) 8), (Nat.leb_spec (length t) 8); try lia; cbn [Z.eqb andb].
      * split; [done|lia].
      * split; [done|]. intros _. split; [symmetry; apply Z.ltb_lt; lia|].
        unfold pad in He. rewrite !length_take, !Nat.min_l, Nat.sub_diag, !app_nil_r in He by lia. done.
    + rewrite andb_false_r. split; [done|]. intros Hz.
      assert (length s = length t) as Hst by lia. split; [symmetry; apply Z.ltb_ge; lia|].
      apply (f_equal (take (length s))) in He. unfold pad in He.
      rewrite !take_app_le, !take_take in He by (rewrite length_take; lia).
      rewrite !take_ge in He by lia. by rewrite !take_ge by lia.
  - destruct (Z.eqb_spec (memcmp (pad 8 (take 8 s)) (pad 8 (take 8 t))) 0); [done|]. cbn [andb].
    split; [|done].
    rewrite <- be_value_compare by (by rewrite !Hlp || by apply pad_range, Forall_take).
    unfold compare. destruct (_ =? _); [done|]. by destruct (_ <? _).
Qed.

(** [shift] moves a key to its suffix and [unshift_all] undoes every shift:
    after [n] shifts the key represents the string without its first [8 n]
    bytes, and unshifting restores the original key. *)
Lemma key_shift_unshift (s : list Z) (n : nat) :
  Forall is_byte s -> (8 * n <= length s)%nat ->
  let k := Nat.iter n shift (key_of_str s) in
  key_rep k (drop (8 * n) s) /\ prefix_string k = take (8 * n) s /\
  unshift_all k = key_of_str s.
Proof.
  intros Hs Hn. cbn zeta.
  assert (key_rep (Nat.iter n shift (key_of_str s)) (drop (8 * n) s) /\
    k_pos (Nat.iter n shift (key_of_str s)) = 8 * Z.of_nat n /\
    k_buf (Nat.iter n shift (key_of_str s)) = s) as (Hr & Hp & Hb).
  { induction n as [|n IH]; [split; [by apply key_of_str_rep|done]|].
    destruct (IH ltac:(lia)) as (IHr & IHp & IHb). cbn [Nat.iter nat_rect].
    unfold Nat.iter in IHr, IHp, IHb |- *. split; [|cbn; rewrite IHp, IHb; unfold ikey_size; split; [lia|done]].
    rewrite shift_is_shift_by. replace (8 * S n)%nat with (8 * n + 8)%nat by lia.
    rewrite <- drop_drop. apply shift_by_rep; [done|]. rewrite length_drop. lia. }
  destruct Hr as (Hr1 & Hr2 & Hr3 & Hr4 & Hr5). split; [by repeat split|].
  unfold prefix_string, unshift_all. rewrite Hp, Hb. split.
  - rewrite load_buf_drop by lia. rewrite drop_0. f_equal. lia.
  - rewrite Hr3, length_drop. destruct (Z.eqb_spec (8 * Z.of_nat n) 0); cbn [negb].
    + by replace n with 0%nat by lia.
    + unfold key_of_str. f_equal; [f_equal; lia|lia].
Qed.

(** Unparsing a key gives its string back. *)
Lemma key_unparse_rep (k : key) (s : list Z) :
  key_rep k s -> key_unparse_string k = s.
Proof.
  intros (_ & Hs & Hl & Hi & Hld). unfold key_unparse_string, key_unparse.
  rewrite Z.min_l, Hl, Hi by lia. unfold unparse_comparable_len.
  rewrite bytes_of_net_order by
    (apply length_pad; rewrite length_take; lia) || (by apply pad_range, Forall_take).
  unfold ikey_size. change (Z.of_nat 8) with 8.
  destruct (Z.ltb_spec 8 (Z.of_nat (length s))).
  - rewrite Z.min_l by lia. unfold pad. rewrite length_take, Nat.min_l, Nat.sub_diag, app_nil_r by lia.
    transitivity (take 8 s ++ drop 8 s); [|apply take_drop]. f_equal; [rewrite take_take; f_equal; lia|].
    rewrite <- Hld at 2. rewrite drop_load by lia. f_equal. lia.
  - rewrite Z.min_r by lia. rewrite app_nil_r. unfold pad.
    rewrite Nat2Z.id, (take_ge s) by lia. by rewrite take_app_length.
Qed.

(** During a scan the key buffer is rebuilt in place: storing an ikey, a
    suffix and the length makes [full_string] the layer's prefix followed by
    the ikey's eight bytes and the suffix. *)
Lemma key_scan_rebuild (k k1 k2 : key) (ikey len : Z) (suf : list Z) :
  0 <= k_pos k -> Word.is_word 64 ikey ->
  assign_store_ikey ikey k = Ok k1 ->
  assign_store_suffix suf k1 = Ok (len, k2) ->
  full_string (assign_store_length len k2) =
    prefix_string k ++ rev (le_bytes 8 ikey) ++ suf.
Proof.
  intros Hp Hw H1 H2. unfold assign_store_ikey in H1. apply res_bind_ok in H1 as (b1 & H1 & [= <-]).
  unfold assign_store_suffix in H2. apply res_bind_ok in H2 as (b2 & H2 & [= <- <-]). cbn in H1, H2.
  assert (bytes_of 8 cfg_big_endian (host_to_net_order 8 cfg_big_endian ikey) = rev (le_bytes 8 ikey)) as Hby.
  { replace ikey with (be_value (rev (le_bytes 8 ikey))) at 1.
    - apply bytes_of_net_order; [by rewrite length_rev, length_le_bytes|].
      apply Forall_rev_byte, le_bytes_range.
    - unfold be_value. rewrite rev_involutive, le_value_bytes. by apply Z.mod_small. }
  rewrite Hby in H1. set (ib := rev (le_bytes 8 ikey)) in *.
  assert (length ib = 8%nat) as Hib by (unfold ib; by rewrite length_rev, length_le_bytes).
  pose proof (store_ok _ _ _ _ H1) as (_ & L1 & _ & E1).
  pose proof (store_ok _ _ _ _ H2) as (_ & L2 & _ & E2).
  unfold full_string, prefix_string, assign_store_length.
  cbn [k_buf k_pos k_len]. fold ib.
  rewrite !load_buf_drop by (unfold ikey_size in *; lia). rewrite !drop_0.
  replace (Z.to_nat (k_pos k + (ikey_size + Z.of_nat (length suf))))
    with (Z.to_nat (k_pos k + ikey_size) + length suf)%nat by (unfold ikey_size; lia).
  rewrite (take_store_end _ _ _ _ H2), app_assoc. f_equal.
  replace (Z.to_nat (k_pos k + ikey_size)) with (Z.to_nat (k_pos k) + length ib)%nat
    by (unfold ikey_size; lia).
  by apply take_store_end.
Qed.
End key_props.

(** ** Witnesses *)

(** The configuration of a little-endian machine with unaligned access. *)
Definition x86_config : Config := {| cfg_big_endian := false; cfg_unaligned := true |}.

Lemma key_compare_lexicographic_witness :
  let s := [97; 98; 99; 100; 101; 102; 103; 104; 105] in
  let t := [97; 98; 99; 100; 101; 102; 103; 104; 200; 1] in
  @key_compare_key (@key_of_str x86_config s) (@key_of_str x86_config t) = 0 /\
  Z.sgn (String_compare s t) = Z.sgn (String_compare (drop 8 s) (drop 8 t)).
Proof.
  intros s t.
  assert (Forall is_byte s) as Hs by (repeat constructor; done).
  assert (Forall is_byte t) as Ht by (repeat constructor; done).
  split; [by vm_compute|].
  apply (key_compare_lexicographic _ _ s t
    (@key_of_str_rep x86_config s Hs) (@key_of_str_rep x86_config t Ht)).
Defined.


