(* ===== verification/StringOrder.v ===== *)
(** * The order of strings

    [String_generic::compare] is a total order on strings of characters. *)

From S2P Require Export Key.

#[local] Open Scope Z_scope.

(** [a < b] and [a <= b] of [String_base]. *)
Definition string_lt (a b : list Z) : bool := String_compare a b <? 0.
Definition string_le (a b : list Z) : bool := String_compare a b <=? 0.
Definition string_ge (a b : list Z) : bool := 0 <=? String_compare a b.

Lemma String_compare_refl a : String_compare a a = 0.
Proof. induction a as [|x a IH]; [done|]. by rewrite String_compare_cons, Z.ltb_irrefl. Qed.

Lemma String_compare_0 a b : String_compare a b = 0 <-> a = b.
Proof.
  split; [|intros ->; apply String_compare_refl]. revert b. induction a as [|x a IH]; intros [|y b].
  - done.
  - rewrite String_compare_nil_l. cbn [length]. lia.
  - rewrite String_compare_nil_r. cbn [length]. lia.
  - rewrite String_compare_cons. destruct (Z.ltb_spec x y), (Z.ltb_spec y x); try done. intros H'%IH. f_equal; [lia|done].
Qed.

Lemma String_compare_antisym a b : Z.sgn (String_compare b a) = - Z.sgn (String_compare a b).
Proof.
  revert b. induction a as [|x a IH]; intros [|y b]; rewrite ?String_compare_nil_l, ?String_compare_nil_r; try (cbn [length]; lia).
  rewrite !String_compare_cons. destruct (Z.ltb_spec x y), (Z.ltb_spec y x); try lia. apply IH.
Qed.

Lemma String_compare_trans a b c : String_compare a b <= 0 -> String_compare b c <= 0 -> String_compare a c <= 0.
Proof.
  revert b c. induction a as [|x a IH]; intros [|y b] [|z c]; rewrite ?String_compare_nil_l, ?String_compare_nil_r; cbn [length]; try lia.
  rewrite !String_compare_cons. destruct (Z.ltb_spec x y), (Z.ltb_spec y z), (Z.ltb_spec x z), (Z.ltb_spec y x), (Z.ltb_spec z y), (Z.ltb_spec z x); try lia.
  apply IH.
Qed.

Lemma string_le_refl a : string_le a a = true.
Proof. apply Z.leb_le. by rewrite String_compare_refl. Qed.
Lemma string_le_trans a b c : string_le a b = true -> string_le b c = true -> string_le a c = true.
Proof. unfold string_le. rewrite !Z.leb_le. apply String_compare_trans. Qed.
Lemma string_lt_nle a b : string_lt a b = negb (string_le b a).
Proof.
  pose proof (String_compare_antisym a b). unfold string_lt, string_le.
  destruct (Z.ltb_spec (String_compare a b) 0), (Z.leb_spec (String_compare b a) 0); cbn; lia.
Qed.
Lemma string_ge_le a b : string_ge a b = string_le b a.
Proof.
  pose proof (String_compare_antisym a b). unfold string_ge, string_le.
  destruct (Z.leb_spec 0 (String_compare a b)), (Z.leb_spec (String_compare b a) 0); cbn; lia.
Qed.
Lemma string_le_antisym a b : string_le a b = true -> string_le b a = true -> a = b.
Proof.
  unfold string_le. rewrite !Z.leb_le. intros. apply String_compare_0. pose proof (String_compare_antisym a b). lia.
Qed.
Lemma string_le_total a b : string_le a b = true \/ string_le b a = true.
Proof. unfold string_le. rewrite !Z.leb_le. pose proof (String_compare_antisym a b). lia. Qed.
Lemma string_le_nil a : string_le [] a = true.
Proof. apply Z.leb_le. rewrite String_compare_nil_l. lia. Qed.
