(* ===== verification/KSearch.v ===== *)
(** * Searching a node's keys (ksearch.hh)

    Binary and linear bound searches over the positions of a key permutation.
    A search sees a node only through its permutation ([size] and [operator[]])
    and the comparator, which compares the sought key with the key stored at a
    physical position; both are parameters here and are instantiated by the
    leaf's permuter and the internode's identity permuter. *)

From S2P Require Export Prelude.

#[local] Open Scope Z_scope.

(** What [key_permuter<T>::permutation(n)] gives to the searches. *)
Record permutation := MkPerm {
  perm_size : Z;
  perm_get : Z -> Z   (* [operator[]]: rank to physical position *)
}.

(** [key_permuter<T>]: the permutation a node presents to the searches. *)
Class KeyPermuter (T : Type) := permutation_of : T -> permutation.

(** [key_comparator<KA, T>]: [n.compare_key(ka, p)]. *)
Class KeyComparator (KA T : Type) := compare_key : KA -> T -> Z -> Z.

Record key_indexed_position := KPos {
  kp_i : Z;
  kp_p : Z
}.

#[export] Instance key_indexed_position_eq_dec : EqDecision key_indexed_position.
Proof. solve_decision. Defined.

Section search.
Context {T : Type} `{!KeyPermuter T} {KA : Type} (comparator : KA -> T -> Z -> Z).

Fixpoint upper_bound_loop (fuel : nat) (ka : KA) (n : T) (l r : Z) : res Z :=
  match fuel with
  | O => Fault OutOfFuel
  | S fuel =>
    if l <? r then
      let m := Z.shiftr (l + r) 1 in
      let mp := perm_get (permutation_of n) m in
      let cmp := comparator ka n mp in
      if cmp <? 0 then upper_bound_loop fuel ka n l m
      else if cmp =? 0 then Ok (m + 1)
      else upper_bound_loop fuel ka n (m + 1) r
    else Ok l
  end.

(** One more iteration than the size: each one shrinks [r - l]. *)
Definition search_fuel (n : T) : nat := S (Z.to_nat (perm_size (permutation_of n))).

Definition key_upper_bound_by (ka : KA) (n : T) : res Z :=
  upper_bound_loop (search_fuel n) ka n 0 (perm_size (permutation_of n)).

Fixpoint lower_bound_loop (fuel : nat) (ka : KA) (n : T) (l r : Z) : res key_indexed_position :=
  match fuel with
  | O => Fault OutOfFuel
  | S fuel =>
    if l <? r then
      let m := Z.shiftr (l + r) 1 in
      let mp := perm_get (permutation_of n) m in
      let cmp := comparator ka n mp in
      if cmp <? 0 then lower_bound_loop fuel ka n l m
      else if cmp =? 0 then Ok (KPos m mp)
      else lower_bound_loop fuel ka n (m + 1) r
    else Ok (KPos l (-1))
  end.

Definition key_lower_bound_by (ka : KA) (n : T) : res key_indexed_position :=
  lower_bound_loop (search_fuel n) ka n 0 (perm_size (permutation_of n)).

Fixpoint find_upper_bound_loop (fuel : nat) (ka : KA) (n : T) (l r : Z) : res Z :=
  match fuel with
  | O => Fault OutOfFuel
  | S fuel =>
    if l <? r then
      let lp := perm_get (permutation_of n) l in
      let cmp := comparator ka n lp in
      if cmp <? 0 then Ok l else find_upper_bound_loop fuel ka n (l + 1) r
    else Ok l
  end.

Definition key_find_upper_bound_by (ka : KA) (n : T) : res Z :=
  find_upper_bound_loop (search_fuel n) ka n 0 (perm_size (permutation_of n)).

Fixpoint find_lower_bound_loop (fuel : nat) (ka : KA) (n : T) (l r : Z) :
    res key_indexed_position :=
  match fuel with
  | O => Fault OutOfFuel
  | S fuel =>
    if l <? r then
      let lp := perm_get (permutation_of n) l in
      let cmp := comparator ka n lp in
      if cmp <? 0 then Ok (KPos l (-1))
      else if cmp =? 0 then Ok (KPos l lp)
      else find_lower_bound_loop fuel ka n (l + 1) r
    else Ok (KPos l (-1))
  end.

Definition key_find_lower_bound_by (ka : KA) (n : T) : res key_indexed_position :=
  find_lower_bound_loop (search_fuel n) ka n 0 (perm_size (permutation_of n)).
End search.

(** [key_bound<max_size, method>]: binary above 16 keys, linear up to it. *)
Inductive bound_method := bound_method_fast | bound_method_binary | bound_method_linear.

Section bound.
Context {T : Type} `{!KeyPermuter T} {KA : Type} `{!KeyComparator KA T}.

Definition key_upper_bound (ka : KA) (n : T) : res Z := key_upper_bound_by compare_key ka n.
Definition key_lower_bound (ka : KA) (n : T) : res key_indexed_position :=
  key_lower_bound_by compare_key ka n.

Definition is_binary (max_size : Z) (method : bound_method) : bool :=
  match method with
  | bound_method_binary => true
  | bound_method_linear => false
  | bound_method_fast => 16 <? max_size
  end.

Definition bound_upper (max_size : Z) (method : bound_method) (ka : KA) (n : T) : res Z :=
  if is_binary max_size method then key_upper_bound_by compare_key ka n
  else key_find_upper_bound_by compare_key ka n.

Definition bound_lower_by (comparator : KA -> T -> Z -> Z) (max_size : Z)
    (method : bound_method) (ka : KA) (n : T) : res key_indexed_position :=
  if is_binary max_size method then key_lower_bound_by comparator ka n
  else key_find_lower_bound_by comparator ka n.

Definition bound_lower (max_size : Z) (method : bound_method) (ka : KA) (n : T) :
    res key_indexed_position :=
  bound_lower_by compare_key max_size method ka n.
End bound.

(** ** What a search finds

    A node is sorted for the sought key when, along the ranks, the comparator
    goes from positive through at most one zero to negative. *)

Section correctness.
Context {T : Type} `{!KeyPermuter T} {KA : Type} (comparator : KA -> T -> Z -> Z).

Abbreviation at_rank ka n i := (comparator ka n (perm_get (permutation_of n) i)).
Abbreviation size n := (perm_size (permutation_of n)).

Definition sorted_for (ka : KA) (n : T) : Prop :=
  0 <= size n /\
  forall i j, 0 <= i -> i < j -> j < size n -> at_rank ka n i <= 0 -> at_rank ka n j < 0.

(** The specification of a lower-bound search: the number of keys less than
    the sought one, and the position of the equal key if there is one. *)
Definition is_lower_bound (ka : KA) (n : T) (kp : key_indexed_position) : Prop :=
  0 <= kp_i kp <= size n /\
  (forall i, 0 <= i < kp_i kp -> 0 < at_rank ka n i) /\
  ((kp_i kp < size n /\ at_rank ka n (kp_i kp) = 0 /\ kp_p kp = perm_get (permutation_of n) (kp_i kp)) \/
   (kp_p kp = -1 /\ forall i, kp_i kp <= i < size n -> at_rank ka n i < 0)).

(** An upper-bound search: the number of keys not greater than the sought one. *)
Definition is_upper_bound (ka : KA) (n : T) (u : Z) : Prop :=
  0 <= u <= size n /\
  (forall i, 0 <= i < u -> 0 <= at_rank ka n i) /\
  (forall i, u <= i < size n -> at_rank ka n i < 0).

Lemma half_between l r : l < r -> l <= Z.shiftr (l + r) 1 < r.
Proof. intros. rewrite Z.shiftr_div_pow2 by lia. change (2 ^ 1) with 2. Z.to_euclidean_division_equations. lia. Qed.

Lemma sorted_before ka n i j :
  sorted_for ka n -> 0 <= i < j -> j < size n -> 0 <= at_rank ka n j -> 0 < at_rank ka n i.
Proof.
  intros [_ Hs] Hi Hj Hge. destruct (Z.lt_ge_cases 0 (at_rank ka n i)) as [|Hle]; [done|].
  specialize (Hs i j ltac:(lia) ltac:(lia) Hj Hle). lia.
Qed.

Lemma sorted_after ka n i j :
  sorted_for ka n -> 0 <= i < j -> j < size n -> at_rank ka n i <= 0 -> at_rank ka n j < 0.
Proof. intros [_ Hs] Hi Hj. apply Hs; lia. Qed.

Lemma upper_bound_loop_correct fuel ka n l r :
  sorted_for ka n -> 0 <= l <= r -> r <= size n -> r - l < Z.of_nat fuel ->
  (forall i, 0 <= i < l -> 0 <= at_rank ka n i) ->
  (forall i, r <= i < size n -> at_rank ka n i < 0) ->
  exists u, upper_bound_loop comparator fuel ka n l r = Ok u /\ is_upper_bound ka n u.
Proof.
  intros Hs. revert l r. induction fuel as [|fuel IH]; intros l r Hl Hr Hf Hlo Hhi; [lia|].
  cbn [upper_bound_loop]. destruct (Z.ltb_spec l r).
  - pose proof (half_between l r ltac:(lia)) as Hm. set (m := Z.shiftr (l + r) 1) in *. cbn zeta.
    destruct (Z.ltb_spec (at_rank ka n m) 0) as [Hneg|Hpos].
    + apply IH; try lia; [done|]. intros i Hi. destruct (Z.eq_dec i m) as [->|]; [done|].
      apply (sorted_after ka n m i Hs); lia.
    + destruct (Z.eqb_spec (at_rank ka n m) 0) as [Hz|Hnz].
      * exists (m + 1). split; [done|]. split; [lia|]. split; intros i Hi.
        -- destruct (Z.eq_dec i m) as [->|]; [lia|].
           enough (0 < at_rank ka n i) by lia. apply (sorted_before ka n i m Hs); lia.
        -- apply (sorted_after ka n m i Hs); lia.
      * apply IH; try lia; [|done]. intros i Hi. destruct (Z.eq_dec i m) as [->|]; [lia|].
        enough (0 < at_rank ka n i) by lia. apply (sorted_before ka n i m Hs); lia.
  - exists l. split; [done|]. replace r with l in * by lia. split; [lia|done].
Qed.

Lemma lower_bound_loop_correct fuel ka n l r :
  sorted_for ka n -> 0 <= l <= r -> r <= size n -> r - l < Z.of_nat fuel ->
  (forall i, 0 <= i < l -> 0 < at_rank ka n i) ->
  (forall i, r <= i < size n -> at_rank ka n i < 0) ->
  exists kp, lower_bound_loop comparator fuel ka n l r = Ok kp /\ is_lower_bound ka n kp.
Proof.
  intros Hs. revert l r. induction fuel as [|fuel IH]; intros l r Hl Hr Hf Hlo Hhi; [lia|].
  cbn [lower_bound_loop]. destruct (Z.ltb_spec l r).
  - pose proof (half_between l r ltac:(lia)) as Hm. set (m := Z.shiftr (l + r) 1) in *. cbn zeta.
    destruct (Z.ltb_spec (at_rank ka n m) 0) as [Hneg|Hpos].
    + apply IH; try lia; [done|]. intros i Hi. destruct (Z.eq_dec i m) as [->|]; [done|].
      apply (sorted_after ka n m i Hs); lia.
    + destruct (Z.eqb_spec (at_rank ka n m) 0) as [Hz|Hnz].
      * eexists. split; [done|]. split; [cbn; lia|]. split; [|left; cbn; by split; [lia|]].
        cbn. intros i Hi. apply (sorted_before ka n i m Hs); lia.
      * apply IH; try lia; [|done]. intros i Hi. destruct (Z.eq_dec i m) as [->|]; [lia|].
        apply (sorted_before ka n i m Hs); lia.
  - eexists. split; [done|]. replace r with l in * by lia. split; [cbn; lia|]. split; [done|].
    right. by split.
Qed.

Lemma find_upper_bound_loop_correct fuel ka n l :
  sorted_for ka n -> 0 <= l <= size n -> size n - l < Z.of_nat fuel ->
  (forall i, 0 <= i < l -> 0 <= at_rank ka n i) ->
  exists u, find_upper_bound_loop comparator fuel ka n l (size n) = Ok u /\ is_upper_bound ka n u.
Proof.
  intros Hs. revert l. induction fuel as [|fuel IH]; intros l Hl Hf Hlo; [lia|].
  cbn [find_upper_bound_loop]. destruct (Z.ltb_spec l (size n)).
  - cbn zeta. destruct (Z.ltb_spec (at_rank ka n l) 0) as [Hneg|Hpos].
    + eexists. split; [done|]. split; [lia|]. split; [done|]. intros i Hi.
      destruct (Z.eq_dec i l) as [->|]; [done|]. apply (sorted_after ka n l i Hs); lia.
    + apply IH; try lia. intros i Hi. destruct (Z.eq_dec i l) as [->|]; [done|]. apply Hlo. lia.
  - eexists. split; [done|]. split; [lia|]. split; [done|]. intros. lia.
Qed.

Lemma find_lower_bound_loop_correct fuel ka n l :
  sorted_for ka n -> 0 <= l <= size n -> size n - l < Z.of_nat fuel ->
  (forall i, 0 <= i < l -> 0 < at_rank ka n i) ->
  exists kp, find_lower_bound_loop comparator fuel ka n l (size n) = Ok kp /\ is_lower_bound ka n kp.
Proof.
  intros Hs. revert l. induction fuel as [|fuel IH]; intros l Hl Hf Hlo; [lia|].
  cbn [find_lower_bound_loop]. destruct (Z.ltb_spec l (size n)).
  - cbn zeta. destruct (Z.ltb_spec (at_rank ka n l) 0) as [Hneg|Hpos].
    + eexists. split; [done|]. split; [cbn; lia|]. split; [done|]. right. split; [done|].
      cbn. intros i Hi. destruct (Z.eq_dec i l) as [->|]; [done|].
      apply (sorted_after ka n l i Hs); lia.
    + destruct (Z.eqb_spec (at_rank ka n l) 0) as [Hz|Hnz].
      * eexists. split; [done|]. split; [cbn; lia|]. split; [done|]. left. by cbn.
      * apply IH; try lia. intros i Hi. destruct (Z.eq_dec i l) as [->|]; [lia|]. apply Hlo. lia.
  - eexists. split; [done|]. split; [cbn; lia|]. split; [done|]. right. split; [done|].
    cbn. intros. lia.
Qed.

Lemma is_upper_bound_unique ka n u v : is_upper_bound ka n u -> is_upper_bound ka n v -> u = v.
Proof.
  intros (Hu & Hu1 & Hu2) (Hv & Hv1 & Hv2). destruct (Z.lt_trichotomy u v) as [|[|]]; [|done|].
  - specialize (Hu2 u ltac:(lia)). specialize (Hv1 u ltac:(lia)). lia.
  - specialize (Hu1 v ltac:(lia)). specialize (Hv2 v ltac:(lia)). lia.
Qed.

Lemma is_lower_bound_unique ka n a b : is_lower_bound ka n a -> is_lower_bound ka n b -> a = b.
Proof.
  destruct a as [i p], b as [j q]. intros (Hi & Hi1 & Hi2) (Hj & Hj1 & Hj2). cbn in *.
  assert (i = j) as ->.
  { destruct (Z.lt_trichotomy i j) as [|[|]]; [|done|].
    - specialize (Hj1 i ltac:(lia)). destruct Hi2 as [(? & ? & _)|[_ Hi2]]; [lia|].
      specialize (Hi2 i ltac:(lia)). lia.
    - specialize (Hi1 j ltac:(lia)). destruct Hj2 as [(? & ? & _)|[_ Hj2]]; [lia|].
      specialize (Hj2 j ltac:(lia)). lia. }
  f_equal. destruct Hi2 as [(? & Hz & ->)|[-> Hi2]], Hj2 as [(? & Hz' & ->)|[-> Hj2]]; try done.
  - specialize (Hj2 j ltac:(lia)). lia.
  - specialize (Hi2 j ltac:(lia)). lia.
Qed.
End correctness.

(** ** Properties *)

Section properties.
Context {T : Type} `{!KeyPermuter T} {KA : Type} (comparator : KA -> T -> Z -> Z).

(** C39: on a node sorted for the sought key all four searches return (their
    loops end within the fuel), a lower-bound search gives the first key not
    less than the sought one and its slot when it is equal, an upper-bound
    search the first key greater, and the binary and linear methods agree. *)
Theorem searches_correct (ka : KA) (n : T) :
  sorted_for comparator ka n ->
  (exists kp, key_lower_bound_by comparator ka n = Ok kp /\
     key_find_lower_bound_by comparator ka n = Ok kp /\ is_lower_bound comparator ka n kp) /\
  (exists u, key_upper_bound_by comparator ka n = Ok u /\
     key_find_upper_bound_by comparator ka n = Ok u /\ is_upper_bound comparator ka n u).
Proof.
  intros Hs. pose proof (proj1 Hs) as Hn.
  unfold key_lower_bound_by, key_find_lower_bound_by, key_upper_bound_by, key_find_upper_bound_by, search_fuel.
  set (f := S (Z.to_nat (perm_size (permutation_of n)))).
  destruct (lower_bound_loop_correct comparator f ka n 0 (perm_size (permutation_of n)) Hs)
    as (kp & -> & Hkp); [lia..|].
  destruct (find_lower_bound_loop_correct comparator f ka n 0 Hs) as (kp' & -> & Hkp'); [lia..|].
  destruct (upper_bound_loop_correct comparator f ka n 0 (perm_size (permutation_of n)) Hs)
    as (u & -> & Hu); [lia..|].
  destruct (find_upper_bound_loop_correct comparator f ka n 0 Hs) as (u' & -> & Hu'); [lia..|].
  rewrite (is_lower_bound_unique _ _ _ _ _ Hkp' Hkp), (is_upper_bound_unique _ _ _ _ _ Hu' Hu).
  split; eauto.
Qed.

Lemma bound_lower_by_correct max_size method ka n :
  sorted_for comparator ka n ->
  exists kp, bound_lower_by comparator max_size method ka n = Ok kp /\
    is_lower_bound comparator ka n kp.
Proof.
  intros Hs. pose proof (proj1 Hs) as Hn. unfold bound_lower_by. destruct (is_binary max_size method).
  - apply lower_bound_loop_correct; try done; unfold search_fuel; lia.
  - apply find_lower_bound_loop_correct; try done; unfold search_fuel; lia.
Qed.

Lemma bound_upper_by_correct max_size method ka n :
  sorted_for comparator ka n ->
  exists u, (if is_binary max_size method then key_upper_bound_by comparator ka n
             else key_find_upper_bound_by comparator ka n) = Ok u /\
    is_upper_bound comparator ka n u.
Proof.
  intros Hs. pose proof (proj1 Hs) as Hn. destruct (is_binary max_size method).
  - apply upper_bound_loop_correct; try done; unfold search_fuel; lia.
  - apply find_upper_bound_loop_correct; try done; unfold search_fuel; lia.
Qed.
End properties.

Lemma searches_correct_witness :
  let P : KeyPermuter (list Z) := fun l => MkPerm (Z.of_nat (length l)) (fun i => i) in
  let cmp (ka : Z) (l : list Z) (p : Z) := ka - nth (Z.to_nat p) l 0 in
  exists kp, key_lower_bound_by (KeyPermuter0 := P) cmp 5 [1; 3; 5; 9] = Ok kp /\ kp_i kp = 2 /\
    is_lower_bound (KeyPermuter0 := P) cmp 5 [1; 3; 5; 9] kp.
Proof.
  intros P cmp.
  assert (sorted_for (KeyPermuter0 := P) cmp 5 [1; 3; 5; 9]) as Hs.
  { split; [cbn; lia|]. intros i j ? ? Hj. change (j < 4) in Hj. unfold cmp.
    change (5 - nth (Z.to_nat i) [1; 3; 5; 9] 0 <= 0 -> 5 - nth (Z.to_nat j) [1; 3; 5; 9] 0 < 0).
    assert (j = 1 \/ j = 2 \/ j = 3) as [-> | [-> | ->]] by lia;
      [assert (i = 0) as -> by lia | assert (i = 0 \/ i = 1) as [-> | ->] by lia
      | assert (i = 0 \/ i = 1 \/ i = 2) as [-> | [-> | ->]] by lia]; vm_compute; intros Hx; first [reflexivity | by destruct (Hx eq_refl)]. }
  destruct (@searches_correct _ P _ cmp 5 [1; 3; 5; 9] Hs) as [(kp & H1 & _ & H2) _].
  exists kp. split; [exact H1|]. split; [|exact H2].
  vm_compute in H1. by injection H1 as <-.
Defined.
