(* ===== verification/CircularInt.v ===== *)
(** * Circular integers (circular_int.hh)

    Epochs compare modulo wrap-around: [circular_int<T>] over a [w]-bit [T].
    A value is the word [v_]; [kvepoch_t] is the instance at 64 bits. *)

From S2P Require Import Prelude.

#[local] Open Scope Z_scope.

Section circular_int.
Context (w : Z).

(** [operator++()] and [operator++(int)]: the value returned and the new value. *)
Definition pre_incr (v : Z) : Z * Z := let v' := Word.addw w v 1 in (v', v').
Definition post_incr (v : Z) : Z * Z := let v' := Word.addw w v 1 in (Word.subw w v' 1, v').
Definition pre_decr (v : Z) : Z * Z := let v' := Word.subw w v 1 in (v', v').
Definition post_decr (v : Z) : Z * Z := let v' := Word.subw w v 1 in (Word.addw w v' 1, v').

(** [operator+=], [operator-=], [operator+], [operator-] with an integer. *)
Definition add (v x : Z) : Z := Word.addw w v x.
Definition sub (v x : Z) : Z := Word.subw w v x.

(** [cmpxchg(expected, desired)]: the old value and the new one. *)
Definition circ_cmpxchg (v expected desired : Z) : Z * Z :=
  (v, if v =? expected then desired else v).

Definition circ_bool (v : Z) : bool := negb (v =? 0).

Definition next_nonzero (v : Z) : Z :=
  let x := Word.addw w v 1 in Word.addw w x (if x =? 0 then 1 else 0).

(** [operator-(circular_int<T>)], a [difference_type]. *)
Definition diff (v x : Z) : Z := Word.signed w (v - x).

Definition less (a b : Z) : bool := Word.signed w (a - b) <? 0.
Definition less_equal (a b : Z) : bool := Word.signed w (a - b) <=? 0.

Definition circ_lt (v x : Z) : bool := less v x.
Definition circ_le (v x : Z) : bool := negb (less x v).
Definition circ_ge (v x : Z) : bool := negb (less v x).
Definition circ_gt (v x : Z) : bool := less x v.
End circular_int.

(** [typedef circular_int<uint64_t> kvepoch_t] *)
Definition kvepoch_less (a b : Z) : bool := less 64 a b.

(** ** Facts *)

Section facts.
Context (w : Z) (Hw : 1 < w).

Lemma half_pow : 2 ^ w = 2 * 2 ^ (w - 1).
Proof. replace w with (1 + (w - 1)) at 1 by lia. rewrite Z.pow_add_r by lia. done. Qed.

Lemma half_pos : 1 < 2 ^ (w - 1).
Proof. apply Z.pow_gt_1; lia. Qed.

Lemma signed_mod x d : -2 ^ (w - 1) <= d < 2 ^ (w - 1) -> (x - d) mod 2 ^ w = 0 -> Word.signed w x = d.
Proof.
  intros Hd Hm. pose proof half_pow. pose proof half_pos. unfold Word.signed, Word.wrap. cbn zeta.
  apply Z.mod_divide in Hm as [q Hq]; [|lia]. replace x with (d + q * 2 ^ w) by lia.
  rewrite Z.mod_add by lia. destruct (Z.le_gt_cases 0 d).
  - rewrite Z.mod_small by lia. destruct (Z.ltb_spec d (2 ^ (w - 1))); lia.
  - rewrite <- (Z.mod_add d 1), Z.mod_small by lia.
    destruct (Z.ltb_spec (d + 1 * 2 ^ w) (2 ^ (w - 1))); lia.
Qed.

(** The difference of two values whose true distance is less than half the range. *)
Lemma diff_near e d :
  -2 ^ (w - 1) <= d < 2 ^ (w - 1) -> diff w (Word.wrap w (e + d)) (Word.wrap w e) = d.
Proof.
  intros Hd. pose proof half_pow. pose proof half_pos. apply signed_mod; [done|]. unfold Word.wrap.
  rewrite (Z.mod_eq (e + d)), (Z.mod_eq e) by lia.
  replace (_ - _) with ((e / 2 ^ w - (e + d) / 2 ^ w) * 2 ^ w) by lia.
  apply Z.mod_mul. lia.
Qed.

Lemma next_nonzero_word v : Word.is_word w v -> Word.is_word w (next_nonzero w v).
Proof. intros _. apply Word.wrap_range. lia. Qed.
End facts.

(** ** Properties *)

(** Circular comparison follows the true order of a counter that has
    wrapped: for two readings [e] and [e + d] of an unbounded counter, reduced
    to [w] bits, less than half the range apart, [diff] is the true distance and
    the four comparisons order them as the unbounded readings are ordered. *)
Lemma circular_compare_near (w e d : Z) :
  1 < w -> - 2 ^ (w - 1) < d < 2 ^ (w - 1) ->
  let a := Word.wrap w (e + d) in let b := Word.wrap w e in
  diff w a b = d /\
  circ_lt w a b = (d <? 0) /\ circ_le w a b = (d <=? 0) /\
  circ_gt w a b = (0 <? d) /\ circ_ge w a b = (0 <=? d) /\ less_equal w a b = (d <=? 0).
Proof.
  intros Hw Hd a b. pose proof (half_pos w Hw).
  pose proof (diff_near w Hw e d ltac:(lia)) as Hab.
  pose proof (diff_near w Hw (e + d) (- d) ltac:(lia)) as Hba.
  replace (e + d + - d) with e in Hba by lia. fold a b in Hab, Hba.
  unfold diff in *. unfold circ_lt, circ_le, circ_gt, circ_ge, less_equal, less. rewrite Hab, Hba.
  split; [done|]. split; [done|].
  destruct (Z.ltb_spec (- d) 0), (Z.leb_spec d 0), (Z.ltb_spec 0 d), (Z.ltb_spec d 0), (Z.leb_spec 0 d);
    try lia; done.
Qed.

(** epochs never take the reserved value zero: [next_nonzero] steps a
    non-zero counter by one, or by two over the wrap, never gives zero, and the
    result is later than its argument. *)
Lemma next_nonzero_later (w v : Z) :
  1 < w -> Word.is_word w v ->
  next_nonzero w v <> 0 /\ Word.is_word w (next_nonzero w v) /\
  next_nonzero w v = (if v =? 2 ^ w - 1 then 1 else v + 1) /\
  (2 < w -> circ_lt w v (next_nonzero w v) = true).
Proof.
  intros Hw Hv. pose proof (half_pos w Hw). pose proof (half_pow w Hw). unfold Word.is_word in Hv.
  assert (next_nonzero w v = if v =? 2 ^ w - 1 then 1 else v + 1) as He.
  { unfold next_nonzero, Word.addw, Word.wrap. destruct (Z.eqb_spec v (2 ^ w - 1)) as [->|].
    - replace (2 ^ w - 1 + 1) with (2 ^ w) by lia. rewrite Z.mod_same by lia. cbn.
      apply Z.mod_small. lia.
    - rewrite (Z.mod_small (v + 1)) by lia. destruct (Z.eqb_spec (v + 1) 0); [lia|].
      rewrite Z.add_0_r. apply Z.mod_small. lia. }
  split; [rewrite He; destruct (v =? 2 ^ w - 1); lia|].
  split; [by apply next_nonzero_word|]. split; [done|]. intros Hw2.
  assert (2 < 2 ^ (w - 1)).
  { apply Z.lt_le_trans with (2 ^ 2); [lia|]. apply Z.pow_le_mono_r; lia. }
  assert (exists d, 1 <= d <= 2 /\ next_nonzero w v = Word.wrap w (v + d)) as (d & Hd & ->).
  { rewrite He. destruct (Z.eqb_spec v (2 ^ w - 1)) as [->|].
    - exists 2. split; [lia|]. unfold Word.wrap. replace (2 ^ w - 1 + 2) with (1 + 1 * 2 ^ w) by lia.
      rewrite Z.mod_add, Z.mod_small by lia. done.
    - exists 1. split; [lia|]. symmetry. apply Word.wrap_small. split; lia. }
  pose proof (diff_near w Hw (v + d) (- d) ltac:(lia)) as Hdf. unfold diff in Hdf.
  replace (v + d + - d) with v in Hdf by lia. rewrite (Word.wrap_small w v) in Hdf by done.
  unfold circ_lt, less. rewrite Hdf. apply Z.ltb_lt. lia.
Qed.
