(* ===== verification/StringBag.v ===== *)
(** * String bags (stringbag.hh)

    The compact store of a leaf's key suffixes: [width] strings in one
    allocation, each found by an offset and a length.  [sb_s] is the
    allocation, as bytes; its first [overhead width] bytes are the header, whose
    contents are the other fields. *)

From S2P Require Import Prelude.
From S2P Require Import Slice.

#[local] Open Scope Z_scope.

Record info_type := Info {
  info_pos : Z;
  info_len : Z
}.

Record stringbag := StringBag {
  sb_size : Z;                 (* size_ *)
  sb_capacity : Z;             (* capacity_, one less than the capacity *)
  sb_info : list info_type;    (* info_ *)
  sb_s : list Z                (* s_ *)
}.

#[export] Instance info_eq_dec : EqDecision info_type.
Proof. solve_decision. Defined.
#[export] Instance stringbag_eq_dec : EqDecision stringbag.
Proof. solve_decision. Defined.

Section stringbag.
(** [sizeof(offset_type)] and [sizeof(uintptr_t)]. *)
Context (offset_size slice_size : Z).

Definition offset_bits : Z := 8 * offset_size.
Definition max_size : Z := Word.addw 32 (2 ^ offset_bits - 1) 1.
Definition empty_size : Z := offset_size * 2.
Definition overhead (width : Z) : Z := empty_size + width * (2 * offset_size).
Definition safe_size (width len : Z) : Z := overhead width + len + slice_size - 1.

(** [info_type(unsigned p, unsigned l)] *)
Definition make_info (p l : Z) : info_type :=
  Info (Word.wrap offset_bits p) (Word.wrap offset_bits l).

Definition make_stringbag (width : nat) (capacity : Z) : res stringbag :=
  let firstpos := overhead (Z.of_nat width) in
  check_res ((firstpos <=? capacity) && (capacity <=? max_size)) ;;
  Ok (StringBag (Word.wrap offset_bits firstpos) (Word.wrap offset_bits (capacity - 1))
        (replicate width (Info 0 0)) (replicate (Z.to_nat capacity) 0)).

Definition capacity (b : stringbag) : Z := sb_capacity b + 1.
Definition used_capacity (b : stringbag) : Z := sb_size b.

(** [memcpy] into and read from the allocation. *)
Definition sb_store (s : list Z) (p : Z) (bs : list Z) : res (list Z) :=
  if (0 <=? p) && (p + Z.of_nat (length bs) <=? Z.of_nat (length s)) then
    Ok (take (Z.to_nat p) s ++ bs ++ drop (Z.to_nat p + length bs) s)
  else Fault OutOfBounds.

Definition sb_read (s : list Z) (i : info_type) : list Z :=
  take (Z.to_nat (info_len i)) (drop (Z.to_nat (info_pos i)) s).

(** [operator[]] and [get] *)
Definition get (b : stringbag) (p : Z) : res (list Z) :=
  info ← aget (sb_info b) p;
  Ok (sb_read (sb_s b) info).

Definition assign (b : stringbag) (p : Z) (s : list Z) : res (bool * stringbag) :=
  let len := Z.of_nat (length s) in
  info ← aget (sb_info b) p;
  let mylen := info_len info in
  if len <=? mylen then
    mem ← sb_store (sb_s b) (info_pos info) s;
    infos ← aset (sb_info b) p (make_info (info_pos info) len);
    Ok (true, StringBag (sb_size b) (sb_capacity b) infos mem)
  else if Word.addw 32 (sb_size b) (Z.max len slice_size) <=? capacity b then
    let pos := sb_size b in
    mem ← sb_store (sb_s b) pos s;
    infos ← aset (sb_info b) p (make_info pos len);
    Ok (true, StringBag (Word.addw offset_bits (sb_size b) len) (sb_capacity b) infos mem)
  else Ok (false, b).

(** ** Well-formed bags *)

(** The bag's capacity is at most the largest offset, as the constructor's
    comment asks (its assertion allows one more, see below).  A slot is empty, or lies between the header and the used size, far enough
    from the end for a sloppy read of one slice. *)
Definition slot_ok (width : Z) (b : stringbag) (i : info_type) : Prop :=
  0 <= info_len i /\
  (0 < info_len i ->
    overhead width <= info_pos i /\ info_pos i + info_len i <= sb_size b /\
    info_pos i + slice_size <= capacity b) /\
  (info_len i = 0 -> 0 <= info_pos i <= sb_size b).

Definition disjoint (i j : info_type) : Prop :=
  info_len i = 0 \/ info_len j = 0 \/
  info_pos i + info_len i <= info_pos j \/ info_pos j + info_len j <= info_pos i.

Record bag_wf (width : nat) (b : stringbag) : Prop := {
  wf_width : length (sb_info b) = width;
  wf_size : overhead (Z.of_nat width) <= sb_size b <= capacity b;
  wf_capacity : capacity b < 2 ^ offset_bits;
  wf_alloc : Z.of_nat (length (sb_s b)) = capacity b;
  wf_slots : forall p i, sb_info b !! p = Some i -> slot_ok (Z.of_nat width) b i;
  wf_disjoint : forall p q i j, p <> q ->
    sb_info b !! p = Some i -> sb_info b !! q = Some j -> disjoint i j
}.
End stringbag.

(** ** Facts *)

Lemma sb_store_ok s p bs :
  0 <= p -> p + Z.of_nat (length bs) <= Z.of_nat (length s) ->
  sb_store s p bs = Ok (take (Z.to_nat p) s ++ bs ++ drop (Z.to_nat p + length bs) s).
Proof.
  intros. unfold sb_store.
  destruct (Z.leb_spec 0 p), (Z.leb_spec (p + Z.of_nat (length bs)) (Z.of_nat (length s))); try lia; done.
Qed.

Lemma sb_read_store_same s p bs l :
  0 <= p -> p + Z.of_nat (length bs) <= Z.of_nat (length s) -> l = Z.of_nat (length bs) ->
  sb_read (take (Z.to_nat p) s ++ bs ++ drop (Z.to_nat p + length bs) s) (Info p l) = bs.
Proof.
  intros ? ? ->. unfold sb_read. cbn [info_pos info_len].
  rewrite drop_app_length' by (rewrite length_take; lia).
  rewrite Nat2Z.id. apply take_app_length.
Qed.

Lemma sb_read_store_other s p bs i :
  0 <= p -> p + Z.of_nat (length bs) <= Z.of_nat (length s) -> 0 <= info_len i ->
  0 <= info_pos i ->
  info_len i = 0 \/ info_pos i + info_len i <= p \/ p + Z.of_nat (length bs) <= info_pos i ->
  sb_read (take (Z.to_nat p) s ++ bs ++ drop (Z.to_nat p + length bs) s) i = sb_read s i.
Proof.
  intros Hp Hl Hil Hip Hd. unfold sb_read.
  destruct (Z.eq_dec (info_len i) 0) as [->|Hne]; [done|].
  destruct Hd as [?|[Hd|Hd]]; [lia| |].
  - apply list_eq. intros k. destruct (le_lt_dec (Z.to_nat (info_len i)) k).
    + rewrite !lookup_take_ge by lia. done.
    + rewrite !lookup_take_lt, !lookup_drop by lia.
      rewrite lookup_app_l by (rewrite length_take; lia). by rewrite lookup_take_lt by lia.
  - f_equal. rewrite app_assoc, drop_app_ge by (rewrite length_app, length_take; lia).
    rewrite drop_drop, length_app, length_take. f_equal. lia.
Qed.

Section facts.
Context (offset_size slice_size : Z) (Hos : 1 <= offset_size <= 2) (Hss : 0 < slice_size <= 256).

Abbreviation bag_wf := (bag_wf offset_size slice_size).
Abbreviation get := get.
Abbreviation assign := (assign offset_size slice_size).

Lemma offset_pow : 0 < 2 ^ offset_bits offset_size <= 65536.
Proof.
  unfold offset_bits. split; [apply Z.pow_pos_nonneg; lia|].
  change 65536 with (2 ^ 16). apply Z.pow_le_mono_r; lia.
Qed.

Lemma overhead_nonneg width : 0 <= width -> 0 <= overhead offset_size width.
Proof. unfold overhead, empty_size. nia. Qed.

(** Storing into slot [p] at a place no other slot uses. *)
Lemma store_slot width b p i s pos size' :
  bag_wf width b -> sb_info b !! p = Some i ->
  let len := Z.of_nat (length s) in
  0 <= pos -> pos + len <= size' -> sb_size b <= size' -> size' <= capacity b ->
  (0 < len -> overhead offset_size (Z.of_nat width) <= pos /\ pos + slice_size <= capacity b) ->
  (forall q j, q <> p -> sb_info b !! q = Some j -> disjoint (Info pos len) j) ->
  let mem := take (Z.to_nat pos) (sb_s b) ++ s ++ drop (Z.to_nat pos + length s) (sb_s b) in
  let b' := StringBag size' (sb_capacity b) (<[p := Info pos len]> (sb_info b)) mem in
  bag_wf width b' /\ get b' (Z.of_nat p) = Ok s /\
  (forall q, q <> p -> get b' (Z.of_nat q) = get b (Z.of_nat q)).
Proof.
  intros Hwf Hp len Hpos Hend Hsz Hcap Hroom Hdis mem b'.
  pose proof (wf_alloc _ _ _ _ Hwf) as Hal. pose proof (wf_size _ _ _ _ Hwf) as Hs.
  pose proof (lookup_lt_Some _ _ _ Hp) as Hlt.
  pose proof (overhead_nonneg (Z.of_nat width) ltac:(lia)) as Hov.
  assert (capacity b' = capacity b) as Hc by done.
  split; [constructor|split].
  - cbn. rewrite length_insert. apply (wf_width _ _ _ _ Hwf).
  - rewrite Hc. cbn. lia.
  - rewrite Hc. apply (wf_capacity _ _ _ _ Hwf).
  - rewrite Hc, <- Hal. cbn. unfold mem. rewrite !length_app, length_take, length_drop. lia.
  - cbn. intros q j. rewrite list_lookup_insert_Some. intros [(<- & <- & _)|[_ Hq]].
    + unfold slot_ok. rewrite Hc. cbn [info_len info_pos sb_size b']. lia.
    + pose proof (wf_slots _ _ _ _ Hwf _ _ Hq) as Hj. unfold slot_ok in *. rewrite Hc. cbn. lia.
  - cbn. intros q r j k Hqr. rewrite !list_lookup_insert_Some.
    intros [(<- & <- & _)|[Hqp Hq]] [(<- & <- & _)|[Hrp Hr]]; [done| | |].
    + apply (Hdis r k); auto.
    + pose proof (Hdis q j ltac:(done) Hq) as Hd. unfold disjoint in *. tauto.
    + by apply (wf_disjoint _ _ _ _ Hwf q r).
  - unfold get, aget. destruct (Z.ltb_spec (Z.of_nat p) 0); [lia|]. rewrite Nat2Z.id.
    cbn [sb_info b']. rewrite list_lookup_insert_eq by done. cbn. f_equal.
    unfold mem. apply sb_read_store_same; lia.
  - intros q Hq. unfold get, aget. destruct (Z.ltb_spec (Z.of_nat q) 0); [lia|]. rewrite Nat2Z.id.
    cbn [sb_info b']. rewrite list_lookup_insert_ne by done.
    destruct (sb_info b !! q) as [j|] eqn:Hj; [|done]. cbn. f_equal.
    pose proof (wf_slots _ _ _ _ Hwf _ _ Hj) as (Hj1 & Hj2 & Hj3).
    specialize (Hdis q j Hq Hj). unfold disjoint in Hdis. cbn in Hdis.
    destruct (Z.eq_dec len 0) as [Hz|Hnz].
    + unfold mem. assert (s = []) as -> by (destruct s; [done|cbn in *; lia]). cbn. rewrite Nat.add_0_r.
      by rewrite take_drop.
    + apply sb_read_store_other; [lia..| |]; destruct (Z.eq_dec (info_len j) 0); lia.
Qed.

Lemma make_info_small p l :
  0 <= p < 2 ^ offset_bits offset_size -> 0 <= l < 2 ^ offset_bits offset_size ->
  make_info offset_size p l = Info p l.
Proof. intros. unfold make_info. by rewrite !Word.wrap_small. Qed.

Lemma addw32_small a b : 0 <= a -> 0 <= b -> a + b < 2 ^ 32 -> Word.addw 32 a b = a + b.
Proof. intros. apply Word.wrap_small. split; lia. Qed.

Lemma aget_nat {A} (l : list A) (p : nat) a : l !! p = Some a -> aget l (Z.of_nat p) = Ok a.
Proof. intros. apply aget_ok. rewrite Nat2Z.id. split; [lia|done]. Qed.

Lemma aset_nat {A} (l : list A) (p : nat) a :
  (p < length l)%nat -> aset l (Z.of_nat p) a = Ok (<[p := a]> l).
Proof. intros. apply aset_ok. rewrite Nat2Z.id. split; [lia|done]. Qed.

Lemma assign_correct width b p i s :
  bag_wf width b -> sb_info b !! p = Some i -> Z.of_nat (length s) < 2 ^ 31 ->
  let len := Z.of_nat (length s) in
  if (len <=? info_len i) || (sb_size b + Z.max len slice_size <=? capacity b) then
    exists b', assign b (Z.of_nat p) s = Ok (true, b') /\ bag_wf width b' /\
      get b' (Z.of_nat p) = Ok s /\ capacity b' = capacity b /\
      (forall q, q <> p -> get b' (Z.of_nat q) = get b (Z.of_nat q))
  else assign b (Z.of_nat p) s = Ok (false, b).
Proof.
  intros Hwf Hp Hlen len. pose proof (lookup_lt_Some _ _ _ Hp) as Hlt.
  pose proof (wf_slots _ _ _ _ Hwf _ _ Hp) as (Hi1 & Hi2 & Hi3).
  pose proof (wf_size _ _ _ _ Hwf) as Hs. pose proof (wf_capacity _ _ _ _ Hwf) as Hc.
  pose proof (wf_alloc _ _ _ _ Hwf) as Hal. pose proof offset_pow as Hop.
  pose proof (overhead_nonneg (Z.of_nat width) ltac:(lia)) as Hov.
  assert (0 <= info_pos i /\ info_pos i + info_len i <= sb_size b) as [Hip Hie]
    by (destruct (Z.eq_dec (info_len i) 0); lia).
  unfold StringBag.assign. rewrite (aget_nat _ _ _ Hp). cbn [mbind res_bind]. fold len.
  destruct (Z.leb_spec len (info_len i)) as [Hle|Hgt]; cbn [orb].
  - rewrite sb_store_ok by lia. cbn [mbind res_bind]. rewrite aset_nat by done. cbn [mbind res_bind].
    rewrite make_info_small by lia. eexists. split; [done|].
    destruct (store_slot width b p i s (info_pos i) (sb_size b) Hwf Hp) as (H1 & H2 & H3);
      try (fold len; lia); [|by split].
    intros q j Hq Hj. pose proof (wf_disjoint _ _ _ _ Hwf p q i j ltac:(done) Hp Hj) as Hd.
    unfold disjoint in *. cbn. fold len. lia.
  - rewrite addw32_small by lia.
    destruct (Z.leb_spec (sb_size b + Z.max len slice_size) (capacity b)); [|done].
    rewrite sb_store_ok by lia. cbn [mbind res_bind]. rewrite aset_nat by done. cbn [mbind res_bind].
    rewrite make_info_small by lia.
    replace (Word.addw (offset_bits offset_size) (sb_size b) len) with (sb_size b + len)
      by (symmetry; apply Word.wrap_small; split; lia).
    eexists. split; [done|].
    destruct (store_slot width b p i s (sb_size b) (sb_size b + len) Hwf Hp) as (H1 & H2 & H3);
      try (fold len; lia); [|by split].
    intros q j Hq Hj. pose proof (wf_slots _ _ _ _ Hwf _ _ Hj) as (Hj1 & Hj2 & Hj3).
    unfold disjoint. cbn. fold len. lia.
Qed.

Lemma make_stringbag_wf width cap :
  overhead offset_size (Z.of_nat width) <= cap < 2 ^ offset_bits offset_size ->
  exists b, make_stringbag offset_size width cap = Ok b /\ bag_wf width b /\ capacity b = cap /\
    (forall p, (p < width)%nat -> get b (Z.of_nat p) = Ok []).
Proof.
  intros Hc. pose proof offset_pow as Hop.
  pose proof (overhead_nonneg (Z.of_nat width) ltac:(lia)) as Hov.
  unfold make_stringbag. cbv zeta.
  destruct (Z.leb_spec (overhead offset_size (Z.of_nat width)) cap); [|lia].
  assert (max_size offset_size = 2 ^ offset_bits offset_size) as Hm.
  { unfold max_size. rewrite addw32_small by lia. lia. }
  rewrite Hm. destruct (Z.leb_spec cap (2 ^ offset_bits offset_size)); [|lia].
  cbn [check_res andb mbind res_bind].
  unfold offset_bits in *. rewrite !Word.wrap_small by (split; unfold overhead, empty_size in *; lia).
  eexists. split; [done|]. unfold capacity. cbn [sb_capacity]. split; [constructor; cbn|split].
  - apply length_replicate.
  - unfold capacity. cbn. lia.
  - unfold capacity, offset_bits. cbn. lia.
  - unfold capacity. cbn. rewrite length_replicate. lia.
  - intros p i [-> _]%lookup_replicate. unfold slot_ok. cbn. lia.
  - intros p q i j _ [-> _]%lookup_replicate _. by left.
  - lia.
  - intros p Hp. unfold StringBag.get.
    rewrite (aget_nat _ _ (Info 0 0)) by by apply lookup_replicate. done.
Qed.
End facts.

(** ** Properties *)

(** A string bag is a partial map from slots to strings: on a well-formed
    bag, [assign] succeeds exactly when the slot's old string is at least as
    long or the unused space takes the string with room for a sloppy read; then
    the slot holds the new string, every other slot keeps its own and the bag is
    well-formed; otherwise the bag is unchanged.  It never writes outside the
    allocation. *)
Lemma stringbag_assign (offset_size slice_size : Z) (width : nat) (b : stringbag) (p : nat)
    (i : info_type) (s : list Z) :
  1 <= offset_size <= 2 -> 0 < slice_size <= 256 ->
  bag_wf offset_size slice_size width b -> sb_info b !! p = Some i ->
  Z.of_nat (length s) < 2 ^ 31 ->
  let len := Z.of_nat (length s) in
  if (len <=? info_len i) || (sb_size b + Z.max len slice_size <=? capacity b) then
    exists b', assign offset_size slice_size b (Z.of_nat p) s = Ok (true, b') /\
      bag_wf offset_size slice_size width b' /\
      get b' (Z.of_nat p) = Ok s /\ capacity b' = capacity b /\
      (forall q, q <> p -> get b' (Z.of_nat q) = get b (Z.of_nat q))
  else assign offset_size slice_size b (Z.of_nat p) s = Ok (false, b).
Proof. intros. by apply assign_correct. Qed.

(** A fresh bag of any capacity from the header's size to the largest offset
    is well-formed and all its slots are empty strings. *)
Lemma stringbag_fresh (offset_size slice_size : Z) (width : nat) (cap : Z) :
  1 <= offset_size <= 2 -> 0 < slice_size <= 256 ->
  overhead offset_size (Z.of_nat width) <= cap < 2 ^ offset_bits offset_size ->
  exists b, make_stringbag offset_size width cap = Ok b /\
    bag_wf offset_size slice_size width b /\ capacity b = cap /\
    (forall p, (p < width)%nat -> get b (Z.of_nat p) = Ok []).
Proof. intros. by apply make_stringbag_wf. Qed.


(** The constructor's assertion admits a capacity of one more than the
    largest offset, which its comment excludes; in such a bag of one-byte
    offsets a string that fills it makes the used size wrap to zero, and the next
    [assign] overwrites the header. *)
Lemma stringbag_full_wraps :
  exists b b1 b2, make_stringbag 1 1 256 = Ok b /\
    assign 1 8 b 0 (replicate 252 65) = Ok (true, b1) /\ used_capacity b1 = 0 /\
    assign 1 8 b1 0 (replicate 253 66) = Ok (true, b2) /\ take 4 (sb_s b2) = [66; 66; 66; 66].
Proof. do 3 eexists. do 4 (split; [vm_compute; reflexivity|]). vm_compute. reflexivity. Qed.
