(* ===== verification/PathKey.v ===== *)
(** * Paths, component hashes and directory metadata (path_key.hh, directory_meta.hh)

    [std::string] is a list of bytes.  A thrown [std::invalid_argument] is the
    fault [InvalidArgument]. *)

From S2P Require Export Prelude Slice.

#[local] Open Scope Z_scope.

Abbreviation byte_string := (list Z).

Definition slash : Z := 47.   (* '/' *)
Definition dot : Z := 46.     (* '.' *)

(** ** [ParsedPath] and [PathKey] *)

Record ParsedPath := Parsed {
  normalized_path : byte_string;
  components : list byte_string;
  hashes : list Z
}.

Record PathKey := MkPathKey {
  pk_components : list Z;
  pk_storage : byte_string
}.

#[export] Instance ParsedPath_eq_dec : EqDecision ParsedPath.
Proof. solve_decision. Defined.

(** The constructor: eight bytes per component, in network order. *)
Definition make_PathKey (big_endian : bool) (cs : list Z) : PathKey :=
  MkPathKey cs
    (flat_map (fun c => bytes_of 8 big_endian (host_to_net_order 8 big_endian c)) cs).

Definition as_str (k : PathKey) : byte_string := pk_storage k.

(** [out << std::hex << std::setw(16) << std::setfill('0') << component] *)
Definition hex_digit (d : Z) : Z := if d <? 10 then 48 + d else 87 + d.
Fixpoint hex_digits (n : nat) (x : Z) : byte_string :=
  match n with O => [] | S n' => hex_digits n' (x / 16) ++ [hex_digit (x mod 16)] end.

Fixpoint debug_string_from (i : nat) (cs : list Z) : byte_string :=
  match cs with
  | [] => []
  | c :: cs' =>
    (if (i =? 0)%nat then [] else [slash]) ++ [48; 120] ++ hex_digits 16 c ++
    debug_string_from (S i) cs'
  end.
Definition debug_string (k : PathKey) : byte_string := debug_string_from 0 (pk_components k).

(** [decode]: the loop over offsets. *)
Fixpoint decode_loop (fuel : nat) (big_endian : bool) (encoded : byte_string) (offset : nat)
    (result : list Z) : res (list Z) :=
  match fuel with
  | O => Fault OutOfFuel
  | S fuel =>
    if (offset <? length encoded)%nat then
      let be := word_of big_endian (take 8 (drop offset encoded)) in
      decode_loop fuel big_endian encoded (offset + 8)
        (result ++ [net_to_host_order 8 big_endian be])
    else Ok result
  end.

Definition decode (big_endian : bool) (encoded : byte_string) : res (list Z) :=
  if negb (Z.of_nat (length encoded) mod 8 =? 0) then Ok []
  else decode_loop (S (length encoded)) big_endian encoded 0 [].

Definition kFnvOffset : Z := 14695981039346656037.
Definition kFnvPrime : Z := 1099511628211.

(** FNV-1a, 64 bits. *)
Definition hash_component (component : byte_string) : Z :=
  fold_left (fun hash c => Word.mulw 64 (Z.lxor hash c) kFnvPrime) component kFnvOffset.

(** ** [parse_absolute_path] *)

(** [while (i < path.size() && path[i] == '/') ++i] *)
Fixpoint skip_slashes (fuel : nat) (path : byte_string) (i : nat) : nat :=
  match fuel with
  | O => i
  | S fuel =>
    match path !! i with
    | Some c => if c =? slash then skip_slashes fuel path (S i) else i
    | None => i
    end
  end.

(** [while (j < path.size() && path[j] != '/') ++j] *)
Fixpoint find_end (fuel : nat) (path : byte_string) (j : nat) : nat :=
  match fuel with
  | O => j
  | S fuel =>
    match path !! j with
    | Some c => if c =? slash then j else find_end fuel path (S j)
    | None => j
    end
  end.

Definition is_dots (component : byte_string) : bool :=
  bool_decide (component = [dot]) || bool_decide (component = [dot; dot]).

(** The loop body after the checks: one component appended. *)
Definition push_component (parsed : ParsedPath) (component : byte_string) : ParsedPath :=
  Parsed
    ((if (1 <? length (normalized_path parsed))%nat
      then normalized_path parsed ++ [slash] else normalized_path parsed) ++ component)
    (components parsed ++ [component])
    (hashes parsed ++ [hash_component component]).

Fixpoint parse_loop (fuel : nat) (path : byte_string) (i : nat) (parsed : ParsedPath) :
    res ParsedPath :=
  match fuel with
  | O => Fault OutOfFuel
  | S fuel =>
    if (i <? length path)%nat then
      let i := skip_slashes (length path) path i in
      if (length path <=? i)%nat then Ok parsed
      else
        let j := find_end (length path) path i in
        let component := take (j - i) (drop i path) in
        if is_dots component then Fault InvalidArgument
        else parse_loop fuel path j (push_component parsed component)
    else Ok parsed
  end.

Definition parse_absolute_path (path : byte_string) : res ParsedPath :=
  match path with
  | c :: _ =>
    if c =? slash then parse_loop (S (length path)) path 0 (Parsed [slash] [] [])
    else Fault InvalidArgument
  | [] => Fault InvalidArgument
  end.

Definition from_absolute_path (big_endian : bool) (path : byte_string) : res PathKey :=
  parsed ← parse_absolute_path path;
  Ok (make_PathKey big_endian (hashes parsed)).

(** ** Directory metadata *)

Definition kMaxEntryNameBytes : Z := 63.

Record inode_ref := InodeRef {
  block_id : Z;
  offset : Z
}.

#[export] Instance inode_ref_eq_dec : EqDecision inode_ref.
Proof. solve_decision. Defined.

Definition make_inode_ref (block_id offset : Z) : inode_ref :=
  InodeRef (Word.wrap 32 block_id) (Word.wrap 32 offset).

Record directory_meta := DirectoryMeta {
  dm_ref : inode_ref;
  dm_component_hash : Z;
  dm_name_length : Z;     (* uint8_t *)
  dm_flags : Z;
  dm_name : list Z        (* char[kMaxEntryNameBytes + 1] *)
}.

#[export] Instance directory_meta_eq_dec : EqDecision directory_meta.
Proof. solve_decision. Defined.

Definition make_directory_meta (ref : inode_ref) (component_hash : Z) (name : byte_string) :
    res directory_meta :=
  if Z.of_nat (length name) <=? kMaxEntryNameBytes + 1 then
    Ok (DirectoryMeta ref component_hash (Word.wrap 8 (Z.of_nat (length name))) 0
         (name ++ replicate (Z.to_nat (kMaxEntryNameBytes + 1) - length name) 0))
  else Fault OutOfBounds.

Definition directory_meta_name (meta : directory_meta) : byte_string :=
  take (Z.to_nat (dm_name_length meta)) (dm_name meta).

Definition directory_meta_name_equals (meta : directory_meta) (name : byte_string) : bool :=
  let n := dm_name_length meta in
  (n =? Z.of_nat (length name)) &&
  ((n =? 0) || (memcmp (take (Z.to_nat n) (dm_name meta)) (take (Z.to_nat n) name) =? 0)).

(** ** What a path means

    The specification: split at every slash and drop the empty pieces. *)

Fixpoint split_path (s : byte_string) : list byte_string :=
  match s with
  | [] => [[]]
  | c :: s' =>
    if c =? slash then [] :: split_path s'
    else match split_path s' with
         | w :: ws => (c :: w) :: ws
         | [] => [[c]]
         end
  end.

Definition nonempty (w : byte_string) : bool := match w with [] => false | _ => true end.
Definition path_components (s : byte_string) : list byte_string :=
  List.filter nonempty (split_path s).

Definition normalize (cs : list byte_string) : byte_string :=
  fold_left (fun norm c => (if (1 <? length norm)%nat then norm ++ [slash] else norm) ++ c) cs [slash].

(** A component: at least one byte and no slash. *)
Definition is_component (w : byte_string) : Prop := w <> [] /\ Forall (fun c => c <> slash) w.

Lemma split_path_nonempty s : split_path s <> [].
Proof. destruct s as [|c s]; [done|]. cbn. destruct (c =? slash); [done|]. by destruct (split_path s). Qed.

Lemma split_path_slash s t : split_path (s ++ slash :: t) = split_path s ++ split_path t.
Proof.
  induction s as [|c s IH]; [done|]. cbn [app split_path]. rewrite IH.
  destruct (c =? slash); [done|]. pose proof (split_path_nonempty s).
  by destruct (split_path s).
Qed.

Lemma path_components_slash s t :
  path_components (s ++ slash :: t) = path_components s ++ path_components t.
Proof. unfold path_components. by rewrite split_path_slash, List.filter_app. Qed.

Lemma split_path_word w : Forall (fun c => c <> slash) w -> split_path w = [w].
Proof.
  induction 1 as [|c w Hc _ IH]; [done|]. cbn. rewrite IH. by destruct (Z.eqb_spec c slash).
Qed.

Lemma path_components_word w : is_component w -> path_components w = [w].
Proof.
  intros [Hne Hw]. unfold path_components. rewrite split_path_word by done. by destruct w.
Qed.

Lemma path_components_ok s : Forall is_component (path_components s).
Proof.
  assert (Forall (Forall (fun c => c <> slash)) (split_path s)) as H.
  { induction s as [|c s IH]; cbn; [by repeat constructor|].
    destruct (Z.eqb_spec c slash); [by constructor|].
    destruct IH; constructor; try done; by constructor. }
  unfold path_components. induction H as [|w ws Hw _ IH]; cbn; [constructor|].
  destruct w; cbn; [done|]. by constructor.
Qed.

Lemma normalize_app cs c :
  normalize (cs ++ [c]) =
    (if (1 <? length (normalize cs))%nat then normalize cs ++ [slash] else normalize cs) ++ c.
Proof. unfold normalize. by rewrite fold_left_app. Qed.

Lemma normalize_shape cs :
  Forall is_component cs ->
  (exists r, normalize cs = slash :: r) /\
  path_components (normalize cs) = cs /\ (length (normalize cs) <= 1 -> cs = [])%nat.
Proof.
  induction cs as [|c cs IH] using rev_ind; intros Hcs.
  - split; [by eexists|]. by split.
  - apply Forall_app in Hcs as [Hcs Hc]. apply (proj1 (Forall_singleton is_component c)) in Hc.
    destruct (IH Hcs) as ([r Hr] & Hcomp & Hlen). rewrite normalize_app.
    assert (0 < length c)%nat as Hc0 by (destruct c; [by destruct Hc|cbn; lia]).
    destruct (Nat.ltb_spec 1 (length (normalize cs))) as [Hl|Hl].
    + rewrite <- app_assoc. split; [rewrite Hr; by eexists|]. split.
      * cbn [app]. by rewrite path_components_slash, Hcomp, path_components_word.
      * rewrite !length_app. cbn. lia.
    + rewrite (Hlen Hl). change (normalize []) with [slash].
      split; [by eexists|]. split; [|cbn; lia].
      change ([slash] ++ c) with ([] ++ slash :: c).
      by rewrite path_components_slash, (path_components_word c).
Qed.

(** ** The loops *)

Lemma skip_slashes_spec fuel path i :
  (i <= length path)%nat -> (length path - i <= fuel)%nat ->
  let k := skip_slashes fuel path i in
  (i <= k <= length path)%nat /\
  path_components (drop k path) = path_components (drop i path) /\
  (forall c, path !! k = Some c -> c <> slash).
Proof.
  revert i. induction fuel as [|fuel IH]; intros i Hi Hf; cbn zeta.
  - cbn. split; [lia|]. split; [done|]. intros c Hc%lookup_lt_Some. lia.
  - cbn [skip_slashes]. destruct (path !! i) as [c|] eqn:Hc.
    + pose proof (lookup_lt_Some _ _ _ Hc). destruct (Z.eqb_spec c slash) as [->|Hne].
      * destruct (IH (S i) ltac:(lia) ltac:(lia)) as (H1 & H2 & H3).
        split; [lia|]. split; [|done]. rewrite H2, (drop_S _ _ _ Hc).
        change (slash :: drop (S i) path) with ([] ++ slash :: drop (S i) path).
        by rewrite path_components_slash.
      * split; [lia|]. split; [done|]. intros c' Hc'. congruence.
    + split; [lia|]. split; [done|]. intros c' Hc'. congruence.
Qed.

Lemma find_end_spec fuel path i :
  (i <= length path)%nat -> (length path - i <= fuel)%nat ->
  let j := find_end fuel path i in
  (i <= j <= length path)%nat /\
  Forall (fun c => c <> slash) (take (j - i) (drop i path)) /\
  (j = length path \/ path !! j = Some slash) /\
  (forall c, path !! i = Some c -> c <> slash -> (i < j)%nat).
Proof.
  revert i. induction fuel as [|fuel IH]; intros i Hi Hf; cbn zeta.
  - cbn. rewrite Nat.sub_diag, take_0. split; [lia|]. split; [done|]. split; [left; lia|].
    intros c Hc%lookup_lt_Some. lia.
  - cbn [find_end]. destruct (path !! i) as [c|] eqn:Hc.
    + pose proof (lookup_lt_Some _ _ _ Hc). destruct (Z.eqb_spec c slash) as [->|Hne].
      * rewrite Nat.sub_diag, take_0. split; [lia|]. split; [done|]. split; [by right|].
        intros c' [= <-]. done.
      * destruct (IH (S i) ltac:(lia) ltac:(lia)) as (H1 & H2 & H3 & H4).
        split; [lia|]. split; [|split; [done|intros; lia]].
        rewrite (drop_S _ _ _ Hc).
        replace (find_end fuel path (S i) - i)%nat with (S (find_end fuel path (S i) - S i)) by lia.
        cbn. by constructor.
    + rewrite Nat.sub_diag, take_0. apply lookup_ge_None in Hc.
      split; [lia|]. split; [done|]. split; [left; lia|]. done.
Qed.

(** The prefix found by [find_end] is the first component of the rest. *)
Lemma path_components_next path i j :
  (i < j <= length path)%nat -> Forall (fun c => c <> slash) (take (j - i) (drop i path)) ->
  (j = length path \/ path !! j = Some slash) ->
  let w := take (j - i) (drop i path) in
  is_component w /\ path_components (drop i path) = w :: path_components (drop j path).
Proof.
  intros Hij Hw Hj w. assert (is_component w) as Hc.
  { split; [|done]. intros He. apply (f_equal length) in He. unfold w in He.
    rewrite length_take, length_drop in He. cbn in He. lia. }
  split; [done|]. rewrite <- (take_drop (j - i) (drop i path)) at 1. fold w.
  rewrite drop_drop. replace (i + (j - i))%nat with j by lia.
  destruct Hj as [->|Hj].
  - rewrite drop_all, app_nil_r. by rewrite path_components_word.
  - rewrite (drop_S _ _ _ Hj), path_components_slash, path_components_word by done.
    change (slash :: drop (S j) path) with ([] ++ slash :: drop (S j) path).
    by rewrite path_components_slash.
Qed.

(** The result of parsing the components [cs] after the state [parsed]. *)
Definition parse_result (parsed : ParsedPath) (cs : list byte_string) : res ParsedPath :=
  if existsb is_dots cs then Fault InvalidArgument
  else Ok (fold_left push_component cs parsed).

Lemma parse_loop_spec fuel path i parsed :
  (i <= length path)%nat -> (length path - i < fuel)%nat ->
  parse_loop fuel path i parsed = parse_result parsed (path_components (drop i path)).
Proof.
  revert i parsed. induction fuel as [|fuel IH]; intros i parsed Hi Hf; [lia|].
  cbn [parse_loop]. destruct (Nat.ltb_spec i (length path)); cycle 1.
  { by rewrite drop_ge by lia. }
  cbn zeta. destruct (skip_slashes_spec (length path) path i ltac:(lia) ltac:(lia)) as (K1 & K2 & K3).
  set (k := skip_slashes (length path) path i) in *. rewrite <- K2.
  destruct (Nat.leb_spec (length path) k); [by rewrite drop_ge by lia|].
  destruct (find_end_spec (length path) path k ltac:(lia) ltac:(lia)) as (J1 & J2 & J3 & J4).
  set (j := find_end (length path) path k) in *.
  destruct (lookup_lt_is_Some_2 path k ltac:(lia)) as [c Hc].
  specialize (J4 c Hc (K3 c Hc)).
  destruct (path_components_next path k j ltac:(lia) J2 J3) as [_ ->].
  set (w := take (j - k) (drop k path)). unfold parse_result. cbn [existsb].
  destruct (is_dots w); [done|]. cbn [orb fold_left]. by rewrite IH by lia.
Qed.

Lemma push_components cs n cs0 hs0 :
  fold_left push_component cs (Parsed n cs0 hs0) =
  Parsed
    (fold_left (fun norm c => (if (1 <? length norm)%nat then norm ++ [slash] else norm) ++ c) cs n)
    (cs0 ++ cs) (hs0 ++ map hash_component cs).
Proof.
  revert n cs0 hs0. induction cs as [|c cs IH]; intros; cbn [fold_left map].
  - by rewrite !app_nil_r.
  - unfold push_component at 2. cbn [normalized_path components hashes].
    by rewrite IH, <- !app_assoc.
Qed.

Lemma parse_absolute_path_slash r :
  parse_absolute_path (slash :: r) =
    let cs := path_components (slash :: r) in
    if existsb is_dots cs then Fault InvalidArgument
    else Ok (Parsed (normalize cs) cs (map hash_component cs)).
Proof.
  unfold parse_absolute_path. rewrite Z.eqb_refl, parse_loop_spec by lia.
  unfold parse_result. by rewrite drop_0, push_components.
Qed.

Lemma hash_component_word c : Word.is_word 64 (hash_component c).
Proof.
  unfold hash_component. assert (Word.is_word 64 kFnvOffset) as H by (split; [done|reflexivity]).
  revert H. generalize kFnvOffset. induction c as [|b c IH]; intros h Hh; [done|].
  cbn [fold_left]. apply IH. apply Word.wrap_range. lia.
Qed.

(** ** Properties *)

(** C40: parsing a path returns on every input: the components are the non-empty
    pieces between slashes, in order, each with its hash, and the normalized
    path joins them; a path that is not absolute or has a "." or ".." component
    throws. *)
Theorem parse_absolute_path_spec (path : byte_string) :
  parse_absolute_path path =
    let cs := path_components path in
    if bool_decide (head path = Some slash) && negb (existsb is_dots cs)
    then Ok (Parsed (normalize cs) cs (map hash_component cs))
    else Fault InvalidArgument.
Proof.
  destruct path as [|c r]; [done|]. destruct (Z.eqb_spec c slash) as [->|Hne].
  - rewrite parse_absolute_path_slash. cbn zeta.
    destruct (existsb is_dots (path_components (slash :: r))); by rewrite ?andb_false_r.
  - unfold parse_absolute_path. cbn zeta. destruct (Z.eqb_spec c slash); [done|].
    rewrite bool_decide_eq_false_2; [done|]. cbn. intros [= ->]. done.
Qed.

(** Parsing the normalized path of a parsed one. *)
Lemma parse_again path parsed :
  parse_absolute_path path = Ok parsed -> parse_absolute_path (normalized_path parsed) = Ok parsed.
Proof.
  destruct path as [|c r]; [done|]. intros H.
  assert (c = slash) as ->.
  { unfold parse_absolute_path in H. destruct (Z.eqb_spec c slash); [done|]. done. }
  rewrite parse_absolute_path_slash in H. cbn zeta in H.
  set (cs := path_components (slash :: r)) in *.
  destruct (existsb is_dots cs) eqn:Hd; [done|]. injection H as <-. cbn [normalized_path components hashes].
  destruct (normalize_shape cs (path_components_ok _)) as ([r' Hr'] & Hc & _).
  rewrite Hr' in Hc |- *. rewrite parse_absolute_path_slash. cbn zeta. by rewrite Hc, Hd, Hr'.
Qed.

(** normalisation is idempotent: parsing the normalized path gives the same
    components, hashes and normalized path, so two paths name the same entry
    when they parse to the same components. *)
Lemma parse_normalized (path : byte_string) (parsed : ParsedPath) :
  parse_absolute_path path = Ok parsed ->
  parse_absolute_path (normalized_path parsed) = Ok parsed /\
  Forall is_component (components parsed) /\
  Forall (Word.is_word 64) (hashes parsed) /\ length (hashes parsed) = length (components parsed).
Proof.
  intros H. split; [by eapply parse_again|]. destruct path as [|c r]; [done|].
  assert (c = slash) as ->.
  { unfold parse_absolute_path in H. destruct (Z.eqb_spec c slash); [done|]. done. }
  rewrite parse_absolute_path_slash in H. cbn zeta in H.
  destruct (existsb is_dots _); [done|]. injection H as <-. cbn [components hashes].
  split; [apply path_components_ok|]. split; [|by rewrite length_map].
  apply Forall_map, Forall_true. intros w. apply hash_component_word.
Qed.

Section encoding.
Context (be : bool).

Abbreviation encode1 c := (bytes_of 8 be (host_to_net_order 8 be c)).

Lemma encode1_be c : Word.is_word 64 c -> encode1 c = rev (le_bytes 8 c).
Proof.
  intros Hc. replace c with (be_value (rev (le_bytes 8 c))) at 1.
  - apply bytes_of_net_order; [by rewrite length_rev, length_le_bytes|].
    apply Forall_rev_byte, le_bytes_range.
  - unfold be_value. rewrite rev_involutive, le_value_bytes. by apply Z.mod_small.
Qed.

Lemma decode1 c : Word.is_word 64 c ->
  net_to_host_order 8 be (word_of be (rev (le_bytes 8 c))) = c.
Proof.
  intros Hc. rewrite net_to_host_word_of by
    (by rewrite length_rev, length_le_bytes) || (by apply Forall_rev_byte, le_bytes_range).
  unfold be_value. rewrite rev_involutive, le_value_bytes. by apply Z.mod_small.
Qed.

Lemma decode_loop_encode cs pre result fuel :
  Forall (Word.is_word 64) cs -> (length cs < fuel)%nat ->
  decode_loop fuel be (pre ++ flat_map (fun c => encode1 c) cs) (length pre) result =
    Ok (result ++ cs).
Proof.
  intros Hcs. revert pre result fuel. induction Hcs as [|c cs Hc _ IH]; intros pre result fuel Hf.
  - destruct fuel; [cbn in *; lia|]. cbn [flat_map decode_loop].
    by rewrite !app_nil_r, Nat.ltb_irrefl.
  - destruct fuel as [|fuel]; [cbn in *; lia|]. cbn [flat_map decode_loop].
    rewrite encode1_be by done. set (w := rev (le_bytes 8 c)).
    assert (length w = 8%nat) as Hw by (unfold w; by rewrite length_rev, length_le_bytes).
    destruct (Nat.ltb_spec (length pre) (length (pre ++ w ++ flat_map (fun c => encode1 c) cs))) as [_|Hl];
      [|rewrite !length_app in Hl; lia].
    cbn zeta. rewrite drop_app_length, take_app_length' by done.
    assert (net_to_host_order 8 be (word_of be w) = c) as -> by by apply decode1.
    specialize (IH (pre ++ w) (result ++ [c]) fuel ltac:(cbn in *; lia)).
    rewrite <- !app_assoc, length_app, Hw in IH. exact IH.
Qed.

Lemma length_encode cs :
  Forall (Word.is_word 64) cs -> length (flat_map (fun c => encode1 c) cs) = (8 * length cs)%nat.
Proof.
  induction 1 as [|c cs Hc _ IH]; [done|]. cbn [flat_map length].
  rewrite length_app, IH, encode1_be, length_rev, length_le_bytes by done. lia.
Qed.

(** A path key decodes to the hashes it was built from, its string holds
    eight bytes per component, and the string of a longer path extends the
    string of its parent: descending one trie layer consumes one component. *)
Lemma path_key_roundtrip (cs ds : list Z) :
  Forall (Word.is_word 64) (cs ++ ds) ->
  decode be (as_str (make_PathKey be (cs ++ ds))) = Ok (cs ++ ds) /\
  length (as_str (make_PathKey be (cs ++ ds))) = (8 * length (cs ++ ds))%nat /\
  as_str (make_PathKey be (cs ++ ds)) =
    as_str (make_PathKey be cs) ++ as_str (make_PathKey be ds).
Proof.
  intros H. unfold as_str, make_PathKey. cbn [pk_storage].
  split; [|split; [by apply length_encode|apply flat_map_app]].
  unfold decode. rewrite length_encode by done.
  replace (Z.of_nat (8 * length (cs ++ ds))) with (Z.of_nat (length (cs ++ ds)) * 8) by lia.
  rewrite Z.mod_mul by lia. cbn [Z.eqb negb].
  apply (decode_loop_encode (cs ++ ds) [] []); [done|lia].
Qed.
End encoding.

(** A directory's metadata keeps its name: for a name of at most 64 bytes
    the constructor does not overflow the name array, [directory_meta_name]
    gives the name back and [directory_meta_name_equals] tests equality of names. *)
Lemma directory_meta_name_roundtrip (ref : inode_ref) (h : Z) (name other : byte_string) :
  (length name <= 64)%nat -> exists meta,
    make_directory_meta ref h name = Ok meta /\
    dm_ref meta = ref /\ dm_component_hash meta = h /\ length (dm_name meta) = 64%nat /\
    directory_meta_name meta = name /\
    directory_meta_name_equals meta other = bool_decide (name = other).
Proof.
  intros Hl. unfold make_directory_meta, kMaxEntryNameBytes. change (63 + 1) with 64.
  destruct (Z.leb_spec (Z.of_nat (length name)) 64); [|lia]. eexists. split; [done|].
  split; [done|]. split; [done|]. cbn [dm_name].
  split; [rewrite length_app, length_replicate; lia|].
  unfold directory_meta_name, directory_meta_name_equals. cbn [dm_name dm_name_length].
  rewrite Word.wrap_small by (split; lia). rewrite Nat2Z.id, take_app_length. split; [done|].
  destruct (Z.eqb_spec (Z.of_nat (length name)) (Z.of_nat (length other))) as [He|Hne]; cbn [andb].
  - rewrite (take_ge other) by lia. apply Nat2Z.inj in He.
    case_bool_decide as Hd.
    + subst other. by rewrite memcmp_refl, orb_true_r.
    + destruct (Z.eqb_spec (memcmp name other) 0) as [Hm|_].
      * apply memcmp_eq in Hm; done.
      * rewrite orb_false_r. apply Z.eqb_neq. destruct name; [|cbn; lia]. by destruct other.
  - rewrite bool_decide_eq_false_2; [done|]. by intros ->.
Qed.

