(* ===== verification/Node.v ===== *)
(** * Masstree nodes (masstree_struct.hh, masstree.hh)

    The nodes of the trie of B+trees, the heap they live in and the operations
    of [node_base], [internode], [leaf], [leafvalue] and [basic_table].

    The heap maps locations to nodes; a node pointer is an optional location
    ([None] is the null pointer).  Operations run in a state monad over the heap
    that faults on a null dereference, a cast to the wrong kind of node, an index
    outside an array, a failed [masstree_invariant], [masstree_precondition] or
    [assert], and on a spin loop that cannot end.  One thread runs: a version read
    twice is the same unless the code itself changed it, so the retry branches
    are kept as the source has them and decided by the version words. *)

From S2P Require Export Prelude.
From S2P Require Import KPermuter NodeVersion StringBag.
From S2P Require Export Slice Key KSearch PathKey.

#[local] Open Scope Z_scope.
#[local] Open Scope lhm_scope.

(** ** Parameters

    [nodeparams<LW, IW>] with the value type and the allocation sizes, which the
    compiler decides.  [np_fuel] bounds the iterations of every loop; [np_junk_*]
    are the contents of memory the constructors leave uninitialised. *)
Class nodeparams := {
  leaf_width : Z;
  internode_width : Z;
  bound_method_of : bound_method;
  nodeversion_type : nodeversion_parameters;
  need_phantom_epoch : bool;
  value_type : Type;
  default_value : value_type;
  sizeof_leaf : Z;
  sizeof_internode : Z;
  sizeof_directory_meta : Z;
  masstree_maxkeylen : Z;
  np_config : Config;
  np_fuel : nat;
  np_junk_keylenx : Z;
  np_junk_ikey : Z
}.

Abbreviation loc := positive.
Abbreviation ptr := (option loc).

#[local] Existing Instance np_config.

Section node.
Context {P : nodeparams}.

Abbreviation NV := nodeversion_type.
Abbreviation LW := leaf_width.

(** ** Data *)

(** [leafvalue<P>]: the union of a value and a node pointer.  Reading the
    member that was not written is the fault [WrongKind]. *)
Inductive leafvalue :=
  | lv_value (v : value_type)
  | lv_layer (n : ptr).

Record leaf := Leaf {
  l_version : Z;                        (* nodeversion word *)
  l_extrasize64 : Z;                    (* extrasize64_ *)
  l_root_meta_extra64 : Z;              (* root_meta_extra64_ *)
  l_modstate : Z;                       (* modstate_ *)
  l_keylenx : list Z;                   (* keylenx_ *)
  l_permutation : Z;                    (* permutation_ *)
  l_ikey0 : list Z;                     (* ikey0_ *)
  l_lv : list leafvalue;                (* lv_ *)
  l_ksuf : option stringbag;            (* ksuf_, the external suffix bag *)
  l_next_marked : bool;                 (* the low bit of next_ *)
  l_next : ptr;                         (* next_, without its low bit *)
  l_prev : ptr;                         (* prev_ *)
  l_parent : ptr;                       (* parent_ *)
  l_phantom_epoch : Z;                  (* phantom_epoch_[0] *)
  l_iksuf : option stringbag;           (* iksuf_[0], when it was constructed *)
  l_meta : option directory_meta        (* the trailing metadata *)
}.

Record internode := Internode {
  i_version : Z;                        (* nodeversion word *)
  i_root_meta_extra64 : Z;              (* root_meta_extra64_ *)
  i_nkeys : Z;                          (* nkeys_ *)
  i_height : Z;                         (* height_ *)
  i_ikey0 : list Z;                     (* ikey0_ *)
  i_child : list ptr;                   (* child_ *)
  i_parent : ptr;                       (* parent_ *)
  i_meta : option directory_meta        (* the trailing metadata *)
}.

Definition set_l_version (x : Z) (n : leaf) : leaf :=
  Leaf x (l_extrasize64 n) (l_root_meta_extra64 n) (l_modstate n) (l_keylenx n) (l_permutation
    n) (l_ikey0 n) (l_lv n) (l_ksuf n) (l_next_marked n) (l_next n) (l_prev n) (l_parent n)
    (l_phantom_epoch n) (l_iksuf n) (l_meta n).
Definition set_l_extrasize64 (x : Z) (n : leaf) : leaf :=
  Leaf (l_version n) x (l_root_meta_extra64 n) (l_modstate n) (l_keylenx n) (l_permutation n)
    (l_ikey0 n) (l_lv n) (l_ksuf n) (l_next_marked n) (l_next n) (l_prev n) (l_parent n)
    (l_phantom_epoch n) (l_iksuf n) (l_meta n).
Definition set_l_root_meta_extra64 (x : Z) (n : leaf) : leaf :=
  Leaf (l_version n) (l_extrasize64 n) x (l_modstate n) (l_keylenx n) (l_permutation n) (l_ikey0
    n) (l_lv n) (l_ksuf n) (l_next_marked n) (l_next n) (l_prev n) (l_parent n)
    (l_phantom_epoch n) (l_iksuf n) (l_meta n).
Definition set_l_modstate (x : Z) (n : leaf) : leaf :=
  Leaf (l_version n) (l_extrasize64 n) (l_root_meta_extra64 n) x (l_keylenx n) (l_permutation n)
    (l_ikey0 n) (l_lv n) (l_ksuf n) (l_next_marked n) (l_next n) (l_prev n) (l_parent n)
    (l_phantom_epoch n) (l_iksuf n) (l_meta n).
Definition set_l_keylenx (x : list Z) (n : leaf) : leaf :=
  Leaf (l_version n) (l_extrasize64 n) (l_root_meta_extra64 n) (l_modstate n) x (l_permutation
    n) (l_ikey0 n) (l_lv n) (l_ksuf n) (l_next_marked n) (l_next n) (l_prev n) (l_parent n)
    (l_phantom_epoch n) (l_iksuf n) (l_meta n).
Definition set_l_permutation (x : Z) (n : leaf) : leaf :=
  Leaf (l_version n) (l_extrasize64 n) (l_root_meta_extra64 n) (l_modstate n) (l_keylenx n) x
    (l_ikey0 n) (l_lv n) (l_ksuf n) (l_next_marked n) (l_next n) (l_prev n) (l_parent n)
    (l_phantom_epoch n) (l_iksuf n) (l_meta n).
Definition set_l_ikey0 (x : list Z) (n : leaf) : leaf :=
  Leaf (l_version n) (l_extrasize64 n) (l_root_meta_extra64 n) (l_modstate n) (l_keylenx n)
    (l_permutation n) x (l_lv n) (l_ksuf n) (l_next_marked n) (l_next n) (l_prev n) (l_parent
    n) (l_phantom_epoch n) (l_iksuf n) (l_meta n).
Definition set_l_lv (x : list leafvalue) (n : leaf) : leaf :=
  Leaf (l_version n) (l_extrasize64 n) (l_root_meta_extra64 n) (l_modstate n) (l_keylenx n)
    (l_permutation n) (l_ikey0 n) x (l_ksuf n) (l_next_marked n) (l_next n) (l_prev n)
    (l_parent n) (l_phantom_epoch n) (l_iksuf n) (l_meta n).
Definition set_l_ksuf (x : option stringbag) (n : leaf) : leaf :=
  Leaf (l_version n) (l_extrasize64 n) (l_root_meta_extra64 n) (l_modstate n) (l_keylenx n)
    (l_permutation n) (l_ikey0 n) (l_lv n) x (l_next_marked n) (l_next n) (l_prev n) (l_parent
    n) (l_phantom_epoch n) (l_iksuf n) (l_meta n).
Definition set_l_next_marked (x : bool) (n : leaf) : leaf :=
  Leaf (l_version n) (l_extrasize64 n) (l_root_meta_extra64 n) (l_modstate n) (l_keylenx n)
    (l_permutation n) (l_ikey0 n) (l_lv n) (l_ksuf n) x (l_next n) (l_prev n) (l_parent n)
    (l_phantom_epoch n) (l_iksuf n) (l_meta n).
Definition set_l_next (x : ptr) (n : leaf) : leaf :=
  Leaf (l_version n) (l_extrasize64 n) (l_root_meta_extra64 n) (l_modstate n) (l_keylenx n)
    (l_permutation n) (l_ikey0 n) (l_lv n) (l_ksuf n) (l_next_marked n) x (l_prev n) (l_parent
    n) (l_phantom_epoch n) (l_iksuf n) (l_meta n).
Definition set_l_prev (x : ptr) (n : leaf) : leaf :=
  Leaf (l_version n) (l_extrasize64 n) (l_root_meta_extra64 n) (l_modstate n) (l_keylenx n)
    (l_permutation n) (l_ikey0 n) (l_lv n) (l_ksuf n) (l_next_marked n) (l_next n) x (l_parent
    n) (l_phantom_epoch n) (l_iksuf n) (l_meta n).
Definition set_l_parent (x : ptr) (n : leaf) : leaf :=
  Leaf (l_version n) (l_extrasize64 n) (l_root_meta_extra64 n) (l_modstate n) (l_keylenx n)
    (l_permutation n) (l_ikey0 n) (l_lv n) (l_ksuf n) (l_next_marked n) (l_next n) (l_prev n)
    x (l_phantom_epoch n) (l_iksuf n) (l_meta n).
Definition set_l_phantom_epoch (x : Z) (n : leaf) : leaf :=
  Leaf (l_version n) (l_extrasize64 n) (l_root_meta_extra64 n) (l_modstate n) (l_keylenx n)
    (l_permutation n) (l_ikey0 n) (l_lv n) (l_ksuf n) (l_next_marked n) (l_next n) (l_prev n)
    (l_parent n) x (l_iksuf n) (l_meta n).
Definition set_l_iksuf (x : option stringbag) (n : leaf) : leaf :=
  Leaf (l_version n) (l_extrasize64 n) (l_root_meta_extra64 n) (l_modstate n) (l_keylenx n)
    (l_permutation n) (l_ikey0 n) (l_lv n) (l_ksuf n) (l_next_marked n) (l_next n) (l_prev n)
    (l_parent n) (l_phantom_epoch n) x (l_meta n).
Definition set_l_meta (x : option directory_meta) (n : leaf) : leaf :=
  Leaf (l_version n) (l_extrasize64 n) (l_root_meta_extra64 n) (l_modstate n) (l_keylenx n)
    (l_permutation n) (l_ikey0 n) (l_lv n) (l_ksuf n) (l_next_marked n) (l_next n) (l_prev n)
    (l_parent n) (l_phantom_epoch n) (l_iksuf n) x.

Definition set_i_version (x : Z) (n : internode) : internode :=
  Internode x (i_root_meta_extra64 n) (i_nkeys n) (i_height n) (i_ikey0 n) (i_child n) (i_parent
    n) (i_meta n).
Definition set_i_root_meta_extra64 (x : Z) (n : internode) : internode :=
  Internode (i_version n) x (i_nkeys n) (i_height n) (i_ikey0 n) (i_child n) (i_parent n)
    (i_meta n).
Definition set_i_nkeys (x : Z) (n : internode) : internode :=
  Internode (i_version n) (i_root_meta_extra64 n) x (i_height n) (i_ikey0 n) (i_child n)
    (i_parent n) (i_meta n).
Definition set_i_height (x : Z) (n : internode) : internode :=
  Internode (i_version n) (i_root_meta_extra64 n) (i_nkeys n) x (i_ikey0 n) (i_child n)
    (i_parent n) (i_meta n).
Definition set_i_ikey0 (x : list Z) (n : internode) : internode :=
  Internode (i_version n) (i_root_meta_extra64 n) (i_nkeys n) (i_height n) x (i_child n)
    (i_parent n) (i_meta n).
Definition set_i_child (x : list ptr) (n : internode) : internode :=
  Internode (i_version n) (i_root_meta_extra64 n) (i_nkeys n) (i_height n) (i_ikey0 n) x
    (i_parent n) (i_meta n).
Definition set_i_parent (x : ptr) (n : internode) : internode :=
  Internode (i_version n) (i_root_meta_extra64 n) (i_nkeys n) (i_height n) (i_ikey0 n) (i_child
    n) x (i_meta n).
Definition set_i_meta (x : option directory_meta) (n : internode) : internode :=
  Internode (i_version n) (i_root_meta_extra64 n) (i_nkeys n) (i_height n) (i_ikey0 n) (i_child
    n) (i_parent n) x.

Inductive node :=
  | NLeaf (l : leaf)
  | NInternode (i : internode).

(** What [rcu_register] queues: a [gc_layer_rcu_callback] or a
    [destroy_rcu_callback]. *)
Inductive rcu_callback :=
  | gc_layer_callback (root : ptr) (prefix : list Z)
  | destroy_callback (root : ptr) (count : Z).

(** The heap, the next fresh location, the nodes given to [deallocate_rcu]
    (readable until their grace period ends), the registered callbacks and the
    table's [root_]. *)
Record mstate := MState {
  m_heap : gmap loc node;
  m_next : loc;
  m_limbo : list loc;
  m_callbacks : list rcu_callback;
  m_root : ptr
}.

Abbreviation M := (sm mstate).

Definition set_heap (h : gmap loc node) (s : mstate) : mstate :=
  MState h (m_next s) (m_limbo s) (m_callbacks s) (m_root s).

(** ** Memory *)

Definition get_node (p : loc) : M node := fun s =>
  match m_heap s !! p with Some n => Ok (n, s) | None => Fault OutOfBounds end.
Definition put_node (p : loc) (n : node) : M unit := fun s =>
  Ok (tt, set_heap (<[p := n]> (m_heap s)) s).

(** [static_cast<leaf<P>*>] and [static_cast<internode<P>*>] followed by a read. *)
Definition get_leaf (p : loc) : M leaf :=
  let* n := get_node p in match n with NLeaf l => mret l | NInternode _ => fail WrongKind end.
Definition get_internode (p : loc) : M internode :=
  let* n := get_node p in match n with NInternode i => mret i | NLeaf _ => fail WrongKind end.

Definition upd_leaf (p : loc) (f : leaf -> leaf) : M unit :=
  let* l := get_leaf p in put_node p (NLeaf (f l)).
Definition upd_internode (p : loc) (f : internode -> internode) : M unit :=
  let* i := get_internode p in put_node p (NInternode (f i)).

Definition allocate (n : node) : M loc := fun s =>
  Ok (m_next s, MState (<[m_next s := n]> (m_heap s)) (Pos.succ (m_next s))
        (m_limbo s) (m_callbacks s) (m_root s)).

(** [deallocate_rcu]: the node stays readable; [deallocate]: it does not. *)
Definition deallocate_rcu (p : loc) : M unit := fun s =>
  Ok (tt, MState (m_heap s) (m_next s) (m_limbo s ++ [p]) (m_callbacks s) (m_root s)).
Definition deallocate (p : loc) : M unit := fun s =>
  Ok (tt, MState (delete p (m_heap s)) (m_next s) (m_limbo s) (m_callbacks s) (m_root s)).
Definition rcu_register (c : rcu_callback) : M unit := fun s =>
  Ok (tt, MState (m_heap s) (m_next s) (m_limbo s) (m_callbacks s ++ [c]) (m_root s)).

Definition table_root : M ptr := fun s => Ok (m_root s, s).
Definition set_table_root (p : ptr) : M unit := fun s =>
  Ok (tt, MState (m_heap s) (m_next s) (m_limbo s) (m_callbacks s) p).

(** Reads and writes of array fields. *)
Definition mget {A} (l : list A) (i : Z) : M A := lift (aget l i).
Definition mset {A} (l : list A) (i : Z) (a : A) : M (list A) := lift (aset l i a).

(** ** The version word of a node *)

Definition node_version (n : node) : Z :=
  match n with NLeaf l => l_version l | NInternode i => i_version i end.
Definition set_node_version (v : Z) (n : node) : node :=
  match n with
  | NLeaf l => NLeaf (set_l_version v l)
  | NInternode i => NInternode (set_i_version v i)
  end.

Definition version (p : loc) : M Z := let* n := get_node p in mret (node_version n).
Definition upd_version (p : loc) (f : Z -> Z) : M unit :=
  let* n := get_node p in put_node p (set_node_version (f (node_version n)) n).

Definition isleaf (p : loc) : M bool := let* v := version p in mret (NodeVersion.isleaf NV v).
Definition is_root (p : loc) : M bool := let* v := version p in mret (NodeVersion.is_root NV v).
Definition deleted (p : loc) : M bool := let* v := version p in mret (NodeVersion.deleted NV v).
Definition locked (p : loc) : M bool := let* v := version p in mret (NodeVersion.locked NV v).
Definition splitting (p : loc) : M bool := let* v := version p in mret (NodeVersion.splitting NV v).

(** [stable()] and [stable_annotated(spin)]; a dirty word spins for ever. *)
Definition stable (p : loc) : M Z :=
  let* v := version p in
  match NodeVersion.stable NV v with Some v' => mret v' | None => fail Deadlock end.

Definition has_changed (p : loc) (oldv : Z) : M bool :=
  let* v := version p in mret (NodeVersion.has_changed NV v oldv).
Definition simple_has_split (p : loc) (oldv : Z) : M bool :=
  let* v := version p in mret (NodeVersion.simple_has_split NV v oldv).

(** [lock(expected, spin)] and [try_lock(spin)]; an unlocked word is not dirty. *)
Definition lock (p : loc) (expected : Z) : M unit :=
  let* v := version p in
  match NodeVersion.lock NV v expected with
  | Some v' => check (negb (NodeVersion.is_dirty NV v)) ;; upd_version p (fun _ => v')
  | None => fail Deadlock
  end.
Definition try_lock (p : loc) : M bool :=
  let* v := version p in
  match NodeVersion.try_lock NV v with
  | Some v' =>
    check (negb (NodeVersion.is_dirty NV v)) ;; upd_version p (fun _ => v') ;; mret true
  | None => mret false
  end.
(** [p->lock( *p, spin)] *)
Definition lock_self (p : loc) : M unit := let* v := version p in lock p v.

(** The updates that need the lock. *)
Definition upd_locked (p : loc) (f : Z -> Z) : M unit :=
  let* b := locked p in
  check b ;;
  upd_version p f.

Definition unlock (p : loc) : M unit := upd_locked p (NodeVersion.unlock NV).
Definition mark_insert (p : loc) : M unit := upd_locked p (NodeVersion.mark_insert NV).
Definition mark_split (p : loc) : M unit := upd_locked p (NodeVersion.mark_split NV).
Definition mark_deleted (p : loc) : M unit := upd_locked p (NodeVersion.mark_deleted NV).
Definition mark_deleted_tree (p : loc) : M unit :=
  let* b := is_root p in
  check b ;;
  upd_locked p (NodeVersion.mark_deleted_tree NV).
Definition mark_root (p : loc) : M unit := upd_version p (NodeVersion.mark_root NV).
Definition mark_nonroot (p : loc) : M unit := upd_locked p (NodeVersion.mark_nonroot NV).
Definition assign_version (p x : loc) : M unit :=
  let* v := version x in upd_version p (fun w => NodeVersion.assign_version w v).

(** ** [node_base<P>] *)

Definition parent (p : loc) : M ptr :=
  let* b := isleaf p in
  if b then let* l := get_leaf p in mret (l_parent l)
  else let* i := get_internode p in mret (i_parent i).

Definition parent_exists (p : ptr) : bool := match p with Some _ => true | None => false end.

Definition has_parent (p : loc) : M bool := let* q := parent p in mret (parent_exists q).

Definition set_parent (p : loc) (x : ptr) : M unit :=
  let* b := isleaf p in
  if b then upd_leaf p (set_l_parent x) else upd_internode p (set_i_parent x).

Definition make_layer_root (p : loc) : M unit := set_parent p None ;; mark_root p.

Definition maybe_parent (p : loc) : M loc :=
  let* x := parent p in
  mret (if parent_exists x then default p x else p).

Definition has_directory_meta (p : loc) : M bool :=
  let* b := isleaf p in
  if b then let* l := get_leaf p in mret (0 <? l_root_meta_extra64 l)
  else let* i := get_internode p in mret (0 <? i_root_meta_extra64 i).

(** [directory_meta()]: null unless the node was allocated with metadata. *)
Definition node_directory_meta (p : loc) : M (option directory_meta) :=
  let* b := isleaf p in
  if b then let* l := get_leaf p in mret (if 0 <? l_root_meta_extra64 l then l_meta l else None)
  else let* i := get_internode p in mret (if 0 <? i_root_meta_extra64 i then i_meta i else None).

(** [*n->directory_meta() = meta] *)
Definition assign_directory_meta (p : loc) (meta : directory_meta) : M unit :=
  let* b := has_directory_meta p in
  if b then
    let* n := get_node p in
    match n with
    | NLeaf _ => upd_leaf p (set_l_meta (Some meta))
    | NInternode _ => upd_internode p (set_i_meta (Some meta))
    end
  else fail NullPointer.

(** ** [internode<P>] *)

Definition cache_lines (sz : Z) : Z := Z.shiftr sz 6.
Definition round64 (sz : Z) : Z := Z.land (sz + 63) (Z.lnot 63).

(** The constructor. *)
Definition internode_new (height total_sz : Z) : res internode :=
  check_res ((total_sz mod 64 =? 0) && (total_sz / 64 <? 128)) ;;
  Ok (Internode (NodeVersion.make_version NV false)
        (cache_lines total_sz - cache_lines (sizeof_internode + 63)) 0 height
        (replicate (Z.to_nat internode_width) np_junk_ikey)
        (replicate (Z.to_nat (internode_width + 1)) None) None None).

Definition internode_make (height : Z) : M loc :=
  let* n := lift (internode_new height (round64 sizeof_internode)) in
  allocate (NInternode n).

Definition internode_make_root_with_meta (height : Z) (meta : directory_meta) : M loc :=
  let base_sz := round64 sizeof_internode in
  let total_sz := iceil (base_sz + sizeof_directory_meta) 64 in
  let* i := lift (internode_new height total_sz) in
  let* n := allocate (NInternode i) in
  make_layer_root n ;;
  assign_directory_meta n meta ;;
  mret n.

Definition internode_allocated_size (i : internode) : Z :=
  let es := if 0 <=? i_root_meta_extra64 i then i_root_meta_extra64 i else - i_root_meta_extra64 i - 1 in
  round64 (sizeof_internode + es * 64).

(** [assign], private: a child to the right of key [p]. *)
Definition internode_assign (n : loc) (p ikey : Z) (child : loc) : M unit :=
  set_parent child (Some n) ;;
  let* i := get_internode n in
  let* cs := mset (i_child i) (p + 1) (Some child) in
  let* ks := mset (i_ikey0 i) p ikey in
  put_node n (NInternode (set_i_ikey0 ks (set_i_child cs i))).

(** [n->assign(i, src->ikey0_[i], src->child_[i + 1])] for [i] from [i] on. *)
Fixpoint clone_children (fuel : nat) (n : loc) (src : internode) (i : Z) : M unit :=
  match fuel with
  | O => fail OutOfFuel
  | S fuel =>
    if i =? i_nkeys src then mret tt
    else
      let* k := mget (i_ikey0 src) i in
      let* c := mget (i_child src) (i + 1) in
      let* c := deref c in
      internode_assign n i k c ;;
      clone_children fuel n src (i + 1)
  end.

Definition internode_clone_root_with_meta (src : loc) (meta : directory_meta) : M loc :=
  let* s := get_internode src in
  let* n := internode_make_root_with_meta (i_height s) meta in
  upd_internode n (set_i_nkeys (i_nkeys s)) ;;
  let* c0 := mget (i_child s) 0 in
  let* i := get_internode n in
  let* cs := mset (i_child i) 0 c0 in
  put_node n (NInternode (set_i_child cs i)) ;;
  match c0 with Some c => set_parent c (Some n) | None => mret tt end ;;
  clone_children np_fuel n s 0 ;;
  mret n.

Definition internode_size (i : internode) : Z := i_nkeys i.

(** [ikey(p)], for positions the searches visit. *)
Definition internode_ikey (i : internode) (p : Z) : Z := nthZ 0 (i_ikey0 i) p.

(** [key_permuter<internode>] is the identity on [nkeys_]; [compare_key]. *)
#[export] Instance internode_permuter : KeyPermuter internode :=
  fun i => MkPerm (KPermuter.identity_size (i_nkeys i)) (KPermuter.identity_get (i_nkeys i)).
#[export] Instance internode_compare_ikey : KeyComparator Z internode :=
  fun a i bp => compare a (internode_ikey i bp).
#[export] Instance internode_compare_key : KeyComparator key internode :=
  fun a i bp => compare (k_ikey a) (internode_ikey i bp).

(** [internode_type::bound_type::upper]. *)
Definition internode_upper_ikey (ikey : Z) (i : internode) : res Z :=
  bound_upper internode_width bound_method_of ikey i.
Definition internode_upper_key (ka : key) (i : internode) : res Z :=
  bound_upper internode_width bound_method_of ka i.

(** [memcpy]/[memmove] of [n] elements within fixed-size arrays. *)
Definition copy_range {A} (dst : list A) (p : Z) (src : list A) (xp n : Z) : res (list A) :=
  if (0 <=? p) && (0 <=? xp) && (0 <=? n) && (p + n <=? Z.of_nat (length dst)) &&
     (xp + n <=? Z.of_nat (length src)) then
    Ok (take (Z.to_nat p) dst ++ take (Z.to_nat n) (drop (Z.to_nat xp) src) ++
        drop (Z.to_nat (p + n)) dst)
  else Fault OutOfBounds.

(** [shift_from] copies from another node. *)
Definition shift_from (n : internode) (p : Z) (x : internode) (xp cnt : Z) : res internode :=
  if cnt =? 0 then Ok n
  else
    let? ks := copy_range (i_ikey0 n) p (i_ikey0 x) xp cnt in
    let? cs := copy_range (i_child n) (p + 1) (i_child x) (xp + 1) cnt in
    Ok (set_i_child cs (set_i_ikey0 ks n)).

(** The pointer loops of [shift_up] (downwards) and [shift_down] (upwards):
    [*a = *b] one element at a time. *)
Fixpoint move_children_down (n : nat) (cs : list ptr) (a b : Z) : res (list ptr) :=
  match n with
  | O => Ok cs
  | S n' => let? c := aget cs b in cs' ← aset cs a c; move_children_down n' cs' (a - 1) (b - 1)
  end.
Fixpoint move_children_up (n : nat) (cs : list ptr) (a b : Z) : res (list ptr) :=
  match n with
  | O => Ok cs
  | S n' => let? c := aget cs b in cs' ← aset cs a c; move_children_up n' cs' (a + 1) (b + 1)
  end.

Definition shift_up (x : internode) (p xp n : Z) : res internode :=
  let? ks := copy_range (i_ikey0 x) p (i_ikey0 x) xp n in
  let? cs := move_children_down (Z.to_nat n) (i_child x) (p + n) (xp + n) in
  Ok (set_i_child cs (set_i_ikey0 ks x)).

Definition shift_down (x : internode) (p xp n : Z) : res internode :=
  let? ks := copy_range (i_ikey0 x) p (i_ikey0 x) xp n in
  let? cs := move_children_up (Z.to_nat n) (i_child x) (p + 1) (xp + 1) in
  Ok (set_i_child cs (set_i_ikey0 ks x)).

Definition internode_deallocate (n : loc) : M unit := deallocate n.
Definition internode_deallocate_rcu (n : loc) : M unit := deallocate_rcu n.

(** ** [leafvalue<P>] *)

Definition lv_make_empty : leafvalue := lv_value default_value.
Definition lv_get_value (v : leafvalue) : res value_type :=
  match v with lv_value x => Ok x | lv_layer _ => Fault WrongKind end.
Definition lv_get_layer (v : leafvalue) : res ptr :=
  match v with lv_layer n => Ok n | lv_value _ => Fault WrongKind end.

(** [lv.layer()->...] *)
Definition layer_of (v : leafvalue) : M loc := let* p := lift (lv_get_layer v) in deref p.

(** ** [leaf<P>] *)

Definition ksuf_keylenx : Z := 64.
Definition layer_keylenx : Z := 128.

Definition modstate_insert : Z := 0.
Definition modstate_remove : Z := 1.
Definition modstate_deleted_layer : Z := 2.

(** The constructor; the memory it does not initialise holds junk. *)
Definition leaf_new (internal_sz total_sz phantom_epoch : Z) : res leaf :=
  check_res ((internal_sz mod 64 =? 0) && (total_sz mod 64 =? 0)) ;;
  check_res (internal_sz <=? total_sz) ;;
  check_res (total_sz / 64 <? 128) ;;
  let extrasize64 := cache_lines internal_sz - cache_lines (sizeof_leaf + 63) in
  let? iksuf := (if 0 <? extrasize64 then
      let? b := make_stringbag 1 (Z.to_nat LW) (internal_sz - sizeof_leaf) in Ok (Some b)
    else Ok None) in
  Ok (Leaf (NodeVersion.make_version NV true) extrasize64
        (cache_lines total_sz - cache_lines internal_sz) modstate_insert
        (replicate (Z.to_nat LW) np_junk_keylenx) (KPermuter.make_empty LW)
        (replicate (Z.to_nat LW) np_junk_ikey) (replicate (Z.to_nat LW) lv_make_empty)
        None false None None None
        (if need_phantom_epoch then phantom_epoch else 0) iksuf None).

Definition phantom_epoch (l : leaf) : Z := if need_phantom_epoch then l_phantom_epoch l else 0.

Definition leaf_make (ksufsize phantom : Z) : M loc :=
  let sz := iceil (sizeof_leaf + Z.min ksufsize 128) 64 in
  let* l := lift (leaf_new sz sz phantom) in
  allocate (NLeaf l).

(** [n->next_.ptr = n->prev_ = 0; n->ikey0_[0] = 0] *)
Definition init_root_links (n : loc) : M unit :=
  let* l := get_leaf n in
  let* ks := mset (l_ikey0 l) 0 0 in
  put_node n (NLeaf (set_l_ikey0 ks (set_l_prev None (set_l_next None (set_l_next_marked false l))))).

Definition parent_epoch (parent : ptr) : M Z :=
  match parent with
  | Some p => let* l := get_leaf p in mret (phantom_epoch l)
  | None => mret 0
  end.

Definition leaf_make_root (ksufsize : Z) (parent : ptr) : M loc :=
  let* epoch := parent_epoch parent in
  let* n := leaf_make ksufsize epoch in
  init_root_links n ;;
  make_layer_root n ;;
  mret n.

Definition leaf_make_root_with_meta (ksufsize : Z) (parent : ptr) (meta : directory_meta) : M loc :=
  let internal_sz := iceil (sizeof_leaf + Z.min ksufsize 128) 64 in
  let total_sz := iceil (internal_sz + sizeof_directory_meta) 64 in
  let* epoch := parent_epoch parent in
  let* l := lift (leaf_new internal_sz total_sz epoch) in
  let* n := allocate (NLeaf l) in
  init_root_links n ;;
  make_layer_root n ;;
  assign_directory_meta n meta ;;
  mret n.

Definition leaf_allocated_size (l : leaf) : Z :=
  let es := if 0 <=? l_extrasize64 l then l_extrasize64 l else - l_extrasize64 l - 1 in
  round64 (sizeof_leaf + (es + l_root_meta_extra64 l) * 64).
Definition leaf_min_allocated_size : Z := round64 sizeof_leaf.

Definition allocated_size (p : loc) : M Z :=
  let* b := isleaf p in
  if b then let* l := get_leaf p in mret (leaf_allocated_size l)
  else let* i := get_internode p in mret (internode_allocated_size i).

Definition leaf_size (l : leaf) : Z := KPermuter.size (l_permutation l).

(** [full_version_value()] and [full_unlocked_version_value()]. *)
Definition leaf_full_version_value (l : leaf) : Z :=
  Word.addw (vwidth NV) (Word.shlw (vwidth NV) (NodeVersion.version_value (l_version l)) KPermuter.size_bits)
    (leaf_size l).
Definition leaf_full_unlocked_version_value (l : leaf) : Z :=
  let v := if NodeVersion.locked NV (l_version l) then NodeVersion.unlock NV (l_version l) else l_version l in
  Word.addw (vwidth NV) (Word.shlw (vwidth NV) (NodeVersion.version_value v) KPermuter.size_bits)
    (leaf_size l).
Definition full_unlocked_version_value (n : loc) : M Z :=
  let* l := get_leaf n in mret (leaf_full_unlocked_version_value l).

Definition leaf_has_changed (l : leaf) (oldv oldperm : Z) : bool :=
  NodeVersion.has_changed NV (l_version l) oldv || negb (oldperm =? l_permutation l).

Definition keylenx_is_layer (keylenx : Z) : bool := 127 <? keylenx.
Definition keylenx_has_ksuf (keylenx : Z) : bool := keylenx =? ksuf_keylenx.

Definition leaf_keylenx (l : leaf) (p : Z) : Z := nthZ 0 (l_keylenx l) p.
Definition leaf_ikey (l : leaf) (p : Z) : Z := nthZ 0 (l_ikey0 l) p.
Definition ikey_bound (l : leaf) : Z := leaf_ikey l 0.

Definition is_layer (l : leaf) (p : Z) : bool := keylenx_is_layer (leaf_keylenx l p).
Definition has_ksuf (l : leaf) (p : Z) : bool := keylenx_has_ksuf (leaf_keylenx l p).

(** [ksuf(p, keylenx)] *)
Definition ksuf_x (l : leaf) (p keylenx : Z) : res (list Z) :=
  check_res (keylenx_has_ksuf keylenx) ;;
  match l_ksuf l with
  | Some b => StringBag.get b p
  | None => match l_iksuf l with Some b => StringBag.get b p | None => Fault OutOfBounds end
  end.
Definition ksuf (l : leaf) (p : Z) : res (list Z) := ksuf_x l p (leaf_keylenx l p).

Definition get_key (l : leaf) (p : Z) : res key :=
  let keylenx := leaf_keylenx l p in
  if negb (keylenx_has_ksuf keylenx) then Ok (key_of_ikey_len (leaf_ikey l p) keylenx)
  else let? s := ksuf l p in Ok (key_of_ikey_suffix (leaf_ikey l p) s).

(** [s.len == t.len && equals_sloppy(s.s, t.s, s.len)]; the sloppy comparison is
    [memcmp] (theorem [sloppy_accessors_exact]). *)
Definition suffix_equals (s t : list Z) : bool :=
  (Z.of_nat (length s) =? Z.of_nat (length t)) && (memcmp s t =? 0).

Definition ksuf_equals_x (l : leaf) (p : Z) (ka : key) (keylenx : Z) : res bool :=
  if negb (keylenx_has_ksuf keylenx) then Ok true
  else let? s := ksuf_x l p keylenx in Ok (suffix_equals s (Key.suffix ka)).
Definition ksuf_equals (l : leaf) (p : Z) (ka : key) : res bool :=
  ksuf_equals_x l p ka (leaf_keylenx l p).

(** 1 for a match that is not a layer, 0 for none, negative for a layer. *)
Definition ksuf_matches (l : leaf) (p : Z) (ka : key) : res Z :=
  let keylenx := leaf_keylenx l p in
  if keylenx <? ksuf_keylenx then Ok 1
  else if keylenx =? layer_keylenx then Ok (- ikey_size)
  else let? s := ksuf_x l p keylenx in Ok (if suffix_equals s (Key.suffix ka) then 1 else 0).

Definition ksuf_compare (l : leaf) (p : Z) (ka : key) : res Z :=
  let keylenx := leaf_keylenx l p in
  if negb (keylenx_has_ksuf keylenx) then Ok 0
  else let? s := ksuf_x l p keylenx in Ok (String_compare s (Key.suffix ka)).

Definition ksuf_used_capacity (l : leaf) : Z :=
  match l_ksuf l with
  | Some b => used_capacity b
  | None => if 0 <? l_extrasize64 l then match l_iksuf l with Some b => used_capacity b | None => 0 end else 0
  end.
Definition ksuf_capacity (l : leaf) : Z :=
  match l_ksuf l with
  | Some b => capacity b
  | None => if 0 <? l_extrasize64 l then match l_iksuf l with Some b => capacity b | None => 0 end else 0
  end.
Definition ksuf_external (l : leaf) : bool := match l_ksuf l with Some _ => true | None => false end.
Definition ksuf_storage (l : leaf) (p : Z) : res (list Z) :=
  match l_ksuf l with
  | Some b => StringBag.get b p
  | None =>
    if 0 <? l_extrasize64 l then
      match l_iksuf l with Some b => StringBag.get b p | None => Fault OutOfBounds end
    else Ok []
  end.

Definition deleted_layer (l : leaf) : bool := l_modstate l =? modstate_deleted_layer.
Definition mark_deleted_layer (l : leaf) : leaf := set_l_modstate modstate_deleted_layer l.

(** [key_permuter<leaf>] and [compare_key]. *)
#[export] Instance leaf_permuter : KeyPermuter leaf :=
  fun l => MkPerm (KPermuter.size (l_permutation l)) (KPermuter.get (l_permutation l)).
#[export] Instance leaf_compare_key : KeyComparator key leaf :=
  fun a l bp => key_compare a (leaf_ikey l bp) (leaf_keylenx l bp).

(** [leaf::bound_type::lower] and [lower_by]. *)
Definition leaf_lower (ka : key) (l : leaf) : res key_indexed_position :=
  bound_lower LW bound_method_of ka l.
Definition leaf_lower_by (comparator : key -> leaf -> Z -> Z) (ka : key) (l : leaf) :
    res key_indexed_position :=
  bound_lower_by comparator LW bound_method_of ka l.

Definition safe_next (l : leaf) : ptr := l_next l.

Definition leaf_deallocate (n : loc) : M unit := deallocate n.
Definition leaf_deallocate_rcu (n : loc) : M unit := deallocate_rcu n.

(** *** Assigning keys to slots *)

(** [mp] of the loops of [assign_ksuf]: the slots whose suffixes are live. *)
Definition ksuf_slot (l : leaf) (initializing : bool) (i : Z) : Z :=
  if initializing then i else KPermuter.get (l_permutation l) i.

Fixpoint ksuf_total (cnt : nat) (l : leaf) (p : Z) (initializing : bool) (i csz : Z) : res Z :=
  match cnt with
  | O => Ok csz
  | S cnt =>
    let mp := ksuf_slot l initializing i in
    if negb (mp =? p) && has_ksuf l mp then
      let? s := ksuf l mp in ksuf_total cnt l p initializing (i + 1) (csz + Z.of_nat (length s))
    else ksuf_total cnt l p initializing (i + 1) csz
  end.

Fixpoint ksuf_copy (cnt : nat) (l : leaf) (p : Z) (initializing : bool) (i : Z)
    (nksuf : stringbag) : res stringbag :=
  match cnt with
  | O => Ok nksuf
  | S cnt =>
    let mp := ksuf_slot l initializing i in
    if negb (mp =? p) && has_ksuf l mp then
      let? s := ksuf l mp in
      let? r := StringBag.assign 2 8 nksuf mp s in
      check_res (fst r) ;;
      ksuf_copy cnt l p initializing (i + 1) (snd r)
    else ksuf_copy cnt l p initializing (i + 1) nksuf
  end.

(** [assign_ksuf(p, s, initializing, ti)].  The old external bag is given to
    [deallocate_rcu]; it is not reachable from the leaf any more. *)
Definition assign_ksuf (l : leaf) (p : Z) (s : list Z) (initializing : bool) : res leaf :=
  let? r1 := (match l_ksuf l with
      | Some b =>
        let? r := StringBag.assign 2 8 b p s in Ok (fst r, set_l_ksuf (Some (snd r)) l)
      | None => Ok (false, l)
      end) in
  if fst r1 then Ok (snd r1)
  else
    let? r2 := (if 0 <? l_extrasize64 l then
        match l_iksuf l with
        | Some b =>
          let? r := StringBag.assign 1 8 b p s in Ok (fst r, set_l_iksuf (Some (snd r)) l)
        | None => Fault OutOfBounds
        end
      else Ok (false, l)) in
    if fst r2 then Ok (snd r2)
    else
      let n := if initializing then p else KPermuter.size (l_permutation l) in
      let? csz := ksuf_total (Z.to_nat n) l p initializing 0 0 in
      let sz0 := iceil_log2 64 (safe_size 2 8 LW (csz + Z.of_nat (length s))) in
      let sz := match l_ksuf l with Some b => Z.max sz0 (capacity b) | None => sz0 end in
      let? b0 := make_stringbag 2 (Z.to_nat LW) sz in
      let? b1 := ksuf_copy (Z.to_nat n) l p initializing 0 b0 in
      let? r := StringBag.assign 2 8 b1 p s in
      check_res (fst r) ;;
      check_res (negb (l_modstate l =? modstate_remove)) ;;
      let l := set_l_ksuf (Some (snd r)) l in
      Ok (if 0 <=? l_extrasize64 l then set_l_extrasize64 (- l_extrasize64 l - 1) l else l).

(** Writes of one slot of [lv_], [ikey0_] and [keylenx_]. *)
Definition leaf_set_lv (l : leaf) (p : Z) (v : leafvalue) : res leaf :=
  let? x := aset (l_lv l) p v in Ok (set_l_lv x l).
Definition leaf_set_ikey (l : leaf) (p ikey : Z) : res leaf :=
  let? x := aset (l_ikey0 l) p ikey in Ok (set_l_ikey0 x l).
Definition leaf_set_keylenx (l : leaf) (p k : Z) : res leaf :=
  let? x := aset (l_keylenx l) p k in Ok (set_l_keylenx x l).

Definition leaf_assign_gen (initializing : bool) (l : leaf) (p : Z) (ka : key) : res leaf :=
  let? l := leaf_set_lv l p lv_make_empty in
  let? l := leaf_set_ikey l p (k_ikey ka) in
  if negb (has_suffix ka) then leaf_set_keylenx l p (Word.wrap 8 (k_len ka))
  else
    let? l := leaf_set_keylenx l p ksuf_keylenx in
    assign_ksuf l p (Key.suffix ka) initializing.

(** [assign(p, ka)] and [assign_initialize(p, ka)] *)
Definition leaf_assign (l : leaf) (p : Z) (ka : key) : res leaf := leaf_assign_gen false l p ka.
Definition leaf_assign_initialize (l : leaf) (p : Z) (ka : key) : res leaf :=
  leaf_assign_gen true l p ka.

(** [assign_initialize(p, x, xp)]: copy a slot of another leaf. *)
Definition leaf_assign_from (l : leaf) (p : Z) (x : leaf) (xp : Z) : res leaf :=
  let? v := aget (l_lv x) xp in
  let? l := leaf_set_lv l p v in
  let? ik := aget (l_ikey0 x) xp in
  let? l := leaf_set_ikey l p ik in
  let? kx := aget (l_keylenx x) xp in
  let? l := leaf_set_keylenx l p kx in
  if has_ksuf x xp then let? s := ksuf x xp in assign_ksuf l p s true else Ok l.

Definition leaf_assign_initialize_for_layer (l : leaf) (p : Z) (ka : key) : res leaf :=
  check_res (has_suffix ka) ;;
  let? l := leaf_set_ikey l p (k_ikey ka) in
  leaf_set_keylenx l p layer_keylenx.

(** Apply a fallible update to a leaf of the heap. *)
Definition upd_leaf_res (n : loc) (f : leaf -> res leaf) : M unit :=
  let* l := get_leaf n in
  let* l' := lift (f l) in
  put_node n (NLeaf l').

(** [for (i = 0; i != perm.size(); ++i) n->assign_initialize(perm[i], src, perm[i])] *)
Fixpoint clone_slots (cnt : nat) (l src : leaf) (i : Z) : res leaf :=
  match cnt with
  | O => Ok l
  | S cnt =>
    let p := KPermuter.get (l_permutation src) i in
    let? l := leaf_assign_from l p src p in
    clone_slots cnt l src (i + 1)
  end.

Definition leaf_clone_root_with_meta (src : loc) (meta : directory_meta) : M loc :=
  let* s := get_leaf src in
  let internal_sz := leaf_allocated_size s - l_root_meta_extra64 s * 64 in
  let total_sz := iceil (internal_sz + sizeof_directory_meta) 64 in
  let* l := lift (leaf_new internal_sz total_sz (phantom_epoch s)) in
  let* n := allocate (NLeaf l) in
  upd_leaf n (fun l => set_l_permutation (l_permutation s) (set_l_modstate (l_modstate s)
    (set_l_prev (l_prev s) (set_l_next (l_next s) (set_l_next_marked (l_next_marked s) l))))) ;;
  make_layer_root n ;;
  upd_leaf_res n (fun l => clone_slots (Z.to_nat (leaf_size s)) l s 0) ;;
  assign_directory_meta n meta ;;
  mret n.

(** ** Traversal *)

(** [locked_parent(ti)] *)
Fixpoint locked_parent_loop (fuel : nat) (n : loc) : M ptr :=
  match fuel with
  | O => fail OutOfFuel
  | S fuel =>
    let* p := parent n in
    match p with
    | None => mret None
    | Some q =>
      lock_self q ;;
      let* p' := parent n in
      if bool_decide (p = p') then
        let* b := isleaf q in
        check (negb b) ;;
        mret p
      else
        unlock q ;;
        locked_parent_loop fuel n
    end
  end.
Definition locked_parent (n : loc) : M ptr :=
  let* b := locked n in
  check b ;;
  locked_parent_loop np_fuel n.

(** [stable_last_key_compare] of internodes and leaves. *)
Fixpoint internode_stable_last_key_compare (fuel : nat) (p : loc) (k : key) (v : Z) : M Z :=
  match fuel with
  | O => fail OutOfFuel
  | S fuel =>
    let* i := get_internode p in
    let n := internode_size i in
    let cmp := if negb (n =? 0) then compare_key k i (n - 1) else 1 in
    let* hc := has_changed p v in
    if negb hc then mret cmp
    else
      let* v' := stable p in
      internode_stable_last_key_compare fuel p k v'
  end.

Fixpoint leaf_stable_last_key_compare (fuel : nat) (p : loc) (k : key) (v : Z) : M Z :=
  match fuel with
  | O => fail OutOfFuel
  | S fuel =>
    let* l := get_leaf p in
    let n := KPermuter.size (l_permutation l) in
    let slot := KPermuter.get (l_permutation l) (if negb (n =? 0) then n - 1 else 0) in
    let cmp := compare_key k l slot in
    let* hc := has_changed p v in
    if negb hc then mret cmp
    else
      let* v' := stable p in
      leaf_stable_last_key_compare fuel p k v'
  end.

(** The first loop of [reach_leaf]: up to a node that is a root. *)
Fixpoint find_root_loop (fuel : nat) (n : loc) : M (loc * Z) :=
  match fuel with
  | O => fail OutOfFuel
  | S fuel =>
    let* v := stable n in
    if NodeVersion.is_root NV v then mret (n, v)
    else
      let* n' := maybe_parent n in
      find_root_loop fuel n'
  end.

(** The second loop: down to a leaf; [None] is [goto retry]. *)
Fixpoint descend_loop (fuel : nat) (ka : key) (n : loc) (v : Z) : M (option (loc * Z)) :=
  match fuel with
  | O => fail OutOfFuel
  | S fuel =>
    if NodeVersion.isleaf NV v then mret (Some (n, v))
    else
      let* i := get_internode n in
      let* kp := lift (internode_upper_key ka i) in
      let* c := mget (i_child i) kp in
      match c with
      | None => mret None
      | Some c =>
        let* vc := stable c in
        let* hc := has_changed n v in
        if negb hc then descend_loop fuel ka c vc
        else
          let* v' := stable n in
          let* last := internode_stable_last_key_compare np_fuel n ka v' in
          if NodeVersion.has_split NV v v' && (0 <? last) then mret None
          else descend_loop fuel ka n v'
      end
  end.

Fixpoint reach_leaf_loop (fuel : nat) (ka : key) (root : loc) : M (loc * Z) :=
  match fuel with
  | O => fail OutOfFuel
  | S fuel =>
    let* r := find_root_loop np_fuel root in
    let* d := descend_loop np_fuel ka (fst r) (snd r) in
    match d with
    | Some x => mret x
    | None => reach_leaf_loop fuel ka root
    end
  end.
Definition reach_leaf (root : loc) (ka : key) : M (loc * Z) := reach_leaf_loop np_fuel ka root.

(** The walk of [advance_to_key] along the leaf links. *)
Fixpoint leaf_walk (fuel : nat) (ka : key) (n : loc) (v : Z) : M (loc * Z) :=
  match fuel with
  | O => fail OutOfFuel
  | S fuel =>
    if NodeVersion.deleted NV v then mret (n, v)
    else
      let* l := get_leaf n in
      match safe_next l with
      | None => mret (n, v)
      | Some next =>
        let* nl := get_leaf next in
        if 0 <=? compare (k_ikey ka) (ikey_bound nl) then
          let* v' := stable next in
          leaf_walk fuel ka next v'
        else mret (n, v)
      end
  end.

Definition advance_to_key (n : loc) (ka : key) (oldv : Z) : M (loc * Z) :=
  let* v := stable n in
  if NodeVersion.has_split NV v oldv then
    let* last := leaf_stable_last_key_compare np_fuel n ka v in
    if 0 <? last then leaf_walk np_fuel ka n v else mret (n, v)
  else mret (n, v).

(** ** [basic_table<P>] *)

Definition initialize : M unit :=
  let* r := table_root in
  check (match r with None => true | Some _ => false end) ;;
  let* n := leaf_make_root 0 None in
  set_table_root (Some n).

Definition fix_root : M loc :=
  let* r := table_root in
  let* root := deref r in
  let* b := is_root root in
  if negb b then
    let* new := maybe_parent root in
    let* cur := table_root in
    (if bool_decide (cur = Some root) then set_table_root (Some new) else mret tt) ;;
    mret new
  else mret root.

(** ** [btree_leaflink<leaf, true>] *)

(** [lock_next]: a marked link spins until the other writer is done. *)
Definition lock_next (n : loc) : M ptr :=
  let* l := get_leaf n in
  match l_next l with
  | None => if l_next_marked l then fail Deadlock else mret None
  | Some x =>
    if l_next_marked l then fail Deadlock
    else upd_leaf n (set_l_next_marked true) ;; mret (Some x)
  end.

Definition set_next (n : loc) (p : ptr) : M unit :=
  upd_leaf n (fun l => set_l_next p (set_l_next_marked false l)).

Definition link_split (n nr : loc) : M unit :=
  upd_leaf nr (set_l_prev (Some n)) ;;
  let* next := lock_next n in
  set_next nr next ;;
  match next with Some x => upd_leaf x (set_l_prev (Some nr)) | None => mret tt end ;;
  set_next n (Some nr).

Definition unlink (n : loc) : M unit :=
  let* next := lock_next n in
  let* l := get_leaf n in
  let* prev := deref (l_prev l) in
  let* pl := get_leaf prev in
  if bool_decide (l_next pl = Some n) && negb (l_next_marked pl) then
    upd_leaf prev (set_l_next_marked true) ;;
    match next with Some x => upd_leaf x (set_l_prev (Some prev)) | None => mret tt end ;;
    set_next prev next
  else fail Deadlock.
End node.

(** Computations over the heap. *)
Abbreviation M := (sm mstate).
