(* ===== verification/Get.v ===== *)
(** * Cursors and lookups (masstree_tcursor.hh, masstree_get.hh)

    [unlocked_tcursor] and [tcursor] as records; [find_*] return the cursor with
    its new fields.  The labels of the source are a fixpoint over fuel: [goto
    retry] restarts at [root], [goto forward] carries the leaf and version to
    continue from. *)

From S2P Require Export Node.
From S2P Require Import NodeVersion KPermuter.

#[local] Open Scope Z_scope.
#[local] Open Scope lhm_scope.

#[local] Existing Instance np_config.

Section cursors.
Context {P : nodeparams}.

Abbreviation NV := nodeversion_type.
Abbreviation VW := (vwidth nodeversion_type).

Record unlocked_tcursor := UCursor {
  uc_n : loc;
  uc_ka : key;
  uc_v : Z;
  uc_perm : Z;
  uc_lv : leafvalue;
  uc_root : loc;
  uc_state : Z
}.

Record tcursor := TCursor {
  tc_n : loc;
  tc_ka : key;
  tc_kx : key_indexed_position;
  tc_root : loc;
  tc_state : Z;
  tc_original_n : loc;
  tc_original_v : Z;
  tc_updated_v : Z;
  tc_new_nodes : list (loc * Z)
}.

Definition set_tc_n x c := TCursor x (tc_ka c) (tc_kx c) (tc_root c) (tc_state c) (tc_original_n c) (tc_original_v c) (tc_updated_v c) (tc_new_nodes c).
Definition set_tc_ka x c := TCursor (tc_n c) x (tc_kx c) (tc_root c) (tc_state c) (tc_original_n c) (tc_original_v c) (tc_updated_v c) (tc_new_nodes c).
Definition set_tc_kx x c := TCursor (tc_n c) (tc_ka c) x (tc_root c) (tc_state c) (tc_original_n c) (tc_original_v c) (tc_updated_v c) (tc_new_nodes c).
Definition set_tc_state x c := TCursor (tc_n c) (tc_ka c) (tc_kx c) (tc_root c) x (tc_original_n c) (tc_original_v c) (tc_updated_v c) (tc_new_nodes c).
Definition set_tc_original n v c := TCursor (tc_n c) (tc_ka c) (tc_kx c) (tc_root c) (tc_state c) n v (tc_updated_v c) (tc_new_nodes c).
Definition set_tc_updated_v x c := TCursor (tc_n c) (tc_ka c) (tc_kx c) (tc_root c) (tc_state c) (tc_original_n c) (tc_original_v c) x (tc_new_nodes c).
Definition add_new_node x c := TCursor (tc_n c) (tc_ka c) (tc_kx c) (tc_root c) (tc_state c) (tc_original_n c) (tc_original_v c) (tc_updated_v c) (tc_new_nodes c ++ [x]).

(** ** Constructors *)

(** The fields the constructors leave uninitialised start at the root and 0. *)
Definition make_unlocked_tcursor (root : loc) (ka : key) : unlocked_tcursor :=
  UCursor root ka 0 0 lv_make_empty root 0.
Definition make_tcursor (root : loc) (ka : key) : tcursor :=
  TCursor root ka (KPos 0 0) root 0 root 0 0 [].

(** From a const table ([root()]), from a table ([fix_root()]) and from a node. *)
Definition unlocked_cursor_const_table (str : list Z) : M unlocked_tcursor :=
  let* r := table_root in
  let* root := deref r in
  mret (make_unlocked_tcursor root (key_of_str str)).
Definition unlocked_cursor_table (str : list Z) : M unlocked_tcursor :=
  let* root := fix_root in
  mret (make_unlocked_tcursor root (key_of_str str)).
Definition unlocked_cursor_node (root : loc) (s : list Z) (len : Z) : unlocked_tcursor :=
  make_unlocked_tcursor root (key_of_buf s len).

Definition cursor_table (str : list Z) : M tcursor :=
  let* root := fix_root in
  mret (make_tcursor root (key_of_str str)).
Definition cursor_node (root : loc) (s : list Z) (len : Z) : tcursor :=
  make_tcursor root (key_of_buf s len).

(** ** Accessors *)

Definition uc_value (c : unlocked_tcursor) : res value_type := lv_get_value (uc_lv c).
Definition uc_compare_key (c : unlocked_tcursor) (a : key) (bp : Z) : M Z :=
  let* l := get_leaf (uc_n c) in mret (compare_key a l bp).
Definition uc_full_version_value (c : unlocked_tcursor) : Z :=
  Word.addw VW (Word.shlw VW (version_value (uc_v c)) size_bits) (KPermuter.size (uc_perm c)).
Definition uc_is_layer (c : unlocked_tcursor) : bool := uc_state c <? 0.
Definition uc_layer_root (c : unlocked_tcursor) : res ptr := lv_get_layer (uc_lv c).

Definition has_value (c : tcursor) : bool := 0 <=? kp_p (tc_kx c).
(** [value()]: read and, through the reference, write. *)
Definition tc_value (c : tcursor) : M value_type :=
  let* l := get_leaf (tc_n c) in
  let* v := mget (l_lv l) (kp_p (tc_kx c)) in
  lift (lv_get_value v).
Definition tc_set_value (c : tcursor) (x : value_type) : M unit :=
  upd_leaf_res (tc_n c) (fun l => leaf_set_lv l (kp_p (tc_kx c)) (lv_value x)).
Definition is_first_layer (c : tcursor) : bool := negb (is_shifted (tc_ka c)).
Definition finish_read (c : tcursor) : M unit := Node.unlock (tc_n c).
Definition tc_is_layer (c : tcursor) : bool := tc_state c <? 0.
Definition tc_layer_root (c : tcursor) : M ptr :=
  let* l := get_leaf (tc_n c) in
  let* v := mget (l_lv l) (kp_p (tc_kx c)) in
  lift (lv_get_layer v).

Definition reset_retry (c : tcursor) : loc * tcursor :=
  (tc_root c, set_tc_ka (unshift_all (tc_ka c)) c).

Definition previous_full_version_value (c : tcursor) : M Z :=
  let* l := get_leaf (tc_n c) in
  mret (Word.addw VW (Word.shlw VW (unlocked_version_value NV (l_version l)) size_bits) (leaf_size l)).

Definition next_full_version_value (c : tcursor) (state : Z) : M Z :=
  let* l := get_leaf (tc_n c) in
  let v := NodeVersion.unlock NV (l_version l) in
  let result := Word.addw VW (Word.shlw VW (version_value v) size_bits) (leaf_size l) in
  mret (if (state <? 0) && Z.odd state then Word.subw VW result 1
        else if (0 <? state) && (tc_state c =? 2) then Word.addw VW result 1
        else result).

(** ** [unlocked_tcursor::find_unlocked] *)

(** [lower(ka_, *this)]: the snapshot [perm_] with the leaf's keys. *)
Record cursor_view := View { cv_perm : Z; cv_leaf : leaf }.
#[export] Instance cursor_view_permuter : KeyPermuter cursor_view :=
  fun c => MkPerm (KPermuter.size (cv_perm c)) (KPermuter.get (cv_perm c)).
#[export] Instance cursor_view_compare : KeyComparator key cursor_view :=
  fun a c bp => compare_key a (cv_leaf c) bp.

Definition view_lower (ka : key) (c : cursor_view) : res key_indexed_position :=
  bound_lower leaf_width bound_method_of ka c.

Fixpoint find_unlocked_loop (fuel : nat) (root : loc) (forward : option (loc * Z))
    (c : unlocked_tcursor) : M (Z * unlocked_tcursor) :=
  match fuel with
  | O => fail OutOfFuel
  | S fuel =>
    let ka := uc_ka c in
    let* nv := (match forward with Some x => mret x | None => reach_leaf root ka end) in
    let (n, v) := (nv : loc * Z) in
    if NodeVersion.deleted NV v then find_unlocked_loop fuel root None c
    else
      let* l := get_leaf n in
      let perm := l_permutation l in
      let* kx := lift (view_lower ka (View perm l)) in
      let* lm := (if 0 <=? kp_p kx then
          let* lv := mget (l_lv l) (kp_p kx) in
          let* m := lift (ksuf_matches l (kp_p kx) ka) in
          mret (lv, m)
        else mret (uc_lv c, 0)) in
      let (lv, m) := (lm : leafvalue * Z) in
      let c := UCursor n ka v perm lv (uc_root c) (uc_state c) in
      let* hc := Node.has_changed n v in
      if hc then
        let* nv' := advance_to_key n ka v in
        find_unlocked_loop fuel root (Some nv') c
      else if m <? 0 then
        let* root' := layer_of lv in
        find_unlocked_loop fuel root' None (UCursor n (shift_by (- m) ka) v perm lv (uc_root c) (uc_state c))
      else mret (m, c)
  end.

Definition find_unlocked (c : unlocked_tcursor) : M (bool * unlocked_tcursor) :=
  let* r := find_unlocked_loop np_fuel (uc_root c) None c in
  mret (negb (fst r =? 0), snd r).

(** ** [find_unlocked_edge] *)

(** The [edge_comparator] of both edge searches: a layer slot matches its ikey
    whatever the key's length. *)
Definition edge_comparator (ka : key) (l : leaf) (p : Z) : Z :=
  let cmp := compare (k_ikey ka) (leaf_ikey l p) in
  if negb (cmp =? 0) then cmp
  else if is_layer l p then 0
  else compare_key ka l p.

Fixpoint find_unlocked_edge_loop (fuel : nat) (root : loc) (forward : option (loc * Z))
    (c : unlocked_tcursor) : M unlocked_tcursor :=
  match fuel with
  | O => fail OutOfFuel
  | S fuel =>
    let ka := uc_ka c in
    let* nv := (match forward with Some x => mret x | None => reach_leaf root ka end) in
    let (n, v) := (nv : loc * Z) in
    if NodeVersion.deleted NV v then find_unlocked_edge_loop fuel root None c
    else
      let* l := get_leaf n in
      let perm := l_permutation l in
      let* kx := lift (leaf_lower_by edge_comparator ka l) in
      let* lm := (if 0 <=? kp_p kx then
          let* lv := mget (l_lv l) (kp_p kx) in
          let* m := lift (ksuf_matches l (kp_p kx) ka) in
          mret (lv, m)
        else mret (uc_lv c, 0)) in
      let (lv, state) := (lm : leafvalue * Z) in
      let c := UCursor n ka v perm lv (uc_root c) state in
      let* hc := Node.has_changed n v in
      if hc then
        let* nv' := advance_to_key n ka v in
        find_unlocked_edge_loop fuel root (Some nv') c
      else if deleted_layer l then
        find_unlocked_edge_loop fuel (uc_root c) None
          (UCursor n (unshift_all ka) v perm lv (uc_root c) state)
      else mret c
  end.

Definition find_unlocked_edge (c : unlocked_tcursor) : M (bool * unlocked_tcursor) :=
  let* c' := find_unlocked_edge_loop np_fuel (uc_root c) None c in
  mret (negb (uc_state c' =? 0), c').

(** [basic_table::get] *)
Definition table_get (key : list Z) : M (option value_type) :=
  let* lp := unlocked_cursor_const_table key in
  let* r := find_unlocked lp in
  if fst r then let* v := lift (uc_value (snd r)) in mret (Some v) else mret None.

(** ** [tcursor::find_locked] *)

(** [n_->lock(v)] and the check that nothing moved: [None] when the search must
    advance to another leaf. *)
Fixpoint find_locked_loop (fuel : nat) (root : loc) (forward : option (loc * Z))
    (c : tcursor) : M tcursor :=
  match fuel with
  | O => fail OutOfFuel
  | S fuel =>
    let ka := tc_ka c in
    let* nv := (match forward with Some x => mret x | None => reach_leaf root ka end) in
    let (n, v) := (nv : loc * Z) in
    if NodeVersion.deleted NV v then find_locked_loop fuel root None c
    else
      let* l := get_leaf n in
      let perm := l_permutation l in
      let* kx := lift (leaf_lower ka l) in
      let c := set_tc_kx kx (set_tc_n n c) in
      let* sd := (if 0 <=? kp_p kx then
          let* lv := mget (l_lv l) (kp_p kx) in
          let* state := lift (ksuf_matches l (kp_p kx) ka) in
          if state <? 0 then
            let* hc := Node.has_changed n v in
            if negb hc then
              let* root' := layer_of lv in
              let* b := Node.is_root root' in
              mret (state, if b then Some root' else None)
            else mret (state, None)
          else mret (state, None)
        else mret (0, None)) in
      let (state, down) := (sd : Z * option loc) in
      let c := set_tc_state state c in
      match down with
      | Some root' => find_locked_loop fuel root' None (set_tc_ka (shift_by (- state) ka) c)
      | None =>
        Node.lock n v ;;
        let* hc := Node.has_changed n v in
        let* l := get_leaf n in
        if hc || negb (l_permutation l =? perm) then
          Node.unlock n ;;
          let* nv' := advance_to_key n ka v in
          find_locked_loop fuel root (Some nv') c
        else if state <? 0 then
          let* lv := mget (l_lv l) (kp_p kx) in
          let* layer := layer_of lv in
          let* root' := maybe_parent layer in
          upd_leaf_res n (fun l => leaf_set_lv l (kp_p kx) (lv_layer (Some root'))) ;;
          Node.unlock n ;;
          find_locked_loop fuel root' None (set_tc_ka (shift_by (- state) ka) c)
        else if deleted_layer l then
          Node.unlock n ;;
          find_locked_loop fuel (tc_root c) None (set_tc_ka (unshift_all ka) c)
        else mret c
      end
  end.

Definition find_locked (c : tcursor) : M (bool * tcursor) :=
  let* c' := find_locked_loop np_fuel (tc_root c) None c in
  mret (negb (tc_state c' =? 0), c').

(** ** [tcursor::find_locked_edge] *)

Fixpoint find_locked_edge_loop (fuel : nat) (root : loc) (forward : option (loc * Z))
    (c : tcursor) : M tcursor :=
  match fuel with
  | O => fail OutOfFuel
  | S fuel =>
    let ka := tc_ka c in
    let* nv := (match forward with Some x => mret x | None => reach_leaf root ka end) in
    let (n, v) := (nv : loc * Z) in
    if NodeVersion.deleted NV v then find_locked_edge_loop fuel root None c
    else
      let* l := get_leaf n in
      let perm := l_permutation l in
      let* kx := lift (leaf_lower_by edge_comparator ka l) in
      let* state := (if 0 <=? kp_p kx then lift (ksuf_matches l (kp_p kx) ka) else mret 0) in
      let c := set_tc_state state (set_tc_kx kx (set_tc_n n c)) in
      Node.lock n v ;;
      let* hc := Node.has_changed n v in
      let* l := get_leaf n in
      if hc || negb (l_permutation l =? perm) then
        Node.unlock n ;;
        let* nv' := advance_to_key n ka v in
        find_locked_edge_loop fuel root (Some nv') c
      else if deleted_layer l then
        Node.unlock n ;;
        find_locked_edge_loop fuel (tc_root c) None (set_tc_ka (unshift_all ka) c)
      else mret c
  end.

Definition find_locked_edge (c : tcursor) : M (bool * tcursor) :=
  let* c' := find_locked_edge_loop np_fuel (tc_root c) None c in
  mret (negb (tc_state c' =? 0), c').
End cursors.
