(* ===== verification/Split.v ===== *)
(** * Node splits (masstree_split.hh)

    [leaf::split_into] and [internode::split_into] move the upper part of a full
    node to a fresh right sibling while inserting one more key; [make_split]
    carries the separators up to the layer's root. *)

From S2P Require Export Get.
From S2P Require Import NodeVersion KPermuter.

#[local] Open Scope Z_scope.
#[local] Open Scope lhm_scope.

#[local] Existing Instance np_config.

Section split.
Context {P : nodeparams}.

Abbreviation NV := nodeversion_type.
Abbreviation LW := leaf_width.
Abbreviation IW := internode_width.

(** ** Leaves *)

(** [ikey_after_insert(perm, i, cursor)] with the cursor's rank and ikey. *)
Definition ikey_after_insert (l : leaf) (perm i kx_i ikey : Z) : Z :=
  if i <? kx_i then leaf_ikey l (KPermuter.get perm i)
  else if i =? kx_i then ikey
  else leaf_ikey l (KPermuter.get perm (i - 1)).

(** The loop that moves the split point to the nearest change of ikey. *)
Fixpoint adjust_mid (fuel : nat) (after : Z -> Z) (width mid_ikey midl midr : Z) : res Z :=
  match fuel with
  | O => Fault OutOfFuel
  | S fuel =>
    if (midr <=? width) && negb (mid_ikey =? after midr) then Ok midr
    else if (0 <=? midl) && negb (mid_ikey =? after midl) then Ok (midl + 1)
    else adjust_mid fuel after width mid_ikey (midl - 1) (midr + 1)
  end.

(** The split point of a leaf of [width] keys before an insertion at rank [p]. *)
Definition choose_mid (l : leaf) (perm p ikey width : Z) : res Z :=
  let mid :=
    if (p =? 0) && negb (parent_exists (l_prev l)) then 1
    else if (p =? width) && negb (parent_exists (l_next l)) && negb (l_next_marked l) then width
    else LW / 2 + 1 in
  let after i := ikey_after_insert l perm i p ikey in
  let mid_ikey := after mid in
  if mid_ikey =? after (mid - 1) then
    let? mid' := adjust_mid np_fuel after width mid_ikey (mid - 2) (mid + 1) in
    let? _ := check_res ((0 <? mid') && (mid' <=? width)) in
    Ok mid'
  else Ok mid.

(** [for (x = mid; x <= width; ++x)]: the new key at rank [p], the others from
    the slots packed in [pv]. *)
Fixpoint move_items (cnt : nat) (nr l : leaf) (ka : key) (p mid x pv : Z) : res leaf :=
  match cnt with
  | O => Ok nr
  | S cnt =>
    if x =? p then
      let? nr := leaf_assign_initialize nr (x - mid) ka in
      move_items cnt nr l ka p mid (x + 1) pv
    else
      let? nr := leaf_assign_from nr (x - mid) l (Z.land pv 15) in
      move_items cnt nr l ka p mid (x + 1) (Z.shiftr pv 4)
  end.

(** The new right leaf, its first key and the split type, from the leaf, the
    fresh leaf, the key and its rank. *)
Definition split_leaf (l nr : leaf) (ka : key) (p : Z) : res (leaf * Z * Z) :=
  let perml := l_permutation l in
  let width := KPermuter.size perml in
  let? mid := choose_mid l perml p (k_ikey ka) width in
  let pv := KPermuter.value_from perml (mid - (if p <? mid then 1 else 0)) in
  let? nr := move_items (Z.to_nat (width + 1 - mid)) nr l ka p mid mid pv in
  let permr := KPermuter.make_sorted LW (width + 1 - mid) in
  let permr := if mid <=? p then KPermuter.remove_to_back LW permr (p - mid) else permr in
  let nr := set_l_permutation permr nr in
  let? split_ikey := aget (l_ikey0 nr) 0 in
  Ok (nr, split_ikey, if p <? mid then 0 else 1 + (if mid =? width then 1 else 0)).

Definition leaf_split_into (n nr : loc) (ka : key) (p : Z) : M (Z * Z) :=
  let* b1 := Node.locked n in
  let* b2 := Node.locked nr in
  check (b1 && b2) ;;
  let* l := get_leaf n in
  check (LW - 1 <=? leaf_size l) ;;
  let* r := get_leaf nr in
  let* x := lift (split_leaf l r ka p) in
  let '(r', split_ikey, split_type) := (x : leaf * Z * Z) in
  put_node nr (NLeaf r') ;;
  link_split n nr ;;
  mret (split_ikey, split_type).

(** ** Internodes *)

(** [for (i = 0; i <= nr->nkeys_; ++i) nr->child_[i]->set_parent(nr)] *)
Fixpoint set_children_parent (cnt : nat) (nr : loc) (i : Z) : M unit :=
  match cnt with
  | O => mret tt
  | S cnt =>
    let* r := get_internode nr in
    let* c := mget (i_child r) i in
    let* c := deref c in
    set_parent c (Some nr) ;;
    set_children_parent cnt nr (i + 1)
  end.

(** [split_into(nr, p, ka, value, split_ikey, split_type)]: the position to
    insert at in the left node, or -1, and the separator. *)
Definition internode_split_into (n nr : loc) (p ka : Z) (value : loc) (split_type : Z) : M (Z * Z) :=
  let* b1 := Node.locked n in
  let* b2 := Node.locked nr in
  check (b1 && b2) ;;
  let mid := if split_type =? 2 then IW else (IW + 1) / 2 in
  let* x := get_internode n in
  upd_internode nr (set_i_nkeys (IW + 1 - (mid + 1))) ;;
  let* split_ikey :=
    (if p <? mid then
       let* r := get_internode nr in
       let* c0 := mget (i_child x) mid in
       let* cs := mset (i_child r) 0 c0 in
       let* r' := lift (shift_from (set_i_child cs r) 0 x mid (IW - mid)) in
       put_node nr (NInternode r') ;;
       mget (i_ikey0 x) (mid - 1)
     else if p =? mid then
       let* r := get_internode nr in
       let* cs := mset (i_child r) 0 (Some value) in
       let* r' := lift (shift_from (set_i_child cs r) 0 x mid (IW - mid)) in
       put_node nr (NInternode r') ;;
       mret ka
     else
       let* r := get_internode nr in
       let* c0 := mget (i_child x) (mid + 1) in
       let* cs := mset (i_child r) 0 c0 in
       let* r' := lift (shift_from (set_i_child cs r) 0 x (mid + 1) (p - (mid + 1))) in
       put_node nr (NInternode r') ;;
       internode_assign nr (p - (mid + 1)) ka value ;;
       let* r := get_internode nr in
       let* r' := lift (shift_from r (p + 1 - (mid + 1)) x p (IW - p)) in
       put_node nr (NInternode r') ;;
       mget (i_ikey0 x) mid) in
  let* r := get_internode nr in
  set_children_parent (Z.to_nat (i_nkeys r + 1)) nr 0 ;;
  Node.mark_split n ;;
  if p <? mid then
    upd_internode n (set_i_nkeys (mid - 1)) ;; mret (p, split_ikey)
  else
    upd_internode n (set_i_nkeys mid) ;; mret (-1, split_ikey).

(** ** [tcursor::make_split] *)

(** [if (kp < 0 || p->height_ > height + 1)]: a new internode above [n]. *)
Definition split_new_internode (n child : loc) (p : ptr) (kp height xikey : Z) : M unit :=
  let* meta := (if kp <? 0 then
      let* b := Node.has_directory_meta n in
      if b then node_directory_meta n else mret None
    else mret None) in
  let* nn := (match meta with
    | Some m => internode_make_root_with_meta (Word.addw 32 height 1) m
    | None => internode_make (Word.addw 32 height 1)
    end) in
  let* i := get_internode nn in
  let* cs := mset (i_child i) 0 (Some n) in
  put_node nn (NInternode (set_i_child cs i)) ;;
  internode_assign nn 0 xikey child ;;
  upd_internode nn (set_i_nkeys 1) ;;
  (if kp <? 0 then make_layer_root nn
   else
     set_parent nn p ;;
     let* q := deref p in
     let* pi := get_internode q in
     let* cs := mset (i_child pi) kp (Some nn) in
     put_node q (NInternode (set_i_child cs pi))) ;;
  set_parent n (Some nn).

(** The [else] branch: [child] is inserted into the parent [p], which splits
    when it is full.  Returns the new sibling of [p] and its separator. *)
Definition split_into_parent (child p : loc) (kp height xikey split_type : Z) : M (ptr * Z) :=
  let* pi := get_internode p in
  let* nx := (if IW <=? internode_size pi then
      let* next_child := internode_make (Word.addw 32 height 1) in
      Node.assign_version next_child p ;;
      Node.mark_nonroot next_child ;;
      let* r := internode_split_into p next_child kp xikey child split_type in
      mret (Some next_child, r)
    else mret (None, (kp, 0)) : M (ptr * (Z * Z))) in
  let '(next_child, (kp, xikey')) := (nx : ptr * (Z * Z)) in
  (if 0 <=? kp then
     let* pi := get_internode p in
     let* pi' := lift (shift_up pi (kp + 1) kp (internode_size pi - kp)) in
     put_node p (NInternode pi') ;;
     internode_assign p kp xikey child ;;
     upd_internode p (fun i => set_i_nkeys (Word.addw 8 (i_nkeys i) 1) i)
   else mret tt) ;;
  mret (next_child, xikey').

(** The permutation the left leaf keeps when the right one has [rsize] keys. *)
Definition left_permutation (perml rsize : Z) : Z :=
  let width := KPermuter.size perml in
  let perml := KPermuter.set_size LW perml (width - rsize) in
  if negb (width =? LW) then KPermuter.exchange LW perml (KPermuter.size perml) (LW - 1) else perml.

(** [if (n == n_)]: strip the moved items from the left leaf and place the
    cursor. *)
Definition split_strip (n child : loc) (split_type : Z) (c : tcursor) : M tcursor :=
  let* nl := get_leaf n in
  let* nr := get_leaf child in
  let perml := left_permutation (l_permutation nl) (leaf_size nr) in
  Node.mark_split n ;;
  upd_leaf n (set_l_permutation perml) ;;
  if split_type =? 0 then
    let p := KPermuter.back LW perml in
    let c := set_tc_kx (KPos (kp_i (tc_kx c)) p) c in
    upd_leaf_res n (fun l => leaf_assign l p (tc_ka c)) ;;
    let* v := full_unlocked_version_value child in
    mret (add_new_node (child, v) c)
  else
    let i := kp_i (tc_kx c) - KPermuter.size perml in
    let* v := full_unlocked_version_value n in
    mret (set_tc_updated_v v (set_tc_n child (set_tc_kx (KPos i i) c))).

(** One level of the loop of [make_split]; the next level's node, child and
    separator when the parent split too. *)
Definition split_level (n child : loc) (xikey height split_type : Z) (c : tcursor) :
    M (option (loc * loc * Z) * tcursor) :=
  let* bn := Node.locked n in
  let* bc := Node.locked child in
  let* lf := Node.isleaf n in
  let* sp := Node.splitting n in
  check (bn && bc && (lf || sp)) ;;
  let* p := locked_parent n in
  let* kp := (match p with
    | Some q =>
      let* pi := get_internode q in
      let* kp := lift (internode_upper_ikey xikey pi) in
      Node.mark_insert q ;;
      mret kp
    | None => mret (-1)
    end) in
  let* high := (match p with
    | Some q => let* pi := get_internode q in mret (Word.addw 32 height 1 <? i_height pi)
    | None => mret false
    end) in
  let* next := (if (kp <? 0) || high then
      split_new_internode n child p kp height xikey ;; mret (None, 0)
    else
      let* q := deref p in
      split_into_parent child q kp height xikey split_type : M (ptr * Z)) in
  let (next_child, xikey') := (next : ptr * Z) in
  let* c := (if bool_decide (n = tc_n c) then split_strip n child split_type c else mret c) in
  (if bool_decide (n = tc_n c) then mret tt else Node.unlock n) ;;
  (if bool_decide (child = tc_n c) then mret tt else Node.unlock child) ;;
  match next_child with
  | Some nc => let* q := deref p in mret (Some (q, nc, xikey'), c)
  | None =>
    match p with
    | Some q => Node.unlock q ;; mret (None, c)
    | None => mret (None, c)
    end
  end.

Fixpoint split_loop (fuel : nat) (n child : loc) (xikey height split_type : Z) (c : tcursor) :
    M tcursor :=
  match fuel with
  | O => fail OutOfFuel
  | S fuel =>
    let* r := split_level n child xikey height split_type c in
    match r with
    | (Some (n', child', xikey'), c) =>
      split_loop fuel n' child' xikey' (Word.addw 32 height 1) split_type c
    | (None, c) => mret c
    end
  end.

(** The first lines of [make_split]: with room in the leaf, exchange free slots
    so that the back one is not slot 0. *)
Definition make_split_rearrange (c : tcursor) : M (option tcursor * tcursor) :=
  let* l := get_leaf (tc_n c) in
  if leaf_size l <? LW then
    let perm := l_permutation l in
    let perm := KPermuter.exchange LW perm (KPermuter.size perm) (LW - 1) in
    let p := KPermuter.back LW perm in
    let c := set_tc_kx (KPos (kp_i (tc_kx c)) p) c in
    if negb (p =? 0) then
      upd_leaf (tc_n c) (set_l_permutation perm) ;;
      upd_leaf_res (tc_n c) (fun l => leaf_assign l p (tc_ka c)) ;;
      mret (Some c, c)
    else mret (None, c)
  else mret (None, c).

Definition make_split (c : tcursor) : M (bool * tcursor) :=
  let* r := make_split_rearrange c in
  match r with
  | (Some c, _) => mret (false, c)
  | (None, c) =>
    let n := tc_n c in
    let* l := get_leaf n in
    let* child := leaf_make (ksuf_used_capacity l) (phantom_epoch l) in
    Node.assign_version child n ;;
    let* s := leaf_split_into n child (tc_ka c) (kp_i (tc_kx c)) in
    let (xikey, split_type) := (s : Z * Z) in
    let* c := split_loop np_fuel n child xikey 0 split_type c in
    mret (false, c)
  end.
End split.
