(* ===== verification/Insert.v ===== *)
(** * Insertion (masstree_insert.hh)

    [find_insert] finds or makes room for a key, [create_layer],
    [create_layer_with_meta] and [attach_existing_layer] insert a layer slot for
    a directory, [finish] publishes an insertion or a removal.  Removal itself is
    the parameter [finish_remove] of [finish] here; Remove.v supplies it. *)

From S2P Require Export Split.
From S2P Require Import NodeVersion KPermuter StringBag.

#[local] Open Scope Z_scope.
#[local] Open Scope lhm_scope.

#[local] Existing Instance np_config.

Section insert.
Context {P : nodeparams}.

Abbreviation NV := nodeversion_type.
Abbreviation LW := leaf_width.

(** ** [make_new_layer] *)

(** The loop that makes a twig of one-key layers while the keys agree: the
    head and tail of the twig, the two keys and their comparison. *)
Fixpoint make_twig (fuel : nat) (c : tcursor) (twig_head twig_tail : loc) (oka : key) (kcmp : Z) :
    M (tcursor * loc * loc * key * Z) :=
  match fuel with
  | O => fail OutOfFuel
  | S fuel =>
    if negb (kcmp =? 0) then mret (c, twig_head, twig_tail, oka, kcmp)
    else
      let* nl := leaf_make_root 0 (Some twig_tail) in
      upd_leaf_res nl (fun l => leaf_assign_initialize_for_layer l 0 oka) ;;
      let* twig_head :=
        (if negb (bool_decide (twig_head = tc_n c)) then
           upd_leaf_res twig_tail (fun l => leaf_set_lv l 0 (lv_layer (Some nl))) ;; mret twig_head
         else mret nl) in
      upd_leaf nl (set_l_permutation (make_sorted LW 1)) ;;
      let* v := full_unlocked_version_value nl in
      let c := add_new_node (nl, v) c in
      let oka := Key.shift oka in
      let c := set_tc_ka (Key.shift (tc_ka c)) c in
      make_twig fuel c twig_head nl oka (key_compare_key oka (tc_ka c))
  end.

(** The estimate of the space the suffixes of the new leaf need. *)
Definition new_layer_ksufsize (ka oka : key) : Z :=
  if has_suffix ka || has_suffix oka then
    (Z.max 0 (Key.suffix_length ka) + Z.max 0 (Key.suffix_length oka)) * (LW / 2) + overhead 1 LW
  else 0.

Definition make_new_layer (c : tcursor) : M (bool * tcursor) :=
  let n := tc_n c in
  let p := kp_p (tc_kx c) in
  let* l := get_leaf n in
  let* s := lift (ksuf l p) in
  let oka := key_of_str s in
  let c := set_tc_ka (Key.shift (tc_ka c)) c in
  let* t := make_twig np_fuel c n n oka (key_compare_key oka (tc_ka c)) in
  let '(c, twig_head, twig_tail, oka, kcmp) := (t : tcursor * loc * loc * key * Z) in
  let ka := tc_ka c in
  let* nl := leaf_make_root (new_layer_ksufsize ka oka) (Some twig_tail) in
  upd_leaf_res nl (fun l => leaf_assign_initialize l 0 (if kcmp <? 0 then oka else ka)) ;;
  upd_leaf_res nl (fun l => leaf_assign_initialize l 1 (if kcmp <? 0 then ka else oka)) ;;
  let* l := get_leaf n in
  let* olv := mget (l_lv l) p in
  upd_leaf_res nl (fun l => leaf_set_lv l (if 0 <? kcmp then 1 else 0) olv) ;;
  lock_self nl ;;
  upd_leaf nl (set_l_permutation
    (if kcmp <? 0 then make_sorted LW 1 else remove_to_back LW (make_sorted LW 2) 0)) ;;
  Node.mark_insert n ;;
  (if negb (bool_decide (twig_tail = n)) then
     upd_leaf_res twig_tail (fun l => leaf_set_lv l 0 (lv_layer (Some nl)))
   else mret tt) ;;
  upd_leaf_res n (fun l => leaf_set_lv l p
    (lv_layer (Some (if negb (bool_decide (twig_head = n)) then twig_head else nl)))) ;;
  upd_leaf_res n (fun l => leaf_set_keylenx l p layer_keylenx) ;;
  let* v := full_unlocked_version_value n in
  let c := set_tc_updated_v v c in
  Node.unlock n ;;
  let i := if kcmp <? 0 then 1 else 0 in
  mret (false, set_tc_kx (KPos i i) (set_tc_n nl c)).

(** ** [find_insert] *)

(** [if (n_->modstate_ != modstate_insert) ...] *)
Definition enter_insert_state (n : loc) : M unit :=
  let* l := get_leaf n in
  if negb (l_modstate l =? modstate_insert) then
    check (l_modstate l =? modstate_remove) ;;
    Node.mark_insert n ;;
    upd_leaf n (set_l_modstate modstate_insert)
  else mret tt.

(** Insert into the leaf when it has room and the free slot is usable, else
    split; the flag is [make_split]'s result. *)
Definition assign_or_split (c : tcursor) : M (bool * tcursor) :=
  let n := tc_n c in
  let* l := get_leaf n in
  if leaf_size l <? LW then
    let p := back LW (l_permutation l) in
    let c := set_tc_kx (KPos (kp_i (tc_kx c)) p) c in
    if negb (p =? 0) || negb (parent_exists (l_prev l)) || (ikey_bound l =? k_ikey (tc_ka c)) then
      upd_leaf_res n (fun l => leaf_assign l p (tc_ka c)) ;;
      mret (false, c)
    else make_split c
  else make_split c.

Definition find_insert (c : tcursor) : M (bool * tcursor) :=
  let* r := find_locked c in
  let c := snd r in
  let* v := full_unlocked_version_value (tc_n c) in
  let c := set_tc_original (tc_n c) v c in
  if negb (tc_state c =? 0) then mret (true, c)
  else
    let c := set_tc_state 2 c in
    if 0 <=? kp_p (tc_kx c) then make_new_layer c
    else
      enter_insert_state (tc_n c) ;;
      assign_or_split c.

(** ** [finish_insert] and [finish] *)

Definition finish_insert (c : tcursor) : M unit :=
  let* l := get_leaf (tc_n c) in
  let perm := l_permutation l in
  check (back LW perm =? kp_p (tc_kx c)) ;;
  upd_leaf (tc_n c) (set_l_permutation (fst (insert_from_back LW perm (kp_i (tc_kx c))))).

(** The end of [finish] and of the layer operations: record the version the
    leaf will have and unlock it. *)
Definition finish_unlock (c : tcursor) : M tcursor :=
  let n := tc_n c in
  let* v := full_unlocked_version_value n in
  let c := if bool_decide (n = tc_original_n c) then set_tc_updated_v v c else add_new_node (n, v) c in
  Node.unlock n ;;
  mret c.

Definition finish (finish_remove : tcursor -> M bool) (c : tcursor) (state : Z) : M tcursor :=
  if (state <? 0) && (tc_state c =? 1) then
    let* removed := finish_remove c in
    if removed then mret c else finish_unlock c
  else if (0 <? state) && (tc_state c =? 2) then
    finish_insert c ;;
    finish_unlock c
  else finish_unlock c.

(** ** Layer slots *)

(** The common first part of the three layer operations: stop at the slot of
    the current layer and, when it is free, prepare it.  The result is the
    matching slot's layer ([inl]), a failed split ([inr None]) or the cursor at
    the prepared slot. *)
Inductive slot_result :=
  | slot_present (layer : ptr) (c : tcursor)
  | slot_split_failed (c : tcursor)
  | slot_ready (c : tcursor).

Definition prepare_slot (c : tcursor) : M slot_result :=
  let* r := find_locked_edge c in
  let c := snd r in
  let n := tc_n c in
  let* v := full_unlocked_version_value n in
  let c := set_tc_original n v c in
  if negb (tc_state c =? 0) then
    let* layer := (if tc_state c <? 0 then tc_layer_root c else mret None) in
    let* v := full_unlocked_version_value n in
    let c := set_tc_updated_v v c in
    Node.unlock n ;;
    mret (slot_present layer c)
  else
    let c := set_tc_state 2 c in
    enter_insert_state n ;;
    let* s := assign_or_split c in
    let (failed, c) := (s : bool * tcursor) in
    if failed then Node.unlock (tc_n c) ;; mret (slot_split_failed c)
    else mret (slot_ready c).

(** Make the prepared slot a layer slot pointing at [root] and publish it. *)
Definition publish_layer (c : tcursor) (root : ptr) : M tcursor :=
  let n := tc_n c in
  upd_leaf_res n (fun l => leaf_set_lv l (kp_p (tc_kx c)) (lv_layer root)) ;;
  upd_leaf_res n (fun l => leaf_set_keylenx l (kp_p (tc_kx c)) layer_keylenx) ;;
  finish_insert c ;;
  finish_unlock c.

(** [create_layer(layer_root, ti)]: success, the layer root and the cursor. *)
Definition create_layer (c : tcursor) : M (bool * ptr * tcursor) :=
  let* r := prepare_slot c in
  match r with
  | slot_present layer c => mret (false, layer, c)
  | slot_split_failed c => mret (false, None, c)
  | slot_ready c =>
    let* nl := leaf_make_root 0 (Some (tc_n c)) in
    let* c := publish_layer c (Some nl) in
    mret (true, Some nl, c)
  end.

Definition create_layer_with_meta (c : tcursor) (meta : directory_meta) : M (bool * ptr * tcursor) :=
  let* r := prepare_slot c in
  match r with
  | slot_present layer c => mret (false, layer, c)
  | slot_split_failed c => mret (false, None, c)
  | slot_ready c =>
    let* nl := leaf_make_root_with_meta 0 (Some (tc_n c)) meta in
    let* c := publish_layer c (Some nl) in
    mret (true, Some nl, c)
  end.

Definition attach_existing_layer (c : tcursor) (layer_root : ptr) : M (bool * tcursor) :=
  let* r := prepare_slot c in
  match r with
  | slot_present _ c => mret (false, c)
  | slot_split_failed c => mret (false, c)
  | slot_ready c =>
    let* c := publish_layer c layer_root in
    mret (true, c)
  end.
End insert.
