(* ===== verification/Remove.v ===== *)
(** * Removal and garbage collection (masstree_remove.hh)

    [finish_remove] takes a key out of a leaf and, when the leaf is left empty,
    [remove_leaf] takes the leaf out of its layer; [gc_layer] shrinks and removes
    empty layers from an RCU callback; [destroy] frees a whole tree. *)

From S2P Require Export Insert.
From S2P Require Import NodeVersion KPermuter CircularInt.

#[local] Open Scope Z_scope.
#[local] Open Scope lhm_scope.

#[local] Existing Instance np_config.

Section remove.
Context {P : nodeparams}.

Abbreviation NV := nodeversion_type.
Abbreviation LW := leaf_width.

(** Writes to one child pointer or one key of an internode. *)
Definition set_child (n : loc) (p : Z) (c : ptr) : M unit :=
  let* i := get_internode n in
  let* cs := mset (i_child i) p c in
  put_node n (NInternode (set_i_child cs i)).
Definition set_internode_ikey (n : loc) (p ikey : Z) : M unit :=
  let* i := get_internode n in
  let* ks := mset (i_ikey0 i) p ikey in
  put_node n (NInternode (set_i_ikey0 ks i)).

(** ** [redirect] *)

Fixpoint redirect_loop (fuel : nat) (n : loc) (ikey replacement_ikey kp : Z) : M unit :=
  match fuel with
  | O => fail OutOfFuel
  | S fuel =>
    let* p := locked_parent n in
    (if 0 <=? kp then Node.unlock n else mret tt) ;;
    let* p := deref p in
    let* i := get_internode p in
    let* kp := lift (internode_upper_ikey ikey i) in
    let* c := mget (i_child i) kp in
    check (bool_decide (c = Some n)) ;;
    (if 0 <? kp then set_internode_ikey p (kp - 1) replacement_ikey else mret tt) ;;
    let* i := get_internode p in
    let* c0 := mget (i_child i) 0 in
    if (kp =? 0) || ((kp =? 1) && negb (parent_exists c0)) then
      redirect_loop fuel p ikey replacement_ikey kp
    else Node.unlock p
  end.
Definition redirect (n : loc) (ikey replacement_ikey : Z) : M unit :=
  redirect_loop np_fuel n ikey replacement_ikey (-1).

(** ** [remove_leaf] *)

(** Keep the phantom epoch of the leaf that takes over: with no other thread
    the first compare-and-swap succeeds and the link does not move. *)
Definition hand_over_epoch (leaf prev : loc) : M unit :=
  if need_phantom_epoch then
    let* l := get_leaf leaf in
    let* pl := get_leaf prev in
    if less 64 (phantom_epoch pl) (phantom_epoch l)
    then upd_leaf prev (set_l_phantom_epoch (phantom_epoch l))
    else mret tt
  else mret tt.

(** One round of the loop that removes [n] from its parent, putting
    [replacement] in its place; the parent, whether the loop goes on, the next
    replacement and the next ikey. *)
Definition remove_level (n : loc) (ikey : Z) (replacement : ptr) : M (loc * bool * ptr * Z) :=
  let* p := locked_parent n in
  let* p := deref p in
  Node.mark_insert p ;;
  let* d := Node.deleted p in
  check (negb d) ;;
  let* i := get_internode p in
  let* kp := lift (internode_upper_ikey ikey i) in
  check ((kp =? 0) || (internode_ikey i (kp - 1) <=? ikey)) ;;
  let* c := mget (i_child i) kp in
  check (bool_decide (c = Some n)) ;;
  set_child p kp replacement ;;
  (match replacement with
   | Some r => set_parent r (Some p)
   | None =>
     if 0 <? kp then
       let* i := get_internode p in
       let* i' := lift (shift_down i (kp - 1) kp (i_nkeys i - kp)) in
       put_node p (NInternode (set_i_nkeys (Word.subw 8 (i_nkeys i) 1) i'))
     else mret tt
   end) ;;
  let* i := get_internode p in
  let* c0 := mget (i_child i) 0 in
  let* ikey :=
    (if (kp <=? 1) && (0 <? i_nkeys i) && negb (parent_exists c0) then
       let* k0 := mget (i_ikey0 i) 0 in
       redirect p ikey k0 ;;
       mret k0
     else mret ikey) in
  Node.unlock n ;;
  let* i := get_internode p in
  let* r := Node.is_root p in
  if negb (i_nkeys i =? 0) || r then mret (p, false, None, ikey)
  else
    Node.mark_deleted p ;;
    internode_deallocate_rcu p ;;
    let* c0 := mget (i_child i) 0 in
    set_child p 0 None ;;
    mret (p, true, c0, ikey).

Fixpoint remove_loop (fuel : nat) (n : loc) (ikey : Z) (replacement : ptr) : M unit :=
  match fuel with
  | O => fail OutOfFuel
  | S fuel =>
    let* r := remove_level n ikey replacement in
    let '(p, continue, replacement, ikey) := (r : loc * bool * ptr * Z) in
    if continue then remove_loop fuel p ikey replacement
    else Node.unlock p
  end.

(** [remove_leaf(leaf, root, prefix, ti)]: false when the leaf stays, because it
    is the leftmost of its layer. *)
Definition remove_leaf (leaf root : loc) (prefix : list Z) : M bool :=
  let* l := get_leaf leaf in
  match l_prev l with
  | None =>
    (if negb (parent_exists (l_next l) || l_next_marked l) && negb (bool_decide (prefix = [])) then
       rcu_register (gc_layer_callback (Some root) prefix)
     else mret tt) ;;
    mret false
  | Some prev =>
    Node.mark_deleted leaf ;;
    leaf_deallocate_rcu leaf ;;
    hand_over_epoch leaf prev ;;
    unlink leaf ;;
    let* l := get_leaf leaf in
    remove_loop np_fuel leaf (ikey_bound l) None ;;
    mret true
  end.

(** ** [finish_remove] and [remove_layer_edge] *)

Definition finish_remove (c : tcursor) : M bool :=
  let n := tc_n c in
  let* l := get_leaf n in
  (if l_modstate l =? modstate_insert then
     Node.mark_insert n ;;
     upd_leaf n (set_l_modstate modstate_remove)
   else mret tt) ;;
  let* l := get_leaf n in
  let perm := KPermuter.remove LW (l_permutation l) (kp_i (tc_kx c)) in
  upd_leaf n (set_l_permutation perm) ;;
  if negb (KPermuter.size perm =? 0) then mret false
  else remove_leaf n (tc_root c) (prefix_string (tc_ka c)).

(** [tcursor::finish] with the removal of this file. *)
Definition tcursor_finish (c : tcursor) (state : Z) : M tcursor := finish finish_remove c state.

Definition remove_layer_edge (c : tcursor) : M bool :=
  let n := tc_n c in
  check (tc_state c <? 0) ;;
  let* l := get_leaf n in
  check (is_layer l (kp_p (tc_kx c))) ;;
  let* removed_leaf := finish_remove c in
  (if negb removed_leaf then Node.unlock n else mret tt) ;;
  mret true.

(** ** [gc_layer] *)

Definition leaf_set_slot_layer (n : loc) (p : Z) (x : ptr) : M unit :=
  upd_leaf_res n (fun l => leaf_set_lv l p (lv_layer x)).

(** [if (in->size() == 1 && in->child_[0] && in->child_[1])]: the redundant root
    whose left leaf is empty. *)
Inductive gc_step :=
  | gc_continue       (* [continue]: look at the slot again *)
  | gc_unlock_layer   (* [goto unlock_layer] *)
  | gc_return_false   (* [return false] *)
  | gc_fall           (* on to the next statement *)
  | gc_leaf           (* [break]: the layer is a single leaf *).

Definition gc_normalize (inn : loc) : M gc_step :=
  let* i := get_internode inn in
  let* c0 := mget (i_child i) 0 in
  let* c1 := mget (i_child i) 1 in
  match c0, c1 with
  | Some left_leaf, Some only_child =>
    if i_nkeys i =? 1 then
      let* lf := Node.isleaf left_leaf in
      if negb lf then mret gc_unlock_layer
      else
        lock_self left_leaf ;;
        let* l := get_leaf left_leaf in
        if (leaf_size l =? 0) && negb (parent_exists (l_prev l)) &&
           negb (parent_exists (l_next l) || l_next_marked l) then
          let* b := Node.try_lock only_child in
          if negb b then
            Node.unlock left_leaf ;; Node.unlock inn ;; mret gc_continue
          else
            Node.mark_deleted left_leaf ;;
            set_child inn 0 (Some only_child) ;;
            set_child inn 1 None ;;
            upd_internode inn (set_i_nkeys 0) ;;
            set_parent only_child (Some inn) ;;
            Node.unlock only_child ;;
            Node.unlock left_leaf ;;
            leaf_deallocate_rcu left_leaf ;;
            mret gc_fall
        else
          Node.unlock left_leaf ;; mret gc_unlock_layer
    else mret gc_fall
  | _, _ => mret gc_fall
  end.

(** Replace the redundant directory root [inn] by a copy of its only child that
    carries the metadata. *)
Definition gc_promote_copy (n : loc) (p : Z) (inn child : loc) : M gc_step :=
  let* meta := node_directory_meta inn in
  let* meta := deref meta in
  let* lf := Node.isleaf child in
  if lf then
    let* cl := get_leaf child in
    if parent_exists (l_prev cl) || parent_exists (l_next cl) || l_next_marked cl then
      Node.unlock child ;; Node.unlock inn ;; mret gc_return_false
    else
      let* new_root := leaf_clone_root_with_meta child meta in
      leaf_set_slot_layer n p (Some new_root) ;;
      Node.unlock child ;;
      Node.mark_split inn ;;
      set_parent inn (Some new_root) ;;
      Node.unlock inn ;;
      leaf_deallocate_rcu child ;;
      internode_deallocate_rcu inn ;;
      mret gc_return_false
  else
    let* new_root := internode_clone_root_with_meta child meta in
    leaf_set_slot_layer n p (Some new_root) ;;
    Node.unlock child ;;
    Node.mark_split inn ;;
    set_parent inn (Some new_root) ;;
    Node.unlock inn ;;
    internode_deallocate_rcu child ;;
    internode_deallocate_rcu inn ;;
    mret gc_return_false.

(** Promote the only child of a root without metadata. *)
Definition gc_promote (n : loc) (p : Z) (inn child : loc) : M gc_step :=
  make_layer_root child ;;
  leaf_set_slot_layer n p (Some child) ;;
  Node.unlock child ;;
  Node.mark_split inn ;;
  set_parent inn (Some child) ;;
  Node.unlock inn ;;
  internode_deallocate_rcu inn ;;
  mret gc_continue.

(** One round of "remove redundant internode layers"; the layer it looked at. *)
Definition gc_round (n : loc) (p : Z) : M (loc * gc_step) :=
  let* l := get_leaf n in
  let* lv := mget (l_lv l) p in
  let* layer := layer_of lv in
  let* r := Node.is_root layer in
  if negb r then
    let* x := maybe_parent layer in
    leaf_set_slot_layer n p (Some x) ;;
    mret (layer, gc_continue)
  else
    let* lf := Node.isleaf layer in
    if lf then mret (layer, gc_leaf)
    else
      let* i := get_internode layer in
      if 1 <? internode_size i then mret (layer, gc_return_false)
      else
        lock_self layer ;;
        let* r := Node.is_root layer in
        let* i := get_internode layer in
        if negb r || (1 <? internode_size i) then mret (layer, gc_unlock_layer)
        else
          let* s := gc_normalize layer in
          match s with
          | gc_fall =>
            let* i := get_internode layer in
            let* c := mget (i_child i) 0 in
            match c with
            | None => mret (layer, gc_unlock_layer)
            | Some child =>
              let* b := Node.try_lock child in
              if negb b then Node.unlock layer ;; mret (layer, gc_continue)
              else
                let* hm := Node.has_directory_meta layer in
                let* s := (if hm then gc_promote_copy n p layer child
                           else gc_promote n p layer child) in
                mret (layer, s)
            end
          | s => mret (layer, s)
          end.

(** The single leaf that is left of the layer. *)
Definition gc_leaf_layer (n lf : loc) : M bool :=
  let* l := get_leaf lf in
  if 0 <? leaf_size l then mret false
  else
    lock_self lf ;;
    let* r := Node.is_root lf in
    let* l := get_leaf lf in
    if negb r || (0 <? leaf_size l) then Node.unlock lf ;; mret false
    else
      let* hm := Node.has_directory_meta lf in
      if hm then Node.unlock lf ;; mret false
      else
        check (negb (parent_exists (l_prev l)) && negb (parent_exists (l_next l) || l_next_marked l)) ;;
        let* d := Node.deleted lf in
        check (negb d) ;;
        check (negb (deleted_layer l)) ;;
        let* nl := get_leaf n in
        (if need_phantom_epoch && less 64 (l_phantom_epoch nl) (l_phantom_epoch l)
         then upd_leaf n (set_l_phantom_epoch (l_phantom_epoch l)) else mret tt) ;;
        upd_leaf lf mark_deleted_layer ;;
        Node.unlock lf ;;
        leaf_deallocate_rcu lf ;;
        mret true.

Fixpoint gc_loop (fuel : nat) (n : loc) (p : Z) : M bool :=
  match fuel with
  | O => fail OutOfFuel
  | S fuel =>
    let* r := gc_round n p in
    match r with
    | (layer, gc_leaf) => gc_leaf_layer n layer
    | (layer, gc_unlock_layer) => Node.unlock layer ;; mret false
    | (_, gc_return_false) => mret false
    | (_, gc_continue) | (_, gc_fall) => gc_loop fuel n p
    end
  end.

Definition gc_layer (c : tcursor) : M (bool * tcursor) :=
  let* r := find_locked c in
  let c := snd r in
  let n := tc_n c in
  let* d := Node.deleted n in
  let* l := get_leaf n in
  check (negb d && negb (deleted_layer l)) ;;
  if has_suffix (tc_ka c) then mret (false, c)
  else
    let i := kp_i (tc_kx c) + (if has_value c then 1 else 0) in
    let c := set_tc_kx (KPos i (kp_p (tc_kx c))) c in
    if leaf_size l <=? i then mret (false, c)
    else
      let p := KPermuter.get (l_permutation l) i in
      let c := set_tc_kx (KPos i p) c in
      if negb (leaf_ikey l p =? k_ikey (tc_ka c)) || negb (is_layer l p) then mret (false, c)
      else
        let* b := gc_loop np_fuel n p in
        mret (b, c).

(** ** RCU callbacks *)

Fixpoint canonical_root (fuel : nat) (n : loc) : M loc :=
  match fuel with
  | O => fail OutOfFuel
  | S fuel =>
    let* r := Node.is_root n in
    if r then mret n
    else let* x := maybe_parent n in canonical_root fuel x
  end.

(** [gc_layer_rcu_callback::operator()] *)
Definition run_gc_layer_callback (root : loc) (prefix : list Z) : M unit :=
  let* root := canonical_root np_fuel root in
  let* d := Node.deleted root in
  if d then mret tt
  else
    let lp := cursor_node root prefix (Z.of_nat (length prefix)) in
    let* r := gc_layer lp in
    let (do_remove, lp) := (r : bool * tcursor) in
    if negb do_remove then Node.unlock (tc_n lp)
    else
      let* removed := finish_remove lp in
      if negb removed then Node.unlock (tc_n lp) else mret tt.

(** [destroy_rcu_callback]: the work queue is threaded through the [parent_]
    fields; [tail] is the node whose link is [*tailp], [None] for [&workq]. *)
Record workq := WorkQ {
  wq_head : ptr;
  wq_tail : ptr
}.

Definition enqueue (n : loc) (q : workq) : M workq :=
  match wq_tail q with
  | None => mret (WorkQ (Some n) (Some n))
  | Some t => set_parent t (Some n) ;; mret (WorkQ (wq_head q) (Some n))
  end.

Fixpoint enqueue_layers (cnt : nat) (l : leaf) (i : Z) (q : workq) : M workq :=
  match cnt with
  | O => mret q
  | S cnt =>
    let p := KPermuter.get (l_permutation l) i in
    let* q := (if is_layer l p then
        let* lv := mget (l_lv l) p in
        let* x := layer_of lv in
        enqueue x q
      else mret q) in
    enqueue_layers cnt l (i + 1) q
  end.

Fixpoint enqueue_children (cs : list ptr) (q : workq) : M workq :=
  match cs with
  | [] => mret q
  | c :: cs =>
    let* q := (match c with Some x => enqueue x q | None => mret q end) in
    enqueue_children cs q
  end.

Fixpoint destroy_loop (fuel : nat) (q : workq) : M unit :=
  match fuel with
  | O => fail OutOfFuel
  | S fuel =>
    match wq_head q with
    | None => mret tt
    | Some n =>
      let* next := parent n in
      let q := if negb (bool_decide (wq_tail q = Some n)) then WorkQ next (wq_tail q)
               else WorkQ None None in
      let* lf := Node.isleaf n in
      if lf then
        let* l := get_leaf n in
        let* q := enqueue_layers (Z.to_nat (leaf_size l)) l 0 q in
        leaf_deallocate n ;;
        destroy_loop fuel q
      else
        let* i := get_internode n in
        let* q := enqueue_children (take (Z.to_nat (internode_size i + 1)) (i_child i)) q in
        internode_deallocate n ;;
        destroy_loop fuel q
    end
  end.

Definition run_destroy_callback (root : loc) (count : Z) : M unit :=
  if count + 1 =? 1 then
    let* root := canonical_root np_fuel root in
    lock_self root ;;
    Node.mark_deleted_tree root ;;
    Node.unlock root ;;
    rcu_register (destroy_callback (Some root) 1)
  else
    let* q := enqueue root (WorkQ None None) in
    destroy_loop np_fuel q.

Definition run_callback (cb : rcu_callback) : M unit :=
  match cb with
  | gc_layer_callback root prefix => let* r := deref root in run_gc_layer_callback r prefix
  | destroy_callback root count => let* r := deref root in run_destroy_callback r count
  end.

(** [basic_table::destroy] *)
Definition destroy : M unit :=
  let* r := table_root in
  match r with
  | Some x => rcu_register (destroy_callback (Some x) 0) ;; set_table_root None
  | None => mret tt
  end.
End remove.
