(* ===== verification/Scan.v ===== *)
(** * Range scans (masstree_scan.hh)

    [basic_table::scan] and [rscan]: a state machine that walks the trie of
    layers in key order, rebuilding each key in place in a fixed buffer.  The
    direction is an instance of the class [ScanHelper]; the scanner is a state
    with the two callbacks of the source. *)

From S2P Require Export Get.
From S2P Require Import NodeVersion KPermuter.

#[local] Open Scope Z_scope.
#[local] Open Scope lhm_scope.

#[local] Existing Instance np_config.

Section scan_helpers.
Context {P : nodeparams}.

(** [N::bound_type::lower_by(k, *n, *n)] on a stack element: its permutation
    snapshot and its leaf's keys. *)
Definition scan_lower (k : key) (e : cursor_view) : res key_indexed_position :=
  bound_lower_by (fun a c p => compare_key a (cv_leaf c) p) leaf_width bound_method_of k e.

(** What [scan] asks of its helper; [H] is the helper's own state. *)
Class ScanHelper (H : Type) := {
  initial_ksuf_match : H -> Z -> bool -> bool;
  is_duplicate : H -> key -> Z -> Z -> bool;
  lower : H -> key -> cursor_view -> res Z;
  lower_with_position : H -> key -> cursor_view -> res key_indexed_position;
  mark_key_complete : H -> H;
  next_rank : H -> Z -> Z;
  advance : H -> leaf -> key -> res (ptr * key);
  stable_leaf : H -> loc -> key -> M (loc * Z);
  scan_shift_clear : H -> key -> key * H
}.

(** ** [forward_scan_helper] *)

Inductive forward_scan_helper := Forward.

Definition forward_initial_ksuf_match (ksuf_compare : Z) (emit_equal : bool) : bool :=
  (0 <? ksuf_compare) || ((ksuf_compare =? 0) && emit_equal).
Definition forward_is_duplicate (k : key) (ikey keylenx : Z) : bool := 0 <=? key_compare k ikey keylenx.
Definition forward_lower (k : key) (e : cursor_view) : res Z :=
  let? kx := scan_lower k e in Ok (kp_i kx).
Definition forward_stable (n : loc) : M (loc * Z) := let* v := Node.stable n in mret (n, v).

#[export] Instance forward_helper : ScanHelper forward_scan_helper := {
  initial_ksuf_match _ := forward_initial_ksuf_match;
  is_duplicate _ := forward_is_duplicate;
  lower _ := forward_lower;
  lower_with_position _ := scan_lower;
  mark_key_complete h := h;
  next_rank _ ki := ki + 1;
  advance _ l k := Ok (safe_next l, k);
  stable_leaf _ n _ := forward_stable n;
  scan_shift_clear h k := (shift_clear k, h)
}.

(** ** [reverse_scan_helper] *)

Record reverse_scan_helper := Reverse { upper_bound_ : bool }.

Definition reverse_initial_ksuf_match (ksuf_compare : Z) (emit_equal : bool) : bool :=
  (ksuf_compare <? 0) || ((ksuf_compare =? 0) && emit_equal).
Definition reverse_is_duplicate (h : reverse_scan_helper) (k : key) (ikey keylenx : Z) : bool :=
  (key_compare k ikey keylenx <=? 0) && negb (upper_bound_ h).
Definition reverse_lower_with_position (k : key) (e : cursor_view) : res key_indexed_position :=
  let? kx := scan_lower k e in
  Ok (KPos (kp_i kx - (if kp_p kx <? 0 then 1 else 0)) (kp_p kx)).
Definition reverse_lower (h : reverse_scan_helper) (k : key) (e : cursor_view) : res Z :=
  if upper_bound_ h then Ok (KPermuter.size (cv_perm e) - 1)
  else
    let? kx := scan_lower k e in
    Ok (kp_i kx - (if kp_p kx <? 0 then 1 else 0)).
Definition reverse_advance (l : leaf) (k : key) : res (ptr * key) :=
  let? k := assign_store_ikey (ikey_bound l) k in
  Ok (l_prev l, assign_store_length 0 k).

Fixpoint reverse_stable (fuel : nat) (n : loc) (k : key) : M (loc * Z) :=
  match fuel with
  | O => fail OutOfFuel
  | S fuel =>
    let* v := Node.stable n in
    let* l := get_leaf n in
    match safe_next l with
    | None => mret (n, v)
    | Some next =>
      let* nl := get_leaf next in
      let cmp := compare (k_ikey k) (ikey_bound nl) in
      if (cmp <? 0) || ((cmp =? 0) && (k_len k =? 0)) then mret (n, v)
      else reverse_stable fuel next k
    end
  end.

#[export] Instance reverse_helper : ScanHelper reverse_scan_helper := {
  initial_ksuf_match _ := reverse_initial_ksuf_match;
  is_duplicate := reverse_is_duplicate;
  lower := reverse_lower;
  lower_with_position _ := reverse_lower_with_position;
  mark_key_complete _ := Reverse false;
  next_rank _ ki := ki - 1;
  advance _ := reverse_advance;
  stable_leaf _ n k := reverse_stable np_fuel n k;
  scan_shift_clear _ k := (shift_clear_reverse k, Reverse true)
}.
End scan_helpers.

Section scan.
Context {P : nodeparams} {H : Type} `{!ScanHelper H}.

Abbreviation NV := nodeversion_type.

(** ** [scanstackelt] *)

Record scanstackelt := Stack {
  ss_root : loc;
  ss_n : loc;
  ss_v : Z;
  ss_perm : Z;
  ss_ki : Z;
  ss_node_stack : list loc    (* the back of [node_stack_] is the head *)
}.

Inductive scan_state := scan_emit | scan_find_next | scan_down | scan_up | scan_retry.

(** The scan's own variables: helper, key, stack element and current entry. *)
Record scan_vars := ScanVars {
  sv_h : H;
  sv_ka : key;
  sv_stack : scanstackelt;
  sv_entry : leafvalue
}.

Definition ss_kp (s : scanstackelt) : Z :=
  if (0 <=? ss_ki s) && (ss_ki s <? KPermuter.size (ss_perm s))
  then KPermuter.get (ss_perm s) (ss_ki s) else -1.

Definition ss_size (s : scanstackelt) : Z := KPermuter.size (ss_perm s).
Definition ss_full_version_value (s : scanstackelt) : Z :=
  Word.addw (vwidth NV) (Word.shlw (vwidth NV) (version_value (ss_v s)) size_bits) (ss_size s).

(** [node_stack_.push_back(root_); node_stack_.push_back(n_); root_ = entry.layer()] *)
Definition push_layer (s : scanstackelt) (entry : leafvalue) : M scanstackelt :=
  let* r := layer_of entry in
  mret (Stack r (ss_n s) (ss_v s) (ss_perm s) (ss_ki s) (ss_n s :: ss_root s :: ss_node_stack s)).

(** [find_initial]: the label [retry_node] carries the leaf and version. *)
Fixpoint find_initial (fuel : nat) (forward : option (loc * Z)) (emit_equal : bool)
    (x : scan_vars) : M (scan_state * scan_vars) :=
  match fuel with
  | O => fail OutOfFuel
  | S fuel =>
    let ka := sv_ka x in
    let s := sv_stack x in
    let* nv := (match forward with Some y => mret y | None => reach_leaf (ss_root s) ka end) in
    let (n, v) := (nv : loc * Z) in
    if NodeVersion.deleted NV v then find_initial fuel None emit_equal x
    else
      let* l := get_leaf n in
      let perm := l_permutation l in
      let* kx := lift (lower_with_position (sv_h x) ka (View perm l)) in
      let p := kp_p kx in
      let keylenx := leaf_keylenx l p in
      let* entry := (if 0 <=? p then mget (l_lv l) p else mret (sv_entry x)) in
      let* suffix :=
        (if (0 <=? p) && keylenx_has_ksuf keylenx then
           let* sf := lift (ksuf l p) in
           if Z.of_nat (length sf) <=? masstree_maxkeylen then mret sf else fail OutOfBounds
         else mret []) in
      let s := Stack (ss_root s) n v perm (ss_ki s) (ss_node_stack s) in
      let* hc := Node.has_changed n v in
      if hc then
        let* nv' := advance_to_key n ka v in
        find_initial fuel (Some nv') emit_equal (ScanVars (sv_h x) ka s entry)
      else
        let s := Stack (ss_root s) n v perm (kp_i kx) (ss_node_stack s) in
        let skip := (scan_find_next,
          ScanVars (sv_h x) ka
            (Stack (ss_root s) n v perm (next_rank (sv_h x) (kp_i kx)) (ss_node_stack s)) entry) in
        if 0 <=? p then
          if keylenx_is_layer keylenx then
            let* s' := push_layer s entry in
            mret (scan_down, ScanVars (sv_h x) ka s' entry)
          else if keylenx_has_ksuf keylenx then
            let ksuf_compare := String_compare suffix (Key.suffix ka) in
            if initial_ksuf_match (sv_h x) ksuf_compare emit_equal then
              let* r := lift (assign_store_suffix suffix ka) in
              mret (scan_emit, ScanVars (sv_h x) (assign_store_length (fst r) (snd r)) s entry)
            else mret skip
          else if emit_equal then mret (scan_emit, ScanVars (sv_h x) ka s entry)
          else mret skip
        else mret (scan_find_next, ScanVars (sv_h x) ka s entry)
  end.

Fixpoint find_retry (fuel : nat) (x : scan_vars) : M (scan_state * scan_vars) :=
  match fuel with
  | O => fail OutOfFuel
  | S fuel =>
    let s := sv_stack x in
    let* nv := reach_leaf (ss_root s) (sv_ka x) in
    let (n, v) := (nv : loc * Z) in
    if NodeVersion.deleted NV v then find_retry fuel x
    else
      let* l := get_leaf n in
      let perm := l_permutation l in
      let* ki := lift (lower (sv_h x) (sv_ka x) (View perm l)) in
      mret (scan_find_next,
            ScanVars (sv_h x) (sv_ka x) (Stack (ss_root s) n v perm ki (ss_node_stack s)) (sv_entry x))
  end.

(** The label [changed] of [find_next], also the step to another leaf. *)
Definition find_next_changed (x : scan_vars) : M (scan_state * scan_vars) :=
  let s := sv_stack x in
  let* nv := stable_leaf (sv_h x) (ss_n s) (sv_ka x) in
  let (n, v) := (nv : loc * Z) in
  let* l := get_leaf n in
  let perm := l_permutation l in
  let* ki := lift (lower (sv_h x) (sv_ka x) (View perm l)) in
  mret (scan_find_next,
        ScanVars (sv_h x) (sv_ka x) (Stack (ss_root s) n v perm ki (ss_node_stack s)) (sv_entry x)).

(** [find_next]; the recursion is [goto retry_entry]. *)
Fixpoint find_next (fuel : nat) (x : scan_vars) : M (scan_state * scan_vars) :=
  match fuel with
  | O => fail OutOfFuel
  | S fuel =>
    let s := sv_stack x in
    let kp := ss_kp s in
    if 0 <=? kp then
      let* l := get_leaf (ss_n s) in
      let ikey := leaf_ikey l kp in
      let keylenx := leaf_keylenx l kp in
      let* entry := mget (l_lv l) kp in
      let* r := (if keylenx_has_ksuf keylenx then
          let* sf := lift (ksuf l kp) in lift (assign_store_suffix sf (sv_ka x))
        else mret (keylenx, sv_ka x)) in
      let (keylen, ka) := (r : Z * key) in
      let x := ScanVars (sv_h x) ka s entry in
      let* hc := Node.has_changed (ss_n s) (ss_v s) in
      if hc then find_next_changed x
      else if is_duplicate (sv_h x) ka ikey keylenx then
        find_next fuel (ScanVars (sv_h x) ka
          (Stack (ss_root s) (ss_n s) (ss_v s) (ss_perm s) (next_rank (sv_h x) (ss_ki s)) (ss_node_stack s))
          entry)
      else
        let* ka := lift (assign_store_ikey ikey ka) in
        let h := mark_key_complete (sv_h x) in
        if keylenx_is_layer keylenx then
          let* s' := push_layer s entry in
          mret (scan_down, ScanVars h ka s' entry)
        else mret (scan_emit, ScanVars h (assign_store_length keylen ka) s entry)
    else
      let* hc := Node.has_changed (ss_n s) (ss_v s) in
      if hc then find_next_changed x
      else
        let* l := get_leaf (ss_n s) in
        let* r := lift (advance (sv_h x) l (sv_ka x)) in
        match r with
        | (None, ka) => mret (scan_up, ScanVars (mark_key_complete (sv_h x)) ka s (sv_entry x))
        | (Some n, ka) =>
          find_next_changed (ScanVars (sv_h x) ka
            (Stack (ss_root s) n (ss_v s) (ss_perm s) (ss_ki s) (ss_node_stack s)) (sv_entry x))
        end
  end.

Definition scan_find_next_step (x : scan_vars) : M (scan_state * scan_vars) :=
  if NodeVersion.deleted NV (ss_v (sv_stack x)) then mret (scan_retry, x)
  else find_next np_fuel x.

(** ** The scanner and the main loop *)

(** [visit_leaf(stack, ka, ti)] and [visit_value(ka, value, ti)]. *)
Record scanner (F : Type) := Scanner {
  visit_leaf : scanstackelt -> key -> F -> F;
  visit_value : key -> value_type -> F -> bool * F
}.
Arguments visit_leaf {F}.
Arguments visit_value {F}.

Context {F : Type} (sc : scanner F).

Fixpoint scan_initial (fuel : nat) (emit_firstkey : bool) (x : scan_vars) (f : F) :
    M (scan_state * scan_vars * F) :=
  match fuel with
  | O => fail OutOfFuel
  | S fuel =>
    let* r := find_initial np_fuel None emit_firstkey x in
    let (state, x) := (r : scan_state * scan_vars) in
    let f := visit_leaf sc (sv_stack x) (sv_ka x) f in
    match state with
    | scan_down =>
      scan_initial fuel emit_firstkey (ScanVars (sv_h x) (Key.shift (sv_ka x)) (sv_stack x) (sv_entry x)) f
    | _ => mret (state, x, f)
    end
  end.

(** The do-while loop of [scan_up]: [None] when the stack is empty. *)
Fixpoint scan_pop (fuel : nat) (x : scan_vars) : M (option scan_vars) :=
  match fuel with
  | O => fail OutOfFuel
  | S fuel =>
    let s := sv_stack x in
    match ss_node_stack s with
    | n :: root :: rest =>
      let* ka := lift (unshift (sv_ka x)) in
      let x := ScanVars (sv_h x) ka (Stack root n (ss_v s) (ss_perm s) (ss_ki s) rest) (sv_entry x) in
      if key_empty ka then scan_pop fuel x else mret (Some x)
    | _ => mret None
    end
  end.

(** [case scan_find_next] *)
Definition scan_case_find_next (x : scan_vars) (f : F) : M (scan_state * scan_vars * F) :=
  let* r := scan_find_next_step x in
  let (state, x) := (r : scan_state * scan_vars) in
  mret (state, x, match state with scan_up => f | _ => visit_leaf sc (sv_stack x) (sv_ka x) f end).

Definition scan_emit_value (x : scan_vars) (f : F) : M (bool * F) :=
  let* v := lift (lv_get_value (sv_entry x)) in
  mret (visit_value sc (sv_ka x) v f).

Fixpoint scan_loop (fuel : nat) (state : scan_state) (x : scan_vars) (count : Z) (f : F) : M (Z * F) :=
  match fuel with
  | O => fail OutOfFuel
  | S fuel =>
    match state with
    | scan_emit =>
      let* r := scan_emit_value x f in
      let (go, f) := (r : bool * F) in
      if negb go then mret (count + 1, f)
      else
        let s := sv_stack x in
        let x := ScanVars (sv_h x) (sv_ka x)
          (Stack (ss_root s) (ss_n s) (ss_v s) (ss_perm s) (next_rank (sv_h x) (ss_ki s)) (ss_node_stack s))
          (sv_entry x) in
        let* r := scan_find_next_step x in
        let (state, x) := (r : scan_state * scan_vars) in
        scan_loop fuel state x (count + 1) f
    | scan_find_next =>
      let* r := scan_case_find_next x f in
      let '(state, x, f) := (r : scan_state * scan_vars * F) in
      scan_loop fuel state x count f
    | scan_up =>
      let* r := scan_pop np_fuel x in
      match r with
      | None => mret (count, f)
      | Some x =>
        let* y := find_next_changed x in
        let* r := scan_case_find_next (snd y) f in
        let '(state, x, f) := (r : scan_state * scan_vars * F) in
        scan_loop fuel state x count f
      end
    | scan_down =>
      let (ka, h) := scan_shift_clear (sv_h x) (sv_ka x) in
      let* r := find_retry np_fuel (ScanVars h ka (sv_stack x) (sv_entry x)) in
      let (state, x) := (r : scan_state * scan_vars) in
      scan_loop fuel state x count f
    | scan_retry =>
      let* r := find_retry np_fuel x in
      let (state, x) := (r : scan_state * scan_vars) in
      scan_loop fuel state x count f
    end
  end.

(** [sizeof(keybuf)]: the union of bytes and 8-byte words. *)
Definition keybuf_size : Z := (masstree_maxkeylen + 8 - 1) / 8 * 8.

Definition scan_with (h : H) (firstkey : list Z) (emit_firstkey : bool) (f : F) : M (Z * F) :=
  let len := Z.of_nat (length firstkey) in
  check (len <=? keybuf_size) ;;
  let keybuf := firstkey ++ zeros (Z.to_nat (keybuf_size - len)) in
  let ka := key_of_buf keybuf len in
  let* r := table_root in
  let* root := deref r in
  let x := ScanVars h ka (Stack root root 0 0 0 []) lv_make_empty in
  let* y := scan_initial np_fuel emit_firstkey x f in
  let '(state, x, f) := (y : scan_state * scan_vars * F) in
  scan_loop np_fuel state x 0 f.
End scan.

Arguments visit_leaf {P F}.
Arguments visit_value {P F}.

(** [basic_table::scan] and [basic_table::rscan]. *)
Definition table_scan {P : nodeparams} {F} (sc : scanner F) (firstkey : list Z) (emit : bool) (f : F) :
    M (Z * F) := scan_with sc Forward firstkey emit f.
Definition table_rscan {P : nodeparams} {F} (sc : scanner F) (firstkey : list Z) (emit : bool) (f : F) :
    M (Z * F) := scan_with sc (Reverse false) firstkey emit f.
