(* ===== verification/Namespace.v ===== *)
(** * The file-system namespace (lhm_namespace.hh)

    [LhmNamespace]: directories are trie layers whose roots carry the directory's
    metadata, files are values, and names whose hashes collide share a slot whose
    value points at a conflict bucket.  The state is the Masstree heap and the
    two conflict members. *)

From S2P Require Export Remove Scan.

#[local] Open Scope Z_scope.
#[local] Open Scope lhm_scope.

(** ** Entries *)

Inductive entry_kind := kind_invalid | kind_directory | kind_file | kind_conflict_chain.
#[export] Instance entry_kind_eq_dec : EqDecision entry_kind.
Proof. solve_decision. Defined.

Record namespace_entry := Entry {
  ne_kind : entry_kind;
  ne_ref : inode_ref;
  ne_name_length : Z;     (* uint8_t *)
  ne_name : list Z        (* char[kMaxEntryNameBytes + 1] *)
}.
#[export] Instance namespace_entry_eq_dec : EqDecision namespace_entry.
Proof. solve_decision. Defined.

Record readdir_record := Readdir {
  rd_full_hashes : list Z;
  rd_child_component_hash : Z;
  rd_child_name : byte_string;
  rd_entry : namespace_entry
}.
#[export] Instance readdir_record_eq_dec : EqDecision readdir_record.
Proof. solve_decision. Defined.

Record subtree_record := Subtree {
  st_full_hashes : list Z;
  st_entry : namespace_entry
}.

Record directory_root_debug_info := DebugInfo {
  di_found : bool;
  di_is_leaf : bool;
  di_has_meta : bool;
  di_height : Z;
  di_size : Z;
  di_child0_is_leaf : bool;
  di_child1_exists : bool;
  di_child1_is_leaf : bool;
  di_child0_size : Z;
  di_child1_size : Z
}.

Record lookup_probe_stats := Stats {
  directory_levels_walked : Z;
  child_slot_lookups : Z
}.

Definition entry_name (e : namespace_entry) : byte_string :=
  take (Z.to_nat (ne_name_length e)) (ne_name e).

Definition entry_name_fits (name : byte_string) : bool :=
  Z.of_nat (length name) <=? kMaxEntryNameBytes.

Definition make_namespace_entry (kind : entry_kind) (ref : inode_ref) (name : byte_string) :
    res namespace_entry :=
  if Z.of_nat (length name) <=? kMaxEntryNameBytes + 1 then
    Ok (Entry kind ref (Word.wrap 8 (Z.of_nat (length name)))
         (name ++ zeros (Z.to_nat (kMaxEntryNameBytes + 1) - length name)))
  else Fault OutOfBounds.

Definition entry_is_valid (e : namespace_entry) : bool := negb (bool_decide (ne_kind e = kind_invalid)).
Definition entry_is_directory (e : namespace_entry) : bool := bool_decide (ne_kind e = kind_directory).
Definition entry_is_file (e : namespace_entry) : bool := bool_decide (ne_kind e = kind_file).
Definition entry_is_conflict_chain (e : namespace_entry) : bool :=
  bool_decide (ne_kind e = kind_conflict_chain).

Definition entry_name_equals (e : namespace_entry) (name : byte_string) : bool :=
  let n := ne_name_length e in
  (n =? Z.of_nat (length name)) &&
  ((n =? 0) || (memcmp (take (Z.to_nat n) (ne_name e)) (take (Z.to_nat n) name) =? 0)).

(** ASCII codes of the kind names. *)
Definition entry_kind_name (k : entry_kind) : byte_string :=
  match k with
  | kind_directory => [100; 105; 114; 101; 99; 116; 111; 114; 121]
  | kind_file => [102; 105; 108; 101]
  | kind_conflict_chain => [99; 111; 110; 102; 108; 105; 99; 116; 95; 99; 104; 97; 105; 110]
  | kind_invalid => [105; 110; 118; 97; 108; 105; 100]
  end.

(** [value_type()] *)
Definition empty_entry : namespace_entry := Entry kind_invalid (InodeRef 0 0) 0 (zeros 64).

(** [namespace_table_params]: nodes of seven keys; the sizes are those of the
    LP64 layout of the node classes with 80-byte values. *)
(** The bound on the iterations of each loop. *)
Class Fuel := fuel_bound : nat.

#[export] Instance namespace_table_params {cfg : Config} {fuel : Fuel} : nodeparams := {|
  leaf_width := 7;
  internode_width := 7;
  bound_method_of := bound_method_binary;
  nodeversion_type := NodeVersion.params32;
  need_phantom_epoch := true;
  value_type := namespace_entry;
  default_value := empty_entry;
  sizeof_leaf := 680;
  sizeof_internode := 144;
  sizeof_directory_meta := 88;
  masstree_maxkeylen := 1024;
  np_config := cfg;
  np_fuel := fuel_bound;
  np_junk_keylenx := 0;
  np_junk_ikey := 0
|}.

(** ** State *)

Section namespace.
Context {cfg : Config} {fuel : Fuel}.

(** [table_] with the heap, [conflict_buckets_] and [next_conflict_bucket_id_]. *)
Record nstate := NState {
  ns_mem : mstate;
  ns_buckets : gmap Z (list namespace_entry);
  ns_next_bucket : Z
}.

Abbreviation NM := (sm nstate).

Definition mem {A} (m : M A) : NM A := fun s =>
  match m (ns_mem s) with
  | Ok (a, s') => Ok (a, NState s' (ns_buckets s) (ns_next_bucket s))
  | Fault f => Fault f
  end.

Definition find_bucket (id : Z) : NM (option (list namespace_entry)) :=
  fun s => Ok (ns_buckets s !! id, s).
Definition set_bucket (id : Z) (es : list namespace_entry) : NM unit :=
  fun s => Ok (tt, NState (ns_mem s) (<[id := es]> (ns_buckets s)) (ns_next_bucket s)).
(** [emplace]: keeps an entry that is already there. *)
Definition emplace_bucket (id : Z) (es : list namespace_entry) : NM unit :=
  let* b := find_bucket id in
  match b with Some _ => mret tt | None => set_bucket id es end.
Definition erase_bucket (id : Z) : NM unit :=
  fun s => Ok (tt, NState (ns_mem s) (delete id (ns_buckets s)) (ns_next_bucket s)).
(** [next_conflict_bucket_id_++] *)
Definition fresh_bucket_id : NM Z :=
  fun s => Ok (ns_next_bucket s,
               NState (ns_mem s) (ns_buckets s) (Word.addw 32 (ns_next_bucket s) 1)).

Definition ns_initialize : NM unit := mem initialize.
Definition ns_destroy : NM unit := mem destroy.

(** ** Helpers on paths and keys *)

(** [single_component_key] *)
Definition make_single_component_key (component_hash : Z) : byte_string :=
  bytes_of 8 cfg_big_endian (host_to_net_order 8 cfg_big_endian component_hash).

Definition edge_cursor (root : loc) (h : Z) : tcursor :=
  let key := make_single_component_key h in
  cursor_node root key (Z.of_nat (length key)).
Definition edge_unlocked_cursor (root : loc) (h : Z) : unlocked_tcursor :=
  let key := make_single_component_key h in
  unlocked_cursor_node root key (Z.of_nat (length key)).

Fixpoint canonicalize_loop (fuel : nat) (root : loc) : M loc :=
  match fuel with
  | O => fail OutOfFuel
  | S fuel =>
    let* next := maybe_parent root in
    if bool_decide (next = root) then mret root else canonicalize_loop fuel next
  end.
Definition canonicalize_directory_root (root : loc) : M loc := canonicalize_loop np_fuel root.

(** Whether any leaf below has keys; the bound is on the depth. *)
Fixpoint directory_root_has_children (depth : nat) (n : loc) : M bool :=
  match depth with
  | O => fail OutOfFuel
  | S depth =>
    let* lf := Node.isleaf n in
    if lf then let* l := get_leaf n in mret (negb (leaf_size l =? 0))
    else
      let* i := get_internode n in
      (fix any (cs : list ptr) : M bool :=
         match cs with
         | [] => mret false
         | None :: cs => any cs
         | Some c :: cs =>
           let* b := directory_root_has_children depth c in
           if b then mret true else any cs
         end) (take (Z.to_nat (internode_size i + 1)) (i_child i))
  end.

Fixpoint find_last_slash (s : byte_string) (i : nat) (last : option nat) : option nat :=
  match s with
  | [] => last
  | c :: s => find_last_slash s (S i) (if c =? slash then Some i else last)
  end.

(** [npos] when there is no slash: the whole string. *)
Definition parent_path (path : byte_string) : byte_string :=
  if bool_decide (path = [slash]) then [slash]
  else match find_last_slash path 0 None with
       | Some O => [slash]
       | Some pos => take pos path
       | None => path
       end.

Definition is_prefix_path (prefix path : byte_string) : bool :=
  if bool_decide (prefix = [slash]) then true
  else if (length path <? length prefix)%nat then false
  else if negb (bool_decide (take (length prefix) path = prefix)) then false
  else (length path =? length prefix)%nat || bool_decide (path !! length prefix = Some slash).

(** The hashes as they lie in memory. *)
Definition hash_path_key (hs : list Z) : byte_string := flat_map (bytes_of 8 cfg_big_endian) hs.

Definition rewrite_destination_path (source_path source_root destination_root : byte_string) :
    byte_string :=
  if bool_decide (source_path = source_root) then destination_root
  else if negb (is_prefix_path source_root source_path) then []
  else destination_root ++ drop (length source_root) source_path.

Fixpoint reconstruct_loop (cnt : nat) (full_hashes : list Z) (i : nat)
    (source_path_map : gmap byte_string namespace_entry) (path : byte_string) : byte_string :=
  match cnt with
  | O => path
  | S cnt =>
    match source_path_map !! hash_path_key (take (S i) full_hashes) with
    | None => []
    | Some e => reconstruct_loop cnt full_hashes (S i) source_path_map (path ++ [slash] ++ entry_name e)
    end
  end.
Definition reconstruct_path_under_root (root_path : byte_string) (root_hashes full_hashes : list Z)
    (source_path_map : gmap byte_string namespace_entry) : byte_string :=
  if (length full_hashes <? length root_hashes)%nat then []
  else if negb (bool_decide (take (length root_hashes) full_hashes = root_hashes)) then []
  else reconstruct_loop (length full_hashes - length root_hashes) full_hashes (length root_hashes)
         source_path_map root_path.

(** The parent of a parsed path, as the operations build it. *)
Definition parent_of (parsed : ParsedPath) : ParsedPath :=
  Parsed (parent_path (normalized_path parsed))
    (removelast (components parsed)) (removelast (hashes parsed)).

(** [components.back()] and [hashes.back()] *)
Definition back_component (parsed : ParsedPath) : NM byte_string :=
  match last (components parsed) with Some c => mret c | None => fail OutOfBounds end.
Definition back_hash (parsed : ParsedPath) : NM Z :=
  match last (hashes parsed) with Some h => mret h | None => fail OutOfBounds end.

Definition is_root_path (parsed : ParsedPath) : bool := bool_decide (normalized_path parsed = [slash]).
Definition no_components (parsed : ParsedPath) : bool := bool_decide (components parsed = []).

(** ** Lookups *)

Record child_slot_lookup := ChildSlot {
  cs_is_layer : bool;
  cs_child_root : ptr;
  cs_value : namespace_entry
}.

(** [layer_root()] of a cursor, then [canonicalize_directory_root]. *)
Definition canonical_layer (r : res ptr) : M loc :=
  let* p := lift r in
  let* root := deref p in
  canonicalize_directory_root root.

Definition lookup_child_slot_from_parent_root (parent_root : loc) (child_hash : Z) :
    M (option child_slot_lookup) :=
  let* r := find_unlocked_edge (edge_unlocked_cursor parent_root child_hash) in
  let c := snd r in
  let state := uc_state c in
  if (state <? 0) && uc_is_layer c then
    let* root := canonical_layer (uc_layer_root c) in
    mret (Some (ChildSlot true (Some root) empty_entry))
  else if state <=? 0 then mret None
  else
    let* v := lift (uc_value c) in
    mret (Some (ChildSlot false None v)).

(** The loop over the components; [None] when one is not a directory. *)
Fixpoint locate_loop (hs : list Z) (root : loc) (stats : lookup_probe_stats) :
    M (option loc * lookup_probe_stats) :=
  match hs with
  | [] => mret (Some root, stats)
  | h :: hs =>
    let* r := find_unlocked_edge (edge_unlocked_cursor root h) in
    let c := snd r in
    if (0 <=? uc_state c) || negb (uc_is_layer c) then mret (None, stats)
    else
      let stats := Stats (Word.addw 32 (directory_levels_walked stats) 1) (child_slot_lookups stats) in
      let* root' := canonical_layer (uc_layer_root c) in
      locate_loop hs root' stats
  end.

Definition locate_directory_root_stats (parsed : ParsedPath) (stats : lookup_probe_stats) :
    M (option loc * lookup_probe_stats) :=
  let* r := table_root in
  let* root := deref r in
  if is_root_path parsed then mret (Some root, stats)
  else locate_loop (hashes parsed) root stats.
Definition locate_directory_root (parsed : ParsedPath) : M (option loc) :=
  let* r := locate_directory_root_stats parsed (Stats 0 0) in mret (fst r).

(** The entry of a directory from its root's metadata, when the name matches. *)
Definition directory_entry_of (child_root : loc) (name : option byte_string) : M (option namespace_entry) :=
  let* b := Node.has_directory_meta child_root in
  if negb b then mret None
  else
    let* meta := node_directory_meta child_root in
    match meta with
    | None => mret None
    | Some meta =>
      if match name with Some n => directory_meta_name_equals meta n | None => true end then
        let* e := lift (make_namespace_entry kind_directory (dm_ref meta) (directory_meta_name meta)) in
        mret (Some e)
      else mret None
    end.

Definition lookup_child_from_parent_root_stats (parent_root : loc) (child_name : byte_string)
    (child_hash : Z) (stats : lookup_probe_stats) : NM (option namespace_entry * lookup_probe_stats) :=
  let stats := Stats (directory_levels_walked stats) (Word.addw 32 (child_slot_lookups stats) 1) in
  let* slot := mem (lookup_child_slot_from_parent_root parent_root child_hash) in
  match slot with
  | None => mret (None, stats)
  | Some slot =>
    if cs_is_layer slot then
      let* child_root := deref (cs_child_root slot) in
      let* e := mem (directory_entry_of child_root (Some child_name)) in
      mret (e, stats)
    else
      let raw := cs_value slot in
      if negb (entry_is_conflict_chain raw) then
        mret (if entry_name_equals raw child_name then Some raw else None, stats)
      else
        let* b := find_bucket (block_id (ne_ref raw)) in
        match b with
        | None => mret (None, stats)
        | Some es => mret (List.find (fun e => entry_name_equals e child_name) es, stats)
        end
  end.
Definition lookup_child_from_parent_root (parent_root : loc) (child_name : byte_string)
    (child_hash : Z) : NM (option namespace_entry) :=
  let* r := lookup_child_from_parent_root_stats parent_root child_name child_hash (Stats 0 0) in
  mret (fst r).

Record directory_edge_lookup := DirEdge {
  de_child_root : loc;
  de_entry : namespace_entry
}.

Definition lookup_directory_edge_from_parent_root (parent_root : loc) (child_name : byte_string)
    (child_hash : Z) : M (option directory_edge_lookup) :=
  let* r := find_locked_edge (edge_cursor parent_root child_hash) in
  let c := snd r in
  if (tc_state c <? 0) && tc_is_layer c then
    let* p := tc_layer_root c in
    let* root := deref p in
    let* child_root := canonicalize_directory_root root in
    finish_read c ;;
    let* e := directory_entry_of child_root (Some child_name) in
    match e with
    | Some e => mret (Some (DirEdge child_root e))
    | None => mret None
    end
  else
    finish_read c ;;
    mret None.

Definition lookup_entry_from_parsed_stats (parsed : ParsedPath) (stats : lookup_probe_stats) :
    NM (option namespace_entry * lookup_probe_stats) :=
  if is_root_path parsed then
    let* e := lift (make_namespace_entry kind_directory (make_inode_ref 0 0) [slash]) in
    mret (Some e, stats)
  else if no_components parsed || bool_decide (hashes parsed = []) then mret (None, stats)
  else
    let* r := mem (locate_directory_root_stats (parent_of parsed) stats) in
    match r with
    | (None, stats) => mret (None, stats)
    | (Some parent_root, stats) =>
      let* c := back_component parsed in
      let* h := back_hash parsed in
      lookup_child_from_parent_root_stats parent_root c h stats
    end.
Definition lookup_entry_from_parsed (parsed : ParsedPath) : NM (option namespace_entry) :=
  let* r := lookup_entry_from_parsed_stats parsed (Stats 0 0) in mret (fst r).

Definition lookup_entry (path : byte_string) : NM (option namespace_entry) :=
  let* parsed := lift (parse_absolute_path path) in
  lookup_entry_from_parsed parsed.

(** The entry when it has the kind asked for. *)
Definition filter_entry (p : namespace_entry -> bool) (e : option namespace_entry) :
    option namespace_entry :=
  match e with Some e => if p e then Some e else None | None => None end.

Definition lookup_file (path : byte_string) : NM (option namespace_entry) :=
  let* e := lookup_entry path in mret (filter_entry entry_is_file e).
Definition lookup_directory (path : byte_string) : NM (option namespace_entry) :=
  let* e := lookup_entry path in mret (filter_entry entry_is_directory e).

Definition lookup_inode (path : byte_string) : NM (option inode_ref) :=
  let* e := lookup_entry path in mret (ne_ref <$> e).
Definition lookup_inode_from_parsed (parsed : ParsedPath) (stats : lookup_probe_stats) :
    NM (option inode_ref * lookup_probe_stats) :=
  let* r := lookup_entry_from_parsed_stats parsed stats in mret (ne_ref <$> fst r, snd r).

(** [parsed.hashes.back() = forced_hash] *)
Definition force_last_hash (parsed : ParsedPath) (h : Z) : ParsedPath :=
  Parsed (normalized_path parsed) (components parsed) (removelast (hashes parsed) ++ [h]).

Definition lookup_file_with_forced_last_hash_for_test (path : byte_string) (forced_hash : Z) :
    NM (option namespace_entry) :=
  let* parsed := lift (parse_absolute_path path) in
  if bool_decide (hashes parsed = []) then mret None
  else
    let* e := lookup_entry_from_parsed (force_last_hash parsed forced_hash) in
    mret (filter_entry entry_is_file e).
End namespace.
