(* ===== verification/NamespaceOps.v ===== *)
(** * Updates of the namespace (lhm_namespace.hh)

    Creation, removal, renaming and listing of files and directories. *)

From S2P Require Export Namespace.

#[local] Open Scope Z_scope.
#[local] Open Scope lhm_scope.

Section updates.
Context {cfg : Config} {fuel : Fuel}.

Abbreviation NM := (sm nstate).

(** ** Creation *)

Definition create_directory_from_parsed (parsed : ParsedPath) (ref : inode_ref) : NM bool :=
  if is_root_path parsed then mret false
  else if no_components parsed then mret false
  else
    let* name := back_component parsed in
    if negb (entry_name_fits name) then mret false
    else
      let* r := mem (locate_directory_root (parent_of parsed)) in
      match r with
      | None => mret false
      | Some parent_root =>
        let* h := back_hash parsed in
        let* existing := mem (lookup_child_slot_from_parent_root parent_root h) in
        match existing with
        | Some _ => mret false
        | None =>
          let* meta := lift (make_directory_meta ref h name) in
          let* r := mem (create_layer_with_meta (edge_cursor parent_root h) meta) in
          mret (fst (fst r))
        end
      end.

(** [insert_into_conflict_chain]; the cursor starts at the table's root. *)
Definition insert_into_conflict_chain (key : byte_string) (slot_value new_entry : namespace_entry) :
    NM bool :=
  if entry_is_conflict_chain slot_value then
    let id := block_id (ne_ref slot_value) in
    let* b := find_bucket id in
    match b with
    | None => mret false
    | Some es =>
      if existsb (fun e => entry_name_equals e (entry_name new_entry)) es then mret false
      else set_bucket id (es ++ [new_entry]) ;; mret true
    end
  else if entry_name_equals slot_value (entry_name new_entry) then mret false
  else
    let* bucket_id := fresh_bucket_id in
    emplace_bucket bucket_id [slot_value; new_entry] ;;
    let* chain_marker := lift (make_namespace_entry kind_conflict_chain (make_inode_ref bucket_id 0) []) in
    let* c := mem (cursor_table key) in
    let* r := mem (find_insert c) in
    let (found, c) := (r : bool * tcursor) in
    if negb found then
      let* _ := mem (tcursor_finish c 0) in
      erase_bucket bucket_id ;;
      mret false
    else
      mem (tc_set_value c chain_marker) ;;
      let* _ := mem (tcursor_finish c 0) in
      mret true.

Definition create_entry_from_parsed (parsed : ParsedPath) (kind : entry_kind) (ref : inode_ref) :
    NM bool :=
  if bool_decide (kind = kind_directory) then create_directory_from_parsed parsed ref
  else if is_root_path parsed then mret false
  else if no_components parsed then mret false
  else
    let* name := back_component parsed in
    if negb (entry_name_fits name) then mret false
    else
      let* r := mem (locate_directory_root (parent_of parsed)) in
      match r with
      | None => mret false
      | Some parent_root =>
        let* entry := lift (make_namespace_entry kind ref name) in
        let* h := back_hash parsed in
        let* slot := mem (lookup_child_slot_from_parent_root parent_root h) in
        match slot with
        | Some slot =>
          if cs_is_layer slot then mret false
          else insert_into_conflict_chain (make_single_component_key h) (cs_value slot) entry
        | None =>
          let* r := mem (find_insert (edge_cursor parent_root h)) in
          let (already_present, c) := (r : bool * tcursor) in
          if already_present then
            let* _ := mem (tcursor_finish c 0) in mret false
          else
            mem (tc_set_value c entry) ;;
            let* _ := mem (tcursor_finish c 1) in
            mret true
        end
      end.

Definition create_entry (path : byte_string) (kind : entry_kind) (ref : inode_ref) : NM bool :=
  let* parsed := lift (parse_absolute_path path) in
  create_entry_from_parsed parsed kind ref.

Definition mkdir (path : byte_string) (ref : inode_ref) : NM bool :=
  let* parsed := lift (parse_absolute_path path) in
  create_directory_from_parsed parsed ref.

Definition creat_file (path : byte_string) (ref : inode_ref) : NM bool :=
  create_entry path kind_file ref.

Definition creat_file_with_forced_last_hash_for_test (path : byte_string) (ref : inode_ref)
    (forced_hash : Z) : NM bool :=
  let* parsed := lift (parse_absolute_path path) in
  if bool_decide (hashes parsed = []) then mret false
  else create_entry_from_parsed (force_last_hash parsed forced_hash) kind_file ref.

(** ** Removal *)

(** A directory edge: only an empty directory of the right name goes. *)
Definition remove_directory_slot (c : tcursor) (name : byte_string) : M bool :=
  let* p := tc_layer_root c in
  let* root := deref p in
  let* child_root := canonicalize_directory_root root in
  let* e := directory_entry_of child_root (Some name) in
  match e with
  | None => finish_read c ;; mret false
  | Some _ =>
    let* b := directory_root_has_children np_fuel child_root in
    if b then finish_read c ;; mret false
    else remove_layer_edge c
  end.

(** Erase the first entry with the name. *)
Fixpoint erase_named (name : byte_string) (es : list namespace_entry) : list namespace_entry :=
  match es with
  | [] => []
  | e :: es => if entry_name_equals e name then es else e :: erase_named name es
  end.

(** A slot whose value is a conflict chain. *)
Definition remove_from_chain (c : tcursor) (slot_value : namespace_entry) (name : byte_string) : NM bool :=
  let id := block_id (ne_ref slot_value) in
  let* b := find_bucket id in
  match b with
  | None => mem (finish_read c) ;; mret false
  | Some entries =>
    match List.find (fun e => entry_name_equals e name) entries with
    | None => mem (finish_read c) ;; mret false
    | Some m =>
      if negb (entry_is_file m) then mem (finish_read c) ;; mret false
      else if (length entries =? 1)%nat then
        erase_bucket id ;;
        let* _ := mem (tcursor_finish c (-1)) in
        mret true
      else
        let entries := erase_named name entries in
        set_bucket id entries ;;
        (match entries with
         | [survivor] => erase_bucket id ;; mem (tc_set_value c survivor)
         | _ => mret tt
         end) ;;
        let* _ := mem (tcursor_finish c 0) in
        mret true
    end
  end.

Definition remove_entry (path : byte_string) : NM bool :=
  let* parsed := lift (parse_absolute_path path) in
  if is_root_path parsed || no_components parsed then mret false
  else
    let* r := mem (locate_directory_root (parent_of parsed)) in
    match r with
    | None => mret false
    | Some parent_root =>
      let* name := back_component parsed in
      let* h := back_hash parsed in
      let* r := mem (find_locked_edge (edge_cursor parent_root h)) in
      let c := snd r in
      if (tc_state c <? 0) && tc_is_layer c then mem (remove_directory_slot c name)
      else if tc_state c <=? 0 then mem (finish_read c) ;; mret false
      else
        let* slot_value := mem (tc_value c) in
        if negb (entry_is_conflict_chain slot_value) then
          if negb (entry_name_equals slot_value name) || negb (entry_is_file slot_value) then
            mem (finish_read c) ;; mret false
          else
            let* _ := mem (tcursor_finish c (-1)) in mret true
        else remove_from_chain c slot_value name
    end.

Definition remove_path_for_test (path : byte_string) : NM bool := remove_entry path.

(** ** Listing *)

(** One record of a directory's child. *)
Definition readdir_record_of (parent_hashes : list Z) (h : Z) (e : namespace_entry) : readdir_record :=
  Readdir (parent_hashes ++ [h]) h (entry_name e) e.

(** The records of slot [p] of a leaf. *)
Definition append_slot (l : leaf) (p : Z) (parent_hashes : list Z) (out : list readdir_record) :
    NM (list readdir_record) :=
  let child_hash := leaf_ikey l p in
  let* lv := lift (aget (l_lv l) p) in
  if negb (is_layer l p) then
    let* slot_value := lift (lv_get_value lv) in
    if negb (entry_is_conflict_chain slot_value) then
      mret (out ++ [readdir_record_of parent_hashes child_hash slot_value])
    else
      let* b := find_bucket (block_id (ne_ref slot_value)) in
      match b with
      | None => mret out
      | Some es => mret (out ++ map (readdir_record_of parent_hashes child_hash) es)
      end
  else
    let* child_root := mem (canonical_layer (lv_get_layer lv)) in
    let* hm := mem (Node.has_directory_meta child_root) in
    if negb hm then mret out
    else
      let* meta := mem (node_directory_meta child_root) in
      match meta with
      | None => mret out
      | Some meta =>
        let* e := lift (make_namespace_entry kind_directory (dm_ref meta) (directory_meta_name meta)) in
        mret (out ++ [Readdir (parent_hashes ++ [dm_component_hash meta]) (dm_component_hash meta)
                        (directory_meta_name meta) e])
      end.

Fixpoint append_slots (cnt : nat) (l : leaf) (i : Z) (parent_hashes : list Z)
    (out : list readdir_record) : NM (list readdir_record) :=
  match cnt with
  | O => mret out
  | S cnt =>
    let* out := append_slot l (KPermuter.get (l_permutation l) i) parent_hashes out in
    append_slots cnt l (i + 1) parent_hashes out
  end.

(** [append_directory_children_from_node]; the bound is on the depth. *)
Fixpoint append_directory_children_from_node (depth : nat) (n : loc) (parent_hashes : list Z)
    (out : list readdir_record) : NM (list readdir_record) :=
  match depth with
  | O => fail OutOfFuel
  | S depth =>
    let* lf := mem (Node.isleaf n) in
    if lf then
      let* l := mem (get_leaf n) in
      append_slots (Z.to_nat (leaf_size l)) l 0 parent_hashes out
    else
      let* i := mem (get_internode n) in
      (fix go (cs : list ptr) (out : list readdir_record) : NM (list readdir_record) :=
         match cs with
         | [] => mret out
         | None :: cs => go cs out
         | Some c :: cs =>
           let* out := append_directory_children_from_node depth c parent_hashes out in
           go cs out
         end) (take (Z.to_nat (internode_size i + 1)) (i_child i)) out
  end.

Definition append_directory_children (parent_root : loc) (parent_hashes : list Z)
    (out : list readdir_record) : NM (list readdir_record) :=
  append_directory_children_from_node np_fuel parent_root parent_hashes out.

(** [readdir]; the root directory starts at [table_.root()] as it stands. *)
Definition readdir (path : byte_string) : NM (list readdir_record) :=
  let* parsed := lift (parse_absolute_path path) in
  if negb (is_root_path parsed) then
    let* dir_entry := lookup_directory (normalized_path parsed) in
    match dir_entry with
    | None => mret []
    | Some _ =>
      let* r := mem (locate_directory_root parsed) in
      match r with
      | None => mret []
      | Some directory_root => append_directory_children directory_root (hashes parsed) []
      end
    end
  else
    let* r := mem table_root in
    let* directory_root := deref r in
    append_directory_children directory_root (hashes parsed) [].

(** The size of a child, whichever kind of node it is. *)
Definition child_node_size (c : loc) : M Z :=
  let* lf := Node.isleaf c in
  if lf then let* l := get_leaf c in mret (leaf_size l)
  else let* i := get_internode c in mret (internode_size i).

Definition node_debug_info (root : loc) : M directory_root_debug_info :=
  let* lf := Node.isleaf root in
  let* hm := Node.has_directory_meta root in
  if lf then
    let* l := get_leaf root in
    mret (DebugInfo true true hm 0 (leaf_size l) false false false (-1) (-1))
  else
    let* i := get_internode root in
    let* c0 := mget (i_child i) 0 in
    let* c1 := mget (i_child i) 1 in
    let* l0 := (match c0 with Some c => Node.isleaf c | None => mret false end) in
    let* s0 := (match c0 with Some c => child_node_size c | None => mret (-1) end) in
    match (if 0 <? i_nkeys i then c1 else None) with
    | Some c =>
      let* l1 := Node.isleaf c in
      let* s1 := child_node_size c in
      mret (DebugInfo true false hm (i_height i) (internode_size i) l0 true l1 s0 s1)
    | None =>
      mret (DebugInfo true false hm (i_height i) (internode_size i) l0 false false s0 (-1))
    end.

Definition debug_directory_root_info (path : byte_string) : NM (bool * directory_root_debug_info) :=
  let* parsed := lift (parse_absolute_path path) in
  let* r := (if is_root_path parsed then mem table_root else mem (locate_directory_root parsed)) in
  match r with
  | None =>
    if is_root_path parsed then fail NullPointer
    else mret (false, DebugInfo false false false 0 0 false false false (-1) (-1))
  | Some root => let* i := mem (node_debug_info root) in mret (true, i)
  end.

(** The scanners' [visit_value]; a fault of [decode] ends the scan with it. *)
Definition chain_entries (buckets : gmap Z (list namespace_entry)) (value : namespace_entry) :
    list namespace_entry :=
  if negb (entry_is_conflict_chain value) then [value]
  else match buckets !! block_id (ne_ref value) with Some es => es | None => [] end.

Definition readdir_visit_value (parent_hashes : list Z) (buckets : gmap Z (list namespace_entry))
    (k : key) (value : namespace_entry) (out : res (list readdir_record)) :
    bool * res (list readdir_record) :=
  match decode cfg_big_endian (full_string k) with
  | Fault f => (false, Fault f)
  | Ok decoded =>
    if negb (length decoded =? length parent_hashes + 1)%nat then (true, out)
    else if negb (bool_decide (take (length parent_hashes) decoded = parent_hashes)) then (true, out)
    else (true, let? out := out in
                Ok (out ++ map (fun e => Readdir decoded (default 0 (last decoded)) (entry_name e) e)
                             (chain_entries buckets value)))
  end.
Definition readdir_scanner (parent_hashes : list Z) (buckets : gmap Z (list namespace_entry)) :
    scanner (res (list readdir_record)) :=
  Scanner _ (fun _ _ f => f) (readdir_visit_value parent_hashes buckets).

Definition subtree_visit_value (root_hashes : list Z) (buckets : gmap Z (list namespace_entry))
    (k : key) (value : namespace_entry) (out : res (list subtree_record)) :
    bool * res (list subtree_record) :=
  match decode cfg_big_endian (full_string k) with
  | Fault f => (false, Fault f)
  | Ok decoded =>
    if (length decoded <? length root_hashes)%nat then (true, out)
    else if negb (bool_decide (take (length root_hashes) decoded = root_hashes)) then (true, out)
    else (true, let? out := out in
                Ok (out ++ map (Subtree decoded) (chain_entries buckets value)))
  end.
Definition subtree_scanner (root_hashes : list Z) (buckets : gmap Z (list namespace_entry)) :
    scanner (res (list subtree_record)) :=
  Scanner _ (fun _ _ f => f) (subtree_visit_value root_hashes buckets).

Definition scan_subtree (root : ParsedPath) : NM (list subtree_record) :=
  let* s := get_state in
  let* r := mem (table_scan (subtree_scanner (hashes root) (ns_buckets s)) [] false (Ok [])) in
  lift (snd r).

(** ** Renaming *)

Record rename_plan_item := PlanItem {
  pi_source_path : byte_string;
  pi_destination_path : byte_string;
  pi_entry : namespace_entry;
  pi_depth : Z
}.

(** [std::sort] with the comparison of the first pass; items that compare equal
    keep their order, which the standard leaves open. *)
Fixpoint insert_sorted {A} (lt : A -> A -> bool) (x : A) (l : list A) : list A :=
  match l with
  | [] => [x]
  | y :: l' => if lt x y then x :: l else y :: insert_sorted lt x l'
  end.
Definition sort_by {A} (lt : A -> A -> bool) (l : list A) : list A :=
  fold_left (fun acc x => insert_sorted lt x acc) l [].

Definition plan_create_lt (a b : rename_plan_item) : bool :=
  if negb (pi_depth a =? pi_depth b) then pi_depth a <? pi_depth b
  else String_compare (pi_destination_path a) (pi_destination_path b) <? 0.
Definition plan_remove_lt (a b : rename_plan_item) : bool :=
  if negb (pi_depth a =? pi_depth b) then pi_depth b <? pi_depth a
  else 0 <? String_compare (pi_source_path a) (pi_source_path b).

(** The loop that builds the plan; [None] is one of its [return false]. *)
Fixpoint build_plan (subtree : list subtree_record) (old_parsed new_parsed : ParsedPath)
    (source_path_map : gmap byte_string namespace_entry) (plan : list rename_plan_item) :
    NM (option (list rename_plan_item)) :=
  match subtree with
  | [] => mret (Some plan)
  | record :: rest =>
    let source_path := reconstruct_path_under_root (normalized_path old_parsed) (hashes old_parsed)
                         (st_full_hashes record) source_path_map in
    if bool_decide (source_path = []) then mret None
    else
      let destination_path := rewrite_destination_path source_path (normalized_path old_parsed)
                                (normalized_path new_parsed) in
      if bool_decide (destination_path = []) then mret None
      else
        let* destination_parsed := lift (parse_absolute_path destination_path) in
        let* existing := lookup_entry_from_parsed destination_parsed in
        match existing with
        | Some _ => mret None
        | None =>
          build_plan rest old_parsed new_parsed source_path_map
            (plan ++ [PlanItem source_path destination_path (st_entry record)
                        (Z.of_nat (length (hashes destination_parsed)))])
        end
  end.

Fixpoint create_all (plan : list rename_plan_item) : NM bool :=
  match plan with
  | [] => mret true
  | item :: rest =>
    let* b := create_entry (pi_destination_path item) (ne_kind (pi_entry item)) (ne_ref (pi_entry item)) in
    if negb b then mret false else create_all rest
  end.
Fixpoint remove_all (plan : list rename_plan_item) : NM bool :=
  match plan with
  | [] => mret true
  | item :: rest =>
    let* b := remove_entry (pi_source_path item) in
    if negb b then mret false else remove_all rest
  end.

(** The part after the new edge is attached: rewrite the directory's metadata
    and detach the old edge. *)
Definition rename_detach (old_parent_root : loc) (old_hash new_hash : Z) (new_name : byte_string)
    (child_root : loc) : M bool :=
  let* hm := Node.has_directory_meta child_root in
  if negb hm then mret false
  else
    let* meta := node_directory_meta child_root in
    match meta with
    | None => mret false
    | Some meta =>
      let* meta' := lift (make_directory_meta (dm_ref meta) new_hash new_name) in
      assign_directory_meta child_root meta' ;;
      let* r := find_locked_edge (edge_cursor old_parent_root old_hash) in
      let c := snd r in
      let* same := (if (0 <=? tc_state c) || negb (tc_is_layer c) then mret false
                    else let* p := tc_layer_root c in mret (bool_decide (p = Some child_root))) in
      if negb same then finish_read c ;; mret false
      else
        let* b := remove_layer_edge c in
        mret b
    end.

Definition rename_directory_o1_from_parsed (old_parsed new_parsed : ParsedPath) : NM bool :=
  if is_root_path old_parsed || is_root_path new_parsed then mret false
  else if bool_decide (normalized_path old_parsed = normalized_path new_parsed) then mret true
  else if is_prefix_path (normalized_path old_parsed) (normalized_path new_parsed) then mret false
  else if no_components new_parsed then mret false
  else
    let* new_name := back_component new_parsed in
    if negb (entry_name_fits new_name) then mret false
    else
      let* r := mem (locate_directory_root (parent_of old_parsed)) in
      match r with
      | None => mret false
      | Some old_parent_root =>
        let* r := mem (locate_directory_root (parent_of new_parsed)) in
        match r with
        | None => mret false
        | Some new_parent_root =>
          let* old_name := back_component old_parsed in
          let* old_hash := back_hash old_parsed in
          let* new_hash := back_hash new_parsed in
          let* edge := mem (lookup_directory_edge_from_parent_root old_parent_root old_name old_hash) in
          match edge with
          | None => mret false
          | Some source_edge =>
            let* existing := lookup_child_from_parent_root new_parent_root new_name new_hash in
            match existing with
            | Some _ => mret false
            | None =>
              let* a := mem (attach_existing_layer (edge_cursor new_parent_root new_hash)
                               (Some (de_child_root source_edge))) in
              if negb (fst a) then mret false
              else mem (rename_detach old_parent_root old_hash new_hash new_name
                          (de_child_root source_edge))
            end
          end
        end
      end.

(** The file case of [rename_path]. *)
Definition rename_file (old_parsed new_parsed : ParsedPath) : NM bool :=
  let* target := lookup_entry_from_parsed new_parsed in
  match target with
  | Some _ => mret false
  | None =>
    let* new_parent := lookup_directory (parent_path (normalized_path new_parsed)) in
    match new_parent with
    | None => mret false
    | Some _ =>
      let* subtree := scan_subtree old_parsed in
      if bool_decide (length subtree = 0%nat) then mret false
      else
        let source_path_map := fold_left (fun m r =>
            let k := hash_path_key (st_full_hashes r) in
            match m !! k with Some _ => m | None => <[k := st_entry r]> m end)
          subtree (∅ : gmap byte_string namespace_entry) in
        let* plan := build_plan subtree old_parsed new_parsed source_path_map [] in
        match plan with
        | None => mret false
        | Some plan =>
          let* created := create_all (sort_by plan_create_lt plan) in
          if negb created then mret false
          else remove_all (sort_by plan_remove_lt (sort_by plan_create_lt plan))
        end
    end
  end.

Definition rename_path (old_path new_path : byte_string) : NM bool :=
  let* old_parsed := lift (parse_absolute_path old_path) in
  let* new_parsed := lift (parse_absolute_path new_path) in
  if is_root_path old_parsed || is_root_path new_parsed then mret false
  else if bool_decide (normalized_path old_parsed = normalized_path new_parsed) then mret true
  else if is_prefix_path (normalized_path old_parsed) (normalized_path new_parsed) then mret false
  else
    let* source := lookup_entry_from_parsed old_parsed in
    match source with
    | None => mret false
    | Some source_entry =>
      if entry_is_directory source_entry then rename_directory_o1_from_parsed old_parsed new_parsed
      else rename_file old_parsed new_parsed
    end.
End updates.
