(* ===== verification/NamespacePaths.v ===== *)
(** * The path arithmetic of renames (lhm_namespace.hh)

    [parent_path], [is_prefix_path] and [rewrite_destination_path] work on the
    characters of normalized paths; these theorems say what they do on the
    components.  The sorts of [rename_path] are sorts. *)

From Stdlib Require Import Sorting.Sorted.
From S2P Require Import NamespaceOps.

#[local] Open Scope Z_scope.

(** A normalized path of at least one component: a slash before each. *)
Definition flat (cs : list byte_string) : byte_string := flat_map (fun c => slash :: c) cs.

Lemma flat_app cs ds : flat (cs ++ ds) = flat cs ++ flat ds.
Proof. apply flat_map_app. Qed.

Lemma normalize_flat cs :
  Forall is_component cs -> normalize cs = match cs with [] => [slash] | _ => flat cs end.
Proof.
  induction cs as [|c cs IH] using rev_ind; intros H; [done|].
  apply Forall_app in H as [Hcs Hc]. specialize (IH Hcs). rewrite normalize_app, IH.
  destruct cs as [|d cs].
  - cbn. by rewrite app_nil_r.
  - assert ((d :: cs) ++ [c] <> []) as Hne by done. destruct ((d :: cs) ++ [c]) eqn:He; [done|].
    rewrite <- He, flat_app. apply Forall_cons in Hcs as [[Hd _] _].
    destruct (Nat.ltb_spec 1 (length (flat (d :: cs)))) as [_|Hl].
    + cbn [flat flat_map]. by rewrite app_nil_r, <- app_assoc.
    + cbn in Hl. rewrite length_app in Hl. destruct d; [done|cbn in Hl; lia].
Qed.

(** Words without slashes followed by nothing or a slash are determined. *)
Lemma word_app_inj (c d x y : byte_string) :
  Forall (fun a => a <> slash) c -> Forall (fun a => a <> slash) d ->
  head x = None \/ head x = Some slash -> head y = None \/ head y = Some slash ->
  c ++ x = d ++ y -> c = d /\ x = y.
Proof.
  intros Hc. revert d. induction Hc as [|a c Ha _ IH]; intros d Hd Hx Hy He.
  - destruct d as [|b d]; [done|]. cbn in He. subst x. inversion_clear Hd.
    destruct Hx as [Hx|Hx]; cbn in Hx; [done|]. by injection Hx as ->.
  - destruct d as [|b d]; cbn in He.
    + subst y. destruct Hy as [Hy|Hy]; cbn in Hy; [done|]. by injection Hy as ->.
    + injection He as -> He. inversion_clear Hd as [|? ? ? Hd'].
      destruct (IH d Hd' Hx Hy He) as [-> ->]. done.
Qed.

Lemma flat_head cs : head (flat cs) = None \/ head (flat cs) = Some slash.
Proof. destruct cs; [by left|by right]. Qed.

Lemma flat_prefix cs ds rest :
  Forall is_component cs -> Forall is_component ds ->
  head rest = None \/ head rest = Some slash -> flat ds = flat cs ++ rest ->
  exists es, ds = cs ++ es /\ rest = flat es.
Proof.
  intros Hcs. revert ds. induction Hcs as [|c cs [_ Hc] _ IH]; intros ds Hds Hr He.
  - exists ds. split; [done|]. by cbn in He.
  - destruct ds as [|d ds]; [done|]. inversion_clear Hds as [|? ? [_ Hd] Hds'].
    cbn [flat flat_map app] in He. injection He as He. rewrite <- app_assoc in He.
    apply word_app_inj in He as [-> He]; [|done..|apply flat_head|].
    + destruct (IH ds Hds' Hr He) as (es & -> & ->). by exists es.
    + destruct cs; [done|by right].
Qed.

Lemma flat_nonslash cs : Forall is_component cs -> cs <> [] -> flat cs <> [slash].
Proof.
  intros H Hne. destruct H as [|c cs [Hc _] _]; [done|]. cbn. intros [= He].
  apply app_eq_nil in He as [-> _]. done.
Qed.

Lemma find_last_slash_none w i last :
  Forall (fun a => a <> slash) w -> find_last_slash w i last = last.
Proof.
  intros H. revert i. induction H as [|a w Ha _ IH]; intros i; cbn; [done|].
  destruct (Z.eqb_spec a slash); [done|]. apply IH.
Qed.

Lemma find_last_slash_app s w i last :
  Forall (fun a => a <> slash) w ->
  find_last_slash (s ++ slash :: w) i last = Some (i + length s)%nat.
Proof.
  intros Hw. revert i last. induction s as [|a s IH]; intros i last; cbn.
  - rewrite find_last_slash_none by done. f_equal. lia.
  - rewrite IH. f_equal. lia.
Qed.

Lemma is_prefix_path_spec cs ds :
  Forall is_component cs -> Forall is_component ds ->
  is_prefix_path (normalize cs) (normalize ds) = true <-> cs `prefix_of` ds.
Proof.
  intros Hcs Hds. rewrite !normalize_flat by done. unfold is_prefix_path.
  destruct cs as [|c cs].
  { cbn. split; [intros _; apply prefix_nil|done]. }
  rewrite bool_decide_eq_false_2 by by apply flat_nonslash.
  set (cc := c :: cs). change (Forall is_component cc) in Hcs. assert (2 <= length (flat cc))%nat as Hl.
  { inversion Hcs as [|? ? [Hc _] _ Hx]; subst. destruct c as [|b c]; [done|].
    unfold cc. cbn [flat flat_map app length]. lia. }
  destruct ds as [|d ds].
  { destruct (Nat.ltb_spec (length [slash]) (length (flat cc))) as [_|Hge];
      [|change (length [slash]) with 1%nat in Hge; lia].
    split; [done|]. intros [k Hk]. unfold cc in Hk. done. }
  set (dd := d :: ds) in *. split.
  - destruct (Nat.ltb_spec (length (flat dd)) (length (flat cc))); [done|].
    case_bool_decide as Ht; cbn [negb]; [|done]. intros Hor.
    assert (flat dd = flat cc ++ drop (length (flat cc)) (flat dd)) as He.
    { rewrite <- Ht at 1. by rewrite take_drop. }
    assert (head (drop (length (flat cc)) (flat dd)) = None \/
            head (drop (length (flat cc)) (flat dd)) = Some slash) as Hr.
    { apply orb_true_iff in Hor as [Hor|Hor].
      - apply Nat.eqb_eq in Hor. left. by rewrite drop_ge by lia.
      - apply bool_decide_eq_true in Hor. right. by rewrite (drop_S _ _ _ Hor). }
    destruct (flat_prefix cc dd _ Hcs Hds Hr He) as (es & -> & _). by exists es.
  - intros [es He]. rewrite He, flat_app, length_app.
    destruct (Nat.ltb_spec (length (flat cc) + length (flat es)) (length (flat cc))); [lia|].
    rewrite take_app_length, bool_decide_eq_true_2 by done. cbn [negb].
    apply orb_true_iff. destruct es as [|e es].
    + left. apply Nat.eqb_eq. cbn. lia.
    + right. apply bool_decide_eq_true. rewrite lookup_app_r by lia. by rewrite Nat.sub_diag.
Qed.

Lemma parent_path_spec cs c :
  Forall is_component (cs ++ [c]) -> parent_path (normalize (cs ++ [c])) = normalize cs.
Proof.
  intros H. pose proof H as [Hcs Hc]%Forall_app. apply (proj1 (Forall_singleton _ _)) in Hc as [_ Hc].
  rewrite !normalize_flat by done. destruct (cs ++ [c]) eqn:He; [by destruct cs|]. rewrite <- He in *.
  unfold parent_path. rewrite bool_decide_eq_false_2 by (apply flat_nonslash; [done|by destruct cs]).
  rewrite flat_app. change (flat [c]) with (slash :: c ++ []). rewrite app_nil_r.
  rewrite find_last_slash_app by done. cbn [Nat.add].
  destruct cs as [|d cs]; [done|]. change (flat (d :: cs)) with (slash :: d ++ flat cs).
  cbn [length]. exact (take_app_length (slash :: d ++ flat cs) (slash :: c)).
Qed.

(** On normalized paths the character-level helpers of [rename_path] act on
    components: [parent_path] drops the last one, [is_prefix_path] holds exactly
    when the components are a prefix, and [rewrite_destination_path] replaces
    the prefix [cs] of the source by [ds]. *)
Lemma rename_paths_by_components (cs ds es : list byte_string) (c : byte_string) :
  Forall is_component (cs ++ ds ++ es ++ [c]) -> cs <> [] -> ds <> [] ->
  parent_path (normalize (cs ++ [c])) = normalize cs /\
  (is_prefix_path (normalize cs) (normalize ds) = true <-> cs `prefix_of` ds) /\
  rewrite_destination_path (normalize (cs ++ es)) (normalize cs) (normalize ds) = normalize (ds ++ es).
Proof.
  intros H Hne Hde. apply Forall_app in H as [Hcs H]. apply Forall_app in H as [Hds H].
  apply Forall_app in H as [Hes Hc].
  split; [by apply parent_path_spec, Forall_app|]. split; [by apply is_prefix_path_spec|].
  unfold rewrite_destination_path.
  rewrite (proj2 (is_prefix_path_spec cs (cs ++ es) Hcs ltac:(by apply Forall_app)))
    by (by exists es). cbn [negb].
  rewrite !normalize_flat by (done || by apply Forall_app).
  destruct cs as [|x cs]; [done|]. destruct ds as [|y ds]; [done|]. cbn [app].
  change (x :: cs ++ es) with ((x :: cs) ++ es). change (y :: ds ++ es) with ((y :: ds) ++ es).
  rewrite !flat_app. rewrite drop_app_length. case_bool_decide as He; [|done].
  assert (flat es = []) as ->; [|by rewrite app_nil_r].
  apply (f_equal length) in He. rewrite length_app in He. destruct (flat es); [done|cbn in He; lia].
Qed.

(** ** The sorts *)

Lemma insert_sorted_perm {A} (lt : A -> A -> bool) x l : insert_sorted lt x l ≡ₚ x :: l.
Proof.
  induction l as [|y l IH]; cbn; [done|]. destruct (lt x y); [done|].
  rewrite IH. apply perm_swap.
Qed.

Lemma sort_by_perm_gen {A} (lt : A -> A -> bool) l acc :
  fold_left (fun acc x => insert_sorted lt x acc) l acc ≡ₚ l ++ acc.
Proof.
  revert acc. induction l as [|x l IH]; intros acc; cbn; [done|].
  rewrite IH, insert_sorted_perm. by rewrite Permutation_middle.
Qed.

Lemma insert_sorted_sorted {A} (lt : A -> A -> bool) (R : A -> A -> Prop) x l :
  (forall x y, lt x y = true -> R x y) -> (forall x y, lt x y = false -> R y x) ->
  (forall x y z, R x y -> R y z -> R x z) ->
  StronglySorted R l -> StronglySorted R (insert_sorted lt x l).
Proof.
  intros H1 H2 HT. induction 1 as [|y l Hl IH Hy]; cbn; [by repeat constructor|].
  destruct (lt x y) eqn:Hxy.
  - constructor; [by constructor|]. constructor; [by apply H1|].
    eapply Forall_impl; [exact Hy|]. intros z. apply HT. by apply H1.
  - constructor; [done|]. rewrite insert_sorted_perm. constructor; [by apply H2|done].
Qed.

Lemma sort_by_sorted {A} (lt : A -> A -> bool) (R : A -> A -> Prop) l :
  (forall x y, lt x y = true -> R x y) -> (forall x y, lt x y = false -> R y x) ->
  (forall x y z, R x y -> R y z -> R x z) -> StronglySorted R (sort_by lt l).
Proof.
  intros H1 H2 HT. unfold sort_by. assert (StronglySorted R []) as H by constructor.
  revert H. generalize (@nil A). induction l as [|x l IH]; intros acc H; cbn; [done|].
  by apply IH, insert_sorted_sorted.
Qed.

Lemma sort_by_perm {A} (lt : A -> A -> bool) l : sort_by lt l ≡ₚ l.
Proof. unfold sort_by. by rewrite sort_by_perm_gen, app_nil_r. Qed.

(** [rename_path] creates the items of its plan in an order in which no
    item comes before a shallower one, so a parent is there before what lies
    below it, and removes the sources in an order in which no item comes before
    a deeper one; both orders hold every item of the plan exactly as often as
    the plan does. *)
Lemma rename_plan_orders (plan : list rename_plan_item) :
  let creates := sort_by plan_create_lt plan in
  let removes := sort_by plan_remove_lt creates in
  creates ≡ₚ plan /\ removes ≡ₚ plan /\
  StronglySorted (fun x y => pi_depth x <= pi_depth y) creates /\
  StronglySorted (fun x y => pi_depth y <= pi_depth x) removes.
Proof.
  intros creates removes. split; [apply sort_by_perm|].
  split; [exact (Permutation_trans (sort_by_perm _ _) (sort_by_perm _ _))|].
  split; apply sort_by_sorted; try lia; intros x y;
    unfold plan_create_lt, plan_remove_lt; case_match eqn:He; try lia;
    apply negb_false_iff, Z.eqb_eq in He; lia.
Qed.
