(* ===== verification/Limbo.v ===== *)
(** * Deferred reclamation: limbo groups (kvthread.hh, kvthread.cc)

    Every thread keeps the objects it has unlinked in a list of limbo groups.  An
    array cell is an object with its memory tag, or, where the pointer is null,
    the epoch of the objects after it.  [hard_rcu_quiesce] frees what no reader
    can hold any more and recycles the groups it empties. *)

From S2P Require Export Prelude.

#[local] Open Scope Z_scope.
#[local] Open Scope lhm_scope.

(** ** Memory tags (mtcounters.hh) *)

Definition memtag_pool_mask : Z := 255.
(** [memtag(-1)]: the object is a callback. *)
Definition memtag_callback : Z := -1.

(** ** The data *)

(** [u_] is the tag of an object and the epoch of a marker. *)
Record limbo_element := LimboElement { le_ptr : Z; le_u : Z }.

Definition limbo_capacity : Z := (4076 - 8 - 8) / 16.

Record limbo_group := LimboGroup {
  lg_head : Z;
  lg_tail : Z;
  lg_epoch : Z;
  lg_next : option positive;
  lg_e : list limbo_element
}.

(** The fields of [threadinfo] that reclamation uses: its groups in the store,
    the free lists of the pools, and the objects handed to [free_rcu] so far. *)
Record threadinfo := ThreadInfo {
  ti_gc_epoch : Z;
  ti_perform_gc_epoch : Z;
  ti_groups : gmap positive limbo_group;
  ti_next_group : positive;
  ti_limbo_head : positive;
  ti_limbo_tail : positive;
  ti_pool : list (list Z);
  ti_freed : list (Z * Z)
}.

Definition TM (A : Type) : Type := sm threadinfo A.

Definition set_gc_epoch x t := ThreadInfo x (ti_perform_gc_epoch t) (ti_groups t) (ti_next_group t) (ti_limbo_head t) (ti_limbo_tail t) (ti_pool t) (ti_freed t).
Definition set_perform_gc_epoch x t := ThreadInfo (ti_gc_epoch t) x (ti_groups t) (ti_next_group t) (ti_limbo_head t) (ti_limbo_tail t) (ti_pool t) (ti_freed t).
Definition set_groups x t := ThreadInfo (ti_gc_epoch t) (ti_perform_gc_epoch t) x (ti_next_group t) (ti_limbo_head t) (ti_limbo_tail t) (ti_pool t) (ti_freed t).
Definition set_next_group x t := ThreadInfo (ti_gc_epoch t) (ti_perform_gc_epoch t) (ti_groups t) x (ti_limbo_head t) (ti_limbo_tail t) (ti_pool t) (ti_freed t).
Definition set_limbo_head x t := ThreadInfo (ti_gc_epoch t) (ti_perform_gc_epoch t) (ti_groups t) (ti_next_group t) x (ti_limbo_tail t) (ti_pool t) (ti_freed t).
Definition set_limbo_tail x t := ThreadInfo (ti_gc_epoch t) (ti_perform_gc_epoch t) (ti_groups t) (ti_next_group t) (ti_limbo_head t) x (ti_pool t) (ti_freed t).
Definition set_pool x t := ThreadInfo (ti_gc_epoch t) (ti_perform_gc_epoch t) (ti_groups t) (ti_next_group t) (ti_limbo_head t) (ti_limbo_tail t) x (ti_freed t).
Definition set_freed x t := ThreadInfo (ti_gc_epoch t) (ti_perform_gc_epoch t) (ti_groups t) (ti_next_group t) (ti_limbo_head t) (ti_limbo_tail t) (ti_pool t) x.

Definition set_lg_bounds h t g := LimboGroup h t (lg_epoch g) (lg_next g) (lg_e g).
Definition set_lg_next n g := LimboGroup (lg_head g) (lg_tail g) (lg_epoch g) n (lg_e g).
Definition set_lg_e es g := LimboGroup (lg_head g) (lg_tail g) (lg_epoch g) (lg_next g) es.

(** [mrcu_signed_epoch_type(a - b)] *)
Definition epoch_diff (a b : Z) : Z := Word.signed 64 (Word.subw 64 a b).

Section limbo.
(** What a fresh group's memory holds before it is written. *)
Context (junk : list limbo_element) (junk_epoch : Z).
(** The objects a callback hands to the reclamation, with the global epoch each
    time. *)
Context (run_callback : Z -> list (Z * Z * Z)).

Definition modify (f : threadinfo -> threadinfo) : TM unit := fun t => Ok (tt, f t).
Definition gets {A} (f : threadinfo -> A) : TM A := fun t => Ok (f t, t).

Definition get_group (p : positive) : TM limbo_group :=
  fun t => match ti_groups t !! p with Some g => Ok (g, t) | None => Fault NullPointer end.
Definition put_group (p : positive) (g : limbo_group) : TM unit :=
  modify (fun t => set_groups (<[p := g]> (ti_groups t)) t).

(** ** Recording objects *)

Definition new_limbo_group : limbo_group := LimboGroup 0 0 junk_epoch None junk.

Definition first_epoch (g : limbo_group) : res Z :=
  let? _ := check_res (negb (lg_head g =? lg_tail g)) in
  let? e := aget (lg_e g) (lg_head g) in
  Ok (le_u e).

Definition push_back (ptr tag epoch : Z) (g : limbo_group) : res limbo_group :=
  let? _ := check_res (lg_tail g + 2 <=? limbo_capacity) in
  let? g := (if (lg_head g =? lg_tail g) || negb (lg_epoch g =? epoch) then
      let? es := aset (lg_e g) (lg_tail g) (LimboElement 0 epoch) in
      Ok (LimboGroup (lg_head g) (lg_tail g + 1) epoch (lg_next g) es)
    else Ok g) in
  let? es := aset (lg_e g) (lg_tail g) (LimboElement ptr tag) in
  Ok (LimboGroup (lg_head g) (lg_tail g + 1) (lg_epoch g) (lg_next g) es).

Definition refill_rcu : TM unit :=
  let* tail := gets ti_limbo_tail in
  let* g := get_group tail in
  (match lg_next g with
   | Some _ => mret tt
   | None =>
     let* n := gets ti_next_group in
     modify (set_next_group (n + 1)%positive) ;;
     put_group n new_limbo_group ;;
     put_group tail (set_lg_next (Some n) g)
   end) ;;
  let* g := get_group tail in
  let* n := deref (lg_next g) in
  modify (set_limbo_tail n) ;;
  let* g := get_group n in
  check ((lg_head g =? 0) && (lg_tail g =? 0)).

(** [record_rcu(ptr, tag)] with the global epoch it loads. *)
Definition record_rcu (ptr tag epoch : Z) : TM unit :=
  let* tail := gets ti_limbo_tail in
  let* g := get_group tail in
  (if limbo_capacity <? lg_tail g + 2 then refill_rcu else mret tt) ;;
  let* tail := gets ti_limbo_tail in
  let* g := get_group tail in
  let* g := lift (push_back ptr tag epoch g) in
  put_group tail g.

Fixpoint record_all (rs : list (Z * Z * Z)) : TM unit :=
  match rs with
  | [] => mret tt
  | (ptr, tag, epoch) :: rs => record_rcu ptr tag epoch ;; record_all rs
  end.

(** ** Freeing *)

Definition log_freed (ptr tag : Z) : TM unit := modify (fun t => set_freed (ti_freed t ++ [(ptr, tag)]) t).

Definition free_rcu (ptr tag : Z) : TM unit :=
  log_freed ptr tag ;;
  if Z.land tag memtag_pool_mask =? 0 then mret tt
  else if tag =? memtag_callback then record_all (run_callback ptr)
  else
    let nl := Z.land tag memtag_pool_mask in
    let* pool := gets ti_pool in
    let* blocks := lift (aget pool (nl - 1)) in
    let* pool := lift (aset pool (nl - 1) (ptr :: blocks)) in
    modify (set_pool pool).

(** The loop of [limbo_group::clean_until]. *)
Fixpoint clean_loop (fuel : nat) (p : positive) (epoch_bound count epoch : Z) : TM Z :=
  match fuel with
  | O => fail OutOfFuel
  | S fuel =>
    let* g := get_group p in
    if lg_head g =? lg_tail g then mret count
    else
      let* e := lift (aget (lg_e g) (lg_head g)) in
      if negb (le_ptr e =? 0) then
        free_rcu (le_ptr e) (le_u e) ;;
        let count := Word.subw 32 count 1 in
        let* g := get_group p in
        if count =? 0 then
          let* es := lift (aset (lg_e g) (lg_head g) (LimboElement 0 epoch)) in
          put_group p (set_lg_e es g) ;;
          mret count
        else
          put_group p (set_lg_bounds (lg_head g + 1) (lg_tail g) g) ;;
          clean_loop fuel p epoch_bound count epoch
      else
        let epoch := le_u e in
        if epoch_diff epoch_bound epoch <? 0 then mret count
        else
          put_group p (set_lg_bounds (lg_head g + 1) (lg_tail g) g) ;;
          clean_loop fuel p epoch_bound count epoch
  end.

Definition clean_fuel : nat := Z.to_nat limbo_capacity + 1.

Definition clean_until (p : positive) (epoch_bound count : Z) : TM Z :=
  let* count := clean_loop clean_fuel p epoch_bound count 0 in
  let* g := get_group p in
  (if lg_head g =? lg_tail g then put_group p (set_lg_bounds 0 0 g) else mret tt) ;;
  mret count.

(** ** [hard_rcu_quiesce] *)

Definition rcu_free_count : Z := 128.

(** [hook empties after limbo_tail_] *)
Definition hook_empties (empty_head empty_tail : option positive) : TM unit :=
  match empty_head with
  | None => mret tt
  | Some eh =>
    let* et := deref empty_tail in
    let* tail := gets ti_limbo_tail in
    let* tg := get_group tail in
    let* eg := get_group et in
    put_group et (set_lg_next (lg_next tg) eg) ;;
    let* tg := get_group tail in
    put_group tail (set_lg_next (Some eh) tg)
  end.

(** [clean \[limbo_head_, limbo_tail_\]] *)
Fixpoint quiesce_loop (fuel : nat) (empty_head empty_tail : option positive) (epoch_bound count : Z) : TM Z :=
  match fuel with
  | O => fail OutOfFuel
  | S fuel =>
    if count =? 0 then hook_empties empty_head empty_tail ;; mret count
    else
      let* head := gets ti_limbo_head in
      let* count := clean_until head epoch_bound count in
      let* head := gets ti_limbo_head in
      let* g := get_group head in
      if negb (lg_head g =? lg_tail g) then hook_empties empty_head empty_tail ;; mret count
      else
        let empty_head := match empty_head with None => head | Some eh => eh end in
        let empty_tail := head in
        let* tail := gets ti_limbo_tail in
        if bool_decide (head = tail) then
          modify (set_limbo_head empty_head) ;;
          modify (set_limbo_tail empty_head) ;;
          mret count
        else
          let* n := deref (lg_next g) in
          modify (set_limbo_head n) ;;
          quiesce_loop fuel (Some empty_head) (Some empty_tail) epoch_bound count
  end.

(** Every round but the first one frees an object. *)
Definition quiesce_fuel : nat := Z.to_nat rcu_free_count + 2.

Definition hard_rcu_quiesce (active_epoch : Z) : TM unit :=
  let epoch_bound := Word.subw 64 active_epoch 1 in
  let* head := gets ti_limbo_head in
  let* g := get_group head in
  let* count :=
    (if lg_head g =? lg_tail g then mret rcu_free_count
     else
       let* fe := lift (first_epoch g) in
       if epoch_diff epoch_bound fe <? 0 then mret rcu_free_count
       else quiesce_loop quiesce_fuel None None epoch_bound rcu_free_count) in
  modify (set_perform_gc_epoch (if count =? 0 then epoch_bound else Word.addw 64 epoch_bound 1)).

(** ** Read sections *)

Definition rcu_start (globalepoch : Z) : TM unit :=
  let* e := gets ti_gc_epoch in
  if negb (e =? globalepoch) then modify (set_gc_epoch globalepoch) else mret tt.
Definition quiesce_if_due (active_epoch : Z) : TM unit :=
  let* pe := gets ti_perform_gc_epoch in
  if negb (pe =? active_epoch) then hard_rcu_quiesce active_epoch else mret tt.
Definition rcu_stop (active_epoch : Z) : TM unit :=
  quiesce_if_due active_epoch ;; modify (set_gc_epoch 0).
Definition rcu_quiesce (globalepoch active_epoch : Z) : TM unit :=
  rcu_start globalepoch ;; quiesce_if_due active_epoch.

(** A new thread: one empty group, empty pools. *)
Definition pool_max_nlines : Z := 20.
Definition new_threadinfo : threadinfo :=
  ThreadInfo 0 0 {[1%positive := new_limbo_group]} 2 1 1 (replicate (Z.to_nat pool_max_nlines) []) [].
End limbo.

(** One round of [min_active_epoch()]: the epoch of a thread against the oldest so far. *)
Definition older_epoch (ae te : Z) : Z := if negb (te =? 0) && (epoch_diff te ae <? 0) then te else ae.
(** [min_active_epoch()] over the epochs of all threads. *)
Definition min_active_epoch (globalepoch : Z) (gc_epochs : list Z) : Z := foldl older_epoch globalepoch gc_epochs.
