(* ===== verification/LimboFacts.v ===== *)
(** * The limbo queue

    A thread's limbo groups hold a queue of retired objects with the epochs they
    were retired in.  Recording appends to it; [hard_rcu_quiesce] frees a prefix
    whose epochs are below the bound, at most [rcu_free_count] objects of it,
    each once and in order, for callbacks that record further objects. *)

From S2P Require Export Limbo.

#[local] Open Scope Z_scope.
#[local] Open Scope lhm_scope.

(** ** The elements of a group *)

(** The cells in use. *)
Definition slice (g : limbo_group) : list limbo_element :=
  take (Z.to_nat (lg_tail g - lg_head g)) (drop (Z.to_nat (lg_head g)) (lg_e g)).

(** An object in limbo: its epoch, pointer and tag. *)
Definition retired : Type := (Z * Z * Z).

(** The objects of a run of cells read with the epoch [cur]. *)
Fixpoint decode (cur : Z) (es : list limbo_element) : list retired :=
  match es with
  | [] => []
  | e :: es => if le_ptr e =? 0 then decode (le_u e) es else (cur, le_ptr e, le_u e) :: decode cur es
  end.

(** The epoch after a run of cells. *)
Fixpoint final (cur : Z) (es : list limbo_element) : Z :=
  match es with
  | [] => cur
  | e :: es => final (if le_ptr e =? 0 then le_u e else cur) es
  end.

Lemma decode_app cur es es' : decode cur (es ++ es') = decode cur es ++ decode (final cur es) es'.
Proof. revert cur. induction es as [|e es IH]; intros cur; cbn; [done|]. destruct (le_ptr e =? 0); cbn; by rewrite IH. Qed.

Lemma final_app cur es es' : final cur (es ++ es') = final (final cur es) es'.
Proof. revert cur. induction es as [|e es IH]; intros cur; cbn; [done|]. apply IH. Qed.

(** A run that starts with a marker does not depend on the epoch before it. *)
Definition marked (es : list limbo_element) : Prop := exists u rest, es = LimboElement 0 u :: rest.

(** A marker with an object behind it. *)
Definition solid (es : list limbo_element) : Prop :=
  exists u e rest, es = LimboElement 0 u :: e :: rest /\ le_ptr e <> 0.

Lemma solid_marked es : solid es -> marked es.
Proof. intros (u & e & rest & -> & _). by exists u, (e :: rest). Qed.

Lemma solid_app es es' : solid es -> solid (es ++ es').
Proof. intros (u & e & rest & -> & He). by exists u, e, (rest ++ es'). Qed.

Lemma marked_decode cur cur' es : marked es -> decode cur es = decode cur' es.
Proof. by intros (u & rest & ->). Qed.

Record group_wf (g : limbo_group) : Prop := {
  gw_bounds : 0 <= lg_head g /\ lg_head g <= lg_tail g <= limbo_capacity;
  gw_length : Z.of_nat (length (lg_e g)) = limbo_capacity
}.

Definition group_empty (g : limbo_group) : Prop := lg_head g = 0 /\ lg_tail g = 0.

Lemma slice_nil g : group_wf g -> slice g = [] <-> lg_head g = lg_tail g.
Proof.
  intros [[H1 H2] H3]. unfold slice. split; [|intros ->; by rewrite Z.sub_diag].
  intros H. apply (f_equal length) in H. rewrite length_take, length_drop in H. cbn in H. lia.
Qed.

Lemma slice_cons g e es :
  group_wf g -> slice g = e :: es ->
  lg_head g < lg_tail g /\ aget (lg_e g) (lg_head g) = Ok e /\
  slice (set_lg_bounds (lg_head g + 1) (lg_tail g) g) = es /\ group_wf (set_lg_bounds (lg_head g + 1) (lg_tail g) g).
Proof.
  intros Hg Hs. pose proof Hg as [[H1 H2] H3].
  assert (lg_head g < lg_tail g) as Hlt.
  { destruct (Z.eq_dec (lg_head g) (lg_tail g)) as [He|]; [|lia]. apply slice_nil in He; [|done]. by rewrite He in Hs. }
  split; [done|]. unfold slice in *. split; [|split].
  - apply aget_ok. split; [lia|]. replace (Z.to_nat (lg_tail g - lg_head g)) with (S (Z.to_nat (lg_tail g - lg_head g - 1))) in Hs by lia.
    destruct (drop (Z.to_nat (lg_head g)) (lg_e g)) as [|x xs] eqn:Hd; [done|]. injection Hs as -> _.
    rewrite <- (Nat.add_0_r (Z.to_nat (lg_head g))), <- lookup_drop, Hd. done.
  - cbn. replace (Z.to_nat (lg_tail g - lg_head g)) with (S (Z.to_nat (lg_tail g - lg_head g - 1))) in Hs by lia.
    replace (Z.to_nat (lg_head g + 1)) with (Z.to_nat (lg_head g) + 1)%nat by lia. rewrite <- drop_drop.
    destruct (drop (Z.to_nat (lg_head g)) (lg_e g)) as [|x xs]; [done|]. injection Hs as _ <-. cbn. rewrite drop_0.
    f_equal. lia.
  - split; cbn; lia.
Qed.

(** Writing the first cell in use. *)
Lemma slice_set_head g e e' es :
  group_wf g -> slice g = e :: es ->
  exists xs, aset (lg_e g) (lg_head g) e' = Ok xs /\ slice (set_lg_e xs g) = e' :: es /\ group_wf (set_lg_e xs g).
Proof.
  intros Hg Hs. destruct (slice_cons g e es Hg Hs) as (Hlt & _ & Hes & _). pose proof Hg as [[H1 H2] H3].
  exists (<[Z.to_nat (lg_head g) := e']> (lg_e g)). split; [|split].
  - apply aset_ok. split; [lia|done].
  - rewrite <- Hes. unfold slice. cbn.
    replace (Z.to_nat (lg_tail g - lg_head g)) with (S (Z.to_nat (lg_tail g - (lg_head g + 1)))) by lia.
    rewrite (drop_S _ e') by (apply list_lookup_insert_eq; lia). cbn. f_equal. f_equal.
    replace (Z.to_nat (lg_head g + 1)) with (S (Z.to_nat (lg_head g))) by lia.
    apply drop_insert_lt. lia.
  - split; cbn; [lia|]. by rewrite length_insert.
Qed.

(** Writing the cell after the last one in use. *)
Lemma slice_push g e :
  group_wf g -> lg_tail g < limbo_capacity ->
  exists xs, aset (lg_e g) (lg_tail g) e = Ok xs /\ Z.of_nat (length xs) = limbo_capacity /\
    forall ep, let g' := LimboGroup (lg_head g) (lg_tail g + 1) ep (lg_next g) xs in
    slice g' = slice g ++ [e] /\ group_wf g'.
Proof.
  intros Hg Hlt. pose proof Hg as [[H1 H2] H3].
  exists (<[Z.to_nat (lg_tail g) := e]> (lg_e g)). split; [apply aset_ok; split; [lia|done]|].
  split; [by rewrite length_insert|]. intros ep g'. split; [|split; cbn; [lia|by rewrite length_insert]].
  unfold slice. cbn. replace (Z.to_nat (lg_tail g + 1 - lg_head g)) with (S (Z.to_nat (lg_tail g - lg_head g))) by lia.
  rewrite (take_S_r _ _ e).
  - f_equal. rewrite drop_insert_ge by lia. rewrite take_insert_ge by lia. done.
  - rewrite lookup_drop. replace (Z.to_nat (lg_head g) + Z.to_nat (lg_tail g - lg_head g))%nat with (Z.to_nat (lg_tail g)) by lia.
    apply list_lookup_insert_eq. lia.
Qed.

Lemma push_back_run ptr tag epoch g :
  group_wf g -> lg_tail g + 2 <= limbo_capacity ->
  exists g', push_back ptr tag epoch g = Ok g' /\ group_wf g' /\ lg_next g' = lg_next g /\ lg_head g' = lg_head g /\
    lg_epoch g' = epoch /\
    slice g' = slice g ++ (if bool_decide (slice g = []) || negb (lg_epoch g =? epoch) then [LimboElement 0 epoch] else []) ++
               [LimboElement ptr tag].
Proof.
  intros Hg Hc. unfold push_back. rewrite (proj2 (Z.leb_le _ _)) by done. cbn [check_res rbind res_bind].
  assert ((lg_head g =? lg_tail g) = bool_decide (slice g = [])) as ->.
  { case_bool_decide as Hs; rewrite slice_nil in Hs by done; [by apply Z.eqb_eq|by apply Z.eqb_neq]. }
  destruct (bool_decide (slice g = []) || negb (lg_epoch g =? epoch)) eqn:Hb.
  - destruct (slice_push g (LimboElement 0 epoch) Hg ltac:(lia)) as (xs & Hxs & Hlen & Hg1).
    rewrite Hxs. cbn [rbind res_bind]. destruct (Hg1 epoch) as [Hs1 Hw1]. set (g1 := LimboGroup _ _ _ _ _) in *.
    destruct (slice_push g1 (LimboElement ptr tag) Hw1 ltac:(cbn; lia)) as (ys & Hys & _ & Hg2).
    unfold rbind, res_bind. rewrite Hys. destruct (Hg2 epoch) as [Hs2 Hw2]. eexists. split; [done|]. split; [exact Hw2|].
    repeat (split; [done|]). change (slice (LimboGroup (lg_head g1) (lg_tail g1 + 1) (lg_epoch g1) (lg_next g1) ys)) with
      (slice (LimboGroup (lg_head g1) (lg_tail g1 + 1) epoch (lg_next g1) ys)). rewrite Hs2, Hs1. by rewrite <- app_assoc.
  - apply orb_false_iff in Hb as [_ Hep]. apply negb_false_iff, Z.eqb_eq in Hep.
    destruct (slice_push g (LimboElement ptr tag) Hg ltac:(lia)) as (ys & Hys & _ & Hg2).
    unfold rbind, res_bind. rewrite Hys. destruct (Hg2 (lg_epoch g)) as [Hs2 Hw2]. eexists. split; [done|]. split; [exact Hw2|].
    repeat (split; [done|]). by rewrite Hs2.
Qed.

(** ** The linked groups *)

Abbreviation groups := (gmap positive limbo_group).
Abbreviation links := (list (positive * limbo_group)).

(** From [p], the groups [xs] are linked up to the pointer [q]. *)
Fixpoint seg (h : groups) (p : option positive) (xs : links) (q : option positive) : Prop :=
  match xs with
  | [] => p = q
  | (x, g) :: xs => p = Some x /\ h !! x = Some g /\ seg h (lg_next g) xs q
  end.

Lemma seg_app h p xs ys q : seg h p (xs ++ ys) q <-> exists r, seg h p xs r /\ seg h r ys q.
Proof.
  revert p. induction xs as [|[x g] xs IH]; intros p; cbn.
  - split; [intros; by exists p|by intros (r & -> & ?)].
  - rewrite IH. split; [intros (-> & ? & r & ? & ?); by exists r|intros (r & (-> & ? & ?) & ?); eauto].
Qed.

Lemma seg_insert h p xs q x g : x ∉ xs.*1 -> seg (<[x := g]> h) p xs q <-> seg h p xs q.
Proof.
  revert p. induction xs as [|[y gy] xs IH]; intros p; cbn; [done|]. intros [Hne Hx]%not_elem_of_cons.
  by rewrite lookup_insert_ne, IH.
Qed.

Lemma seg_lookup h p xs q x g : seg h p xs q -> (x, g) ∈ xs -> h !! x = Some g.
Proof.
  revert p. induction xs as [|[y gy] xs IH]; intros p; cbn; [by intros _ ?%elem_of_nil|].
  intros (_ & Hy & Hs) [[= -> ->]|Hx]%elem_of_cons; [done|by eapply IH].
Qed.

(** One group of a list written, its link kept. *)
Lemma seg_update h p xs x g g' ys q :
  NoDup (xs ++ (x, g) :: ys).*1 -> lg_next g' = lg_next g -> seg h p (xs ++ (x, g) :: ys) q ->
  seg (<[x := g']> h) p (xs ++ (x, g') :: ys) q.
Proof.
  rewrite fmap_app. cbn. intros (Hx & Hxy & Hnd)%NoDup_app Hn (r & H1 & H2)%seg_app. cbn in H2. destruct H2 as (-> & Hg & H2).
  apply NoDup_cons in Hnd as [Hy _]. apply seg_app. exists (Some x). split.
  - apply seg_insert; [|done]. intros Hin. apply (Hxy x Hin). left.
  - cbn. split; [done|]. split; [apply lookup_insert_eq|]. rewrite Hn. by apply seg_insert.
Qed.

Lemma ids_middle (xs ys : links) x g g' : (xs ++ (x, g) :: ys).*1 = (xs ++ (x, g') :: ys).*1.
Proof. by rewrite !fmap_app. Qed.

(** ** The queue *)

Section queue.
Context (junk : list limbo_element) (junk_epoch : Z) (run_callback : Z -> list (Z * Z * Z)).
Context (Hjunk : Z.of_nat (length junk) = limbo_capacity).

Abbreviation record_rcu := (record_rcu junk junk_epoch).
Abbreviation record_all := (record_all junk junk_epoch).
Abbreviation free_rcu := (free_rcu junk junk_epoch run_callback).
Abbreviation clean_loop := (clean_loop junk junk_epoch run_callback).
Abbreviation clean_until := (clean_until junk junk_epoch run_callback).
Abbreviation quiesce_loop := (quiesce_loop junk junk_epoch run_callback).
Abbreviation hard_rcu_quiesce := (hard_rcu_quiesce junk junk_epoch run_callback).

(** The cells of the groups in use. *)
Definition cells (lives : links) : list limbo_element := flat_map (fun x => slice (snd x)) lives.

Lemma cells_app xs ys : cells (xs ++ ys) = cells xs ++ cells ys.
Proof. apply flat_map_app. Qed.

(** The groups while they are cleaned: [es] are the groups emptied so far, still
    linked before the ones in use; [cur] is the epoch of the cells at the front. *)
Record limbo_mid (cur : Z) (t : threadinfo) (es lives spares : links) : Prop := {
  lm_seg : seg (ti_groups t) (fst <$> head (es ++ lives)) (es ++ lives ++ spares) None;
  lm_nodup : NoDup (es ++ lives ++ spares).*1;
  lm_head : fst <$> head lives = Some (ti_limbo_head t);
  lm_tail : fst <$> last lives = Some (ti_limbo_tail t);
  lm_wf : Forall (fun x => group_wf (snd x)) (es ++ lives ++ spares);
  lm_empty : Forall (fun x => group_empty (snd x)) (es ++ spares);
  lm_solid : Forall (fun x => solid (slice (snd x))) (tail lives);
  lm_epoch : forall x, last lives = Some x -> slice (snd x) <> [] -> lg_epoch (snd x) = final cur (cells lives);
  lm_fresh : forall p, (ti_next_group t <= p)%positive -> ti_groups t !! p = None
}.

(** The objects waiting, in order. *)
Definition waiting (cur : Z) (lives : links) : list retired := decode cur (cells lives).

Lemma get_group_run t p g : ti_groups t !! p = Some g -> get_group p t = Ok (g, t).
Proof. unfold get_group. by intros ->. Qed.

Lemma sbind_gets {A B} (f : threadinfo -> A) (k : A -> TM B) t : (let* x := gets f in k x) t = k (f t) t.
Proof. done. Qed.
Lemma mbind_modify {B} f (k : unit -> TM B) t : (modify f ≫= k) t = k tt (f t).
Proof. done. Qed.
Lemma mbind_put {B} p g (k : unit -> TM B) t : (put_group p g ≫= k) t = k tt (set_groups (<[p := g]> (ti_groups t)) t).
Proof. done. Qed.

Lemma last_split (lives : links) x : last lives = Some x -> exists pre, lives = pre ++ [x].
Proof. intros H. apply last_Some in H as [pre ->]. by exists pre. Qed.

(** The lives with the last group written. *)
Lemma lm_write cur t es pre x g g' spares :
  limbo_mid cur t es (pre ++ [(x, g)]) spares -> group_wf g' -> lg_next g' = lg_next g ->
  (pre = [] \/ solid (slice g')) -> lg_epoch g' = final cur (cells (pre ++ [(x, g')])) ->
  limbo_mid cur (set_groups (<[x := g']> (ti_groups t)) t) es (pre ++ [(x, g')]) spares.
Proof.
  intros [Hseg Hnd Hh Ht Hwf Hem Hmk Hep Hfr] Hg' Hn Hm Hf.
  assert (forall y : limbo_group, es ++ (pre ++ [(x, y)]) ++ spares = (es ++ pre) ++ (x, y) :: spares) as Happ
    by (intros y; by rewrite <- !app_assoc).
  rewrite !Happ in *. split; rewrite ?Happ.
  - assert (fst <$> head (es ++ pre ++ [(x, g')]) = fst <$> head (es ++ pre ++ [(x, g)])) as -> by by destruct es, pre.
    by apply (seg_update _ _ _ _ g).
  - by rewrite (ids_middle _ _ x g' g).
  - etrans; [|exact Hh]. by destruct pre.
  - etrans; [|exact Ht]. by rewrite !last_snoc.
  - apply Forall_app in Hwf as [H1 H2]. apply Forall_app. split; [done|].
    apply Forall_cons in H2 as [_ H2]. by constructor.
  - done.
  - destruct pre as [|y pre]; cbn in *; [constructor|]. destruct Hm as [|Hm]; [done|].
    apply Forall_app in Hmk as [H1 _]. apply Forall_app. split; [done|]. by constructor.
  - intros y. rewrite last_snoc. intros [= <-] _. done.
  - intros p Hp. cbn in Hp |- *. rewrite lookup_insert_ne; [by apply Hfr|]. intros ->.
    assert (ti_groups t !! p = Some g) as Hx.
    { eapply seg_lookup; [exact Hseg|]. apply elem_of_app. right. left. }
    by rewrite Hfr in Hx.
Qed.
Lemma in_last (lives : links) x g : last lives = Some (x, g) -> (x, g) ∈ lives.
Proof. intros (pre & ->)%last_split. apply elem_of_app. right. left. Qed.

Lemma lm_lookup cur t es lives spares x g :
  limbo_mid cur t es lives spares -> (x, g) ∈ es ++ lives ++ spares -> ti_groups t !! x = Some g.
Proof. intros Hm Hx. eapply seg_lookup; [apply Hm|done]. Qed.

(** A group allocated behind the last one. *)
Lemma lm_alloc cur t es pre x g :
  limbo_mid cur t es (pre ++ [(x, g)]) [] ->
  let n := ti_next_group t in
  lg_next g = None /\
  limbo_mid cur (set_groups (<[x := set_lg_next (Some n) g]> (<[n := new_limbo_group junk junk_epoch]> (ti_groups t)))
                  (set_next_group (n + 1)%positive t))
    es (pre ++ [(x, set_lg_next (Some n) g)]) [(n, new_limbo_group junk junk_epoch)].
Proof using Hjunk.
  intros Hm n. pose proof Hm as [Hseg Hnd Hh Ht Hwf Hem Hso Hep Hfr]. rewrite app_nil_r in *.
  assert (ti_groups t !! x = Some g) as Hx.
  { eapply lm_lookup; [exact Hm|]. rewrite app_nil_r. apply elem_of_app. right. apply elem_of_app. right. left. }
  assert (forall y, y ∈ (es ++ pre ++ [(x, g)]).*1 -> y <> n) as Hne.
  { intros y ([y' gy] & -> & Hy)%list_elem_of_fmap. cbn. intros ->.
    assert (ti_groups t !! n = Some gy) as Hl by (eapply lm_lookup; [exact Hm|by rewrite app_nil_r]).
    unfold n in Hl. rewrite Hfr in Hl by lia. done. }
  assert (forall y : limbo_group, es ++ pre ++ [(x, y)] = (es ++ pre) ++ [(x, y)]) as Happ by (intros y; by rewrite app_assoc).
  assert (forall (y : limbo_group) z, es ++ (pre ++ [(x, y)]) ++ [z] = (es ++ pre) ++ [(x, y); z]) as Happ2
    by (intros y z; by rewrite <- !app_assoc).
  assert (x <> n) as Hxn by (apply Hne; rewrite Happ, fmap_app; apply elem_of_app; right; left).
  rewrite Happ in *. apply seg_app in Hseg as (r & Hs1 & Hs2). cbn in Hs2. destruct Hs2 as (-> & _ & Hn).
  split; [done|]. assert (n ∉ (es ++ pre).*1) as Hnn.
  { intros Hin. apply (Hne n); [|done]. rewrite fmap_app. apply elem_of_app. by left. }
  assert (x ∉ (es ++ pre).*1) as Hxx.
  { rewrite fmap_app in Hnd. cbn in Hnd. apply NoDup_app in Hnd as (_ & Hd & _). intros Hin. apply (Hd _ Hin). left. }
  split; cbn [ti_groups set_groups ti_limbo_head ti_limbo_tail set_next_group ti_next_group].
  - assert (fst <$> head (es ++ pre ++ [(x, set_lg_next (Some n) g)]) = fst <$> head ((es ++ pre) ++ [(x, g)])) as -> by by destruct es, pre.
    rewrite Happ2. apply seg_app. exists (Some x). split.
    + by rewrite !seg_insert by done.
    + cbn. rewrite lookup_insert_eq, lookup_insert_ne, lookup_insert_eq by done. done.
  - rewrite Happ2, fmap_app. cbn. rewrite fmap_app in Hnd. cbn in Hnd.
    apply NoDup_app in Hnd as (H1 & H2 & _). apply NoDup_app. split; [done|]. split.
    + intros y Hy [->|[->|[]%not_elem_of_nil]%elem_of_cons]%elem_of_cons; done.
    + apply NoDup_cons. split; [by intros ->%list_elem_of_singleton|apply NoDup_singleton].
  - etrans; [|exact Hh]. by destruct pre.
  - etrans; [|exact Ht]. by rewrite !last_snoc.
  - rewrite Happ2. apply Forall_app in Hwf as [H1 H2]. apply Forall_app. split; [done|].
    apply Forall_cons in H2 as [[Hb Hl] _]. constructor; [by split|]. constructor; [|done].
    unfold new_limbo_group. split; cbn; [|done]. split; [lia|]. split; [lia|]. by apply (bool_decide_unpack (0 <= limbo_capacity)).
  - apply Forall_app. split; [done|]. constructor; [by split|done].
  - destruct pre as [|y pre]; cbn in *; [constructor|]. apply Forall_app in Hso as [H1 H2]. apply Forall_app. split; [done|].
    apply Forall_cons in H2 as [H2 _]. by constructor.
  - intros y. rewrite last_snoc. intros [= <-] Hsl. cbn in *. rewrite cells_app.
    rewrite last_snoc in Hep. specialize (Hep _ eq_refl Hsl). rewrite cells_app in Hep. exact Hep.
  - intros p Hp. rewrite (lookup_insert_ne _ x), (lookup_insert_ne _ n); [apply Hfr; lia|lia|].
    intros ->. rewrite Hfr in Hx by lia. done.
Qed.

(** The tail moves to the next spare group, which takes its first object. *)
Lemma lm_advance cur t es lives y gy gy' spares :
  limbo_mid cur t es lives ((y, gy) :: spares) -> lives <> [] -> group_wf gy' -> lg_next gy' = lg_next gy -> solid (slice gy') ->
  lg_epoch gy' = final cur (cells (lives ++ [(y, gy')])) ->
  limbo_mid cur (set_groups (<[y := gy']> (ti_groups t)) (set_limbo_tail y t)) es (lives ++ [(y, gy')]) spares.
Proof.
  intros Hm Hlv Hg' Hn Hsol Hf. pose proof Hm as [Hseg Hnd Hh Ht Hwf Hem Hso Hep Hfr].
  assert (ti_groups t !! y = Some gy) as Hy.
  { eapply lm_lookup; [exact Hm|]. rewrite !elem_of_app. right. right. left. }
  assert (forall z : limbo_group, es ++ (lives ++ [(y, z)]) ++ spares = (es ++ lives) ++ (y, z) :: spares) as Happ
    by (intros z; by rewrite <- !app_assoc).
  rewrite app_assoc in Hseg, Hnd, Hwf. split; rewrite ?Happ; cbn [ti_groups set_groups ti_limbo_head ti_limbo_tail set_limbo_tail ti_next_group].
  - assert (fst <$> head (es ++ lives ++ [(y, gy')]) = fst <$> head (es ++ lives)) as -> by by destruct es, lives.
    by apply (seg_update _ _ _ _ gy).
  - by rewrite (ids_middle _ _ y gy' gy).
  - rewrite <- Hh. by destruct lives.
  - by rewrite last_snoc.
  - apply Forall_app in Hwf as [H1 H2]. apply Forall_app. split; [done|]. apply Forall_cons in H2 as [_ H2]. by constructor.
  - apply Forall_app in Hem as [H1 H2]. apply Forall_app. split; [done|]. by apply Forall_cons in H2 as [_ H2].
  - destruct lives as [|z lives]; [done|]. cbn in *. apply Forall_app. split; [done|]. by constructor.
  - intros z. rewrite last_snoc. by intros [= <-].
  - intros p Hp. rewrite lookup_insert_ne; [by apply Hfr|]. intros ->. by rewrite Hfr in Hy.
Qed.

(** ** Recording *)

(** The fields recording does not touch. *)
Record keeps (t t' : threadinfo) : Prop := {
  kp_gc : ti_gc_epoch t' = ti_gc_epoch t;
  kp_perform : ti_perform_gc_epoch t' = ti_perform_gc_epoch t;
  kp_head : ti_limbo_head t' = ti_limbo_head t
}.

(** The first group keeps its position and its cells. *)
Definition front (lives lives' : links) : Prop :=
  exists x g g' rest rest' ext, lives = (x, g) :: rest /\ lives' = (x, g') :: rest' /\
    lg_head g' = lg_head g /\ slice g' = slice g ++ ext.

Lemma front_refl x g rest rest' : front ((x, g) :: rest) ((x, g) :: rest').
Proof. exists x, g, g, rest, rest', []. by rewrite app_nil_r. Qed.

Lemma front_trans a b c : front a b -> front b c -> front a c.
Proof.
  intros (x & g & g' & r & r' & e & -> & -> & Hh & Hs) (y & h & h' & q & q' & e' & [= <- <- <-] & -> & Hh' & Hs').
  exists x, g, h', r, q', (e ++ e'). rewrite Hs', Hs, app_assoc. repeat split; congruence.
Qed.

Lemma push_marker_cells cur S g ptr tag epoch :
  (slice g <> [] -> lg_epoch g = final cur (S ++ slice g)) -> ptr <> 0 ->
  let ext := (if bool_decide (slice g = []) || negb (lg_epoch g =? epoch) then [LimboElement 0 epoch] else []) ++
             [LimboElement ptr tag] in
  decode cur (S ++ slice g ++ ext) = decode cur (S ++ slice g) ++ [(epoch, ptr, tag)] /\
  final cur (S ++ slice g ++ ext) = epoch.
Proof.
  intros Hep Hp ext. rewrite app_assoc. rewrite decode_app, (final_app cur (S ++ slice g)).
  destruct (bool_decide (slice g = []) || negb (lg_epoch g =? epoch)) eqn:Hb; subst ext; cbn.
  - by rewrite (proj2 (Z.eqb_neq ptr 0)) by done.
  - rewrite (proj2 (Z.eqb_neq ptr 0)) by done. apply orb_false_iff in Hb as [Hs He].
    apply bool_decide_eq_false in Hs. apply negb_false_iff, Z.eqb_eq in He. by rewrite <- Hep, He.
Qed.

(** A full tail group: the tail moves to a spare group, allocated if need be. *)
Lemma refill_run cur t es pre x g spares :
  limbo_mid cur t es (pre ++ [(x, g)]) spares ->
  exists t0 g1 y gy spares', limbo_mid cur t0 es (pre ++ [(x, g1)]) ((y, gy) :: spares') /\
    refill_rcu junk junk_epoch t = Ok (tt, set_limbo_tail y t0) /\ keeps t t0 /\
    ti_pool t0 = ti_pool t /\ ti_freed t0 = ti_freed t /\ slice g1 = slice g /\ lg_head g1 = lg_head g.
Proof using Hjunk.
  intros Hm. assert (forall t g spares, limbo_mid cur t es (pre ++ [(x, g)]) spares ->
    ti_limbo_tail t = x /\ ti_groups t !! x = Some g) as Htail.
  { intros t' g' sp Hm'. pose proof (lm_tail _ _ _ _ _ Hm') as Ht. rewrite last_snoc in Ht. injection Ht as ->. split; [done|].
    eapply lm_lookup; [exact Hm'|]. rewrite !elem_of_app. right. left. right. left. }
  assert (forall t0 g1 y gy spares', limbo_mid cur t0 es (pre ++ [(x, g1)]) ((y, gy) :: spares') ->
    (let* g := get_group x in let* n := deref (lg_next g) in
     modify (set_limbo_tail n) ;; let* g := get_group n in check ((lg_head g =? 0) && (lg_tail g =? 0))) t0 =
      Ok (tt, set_limbo_tail y t0)) as Hadv.
  { intros t0 g1 y gy spares' Hm0. destruct (Htail _ _ _ Hm0) as [_ Hg1]. rewrite (sbind_run _ _ _ _ _ (get_group_run _ _ _ Hg1)).
    pose proof (lm_seg _ _ _ _ _ Hm0) as (r & _ & (r' & Hs & Hsy)%seg_app)%seg_app. cbn in Hsy. destruct Hsy as (-> & Hgy & _).
    apply seg_app in Hs as (r2 & _ & Hs). cbn in Hs. destruct Hs as (_ & _ & Hnx). rewrite Hnx. cbn [deref].
    rewrite sbind_ret, mbind_modify.
    assert (get_group y (set_limbo_tail y t0) = Ok (gy, set_limbo_tail y t0)) as Hgy' by by apply get_group_run.
    rewrite (sbind_run _ _ _ _ _ Hgy'). pose proof (lm_empty _ _ _ _ _ Hm0) as [_ He]%Forall_app.
    apply Forall_cons in He as [[H1 H2] _]. cbn in H1, H2. apply check_true. by rewrite H1, H2. }
  destruct (Htail _ _ _ Hm) as [Hx Hg]. unfold refill_rcu. rewrite sbind_gets, Hx, (sbind_run _ _ _ _ _ (get_group_run _ _ _ Hg)).
  destruct spares as [|[y gy] spares].
  - destruct (lm_alloc cur t es pre x g Hm) as [Hnx Hm0]. rewrite Hnx. set (n := ti_next_group t) in *.
    eexists _, _, _, _, _. split; [exact Hm0|]. split; [|by repeat split].
    etrans; [|exact (Hadv _ _ _ _ _ Hm0)]. done.
  - exists t, g, y, gy, spares. split; [done|]. split; [|by repeat split].
    pose proof (lm_seg _ _ _ _ _ Hm) as (r & _ & (r' & Hs & Hsy)%seg_app)%seg_app. cbn in Hsy. destruct Hsy as (-> & _ & _).
    apply seg_app in Hs as (r2 & _ & Hs). cbn in Hs. destruct Hs as (_ & _ & ->). rewrite mbind_ret_run. by eapply Hadv.
Qed.

Lemma record_run cur t es lives spares ptr tag epoch :
  limbo_mid cur t es lives spares -> ptr <> 0 ->
  exists t' lives' spares', record_rcu ptr tag epoch t = Ok (tt, t') /\ limbo_mid cur t' es lives' spares' /\
    waiting cur lives' = waiting cur lives ++ [(epoch, ptr, tag)] /\ front lives lives' /\ keeps t t' /\
    ti_pool t' = ti_pool t /\ ti_freed t' = ti_freed t /\
    (forall x g, lives = [(x, g)] -> group_empty g -> exists g', lives' = [(x, g')] /\ marked (slice g')).
Proof using Hjunk.
  intros Hm Hp. pose proof (lm_tail _ _ _ _ _ Hm) as Ht.
  destruct (last lives) as [[x g]|] eqn:Hlast; [|done]. cbn in Ht. injection Ht as Hx.
  pose proof Hlast as (pre & ->)%last_split.
  assert (ti_groups t !! x = Some g) as Hg.
  { eapply lm_lookup; [exact Hm|]. rewrite !elem_of_app. right. left. right. left. }
  assert (group_wf g) as Hwf.
  { pose proof (lm_wf _ _ _ _ _ Hm) as Hw. rewrite Forall_forall in Hw. apply (Hw (x, g)).
    rewrite !elem_of_app. right. left. right. left. }
  pose proof (lm_epoch _ _ _ _ _ Hm _ Hlast) as Hep. cbn [snd] in Hep. rewrite cells_app in Hep. cbn in Hep. rewrite app_nil_r in Hep.
  unfold Limbo.record_rcu. rewrite sbind_gets, <- Hx.
  rewrite (sbind_run _ _ _ _ _ (get_group_run _ _ _ Hg)). destruct (Z.ltb_spec limbo_capacity (lg_tail g + 2)) as [Hfull|Hfit].
  - destruct (refill_run cur t es pre x g spares Hm) as (t0 & g1 & y & gy & spares' & Hm0 & Hrun & Hk & Hpool & Hfr & Hsl1 & Hhd1).
    assert (ti_groups t0 !! y = Some gy) as Hgy.
    { eapply lm_lookup; [exact Hm0|]. rewrite !elem_of_app. right. right. left. }
    pose proof (lm_empty _ _ _ _ _ Hm0) as [_ Hey]%Forall_app. apply Forall_cons in Hey as [[Hy1 Hy2] _]. cbn in Hy1, Hy2.
    assert (group_wf gy) as Hwfy.
    { pose proof (lm_wf _ _ _ _ _ Hm0) as Hw. rewrite Forall_forall in Hw. apply (Hw (y, gy)). rewrite !elem_of_app. right. right. left. }
    assert (slice gy = []) as Hsy by (apply slice_nil; [done|congruence]).
    destruct (push_back_run ptr tag epoch gy Hwfy) as (g' & Hpush & Hwf' & Hn & Hhd & Hep' & Hsl); [rewrite Hy2; by apply (bool_decide_unpack (2 <= limbo_capacity))|].
    rewrite Hsy in Hsl. cbn in Hsl.
    exists (set_groups (<[y := g']> (ti_groups t0)) (set_limbo_tail y t0)), ((pre ++ [(x, g1)]) ++ [(y, g')]), spares'.
    split; [|split; [|split; [|split; [|split; [by destruct Hk|]]]]].
    + rewrite (mbind_run _ _ _ _ _ Hrun), sbind_gets. cbn [ti_limbo_tail set_limbo_tail].
      assert (get_group y (set_limbo_tail y t0) = Ok (gy, set_limbo_tail y t0)) as Hgy' by by apply get_group_run.
      rewrite (sbind_run _ _ _ _ _ Hgy'), (sbind_run _ _ _ _ _ (lift_run _ _ _ Hpush)). done.
    + eapply lm_advance; [exact Hm0|by destruct pre|done|done|..].
      * rewrite Hsl. by exists epoch, (LimboElement ptr tag), [].
      * rewrite cells_app, final_app. cbn [cells flat_map snd]. rewrite app_nil_r, Hsl, Hep'. cbn.
        by rewrite (proj2 (Z.eqb_neq ptr 0)) by done.
    + unfold waiting. rewrite !cells_app. cbn. rewrite !app_nil_r, Hsl, Hsl1, (decode_app cur (cells pre ++ slice g)).
      cbn. by rewrite (proj2 (Z.eqb_neq ptr 0)) by done.
    + destruct pre as [|[z gz] pre]; [|by apply front_refl]. exists x, g, g1, [], [(y, g')], []. by rewrite app_nil_r.
    + split; [done|]. split; [done|]. intros x0 g0 Hl [_ Ht0]. destruct pre as [|z [|? ?]]; [|done..]. injection Hl as -> ->.
      rewrite Ht0 in Hfull. by vm_compute in Hfull.
  - destruct (push_back_run ptr tag epoch g Hwf ltac:(lia)) as (g' & Hpush & Hwf' & Hn & Hhd & Hep' & Hsl).
    destruct (push_marker_cells cur (cells pre) g ptr tag epoch Hep Hp) as [Hdec Hfin]. cbn zeta in Hdec, Hfin. rewrite <- Hsl in Hdec, Hfin.
    exists (set_groups (<[x := g']> (ti_groups t)) t), (pre ++ [(x, g')]), spares. split; [|split; [|split; [|split; [|split; [done|]]]]].
    + rewrite mbind_ret_run, sbind_gets, <- Hx. rewrite (sbind_run _ _ _ _ _ (get_group_run _ _ _ Hg)), (sbind_run _ _ _ _ _ (lift_run _ _ _ Hpush)). done.
    + apply (lm_write cur t es pre x g g' spares Hm Hwf' Hn).
      * destruct pre as [|y pre]; [by left|right]. pose proof (lm_solid _ _ _ _ _ Hm) as Hso. cbn in Hso.
        apply Forall_app in Hso as [_ Hso]. apply Forall_cons in Hso as [Hso _]. rewrite Hsl. by apply solid_app.
      * rewrite cells_app. cbn. by rewrite app_nil_r, Hep'.
    + unfold waiting. rewrite !cells_app. cbn. by rewrite !app_nil_r.
    + destruct pre as [|[y gy] pre]; [|by apply front_refl]. exists x, g, g', [], []. eexists. rewrite Hsl. done.
    + split; [done|]. split; [done|]. intros x0 g0 Hl [He1 He2]. destruct pre as [|z [|? ?]]; [|done..]. injection Hl as -> ->.
      exists g'. split; [done|]. rewrite Hsl. assert (slice g0 = []) as -> by (apply slice_nil; [done|congruence]).
      by eexists _, _.
Qed.

(** ** Freeing one object *)

(** Tags the allocators of [threadinfo] use: no pool, a callback, or a pool. *)
Definition tag_ok (tag : Z) : Prop :=
  Z.land tag memtag_pool_mask = 0 \/ tag = memtag_callback \/ 1 <= Z.land tag memtag_pool_mask <= pool_max_nlines.

(** What freeing an object records: the objects of a callback. *)
Definition recorded (ptr tag : Z) : list retired :=
  if Z.land tag memtag_pool_mask =? 0 then []
  else if tag =? memtag_callback then map (fun r => (snd r, fst (fst r), snd (fst r))) (run_callback ptr) else [].

(** The pools after an object is freed: its block heads the pool's free list. *)
Definition pooled (pool : list (list Z)) (ptr tag : Z) : list (list Z) :=
  if Z.land tag memtag_pool_mask =? 0 then pool
  else if tag =? memtag_callback then pool
  else alter (cons ptr) (Z.to_nat (Z.land tag memtag_pool_mask - 1)) pool.

Definition valid_retired (r : retired) : Prop := tag_ok (snd r).

Context (Hcallback : forall p, Forall (fun r => fst (fst r) <> 0 /\ tag_ok (snd (fst r))) (run_callback p)).

Lemma lm_same cur t t' es lives spares :
  limbo_mid cur t es lives spares -> ti_groups t' = ti_groups t -> ti_limbo_head t' = ti_limbo_head t ->
  ti_limbo_tail t' = ti_limbo_tail t -> ti_next_group t' = ti_next_group t -> limbo_mid cur t' es lives spares.
Proof. intros [H1 H2 H3 H4 H5 H6 H7 H8 H9] Hg Hh Ht Hn. split; rewrite ?Hg, ?Hh, ?Ht, ?Hn; done. Qed.

(** The outcome of a step that frees [f] and records [rs]: the queue and the
    observable fields. *)
Record freed_step (t t' : threadinfo) (f : list (Z * Z)) : Prop := {
  fs_keeps : ti_gc_epoch t' = ti_gc_epoch t /\ ti_perform_gc_epoch t' = ti_perform_gc_epoch t;
  fs_freed : ti_freed t' = ti_freed t ++ f;
  fs_pool : ti_pool t' = foldl (fun pool r => pooled pool (fst r) (snd r)) (ti_pool t) f
}.

Lemma freed_step_refl t : freed_step t t [].
Proof. split; [done| |done]. by rewrite app_nil_r. Qed.

Lemma freed_step_trans a b c f g : freed_step a b f -> freed_step b c g -> freed_step a c (f ++ g).
Proof.
  intros [[H1 H2] H3 H4] [[H5 H6] H7 H8]. split; [split; congruence|by rewrite H7, H3, app_assoc|by rewrite H8, H4, foldl_app].
Qed.

Lemma record_all_run cur t es lives spares rs :
  limbo_mid cur t es lives spares -> Forall (fun r => fst (fst r) <> 0) rs ->
  exists t' lives' spares', record_all rs t = Ok (tt, t') /\ limbo_mid cur t' es lives' spares' /\
    waiting cur lives' = waiting cur lives ++ map (fun r => (snd r, fst (fst r), snd (fst r))) rs /\
    front lives lives' /\ keeps t t' /\ ti_pool t' = ti_pool t /\ ti_freed t' = ti_freed t.
Proof using Hjunk.
  intros Hm Hrs. revert t lives spares Hm. induction Hrs as [|[[p tag] e] rs Hp _ IH]; intros t lives spares Hm.
  - exists t, lives, spares. cbn. split; [done|]. split; [done|]. split; [by rewrite app_nil_r|].
    split; [|by repeat split]. pose proof (lm_head _ _ _ _ _ Hm) as Hh. destruct lives as [|[x g] lives]; [done|]. apply front_refl.
  - destruct (record_run cur t es lives spares p tag e Hm Hp) as (t1 & l1 & s1 & Hrun & Hm1 & Hw & Hf & [K1 K2 K3] & Hpo & Hfr & _).
    destruct (IH t1 l1 s1 Hm1) as (t2 & l2 & s2 & Hrun2 & Hm2 & Hw2 & Hf2 & [K4 K5 K6] & Hpo2 & Hfr2).
    exists t2, l2, s2. split; [cbn; by rewrite (mbind_run _ _ _ _ _ Hrun)|]. split; [done|].
    split; [by rewrite Hw2, Hw, <- app_assoc|]. split; [by eapply front_trans|]. repeat split; congruence.
Qed.

Lemma free_run cur t es lives spares ptr tag :
  limbo_mid cur t es lives spares -> tag_ok tag -> Z.of_nat (length (ti_pool t)) = pool_max_nlines ->
  exists t' lives' spares', free_rcu ptr tag t = Ok (tt, t') /\ limbo_mid cur t' es lives' spares' /\
    waiting cur lives' = waiting cur lives ++ recorded ptr tag /\ front lives lives' /\
    freed_step t t' [(ptr, tag)].
Proof using Hjunk Hcallback.
  intros Hm Htag Hpool. pose proof (lm_head _ _ _ _ _ Hm) as Hh. destruct lives as [|[x g] lives]; [done|].
  unfold Limbo.free_rcu, log_freed. rewrite mbind_modify. set (t1 := set_freed (ti_freed t ++ [(ptr, tag)]) t).
  assert (limbo_mid cur t1 es ((x, g) :: lives) spares) as Hm1 by by apply (lm_same cur t).
  destruct (Z.land tag memtag_pool_mask =? 0) eqn:Hz.
  { exists t1, ((x, g) :: lives), spares. split; [done|]. split; [done|]. unfold recorded. rewrite Hz, app_nil_r.
    split; [done|]. split; [apply front_refl|]. split; [done|done|]. cbn. unfold pooled. by rewrite Hz. }
  destruct (tag =? memtag_callback) eqn:Hc.
  - assert (Forall (fun r => fst (fst r) <> 0) (run_callback ptr)) as Hrs.
    { eapply Forall_impl; [apply Hcallback|]. by intros r [? _]. }
    destruct (record_all_run cur t1 es _ spares _ Hm1 Hrs) as (t2 & l2 & s2 & Hrun & Hm2 & Hw & Hf & [K1 K2 K3] & Hpo & Hfr).
    exists t2, l2, s2. split; [done|]. split; [done|]. unfold recorded. rewrite Hz, Hc. split; [done|]. split; [done|].
    split; [done|by rewrite Hfr|]. rewrite Hpo. cbn. unfold pooled. by rewrite Hz, Hc.
  - destruct Htag as [Hb|[Hb|Hb]]; [by rewrite Hb in Hz|by rewrite Hb in Hc|].
    set (nl := Z.land tag memtag_pool_mask) in *. rewrite sbind_gets. change (ti_pool t1) with (ti_pool t).
    destruct (aget_total (ti_pool t) (nl - 1)) as [bs Hbs]; [lia|]. rewrite (sbind_run _ _ _ _ _ (lift_run _ _ _ Hbs)).
    rewrite (sbind_run _ _ _ _ _ (lift_run _ _ _ (aset_total (ti_pool t) (nl - 1) (ptr :: bs) ltac:(lia)))).
    exists (set_pool (<[Z.to_nat (nl - 1) := ptr :: bs]> (ti_pool t)) t1), ((x, g) :: lives), spares.
    split; [done|]. split; [by apply (lm_same cur t1)|]. unfold recorded. fold nl. rewrite Hz, Hc, app_nil_r.
    split; [done|]. split; [apply front_refl|]. split; [done|done|]. cbn. unfold pooled. fold nl. rewrite Hz, Hc.
    apply aget_ok in Hbs as [_ Hbs]. apply list_eq. intros i. destruct (decide (i = Z.to_nat (nl - 1))) as [->|Hne].
    + rewrite list_lookup_insert_eq by lia. by rewrite list_lookup_alter_eq, Hbs.
    + by rewrite list_lookup_insert_ne, list_lookup_alter_ne by done.
Qed.

(** ** Cleaning a group *)

(** The objects recorded by the frees of [f], in order. *)
Definition all_recorded (f : list retired) : list retired := flat_map (fun r => recorded (snd (fst r)) (snd r)) f.
Definition objects (f : list retired) : list (Z * Z) := map (fun r => (snd (fst r), snd r)) f.

(** No reader of an epoch up to [bound] is left. *)
Definition passed (bound epoch : Z) : Prop := 0 <= epoch_diff bound epoch.

(** How cleaning a group ends: no count left, the group used up, or an epoch
    that has not passed; a group that is not used up starts with a marker. *)
Definition clean_end (bound count : Z) (g : limbo_group) : Prop :=
  (count = 0 /\ marked (slice g)) \/ (0 < count /\ slice g = []) \/
  (0 < count /\ exists u rest, slice g = LimboElement 0 u :: rest /\ ~ passed bound u).

Lemma recorded_ok p tag : Forall valid_retired (recorded p tag).
Proof using Hcallback.
  unfold recorded. case_match; [done|]. case_match; [|done]. apply Forall_map. eapply Forall_impl; [apply Hcallback|]. by intros r [_ ?].
Qed.

Lemma pooled_length pool p tag : length (pooled pool p tag) = length pool.
Proof. unfold pooled. repeat case_match; [done|done|]. apply length_alter. Qed.

Lemma foldl_pooled_length f pool :
  length (foldl (fun pool r => pooled pool (fst r) (snd r)) pool f) = length pool.
Proof. revert pool. induction f as [|[p tag] f IH]; intros pool; cbn; [done|]. by rewrite IH, pooled_length. Qed.

Lemma freed_pool_length t t' f : freed_step t t' f -> length (ti_pool t') = length (ti_pool t).
Proof. intros [_ _ ->]. apply foldl_pooled_length. Qed.

(** The first group with its first cell dropped. *)
Lemma lm_drop cur t es x g lives spares e rest cur' :
  limbo_mid cur t es ((x, g) :: lives) spares -> slice g = e :: rest ->
  cur' = (if le_ptr e =? 0 then le_u e else cur) ->
  let g' := set_lg_bounds (lg_head g + 1) (lg_tail g) g in
  limbo_mid cur' (set_groups (<[x := g']> (ti_groups t)) t) es ((x, g') :: lives) spares.
Proof.
  intros Hm Hs Hcur g'. pose proof Hm as [Hseg Hnd Hh Ht Hwf Hem Hso Hep Hfr].
  assert (group_wf g) as Hg.
  { rewrite Forall_forall in Hwf. apply (Hwf (x, g)). rewrite !elem_of_app. right. left. left. }
  destruct (slice_cons g e rest Hg Hs) as (_ & _ & Hs' & Hg'). fold g' in Hs', Hg'.
  split; cbn [ti_groups set_groups ti_limbo_head ti_limbo_tail ti_next_group].
  - assert (fst <$> head (es ++ (x, g') :: lives) = fst <$> head (es ++ (x, g) :: lives)) as -> by by destruct es.
    by apply (seg_update _ _ _ _ g).
  - rewrite (ids_middle es (lives ++ spares) x g' g : (es ++ ((x, g') :: lives) ++ spares).*1 = _). exact Hnd.
  - done.
  - etrans; [|exact Ht]. by destruct lives.
  - apply Forall_app in Hwf as [H1 H2]. apply Forall_app. split; [done|]. apply Forall_cons in H2 as [_ H2]. by constructor.
  - done.
  - done.
  - intros y Hy Hny. destruct lives as [|z lives].
    + cbn in Hy. injection Hy as <-. cbn [snd] in *. cbn. rewrite Hs', app_nil_r.
      specialize (Hep (x, g) eq_refl). cbn in Hep. rewrite Hs, app_nil_r in Hep. cbn in Hep. rewrite Hep by done. by subst cur'.
    + specialize (Hep y Hy Hny). rewrite Hep. cbn [cells flat_map snd]. rewrite Hs, Hs'. cbn. by subst cur'.
  - intros p Hp. rewrite lookup_insert_ne; [by apply Hfr|]. intros ->.
    assert (ti_groups t !! p = Some g) as Hl.
    { eapply lm_lookup; [exact Hm|]. rewrite !elem_of_app. right. left. left. }
    by rewrite Hfr in Hl.
Qed.

(** The first cell turned into a marker of the epoch it had. *)
Lemma lm_mark cur t es x g lives spares e rest xs :
  limbo_mid cur t es ((x, g) :: lives) spares -> slice g = e :: rest -> le_ptr e <> 0 ->
  aset (lg_e g) (lg_head g) (LimboElement 0 cur) = Ok xs ->
  slice (set_lg_e xs g) = LimboElement 0 cur :: rest -> group_wf (set_lg_e xs g) ->
  limbo_mid cur (set_groups (<[x := set_lg_e xs g]> (ti_groups t)) t) es ((x, set_lg_e xs g) :: lives) spares.
Proof.
  intros Hm Hs Hp Hxs Hs' Hg'. pose proof Hm as [Hseg Hnd Hh Ht Hwf Hem Hso Hep Hfr].
  split; cbn [ti_groups set_groups ti_limbo_head ti_limbo_tail ti_next_group].
  - assert (fst <$> head (es ++ (x, set_lg_e xs g) :: lives) = fst <$> head (es ++ (x, g) :: lives)) as -> by by destruct es.
    by apply (seg_update _ _ _ _ g).
  - rewrite (ids_middle es (lives ++ spares) x (set_lg_e xs g) g : (es ++ ((x, set_lg_e xs g) :: lives) ++ spares).*1 = _). exact Hnd.
  - done.
  - etrans; [|exact Ht]. by destruct lives.
  - apply Forall_app in Hwf as [H1 H2]. apply Forall_app. split; [done|]. apply Forall_cons in H2 as [_ H2]. by constructor.
  - done.
  - done.
  - assert (final cur (cells ((x, set_lg_e xs g) :: lives)) = final cur (cells ((x, g) :: lives))) as Hfin.
    { cbn [cells flat_map snd]. rewrite Hs, Hs'. cbn. by rewrite (proj2 (Z.eqb_neq _ 0)) by done. }
    intros y Hy Hny. rewrite Hfin. destruct lives as [|z lives].
    + cbn in Hy. injection Hy as <-. apply (Hep (x, g) eq_refl). cbn. by rewrite Hs.
    + by apply (Hep y Hy).
  - intros p Hp'. rewrite lookup_insert_ne; [by apply Hfr|]. intros ->.
    assert (ti_groups t !! p = Some g) as Hl.
    { eapply lm_lookup; [exact Hm|]. rewrite !elem_of_app. right. left. left. }
    by rewrite Hfr in Hl.
Qed.

Definition epoch_passed (bound : Z) (r : retired) : Prop := passed bound (fst (fst r)).

(** What freeing does to the queue: the front object, whose epoch has passed,
    goes; what its callback records joins the end. *)
Inductive drains (bound : Z) : list retired -> list retired -> list retired -> Prop :=
  | drains_stop q : drains bound q [] q
  | drains_free r q f q' :
      epoch_passed bound r -> drains bound (q ++ recorded (snd (fst r)) (snd r)) f q' ->
      drains bound (r :: q) (r :: f) q'.

Lemma drains_trans bound q f q1 f' q2 : drains bound q f q1 -> drains bound q1 f' q2 -> drains bound q (f ++ f') q2.
Proof. induction 1; [done|]. intros H2. cbn. constructor; auto. Qed.

Lemma drains_passed bound q f q' : drains bound q f q' -> Forall (epoch_passed bound) f.
Proof. induction 1; by constructor. Qed.

Lemma drains_all bound q f q' : drains bound q f q' -> f ++ q' = q ++ all_recorded f.
Proof. induction 1 as [q|r q f q' Hr Hd IH]; cbn; [by rewrite app_nil_r|]. rewrite IH. by rewrite <- app_assoc. Qed.

Lemma drains_valid bound q f q' : drains bound q f q' -> Forall valid_retired q -> Forall valid_retired q'.
Proof using Hcallback.
  induction 1; [done|]. intros [_ Hq]%Forall_cons. apply IHdrains, Forall_app. split; [done|apply recorded_ok].
Qed.

Lemma lm_first cur t es x g lives spares :
  limbo_mid cur t es ((x, g) :: lives) spares -> ti_groups t !! x = Some g /\ group_wf g.
Proof.
  intros Hm. assert ((x, g) ∈ es ++ ((x, g) :: lives) ++ spares) as Hin by (rewrite !elem_of_app; right; left; left).
  split; [by eapply lm_lookup|]. pose proof (lm_wf _ _ _ _ _ Hm) as Hw. rewrite Forall_forall in Hw. by apply (Hw (x, g)).
Qed.

Lemma clean_loop_run fuel cur t es x g lives spares bound count :
  limbo_mid cur t es ((x, g) :: lives) spares -> Forall valid_retired (waiting cur ((x, g) :: lives)) ->
  Z.of_nat (length (ti_pool t)) = pool_max_nlines -> 0 < count <= rcu_free_count ->
  (forall e rest, slice g = e :: rest -> le_ptr e <> 0 -> passed bound cur) ->
  (Z.to_nat (limbo_capacity - lg_head g) < fuel)%nat ->
  exists t' g' lives' spares' f cur',
    clean_loop fuel x bound count cur t = Ok (count - Z.of_nat (length f), t') /\
    limbo_mid cur' t' es ((x, g') :: lives') spares' /\
    drains bound (waiting cur ((x, g) :: lives)) f (waiting cur' ((x, g') :: lives')) /\ clean_end bound (count - Z.of_nat (length f)) g' /\ freed_step t t' (objects f) /\
    (f = [] -> lives' = lives).
Proof using Hjunk Hcallback.
  revert cur t g lives spares count. induction fuel as [|fuel IH]; intros cur t g lives spares count Hm Hval Hpool Hcnt Hcur Hfuel; [lia|].
  destruct (lm_first _ _ _ _ _ _ _ Hm) as [Hg Hwf]. cbn [Limbo.clean_loop]. rewrite (sbind_run _ _ _ _ _ (get_group_run _ _ _ Hg)).
  destruct (Z.eqb_spec (lg_head g) (lg_tail g)) as [He|He].
  { exists t, g, lives, spares, [], cur. rewrite Z.sub_0_r. split; [done|]. split; [done|]. split; [constructor|].
    split; [|split; [apply freed_step_refl|done]]. right. left. split; [lia|]. by apply slice_nil. }
  destruct (slice g) as [|e rest] eqn:Hs; [by apply slice_nil in Hs|].
  destruct (slice_cons g e rest Hwf Hs) as (Hlt & Hget & Hrest & Hwf'). rewrite (sbind_run _ _ _ _ _ (lift_run _ _ _ Hget)).
  pose proof Hwf as [[Hb1 Hb2] _]. destruct (Z.eqb_spec (le_ptr e) 0) as [Hp|Hp]; cbn [negb].
  - (* a marker *)
    pose proof (lm_drop cur t es x g lives spares e rest (le_u e) Hm Hs ltac:(by rewrite Hp)) as Hm'. cbn zeta in Hm'.
    set (g' := set_lg_bounds (lg_head g + 1) (lg_tail g) g) in *.
    assert (waiting cur ((x, g) :: lives) = waiting (le_u e) ((x, g') :: lives)) as Hw.
    { unfold waiting. cbn [cells flat_map snd]. rewrite Hs, Hrest. cbn. by rewrite Hp. }
    destruct (Z.ltb_spec (epoch_diff bound (le_u e)) 0) as [Hnp|Hnp].
    + exists t, g, lives, spares, [], cur. rewrite Z.sub_0_r. split; [done|]. split; [done|]. split; [constructor|].
      split; [|split; [apply freed_step_refl|done]]. right. right. split; [lia|]. exists (le_u e), rest.
      split; [rewrite Hs; destruct e; cbn in Hp; by subst|]. unfold passed. lia.
    + rewrite mbind_put. destruct (IH (le_u e) _ g' lives spares count Hm') as (t' & g2 & l2 & s2 & f & cur' & Hrun & Hm2 & Hw2 & Hend & [? ? ?] & Hsame); try done.
      * by rewrite <- Hw.
      * cbn. lia.
      * exists t', g2, l2, s2, f, cur'. split; [exact Hrun|]. rewrite Hw. by repeat (split; [done|]).
  - (* an object *)
    assert (waiting cur ((x, g) :: lives) = (cur, le_ptr e, le_u e) :: decode cur (rest ++ cells lives)) as Hw.
    { unfold waiting. cbn [cells flat_map snd]. rewrite Hs. cbn. by rewrite (proj2 (Z.eqb_neq _ 0)). }
    rewrite Hw in Hval. apply Forall_cons in Hval as [Htag Hval].
    destruct (free_run cur t es _ spares (le_ptr e) (le_u e) Hm Htag Hpool) as (t1 & l1 & s1 & Hrun1 & Hm1 & Hw1 & Hf & Hst).
    destruct Hf as (x' & g0 & g1 & r0 & r1 & ext & [= <- <- <-] & -> & Hh1 & Hs1). rewrite Hs in Hs1.
    rewrite (mbind_run _ _ _ _ _ Hrun1). destruct (lm_first _ _ _ _ _ _ _ Hm1) as [Hg1 Hwf1].
    cbn zeta. rewrite (sbind_run _ _ _ _ _ (get_group_run _ _ _ Hg1)).
    assert (Word.subw 32 count 1 = count - 1) as ->
      by (apply Word.wrap_small; split; [lia|]; unfold rcu_free_count in *; lia).
    rewrite Hw in Hw1. unfold waiting in Hw1. cbn [cells flat_map snd] in Hw1. rewrite Hs1 in Hw1. cbn in Hw1.
    rewrite (proj2 (Z.eqb_neq _ 0)) in Hw1 by done. injection Hw1 as Hw1.
    destruct (Z.eqb_spec (count - 1) 0) as [Hc0|Hc0].
    + destruct (slice_set_head g1 e (LimboElement 0 cur) (rest ++ ext) Hwf1 Hs1) as (xs & Hxs & Hs2 & Hwf2).
      rewrite (sbind_run _ _ _ _ _ (lift_run _ _ _ Hxs)), mbind_put.
      exists (set_groups (<[x := set_lg_e xs g1]> (ti_groups t1)) t1), (set_lg_e xs g1), r1, s1, [(cur, le_ptr e, le_u e)], cur.
      split; [done|]. split; [by eapply lm_mark|]. split; [|split; [|split; [|done]]].
      * rewrite Hw. constructor; [by eapply Hcur|]. cbn. rewrite <- Hw1. unfold waiting. cbn [cells flat_map snd].
        rewrite Hs2. constructor.
      * left. cbn. split; [lia|]. rewrite Hs2. by eexists _, _.
      * destruct Hst as [? ? ?]. by split.
    + pose proof (lm_drop cur t1 es x g1 r1 s1 e (rest ++ ext) cur Hm1 Hs1 ltac:(by rewrite (proj2 (Z.eqb_neq _ 0)))) as Hm2. cbn zeta in Hm2.
      destruct (slice_cons g1 e (rest ++ ext) Hwf1 Hs1) as (Hlt1 & _ & Hrest1 & _).
      set (g2 := set_lg_bounds (lg_head g1 + 1) (lg_tail g1) g1) in *. rewrite mbind_put.
      set (t2 := set_groups (<[x := g2]> (ti_groups t1)) t1) in *.
      assert (waiting cur ((x, g2) :: r1) = decode cur (rest ++ cells lives) ++ recorded (le_ptr e) (le_u e)) as Hw2.
      { unfold waiting. cbn [cells flat_map snd]. rewrite Hrest1. exact Hw1. }
      destruct (IH cur t2 g2 r1 s1 (count - 1) Hm2) as (t' & g3 & l3 & s3 & f & cur' & Hrun & Hm3 & Hw3 & Hend & Hst3 & _).
      * rewrite Hw2. apply Forall_app. split; [done|apply recorded_ok].
      * change (ti_pool t2) with (ti_pool t1). by rewrite (freed_pool_length _ _ _ Hst).
      * lia.
      * intros e' rest' _ _. by eapply Hcur.
      * cbn. rewrite Hh1. lia.
      * exists t', g3, l3, s3, ((cur, le_ptr e, le_u e) :: f), cur'.
        assert (forall r : retired, count - Z.of_nat (length (r :: f)) = count - 1 - Z.of_nat (length f)) as Hlen
          by (intros r; cbn [length]; lia).
        rewrite Hlen.
        split; [exact Hrun|]. split; [done|]. split; [|split; [done|split; [|done]]].
        -- rewrite Hw. constructor; [by eapply Hcur|]. cbn. by rewrite <- Hw2.
        -- apply (freed_step_trans t t2 t' [_] (objects f)); [|done]. destruct Hst as [? ? ?]. by split.
Qed.

Lemma decode_length cur cur' es : length (decode cur es) = length (decode cur' es).
Proof. revert cur cur'. induction es as [|e es IH]; intros cur cur'; cbn; [done|]. destruct (le_ptr e =? 0); cbn; auto. Qed.

(** The first group with its bounds reset once it is used up. *)
Lemma lm_reset cur t es x g lives spares :
  limbo_mid cur t es ((x, g) :: lives) spares -> slice g = [] ->
  limbo_mid cur (set_groups (<[x := set_lg_bounds 0 0 g]> (ti_groups t)) t) es ((x, set_lg_bounds 0 0 g) :: lives) spares.
Proof.
  intros Hm Hs. pose proof Hm as [Hseg Hnd Hh Ht Hwf Hem Hso Hep Hfr]. destruct (lm_first _ _ _ _ _ _ _ Hm) as [Hl [Hb Hlen]].
  split; cbn [ti_groups set_groups ti_limbo_head ti_limbo_tail ti_next_group].
  - assert (fst <$> head (es ++ (x, set_lg_bounds 0 0 g) :: lives) = fst <$> head (es ++ (x, g) :: lives)) as -> by by destruct es.
    by apply (seg_update _ _ _ _ g).
  - rewrite (ids_middle es (lives ++ spares) x (set_lg_bounds 0 0 g) g : (es ++ ((x, set_lg_bounds 0 0 g) :: lives) ++ spares).*1 = _). exact Hnd.
  - done.
  - etrans; [|exact Ht]. by destruct lives.
  - apply Forall_app in Hwf as [H1 H2]. apply Forall_app. split; [done|]. apply Forall_cons in H2 as [_ H2]. constructor; [|done].
    split; cbn; [lia|done].
  - done.
  - done.
  - intros y Hy Hny. destruct lives as [|z lives]; [cbn in Hy; injection Hy as <-; done|].
    rewrite (Hep y Hy Hny). cbn [cells flat_map snd]. by rewrite Hs.
  - intros p Hp. rewrite lookup_insert_ne; [by apply Hfr|]. intros ->. by rewrite Hfr in Hl.
Qed.

Lemma clean_until_run cur t es x g lives spares bound count :
  limbo_mid cur t es ((x, g) :: lives) spares -> Forall valid_retired (waiting cur ((x, g) :: lives)) ->
  Z.of_nat (length (ti_pool t)) = pool_max_nlines -> 0 < count <= rcu_free_count -> marked (slice g) ->
  exists t' g' lives' spares' f cur',
    clean_until x bound count t = Ok (count - Z.of_nat (length f), t') /\
    limbo_mid cur' t' es ((x, g') :: lives') spares' /\
    drains bound (waiting cur ((x, g) :: lives)) f (waiting cur' ((x, g') :: lives')) /\ clean_end bound (count - Z.of_nat (length f)) g' /\ freed_step t t' (objects f) /\
    (slice g' = [] -> group_empty g' /\ (solid (slice g) -> f <> [])).
Proof using Hjunk Hcallback.
  intros Hm Hval Hpool Hcnt Hmk. destruct (lm_first _ _ _ _ _ _ _ Hm) as [_ Hwf]. pose proof Hwf as [[Hb1 Hb2] _].
  assert (limbo_mid 0 t es ((x, g) :: lives) spares /\ waiting cur ((x, g) :: lives) = waiting 0 ((x, g) :: lives)) as [Hm0 Hw0].
  { destruct Hmk as (u & rest & Hs). split; [|unfold waiting; cbn [cells flat_map snd]; by rewrite Hs].
    destruct Hm as [H1 H2 H3 H4 H5 H6 H7 Hep H9]. split; try done. intros y Hy Hny. rewrite (Hep y Hy Hny).
    cbn [cells flat_map snd]. by rewrite Hs. }
  rewrite Hw0 in *. destruct (clean_loop_run clean_fuel 0 t es x g lives spares bound count Hm0 Hval Hpool Hcnt)
    as (t1 & g1 & l1 & s1 & f & cur' & Hrun & Hm1 & Hw & Hend & Hst & Hsame).
  { destruct Hmk as (u & rest & Hs). intros e r Hs'. rewrite Hs in Hs'. by injection Hs' as <- _. }
  { unfold clean_fuel. lia. }
  destruct (lm_first _ _ _ _ _ _ _ Hm1) as [Hg1 Hwf1]. unfold Limbo.clean_until.
  rewrite (sbind_run _ _ _ _ _ Hrun), (sbind_run _ _ _ _ _ (get_group_run _ _ _ Hg1)).
  assert (slice g1 = [] -> solid (slice g) -> f <> []) as Hprog.
  { intros Hs1 (u & e & rest & Hs & Hp) ->. rewrite (Hsame eq_refl) in Hw. apply drains_all in Hw. unfold waiting in Hw. cbn in Hw.
    rewrite Hs1, app_nil_r in Hw. apply (f_equal length) in Hw. rewrite Hs in Hw. cbn in Hw.
    rewrite (proj2 (Z.eqb_neq _ 0)), decode_app in Hw by done. cbn in Hw. rewrite length_app in Hw.
    rewrite (decode_length cur' (final u rest)) in Hw. lia. }
  destruct (Z.eqb_spec (lg_head g1) (lg_tail g1)) as [He|He].
  - assert (slice g1 = []) as Hs1 by by apply slice_nil. rewrite mbind_put.
    exists (set_groups (<[x := set_lg_bounds 0 0 g1]> (ti_groups t1)) t1), (set_lg_bounds 0 0 g1), l1, s1, f, cur'.
    split; [done|]. split; [by apply lm_reset|]. split; [|split; [|split; [by destruct Hst|]]].
    + assert (waiting cur' ((x, set_lg_bounds 0 0 g1) :: l1) = waiting cur' ((x, g1) :: l1)) as ->; [|exact Hw].
      unfold waiting. cbn [cells flat_map snd]. by rewrite Hs1.
    + destruct Hend as [[_ (u & r & Hu)]|[[Hc _]|[_ (u & r & Hu & _)]]]; [by rewrite Hs1 in Hu| |by rewrite Hs1 in Hu].
      right. left. split; [done|]. reflexivity.
    + intros _. split; [done|]. by apply Hprog.
  - exists t1, g1, l1, s1, f, cur'. split; [reflexivity|]. split; [done|]. split; [done|]. split; [done|].
    split; [done|]. intros Hs1. by apply slice_nil in Hs1.
Qed.

(** ** From group to group *)

(** A used-up first group joins the emptied ones. *)
Lemma lm_next cur t es x g y gy lives spares :
  limbo_mid cur t es ((x, g) :: (y, gy) :: lives) spares -> group_empty g -> slice g = [] ->
  limbo_mid cur (set_limbo_head y t) (es ++ [(x, g)]) ((y, gy) :: lives) spares.
Proof.
  intros [Hseg Hnd Hh Ht Hwf Hem Hso Hep Hfr] Hg Hs.
  assert ((es ++ [(x, g)]) ++ ((y, gy) :: lives) ++ spares = es ++ ((x, g) :: (y, gy) :: lives) ++ spares) as Happ
    by by rewrite <- app_assoc.
  split; rewrite ?Happ; try done.
  - assert (fst <$> head ((es ++ [(x, g)]) ++ (y, gy) :: lives) = fst <$> head (es ++ (x, g) :: (y, gy) :: lives)) as ->
      by by destruct es.
    exact Hseg.
  - apply Forall_app in Hem as [H1 H2]. apply Forall_app. split; [|done]. apply Forall_app. split; [done|by constructor].
  - cbn in Hso. by apply Forall_cons in Hso as [_ ?].
  - intros z Hz Hnz. rewrite (Hep z Hz Hnz). cbn [cells flat_map snd]. by rewrite Hs.
Qed.

(** All groups used up: the first emptied one is head and tail again. *)
Lemma lm_all_empty cur t es x g spares fx fg rest :
  limbo_mid cur t es [(x, g)] spares -> group_empty g -> slice g = [] -> es ++ [(x, g)] = (fx, fg) :: rest ->
  limbo_mid cur (set_limbo_tail fx (set_limbo_head fx t)) [] [(fx, fg)] (rest ++ spares) /\ group_empty fg.
Proof.
  intros [Hseg Hnd Hh Ht Hwf Hem Hso Hep Hfr] Hg Hs Hes.
  assert (es ++ [(x, g)] ++ spares = (fx, fg) :: rest ++ spares) as Happ by by rewrite app_assoc, Hes.
  assert (Forall (fun z => group_empty (snd z)) ((fx, fg) :: rest)) as Hall.
  { rewrite <- Hes. apply Forall_app in Hem as [H1 _]. apply Forall_app. split; [done|by constructor]. }
  rewrite Happ in *. apply Forall_app in Hem as [_ Hsp]. apply Forall_cons in Hall as [Hfg Hrest]. split; [|done].
  split; try done.
  - rewrite Hes in Hseg. exact Hseg.
  - cbn. by apply Forall_app.
  - intros z [= <-] Hn. cbn in Hn. destruct Hn. apply Forall_cons in Hwf as [Hwf _]. apply slice_nil; [done|].
    destruct Hfg as [H1 H2]. cbn in *. congruence.
Qed.

Lemma hook_none t : hook_empties None None t = Ok (tt, t).
Proof. done. Qed.

(** The emptied groups go behind the tail. *)
Lemma hook_run cur t es lives spares eh gh et gt :
  limbo_mid cur t es lives spares -> head es = Some (eh, gh) -> last es = Some (et, gt) ->
  exists t' pre z gz gz' es0 gt', hook_empties (Some eh) (Some et) t = Ok (tt, t') /\
    lives = pre ++ [(z, gz)] /\ slice gz' = slice gz /\
    limbo_mid cur t' [] (pre ++ [(z, gz')]) ((es0 ++ [(et, gt')]) ++ spares) /\
    freed_step t t' [] /\ keeps t t'.
Proof.
  intros Hm Hhead Hlast. pose proof Hm as [Hseg Hnd Hh Ht Hwf Hem Hso Hep Hfr].
  destruct (last lives) as [[z gz]|] eqn:Hll; [|done]. pose proof Hll as (pre & ->)%last_split.
  cbn in Ht. injection Ht as Htail.
  pose proof Hlast as (es0 & ->)%last_split.
  assert (ti_groups t !! z = Some gz) as Hz.
  { eapply lm_lookup; [exact Hm|]. rewrite !elem_of_app. right. left. right. left. }
  assert (ti_groups t !! et = Some gt) as Het.
  { eapply lm_lookup; [exact Hm|]. rewrite !elem_of_app. left. right. left. }
  assert (head (es0 ++ [(et, gt)]) = Some (eh, gh)) as Hhead' by done. clear Hhead.
  assert ((es0 ++ [(et, gt)]) ++ (pre ++ [(z, gz)]) ++ spares = es0 ++ (et, gt) :: pre ++ (z, gz) :: spares) as Happ
    by by rewrite <- !app_assoc.
  rewrite Happ in *.
  assert (fst <$> head ((es0 ++ [(et, gt)]) ++ pre ++ [(z, gz)]) = Some eh) as Hst.
  { destruct es0; cbn in Hhead' |- *; by simplify_eq. }
  rewrite Hst in Hseg. apply seg_app in Hseg as (r & Hs1 & Hs2). cbn in Hs2. destruct Hs2 as (-> & _ & Hs2).
  apply seg_app in Hs2 as (r & Hs2 & Hs3). cbn in Hs3. destruct Hs3 as (-> & _ & Hs3).
  rewrite fmap_app in Hnd. cbn in Hnd. rewrite fmap_app in Hnd. cbn in Hnd.
  set (I0 := es0.*1) in *. set (Ip := pre.*1) in *. set (Is := spares.*1) in *.
  assert (NoDup (Ip ++ z :: I0 ++ et :: Is)) as Hnd'.
  { assert (Permutation (Ip ++ z :: I0 ++ et :: Is) (I0 ++ et :: Ip ++ z :: Is)) as Hperm by solve_Permutation. by rewrite Hperm. }
  apply NoDup_app in Hnd as (_ & H0 & (H1 & (_ & H2 & (H3 & _)%NoDup_cons)%NoDup_app)%NoDup_cons).
  assert (forall a, a ∈ et :: Ip ++ z :: Is <-> a = et \/ a ∈ Ip \/ a = z \/ a ∈ Is) as Hin
    by (intros a; rewrite elem_of_cons, elem_of_app, elem_of_cons; tauto).
  assert ((et ∉ I0) /\ (z ∉ I0)) as [E0 Z0] by (split; intros H; apply (H0 _ H), Hin; tauto).
  rewrite elem_of_app, elem_of_cons in H1.
  assert ((et ∉ Ip) /\ (et ∉ Is) /\ et <> z) as (Ep & Es & Ez) by tauto.
  assert (z ∉ Ip) as Zp by (intros H; apply (H2 _ H); left).
  set (gt' := set_lg_next (lg_next gz) gt). set (gz' := set_lg_next (Some eh) gz).
  set (h' := <[z := gz']> (<[et := gt']> (ti_groups t))).
  exists (set_groups h' t), pre, z, gz, gz', es0, gt'.
  assert (group_wf gz /\ group_wf gt /\ Forall (fun x => group_wf (snd x)) es0 /\ Forall (fun x => group_wf (snd x)) pre /\
    Forall (fun x => group_wf (snd x)) spares) as (Wz & Wt & W0 & Wp & Ws).
  { apply Forall_app in Hwf as [W1 W2]. apply Forall_cons in W2 as [W2 W3]. apply Forall_app in W3 as [W3 W4].
    by apply Forall_cons in W4 as [W4 W5]. }
  assert (group_wf gz' /\ group_wf gt') as [Wz' Wt'] by (split; [destruct Wz|destruct Wt]; by split).
  apply Forall_app in Hem as [Hem Hsp]. apply Forall_app in Hem as [Hem0 Hem1]. apply Forall_cons in Hem1 as [Hemt _].
  split; [|split; [done|split; [done|split; [|by repeat split; rewrite ?app_nil_r]]]].
  - unfold hook_empties. cbn [deref]. rewrite sbind_ret, sbind_gets, <- Htail.
    rewrite (sbind_run _ _ _ _ _ (get_group_run _ _ _ Hz)), (sbind_run _ _ _ _ _ (get_group_run _ _ _ Het)), mbind_put.
    assert (get_group z (set_groups (<[et := gt']> (ti_groups t)) t) = Ok (gz, set_groups (<[et := gt']> (ti_groups t)) t)) as Hz'.
    { apply get_group_run. cbn. by rewrite lookup_insert_ne. }
    by rewrite (sbind_run _ _ _ _ _ Hz').
  - assert ((pre ++ [(z, gz')]) ++ (es0 ++ [(et, gt')]) ++ spares = pre ++ (z, gz') :: es0 ++ (et, gt') :: spares) as Happ'
      by by rewrite <- !app_assoc.
    split; cbn [ti_groups set_groups ti_limbo_head ti_limbo_tail ti_next_group app]; rewrite ?Happ'.
    + assert (fst <$> head (pre ++ [(z, gz')]) = lg_next gt) as Hhd.
      { destruct pre as [|[a ga] pre]; cbn in *; [done|]. by destruct Hs2 as [-> _]. }
      rewrite Hhd. apply seg_app. exists (Some z). split; [by unfold h'; rewrite !seg_insert|].
      cbn. split; [done|]. split; [apply lookup_insert_eq|]. apply seg_app. exists (Some et).
      split; [by unfold h'; rewrite !seg_insert|]. cbn. split; [done|].
      split; [unfold h'; by rewrite lookup_insert_ne, lookup_insert_eq|]. by unfold h'; rewrite !seg_insert.
    + rewrite fmap_app. cbn. rewrite fmap_app. exact Hnd'.
    + etrans; [|exact Hh]. by destruct pre.
    + rewrite last_snoc. cbn. congruence.
    + apply Forall_app. split; [done|]. constructor; [done|]. apply Forall_app. split; [done|]. by constructor.
    + apply Forall_app. split; [|done]. apply Forall_app. split; [done|]. by constructor.
    + destruct pre as [|a pre]; [constructor|]. cbn in Hso |- *. apply Forall_app in Hso as [S1 S2]. apply Forall_app. split; [done|].
      apply Forall_cons in S2 as [S2 _]. by constructor.
    + intros a. rewrite last_snoc. intros [= <-] Hn. cbn [snd] in *.
      rewrite cells_app. specialize (Hep (z, gz) eq_refl Hn). rewrite cells_app in Hep. exact Hep.
    + intros p Hp. unfold h'. rewrite !lookup_insert_ne; [by apply Hfr|intros ->; by rewrite Hfr in Het|intros ->; by rewrite Hfr in Hz].
Qed.

(** The first group has been cleaned as far as it goes. *)
Definition stuck (bound : Z) (lives : links) : Prop :=
  exists x g rest u r, lives = (x, g) :: rest /\ slice g = LimboElement 0 u :: r /\ ~ passed bound u.
(** Between operations the first group starts with a marker or nothing waits. *)
Definition front_ok (lives : links) : Prop :=
  exists x g rest, lives = (x, g) :: rest /\ (marked (slice g) \/ (slice g = [] /\ group_empty g /\ rest = [])).

(** Hooking keeps what the groups in use hold. *)
Lemma hook_keeps cur t es lives spares x g rest :
  limbo_mid cur t es lives spares -> lives = (x, g) :: rest ->
  exists t' g' rest' spares', hook_empties (fst <$> head es) (fst <$> last es) t = Ok (tt, t') /\
    limbo_mid cur t' [] ((x, g') :: rest') spares' /\ slice g' = slice g /\
    waiting cur ((x, g') :: rest') = waiting cur lives /\ freed_step t t' [].
Proof.
  intros Hm Hl. destruct (head es) as [[eh gh]|] eqn:Hh.
  - destruct (last es) as [[et gt]|] eqn:Ht; [|apply last_None in Ht; by rewrite Ht in Hh].
    destruct (hook_run cur t es lives spares eh gh et gt Hm Hh Ht) as (t' & pre & z & gz & gz' & es0 & gt' & Hrun & Hlv & Hs & Hm' & Hst & _).
    rewrite Hlv in Hl |- *. destruct pre as [|[a ga] pre]; cbn in Hl; injection Hl as <- <- <-.
    + exists t', gz', []. eexists. split; [exact Hrun|]. split; [exact Hm'|]. split; [done|]. split; [|done].
      unfold waiting. cbn. by rewrite Hs.
    + exists t', ga, (pre ++ [(z, gz')]). eexists. split; [exact Hrun|]. split; [exact Hm'|]. split; [done|]. split; [|done].
      unfold waiting. cbn [cells flat_map snd app]. f_equal. f_equal. change (flat_map ?f ?l) with (cells l).
      rewrite !cells_app. cbn. by rewrite Hs.
  - assert (es = []) as -> by by destruct es. subst lives. exists t, g, rest, spares. split; [done|]. split; [done|].
    split; [done|]. split; [done|]. apply freed_step_refl.
Qed.

Lemma stuck_or_marked bound count x g rest :
  clean_end bound count g -> slice g <> [] ->
  front_ok ((x, g) :: rest) /\ (0 < count -> stuck bound ((x, g) :: rest)).
Proof.
  intros [[Hc Hmk]|[[_ He]|[Hc (u & r & Hs & Hnp)]]] Hne; [|done|].
  - split; [|lia]. exists x, g, rest. split; [done|by left].
  - split; [exists x, g, rest; split; [done|left; by exists u, r]|]. intros _. by exists x, g, rest, u, r.
Qed.

Lemma solid_front cur t es x g y gy lives spares :
  limbo_mid cur t es ((x, g) :: (y, gy) :: lives) spares -> solid (slice gy).
Proof. intros Hm. pose proof (lm_solid _ _ _ _ _ Hm) as Hso. cbn in Hso. by apply Forall_cons in Hso as [? _]. Qed.

Lemma quiesce_loop_run fuel cur t es x g lives spares bound count :
  limbo_mid cur t es ((x, g) :: lives) spares -> Forall valid_retired (waiting cur ((x, g) :: lives)) ->
  Z.of_nat (length (ti_pool t)) = pool_max_nlines -> 0 < count <= rcu_free_count -> marked (slice g) ->
  (solid (slice g) /\ (Z.to_nat count < fuel)%nat) \/ (Z.to_nat count + 1 < fuel)%nat ->
  exists t' lives' spares' f cur',
    quiesce_loop fuel (fst <$> head es) (fst <$> last es) bound count t = Ok (count - Z.of_nat (length f), t') /\
    limbo_mid cur' t' [] lives' spares' /\ drains bound (waiting cur ((x, g) :: lives)) f (waiting cur' lives') /\
    0 <= count - Z.of_nat (length f) /\ front_ok lives' /\
    (0 < count - Z.of_nat (length f) -> cells lives' = [] \/ stuck bound lives') /\ freed_step t t' (objects f).
Proof using Hjunk Hcallback.
  revert cur t es x g lives spares count. induction fuel as [|fuel IH]; intros cur t es x g lives spares count Hm Hval Hpool Hcnt Hmk Hfuel; [lia|].
  destruct (clean_until_run cur t es x g lives spares bound count Hm Hval Hpool Hcnt Hmk)
    as (t1 & g1 & l1 & s1 & f & c1 & Hrun & Hm1 & Hw & Hend & Hst & Hused).
  set (count1 := count - Z.of_nat (length f)) in *.
  assert (0 <= count1) as Hc1 by (destruct Hend as [[? _]|[[? _]|[? _]]]; lia).
  cbn [Limbo.quiesce_loop]. rewrite (proj2 (Z.eqb_neq count 0)) by lia. rewrite sbind_gets.
  assert (forall cur t es x g lives spares, limbo_mid cur t es ((x, g) :: lives) spares -> ti_limbo_head t = x) as Hhead.
  { intros ? t0 ? ? ? ? ? Hm0. pose proof (lm_head _ _ _ _ _ Hm0) as Hh. cbn in Hh. by injection Hh. }
  rewrite (Hhead _ _ _ _ _ _ _ Hm), (sbind_run _ _ _ _ _ Hrun), sbind_gets, (Hhead _ _ _ _ _ _ _ Hm1).
  destruct (lm_first _ _ _ _ _ _ _ Hm1) as [Hg1 Hwf1]. rewrite (sbind_run _ _ _ _ _ (get_group_run _ _ _ Hg1)).
  destruct (Z.eqb_spec (lg_head g1) (lg_tail g1)) as [He|He]; cbn [negb].
  - assert (slice g1 = []) as Hs1 by by apply slice_nil. destruct (Hused Hs1) as [Hemp Hprog].
    assert (0 < count1) as Hpos.
    { destruct Hend as [[_ (u & r & Hu)]|[[? _]|[? _]]]; [by rewrite Hs1 in Hu|done|done]. }
    assert (match fst <$> head es with Some eh => eh | None => x end = match es ++ [(x, g1)] with (fx, _) :: _ => fx | [] => x end) as ->
      by by destruct es as [|[? ?] ?].
    destruct (es ++ [(x, g1)]) as [|[fx fg] rest] eqn:Hes; [by destruct es|].
    rewrite sbind_gets. destruct l1 as [|[y gy] l1].
    + pose proof (lm_tail _ _ _ _ _ Hm1) as Ht. cbn in Ht. injection Ht as <-. rewrite bool_decide_eq_true_2 by done.
      rewrite !mbind_modify. destruct (lm_all_empty c1 t1 es x g1 s1 fx fg rest Hm1 Hemp Hs1 Hes) as [Hm2 Hfg].
      assert (slice fg = []) as Hsf.
      { destruct (lm_first _ _ _ _ _ _ _ Hm2) as [_ Hwf]. apply slice_nil; [done|]. destruct Hfg. congruence. }
      exists (set_limbo_tail fx (set_limbo_head fx t1)), [(fx, fg)], (rest ++ s1), f, c1. split; [done|]. split; [done|].
      split; [|split; [done|split; [|split; [|by destruct Hst]]]].
      * assert (waiting c1 [(fx, fg)] = waiting c1 [(x, g1)]) as ->; [|exact Hw]. unfold waiting. cbn. by rewrite Hsf, Hs1.
      * exists fx, fg, []. split; [done|]. by right.
      * intros _. left. cbn. by rewrite Hsf.
    + pose proof (lm_tail _ _ _ _ _ Hm1) as Ht. assert (x <> ti_limbo_tail t1) as Hne.
      { pose proof (lm_nodup _ _ _ _ _ Hm1) as Hnd. rewrite fmap_app in Hnd. apply NoDup_app in Hnd as (_ & _ & Hnd).
        cbn in Hnd. apply NoDup_cons in Hnd as [Hx _]. intros Heq. apply Hx. change (y :: (l1 ++ s1).*1) with (((y, gy) :: l1) ++ s1).*1.
        rewrite fmap_app. apply elem_of_app. left. change (last ((x, g1) :: (y, gy) :: l1)) with (last ((y, gy) :: l1)) in Ht.
        destruct (last ((y, gy) :: l1)) as [[z gz]|] eqn:Hz; [|done]. cbn in Ht. injection Ht as Ht. rewrite Heq, <- Ht.
        apply (list_elem_of_fmap_2 fst _ (z, gz)). by apply in_last. }
      rewrite bool_decide_eq_false_2 by done.
      pose proof (lm_seg _ _ _ _ _ Hm1) as (r & _ & Hs)%seg_app. cbn in Hs. destruct Hs as (_ & _ & Hnx & _). rewrite Hnx.
      cbn [deref]. rewrite sbind_ret, mbind_modify. pose proof (solid_front _ _ _ _ _ _ _ _ _ Hm1) as Hsol.
      pose proof (lm_next c1 t1 es x g1 y gy l1 s1 Hm1 Hemp Hs1) as Hm2.
      assert (waiting c1 ((x, g1) :: (y, gy) :: l1) = waiting c1 ((y, gy) :: l1)) as Hw2
        by (unfold waiting; cbn [cells flat_map snd]; by rewrite Hs1).
      rewrite Hw2 in Hw.
      pose proof (drains_valid _ _ _ _ Hw Hval) as Hval1.
      destruct (IH c1 (set_limbo_head y t1) (es ++ [(x, g1)]) y gy l1 s1 count1 Hm2 Hval1) as (t2 & l2 & s2 & f2 & c2 & Hrun2 & Hm3 & Hw3 & Hnn & Hfo & Hstop & Hst2).
      * change (ti_pool (set_limbo_head y t1)) with (ti_pool t1). by rewrite (freed_pool_length _ _ _ Hst).
      * lia.
      * by apply solid_marked.
      * left. split; [done|]. destruct Hfuel as [[Hsg Hfu]|Hfu].
        -- specialize (Hprog Hsg). destruct f; [done|]. cbn [length] in count1. lia.
        -- lia.
      * exists t2, l2, s2, (f ++ f2), c2.
        assert (count - Z.of_nat (length (f ++ f2)) = count1 - Z.of_nat (length f2)) as -> by (rewrite length_app; lia).
        rewrite Hes in Hrun2. cbn [head fmap option_fmap option_map fst] in Hrun2. split.
        { rewrite <- Hrun2. f_equal. rewrite <- Hes, last_snoc. done. }
        split; [done|]. split; [by eapply drains_trans|split; [done|split; [done|split; [done|]]]].
        unfold objects. rewrite map_app. eapply freed_step_trans; [exact Hst|]. by destruct Hst2.
  - assert (slice g1 <> []) as Hne by (intros Hs; by apply slice_nil in Hs).
    destruct (stuck_or_marked bound count1 x g1 l1 Hend Hne) as [_ Hstk].
    destruct (hook_keeps c1 t1 es _ s1 x g1 l1 Hm1 eq_refl) as (t2 & g2 & l2 & s2 & Hhook & Hm2 & Hs2 & Hw2 & Hst2).
    rewrite (mbind_run _ _ _ _ _ Hhook).
    exists t2, ((x, g2) :: l2), s2, f, c1. split; [done|]. split; [done|]. split; [by rewrite Hw2|]. split; [done|].
    destruct (stuck_or_marked bound count1 x g2 l2) as [Hfo Hst3]; [|by rewrite Hs2|].
    { unfold clean_end in *. by rewrite Hs2. }
    split; [done|]. split; [intros Hc; right; by apply Hst3|].
    rewrite <- (app_nil_r (objects f)). by eapply freed_step_trans.
Qed.

(** ** The operations on the queue *)

(** Between operations the thread holds the queue [q]. *)
Record limbo_holds (t : threadinfo) (q : list retired) : Prop := {
  lh_groups : exists cur lives spares, limbo_mid cur t [] lives spares /\ front_ok lives /\ q = waiting cur lives;
  lh_valid : Forall valid_retired q;
  lh_pools : Z.of_nat (length (ti_pool t)) = pool_max_nlines
}.

(** The oldest epoch the thread knows of has not passed. *)
Definition blocked (bound : Z) (t : threadinfo) : Prop :=
  exists g e, ti_groups t !! ti_limbo_head t = Some g /\ first_epoch g = Ok e /\ ~ passed bound e.

Lemma stuck_blocked cur t lives spares bound : limbo_mid cur t [] lives spares -> stuck bound lives -> blocked bound t.
Proof.
  intros Hm (x & g & rest & u & r & -> & Hs & Hnp). destruct (lm_first _ _ _ _ _ _ _ Hm) as [Hg Hwf].
  pose proof (lm_head _ _ _ _ _ Hm) as Hh. cbn in Hh. injection Hh as Hh. exists g, u. split; [by rewrite <- Hh|]. split; [|done].
  destruct (slice_cons g _ _ Hwf Hs) as (Hlt & Hget & _). unfold first_epoch.
  rewrite (proj2 (Z.eqb_neq _ _)) by lia. cbn. by rewrite Hget.
Qed.

Lemma limbo_holds_new : limbo_holds (new_threadinfo junk junk_epoch) [].
Proof using Hjunk.
  split; [|done|done]. exists 0, [(1%positive, new_limbo_group junk junk_epoch)], [].
  assert (slice (new_limbo_group junk junk_epoch) = []) as Hs by done.
  split; [split; cbn|split]; try done.
  - apply NoDup_singleton.
  - constructor; [|done]. split; cbn; [|done]. split; [done|]. split; [done|]. by apply (bool_decide_unpack (0 <= limbo_capacity)).
  - intros x [= <-] Hn. by destruct Hn.
  - intros p Hp. rewrite lookup_singleton_ne; [done|]. lia.
  - exists 1%positive, (new_limbo_group junk junk_epoch), []. split; [done|]. right. by repeat split.
Qed.


(** [threadinfo::record_rcu] appends one object, with the global epoch it
    reads, to the thread's queue, whatever the state of the groups (the tail full,
    a spare group linked behind it or not), and frees nothing. *)
Lemma record_holds (t : threadinfo) (q : list retired) (ptr tag epoch : Z) :
  limbo_holds t q -> ptr <> 0 -> tag_ok tag ->
  exists t', record_rcu ptr tag epoch t = Ok (tt, t') /\ limbo_holds t' (q ++ [(epoch, ptr, tag)]) /\
    ti_freed t' = ti_freed t /\ ti_pool t' = ti_pool t /\ ti_gc_epoch t' = ti_gc_epoch t.
Proof using Hjunk.
  intros [(cur & lives & spares & Hm & Hfo & ->) Hv Hpool] Hp Htag.
  destruct (record_run cur t [] lives spares ptr tag epoch Hm Hp) as (t' & l' & s' & Hrun & Hm' & Hw & Hf & [K1 K2 K3] & Hpo & Hfr & Hone).
  exists t'. split; [done|]. split; [|done]. split.
  - exists cur, l', s'. split; [done|]. split; [|done].
    destruct Hfo as (x & g & rest & -> & [(u & r0 & Hmk)|(Hsl & Hem & ->)]).
    + destruct Hf as (y & h & h' & r & r' & ext & [= <- <- <-] & -> & _ & Hs).
      exists x, h', r'. split; [done|]. left. rewrite Hs, Hmk. by exists u, (r0 ++ ext).
    + destruct (Hone x g eq_refl Hem) as (g' & -> & Hmk). exists x, g', []. by split; [|left].
  - apply Forall_app. split; [done|]. by constructor.
  - by rewrite Hpo.
Qed.

Lemma quiesce_drains (t : threadinfo) (q : list retired) (active : Z) :
  limbo_holds t q ->
  let bound := Word.subw 64 active 1 in
  exists t' f q', hard_rcu_quiesce active t = Ok (tt, t') /\ limbo_holds t' q' /\
    drains bound q f q' /\ (length f <= 128)%nat /\
    ((length f < 128)%nat -> q' = [] \/ blocked bound t') /\
    ti_freed t' = ti_freed t ++ objects f /\
    ti_pool t' = foldl (fun pool r => pooled pool (fst r) (snd r)) (ti_pool t) (objects f) /\
    ti_gc_epoch t' = ti_gc_epoch t /\
    ti_perform_gc_epoch t' = if decide (length f = 128%nat) then bound else Word.addw 64 bound 1.
Proof using Hjunk Hcallback.
  intros [(cur & lives & spares & Hm & Hfo & ->) Hv Hpool] bound.
  destruct Hfo as (x & g & rest & -> & Hfo). destruct (lm_first _ _ _ _ _ _ _ Hm) as [Hg Hwf].
  pose proof (lm_head _ _ _ _ _ Hm) as Hh. cbn in Hh. injection Hh as Hh.
  unfold Limbo.hard_rcu_quiesce. fold bound. rewrite sbind_gets, <- Hh, (sbind_run _ _ _ _ _ (get_group_run _ _ _ Hg)).
  assert (forall e : bool, (0 =? rcu_free_count) = false) as _ by done.
  destruct Hfo as [(u & r0 & Hs)|(Hs & Hem & ->)].
  - destruct (slice_cons g _ _ Hwf Hs) as (Hlt & Hget & _). rewrite (proj2 (Z.eqb_neq (lg_head g) (lg_tail g))) by lia.
    assert (first_epoch g = Ok u) as Hfe.
    { unfold first_epoch. rewrite (proj2 (Z.eqb_neq _ _)) by lia. cbn. by rewrite Hget. }
    destruct (Z.ltb_spec (epoch_diff bound u) 0) as [Hnp|Hpass].
    + exists (set_perform_gc_epoch (Word.addw 64 bound 1) t), [], (waiting cur ((x, g) :: rest)). split.
      { rewrite sbind_assoc, (sbind_run _ _ _ _ _ (lift_run _ _ _ Hfe)). by rewrite (proj2 (Z.ltb_lt _ _)) by done. }
      split; [split; [exists cur, ((x, g) :: rest), spares|done|done]|].
      { split; [by apply (lm_same cur t)|]. split; [|done]. exists x, g, rest. split; [done|]. left. by exists u, r0. }
      split; [constructor|]. split; [cbn; lia|]. split; [|by rewrite app_nil_r].
      intros _. right. exists g, u. cbn. rewrite <- Hh. split; [done|]. split; [done|]. unfold passed. lia.
    + destruct (quiesce_loop_run quiesce_fuel cur t [] x g rest spares bound rcu_free_count Hm Hv Hpool)
        as (t1 & l1 & s1 & f & c1 & Hrun & Hm1 & Hw & Hnn & Hfo & Hstop & [[Hk1 Hk2] Hfr Hpo]);
        [unfold rcu_free_count; lia|by exists u, r0|right; by apply (bool_decide_unpack (_ < _)%nat)|].
      unfold rcu_free_count in Hnn, Hstop.
      exists (set_perform_gc_epoch (if rcu_free_count - Z.of_nat (length f) =? 0 then bound else Word.addw 64 bound 1) t1), f, (waiting c1 l1).
      split.
      { rewrite sbind_assoc, (sbind_run _ _ _ _ _ (lift_run _ _ _ Hfe)), (proj2 (Z.ltb_ge _ _)) by done.
        cbn [head last fmap option_fmap option_map] in Hrun. by rewrite (sbind_run _ _ _ _ _ Hrun). }
      split; [split|].
      * exists c1, l1, s1. split; [by apply (lm_same c1 t1)|done].
      * by eapply drains_valid.
      * cbn. by rewrite Hpo, foldl_pooled_length.
      * split; [done|]. split; [lia|]. split; [|split; [done|split; [done|split; [done|]]]].
        -- intros Hlen. destruct Hstop as [Hst|Hst]; [lia|left; unfold waiting; by rewrite Hst|right].
           destruct (stuck_blocked _ _ _ _ _ Hm1 Hst) as (g' & e & H1 & H2 & H3). by exists g', e.
        -- cbn. unfold rcu_free_count. destruct (decide (length f = 128%nat)) as [->|Hne]; [done|].
           by rewrite (proj2 (Z.eqb_neq _ 0)) by lia.
  - assert (lg_head g = lg_tail g) as He by by apply slice_nil. rewrite (proj2 (Z.eqb_eq _ _) He).
    exists (set_perform_gc_epoch (Word.addw 64 bound 1) t), [], []. split; [done|].
    assert (waiting cur [(x, g)] = []) as Hw by (unfold waiting; cbn; by rewrite Hs).
    split; [split; [exists cur, [(x, g)], spares|done|done]|].
    { split; [by apply (lm_same cur t)|]. split; [|done]. exists x, g, []. split; [done|]. by right. }
    rewrite Hw. split; [constructor|]. split; [cbn; lia|]. split; [by left|]. by rewrite app_nil_r.
Qed.

(** [threadinfo::hard_rcu_quiesce] always ends, and drains the thread's
    queue from the front: every object once, in the order of retirement, each with
    an epoch before the active one (as signed 64-bit differences), what a freed
    callback records joining the end before the next is taken; at most 128 in all.
    With fewer than 128 freed it stops only when nothing waits or the oldest epoch
    has not passed.  Blocks go back to their pools, the groups used up are kept for
    reuse, and the next collection is due at once or when the active epoch moves. *)
Lemma hard_rcu_quiesce_frees (t : threadinfo) (q : list retired) (active : Z) :
  limbo_holds t q ->
  let bound := Word.subw 64 active 1 in
  exists t' f q', hard_rcu_quiesce active t = Ok (tt, t') /\ limbo_holds t' q' /\
    drains bound q f q' /\ (length f <= 128)%nat /\
    ((length f < 128)%nat -> q' = [] \/ blocked bound t') /\
    ti_freed t' = ti_freed t ++ objects f /\
    ti_pool t' = foldl (fun pool r => pooled pool (fst r) (snd r)) (ti_pool t) (objects f) /\
    ti_gc_epoch t' = ti_gc_epoch t /\
    ti_perform_gc_epoch t' = if decide (length f = 128%nat) then bound else Word.addw 64 bound 1.
Proof using Hjunk Hcallback. apply quiesce_drains. Qed.
End queue.

(** ** Witnesses *)

(** The callback at 64 retires a block in epoch 3. *)
Definition callback_example (p : Z) : list (Z * Z * Z) := if p =? 64 then [(128, 256, 3)] else [].

Lemma callback_example_ok p : Forall (fun r => fst (fst r) <> 0 /\ tag_ok (snd (fst r))) (callback_example p).
Proof. unfold callback_example. case_match; [|done]. constructor; [|done]. split; [done|by left]. Qed.

Definition quiesce_example : threadinfo :=
  match record_rcu (replicate 253 (LimboElement 7 7)) 5 64 memtag_callback 1 (new_threadinfo (replicate 253 (LimboElement 7 7)) 5) with
  | Ok (_, t) => t
  | Fault _ => new_threadinfo [] 0
  end.

Lemma quiesce_example_holds : limbo_holds quiesce_example [(1, 64, memtag_callback)].
Proof.
  destruct (record_holds (replicate 253 (LimboElement 7 7)) 5 eq_refl (new_threadinfo (replicate 253 (LimboElement 7 7)) 5) [] 64 memtag_callback 1)
    as (t' & Hrun & Ht' & _); [by apply limbo_holds_new|done|right; by left|].
  unfold quiesce_example. rewrite Hrun. exact Ht'.
Qed.

