(* ===== verification/Epochs.v ===== *)
(** * Read sections and epochs (kvthread.hh, mtd.cc)

    The threads of the server as an interleaving of their accesses to
    [globalepoch], [active_epoch] and each other's [gc_epoch_].  A thread is in a
    read section from the store of [rcu_start] to the store of [rcu_stop].  An
    object in limbo carries, as ghost state, the sections that were open when it
    was retired.  No object is freed while one of them is still open. *)

From S2P Require Export LimboFacts.

#[local] Open Scope Z_scope.

(** ** The state *)

(** A thread and the number of a read section of it. *)
Definition section_id : Type := (nat * nat).

Record held := Held { h_object : retired; h_readers : list section_id }.
Definition h_epoch (h : held) : Z := fst (fst (h_object h)).

(** Where a thread stands between accesses to shared memory; the flag tells
    [rcu_quiesce] in [Loaded] and [rcu_stop] elsewhere. *)
Inductive position :=
  | Running
  | Loaded (quiescing : bool) (ge : Z)
  | Due (stopping : bool)
  | Hard (stopping : bool)
  | Freeing (stopping : bool) (epoch_bound : Z)
  | Leaving (stopping : bool).

Record thread := Thread {
  th_gc_epoch : Z;
  th_perform_gc_epoch : Z;
  th_section : option nat;
  th_queue : list held;
  th_position : position
}.

Definition new_thread : thread := Thread 0 0 None [] Running.

(** [epochinc]: waiting for the signal, [globalepoch] incremented, or in
    [min_active_epoch] with the threads still to look at. *)
Inductive tick_position :=
  | Waiting
  | Ticked
  | Scanning (ae : Z) (rest : list nat).

Record world := World {
  w_globalepoch : Z;
  w_active_epoch : Z;
  w_allthreads : list nat;
  w_threads : gmap nat thread;
  w_tick : tick_position;
  w_sections : nat;
  w_freed : list held;
  w_ticks : Z
}.

Definition initial_world : world := World 1 1 [] ∅ Waiting 0 [] 0.

Definition open_section (w : world) (r : section_id) : Prop :=
  exists th, w_threads w !! fst r = Some th /\ th_section th = Some (snd r).
(** The same as a list. *)
Definition open_sections (w : world) : list section_id :=
  omap (fun x => pair (fst x) <$> th_section (snd x)) (map_to_list (w_threads w)).

(** ** The steps *)

Section steps.
(** [globalepoch], [active_epoch], the sections open now and a fresh section. *)
Context (ge ae : Z) (readers : list section_id) (fresh : nat).

Inductive thread_step : thread -> list held -> thread -> Prop :=
  | step_start quiescing gc p s q :
      thread_step (Thread gc p s q Running) [] (Thread gc p s q (Loaded quiescing ge))
  | step_enter quiescing e gc p s q :
      thread_step (Thread gc p s q (Loaded quiescing e)) []
        (Thread (if negb (gc =? e) then e else gc) p (Some fresh) q (if quiescing then Due false else Running))
  | step_stop gc p s q : thread_step (Thread gc p s q Running) [] (Thread gc p s q (Due true))
  | step_due stopping gc p s q :
      thread_step (Thread gc p s q (Due stopping)) []
        (Thread gc p s q (if negb (p =? ae) then Hard stopping else Leaving stopping))
  | step_bound stopping gc p s q :
      thread_step (Thread gc p s q (Hard stopping)) [] (Thread gc p s q (Freeing stopping (Word.subw 64 ae 1)))
  | step_free stopping bound gc p s h q :
      epoch_passed bound (h_object h) ->
      thread_step (Thread gc p s (h :: q) (Freeing stopping bound)) [h] (Thread gc p s q (Freeing stopping bound))
  | step_freed stopping bound p' gc p s q :
      p' = bound \/ p' = Word.addw 64 bound 1 ->
      thread_step (Thread gc p s q (Freeing stopping bound)) [] (Thread gc p' s q (Leaving stopping))
  | step_leave stopping gc p s q :
      thread_step (Thread gc p s q (Leaving stopping)) []
        (Thread (if stopping then 0 else gc) p (if stopping then None else s) q Running)
  | step_retire ptr tag gc p s q pos :
      thread_step (Thread gc p s q pos) [] (Thread gc p s (q ++ [Held (ge, ptr, tag) readers]) pos).
End steps.

Definition set_tick (t : tick_position) (w : world) : world :=
  World (w_globalepoch w) (w_active_epoch w) (w_allthreads w) (w_threads w) t (w_sections w) (w_freed w) (w_ticks w).

Inductive world_step : world -> world -> Prop :=
  | step_thread w i th f th' :
      w_threads w !! i = Some th ->
      thread_step (w_globalepoch w) (w_active_epoch w) (open_sections w) (w_sections w) th f th' ->
      world_step w (World (w_globalepoch w) (w_active_epoch w) (w_allthreads w) (<[i := th']> (w_threads w))
        (w_tick w) (S (w_sections w)) (w_freed w ++ f) (w_ticks w))
  | step_make w i :
      w_threads w !! i = None ->
      world_step w (World (w_globalepoch w) (w_active_epoch w) (i :: w_allthreads w) (<[i := new_thread]> (w_threads w))
        (w_tick w) (w_sections w) (w_freed w) (w_ticks w))
  | step_epochinc w :
      w_tick w = Waiting ->
      world_step w (World (Word.addw 64 (w_globalepoch w) 2) (w_active_epoch w) (w_allthreads w) (w_threads w)
        Ticked (w_sections w) (w_freed w) (w_ticks w + 1))
  | step_scan_start w : w_tick w = Ticked -> world_step w (set_tick (Scanning (w_globalepoch w) (w_allthreads w)) w)
  | step_scan_thread w ae i rest th :
      w_tick w = Scanning ae (i :: rest) -> w_threads w !! i = Some th ->
      world_step w (set_tick (Scanning (older_epoch ae (th_gc_epoch th)) rest) w)
  | step_scan_end w ae :
      w_tick w = Scanning ae [] ->
      world_step w (World (w_globalepoch w) ae (w_allthreads w) (w_threads w) Waiting (w_sections w) (w_freed w) (w_ticks w)).

Definition reachable (w : world) : Prop := rtc world_step initial_world w.

(** ** Epochs as numbers *)

(** The ticks a run may have, and a bound on their epochs. *)
Definition tick_limit : Z := 2 ^ 60.
Definition epoch_limit : Z := 2 ^ 62.

Lemma epoch_diff_small a b : 0 <= a < epoch_limit -> 0 <= b < epoch_limit -> epoch_diff a b = a - b.
Proof.
  unfold epoch_limit, epoch_diff, Word.signed, Word.subw, Word.wrap. intros Ha Hb. cbn zeta.
  rewrite Z.mod_mod by lia. change (2 ^ 64) with (4 * 2 ^ 62). change (2 ^ (64 - 1)) with (2 * 2 ^ 62). 
  destruct (Z.leb_spec b a).
  - rewrite Z.mod_small by lia. destruct (Z.ltb_spec (a - b) (2 * 2 ^ 62)); lia.
  - rewrite <- (Z.mod_add (a - b) 1) by lia. rewrite Z.mod_small by lia.
    destruct (Z.ltb_spec (a - b + 1 * (4 * 2 ^ 62)) (2 * 2 ^ 62)); lia.
Qed.

Lemma epoch_incremented n : 0 <= n < tick_limit -> Word.addw 64 (1 + 2 * n) 2 = 1 + 2 * (n + 1).
Proof.
  unfold tick_limit, Word.addw. intros Hn. replace (1 + 2 * n + 2) with (1 + 2 * (n + 1)) by lia.
  apply Word.wrap_small. split; lia.
Qed.

Lemma epoch_bound_value ae : 0 < ae < epoch_limit -> Word.subw 64 ae 1 = ae - 1.
Proof. unfold epoch_limit. intros H. apply Word.wrap_small. split; lia. Qed.

Lemma older_epoch_min ae te :
  0 <= ae < epoch_limit -> 0 <= te < epoch_limit -> older_epoch ae te = if decide (te = 0) then ae else Z.min te ae.
Proof.
  intros Ha Ht. unfold older_epoch. destruct (decide (te = 0)) as [->|Hn]; [done|].
  rewrite (proj2 (Z.eqb_neq te 0)) by done. rewrite epoch_diff_small by done. cbn [negb andb].
  destruct (Z.ltb_spec (te - ae) 0); lia.
Qed.

(** ** The invariant *)

Definition waiting_in (w : world) (h : held) : Prop := exists i th, w_threads w !! i = Some th /\ h ∈ th_queue th.

(** Everything retired before epoch [c] is out of reach of open sections. *)
Definition cutoff (w : world) (c : Z) : Prop :=
  0 < c <= w_globalepoch w /\
  forall h r, waiting_in w h -> h_epoch h < c -> r ∈ h_readers h -> ~ open_section w r.

Record thread_ok (w : world) (th : thread) : Prop := {
  to_epoch : 0 <= th_gc_epoch th <= w_globalepoch w;
  to_section : forall n, th_section th = Some n -> 0 < th_gc_epoch th /\ (n < w_sections w)%nat;
  to_position : match th_position th with
    | Loaded _ e => 0 < e <= w_globalepoch w
    | Freeing _ b => cutoff w (b + 1)
    | _ => True
    end
}.

(** An object in limbo: an open section among its readers entered no later than
    it was retired. *)
Record held_ok (w : world) (h : held) : Prop := {
  ho_epoch : 0 < h_epoch h <= w_globalepoch w;
  ho_sections : forall r, r ∈ h_readers h -> (snd r < w_sections w)%nat;
  ho_readers : forall i n th, (i, n) ∈ h_readers h -> w_threads w !! i = Some th -> th_section th = Some n ->
    th_gc_epoch th <= h_epoch h
}.

Record world_ok (w : world) : Prop := {
  wo_ticks : 0 <= w_ticks w /\ w_globalepoch w = 1 + 2 * w_ticks w;
  wo_threads : forall i th, w_threads w !! i = Some th -> thread_ok w th /\ i ∈ w_allthreads w;
  wo_all : forall i, i ∈ w_allthreads w -> is_Some (w_threads w !! i);
  wo_held : forall h, waiting_in w h -> held_ok w h;
  wo_active : cutoff w (w_active_epoch w);
  wo_scan : match w_tick w with
    | Scanning ae rest =>
      0 < ae <= w_globalepoch w /\ (forall i, i ∈ rest -> i ∈ w_allthreads w) /\
      forall h r, waiting_in w h -> h_epoch h < ae -> r ∈ h_readers h -> open_section w r -> fst r ∈ rest
    | _ => True
    end;
  wo_freed : forall h r, h ∈ w_freed w -> r ∈ h_readers h -> (snd r < w_sections w)%nat /\ ~ open_section w r
}.

(** ** What a step may change *)

Record evolves (w w' : world) : Prop := {
  ev_epoch : w_globalepoch w <= w_globalepoch w';
  ev_sections : (w_sections w <= w_sections w')%nat;
  ev_open : forall r, (snd r < w_sections w)%nat -> open_section w' r -> open_section w r;
  ev_waiting : forall h, waiting_in w' h -> waiting_in w h \/ h_epoch h = w_globalepoch w
}.

Lemma cutoff_evolves w w' c : world_ok w -> evolves w w' -> cutoff w c -> cutoff w' c.
Proof.
  intros Hok [E1 E2 E3 E4] [Hc Hh]. split; [lia|]. intros h r Hw He Hr Ho. destruct (E4 h Hw) as [Hw'|He']; [|lia].
  apply (Hh h r); try done. apply E3; [|done]. by apply (ho_sections _ _ (wo_held _ Hok h Hw')).
Qed.

Lemma position_evolves w w' th : world_ok w -> evolves w w' -> thread_ok w th -> thread_ok w' th.
Proof.
  intros Hok He [T1 T2 T3]. pose proof He as [E1 E2 _ _]. split; [lia| |].
  - intros n Hn. destruct (T2 n Hn). lia.
  - destruct (th_position th); try done; [lia|]. by eapply cutoff_evolves.
Qed.

Lemma scan_evolves w w' ae (rest : list nat) :
  world_ok w -> evolves w w' -> ae <= w_globalepoch w ->
  (forall h r, waiting_in w h -> h_epoch h < ae -> r ∈ h_readers h -> open_section w r -> fst r ∈ rest) ->
  forall h r, waiting_in w' h -> h_epoch h < ae -> r ∈ h_readers h -> open_section w' r -> fst r ∈ rest.
Proof.
  intros Hok [E1 E2 E3 E4] Hae Hs h r Hw He Hr Ho. destruct (E4 h Hw) as [Hw'|He']; [|lia].
  apply (Hs h r); try done. apply E3; [|done]. by apply (ho_sections _ _ (wo_held _ Hok h Hw')).
Qed.

Lemma freed_evolves w w' r :
  evolves w w' -> (snd r < w_sections w)%nat /\ ~ open_section w r -> (snd r < w_sections w')%nat /\ ~ open_section w' r.
Proof. intros [E1 E2 E3 E4] [H1 H2]. split; [lia|]. intros Ho. by apply H2, E3. Qed.

Lemma elem_open_sections w r : r ∈ open_sections w <-> open_section w r.
Proof.
  unfold open_sections, open_section. rewrite list_elem_of_omap. destruct r as [i n]. cbn. split.
  - intros ([j th] & Hin%elem_of_map_to_list & Heq). cbn in Heq. destruct (th_section th) as [m|] eqn:Hm; [|done].
    cbn in Heq. injection Heq as <- <-. by exists th.
  - intros (th & Hi & Hs). exists (i, th). split; [by apply elem_of_map_to_list|]. cbn. by rewrite Hs.
Qed.

(** ** Thread steps *)

(** The world after a step of thread [i]. *)
Definition thread_moved (w : world) (i : nat) (f : list held) (th' : thread) : world :=
  World (w_globalepoch w) (w_active_epoch w) (w_allthreads w) (<[i := th']> (w_threads w))
    (w_tick w) (S (w_sections w)) (w_freed w ++ f) (w_ticks w).

(** A step keeps the thread's section, leaves it or enters the fresh one; the
    queue keeps its objects or takes one of the current epoch. *)
Lemma step_section ge ae rs n th f th' :
  thread_step ge ae rs n th f th' ->
  th_section th' = None \/ th_section th' = Some n \/ (th_section th' = th_section th /\ th_gc_epoch th' = th_gc_epoch th).
Proof. destruct 1; cbn; try tauto. destruct stopping; tauto. Qed.

Lemma step_queue ge ae rs n th f th' h :
  thread_step ge ae rs n th f th' -> h ∈ th_queue th' -> h ∈ th_queue th \/ (h_epoch h = ge /\ h_readers h = rs).
Proof.
  destruct 1; cbn; try tauto; [intros Hh; left; by right|]. intros [Hh|Hh]%elem_of_app; [by left|].
  apply list_elem_of_singleton in Hh as ->. by right.
Qed.

Lemma lookup_moved w i f th' j th : w_threads (thread_moved w i f th') !! j = Some th ->
  (j = i /\ th = th') \/ (j <> i /\ w_threads w !! j = Some th).
Proof. cbn. destruct (decide (j = i)) as [->|Hne]; [rewrite lookup_insert_eq|rewrite lookup_insert_ne by done]; [left|right]; naive_solver. Qed.

Lemma moved_evolves w i th f th' :
  w_threads w !! i = Some th ->
  thread_step (w_globalepoch w) (w_active_epoch w) (open_sections w) (w_sections w) th f th' ->
  evolves w (thread_moved w i f th').
Proof.
  intros Hi Hst. split; cbn [w_globalepoch w_sections thread_moved]; [done|lia| |].
  - intros r Hlt (t & Hr & Hs). apply lookup_moved in Hr as [[Hr ->]|[Hr Ht]]; [|by exists t]. exists th. rewrite Hr. split; [done|].
    destruct (step_section _ _ _ _ _ _ _ Hst) as [Hn|[Hn|[Hn _]]]; rewrite Hn in Hs; [done| |done]. injection Hs as Hs. lia.
  - intros h (j & t & Ht & Hh). apply lookup_moved in Ht as [[-> ->]|[_ Ht]]; [|left; by exists j, t].
    destruct (step_queue _ _ _ _ _ _ _ h Hst Hh) as [Hq|[He _]]; [left; by exists i, th|by right].
Qed.

(** Open sections of a moved world were open or are the fresh one. *)
Lemma moved_reader w i th f th' j n t :
  w_threads w !! i = Some th ->
  thread_step (w_globalepoch w) (w_active_epoch w) (open_sections w) (w_sections w) th f th' ->
  w_threads (thread_moved w i f th') !! j = Some t -> th_section t = Some n -> (n < w_sections w)%nat ->
  exists t0, w_threads w !! j = Some t0 /\ th_section t0 = Some n /\ th_gc_epoch t0 = th_gc_epoch t.
Proof.
  intros Hi Hst Ht Hs Hn. apply lookup_moved in Ht as [[-> ->]|[_ Ht]]; [|by exists t]. exists th. split; [done|].
  destruct (step_section _ _ _ _ _ _ _ Hst) as [Hc|[Hc|[Hc Hg]]]; rewrite Hc in Hs; [done| |done]. injection Hs as Hs. lia.
Qed.

Lemma moved_held w i th f th' h :
  world_ok w -> w_threads w !! i = Some th ->
  thread_step (w_globalepoch w) (w_active_epoch w) (open_sections w) (w_sections w) th f th' ->
  waiting_in (thread_moved w i f th') h -> held_ok (thread_moved w i f th') h.
Proof.
  intros Hok Hi Hst (j & t & Ht & Hh).
  assert (waiting_in w h \/ (h_epoch h = w_globalepoch w /\ h_readers h = open_sections w)) as [Hw|[He Hr]].
  { apply lookup_moved in Ht as [[-> ->]|[_ Ht]]; [|left; by exists j, t].
    destruct (step_queue _ _ _ _ _ _ _ h Hst Hh) as [Hq|Hq]; [left; by exists i, th|by right]. }
  - pose proof (wo_held _ Hok h Hw) as [H1 H2 H3]. split; [done|intros r Hr; specialize (H2 r Hr); cbn; lia|].
    intros k n t' Hr Hk Hs. destruct (moved_reader _ _ _ _ _ _ _ _ Hi Hst Hk Hs (H2 _ Hr)) as (t0 & Hk0 & Hs0 & <-). by eapply H3.
  - destruct (wo_ticks _ Hok) as [Ht0 Hge]. assert (forall r, r ∈ h_readers h -> open_section w r) as Hop
      by (intros r; rewrite Hr; apply elem_open_sections).
    assert (forall r, r ∈ h_readers h -> (snd r < w_sections w)%nat) as Hlt.
    { intros r Hin. destruct (Hop r Hin) as (t' & Hk & Hs). destruct (wo_threads _ Hok _ _ Hk) as [[_ Hsec _] _]. by apply Hsec. }
    split; [rewrite He; cbn; lia|intros r Hin; specialize (Hlt r Hin); cbn; lia|].
    intros k n t' Hin Hk Hs. destruct (moved_reader _ _ _ _ _ _ _ _ Hi Hst Hk Hs (Hlt _ Hin)) as (t0 & Hk0 & _ & <-).
    rewrite He. destruct (wo_threads _ Hok _ _ Hk0) as [[? _ _] _]. lia.
Qed.

(** The thread that moved is as it should be. *)
Lemma moved_thread w i th f th' :
  world_ok w -> w_ticks w < tick_limit -> w_threads w !! i = Some th ->
  thread_step (w_globalepoch w) (w_active_epoch w) (open_sections w) (w_sections w) th f th' ->
  thread_ok (thread_moved w i f th') th'.
Proof.
  intros Hok Hlim Hi Hst. pose proof (moved_evolves _ _ _ _ _ Hi Hst) as Hev.
  destruct (wo_threads _ Hok _ _ Hi) as [Hth _]. destruct (wo_ticks _ Hok) as [Ht0 Hge].
  pose proof (position_evolves _ _ _ Hok Hev Hth) as [T1 T2 T3]. unfold tick_limit in Hlim.
  destruct Hst; cbn in T1, T2, T3 |- *.
  - split; [done|done|]. cbn. lia.
  - assert ((if negb (gc =? e) then e else gc) = e) as Hgc by (destruct (Z.eqb_spec gc e); done).
    split; cbn; rewrite ?Hgc; [lia| |by destruct quiescing]. intros n [= <-]. lia.
  - by split.
  - split; [done|done|]. by destruct (negb _).
  - split; [done|done|]. cbn [th_position]. pose proof (wo_active _ Hok) as Hact. pose proof Hact as [Hae _].
    rewrite epoch_bound_value in Hev |- * by (unfold epoch_limit; lia). replace (w_active_epoch w - 1 + 1) with (w_active_epoch w) by lia.
    by eapply cutoff_evolves.
  - by split.
  - by split.
  - destruct stopping; cbn; split; try done; cbn; lia.
  - by split.
Qed.

(** What a step frees is out of reach of every open section. *)
Lemma step_freed_clear w i th f th' h r :
  world_ok w -> w_ticks w < tick_limit -> w_threads w !! i = Some th ->
  thread_step (w_globalepoch w) (w_active_epoch w) (open_sections w) (w_sections w) th f th' ->
  h ∈ f -> r ∈ h_readers h -> (snd r < w_sections w)%nat /\ ~ open_section w r.
Proof.
  intros Hok Hlim Hi Hst Hh Hr. destruct (wo_threads _ Hok _ _ Hi) as [[_ _ T3] _]. destruct (wo_ticks _ Hok) as [Ht0 Hge].
  unfold tick_limit in Hlim. destruct Hst as [| | | | |stopping bound gc p s h' q Hp| | |]; try by apply not_elem_of_nil in Hh.
  apply list_elem_of_singleton in Hh as ->. cbn in T3.
  assert (waiting_in w h') as Hw by (eexists i, _; split; [exact Hi|left]).
  pose proof (wo_held _ Hok _ Hw) as [He Hs _]. split; [by apply Hs|]. destruct T3 as [Hb Hc]. apply (Hc h'); try done.
  unfold epoch_passed, passed in Hp. fold (h_epoch h') in Hp. rewrite epoch_diff_small in Hp by (unfold epoch_limit; lia). lia.
Qed.

Lemma thread_step_ok w i th f th' :
  world_ok w -> w_ticks w < tick_limit -> w_threads w !! i = Some th ->
  thread_step (w_globalepoch w) (w_active_epoch w) (open_sections w) (w_sections w) th f th' ->
  world_ok (thread_moved w i f th').
Proof.
  intros Hok Hlim Hi Hst. pose proof (moved_evolves _ _ _ _ _ Hi Hst) as Hev. split.
  - apply (wo_ticks _ Hok).
  - intros j t Ht. apply lookup_moved in Ht as [[-> ->]|[_ Ht]].
    + split; [by eapply moved_thread|]. apply (wo_threads _ Hok _ _ Hi).
    + destruct (wo_threads _ Hok _ _ Ht). split; [by eapply position_evolves|done].
  - intros j Hj. cbn. destruct (decide (j = i)) as [->|Hne]; [by rewrite lookup_insert_eq|].
    rewrite lookup_insert_ne by done. by apply (wo_all _ Hok).
  - intros h Hh. by eapply moved_held.
  - eapply cutoff_evolves; [done|done|]. apply (wo_active _ Hok).
  - pose proof (wo_scan _ Hok) as Hs. cbn [w_tick thread_moved]. destruct (w_tick w) as [| |ae rest] eqn:Htk; try done.
    destruct Hs as (H1 & H2 & H3). split; [done|]. split; [done|]. eapply scan_evolves; try done. lia.
  - intros h r Hh Hr. cbn [w_freed thread_moved] in Hh. apply elem_of_app in Hh as [Hh|Hh].
    + eapply freed_evolves; [done|]. by apply (wo_freed _ Hok h).
    + eapply freed_evolves; [done|]. by eapply step_freed_clear.
Qed.

(** ** The other steps *)

(** Steps that leave sections, objects and epochs in use alone. *)
Lemma quiet_evolves w w' :
  w_globalepoch w <= w_globalepoch w' -> w_sections w' = w_sections w -> w_threads w' = w_threads w -> evolves w w'.
Proof.
  intros H1 H2 H3. split; [done|lia|intros r _ (th & Hi & Hs); exists th; by rewrite <- H3|].
  intros h (i & th & Hi & Hh). left. exists i, th. by rewrite <- H3.
Qed.

Lemma held_evolves w w' h :
  w_globalepoch w <= w_globalepoch w' -> w_sections w' = w_sections w -> w_threads w' = w_threads w ->
  held_ok w h -> held_ok w' h.
Proof. intros H1 H2 H3 [A B C]. split; [lia|by rewrite H2|by rewrite H3]. Qed.

Lemma quiet_ok w w' :
  world_ok w -> evolves w w' -> w_sections w' = w_sections w -> w_threads w' = w_threads w ->
  w_allthreads w' = w_allthreads w -> w_freed w' = w_freed w ->
  0 <= w_ticks w' /\ w_globalepoch w' = 1 + 2 * w_ticks w' -> cutoff w' (w_active_epoch w') ->
  match w_tick w' with
  | Scanning ae rest =>
    0 < ae <= w_globalepoch w' /\ (forall i, i ∈ rest -> i ∈ w_allthreads w') /\
    forall h r, waiting_in w' h -> h_epoch h < ae -> r ∈ h_readers h -> open_section w' r -> fst r ∈ rest
  | _ => True
  end -> world_ok w'.
Proof.
  intros Hok Hev Hse Hth Hall Hfr Htk Hact Hsc. split; try done.
  - intros i th Hi. rewrite Hth in Hi. rewrite Hall. destruct (wo_threads _ Hok _ _ Hi). split; [by eapply position_evolves|done].
  - intros i Hi. rewrite Hth. rewrite Hall in Hi. by apply (wo_all _ Hok).
  - intros h (i & th & Hi & Hh). rewrite Hth in Hi. apply (held_evolves w); try done; [apply Hev|].
    apply (wo_held _ Hok). by exists i, th.
  - intros h r Hh Hr. rewrite Hfr in Hh. eapply freed_evolves; [done|]. by apply (wo_freed _ Hok h).
Qed.

Lemma make_ok w i :
  world_ok w -> w_threads w !! i = None ->
  world_ok (World (w_globalepoch w) (w_active_epoch w) (i :: w_allthreads w) (<[i := new_thread]> (w_threads w))
    (w_tick w) (w_sections w) (w_freed w) (w_ticks w)).
Proof.
  intros Hok Hi. set (w' := World _ _ _ _ _ _ _ _).
  assert (forall j th, w_threads w' !! j = Some th -> (j = i /\ th = new_thread) \/ (w_threads w !! j = Some th)) as Hlk.
  { intros j th. cbn. destruct (decide (j = i)) as [->|Hne]; [rewrite lookup_insert_eq|rewrite lookup_insert_ne by done]; naive_solver. }
  assert (evolves w w') as Hev.
  { split; [done|done| |].
    - intros r _ (th & Hj & Hs). destruct (Hlk _ _ Hj) as [[_ ->]|Hj']; [done|by exists th].
    - intros h (j & th & Hj & Hh). left. destruct (Hlk _ _ Hj) as [[_ ->]|Hj']; [by apply not_elem_of_nil in Hh|by exists j, th]. }
  destruct (wo_ticks _ Hok) as [Ht Hg]. split.
  - done.
  - intros j th Hj. destruct (Hlk _ _ Hj) as [[-> ->]|Hj'].
    + split; [|left]. split; cbn; [lia|done|done].
    + destruct (wo_threads _ Hok _ _ Hj'). split; [by eapply position_evolves|by right].
  - intros j [->|Hj]%elem_of_cons; cbn; [by rewrite lookup_insert_eq|]. destruct (decide (j = i)) as [->|Hne]; [by rewrite lookup_insert_eq|].
    rewrite lookup_insert_ne by done. by apply (wo_all _ Hok).
  - intros h (j & th & Hj & Hh). destruct (Hlk _ _ Hj) as [[_ ->]|Hj']; [by apply not_elem_of_nil in Hh|].
    pose proof (wo_held _ Hok h ltac:(by exists j, th)) as [A B C]. split; [done|done|].
    intros k n t Hr Hk Hs. destruct (Hlk _ _ Hk) as [[_ ->]|Hk']; [done|by eapply C].
  - eapply cutoff_evolves; [done|done|]. apply (wo_active _ Hok).
  - pose proof (wo_scan _ Hok) as Hs. cbn [w_tick w']. destruct (w_tick w) as [| |ae rest] eqn:Htk; try done.
    destruct Hs as (H1 & H2 & H3). split; [done|]. split; [intros j Hj; right; by apply H2|]. eapply scan_evolves; try done. lia.
  - intros h r Hh Hr. eapply freed_evolves; [done|]. by apply (wo_freed _ Hok h).
Qed.

(** Looking at one more thread: its open section has entered by then. *)
Lemma scan_thread_clear w ae i rest th h r :
  world_ok w -> w_ticks w < tick_limit -> w_tick w = Scanning ae (i :: rest) -> w_threads w !! i = Some th ->
  waiting_in w h -> h_epoch h < older_epoch ae (th_gc_epoch th) -> r ∈ h_readers h -> open_section w r -> fst r ∈ rest.
Proof.
  intros Hok Hlim Htk Hi Hh He Hr Ho. pose proof (wo_scan _ Hok) as Hs. rewrite Htk in Hs. destruct Hs as (H1 & H2 & H3).
  destruct (wo_threads _ Hok _ _ Hi) as [[T1 T2 _] _]. destruct (wo_ticks _ Hok) as [Ht Hg]. unfold tick_limit in Hlim.
  rewrite older_epoch_min in He by (unfold epoch_limit; lia).
  assert (h_epoch h < ae) as Hlt by (case_decide; lia). specialize (H3 h r Hh Hlt Hr Ho).
  apply elem_of_cons in H3 as [Heq|]; [|done]. destruct Ho as (t & Hk & Hs). rewrite Heq, Hi in Hk. injection Hk as <-.
  destruct (T2 _ Hs) as [Hpos _]. pose proof (ho_readers _ _ (wo_held _ Hok h Hh) i (snd r) th) as Hle.
  rewrite <- Heq, <- surjective_pairing in Hle. specialize (Hle Hr ltac:(by rewrite Heq) Hs). case_decide; lia.
Qed.

Lemma world_step_ok w w' : world_ok w -> w_ticks w' < tick_limit -> world_step w w' -> world_ok w'.
Proof.
  intros Hok Hlim Hst. destruct (wo_ticks _ Hok) as [Ht Hg].
  destruct Hst as [w i th f th' Hi Hst|w i Hi|w Htk|w Htk|w ae i rest th Htk Hi|w ae Htk].
  - by eapply (thread_step_ok w i th).
  - by apply make_ok.
  - cbn in Hlim. assert (Word.addw 64 (w_globalepoch w) 2 = 1 + 2 * (w_ticks w + 1)) as Hinc
      by (rewrite Hg; apply epoch_incremented; lia).
    assert (evolves w (World (Word.addw 64 (w_globalepoch w) 2) (w_active_epoch w) (w_allthreads w) (w_threads w)
      Ticked (w_sections w) (w_freed w) (w_ticks w + 1))) as Hev by (apply quiet_evolves; cbn; [lia|done|done]).
    apply (quiet_ok w); try done; cbn; [lia|]. eapply cutoff_evolves; [done|done|]. apply (wo_active _ Hok).
  - apply (quiet_ok w); try done; [by apply quiet_evolves|apply (wo_active _ Hok)|]. cbn. split; [lia|]. split; [done|].
    intros h r (j & t & Hj & Hh) He Hr (th & Hi & Hs). by apply (wo_threads _ Hok _ _ Hi).
  - pose proof (wo_scan _ Hok) as Hsc. rewrite Htk in Hsc. destruct Hsc as (H1 & H2 & H3). unfold tick_limit in *.
    destruct (wo_threads _ Hok _ _ Hi) as [[T1 T2 _] _]. cbn in Hlim.
    apply (quiet_ok w); try done; [by apply quiet_evolves|apply (wo_active _ Hok)|]. cbn.
    split; [rewrite older_epoch_min by (unfold epoch_limit; lia); case_decide; lia|]. split; [intros j Hj; apply H2; by right|].
    intros h r Hh He Hr Ho. by eapply (scan_thread_clear w ae i rest th h r).
  - pose proof (wo_scan _ Hok) as Hsc. rewrite Htk in Hsc. destruct Hsc as (H1 & H2 & H3).
    apply (quiet_ok w); try done; [by apply quiet_evolves|]. cbn. split; [done|]. intros h r Hh He Hr Ho.
    by specialize (H3 h r Hh He Hr Ho) as ?%not_elem_of_nil.
Qed.

Lemma initial_ok : world_ok initial_world.
Proof.
  assert (forall h, ~ waiting_in initial_world h) as Hno by (intros h (i & th & Hi & _); cbn in Hi; by rewrite lookup_empty in Hi).
  split; cbn; try done.
  - intros i Hi. by apply not_elem_of_nil in Hi.
  - intros h Hh. by apply Hno in Hh.
  - split; [done|]. intros h r Hh. by apply Hno in Hh.
  - intros h r Hh. by apply not_elem_of_nil in Hh.
Qed.

Lemma ticks_grow w w' : rtc world_step w w' -> w_ticks w <= w_ticks w'.
Proof. induction 1 as [|w w1 w2 Hst _ IH]; [done|]. destruct Hst; cbn in IH |- *; lia. Qed.

Lemma reachable_ok w : reachable w -> w_ticks w < tick_limit -> world_ok w.
Proof.
  intros Hr. apply (rtc_ind_r (R := world_step) (fun w => w_ticks w < tick_limit -> world_ok w) initial_world); [|intros w1 w2 _ Hst IH Hlim|done].
  - intros _. apply initial_ok.
  - pose proof (ticks_grow w1 w2 (rtc_once _ _ Hst)). eapply world_step_ok; [apply IH; lia|done|done].
Qed.

(** C10: No object is freed while a read section that was open when it was retired
    is still open, for any number of threads and every interleaving of their
    accesses with the increments of the global epoch and the scan of
    [min_active_epoch], for up to [2^60] increments. *)
Theorem freed_unread (w : world) :
  reachable w -> w_ticks w < tick_limit ->
  forall h r, h ∈ w_freed w -> r ∈ h_readers h -> ~ open_section w r.
Proof. intros Hr Hlim h r Hh Hin. by apply (wo_freed _ (reachable_ok w Hr Hlim) h r Hh Hin). Qed.

(** ** The operations of a thread as steps *)

(** A world up to its thread [i], the objects freed and the sections used. *)
Record only_thread (w w' : world) (i : nat) (th' : thread) (fs : list held) : Prop := {
  ot_thread : w_threads w' = <[i := th']> (w_threads w);
  ot_freed : w_freed w' = w_freed w ++ fs;
  ot_epochs : w_globalepoch w' = w_globalepoch w /\ w_active_epoch w' = w_active_epoch w;
  ot_rest : w_allthreads w' = w_allthreads w /\ w_tick w' = w_tick w /\ w_ticks w' = w_ticks w
}.

Lemma only_thread_once w i th f th' :
  w_threads w !! i = Some th ->
  thread_step (w_globalepoch w) (w_active_epoch w) (open_sections w) (w_sections w) th f th' ->
  exists w', world_step w w' /\ only_thread w w' i th' f.
Proof. intros Hi Hst. eexists. split; [by eapply step_thread|]. by split. Qed.

Lemma only_thread_trans w w1 w2 i th1 th2 f1 f2 :
  only_thread w w1 i th1 f1 -> only_thread w1 w2 i th2 f2 -> only_thread w w2 i th2 (f1 ++ f2).
Proof.
  intros [A1 A2 [A3 A3'] (A4 & A5 & A6)] [B1 B2 [B3 B3'] (B4 & B5 & B6)]. split.
  - by rewrite B1, A1, insert_insert_eq.
  - by rewrite B2, A2, app_assoc.
  - split; congruence.
  - repeat split; congruence.
Qed.

Lemma only_thread_lookup w w' i th' f : only_thread w w' i th' f -> w_threads w' !! i = Some th'.
Proof. intros H. by rewrite (ot_thread _ _ _ _ _ H), lookup_insert_eq. Qed.

(** Retiring a list of objects in the current epoch. *)
Lemma retire_steps rs : forall w i gc p s q pos,
  w_threads w !! i = Some (Thread gc p s q pos) -> Forall (fun r : retired => fst (fst r) = w_globalepoch w) rs ->
  exists w' hs, rtc world_step w w' /\ h_object <$> hs = rs /\ only_thread w w' i (Thread gc p s (q ++ hs) pos) [].
Proof.
  induction rs as [|[[e ptr] tag] rs IH]; intros w i gc p s q pos Hi Hrs.
  - exists w, []. rewrite app_nil_r. split; [done|]. split; [done|]. split; [by rewrite insert_id|by rewrite app_nil_r|done|done].
  - apply Forall_cons in Hrs as [He Hrs]. cbn in He. subst e.
    destruct (only_thread_once _ _ _ _ _ Hi (step_retire _ _ _ _ ptr tag gc p s q pos)) as (w1 & Hst & H1).
    destruct (ot_epochs _ _ _ _ _ H1) as [Hg _]. rewrite <- Hg in Hrs.
    destruct (IH w1 i _ _ _ _ _ (only_thread_lookup _ _ _ _ _ H1) Hrs) as (w2 & hs & Hrtc & Hm & H2).
    exists w2, (Held (w_globalepoch w, ptr, tag) (open_sections w) :: hs). split; [by eapply rtc_l|]. split; [by cbn; rewrite Hm|].
    rewrite <- app_assoc in H2. exact (only_thread_trans _ _ _ _ _ _ _ _ H1 H2).
Qed.

Section refinement.
Context (junk : list limbo_element) (junk_epoch : Z) (run_callback : Z -> list (Z * Z * Z)).
Context (Hjunk : Z.of_nat (length junk) = limbo_capacity).
Context (Hcallback : forall p, Forall (fun r => fst (fst r) <> 0 /\ tag_ok (snd (fst r))) (run_callback p)).

Lemma recorded_now ptr tag ge :
  (forall p, Forall (fun r : Z * Z * Z => snd r = ge) (run_callback p)) ->
  Forall (fun r : retired => fst (fst r) = ge) (recorded run_callback ptr tag).
Proof. intros H. unfold recorded. case_match; [done|]. case_match; [|done]. apply Forall_map. eapply Forall_impl; [apply H|]. done. Qed.

(** Draining a queue is a run of single frees and retirements. *)
Lemma drains_steps bound qo f qo' : drains run_callback bound qo f qo' -> forall w i gc p s q stopping,
  w_threads w !! i = Some (Thread gc p s q (Freeing stopping bound)) -> h_object <$> q = qo ->
  (forall p, Forall (fun r : Z * Z * Z => snd r = w_globalepoch w) (run_callback p)) ->
  exists w' q' fs, rtc world_step w w' /\ h_object <$> q' = qo' /\ h_object <$> fs = f /\
    only_thread w w' i (Thread gc p s q' (Freeing stopping bound)) fs.
Proof using.
  induction 1 as [qo|r qo f qo' Hr Hd IH]; intros w i gc p s q stopping Hi Hq Hge.
  - exists w, q, []. split; [done|]. split; [done|]. split; [done|]. split; [by rewrite insert_id|by rewrite app_nil_r|done|done].
  - destruct q as [|h q]; [done|]. cbn in Hq. injection Hq as <- <-.
    destruct (only_thread_once _ _ _ _ _ Hi (step_free _ _ _ _ stopping bound gc p s h q Hr)) as (w1 & Hst & H1).
    destruct (ot_epochs _ _ _ _ _ H1) as [Hg1 _].
    destruct (retire_steps (recorded run_callback (snd (fst (h_object h))) (snd (h_object h))) w1 i _ _ _ _ _
      (only_thread_lookup _ _ _ _ _ H1)) as (w2 & hs & Hrtc & Hm & H2); [apply recorded_now; by rewrite Hg1|].
    pose proof (only_thread_trans _ _ _ _ _ _ _ _ H1 H2) as H12. destruct (ot_epochs _ _ _ _ _ H12) as [Hg2 _].
    destruct (IH w2 i _ _ _ _ _ (only_thread_lookup _ _ _ _ _ H12)) as (w3 & q' & fs & Hrtc3 & Hq' & Hfs & H3);
      [by rewrite fmap_app, Hm|by rewrite Hg2|].
    exists w3, q', (h :: fs). split; [eapply rtc_l; [done|by etrans]|]. split; [done|]. split; [by cbn; rewrite Hfs|].
    exact (only_thread_trans _ _ _ _ _ _ _ _ H12 H3).
Qed.

(** [hard_rcu_quiesce] refines the steps of a thread: while the global epoch
    stands, a thread whose limbo groups hold its queue gets from the call to the
    return by steps that free just what [hard_rcu_quiesce] frees, in that order,
    and leave the queue its groups then hold and its [perform_gc_epoch_]. *)
Lemma hard_rcu_quiesce_refines (w : world) (i : nat) (gc p : Z) (s : option nat) (q : list held) (stopping : bool) (t : threadinfo) :
  w_threads w !! i = Some (Thread gc p s q (Hard stopping)) -> limbo_holds t (h_object <$> q) ->
  (forall p, Forall (fun r : Z * Z * Z => snd r = w_globalepoch w) (run_callback p)) ->
  exists t' w' q' fs, hard_rcu_quiesce junk junk_epoch run_callback (w_active_epoch w) t = Ok (tt, t') /\
    limbo_holds t' (h_object <$> q') /\ ti_freed t' = ti_freed t ++ objects (h_object <$> fs) /\
    rtc world_step w w' /\ only_thread w w' i (Thread gc (ti_perform_gc_epoch t') s q' (Leaving stopping)) fs.
Proof using Hjunk Hcallback.
  intros Hi Ht Hge. destruct (quiesce_drains junk junk_epoch run_callback Hjunk Hcallback t _ (w_active_epoch w) Ht)
    as (t' & f & qo & Hrun & Ht' & Hd & _ & _ & Hf & _ & _ & Hp).
  destruct (only_thread_once _ _ _ _ _ Hi (step_bound _ _ _ _ stopping gc p s q)) as (w1 & Hst1 & H1).
  destruct (ot_epochs _ _ _ _ _ H1) as [Hg1 _].
  destruct (drains_steps _ _ _ _ Hd w1 i gc p s q stopping (only_thread_lookup _ _ _ _ _ H1) eq_refl) as (w2 & q' & fs & Hrtc & Hq & Hfs & H2);
    [by rewrite Hg1|].
  pose proof (only_thread_trans _ _ _ _ _ _ _ _ H1 H2) as H12.
  destruct (only_thread_once _ _ _ _ _ (only_thread_lookup _ _ _ _ _ H12)
    (step_freed (w_globalepoch w2) (w_active_epoch w2) (open_sections w2) (w_sections w2) stopping (Word.subw 64 (w_active_epoch w) 1) (ti_perform_gc_epoch t') gc p s q'
      ltac:(rewrite Hp; case_decide; tauto))) as (w3 & Hst3 & H3).
  exists t', w3, q', fs. rewrite Hq, Hfs. split; [done|]. split; [done|]. split; [done|].
  split; [by eapply rtc_l; [|eapply rtc_r]|]. rewrite <- (app_nil_r fs). exact (only_thread_trans _ _ _ _ _ _ _ _ H12 H3).
Qed.
End refinement.

(** ** Witnesses *)

#[local] Ltac show_world := match goal with |- rtc _ ?w ?w' => let v := eval vm_compute in w in change (rtc world_step v w') end.
#[local] Tactic Notation "thread_moves" open_constr(c) := eapply rtc_l; [eapply (step_thread _ 0%nat); [reflexivity|eapply c]|show_world].
#[local] Tactic Notation "world_moves" open_constr(c) := eapply rtc_l; [eapply c; reflexivity|show_world].

(** A thread retires an object inside a read section, leaves it, and frees the
    object after the next tick. *)
Lemma freed_unread_witness :
  exists w h, reachable w /\ h ∈ w_freed w /\ h_readers h = [(0, 1)]%nat /\ forall r, r ∈ h_readers h -> ~ open_section w r.
Proof.
  assert (exists w, reachable w /\ w_ticks w < tick_limit /\ Held (1, 4096, 256) [(0, 1)]%nat ∈ w_freed w) as (w & Hr & Ht & Hh).
  { eexists. split; [|split].
    - unfold reachable. eapply rtc_l; [by apply (step_make _ 0%nat)|show_world].
      thread_moves (step_start _ _ _ _ false). thread_moves step_enter. thread_moves (step_retire _ _ _ _ 4096 256).
      thread_moves step_stop. thread_moves step_due. thread_moves step_bound. eapply rtc_l; [eapply (step_thread _ 0%nat); [reflexivity|eapply step_freed; by right]|show_world]. thread_moves step_leave.
      world_moves step_epochinc. world_moves step_scan_start. world_moves step_scan_thread.
      world_moves step_scan_end.
      thread_moves step_stop. thread_moves step_due. thread_moves step_bound. eapply rtc_l; [eapply (step_thread _ 0%nat); [reflexivity|by eapply step_free]|show_world]. apply rtc_refl.
    - done.
    - vm_compute. left. }
  exists w, (Held (1, 4096, 256) [(0, 1)]%nat). split; [done|]. split; [done|]. split; [done|]. intros r. exact (freed_unread w Hr Ht _ r Hh).
Defined.

(** Every callback retires a block in epoch 3. *)
Definition callback_epoch3 (p : Z) : list (Z * Z * Z) := [(128, 256, 3)].

(** Thread 0 with a callback in limbo, in its call of [hard_rcu_quiesce]; the
    callback retires a block in the epoch of now. *)
Definition quiescing_world : world :=
  World 3 3 [0%nat] {[0%nat := Thread 0 0 None [Held (1, 64, memtag_callback) []] (Hard true)]} Waiting 1 [] 1.

