(* ===== verification/Json.v ===== *)
(** * JSON values (json.hh, json.cc)

    The values of class [Json] with its object and array operations.  The shared,
    reference-counted representations behave as values: every operation that
    writes first makes its representation unique.  An object is the list of its
    live items in the order of insertion (JsonObject has the hash table). *)

From S2P Require Export Prelude.

#[local] Open Scope Z_scope.
#[local] Open Scope lhm_scope.
#[local] Set Warnings "-register-all".

Abbreviation bytes := (list Z).

(** ** The data *)

(** Integers are 64-bit, signed or not; a double is its 64 bits. *)
Inductive Json :=
  | JNull
  | JBool (b : bool)
  | JInt (x : Z)
  | JUnsigned (x : Z)
  | JDouble (d : Z)
  | JString (s : bytes)
  | JArray (a : list Json)
  | JObject (o : list (bytes * Json)).

Definition is_null (j : Json) : bool := match j with JNull => true | _ => false end.
Definition is_b (j : Json) : bool := match j with JBool _ => true | _ => false end.
Definition is_i (j : Json) : bool := match j with JInt _ | JUnsigned _ => true | _ => false end.
Definition is_u (j : Json) : bool := match j with JUnsigned _ => true | _ => false end.
Definition is_d (j : Json) : bool := match j with JDouble _ => true | _ => false end.
Definition is_s (j : Json) : bool := match j with JString _ => true | _ => false end.
Definition is_a (j : Json) : bool := match j with JArray _ => true | _ => false end.
Definition is_o (j : Json) : bool := match j with JObject _ => true | _ => false end.

(** [size()]; the precondition is [is_array() || is_object() || is_null()]. *)
Definition size (j : Json) : res Z :=
  match j with
  | JNull => Ok 0
  | JArray a => Ok (Z.of_nat (length a))
  | JObject o => Ok (Z.of_nat (length o))
  | _ => Fault AssertFailed
  end.

(** ** Values of primitives *)

(** A double's bits truncated to an integer; infinities and NaN have none. *)
Definition double_trunc (d : Z) : option Z :=
  let e := Z.land (Z.shiftr d 52) 2047 in
  let m := Z.land d (2 ^ 52 - 1) in
  if e =? 2047 then None
  else if e =? 0 then Some 0
  else
    let v := Z.shiftr (Z.shiftl (2 ^ 52 + m) (Z.max 0 (e - 1075))) (Z.max 0 (1075 - e)) in
    Some (if Z.shiftr d 63 =? 0 then v else - v).

(** [as_i()], [as_u()]; a double outside the type's range is undefined. *)
Definition as_i (j : Json) : res Z :=
  match j with
  | JInt x => Ok x
  | JUnsigned x => Ok (Word.signed 64 x)
  | JDouble d =>
    match double_trunc d with
    | Some v => if (- 2 ^ 63 <=? v) && (v <? 2 ^ 63) then Ok v else Fault InvalidArgument
    | None => Fault InvalidArgument
    end
  | _ => Fault AssertFailed
  end.
Definition as_u (j : Json) : res Z :=
  match j with
  | JInt x => Ok (Word.wrap 64 x)
  | JUnsigned x => Ok x
  | JDouble d =>
    match double_trunc d with
    | Some v => if (0 <=? v) && (v <? 2 ^ 64) then Ok v else Fault InvalidArgument
    | None => Fault InvalidArgument
    end
  | _ => Fault AssertFailed
  end.
Definition as_s (j : Json) : res bytes := match j with JString s => Ok s | _ => Fault AssertFailed end.

(** ** Text of integers *)

(** [sprintf] of an unsigned decimal; 20 digits are enough for 64 bits. *)
Fixpoint digits (fuel : nat) (n : Z) (acc : bytes) : bytes :=
  match fuel with
  | O => acc
  | S fuel => let acc := 48 + n mod 10 :: acc in if n / 10 =? 0 then acc else digits fuel (n / 10) acc
  end.
Definition decimal (n : Z) : bytes := if n <? 0 then 45 :: digits 20 (- n) [] else digits 20 n [].

(** [to_s()] of what keys are made of: strings and integers. *)
Definition key_to_s (j : Json) : option bytes :=
  match j with
  | JString s => Some s
  | JInt x | JUnsigned x => Some (decimal x)
  | _ => None
  end.

(** ** Objects *)

Fixpoint find_key (o : list (bytes * Json)) (key : bytes) : option nat :=
  match o with
  | [] => None
  | (k, _) :: o => if bool_decide (k = key) then Some 0%nat else S <$> find_key o key
  end.

(** [ObjectJson::find_insert]: the items with the key, and its position. *)
Definition find_insert (o : list (bytes * Json)) (key : bytes) (value : Json) : list (bytes * Json) * nat :=
  match find_key o key with
  | Some i => (o, i)
  | None => (o ++ [(key, value)], length o)
  end.

Fixpoint array_items (i : Z) (a : list Json) (o : list (bytes * Json)) : list (bytes * Json) :=
  match a with
  | [] => o
  | x :: a => array_items (i + 1) a (fst (find_insert o (decimal i) x))
  end.

(** [uniqueify_object(true)] *)
Definition to_object (j : Json) : list (bytes * Json) :=
  match j with
  | JObject o => o
  | JArray a => array_items 0 a []
  | _ => []
  end.

(** [get_insert(key)]: the object with the key, and the position of its item. *)
Definition get_insert (j : Json) (key : bytes) : Json * nat :=
  let (o, i) := find_insert (to_object j) key JNull in (JObject o, i).

Definition set_item (o : list (bytes * Json)) (i : nat) (v : Json) : list (bytes * Json) :=
  alter (fun x => (fst x, v)) i o.

Definition set_key (j : Json) (key : bytes) (value : Json) : Json :=
  let (o, i) := find_insert (to_object j) key JNull in JObject (set_item o i value).

Definition count (j : Json) (key : bytes) : res Z :=
  match j with
  | JNull => Ok 0
  | JObject o => Ok (if find_key o key is Some _ then 1 else 0)
  | _ => Fault AssertFailed
  end.

Fixpoint erase_key (o : list (bytes * Json)) (key : bytes) : list (bytes * Json) :=
  match o with
  | [] => []
  | (k, v) :: o => if bool_decide (k = key) then o else (k, v) :: erase_key o key
  end.

(** ** Arrays *)

Definition to_array (j : Json) : res (list Json) :=
  match j with
  | JNull => Ok []
  | JArray a => Ok a
  | _ => Fault AssertFailed
  end.

(** [resize(n)]; a negative [n] empties the array. *)
Definition resize (j : Json) (n : Z) : res Json :=
  let? a := to_array j in
  let len := Z.of_nat (length a) in
  Ok (JArray (if n <? len then take (Z.to_nat n) a else a ++ replicate (Z.to_nat (n - len)) JNull)).

(** [at_insert(x)] for an index: the array extended to hold it. *)
Definition at_insert (j : Json) (x : Z) : res Json :=
  match j with
  | JArray a => Ok (JArray (a ++ replicate (Z.to_nat (x + 1 - Z.of_nat (length a))) JNull))
  | _ => Fault AssertFailed
  end.

Definition push_back (j x : Json) : res Json := let? a := to_array j in Ok (JArray (a ++ [x])).

Definition pop_back (j : Json) : res Json :=
  match j with
  | JArray a => if bool_decide (a = []) then Fault AssertFailed else Ok (JArray (removelast a))
  | _ => Fault AssertFailed
  end.

Definition array_insert (j : Json) (pos : Z) (x : Json) : res Json :=
  let? a := to_array j in
  let? _ := check_res ((0 <=? pos) && (pos <=? Z.of_nat (length a))) in
  Ok (JArray (take (Z.to_nat pos) a ++ x :: drop (Z.to_nat pos) a)).

Definition array_erase (j : Json) (first last : Z) : res Json :=
  let? a := to_array j in
  if first <? last then
    let? _ := check_res ((0 <=? first) && (last <=? Z.of_nat (length a))) in
    Ok (JArray (take (Z.to_nat first) a ++ drop (Z.to_nat last) a))
  else Ok j.

(** [clear()] keeps the kind of arrays and objects. *)
Definition clear (j : Json) : Json :=
  match j with
  | JArray _ => JArray []
  | JObject _ => JObject []
  | _ => JNull
  end.

(** ** Pointers into a value *)

(** The value at a path of positions, and the value with it replaced. *)
Definition child (j : Json) (i : nat) : option Json :=
  match j with
  | JArray a => a !! i
  | JObject o => snd <$> o !! i
  | _ => None
  end.
Definition set_child (j : Json) (i : nat) (v : Json) : Json :=
  match j with
  | JArray a => JArray (<[i := v]> a)
  | JObject o => JObject (set_item o i v)
  | _ => j
  end.

Fixpoint load_path (path : list nat) (j : Json) : res Json :=
  match path with
  | [] => Ok j
  | i :: path => match child j i with Some c => load_path path c | None => Fault OutOfBounds end
  end.

Fixpoint store_path (path : list nat) (v j : Json) : res Json :=
  match path with
  | [] => Ok v
  | i :: path =>
    match child j i with
    | Some c => let? c' := store_path path v c in Ok (set_child j i c')
    | None => Fault OutOfBounds
    end
  end.

(** ** Keys *)

Lemma find_key_None o key : find_key o key = None <-> key ∉ o.*1.
Proof.
  induction o as [|[k v] o IH]; cbn; [split; [by intros _ ?%not_elem_of_nil|done]|]. rewrite not_elem_of_cons.
  case_bool_decide as E; [split; [done|intros [? _]; congruence]|]. rewrite fmap_None, IH. split; [auto|by intros [_ ?]].
Qed.

(** ** Places in a value *)

(** [store_path] where the path leads somewhere. *)
Fixpoint put (path : list nat) (v j : Json) : Json :=
  match path with
  | [] => v
  | i :: path => match child j i with Some c => set_child j i (put path v c) | None => j end
  end.

Lemma set_item_lookup o i k (w v : Json) : o !! i = Some (k, w) -> set_item o i v !! i = Some (k, v).
Proof. intros H. unfold set_item. by rewrite list_lookup_alter_eq, H. Qed.

Lemma child_set_child j i c v : child j i = Some c -> child (set_child j i v) i = Some v.
Proof.
  destruct j as [| | | | | |a|o]; cbn; try done.
  - intros H%lookup_lt_Some. by rewrite list_lookup_insert_eq.
  - destruct (o !! i) as [[k w]|] eqn:Ho; [|done]. intros _. by rewrite (set_item_lookup _ _ _ _ _ Ho).
Qed.

Lemma set_child_twice j i v w : set_child (set_child j i v) i w = set_child j i w.
Proof.
  destruct j as [| | | | | |a|o]; cbn; try done.
  - by rewrite list_insert_insert_eq.
  - f_equal. unfold set_item. apply list_eq. intros k. destruct (decide (i = k)) as [->|Hne].
    + rewrite !list_lookup_alter_eq. by destruct (o !! k).
    + by rewrite !list_lookup_alter_ne.
Qed.

Lemma store_put path v : forall j v0, load_path path j = Ok v0 -> store_path path v j = Ok (put path v j).
Proof.
  induction path as [|i path IH]; intros j v0; cbn; [done|]. destruct (child j i) as [c|]; [|done].
  intros H. by rewrite (IH _ _ H).
Qed.

Lemma load_put path v : forall j v0, load_path path j = Ok v0 -> load_path path (put path v j) = Ok v.
Proof.
  induction path as [|i path IH]; intros j v0; cbn; [done|]. destruct (child j i) as [c|] eqn:Hc; [|done].
  intros H. rewrite (child_set_child _ _ _ _ Hc). by eapply IH.
Qed.

Lemma put_put path v w : forall j, put path v (put path w j) = put path v j.
Proof.
  induction path as [|i path IH]; intros j; cbn; [done|]. destruct (child j i) as [c|] eqn:Hc.
  - by rewrite (child_set_child _ _ _ _ Hc), IH, set_child_twice.
  - by rewrite Hc.
Qed.

Lemma load_snoc path i : forall j c, load_path path j = Ok c ->
  load_path (path ++ [i]) j = match child c i with Some v => Ok v | None => Fault OutOfBounds end.
Proof.
  induction path as [|k path IH]; intros j c; cbn; [by intros [= ->]|]. destruct (child j k) as [d|]; [|done]. apply IH.
Qed.

Lemma put_snoc path i v : forall j c w, load_path path j = Ok c -> child c i = Some w ->
  put (path ++ [i]) v j = put path (set_child c i v) j.
Proof.
  induction path as [|k path IH]; intros j c w; cbn; [by intros [= ->] ->|].
  destruct (child j k) as [d|]; [|done]. intros H1 H2. by rewrite (IH _ _ _ H1 H2).
Qed.

(** ** Induction on JSON values *)

Section json_ind.
Context (P : Json -> Prop).
Context (HNull : P JNull) (HBool : forall b, P (JBool b)) (HInt : forall x, P (JInt x)) (HUnsigned : forall x, P (JUnsigned x)).
Context (HDouble : forall d, P (JDouble d)) (HString : forall s, P (JString s)).
Context (HArray : forall a, Forall P a -> P (JArray a)).
Context (HObject : forall o, Forall (fun kv => P (snd kv)) o -> P (JObject o)).

Fixpoint json_ind' (j : Json) : P j :=
  match j with
  | JNull => HNull
  | JBool b => HBool b
  | JInt x => HInt x
  | JUnsigned x => HUnsigned x
  | JDouble d => HDouble d
  | JString s => HString s
  | JArray a => HArray a (list_ind (Forall P) (Forall_nil_2 P) (fun x l H => Forall_cons_2 P x l (json_ind' x) H) a)
  | JObject o =>
    HObject o (list_ind (Forall (fun kv => P (snd kv))) (Forall_nil_2 _)
      (fun kv l H => Forall_cons_2 _ kv l (json_ind' (snd kv)) H) o)
  end.
End json_ind.
