(* ===== verification/JsonObject.v ===== *)
(** * The hash table of a JSON object (json.hh, json.cc, string.cc)

    [ObjectJson]: an array of items in the order of insertion, erased ones marked,
    chained into buckets through their indices.  Its operations refine those on
    the list of live items (Json). *)

From S2P Require Export Json.

#[local] Open Scope Z_scope.
#[local] Open Scope lhm_scope.

(** ** String::hashcode *)

Definition add32 (x y : Z) : Z := Word.addw 32 x y.
Definition shl32 (x n : Z) : Z := Word.shlw 32 x n.
Definition get16 (a b : Z) : Z := a + 256 * b.

(** The loop over four bytes at a time: the hash and the bytes left. *)
Fixpoint hash_words (hash : Z) (s : bytes) : Z * bytes :=
  match s with
  | a :: b :: c :: d :: s =>
    let hash := add32 hash (get16 a b) in
    let tmp := Z.lxor (shl32 (get16 c d) 11) hash in
    let hash := Z.lxor (shl32 hash 16) tmp in
    hash_words (add32 hash (Z.shiftr hash 11)) s
  | _ => (hash, s)
  end.

(** The end cases. *)
Definition hash_rest (hash : Z) (s : bytes) : Z :=
  match s with
  | [a; b; c] =>
    let hash := add32 hash (get16 a b) in
    let hash := Z.lxor hash (shl32 hash 16) in
    let hash := Z.lxor hash (Z.shiftl c 18) in
    add32 hash (Z.shiftr hash 11)
  | [a; b] =>
    let hash := add32 hash (get16 a b) in
    let hash := Z.lxor hash (shl32 hash 11) in
    add32 hash (Z.shiftr hash 17)
  | [a] =>
    let hash := add32 hash a in
    let hash := Z.lxor hash (shl32 hash 10) in
    add32 hash (Z.shiftr hash 1)
  | _ => hash
  end.

Definition avalanche (hash : Z) : Z :=
  let hash := Z.lxor hash (shl32 hash 3) in
  let hash := add32 hash (Z.shiftr hash 5) in
  let hash := Z.lxor hash (shl32 hash 4) in
  let hash := add32 hash (Z.shiftr hash 17) in
  let hash := Z.lxor hash (shl32 hash 25) in
  add32 hash (Z.shiftr hash 6).

Definition hashcode (s : bytes) : Z :=
  match s with
  | [] => 0
  | _ =>
    let (hash, rest) := hash_words (Word.wrap 32 (Z.of_nat (length s))) s in
    avalanche (hash_rest hash rest)
  end.

(** ** The table *)

(** An item's pair is destroyed when it is erased; [oi_next] is then -2. *)
Record ObjectItem := Item { oi_v : option (bytes * Json); oi_next : Z }.

(** [n_] is the length of [oj_os], of the [oj_capacity] places allocated. *)
Record ObjectJson := Object {
  oj_os : list ObjectItem;
  oj_capacity : Z;
  oj_hash : list Z;
  oj_size : Z
}.

Definition oj_n (o : ObjectJson) : Z := Z.of_nat (length (oj_os o)).
Definition set_os os o := Object os (oj_capacity o) (oj_hash o) (oj_size o).
Definition set_capacity c o := Object (oj_os o) c (oj_hash o) (oj_size o).
Definition set_hash h o := Object (oj_os o) (oj_capacity o) h (oj_size o).
Definition set_size n o := Object (oj_os o) (oj_capacity o) (oj_hash o) n.

Definition new_object : ObjectJson := Object [] 0 [] 0.

(** The bucket of a key in a hash array of length [n].  The source gives it the
    type [int], like the positions and the counts of items: it is the same number
    as long as there are at most 2^31 buckets.  Sizes are not bounded here. *)
Definition bucket_of (n : nat) (key : bytes) : Z :=
  Z.land (hashcode key) (Word.subw 64 (Z.of_nat n) 1).
Definition bucket (o : ObjectJson) (key : bytes) : Z := bucket_of (length (oj_hash o)) key.

Definition item (o : ObjectJson) (p : Z) : res ObjectItem := aget (oj_os o) p.
Definition item_v (o : ObjectJson) (p : Z) : res (bytes * Json) :=
  let? it := item o p in match oi_v it with Some v => Ok v | None => Fault WrongKind end.
Definition key_at (o : ObjectJson) (p : Z) : res bytes := let? v := item_v o p in Ok (fst v).

(** An [int*] into the table: a bucket or an item's [next_]. *)
Inductive link := Bucket (b : Z) | NextOf (p : Z).

Definition read_link (o : ObjectJson) (b : link) : res Z :=
  match b with
  | Bucket i => aget (oj_hash o) i
  | NextOf p => let? it := item o p in Ok (oi_next it)
  end.
Definition write_link (o : ObjectJson) (b : link) (x : Z) : res ObjectJson :=
  match b with
  | Bucket i => let? h := aset (oj_hash o) i x in Ok (set_hash h o)
  | NextOf p => let? it := item o p in let? os := aset (oj_os o) p (Item (oi_v it) x) in Ok (set_os os o)
  end.

(** [while ( *b >= 0 && !stop( *b)) { b = &os_[*b].next_; ++chain; }] *)
Fixpoint seek (fuel : nat) (o : ObjectJson) (stop : Z -> res bool) (b : link) (chain : Z) : res (link * Z) :=
  match fuel with
  | O => Fault OutOfFuel
  | S fuel =>
    let? p := read_link o b in
    if p <? 0 then Ok (b, chain)
    else
      let? s := stop p in
      if (s : bool) then Ok (b, chain) else seek fuel o stop (NextOf p) (chain + 1)
  end.

Definition stop_at_key (o : ObjectJson) (key : bytes) (p : Z) : res bool :=
  let? k := key_at o p in Ok (bool_decide (k = key)).
Definition stop_at_position (q p : Z) : res bool := Ok (p =? q).

(** A chain has no more items than the table. *)
Definition seek_key (o : ObjectJson) (key : bytes) : res (link * Z) :=
  seek (S (length (oj_os o))) o (stop_at_key o key) (Bucket (bucket o key)) 0.

Definition find (o : ObjectJson) (key : bytes) : res Z :=
  if bool_decide (oj_hash o = []) then Ok (-1)
  else
    let? r := seek_key o key in
    let? p := read_link o (fst r) in
    Ok (if p <? 0 then -1 else p).

(** Growing moves the items, copying copies them. *)
Definition grow (copy : bool) (o : ObjectJson) : ObjectJson :=
  if copy && (oj_capacity o =? 0) then o
  else set_capacity (if copy then oj_capacity o else if negb (oj_capacity o =? 0) then oj_capacity o * 2 else 8) o.
Definition copy_object (o : ObjectJson) : ObjectJson := grow true o.

Fixpoint rehash_loop (i : nat) (o : ObjectJson) : res ObjectJson :=
  match i with
  | O => Ok o
  | S i =>
    let? it := item o (Z.of_nat i) in
    let? o :=
      (if -2 <? oi_next it then
         let? key := key_at o (Z.of_nat i) in
         let b := Bucket (bucket o key) in
         let? h := read_link o b in
         let? o := write_link o (NextOf (Z.of_nat i)) h in
         write_link o b (Z.of_nat i)
       else Ok o) in
    rehash_loop i o
  end.
Definition rehash (o : ObjectJson) : res ObjectJson :=
  rehash_loop (length (oj_os o)) (set_hash (replicate (length (oj_hash o) * 2) (-1)) o).

(** [new (&os_[n_]) ObjectItem(key, value, -1); ++n_; ++size] *)
Definition append_item (o : ObjectJson) (key : bytes) (value : Json) : res ObjectJson :=
  if oj_n o <? oj_capacity o then Ok (set_size (oj_size o + 1) (set_os (oj_os o ++ [Item (Some (key, value)) (-1)]) o))
  else Fault OutOfBounds.

Definition find_insert (o : ObjectJson) (key : bytes) (value : Json) : res (ObjectJson * Z) :=
  let o := if bool_decide (oj_hash o = []) then set_hash (replicate 8 (-1)) o else o in
  let? r := seek_key o key in
  let (b, chain) := r in
  let? p := read_link o b in
  if 0 <=? p then Ok (o, p)
  else
    let n := oj_n o in
    let? o := write_link o b n in
    let o := if n =? oj_capacity o then grow false o else o in
    let? o := append_item o key value in
    let? o := (if 4 <? chain then rehash o else Ok o) in
    Ok (o, n).

(** The place of the value for the key. *)
Definition get_insert (o : ObjectJson) (key : bytes) : res (ObjectJson * Z) := find_insert o key JNull.

(** [os_[p].~ObjectItem(); os_[p].next_ = -2; --size] *)
Definition destroy_item (o : ObjectJson) (p : Z) : res ObjectJson :=
  let? os := aset (oj_os o) p (Item None (-2)) in
  Ok (set_size (oj_size o - 1) (set_os os o)).

(** [*b = os_[p].next_], then the item is destroyed. *)
Definition unlink_item (o : ObjectJson) (b : link) (p : Z) : res ObjectJson :=
  let? it := item o p in
  let? o := write_link o b (oi_next it) in
  destroy_item o p.

Definition erase_at (o : ObjectJson) (p : Z) : res ObjectJson :=
  let? key := key_at o p in
  let? r := seek (S (length (oj_os o))) o (stop_at_position p) (Bucket (bucket o key)) 0 in
  let? q := read_link o (fst r) in
  let? _ := check_res (q =? p) in
  unlink_item o (fst r) p.

Definition erase (o : ObjectJson) (key : bytes) : res (ObjectJson * Z) :=
  let? r := seek_key o key in
  let? p := read_link o (fst r) in
  if 0 <=? p then let? o := unlink_item o (fst r) p in Ok (o, 1) else Ok (o, 0).

(** [item(p).v_.second = value] *)
Definition set_value (o : ObjectJson) (p : Z) (value : Json) : res ObjectJson :=
  let? it := item o p in
  match oi_v it with
  | Some (key, _) => let? os := aset (oj_os o) p (Item (Some (key, value)) (oi_next it)) in Ok (set_os os o)
  | None => Fault WrongKind
  end.

(** [Json::clear] on an object that is not shared. *)
Definition clear_object (o : ObjectJson) : ObjectJson :=
  Object [] (oj_capacity o) (replicate (length (oj_hash o)) (-1)) 0.

(** [const_object_iterator::fix]: the first live position from [i], or -1. *)
Fixpoint fix_from (os : list ObjectItem) (i : Z) : Z :=
  match os with
  | [] => -1
  | it :: os => if oi_next it =? -2 then fix_from os (i + 1) else i
  end.
Definition fix_iterator (o : ObjectJson) (i : Z) : Z := fix_from (drop (Z.to_nat i) (oj_os o)) i.

(** [for (it = begin(); it.live(); ++it)] over the pairs. *)
Fixpoint iterate (fuel : nat) (o : ObjectJson) (i : Z) : res (list (bytes * Json)) :=
  match fuel with
  | O => Fault OutOfFuel
  | S fuel =>
    if i <? 0 then Ok []
    else
      let? v := item_v o i in
      let? l := iterate fuel o (fix_iterator o (i + 1)) in
      Ok (v :: l)
  end.
Definition object_pairs (o : ObjectJson) : res (list (bytes * Json)) :=
  iterate (S (length (oj_os o))) o (fix_iterator o 0).

(** [hard_uniqueify_object] on an array: numeric keys. *)
Fixpoint insert_array (i : Z) (a : list Json) (o : ObjectJson) : res ObjectJson :=
  match a with
  | [] => Ok o
  | x :: a => let? r := find_insert o (decimal i) x in insert_array (i + 1) a (fst r)
  end.

(** [merge]: the pairs of the other object are set one by one. *)
Fixpoint merge_items (o : ObjectJson) (os : list ObjectItem) : res ObjectJson :=
  match os with
  | [] => Ok o
  | it :: os =>
    let? o :=
      (if -2 <? oi_next it then
         match oi_v it with
         | Some (key, value) => let? r := get_insert o key in let (o, p) := r in set_value o p value
         | None => Fault WrongKind
         end
       else Ok o) in
    merge_items o os
  end.
Definition merge (o x : ObjectJson) : res ObjectJson := merge_items o (oj_os x).

(** ** The methods of an object Json *)

Definition object_set (o : ObjectJson) (key : bytes) (value : Json) : res ObjectJson :=
  let? r := get_insert o key in
  let (o, p) := r in
  set_value o p value.
Definition object_insert (o : ObjectJson) (key : bytes) (value : Json) : res (ObjectJson * Z * bool) :=
  let n := oj_n o in
  let? r := find_insert o key value in
  Ok (r, snd r =? n).
Definition object_count (o : ObjectJson) (key : bytes) : res Z :=
  let? p := find o key in Ok (Z.b2z (0 <=? p)).
(** [get] of an object; the null Json for a key it does not have. *)
Definition object_get (o : ObjectJson) (key : bytes) : res Json :=
  let? p := find o key in
  if 0 <=? p then let? v := item_v o p in Ok (snd v) else Ok JNull.
