(* ===== verification/JsonText.v ===== *)
(** * JSON text (json.cc, json.hh, string_base.hh, straccum.cc)

    Writing a value as text ([hard_unparse], [encode_json]) and the streaming
    parser of text ([Json::streaming_parser]).  The text of a double, printed with
    ["%.12g"], and [strtod] are parameters.  A pointer [first] is the list of the
    bytes from it on; a pointer into the value being built is a path. *)

From S2P Require Export Json.

#[local] Open Scope Z_scope.
#[local] Open Scope lhm_scope.

(** ** Writing *)

Record unparse_manipulator := UnparseManipulator {
  indent_depth : Z;
  tab_width : Z;
  newline_terminator : bool;
  space_separator : bool
}.
Definition default_manipulator := UnparseManipulator 0 0 false false.

(** [empty()] and [is_primitive()]. *)
Definition json_empty (j : Json) : bool :=
  match j with JNull | JArray [] | JObject [] => true | _ => false end.
Definition is_primitive (j : Json) : bool :=
  match j with JBool _ | JInt _ | JUnsigned _ | JDouble _ | JString _ => true | _ => false end.

(** The items of an array that make it complex; [i] is the first one's position. *)
Fixpoint complex_items (i : Z) (a : list Json) : bool :=
  match a with
  | [] => false
  | x :: a =>
    (negb (json_empty x) &&
      (negb (is_primitive x) ||
        match x with JString s => (4 <=? i) && (40 <? Z.of_nat (length s)) | _ => false end))
    || complex_items (i + 1) a
  end.

Definition unparse_is_complex (j : Json) : bool :=
  match j with
  | JObject o =>
    (5 <? Z.of_nat (length o))
    || existsb (fun kv => negb (json_empty (snd kv)) && negb (is_primitive (snd kv))) o
  | JArray a => (1024 <? Z.of_nat (length a)) || complex_items 0 a
  | _ => false
  end.

Definition unparse_indent (m : unparse_manipulator) (depth : Z) : bytes :=
  let depth := depth * (if tab_width m =? 0 then 8 else tab_width m) in
  10 :: replicate (Z.to_nat (Z.quot depth 8)) 9 ++ replicate (Z.to_nat (Z.rem depth 8)) 32.

Definition upper_hex_nibble (n : Z) : Z := n + (if 9 <? n then 65 - 10 else 48).

(** A character behind a backslash. *)
Definition escape (c : Z) : bytes :=
  92 ::
  (if c =? 8 then [98]
   else if c =? 12 then [102]
   else if c =? 10 then [110]
   else if c =? 13 then [114]
   else if c =? 9 then [116]
   else if (c =? 92) || (c =? 34) || (c =? 47) then [c]
   else [117; upper_hex_nibble (Z.shiftr c 12); upper_hex_nibble (Z.land (Z.shiftr c 8) 15);
         upper_hex_nibble (Z.land (Z.shiftr c 4) 15); upper_hex_nibble (Z.land c 15)]).

Definition plain (c : Z) : bool := (32 <=? c) && negb (c =? 92) && negb (c =? 34) && negb (c =? 47).

Fixpoint encode_json (s : bytes) : bytes :=
  match s with
  | [] => []
  | c :: t =>
    let rest := if plain c then c :: encode_json t else escape c ++ encode_json t in
    match t with
    | c1 :: c2 :: t' =>
      if (c =? 0xE2) && (c1 =? 0x80) && (Z.lor c2 1 =? 0xA9)
      then escape (0x2028 + Z.land c2 1) ++ encode_json t'
      else rest
    | _ => rest
    end
  end.

(** The separators [upx_normal], [upx_expanded], [upx_separated]. *)
Definition separators (m : unparse_manipulator) (expanded : bool) : bytes * bytes :=
  if expanded then ([58; 32], [44])
  else if space_separator m then ([58; 32], [44; 32])
  else ([58], [44]).

(** ["null"], ["true"], ["false"] *)
Definition text_null : bytes := [110; 117; 108; 108].
Definition text_true : bytes := [116; 114; 117; 101].
Definition text_false : bytes := [102; 97; 108; 115; 101].

Section unparse.
Context (double_text : Z -> bytes).

Fixpoint hard_unparse (m : unparse_manipulator) (depth : Z) (j : Json) : bytes :=
  let expanded := (depth <? indent_depth m) && unparse_is_complex j in
  let upx := separators m expanded in
  let indent d := if expanded then unparse_indent m d else [] in
  (match j with
   | JObject o =>
     123 :: (fix items (rest : bool) (o : list (bytes * Json)) : bytes :=
               match o with
               | [] => []
               | (k, v) :: o =>
                 (if rest then snd upx else []) ++ indent (depth + 1) ++ 34 :: encode_json k ++ 34 :: fst upx
                   ++ hard_unparse m (depth + 1) v ++ items true o
               end) false o
         ++ indent depth ++ [125]
   | JArray a =>
     91 :: (fix items (rest : bool) (a : list Json) : bytes :=
              match a with
              | [] => []
              | x :: a =>
                (if rest then snd upx else []) ++ indent (depth + 1) ++ hard_unparse m (depth + 1) x ++ items true a
              end) false a
        ++ indent depth ++ [93]
   | JNull => text_null
   | JString s => 34 :: encode_json s ++ [34]
   | JBool b => if b then text_true else text_false
   | JInt x | JUnsigned x => decimal x
   | JDouble d => double_text d
   end) ++ (if (depth =? 0) && newline_terminator m then [10] else []).

(** [unparse(m)] *)
Definition unparse (m : unparse_manipulator) (j : Json) : bytes := hard_unparse m 0 j.

End unparse.

(** ** The parser *)

Definition st_final := -2.
Definition st_error := -1.
Definition st_partlenmask := 0x0F.
Definition st_partmask := 0xFF.
Definition st_stringpart := 0x10.
Definition st_primitivepart := 0x20.
Definition st_numberpart := 0x40.
Definition st_initial := 0x000.
Definition st_array_initial := 0x100.
Definition st_array_value := 0x200.
Definition st_object_value := 0x300.
Definition st_array_delim := 0x400.
Definition st_object_delim := 0x500.
Definition st_object_initial := 0x600.
Definition st_object_key := 0x700.
Definition st_object_colon := 0x800.
Definition max_depth := 2048.

Record streaming_parser := StreamingParser {
  jp_state : Z;
  jp_stack : list (list nat);
  jp_str : bytes;
  jp_json : Json
}.
Definition set_state s p := StreamingParser s (jp_stack p) (jp_str p) (jp_json p).
Definition set_stack s p := StreamingParser (jp_state p) s (jp_str p) (jp_json p).
Definition set_str s p := StreamingParser (jp_state p) (jp_stack p) s (jp_json p).
Definition set_json j p := StreamingParser (jp_state p) (jp_stack p) (jp_str p) j.

Definition new_streaming_parser : streaming_parser := StreamingParser st_initial [] [] JNull.
Definition reset (p : streaming_parser) : streaming_parser := set_stack [] (set_state st_initial p).
Definition done (p : streaming_parser) : bool := jp_state p <? 0.
Definition success (p : streaming_parser) : bool := jp_state p =? st_final.
Definition error (p : streaming_parser) : bool := jp_state p =? st_error.

Definition current (p : streaming_parser) : list nat := match jp_stack p with [] => [] | path :: _ => path end.
Definition load (path : list nat) (p : streaming_parser) : res Json := load_path path (jp_json p).
Definition store (path : list nat) (v : Json) (p : streaming_parser) : res streaming_parser :=
  let? j := store_path path v (jp_json p) in Ok (set_json j p).

(** [(unsigned) x - low < high - low] *)
Definition in_range (x low high : Z) : bool := Word.subw 32 (Word.wrap 32 x) low <? Word.subw 32 high low.
Definition is_digit (c : Z) : bool := in_range c 48 (57 + 1).
Definition is_space (c : Z) : bool := (c =? 32) || (c =? 10) || (c =? 13) || (c =? 9).
(** [isxdigit] of the C locale. *)
Definition isxdigit (c : Z) : bool := in_range c 48 (57 + 1) || in_range c 65 (70 + 1) || in_range c 97 (102 + 1).

(** *** Characters *)

(** [append_utf8(ch)]: what is appended. *)
Definition append_utf8_hard (ch : Z) : option bytes :=
  let char0 c := Word.wrap 8 c in
  let char1 := [Z.lor 0x80 (Z.land ch 0x3F)] in
  let char2 := Z.lor 0x80 (Z.land (Z.shiftr ch 6) 0x3F) :: char1 in
  if ch <? 0x8000 then Some (char0 (Z.lor 0xC0 (Z.shiftr ch 6)) :: char1)
  else if ch <? 0x10000 then
    if ((0xD800 <=? ch) && (ch <? 0xE000)) || (0xFFFD <? ch) then None
    else Some (char0 (Z.lor 0xE0 (Z.shiftr ch 12)) :: char2)
  else if ch <? 0x110000 then
    Some (char0 (Z.lor 0xF0 (Z.shiftr ch 18)) :: Z.lor 0x80 (Z.land (Z.shiftr ch 12) 0x3F) :: char2)
  else None.
Definition append_utf8 (ch : Z) : option bytes :=
  if ch <=? 0 then None else if ch <=? 0x7F then Some [ch] else append_utf8_hard ch.

(** The digits of a hexadecimal escape; those of a second surrogate, where the
    source repeats the test of the upper case letters. *)
Definition hex_value (c : Z) : option Z :=
  if in_range c 48 (57 + 1) then Some (c - 48)
  else if in_range c 65 (70 + 1) then Some (c - 65 + 10)
  else if in_range c 97 (102 + 1) then Some (c - 97 + 10)
  else None.
Definition hex_value2 (c : Z) : option Z :=
  if in_range c 48 (57 + 1) then Some (c - 48)
  else if in_range c 65 (70 + 1) then Some (c - 65 + 10)
  else if in_range c 65 (70 + 1) then Some (c - 97 + 10)
  else None.

(** How reading a part of a string ends: with a value and the rest, at the end of
    the input, or in an error at a position. *)
Inductive scan (A : Type) :=
  | Scanned (a : A) (rest : bytes)
  | Incomplete
  | ErrorAt (rest : bytes).
Arguments Scanned {A}.
Arguments Incomplete {A}.
Arguments ErrorAt {A}.

Fixpoint scan_hex (value : Z -> option Z) (n : nat) (ch : Z) (s : bytes) : scan Z :=
  match n with
  | O => Scanned ch s
  | S n =>
    match s with
    | [] => Incomplete
    | c :: s' => match value c with Some v => scan_hex value n (16 * ch + v) s' | None => ErrorAt s end
    end
  end.

(** The character behind a backslash: [s] starts behind the ['u']. *)
Definition scan_unicode (s : bytes) : scan bytes :=
  let finish ch here rest :=
    match append_utf8 ch with Some u => Scanned u rest | None => ErrorAt here end in
  match scan_hex hex_value 4 0 s with
  | Incomplete => Incomplete
  | ErrorAt r => ErrorAt r
  | Scanned ch s1 =>
    if in_range ch 0xD800 0xE000 then
      if 0xDC00 <=? ch then ErrorAt (drop 3 s)
      else
        match s1 with
        | [] => Incomplete
        | c :: s2 =>
          if negb (c =? 92) then ErrorAt s1
          else
            match s2 with
            | [] => Incomplete
            | c :: s3 =>
              if negb (c =? 117) then ErrorAt s2
              else
                match scan_hex hex_value2 4 0 s3 with
                | Incomplete => Incomplete
                | ErrorAt r => ErrorAt r
                | Scanned ch2 s4 =>
                  if negb (in_range ch2 0xDC00 0xE000) then ErrorAt (drop 3 s3)
                  else finish (0x10000 + (ch - 0xD800) * 0x400 + (ch2 - 0xDC00)) (drop 3 s3) s4
                end
            end
        end
    else finish ch (drop 3 s) s1
  end.

(** [consume_backslash]: [s] starts behind the backslash; what is appended. *)
Definition consume_backslash (s : bytes) : scan bytes :=
  match s with
  | [] => Incomplete
  | c :: t =>
    let simple ch := Scanned [ch] t in
    if (c =? 34) || (c =? 92) || (c =? 47) then simple c
    else if c =? 98 then simple 8
    else if c =? 102 then simple 12
    else if c =? 110 then simple 10
    else if c =? 114 then simple 13
    else if c =? 116 then simple 9
    else if c =? 117 then scan_unicode t
    else ErrorAt s
  end.

(** The number of bytes of a character by its first. *)
Definition utf8_length (c : Z) : Z := 2 + Z.b2z (0xE0 <=? c) + Z.b2z (0xF0 <=? c).

(** A character of more than one byte, [c] its first: what is appended, or how
    many bytes there are.  With the first byte alone, the second is read behind
    the input for some [c]. *)
Definition consume_utf8 (c : Z) (bs : bytes) : res (scan bytes) :=
  if negb (in_range c 0xC2 0xF5) then Ok (ErrorAt (c :: bs))
  else
    let want := utf8_length c in
    let n := Z.min (Z.of_nat (length bs) + 1) want in
    let? bad1 :=
      (if (1 <? n) && negb (in_range (nthZ 0 bs 0) 0x80 0xC0) then Ok true
       else if (c =? 0xE0) || (c =? 0xED) || (c =? 0xF0) || (c =? 0xF4) then
         let? c1 := aget bs 0 in
         Ok (((c =? 0xE0) && (c1 <? 0xA0)) || ((c =? 0xED) && (0xA0 <=? c1))
             || ((c =? 0xF0) && (c1 <? 0x90)) || ((c =? 0xF4) && (0x90 <=? c1)))
       else Ok false) in
    if bad1 : bool then Ok (ErrorAt bs)
    else if (2 <? n) && negb (in_range (nthZ 0 bs 1) 0x80 0xC0) then Ok (ErrorAt (drop 1 bs))
    else if (3 <? n) && negb (in_range (nthZ 0 bs 2) 0x80 0xC0) then Ok (ErrorAt (drop 2 bs))
    else if n =? want then
      Ok (Scanned (c :: take (Z.to_nat (n - 1)) bs) (drop (Z.to_nat (n - 1)) bs))
    else Ok Incomplete.

(** *** Strings *)

(** The state, what is in [str_], and the bytes from the returned position. *)
Definition string_result := (Z * bytes * bytes)%type.

(** The end of [consume_string], at the end of the input and at the quote. *)
Definition string_part (state : Z) (sa : bytes) : string_result := (Z.lor state st_stringpart, sa, []).
Definition string_end (state : Z) (sa rest : bytes) : string_result := (Z.land state (Z.lnot st_stringpart), sa, rest).

(** The loop of [consume_string]; an iteration takes at least one byte. *)
Fixpoint string_loop (fuel : nat) (state : Z) (sa s : bytes) : res string_result :=
  match s with
  | [] => Ok (string_part state sa)
  | c :: t =>
    match fuel with
    | O => Fault OutOfFuel
    | S fuel =>
      if in_range c 32 128 && negb (c =? 92) && negb (c =? 34) then string_loop fuel state (sa ++ [c]) t
      else if c =? 34 then Ok (string_end state sa t)
      else
        let? r := (if c =? 92 then Ok (consume_backslash t) else consume_utf8 c t) in
        match r with
        | Scanned u rest => string_loop fuel state (sa ++ u) rest
        | Incomplete => Ok (string_part (Z.lor state (Z.of_nat (length s))) (sa ++ s))
        | ErrorAt rest => Ok (st_error, [], rest)
        end
    end
  end.
Definition string_body (state : Z) (sa s : bytes) : res string_result := string_loop (length s) state sa s.

(** [consume_stringpart]: completes the character that the last buffer cut. *)
Fixpoint consume_stringpart (state : Z) (sa s : bytes) : res string_result :=
  let part := Z.land state st_partlenmask in
  match s with
  | [] => Ok (state, sa, [])
  | c :: t =>
    if part =? 0 then Ok (state, sa, s)
    else
      let len := Z.of_nat (length sa) in
      let? tag := aget sa (len - part) in
      let escaped := tag =? 92 in
      if (negb escaped && negb (Z.land c 0xC0 =? 0x80))
         || (escaped && (part =? 6) && negb (c =? 92))
         || (escaped && (part =? 7) && negb (c =? 117))
         || (escaped && negb (part =? 1) && negb (part =? 6) && negb (part =? 7) && negb (isxdigit c))
      then Ok (st_error, sa, s)
      else
        let sa := sa ++ [c] in
        if (negb escaped && (part =? utf8_length tag - 1))
           || (escaped && ((part =? 1) || (part =? 5) || (part =? 11)))
        then
          let k := Z.to_nat (len - part) in
          let? r := string_body (state - Z.lor st_stringpart part) (take k sa) (drop k sa) in
          let '(state, str, _) := r in
          if state =? st_error then Ok (state, str, s) else consume_stringpart state str t
        else consume_stringpart (state + 1) sa t
  end.

Definition consume_string (p : streaming_parser) (s : bytes) : res (streaming_parser * bytes) :=
  let finish (r : string_result) := let '(state, str, rest) := r in (set_state state (set_str str p), rest) in
  let? r := (if Z.land (jp_state p) st_partlenmask =? 0 then Ok (jp_state p, jp_str p, s)
             else consume_stringpart (jp_state p) (jp_str p) s) in
  let '(state, sa, rest) := r in
  if state =? st_error then Ok (finish (state, [], rest))
  else let? r := string_body state sa rest in Ok (finish r).

(** *** Primitives *)

(** ["null\0false\0true"] *)
Definition primitive_text : bytes := text_null ++ 0 :: text_false ++ 0 :: text_true ++ [0].

Fixpoint primitive_loop (n : Z) (s : bytes) : scan Z :=
  match s with
  | [] => Scanned n []
  | c :: t =>
    let tn := nthZ 0 primitive_text n in
    if tn =? 0 then Scanned n s
    else if negb (tn =? c) then ErrorAt s
    else primitive_loop (n + 1) t
  end.

Definition consume_primitive (p : streaming_parser) (s : bytes) : streaming_parser * bytes * Json :=
  let '(p, n, s) :=
    if negb (Z.land (jp_state p) st_primitivepart =? 0) then
      (set_state (Z.land (jp_state p) (Z.lnot st_partmask)) p, Z.land (jp_state p) st_partlenmask, s)
    else
      let c := nthZ 0 s 0 in
      (p, if c =? 110 then 1 else if c =? 102 then 6 else 12, drop 1 s) in
  match primitive_loop n s with
  | ErrorAt rest => (set_state st_error p, rest, JNull)
  | Incomplete => (p, s, JNull)
  | Scanned n rest =>
    if negb (nthZ 0 primitive_text n =? 0) then
      (set_state (Z.lor (jp_state p) (Z.lor st_primitivepart n)) p, rest, JNull)
    else (p, rest, if n =? 4 then JNull else JBool (negb (n =? 10)))
  end.

(** *** Numbers *)

Fixpoint skip_digits (s : bytes) : bytes :=
  match s with c :: t => if is_digit c then skip_digits t else s | [] => [] end.

(** The cases of the [switch], from the last to the first: the position and the
    rest. *)
Definition case9 (s : bytes) : Z * bytes := (9, skip_digits s).
Definition case8 (s : bytes) : Z * bytes :=
  match s with
  | c :: t => if is_digit c then case9 t else (8, skip_digits s)
  | [] => (8, [])
  end.
Definition exponent (s : bytes) : Z * bytes :=
  match s with
  | c :: t => if (c =? 43) || (c =? 45) then case8 t else case8 s
  | [] => (6, [])
  end.
Definition maybe_exponent (position : Z) (s : bytes) : Z * bytes :=
  match s with
  | c :: t => if (c =? 101) || (c =? 69) then exponent t else (position, s)
  | [] => (position, [])
  end.
Definition case5 (position : Z) (s : bytes) : Z * bytes :=
  let s := skip_digits s in
  if bool_decide (s <> []) && (position =? 5) then maybe_exponent position s else (position, s).
Definition case_decimal (s : bytes) : Z * bytes :=
  match s with
  | c :: t => if is_digit c then case5 5 t else case5 4 s
  | [] => case5 4 []
  end.
Definition case3 (position : Z) (s : bytes) : Z * bytes :=
  match s with
  | c :: t => if c =? 46 then case_decimal t else maybe_exponent position s
  | [] => maybe_exponent position []
  end.
Definition case1 (s : bytes) : Z * bytes := case3 1 (skip_digits s).
Definition case2 (s : bytes) : Z * bytes :=
  match s with
  | c :: t => if c =? 48 then case3 3 t else if in_range c 49 (57 + 1) then case1 t else case3 2 s
  | [] => case3 2 []
  end.
Definition case0 (s : bytes) : Z * bytes :=
  match s with c :: t => if c =? 45 then case2 t else case2 s | [] => case2 [] end.

Definition scan_number (position : Z) (s : bytes) : Z * bytes :=
  if position =? 0 then case0 s
  else if position =? 1 then case1 s
  else if position =? 2 then case2 s
  else if position =? 3 then case3 3 s
  else if position =? 4 then case_decimal s
  else if position =? 5 then case5 5 s
  else if position =? 6 then exponent s
  else if position =? 8 then case8 s
  else if position =? 9 then case9 s
  else (position, s).

(** [x = (x * 10) + *prev - '0'] in 64 bits. *)
Definition number_value (s : bytes) : Z := fold_left (fun x c => Word.wrap 64 (x * 10 + c - 48)) s 0.

Section consume.
Context (strtod : bytes -> Z).

(** The value of a number's text; negating the least integer is undefined. *)
Definition number_json (position : Z) (text : bytes) : res Json :=
  match text with
  | [c] => Ok (JInt (c - 48))
  | _ =>
    if position <? 4 then
      if nthZ 0 text 0 =? 45 then
        let x := Word.signed 64 (number_value (drop 1 text)) in
        if x =? - 2 ^ 63 then Fault InvalidArgument else Ok (JInt (- x))
      else Ok (JUnsigned (number_value text))
    else Ok (JDouble (strtod text))
  end.

Definition consume_number (p : streaming_parser) (s : bytes) (complete : bool) : res (streaming_parser * bytes * Json) :=
  let '(position, rest) := scan_number (Z.land (jp_state p) st_partlenmask) s in
  let scanned := take (length s - length rest) s in
  if bool_decide (rest <> []) || complete then
    if Z.even position then Ok (set_state st_error (set_str [] p), rest, JNull)
    else
      let text := if Z.land (jp_state p) st_partlenmask =? 0 then scanned else jp_str p ++ scanned in
      let? j := number_json position text in
      Ok (set_state (Z.land (jp_state p) (Z.lnot st_partmask)) (set_str [] p), rest, j)
  else
    let str := if Z.land (jp_state p) st_partmask =? 0 then scanned else jp_str p ++ scanned in
    let state := Z.lor (Z.lor (Z.land (jp_state p) (Z.lnot st_partmask)) st_numberpart) position in
    Ok (set_state state (set_str str p), rest, JNull).

(** *** The loop *)

(** How an iteration ends: go on, or return to the caller. *)
Inductive progress :=
  | Continue (p : streaming_parser) (bs : bytes)
  | Return (p : streaming_parser) (bs : bytes).

Definition error_at (p : streaming_parser) (bs : bytes) : res progress := Ok (Return (set_state st_error p) bs).

(** [stack_.pop_back()] *)
Definition pop_back (p : streaming_parser) : res streaming_parser :=
  match jp_stack p with [] => Fault OutOfBounds | _ :: st => Ok (set_stack st p) end.

(** From the label [value]. *)
Definition value (p : streaming_parser) (j : Json) (bs : bytes) : res progress :=
  let state := jp_state p in
  let? c := load (current p) p in
  let? r :=
    (if negb (state =? st_initial) && is_a c then
       let? n := size c in
       let? c := push_back c j in
       let? q := store (current p) c p in
       Ok (q, current p ++ [Z.to_nat n])
     else
       let? q := store (current p) j p in
       Ok (q, current p)) in
  let '(p, jp) := r in
  let? p := (if state =? st_object_value then pop_back p else Ok p) in
  if is_a j || is_o j then
    let p := if state =? st_initial then p else set_stack (jp :: jp_stack p) p in
    Ok (Continue (set_state (if is_a j then st_array_initial else st_object_initial) p) bs)
  else if state =? st_object_value then Ok (Continue (set_state st_object_delim p) bs)
  else if (state =? st_array_initial) || (state =? st_array_value) then Ok (Continue (set_state st_array_delim p) bs)
  else Ok (Return (set_state st_final p) bs).

(** From the label [close_value]. *)
Definition close_value (p : streaming_parser) (bs : bytes) : res progress :=
  match jp_stack p with
  | [] => Ok (Return (set_state st_final p) bs)
  | _ :: st =>
    let p := set_stack st p in
    let? c := load (current p) p in
    Ok (Continue (set_state (if is_a c then st_array_delim else st_object_delim) p) bs)
  end.

(** From the labels [string_value], [string_object_key], [primitive], [number]. *)
Definition string_value (p : streaming_parser) (s : bytes) : res progress :=
  let? r := consume_string p s in
  let '(p, rest) := r in
  if (0 <=? jp_state p) && (Z.land (jp_state p) st_stringpart =? 0) then value p (JString (jp_str p)) rest
  else Ok (Continue p rest).

Definition string_object_key (p : streaming_parser) (s : bytes) : res progress :=
  let? r := consume_string p s in
  let '(p, rest) := r in
  if (0 <=? jp_state p) && (Z.land (jp_state p) st_stringpart =? 0) then
    let? c := load (current p) p in
    let (c, i) := get_insert c (jp_str p) in
    let? q := store (current p) c p in
    Ok (Continue (set_stack ((current p ++ [i]) :: jp_stack p) q) rest)
  else Ok (Continue p rest).

Definition primitive (p : streaming_parser) (s : bytes) : res progress :=
  let '(p, rest, j) := consume_primitive p s in
  if (0 <=? jp_state p) && (Z.land (jp_state p) st_primitivepart =? 0) then value p j rest
  else Ok (Continue p rest).

Definition number (complete : bool) (p : streaming_parser) (s : bytes) : res progress :=
  let? r := consume_number p s complete in
  let '(p, rest, j) := r in
  if (0 <=? jp_state p) && (Z.land (jp_state p) st_numberpart =? 0) then value p j rest
  else Ok (Continue p rest).

(** [case '{'] and [case '[']: an object or array that was the result is emptied
    and used again. *)
Definition open_value (p : streaming_parser) (again : bool) (empty : Json) (c : Z) (bs : bytes) : res progress :=
  if st_object_value <? jp_state p then error_at p (c :: bs)
  else if Z.of_nat (length (jp_stack p)) =? max_depth then error_at p (c :: bs)
  else if (jp_state p =? st_initial) && again then value (set_json JNull p) (clear (jp_json p)) bs
  else value p empty bs.

(** The first byte is in ["-0123456789"], or ["nft"]. *)
Definition starts_number (c : Z) : bool := (c =? 45) || ((48 <=? c) && (c <=? 57)).
Definition starts_primitive (c : Z) : bool := (c =? 110) || (c =? 102) || (c =? 116).

Fixpoint skip_space (s : bytes) : bytes :=
  match s with c :: t => if (c <=? 32) && is_space c then skip_space t else s | [] => [] end.

(** One iteration of [consume]; [c] is [*first] and [bs] is behind it. *)
Definition consume_step (complete : bool) (p : streaming_parser) (c : Z) (bs : bytes) : res progress :=
  let state := jp_state p in
  let error_here := error_at p (c :: bs) in
  if is_space c then Ok (Continue p (skip_space (c :: bs)))
  else if c =? 44 then
    if state =? st_array_delim then Ok (Continue (set_state st_array_value p) bs)
    else if state =? st_object_delim then Ok (Continue (set_state st_object_key p) bs)
    else error_here
  else if c =? 58 then
    if state =? st_object_colon then Ok (Continue (set_state st_object_value p) bs) else error_here
  else if c =? 123 then open_value p (is_o (jp_json p)) (JObject []) c bs
  else if c =? 125 then
    if (state =? st_object_initial) || (state =? st_object_delim) then close_value p bs else error_here
  else if c =? 91 then open_value p (is_a (jp_json p)) (JArray []) c bs
  else if c =? 93 then
    if (state =? st_array_initial) || (state =? st_array_delim) then close_value p bs else error_here
  else if c =? 34 then
    if state <=? st_object_value then string_value (set_str [] p) bs
    else if (state =? st_object_initial) || (state =? st_object_key) then
      string_object_key (set_state st_object_colon (set_str [] p)) bs
    else error_here
  else if starts_primitive c then if state <=? st_object_value then primitive p (c :: bs) else error_here
  else if starts_number c then if state <=? st_object_value then number complete p (c :: bs) else error_here
  else error_here.

Fixpoint consume_loop (fuel : nat) (complete : bool) (p : streaming_parser) (s : bytes) : res (streaming_parser * bytes) :=
  if jp_state p <? 0 then Ok (p, s)
  else
    match s with
    | [] => Ok (p, [])
    | c :: bs =>
      match fuel with
      | O => Fault OutOfFuel
      | S fuel =>
        let? r := consume_step complete p c bs in
        match r with
        | Return p rest => Ok (p, rest)
        | Continue p rest => consume_loop fuel complete p rest
        end
      end
    end.

(** [consume(first, last, str, complete)]; an iteration takes at least one byte,
    but for the one that goes on with a part of a token. *)
Definition consume (p : streaming_parser) (s : bytes) (complete : bool) : res (streaming_parser * bytes) :=
  let state := jp_state p in
  if (0 <=? state) && negb (Z.land state st_partmask =? 0) then
    let? r :=
      (if negb (Z.land state st_stringpart =? 0) && (st_object_colon <=? state) then string_object_key p s
       else if negb (Z.land state st_stringpart =? 0) then string_value p s
       else if negb (Z.land state st_primitivepart =? 0) then primitive p s
       else number complete p s) in
    match r with
    | Return p rest => Ok (p, rest)
    | Continue p rest => consume_loop (length rest) complete p rest
    end
  else consume_loop (length s) complete p s.

(** [assign_parse(first, last, str)]: the value, or none where it returns false. *)
Definition assign_parse (s : bytes) : res (option Json) :=
  let? r := consume new_streaming_parser s true in
  let '(p, rest) := r in
  let rest := match rest with c :: t => if is_space c then t else rest | [] => [] end in
  Ok (if bool_decide (rest = []) && success p then Some (jp_json p) else None).

End consume.
