(* ===== verification/JsonTextInvariant.v ===== *)
(** * JSON text: the parser's invariant

    The pointers on the parser's stack lead to places of the value being built, of
    the kind that the state asks for, and a part of a token that a buffer cut is
    what is left of it.  Every call keeps this, takes input up to the end or to
    where it stops, and has two faults, which are the code's. *)

From S2P Require Export JsonText.

#[local] Open Scope Z_scope.
#[local] Open Scope lhm_scope.

(** ** Results with a property *)

(** A result has [Q], or is a fault that has [E]. *)
Definition returns {A} (E : fault -> Prop) (Q : A -> Prop) (r : res A) : Prop :=
  match r with Ok a => Q a | Fault f => E f end.

Lemma returns_bind {A B} (E : fault -> Prop) (P : A -> Prop) (Q : B -> Prop) r k :
  returns E P r -> (forall a, P a -> returns E Q (k a)) -> returns E Q (rbind r k).
Proof. destruct r; cbn; auto. Qed.

Lemma returns_weaken {A} (E E' : fault -> Prop) (P Q : A -> Prop) r :
  returns E P r -> (forall f, E f -> E' f) -> (forall a, P a -> Q a) -> returns E' Q r.
Proof. destruct r; cbn; auto. Qed.

(** ** Places *)

Definition container (j : Json) : Prop := is_a j = true \/ is_o j = true.
Definition same_kind (j k : Json) : Prop := is_a j = is_a k /\ is_o j = is_o k.

Lemma same_kind_container j k : same_kind j k -> container j -> container k.
Proof. unfold container. by intros [-> ->]. Qed.

Lemma set_child_kind j i v : same_kind (set_child j i v) j.
Proof. by destruct j. Qed.

Lemma load_path_app p q j : load_path (p ++ q) j = rbind (load_path p j) (load_path q).
Proof. revert j. induction p as [|i p IH]; intros j; cbn; [done|]. by destruct (child j i). Qed.

Lemma put_app p q v j c : load_path p j = Ok c -> put (p ++ q) v j = put p (put q v c) j.
Proof.
  revert j. induction p as [|i p IH]; intros j; cbn; [by intros [= ->]|].
  destruct (child j i); [|done]. intros H. by rewrite (IH _ H).
Qed.

Lemma put_kind q v c : q <> [] -> same_kind (put q v c) c.
Proof. destruct q as [|i q]; [done|]. intros _. cbn. destruct (child c i); [apply set_child_kind|done]. Qed.

(** The top of a stack of places; under the bottom is the whole value. *)
Definition top (S : list (list nat)) : list nat := match S with [] => [] | path :: _ => path end.

(** Every place is in the array or object that the one below leads to. *)
Inductive stack_ok (j : Json) : list (list nat) -> Prop :=
  | stack_root : stack_ok j []
  | stack_push S q c v : stack_ok j S -> q <> [] -> load_path (top S) j = Ok c -> container c ->
      load_path q c = Ok v -> stack_ok j ((top S ++ q) :: S).

Lemma stack_top j S : stack_ok j S -> exists c, load_path (top S) j = Ok c.
Proof.
  destruct 1 as [|S q c v HS Hq Hc _ Hv]; [by exists j|]. exists v. cbn [top]. by rewrite load_path_app, Hc.
Qed.

(** Writing at the top moves nothing of the stack. *)
Lemma stack_put j S v : stack_ok j S -> stack_ok (put (top S) v j) S.
Proof.
  intros H. revert v. induction H as [|S q c w HS IH Hq Hc Hk Hv]; intros v; [constructor|]. cbn [top].
  rewrite (put_app _ _ _ _ _ Hc). apply (stack_push _ _ _ (put q v c) v).
  - apply IH.
  - done.
  - by eapply load_put.
  - eapply same_kind_container; [|exact Hk]. destruct (put_kind q v c Hq) as [E1 E2]. by split.
  - by eapply load_put.
Qed.

(** What is below the top keeps its kind. *)
Lemma stack_put_below j S q c v : stack_ok j ((top S ++ q) :: S) -> q <> [] -> load_path (top S) j = Ok c ->
  exists c', load_path (top S) (put (top S ++ q) v j) = Ok c' /\ same_kind c' c.
Proof.
  intros _ Hq Hc. rewrite (put_app _ _ _ _ _ Hc). exists (put q v c). split; [by eapply load_put|by apply put_kind].
Qed.

(** ** Token parts *)

Definition lead_bytes : list Z := [0xE0; 0xED; 0xF0; 0xF4].

(** What is saved of a character of a string: its bytes [cut] at the end. *)
Definition part_ok (n : Z) (str : bytes) : Prop :=
  exists pre cut, str = pre ++ cut /\ Z.of_nat (length cut) = n /\ n <= 11 /\ Forall is_byte cut /\
    match cut with
    | [] => True
    | c :: _ => c = 92 \/ 0xC2 <= c < 0xF5 /\ n < utf8_length c
    end.

Definition value_states : list Z := [st_initial; st_array_initial; st_array_value; st_object_value].
Definition full_states : list Z :=
  value_states ++ [st_array_delim; st_object_delim; st_object_initial; st_object_key; st_object_colon].

(** Where the top of the stack leads in a state between tokens. *)
Definition place_ok (state : Z) (S : list (list nat)) (j : Json) : Prop :=
  stack_ok j S /\
  if state =? st_initial then S = []
  else if (state =? st_array_initial) || (state =? st_array_value) || (state =? st_array_delim) then
    exists c, load_path (top S) j = Ok c /\ is_a c = true
  else if (state =? st_object_value) || (state =? st_object_colon) then
    exists path S' c, S = path :: S' /\ load_path (top S') j = Ok c /\ is_o c = true
  else exists c, load_path (top S) j = Ok c /\ is_o c = true.

Definition number_positions : list Z := [1; 2; 3; 4; 5; 6; 8; 9].
Definition primitive_positions : list Z := [1; 2; 3; 5; 6; 7; 8; 9; 11; 12; 13; 14].

(** Between tokens, in a string value, in a key, in a primitive, in a number. *)
Inductive parser_at (p : streaming_parser) : Prop :=
  | at_token : jp_state p ∈ full_states -> place_ok (jp_state p) (jp_stack p) (jp_json p) -> parser_at p
  | at_string base n : base ∈ value_states -> jp_state p = base + st_stringpart + n -> part_ok n (jp_str p) ->
      place_ok base (jp_stack p) (jp_json p) -> parser_at p
  | at_key n : jp_state p = st_object_colon + st_stringpart + n -> part_ok n (jp_str p) ->
      place_ok st_object_key (jp_stack p) (jp_json p) -> parser_at p
  | at_primitive base n : base ∈ value_states -> n ∈ primitive_positions -> jp_state p = base + st_primitivepart + n ->
      place_ok base (jp_stack p) (jp_json p) -> parser_at p
  | at_number base n : base ∈ value_states -> n ∈ number_positions -> jp_state p = base + st_numberpart + n ->
      place_ok base (jp_stack p) (jp_json p) -> parser_at p.

(** The invariant: done, or at a place. *)
Definition parser_ok (p : streaming_parser) : Prop := jp_state p = st_final \/ jp_state p = st_error \/ parser_at p.

Lemma new_parser_ok : parser_ok new_streaming_parser.
Proof. right; right. apply at_token; [by refine (bool_decide_unpack _ _)|]. split; [constructor|done]. Qed.

(** ** Bits of states *)

(** A fact on all states and counts of bytes, computed. *)
Lemma state_table (f : Z -> Z -> bool) base n :
  forallb (fun b => forallb (f b) (seqZ 0 16)) full_states = true -> base ∈ full_states -> 0 <= n < 16 -> f base n = true.
Proof.
  intros Ht Hb Hn. pose proof (forallb_elem _ _ _ Ht Hb) as H. cbn beta in H. eapply forallb_elem; [exact H|].
  apply elem_of_seqZ. lia.
Qed.

Section states.
Context (base n : Z) (Hbase : base ∈ full_states) (Hn : 0 <= n < 16).

Ltac state_fact := apply Z.eqb_eq;
  match goal with |- ?b = true =>
    let b := eval pattern base, n in b in
    match b with ?f base n => exact (state_table f base n eq_refl Hbase Hn) end
  end.

Lemma part_len : Z.land (base + st_stringpart + n) st_partlenmask = n.
Proof using Hbase Hn. state_fact. Qed.
Lemma part_save : Z.lor (Z.lor base n) st_stringpart = base + st_stringpart + n.
Proof using Hbase Hn. state_fact. Qed.
Lemma part_save_again : Z.lor (Z.lor (base + st_stringpart) n) st_stringpart = base + st_stringpart + n.
Proof using Hbase Hn. state_fact. Qed.
Lemma part_drop : base + st_stringpart + n - Z.lor st_stringpart n = base.
Proof using Hbase Hn. state_fact. Qed.
Lemma part_twice : Z.lor (base + st_stringpart + n) st_stringpart = base + st_stringpart + n.
Proof using Hbase Hn. state_fact. Qed.
Lemma string_bit : Z.land (base + st_stringpart + n) st_stringpart = st_stringpart.
Proof using Hbase Hn. state_fact. Qed.
Lemma primitive_len : Z.land (base + st_primitivepart + n) st_partlenmask = n.
Proof using Hbase Hn. state_fact. Qed.
Lemma primitive_bit : Z.land (base + st_primitivepart + n) st_primitivepart = st_primitivepart.
Proof using Hbase Hn. state_fact. Qed.
Lemma primitive_no_string : Z.land (base + st_primitivepart + n) st_stringpart = 0.
Proof using Hbase Hn. state_fact. Qed.
Lemma primitive_base : Z.land (base + st_primitivepart + n) (Z.lnot st_partmask) = base.
Proof using Hbase Hn. state_fact. Qed.
Lemma primitive_save : Z.lor base (Z.lor st_primitivepart n) = base + st_primitivepart + n.
Proof using Hbase Hn. state_fact. Qed.
Lemma number_len : Z.land (base + st_numberpart + n) st_partlenmask = n.
Proof using Hbase Hn. state_fact. Qed.
Lemma number_bit : Z.land (base + st_numberpart + n) st_numberpart = st_numberpart.
Proof using Hbase Hn. state_fact. Qed.
Lemma number_no_string : Z.land (base + st_numberpart + n) st_stringpart = 0.
Proof using Hbase Hn. state_fact. Qed.
Lemma number_no_primitive : Z.land (base + st_numberpart + n) st_primitivepart = 0.
Proof using Hbase Hn. state_fact. Qed.
Lemma number_base : Z.land (base + st_numberpart + n) (Z.lnot st_partmask) = base.
Proof using Hbase Hn. state_fact. Qed.
Lemma number_save : Z.lor (Z.lor base st_numberpart) n = base + st_numberpart + n.
Proof using Hbase Hn. state_fact. Qed.
Lemma part_mask p : p ∈ [st_stringpart; st_primitivepart; st_numberpart] -> Z.land (base + p + n) st_partmask = p + n.
Proof using Hbase Hn. intros Hp. repeat (apply elem_of_cons in Hp as [->|Hp]; [state_fact|]). by apply not_elem_of_nil in Hp. Qed.
End states.

Section states0.
Context (base : Z) (Hbase : base ∈ full_states).

Ltac base_fact := apply Z.eqb_eq;
  match goal with |- ?b = true =>
    let b := eval pattern base in b in
    match b with ?f base => exact (forallb_elem f full_states base eq_refl Hbase) end
  end.

Lemma string_again : Z.lor (base + st_stringpart) st_stringpart = base + st_stringpart.
Proof using Hbase. base_fact. Qed.
Lemma string_start : Z.lor base st_stringpart = base + st_stringpart.
Proof using Hbase. base_fact. Qed.
Lemma string_stop : Z.land (base + st_stringpart) (Z.lnot st_stringpart) = base.
Proof using Hbase. base_fact. Qed.
Lemma string_none : Z.land base (Z.lnot st_stringpart) = base.
Proof using Hbase. base_fact. Qed.
Lemma full_parts : Z.land base st_partmask = 0.
Proof using Hbase. base_fact. Qed.
Lemma full_len : Z.land base st_partlenmask = 0.
Proof using Hbase. base_fact. Qed.
Lemma full_string : Z.land base st_stringpart = 0.
Proof using Hbase. base_fact. Qed.
Lemma full_primitive : Z.land base st_primitivepart = 0.
Proof using Hbase. base_fact. Qed.
Lemma full_number : Z.land base st_numberpart = 0.
Proof using Hbase. base_fact. Qed.
Lemma full_base : Z.land base (Z.lnot st_partmask) = base.
Proof using Hbase. base_fact. Qed.
Lemma full_range : 0 <= base <= 0x800.
Proof using Hbase.
  assert ((0 <=? base) && (base <=? 0x800) = true) as [H1 H2]%andb_true_iff; [|lia].
  exact (forallb_elem (fun b => (0 <=? b) && (b <=? 0x800)) full_states base eq_refl Hbase).
Qed.
End states0.

Lemma value_state_full base : base ∈ value_states -> base ∈ full_states.
Proof. intros H. unfold full_states. apply elem_of_app. by left. Qed.

(** ** Characters *)

Lemma in_range_spec x low high : 0 <= x < 2 ^ 32 -> 0 <= low <= high -> high < 2 ^ 32 ->
  in_range x low high = (low <=? x) && (x <? high).
Proof.
  intros Hx Hl Hh. unfold in_range, Word.subw. rewrite (Word.wrap_small 32 x), (Word.wrap_small 32 (high - low)) by (split; lia).
  unfold Word.wrap. destruct (Z.leb_spec low x) as [H|H]; cbn [andb].
  - rewrite Z.mod_small by lia. zcases; done.
  - rewrite <- (Z.mod_add (x - low) 1), Z.mod_small by lia. apply Z.ltb_ge. lia.
Qed.

(** [in_range] of a byte as a comparison. *)
Ltac in_ranges := rewrite ?in_range_spec by (unfold is_byte in *; lia).

Lemma suffix_drop_of {A} n (l : list A) : drop n l `suffix_of` l.
Proof. exists (take n l). by rewrite take_drop. Qed.

Lemma scan_hex_spec v n : forall ch s,
  match scan_hex v n ch s with
  | Scanned _ r => r `suffix_of` s /\ length s = (n + length r)%nat
  | Incomplete => (length s < n)%nat
  | ErrorAt r => r `suffix_of` s
  end.
Proof.
  induction n as [|n IH]; intros ch [|c s]; cbn; try done; [lia|].
  destruct (v c) as [d|]; [|done]. specialize (IH (16 * ch + d) s).
  destruct (scan_hex v n _ s) as [a r| |r]; [|lia|by apply suffix_cons_r].
  destruct IH as [H1 H2]. split; [by apply suffix_cons_r|lia].
Qed.

Lemma scan_unicode_spec s :
  match scan_unicode s with
  | Scanned _ r => r `suffix_of` s /\ (length r < length s)%nat
  | Incomplete => (length s <= 9)%nat
  | ErrorAt r => r `suffix_of` s
  end.
Proof.
  unfold scan_unicode. pose proof (scan_hex_spec hex_value 4 0 s) as H.
  destruct (scan_hex hex_value 4 0 s) as [ch s1| |r]; [|lia|done]. destruct H as [H1 Hl1].
  assert (forall ch, match match append_utf8 ch with Some u => Scanned u s1 | None => ErrorAt (drop 3 s) end with
    | Scanned _ r => r `suffix_of` s /\ (length r < length s)%nat | Incomplete => (length s <= 9)%nat | ErrorAt r => r `suffix_of` s end) as Hf.
  { intros c. destruct (append_utf8 c); [split; [done|lia]|apply suffix_drop_of]. }
  destruct (in_range ch _ _); [|apply Hf]. destruct (0xDC00 <=? ch); [apply suffix_drop_of|].
  destruct s1 as [|c s2]; [cbn in Hl1; lia|]. destruct (negb (c =? 92)); [done|].
  assert (s2 `suffix_of` s) as H2 by (etrans; [|exact H1]; by apply suffix_cons_r).
  destruct s2 as [|c' s3]; [cbn in Hl1; lia|]. destruct (negb (c' =? 117)); [done|].
  assert (s3 `suffix_of` s) as H3 by (etrans; [|exact H2]; by apply suffix_cons_r).
  pose proof (scan_hex_spec hex_value2 4 0 s3) as H. cbn in Hl1.
  destruct (scan_hex hex_value2 4 0 s3) as [ch2 s4| |r]; [|lia|by etrans]. destruct H as [H4 Hl4].
  destruct (negb _); [etrans; [apply suffix_drop_of|done]|].
  destruct (append_utf8 _); [split; [by etrans|lia]|etrans; [apply suffix_drop_of|done]].
Qed.

Lemma consume_backslash_spec t :
  match consume_backslash t with
  | Scanned _ r => r `suffix_of` t /\ (length r < length t)%nat
  | Incomplete => (length t <= 10)%nat
  | ErrorAt r => r `suffix_of` t
  end.
Proof.
  destruct t as [|c t]; cbn [consume_backslash]; [cbn; lia|].
  assert (t `suffix_of` c :: t /\ (length t < length (c :: t))%nat) as H by (split; [by apply suffix_cons_r|cbn; lia]).
  repeat (match goal with |- context [if ?b then _ else _] => destruct b; [exact H || idtac|] end); [|done].
  pose proof (scan_unicode_spec t) as Hu. destruct (scan_unicode t); cbn [length]; [|lia|by apply suffix_cons_r].
  destruct Hu. split; [by apply suffix_cons_r|lia].
Qed.

Lemma consume_utf8_spec c bs : is_byte c ->
  returns (fun f => f = OutOfBounds /\ bs = [] /\ c ∈ lead_bytes)
    (fun r => match r with
      | Scanned _ r => r `suffix_of` bs
      | Incomplete => 0xC2 <= c < 0xF5 /\ Z.of_nat (length bs) + 1 < utf8_length c
      | ErrorAt r => r `suffix_of` c :: bs
      end) (consume_utf8 c bs).
Proof.
  intros Hc. unfold consume_utf8. in_ranges.
  destruct (Z.leb_spec 0xC2 c); [|by exists []]. destruct (Z.ltb_spec c 0xF5); [|by exists []]. cbn [andb negb].
  set (n := Z.min _ _). assert (forall k, drop k bs `suffix_of` c :: bs) as Hd.
  { intros k. etrans; [apply suffix_drop_of|by apply suffix_cons_r]. }
  apply (returns_bind _ (fun _ => True)).
  - destruct ((1 <? n) && _) eqn:E1; [done|].
    destruct ((c =? 0xE0) || (c =? 0xED) || (c =? 0xF0) || (c =? 0xF4)) eqn:E2; [|done].
    destruct bs as [|c1 bs]; cbn; [|done]. split; [done|]. split; [done|].
    unfold lead_bytes. rewrite !elem_of_cons. rewrite !orb_true_iff, !Z.eqb_eq in E2. tauto.
  - intros bad _. destruct bad; [by apply suffix_cons_r|].
    destruct ((2 <? n) && _); [apply Hd|]. destruct ((3 <? n) && _); [apply Hd|].
    destruct (Z.eqb_spec n (utf8_length c)) as [E|E]; [apply suffix_drop_of|]. cbn. unfold n in E. lia.
Qed.

(** ** Strings *)

(** The fault of reading behind the input: its last byte starts a character. *)
Definition read_behind (s : bytes) (f : fault) : Prop :=
  f = OutOfBounds /\ exists pre c, s = pre ++ [c] /\ c ∈ lead_bytes.

Lemma read_behind_suffix s s' f : s' `suffix_of` s -> read_behind s' f -> read_behind s f.
Proof. intros [k ->] [-> (pre & c & -> & Hc)]. split; [done|]. exists (k ++ pre), c. by rewrite app_assoc. Qed.

(** A string read from a state: an error, the end at the quote, a part. *)
Definition string_to (base : Z) (s : bytes) (r : string_result) : Prop :=
  let '(st, str, rest) := r in
  rest `suffix_of` s /\
  (st = st_error \/ st = base /\ (length rest < length s)%nat
   \/ exists n, st = base + st_stringpart + n /\ part_ok n str /\ rest = []).

Lemma part_none str : part_ok 0 str.
Proof. exists str, []. by rewrite app_nil_r. Qed.

Lemma part_cut n c sa t : n = Z.of_nat (length (c :: t)) -> n <= 11 -> Forall is_byte (c :: t) ->
  c = 92 \/ 0xC2 <= c < 0xF5 /\ n < utf8_length c -> part_ok n (sa ++ c :: t).
Proof. intros -> Hn Hb Hc. exists sa, (c :: t). done. Qed.

Lemma utf8_length_range c : 2 <= utf8_length c <= 4.
Proof. unfold utf8_length. destruct (0xE0 <=? c), (0xF0 <=? c); cbn; lia. Qed.

Section strings.
Context (base : Z) (Hbase : base ∈ full_states).

Lemma string_cut st n sa s : st = base \/ st = base + st_stringpart -> 0 <= n < 16 -> part_ok n sa ->
  string_to base s (string_part (Z.lor st n) sa).
Proof using Hbase.
  intros Hst Hn Hp. split; [apply suffix_nil|]. right; right. exists n. split; [|done].
  destruct Hst as [->| ->]; [by apply part_save|by apply part_save_again].
Qed.

Lemma string_to_suffix s s' r : s' `suffix_of` s -> string_to base s' r -> string_to base s r.
Proof using Hbase.
  destruct r as [[st str] rest]. intros Hs [H1 H2]. split; [by etrans|].
  destruct H2 as [H|H2]; [by left|]. destruct H2 as [(H & Hl)|H]; [|by right; right]. right; left. split; [done|]. apply suffix_length in Hs. lia.
Qed.

Lemma string_loop_spec fuel st : st = base \/ st = base + st_stringpart ->
  forall sa s, (length s <= fuel)%nat -> Forall is_byte s -> returns (read_behind s) (string_to base s) (string_loop fuel st sa s).
Proof using Hbase.
  intros Hst. induction fuel as [|fuel IH]; intros sa s Hf Hb.
  { destruct s; [|cbn in Hf; lia]. cbn. rewrite <- (Z.lor_0_r st). apply string_cut; [done|lia|apply part_none]. }
  destruct s as [|c t]; cbn [string_loop].
  { cbn. rewrite <- (Z.lor_0_r st). apply string_cut; [done|lia|apply part_none]. }
  cbn [length] in Hf. apply Forall_cons in Hb as Hb'. destruct Hb' as [Hc Ht].
  assert (forall sa rest, rest `suffix_of` t -> returns (read_behind (c :: t)) (string_to base (c :: t)) (string_loop fuel st sa rest)) as Hgo.
  { intros sa' rest Hs. assert (rest `suffix_of` c :: t) as Hs' by (by apply suffix_cons_r). eapply returns_weaken.
    - apply IH; [apply suffix_length in Hs; lia|]. destruct Hs as [k ->]. by apply Forall_app in Ht as [_ ?].
    - intros f. by apply read_behind_suffix.
    - intros r. by apply string_to_suffix. }
  destruct (in_range c 32 128 && _ && _); [by apply Hgo|]. destruct (Z.eqb_spec c 34) as [->|Hq].
  { cbn. split; [by apply suffix_cons_r|]. right; left. cbn. split; [|lia].
    destruct Hst as [->| ->]; [by apply string_none|by apply string_stop]. }
  assert (forall n, n = Z.of_nat (length (c :: t)) -> n <= 11 -> c = 92 \/ 0xC2 <= c < 0xF5 /\ n < utf8_length c ->
    string_to base (c :: t) (string_part (Z.lor st n) (sa ++ c :: t))) as Hcut.
  { intros n Hn Hn11 Hc'. apply string_cut; [done|lia|by apply part_cut]. }
  destruct (Z.eqb_spec c 92) as [->|Hbs].
  - rewrite rbind_Ok. pose proof (consume_backslash_spec t) as H. destruct (consume_backslash t) as [u rest| |rest].
    + apply Hgo, H.
    + apply Hcut; [done|cbn [length]; lia|by left].
    + split; [by apply suffix_cons_r|by left].
  - eapply returns_bind.
    + eapply returns_weaken; [by apply consume_utf8_spec| |by intros ? H; exact H].
      intros f (-> & -> & H). split; [done|]. by exists [], c.
    + intros [u rest| |rest] H; cbn beta iota in H.
      * by apply Hgo.
      * destruct H as [H1 H2]. pose proof (utf8_length_range c). apply Hcut; [done| |right; split; [done|]]; cbn [length]; lia.
      * split; [done|by left].
Qed.

Lemma string_body_spec st sa s : st = base \/ st = base + st_stringpart -> Forall is_byte s ->
  returns (read_behind s) (string_to base s) (string_body st sa s).
Proof using Hbase. intros Hst Hb. by apply string_loop_spec. Qed.

(** Behind a part of a character: the state may stay in the string. *)
Definition string_on (s : bytes) (r : string_result) : Prop :=
  let '(st, str, rest) := r in
  rest `suffix_of` s /\
  (st = st_error \/ st = base \/ exists n, st = base + st_stringpart + n /\ part_ok n str /\ (n = 0 \/ rest = [])).

Lemma escape_again pre x : is_byte x -> returns (fun _ => False) (string_to base [92; x]) (string_body base pre [92; x]).
Proof using Hbase.
  intros Hx. assert (Forall is_byte [92; x]) as Hb by (rewrite !Forall_cons, Forall_nil; unfold is_byte in *; lia).
  pose proof (string_body_spec base pre [92; x] (or_introl eq_refl) Hb) as H.
  destruct (string_body base pre [92; x]) as [r|f] eqn:E; [done|]. cbn. revert E. unfold string_body. cbn [length string_loop].
  rewrite in_range_spec by lia. cbn [Z.leb Z.ltb Z.eqb Z.compare Pos.compare Pos.compare_cont andb negb Pos.eqb rbind res_bind consume_backslash].
  repeat (match goal with |- context [if ?b then _ else _] => destruct b; [done || idtac|] end); done.
Qed.

Lemma lead_not_cont x : Z.land x 0xC0 = 0x80 -> x ∈ lead_bytes -> False.
Proof.
  intros H Hx. unfold lead_bytes in Hx. rewrite !elem_of_cons in Hx.
  destruct Hx as [->|[->|[->|[->|Hx]]]]; [done..|]. by apply not_elem_of_nil in Hx.
Qed.
Lemma lead_not_digit x : isxdigit x = true -> x ∈ lead_bytes -> False.
Proof.
  intros H Hx. unfold lead_bytes in Hx. rewrite !elem_of_cons in Hx.
  destruct Hx as [->|[->|[->|[->|Hx]]]]; [by vm_compute in H..|]. by apply not_elem_of_nil in Hx.
Qed.

(** A completed character is read again without a fault. *)
Lemma string_again_spec pre cut x : Forall is_byte (cut ++ [x]) -> cut = [92] \/ ~ x ∈ lead_bytes ->
  returns (fun _ => False) (string_to base (cut ++ [x])) (string_body base pre (cut ++ [x])).
Proof using Hbase.
  intros Hb [->|Hx].
  - apply escape_again. by apply Forall_app in Hb as [_ [Hx _]%Forall_cons].
  - eapply returns_weaken; [by apply string_body_spec; [left|]| |by intros ? H; exact H].
    intros f (_ & pre' & c & E & Hc). apply app_inj_tail in E as [_ ->]. done.
Qed.

Lemma consume_stringpart_spec s : forall st sa, Forall is_byte s ->
  st = base \/ (exists n, st = base + st_stringpart + n /\ part_ok n sa) ->
  returns (fun _ => False) (string_on s) (consume_stringpart st sa s).
Proof using Hbase.
  induction s as [|x s IH]; intros st sa Hb Hst.
  { cbn. split; [done|]. destruct Hst as [->|(n & -> & Hp)]; [by right; left|]. right; right. exists n. auto. }
  cbn [consume_stringpart]. destruct Hst as [->|(n & -> & Hp)].
  { rewrite full_len by done. cbn. split; [done|]. by right; left. }
  destruct Hp as (pre & cut & -> & Hlen & Hn & Hcb & Hc). rewrite part_len by (done || lia).
  destruct (Z.eqb_spec n 0) as [->|Hn0].
  { cbn. split; [done|]. right; right. exists 0. split; [lia|]. split; [apply part_none|by left]. }
  destruct cut as [|c t]; [cbn in Hlen; lia|].
  assert (aget (pre ++ c :: t) (Z.of_nat (length (pre ++ c :: t)) - n) = Ok c) as ->.
  { unfold aget. rewrite length_app. rewrite (proj2 (Z.ltb_ge _ _)) by lia.
    replace (Z.to_nat _) with (length pre) by lia. by rewrite list_lookup_middle. }
  rewrite rbind_Ok. apply Forall_cons in Hb as [Hx Hs]. destruct (_ || _ || _ || _) eqn:Hbad.
  { cbn. split; [done|by left]. }
  assert (Forall is_byte ((c :: t) ++ [x])) as Hb' by (rewrite Forall_app, Forall_singleton; done).
  replace (Z.to_nat (Z.of_nat (length (pre ++ c :: t)) - n)) with (length pre) by (rewrite length_app; lia).
  rewrite <- app_assoc. pose proof (utf8_length_range c).
  rewrite !orb_false_iff, !andb_false_iff, !negb_false_iff, !Z.eqb_neq, !Z.eqb_eq in Hbad. destruct Hbad as (((B1 & B2) & B3) & B4).
  assert (forall r, string_on s r -> string_on (x :: s) r) as Hmore.
  { intros [[st str] rest] [H1 H2]. split; [by apply suffix_cons_r|done]. }
  destruct (_ || _) eqn:Hcomp.
  - rewrite take_app_length, drop_app_length, part_drop by (done || lia). eapply returns_bind.
    + apply string_again_spec; [done|]. rewrite orb_true_iff, !andb_true_iff, negb_true_iff, !orb_true_iff, !Z.eqb_eq, Z.eqb_neq in Hcomp.
      destruct (decide (c = 92)) as [->|Hc92].
      * destruct (decide (n = 1)) as [->|Hn1]; [left; destruct t; [done|cbn in Hlen; lia]|].
        right. intros Hl. apply (lead_not_digit x); [|done]. destruct B4; [lia|done].
      * right. intros Hl. apply (lead_not_cont x); [|done]. by destruct B1.
    + intros [[st str] rest] [_ Hr]. destruct (Z.eqb_spec st st_error) as [->|He]; [cbn; split; [by apply suffix_nil || done|by left]|].
      eapply returns_weaken; [apply IH; [done|]|done|exact Hmore].
      destruct Hr as [?|[[-> _]|(n' & -> & Hp & _)]]; [done|by left|right; by exists n'].
  - replace (base + st_stringpart + n + 1) with (base + st_stringpart + (n + 1)) by lia.
    eapply returns_weaken; [apply IH; [done|]|done|exact Hmore]. right. exists (n + 1). split; [done|].
    exists pre, ((c :: t) ++ [x]). split; [done|]. split; [rewrite length_app; cbn [length] in *; lia|].
    rewrite orb_false_iff, !andb_false_iff, negb_false_iff, !orb_false_iff, Z.eqb_eq, !Z.eqb_neq in Hcomp.
    split; [lia|]. split; [done|]. cbn. destruct Hc as [->|[Hc1 Hc2]]; [by left|right; split; [done|lia]].
Qed.
End strings.

(** The parts of the parser that reading a token leaves as they are. *)
Definition same_place (p p' : streaming_parser) : Prop := jp_stack p' = jp_stack p /\ jp_json p' = jp_json p.

Lemma consume_string_spec p s base : base ∈ full_states -> Forall is_byte s ->
  jp_state p = base \/ (exists n, jp_state p = base + st_stringpart + n /\ part_ok n (jp_str p)) ->
  returns (read_behind s) (fun r => let '(p', rest) := r in rest `suffix_of` s /\ same_place p p' /\
    (jp_state p' = st_error \/ jp_state p' = base
     \/ exists n, jp_state p' = base + st_stringpart + n /\ part_ok n (jp_str p') /\ rest = [])) (consume_string p s).
Proof.
  intros Hbase Hb Hp. unfold consume_string. apply (returns_bind _ (string_on base s)).
  { destruct Hp as [->|(n & Hs & Hp)].
    - rewrite full_len by done. cbn. split; [done|]. by right; left.
    - destruct (Z.land _ _ =? 0) eqn:E.
      + apply Z.eqb_eq in E. pose proof Hp as (pre & cut & _ & Hl & Hn & _). rewrite Hs, part_len in E by (done || lia). subst n.
        cbn. split; [done|]. right; right. exists 0. split; [done|]. split; [done|by left].
      + eapply returns_weaken; [apply consume_stringpart_spec; [done..|]; right; by exists n|done|done]. }
  intros [[st sa] rest] [Hs Hr]. destruct (Z.eqb_spec st st_error) as [->|He].
  { cbn. split; [done|]. split; [done|by left]. }
  destruct Hr as [?|Hr]; [done|].
  assert (returns (read_behind s) (string_to base s) (string_body st sa rest) \/ string_body st sa rest = Ok (st, sa, []) /\ rest = [] /\
    exists n, st = base + st_stringpart + n /\ part_ok n sa) as [H|(-> & -> & n & -> & Hn)].
  { assert (Forall is_byte rest) as Hb' by (destruct Hs as [k ->]; by apply Forall_app in Hb as [_ ?]).
    destruct Hr as [->|(n & -> & Hn & [->| ->])].
    - left. eapply returns_weaken; [apply (string_body_spec base Hbase); [by left|done]|intros f; by apply read_behind_suffix|].
      intros r. by apply string_to_suffix.
    - left. rewrite Z.add_0_r. eapply returns_weaken; [apply (string_body_spec base Hbase); [by right|done]|intros f; by apply read_behind_suffix|].
      intros r. by apply string_to_suffix.
    - right. split; [|eauto]. cbn. unfold string_part. destruct Hn as (pre & cut & _ & Hl & Hn & _).
      by rewrite part_twice by (done || lia). }
  - eapply returns_bind; [exact H|]. intros [[st' str] rest'] [Hs' Hr']. cbn. split; [done|]. split; [done|].
    destruct Hr' as [->|[(-> & _)|Hr']]; [by left|by right; left|right; right; exact Hr'].
  - cbn. split; [apply suffix_nil|]. split; [done|]. right; right. by exists n.
Qed.

(** ** Values *)

Lemma top_current p : top (jp_stack p) = current p.
Proof. done. Qed.

(** What a value leads to. *)
Definition placed (bs : bytes) (r : progress) : Prop :=
  match r with
  | Continue p rest => rest = bs /\ jp_state p ∈ full_states /\ place_ok (jp_state p) (jp_stack p) (jp_json p)
  | Return p rest => rest = bs /\ jp_state p = st_final
  end.

(** Writing to the place on top, seen from the place below it. *)
Lemma write_below j S q c v w : stack_ok j S -> load_path (top S) j = Ok c -> q <> [] -> load_path q c = Ok v ->
  let j' := put (top S ++ q) w j in
  store_path (top S ++ q) w j = Ok j' /\ stack_ok j' S /\
  exists c', load_path (top S) j' = Ok c' /\ same_kind c' c /\ load_path q c' = Ok w.
Proof.
  intros HS Hc Hq Hv. cbn zeta. split.
  - apply (store_put _ _ _ v). by rewrite load_path_app, Hc.
  - rewrite (put_app _ _ _ _ _ Hc). split; [by apply stack_put|]. exists (put q w c).
    split; [by eapply load_put|]. split; [by apply put_kind|]. by eapply load_put.
Qed.

Lemma array_of c : is_a c = true -> exists a, c = JArray a.
Proof. destruct c; try done. eauto. Qed.

(** A place in an array or object that is on top of the stack. *)
Lemma place_push j S q c v : stack_ok j S -> load_path (top S) j = Ok c -> container c -> q <> [] -> load_path q c = Ok v ->
  is_a v || is_o v = true ->
  let state := if is_a v then st_array_initial else st_object_initial in
  state ∈ full_states /\ place_ok state ((top S ++ q) :: S) j.
Proof.
  intros HS Hc Hk Hq Hv Hkind. cbn zeta. assert (load_path (top S ++ q) j = Ok v) as Hl by (by rewrite load_path_app, Hc).
  split; [destruct (is_a v); by refine (bool_decide_unpack _ _)|]. split; [by eapply stack_push|].
  destruct (is_a v) eqn:Ha; cbn; by exists v.
Qed.

(** What [value] leaves for a value in an array, and in an object. *)
Lemma value_array p j bs a : jp_state p = st_array_initial \/ jp_state p = st_array_value ->
  load (current p) p = Ok (JArray a) ->
  let p' := set_json (put (current p) (JArray (a ++ [j])) (jp_json p)) p in
  value p j bs = Ok (Continue (if is_a j || is_o j
    then set_state (if is_a j then st_array_initial else st_object_initial) (set_stack ((current p ++ [length a]) :: jp_stack p) p')
    else set_state st_array_delim p') bs).
Proof.
  intros Hs Hc. cbn zeta. unfold value. rewrite Hc, rbind_Ok.
  assert (jp_state p =? st_initial = false) as -> by (by destruct Hs as [->| ->]).
  assert (jp_state p =? st_object_value = false) as -> by (by destruct Hs as [->| ->]).
  assert ((jp_state p =? st_array_initial) || (jp_state p =? st_array_value) = true) as -> by (by destruct Hs as [->| ->]).
  cbn [negb is_a andb size rbind res_bind push_back to_array]. unfold store. rewrite (store_put _ _ _ _ Hc). cbn [rbind res_bind].
  rewrite Nat2Z.id. by destruct (is_a j || is_o j).
Qed.

Lemma value_object p j bs path S' v : jp_state p = st_object_value -> jp_stack p = path :: S' -> load path p = Ok v ->
  exists w q, value p j bs = Ok (Continue (
    let p' := set_json (put path w (jp_json p)) (set_stack S' p) in
    if is_a j || is_o j
    then set_state (if is_a j then st_array_initial else st_object_initial) (set_stack ((path ++ q) :: S') p')
    else set_state st_object_delim p') bs) /\ load_path q w = Ok j /\ (is_a v = false -> w = j /\ q = []).
Proof.
  intros Hs HS Hv. assert (current p = path) as Hcur by (unfold current; by rewrite HS).
  unfold value. rewrite Hcur, Hv, rbind_Ok, Hs. cbn [Z.eqb st_object_value st_initial negb andb].
  unfold load in Hv. destruct (is_a v) eqn:Ha.
  - destruct (array_of _ Ha) as [a ->]. exists (JArray (a ++ [j])), [length a].
    cbn [size rbind res_bind push_back to_array]. unfold store. rewrite (store_put _ _ _ _ Hv). cbn [rbind res_bind].
    rewrite Nat2Z.id. unfold pop_back. cbn [jp_stack set_json]. rewrite HS. split.
    { rewrite Pos.eqb_refl. by destruct (is_a j || is_o j). }
    split; [|done]. cbn. by rewrite list_lookup_middle.
  - exists j, []. unfold store. rewrite (store_put _ _ _ _ Hv). cbn [rbind res_bind].
    unfold pop_back. cbn [jp_stack set_json]. rewrite HS, app_nil_r, Pos.eqb_refl. split; [by destruct (is_a j || is_o j)|done].
Qed.

Lemma value_in_array p j bs : jp_state p = st_array_initial \/ jp_state p = st_array_value ->
  place_ok (jp_state p) (jp_stack p) (jp_json p) -> returns (fun _ => False) (placed bs) (value p j bs).
Proof.
  intros Hs [HS Hp]. assert (exists c, load_path (top (jp_stack p)) (jp_json p) = Ok c /\ is_a c = true) as (c & Hc & Ha).
  { by destruct Hs as [Hs|Hs]; rewrite Hs in Hp. }
  destruct (array_of _ Ha) as [a ->]. rewrite (value_array p j bs a) by done. cbn [returns placed]. split; [done|].
  pose proof (stack_put _ _ (JArray (a ++ [j])) HS) as HS'. pose proof (load_put _ (JArray (a ++ [j])) _ _ Hc) as Hl.
  destruct (is_a j || is_o j) eqn:Hk.
  - cbn [jp_state jp_stack jp_json set_state set_stack set_json]. eapply place_push; [done|exact Hl|by left|done| |done].
    cbn. by rewrite list_lookup_middle.
  - split; [by refine (bool_decide_unpack _ _)|]. split; [done|]. cbn. eexists. split; [exact Hl|done].
Qed.

Lemma value_in_object p j bs : jp_state p = st_object_value ->
  place_ok (jp_state p) (jp_stack p) (jp_json p) -> returns (fun _ => False) (placed bs) (value p j bs).
Proof.
  intros Hs [HS Hp]. rewrite Hs in Hp. destruct Hp as (path & S' & c & E & Hc & Ho). rewrite E in HS.
  inversion HS as [|S q c' v HS' Hq Hc' Hk Hv [E1 E2]]; subst. rewrite Hc in Hc'. injection Hc' as <-.
  assert (load (top S' ++ q) p = Ok v) as Hl by (unfold load; by rewrite load_path_app, Hc).
  destruct (value_object p j bs _ _ _ Hs E Hl) as (w & q' & -> & Hw & _). cbn [returns placed]. split; [done|].
  destruct (write_below _ _ _ _ _ w HS' Hc Hq Hv) as (_ & HS2 & c2 & Hc2 & Hk2 & Hw2). cbn zeta.
  destruct (is_a j || is_o j) eqn:Hkind.
  - cbn [jp_state jp_stack jp_json set_state set_stack set_json]. rewrite <- app_assoc.
    eapply place_push; [done|exact Hc2| |by destruct q| |done].
    + destruct Hk2. eapply same_kind_container; [|exact Hk]. by split.
    + by rewrite load_path_app, Hw2.
  - split; [by refine (bool_decide_unpack _ _)|]. split; [done|]. cbn. exists c2. split; [done|]. destruct Hk2 as [_ ->]. done.
Qed.

Lemma value_spec p j bs : jp_state p ∈ value_states -> place_ok (jp_state p) (jp_stack p) (jp_json p) ->
  returns (fun _ => False) (placed bs) (value p j bs).
Proof.
  intros Hs Hp. pose proof Hs as Hs'. unfold value_states in Hs'. rewrite !elem_of_cons in Hs'.
  destruct Hs' as [E|[E|[E|[E|E]]]]; [|apply value_in_array; auto..|by apply value_in_object|by apply not_elem_of_nil in E].
  destruct Hp as [HS Hp]. rewrite E in Hp. cbn in Hp. unfold value, load, current, store. rewrite Hp, E. cbn.
  destruct (is_a j) eqn:Ha; [|destruct (is_o j) eqn:Ho]; cbn; (split; [done|]); [..|done];
    (split; [by refine (bool_decide_unpack _ _)|]); rewrite Hp; (split; [constructor|]); cbn; by exists j.
Qed.

(** ** Tokens *)

(** How a token or an iteration ends: the parser is whole, and in the middle of a
    token only at the end of the input. *)
Definition progress_ok (s s' : bytes) (r : progress) : Prop :=
  match r with
  | Continue p rest => rest `suffix_of` s /\ parser_ok p /\ (rest = [] \/ jp_state p < 0 \/ jp_state p ∈ full_states)
  | Return p rest => rest `suffix_of` s' /\ parser_ok p /\ jp_state p < 0
  end.

Lemma placed_progress s s' bs r : bs `suffix_of` s -> bs `suffix_of` s' -> placed bs r -> progress_ok s s' r.
Proof.
  intros Hs Hs'. destruct r as [p rest|p rest]; cbn.
  - intros (-> & Hf & Hp). split; [done|]. split; [by right; right; apply at_token|auto].
  - intros (-> & E). split; [done|]. rewrite E. split; [by left|done].
Qed.

Definition fault_ok (s : bytes) (f : fault) : Prop := f = InvalidArgument \/ read_behind s f.

Lemma fault_ok_suffix s s' f : s' `suffix_of` s -> fault_ok s' f -> fault_ok s f.
Proof. intros Hs [H|H]; [by left|right; by eapply read_behind_suffix]. Qed.

Lemma fault_false s f : False -> fault_ok s f.
Proof. done. Qed.

Lemma value_progress s s' bs p j : bs `suffix_of` s -> bs `suffix_of` s' ->
  jp_state p ∈ value_states -> place_ok (jp_state p) (jp_stack p) (jp_json p) -> returns (fault_ok s') (progress_ok s s') (value p j bs).
Proof.
  intros Hs Hs' Hp1 Hp2. eapply returns_weaken; [by apply value_spec|done|]. intros r. by apply placed_progress.
Qed.

Lemma string_value_spec p s base : base ∈ value_states -> Forall is_byte s -> place_ok base (jp_stack p) (jp_json p) ->
  jp_state p = base \/ (exists n, jp_state p = base + st_stringpart + n /\ part_ok n (jp_str p)) ->
  returns (fault_ok s) (progress_ok s s) (string_value p s).
Proof.
  intros Hb Hs Hp Hst. pose proof (value_state_full _ Hb) as Hf. pose proof (full_range _ Hf). unfold string_value. eapply returns_bind.
  { eapply returns_weaken; [by apply consume_string_spec|by right|intros ? H'; exact H']. }
  intros [p' rest] (Hr & [Hk Hj] & [E|[E|(n & E & Hn & ->)]]).
  - rewrite E. cbn. split; [done|]. rewrite E. split; [by right; left|by right; left].
  - rewrite E, full_string by done. rewrite (proj2 (Z.leb_le _ _)) by lia. cbn [Z.eqb andb].
    apply value_progress; [done..|by rewrite E|by rewrite E, Hk, Hj].
  - pose proof Hn as (pre & cut & _ & Hl & Hn11 & _). rewrite E, string_bit by (done || lia). rewrite andb_false_r. cbn.
    split; [done|]. split; [|by left]. right; right. eapply at_string; [done|done|done|by rewrite Hk, Hj].
Qed.

Lemma find_key_lookup o key i : find_key o key = Some i -> exists v, o !! i = Some (key, v).
Proof.
  revert i. induction o as [|[k v] o IH]; intros i; cbn; [done|]. case_bool_decide as E; [intros [= <-]; subst; by exists v|].
  destruct (find_key o key) as [i'|]; cbn; [|done]. intros [= <-]. by apply IH.
Qed.

Lemma get_insert_child c key c' i : is_o c = true -> get_insert c key = (c', i) -> is_o c' = true /\ exists v, child c' i = Some v.
Proof.
  destruct c; try done. intros _. unfold get_insert, find_insert. cbn [to_object].
  destruct (find_key o key) as [k|] eqn:Hk; intros [= <- <-]; (split; [done|]); cbn.
  - destruct (find_key_lookup _ _ _ Hk) as [v ->]. by exists v.
  - rewrite list_lookup_middle by done. by exists JNull.
Qed.

Lemma string_object_key_spec p s : Forall is_byte s -> place_ok st_object_key (jp_stack p) (jp_json p) ->
  jp_state p = st_object_colon \/ (exists n, jp_state p = st_object_colon + st_stringpart + n /\ part_ok n (jp_str p)) ->
  returns (fault_ok s) (progress_ok s s) (string_object_key p s).
Proof.
  intros Hs [HS Hp] Hst. cbn in Hp. destruct Hp as (c & Hc & Ho).
  assert (st_object_colon ∈ full_states) as Hf by (by refine (bool_decide_unpack _ _)).
  unfold string_object_key. eapply returns_bind.
  { eapply returns_weaken; [by apply consume_string_spec|by right|intros ? H'; exact H']. }
  intros [p' rest] (Hr & [Hk Hj] & [E|[E|(n & E & Hn & ->)]]).
  - rewrite E. cbn. split; [done|]. rewrite E. split; [by right; left|by right; left].
  - rewrite E, (full_string _ Hf). change (0 <=? st_object_colon) with true. cbn [andb Z.eqb].
    unfold load, current, store. rewrite Hk, Hj. fold (top (jp_stack p)).
    rewrite Hc, rbind_Ok. destruct (get_insert c (jp_str p')) as [c' i] eqn:Hg. destruct (get_insert_child _ _ _ _ Ho Hg) as (Ho' & v & Hv).
    rewrite (store_put _ _ _ _ Hc). cbn. split; [done|]. split; [|right; right; by rewrite E].
    pose proof (load_put _ c' _ _ Hc) as Hl.
    right; right. apply at_token; cbn; rewrite E; [done|]. split; [eapply stack_push; [by apply stack_put|done|exact Hl|by right|by cbn; rewrite Hv]|].
    cbn. eexists _, _, _. split; [done|]. split; [exact Hl|done].
  - pose proof Hn as (pre & cut & _ & Hl & Hn11 & _). rewrite E, string_bit by (done || lia). rewrite andb_false_r. cbn.
    split; [done|]. split; [|by left]. right; right. eapply at_key; [done|done|rewrite Hk, Hj]. split; [done|]. by exists c.
Qed.

Lemma positions_range l n : forallb (fun m => (1 <=? m) && (m <? 16)) l = true -> n ∈ l -> 1 <= n < 16.
Proof. intros Ht Hn. pose proof (forallb_elem _ _ _ Ht Hn) as H. cbn beta in H. lia. Qed.
Lemma primitive_range n : n ∈ primitive_positions -> 1 <= n < 16.
Proof. by apply positions_range. Qed.
Lemma number_range n : n ∈ number_positions -> 1 <= n < 16.
Proof. by apply positions_range. Qed.

Lemma primitive_loop_spec s : forall n, 0 <= n ->
  match primitive_loop n s with
  | Scanned m r => r `suffix_of` s /\ n <= m /\ (nthZ 0 primitive_text m = 0 \/ r = [])
  | Incomplete => False
  | ErrorAt r => r `suffix_of` s
  end.
Proof.
  induction s as [|c s IH]; intros n Hn; cbn [primitive_loop]; [auto with lia|].
  destruct (Z.eqb_spec (nthZ 0 primitive_text n) 0) as [E|E]; [auto with lia|]. destruct (negb _); [done|].
  specialize (IH (n + 1) ltac:(lia)). destruct (primitive_loop (n + 1) s) as [m r| |r]; [|done|by apply suffix_cons_r].
  destruct IH as (H1 & H2 & H3). split; [by apply suffix_cons_r|]. split; [lia|done].
Qed.

Lemma primitive_position m : 1 <= m -> nthZ 0 primitive_text m <> 0 -> m ∈ primitive_positions.
Proof.
  intros Hm Hn. assert (m <= 15 \/ 16 <= m) as [H|H] by lia.
  - assert (m ∈ seqZ 1 15) as Hs by (apply elem_of_seqZ; lia). revert Hn. 
    assert (forallb (fun m => (nthZ 0 primitive_text m =? 0) || bool_decide (m ∈ primitive_positions)) (seqZ 1 15) = true) as Ht by (by vm_compute).
    pose proof (forallb_elem _ _ _ Ht Hs) as Hx. cbn beta in Hx. apply orb_true_iff in Hx as [Hx|Hx]; [by apply Z.eqb_eq in Hx|].
    by apply bool_decide_eq_true in Hx.
  - destruct Hn. unfold nthZ. rewrite nth_overflow; [done|]. cbn. lia.
Qed.

Lemma primitive_spec p s base : base ∈ value_states -> place_ok base (jp_stack p) (jp_json p) ->
  (jp_state p = base \/ exists n, n ∈ primitive_positions /\ jp_state p = base + st_primitivepart + n) ->
  let s' := if jp_state p =? base then drop 1 s else s in
  returns (fault_ok s) (progress_ok s' s) (primitive p s).
Proof.
  intros Hb Hp Hst. cbn zeta. pose proof (value_state_full _ Hb) as Hf. pose proof (full_range _ Hf).
  set (s' := if _ : bool then _ else _). assert (s' `suffix_of` s) as Hs' by (unfold s'; destruct (_ =? _); [apply suffix_drop_of|done]).
  unfold primitive. assert (exists n p0, 1 <= n /\ same_place p p0 /\ jp_state p0 = base /\ consume_primitive p s =
    match primitive_loop n s' with
    | ErrorAt rest => (set_state st_error p0, rest, JNull)
    | Incomplete => (p0, s', JNull)
    | Scanned n rest =>
      if negb (nthZ 0 primitive_text n =? 0) then (set_state (Z.lor (jp_state p0) (Z.lor st_primitivepart n)) p0, rest, JNull)
      else (p0, rest, if n =? 4 then JNull else JBool (negb (n =? 10)))
    end) as (n & p0 & Hn & [Hk Hj] & E & ->).
  { unfold consume_primitive, s'. destruct Hst as [E|(n & Hn & E)].
    - rewrite E, full_primitive, (Z.eqb_refl base) by done. cbn [negb Z.eqb].
      exists (if nthZ 0 s 0 =? 110 then 1 else if nthZ 0 s 0 =? 102 then 6 else 12), p.
      split; [destruct (nthZ 0 s 0 =? 110), (nthZ 0 s 0 =? 102); lia|]. by split.
    - pose proof (primitive_range _ Hn).
      rewrite E, primitive_bit, primitive_base, primitive_len by first [done | lia]. rewrite (proj2 (Z.eqb_neq (base + st_primitivepart + n) base)) by (unfold st_primitivepart; lia).
      exists n, (set_state base p). split; [lia|]. by split. }
  pose proof (primitive_loop_spec s' n ltac:(lia)) as Hl. destruct (primitive_loop n s') as [m r| |r]; [|done|].
  - destruct Hl as (H1 & H2 & H3). destruct (Z.eqb_spec (nthZ 0 primitive_text m) 0) as [Hm|Hm]; cbn [negb].
    + rewrite E, full_primitive by done. rewrite (proj2 (Z.leb_le _ _)) by lia. cbn [Z.eqb andb].
      apply value_progress; [done|by etrans|by rewrite E|by rewrite E, Hk, Hj].
    + destruct H3 as [H3| ->]; [done|]. pose proof (primitive_position m ltac:(lia) Hm) as Hmp.
      pose proof (primitive_range _ Hmp).
      cbn [jp_state set_state]. rewrite E, primitive_save, primitive_bit by (done || lia). rewrite andb_false_r. cbn. split; [done|]. split; [|by left].
      right; right. eapply at_primitive; [done|exact Hmp|done|cbn; by rewrite Hk, Hj].
  - cbn. split; [done|]. split; [by right; left|by right; left].
Qed.

Definition number_post (s : bytes) (r : Z * bytes) : Prop := fst r ∈ number_positions /\ snd r `suffix_of` s.

Lemma number_post_cons c s r : number_post s r -> number_post (c :: s) r.
Proof. intros [H1 H2]. split; [done|by apply suffix_cons_r]. Qed.

Lemma number_post_suffix s s' r : s' `suffix_of` s -> number_post s' r -> number_post s r.
Proof. intros Hs [H1 H2]. split; [done|by etrans]. Qed.

Lemma number_stop n s : n ∈ number_positions -> number_post s (n, s).
Proof. by split. Qed.

Lemma skip_digits_suffix s : skip_digits s `suffix_of` s.
Proof. induction s as [|c s IH]; cbn; [done|]. destruct (is_digit c); [by apply suffix_cons_r|done]. Qed.

Ltac position := by refine (bool_decide_unpack _ _).

Lemma case9_post s : number_post s (case9 s).
Proof. split; [position|apply skip_digits_suffix]. Qed.
Lemma case8_post s : number_post s (case8 s).
Proof.
  destruct s as [|c s]; cbn [case8]; [apply number_stop; position|].
  destruct (is_digit c); [apply number_post_cons, case9_post|]. split; [position|apply skip_digits_suffix].
Qed.
Lemma exponent_post s : number_post s (exponent s).
Proof.
  destruct s as [|c s]; cbn [exponent]; [apply number_stop; position|].
  destruct (_ || _); [apply number_post_cons|]; apply case8_post.
Qed.
Lemma maybe_exponent_post n s : n ∈ number_positions -> number_post s (maybe_exponent n s).
Proof.
  intros Hn. destruct s as [|c s]; cbn [maybe_exponent]; [by apply number_stop|].
  destruct (_ || _); [apply number_post_cons, exponent_post|by apply number_stop].
Qed.
Lemma case5_post n s : n ∈ number_positions -> number_post s (case5 n s).
Proof.
  intros Hn. unfold case5. eapply number_post_suffix; [apply skip_digits_suffix|].
  destruct (_ && _); [by apply maybe_exponent_post|by apply number_stop].
Qed.
Lemma case_decimal_post s : number_post s (case_decimal s).
Proof.
  destruct s as [|c s]; cbn [case_decimal]; [apply case5_post; position|].
  destruct (is_digit c); [apply number_post_cons|]; apply case5_post; position.
Qed.
Lemma case3_post n s : n ∈ number_positions -> number_post s (case3 n s).
Proof.
  intros Hn. destruct s as [|c s]; cbn [case3]; [by apply maybe_exponent_post|].
  destruct (_ =? _); [apply number_post_cons, case_decimal_post|by apply maybe_exponent_post].
Qed.
Lemma case1_post s : number_post s (case1 s).
Proof. eapply number_post_suffix; [apply skip_digits_suffix|]. apply case3_post. position. Qed.
Lemma case2_post s : number_post s (case2 s).
Proof.
  destruct s as [|c s]; cbn [case2]; [apply case3_post; position|].
  destruct (_ =? _); [apply number_post_cons, case3_post; position|].
  destruct (in_range _ _ _); [apply number_post_cons, case1_post|apply case3_post; position].
Qed.

(** A number's first byte is taken. *)
Lemma case0_post c s : starts_number c = true -> number_post s (case0 (c :: s)).
Proof.
  unfold starts_number. intros Hc. cbn [case0 case2]. destruct (Z.eqb_spec c 45) as [->|H45]; [apply case2_post|].
  cbn [orb] in Hc. destruct (Z.eqb_spec c 48) as [->|H48]; [apply case3_post; position|].
  rewrite in_range_spec by lia. destruct (Z.leb_spec 49 c); [|lia]. destruct (Z.ltb_spec c (57 + 1)); [|lia]. apply case1_post.
Qed.

Lemma scan_number_post n s : n ∈ number_positions -> number_post s (scan_number n s).
Proof.
  intros Hn. unfold number_positions in Hn. rewrite !elem_of_cons in Hn.
  destruct Hn as [->|[->|[->|[->|[->|[->|[->|[->|Hn]]]]]]]]; cbn [scan_number Z.eqb Pos.eqb]; [..|by apply not_elem_of_nil in Hn].
  - apply case1_post.
  - apply case2_post.
  - apply case3_post. position.
  - apply case_decimal_post.
  - apply case5_post. position.
  - apply exponent_post.
  - apply case8_post.
  - apply case9_post.
Qed.

Section number.
Context (strtod : bytes -> Z).

Lemma number_spec complete p s s' base : base ∈ value_states -> place_ok base (jp_stack p) (jp_json p) ->
  (jp_state p = base /\ exists c, s = c :: s' /\ starts_number c = true)
  \/ (s = s' /\ exists n, n ∈ number_positions /\ jp_state p = base + st_numberpart + n) ->
  returns (fault_ok s) (progress_ok s' s) (number strtod complete p s).
Proof.
  intros Hb Hp Hst. pose proof (value_state_full _ Hb) as Hf. pose proof (full_range _ Hf).
  assert (number_post s' (scan_number (Z.land (jp_state p) st_partlenmask) s)) as Hpost.
  { destruct Hst as [[E (c & -> & Hc)]|[-> (n & Hn & E)]]; rewrite E.
    - rewrite full_len by done. by apply case0_post.
    - rewrite number_len by first [done | by pose proof (number_range _ Hn); lia]. by apply scan_number_post. }
  assert (Z.land (jp_state p) (Z.lnot st_partmask) = base) as Ebase.
  { destruct Hst as [[E _]|[_ (n & Hn & E)]]; rewrite E; [by apply full_base|]. apply number_base; [done|]. pose proof (number_range _ Hn). lia. }
  assert (s' `suffix_of` s) as Hs' by (destruct Hst as [[_ (c & -> & _)]|[-> _]]; [by apply suffix_cons_r|done]).
  unfold number, consume_number. destruct (scan_number _ s) as [position rest]. destruct Hpost as [Hn Hr]. cbn [fst snd] in Hn, Hr.
  rewrite Ebase. destruct (bool_decide (rest <> []) || complete) eqn:Hend.
  - destruct (Z.even position); [cbn; split; [done|]; split; [by right; left|by right; left]|].
    set (text := if _ : bool then _ else _). destruct (number_json strtod position text) as [j|f] eqn:Hj.
    + cbn [rbind res_bind jp_state set_state]. rewrite (full_number _ Hf), (proj2 (Z.leb_le _ _)) by lia. cbn [Z.eqb andb].
      apply value_progress; [done|by etrans|done|done].
    + left. revert Hj. clear. unfold number_json. destruct text as [|c [|c' t]]; [|done|].
      all: destruct (position <? 4); [|done]; destruct (_ =? 45); [|done]; destruct (_ =? - 2 ^ 63); [by intros [= <-]|done].
  - apply orb_false_iff in Hend as [Hend _]. apply bool_decide_eq_false in Hend. apply dec_stable in Hend as ->.
    pose proof (number_range _ Hn). cbn [rbind res_bind jp_state set_state]. rewrite number_save, number_bit by (done || lia). rewrite andb_false_r. cbn.
    split; [done|]. split; [|by left]. right; right. by eapply at_number.
Qed.
End number.

(** ** Steps *)

Lemma low_state state : state ∈ full_states -> (state <=? st_object_value) = true -> state ∈ value_states.
Proof.
  intros Hs Hle. assert ((st_object_value <? state) || bool_decide (state ∈ value_states) = true) as H.
  { exact (forallb_elem (fun s => (st_object_value <? s) || bool_decide (s ∈ value_states)) full_states state eq_refl Hs). }
  apply orb_true_iff in H as [H|H]; [lia|by apply bool_decide_eq_true in H].
Qed.

Lemma skip_space_suffix s : skip_space s `suffix_of` s.
Proof. induction s as [|c s IH]; cbn; [done|]. destruct (_ && _); [by apply suffix_cons_r|done]. Qed.

Lemma space_small c : is_space c = true -> c <= 32.
Proof. unfold is_space. lia. Qed.

Lemma skip_space_cons c s : is_space c = true -> skip_space (c :: s) = skip_space s.
Proof. intros Hc. cbn. pose proof (space_small _ Hc). by rewrite (proj2 (Z.leb_le _ _)), Hc by lia. Qed.

Lemma part_range n str : part_ok n str -> 0 <= n < 16.
Proof. intros (pre & cut & _ & Hl & Hn & _). lia. Qed.

(** A state in a token is told from one between tokens by its bits. *)
Definition in_token (state : Z) : Prop := 0 <= state /\ Z.land state st_partmask <> 0.

Lemma part_in_token base k n : base ∈ full_states -> k ∈ [st_stringpart; st_primitivepart; st_numberpart] -> 0 <= n < 16 ->
  in_token (base + k + n).
Proof.
  intros Hb Hk Hn. pose proof (full_range _ Hb). unfold in_token. rewrite part_mask by done.
  rewrite !elem_of_cons in Hk. unfold st_stringpart, st_primitivepart, st_numberpart in *.
  destruct Hk as [->|[->|[->|Hk]]]; [lia..|]. by apply not_elem_of_nil in Hk.
Qed.

Lemma parser_at_state p : parser_at p ->
  in_token (jp_state p) \/ jp_state p ∈ full_states /\ place_ok (jp_state p) (jp_stack p) (jp_json p).
Proof.
  intros H. destruct H as [? ?|base n Hb -> Hn _|n -> Hn _|base n Hb Hn -> _|base n Hb Hn -> _]; [by right|left..].
  - apply part_in_token; [by apply value_state_full|position|by eapply part_range].
  - apply part_in_token; [position|position|by eapply part_range].
  - apply part_in_token; [by apply value_state_full|position|]. pose proof (primitive_range _ Hn). lia.
  - apply part_in_token; [by apply value_state_full|position|]. pose proof (number_range _ Hn). lia.
Qed.

Lemma parser_at_full p : parser_at p -> jp_state p ∈ full_states -> place_ok (jp_state p) (jp_stack p) (jp_json p).
Proof. intros H Hf. destruct (parser_at_state _ H) as [[_ Ht]|[_ ?]]; [by rewrite full_parts in Ht|done]. Qed.

Section steps.
Context (strtod : bytes -> Z) (complete : bool).

Lemma error_progress p bs s s' : s `suffix_of` s' -> returns (fault_ok s') (progress_ok bs s') (error_at p s).
Proof. intros Hs. cbn. split; [done|]. by split; [right; left|]. Qed.

(** A state between tokens of the same kind of place. *)
Lemma state_progress p state bs s' : state ∈ full_states -> place_ok state (jp_stack p) (jp_json p) ->
  returns (fault_ok s') (progress_ok bs s') (Ok (Continue (set_state state p) bs)).
Proof. intros Hs Hp. cbn. split; [done|]. split; [right; right; by apply at_token|by right; right]. Qed.

Lemma open_value_spec p again empty c bs : jp_state p ∈ full_states -> place_ok (jp_state p) (jp_stack p) (jp_json p) ->
  returns (fault_ok (c :: bs)) (progress_ok bs (c :: bs)) (open_value p again empty c bs).
Proof.
  intros Hs Hp. unfold open_value. destruct (Z.ltb_spec st_object_value (jp_state p)) as [Hlt|Hle]; [by apply error_progress|].
  assert (jp_state p ∈ value_states) as Hv by (apply low_state; [done|lia]).
  destruct (_ =? max_depth); [by apply error_progress|]. destruct (_ && again) eqn:E.
  - apply andb_true_iff in E as [E%Z.eqb_eq _]. apply value_progress; [done|by apply suffix_cons_r|done|]. cbn.
    rewrite E in *. destruct Hp as [_ Hp]. cbn in Hp. rewrite Hp. split; [constructor|done].
  - apply value_progress; [done|by apply suffix_cons_r|done|done].
Qed.

Lemma close_value_spec p c bs state : place_ok state (jp_stack p) (jp_json p) ->
  returns (fault_ok (c :: bs)) (progress_ok bs (c :: bs)) (close_value p bs).
Proof.
  intros [HS _]. unfold close_value. destruct (jp_stack p) as [|path S'] eqn:E.
  - cbn. split; [by apply suffix_cons_r|]. by split; [left|].
  - inversion HS as [|S q k v HS' Hq Hk Hc Hv [E1 E2]]; subst. unfold load, current. cbn [jp_stack set_stack jp_json].
    fold (top S'). rewrite Hk, rbind_Ok. destruct (is_a k) eqn:Ha.
    + apply state_progress; [position|]. split; [done|]. cbn. by exists k.
    + apply state_progress; [position|]. split; [done|]. cbn. exists k. split; [done|]. destruct Hc; [congruence|done].
Qed.

(** States that ask for the same kind of place. *)
Lemma place_next state state' S j : place_ok state S j ->
  (state, state') ∈ [(st_array_delim, st_array_value); (st_object_delim, st_object_key); (st_object_colon, st_object_value);
                     (st_object_initial, st_object_key); (st_object_key, st_object_key)] -> place_ok state' S j.
Proof.
  intros Hp H. rewrite !elem_of_cons in H.
  destruct H as [[= -> ->]|[[= -> ->]|[[= -> ->]|[[= -> ->]|[[= -> ->]|H]]]]]; [exact Hp..|]. by apply not_elem_of_nil in H.
Qed.

Lemma consume_step_spec p c bs : jp_state p ∈ full_states -> place_ok (jp_state p) (jp_stack p) (jp_json p) -> Forall is_byte (c :: bs) ->
  returns (fault_ok (c :: bs)) (progress_ok bs (c :: bs)) (consume_step strtod complete p c bs).
Proof.
  intros Hs Hp Hb. pose proof Hb as [Hc Hbs]%Forall_cons. unfold consume_step.
  destruct (is_space c) eqn:Esp.
  { rewrite skip_space_cons by done. cbn. split; [apply skip_space_suffix|]. split; [right; right; by apply at_token|by right; right]. }
  assert (returns (fault_ok (c :: bs)) (progress_ok bs (c :: bs)) (error_at p (c :: bs))) as Herr by (by apply error_progress).
  destruct (c =? 44).
  { destruct (Z.eqb_spec (jp_state p) st_array_delim) as [E|E].
    { apply state_progress; [position|]. rewrite E in Hp. apply (place_next _ _ _ _ Hp). position. }
    destruct (Z.eqb_spec (jp_state p) st_object_delim) as [E'|E']; [|done].
    apply state_progress; [position|]. rewrite E' in Hp. apply (place_next _ _ _ _ Hp). position. }
  destruct (c =? 58).
  { destruct (Z.eqb_spec (jp_state p) st_object_colon) as [E|E]; [|done].
    apply state_progress; [position|]. rewrite E in Hp. apply (place_next _ _ _ _ Hp). position. }
  destruct (c =? 123); [by apply open_value_spec|].
  destruct (c =? 125); [destruct (_ || _); [by eapply close_value_spec|done]|].
  destruct (c =? 91); [by apply open_value_spec|].
  destruct (c =? 93); [destruct (_ || _); [by eapply close_value_spec|done]|].
  assert (forall f, fault_ok bs f -> fault_ok (c :: bs) f) as Hf by (intros f; apply fault_ok_suffix; by apply suffix_cons_r).
  assert (forall r, progress_ok bs bs r -> progress_ok bs (c :: bs) r) as Hr.
  { intros [p' rest|p' rest]; [done|]. intros (H1 & H2). split; [by apply suffix_cons_r|done]. }
  destruct (c =? 34).
  { destruct (jp_state p <=? st_object_value) eqn:E.
    - eapply returns_weaken; [|exact Hf|exact Hr]. apply (string_value_spec _ _ (jp_state p)); [by apply low_state|done|done|by left].
    - destruct (_ || _) eqn:E'; [|done]. eapply returns_weaken; [|exact Hf|exact Hr]. apply string_object_key_spec; [done| |by left].
      cbn. apply orb_true_iff in E' as [E'%Z.eqb_eq|E'%Z.eqb_eq]; rewrite E' in Hp; apply (place_next _ _ _ _ Hp); position. }
  destruct (starts_primitive c).
  { destruct (jp_state p <=? st_object_value) eqn:E; [|done].
    pose proof (primitive_spec p (c :: bs) (jp_state p) (low_state _ Hs E) Hp (or_introl eq_refl)) as H. cbn zeta in H.
    by rewrite Z.eqb_refl in H. }
  destruct (starts_number c) eqn:En; [|done]. destruct (jp_state p <=? st_object_value) eqn:E; [|done].
  eapply number_spec; [by apply low_state|done|]. left. split; [done|]. by exists c.
Qed.

(** ** Calls *)

(** The parser stops only when it is done or has no more input. *)
Definition consumed (s : bytes) (r : streaming_parser * bytes) : Prop :=
  parser_ok (fst r) /\ snd r `suffix_of` s /\ (jp_state (fst r) < 0 \/ snd r = []).

Lemma consumed_suffix s s' r : s' `suffix_of` s -> consumed s' r -> consumed s r.
Proof. intros Hs (H1 & H2 & H3). split; [done|]. split; [by etrans|done]. Qed.

Lemma consume_loop_spec fuel : forall p s, (length s <= fuel)%nat -> Forall is_byte s -> parser_ok p ->
  (s = [] \/ jp_state p < 0 \/ jp_state p ∈ full_states) ->
  returns (fault_ok s) (consumed s) (consume_loop strtod fuel complete p s).
Proof.
  induction fuel as [|fuel IH]; intros p s Hl Hb Hp Hs.
  { destruct s; [|cbn in Hl; lia]. cbn. destruct (Z.ltb_spec (jp_state p) 0); cbn; by split; [|split; [|auto]]. }
  cbn [consume_loop]. destruct (Z.ltb_spec (jp_state p) 0) as [H0|H0]; [cbn; by split; [|split; [|auto]]|].
  destruct s as [|c bs]; [cbn; by split; [|split; [|auto]]|]. destruct Hs as [?|[?|Hs]]; [done|lia|].
  assert (place_ok (jp_state p) (jp_stack p) (jp_json p)) as Hpl.
  { destruct Hp as [E|[E|Hp]]; [rewrite E in H0; done|rewrite E in H0; done|]. by apply parser_at_full. }
  eapply returns_bind; [by apply consume_step_spec|]. intros [p' rest|p' rest] H.
  - destruct H as (H1 & H2 & H3). eapply returns_weaken.
    + apply IH; [apply suffix_length in H1; cbn in Hl; lia| |done|done].
      destruct H1 as [k ->]. apply Forall_cons in Hb as [_ Hb]. by apply Forall_app in Hb as [_ ?].
    + intros f. apply fault_ok_suffix. by apply suffix_cons_r.
    + intros r. apply consumed_suffix. by apply suffix_cons_r.
  - destruct H as (H1 & H2 & H3). split; [done|]. split; [done|by left].
Qed.

Lemma resume_spec p s : parser_at p -> Forall is_byte s -> Z.land (jp_state p) st_partmask <> 0 ->
  returns (fault_ok s) (progress_ok s s)
    (if negb (Z.land (jp_state p) st_stringpart =? 0) && (st_object_colon <=? jp_state p) then string_object_key p s
     else if negb (Z.land (jp_state p) st_stringpart =? 0) then string_value p s
     else if negb (Z.land (jp_state p) st_primitivepart =? 0) then primitive p s
     else number strtod complete p s).
Proof.
  intros Hp Hb Hm. destruct Hp as [Hf _|base n Hbase E Hn Hpl|n E Hn Hpl|base n Hbase Hn E Hpl|base n Hbase Hn E Hpl].
  - by rewrite full_parts in Hm.
  - pose proof (value_state_full _ Hbase) as Hf. pose proof (part_range _ _ Hn). rewrite E, string_bit by done.
    change (st_stringpart =? 0) with false. cbn [negb andb].
    assert (base <= st_object_value) by (unfold value_states in Hbase; rewrite !elem_of_cons in Hbase;
      destruct Hbase as [->|[->|[->|[->|H']]]]; [done..|by apply not_elem_of_nil in H']).
    rewrite (proj2 (Z.leb_gt _ _)) by (unfold st_object_value, st_stringpart, st_object_colon in *; lia).
    apply (string_value_spec _ _ base); [done..|]. right. by exists n.
  - pose proof (part_range _ _ Hn). rewrite E, string_bit by (done || position).
    change (st_stringpart =? 0) with false. cbn [negb andb]. rewrite (proj2 (Z.leb_le _ _)) by (unfold st_stringpart; lia).
    apply string_object_key_spec; [done..|]. right. by exists n.
  - pose proof (value_state_full _ Hbase) as Hf. pose proof (primitive_range _ Hn).
    rewrite E, primitive_no_string, primitive_bit by (done || lia). change (0 =? 0) with true. change (st_primitivepart =? 0) with false. cbn [negb andb].
    assert (returns (fault_ok s) (progress_ok (if jp_state p =? base then drop 1 s else s) s) (primitive p s)) as H'.
    { apply primitive_spec; [done..|]. right. by exists n. }
    by rewrite (proj2 (Z.eqb_neq _ _)) in H' by (unfold st_primitivepart in *; lia).
  - pose proof (value_state_full _ Hbase) as Hf. pose proof (number_range _ Hn).
    rewrite E, number_no_string, number_no_primitive by (done || lia). change (0 =? 0) with true. cbn [negb andb].
    eapply number_spec; [done..|]. right. split; [done|]. by exists n.
Qed.

(** C33: every call of consume keeps the parser whole: the pointers on its stack lead
    to arrays and objects of the value, each within the one below, of the kinds that
    the state asks for, and the part of a token that is saved is one that more input
    can go on from.  The call returns after all of the input, or done, at a position
    in it.  Its two faults are the source's: an input that ends in the first byte
    of certain characters, whose second byte is read behind the end, and the
    negation of the least integer. *)
Theorem consume_keeps_parser p s : parser_ok p -> Forall is_byte s ->
  match consume strtod p s complete with
  | Ok (p', rest) => parser_ok p' /\ rest `suffix_of` s /\ (done p' = true \/ rest = [])
  | Fault f => f = InvalidArgument \/ f = OutOfBounds /\ exists pre c, s = pre ++ [c] /\ c ∈ [0xE0; 0xED; 0xF0; 0xF4]
  end.
Proof.
  intros Hp Hb. enough (returns (fault_ok s) (consumed s) (consume strtod p s complete)) as H.
  { destruct (consume strtod p s complete) as [[p' rest]|f]; [|exact H]. destruct H as (H1 & H2 & H3). split; [done|]. split; [done|].
    unfold done. cbn [fst snd] in H3. destruct H3 as [H3|H3]; [left; by apply Z.ltb_lt|by right]. }
  unfold consume. destruct (_ && _) eqn:E.
  - apply andb_true_iff in E as [H0%Z.leb_le Hm%negb_true_iff%Z.eqb_neq].
    destruct Hp as [E|[E|Hp]]; [rewrite E in H0; done|rewrite E in H0; done|].
    eapply returns_bind; [by apply resume_spec|]. intros [p' rest|p' rest] (H1 & H2 & H3).
    + eapply returns_weaken; [apply consume_loop_spec; [done| |done|done]|intros f; by apply fault_ok_suffix|intros r; by apply consumed_suffix].
      destruct H1 as [k ->]. by apply Forall_app in Hb as [_ ?].
    + split; [done|]. split; [done|by left].
  - apply consume_loop_spec; [done..|]. destruct Hp as [E'|[E'|Hp]]; [right; left; by rewrite E'|right; left; by rewrite E'|]. right; right.
    destruct (parser_at_state _ Hp) as [[H1 H2]|[? _]]; [|done].
    rewrite (proj2 (Z.leb_le _ _) H1), (proj2 (Z.eqb_neq _ _) H2) in E. done.
Qed.
End steps.

Lemma consume_keeps_parser_witness :
  parser_ok (StreamingParser (st_object_value + st_stringpart + 3) [[0%nat]] [120; 92; 117; 48] (JObject [([97], JNull)])).
Proof.
  pose proof (consume_keeps_parser (fun _ => 0) false new_streaming_parser [123; 34; 97; 34; 58; 34; 120; 92; 117; 48] new_parser_ok
    ltac:(repeat (apply Forall_cons; split; [unfold is_byte; lia|]); constructor)) as H.
  exact (proj1 H).
Defined.
