(* ===== verification/JsonTextFacts.v ===== *)
(** * JSON text: reading back

    The text that the unparser writes, in any of its layouts, is read back by the
    parser as the same value, integers up to their type. *)

From S2P Require Export JsonTextInvariant.

#[local] Open Scope Z_scope.
#[local] Open Scope lhm_scope.

(** ** Texts of characters *)

(** The characters of a string that are read back as they are written: UTF-8 but
    for NUL, which the parser refuses, and the two line separators, which it takes
    for other characters. *)
Definition cont_byte (c : Z) : Prop := 0x80 <= c < 0xC0.
Inductive text_char : bytes -> Prop :=
  | char1 c : 0 < c < 0x80 -> text_char [c]
  | char2 c c1 : 0xC2 <= c < 0xE0 -> cont_byte c1 -> text_char [c; c1]
  | char3 c c1 c2 : 0xE0 <= c < 0xF0 -> cont_byte c1 -> cont_byte c2 ->
      (c = 0xE0 -> 0xA0 <= c1) -> (c = 0xED -> c1 < 0xA0) -> ~ (c = 0xE2 /\ c1 = 0x80 /\ (c2 = 0xA8 \/ c2 = 0xA9)) ->
      text_char [c; c1; c2]
  | char4 c c1 c2 c3 : 0xF0 <= c < 0xF5 -> cont_byte c1 -> cont_byte c2 -> cont_byte c3 ->
      (c = 0xF0 -> 0x90 <= c1) -> (c = 0xF4 -> c1 < 0x90) -> text_char [c; c1; c2; c3].

Definition text_string (s : bytes) : Prop := exists cs, s = concat cs /\ Forall text_char cs.

(** *** Writing *)

Lemma encode_ascii c t : 0 < c < 0x80 -> encode_json (c :: t) = (if plain c then [c] else escape c) ++ encode_json t.
Proof.
  intros Hc. cbn [encode_json]. rewrite (proj2 (Z.eqb_neq c 0xE2)) by lia. cbn [andb].
  destruct t as [|c1 [|c2 t]]; by destruct (plain c).
Qed.

Lemma encode_high c t : 0x80 <= c ->
  (forall c1 c2 t', t = c1 :: c2 :: t' -> ~ (c = 0xE2 /\ c1 = 0x80 /\ (c2 = 0xA8 \/ c2 = 0xA9))) ->
  encode_json (c :: t) = c :: encode_json t.
Proof.
  intros Hc Ht. assert (plain c = true) as Hp by (unfold plain; lia). cbn [encode_json]. rewrite Hp.
  destruct t as [|c1 [|c2 t']]; [done..|]. specialize (Ht _ _ _ eq_refl).
  destruct ((c =? 0xE2) && (c1 =? 0x80) && (Z.lor c2 1 =? 0xA9)) eqn:E; [|done]. destruct Ht.
  rewrite !andb_true_iff, !Z.eqb_eq in E. destruct E as [[-> ->] E]. split; [done|]. split; [done|].
  apply (f_equal (fun x => Z.shiftr x 1)) in E. cbv beta in E. rewrite Z.shiftr_lor in E.
  change (Z.shiftr 1 1) with 0 in E. change (Z.shiftr 0xA9 1) with 84 in E. rewrite Z.lor_0_r, Z.shiftr_div_pow2 in E by lia.
  change (2 ^ 1) with 2 in E. pose proof (Z.div_mod c2 2 ltac:(lia)). pose proof (Z.mod_pos_bound c2 2 ltac:(lia)). lia.
Qed.

(** Continuation bytes start no separator. *)
Lemma encode_cont c t : cont_byte c -> encode_json (c :: t) = c :: encode_json t.
Proof. unfold cont_byte. intros Hc. apply encode_high; [lia|]. intros c1 c2 t' _ [-> _]. lia. Qed.

(** *** Reading *)

Section string_runs.
Context (st : Z).

(** Some bytes are taken into the string. *)
Definition string_runs (sa s sa' s' : bytes) : Prop :=
  forall fuel, (length s <= fuel)%nat -> exists fuel', (length s' <= fuel')%nat /\
    string_loop fuel st sa s = string_loop fuel' st sa' s'.

Lemma string_runs_refl sa s : string_runs sa s sa s.
Proof. intros fuel H. by exists fuel. Qed.

Lemma string_runs_trans sa1 s1 sa2 s2 sa3 s3 : string_runs sa1 s1 sa2 s2 -> string_runs sa2 s2 sa3 s3 -> string_runs sa1 s1 sa3 s3.
Proof.
  intros H1 H2 fuel Hf. destruct (H1 fuel Hf) as (f2 & Hf2 & ->). destruct (H2 f2 Hf2) as (f3 & Hf3 & ->). by exists f3.
Qed.

Lemma run_plain sa c t : 0 < c < 0x80 -> plain c = true -> string_runs sa (c :: t) (sa ++ [c]) t.
Proof.
  intros Hc Hp [|fuel] Hf; [cbn in Hf; lia|]. exists fuel. split; [cbn in Hf; lia|]. cbn [string_loop].
  rewrite in_range_spec by lia. unfold plain in Hp. rewrite !andb_true_iff in Hp. destruct Hp as [[[H1 H2] H3] H4].
  by rewrite H1, (proj2 (Z.ltb_lt c 128)), H2, H3 by lia.
Qed.

Lemma run_escape sa e ch t : consume_backslash (e ++ t) = Scanned [ch] t -> string_runs sa (92 :: e ++ t) (sa ++ [ch]) t.
Proof.
  intros H [|fuel] Hf; [cbn in Hf; lia|]. exists fuel. split; [cbn in Hf; rewrite length_app in Hf; lia|]. cbn [string_loop].
  rewrite in_range_spec by lia. cbn [Z.eqb Pos.eqb Z.leb Z.ltb Z.compare Pos.compare Pos.compare_cont andb negb]. by rewrite H, rbind_Ok.
Qed.

Lemma run_utf8 sa c u t : 0xC2 <= c < 0xF5 -> consume_utf8 c (u ++ t) = Ok (Scanned (c :: u) t) ->
  string_runs sa (c :: u ++ t) (sa ++ c :: u) t.
Proof.
  intros Hc H [|fuel] Hf; [cbn in Hf; lia|]. exists fuel. split; [cbn in Hf; rewrite length_app in Hf; lia|]. cbn [string_loop].
  rewrite in_range_spec by lia. rewrite (proj2 (Z.ltb_ge c 128)), andb_false_r by lia. cbn [andb].
  rewrite (proj2 (Z.eqb_neq c 34)), (proj2 (Z.eqb_neq c 92)) by lia. by rewrite H, rbind_Ok.
Qed.

End string_runs.

Lemma escape_read : Forall (fun c => plain c = true \/ exists e, escape c = 92 :: e /\ forall t, consume_backslash (e ++ t) = Scanned [c] t) (seqZ 1 127).
Proof.
  let l := eval vm_compute in (seqZ 1 127) in change (seqZ 1 127) with l.
  repeat (apply Forall_cons; split; [first [left; reflexivity | right; eexists; split; [reflexivity|]; intros t; reflexivity]|]).
  constructor.
Qed.

Lemma nth_at n (l : bytes) : nthZ 0 l (Z.of_nat n) = nth n l 0.
Proof. unfold nthZ. by rewrite Nat2Z.id. Qed.

Lemma utf8_read c u t : text_char (c :: u) -> 0x80 <= c -> consume_utf8 c (u ++ t) = Ok (Scanned (c :: u) t).
Proof.
  intros Hu Hc. unfold consume_utf8.
  assert (0xC2 <= c < 0xF5 /\ utf8_length c = Z.of_nat (length u) + 1) as [Hr Hl].
  { unfold utf8_length. inversion Hu as [|c0 c1 Hr|c0 c1 c2 Hr|c0 c1 c2 c3 Hr]; subst; [lia|..]; (split; [lia|]); cbn [length];
      destruct (Z.leb_spec 0xE0 c), (Z.leb_spec 0xF0 c); cbn; lia. }
  rewrite (in_range_spec c), (proj2 (Z.leb_le _ _)), (proj2 (Z.ltb_lt _ _)) by lia. cbn [andb negb].
  replace (Z.min _ (utf8_length c)) with (Z.of_nat (length u) + 1) by (rewrite length_app; lia). rewrite Hl, Z.eqb_refl.
  replace (Z.to_nat (Z.of_nat (length u) + 1 - 1)) with (length u) by lia. rewrite take_app_length, drop_app_length.
  assert (forall c1 bs, cont_byte c1 -> (c = 0xE0 -> 0xA0 <= c1) -> (c = 0xED -> c1 < 0xA0) -> (c = 0xF0 -> 0x90 <= c1) -> (c = 0xF4 -> c1 < 0x90) ->
    (if (c =? 0xE0) || (c =? 0xED) || (c =? 0xF0) || (c =? 0xF4) then
       let? c1 := aget (c1 :: bs) 0 in
       Ok (((c =? 0xE0) && (c1 <? 0xA0)) || ((c =? 0xED) && (0xA0 <=? c1))
           || ((c =? 0xF0) && (c1 <? 0x90)) || ((c =? 0xF4) && (0x90 <=? c1)))
     else Ok false) = Ok false) as Hsecond.
  { intros c1 bs _ HE0 HED HF0 HF4. change (aget (c1 :: bs) 0) with (Ok c1). rewrite rbind_Ok. zcases; done. }
  assert (forall c, cont_byte c -> in_range c 0x80 0xC0 = true) as Hcont by (intros c' Hc'; unfold cont_byte in *; rewrite in_range_spec by lia; lia).
  inversion Hu as [|c0 c1 Hr' H1|c0 c1 c2 Hr' H1 H2 HE0 HED|c0 c1 c2 c3 Hr' H1 H2 H3 HF0 HF4]; subst; [lia|..]; cbn [app length];
    rewrite ?(nth_at 0%nat), ?(nth_at 1%nat), ?(nth_at 2%nat); cbn [nth]; rewrite !Hcont by done; cbn [negb]; rewrite ?andb_false_r.
  - rewrite Hsecond by (done || (intros; lia)). done.
  - rewrite Hsecond by (done || (intros; lia)). done.
  - rewrite Hsecond by (done || (intros; lia)). done.
Qed.

Lemma run_char st sa u t : text_char u ->
  exists e, (forall s, encode_json (u ++ s) = e ++ encode_json s) /\ string_runs st sa (e ++ t) (sa ++ u) t.
Proof.
  destruct 1 as [c Hc|c c1 Hc H1|c c1 c2 Hc H1 H2 HE0 HED HE2|c c1 c2 c3 Hc H1 H2 H3 HF0 HF4].
  - exists (if plain c then [c] else escape c). split; [intros s'; by apply encode_ascii|].
    pose proof escape_read as He. rewrite Forall_forall in He. specialize (He c). destruct He as [Hp|(e & He & Hr)]; [apply elem_of_seqZ; lia|..].
    + rewrite Hp. by apply run_plain.
    + destruct (plain c) eqn:Hp; [by apply run_plain|]. rewrite He. cbn [app]. by apply run_escape.
  - unfold cont_byte in *. exists [c; c1]. split.
    + intros s'. cbn [app]. rewrite encode_high, encode_cont by (done || lia || (intros; lia)). done.
    + apply (run_utf8 _ _ c [c1] t); [lia|]. apply utf8_read; [by constructor|lia].
  - unfold cont_byte in *. exists [c; c1; c2]. split.
    + intros s'. cbn [app]. rewrite encode_high, !encode_cont; [done|done|done|lia|]. by intros ? ? ? [= <- <- _].
    + apply (run_utf8 _ _ c [c1; c2] t); [lia|]. apply utf8_read; [by constructor|lia].
  - unfold cont_byte in *. exists [c; c1; c2; c3]. split.
    + intros s'. cbn [app]. rewrite encode_high, !encode_cont; [done..|lia|intros; lia].
    + apply (run_utf8 _ _ c [c1; c2; c3] t); [lia|]. apply utf8_read; [by constructor|lia].
Qed.

Lemma run_string st s t : text_string s -> forall sa, string_runs st sa (encode_json s ++ t) (sa ++ s) t.
Proof.
  intros (cs & -> & Hcs). induction Hcs as [|u cs Hu Hcs IH]; intros sa; cbn [concat].
  - rewrite app_nil_r. apply string_runs_refl.
  - destruct (run_char st sa u (encode_json (concat cs) ++ t) Hu) as (e & He & Hr). rewrite He, <- (app_assoc e), (app_assoc sa).
    by eapply string_runs_trans; [apply Hr|].
Qed.

(** A string's text up to its quote. *)
Lemma string_read st s rest : text_string s -> string_body st [] (encode_json s ++ 34 :: rest) = Ok (string_end st s rest).
Proof.
  intros Hs. unfold string_body. destruct (run_string st s (34 :: rest) Hs [] _ (le_n _)) as (fuel & Hf & ->).
  destruct fuel as [|fuel]; [cbn in Hf; lia|]. cbn [string_loop app]. rewrite in_range_spec by lia.
  by cbn [Z.eqb Pos.eqb Z.leb Z.ltb Z.compare Pos.compare Pos.compare_cont andb negb].
Qed.

(** ** Texts of numbers *)

Definition digit (c : Z) : Prop := 48 <= c <= 57.

Lemma digit_is c : digit c -> is_digit c = true.
Proof. unfold digit, is_digit. intros H. rewrite in_range_spec by lia. lia. Qed.

Lemma skip_digits_app D t : Forall digit D -> skip_digits (D ++ t) = skip_digits t.
Proof. induction 1 as [|c D Hc _ IH]; cbn; [done|]. by rewrite digit_is. Qed.

(** The value of digits, without wrap-around. *)
Definition digits_value (x : Z) (D : bytes) : Z := fold_left (fun x c => x * 10 + c - 48) D x.

Lemma digits_text fuel : forall n acc, 0 <= n < 10 ^ Z.of_nat fuel -> fuel <> 0%nat ->
  exists D, digits fuel n acc = D ++ acc /\ Forall digit D /\ digits_value 0 D = n /\
    (n < 10 -> D = [48 + n]) /\ (10 <= n -> exists c c' t, D = c :: c' :: t /\ 49 <= c <= 57).
Proof.
  induction fuel as [|fuel IH]; intros n acc Hn Hf; [done|]. cbn [digits].
  pose proof (Z.div_mod n 10 ltac:(lia)) as Hd. pose proof (Z.mod_pos_bound n 10 ltac:(lia)) as Hm.
  destruct (Z.eqb_spec (n / 10) 0) as [E|E].
  - assert (n mod 10 = n) as -> by lia. exists [48 + n]. split; [done|]. split; [constructor; [unfold digit; lia|constructor]|].
    split; [cbn; lia|]. split; [done|lia].
  - assert (0 <= n / 10) by (apply Z.div_pos; lia).
    destruct fuel as [|fuel']; [change (10 ^ Z.of_nat 1) with 10 in Hn; lia|].
    destruct (IH (n / 10) (48 + n mod 10 :: acc)) as (D & HD & Hdig & Hv & Hsmall & Hbig); [|done|].
    { rewrite Nat2Z.inj_succ, Z.pow_succ_r in Hn by lia. lia. }
    exists (D ++ [48 + n mod 10]). split; [by rewrite HD, <- app_assoc|]. split.
    { apply Forall_app. split; [done|]. constructor; [unfold digit; lia|constructor]. }
    split; [unfold digits_value in *; rewrite fold_left_app, Hv; cbn; lia|]. split; [lia|]. intros _.
    destruct (Z.lt_ge_cases (n / 10) 10) as [Hlt|Hge].
    + rewrite (Hsmall Hlt). exists (48 + n / 10), (48 + n mod 10), []. split; [done|lia].
    + destruct (Hbig Hge) as (c & c' & t & -> & Hc). by exists c, c', (t ++ [48 + n mod 10]).
Qed.

Lemma number_value_wrap D : forall x, fold_left (fun x c => Word.wrap 64 (x * 10 + c - 48)) D (Word.wrap 64 x) = Word.wrap 64 (digits_value x D).
Proof.
  induction D as [|c D IH]; intros x; [done|]. cbn [fold_left].
  change (digits_value x (c :: D)) with (digits_value (x * 10 + c - 48) D). rewrite <- IH. f_equal. unfold Word.wrap.
  rewrite <- Z.add_sub_assoc, <- Z.add_mod_idemp_l, Z.mul_mod_idemp_l, Z.add_mod_idemp_l, Z.add_sub_assoc by lia. done.
Qed.

Lemma number_value_digits D : 0 <= digits_value 0 D < 2 ^ 64 -> number_value D = digits_value 0 D.
Proof. intros H. unfold number_value. change 0 with (Word.wrap 64 0) at 1. rewrite number_value_wrap. by apply Word.wrap_small. Qed.

(** What may follow a value. *)
Definition stops (s : bytes) : Prop := match s with [] => True | c :: _ => c ∈ [44; 93; 125; 10] end.

Lemma stops_number s n : stops s -> skip_digits s = s /\ case3 n s = (n, s).
Proof.
  destruct s as [|c s]; [done|]. cbn [stops]. rewrite !elem_of_cons. intros Hc. cbn [skip_digits case3 maybe_exponent].
  destruct Hc as [->|[->|[->|[->|Hc]]]]; [done..|]. by apply not_elem_of_nil in Hc.
Qed.

(** The number that is read for an integer. *)
Definition reread_int (x : Z) : Json := if x <? 10 then JInt x else JUnsigned x.

Lemma scan_digits_text n D rest : (n < 10 -> D = [48 + n]) -> (10 <= n -> exists c c' t, D = c :: c' :: t /\ 49 <= c <= 57) -> 0 <= n ->
  Forall digit D -> stops rest -> exists pos, case2 (D ++ rest) = (pos, rest) /\ Z.even pos = false /\ pos < 4.
Proof.
  intros Hs Hb Hn HD Hr. destruct (stops_number rest 1 Hr) as [Hsk H1]. destruct (stops_number rest 3 Hr) as [_ H3].
  assert (forall c t, D = c :: t -> 49 <= c <= 57 -> case2 (D ++ rest) = (1, rest)) as Hgo.
  { intros c t -> Hc. cbn [app case2]. rewrite (proj2 (Z.eqb_neq c 48)), in_range_spec by lia.
    rewrite (proj2 (Z.leb_le 49 c)), (proj2 (Z.ltb_lt c (57 + 1))) by lia. cbn [andb]. unfold case1.
    apply Forall_cons in HD as [_ HD]. by rewrite skip_digits_app, Hsk. }
  destruct (Z.lt_ge_cases n 10) as [Hlt|Hge].
  - rewrite (Hs Hlt). destruct (decide (n = 0)) as [->|Hn0].
    + exists 3. split; [|done]. cbn [app case2 Z.add Z.eqb Pos.eqb]. exact H3.
    + exists 1. split; [|done]. rewrite <- (Hs Hlt). apply (Hgo (48 + n) []); [auto|lia].
  - destruct (Hb Hge) as (c & c' & t & -> & Hc). exists 1. split; [|done]. by eapply Hgo.
Qed.

Section tokens.
Context (strtod : bytes -> Z).

Lemma integer_read x rest : - 2 ^ 63 < x < 2 ^ 64 -> stops rest ->
  exists pos c t, decimal x = c :: t /\ starts_number c = true /\ case0 (decimal x ++ rest) = (pos, rest) /\ Z.even pos = false
    /\ number_json strtod pos (decimal x) = Ok (reread_int x).
Proof.
  intros Hx Hr. assert (0 <= Z.abs x < 10 ^ Z.of_nat 20) as Hab by (change (10 ^ Z.of_nat 20) with 100000000000000000000; lia).
  destruct (digits_text 20 _ [] Hab ltac:(done)) as (D & HD & Hdig & Hv & Hs & Hb). rewrite app_nil_r in HD.
  destruct (scan_digits_text _ D rest Hs Hb ltac:(lia) Hdig Hr) as (pos & Hscan & Hev & Hpos).
  assert (number_value D = Z.abs x) as Hnv by (rewrite number_value_digits, Hv; lia).
  exists pos. unfold decimal, reread_int. destruct (Z.ltb_spec x 0) as [Hneg|Hpos'].
  - replace (- x) with (Z.abs x) by lia. rewrite HD. exists 45, D. split; [done|]. split; [done|]. split; [exact Hscan|]. split; [done|].
    assert (D <> []) as Hne by (intros ->; cbn in Hv; lia). rewrite (proj2 (Z.ltb_lt x 10)) by lia.
    unfold number_json. destruct D as [|d D]; [done|]. rewrite (proj2 (Z.ltb_lt pos 4)) by done. change (nthZ 0 (45 :: d :: D) 0 =? 45) with true.
    cbn [drop]. rewrite Hnv. unfold Word.signed. rewrite Word.wrap_small by (split; lia). cbn zeta.
    rewrite (proj2 (Z.ltb_lt _ _)) by lia. rewrite (proj2 (Z.eqb_neq _ _)) by lia. do 2 f_equal. lia.
  - replace x with (Z.abs x) by lia. rewrite HD. destruct (Z.ltb_spec (Z.abs x) 10) as [Hlt|Hge].
    + rewrite (Hs Hlt) in *. exists (48 + Z.abs x), []. split; [done|]. split; [unfold starts_number; lia|]. split; [|split; [done|]].
      * cbn [app case0]. rewrite (proj2 (Z.eqb_neq _ 45)) by lia. exact Hscan.
      * cbn. do 2 f_equal. lia.
    + destruct (Hb Hge) as (c & c' & t & -> & Hc). exists c, (c' :: t). split; [done|]. split; [unfold starts_number; lia|]. split; [|split; [done|]].
      * cbn [app case0]. rewrite (proj2 (Z.eqb_neq _ 45)) by lia. exact Hscan.
      * unfold number_json. rewrite (proj2 (Z.ltb_lt pos 4)) by done. change (nthZ 0 (c :: c' :: t) 0) with c.
        rewrite (proj2 (Z.eqb_neq _ 45)) by lia. by rewrite Hnv.
Qed.

(** ** Tokens *)

(** One iteration takes the text of a value and goes on at the label [value]. *)
Definition token (text : bytes) (v : Json) : Prop :=
  forall p rest, jp_state p ∈ value_states -> stops rest ->
  exists c bs s, text ++ rest = c :: bs /\ consume_step strtod true p c bs = value (set_str s p) v rest.

Lemma value_state_cases p : jp_state p ∈ value_states ->
  0 <= jp_state p /\ (jp_state p <=? st_object_value) = true /\ jp_state p ∈ full_states.
Proof.
  intros H. pose proof (value_state_full _ H) as Hf. pose proof (full_range _ Hf). split; [lia|]. split; [|done].
  unfold value_states in H. rewrite !elem_of_cons in H. destruct H as [->|[->|[->|[->|H]]]]; [done..|]. by apply not_elem_of_nil in H.
Qed.

Lemma set_state_same p : set_state (jp_state p) p = p.
Proof. by destruct p. Qed.

Lemma integer_token x : - 2 ^ 63 < x < 2 ^ 64 -> token (decimal x) (reread_int x).
Proof.
  intros Hx p rest Hp Hr. destruct (value_state_cases _ Hp) as (H0 & Hle & Hf).
  destruct (integer_read x rest Hx Hr) as (pos & c & t & Hd & Hc & Hs & He & Hj). rewrite Hd in *. exists c, (t ++ rest), [].
  split; [done|]. assert (consume_step strtod true p c (t ++ rest) = number strtod true p (c :: t ++ rest)) as ->.
  { unfold consume_step, is_space, starts_primitive. rewrite Hc, Hle. unfold starts_number in Hc.
    rewrite (proj2 (Z.eqb_neq c 32)), (proj2 (Z.eqb_neq c 10)), (proj2 (Z.eqb_neq c 13)), (proj2 (Z.eqb_neq c 9)) by lia.
    rewrite (proj2 (Z.eqb_neq c 44)), (proj2 (Z.eqb_neq c 58)), (proj2 (Z.eqb_neq c 123)), (proj2 (Z.eqb_neq c 125)) by lia.
    rewrite (proj2 (Z.eqb_neq c 91)), (proj2 (Z.eqb_neq c 93)), (proj2 (Z.eqb_neq c 34)) by lia.
    rewrite (proj2 (Z.eqb_neq c 110)), (proj2 (Z.eqb_neq c 102)), (proj2 (Z.eqb_neq c 116)) by lia. done. }
  unfold number, consume_number. rewrite full_len by done. change (scan_number 0) with case0. cbn [app] in Hs. rewrite Hs, orb_true_r, He.
  cbn [Z.eqb]. replace (take _ _) with (c :: t).
  - rewrite Hj. cbn [rbind res_bind]. rewrite full_base by done. cbn [jp_state set_state]. rewrite (full_number _ Hf), (proj2 (Z.leb_le _ _) H0).
    cbn [Z.eqb andb]. by destruct p.
  - change (c :: t ++ rest) with ((c :: t) ++ rest). rewrite length_app, Nat.add_sub. by rewrite take_app_length.
Qed.

(** A string read from a state between tokens. *)
Lemma consume_string_text p s rest : jp_state p ∈ full_states -> jp_str p = [] -> text_string s ->
  consume_string p (encode_json s ++ 34 :: rest) = Ok (set_str s p, rest).
Proof.
  intros Hp Hstr Hs. unfold consume_string. rewrite full_len, Hstr by done. cbn [Z.eqb rbind res_bind].
  pose proof (full_range _ Hp). rewrite (proj2 (Z.eqb_neq _ st_error)) by (unfold st_error; lia).
  rewrite string_read by done. unfold string_end. rewrite string_none by done. cbn. by destruct p.
Qed.

Lemma string_token s : text_string s -> token (34 :: encode_json s ++ [34]) (JString s).
Proof.
  intros Hs p rest Hp _. destruct (value_state_cases _ Hp) as (H0 & Hle & Hf).
  exists 34, (encode_json s ++ 34 :: rest), s. split; [cbn; by rewrite <- app_assoc|]. unfold consume_step.
  change (is_space 34) with false. cbn [Z.eqb Pos.eqb]. rewrite Hle. unfold string_value.
  rewrite consume_string_text by done. rewrite rbind_Ok. cbn [jp_state set_str jp_str].
  by rewrite (full_string _ Hf), (proj2 (Z.leb_le _ _) H0).
Qed.

Lemma primitive_token c t v : starts_primitive c = true ->
  (forall rest, primitive_loop (if c =? 110 then 1 else if c =? 102 then 6 else 12) (t ++ rest)
    = Scanned (match v with JNull => 4 | JBool false => 10 | _ => 15 end) rest) ->
  v = JNull \/ v = JBool false \/ v = JBool true -> token (c :: t) v.
Proof.
  intros Hc Ht Hv p rest Hp _. destruct (value_state_cases _ Hp) as (H0 & Hle & Hf). exists c, (t ++ rest), (jp_str p). split; [done|].
  assert (consume_step strtod true p c (t ++ rest) = primitive p (c :: t ++ rest)) as ->.
  { unfold consume_step. rewrite Hc, Hle. unfold starts_primitive in Hc.
    assert (c = 110 \/ c = 102 \/ c = 116) as [->|[->| ->]] by lia; done. }
  unfold primitive, consume_primitive. rewrite full_primitive by done. cbn [negb Z.eqb].
  change (nthZ 0 (c :: t ++ rest) 0) with c. change (drop 1 (c :: t ++ rest)) with (t ++ rest). rewrite Ht.
  assert (forall j, (if (0 <=? jp_state p) && (Z.land (jp_state p) st_primitivepart =? 0) then value p j rest else Ok (Continue p rest))
    = value (set_str (jp_str p) p) j rest) as Hgo by (intros j; rewrite (full_primitive _ Hf), (proj2 (Z.leb_le _ _) H0); by destruct p).
  destruct Hv as [->|[->| ->]]; apply Hgo.
Qed.

Lemma null_token : token text_null JNull.
Proof. apply primitive_token; [done|intros r; by destruct r|by left]. Qed.
Lemma bool_token (b : bool) : token (if b then text_true else text_false) (JBool b).
Proof. destruct b; (apply primitive_token; [done|intros r; by destruct r|]); [by right; right|by right; left]. Qed.
End tokens.
