(* ===== verification/JsonTextReread.v ===== *)
(** * JSON text: the round trip

    Values of any nesting up to the parser's limit are read back from their text. *)

From S2P Require Export JsonTextFacts.

#[local] Open Scope Z_scope.
#[local] Open Scope lhm_scope.

(** ** What is read back *)

(** Integers of one digit and negative ones come back signed, the others unsigned. *)
Fixpoint reread (j : Json) : Json :=
  match j with
  | JInt x | JUnsigned x => reread_int x
  | JArray a => JArray (map reread a)
  | JObject o => JObject (map (fun kv => (fst kv, reread (snd kv))) o)
  | _ => j
  end.

(** Values that can be read back: strings of text, no doubles, and not the least
    integer, whose negation the parser cannot compute. *)
Fixpoint readable (j : Json) : Prop :=
  match j with
  | JNull | JBool _ => True
  | JInt x => - 2 ^ 63 < x < 2 ^ 63
  | JUnsigned x => 0 <= x < 2 ^ 64
  | JDouble _ => False
  | JString s => text_string s
  | JArray a => fold_right (fun x Q => readable x /\ Q) True a
  | JObject o => NoDup o.*1 /\ fold_right (fun kv Q => (text_string (fst kv) /\ readable (snd kv)) /\ Q) True o
  end.

(** How deep arrays and objects are nested. *)
Fixpoint height (j : Json) : Z :=
  match j with
  | JArray a => 1 + fold_right (fun x h => Z.max (height x) h) 0 a
  | JObject o => 1 + fold_right (fun kv h => Z.max (height (snd kv)) h) 0 o
  | _ => 0
  end.

Lemma fold_and_Forall {A} (P : A -> Prop) l : fold_right (fun x Q => P x /\ Q) True l <-> Forall P l.
Proof. induction l as [|x l IH]; cbn; [by rewrite Forall_nil|]. by rewrite Forall_cons, IH. Qed.

Lemma fold_max_nonneg {A} (f : A -> Z) l : 0 <= fold_right (fun x h => Z.max (f x) h) 0 l.
Proof. induction l as [|x l IH]; cbn; lia. Qed.

Lemma height_range j : 0 <= height j.
Proof.
  destruct j as [| | | | | |a|o]; cbn; try lia; [pose proof (fold_max_nonneg height a)|pose proof (fold_max_nonneg (fun kv => height (snd kv)) o)]; lia.
Qed.

Lemma height_container j : container j -> 1 <= height j.
Proof.
  intros [H|H]; destruct j as [| | | | | |a|o]; try done; cbn;
    [pose proof (fold_max_nonneg height a)|pose proof (fold_max_nonneg (fun kv => height (snd kv)) o)]; lia.
Qed.

(** ** Runs of the loop *)

Section runs.
Context (strtod : bytes -> Z).

(** Some text is taken; there is fuel for what is left. *)
Definition runs (p : streaming_parser) (s : bytes) (p' : streaming_parser) (s' : bytes) : Prop :=
  forall fuel, (length s <= fuel)%nat -> exists fuel', (length s' <= fuel')%nat /\
    consume_loop strtod fuel true p s = consume_loop strtod fuel' true p' s'.

Lemma runs_refl p s : runs p s p s.
Proof. intros fuel H. by exists fuel. Qed.

Lemma runs_trans p1 s1 p2 s2 p3 s3 : runs p1 s1 p2 s2 -> runs p2 s2 p3 s3 -> runs p1 s1 p3 s3.
Proof.
  intros H1 H2 fuel Hf. destruct (H1 fuel Hf) as (f2 & Hf2 & ->). destruct (H2 f2 Hf2) as (f3 & Hf3 & ->). by exists f3.
Qed.

Lemma runs_step p c bs p' rest : 0 <= jp_state p -> consume_step strtod true p c bs = Ok (Continue p' rest) ->
  (length rest <= length bs)%nat -> runs p (c :: bs) p' rest.
Proof.
  intros H0 Hs Hl [|fuel] Hf; [cbn in Hf; lia|]. exists fuel. split; [cbn in Hf; lia|]. cbn [consume_loop].
  rewrite (proj2 (Z.ltb_ge _ _) H0). by rewrite Hs, rbind_Ok.
Qed.

Lemma skip_space_le s : (length (skip_space s) <= length s)%nat.
Proof. apply suffix_length, skip_space_suffix. Qed.

Lemma skip_space_none c s : is_space c = false -> skip_space (c :: s) = c :: s.
Proof. intros Hc. cbn. by rewrite Hc, andb_false_r. Qed.

Lemma runs_space p c s : 0 <= jp_state p -> is_space c = true -> runs p (c :: s) p s.
Proof.
  intros H0 Hc. assert (forall fuel c s, is_space c = true -> consume_loop strtod (S fuel) true p (c :: s) = consume_loop strtod fuel true p (skip_space s)) as Hgo.
  { intros fuel c' s' Hc'. cbn [consume_loop]. rewrite (proj2 (Z.ltb_ge _ _) H0). unfold consume_step. rewrite Hc', rbind_Ok. by rewrite skip_space_cons by done. }
  intros [|fuel] Hf; [cbn in Hf; lia|]. rewrite Hgo by done. cbn in Hf. destruct s as [|c' s]; [exists fuel; split; [cbn; lia|done]|].
  destruct (is_space c') eqn:Hc'.
  - exists (S fuel). split; [cbn in *; lia|]. by rewrite Hgo, skip_space_cons.
  - exists fuel. split; [lia|]. by rewrite skip_space_none.
Qed.

Lemma runs_spaces p sp s : 0 <= jp_state p -> Forall (fun c => is_space c = true) sp -> runs p (sp ++ s) p s.
Proof.
  intros H0. induction 1 as [|c sp Hc _ IH]; [apply runs_refl|]. cbn [app]. eapply runs_trans; [by apply runs_space|done].
Qed.

(** ** Places for a value *)

(** The parser after a value in an array, or as the item of an object. *)
Inductive accepts (p : streaming_parser) (v : Json) : streaming_parser -> Prop :=
  | accept_item a : jp_state p = st_array_initial \/ jp_state p = st_array_value -> load (current p) p = Ok (JArray a) ->
      accepts p v (set_state st_array_delim (set_json (put (current p) (JArray (a ++ [v])) (jp_json p)) p))
  | accept_member S i o k v0 : jp_state p = st_object_value -> jp_stack p = (top S ++ [i]) :: S ->
      load (top S) p = Ok (JObject o) -> o !! i = Some (k, v0) -> is_a v0 = false ->
      accepts p v (set_state st_object_delim (set_json (put (top S ++ [i]) v (jp_json p)) (set_stack S p))).

Lemma accepts_state p v p' : accepts p v p' -> jp_state p ∈ value_states /\ jp_state p <> st_initial.
Proof. destruct 1 as [a [E|E] _|S i o k v0 E _ _ _ _]; rewrite E; (split; [position|done]). Qed.

Lemma load_member S i o k v0 p : load (top S) p = Ok (JObject o) -> o !! i = Some (k, v0) -> load (top S ++ [i]) p = Ok v0.
Proof. unfold load. intros H Ho. rewrite (load_snoc _ _ _ _ H). cbn. by rewrite Ho. Qed.

Lemma value_accepted p v p' bs : accepts p v p' -> is_a v = false -> is_o v = false -> value p v bs = Ok (Continue p' bs).
Proof.
  intros H Ha Ho. destruct H as [a Hs Hl|S i o k v0 Hs HS Hl Hi Hv0].
  - rewrite (value_array _ _ _ _ Hs Hl), Ha, Ho. done.
  - destruct (value_object p v bs _ _ _ Hs HS (load_member _ _ _ _ _ _ Hl Hi)) as (w & q & -> & _ & Hw).
    destruct (Hw Hv0) as [-> ->]. by rewrite Ha, Ho.
Qed.

Definition member_room (p : streaming_parser) : Z := if jp_state p =? st_object_value then 1 else 0.
Definition stack_size (p : streaming_parser) : Z := Z.of_nat (length (jp_stack p)).

(** Opening an array or object, and closing it when it holds [v]. *)
Lemma container_accepted p v p' v0 : accepts p v p' -> same_kind v0 v -> container v0 ->
  exists p1, (forall bs, value p v0 bs = Ok (Continue p1 bs)) /\ load (current p1) p1 = Ok v0
    /\ jp_state p1 = (if is_a v0 then st_array_initial else st_object_initial)
    /\ stack_size p1 = stack_size p + 1 - member_room p
    /\ forall p2 bs, jp_stack p2 = jp_stack p1 -> jp_json p2 = put (current p1) v (jp_json p1) ->
       close_value p2 bs = Ok (Continue (set_str (jp_str p2) p') bs).
Proof.
  intros H [Ka Ko] Hk. assert (is_a v0 || is_o v0 = true) as Hk' by (by destruct Hk as [-> | ->]; rewrite ?orb_true_r).
  destruct H as [a Hs Hl|S i o k w Hs HS Hl Hi Hw].
  - eexists. split; [intros bs; rewrite (value_array _ _ _ _ Hs Hl), Hk'; reflexivity|].
    set (j1 := put (current p) (JArray (a ++ [v0])) (jp_json p)).
    assert (load_path (current p) j1 = Ok (JArray (a ++ [v0]))) as Hl1 by (by eapply load_put).
    assert (child (JArray (a ++ [v0])) (length a) = Some v0) as Hc by (by apply list_lookup_middle).
    split; [unfold load; cbn; by rewrite (load_snoc _ _ _ _ Hl1), Hc|]. split; [done|].
    split; [unfold stack_size, member_room; cbn; destruct Hs as [-> | ->]; cbn; lia|].
    cbn [jp_stack jp_json set_state set_stack set_json current]. intros p2 bs E1 E2. unfold close_value. rewrite E1.
    rewrite (put_snoc _ _ _ _ _ _ Hl1 Hc) in E2. cbn [set_child] in E2. unfold j1 in E2. rewrite put_put in E2.
    replace (<[length a:=v]> (a ++ [v0])) with (a ++ [v]) in E2 by (rewrite insert_app_r_alt, Nat.sub_diag by lia; done).
    unfold load. cbn [jp_json set_stack current jp_stack]. fold (current p). rewrite E2, (load_put _ _ _ _ Hl). cbn [rbind res_bind is_a].
    do 2 f_equal. destruct p, p2. cbn in *. by subst.
  - pose proof (load_member _ _ _ _ _ _ Hl Hi) as Hlm.
    destruct (value_object p v0 [] _ _ _ Hs HS Hlm) as (w' & q & _ & _ & Hw'). destruct (Hw' Hw) as [-> ->]. clear Hw'.
    eexists. split.
    { intros bs. destruct (value_object p v0 bs _ _ _ Hs HS Hlm) as (w' & q & -> & _ & Hw'). destruct (Hw' Hw) as [-> ->]. rewrite Hk'. reflexivity. }
    cbn [jp_stack jp_json set_state set_stack set_json current jp_state]. rewrite app_nil_r. unfold load, current. cbn [jp_stack jp_json].
    split; [by eapply load_put|]. split; [done|]. split; [unfold stack_size, member_room; cbn; rewrite HS, Hs; cbn; lia|].
    intros p2 bs E1 E2. unfold close_value. rewrite E1. rewrite put_put in E2. unfold load, current. cbn [jp_json set_stack jp_stack].
    fold (top S). assert (child (JObject o) i = Some w) as Hc by (cbn; by rewrite Hi).
    rewrite E2, (put_snoc _ _ _ _ _ _ Hl Hc), (load_put _ _ _ _ Hl). cbn [rbind res_bind set_child is_a].
    do 2 f_equal. destruct p, p2. cbn in *. subst. by rewrite (put_snoc _ _ _ _ _ _ Hl Hc).
Qed.

(** ** Items *)

Definition spaces (s : bytes) : Prop := Forall (fun c => is_space c = true) s.

(** The text [f] writes of a value is taken wherever the value is accepted. *)
Definition reads (f : Json -> bytes) (j : Json) : Prop :=
  forall p p' rest, accepts p (reread j) p' -> stack_size p + height j <= 2047 + member_room p -> stops rest ->
  exists s, runs p (f j ++ rest) (set_str s p') rest.

(** The items of an array between their separators. *)
Definition array_text (sep ind : bytes) (f : Json -> bytes) : bool -> list Json -> bytes :=
  fix items (rest : bool) (a : list Json) : bytes :=
    match a with
    | [] => []
    | x :: a => (if rest then sep else []) ++ ind ++ f x ++ items true a
    end.

Definition object_text (sep ind colon : bytes) (f : Json -> bytes) : bool -> list (bytes * Json) -> bytes :=
  fix items (rest : bool) (o : list (bytes * Json)) : bytes :=
    match o with
    | [] => []
    | (k, v) :: o =>
      (if rest then sep else []) ++ ind ++ 34 :: encode_json k ++ 34 :: colon ++ f v ++ items true o
    end.

Lemma put_same path : forall j v, load_path path j = Ok v -> put path v j = j.
Proof.
  induction path as [|i path IH]; intros j v; cbn; [by intros [= ->]|]. destruct (child j i) as [c|] eqn:Hc; [|done].
  intros H. rewrite (IH _ _ H). destruct j as [| | | | | |a|o]; cbn in *; try done.
  - by rewrite list_insert_id.
  - f_equal. unfold set_item. apply list_eq. intros k. destruct (decide (i = k)) as [->|Hne]; [|by rewrite list_lookup_alter_ne].
    rewrite list_lookup_alter_eq. destruct (o !! k) as [[k' w]|]; [|done]. cbn in Hc. by injection Hc as ->.
Qed.

Section items.
Context (ind sp : bytes) (f : Json -> bytes) (Hind : spaces ind) (Hsp : spaces sp).

Lemma stops_array a tl : stops tl -> stops (array_text (44 :: sp) ind f true a ++ tl).
Proof. destruct a; [done|]. intros _. cbn. position. Qed.

Lemma comma_array p s : jp_state p = st_array_delim -> runs p (44 :: s) (set_state st_array_value p) s.
Proof. intros E. apply runs_step; [by rewrite E| |done]. unfold consume_step. by rewrite E. Qed.

Lemma array_read a : Forall (reads f) a -> forall first acc p tl,
  load (current p) p = Ok (JArray acc) -> jp_state p = (if first : bool then st_array_initial else st_array_delim) ->
  stack_size p + height (JArray a) <= 2048 -> (a <> [] -> stops tl) ->
  exists p2, runs p (array_text (44 :: sp) ind f (negb first) a ++ tl) p2 tl /\ jp_stack p2 = jp_stack p
    /\ jp_json p2 = put (current p) (JArray (acc ++ map reread a)) (jp_json p)
    /\ jp_state p2 = (if first && bool_decide (a = []) then st_array_initial else st_array_delim).
Proof using Hind Hsp.
  induction 1 as [|x a Hx _ IH]; intros first acc p tl Hl Hs Hh Ht.
  { exists p. split; [apply runs_refl|]. split; [done|]. cbn [map]. rewrite app_nil_r. split; [by rewrite put_same|]. by destruct first. }
  set (p1 := if first then p else set_state st_array_value p).
  assert (load (current p1) p1 = Ok (JArray acc) /\ jp_stack p1 = jp_stack p /\ jp_json p1 = jp_json p /\
    (jp_state p1 = st_array_initial \/ jp_state p1 = st_array_value)) as (Hl1 & Ek & Ej & Es).
  { unfold p1. destruct first; [auto|]. cbn. auto. }
  assert (0 <= jp_state p1) as H0 by (by destruct Es as [-> | ->]).
  assert (current p1 = current p) as Ec by (unfold current; by rewrite Ek).
  pose proof (accept_item p1 (reread x) acc Es Hl1) as Hacc. cbn [height] in Hh. pose proof (height_range (JArray a)) as Hh0. cbn [height] in Hh0.
  destruct (Hx _ _ (array_text (44 :: sp) ind f true a ++ tl) Hacc) as (s & Hrun); [|by apply stops_array, Ht|].
  { unfold stack_size, member_room in *. rewrite Ek. destruct Es as [-> | ->]; cbn [Z.eqb]; cbn in *; lia. }
  set (p' := set_str s _) in Hrun. destruct (IH false (acc ++ [reread x]) p' tl) as (p2 & Hr2 & Hk2 & Hj2 & Hs2).
  - unfold load. cbn [jp_json p' set_str set_state set_json current jp_stack]. eapply load_put. exact Hl1.
  - done.
  - unfold stack_size in *. cbn [jp_stack p' set_str set_state set_json]. rewrite Ek. cbn in Hh |- *. lia.
  - intros _. by apply Ht.
  - exists p2. split; [|split; [by rewrite Hk2|split; [|by destruct first]]].
    + cbn [array_text]. rewrite <- !app_assoc. eapply (runs_trans _ _ p1 (ind ++ f x ++ array_text (44 :: sp) ind f true a ++ tl)).
      { unfold p1. destruct first; cbn [negb app]; [apply runs_refl|].
        eapply runs_trans; [by apply comma_array|]. by apply runs_spaces. }
      eapply runs_trans; [by apply runs_spaces|]. eapply runs_trans; [exact Hrun|exact Hr2].
    + rewrite Hj2. cbn [jp_json p' set_str set_state set_json current jp_stack]. fold (current p1). rewrite put_put, Ec, Ej.
      cbn [map]. by rewrite <- app_assoc.
Qed.

Context (spc : bytes) (Hspc : spaces spc).

Lemma stops_object o tl : stops tl -> stops (object_text (44 :: sp) ind (58 :: spc) f true o ++ tl).
Proof. destruct o as [|[k v] o]; [done|]. intros _. cbn. position. Qed.

(** The parser behind a new key and its colon. *)
Definition behind_key (p : streaming_parser) (o : list (bytes * Json)) (k : bytes) : streaming_parser :=
  StreamingParser st_object_value ((current p ++ [length o]) :: jp_stack p) k
    (put (current p) (JObject (o ++ [(k, JNull)])) (jp_json p)).

Lemma key_read p o k s : jp_state p = st_object_initial \/ jp_state p = st_object_key -> load (current p) p = Ok (JObject o) ->
  k ∉ o.*1 -> text_string k -> runs p (34 :: encode_json k ++ 34 :: 58 :: spc ++ s) (behind_key p o k) s.
Proof using Hspc.
  intros Hs Hl Hk Ht. eapply runs_trans; [apply (runs_step p 34 _ (set_state st_object_colon (behind_key p o k)) (58 :: spc ++ s))|].
  - by destruct Hs as [-> | ->].
  - unfold consume_step. change (is_space 34) with false. cbn [Z.eqb Pos.eqb].
    assert (jp_state p <=? st_object_value = false) as -> by (by destruct Hs as [-> | ->]).
    assert ((jp_state p =? st_object_initial) || (jp_state p =? st_object_key) = true) as -> by (by destruct Hs as [-> | ->]).
    unfold string_object_key. rewrite consume_string_text; [|position|done|done]. rewrite rbind_Ok. cbn [jp_state set_str set_state].
    change (0 <=? st_object_colon) with true. change (Z.land st_object_colon st_stringpart =? 0) with true. cbn [andb].
    unfold load, current, store in *. cbn [jp_stack jp_json jp_str set_str set_state]. rewrite Hl, rbind_Ok.
    unfold get_insert, find_insert. cbn [to_object]. rewrite (proj2 (find_key_None _ _) Hk), (store_put _ _ _ _ Hl). done.
  - rewrite length_app. cbn [length]. lia.
  - eapply runs_trans; [apply (runs_step _ 58 (spc ++ s) (behind_key p o k) (spc ++ s)); [done|done|done]|]. by apply runs_spaces.
Qed.

Lemma accepts_behind p o k v : load (current p) p = Ok (JObject o) ->
  accepts (behind_key p o k) v
    (StreamingParser st_object_delim (jp_stack p) k (put (current p) (JObject (o ++ [(k, v)])) (jp_json p))).
Proof.
  intros Hl. set (j := put (current p) (JObject (o ++ [(k, JNull)])) (jp_json p)).
  assert (load_path (current p) j = Ok (JObject (o ++ [(k, JNull)]))) as Hj by (by eapply load_put).
  pose proof (accept_member (behind_key p o k) v (jp_stack p) (length o) (o ++ [(k, JNull)]) k JNull eq_refl eq_refl Hj
    ltac:(by apply list_lookup_middle) eq_refl) as H. cbn [behind_key jp_json] in H. fold j in H.
  replace (put (current p) (JObject (o ++ [(k, v)])) (jp_json p)) with (put (top (jp_stack p) ++ [length o]) v j); [exact H|].
  change (top (jp_stack p)) with (current p).
  rewrite (put_snoc _ _ _ _ _ JNull Hj) by (cbn; by rewrite list_lookup_middle). unfold j. rewrite put_put. cbn [set_child]. do 2 f_equal.
  unfold set_item. apply list_eq. intros i. destruct (decide (i = length o)) as [->|Hne].
  - rewrite list_lookup_alter_eq, !list_lookup_middle by done. done.
  - rewrite list_lookup_alter_ne by done. destruct (decide (i < length o)%nat) as [Hlt|Hge]; [by rewrite !lookup_app_l|].
    rewrite !lookup_ge_None_2; [done|rewrite length_app; cbn; lia..].
Qed.

Lemma object_read o : Forall (fun kv => text_string (fst kv) /\ reads f (snd kv)) o -> forall first acc p tl,
  NoDup (acc.*1 ++ o.*1) -> load (current p) p = Ok (JObject acc) ->
  jp_state p = (if first : bool then st_object_initial else st_object_delim) ->
  stack_size p + height (JObject o) <= 2048 -> stops tl ->
  exists p2, runs p (object_text (44 :: sp) ind (58 :: spc) f (negb first) o ++ tl) p2 tl /\ jp_stack p2 = jp_stack p
    /\ jp_json p2 = put (current p) (JObject (acc ++ map (fun kv => (fst kv, reread (snd kv))) o)) (jp_json p)
    /\ jp_state p2 = (if first && bool_decide (o = []) then st_object_initial else st_object_delim).
Proof using Hind Hsp Hspc.
  induction 1 as [|[k x] o [Hk Hx] _ IH]; intros first acc p tl Hnd Hl Hs Hh Ht.
  { exists p. split; [apply runs_refl|]. split; [done|]. cbn [map]. rewrite app_nil_r. split; [by rewrite put_same|]. by destruct first. }
  cbn [fst snd] in Hk, Hx. set (p0 := if first then p else set_state st_object_key p).
  assert (load (current p0) p0 = Ok (JObject acc) /\ jp_stack p0 = jp_stack p /\ jp_json p0 = jp_json p /\
    (jp_state p0 = st_object_initial \/ jp_state p0 = st_object_key)) as (Hl0 & Ek & Ej & Es).
  { unfold p0. destruct first; [auto|]. cbn. auto. }
  assert (0 <= jp_state p0) as H0 by (by destruct Es as [-> | ->]).
  assert (current p0 = current p) as Ec by (unfold current; by rewrite Ek).
  assert (k ∉ acc.*1) as Hnk.
  { apply NoDup_app in Hnd as (_ & Hd & _). intros Hin. apply (Hd k Hin). cbn. by left. }
  set (p1 := behind_key p0 acc k). cbn [height] in Hh. pose proof (height_range (JObject o)) as Hh0. cbn [height] in Hh0.
  pose proof (accepts_behind p0 acc k (reread x) Hl0) as Hacc. fold p1 in Hacc.
  destruct (Hx _ _ (object_text (44 :: sp) ind (58 :: spc) f true o ++ tl) Hacc) as (s & Hrun); [|by apply stops_object|].
  { unfold stack_size, member_room in *. cbn [p1 behind_key jp_stack jp_state]. rewrite Ek. cbn in *. lia. }
  set (p' := set_str s _) in Hrun. destruct (IH false (acc ++ [(k, reread x)]) p' tl) as (p2 & Hr2 & Hk2 & Hj2 & Hs2).
  - rewrite fmap_app, <- app_assoc. exact Hnd.
  - unfold load. eapply load_put. exact Hl0.
  - done.
  - unfold stack_size in *. cbn [jp_stack p' set_str]. rewrite Ek. cbn in Hh |- *. lia.
  - done.
  - exists p2. split; [|split; [by rewrite Hk2|split; [|by destruct first]]].
    + cbn [object_text]. rewrite <- !app_assoc. cbn [app]. rewrite <- !app_assoc. cbn [app]. rewrite <- !app_assoc.
      eapply (runs_trans _ _ p0 (ind ++ 34 :: encode_json k ++ 34 :: 58 :: spc ++ f x ++ object_text (44 :: sp) ind (58 :: spc) f true o ++ tl)).
      { unfold p0. destruct first; cbn [negb app]; [apply runs_refl|].
        eapply runs_trans; [apply (runs_step p 44 _ (set_state st_object_key p)); [by rewrite Hs|unfold consume_step; by rewrite Hs|done]|]. by apply runs_spaces. }
      eapply runs_trans; [by apply runs_spaces|]. eapply runs_trans; [by apply key_read|]. eapply runs_trans; [exact Hrun|exact Hr2].
    + rewrite Hj2. cbn [jp_json p' set_str current jp_stack]. fold (current p0). rewrite put_put, Ec, Ej.
      cbn [map]. by rewrite <- app_assoc.
Qed.
End items.

(** ** Values *)

Lemma accepts_str p v p' s : accepts p v p' -> accepts (set_str s p) v (set_str s p').
Proof.
  destruct 1 as [a Hs Hl|S i o k v0 Hs HS Hl Hi Hv].
  - exact (accept_item (set_str s p) v a Hs Hl).
  - exact (accept_member (set_str s p) v S i o k v0 Hs HS Hl Hi Hv).
Qed.

Lemma token_reads f j : token strtod (f j) (reread j) -> f j <> [] -> is_a (reread j) = false -> is_o (reread j) = false -> reads f j.
Proof.
  intros Ht Hne Ha Ho p p' rest Hacc _ Hr. destruct (accepts_state _ _ _ Hacc) as [Hs _].
  destruct (Ht p rest Hs Hr) as (c & bs & s & E & Hstep). exists s. rewrite E.
  rewrite (value_accepted _ _ _ _ (accepts_str _ _ _ s Hacc) Ha Ho) in Hstep.
  apply runs_step; [apply value_state_cases, Hs|exact Hstep|].
  destruct (f j) as [|c' t]; [done|]. injection E as -> <-. rewrite length_app. lia.
Qed.

(** An array or object: [open], the items, and [close]. *)
Lemma open_step p c v0 bs : (c, v0) = (91, JArray []) \/ (c, v0) = (123, JObject []) ->
  jp_state p ∈ value_states -> jp_state p <> st_initial -> stack_size p <> 2048 ->
  consume_step strtod true p c bs = value p v0 bs.
Proof.
  intros Hc Hs Hi Hd. unfold stack_size in Hd. destruct (value_state_cases _ Hs) as (_ & Hle & _).
  assert (forall again, open_value p again v0 c bs = value p v0 bs) as Ho.
  { intros again. unfold open_value. rewrite (proj2 (Z.ltb_ge _ _)) by lia. rewrite (proj2 (Z.eqb_neq _ max_depth)) by (unfold max_depth; lia).
    by rewrite (proj2 (Z.eqb_neq _ _) Hi). }
  destruct Hc as [[= -> ->]|[= -> ->]]; unfold consume_step; apply Ho.
Qed.

Lemma close_step p c bs : (c, jp_state p) ∈ [(93, st_array_initial); (93, st_array_delim); (125, st_object_initial); (125, st_object_delim)] ->
  0 <= jp_state p /\ consume_step strtod true p c bs = close_value p bs.
Proof.
  intros H. rewrite !elem_of_cons in H. unfold consume_step.
  destruct H as [[= -> ->]|[[= -> ->]|[[= -> ->]|[[= -> ->]|H]]]]; [done..|]. by apply not_elem_of_nil in H.
Qed.

Section layout.
Context (double_text : Z -> bytes) (m : unparse_manipulator).

Definition indent_of (d : Z) (j : Json) (d' : Z) : bytes :=
  if (d <? indent_depth m) && unparse_is_complex j then unparse_indent m d' else [].

Lemma indent_spaces d j d' : spaces (indent_of d j d').
Proof.
  unfold indent_of, spaces. destruct (_ && _); [|constructor]. unfold unparse_indent. constructor; [done|].
  apply Forall_app. split; by apply Forall_replicate.
Qed.

Lemma separators_spaces e : exists sp1 sp2, separators m e = (58 :: sp1, 44 :: sp2) /\ spaces sp1 /\ spaces sp2.
Proof.
  unfold separators, spaces. destruct e; [|destruct (space_separator m)]; (eexists _, _; split; [done|split; by repeat constructor]).
Qed.

Definition newline : bytes := if newline_terminator m then [10] else [].

Lemma newline_at (d : Z) : (if (d =? 0) && newline_terminator m then [10] else []) = if d =? 0 then newline else [].
Proof. unfold newline. by destruct (d =? 0). Qed.

(** The text of an array or object, with its separators and spaces by name. *)
Lemma unparse_array d a : exists sp ind1 ind2, spaces sp /\ spaces ind1 /\ spaces ind2 /\ (ind2 = [] \/ exists t, ind2 = 10 :: t) /\
  hard_unparse double_text m d (JArray a)
    = (91 :: array_text (44 :: sp) ind1 (hard_unparse double_text m (d + 1)) false a ++ ind2 ++ [93]) ++ (if d =? 0 then newline else []).
Proof.
  destruct (separators_spaces ((d <? indent_depth m) && unparse_is_complex (JArray a))) as (sp1 & sp2 & Hs & H1 & H2).
  exists sp2, (indent_of d (JArray a) (d + 1)), (indent_of d (JArray a) d). split; [done|]. split; [apply indent_spaces|]. split; [apply indent_spaces|].
  split; [unfold indent_of, unparse_indent; destruct (_ && _); eauto|].
  rewrite <- newline_at.
  change (44 :: sp2) with (snd (58 :: sp1, 44 :: sp2)). rewrite <- Hs. reflexivity.
Qed.

Lemma unparse_object d o : exists sp1 sp2 ind1 ind2, spaces sp1 /\ spaces sp2 /\ spaces ind1 /\ spaces ind2 /\ (ind2 = [] \/ exists t, ind2 = 10 :: t) /\
  hard_unparse double_text m d (JObject o)
    = (123 :: object_text (44 :: sp2) ind1 (58 :: sp1) (hard_unparse double_text m (d + 1)) false o ++ ind2 ++ [125]) ++ (if d =? 0 then newline else []).
Proof.
  destruct (separators_spaces ((d <? indent_depth m) && unparse_is_complex (JObject o))) as (sp1 & sp2 & Hs & H1 & H2).
  exists sp1, sp2, (indent_of d (JObject o) (d + 1)), (indent_of d (JObject o) d). split; [done|]. split; [done|].
  split; [apply indent_spaces|]. split; [apply indent_spaces|].
  split; [unfold indent_of, unparse_indent; destruct (_ && _); eauto|].
  rewrite <- newline_at.
  change (44 :: sp2) with (snd (58 :: sp1, 44 :: sp2)). change (58 :: sp1) with (fst (58 :: sp1, 44 :: sp2)) at 2. rewrite <- Hs. reflexivity.
Qed.

(** From behind the last item to behind the closing bracket. *)
Lemma runs_close p2 p' c ind rest : spaces ind ->
  (c, jp_state p2) ∈ [(93, st_array_initial); (93, st_array_delim); (125, st_object_initial); (125, st_object_delim)] ->
  close_value p2 rest = Ok (Continue p' rest) -> runs p2 (ind ++ c :: rest) p' rest.
Proof.
  intros Hi Hc Hv. destruct (close_step p2 c rest Hc) as [H0 Hs]. eapply runs_trans; [by apply runs_spaces|].
  apply runs_step; [done|by rewrite Hs|done].
Qed.

Lemma stops_close ind c rest : ind = [] \/ (exists t, ind = 10 :: t) -> c = 93 \/ c = 125 -> stops (ind ++ c :: rest).
Proof. intros [->|[t ->]] [->| ->]; cbn; position. Qed.

Lemma array_reads d a : d <> 0 -> Forall (reads (hard_unparse double_text m (d + 1))) a ->
  reads (hard_unparse double_text m d) (JArray a).
Proof.
  intros Hd Ha p p' rest Hacc Hh Hr. destruct (accepts_state _ _ _ Hacc) as [Hs Hi].
  destruct (container_accepted p _ p' (JArray []) Hacc) as (p1 & Hopen & Hl1 & Hs1 & Hk1 & Hclose); [done|by left|].
  destruct (unparse_array d a) as (sp & ind1 & ind2 & Hsp & Hi1 & Hi2 & Hi2' & ->). rewrite (proj2 (Z.eqb_neq d 0) Hd), app_nil_r.
  assert (1 <= height (JArray a)) as Hh0 by (by apply height_container; left).
  destruct (array_read ind1 sp _ Hi1 Hsp a Ha true [] p1 (ind2 ++ 93 :: rest) Hl1 Hs1) as (p2 & Hrun & Hk2 & Hj2 & Hs2);
    [lia|intros _; apply stops_close; auto|]. exists (jp_str p2). cbn [app]. rewrite <- !app_assoc. cbn [app].
  eapply runs_trans; [apply runs_step; [apply value_state_cases, Hs| |]|].
  - rewrite (open_step p 91 (JArray [])); [apply Hopen|by left|done|done|]. unfold member_room in *. destruct (_ =? _); lia.
  - done.
  - eapply runs_trans; [exact Hrun|]. apply runs_close; [done| |by apply Hclose]. rewrite Hs2. destruct (_ && _); position.
Qed.

Lemma object_reads d o : d <> 0 -> NoDup o.*1 -> Forall (fun kv => text_string (fst kv) /\ reads (hard_unparse double_text m (d + 1)) (snd kv)) o ->
  reads (hard_unparse double_text m d) (JObject o).
Proof.
  intros Hd Hnd Ho p p' rest Hacc Hh Hr. destruct (accepts_state _ _ _ Hacc) as [Hs Hi].
  destruct (container_accepted p _ p' (JObject []) Hacc) as (p1 & Hopen & Hl1 & Hs1 & Hk1 & Hclose); [done|by right|].
  destruct (unparse_object d o) as (sp1 & sp2 & ind1 & ind2 & Hsp1 & Hsp2 & Hi1 & Hi2 & Hi2' & ->). rewrite (proj2 (Z.eqb_neq d 0) Hd), app_nil_r.
  assert (1 <= height (JObject o)) as Hh0 by (by apply height_container; right).
  destruct (object_read ind1 sp2 _ Hi1 Hsp2 sp1 Hsp1 o Ho true [] p1 (ind2 ++ 125 :: rest) Hnd Hl1 Hs1) as (p2 & Hrun & Hk2 & Hj2 & Hs2);
    [lia|apply stops_close; auto|]. exists (jp_str p2). cbn [app]. rewrite <- !app_assoc. cbn [app].
  eapply runs_trans; [apply runs_step; [apply value_state_cases, Hs| |]|].
  - rewrite (open_step p 123 (JObject [])); [apply Hopen|by right|done|done|]. unfold member_room in *. destruct (_ =? _); lia.
  - done.
  - eapply runs_trans; [exact Hrun|]. apply runs_close; [done| |by apply Hclose]. rewrite Hs2. destruct (_ && _); position.
Qed.

Lemma decimal_nonempty x : - 2 ^ 63 < x < 2 ^ 64 -> decimal x <> [].
Proof. intros Hx. destruct (integer_read strtod x [] Hx I) as (_ & c & t & -> & _). done. Qed.

(** The tokens of the values that are none of these. *)
Lemma scalar_token d j : readable j -> is_a j = false -> is_o j = false ->
  exists text, hard_unparse double_text m d j = text ++ (if d =? 0 then newline else []) /\ text <> []
    /\ token strtod text (reread j) /\ is_a (reread j) = false /\ is_o (reread j) = false.
Proof.
  rewrite <- newline_at. intros Hr Ha Ho. destruct j as [|b|x|x|x|s|a|o]; try done; cbn [readable reread hard_unparse] in *.
  - exists text_null. split; [done|]. split; [done|]. split; [apply null_token|done].
  - exists (if b then text_true else text_false). split; [done|]. split; [by destruct b|]. split; [apply bool_token|done].
  - exists (decimal x). split; [done|]. split; [apply decimal_nonempty; lia|]. split; [apply integer_token; lia|].
    unfold reread_int. by destruct (x <? 10).
  - exists (decimal x). split; [done|]. split; [apply decimal_nonempty; lia|]. split; [apply integer_token; lia|].
    unfold reread_int. by destruct (x <? 10).
  - exists (34 :: encode_json s ++ [34]). split; [done|]. split; [done|]. split; [by apply string_token|done].
Qed.

Lemma unparse_reads j : forall d, 1 <= d -> readable j -> reads (hard_unparse double_text m d) j.
Proof.
  assert (forall j d, 1 <= d -> readable j -> is_a j = false -> is_o j = false -> reads (hard_unparse double_text m d) j) as Hscalar.
  { intros j' d Hd Hr Ha Ho. destruct (scalar_token d j' Hr Ha Ho) as (text & E & Hne & Ht & Ha' & Ho').
    rewrite (proj2 (Z.eqb_neq d 0)), app_nil_r in E by lia. apply token_reads; by rewrite ?E. }
  induction j as [|b|x|x|x|s|a IH|o IH] using json_ind'; intros d Hd Hr; [by apply Hscalar..| |].
  - apply array_reads; [lia|]. cbn in Hr. rewrite fold_and_Forall in Hr. rewrite Forall_forall in IH, Hr |- *.
    intros x Hx. apply IH; [done|lia|by apply Hr].
  - destruct Hr as [Hnd Hr]. rewrite (fold_and_Forall (fun kv => text_string (fst kv) /\ readable (snd kv))) in Hr.
    apply object_reads; [lia|done|]. rewrite Forall_forall in IH, Hr |- *.
    intros x Hx. destruct (Hr x Hx). split; [done|]. apply IH; [done|lia|done].
Qed.

(** ** The whole text *)

Lemma runs_return p s p2 c bs p' rest : runs p s p2 (c :: bs) -> 0 <= jp_state p2 ->
  consume_step strtod true p2 c bs = Ok (Return p' rest) -> consume_loop strtod (length s) true p s = Ok (p', rest).
Proof.
  intros Hr H0 Hs. destruct (Hr _ (le_n _)) as ([|fuel] & Hf & ->); [cbn in Hf; lia|]. cbn [consume_loop].
  rewrite (proj2 (Z.ltb_ge _ _) H0). by rewrite Hs, rbind_Ok.
Qed.

(** The end of the whole array or object. *)
Lemma root_close p s p2 c ind rest : runs p s p2 (ind ++ c :: rest) -> spaces ind -> jp_stack p2 = [] ->
  (c, jp_state p2) ∈ [(93, st_array_initial); (93, st_array_delim); (125, st_object_initial); (125, st_object_delim)] ->
  consume_loop strtod (length s) true p s = Ok (set_state st_final p2, rest).
Proof.
  intros Hr Hi Hk Hc. destruct (close_step p2 c rest Hc) as [H0 Hs].
  eapply runs_return; [eapply runs_trans; [exact Hr|by apply runs_spaces]|done|]. rewrite Hs. unfold close_value. by rewrite Hk.
Qed.

Lemma root_open c v0 s : (c, v0) = (91, JArray []) \/ (c, v0) = (123, JObject []) ->
  runs new_streaming_parser (c :: s) (StreamingParser (if is_a v0 then st_array_initial else st_object_initial) [] [] v0) s.
Proof. intros [[= -> ->]|[= -> ->]]; by apply runs_step. Qed.

Lemma newline_stops : stops newline.
Proof. unfold newline. destruct (newline_terminator m); [cbn; position|done]. Qed.

Lemma root_read j : readable j -> height j <= 2048 ->
  exists p', consume strtod new_streaming_parser (unparse double_text m j) true = Ok (p', newline) /\ jp_state p' = st_final /\ jp_json p' = reread j.
Proof.
  intros Hr Hh. unfold consume, unparse. cbn [jp_state new_streaming_parser]. change ((0 <=? st_initial) && _) with false. cbn iota.
  assert (is_a j = false -> is_o j = false -> exists p', consume_loop strtod (length (hard_unparse double_text m 0 j)) true new_streaming_parser
    (hard_unparse double_text m 0 j) = Ok (p', newline) /\ jp_state p' = st_final /\ jp_json p' = reread j) as Hscalar.
  { intros Ha Ho. destruct (scalar_token 0 j Hr Ha Ho) as (text & -> & _ & Ht & Ha' & Ho'). cbn [Z.eqb].
    destruct (Ht new_streaming_parser newline ltac:(position) newline_stops) as (c & bs & s & -> & Hs).
    exists (StreamingParser st_final [] s (reread j)). split; [|done]. eapply runs_return; [apply runs_refl|done|]. rewrite Hs.
    unfold value. cbn. by rewrite Ha', Ho'. }
  destruct j as [|b|x|x|x|s|a|o]; [by apply Hscalar..| |]; clear Hscalar.
  - destruct (unparse_array 0 a) as (sp & ind1 & ind2 & Hsp & Hi1 & Hi2 & Hi2' & ->). cbn [Z.eqb app Z.add]. rewrite <- !app_assoc. cbn [app].
    assert (Forall (reads (hard_unparse double_text m 1)) a) as Ha.
    { cbn in Hr. rewrite fold_and_Forall in Hr. eapply Forall_impl; [exact Hr|]. intros x Hx. by apply unparse_reads. }
    destruct (array_read ind1 sp _ Hi1 Hsp a Ha true [] (StreamingParser st_array_initial [] [] (JArray [])) (ind2 ++ 93 :: newline))
      as (p2 & Hrun & Hk2 & Hj2 & Hs2); [done|done|done|intros _; apply stops_close; auto|]. exists (set_state st_final p2).
    split; [|split; [done|exact Hj2]]. eapply root_close; [eapply runs_trans; [by apply (root_open 91 (JArray [])); left|exact Hrun]|done|done|].
    rewrite Hs2. destruct (_ && _); position.
  - destruct (unparse_object 0 o) as (sp1 & sp2 & ind1 & ind2 & Hsp1 & Hsp2 & Hi1 & Hi2 & Hi2' & ->). cbn [Z.eqb app Z.add]. rewrite <- !app_assoc. cbn [app].
    destruct Hr as [Hnd Hr]. rewrite (fold_and_Forall (fun kv => text_string (fst kv) /\ readable (snd kv))) in Hr.
    assert (Forall (fun kv => text_string (fst kv) /\ reads (hard_unparse double_text m 1) (snd kv)) o) as Ho.
    { eapply Forall_impl; [exact Hr|]. intros x [H1 H2]. split; [done|]. by apply unparse_reads. }
    destruct (object_read ind1 sp2 _ Hi1 Hsp2 sp1 Hsp1 o Ho true [] (StreamingParser st_object_initial [] [] (JObject [])) (ind2 ++ 125 :: newline))
      as (p2 & Hrun & Hk2 & Hj2 & Hs2); [done|done|done|done|apply stops_close; auto|]. exists (set_state st_final p2).
    split; [|split; [done|exact Hj2]]. eapply root_close; [eapply runs_trans; [by apply (root_open 123 (JObject [])); right|exact Hrun]|done|done|].
    rewrite Hs2. destruct (_ && _); position.
Qed.

(** C32: the text of a value, in any of the unparser's layouts (indented or not, with
    spaces or not, with a newline at its end), is parsed back into the value: for
    values of null, truths, integers other than -2^63, strings of UTF-8 text without
    NUL and the line separators U+2028 and U+2029, arrays, and objects whose keys
    are such strings and differ, nested up to the parser's limit.  An integer keeps
    its value; those of more than one digit that are not negative come back
    unsigned.  Doubles and other strings are not covered. *)
Theorem text_roundtrip j : readable j -> height j <= 2048 ->
  assign_parse strtod (unparse double_text m j) = Ok (Some (reread j)).
Proof.
  intros Hr Hh. unfold assign_parse. destruct (root_read j Hr Hh) as (p' & -> & Hs & Hj). rewrite rbind_Ok.
  unfold success. rewrite Hs, Hj. unfold newline. by destruct (newline_terminator m).
Qed.
End layout.

(** ** The limit on nesting *)

(** An array or object that is just open, and empty. *)
Definition opened (v0 : Json) (n : Z) (p : streaming_parser) : Prop :=
  load (current p) p = Ok v0 /\ jp_state p = (if is_a v0 then st_array_initial else st_object_initial) /\ stack_size p = n.

Lemma open_runs p v p' c v0 s : accepts p v p' -> same_kind v0 v -> (c, v0) = (91, JArray []) \/ (c, v0) = (123, JObject []) ->
  stack_size p <> 2048 -> exists p1, runs p (c :: s) p1 s /\ opened v0 (stack_size p + 1 - member_room p) p1.
Proof.
  intros Hacc Hk Hc Hn. destruct (accepts_state _ _ _ Hacc) as [Hs Hi].
  destruct (container_accepted p v p' v0 Hacc Hk) as (p1 & Ho & Hl & Hst & Hsz & _).
  { destruct Hc as [[= -> ->]|[= -> ->]]; [by left|by right]. }
  exists p1. split; [|by split]. apply runs_step; [apply value_state_cases, Hs| |done]. by rewrite (open_step p c v0), Ho.
Qed.

Lemma nested_arrays k s : (k <= 2048)%nat -> exists p, runs new_streaming_parser (replicate (S k) 91 ++ s) p s /\ opened (JArray []) (Z.of_nat k) p.
Proof.
  intros Hk. revert s. induction k as [|k IH]; intros s.
  - exists (StreamingParser st_array_initial [] [] (JArray [])). split; [|done]. apply (root_open 91 (JArray [])). by left.
  - destruct (IH ltac:(lia) (91 :: s)) as (p & Hr & Hl & Hs & Hn).
    destruct (open_runs p (JArray []) _ 91 (JArray []) s (accept_item p (JArray []) [] (or_introl Hs) Hl)) as (p1 & Hr1 & Ho); [done|by left|lia|].
    exists p1. split.
    + rewrite replicate_S_end, <- app_assoc. eapply runs_trans; [exact Hr|exact Hr1].
    + unfold member_room in Ho. rewrite Hs in Ho. cbn in Ho. replace (Z.of_nat (S k)) with (stack_size p + 1 - 0) by lia. exact Ho.
Qed.

(** Objects in the item of the empty key, each in the one before. *)
Lemma nested_objects n : forall p k s, opened (JObject []) k p -> 2048 <= k ->
  exists p', runs p (concat (replicate n [34; 34; 58; 123]) ++ s) p' s /\ opened (JObject []) (k + Z.of_nat n) p'.
Proof.
  induction n as [|n IH]; intros p k s Hp Hk.
  - exists p. split; [apply runs_refl|]. by rewrite Z.add_0_r.
  - cbn [replicate concat]. destruct Hp as (Hl & Hs & Hn).
    assert (runs p (34 :: 34 :: 58 :: 123 :: concat (replicate n [34; 34; 58; 123]) ++ s) (behind_key p [] [])
      (123 :: concat (replicate n [34; 34; 58; 123]) ++ s)) as Hkey.
    { apply (key_read [] ltac:(constructor) p [] [] (123 :: concat (replicate n [34; 34; 58; 123]) ++ s)); [by left|done|apply not_elem_of_nil|by exists []]. }
    destruct (open_runs _ (JObject []) _ 123 (JObject []) (concat (replicate n [34; 34; 58; 123]) ++ s) (accepts_behind p [] [] (JObject []) Hl))
      as (p1 & Hr1 & Ho); [done|by right|unfold stack_size in *; cbn [behind_key jp_stack length]; lia|].
    replace (stack_size (behind_key p [] []) + 1 - member_room (behind_key p [] [])) with (k + 1) in Ho
      by (unfold stack_size, member_room in *; cbn [behind_key jp_stack jp_state length]; cbn; lia).
    destruct (IH p1 (k + 1) s Ho ltac:(lia)) as (p' & Hr' & Ho'). exists p'. split.
    + cbn [app]. eapply runs_trans; [exact Hkey|]. eapply runs_trans; [exact Hr1|exact Hr'].
    + by replace (k + Z.of_nat (S n)) with (k + 1 + Z.of_nat n) by lia.
Qed.

Lemma runs_end p : 0 <= jp_state p -> forall s, runs new_streaming_parser s p [] -> consume strtod new_streaming_parser s true = Ok (p, []).
Proof.
  intros H0 s Hr. unfold consume. cbn [jp_state new_streaming_parser]. change ((0 <=? st_initial) && _) with false. cbn iota.
  destruct (Hr _ (le_n _)) as ([|fuel] & _ & ->); cbn [consume_loop]; by rewrite (proj2 (Z.ltb_ge _ _) H0).
Qed.

(** C27: the parser's limit on nesting is tested for equality where an array or
    object opens.  It stops arrays: the one that would be number 2050 is an error.
    But the places of an object's items are on the stack too and are not counted
    when they are pushed: an object opened with 2047 places on the stack passes the
    limit with its first key, and from there on objects nest to any depth. *)
Theorem nesting_limit :
  (exists p, consume strtod new_streaming_parser (replicate 2050 91) true = Ok (p, [91]) /\ error p = true)
  /\ forall n, exists p, consume strtod new_streaming_parser (replicate 2048 91 ++ 123 :: concat (replicate n [34; 34; 58; 123])) true = Ok (p, [])
     /\ error p = false /\ Z.of_nat (length (jp_stack p)) = max_depth + Z.of_nat n.
Proof.
  split.
  - destruct (nested_arrays 2048 [91] (le_n _)) as (p & Hr & Hl & Hs & Hn). exists (set_state st_error p). split; [|done].
    rewrite (replicate_S_end 2049). unfold consume. cbn [jp_state new_streaming_parser]. change ((0 <=? st_initial) && _) with false. cbn iota.
    eapply runs_return; [exact Hr|by rewrite Hs|]. unfold consume_step. change (is_space 91) with false. cbn [Z.eqb Pos.eqb].
    unfold open_value. rewrite Hs. change (st_object_value <? st_array_initial) with false. cbn iota. unfold stack_size in Hn. by rewrite Hn.
  - intros n. set (s := concat _). destruct (nested_arrays 2047 (123 :: s) ltac:(lia)) as (p & Hr & Hl & Hs & Hn).
    destruct (open_runs p (JObject []) _ 123 (JObject []) s (accept_item p (JObject []) [] (or_introl Hs) Hl)) as (p1 & Hr1 & Ho); [done|by right|lia|].
    unfold member_room in Ho. rewrite Hs, Hn in Ho. destruct (nested_objects n p1 _ [] Ho) as (p2 & Hr2 & Hl2 & Hs2 & Hn2); [done|].
    exists p2. rewrite app_nil_r in Hr2. split; [|split; [unfold error; by rewrite Hs2|]].
    + apply runs_end; [by rewrite Hs2|]. eapply runs_trans; [exact Hr|]. eapply runs_trans; [exact Hr1|exact Hr2].
    + unfold stack_size in Hn2. rewrite Hn2. unfold max_depth. cbn. lia.
Qed.
End runs.

(** ** Texts that are misread *)

(** What the parser makes of some texts, where doubles read as zero. *)
Definition parse_text (s : bytes) : res (option Json) := assign_parse (fun _ => 0) s.
Definition quoted (s : bytes) : bytes := 34 :: s ++ [34].

(** The line separator U+2028 is written as an escape and comes back as two bytes
    that are no character. *)
Example line_separator_misread :
  unparse (fun _ => []) default_manipulator (JString [0xE2; 0x80; 0xA8]) = quoted [92; 117; 50; 48; 50; 56]
  /\ parse_text (quoted [92; 117; 50; 48; 50; 56]) = Ok (Some (JString [0xC0; 0xA8])).
Proof. by vm_compute. Qed.

(** NUL is written as an escape that the parser refuses. *)
Example nul_refused :
  unparse (fun _ => []) default_manipulator (JString [0]) = quoted [92; 117; 48; 48; 48; 48]
  /\ parse_text (quoted [92; 117; 48; 48; 48; 48]) = Ok None.
Proof. by vm_compute. Qed.

(** A pair of surrogates is refused when the second is in small letters. *)
Example small_surrogate_refused :
  parse_text (quoted [92; 117; 68; 56; 51; 68; 92; 117; 68; 69; 48; 48]) = Ok (Some (JString [0xF0; 0x9F; 0x98; 0x80]))
  /\ parse_text (quoted [92; 117; 100; 56; 51; 100; 92; 117; 100; 101; 48; 48]) = Ok None.
Proof. by vm_compute. Qed.

(** An item given twice replaces the first, but one behind an array is added to it. *)
Example repeated_key_merged :
  parse_text (123 :: quoted [97] ++ [58; 49; 44] ++ quoted [97] ++ [58; 50; 125]) = Ok (Some (JObject [([97], JInt 2)]))
  /\ parse_text (123 :: quoted [97] ++ [58; 91; 49; 93; 44] ++ quoted [97] ++ [58; 50; 125]) = Ok (Some (JObject [([97], JArray [JInt 1; JInt 2])])).
Proof. by vm_compute. Qed.

(** Numbers without digits before the point or the exponent are taken. *)
Example number_without_digits :
  parse_text [45; 46; 53] = Ok (Some (JDouble 0)) /\ parse_text [45; 101; 53] = Ok (Some (JDouble 0)).
Proof. by vm_compute. Qed.

(** One character of space may follow the value, not two. *)
Example spaces_behind : parse_text [91; 93; 10] = Ok (Some (JArray [])) /\ parse_text [91; 93; 13; 10] = Ok None.
Proof. by vm_compute. Qed.

(** 2^64 + 1 reads as 1. *)
Example integer_wraps : parse_text (decimal (2 ^ 64 + 1)) = Ok (Some (JUnsigned 1)).
Proof. by vm_compute. Qed.

Lemma text_roundtrip_witness :
  let j := JObject [([107; 0xC3; 0xA9], JArray [JInt (-5); JUnsigned 7; JInt 123; JNull; JBool false]); ([], JString [10; 34; 0xE2; 0x82; 0xAC])] in
  assign_parse (fun _ => 0) (unparse (fun _ => []) (UnparseManipulator 2 4 true true) j)
  = Ok (Some (JObject [([107; 0xC3; 0xA9], JArray [JInt (-5); JInt 7; JUnsigned 123; JNull; JBool false]); ([], JString [10; 34; 0xE2; 0x82; 0xAC])])).
Proof.
  cbn zeta. set (j := JObject _). apply (text_roundtrip (fun _ => 0) (fun _ => []) (UnparseManipulator 2 4 true true) j).
  - split; [by refine (bool_decide_unpack _ _)|]. cbn. repeat split; try lia.
    + exists [[107]; [0xC3; 0xA9]]. split; [done|]. constructor; [constructor; lia|]. constructor; [constructor; unfold cont_byte; lia|constructor].
    + by exists [].
    + exists [[10]; [34]; [0xE2; 0x82; 0xAC]]. split; [done|]. constructor; [constructor; lia|]. constructor; [constructor; lia|].
      constructor; [constructor; unfold cont_byte; lia|constructor].
  - by vm_compute.
Defined.
