(* ===== verification/JsonObjectFacts.v ===== *)
(** * The hash table of a JSON object refines its list of pairs

    The chains of the buckets as lists, the invariant of the table, and the
    operations on the table against those on the list of live items. *)

From S2P Require Export JsonObject.

#[local] Open Scope Z_scope.
#[local] Open Scope lhm_scope.

(** ** Live items *)

Definition items_of (os : list ObjectItem) : list (bytes * Json) := omap oi_v os.
Definition items (o : ObjectJson) : list (bytes * Json) := items_of (oj_os o).

Definition key_of (os : list ObjectItem) (p : nat) : option bytes :=
  it ← os !! p; fst <$> oi_v it.

Lemma key_of_bound os p key : key_of os p = Some key -> (p < length os)%nat.
Proof. unfold key_of. destruct (os !! p) eqn:E; [|done]. intros _. by eapply lookup_lt_Some. Qed.

Lemma key_at_of o p key : key_of (oj_os o) p = Some key -> key_at o (Z.of_nat p) = Ok key.
Proof.
  unfold key_of, key_at, item_v, item, aget. rewrite (proj2 (Z.ltb_ge _ _)), Nat2Z.id by lia.
  destruct (oj_os o !! p) as [[[[k v]|] nx]|]; cbn; [|done..]. by intros [= ->].
Qed.

(** Only the pairs matter for the keys and the items. *)
Lemma key_of_pairs (os os' : list ObjectItem) p : oi_v <$> os = oi_v <$> os' -> key_of os p = key_of os' p.
Proof.
  intros H. assert (forall l : list ObjectItem, key_of l p = (v ← (oi_v <$> l) !! p; fst <$> v)) as E.
  { intros l. unfold key_of. rewrite list_lookup_fmap. by destruct (l !! p). }
  by rewrite !E, H.
Qed.

Lemma items_of_pairs os : items_of os = omap id (oi_v <$> os).
Proof. unfold items_of. induction os as [|[[v|] nx] os IH]; cbn; [done| |]; by rewrite <- IH. Qed.

Lemma items_of_app os os' : items_of (os ++ os') = items_of os ++ items_of os'.
Proof. apply omap_app. Qed.

Lemma pairs_next (os : list ObjectItem) p it x : os !! p = Some it -> oi_v <$> <[p := Item (oi_v it) x]> os = oi_v <$> os.
Proof. intros H. rewrite list_fmap_insert. cbn. apply list_insert_id. by rewrite list_lookup_fmap, H. Qed.

(** ** Chains *)

(** The positions that follow one another from the index [h]. *)
Inductive chain (os : list ObjectItem) : Z -> list nat -> Prop :=
  | chain_nil : chain os (-1) []
  | chain_cons p it l : os !! p = Some it -> chain os (oi_next it) l -> chain os (Z.of_nat p) (p :: l).

(** The value of a link in front of a chain. *)
Lemma chain_head os h l : chain os h l -> h = match l with [] => -1 | p :: _ => Z.of_nat p end.
Proof. by destruct 1. Qed.

Lemma chain_bound os h l p : chain os h l -> p ∈ l -> (p < length os)%nat.
Proof.
  induction 1 as [|q it l Hq _ IH]; [by intros ?%not_elem_of_nil|]. intros [->|Hp]%elem_of_cons; [by eapply lookup_lt_Some|auto].
Qed.

Lemma chain_length os h l : chain os h l -> NoDup l -> (length l <= length os)%nat.
Proof.
  intros H Hd. rewrite <- (length_seq (length os) 0). apply submseteq_length, NoDup_submseteq; [done|].
  intros p Hp. apply elem_of_seq. pose proof (chain_bound _ _ _ _ H Hp). lia.
Qed.

(** Items outside a chain do not matter. *)
Lemma chain_agree os os' h l : chain os h l -> (forall p, p ∈ l -> os' !! p = os !! p) -> chain os' h l.
Proof.
  induction 1 as [|p it l Hp H IH]; intros Hl; [constructor|]. econstructor; [rewrite Hl by set_solver; eassumption|].
  apply IH. set_solver.
Qed.

(** Only the links matter. *)
Lemma chain_app_os os os' h l : chain os h l -> chain (os ++ os') h l.
Proof.
  intros H. eapply chain_agree; [done|]. intros p Hp. pose proof (chain_bound _ _ _ _ H Hp). by rewrite lookup_app_l.
Qed.

Lemma chain_insert os h l p it : chain os h l -> p ∉ l -> chain (<[p := it]> os) h l.
Proof. intros H Hp. eapply chain_agree; [done|]. intros q Hq. apply list_lookup_insert_ne. congruence. Qed.

(** ** The invariant *)

(** [h] starts the chain of the items from position [i] on whose keys fall in
    bucket [b]. *)
Definition bucket_chain (i : nat) (o : ObjectJson) (b : Z) (h : Z) (l : list nat) : Prop :=
  chain (oj_os o) h l /\ NoDup l /\
  forall p, p ∈ l <-> (i <= p)%nat /\ exists key, key_of (oj_os o) p = Some key /\ bucket o key = b.

Definition hashed (i : nat) (o : ObjectJson) : Prop :=
  forall b h, oj_hash o !! b = Some h -> exists l, bucket_chain i o (Z.of_nat b) h l.

Record object_wf (o : ObjectJson) : Prop := {
  wf_hash : if bool_decide (oj_hash o = []) then oj_os o = [] else exists k, length (oj_hash o) = (2 ^ k)%nat;
  wf_hashed : hashed 0 o;
  wf_live : Forall (fun it => if oi_v it is Some _ then -1 <= oi_next it else oi_next it = -2) (oj_os o);
  wf_keys : NoDup (items o).*1;
  wf_size : oj_size o = Z.of_nat (length (items o));
  wf_capacity : oj_n o <= oj_capacity o
}.

Lemma new_object_wf : object_wf new_object.
Proof. split; cbn; try done; constructor. Qed.

(** A key's bucket is in the array. *)
Lemma hashcode_range s : 0 <= hashcode s.
Proof.
  unfold hashcode. destruct s; [done|]. destruct (hash_words _ _) as [h r]. unfold avalanche. cbv zeta.
  apply Word.wrap_range. lia.
Qed.

Lemma bucket_range o key : oj_hash o <> [] -> 0 <= bucket o key < Z.of_nat (length (oj_hash o)).
Proof.
  intros Hh. pose proof (hashcode_range key) as Hk. unfold bucket, bucket_of, Word.subw.
  destruct (oj_hash o) as [|h t]; [done|]. set (n := Z.of_nat (length (h :: t))). assert (0 < n) by (unfold n; cbn; lia).
  pose proof (Word.wrap_range 64 (n - 1) ltac:(lia)) as Hw. assert (Word.wrap 64 (n - 1) <= n - 1) by (apply Z.mod_le; lia).
  split; [apply Z.land_nonneg; lia|].
  rewrite <- (Z2N.id (hashcode key)), <- (Z2N.id (Word.wrap 64 (n - 1))), <- N2Z.inj_land by lia.
  pose proof (N.land_le_r (Z.to_N (hashcode key)) (Z.to_N (Word.wrap 64 (n - 1)))). lia.
Qed.

(** ** Walking a chain *)

(** The link behind the items [l1] of bucket [b]. *)
Definition link_after (b : Z) (l1 : list nat) : link :=
  match last l1 with None => Bucket b | Some p => NextOf (Z.of_nat p) end.

Lemma chain_split os l1 l2 h : chain os h (l1 ++ l2) ->
  exists h2, chain os h2 l2 /\
    match last l1 with None => h2 = h | Some p => exists it, os !! p = Some it /\ oi_next it = h2 end.
Proof.
  revert h. induction l1 as [|p l1 IH]; intros h H; [by exists h|]. inversion H as [|? it ? Hp Hc]; subst.
  destruct (IH _ Hc) as (h2 & H2 & Hl). exists h2. split; [done|]. rewrite last_cons. destruct (last l1); [done|]. subst h2. eauto.
Qed.

Lemma read_link_after o b h l1 l2 : oj_hash o !! Z.to_nat b = Some h -> 0 <= b -> chain (oj_os o) h (l1 ++ l2) ->
  exists h2, read_link o (link_after b l1) = Ok h2 /\ chain (oj_os o) h2 l2.
Proof.
  intros Hh Hb H. destruct (chain_split _ _ _ _ H) as (h2 & H2 & Hl). exists h2. split; [|done]. unfold link_after.
  destruct (last l1) as [p|]; cbn.
  - destruct Hl as (it & Hp & <-). unfold item, aget. by rewrite (proj2 (Z.ltb_ge _ _)), Nat2Z.id, Hp by lia.
  - subst. apply aget_ok. split; [lia|done].
Qed.

(** The walk stops behind the items that do not stop it. *)
Lemma seek_chain o (stop : Z -> res bool) (P : nat -> bool) b h l2 : forall l1 fuel n,
  oj_hash o !! Z.to_nat b = Some h -> 0 <= b -> chain (oj_os o) h (l1 ++ l2) ->
  (forall p, p ∈ l2 -> stop (Z.of_nat p) = Ok (P p)) -> (length l2 < fuel)%nat ->
  exists l2a l2b n', l2 = l2a ++ l2b /\ Forall (fun p => P p = false) l2a /\
    match l2b with [] => True | p :: _ => P p = true end /\
    seek fuel o stop (link_after b l1) n = Ok (link_after b (l1 ++ l2a), n').
Proof.
  induction l2 as [|p l2 IH]; intros l1 [|fuel] n Hh Hb H Hs Hf; try (cbn in Hf; lia);
    destruct (read_link_after _ _ _ _ _ Hh Hb H) as (h2 & Hr & Hc); apply chain_head in Hc; subst h2; cbn [seek]; rewrite Hr, rbind_Ok.
  - exists [], [], n. rewrite (app_nil_r l1). repeat split; constructor.
  - rewrite (proj2 (Z.ltb_ge _ _)) by lia. rewrite Hs by set_solver.
    rewrite rbind_Ok. destruct (P p) eqn:HP.
    + exists [], (p :: l2), n. rewrite (app_nil_r l1). repeat split; [constructor|done].
    + rewrite (cons_middle p l1 l2), app_assoc in H. destruct (IH (l1 ++ [p]) fuel (n + 1) Hh Hb H) as (l2a & l2b & n' & -> & Ha & Hb' & He); [set_solver|cbn in Hf; lia|].
      exists (p :: l2a), l2b, n'. split; [done|]. split; [by constructor|]. split; [done|].
      rewrite <- app_assoc in He. cbn [app] in He. rewrite <- He. unfold link_after. by rewrite last_snoc.
Qed.

(** The walk for a key in a table whose buckets are right. *)
Lemma seek_key_chain o key : hashed 0 o -> oj_hash o <> [] ->
  exists h l1 l2 n, oj_hash o !! Z.to_nat (bucket o key) = Some h /\ bucket_chain 0 o (bucket o key) h (l1 ++ l2) /\
    seek_key o key = Ok (link_after (bucket o key) l1, n) /\
    Forall (fun p => key_of (oj_os o) p <> Some key) l1 /\
    match l2 with [] => True | p :: _ => key_of (oj_os o) p = Some key end.
Proof.
  intros Hw Hh. pose proof (bucket_range o key Hh) as Hb. destruct (lookup_lt_is_Some_2 (oj_hash o) (Z.to_nat (bucket o key))) as [h Hl]; [lia|].
  destruct (Hw _ _ Hl) as (l & Hc). rewrite Z2Nat.id in Hc by lia. pose proof Hc as (Hch & Hnd & Hin).
  pose proof (chain_length _ _ _ Hch Hnd).
  destruct (seek_chain o (stop_at_key o key) (fun p => bool_decide (key_of (oj_os o) p = Some key)) (bucket o key) h l []
    (S (length (oj_os o))) 0 Hl (proj1 Hb) Hch) as (l1 & l2 & n & -> & H1 & H2 & He); [|lia|].
  - intros p (_ & k & Hk & _)%Hin. unfold stop_at_key. rewrite (key_at_of _ _ _ Hk), rbind_Ok. f_equal.
    apply bool_decide_ext. rewrite Hk. split; [by intros ->|by intros [= ->]].
  - exists h, l1, l2, n. split; [done|]. split; [done|]. split; [exact He|]. split.
    + eapply Forall_impl; [exact H1|]. intros p ?%bool_decide_eq_false. done.
    + destruct l2; [done|]. by apply bool_decide_eq_true in H2.
Qed.

(** Reading the link the walk stopped at. *)
Lemma read_seek o b h l1 l2 : oj_hash o !! Z.to_nat b = Some h -> 0 <= b -> chain (oj_os o) h (l1 ++ l2) ->
  read_link o (link_after b l1) = Ok (match l2 with [] => -1 | p :: _ => Z.of_nat p end).
Proof. intros Hh Hb H. destruct (read_link_after _ _ _ _ _ Hh Hb H) as (h2 & -> & ->%chain_head). done. Qed.

(** ** Positions and indices *)

(** The live item at position [p] is the [i]th of the list. *)
Definition live_at (o : ObjectJson) (p i : nat) : Prop :=
  is_Some (key_of (oj_os o) p) /\ length (items_of (take p (oj_os o))) = i.

Lemma items_split os p k : key_of os p = Some k ->
  exists v, items_of os = items_of (take p os) ++ (k, v) :: items_of (drop (S p) os) /\
    items_of os !! length (items_of (take p os)) = Some (k, v).
Proof.
  unfold key_of. intros H. destruct (os !! p) as [[[[k' v]|] nx]|] eqn:E; cbn in H; [|done..]. injection H as ->.
  exists v. assert (items_of os = items_of (take p os) ++ (k, v) :: items_of (drop (S p) os)) as Hs.
  { rewrite <- (take_drop_middle _ _ _ E) at 1. by rewrite items_of_app. }
  split; [done|]. rewrite Hs, lookup_app_r, Nat.sub_diag by done. done.
Qed.

Lemma find_key_app l1 k v l2 : k ∉ l1.*1 -> find_key (l1 ++ (k, v) :: l2) k = Some (length l1).
Proof.
  induction l1 as [|[k' v'] l1 IH]; cbn.
  - by rewrite bool_decide_eq_true_2.
  - intros [Hne Hin]%not_elem_of_cons. rewrite bool_decide_eq_false_2 by done. by rewrite IH.
Qed.

Lemma keys_before os p k : NoDup (items_of os).*1 -> key_of os p = Some k -> k ∉ (items_of (take p os)).*1.
Proof.
  intros Hn Hk. destruct (items_split _ _ _ Hk) as (v & Hs & _). rewrite Hs, fmap_app in Hn. apply NoDup_app in Hn as (_ & Hn & _).
  intros Hi. apply (Hn _ Hi). cbn. left.
Qed.

Lemma find_key_live os p k : NoDup (items_of os).*1 -> key_of os p = Some k ->
  find_key (items_of os) k = Some (length (items_of (take p os))).
Proof.
  intros Hn Hk. pose proof (keys_before _ _ _ Hn Hk). destruct (items_split _ _ _ Hk) as (v & -> & _). by apply find_key_app.
Qed.

Lemma keys_of_items os key : key ∈ (items_of os).*1 <-> exists p, key_of os p = Some key.
Proof.
  rewrite list_elem_of_fmap. split.
  - intros ([k v] & -> & (it & Hit & Hv)%list_elem_of_omap). apply list_elem_of_lookup in Hit as [p Hp]. exists p. unfold key_of. rewrite Hp. cbn. by rewrite Hv.
  - intros [p Hk]. destruct (items_split _ _ _ Hk) as (v & Hs & _). exists (key, v). split; [done|]. rewrite Hs. set_solver.
Qed.

(** No item of the bucket has the key, so none of the table has. *)
Lemma key_absent o key h l : bucket_chain 0 o (bucket o key) h l -> Forall (fun p => key_of (oj_os o) p <> Some key) l ->
  key ∉ (items o).*1.
Proof.
  intros (_ & _ & Hin) Hl (p & Hp)%keys_of_items. rewrite Forall_forall in Hl. apply (Hl p); [|done]. apply Hin. split; [lia|]. eauto.
Qed.

(** The lookup is that of the list. *)
Lemma find_refines o key : object_wf o ->
  exists p, find o key = Ok p /\
    match find_key (items o) key with None => p = -1 | Some i => exists q, p = Z.of_nat q /\ live_at o q i end.
Proof.
  intros Hw. unfold find. case_bool_decide as Hh.
  - exists (-1). split; [done|]. pose proof (wf_hash _ Hw) as Hos. rewrite bool_decide_eq_true_2 in Hos by done. unfold items. by rewrite Hos.
  - destruct (seek_key_chain o key (wf_hashed _ Hw) Hh) as (h & l1 & l2 & n & Hl & Hc & Hs & H1 & H2).
    rewrite Hs, rbind_Ok. cbn [fst]. rewrite (read_seek o _ h l1 l2 Hl (proj1 (bucket_range o key Hh)) (proj1 Hc)), rbind_Ok.
    destruct l2 as [|p l2].
    + exists (-1). split; [done|]. rewrite app_nil_r in Hc. by rewrite (proj2 (find_key_None _ _) (key_absent _ _ _ _ Hc H1)).
    + exists (Z.of_nat p). rewrite (proj2 (Z.ltb_ge _ _)) by lia. split; [done|]. unfold items. rewrite (find_key_live _ _ _ (wf_keys _ Hw) H2).
      exists p. split; [done|]. split; [by eexists|done].
Qed.

(** ** Writing a link *)

Definition live_os (os : list ObjectItem) : Prop :=
  Forall (fun it => if oi_v it is Some _ then -1 <= oi_next it else oi_next it = -2) os.

(** The parts that writing links leaves alone. *)
Record same_items (o o' : ObjectJson) : Prop := {
  si_pairs : oi_v <$> oj_os o' = oi_v <$> oj_os o;
  si_capacity : oj_capacity o' = oj_capacity o;
  si_size : oj_size o' = oj_size o
}.

#[export] Instance same_items_refl : Reflexive same_items.
Proof. by intros o. Qed.
#[export] Instance same_items_trans : Transitive same_items.
Proof. intros o1 o2 o3 [] []. split; congruence. Qed.

Lemma same_items_key o o' p : same_items o o' -> key_of (oj_os o') p = key_of (oj_os o) p.
Proof. intros []. by apply key_of_pairs. Qed.

Lemma same_items_items o o' : same_items o o' -> items o' = items o.
Proof. intros [H _ _]. unfold items. by rewrite !items_of_pairs, H. Qed.

Lemma same_items_length o o' : same_items o o' -> length (oj_os o') = length (oj_os o).
Proof. intros [H _ _]. by rewrite <- (length_fmap oi_v), H, length_fmap. Qed.

(** The link behind [l1] has been written with [x]. *)
Record relinked (o : ObjectJson) (b : Z) (l1 : list nat) (x : Z) (o' : ObjectJson) : Prop := {
  rl_same : same_items o o';
  rl_buckets : length (oj_hash o') = length (oj_hash o);
  rl_hash b' : b' <> Z.to_nat b -> oj_hash o' !! b' = oj_hash o !! b';
  rl_os p : p ∉ l1 -> oj_os o' !! p = oj_os o !! p;
  rl_chain : exists h', oj_hash o' !! Z.to_nat b = Some h' /\
    forall os' l', (forall p, p ∈ l1 -> os' !! p = oj_os o' !! p) -> chain os' x l' -> chain os' h' (l1 ++ l');
  rl_live : live_os (oj_os o')
}.

(** A chain with the tail behind [p] replaced. *)
Lemma chain_replace os os' p x v l2 l' : forall l0 h, chain os h (l0 ++ p :: l2) ->
  (forall q, q ∈ l0 -> os' !! q = os !! q) -> os' !! p = Some (Item v x) -> chain os' x l' -> chain os' h (l0 ++ p :: l').
Proof.
  induction l0 as [|q l0 IH]; intros h H Hl Hp Hc; inversion H as [|? it ? Hq Hc']; subst; cbn [app].
  - by econstructor.
  - econstructor; [rewrite Hl by left; eassumption|]. apply IH; [done| |done|done]. intros r Hr. apply Hl. by right.
Qed.

Lemma write_link_after o b h l1 l2 x : oj_hash o !! Z.to_nat b = Some h -> 0 <= b ->
  chain (oj_os o) h (l1 ++ l2) -> NoDup (l1 ++ l2) -> (forall p, p ∈ l1 -> is_Some (key_of (oj_os o) p)) ->
  live_os (oj_os o) -> -1 <= x ->
  exists o', write_link o (link_after b l1) x = Ok o' /\ relinked o b l1 x o'.
Proof.
  intros Hh Hb H Hd Hk Hl Hx. pose proof (lookup_lt_Some _ _ _ Hh). unfold link_after.
  destruct l1 as [|p l0 _] using rev_ind.
  - cbn [last write_link]. rewrite aset_total, rbind_Ok by lia. eexists. split; [done|]. split; cbn.
    + done.
    + apply length_insert.
    + intros b' Hb'. by apply list_lookup_insert_ne.
    + done.
    + exists x. split; [apply list_lookup_insert_eq; lia|]. done.
    + done.
  - rewrite last_snoc. destruct (Hk p) as [k Hkp]; [set_solver|]. unfold key_of in Hkp.
    destruct (oj_os o !! p) as [it|] eqn:Hp; [|done]. pose proof (lookup_lt_Some _ _ _ Hp).
    assert (item o (Z.of_nat p) = Ok it) as Hit by (apply aget_ok; rewrite Nat2Z.id; split; [lia|done]).
    cbn [write_link]. rewrite Hit, rbind_Ok, aset_total, rbind_Ok by lia. rewrite Nat2Z.id. eexists. split; [done|].
    rewrite <- app_assoc in H, Hd. cbn [app] in H, Hd. apply NoDup_app in Hd as (_ & Hd & _). split; cbn.
    + split; [by apply pairs_next|done..].
    + done.
    + done.
    + intros q Hq. apply list_lookup_insert_ne. set_solver.
    + exists h. split; [done|]. intros os' l' Hos Hc. rewrite <- app_assoc. cbn [app].
      eapply (chain_replace (oj_os o) _ p x (oi_v it) l2); [done| | |done].
      * intros q Hq. rewrite Hos by set_solver. apply list_lookup_insert_ne. intros ->. apply (Hd _ Hq). left.
      * rewrite Hos by set_solver. by apply list_lookup_insert_eq.
    + apply Forall_insert; [done|]. cbn in *. by destruct (oi_v it).
Qed.

(** ** Rehashing *)

Lemma live_item o p it : live_os (oj_os o) -> oj_os o !! p = Some it ->
  (-2 <? oi_next it) = (if oi_v it is Some _ then true else false).
Proof.
  intros H Hp. unfold live_os in H. rewrite Forall_lookup in H. specialize (H _ _ Hp). destruct (oi_v it).
  - apply Z.ltb_lt. lia.
  - by rewrite H.
Qed.

Lemma bucket_chain_agree i i' o o' b h l : bucket_chain i o b h l ->
  (forall p, p ∈ l -> oj_os o' !! p = oj_os o !! p) -> same_items o o' -> length (oj_hash o') = length (oj_hash o) ->
  (forall p key, key_of (oj_os o) p = Some key -> bucket o key = b -> (i <= p)%nat <-> (i' <= p)%nat) ->
  bucket_chain i' o' b h l.
Proof.
  intros (Hc & Hd & Hin) Hag Hs Hlen Hi. split; [by eapply chain_agree|]. split; [done|]. intros p. rewrite Hin.
  unfold bucket in *. rewrite Hlen, (same_items_key _ _ _ Hs). split; intros (Hp & k & Hk & Hkb); (split; [by eapply Hi|eauto]).
Qed.

Lemma rehash_step i o : (i < length (oj_os o))%nat -> oj_hash o <> [] -> live_os (oj_os o) -> hashed (S i) o ->
  exists o', (forall k, (let? it := item o (Z.of_nat i) in
      let? o := (if -2 <? oi_next it then
         let? key := key_at o (Z.of_nat i) in
         let b := Bucket (bucket o key) in
         let? h := read_link o b in
         let? o := write_link o (NextOf (Z.of_nat i)) h in
         write_link o b (Z.of_nat i)
       else Ok o) in k o) = (k o' : res ObjectJson)) /\
    same_items o o' /\ length (oj_hash o') = length (oj_hash o) /\ live_os (oj_os o') /\ hashed i o'.
Proof.
  intros Hi Hne Hlive Hh. destruct (lookup_lt_is_Some_2 (oj_os o) i Hi) as [it Hit].
  assert (item o (Z.of_nat i) = Ok it) as Hitem by (apply aget_ok; rewrite Nat2Z.id; split; [lia|done]).
  rewrite Hitem. pose proof (live_item _ _ _ Hlive Hit) as Hlt. destruct (oi_v it) as [[key v]|] eqn:Hv.
  - assert (key_of (oj_os o) i = Some key) as Hkey by (unfold key_of; rewrite Hit; cbn; by rewrite Hv).
    pose proof (bucket_range o key Hne) as Hb. destruct (lookup_lt_is_Some_2 (oj_hash o) (Z.to_nat (bucket o key))) as [h Hl]; [lia|].
    destruct (Hh _ _ Hl) as (l & Hc). rewrite Z2Nat.id in Hc by lia.
    assert (h >= -1) as Hh1. { destruct Hc as (Hc & _). apply chain_head in Hc. destruct l; lia. }
    assert (i ∉ l) as Hil. { intros Hin. apply Hc in Hin. lia. }
    set (os' := <[i := Item (Some (key, v)) h]> (oj_os o)).
    exists (set_hash (<[Z.to_nat (bucket o key) := Z.of_nat i]> (oj_hash o)) (set_os os' o)). split; [|split; [|split; [|split]]].
    + intros k. rewrite rbind_Ok, Hlt, (key_at_of _ _ _ Hkey), rbind_Ok. cbn [read_link].
      assert (aget (oj_hash o) (bucket o key) = Ok h) as -> by (apply aget_ok; split; [lia|done]). rewrite rbind_Ok.
      cbn [write_link]. rewrite Hitem, rbind_Ok, aset_total, Nat2Z.id, Hv, !rbind_Ok by lia. unfold set_os at 1. cbn [oj_hash].
      rewrite aset_total by lia. done.
    + split; [|done..]. cbn. unfold os'. rewrite <- Hv. by apply pairs_next.
    + apply length_insert.
    + cbn. unfold os'. apply Forall_insert; [done|]. cbn. lia.
    + assert (same_items o (set_hash (<[Z.to_nat (bucket o key) := Z.of_nat i]> (oj_hash o)) (set_os os' o))) as Hs.
      { split; [|done..]. cbn. unfold os'. rewrite <- Hv. by apply pairs_next. }
      intros b hb. cbn [oj_hash set_hash]. intros Hbl. apply list_lookup_insert_Some in Hbl as [(<- & <- & _)|[Hbn Hbl]].
      * exists (i :: l). rewrite Z2Nat.id by lia. destruct Hc as (Hc & Hd & Hin). split; [|split; [by constructor|]].
        -- cbn. econstructor; [by apply list_lookup_insert_eq|]. cbn. by apply chain_insert.
        -- intros p. rewrite elem_of_cons, Hin. unfold bucket. rewrite (same_items_key _ _ _ Hs). cbn [set_hash set_os oj_hash]. rewrite length_insert.
           split; [intros [->|[Hp Hk]]; [split; [lia|]; by exists key|split; [lia|done]]|]. intros [Hp Hk]. destruct (decide (p = i)); [by left|right; split; [lia|done]].
      * destruct (Hh _ _ Hbl) as (l' & Hc'). exists l'. eapply bucket_chain_agree; [exact Hc'| |exact Hs|by cbn; rewrite length_insert|].
        -- intros p Hp. cbn. unfold os'. apply list_lookup_insert_ne. intros ->. apply Hc' in Hp. lia.
        -- intros p k Hk Hkb. destruct (decide (p = i)) as [->|]; [|lia]. rewrite Hkey in Hk. injection Hk as <-. exfalso. apply Hbn. lia.
  - exists o. split; [intros k; by rewrite rbind_Ok, Hlt, rbind_Ok|]. split; [done|]. split; [done|]. split; [done|].
    intros b h Hl. destruct (Hh _ _ Hl) as (l & Hc). exists l. eapply bucket_chain_agree; [done..|].
    intros p k Hk Hkb. destruct (decide (p = i)) as [->|]; [|lia]. unfold key_of in Hk. rewrite Hit in Hk. cbn in Hk. by rewrite Hv in Hk.
Qed.

Lemma rehash_loop_ok i : forall o, (i <= length (oj_os o))%nat -> oj_hash o <> [] -> live_os (oj_os o) -> hashed i o ->
  exists o', rehash_loop i o = Ok o' /\ same_items o o' /\ length (oj_hash o') = length (oj_hash o) /\ live_os (oj_os o') /\ hashed 0 o'.
Proof.
  induction i as [|i IH]; intros o Hi Hne Hl Hh; [by exists o|]. cbn [rehash_loop].
  destruct (rehash_step i o) as (o1 & Hk & Hs & Hlen & Hl1 & Hh1); [lia|done..|]. rewrite Hk.
  destruct (IH o1) as (o' & He & Hs' & Hlen' & Hl' & Hh'); [rewrite (same_items_length _ _ Hs); lia| |done|done|].
  - intros E. apply Hne, nil_length_inv. by rewrite <- Hlen, E.
  - exists o'. split; [done|]. split; [by etrans|]. split; [congruence|done].
Qed.

(** Doubling the buckets keeps the items. *)
Lemma rehash_ok o : oj_hash o <> [] -> live_os (oj_os o) ->
  exists o', rehash o = Ok o' /\ same_items o o' /\ length (oj_hash o') = (length (oj_hash o) * 2)%nat /\ live_os (oj_os o') /\ hashed 0 o'.
Proof.
  intros Hne Hl. unfold rehash. set (o0 := set_hash _ o). assert (length (oj_hash o0) = (length (oj_hash o) * 2)%nat) as H0 by apply length_replicate.
  destruct (rehash_loop_ok (length (oj_os o)) o0) as (o' & He & Hs & Hlen & Hl' & Hh); [done| |done| |].
  - intros E. rewrite E in H0. destruct (oj_hash o); [done|]. cbn in H0. lia.
  - intros b h Hb. cbn in Hb. apply lookup_replicate in Hb as [-> _]. exists []. split; [constructor|]. split; [constructor|].
    intros p. split; [by intros ?%not_elem_of_nil|]. intros (Hp & k & Hk & _). apply key_of_bound in Hk. cbn in Hk. lia.
  - exists o'. split; [done|]. split; [destruct Hs; by split|]. by rewrite Hlen.
Qed.

(** ** Inserting *)

Lemma key_of_app os it p : key_of (os ++ [it]) p = if decide (p = length os) then fst <$> oi_v it else key_of os p.
Proof.
  unfold key_of. case_decide as E; [subst; by rewrite lookup_app_r, Nat.sub_diag by done|].
  destruct (decide (p < length os)%nat); [by rewrite lookup_app_l|]. rewrite !lookup_ge_None_2; [done|lia|rewrite length_app; cbn; lia].
Qed.

(** The new item at the end of its bucket's chain. *)
Lemma hashed_append o o1 o2 key v h l : let b := bucket o key in
  hashed 0 o -> bucket_chain 0 o b h l -> 0 <= b -> relinked o b l (oj_n o) o1 ->
  oj_os o2 = oj_os o1 ++ [Item (Some (key, v)) (-1)] -> oj_hash o2 = oj_hash o1 -> hashed 0 o2.
Proof.
  intros b Hh Hc Hb0 Hr Hos Hha b' h' Hb'. pose proof Hr as [Hs Hlen Hha' Hos' (h1 & Hh1 & Hch) _].
  pose proof (same_items_length _ _ Hs) as Hn. pose proof Hc as (Hc1 & Hd & Hin).
  assert (forall k, bucket o2 k = bucket o k) as Hbk by (intros k; unfold bucket; by rewrite Hha, Hlen).
  assert (forall p, p ∈ l -> (p < length (oj_os o))%nat) as Hlb by (intros p; by apply (chain_bound _ _ _ _ Hc1)).
  rewrite Hha in Hb'. destruct (decide (b' = Z.to_nat b)) as [->|Hne].
  - rewrite Hh1 in Hb'. injection Hb' as <-. rewrite Z2Nat.id by lia. exists (l ++ [length (oj_os o)]). split; [|split].
    + apply Hch.
      * intros p Hp%Hlb. rewrite Hos. apply lookup_app_l. lia.
      * rewrite Hos. econstructor; [rewrite <- Hn; by apply list_lookup_middle|constructor].
    + apply NoDup_app. split; [done|]. split; [|apply NoDup_singleton]. intros p Hp%Hlb ->%list_elem_of_singleton. lia.
    + intros p. rewrite elem_of_app, list_elem_of_singleton, Hin, Hos, key_of_app, Hn. rewrite (same_items_key _ _ _ Hs).
      case_decide as E; cbn.
      * split; [|by right]. intros _. split; [lia|]. exists key. by rewrite Hbk.
      * setoid_rewrite Hbk. split; [intros [?|?]; done|by left].
  - rewrite Hha' in Hb' by done. destruct (Hh _ _ Hb') as (l' & Hc'). exists l'. pose proof Hc' as (Hc1' & Hd' & Hin').
    assert (forall p, p ∈ l' -> (p < length (oj_os o))%nat) as Hlb' by (intros p; by apply (chain_bound _ _ _ _ Hc1')).
    split; [|split; [done|]].
    + eapply chain_agree; [done|]. intros p Hp. rewrite Hos, lookup_app_l by (apply Hlb' in Hp; lia). apply Hos'.
      intros Hp'. apply Hin' in Hp as (_ & k & Hk & Hkb). apply Hin in Hp' as (_ & k' & Hk' & Hkb'). apply Hne. rewrite Hk in Hk'. injection Hk' as <-. lia.
    + intros p. rewrite Hin', Hos, key_of_app, Hn, (same_items_key _ _ _ Hs). case_decide as E; cbn.
      * split; [intros (_ & k & Hk & _); apply key_of_bound in Hk; lia|]. intros (_ & k & [= <-] & Hkb). rewrite Hbk in Hkb. exfalso. apply Hne. unfold b. lia.
      * by setoid_rewrite Hbk.
Qed.

Lemma object_wf_fresh o : object_wf o -> oj_hash o = [] -> object_wf (set_hash (replicate 8 (-1)) o).
Proof.
  intros [H1 H2 H3 H4 H5 H6] Hh. rewrite bool_decide_eq_true_2 in H1 by done. split; try done.
  - cbn. by exists 3%nat.
  - intros b h Hb. cbn [set_hash oj_hash] in Hb. apply lookup_replicate in Hb as [-> _]. exists []. split; [constructor|]. split; [constructor|].
    intros p. split; [by intros ?%not_elem_of_nil|]. intros (_ & k & Hk & _). cbn in Hk. by rewrite H1 in Hk.
Qed.

Lemma append_item_ok o key v : oj_n o < oj_capacity o ->
  append_item o key v = Ok (set_size (oj_size o + 1) (set_os (oj_os o ++ [Item (Some (key, v)) (-1)]) o)).
Proof. intros H. unfold append_item. by rewrite (proj2 (Z.ltb_lt _ _)). Qed.

(** A table with the items of a well-formed one, rehashed. *)
Lemma object_wf_same o o' k : object_wf o -> same_items o o' -> live_os (oj_os o') -> hashed 0 o' -> length (oj_hash o') = (2 ^ k)%nat -> object_wf o'.
Proof.
  intros [H1 H2 H3 H4 H5 H6] Hs Hl Hh Hk. pose proof (same_items_length _ _ Hs). split.
  - rewrite bool_decide_eq_false_2; [by exists k|]. intros E. rewrite E in Hk. cbn in Hk. pose proof (Nat.pow_nonzero 2 k). lia.
  - done.
  - done.
  - by rewrite (same_items_items _ _ Hs).
  - by rewrite (same_items_items _ _ Hs), (si_size _ _ Hs).
  - unfold oj_n. rewrite (si_capacity _ _ Hs), H. done.
Qed.

(** Inserting a key the table does not have. *)
Lemma insert_absent o key v h l : let b := bucket o key in
  object_wf o -> oj_hash o <> [] -> oj_hash o !! Z.to_nat b = Some h -> bucket_chain 0 o b h l -> key ∉ (items o).*1 ->
  exists o1 o2, write_link o (link_after b l) (oj_n o) = Ok o1 /\
    append_item (if oj_n o =? oj_capacity o1 then grow false o1 else o1) key v = Ok o2 /\
    object_wf o2 /\ oj_hash o2 <> [] /\ items o2 = items o ++ [(key, v)] /\ key_of (oj_os o2) (length (oj_os o)) = Some key /\
    items_of (take (length (oj_os o)) (oj_os o2)) = items o.
Proof.
  intros b Hw Hne Hl Hc Hk. pose proof Hw as [H1 H2 H3 H4 H5 H6]. pose proof (bucket_range o key Hne) as Hb. fold b in Hb.
  pose proof Hc as (Hc1 & Hd & Hin). rewrite bool_decide_eq_false_2 in H1 by done. destruct H1 as [k Hlen].
  destruct (write_link_after o b h l [] (oj_n o)) as (o1 & Hw1 & Hr); try done; rewrite ?app_nil_r; try done; try lia.
  { intros p (_ & k' & Hk' & _)%Hin. by eexists. }
  { unfold oj_n. lia. }
  pose proof Hr as [Hs Hlen1 _ _ _ Hlv]. pose proof (same_items_length _ _ Hs) as Hn. set (o1' := if oj_n o =? oj_capacity o1 then grow false o1 else o1).
  assert (oj_os o1' = oj_os o1 /\ oj_hash o1' = oj_hash o1 /\ oj_size o1' = oj_size o1 /\ oj_n o < oj_capacity o1') as (Ho & Hha & Hsz & Hcap).
  { unfold o1'. rewrite (si_capacity _ _ Hs). destruct (Z.eqb_spec (oj_n o) (oj_capacity o)) as [E|E]; [|rewrite (si_capacity _ _ Hs); repeat split; try done; lia].
    unfold grow. rewrite (si_capacity _ _ Hs). cbn. repeat split; try done. destruct (Z.eqb_spec (oj_capacity o) 0); cbn; [lia|]. unfold oj_n in *. lia. }
  exists o1. eexists. split; [done|]. split; [apply (append_item_ok o1'); unfold oj_n at 1; rewrite Ho, Hn; exact Hcap|].
  set (o2 := set_size _ _). assert (items o2 = items o ++ [(key, v)]) as Hi.
  { unfold items at 1. cbn. rewrite Ho, items_of_app. fold (items o1). by rewrite (same_items_items _ _ Hs). }
  assert (oj_os o2 = oj_os o1 ++ [Item (Some (key, v)) (-1)]) as Hos2 by (cbn; by rewrite Ho).
  split; [|split; [|split; [done|split]]].
  - split.
    + cbn. rewrite Hha, bool_decide_eq_false_2; [exists k; congruence|]. intros E. rewrite E in Hlen1. destruct (oj_hash o); done.
    + eapply (hashed_append o o1 o2); [done|done|lia|done|done|by cbn; rewrite Hha].
    + rewrite Hos2. apply Forall_app. split; [done|]. by repeat constructor.
    + rewrite Hi, fmap_app. apply NoDup_app. split; [done|]. split; [|apply NoDup_singleton]. by intros x Hx ->%list_elem_of_singleton.
    + rewrite Hi, length_app. cbn. rewrite Hsz, (si_size _ _ Hs). lia.
    + unfold oj_n in *. rewrite Hos2, length_app. cbn [o2 set_size set_os oj_capacity length]. lia.
  - cbn. rewrite Hha. intros E. rewrite E in Hlen1. by destruct (oj_hash o).
  - rewrite Hos2, key_of_app, Hn, decide_True by done. done.
  - rewrite Hos2, <- Hn, take_app_length. fold (items o1). by apply same_items_items.
Qed.

(** Inserting, or finding, is the same on the list of items. *)
Lemma find_insert_items o key v : object_wf o ->
  exists o' p, find_insert o key v = Ok (o', Z.of_nat p) /\ object_wf o' /\
    items o' = fst (Json.find_insert (items o) key v) /\ live_at o' p (snd (Json.find_insert (items o) key v)) /\
    Z.b2z (Z.of_nat p =? oj_n o) = if find_key (items o) key is Some _ then 0 else 1.
Proof.
  intros Hw0. unfold find_insert. set (o1 := if bool_decide (oj_hash o = []) then set_hash (replicate 8 (-1)) o else o).
  assert (object_wf o1 /\ oj_hash o1 <> [] /\ items o1 = items o /\ oj_n o1 = oj_n o) as (Hw & Hne & Hi & Hn).
  { unfold o1. case_bool_decide; [|done]. split; [by apply object_wf_fresh|done]. }
  rewrite <- Hi, <- Hn. clearbody o1. clear o Hw0 Hi Hn. rename o1 into o.
  destruct (seek_key_chain o key (wf_hashed _ Hw) Hne) as (h & l1 & l2 & n & Hl & Hc & Hs & H1 & H2).
  pose proof (bucket_range o key Hne) as Hb. rewrite Hs, rbind_Ok, (read_seek o _ h l1 l2 Hl (proj1 Hb) (proj1 Hc)), rbind_Ok.
  destruct l2 as [|p l2].
  - rewrite app_nil_r in Hc. pose proof (key_absent _ _ _ _ Hc H1) as Hk. unfold Json.find_insert. rewrite (proj2 (find_key_None _ _) Hk). cbn [fst snd].
    destruct (insert_absent o key v h l1 Hw Hne Hl Hc Hk) as (o1 & o2 & -> & Ha & Hw2 & Hne2 & Hi2 & Hk2 & Ht2).
    change (0 <=? -1) with false. cbn iota. rewrite rbind_Ok, Ha, rbind_Ok.
    assert (exists o', (if 4 <? n then rehash o2 else Ok o2) = Ok o' /\ object_wf o' /\ same_items o2 o') as (o' & -> & Hw' & Hs').
    { destruct (4 <? n); [|by exists o2]. destruct (rehash_ok o2 Hne2 (wf_live _ Hw2)) as (o' & Hr & Hs' & Hlen & Hlv & Hh').
      exists o'. split; [done|]. split; [|done]. pose proof (wf_hash _ Hw2) as Hk'. rewrite bool_decide_eq_false_2 in Hk' by done. destruct Hk' as [k Hk'].
      apply (object_wf_same o2 o' (S k)); try done. rewrite Hlen, Hk', Nat.pow_succ_r'. lia. }
    rewrite rbind_Ok. exists o', (length (oj_os o)). split; [done|]. split; [done|]. rewrite (same_items_items _ _ Hs'). split; [done|]. split; [split|].
    + rewrite (same_items_key _ _ _ Hs'), Hk2. by eexists.
    + rewrite <- Ht2. rewrite !items_of_pairs. f_equal. f_equal. by rewrite !fmap_take, (si_pairs _ _ Hs').
    + unfold oj_n. by rewrite Z.eqb_refl.
  - rewrite (proj2 (Z.leb_le _ _)) by lia. exists o, p. split; [done|]. split; [done|]. unfold Json.find_insert, items.
    rewrite (find_key_live _ _ _ (wf_keys _ Hw) H2). split; [done|]. split; [split; [by eexists|done]|].
    apply key_of_bound in H2. unfold oj_n. by rewrite (proj2 (Z.eqb_neq _ _)) by lia.
Qed.

(** ** Erasing *)

Lemma items_erased os p nx : (p < length os)%nat ->
  items_of (<[p := Item None nx]> os) = items_of (take p os) ++ items_of (drop (S p) os).
Proof.
  intros Hp. rewrite insert_take_drop, items_of_app by done. done.
Qed.

Lemma key_of_erased os p nx q : key_of (<[p := Item None nx]> os) q = if decide (q = p) then None else key_of os q.
Proof.
  unfold key_of. case_decide as E; [subst|by rewrite list_lookup_insert_ne by done].
  destruct (decide (p < length os)%nat); [by rewrite list_lookup_insert_eq|]. rewrite list_insert_ge, lookup_ge_None_2 by lia. done.
Qed.

Lemma unlink_ok o key h l1 p l2 : let b := bucket o key in
  object_wf o -> oj_hash o <> [] -> oj_hash o !! Z.to_nat b = Some h -> bucket_chain 0 o b h (l1 ++ p :: l2) -> key_of (oj_os o) p = Some key ->
  exists o', unlink_item o (link_after b l1) (Z.of_nat p) = Ok o' /\ object_wf o' /\ oj_hash o' <> [] /\
    items o' = items_of (take p (oj_os o)) ++ items_of (drop (S p) (oj_os o)).
Proof.
  intros b Hw Hne Hl Hc Hk. pose proof Hw as [H1 H2 H3 H4 H5 H6]. pose proof (bucket_range o key Hne) as Hb. fold b in Hb.
  pose proof Hc as (Hc1 & Hd & Hin). rewrite bool_decide_eq_false_2 in H1 by done. destruct H1 as [k Hlen].
  pose proof (key_of_bound _ _ _ Hk) as Hp. destruct (lookup_lt_is_Some_2 (oj_os o) p Hp) as [it Hit].
  assert (item o (Z.of_nat p) = Ok it) as Hitem by (apply aget_ok; rewrite Nat2Z.id; split; [lia|done]).
  assert (-1 <= oi_next it) as Hnx.
  { rewrite Forall_lookup in H3. specialize (H3 _ _ Hit). unfold key_of in Hk. rewrite Hit in Hk. cbn in Hk. by destruct (oi_v it). }
  assert (chain (oj_os o) (oi_next it) l2) as Hc2.
  { destruct (chain_split _ _ _ _ Hc1) as (h2 & Hc2 & _). inversion Hc2 as [|? it' ? Hit' Hc3]; subst. rewrite Hit in Hit'. by injection Hit' as ->. }
  destruct (write_link_after o b h l1 (p :: l2) (oi_next it)) as (o1 & Hw1 & Hr); try done; try lia.
  { intros q Hq. assert (q ∈ l1 ++ p :: l2) as Hq' by (apply elem_of_app; by left). apply Hin in Hq' as (_ & k' & Hk' & _). by eexists. }
  pose proof Hr as [Hs Hlen1 Hha Hos (h' & Hh' & Hch) Hlv]. pose proof (same_items_length _ _ Hs) as Hn.
  apply NoDup_app in Hd as (Hd1 & Hd12 & [Hp2 Hd2]%NoDup_cons). assert (p ∉ l1) as Hp1 by (intros Hi; apply (Hd12 _ Hi); left).
  unfold unlink_item, destroy_item. rewrite Hitem, rbind_Ok, Hw1, rbind_Ok, aset_total, Nat2Z.id, rbind_Ok by lia. eexists. split; [done|].
  set (o2 := set_size _ _). assert (oj_os o2 = <[p := Item None (-2)]> (oj_os o1)) as Hos2 by done.
  assert (items o2 = items_of (take p (oj_os o)) ++ items_of (drop (S p) (oj_os o))) as Hi.
  { unfold items. rewrite Hos2, items_erased by lia. by rewrite !items_of_pairs, !fmap_take, !fmap_drop, (si_pairs _ _ Hs). }
  destruct (items_split _ _ _ Hk) as (v & Hsp & _). unfold items in H4, H5. rewrite Hsp in H4, H5.
  split; [|split; [cbn; intros E; rewrite E in Hlen1; by destruct (oj_hash o)|done]]. split.
  - cbn [o2 set_size set_os oj_hash]. rewrite bool_decide_eq_false_2; [exists k; congruence|]. intros E. rewrite E in Hlen1. by destruct (oj_hash o).
  - intros b' hb Hb'. cbn [o2 set_size set_os oj_hash] in Hb'.
    assert (forall k', bucket o2 k' = bucket o k') as Hbk by (intros k'; unfold bucket; cbn [o2 set_size set_os oj_hash]; by rewrite Hlen1).
    destruct (decide (b' = Z.to_nat b)) as [->|Hbn].
    + rewrite Hh' in Hb'. injection Hb' as <-. rewrite Z2Nat.id by lia. exists (l1 ++ l2). split; [|split].
      * apply Hch; rewrite Hos2; [intros q Hq; apply list_lookup_insert_ne; congruence|].
        apply chain_insert; [|done]. eapply chain_agree; [done|]. intros q Hq. apply Hos. intros Hq1. apply (Hd12 _ Hq1). by right.
      * apply NoDup_app. split; [done|]. split; [|done]. intros q Hq1 Hq2. apply (Hd12 _ Hq1). by right.
      * intros q. setoid_rewrite Hbk. rewrite Hos2, key_of_erased, (same_items_key _ _ _ Hs). case_decide as E.
        -- subst. split; [rewrite elem_of_app; by intros [?|?]|]. by intros (_ & ? & ? & _).
        -- rewrite <- Hin, !elem_of_app, elem_of_cons. tauto.
    + rewrite Hha in Hb' by done. destruct (H2 _ _ Hb') as (l' & Hc1' & Hd' & Hin'). exists l'.
      assert (forall q, q ∈ l' -> q ∉ l1 ++ p :: l2) as Hdis.
      { intros q Hq1 Hq2. apply Hin' in Hq1 as (_ & k1 & Hk1 & Hb1). apply Hin in Hq2 as (_ & k2 & Hk2 & Hb2). rewrite Hk1 in Hk2. injection Hk2 as <-. apply Hbn. lia. }
      split; [|split; [done|]].
      * rewrite Hos2. apply chain_insert; [|intros Hq%Hdis; apply Hq, elem_of_app; right; left]. eapply chain_agree; [done|].
        intros q Hq%Hdis. apply Hos. intros Hq1. apply Hq, elem_of_app. by left.
      * intros q. setoid_rewrite Hbk. rewrite Hos2, key_of_erased, (same_items_key _ _ _ Hs), Hin'. case_decide as E; [|done]. subst q.
        split; [|by intros (_ & ? & ? & _)]. intros (_ & k1 & Hk1 & Hb1). rewrite Hk in Hk1. injection Hk1 as <-. exfalso. apply Hbn. unfold b. lia.
  - rewrite Hos2. by apply Forall_insert.
  - rewrite Hi. rewrite fmap_app in H4 |- *. apply NoDup_app in H4 as (Ha & Hb2 & [_ Hc3]%NoDup_cons). apply NoDup_app. split; [done|]. split; [|done].
    intros x Hx Hx'. apply (Hb2 _ Hx). by right.
  - rewrite Hi. cbn [o2 set_size oj_size]. rewrite (si_size _ _ Hs), H5, !length_app. cbn [length]. lia.
  - unfold oj_n. rewrite Hos2, length_insert, Hn. cbn [o2 set_size set_os oj_capacity]. by rewrite (si_capacity _ _ Hs).
Qed.

Lemma erase_key_app l1 k v l2 : k ∉ l1.*1 -> erase_key (l1 ++ (k, v) :: l2) k = l1 ++ l2.
Proof.
  induction l1 as [|[k' v'] l1 IH]; cbn; [by rewrite bool_decide_eq_true_2|].
  intros [Hne Hin]%not_elem_of_cons. rewrite bool_decide_eq_false_2 by done. by rewrite IH.
Qed.

Lemma erase_key_absent l k : k ∉ l.*1 -> erase_key l k = l.
Proof.
  induction l as [|[k' v'] l IH]; cbn; [done|]. intros [Hne Hin]%not_elem_of_cons. rewrite bool_decide_eq_false_2 by done. by rewrite IH.
Qed.

(** Erasing a key of an object that has never had an item reads outside the
    empty bucket array. *)
Lemma erase_no_buckets o key : oj_hash o = [] -> erase o key = Fault OutOfBounds.
Proof. intros H. unfold erase, seek_key. cbn [seek read_link]. rewrite H. unfold aget. by destruct (_ <? 0). Qed.

Lemma erase_items o key : object_wf o -> oj_hash o <> [] ->
  exists o', erase o key = Ok (o', if find_key (items o) key is Some _ then 1 else 0) /\ object_wf o' /\ oj_hash o' <> [] /\
    items o' = erase_key (items o) key.
Proof.
  intros Hw Hne. destruct (seek_key_chain o key (wf_hashed _ Hw) Hne) as (h & l1 & l2 & n & Hl & Hc & Hs & H1 & H2).
  unfold erase. rewrite Hs, rbind_Ok. cbn [fst]. rewrite (read_seek o _ h l1 l2 Hl (proj1 (bucket_range o key Hne)) (proj1 Hc)), rbind_Ok.
  destruct l2 as [|p l2].
  - rewrite app_nil_r in Hc. pose proof (key_absent _ _ _ _ Hc H1) as Hk. exists o. rewrite (proj2 (find_key_None _ _) Hk).
    by rewrite erase_key_absent.
  - rewrite (proj2 (Z.leb_le _ _)) by lia. destruct (unlink_ok o key h l1 p l2 Hw Hne Hl Hc H2) as (o' & -> & Hw' & Hne' & Hi). rewrite rbind_Ok.
    exists o'. pose proof (keys_before _ _ _ (wf_keys _ Hw) H2) as Hb. destruct (items_split _ _ _ H2) as (v & Hsp & _). unfold items at 1 3. rewrite Hsp.
    rewrite find_key_app, erase_key_app by done. done.
Qed.

Lemma erase_at_items o p i : object_wf o -> live_at o p i ->
  exists o', erase_at o (Z.of_nat p) = Ok o' /\ object_wf o' /\ items o' = delete i (items o).
Proof.
  intros Hw ([key Hk] & Hi). assert (oj_hash o <> []) as Hne.
  { intros E. pose proof (wf_hash _ Hw) as H. rewrite bool_decide_eq_true_2 in H by done. by rewrite H in Hk. }
  pose proof (bucket_range o key Hne) as Hb. destruct (lookup_lt_is_Some_2 (oj_hash o) (Z.to_nat (bucket o key))) as [h Hl]; [lia|].
  destruct (wf_hashed _ Hw _ _ Hl) as (l & Hc). rewrite Z2Nat.id in Hc by lia. pose proof Hc as (Hch & Hnd & Hin). pose proof (chain_length _ _ _ Hch Hnd).
  destruct (seek_chain o (stop_at_position (Z.of_nat p)) (fun q => bool_decide (q = p)) (bucket o key) h l []
    (S (length (oj_os o))) 0 Hl (proj1 Hb) Hch) as (l1 & l2 & n & -> & H1 & H2 & He); [|lia|].
  { intros q _. unfold stop_at_position. f_equal. case_bool_decide; [apply Z.eqb_eq|apply Z.eqb_neq]; lia. }
  assert (exists l2', l2 = p :: l2') as [l2' ->].
  { destruct l2 as [|q l2]; [|apply bool_decide_eq_true in H2; subst; by exists l2]. rewrite app_nil_r in Hin.
    assert (p ∈ l1) as Hp by (apply Hin; split; [lia|by exists key]). rewrite Forall_forall in H1. specialize (H1 _ Hp). by apply bool_decide_eq_false in H1. }
  unfold erase_at. rewrite (key_at_of _ _ _ Hk), rbind_Ok. change (link_after (bucket o key) []) with (Bucket (bucket o key)) in He.
  rewrite He, rbind_Ok. cbn [fst app]. rewrite (read_seek o _ h l1 (p :: l2') Hl (proj1 Hb) Hch), rbind_Ok, Z.eqb_refl. cbn [check_res]. rewrite rbind_Ok.
  destruct (unlink_ok o key h l1 p l2' Hw Hne Hl Hc Hk) as (o' & -> & Hw' & _ & Hi'). exists o'. split; [done|]. split; [done|].
  rewrite Hi', <- Hi. destruct (items_split _ _ _ Hk) as (v & Hsp & _). unfold items. rewrite Hsp. by rewrite delete_middle.
Qed.

(** ** Values, iteration, merging *)

Lemma chain_next os os' h l : chain os h l -> oi_next <$> os' = oi_next <$> os -> chain os' h l.
Proof.
  intros H He. induction H as [|p it l Hp _ IH]; [constructor|].
  assert (oi_next <$> os' !! p = Some (oi_next it)) as (it' & Hp' & Hn)%fmap_Some by (rewrite <- list_lookup_fmap, He, list_lookup_fmap, Hp; done).
  econstructor; [done|]. by rewrite <- Hn.
Qed.

Lemma item_v_live o p i : live_at o p i -> exists key v, item_v o (Z.of_nat p) = Ok (key, v) /\ items o !! i = Some (key, v).
Proof.
  intros ([key Hk] & <-). destruct (items_split _ _ _ Hk) as (v & _ & Hi). exists key. unfold items. unfold key_of in Hk.
  destruct (oj_os o !! p) as [it|] eqn:Hp; [|done]. cbn in Hk. destruct (oi_v it) as [[k' v']|] eqn:Hv; [|done]. injection Hk as ->. exists v'.
  unfold item_v, item. assert (aget (oj_os o) (Z.of_nat p) = Ok it) as -> by (apply aget_ok; rewrite Nat2Z.id; split; [lia|done]).
  rewrite rbind_Ok, Hv. split; [done|].
  rewrite <- (take_drop_middle _ _ _ Hp) at 2. rewrite items_of_app, lookup_app_r, Nat.sub_diag by done. cbn. by rewrite Hv.
Qed.

Lemma set_item_app l1 k w l2 v : set_item (l1 ++ (k, w) :: l2) (length l1) v = l1 ++ (k, v) :: l2.
Proof. unfold set_item. by rewrite alter_app_r_alt, Nat.sub_diag by done. Qed.

Lemma set_value_items o p i v : object_wf o -> live_at o p i ->
  exists o', set_value o (Z.of_nat p) v = Ok o' /\ object_wf o' /\ oj_hash o' = oj_hash o /\ items o' = set_item (items o) i v.
Proof.
  intros Hw ([key Hk] & <-). pose proof Hw as [H1 H2 H3 H4 H5 H6]. pose proof (key_of_bound _ _ _ Hk) as Hlt. unfold key_of in Hk.
  destruct (oj_os o !! p) as [it|] eqn:Hp; [|done]. cbn in Hk. destruct (oi_v it) as [[k' w]|] eqn:Hv; [|done]. injection Hk as ->.
  unfold set_value, item. assert (aget (oj_os o) (Z.of_nat p) = Ok it) as -> by (apply aget_ok; rewrite Nat2Z.id; split; [lia|done]).
  rewrite rbind_Ok, Hv, aset_total, Nat2Z.id, rbind_Ok by lia. eexists. split; [done|]. set (it' := Item _ _). set (o' := set_os _ o).
  assert (items o' = set_item (items o) (length (items_of (take p (oj_os o)))) v) as Hi.
  { unfold items. cbn [o' set_os oj_os]. rewrite insert_take_drop by done. rewrite <- (take_drop_middle _ _ _ Hp) at 3. rewrite !items_of_app. cbn. rewrite Hv. by rewrite set_item_app. }
  assert (forall l i (w : Json), (set_item l i w).*1 = l.*1) as Hkeys.
  { intros l. induction l as [|[a b] l IH]; intros [|j] u; cbn; [done..|]. f_equal. apply IH. }
  split; [|done]. split.
  - cbn [o' set_os oj_hash oj_os]. case_bool_decide; [|done]. by rewrite H1 in Hp.
  - intros b h Hb. destruct (H2 b h Hb) as (l & Hc & Hd & Hin). exists l. split; [|split; [done|]].
    + eapply chain_next; [done|]. cbn. rewrite list_fmap_insert. apply list_insert_id. by rewrite list_lookup_fmap, Hp.
    + intros q. rewrite Hin. assert (key_of (oj_os o') q = key_of (oj_os o) q) as ->; [|done]. unfold key_of. cbn.
      destruct (decide (q = p)) as [->|]; [|by rewrite list_lookup_insert_ne]. rewrite list_lookup_insert_eq, Hp by done. cbn. by rewrite Hv.
  - cbn. apply Forall_insert; [done|]. cbn. rewrite Forall_lookup in H3. specialize (H3 _ _ Hp). by rewrite Hv in H3.
  - by rewrite Hi, Hkeys.
  - rewrite Hi. cbn. rewrite H5. f_equal. unfold set_item. by rewrite length_alter.
  - unfold oj_n. cbn. by rewrite length_insert.
Qed.

Definition set_pairs (l : list (bytes * Json)) (kv : bytes * Json) : list (bytes * Json) :=
  to_object (set_key (JObject l) (fst kv) (snd kv)).

(** [set]: the key's value in its place, or at the end. *)
Lemma object_set_items o key v : object_wf o ->
  exists o', object_set o key v = Ok o' /\ object_wf o' /\ oj_hash o' <> [] /\ items o' = set_pairs (items o) (key, v).
Proof.
  intros Hw. destruct (find_insert_items o key JNull Hw) as (o1 & p & He & Hw1 & Hi & Hl & _). unfold object_set, get_insert. rewrite He, rbind_Ok.
  destruct (set_value_items o1 p _ v Hw1 Hl) as (o2 & Hs & Hw2 & Hh2 & Hi2). exists o2. split; [done|]. split; [done|]. split.
  - intros E. pose proof (wf_hash _ Hw2) as H. rewrite bool_decide_eq_true_2 in H by done. rewrite Hh2 in E.
    pose proof (wf_hash _ Hw1) as H1. rewrite bool_decide_eq_true_2 in H1 by done. destruct Hl as ([k Hk] & _). by rewrite H1 in Hk.
  - unfold set_pairs, set_key. cbn [to_object fst snd]. rewrite Hi2, Hi. by destruct (Json.find_insert (items o) key JNull).
Qed.

Lemma iterate_items os : forall n o i, live_os os -> drop i (oj_os o) = os -> (length os < n)%nat ->
  iterate n o (fix_iterator o (Z.of_nat i)) = Ok (items_of os).
Proof.
  induction os as [|it os IH]; intros n o i Hl Hd Hn; unfold fix_iterator; rewrite Nat2Z.id, Hd; cbn [fix_from].
  - destruct n; [cbn in Hn; lia|done].
  - apply Forall_cons in Hl as [Hit Hl]. cbn in Hit. assert (drop (S i) (oj_os o) = os) as Hd' by (rewrite <- Nat.add_1_r, <- drop_drop, Hd; done).
    assert (oj_os o !! i = Some it) as Hlook by (rewrite <- (Nat.add_0_r i), <- lookup_drop, Hd; done).
    destruct (oi_v it) as [[k v]|] eqn:Hv.
    + rewrite (proj2 (Z.eqb_neq _ _)) by lia. destruct n as [|n]; [cbn in Hn; lia|]. cbn [iterate]. rewrite (proj2 (Z.ltb_ge _ _)) by lia.
      unfold item_v, item. assert (aget (oj_os o) (Z.of_nat i) = Ok it) as -> by (apply aget_ok; rewrite Nat2Z.id; split; [lia|done]).
      rewrite rbind_Ok, Hv, rbind_Ok. replace (Z.of_nat i + 1) with (Z.of_nat (S i)) by lia.
      rewrite (IH n o (S i) Hl Hd') by (cbn in Hn; lia). rewrite rbind_Ok. cbn. by rewrite Hv.
    + rewrite Hit. change (-2 =? -2) with true. cbn iota. replace (Z.of_nat i + 1) with (Z.of_nat (S i)) by lia.
      pose proof (IH n o (S i) Hl Hd') as H. unfold fix_iterator in H. rewrite Nat2Z.id, Hd' in H. rewrite H by (cbn in Hn; lia).
      unfold items_of. cbn. by rewrite Hv.
Qed.

(** Iterating visits the live items in the order of insertion. *)
Lemma object_pairs_items o : object_wf o -> object_pairs o = Ok (items o).
Proof.
  intros Hw. unfold object_pairs. change 0 with (Z.of_nat 0). apply (iterate_items (oj_os o)); [apply (wf_live _ Hw)|done|lia].
Qed.

Lemma clear_object_wf o : object_wf o -> object_wf (clear_object o).
Proof.
  intros Hw. pose proof Hw as [H1 H2 H3 H4 H5 H6]. split; cbn; try constructor.
  - rewrite length_replicate. destruct (oj_hash o); [done|]. cbn. by rewrite bool_decide_eq_false_2 in * by done.
  - intros b h Hb. cbn in Hb. apply lookup_replicate in Hb as [-> _]. exists []. split; [constructor|]. split; [constructor|].
    intros p. split; [by intros ?%not_elem_of_nil|]. by intros (_ & k & Hk & _).
  - unfold oj_n in *. cbn in *. lia.
Qed.

(** Merging sets the other object's pairs in their order. *)
Definition buckets (o : ObjectJson) : bool := negb (bool_decide (oj_hash o = [])).

Lemma has_buckets o : oj_hash o <> [] -> buckets o = true.
Proof. intros H. unfold buckets. by rewrite bool_decide_eq_false_2. Qed.

Lemma merge_items_ok os : forall o, object_wf o -> live_os os ->
  exists o', merge_items o os = Ok o' /\ object_wf o' /\ items o' = fold_left set_pairs (items_of os) (items o) /\
    buckets o' = buckets o || negb (bool_decide (items_of os = [])).
Proof.
  induction os as [|it os IH]; intros o Hw Hl; [exists o; cbn; by rewrite orb_false_r|]. apply Forall_cons in Hl as [Hit Hl]. cbn [merge_items].
  unfold items_of. cbn [omap list_omap]. destruct (oi_v it) as [[k v]|] eqn:Hv.
  - rewrite (proj2 (Z.ltb_lt _ _)) by lia. destruct (object_set_items o k v Hw) as (o1 & He & Hw1 & Hne & Hi). unfold object_set in He. rewrite He, rbind_Ok.
    destruct (IH o1 Hw1 Hl) as (o' & Hm & Hw' & Hi' & Hb). exists o'. rewrite Hi', Hi, Hb, (has_buckets o1) by done. by rewrite orb_true_r.
  - rewrite Hit. change (-2 <? -2) with false. cbn iota. rewrite rbind_Ok. by apply IH.
Qed.

Lemma insert_array_ok a : forall i o, object_wf o ->
  exists o', insert_array i a o = Ok o' /\ object_wf o' /\ items o' = array_items i a (items o).
Proof.
  induction a as [|x a IH]; intros i o Hw; [by exists o|]. cbn [insert_array array_items].
  destruct (find_insert_items o (decimal i) x Hw) as (o1 & p & He & Hw1 & Hi & _ & _). rewrite He, rbind_Ok. cbn [fst].
  destruct (IH (i + 1) o1 Hw1) as (o' & Ha & Hw' & Hi'). exists o'. split; [done|]. split; [done|]. by rewrite Hi', Hi.
Qed.

(** ** Sequences of methods

    What a client of an object can do, and what it sees; the same on a list of
    pairs with a mark that the object has had an item since it was made. *)

Inductive method :=
  | MSet (key : bytes) (value : Json)
  | MInsert (key : bytes) (value : Json)
  | MErase (key : bytes)
  | MCount (key : bytes)
  | MGet (key : bytes)
  | MMerge (x : list (bytes * Json))
  | MPairs
  | MCopy
  | MClear.

Inductive answer := ANone | ANumber (n : Z) | AValue (j : Json) | APairs (l : list (bytes * Json)).

Fixpoint set_all (o : ObjectJson) (l : list (bytes * Json)) : res ObjectJson :=
  match l with
  | [] => Ok o
  | (key, value) :: l => let? o := object_set o key value in set_all o l
  end.

Definition run_method (o : ObjectJson) (m : method) : res (ObjectJson * answer) :=
  match m with
  | MSet key value => let? o := object_set o key value in Ok (o, ANone)
  | MInsert key value => let? r := object_insert o key value in Ok (fst (fst r), ANumber (Z.b2z (snd r)))
  | MErase key => let? r := erase o key in Ok (fst r, ANumber (snd r))
  | MCount key => let? n := object_count o key in Ok (o, ANumber n)
  | MGet key => let? v := object_get o key in Ok (o, AValue v)
  | MMerge l => let? x := set_all new_object l in let? o := merge o x in Ok (o, ANone)
  | MPairs => let? l := object_pairs o in Ok (o, APairs l)
  | MCopy => Ok (copy_object o, ANone)
  | MClear => Ok (clear_object o, ANone)
  end.

Record pairs_state := Pairs { ps_items : list (bytes * Json); ps_buckets : bool }.

Definition spec_method (s : pairs_state) (m : method) : res (pairs_state * answer) :=
  let l := ps_items s in
  match m with
  | MSet key value => Ok (Pairs (set_pairs l (key, value)) true, ANone)
  | MInsert key value => Ok (Pairs (fst (Json.find_insert l key value)) true, ANumber (if find_key l key is Some _ then 0 else 1))
  | MErase key =>
    if ps_buckets s then Ok (Pairs (erase_key l key) true, ANumber (if find_key l key is Some _ then 1 else 0))
    else Fault OutOfBounds
  | MCount key => Ok (s, ANumber (if find_key l key is Some _ then 1 else 0))
  | MGet key => Ok (s, AValue (match find_key l key with Some i => from_option snd JNull (l !! i) | None => JNull end))
  | MMerge x =>
    let x := fold_left set_pairs x [] in
    Ok (Pairs (fold_left set_pairs x l) (ps_buckets s || negb (bool_decide (x = []))), ANone)
  | MPairs => Ok (s, APairs l)
  | MCopy => Ok (s, ANone)
  | MClear => Ok (Pairs [] (ps_buckets s), ANone)
  end.

(** A sequence of methods: the answers, up to a fault. *)
Fixpoint run {S} (step : S -> method -> res (S * answer)) (s : S) (ms : list method) : res (list answer) :=
  match ms with
  | [] => Ok []
  | m :: ms =>
    let? r := step s m in
    let? l := run step (fst r) ms in
    Ok (snd r :: l)
  end.

Definition simulates (o : ObjectJson) (s : pairs_state) : Prop :=
  object_wf o /\ items o = ps_items s /\ ps_buckets s = buckets o.

(** What a position found says of the key. *)
Lemma live_buckets o p i : object_wf o -> live_at o p i -> buckets o = true.
Proof.
  intros Hw ([k Hk] & _). apply has_buckets. intros E. pose proof (wf_hash _ Hw) as H.
  rewrite bool_decide_eq_true_2 in H by done. by rewrite H in Hk.
Qed.

Lemma set_all_ok l : forall o, object_wf o -> exists o', set_all o l = Ok o' /\ object_wf o' /\ items o' = fold_left set_pairs l (items o).
Proof.
  induction l as [|[k v] l IH]; intros o Hw; [by exists o|]. cbn [set_all].
  destruct (object_set_items o k v Hw) as (o1 & -> & Hw1 & _ & Hi). rewrite rbind_Ok. destruct (IH o1 Hw1) as (o' & -> & Hw' & Hi'). exists o'. by rewrite Hi', Hi.
Qed.

Lemma copy_object_same o : copy_object o = o.
Proof. destruct o. unfold copy_object, grow. cbn. by destruct (_ =? 0). Qed.

(** Each method does on the table what it does on the list. *)
Lemma method_simulates o s m : simulates o s ->
  match spec_method s m with
  | Ok (s', a) => exists o', run_method o m = Ok (o', a) /\ simulates o' s'
  | Fault f => run_method o m = Fault f
  end.
Proof.
  destruct s as [l b]. intros (Hw & Hl & Hb). cbn in Hl, Hb. subst l b. destruct m as [k v|k v|k|k|k|x| | |]; cbn [spec_method run_method ps_items ps_buckets].
  - destruct (object_set_items o k v Hw) as (o' & -> & Hw' & Hne & Hi). exists o'. split; [done|]. split; [done|]. split; [done|]. by rewrite has_buckets.
  - destruct (find_insert_items o k v Hw) as (o' & p & He & Hw' & Hi & Hp & Hn). unfold object_insert. rewrite He, !rbind_Ok. cbn [fst snd].
    exists o'. rewrite Hn. split; [done|]. split; [done|]. split; [done|]. by rewrite (live_buckets o' p _ Hw' Hp).
  - unfold buckets at 1. case_bool_decide as E; cbn [negb]; [by rewrite erase_no_buckets|].
    destruct (erase_items o k Hw E) as (o' & -> & Hw' & Hne & Hi). exists o'. split; [done|]. split; [done|]. split; [done|]. by rewrite has_buckets.
  - destruct (find_refines o k Hw) as (p & Hf & Hp). unfold object_count. rewrite Hf, !rbind_Ok. exists o. split; [|done]. do 2 f_equal.
    destruct (find_key (items o) k); [destruct Hp as (q & -> & _); by rewrite (proj2 (Z.leb_le _ _)) by lia|by subst].
  - destruct (find_refines o k Hw) as (p & Hf & Hp). unfold object_get. rewrite Hf, !rbind_Ok. exists o. split; [|done].
    destruct (find_key (items o) k); [|by subst]. destruct Hp as (q & -> & Hq). rewrite (proj2 (Z.leb_le _ _)) by lia.
    destruct (item_v_live _ _ _ Hq) as (k' & v & -> & ->). done.
  - destruct (set_all_ok x new_object new_object_wf) as (ox & -> & Hwx & Hix). rewrite rbind_Ok. unfold merge.
    destruct (merge_items_ok (oj_os ox) o Hw (wf_live _ Hwx)) as (o' & -> & Hw' & Hi' & Hb). exists o'. fold (items ox) in Hi', Hb.
    by rewrite Hix in Hi', Hb.
  - rewrite object_pairs_items by done. by exists o.
  - rewrite copy_object_same. by exists o.
  - exists (clear_object o). split; [done|]. split; [by apply clear_object_wf|]. split; [done|]. unfold buckets. cbn. by destruct (oj_hash o).
Qed.

(** C34: Whatever methods are called one after the other on a new object, the hash
    table answers them as a list of pairs in the order of insertion does; the one
    fault is erasing a key from an object that has had no item, where the bucket
    array is empty.  Sizes have no bound here: what the theorem says of the code
    is for tables of less than 2^31 buckets. *)
Theorem object_refines_pairs (ms : list method) :
  run run_method new_object ms = run spec_method (Pairs [] false) ms.
Proof.
  assert (simulates new_object (Pairs [] false)) as H by (repeat split; apply new_object_wf).
  revert H. generalize new_object (Pairs [] false). induction ms as [|m ms IH]; intros o s H; [done|]. cbn [run].
  pose proof (method_simulates o s m H) as Hm. destruct (spec_method s m) as [[s' a]|f].
  - destruct Hm as (o' & -> & H'). rewrite !rbind_Ok. cbn [fst snd]. by rewrite (IH _ _ H').
  - by rewrite Hm.
Qed.
