(* ===== verification/Msgpack.v ===== *)
(** * MessagePack (msgpack.hh, msgpack.cc)

    The writers of the formats, the unparser of JSON values, the parser that reads
    from a complete buffer and the parser that is fed buffers as they come. *)

From S2P Require Export Json.

#[local] Open Scope Z_scope.
#[local] Open Scope lhm_scope.

(** ** Network order (compiler.hh) *)

(** [write_in_net_order], [read_in_net_order] of [n]-byte integers. *)
Definition net_bytes (n : nat) (x : Z) : bytes := rev (le_bytes n x).
Definition net_value (s : bytes) : Z := le_value (rev s).
Definition net_signed (s : bytes) : Z := Word.signed (8 * Z.of_nat (length s)) (net_value s).

(** A float's bits widened to a double's; a NaN is made quiet. *)
Definition float_to_double (f : Z) : Z :=
  let sign := Z.shiftl (Z.shiftr f 31) 63 in
  let e := Z.land (Z.shiftr f 23) 255 in
  let m := Z.land f (2 ^ 23 - 1) in
  if e =? 255 then
    Z.lor sign (Z.lor (Z.shiftl 2047 52) (if m =? 0 then 0 else Z.lor (2 ^ 51) (Z.shiftl m 29)))
  else if e =? 0 then
    if m =? 0 then sign
    else
      let k := Z.log2 m in
      Z.lor sign (Z.lor (Z.shiftl (k - 149 + 1023) 52) (Z.shiftl (m - 2 ^ k) (52 - k)))
  else Z.lor sign (Z.lor (Z.shiftl (e - 127 + 1023) 52) (Z.shiftl m 29)).

(** A float returned as a double and converted back: [host_to_net_order(float)]
    and [net_to_host_order(float)] return [double]. *)
Definition through_double (f : Z) : Z :=
  if (Z.land (Z.shiftr f 23) 255 =? 255) && negb (Z.land f (2 ^ 23 - 1) =? 0) then Z.lor f (2 ^ 22) else f.
Definition float_to_net (f : Z) : bytes := le_bytes 4 (through_double (le_value (rev (le_bytes 4 f)))).
Definition float_of_net (s : bytes) : Z := through_double (net_value s).

(** ** Formats *)

Module format.
Definition ffixmap : Z := 0x80.
Definition nfixmap : Z := 0x10.
Definition ffixarray : Z := 0x90.
Definition nfixarray : Z := 0x10.
Definition ffixstr : Z := 0xA0.
Definition nfixstr : Z := 0x20.
Definition fnull : Z := 0xC0.
Definition ffalse : Z := 0xC2.
Definition fbin8 : Z := 0xC4.
Definition fbin16 : Z := 0xC5.
Definition fbin32 : Z := 0xC6.
Definition ffloat32 : Z := 0xCA.
Definition ffloat64 : Z := 0xCB.
Definition fuint8 : Z := 0xCC.
Definition fuint16 : Z := 0xCD.
Definition fuint32 : Z := 0xCE.
Definition fuint64 : Z := 0xCF.
Definition fint8 : Z := 0xD0.
Definition fint16 : Z := 0xD1.
Definition fint32 : Z := 0xD2.
Definition fint64 : Z := 0xD3.
Definition fstr8 : Z := 0xD9.
Definition fstr16 : Z := 0xDA.
Definition fstr32 : Z := 0xDB.
Definition farray16 : Z := 0xDC.
Definition farray32 : Z := 0xDD.
Definition fmap16 : Z := 0xDE.
Definition fmap32 : Z := 0xDF.
Definition nfixuint : Z := 0x80.
Definition nfixnegint : Z := 0x20.
Definition nfixint : Z := nfixuint + nfixnegint.

Definition in_range (x low n : Z) : bool := Word.subw 32 x low <? n.
Definition in_wrapped_range (x low n : Z) : bool := Word.subw 32 (Word.wrap 32 (Word.signed 8 x)) low <? n.
Definition is_fixint (x : Z) : bool := in_wrapped_range x (Word.wrap 32 (- nfixnegint)) nfixint.
Definition is_null_or_bool (x : Z) : bool := in_range x fnull 4.
Definition is_bool (x : Z) : bool := in_range x ffalse 2.
Definition is_fixstr (x : Z) : bool := in_range x ffixstr nfixstr.
Definition is_fixarray (x : Z) : bool := in_range x ffixarray nfixarray.
Definition is_fixmap (x : Z) : bool := in_range x ffixmap nfixmap.

Definition write_bool (x : bool) : bytes := [ffalse + Z.b2z x].
Definition write_unsigned4 (x : Z) : bytes :=
  if x <? nfixuint then [x]
  else if x <? 256 then [fuint8; x]
  else if x <? 65536 then fuint16 :: net_bytes 2 x
  else fuint32 :: net_bytes 4 x.
Definition write_signed4 (x : Z) : bytes :=
  if Word.addw 32 x nfixnegint <? nfixint then [Word.wrap 8 x]
  else if Word.addw 32 x 128 <? 256 then [fint8; Word.wrap 8 x]
  else if Word.addw 32 x 32768 <? 65536 then fint16 :: net_bytes 2 x
  else fint32 :: net_bytes 4 x.
Definition write_unsigned8 (x : Z) : bytes :=
  if x <? 4294967296 then write_unsigned4 x else fuint64 :: net_bytes 8 x.
Definition write_signed8 (x : Z) : bytes :=
  if Word.addw 64 x 2147483648 <? 4294967296 then write_signed4 x else fint64 :: net_bytes 8 x.
Definition write_wide_unsigned (x : Z) : bytes := fuint64 :: net_bytes 8 x.
Definition write_wide_signed (x : Z) : bytes := fint64 :: net_bytes 8 x.
Definition write_float (x : Z) : bytes := ffloat32 :: float_to_net x.
Definition write_double (x : Z) : bytes := ffloat64 :: net_bytes 8 x.
Definition write_string (data : bytes) : bytes :=
  let len := Z.of_nat (length data) in
  (if len <? nfixstr then [ffixstr + len]
   else if len <? 256 then [fstr8; len]
   else if len <? 65536 then fstr16 :: net_bytes 2 len
   else fstr32 :: net_bytes 4 len) ++ data.
Definition write_array_header (size : Z) : bytes :=
  if size <? nfixarray then [ffixarray + size]
  else if size <? 65536 then farray16 :: net_bytes 2 size
  else farray32 :: net_bytes 4 size.
Definition write_map_header (size : Z) : bytes :=
  if size <? nfixmap then [ffixmap + size]
  else if size <? 65536 then fmap16 :: net_bytes 2 size
  else fmap32 :: net_bytes 4 size.
End format.
Import format.

(** ** The unparser *)

Fixpoint unparse (j : Json) : bytes :=
  match j with
  | JNull => [fnull]
  | JBool b => write_bool b
  | JUnsigned x => write_unsigned8 x
  | JInt x => write_signed8 x
  | JDouble d => write_double d
  | JString s => write_string s
  | JArray a => write_array_header (Z.of_nat (length a)) ++ flat_map unparse a
  | JObject o =>
    write_map_header (Z.of_nat (length o)) ++ flat_map (fun kv => write_string (fst kv) ++ unparse (snd kv)) o
  end.

(** ** The streaming parser *)

(** Bytes after the format byte and with it, from [0xC0]; 0 is no format. *)
Definition nbytes : list Z :=
  [0; 0; 0; 0; 2; 3; 5; 0; 0; 0; 5; 9; 2; 3; 5; 9; 2; 3; 5; 9; 0; 0; 0; 0; 0; 2; 3; 5; 3; 5; 3; 5].

Definition st_final : Z := -2.
Definition st_error : Z := -1.
Definition st_normal : Z := 0.
Definition st_partial : Z := 1.
Definition st_string : Z := 2.

(** A [Json*]: null, [&jokey_], or a place in [json_] as the positions from the
    innermost one out. *)
Inductive jptr :=
  | NullJ
  | KeyJ
  | At (path : list nat).

Record selem := Selem { se_jp : jptr; se_size : Z }.

Record streaming_parser := StreamingParser {
  sp_state : Z;
  sp_stack : list selem;
  sp_str : bytes;
  sp_json : Json;
  sp_jokey : Json
}.

Definition set_state s p := StreamingParser s (sp_stack p) (sp_str p) (sp_json p) (sp_jokey p).
Definition set_stack s p := StreamingParser (sp_state p) s (sp_str p) (sp_json p) (sp_jokey p).
Definition set_str s p := StreamingParser (sp_state p) (sp_stack p) s (sp_json p) (sp_jokey p).
Definition set_json j p := StreamingParser (sp_state p) (sp_stack p) (sp_str p) j (sp_jokey p).
Definition set_jokey j p := StreamingParser (sp_state p) (sp_stack p) (sp_str p) (sp_json p) j.

Definition new_streaming_parser : streaming_parser := StreamingParser st_normal [] [] JNull JNull.
Definition reset (p : streaming_parser) : streaming_parser := set_stack [] (set_state st_normal p).
Definition empty (p : streaming_parser) : bool := (sp_state p =? st_normal) && bool_decide (length (sp_stack p) = 0%nat).
Definition done (p : streaming_parser) : bool := sp_state p <? 0.
Definition success (p : streaming_parser) : bool := sp_state p =? st_final.
Definition error (p : streaming_parser) : bool := sp_state p =? st_error.

Definition load (q : jptr) (p : streaming_parser) : res Json :=
  match q with
  | NullJ => Fault NullPointer
  | KeyJ => Ok (sp_jokey p)
  | At path => load_path (rev path) (sp_json p)
  end.
Definition store (q : jptr) (v : Json) (p : streaming_parser) : res streaming_parser :=
  match q with
  | NullJ => Fault NullPointer
  | KeyJ => Ok (set_jokey v p)
  | At path => let? j := store_path (rev path) v (sp_json p) in Ok (set_json j p)
  end.

(** [jx] at the top of the loop, and [jo] for the frame above [rest]. *)
Definition current (p : streaming_parser) : jptr :=
  match sp_stack p with [] => At [] | top :: _ => se_jp top end.
Definition parent (rest : list selem) : jptr :=
  match rest with [] => At [] | e :: _ => se_jp e end.

(** A pointer to the child [i] of what is at [q], and [++top->jp]. *)
Definition child_ptr (q : jptr) (i : nat) : jptr :=
  match q with At path => At (i :: path) | _ => NullJ end.
Definition incr_ptr (q : jptr) : jptr :=
  match q with At (i :: path) => At (S i :: path) | _ => NullJ end.

(** What the bytes at [first] announce: the labels of [consume], with [n] and the
    bytes behind the header. *)
Inductive label :=
  | LValue (v : Json) (rest : bytes)
  | LMap (n : Z) (rest : bytes)
  | LArray (n : Z) (rest : bytes)
  | LRaw (n : Z) (rest : bytes)
  | LPartial
  | LError.

(** [n = read_in_net_order<uint32_t>(...)] stored in an [int]. *)
Definition int_value (s : bytes) : Z := Word.signed 32 (net_value s).

(** The switch on a format whose header is [h] (without the format byte). *)
Definition header_label (type : Z) (h rest : bytes) : label :=
  if type =? ffloat32 then LValue (JDouble (float_to_double (float_of_net h))) rest
  else if type =? ffloat64 then LValue (JDouble (net_value h)) rest
  else if type =? fuint8 then LValue (JInt (net_value h)) rest
  else if type =? fuint16 then LValue (JInt (net_value h)) rest
  else if (type =? fuint32) || (type =? fuint64) then LValue (JUnsigned (net_value h)) rest
  else if (type =? fint8) || (type =? fint16) || (type =? fint32) || (type =? fint64) then LValue (JInt (net_signed h)) rest
  else if (type =? fbin8) || (type =? fstr8) || (type =? fbin16) || (type =? fstr16) || (type =? fbin32) || (type =? fstr32)
  then LRaw (int_value h) rest
  else if (type =? farray16) || (type =? farray32) then LArray (int_value h) rest
  else LMap (int_value h) rest.

Definition read_label (first : Z) (bs : bytes) : label :=
  if is_fixint first then LValue (JInt (Word.signed 8 first)) bs
  else if first =? fnull then LValue JNull bs
  else if is_bool first then LValue (JBool (first =? ffalse + 1)) bs
  else if is_fixmap first then LMap (first - ffixmap) bs
  else if is_fixarray first then LArray (first - ffixarray) bs
  else if is_fixstr first then LRaw (first - ffixstr) bs
  else
    let nb := nthZ 0 nbytes (first - fnull) in
    if nb =? 0 then LError
    else if Z.of_nat (length bs) + 1 <? nb then LPartial
    else header_label first (take (Z.to_nat (nb - 1)) bs) (drop (Z.to_nat (nb - 1)) bs).

(** How an iteration ends: go on, or return to the caller. *)
Inductive progress :=
  | Continue (p : streaming_parser) (bs : bytes)
  | Return (p : streaming_parser) (bs : bytes).

Fixpoint pop_empty (st : list selem) : list selem :=
  match st with
  | [] => []
  | e :: st' => if se_size e =? 0 then pop_empty st' else st
  end.

(** The value is complete. *)
Definition complete (p : streaming_parser) (bs : bytes) : res progress :=
  match pop_empty (sp_stack p) with
  | [] => Ok (Return (set_state st_final (set_stack [] p)) bs)
  | top :: rest =>
    let? jo := load (parent rest) p in
    let jp := if is_a jo then incr_ptr (se_jp top) else KeyJ in
    Ok (Continue (set_stack (Selem jp (se_size top - 1) :: rest) p) bs)
  end.

(** From the label [next]. *)
Definition next (jx : jptr) (n : Z) (p : streaming_parser) (bs : bytes) : res progress :=
  let? v := load jx p in
  match jx, sp_stack p with
  | KeyJ, top :: rest =>
    match key_to_s v with
    | None => Ok (Return (set_state st_error p) bs)
    | Some key =>
      let? jo := load (parent rest) p in
      let (jo, i) := get_insert jo key in
      let? p := store (parent rest) jo p in
      Ok (Continue (set_stack (Selem (child_ptr (parent rest) i) (se_size top) :: rest) p) bs)
    end
  | _, _ =>
    if is_a v && negb (n =? 0) then
      let? v := at_insert v 0 in
      let? p := store jx v p in
      Ok (Continue (set_stack (Selem (child_ptr jx 0) (n - 1) :: sp_stack p) p) bs)
    else if is_o v && negb (n =? 0) then
      Ok (Continue (set_stack (Selem KeyJ (n - 1) :: sp_stack p) p) bs)
    else complete p bs
  end.

(** One iteration of the loop of [consume].  A negative [n] of a string makes
    [String(first, n)] look for a NUL byte and moves [first] back. *)
Definition consume_step (p : streaming_parser) (first : Z) (bs : bytes) : res progress :=
  let jx := current p in
  match read_label first bs with
  | LError => Ok (Return (set_state st_error p) (first :: bs))
  | LPartial => Ok (Return (set_state st_partial (set_str (first :: bs) p)) [])
  | LValue v bs => let? p := store jx v p in next jx 0 p bs
  | LMap n bs => let? p := store jx (JObject []) p in next jx n p bs
  | LArray n bs =>
    let? v := load jx p in
    let? v := resize (if is_a v then v else JArray []) n in
    let? p := store jx v p in
    next jx n p bs
  | LRaw n bs =>
    if Z.of_nat (length bs) <? n then
      Ok (Return (set_state st_string (set_stack (Selem NullJ n :: sp_stack p) (set_str bs p))) [])
    else if n <? 0 then Fault OutOfBounds
    else
      let? p := store jx (JString (take (Z.to_nat n) bs)) p in
      next jx n p (drop (Z.to_nat n) bs)
  end.

(** The loop; an iteration takes at least one byte. *)
Fixpoint consume_loop (fuel : nat) (p : streaming_parser) (bs : bytes) : res (streaming_parser * bytes) :=
  match bs with
  | [] => Ok (set_state st_normal p, [])
  | first :: rest =>
    match fuel with
    | O => Fault OutOfFuel
    | S fuel =>
      let? r := consume_step p first rest in
      match r with
      | Return p bs => Ok (p, bs)
      | Continue p bs => consume_loop fuel p bs
      end
    end
  end.
Definition consume_bytes (p : streaming_parser) (bs : bytes) : res (streaming_parser * bytes) :=
  consume_loop (length bs) p bs.

(** [consume(first, last)]: the parser and the bytes from the returned position. *)
Definition consume (p : streaming_parser) (bs : bytes) : res (streaming_parser * bytes) :=
  if sp_state p <? 0 then Ok (p, bs)
  else if (sp_state p =? st_partial) || (sp_state p =? st_string) then
    let? nneed :=
      (if sp_state p =? st_partial then
         let? b := aget (sp_str p) 0 in aget nbytes (b - 0xC0)
       else match sp_stack p with top :: _ => Ok (se_size top) | [] => Fault OutOfBounds end) in
    let k := Z.to_nat (nneed - Z.of_nat (length (sp_str p))) in
    let p := set_str (sp_str p ++ take k bs) p in
    let bs := drop k bs in
    if negb (Z.of_nat (length (sp_str p)) =? nneed) then Ok (p, bs)
    else if sp_state p =? st_string then
      let p := set_stack (tail (sp_stack p)) p in
      let jx := current p in
      let? p := store jx (JString (sp_str p)) p in
      let? r := next jx 0 p bs in
      match r with
      | Return p bs => Ok (p, bs)
      | Continue p bs => consume_bytes p bs
      end
    else
      let? r := consume_bytes (set_state st_normal p) (sp_str p) in
      let p := fst r in
      if negb (sp_state p =? st_normal) then Ok (p, bs) else consume_bytes p bs
  else consume_bytes p bs.

(** [parse(first, last)] *)
Definition parse (bs : bytes) : res Json :=
  let? r := consume new_streaming_parser bs in
  Ok (if success (fst r) then sp_json (fst r) else JNull).

(** The callers' loop: [while (!done() && there is input) consume]. *)
Fixpoint feed_loop (fuel : nat) (p : streaming_parser) (bs : bytes) : res (streaming_parser * bytes) :=
  match bs with
  | [] => Ok (p, [])
  | _ =>
    if done p then Ok (p, bs)
    else
      match fuel with
      | O => Fault OutOfFuel
      | S fuel => let? r := consume p bs in feed_loop fuel (fst r) (snd r)
      end
  end.
Definition feed (p : streaming_parser) (bs : bytes) : res (streaming_parser * bytes) := feed_loop (length bs) p bs.
