(* ===== verification/MsgpackFacts.v ===== *)
(** * MessagePack: reading back and reading in pieces

    The streaming parser turns what the unparser wrote back into the value, and
    how its input is cut into buffers makes no difference. *)

From S2P Require Export Msgpack.

#[local] Open Scope Z_scope.
#[local] Open Scope lhm_scope.
Import format.

(** ** Values that can be written, and what they read as *)

(** Lengths are [int]s. *)
Definition int_length {A} (l : list A) : Prop := Z.of_nat (length l) < 2 ^ 31.

Fixpoint writable (j : Json) : Prop :=
  match j with
  | JNull | JBool _ => True
  | JInt x => - 2 ^ 63 <= x < 2 ^ 63
  | JUnsigned x | JDouble x => 0 <= x < 2 ^ 64
  | JString s => int_length s
  | JArray a => int_length a /\ fold_right (fun x Q => writable x /\ Q) True a
  | JObject o =>
    int_length o /\ NoDup o.*1 /\ fold_right (fun kv Q => int_length (fst kv) /\ writable (snd kv) /\ Q) True o
  end.

(** Unsigned integers below 65536 come back as [int]s. *)
Fixpoint read_back (j : Json) : Json :=
  match j with
  | JUnsigned x => if x <? 65536 then JInt x else JUnsigned x
  | JArray a => JArray (map read_back a)
  | JObject o => JObject (map (fun kv => (fst kv, read_back (snd kv))) o)
  | _ => j
  end.

Lemma writable_array a : writable (JArray a) <-> int_length a /\ Forall writable a.
Proof.
  cbn. assert (fold_right (fun x Q => writable x /\ Q) True a <-> Forall writable a) as ->; [|done].
  induction a as [|x a IH]; cbn; [by rewrite Forall_nil|]. by rewrite Forall_cons, IH.
Qed.

Lemma writable_object o :
  writable (JObject o) <-> int_length o /\ NoDup o.*1 /\ Forall (fun kv => int_length (fst kv) /\ writable (snd kv)) o.
Proof.
  cbn. assert (fold_right (fun kv Q => int_length (fst kv) /\ writable (snd kv) /\ Q) True o <->
    Forall (fun kv => int_length (fst kv) /\ writable (snd kv)) o) as ->; [|done].
  induction o as [|x o IH]; cbn; [by rewrite Forall_nil|]. rewrite Forall_cons, IH. tauto.
Qed.

(** ** Headers *)

#[global] Arguments net_bytes : simpl never.
#[global] Arguments net_value : simpl never.
#[global] Arguments net_signed : simpl never.
#[global] Arguments int_value : simpl never.

Lemma net_value_bytes n x : net_value (net_bytes n x) = x mod 2 ^ (8 * Z.of_nat n).
Proof. unfold net_value, net_bytes. by rewrite rev_involutive, le_value_bytes. Qed.

Lemma length_net_bytes n x : length (net_bytes n x) = n.
Proof. unfold net_bytes. by rewrite length_rev, length_le_bytes. Qed.

Lemma net_value_small n x : 0 <= x < 2 ^ (8 * Z.of_nat n) -> net_value (net_bytes n x) = x.
Proof. intros H. by rewrite net_value_bytes, Z.mod_small. Qed.

Lemma signed_wrap b x : 0 < b -> - 2 ^ (b - 1) <= x < 2 ^ (b - 1) -> Word.signed b (Word.wrap b x) = x.
Proof.
  intros Hb Hx. unfold Word.signed. rewrite Word.wrap_idemp by lia. cbn zeta.
  assert (2 ^ b = 2 * 2 ^ (b - 1)) as Hp by (rewrite <- Z.pow_succ_r by lia; f_equal; lia). unfold Word.wrap.
  destruct (Z.le_gt_cases 0 x).
  - rewrite Z.mod_small by lia. rewrite (proj2 (Z.ltb_lt _ _)) by lia. done.
  - rewrite <- (Z.mod_add x 1) by lia. rewrite Z.mod_small by lia. rewrite (proj2 (Z.ltb_ge _ _)) by lia. lia.
Qed.

Lemma net_signed_bytes n x : (0 < n)%nat -> - 2 ^ (8 * Z.of_nat n - 1) <= x < 2 ^ (8 * Z.of_nat n - 1) ->
  net_signed (net_bytes n x) = x.
Proof. intros Hn Hx. unfold net_signed. rewrite length_net_bytes, net_value_bytes. apply signed_wrap; [lia|done]. Qed.

Lemma int_value_small n x : 0 <= x < 2 ^ (8 * Z.of_nat n) -> x < 2 ^ 31 -> int_value (net_bytes n x) = x.
Proof. intros H Hx. unfold int_value. rewrite net_value_small by done. etrans; [|apply (signed_wrap 32); lia]. by rewrite (Word.wrap_small 32) by (split; lia). Qed.

(** A header of [n] bytes after the format byte [f]. *)
Lemma read_header f n h rest :
  f ∈ [fbin8; fbin16; fbin32; ffloat32; ffloat64; fuint8; fuint16; fuint32; fuint64; fint8; fint16; fint32; fint64;
       fstr8; fstr16; fstr32; farray16; farray32; fmap16; fmap32] ->
  nthZ 0 nbytes (f - fnull) = Z.of_nat n + 1 -> length h = n -> read_label f (h ++ rest) = header_label f h rest.
Proof.
  intros Hf Hn Hh. unfold read_label.
  assert (is_fixint f = false /\ (f =? fnull) = false /\ is_bool f = false /\ is_fixmap f = false /\ is_fixarray f = false /\ is_fixstr f = false)
    as (-> & -> & -> & -> & -> & ->) by (repeat (apply elem_of_cons in Hf as [->|Hf]; [by vm_compute|]); by apply not_elem_of_nil in Hf).
  cbn zeta. rewrite Hn, (proj2 (Z.eqb_neq _ 0)) by lia. rewrite length_app, (proj2 (Z.ltb_ge _ _)) by lia.
  replace (Z.to_nat (Z.of_nat n + 1 - 1)) with n by lia. by rewrite take_app_length', drop_app_length'.
Qed.

Ltac header n := rewrite (read_header _ n); [|by refine (bool_decide_unpack _ _)|done|by rewrite ?length_net_bytes].

Lemma fixint_small x : -32 <= x < 128 -> is_fixint (Word.wrap 8 x) = true /\ Word.signed 8 (Word.wrap 8 x) = x.
Proof.
  intros Hx. pose proof (signed_wrap 8 x ltac:(lia) ltac:(lia)) as Hs. split; [|done].
  unfold is_fixint, in_wrapped_range. rewrite Hs. unfold Word.subw, Word.wrap, nfixint, nfixuint, nfixnegint. apply Z.ltb_lt.
  rewrite <- Zminus_mod. replace (x - - 32) with (x + 32) by lia. rewrite Z.mod_small; lia.
Qed.

(** The formats the writers of integers choose, the 64-bit ones for wide integers. *)
Inductive signed_format (wide : bool) (x : Z) : bytes -> Prop :=
  | signed_fix : -32 <= x < 128 -> signed_format wide x [Word.wrap 8 x]
  | signed_int8 : -128 <= x < 128 -> signed_format wide x (fint8 :: net_bytes 1 x)
  | signed_int16 : - 2 ^ 15 <= x < 2 ^ 15 -> signed_format wide x (fint16 :: net_bytes 2 x)
  | signed_int32 : - 2 ^ 31 <= x < 2 ^ 31 -> signed_format wide x (fint32 :: net_bytes 4 x)
  | signed_int64 : wide = true -> - 2 ^ 63 <= x < 2 ^ 63 -> signed_format wide x (fint64 :: net_bytes 8 x).

Inductive unsigned_format (wide : bool) (x : Z) : bytes -> Prop :=
  | unsigned_fix : 0 <= x < 128 -> unsigned_format wide x [x]
  | unsigned_uint8 : 0 <= x < 256 -> unsigned_format wide x (fuint8 :: net_bytes 1 x)
  | unsigned_uint16 : 0 <= x < 65536 -> unsigned_format wide x (fuint16 :: net_bytes 2 x)
  | unsigned_uint32 : 65536 <= x < 2 ^ 32 -> unsigned_format wide x (fuint32 :: net_bytes 4 x)
  | unsigned_uint64 : wide = true -> 65536 <= x < 2 ^ 64 -> unsigned_format wide x (fuint64 :: net_bytes 8 x).

Lemma write_signed4_format wide x : - 2 ^ 31 <= x < 2 ^ 31 -> signed_format wide x (write_signed4 x).
Proof.
  intros Hx. unfold write_signed4.
  assert (forall k m, 0 <= k -> 0 <= m < 2 ^ 31 -> (Word.addw 32 x k <? m) = true -> k <= m -> k <= 2 ^ 15 -> - k <= x < m - k) as Hr.
  { intros k m Hk Hm H%Z.ltb_lt Hkm Hk'. unfold Word.addw, Word.wrap in H. destruct (Z.le_gt_cases 0 (x + k)).
    - rewrite Z.mod_small in H by lia. lia.
    - rewrite <- (Z.mod_add (x + k) 1), Z.mod_small in H by lia. lia. }
  destruct (Word.addw 32 x nfixnegint <? nfixint) eqn:H1.
  { apply Hr in H1; [|done..]. unfold nfixint, nfixuint, nfixnegint in H1. constructor. lia. }
  destruct (Word.addw 32 x 128 <? 256) eqn:H2.
  { apply Hr in H2; [|done..]. change [fint8; Word.wrap 8 x] with (fint8 :: net_bytes 1 x). constructor. lia. }
  destruct (Word.addw 32 x 32768 <? 65536) eqn:H3; [|by constructor]. apply Hr in H3; [|done..]. constructor. lia.
Qed.

Lemma write_signed8_format x : - 2 ^ 63 <= x < 2 ^ 63 -> signed_format true x (write_signed8 x).
Proof.
  intros Hx. unfold write_signed8. destruct (Word.addw 64 x 2147483648 <? 4294967296) eqn:H1; [|by constructor].
  apply Z.ltb_lt in H1. unfold Word.addw, Word.wrap in H1. apply write_signed4_format. destruct (Z.le_gt_cases 0 (x + 2147483648)).
  - destruct (Z.lt_ge_cases (x + 2147483648) (2 ^ 64)); [rewrite Z.mod_small in H1 by lia; lia|lia].
  - rewrite <- (Z.mod_add (x + 2147483648) 1), Z.mod_small in H1 by lia. lia.
Qed.

Lemma write_unsigned4_format wide x : 0 <= x < 2 ^ 32 -> unsigned_format wide x (write_unsigned4 x).
Proof.
  intros Hx. unfold write_unsigned4. destruct (Z.ltb_spec x nfixuint) as [H1|H1]; unfold nfixuint in H1.
  { constructor. lia. }
  destruct (Z.ltb_spec x 256) as [H2|H2].
  { replace [fuint8; x] with (fuint8 :: net_bytes 1 x) by (unfold net_bytes; cbn; by rewrite Z.mod_small by lia). constructor. lia. }
  destruct (Z.ltb_spec x 65536) as [H3|H3]; constructor; lia.
Qed.

Lemma write_unsigned8_format x : 0 <= x < 2 ^ 64 -> unsigned_format true x (write_unsigned8 x).
Proof.
  intros Hx. unfold write_unsigned8. destruct (Z.ltb_spec x 4294967296); [apply write_unsigned4_format; lia|constructor; lia].
Qed.

(** What the streaming parser takes them for. *)
Lemma label_signed8 x rest : - 2 ^ 63 <= x < 2 ^ 63 ->
  exists f h, write_signed8 x = f :: h /\ read_label f (h ++ rest) = LValue (JInt x) rest.
Proof.
  intros Hx. destruct (write_signed8_format x Hx) as [H|H|H|H|_ H]; eexists _, _; (split; [done|]).
  { destruct (fixint_small x H) as [Hf Hv]. unfold read_label. rewrite Hf. cbn. by rewrite Hv. }
  1: header 1%nat. 2: header 2%nat. 3: header 4%nat. 4: header 8%nat.
  all: unfold header_label; cbn; (rewrite net_signed_bytes; [done|lia|cbn; lia]).
Qed.

Lemma label_unsigned8 x rest : 0 <= x < 2 ^ 64 ->
  exists f h, write_unsigned8 x = f :: h /\ read_label f (h ++ rest) = LValue (read_back (JUnsigned x)) rest.
Proof.
  intros Hx. cbn [read_back]. destruct (write_unsigned8_format x Hx) as [H|H|H|H|_ H]; eexists _, _; (split; [done|]);
    try rewrite (proj2 (Z.ltb_lt x 65536)) by lia; try rewrite (proj2 (Z.ltb_ge x 65536)) by lia.
  { destruct (fixint_small x ltac:(lia)) as [Hf Hv]. rewrite Word.wrap_small in Hf, Hv by (split; lia). unfold read_label. rewrite Hf. cbn. by rewrite Hv. }
  1: header 1%nat. 2: header 2%nat. 3: header 4%nat. 4: header 8%nat.
  all: unfold header_label; cbn; by rewrite net_value_small by (cbn; lia).
Qed.

(** Lengths: in the format byte, or in the bytes after it. *)
Lemma fix_labels rest :
  Forall (fun x => read_label (ffixmap + x) rest = LMap x rest) (seqZ 0 nfixmap) /\
  Forall (fun x => read_label (ffixarray + x) rest = LArray x rest) (seqZ 0 nfixarray) /\
  Forall (fun x => read_label (ffixstr + x) rest = LRaw x rest) (seqZ 0 nfixstr).
Proof. split; [|split]; repeat (constructor; [reflexivity|]); constructor. Qed.

Lemma fixed {P : Z -> Prop} n x : Forall P (seqZ 0 n) -> 0 <= x < n -> P x.
Proof. rewrite Forall_forall. intros H Hx. apply H, elem_of_seqZ. lia. Qed.

Lemma label_array_header x rest : 0 <= x < 2 ^ 31 ->
  exists f h, write_array_header x = f :: h /\ read_label f (h ++ rest) = LArray x rest.
Proof.
  intros Hx. unfold write_array_header. destruct (Z.ltb_spec x nfixarray) as [H1|H1].
  { eexists _, []. split; [done|]. apply (fixed nfixarray (P := fun x => read_label (ffixarray + x) rest = LArray x rest)); [apply fix_labels|lia]. }
  destruct (Z.ltb_spec x 65536) as [H2|H2].
  - eexists _, _. split; [done|]. header 2%nat. unfold header_label. cbn. by rewrite int_value_small by (cbn; lia).
  - eexists _, _. split; [done|]. header 4%nat. unfold header_label. cbn. by rewrite int_value_small by (cbn; lia).
Qed.

Lemma label_map_header x rest : 0 <= x < 2 ^ 31 ->
  exists f h, write_map_header x = f :: h /\ read_label f (h ++ rest) = LMap x rest.
Proof.
  intros Hx. unfold write_map_header. destruct (Z.ltb_spec x nfixmap) as [H1|H1].
  { eexists _, []. split; [done|]. apply (fixed nfixmap (P := fun x => read_label (ffixmap + x) rest = LMap x rest)); [apply fix_labels|lia]. }
  destruct (Z.ltb_spec x 65536) as [H2|H2].
  - eexists _, _. split; [done|]. header 2%nat. unfold header_label. cbn. by rewrite int_value_small by (cbn; lia).
  - eexists _, _. split; [done|]. header 4%nat. unfold header_label. cbn. by rewrite int_value_small by (cbn; lia).
Qed.

Lemma label_string s rest : int_length s ->
  exists f h, write_string s = f :: h /\ read_label f (h ++ rest) = LRaw (Z.of_nat (length s)) (s ++ rest).
Proof.
  unfold int_length. intros Hx. unfold write_string. cbn zeta. set (x := Z.of_nat (length s)) in *.
  destruct (Z.ltb_spec x nfixstr) as [H1|H1].
  { eexists _, s. split; [done|]. apply (fixed nfixstr (P := fun x => read_label (ffixstr + x) (s ++ rest) = LRaw x (s ++ rest))); [apply fix_labels|lia]. }
  destruct (Z.ltb_spec x 256) as [H2|H2].
  { eexists _, ([x] ++ s). split; [done|]. rewrite <- app_assoc. assert ([x] = net_bytes 1 x) as -> by (unfold net_bytes; cbn; by rewrite Z.mod_small by lia).
    header 1%nat. unfold header_label. cbn. by rewrite int_value_small by (cbn; lia). }
  destruct (Z.ltb_spec x 65536) as [H3|H3].
  - eexists _, (_ ++ s). split; [done|]. rewrite <- app_assoc. header 2%nat. unfold header_label. cbn. by rewrite int_value_small by (cbn; lia).
  - eexists _, (_ ++ s). split; [done|]. rewrite <- app_assoc. header 4%nat. unfold header_label. cbn. by rewrite int_value_small by (cbn; lia).
Qed.

Lemma label_double d rest : 0 <= d < 2 ^ 64 ->
  exists f h, write_double d = f :: h /\ read_label f (h ++ rest) = LValue (JDouble d) rest.
Proof. intros Hd. eexists _, _. split; [done|]. header 8%nat. unfold header_label. cbn. by rewrite net_value_small by (cbn; lia). Qed.

(** ** The loop *)

(** The label leaves the bytes behind the header. *)
Lemma read_label_rest first bs :
  match read_label first bs with
  | LValue _ b | LMap _ b | LArray _ b | LRaw _ b => (length b <= length bs)%nat
  | _ => True
  end.
Proof.
  unfold read_label. cbn zeta.
  repeat (match goal with |- context [if ?c then _ else _] => destruct c end; [first [done | cbn; lia]|]).
  unfold header_label.
  repeat (match goal with |- context [if ?c then _ else _] => destruct c end; [rewrite length_drop; lia|]). rewrite length_drop. lia.
Qed.

Lemma consume_step_shorter p first bs p' bs' : consume_step p first bs = Ok (Continue p' bs') -> (length bs' <= length bs)%nat.
Proof.
  assert (forall p bs p' bs', complete p bs = Ok (Continue p' bs') -> bs' = bs) as Hc.
  { intros q b q' b' H. unfold complete in H. destruct (pop_empty _); [done|]. apply rbind_ok in H as (? & _ & [= <- <-]). done. }
  assert (forall q n p bs p' bs', next q n p bs = Ok (Continue p' bs') -> bs' = bs) as Hn.
  { intros q n q0 b q' b' H. unfold next in H. apply rbind_ok in H as (v & _ & H).
    assert (forall r, (if is_a v && negb (n =? 0) then
      let? v := at_insert v 0 in let? p := store q v q0 in r v p else
      if is_o v && negb (n =? 0) then Ok (Continue (set_stack (Selem KeyJ (n - 1) :: sp_stack q0) q0) b) else complete q0 b)
      = Ok (Continue q' b') -> (forall v p, r v p = Ok (Continue q' b') -> b' = b) -> b' = b) as Hr.
    { intros r H' Hr. destruct (is_a v && _); [apply rbind_ok in H' as (? & _ & H'); apply rbind_ok in H' as (? & _ & H'); by eapply Hr|].
      destruct (is_o v && _); [by injection H' as _ <-|by eapply Hc]. }
    destruct q; try (apply Hr in H; [done|]; by intros ? ? [= _ <-]). destruct (sp_stack q0) as [|top rest] eqn:Hs.
    - apply Hr in H; [done|]. by intros ? ? [= _ <-].
    - destruct (key_to_s v); [|done]. apply rbind_ok in H as (jo & _ & H). destruct (get_insert jo _). apply rbind_ok in H as (? & _ & H). by injection H as _ <-. }
  unfold consume_step. intros H.
  pose proof (read_label_rest first bs) as Hl.
  destruct (read_label first bs) as [v b|n b|n b|n b| |]; try done.
  - apply rbind_ok in H as (? & _ & H). apply Hn in H as ->. done.
  - apply rbind_ok in H as (? & _ & H). apply Hn in H as ->. done.
  - apply rbind_ok in H as (? & _ & H). apply rbind_ok in H as (? & _ & H). apply rbind_ok in H as (? & _ & H). apply Hn in H as ->.
    done.
  - destruct (Z.of_nat (length b) <? n); [done|]. destruct (n <? 0); [done|]. apply rbind_ok in H as (? & _ & H). apply Hn in H as ->.
    rewrite length_drop. lia.
Qed.

Lemma consume_loop_fuel bs : forall fuel fuel' p, (length bs <= fuel)%nat -> (length bs <= fuel')%nat ->
  consume_loop fuel p bs = consume_loop fuel' p bs.
Proof.
  induction bs as [bs IH] using (induction_ltof1 _ (@length Z)); unfold ltof in IH.
  intros fuel fuel' p H1 H2. destruct bs as [|b bs]; [by destruct fuel, fuel'|].
  destruct fuel as [|fuel], fuel' as [|fuel']; cbn in H1, H2; try lia. cbn [consume_loop]. unfold rbind, res_bind.
  destruct (consume_step p b bs) as [[p' bs'|p' bs']|] eqn:Hs; try done. apply consume_step_shorter in Hs.
  apply IH; cbn; lia.
Qed.

(** Going on after an iteration. *)
Definition continue (r : res progress) : res (streaming_parser * bytes) :=
  let? r := r in match r with Return p bs => Ok (p, bs) | Continue p bs => consume_bytes p bs end.

Lemma consume_bytes_cons p b bs : consume_bytes p (b :: bs) = continue (consume_step p b bs).
Proof.
  unfold consume_bytes, continue. cbn [length consume_loop]. unfold rbind, res_bind.
  destruct (consume_step p b bs) as [[p' bs'|p' bs']|] eqn:Hs; try done. apply consume_step_shorter in Hs.
  by apply consume_loop_fuel.
Qed.

(** ** Reading a value back *)

Abbreviation parser_at := (StreamingParser st_normal).

Lemma complete_popped q S str j jk bs : complete (parser_at (Selem q 0 :: S) str j jk) bs = complete (parser_at S str j jk) bs.
Proof. unfold complete. cbn [sp_stack pop_empty]. by destruct (pop_empty S). Qed.

Lemma complete_more q n S str j jk bs path v :
  n <> 0 -> parent S = At path -> load_path (rev path) j = Ok v ->
  complete (parser_at (Selem q n :: S) str j jk) bs =
    Ok (Continue (parser_at (Selem (if is_a v then incr_ptr q else KeyJ) (n - 1) :: S) str j jk) bs).
Proof.
  intros Hn Hp Hl. unfold complete. cbn [sp_stack pop_empty se_size]. rewrite (proj2 (Z.eqb_neq _ _)) by done.
  rewrite Hp. cbn [load]. unfold rbind, res_bind. cbn [sp_json]. by rewrite Hl.
Qed.

(** A value that is no container, at its place. *)
Lemma next_simple S str j jk path v n bs :
  parent S = At path -> load_path (rev path) j = Ok v -> is_a v = false -> is_o v = false ->
  next (At path) n (parser_at S str j jk) bs = complete (parser_at S str j jk) bs.
Proof. intros Hp Hl Ha Ho. unfold next. cbn [load]. unfold rbind, res_bind. cbn [sp_json]. by rewrite Hl, Ha, Ho. Qed.

Section read_back.
Context (str : bytes).

Lemma set_json_at S j j' jk : set_json j' (parser_at S str j jk) = parser_at S str j' jk.
Proof. done. Qed.
Lemma set_stack_at S S' j jk : set_stack S' (parser_at S str j jk) = parser_at S' str j jk.
Proof. done. Qed.

Lemma current_parent S j jk : current (parser_at S str j jk) = parent S.
Proof. done. Qed.

(** What it is to read a value back at its place. *)
Definition reads_back (v : Json) : Prop :=
  forall S j jk path v0 rest, parent S = At path -> load_path (rev path) j = Ok v0 ->
  exists jk', consume_bytes (parser_at S str j jk) (unparse v ++ rest) =
    continue (complete (parser_at S str (put (rev path) (read_back v) j) jk') rest).

Lemma reads_back_simple v f h :
  unparse v = f :: h -> (forall rest, read_label f (h ++ rest) = LValue (read_back v) rest) ->
  is_a (read_back v) = false -> is_o (read_back v) = false -> reads_back v.
Proof.
  intros Hu Hl Ha Ho S j jk path v0 rest Hp Hload. exists jk. rewrite Hu. cbn [app]. rewrite consume_bytes_cons.
  unfold consume_step. rewrite Hl, current_parent, Hp. cbn [store sp_json]. unfold rbind, res_bind.
  rewrite (store_put _ _ _ _ Hload). cbn. f_equal. eapply next_simple; [done|by eapply load_put|done|done].
Qed.

(** A string at [jx], whatever [jx] is. *)
Lemma string_step p s h f rest :
  int_length s -> write_string s = f :: h ->
  consume_step p f (h ++ rest) = (let? p' := store (current p) (JString s) p in next (current p) (Z.of_nat (length s)) p' rest).
Proof.
  intros Hs Hw. destruct (label_string s rest Hs) as (f' & h' & Hw' & Hl). rewrite Hw in Hw'. injection Hw' as <- <-.
  unfold consume_step. rewrite Hl, length_app, (proj2 (Z.ltb_ge _ _)) by lia. rewrite (proj2 (Z.ltb_ge _ 0)) by lia.
  by rewrite Nat2Z.id, take_app_length, drop_app_length.
Qed.

Lemma write_string_cons s : exists f h, write_string s = f :: h.
Proof. unfold write_string. cbn zeta. repeat case_match; cbn; eauto. Qed.

Lemma reads_back_string s : int_length s -> reads_back (JString s).
Proof.
  intros Hs S j jk path v0 rest Hp Hload. exists jk. cbn [unparse read_back].
  destruct (write_string_cons s) as (f & h & Hw). rewrite Hw. cbn [app]. rewrite consume_bytes_cons.
  rewrite (string_step _ s _ _ _ Hs Hw), current_parent, Hp. cbn [store sp_json]. unfold rbind, res_bind.
  rewrite (store_put _ _ _ _ Hload). cbn. f_equal. eapply next_simple; [done|by eapply load_put|done|done].
Qed.

Lemma insert_middle {A} (l k : list A) x y : <[length l := y]> (l ++ x :: k) = l ++ y :: k.
Proof. by rewrite insert_app_r_alt, Nat.sub_diag. Qed.

(** The elements of an array, from the frame of the first one. *)
Lemma elements_read cs : cs <> [] -> Forall reads_back cs ->
  forall S j jk path dn old rest, parent S = At path -> load_path (rev path) j = Ok (JArray (dn ++ old)) -> length old = length cs ->
  exists jk', consume_bytes (parser_at (Selem (At (length dn :: path)) (Z.of_nat (length cs) - 1) :: S) str j jk) (flat_map unparse cs ++ rest) =
    continue (complete (parser_at S str (put (rev path) (JArray (dn ++ map read_back cs)) j) jk') rest).
Proof.
  induction cs as [|c cs IH]; intros Hne Hf S j jk path dn old rest Hp Hl Hlen; [done|]. clear Hne. apply Forall_cons in Hf as [Hc Hf].
  destruct old as [|o old]; [done|]. cbn in Hlen. injection Hlen as Hlen.
  assert (child (JArray (dn ++ o :: old)) (length dn) = Some o) as Hch by (cbn; by rewrite list_lookup_middle).
  set (S1 := Selem (At (length dn :: path)) (Z.of_nat (length (c :: cs)) - 1) :: S). cbn [flat_map]. rewrite <- app_assoc.
  assert (load_path (rev (length dn :: path)) j = Ok o) as Hlo by (cbn [rev]; by rewrite (load_snoc _ _ _ _ Hl), Hch).
  destruct (Hc S1 j jk (length dn :: path) o (flat_map unparse cs ++ rest) eq_refl Hlo) as (jk1 & ->). cbn [rev].
  rewrite (put_snoc _ _ _ _ _ _ Hl Hch). cbn [set_child].
  rewrite insert_middle.
  set (j1 := put (rev path) _ j). pose proof (load_put _ (JArray (dn ++ read_back c :: old)) _ _ Hl) as Hl1. fold j1 in Hl1.
  destruct cs as [|c' cs].
  - unfold S1. cbn [length]. rewrite complete_popped. destruct old; [|done]. by exists jk1.
  - assert (Z.of_nat (length (c :: c' :: cs)) - 1 <> 0) as Hn by (cbn [length]; lia).
    unfold S1. rewrite (complete_more _ _ _ _ _ _ _ _ _ Hn Hp Hl1). cbn [is_a incr_ptr continue].
    replace (Datatypes.S (length dn)) with (length (dn ++ [read_back c])) by (rewrite length_app; cbn; lia).
    replace (Z.of_nat (length (c :: c' :: cs)) - 1 - 1) with (Z.of_nat (length (c' :: cs)) - 1) by (cbn [length]; lia).
    destruct (IH ltac:(done) Hf S j1 jk1 path (dn ++ [read_back c]) old rest Hp) as (jk2 & Hr); [by rewrite <- app_assoc|done|].
    exists jk2. unfold continue, rbind, res_bind. rewrite Hr. unfold j1. rewrite put_put. by rewrite <- app_assoc.
Qed.

Lemma get_insert_new o key : key ∉ o.*1 -> get_insert (JObject o) key = (JObject (o ++ [(key, JNull)]), length o).
Proof. intros H. unfold get_insert, find_insert. cbn [to_object]. by rewrite (proj2 (find_key_None _ _)). Qed.

Lemma set_item_last o key (w v : Json) : set_item (o ++ [(key, w)]) (length o) v = o ++ [(key, v)].
Proof.
  unfold set_item. induction o as [|x o IH]; [done|]. cbn. by rewrite <- IH.
Qed.

(** A key: its item is appended, and the value is read there. *)
Lemma key_step n S j jk path o key h f rest :
  parent S = At path -> load_path (rev path) j = Ok (JObject o) -> int_length key -> key ∉ o.*1 -> write_string key = f :: h ->
  consume_step (parser_at (Selem KeyJ n :: S) str j jk) f (h ++ rest) =
    Ok (Continue (parser_at (Selem (At (length o :: path)) n :: S) str (put (rev path) (JObject (o ++ [(key, JNull)])) j) (JString key)) rest).
Proof.
  intros Hp Hl Hkey Hnew Hw. rewrite (string_step _ key _ _ _ Hkey Hw). unfold current. cbn [sp_stack se_jp store].
  unfold rbind, res_bind. unfold next. cbn [load set_jokey sp_stack sp_json sp_jokey sp_state sp_str]. unfold rbind, res_bind. cbn [key_to_s].
  rewrite Hp. cbn [load set_jokey sp_json]. rewrite Hl, get_insert_new by done. cbn [store sp_json].
  unfold rbind, res_bind. by rewrite (store_put _ _ _ _ Hl).
Qed.

Lemma items_read (kvs : list (bytes * Json)) : kvs <> [] -> Forall (fun kv => reads_back (snd kv)) kvs -> Forall (fun kv => int_length (fst kv)) kvs ->
  forall S j jk path o rest, parent S = At path -> load_path (rev path) j = Ok (JObject o) -> NoDup (o.*1 ++ kvs.*1) ->
  exists jk', consume_bytes (parser_at (Selem KeyJ (Z.of_nat (length kvs) - 1) :: S) str j jk)
      (flat_map (fun kv => write_string (fst kv) ++ unparse (snd kv)) kvs ++ rest) =
    continue (complete (parser_at S str (put (rev path) (JObject (o ++ map (fun kv => (fst kv, read_back (snd kv))) kvs)) j) jk') rest).
Proof.
  induction kvs as [|[key v] kvs IH]; intros Hne Hf Hk S j jk path o rest Hp Hl Hnd; [done|]. clear Hne.
  apply Forall_cons in Hf as [Hv Hf]. apply Forall_cons in Hk as [Hkey Hk]. cbn [fst snd] in Hv, Hkey.
  cbn [flat_map fst snd]. rewrite <- !app_assoc. destruct (write_string_cons key) as (f & h & Hw). rewrite Hw. cbn [app]. rewrite consume_bytes_cons.
  assert (key ∉ o.*1) as Hnew.
  { apply NoDup_app in Hnd as (_ & Hnd & _). intros Hin. apply (Hnd _ Hin). left. }
  rewrite (key_step _ _ _ _ _ o key _ _ _ Hp Hl Hkey Hnew Hw). cbn [continue]. unfold continue at 1, rbind, res_bind.
  set (n := Z.of_nat (length ((key, v) :: kvs)) - 1). set (j0 := put (rev path) (JObject (o ++ [(key, JNull)])) j).
  pose proof (load_put _ (JObject (o ++ [(key, JNull)])) _ _ Hl) as Hl0. fold j0 in Hl0.
  assert (child (JObject (o ++ [(key, JNull)])) (length o) = Some JNull) as Hch by (cbn; by rewrite list_lookup_middle).
  assert (load_path (rev (length o :: path)) j0 = Ok JNull) as Hlo by (cbn [rev]; by rewrite (load_snoc _ _ _ _ Hl0), Hch).
  destruct (Hv (Selem (At (length o :: path)) n :: S) j0 (JString key) (length o :: path) JNull
    (flat_map (fun kv => write_string (fst kv) ++ unparse (snd kv)) kvs ++ rest) eq_refl Hlo) as (jk1 & ->). cbn [rev].
  rewrite (put_snoc _ _ _ _ _ _ Hl0 Hch). cbn [set_child]. rewrite set_item_last. unfold j0. rewrite put_put.
  pose proof (load_put _ (JObject (o ++ [(key, read_back v)])) _ _ Hl) as Hl1. set (j1 := put (rev path) (JObject (o ++ [(key, read_back v)])) j) in *.
  destruct kvs as [|kv kvs].
  - unfold n. cbn [length]. rewrite complete_popped. by exists jk1.
  - assert (n <> 0) as Hn by (unfold n; cbn [length]; lia). rewrite (complete_more _ _ _ _ _ _ _ _ _ Hn Hp Hl1). cbn [is_a].
    replace (n - 1) with (Z.of_nat (length (kv :: kvs)) - 1) by (unfold n; cbn [length]; lia).
    destruct (IH ltac:(done) Hf Hk S j1 jk1 path (o ++ [(key, read_back v)]) rest Hp Hl1) as (jk2 & Hr).
    { rewrite fmap_app, <- app_assoc. exact Hnd. }
    exists jk2. unfold continue, rbind, res_bind. rewrite Hr. unfold j1. rewrite put_put. by rewrite <- app_assoc.
Qed.

Lemma reads_back_array a : int_length a -> Forall reads_back a -> reads_back (JArray a).
Proof.
  intros Hlen Ha S j jk path v0 rest Hp Hl. cbn [unparse read_back]. unfold int_length in Hlen.
  destruct (label_array_header (Z.of_nat (length a)) (flat_map unparse a ++ rest) ltac:(lia)) as (f & h & -> & Hlab).
  cbn [app]. rewrite <- app_assoc, consume_bytes_cons. unfold consume_step. rewrite Hlab, current_parent, Hp. cbn [load sp_json].
  unfold rbind at 1, res_bind at 1. rewrite Hl.
  assert (exists old, resize (if is_a v0 then v0 else JArray []) (Z.of_nat (length a)) = Ok (JArray old) /\ length old = length a) as (old & -> & Hold).
  { assert (exists b, (if is_a v0 then v0 else JArray []) = JArray b) as (b & ->) by (destruct v0; cbn; eauto). eexists. split; [reflexivity|].
    destruct (Z.ltb_spec (Z.of_nat (length a)) (Z.of_nat (length b))); [rewrite length_take; lia|rewrite length_app, length_replicate; lia]. }
  cbn [rbind res_bind store sp_json]. unfold rbind, res_bind. rewrite (store_put _ _ _ _ Hl). rewrite set_json_at.
  set (j0 := put (rev path) (JArray old) j). pose proof (load_put _ (JArray old) _ _ Hl) as Hl0. fold j0 in Hl0.
  unfold next. cbn [load sp_json sp_stack]. unfold rbind, res_bind. rewrite Hl0. cbn [is_a is_o]. destruct a as [|c a].
  - destruct old; [|done]. cbn. exists jk. by unfold j0.
  - assert (Z.of_nat (length (c :: a)) <> 0) as Hn by (cbn [length]; lia). rewrite (proj2 (Z.eqb_neq _ _) Hn). cbn [negb andb at_insert].
    replace (Z.to_nat (0 + 1 - Z.of_nat (length old))) with 0%nat by (rewrite Hold; cbn [length]; lia). cbn [replicate]. rewrite app_nil_r.
    cbn [store sp_json]. unfold rbind, res_bind. rewrite (store_put _ _ _ _ Hl0). unfold j0. rewrite put_put. fold j0.
    rewrite set_json_at. cbn [sp_stack]. rewrite set_stack_at. cbn [child_ptr]. unfold continue at 1, rbind, res_bind.
    destruct (elements_read (c :: a) ltac:(done) Ha S j0 jk path [] old rest Hp Hl0 Hold) as (jk' & Hr). exists jk'.
    cbn [length app] in Hr |- *. rewrite Hr. unfold j0. by rewrite put_put.
Qed.

Lemma reads_back_object (o : list (bytes * Json)) :
  int_length o -> NoDup o.*1 -> Forall (fun kv => int_length (fst kv)) o -> Forall (fun kv => reads_back (snd kv)) o -> reads_back (JObject o).
Proof.
  intros Hlen Hnd Hk Ho S j jk path v0 rest Hp Hl. cbn [unparse read_back]. unfold int_length in Hlen.
  destruct (label_map_header (Z.of_nat (length o)) (flat_map (fun kv => write_string (fst kv) ++ unparse (snd kv)) o ++ rest) ltac:(lia)) as (f & h & -> & Hlab).
  cbn [app]. rewrite <- app_assoc, consume_bytes_cons. unfold consume_step. rewrite Hlab, current_parent, Hp. cbn [store sp_json].
  unfold rbind at 1, res_bind at 1. unfold rbind at 1, res_bind at 1. rewrite (store_put _ _ _ _ Hl). rewrite set_json_at.
  set (j0 := put (rev path) (JObject []) j). pose proof (load_put _ (JObject []) _ _ Hl) as Hl0. fold j0 in Hl0.
  unfold next. cbn [load sp_json sp_stack]. unfold rbind, res_bind. rewrite Hl0. cbn [is_a is_o]. destruct o as [|kv o].
  - cbn. exists jk. by unfold j0.
  - assert (Z.of_nat (length (kv :: o)) <> 0) as Hn by (cbn [length]; lia). rewrite (proj2 (Z.eqb_neq _ _) Hn). cbn [negb andb].
    rewrite set_stack_at. unfold continue at 1, rbind, res_bind.
    destruct (items_read (kv :: o) ltac:(done) Ho Hk S j0 jk path [] rest Hp Hl0 Hnd) as (jk' & Hr). exists jk'.
    cbn [app] in Hr |- *. rewrite Hr. unfold j0. by rewrite put_put.
Qed.

Lemma all_read_back v : writable v -> reads_back v.
Proof.
  induction v as [|b|x|x|d|s|a IH|o IH] using json_ind'.
  - intros _. by apply (reads_back_simple _ fnull []).
  - intros _. apply (reads_back_simple _ (ffalse + Z.b2z b) []); [done| |done|done]. intros rest. by destruct b.
  - intros H. destruct (label_signed8 x [] H) as (f & h & Hw & _). apply (reads_back_simple _ f h); [done| |done|done].
    intros rest. destruct (label_signed8 x rest H) as (f' & h' & Hw' & Hl). rewrite Hw in Hw'. by injection Hw' as <- <-.
  - intros H. destruct (label_unsigned8 x [] H) as (f & h & Hw & _).
    assert (is_a (read_back (JUnsigned x)) = false /\ is_o (read_back (JUnsigned x)) = false) as [Ha Ho] by (cbn; by destruct (x <? 65536)).
    apply (reads_back_simple _ f h); [done| |done|done].
    intros rest. destruct (label_unsigned8 x rest H) as (f' & h' & Hw' & Hl). rewrite Hw in Hw'. by injection Hw' as <- <-.
  - intros H. destruct (label_double d [] H) as (f & h & Hw & _). apply (reads_back_simple _ f h); [done| |done|done].
    intros rest. destruct (label_double d rest H) as (f' & h' & Hw' & Hl). rewrite Hw in Hw'. by injection Hw' as <- <-.
  - apply reads_back_string.
  - intros [Hl Ha]%writable_array. apply reads_back_array; [done|]. rewrite Forall_forall in IH, Ha |- *. naive_solver.
  - intros (Hl & Hnd & Ho)%writable_object. apply reads_back_object; [done|done| |].
    + eapply Forall_impl; [exact Ho|]. by intros kv [? _].
    + rewrite Forall_forall in IH, Ho |- *. intros kv Hin. apply IH; [done|]. by apply Ho.
Qed.
End read_back.

(** What [unparse] writes is read back by the streaming parser, whatever value
    the parser last held: it takes exactly the bytes of the value, whatever
    follows them, and ends with the value, where unsigned integers below 65536
    have become signed ones. *)
Lemma consume_unparse (v : Json) (p : streaming_parser) (rest : bytes) :
  writable v ->
  exists p', consume (reset p) (unparse v ++ rest) = Ok (p', rest) /\ success p' = true /\ sp_json p' = read_back v.
Proof.
  intros Hv. destruct p as [st stk str j jk]. unfold reset, set_state, set_stack. cbn [sp_state sp_stack sp_str sp_json sp_jokey].
  destruct (all_read_back str v Hv [] j jk [] j rest eq_refl eq_refl) as (jk' & Hr). unfold consume. cbn [sp_state orb Z.ltb Z.eqb].
  change (st_normal <? 0) with false. change ((st_normal =? st_partial) || (st_normal =? st_string)) with false. cbn iota.
  rewrite Hr. eexists. by repeat split.
Qed.

Lemma unparse_nonempty v : unparse v <> [].
Proof.
  destruct v as [|b|x|x|d|s|a|o]; cbn; try done; unfold format.write_signed8, format.write_signed4, format.write_unsigned8, format.write_unsigned4,
    format.write_string, format.write_array_header, format.write_map_header; cbn zeta; by repeat case_match.
Qed.
