(* ===== verification/MsgpackStream.v ===== *)
(** * MessagePack: input in pieces

    Feeding the streaming parser its input buffer by buffer is the same as feeding
    it all at once, wherever the buffers end and whatever is in them. *)

From S2P Require Export MsgpackFacts.

#[local] Open Scope Z_scope.
#[local] Open Scope lhm_scope.
Import format.

(** ** Parsers that behave alike

    The saved bytes count only while a header or a string is incomplete. *)

Definition saving (p : streaming_parser) : Prop := sp_state p = st_partial \/ sp_state p = st_string.

Record parser_eq (p q : streaming_parser) : Prop := {
  pe_state : sp_state p = sp_state q;
  pe_stack : sp_stack p = sp_stack q;
  pe_json : sp_json p = sp_json q;
  pe_jokey : sp_jokey p = sp_jokey q;
  pe_str : saving p -> sp_str p = sp_str q
}.

#[export] Instance parser_eq_equivalence : Equivalence parser_eq.
Proof.
  split.
  - by intros p.
  - intros p q [H1 H2 H3 H4 H5]. split; try done. intros H. symmetry. apply H5. unfold saving in *. by rewrite H1.
  - intros p q r [H1 H2 H3 H4 H5] [K1 K2 K3 K4 K5]. split; try by etrans. intros H. etrans; [by apply H5|]. apply K5. unfold saving in *. by rewrite <- H1.
Qed.

(** The same but for the state and the saved bytes. *)
Record same_data (p q : streaming_parser) : Prop := {
  sd_stack : sp_stack p = sp_stack q;
  sd_json : sp_json p = sp_json q;
  sd_jokey : sp_jokey p = sp_jokey q
}.

Lemma parser_eq_data p q : parser_eq p q -> same_data p q.
Proof. by intros [H1 H2 H3 H4 H5]. Qed.

(** Results that agree up to a relation. *)
Definition res_rel {A} (R : A -> A -> Prop) (r r' : res A) : Prop :=
  match r, r' with
  | Ok a, Ok b => R a b
  | Fault f, Fault g => f = g
  | _, _ => False
  end.

Lemma res_rel_bind {A B} (R : A -> A -> Prop) (Q : B -> B -> Prop) r r' k k' :
  res_rel R r r' -> (forall a b, R a b -> res_rel Q (k a) (k' b)) -> res_rel Q (rbind r k) (rbind r' k').
Proof. destruct r, r'; cbn; try done. by eauto. Qed.

Definition state_eq : relation (streaming_parser * bytes) := fun r r' => parser_eq (fst r) (fst r') /\ snd r = snd r'.
Definition progress_eq : relation progress := fun r r' =>
  match r, r' with
  | Continue p bs, Continue q bs' => same_data p q /\ bs = bs'
  | Return p bs, Return q bs' => parser_eq p q /\ bs = bs'
  | _, _ => False
  end.

#[export] Instance res_rel_equivalence {A} (R : relation A) `{!Equivalence R} : Equivalence (res_rel R).
Proof.
  split.
  - intros [a|f]; cbn; [reflexivity|done].
  - intros [a|f] [b|g]; cbn; done.
  - intros [a|f] [b|g] [c|h]; cbn; try done; [intros ? ?; by trans b|congruence].
Qed.
#[export] Instance state_eq_equivalence : Equivalence state_eq.
Proof.
  split.
  - by intros [p bs].
  - intros [p bs] [q bs'] [H1 H2]. by split.
  - intros [p bs] [q bs'] [r bs''] [H1 H2] [K1 K2]. split; by etrans.
Qed.

Notation "r ≈ r'" := (res_rel state_eq r r') (at level 70).

(** ** Iterations on the same data *)

Lemma store_eq jx v p q : same_data p q -> res_rel same_data (store jx v p) (store jx v q).
Proof.
  intros [H2 H3 H4]. destruct jx as [| |path]; cbn; [done|by split|]. rewrite H3. unfold rbind, res_bind.
  destruct (store_path _ v _); cbn; [by split|done].
Qed.

Lemma load_eq jx p q : same_data p q -> load jx p = load jx q.
Proof. intros [H2 H3 H4]. destruct jx as [| |path]; cbn; [done|by rewrite H4|by rewrite H3]. Qed.

Lemma set_stack_eq S p q : same_data p q -> same_data (set_stack S p) (set_stack S q).
Proof. intros [H2 H3 H4]. by split. Qed.
(** Where an iteration returns, the new state and what it saves are set. *)
Lemma set_done_eq n p q : n <> st_partial -> n <> st_string -> same_data p q -> parser_eq (set_state n p) (set_state n q).
Proof. intros N1 N2 [H2 H3 H4]. split; try done. by intros [?|?]. Qed.
Lemma set_saving_eq n s p q : same_data p q -> parser_eq (set_state n (set_str s p)) (set_state n (set_str s q)).
Proof. intros [H2 H3 H4]. by split. Qed.

Lemma complete_eq p q bs : same_data p q -> res_rel progress_eq (complete p bs) (complete q bs).
Proof.
  intros H. unfold complete. rewrite (sd_stack _ _ H). destruct (pop_empty (sp_stack q)) as [|top rest].
  - split; [|done]. apply set_done_eq; [done|done|]. by apply set_stack_eq.
  - rewrite (load_eq _ _ _ H). unfold rbind, res_bind. destruct (load _ q); [|done]. split; [|done]. by apply set_stack_eq.
Qed.

Lemma next_eq jx n p q bs : same_data p q -> res_rel progress_eq (next jx n p bs) (next jx n q bs).
Proof.
  intros H. unfold next. rewrite (load_eq _ _ _ H). destruct (load jx q) as [v|f]; [|done]. rewrite !rbind_Ok.
  assert (res_rel progress_eq
    (if is_a v && negb (n =? 0) then
       let? v := at_insert v 0 in let? p := store jx v p in
       Ok (Continue (set_stack (Selem (child_ptr jx 0) (n - 1) :: sp_stack p) p) bs)
     else if is_o v && negb (n =? 0) then Ok (Continue (set_stack (Selem KeyJ (n - 1) :: sp_stack p) p) bs) else complete p bs)
    (if is_a v && negb (n =? 0) then
       let? v := at_insert v 0 in let? q := store jx v q in
       Ok (Continue (set_stack (Selem (child_ptr jx 0) (n - 1) :: sp_stack q) q) bs)
     else if is_o v && negb (n =? 0) then Ok (Continue (set_stack (Selem KeyJ (n - 1) :: sp_stack q) q) bs) else complete q bs)) as Hcase.
  { destruct (is_a v && _).
    - destruct (at_insert v 0) as [w|]; [|done]. rewrite !rbind_Ok. eapply res_rel_bind; [by apply store_eq|]. intros p' q' H'.
      split; [|done]. rewrite (sd_stack _ _ H'). by apply set_stack_eq.
    - destruct (is_o v && _); [|by apply complete_eq]. split; [|done]. rewrite (sd_stack _ _ H). by apply set_stack_eq. }
  destruct jx as [| |path]; [exact Hcase| |exact Hcase]. pose proof (sd_stack _ _ H) as Hs. rewrite Hs. rewrite Hs in Hcase.
  destruct (sp_stack q) as [|top rest] eqn:Hq; [exact Hcase|]. destruct (key_to_s v); [|split; [|done]; by apply set_done_eq].
  rewrite (load_eq _ _ _ H). destruct (load _ q) as [jo|]; [|done]. rewrite !rbind_Ok. destruct (get_insert jo _).
  eapply res_rel_bind; [by apply store_eq|]. intros p' q' H'. split; [|done]. by apply set_stack_eq.
Qed.

Lemma current_eq p q : same_data p q -> current p = current q.
Proof. intros H. unfold current. by rewrite (sd_stack _ _ H). Qed.

Lemma step_eq p q b bs : same_data p q -> res_rel progress_eq (consume_step p b bs) (consume_step q b bs).
Proof.
  intros H. unfold consume_step. rewrite (current_eq _ _ H). destruct (read_label b bs) as [v r|n r|n r|n r| |].
  - eapply res_rel_bind; [by apply store_eq|]. intros. by apply next_eq.
  - eapply res_rel_bind; [by apply store_eq|]. intros. by apply next_eq.
  - rewrite (load_eq _ _ _ H). destruct (load _ q); [|done]. rewrite !rbind_Ok. destruct (resize _ n); [|done]. rewrite !rbind_Ok.
    eapply res_rel_bind; [by apply store_eq|]. intros. by apply next_eq.
  - destruct (_ <? n).
    + split; [|done]. rewrite (sd_stack _ _ H). destruct H. by split.
    + destruct (n <? 0); [done|]. eapply res_rel_bind; [by apply store_eq|]. intros. by apply next_eq.
  - split; [|done]. by apply set_saving_eq.
  - split; [|done]. by apply set_done_eq.
Qed.

Lemma loop_eq bs : forall fuel p q, (length bs <= fuel)%nat -> same_data p q -> consume_loop fuel p bs ≈ consume_loop fuel q bs.
Proof.
  induction bs as [bs IH] using (induction_ltof1 _ (@length Z)); unfold ltof in IH. intros fuel p q Hf H.
  destruct bs as [|b bs]; [destruct fuel; (split; [|done]; by apply set_done_eq)|].
  destruct fuel as [|fuel]; [cbn in Hf; lia|]. cbn [consume_loop]. pose proof (step_eq p q b bs H) as Hs.
  destruct (consume_step p b bs) as [[p' bs'|p' bs']|] eqn:E; destruct (consume_step q b bs) as [[q' bs''|q' bs'']|]; try done; rewrite !rbind_Ok.
  - destruct Hs as [Hs <-]. apply consume_step_shorter in E. cbn in Hf. apply IH; cbn; lia || done.
Qed.

Lemma consume_bytes_eq p q bs : same_data p q -> consume_bytes p bs ≈ consume_bytes q bs.
Proof. intros H. by apply loop_eq. Qed.

Lemma continue_eq r r' : res_rel progress_eq r r' -> continue r ≈ continue r'.
Proof.
  intros H. unfold continue. eapply res_rel_bind; [exact H|]. intros [p bs|p bs] [q bs'|q bs'] H'; try done.
  destruct H' as [H' <-]. by apply consume_bytes_eq.
Qed.

(** ** Feeding *)

(** The parser waits for the rest of a header or of a string, or is done or between values. *)
Inductive resumable (p : streaming_parser) : Prop :=
  | resume_done : sp_state p < 0 -> resumable p
  | resume_normal : sp_state p = st_normal -> resumable p
  | resume_partial b s : sp_state p = st_partial -> sp_str p = b :: s -> Forall is_byte (b :: s) -> read_label b s = LPartial -> resumable p
  | resume_string n S : sp_state p = st_string -> sp_stack p = Selem NullJ n :: S ->
      Z.of_nat (length (sp_str p)) < n < 2 ^ 31 -> Forall is_byte (sp_str p) -> resumable p.

Definition needs (b : Z) : Z := nthZ 0 nbytes (b - fnull).

Lemma partial_needs b s : read_label b s = LPartial ->
  aget nbytes (b - fnull) = Ok (needs b) /\ Z.of_nat (length s) + 1 < needs b /\
  forall t, read_label b t =
    if Z.of_nat (length t) + 1 <? needs b then LPartial
    else header_label b (take (Z.to_nat (needs b - 1)) t) (drop (Z.to_nat (needs b - 1)) t).
Proof.
  unfold read_label. fold (needs b).
  repeat (match goal with |- context [if ?c then _ else _] => destruct c; [done|] end).
  assert (forall h r, header_label b h r <> LPartial) as Hh by (intros h r; unfold header_label; by repeat case_match).
  destruct (Z.ltb_spec (Z.of_nat (length s) + 1) (needs b)) as [Hlt|]; [|intros Hx; by apply Hh in Hx].
  intros _. split; [|done]. unfold needs, nthZ in *.
  destruct (Z.le_gt_cases 0 (b - fnull)) as [H0|H0].
  - apply aget_ok. split; [done|]. destruct (nbytes !! Z.to_nat (b - fnull)) as [x|] eqn:E.
    + by rewrite (nth_lookup_Some _ _ _ _ E).
    + rewrite nth_lookup, E in Hlt. cbn in Hlt. lia.
  - replace (Z.to_nat (b - fnull)) with 0%nat in Hlt by lia. cbn in Hlt. lia.
Qed.

(** More bytes behind those a label was read from. *)
Lemma label_app b s t :
  read_label b (s ++ t) =
    match read_label b s with
    | LValue v r => LValue v (r ++ t)
    | LMap n r => LMap n (r ++ t)
    | LArray n r => LArray n (r ++ t)
    | LRaw n r => LRaw n (r ++ t)
    | LError => LError
    | LPartial => read_label b (s ++ t)
    end.
Proof.
  unfold read_label.
  repeat (match goal with |- context [if ?c then LValue _ s else _] => destruct c; [done|]
    | |- context [if ?c then LMap _ s else _] => destruct c; [done|]
    | |- context [if ?c then LArray _ s else _] => destruct c; [done|]
    | |- context [if ?c then LRaw _ s else _] => destruct c; [done|] end).
  cbn zeta. set (nb := nthZ 0 nbytes (b - fnull)). destruct (nb =? 0); [done|].
  destruct (Z.ltb_spec (Z.of_nat (length s) + 1) nb); [done|]. rewrite (proj2 (Z.ltb_ge _ _)) by (rewrite length_app; lia).
  rewrite take_app_le, drop_app_le by lia. unfold header_label. by repeat case_match.
Qed.

(** The same iteration with more bytes behind. *)
Definition extend (t : bytes) (r : progress) : progress :=
  match r with Continue p bs => Continue p (bs ++ t) | Return p bs => Return p (bs ++ t) end.

Lemma complete_extend p bs t : complete p (bs ++ t) = extend t <$> complete p bs.
Proof. unfold complete. destruct (pop_empty _); [done|]. unfold rbind, res_bind. by destruct (load _ p). Qed.

Lemma next_extend jx n p bs t : next jx n p (bs ++ t) = extend t <$> next jx n p bs.
Proof.
  unfold next. destruct (load jx p) as [v|]; [|done]. rewrite !rbind_Ok.
  assert (forall c : bool, (if c then let? v := at_insert v 0 in let? p := store jx v p in
      Ok (Continue (set_stack (Selem (child_ptr jx 0) (n - 1) :: sp_stack p) p) (bs ++ t))
    else if is_o v && negb (n =? 0) then Ok (Continue (set_stack (Selem KeyJ (n - 1) :: sp_stack p) p) (bs ++ t)) else complete p (bs ++ t)) =
    extend t <$> (if c then let? v := at_insert v 0 in let? p := store jx v p in
      Ok (Continue (set_stack (Selem (child_ptr jx 0) (n - 1) :: sp_stack p) p) bs)
    else if is_o v && negb (n =? 0) then Ok (Continue (set_stack (Selem KeyJ (n - 1) :: sp_stack p) p) bs) else complete p bs)) as Hc.
  { intros [|]; [destruct (at_insert v 0); [|done]; rewrite !rbind_Ok; by destruct (store jx _ p)|].
    destruct (is_o v && _); [done|apply complete_extend]. }
  destruct jx; [apply Hc| |apply Hc]. destruct (sp_stack p) eqn:Hs; [apply Hc|]. destruct (key_to_s v); [|done].
  destruct (load _ p); [|done]. rewrite !rbind_Ok. destruct (get_insert _ _). by destruct (store _ _ p).
Qed.

Lemma step_extend p b bs t :
  match read_label b bs with LPartial => False | LRaw n r => n <= Z.of_nat (length r) | _ => True end ->
  consume_step p b (bs ++ t) = extend t <$> consume_step p b bs.
Proof.
  intros H. unfold consume_step. rewrite label_app. destruct (read_label b bs) as [v r|n r|n r|n r| |]; try done.
  - destruct (store _ v p); [|done]. apply next_extend.
  - destruct (store _ _ p); [|done]. apply next_extend.
  - destruct (load _ p); [|done]. rewrite !rbind_Ok. destruct (resize _ n); [|done]. rewrite !rbind_Ok. destruct (store _ _ p); [|done]. apply next_extend.
  - rewrite length_app, !(proj2 (Z.ltb_ge _ n)) by lia. destruct (Z.ltb_spec n 0); [done|].
    rewrite take_app_le, drop_app_le by lia. destruct (store _ _ p); [|done]. apply next_extend.
Qed.

Lemma resumable_eq p q : parser_eq p q -> resumable p -> resumable q.
Proof.
  intros [H1 H2 H3 H4 H5] [Hs|Hs|b s Hs Hb Hby Hl|n S Hs Hst Hn Hsb].
  - apply resume_done. by rewrite <- H1.
  - apply resume_normal. by rewrite <- H1.
  - apply (resume_partial _ b s); [by rewrite <- H1|rewrite <- H5; [done|by left]|done|done].
  - apply (resume_string _ n S); [by rewrite <- H1|by rewrite <- H2|rewrite <- H5; [done|by right]..].
Qed.

(** A label's string length is an [int]. *)
Lemma label_raw_int b bs n r : is_byte b -> read_label b bs = LRaw n r -> n < 2 ^ 31.
Proof.
  intros Hb.
  assert (forall s, int_value s < 2 ^ 31) as Hint.
  { intros s. unfold int_value, Word.signed. cbn zeta. pose proof (Word.wrap_range 32 (net_value s) ltac:(lia)).
    destruct (Z.ltb_spec (Word.wrap 32 (net_value s)) (2 ^ (32 - 1))); lia. }
  unfold read_label.
  repeat (match goal with |- context [if ?c then _ else _] => destruct c eqn:?; [done|] end).
  destruct (is_fixstr b) eqn:Hf.
  - intros [= <- _]. unfold is_byte, ffixstr in *. lia.
  - cbn zeta. destruct (_ =? 0); [done|]. destruct (_ <? _); [done|]. unfold header_label.
    repeat (match goal with |- context [if ?c then _ else _] => destruct c end; [try done|]); [|done]. intros [= <- _]. apply Hint.
Qed.

Lemma label_bytes b bs : Forall is_byte bs ->
  match read_label b bs with LValue _ r | LMap _ r | LArray _ r | LRaw _ r => Forall is_byte r | _ => True end.
Proof.
  intros H. unfold read_label. cbn zeta.
  repeat (match goal with |- context [if ?c then _ else _] => destruct c end; [done|]). unfold header_label.
  repeat (match goal with |- context [if ?c then _ else _] => destruct c end; [by apply Forall_drop|]). by apply Forall_drop.
Qed.

(** ** Where iterations and [consume] return *)

Lemma next_return jx n p bs : 
  match next jx n p bs with
  | Ok (Return p' bs') => sp_state p' < 0 /\ bs' = bs
  | Ok (Continue p' bs') => bs' = bs
  | _ => True
  end.
Proof.
  assert (match complete p bs with Ok (Return p' bs') => sp_state p' < 0 /\ bs' = bs | Ok (Continue p' bs') => bs' = bs | _ => True end) as Hc.
  { unfold complete. destruct (pop_empty _); [done|]. by destruct (load _ p). }
  unfold next. destruct (load jx p) as [v|]; [|done]. rewrite rbind_Ok.
  assert (match (if is_a v && negb (n =? 0) then let? v := at_insert v 0 in let? p := store jx v p in
      Ok (Continue (set_stack (Selem (child_ptr jx 0) (n - 1) :: sp_stack p) p) bs)
    else if is_o v && negb (n =? 0) then Ok (Continue (set_stack (Selem KeyJ (n - 1) :: sp_stack p) p) bs) else complete p bs)
    with Ok (Return p' bs') => sp_state p' < 0 /\ bs' = bs | Ok (Continue p' bs') => bs' = bs | _ => True end) as Hm.
  { destruct (is_a v && _); [destruct (at_insert v 0); [|done]; rewrite !rbind_Ok; by destruct (store jx _ p)|]. by destruct (is_o v && _). }
  destruct jx; [done| |done]. destruct (sp_stack p); [done|]. destruct (key_to_s v); [|done]. destruct (load _ p); [|done]. rewrite rbind_Ok.
  destruct (get_insert _ _). by destruct (store _ _ p).
Qed.

(** What an iteration leaves: fewer bytes, or a parser to go on with. *)
Definition leaves (r : res progress) : Prop :=
  match r with
  | Ok (Return p bs) => resumable p /\ (sp_state p < 0 \/ bs = []) /\ Forall is_byte bs
  | Ok (Continue p bs) => Forall is_byte bs
  | Fault _ => True
  end.

Lemma next_leaves jx n v p bs : Forall is_byte bs -> leaves (let? p := store jx v p in next jx n p bs).
Proof.
  intros Hbs. destruct (store jx v p) as [p1|]; [|done]. rewrite rbind_Ok. pose proof (next_return jx n p1 bs) as Hn. unfold leaves.
  destruct (next jx n p1 bs) as [[p' bs'|p' bs']|]; [by subst| |done]. destruct Hn as [Hn ->].
  split; [by apply resume_done|]. by split; [left|].
Qed.

Lemma step_return p b bs : is_byte b -> Forall is_byte bs -> leaves (consume_step p b bs).
Proof.
  intros Hb Hbs. unfold consume_step. pose proof (label_bytes b bs Hbs) as Hr. destruct (read_label b bs) as [v r|n r|n r|n r| |] eqn:Hl.
  - by apply next_leaves.
  - by apply next_leaves.
  - destruct (load _ p); [|done]. rewrite !rbind_Ok. destruct (resize _ n); [|done]. rewrite rbind_Ok. by apply next_leaves.
  - destruct (Z.ltb_spec (Z.of_nat (length r)) n) as [Hn|_].
    + split; [|split; [by right|done]]. eapply resume_string; [done..| |done]. split; [done|]. by eapply label_raw_int.
    + destruct (n <? 0); [done|]. by apply next_leaves, Forall_drop.
  - split; [|split; [by right|done]]. eapply resume_partial; [done|done|by constructor|done].
  - split; [by apply resume_done|]. split; [by left|by constructor].
Qed.

Lemma consume_bytes_return bs : forall p p' bs', Forall is_byte bs -> consume_bytes p bs = Ok (p', bs') ->
  resumable p' /\ (sp_state p' < 0 \/ bs' = []) /\ Forall is_byte bs'.
Proof.
  induction bs as [bs IH] using (induction_ltof1 _ (@length Z)); unfold ltof in IH. intros p p' bs' Hby.
  destruct bs as [|b bs]; [intros [= <- <-]; split; [by apply resume_normal|by split; [right|]]|].
  apply Forall_cons in Hby as [Hb Hby]. rewrite consume_bytes_cons. unfold continue. pose proof (step_return p b bs Hb Hby) as Hs.
  unfold leaves in Hs. destruct (consume_step p b bs) as [[p1 bs1|p1 bs1]|] eqn:E; [| |done]; rewrite rbind_Ok.
  - apply consume_step_shorter in E. apply IH; [cbn; lia|done].
  - by intros [= <- <-].
Qed.

(** ** [consume] of a parser that waits *)

Lemma consume_normal p bs : sp_state p = st_normal -> consume p bs = consume_bytes p bs.
Proof. unfold consume. by intros ->. Qed.

Lemma consume_partial p b s bs :
  sp_state p = st_partial -> sp_str p = b :: s -> read_label b s = LPartial ->
  let k := Z.to_nat (needs b - Z.of_nat (length (sp_str p))) in
  let p1 := set_str (sp_str p ++ take k bs) p in
  consume p bs =
    if Z.of_nat (length bs) <? Z.of_nat k then Ok (set_str (sp_str p ++ bs) p, [])
    else
      let? r := consume_bytes (set_state st_normal p1) (sp_str p ++ take k bs) in
      if negb (sp_state (fst r) =? st_normal) then Ok (fst r, drop k bs) else consume_bytes (fst r) (drop k bs).
Proof.
  intros Hs Hb Hl k p1. destruct (partial_needs _ _ Hl) as (Hget & Hlen & _). unfold consume. rewrite Hs.
  change (st_partial <? 0) with false. change ((st_partial =? st_partial) || (st_partial =? st_string)) with true. cbn iota.
  change (st_partial =? st_partial) with true. cbn iota. rewrite Hb at 1. change (aget (b :: s) 0) with (Ok b : res Z). rewrite rbind_Ok.
  change 192 with fnull. rewrite Hget, rbind_Ok. fold k. cbn zeta. fold p1. cbn [sp_str set_str sp_state] in *.
  assert (length (sp_str p) = Datatypes.S (length s)) as Hls by by rewrite Hb.
  assert (Z.of_nat k = needs b - Z.of_nat (length (sp_str p))) as Hkv by (unfold k; lia).
  destruct (Z.ltb_spec (Z.of_nat (length bs)) (Z.of_nat k)) as [Hk|Hk].
  - rewrite (proj2 (Z.eqb_neq _ _)) by (unfold p1; cbn [sp_str set_str]; rewrite length_app, length_take; lia). cbn [negb].
    unfold p1. by rewrite take_ge, drop_ge by lia.
  - rewrite (proj2 (Z.eqb_eq _ _)) by (unfold p1; cbn [sp_str set_str]; rewrite length_app, length_take; lia). cbn [negb]. unfold p1 at 1. cbn [sp_state set_str].
    rewrite Hs. change (st_partial =? st_string) with false. cbn iota. done.
Qed.

Lemma consume_string p n S bs :
  sp_state p = st_string -> sp_stack p = Selem NullJ n :: S -> Z.of_nat (length (sp_str p)) < n ->
  let k := Z.to_nat (n - Z.of_nat (length (sp_str p))) in
  let p1 := set_stack S (set_str (sp_str p ++ take k bs) p) in
  consume p bs =
    if Z.of_nat (length bs) <? Z.of_nat k then Ok (set_str (sp_str p ++ bs) p, [])
    else continue (let? p2 := store (current p1) (JString (sp_str p ++ take k bs)) p1 in next (current p1) 0 p2 (drop k bs)).
Proof.
  intros Hs Hst Hlen k p1. unfold consume. rewrite Hs.
  change (st_string <? 0) with false. change ((st_string =? st_partial) || (st_string =? st_string)) with true. cbn iota.
  change (st_string =? st_partial) with false. cbn iota. rewrite Hst, rbind_Ok. cbn [se_size]. fold k. cbn zeta.
  cbn [sp_str set_str sp_state sp_stack]. rewrite Hs.
  assert (Z.of_nat k = n - Z.of_nat (length (sp_str p))) as Hkv by (unfold k; lia).
  destruct (Z.ltb_spec (Z.of_nat (length bs)) (Z.of_nat k)) as [Hk|Hk].
  - rewrite (proj2 (Z.eqb_neq _ _)) by (rewrite length_app, length_take; lia). cbn [negb]. by rewrite take_ge, drop_ge by lia.
  - rewrite (proj2 (Z.eqb_eq _ _)) by (rewrite length_app, length_take; lia). cbn [negb].
    change (st_string =? st_string) with true. cbn iota. rewrite Hst. cbn [tail]. fold p1. unfold continue.
    by destruct (store _ _ p1).
Qed.

Lemma consume_return p bs p' bs' :
  resumable p -> 0 <= sp_state p -> bs <> [] -> Forall is_byte bs -> consume p bs = Ok (p', bs') ->
  resumable p' /\ Forall is_byte bs' /\ (sp_state p' < 0 \/ (length bs' < length bs)%nat).
Proof.
  intros Hp H0 Hne Hby. assert (0 < length bs)%nat as Hpos by (destruct bs; [done|cbn; lia]).
  destruct Hp as [Hs|Hs|b s Hs Hb Hsb Hl|n S Hs Hst Hn Hsb]; [lia| | |].
  - rewrite consume_normal by done. intros H. destruct (consume_bytes_return _ _ _ _ Hby H) as (H1 & H2 & H3).
    split; [done|]. split; [done|]. destruct H2 as [?| ->]; [by left|by right].
  - rewrite (consume_partial _ _ _ _ Hs Hb Hl). cbn zeta. destruct (partial_needs _ _ Hl) as (_ & Hlen & Hlab).
    assert (length (sp_str p) = Datatypes.S (length s)) as Hls by by rewrite Hb.
    set (k := Z.to_nat _). assert (Z.of_nat k = needs b - Z.of_nat (length (sp_str p))) as Hk by (unfold k; lia).
    destruct (Z.ltb_spec (Z.of_nat (length bs)) (Z.of_nat k)) as [Hlt|Hge].
    + intros [= <- <-]. split; [|split; [done|by right]]. eapply (resume_partial _ b (s ++ bs)); [done|cbn; by rewrite Hb| |].
      * rewrite app_comm_cons. by apply Forall_app.
      * rewrite Hlab, (proj2 (Z.ltb_lt _ _)); [done|]. rewrite length_app. lia.
    + assert (Forall is_byte (sp_str p ++ take k bs)) as Hb1 by (apply Forall_app; split; [by rewrite Hb|by apply Forall_take]).
      assert (Forall is_byte (drop k bs)) as Hb2 by by apply Forall_drop.
      intros H. apply rbind_ok in H as ([p1 bs1] & H1 & H). destruct (consume_bytes_return _ _ _ _ Hb1 H1) as (R1 & R2 & R3). cbn [fst] in H.
      destruct (negb _) eqn:E.
      * injection H as <- <-. split; [done|]. split; [done|]. right. rewrite length_drop. lia.
      * destruct (consume_bytes_return _ _ _ _ Hb2 H) as (Q1 & Q2 & Q3). split; [done|]. split; [done|].
        destruct Q2 as [?| ->]; [by left|by right].
  - rewrite (consume_string _ _ _ _ Hs Hst) by lia. cbn zeta. set (k := Z.to_nat _).
    assert (Z.of_nat k = n - Z.of_nat (length (sp_str p))) as Hk by (unfold k; lia).
    destruct (Z.ltb_spec (Z.of_nat (length bs)) (Z.of_nat k)) as [Hlt|Hge].
    + intros [= <- <-]. split; [|split; [done|by right]]. eapply resume_string; [done|done| |].
      * cbn. rewrite length_app. lia.
      * by apply Forall_app.
    + assert (Forall is_byte (drop k bs)) as Hb2 by by apply Forall_drop. set (p1 := set_stack S _). unfold continue.
      pose proof (next_leaves (current p1) 0 (JString (sp_str p ++ take k bs)) p1 _ Hb2) as Hlv. unfold leaves in Hlv.
      destruct (rbind (store _ _ p1) _) as [[p2 bs2|p2 bs2]|] eqn:E; [| |done]; rewrite rbind_Ok.
      * intros H. destruct (consume_bytes_return _ _ _ _ Hlv H) as (Q1 & Q2 & Q3). split; [done|]. split; [done|].
        destruct Q2 as [?| ->]; [by left|by right].
      * intros [= <- <-]. destruct Hlv as (R1 & R2 & R3). split; [done|]. split; [done|].
        destruct R2 as [?| ->]; [by left|by right].
Qed.

Lemma feed_loop_fuel bs : forall fuel fuel' p, resumable p -> Forall is_byte bs -> (length bs <= fuel)%nat -> (length bs <= fuel')%nat ->
  feed_loop fuel p bs = feed_loop fuel' p bs.
Proof.
  induction bs as [bs IH] using (induction_ltof1 _ (@length Z)); unfold ltof in IH.
  intros fuel fuel' p Hp Hby H1 H2. destruct bs as [|b bs]; [by destruct fuel, fuel'|].
  assert (forall f p bs, done p = true -> feed_loop f p bs = Ok (p, bs)) as Hdone by (intros [|f] q [|x l] Hq; cbn; by rewrite ?Hq).
  destruct (done p) eqn:Hd; [by rewrite !Hdone|].
  destruct fuel as [|fuel], fuel' as [|fuel']; cbn in H1, H2; try lia. cbn [feed_loop]. rewrite Hd.
  destruct (consume p (b :: bs)) as [[p' bs']|] eqn:Hc; [|done]. rewrite !rbind_Ok. cbn [fst snd].
  unfold done in Hd. apply Z.ltb_ge in Hd.
  assert (b :: bs <> []) as Hne by done.
  destruct (consume_return _ _ _ _ Hp Hd Hne Hby Hc) as (Hp' & Hby' & [Hs|Hlt]).
  - rewrite !Hdone; [done|by apply Z.ltb_lt..].
  - cbn in Hlt. apply IH; [cbn; lia|done|done|lia|lia].
Qed.

Lemma feed_nil p : feed p [] = Ok (p, []).
Proof. done. Qed.

Lemma feed_done p bs : sp_state p < 0 -> feed p bs = Ok (p, bs).
Proof. intros H%Z.ltb_lt. unfold feed. destruct bs; cbn [length feed_loop]; [done|]. unfold done. by rewrite H. Qed.

Lemma feed_consume p bs : resumable p -> 0 <= sp_state p -> bs <> [] -> Forall is_byte bs ->
  feed p bs = (let? r := consume p bs in feed (fst r) (snd r)).
Proof.
  intros Hp H0 Hne Hby. destruct bs as [|b bs]; [done|]. unfold feed at 1. cbn [length feed_loop]. unfold done.
  rewrite (proj2 (Z.ltb_ge _ _)) by done. destruct (consume p (b :: bs)) as [[p' bs']|] eqn:Hc; [|done]. rewrite !rbind_Ok. cbn [fst snd].
  destruct (consume_return _ _ _ _ Hp H0 Hne Hby Hc) as (Hp' & Hby' & [Hs|Hlt]).
  - rewrite (feed_done p' bs' Hs). apply Z.ltb_lt in Hs. destruct bs', (length bs); cbn; unfold done; by rewrite ?Hs.
  - cbn in Hlt. apply feed_loop_fuel; [done|done|lia|done].
Qed.

Lemma consume_eq p q bs : parser_eq p q -> resumable p -> consume p bs ≈ consume q bs.
Proof.
  intros H Hp. pose proof (pe_state _ _ H) as Hst. pose proof (pe_stack _ _ H) as Hsk.
  destruct Hp as [Hs|Hs|b s Hs Hb Hsb Hl|n S Hs Hstk Hn Hsb].
  - unfold consume. rewrite <- Hst. apply Z.ltb_lt in Hs. by rewrite Hs.
  - rewrite !consume_normal by congruence. by apply consume_bytes_eq, parser_eq_data.
  - assert (sp_str p = sp_str q) as Hstr by (apply H; by left).
    rewrite (consume_partial _ _ _ _ Hs Hb Hl), (consume_partial q b s) by congruence. cbn zeta. rewrite <- Hstr. set (k := Z.to_nat _).
    destruct (Z.of_nat (length bs) <? Z.of_nat k); [split; [|done]; destruct H; by split|].
    eapply res_rel_bind; [apply consume_bytes_eq; destruct H; by split|]. intros [p1 l1] [q1 l2] [Hpq _]. cbn [fst snd] in *.
    rewrite <- (pe_state _ _ Hpq). destruct (negb _); [by split|]. by apply consume_bytes_eq, parser_eq_data.
  - assert (sp_str p = sp_str q) as Hstr by (apply H; by right).
    rewrite (consume_string p n S), (consume_string q n S) by (congruence || lia || (rewrite <- Hstr; lia)). cbn zeta. rewrite <- Hstr. set (k := Z.to_nat _).
    destruct (Z.of_nat (length bs) <? Z.of_nat k); [split; [|done]; destruct H; by split|].
    set (p1 := set_stack S (set_str _ p)). set (q1 := set_stack S (set_str _ q)).
    assert (same_data p1 q1) as Hpq by (destruct H; by split). apply continue_eq. rewrite (current_eq _ _ Hpq).
    eapply res_rel_bind; [by apply store_eq|]. intros. by apply next_eq.
Qed.

Lemma feed_eq bs : forall p q, Forall is_byte bs -> parser_eq p q -> resumable p -> feed p bs ≈ feed q bs.
Proof.
  induction bs as [bs IH] using (induction_ltof1 _ (@length Z)); unfold ltof in IH. intros p q Hby H Hp.
  pose proof (pe_state _ _ H) as Hst. pose proof (resumable_eq _ _ H Hp) as Hq. destruct bs as [|b bs]; [by split|].
  destruct (Z.lt_ge_cases (sp_state p) 0) as [Hs|Hs]; [rewrite !feed_done by congruence; by split|].
  rewrite !feed_consume by (done || congruence). pose proof (consume_eq p q (b :: bs) H Hp) as Hc.
  destruct (consume p (b :: bs)) as [[p' bs']|] eqn:E; destruct (consume q (b :: bs)) as [[q' bs'']|]; try done.
  rewrite !rbind_Ok. destruct Hc as [Hpq Heq]. cbn [fst snd] in *. subst bs''.
  assert (b :: bs <> []) as Hne by done.
  destruct (consume_return _ _ _ _ Hp Hs Hne Hby E) as (Hp' & Hby' & [Hneg|Hlt]).
  - pose proof (pe_state _ _ Hpq). rewrite !feed_done by congruence. by split.
  - by apply IH.
Qed.

(** ** One iteration at a time *)

(** Feeding on after an iteration. *)
Definition after (r : res progress) : res (streaming_parser * bytes) :=
  let? r := r in match r with Return p bs => feed p bs | Continue p bs => feed (set_state st_normal p) bs end.

Lemma feed_consumed p q bs : Forall is_byte bs -> sp_state q = st_normal -> same_data p q ->
  (let? r := consume_bytes p bs in feed (fst r) (snd r)) ≈ feed q bs.
Proof.
  intros Hby Hq H. destruct bs as [|b bs].
  { split; [|done]. destruct H. split; cbn; try done. by intros [?|?]. }
  rewrite feed_consume by (done || (by apply resume_normal) || (by rewrite Hq)). rewrite consume_normal by done.
  pose proof (consume_bytes_eq p q (b :: bs) H) as Hc.
  destruct (consume_bytes p (b :: bs)) as [[p1 l1]|] eqn:E; destruct (consume_bytes q (b :: bs)) as [[q1 l2]|]; try done.
  rewrite !rbind_Ok. destruct Hc as [Hpq Heq]. cbn [fst snd] in *. subst l2.
  destruct (consume_bytes_return _ _ _ _ Hby E) as (R1 & _ & R3). by apply feed_eq.
Qed.

Lemma feed_normal p b bs : sp_state p = st_normal -> Forall is_byte (b :: bs) -> feed p (b :: bs) ≈ after (consume_step p b bs).
Proof.
  intros Hp Hby. rewrite feed_consume by (done || (by apply resume_normal) || (by rewrite Hp)).
  rewrite consume_normal, consume_bytes_cons by done. unfold continue, after.
  apply Forall_cons in Hby as [Hb Hby]. pose proof (step_return p b bs Hb Hby) as Hs. unfold leaves in Hs.
  destruct (consume_step p b bs) as [[p' bs'|p' bs']|]; [| |done]; rewrite !rbind_Ok; [|done]. by apply feed_consumed.
Qed.

Lemma after_eq r r' : leaves r -> res_rel progress_eq r r' -> after r ≈ after r'.
Proof.
  intros Hl H. unfold after. destruct r as [[p bs|p bs]|], r' as [[q bs'|q bs']|]; try done; rewrite !rbind_Ok; destruct H as [H <-].
  - apply feed_eq; [done| |by apply resume_normal]. destruct H. split; cbn; try done. by intros [?|?].
  - destruct Hl as (H1 & _ & H3). by apply feed_eq.
Qed.

(** Feeding more after [feed] has stopped. *)
Definition then_feed (r : res (streaming_parser * bytes)) (t : bytes) : res (streaming_parser * bytes) :=
  let? r := r in if bool_decide (snd r = []) then feed (fst r) t else Ok (fst r, snd r ++ t).

Lemma feed_return bs : forall p p' bs', resumable p -> Forall is_byte bs -> feed p bs = Ok (p', bs') ->
  resumable p' /\ (sp_state p' < 0 \/ bs' = []).
Proof.
  induction bs as [bs IH] using (induction_ltof1 _ (@length Z)); unfold ltof in IH. intros p p' bs' Hp Hby.
  destruct (Z.lt_ge_cases (sp_state p) 0) as [Hs|Hs]; [rewrite feed_done by done; intros [= <- <-]; by split; [|left]|].
  destruct bs as [|b bs]; [intros [= <- <-]; by split; [|right]|].
  assert (b :: bs <> []) as Hne by done. rewrite feed_consume by done. intros H. apply rbind_ok in H as ([p1 bs1] & H1 & H). cbn [fst snd] in H.
  destruct (consume_return _ _ _ _ Hp Hs Hne Hby H1) as (R1 & R2 & [R3|R3]); [|by eapply IH].
  rewrite feed_done in H by done. injection H as <- <-. by split; [|left].
Qed.

Lemma then_feed_eq r r' t : Forall is_byte t -> (forall p bs, r = Ok (p, bs) -> resumable p) -> r ≈ r' -> then_feed r t ≈ then_feed r' t.
Proof.
  intros Ht Hr H. unfold then_feed. destruct r as [[p bs]|], r' as [[q bs']|]; try done. rewrite !rbind_Ok. destruct H as [H Heq].
  cbn [fst snd] in *. subst bs'. case_bool_decide; [|by split]. apply feed_eq; [done|done|by eapply Hr].
Qed.

Lemma feed_then p a t : resumable p -> Forall is_byte a -> Forall is_byte t -> forall r, feed p a ≈ r -> then_feed (feed p a) t ≈ then_feed r t.
Proof. intros Hp Ha Ht r H. apply then_feed_eq; [done| |done]. intros q bs Hf. by destruct (feed_return _ _ _ _ Hp Ha Hf). Qed.

(** ** What a waiting parser waits in *)

(** The label decides the iteration. *)
Lemma step_label p b bs b' bs' : read_label b bs = read_label b' bs' -> read_label b bs <> LError -> read_label b bs <> LPartial ->
  consume_step p b bs = consume_step p b' bs'.
Proof. intros H H1 H2. unfold consume_step. rewrite <- H. by destruct (read_label b bs). Qed.

(** A header that takes all the bytes: a string is still to come, or the
    iteration ends with none left. *)
Lemma step_end p b h :
  match read_label b h with LValue _ r | LMap _ r | LArray _ r | LRaw _ r => r = [] | _ => False end ->
  (exists n, read_label b h = LRaw n [] /\ 0 < n) \/
  (match read_label b h with LPartial => False | LRaw n r => n <= Z.of_nat (length r) | _ => True end /\
   match consume_step p b h with
   | Ok (Return p' l) => sp_state p' < 0 /\ l = []
   | Ok (Continue p' l) => l = []
   | Fault _ => True
   end).
Proof.
  unfold consume_step. destruct (read_label b h) as [v r|n r|n r|n r| |]; try done; intros ->.
  - right. split; [done|]. destruct (store _ v p); [|done]. apply next_return.
  - right. split; [done|]. destruct (store _ _ p); [|done]. apply next_return.
  - right. split; [done|]. destruct (load _ p); [|done]. rewrite rbind_Ok. destruct (resize _ n); [|done]. rewrite rbind_Ok.
    destruct (store _ _ p); [|done]. apply next_return.
  - destruct (Z.le_gt_cases n 0) as [Hn|Hn]; [right|left; by exists n]. split; [done|]. cbn [length]. rewrite (proj2 (Z.ltb_ge _ _)) by done.
    destruct (n <? 0); [done|]. rewrite drop_nil. destruct (store _ _ p); [|done]. apply next_return.
Qed.

Lemma read_str32 n s : 0 <= n < 2 ^ 31 -> read_label fstr32 (net_bytes 4 n ++ s) = LRaw n s.
Proof. intros Hn. header 4%nat. unfold header_label. cbn. by rewrite int_value_small by (cbn; lia). Qed.

(** Reading a value that is none needs no length. *)
Lemma next_string jx n p bs s : load jx p = Ok (JString s) -> next jx n p bs = next jx 0 p bs.
Proof. intros H. unfold next. by rewrite H. Qed.

Lemma store_load jx v p p' : store jx v p = Ok p' -> load jx p' = Ok v.
Proof.
  destruct jx as [| |path]; cbn; [done|by intros [= <-]|]. intros H. apply rbind_ok in H as (j & Hj & [= <-]). cbn.
  assert (forall path v j j', store_path path v j = Ok j' -> load_path path j' = Ok v) as Hsl; [|by eapply Hsl].
  clear. induction path as [|i path IH]; intros v j j'; cbn; [by intros [= ->]|]. destruct (child j i) as [c|] eqn:Hc; [|done].
  intros H. apply rbind_ok in H as (c' & Hc' & [= <-]). rewrite (child_set_child _ _ _ _ Hc). by eapply IH.
Qed.

Lemma replay_string p n S bs : Forall is_byte (sp_str p) -> Forall is_byte bs ->
  sp_state p = st_string -> sp_stack p = Selem NullJ n :: S -> Z.of_nat (length (sp_str p)) < n < 2 ^ 31 ->
  feed p bs ≈ feed (set_stack S (set_state st_normal p)) (fstr32 :: net_bytes 4 n ++ sp_str p ++ bs).
Proof.
  intros Hsb Hby Hs Hst Hn. set (q := set_stack S (set_state st_normal p)).
  assert (Forall is_byte (net_bytes 4 n)) as Hnb by (unfold net_bytes; apply Forall_rev, le_bytes_range).
  assert (Forall is_byte (fstr32 :: net_bytes 4 n ++ sp_str p ++ bs)) as Hall.
  { constructor; [unfold is_byte, fstr32; lia|]. by rewrite !Forall_app. }
  etrans; [|symmetry; by apply feed_normal].
  unfold consume_step. rewrite read_str32 by lia. rewrite length_app.
  assert (resumable p) as Hp by (by eapply resume_string). assert (same_data (set_stack S p) q) as Hpq by done.
  destruct (Z.ltb_spec (Z.of_nat (length (sp_str p) + length bs)) n) as [Hlt|Hge].
  - destruct bs as [|b bs].
    + unfold after. rewrite rbind_Ok, app_nil_r. split; [|done]. split; cbn; try done.
    + rewrite feed_consume by (done || (by rewrite Hs)). rewrite (consume_string _ n S) by (done || lia).
      cbn zeta. rewrite (proj2 (Z.ltb_lt _ _)) by lia. rewrite rbind_Ok. unfold after. rewrite rbind_Ok. cbn [fst snd]. by split.
  - rewrite (proj2 (Z.ltb_ge n 0)) by lia. destruct bs as [|b bs]; [cbn in Hge; lia|].
    rewrite feed_consume by (done || (by rewrite Hs)). rewrite (consume_string _ n S) by (done || lia). cbn zeta.
    set (k := Z.to_nat (n - _)). assert (Z.of_nat k = n - Z.of_nat (length (sp_str p))) as Hk by (unfold k; lia).
    rewrite (proj2 (Z.ltb_ge _ _)) by lia. replace (Z.to_nat n) with (length (sp_str p) + k)%nat by lia.
    rewrite take_app_add, drop_app_add. set (s := sp_str p ++ take k (b :: bs)). set (p1 := set_stack S (set_str s p)).
    assert (same_data p1 q) as Hp1 by done. unfold continue. rewrite (current_eq _ _ Hp1).
    assert (Forall is_byte (drop k (b :: bs))) as Hdb by by apply Forall_drop.
    pose proof (store_eq (current q) (JString s) p1 q Hp1) as Hse.
    destruct (store (current q) (JString s) p1) as [p2|] eqn:E1; destruct (store (current q) (JString s) q) as [q2|] eqn:E2; try done.
    rewrite !rbind_Ok. rewrite (next_string _ n _ _ s) by (by eapply store_load). pose proof (next_eq (current q) 0 p2 q2 (drop k (b :: bs)) Hse) as Hne.
    pose proof (next_return (current q) 0 p2 (drop k (b :: bs))) as Hnr.
    unfold after. destruct (next (current q) 0 p2 _) as [[p3 l3|p3 l3]|]; destruct (next (current q) 0 q2 _) as [[q3 l4|q3 l4]|]; try done;
      rewrite !rbind_Ok; destruct Hne as [Hne <-].
    + subst l3. apply feed_consumed; [done|done|]. destruct Hne. by split.
    + destruct Hnr as [Hneg ->]. cbn [fst snd]. pose proof (pe_state _ _ Hne). rewrite !feed_done by congruence. by split.
Qed.

Lemma replay_partial p b s bs : Forall is_byte bs ->
  sp_state p = st_partial -> sp_str p = b :: s -> Forall is_byte (b :: s) -> read_label b s = LPartial ->
  feed p bs ≈ feed (set_state st_normal p) (sp_str p ++ bs).
Proof.
  intros Hby Hs Hb Hsb Hl. set (q := set_state st_normal p).
  assert (resumable p) as Hp by (by eapply resume_partial). destruct (partial_needs _ _ Hl) as (_ & Hlen & Hlab).
  assert (length (sp_str p) = Datatypes.S (length s)) as Hls by by rewrite Hb.
  assert (Forall is_byte (b :: s ++ bs)) as Hall by (rewrite app_comm_cons; by apply Forall_app).
  etrans; [|rewrite Hb; cbn [app]; symmetry; by apply feed_normal].
  destruct (Z.ltb_spec (Z.of_nat (length (s ++ bs)) + 1) (needs b)) as [Hlt|Hge].
  - unfold consume_step. rewrite Hlab, (proj2 (Z.ltb_lt _ _)) by done. unfold after. rewrite rbind_Ok, feed_nil.
    rewrite length_app in Hlt. destruct bs as [|c bs].
    + rewrite feed_nil, app_nil_r. split; [|done]. split; cbn; done.
    + rewrite feed_consume by (done || (by rewrite Hs)). rewrite (consume_partial _ _ _ _ Hs Hb Hl). cbn zeta.
      rewrite (proj2 (Z.ltb_lt _ _)) by lia. rewrite rbind_Ok. split; [|done]. split; cbn; try done. by rewrite Hb.
  - rewrite length_app in Hge. destruct bs as [|c bs]; [cbn [length] in Hge; lia|]. rewrite feed_consume by (done || (by rewrite Hs)).
    rewrite (consume_partial _ _ _ _ Hs Hb Hl). cbn zeta. set (k := Z.to_nat _).
    assert (Z.of_nat k = needs b - Z.of_nat (length (sp_str p))) as Hk by (unfold k; lia). rewrite (proj2 (Z.ltb_ge _ _)) by lia.
    set (h := s ++ take k (c :: bs)). set (p1 := set_state st_normal (set_str _ p)). rewrite Hb. cbn [app]. fold h.
    assert (s ++ c :: bs = h ++ drop k (c :: bs)) as -> by (unfold h; by rewrite <- app_assoc, take_drop).
    assert (Forall is_byte (drop k (c :: bs))) as Hdb by by apply Forall_drop.
    assert (Forall is_byte (b :: h)) as Hbh.
    { unfold h. rewrite app_comm_cons. apply Forall_app. split; [done|by apply Forall_take]. }
    assert (length h = Z.to_nat (needs b - 1)) as Hlh by (unfold h; rewrite length_app, length_take; lia).
    assert (same_data p1 q) as Hpq by done. rewrite consume_bytes_cons.
    assert (read_label b h = header_label b h []) as Hlh1.
    { rewrite Hlab, (proj2 (Z.ltb_ge _ _)) by lia. by rewrite <- Hlh, firstn_all, drop_all. }
    apply Forall_cons in Hbh as [Hbb Hhb].
    assert (match read_label b h with LValue _ r | LMap _ r | LArray _ r | LRaw _ r => r = [] | _ => False end) as Hend
      by (rewrite Hlh1; unfold header_label;
          repeat (match goal with |- context [if ?c then _ else _] => destruct c end; [done|]); done).
    destruct (step_end p1 b h Hend) as [(n & Hraw & Hn)|[Hns Hres]].
    + pose proof (label_raw_int _ _ _ _ Hbb Hraw) as Hn31. unfold consume_step at 1. rewrite Hraw. cbn [length].
      rewrite (proj2 (Z.ltb_lt _ _)) by lia. unfold continue. rewrite !rbind_Ok. cbn [fst snd sp_state set_state].
      change (negb (st_string =? st_normal)) with true. cbn iota. rewrite rbind_Ok. cbn [fst snd]. set (ps := set_state st_string _).
      assert (Forall is_byte (fstr32 :: net_bytes 4 n ++ drop k (c :: bs))) as Hby'.
      { constructor; [unfold is_byte, fstr32; lia|]. apply Forall_app. split; [unfold net_bytes; apply Forall_rev, le_bytes_range|done]. }
      etrans; [apply (replay_string ps n (sp_stack p1)); (done || (cbn; lia))|]. cbn [sp_str ps set_state set_stack set_str app].
      etrans; [apply (feed_eq _ _ q); [done| |by apply resume_normal]|].
      { split; cbn; try done. by intros [?|?]. }
      etrans; [by apply feed_normal|]. rewrite (step_label q fstr32 _ b (h ++ drop k (c :: bs))); [reflexivity| | |].
      * rewrite (label_app b h), Hraw. by rewrite read_str32 by lia.
      * by rewrite read_str32 by lia.
      * by rewrite read_str32 by lia.
    + rewrite (step_extend q) by done. pose proof (step_eq p1 q b h Hpq) as Hse.
      destruct (consume_step p1 b h) as [[p2 l2|p2 l2]|]; destruct (consume_step q b h) as [[q2 l3|q2 l3]|]; try done;
        unfold continue, after; cbn [fmap res_fmap extend]; rewrite ?rbind_Ok.
      * destruct Hse as [Hse <-]. subst l2. cbn [app fst snd]. unfold consume_bytes at 1. cbn [length consume_loop]. rewrite !rbind_Ok. cbn [fst snd sp_state set_state].
        apply feed_consumed; [done|done|]. destruct Hse. by split.
      * destruct Hse as [Hse <-]. destruct Hres as [Hneg ->]. cbn [app fst snd].
        rewrite (proj2 (Z.eqb_neq _ _)) by (unfold st_normal; lia). cbn [negb]. rewrite rbind_Ok. cbn [fst snd].
        pose proof (pe_state _ _ Hse). rewrite !feed_done by congruence. by split.
Qed.

(** ** Cutting the input *)

(** Two buffers, from a parser between values. *)
Lemma feed_app_normal a : forall p t, sp_state p = st_normal -> Forall is_byte a -> Forall is_byte t ->
  feed p (a ++ t) ≈ then_feed (feed p a) t.
Proof.
  induction a as [a IH] using (induction_ltof1 _ (@length Z)); unfold ltof in IH. intros p t Hp Ha Ht.
  destruct a as [|b a]; [rewrite feed_nil; reflexivity|]. assert (resumable p) as Hr by by apply resume_normal.
  pose proof Ha as [Hb Ha']%Forall_cons. cbn [app].
  assert (Forall is_byte (b :: a ++ t)) as Hall by (rewrite app_comm_cons; by apply Forall_app).
  etrans; [by apply feed_normal|]. etrans; [|symmetry; by apply (feed_then p (b :: a) t Hr Ha Ht), feed_normal].
  pose proof (step_return p b a Hb Ha') as Hlv.
  assert (match read_label b a with LPartial => False | LRaw n r => n <= Z.of_nat (length r) | _ => True end ->
    after (consume_step p b (a ++ t)) ≈ then_feed (after (consume_step p b a)) t) as Hext.
  { intros Hns. rewrite (step_extend p b a t Hns). unfold leaves in Hlv. unfold after.
    destruct (consume_step p b a) as [[p' l|p' l]|] eqn:E; [| |done]; cbn [fmap res_fmap extend]; rewrite !rbind_Ok.
    - apply consume_step_shorter in E. apply IH; [cbn; lia|done|done|done].
    - destruct Hlv as (R1 & [R2|R2] & R3).
      + rewrite !feed_done by done. unfold then_feed. rewrite rbind_Ok. cbn [fst snd]. case_bool_decide as Hl; [subst; by rewrite feed_done|reflexivity].
      + subst l. rewrite feed_nil. reflexivity. }
  destruct (read_label b a) as [v r|n r|n r|n r| |] eqn:Hl; try by apply Hext.
  - destruct (Z.le_gt_cases n (Z.of_nat (length r))) as [Hn|Hn]; [by apply Hext|].
    pose proof (label_raw_int _ _ _ _ Hb Hl) as Hn31. pose proof (label_bytes b a Ha') as Hrb. rewrite Hl in Hrb.
    assert (consume_step p b (a ++ t) = consume_step p fstr32 (net_bytes 4 n ++ r ++ t)) as ->.
    { apply step_label; rewrite label_app, Hl; [by rewrite read_str32 by lia|done|done]. }
    unfold consume_step at 2. rewrite Hl, (proj2 (Z.ltb_lt _ n)) by lia. unfold after at 2. rewrite rbind_Ok, feed_nil.
    unfold then_feed. rewrite rbind_Ok. cbn [fst snd]. rewrite bool_decide_eq_true_2 by done. set (ps := set_state st_string _).
    assert (Forall is_byte (fstr32 :: net_bytes 4 n ++ r ++ t)) as Hby'.
    { constructor; [unfold is_byte, fstr32; lia|]. rewrite !Forall_app. split; [unfold net_bytes; apply Forall_rev, le_bytes_range|done]. }
    etrans; [|symmetry; apply (replay_string ps n (sp_stack p)); (done || (cbn; lia))]. cbn [sp_str ps set_state set_stack set_str].
    etrans; [symmetry; by apply (feed_normal p)|]. apply feed_eq; [done| |done]. split; cbn; try done. by intros [?|?]; rewrite Hp in *.
  - unfold consume_step at 2. rewrite Hl. unfold after at 2. rewrite rbind_Ok, feed_nil. unfold then_feed. rewrite rbind_Ok. cbn [fst snd].
    rewrite bool_decide_eq_true_2 by done. set (ps := set_state st_partial _).
    etrans; [|symmetry; by apply (replay_partial ps b a)]. cbn [sp_str ps set_state set_str app].
    etrans; [symmetry; by apply (feed_normal p)|]. apply feed_eq; [done| |done]. split; cbn; try done. by intros [?|?]; rewrite Hp in *.
Qed.

Lemma feed_app p a t : resumable p -> Forall is_byte a -> Forall is_byte t ->
  feed p (a ++ t) ≈ then_feed (feed p a) t.
Proof.
  intros Hp Ha Ht. assert (Forall is_byte (a ++ t)) as Hat by by apply Forall_app. pose proof Hp as [Hs|Hs|b s Hs Hb Hsb Hl|n S Hs Hst Hn Hsb].
  - rewrite !feed_done by done. unfold then_feed. rewrite rbind_Ok. cbn [fst snd]. case_bool_decide as Hl; [subst; by rewrite feed_done|reflexivity].
  - by apply feed_app_normal.
  - etrans; [by apply (replay_partial p b s)|]. etrans; [|symmetry; by apply (feed_then p a t Hp Ha Ht), (replay_partial p b s)].
    rewrite app_assoc. apply feed_app_normal; [done|apply Forall_app; by rewrite Hb|done].
  - etrans; [by apply (replay_string p n S)|]. etrans; [|symmetry; by apply (feed_then p a t Hp Ha Ht), (replay_string p n S)].
    assert (fstr32 :: net_bytes 4 n ++ sp_str p ++ a ++ t = (fstr32 :: net_bytes 4 n ++ sp_str p ++ a) ++ t) as -> by by rewrite <- app_comm_cons, <- !app_assoc.
    apply feed_app_normal; [done| |done]. constructor; [unfold is_byte, fstr32; lia|]. rewrite !Forall_app.
    split; [unfold net_bytes; apply Forall_rev, le_bytes_range|done].
Qed.

(** *** The bytes that are left *)

Definition left_of (r : progress) : bytes := match r with Continue _ bs | Return _ bs => bs end.

Lemma complete_left p bs r : complete p bs = Ok r -> left_of r = bs.
Proof.
  unfold complete. destruct (pop_empty _) as [|top rest]; [by intros [= <-]|].
  intros H. apply rbind_ok in H as (jo & _ & H). by injection H as <-.
Qed.

Lemma next_left jx n p bs r : next jx n p bs = Ok r -> left_of r = bs.
Proof.
  unfold next. intros H. apply rbind_ok in H as (v & _ & H).
  assert (forall jx, (if is_a v && negb (n =? 0) then
      let? v := at_insert v 0 in let? p := store jx v p in Ok (Continue (set_stack (Selem (child_ptr jx 0) (n - 1) :: sp_stack p) p) bs)
    else if is_o v && negb (n =? 0) then Ok (Continue (set_stack (Selem KeyJ (n - 1) :: sp_stack p) p) bs)
    else complete p bs) = Ok r -> left_of r = bs) as Hplain.
  { intros jx' H'. destruct (is_a v && _); [|destruct (is_o v && _); [by injection H' as <-|by eapply complete_left]].
    apply rbind_ok in H' as (? & _ & H'). apply rbind_ok in H' as (? & _ & H'). by injection H' as <-. }
  destruct jx; [by apply (Hplain NullJ)| |by apply (Hplain (At path))].
  destruct (sp_stack p) as [|top rest] eqn:E; [rewrite ?E in H, Hplain; by apply (Hplain KeyJ)|].
  destruct (key_to_s v) as [key|]; [|by injection H as <-].
  apply rbind_ok in H as (jo & _ & H). destruct (get_insert jo key). apply rbind_ok in H as (? & _ & H). by injection H as <-.
Qed.

Lemma label_left f bs :
  match read_label f bs with LValue _ r | LMap _ r | LArray _ r | LRaw _ r => r `suffix_of` bs | _ => True end.
Proof.
  unfold read_label. repeat (case_match; try done);
    repeat match goal with H : _ = LValue _ _ |- _ => revert H | H : _ = LMap _ _ |- _ => revert H | H : _ = LArray _ _ |- _ => revert H | H : _ = LRaw _ _ |- _ => revert H end;
    unfold header_label; repeat case_match; intros; simplify_eq; try done; try apply suffix_drop.
Qed.

Lemma step_left p f bs r : consume_step p f bs = Ok r -> left_of r `suffix_of` f :: bs.
Proof.
  unfold consume_step. pose proof (label_left f bs) as Hl.
  assert (forall b, b `suffix_of` bs -> b `suffix_of` f :: bs) as Hc by (intros b; apply suffix_cons_r).
  destruct (read_label f bs) as [v b|n b|n b|n b| |]; intros H.
  - apply rbind_ok in H as (p1 & _ & H). apply next_left in H as ->. by apply Hc.
  - apply rbind_ok in H as (p1 & _ & H). apply next_left in H as ->. by apply Hc.
  - apply rbind_ok in H as (? & _ & H). apply rbind_ok in H as (? & _ & H). apply rbind_ok in H as (? & _ & H). apply next_left in H as ->. by apply Hc.
  - destruct (_ <? n); [injection H as <-; apply suffix_nil|]. destruct (n <? 0); [done|].
    apply rbind_ok in H as (? & _ & H). apply next_left in H as ->. apply Hc. etrans; [apply suffix_drop|done].
  - injection H as <-. apply suffix_nil.
  - by injection H as <-.
Qed.

Lemma consume_loop_left fuel : forall p bs p' bs', consume_loop fuel p bs = Ok (p', bs') -> bs' `suffix_of` bs.
Proof.
  induction fuel as [|fuel IH]; intros p [|b bs] p' bs'; cbn [consume_loop]; try done; try (by intros [= <- <-]).
  intros H. apply rbind_ok in H as (r & Hr & H). apply step_left in Hr. destruct r as [q l|q l]; cbn [left_of] in Hr.
  - etrans; [by eapply IH|done].
  - by injection H as <- <-.
Qed.

(** [consume] stops at a position of its input. *)
Lemma consume_left p bs p' bs' : consume p bs = Ok (p', bs') -> bs' `suffix_of` bs.
Proof.
  unfold consume. destruct (_ <? 0); [by intros [= <- <-]|]. destruct (_ || _); [|apply consume_loop_left].
  intros H. apply rbind_ok in H as (nneed & _ & H). cbn zeta in H. set (k := Z.to_nat _) in H.
  assert (drop k bs `suffix_of` bs) as Hk by apply suffix_drop. destruct (negb _); [by injection H as <- <-|].
  destruct (_ =? st_string).
  - apply rbind_ok in H as (q & _ & H). apply rbind_ok in H as (r & Hr & H). apply next_left in Hr.
    destruct r as [q' l|q' l]; cbn in Hr; subst l; [etrans; [by eapply consume_loop_left|done]|by injection H as <- <-].
  - apply rbind_ok in H as (r & _ & H). destruct (negb _); [by injection H as <- <-|]. etrans; [by eapply consume_loop_left|done].
Qed.

(** A caller that reads buffer after buffer until the parser is done: the parser,
    and what is left of the input. *)
Fixpoint feed_all (p : streaming_parser) (bufs : list bytes) : res (streaming_parser * bytes) :=
  match bufs with
  | [] => Ok (p, [])
  | buf :: bufs =>
    let? r := feed p buf in
    if done (fst r) then Ok (fst r, snd r ++ concat bufs) else feed_all (fst r) bufs
  end.

Lemma feed_all_concat bufs : forall p, resumable p -> Forall is_byte (concat bufs) -> feed_all p bufs ≈ feed p (concat bufs).
Proof.
  induction bufs as [|buf bufs IH]; intros p Hp Hby; [reflexivity|]. cbn [concat] in *. apply Forall_app in Hby as [H1 H2].
  etrans; [|symmetry; by apply feed_app]. cbn [feed_all]. unfold then_feed.
  destruct (feed p buf) as [[p' l]|] eqn:E; [|done]. rewrite !rbind_Ok. cbn [fst snd].
  destruct (feed_return _ _ _ _ Hp H1 E) as [Hp' Hor]. destruct (done p') eqn:Hd.
  - apply Z.ltb_lt in Hd. case_bool_decide as Hl; [subst; by rewrite feed_done|reflexivity].
  - apply Z.ltb_ge in Hd. destruct Hor as [Hneg| ->]; [lia|]. rewrite bool_decide_eq_true_2 by done. by apply IH.
Qed.

(** However the input is cut into buffers, well-formed or not, a parser that is
    fed buffer after buffer until it is done ends as one that is fed all at once:
    the same state, value and stack, the same bytes left over, or the same fault. *)
Lemma feed_in_pieces (p : streaming_parser) (bufs : list bytes) :
  resumable p -> Forall is_byte (concat bufs) -> feed_all p bufs ≈ feed p (concat bufs).
Proof. apply feed_all_concat. Qed.

(** C31: A value the unparser has written is read back however the bytes arrive: the
    parser stops at the end of the value with the value (unsigned integers below
    65536 have become signed ones), and the bytes behind it are left. *)
Theorem unparse_feed_pieces (v : Json) (p : streaming_parser) (bufs : list bytes) (rest : bytes) :
  writable v -> Forall is_byte (concat bufs) -> concat bufs = unparse v ++ rest ->
  exists p', feed_all (reset p) bufs = Ok (p', rest) /\ success p' = true /\ sp_json p' = read_back v.
Proof.
  intros Hv Hby Hc. assert (resumable (reset p)) as Hp by by apply resume_normal.
  pose proof (feed_all_concat bufs (reset p) Hp Hby) as Heq. rewrite Hc in Heq, Hby.
  destruct (consume_unparse v p rest Hv) as (p' & Hr & Hs & Hj).
  assert (unparse v <> []) as Hne by apply unparse_nonempty.
  assert (unparse v ++ rest <> []) as Hne' by (by destruct (unparse v)).
  rewrite (feed_consume (reset p) _ Hp) in Heq by done. rewrite Hr, rbind_Ok in Heq. cbn [fst snd] in Heq.
  assert (sp_state p' < 0) as Hneg by (unfold success in Hs; apply Z.eqb_eq in Hs; by rewrite Hs). rewrite feed_done in Heq by done.
  destruct (feed_all (reset p) bufs) as [[q l]|]; [|done]. destruct Heq as [Hq Hl]. cbn [fst snd] in *. subst l. exists q. split; [done|].
  unfold success. rewrite (pe_state _ _ Hq), (pe_json _ _ Hq). done.
Qed.

(** ** On inputs *)

(** An object with an array of numbers, cut inside a header and inside the key. *)
Definition piecemeal : Json := JObject [([107; 101; 121], JArray [JInt (-300); JUnsigned 5; JBool true; JNull])].
Lemma unparse_feed_pieces_witness :
  unparse piecemeal = [129; 163; 107; 101; 121; 148; 209; 254; 212; 5; 195; 192] /\
  exists p', feed_all (reset new_streaming_parser) [[129; 163; 107]; [101; 121; 148; 209; 254]; [212; 5; 195; 192; 7]] = Ok (p', [7]) /\
    success p' = true /\ sp_json p' = JObject [([107; 101; 121], JArray [JInt (-300); JInt 5; JBool true; JNull])].
Proof.
  split; [vm_compute; reflexivity|].
  apply (unparse_feed_pieces piecemeal new_streaming_parser [[129; 163; 107]; [101; 121; 148; 209; 254]; [212; 5; 195; 192; 7]] [7]).
  - cbn. unfold int_length. cbn. repeat split; try lia; repeat constructor; cbn; set_solver.
  - cbn. repeat constructor; lia.
  - vm_compute. reflexivity.
Defined.
