(* ===== verification/MsgpackParser.v ===== *)
(** * The MessagePack reader of complete buffers (msgpack.hh, msgpack.cc)

    Class [parser] reads what the unparser has written, one typed item after the
    other, from a position in memory.  The state is the memory from that position
    on; reading or moving past its end is a fault. *)

From S2P Require Export MsgpackStream.

#[local] Open Scope Z_scope.
#[local] Open Scope lhm_scope.
Import format.

(** ** Positions *)

(** [s_ += k], and the [n] bytes at [s_ + off]. *)
Definition advance (k : Z) (s : bytes) : res bytes :=
  if (0 <=? k) && (k <=? Z.of_nat (length s)) then Ok (drop (Z.to_nat k) s) else Fault OutOfBounds.
Definition bytes_at (off n : nat) (s : bytes) : res bytes :=
  if Z.of_nat (length s) <? Z.of_nat (off + n) then Fault OutOfBounds else Ok (take n (drop off s)).

(** [read_in_net_order] of an [n]-byte integer, unsigned or signed, at [s_ + 1]. *)
Definition read_unsigned (n : nat) (s : bytes) : res Z := let? h := bytes_at 1 n s in Ok (net_value h).
Definition read_signed (n : nat) (s : bytes) : res Z := let? h := bytes_at 1 n s in Ok (net_signed h).

(** ** Integers *)

(** The C++ types [int], [unsigned], [long], [unsigned long] and a value's
    conversion to them. *)
Record int_type := IntType { it_bits : Z; it_signed : bool }.
Definition type_int := IntType 32 true.
Definition type_unsigned := IntType 32 false.
Definition type_long := IntType 64 true.
Definition type_unsigned_long := IntType 64 false.
Definition convert (t : int_type) (x : Z) : Z :=
  if it_signed t then Word.signed (it_bits t) x else Word.wrap (it_bits t) x.

(** [write_int] of the type. *)
Definition write_int (t : int_type) (x : Z) : bytes :=
  if it_bits t =? 32 then if it_signed t then write_signed4 x else write_unsigned4 x
  else if it_signed t then write_signed8 x else write_unsigned8 x.

Definition hard_read_int (t : int_type) (x : Z) (s : bytes) : res (Z * bytes) :=
  let? type := aget s 0 in
  if type =? fuint8 then let? v := aget s 1 in let? s := advance 2 s in Ok (convert t v, s)
  else if type =? fuint16 then let? v := read_unsigned 2 s in let? s := advance 3 s in Ok (convert t v, s)
  else if type =? fuint32 then let? v := read_unsigned 4 s in let? s := advance 5 s in Ok (convert t v, s)
  else if type =? fuint64 then let? v := read_unsigned 8 s in let? s := advance 9 s in Ok (convert t v, s)
  else if type =? fint8 then let? v := aget s 1 in let? s := advance 2 s in Ok (convert t (Word.signed 8 v), s)
  else if type =? fint16 then let? v := read_signed 2 s in let? s := advance 3 s in Ok (convert t v, s)
  else if type =? fint32 then let? v := read_signed 4 s in let? s := advance 5 s in Ok (convert t v, s)
  else if type =? fint64 then let? v := read_signed 8 s in let? s := advance 9 s in Ok (convert t v, s)
  else Ok (x, s).

Definition read_int (t : int_type) (x : Z) (s : bytes) : res (Z * bytes) :=
  let? b := aget s 0 in
  if is_fixint b then let? s := advance 1 s in Ok (convert t (Word.signed 8 b), s)
  else
    let? _ := check_res (Word.subw 32 b fuint8 <? 8) in
    hard_read_int t x s.

Definition read_tiny_int (s : bytes) : res (Z * bytes) :=
  let? b := aget s 0 in
  let? _ := check_res (is_fixint b) in
  let? s := advance 1 s in
  Ok (Word.signed 8 b, s).

(** ** The other items *)

Definition try_read_null (s : bytes) : res (bool * bytes) :=
  let? b := aget s 0 in
  if b =? fnull then let? s := advance 1 s in Ok (true, s) else Ok (false, s).

Definition read_bool (s : bytes) : res (bool * bytes) :=
  let? b := aget s 0 in
  let? _ := check_res (is_bool b) in
  let? s := advance 1 s in
  Ok (negb (b - ffalse =? 0), s).

Definition read_double (s : bytes) : res (Z * bytes) :=
  let? b := aget s 0 in
  let? _ := check_res (b =? ffloat64) in
  let? d := read_unsigned 8 s in
  let? s := advance 9 s in
  Ok (d, s).

(** The string is in the memory; a length that is no [int] has none. *)
Definition read_str (s : bytes) : res (bytes * bytes) :=
  let? b := aget s 0 in
  let? r :=
    (if in_range b ffixstr nfixstr then let? s := advance 1 s in Ok (b - ffixstr, s)
     else if (b =? fbin8) || (b =? fstr8) then let? n := aget s 1 in let? s := advance 2 s in Ok (n, s)
     else if (b =? fbin16) || (b =? fstr16) then let? n := read_unsigned 2 s in let? s := advance 3 s in Ok (n, s)
     else
       let? _ := check_res ((b =? fbin32) || (b =? fstr32)) in
       let? n := read_unsigned 4 s in
       let? s := advance 5 s in
       Ok (n, s)) in
  let (len, s) := (r : Z * bytes) in
  if 2 ^ 31 <=? len then Fault OutOfBounds
  else
    let? x := bytes_at 0 (Z.to_nat len) s in
    let? s := advance len s in
    Ok (x, s).

Definition read_array_header (s : bytes) : res (Z * bytes) :=
  let? b := aget s 0 in
  if is_fixarray b then let? s := advance 1 s in Ok (b - ffixarray, s)
  else if b =? farray16 then let? n := read_unsigned 2 s in let? s := advance 3 s in Ok (n, s)
  else
    let? _ := check_res (b =? farray32) in
    let? n := read_unsigned 4 s in
    let? s := advance 5 s in
    Ok (n, s).

Definition skip_array_size (s : bytes) : res bytes :=
  let? b := aget s 0 in
  if is_fixarray b then advance 1 s
  else if b =? farray16 then advance 3 s
  else
    let? _ := check_res (b =? farray32) in
    advance 5 s.

(** One item of [skip_primitives]: 64-bit numbers and what is no primitive are
    not skipped. *)
Definition skip_primitive (s : bytes) : res bytes :=
  let? b := aget s 0 in
  if is_fixint b || is_null_or_bool b then advance 1 s
  else if is_fixstr b then advance (1 + (b - ffixstr)) s
  else if (b =? fuint8) || (b =? fint8) then advance 2 s
  else if (b =? fuint16) || (b =? fint16) then advance 3 s
  else if (b =? fuint32) || (b =? fint32) || (b =? ffloat32) then advance 5 s
  else if (b =? fstr8) || (b =? fbin8) then let? n := aget s 1 in advance (2 + n) s
  else if (b =? fstr16) || (b =? fbin16) then let? n := read_unsigned 2 s in advance (3 + n) s
  else if (b =? fstr32) || (b =? fbin32) then let? n := read_unsigned 4 s in advance (Word.addw 32 5 n) s
  else Ok s.

Fixpoint skip_primitives (n : nat) (s : bytes) : res bytes :=
  match n with
  | O => Ok s
  | S n => let? s := skip_primitive s in skip_primitives n s
  end.

(** [operator>>(Json&)]: the streaming parser on windows of 4096 bytes.  It runs
    into the end of the memory when it has taken all of it and is not done. *)
Fixpoint read_json_loop (fuel : nat) (sp : streaming_parser) (s : bytes) : res (streaming_parser * bytes) :=
  if done sp then Ok (sp, s)
  else
    match s, fuel with
    | [], _ => Fault OutOfBounds
    | _, O => Fault OutOfFuel
    | _, S fuel =>
      let? r := consume sp (take 4096 s) in
      read_json_loop fuel (fst r) (snd r ++ drop 4096 s)
    end.
Definition read_json (j : Json) (s : bytes) : res (Json * bytes) :=
  let? r := read_json_loop (length s) new_streaming_parser s in
  Ok (if success (fst r) then sp_json (fst r) else j, snd r).

(** ** Steps on a known header *)

Lemma advance_app (h rest : bytes) : advance (Z.of_nat (length h)) (h ++ rest) = Ok rest.
Proof. unfold advance. rewrite (proj2 (Z.leb_le _ _)), (proj2 (Z.leb_le _ _)), Nat2Z.id, drop_app_length by (rewrite ?length_app; lia). done. Qed.

Lemma advance_one f rest : advance 1 (f :: rest) = Ok rest.
Proof. exact (advance_app [f] rest). Qed.
Lemma advance_two f g rest : advance 2 (f :: g :: rest) = Ok rest.
Proof. exact (advance_app [f; g] rest). Qed.

Lemma advance_header f n h rest k : length h = n -> k = Z.of_nat n + 1 -> advance k (f :: h ++ rest) = Ok rest.
Proof. intros Hn ->. rewrite app_comm_cons. replace (Z.of_nat n + 1) with (Z.of_nat (length (f :: h))) by (cbn; lia). apply advance_app. Qed.

Lemma bytes_at_header f n h rest : length h = n -> bytes_at 1 n (f :: h ++ rest) = Ok h.
Proof.
  intros <-. unfold bytes_at. rewrite (proj2 (Z.ltb_ge _ _)) by (cbn; rewrite length_app; lia). cbn [drop]. by rewrite drop_0, take_app_length.
Qed.

Lemma bytes_at_front h rest : bytes_at 0 (length h) (h ++ rest) = Ok h.
Proof. unfold bytes_at. rewrite (proj2 (Z.ltb_ge _ _)) by (rewrite length_app; lia). by rewrite drop_0, take_app_length. Qed.

Lemma aget_first (f : Z) s : aget (f :: s) 0 = Ok f.
Proof. done. Qed.
Lemma aget_second (f g : Z) s : aget (f :: g :: s) 1 = Ok g.
Proof. done. Qed.

(** The [n] bytes [h] of a header are read and passed. *)
Ltac reads n h :=
  unfold read_unsigned, read_signed; rewrite ?(bytes_at_header _ n h) by (apply length_net_bytes || done);
  rewrite ?rbind_Ok, ?(advance_header _ n h), ?rbind_Ok by (done || apply length_net_bytes).

(** ** Integers are read as they were written *)

Definition of_type (t : int_type) (x : Z) : Prop :=
  t ∈ [type_int; type_unsigned; type_long; type_unsigned_long] /\
  if it_signed t then - 2 ^ (it_bits t - 1) <= x < 2 ^ (it_bits t - 1) else 0 <= x < 2 ^ it_bits t.

Lemma convert_of_type t x : of_type t x -> convert t x = x.
Proof.
  intros [Ht Hx]. unfold convert. assert (1 < it_bits t) as Hb.
  { repeat (apply elem_of_cons in Ht as [->|Ht]; [done|]). by apply not_elem_of_nil in Ht. }
  destruct (it_signed t); [|by apply Word.wrap_small].
  rewrite <- (signed_wrap (it_bits t) x) at 2 by lia. unfold Word.signed. by rewrite Word.wrap_idemp by lia.
Qed.

Lemma net_value_byte x : net_value [x] = x.
Proof. unfold net_value. cbn. lia. Qed.

Lemma read_int_header t x0 f n x rest : f ∈ [fuint8; fuint16; fuint32; fuint64; fint8; fint16; fint32; fint64] ->
  nthZ 0 nbytes (f - fnull) = Z.of_nat n + 1 ->
  read_int t x0 (f :: net_bytes n x ++ rest) =
    Ok (convert t (if f <? fint8 then net_value (net_bytes n x) else net_signed (net_bytes n x)), rest).
Proof.
  intros Hf Hn. unfold read_int. rewrite aget_first, rbind_Ok.
  repeat (apply elem_of_cons in Hf as [->|Hf]; [
    match goal with |- context [is_fixint ?f] => change (is_fixint f) with false end; cbn iota;
    match goal with |- context [check_res ?b] => change (check_res b) with (Ok tt) end; rewrite rbind_Ok;
    unfold hard_read_int; rewrite aget_first, rbind_Ok; (match type of Hn with ?a = _ => let v := eval vm_compute in a in change a with v in Hn end); try replace n with 1%nat by lia; try replace n with 2%nat by lia;
    try replace n with 4%nat by lia; try replace n with 8%nat by lia;
    unfold fuint8, fuint16, fuint32, fuint64, fint8, fint16, fint32, fint64; cbn [Z.eqb Pos.eqb Z.ltb Z.compare Pos.compare Pos.compare_cont] |]); [..|by apply not_elem_of_nil in Hf].
  1, 5: change (net_bytes 1 x) with [x mod 256]; cbn [app]; rewrite aget_second, rbind_Ok;
    rewrite advance_two, rbind_Ok; unfold net_signed; by rewrite net_value_byte.
  1, 4: by reads 2%nat (net_bytes 2 x).
  1, 3: by reads 4%nat (net_bytes 4 x).
  all: by reads 8%nat (net_bytes 8 x).
Qed.

Lemma read_int_fix t x0 b rest : is_fixint b = true -> read_int t x0 (b :: rest) = Ok (convert t (Word.signed 8 b), rest).
Proof. intros Hb. unfold read_int. rewrite aget_first, rbind_Ok, Hb. by rewrite advance_one. Qed.

Lemma read_int_signed t x0 x bs rest : signed_format true x bs -> of_type t x -> read_int t x0 (bs ++ rest) = Ok (x, rest).
Proof.
  intros H Ht. assert (Ok (x, rest) = Ok (convert t x, rest)) as -> by (by rewrite (convert_of_type _ _ Ht)). destruct H as [H|H|H|H|_ H].
  { destruct (fixint_small x H) as [Hf Hv]. cbn [app]. rewrite read_int_fix by done. by rewrite Hv. }
  all: rewrite <- app_comm_cons, read_int_header; [|by refine (bool_decide_unpack _ _)|done]; cbn [Z.ltb Z.compare]; change (_ <? fint8) with false; cbn iota.
  all: rewrite net_signed_bytes; [done|lia|cbn; lia].
Qed.

Lemma read_int_unsigned t x0 x bs rest : unsigned_format true x bs -> of_type t x -> read_int t x0 (bs ++ rest) = Ok (x, rest).
Proof.
  intros H Ht. assert (Ok (x, rest) = Ok (convert t x, rest)) as -> by (by rewrite (convert_of_type _ _ Ht)). destruct H as [H|H|H|H|_ H].
  { destruct (fixint_small x ltac:(lia)) as [Hf Hv]. rewrite Word.wrap_small in Hf, Hv by (split; lia).
    cbn [app]. rewrite read_int_fix by done. by rewrite Hv. }
  all: rewrite <- app_comm_cons, read_int_header; [|by refine (bool_decide_unpack _ _)|done]; change (_ <? fint8) with true; cbn iota.
  all: by rewrite net_value_small by (cbn; lia).
Qed.

Lemma read_int_write t x0 x rest : of_type t x -> read_int t x0 (write_int t x ++ rest) = Ok (x, rest).
Proof.
  intros Ht. pose proof Ht as [Hin Hx]. unfold write_int.
  repeat (apply elem_of_cons in Hin as [->|Hin]; [cbn in Hx |- *|]); [..|by apply not_elem_of_nil in Hin].
  - by apply read_int_signed; [apply write_signed4_format|].
  - by apply read_int_unsigned; [apply write_unsigned4_format|].
  - by apply read_int_signed; [apply write_signed8_format|].
  - by apply read_int_unsigned; [apply write_unsigned8_format|].
Qed.

(** ** Strings and headers *)

Inductive string_format (n : Z) : bytes -> Prop :=
  | string_fix : 0 <= n < nfixstr -> string_format n [ffixstr + n]
  | string_8 : 0 <= n < 256 -> string_format n (fstr8 :: net_bytes 1 n)
  | string_16 : 0 <= n < 65536 -> string_format n (fstr16 :: net_bytes 2 n)
  | string_32 : 0 <= n < 2 ^ 31 -> string_format n (fstr32 :: net_bytes 4 n).

Lemma write_string_format s : int_length s -> exists h, write_string s = h ++ s /\ string_format (Z.of_nat (length s)) h.
Proof.
  unfold int_length, write_string. cbn zeta. set (n := Z.of_nat (length s)). intros Hn. eexists. split; [reflexivity|].
  destruct (Z.ltb_spec n nfixstr); [constructor; lia|]. destruct (Z.ltb_spec n 256).
  { replace [fstr8; n] with (fstr8 :: net_bytes 1 n) by (unfold net_bytes; cbn; by rewrite Z.mod_small by lia). constructor. lia. }
  destruct (Z.ltb_spec n 65536); constructor; lia.
Qed.

Inductive array_format (n : Z) : bytes -> Prop :=
  | array_fix : 0 <= n < nfixarray -> array_format n [ffixarray + n]
  | array_16 : 0 <= n < 65536 -> array_format n (farray16 :: net_bytes 2 n)
  | array_32 : 0 <= n < 2 ^ 32 -> array_format n (farray32 :: net_bytes 4 n).

Lemma write_array_header_format n : 0 <= n < 2 ^ 32 -> array_format n (write_array_header n).
Proof.
  intros Hn. unfold write_array_header. destruct (Z.ltb_spec n nfixarray); [constructor; lia|]. destruct (Z.ltb_spec n 65536); constructor; lia.
Qed.

Lemma in_range_fix low n x : 0 <= x < n -> n < 2 ^ 32 -> in_range (low + x) low n = true.
Proof.
  intros Hx Hn. unfold in_range, Word.subw. replace (low + x - low) with x by lia. rewrite Word.wrap_small by (split; lia). lia.
Qed.

Lemma read_str_write s rest : int_length s -> read_str (write_string s ++ rest) = Ok (s, rest).
Proof.
  intros Hs. destruct (write_string_format s Hs) as (h & -> & H). rewrite <- app_assoc. unfold int_length in Hs.
  assert (read_str (h ++ s ++ rest) = (if 2 ^ 31 <=? Z.of_nat (length s) then Fault OutOfBounds else
    let? x := bytes_at 0 (Z.to_nat (Z.of_nat (length s))) (s ++ rest) in let? t := advance (Z.of_nat (length s)) (s ++ rest) in Ok (x, t))) as ->.
  { unfold read_str. destruct H as [H|H|H|H]; cbn [app]; rewrite aget_first, rbind_Ok.
    - unfold nfixstr in H. rewrite (in_range_fix ffixstr) by (unfold nfixstr; lia). rewrite advance_one, !rbind_Ok.
      by replace (ffixstr + Z.of_nat (length s) - ffixstr) with (Z.of_nat (length s)) by lia.
    - change (in_range fstr8 ffixstr nfixstr) with false. change ((fstr8 =? fbin8) || (fstr8 =? fstr8)) with true. cbn iota.
      change (net_bytes 1 ?n) with [n mod 256]. cbn [app]. rewrite aget_second, rbind_Ok, advance_two, !rbind_Ok. by rewrite Z.mod_small by lia.
    - change (in_range fstr16 ffixstr nfixstr) with false. change ((fstr16 =? fbin8) || (fstr16 =? fstr8)) with false.
      change ((fstr16 =? fbin16) || (fstr16 =? fstr16)) with true. cbn iota.
      reads 2%nat (net_bytes 2 (Z.of_nat (length s))). rewrite net_value_small by (cbn; lia). done.
    - change (in_range fstr32 ffixstr nfixstr) with false. change ((fstr32 =? fbin8) || (fstr32 =? fstr8)) with false.
      change ((fstr32 =? fbin16) || (fstr32 =? fstr16)) with false. change ((fstr32 =? fbin32) || (fstr32 =? fstr32)) with true. cbn [check_res]. rewrite rbind_Ok.
      reads 4%nat (net_bytes 4 (Z.of_nat (length s))). rewrite net_value_small by (cbn; lia). done. }
  rewrite (proj2 (Z.leb_gt _ _)) by lia. by rewrite Nat2Z.id, bytes_at_front, rbind_Ok, advance_app, rbind_Ok.
Qed.

Lemma read_array_header_write n rest : 0 <= n < 2 ^ 32 -> read_array_header (write_array_header n ++ rest) = Ok (n, rest).
Proof.
  intros Hn. unfold read_array_header. destruct (write_array_header_format n Hn) as [H|H|H]; cbn [app]; rewrite aget_first, rbind_Ok.
  - unfold nfixarray in H. unfold is_fixarray. rewrite in_range_fix by (unfold nfixarray; lia). rewrite advance_one, rbind_Ok. do 2 f_equal. lia.
  - change (is_fixarray farray16) with false. rewrite Z.eqb_refl. cbn iota.
    reads 2%nat (net_bytes 2 n). by rewrite net_value_small by (cbn; lia).
  - change (is_fixarray farray32) with false. change (farray32 =? farray16) with false. rewrite Z.eqb_refl. cbn [check_res]. rewrite rbind_Ok.
    reads 4%nat (net_bytes 4 n). by rewrite net_value_small by (cbn; lia).
Qed.

Lemma skip_array_size_write n rest : 0 <= n < 2 ^ 32 -> skip_array_size (write_array_header n ++ rest) = Ok rest.
Proof.
  intros Hn. unfold skip_array_size. destruct (write_array_header_format n Hn) as [H|H|H]; cbn [app]; rewrite aget_first, rbind_Ok.
  - unfold nfixarray in H. unfold is_fixarray. rewrite in_range_fix by (unfold nfixarray; lia). apply advance_one.
  - change (is_fixarray farray16) with false. rewrite Z.eqb_refl. cbn iota. by apply (advance_header _ 2).
  - change (is_fixarray farray32) with false. change (farray32 =? farray16) with false. rewrite Z.eqb_refl. cbn [check_res]. rewrite rbind_Ok.
    by apply (advance_header _ 4).
Qed.

Lemma read_double_write d rest : 0 <= d < 2 ^ 64 -> read_double (write_double d ++ rest) = Ok (d, rest).
Proof.
  intros Hd. unfold read_double, write_double. cbn [app]. rewrite aget_first, rbind_Ok, Z.eqb_refl. cbn [check_res]. rewrite rbind_Ok.
  reads 8%nat (net_bytes 8 d). by rewrite net_value_small by (cbn; lia).
Qed.

Lemma read_bool_write b rest : read_bool (write_bool b ++ rest) = Ok (b, rest).
Proof. unfold read_bool, write_bool. cbn [app]. rewrite aget_first, rbind_Ok, advance_one. by destruct b. Qed.

Lemma try_read_null_write rest : try_read_null (fnull :: rest) = Ok (true, rest).
Proof. unfold try_read_null. by rewrite aget_first, rbind_Ok, Z.eqb_refl, advance_one. Qed.

(** ** JSON values through windows *)

Lemma read_json_loop_done n p s : sp_state p < 0 -> read_json_loop n p s = Ok (p, s).
Proof. intros H%Z.ltb_lt. destruct n; cbn; unfold done; by rewrite H. Qed.

(** The windows do not matter to a parser that ends within the memory. *)
Lemma read_json_loop_feed n : forall s p p' rest, (length s <= n)%nat -> resumable p -> Forall is_byte s ->
  feed p s ≈ Ok (p', rest) -> done p' = true -> read_json_loop n p s ≈ Ok (p', rest).
Proof.
  induction n as [|n IH]; intros s p p' rest Hn Hp Hs Hf Hd; (destruct (Z.lt_ge_cases (sp_state p) 0) as [H0|H0];
    [rewrite read_json_loop_done by done; by rewrite feed_done in Hf|]); apply Z.ltb_lt in Hd.
  - destruct s; [|cbn in Hn; lia]. destruct Hf as [Hf _]. apply pe_state in Hf. cbn in Hf. lia.
  - cbn [read_json_loop]. unfold done at 1. rewrite (proj2 (Z.ltb_ge _ _)) by done. destruct s as [|b s]; [destruct Hf as [Hf _]; apply pe_state in Hf; cbn in Hf; lia|].
    set (c := take 4096 (b :: s)). set (d := drop 4096 (b :: s)). assert (b :: s = c ++ d) as Hcd by (unfold c, d; by rewrite take_drop).
    assert (c <> []) as Hc by done. rewrite Hcd in Hn, Hs, Hf. apply Forall_app in Hs as [Hbc Hbd]. clearbody c d. clear Hcd.
    pose proof (feed_app p c d Hp Hbc Hbd) as Ha. rewrite (feed_consume p c) in Ha by done.
    destruct (consume p c) as [[p1 r]|f] eqn:E; [|rewrite Hf in Ha; done]. rewrite !rbind_Ok in Ha |- *. cbn [fst snd] in *.
    destruct (consume_return _ _ _ _ Hp H0 Hc Hbc E) as (Hp1 & Hbr & Hlt). rewrite <- (feed_app p1 r d Hp1 Hbr Hbd), Hf in Ha.
    destruct Hlt as [Hneg|Hlt].
    + rewrite read_json_loop_done by done. rewrite feed_done in Ha by done. by symmetry.
    + apply IH; [rewrite length_app in *; lia|done|by apply Forall_app|by symmetry|by apply Z.ltb_lt].
Qed.

Lemma read_json_unparse v j0 rest : writable v -> Forall is_byte (unparse v ++ rest) -> read_json j0 (unparse v ++ rest) = Ok (read_back v, rest).
Proof.
  intros Hv Hby. destruct (consume_unparse v new_streaming_parser rest Hv) as (p' & Hr & Hs & Hj).
  change (reset new_streaming_parser) with new_streaming_parser in Hr. assert (resumable new_streaming_parser) as Hp by by apply resume_normal.
  assert (unparse v ++ rest <> []) as Hne by (pose proof (unparse_nonempty v); by destruct (unparse v)).
  assert (sp_state p' = st_final) as Hfin by (by apply Z.eqb_eq in Hs).
  assert (feed new_streaming_parser (unparse v ++ rest) ≈ Ok (p', rest)) as Hf.
  { rewrite (feed_consume _ _ Hp) by done. rewrite Hr, rbind_Ok. cbn [fst snd]. rewrite feed_done; [reflexivity|]. by rewrite Hfin. }
  pose proof (read_json_loop_feed (length (unparse v ++ rest)) _ _ _ _ (le_n _) Hp Hby Hf) as Hl. unfold read_json.
  destruct (read_json_loop _ _ _) as [[q l]|]; [|destruct Hl; unfold done; by rewrite Hfin]. destruct Hl as [Hq Hl]; [unfold done; by rewrite Hfin|].
  cbn [fst snd] in *. subst l. rewrite rbind_Ok. cbn [fst snd]. unfold success. rewrite (pe_state _ _ Hq), (pe_json _ _ Hq), Hfin, Hj. done.
Qed.

(** ** Skipping *)

Lemma skip_fixstr : Forall (fun n => (is_fixint (ffixstr + n) || is_null_or_bool (ffixstr + n)) = false) (seqZ 0 nfixstr).
Proof. repeat (constructor; [reflexivity|]). constructor. Qed.

Ltac decides :=
  repeat match goal with |- context [if ?c then _ else _] =>
    let b := eval vm_compute in c in change c with b; cbn iota end.
Ltac skips := unfold skip_primitive; rewrite aget_first, rbind_Ok; decides.

Lemma skip_fixint b rest : is_fixint b = true -> skip_primitive (b :: rest) = Ok rest.
Proof. intros Hb. unfold skip_primitive. rewrite aget_first, rbind_Ok, Hb. apply advance_one. Qed.

Lemma skip_signed x bs rest : signed_format false x bs -> skip_primitive (bs ++ rest) = Ok rest.
Proof.
  intros H. destruct H as [H|H|H|H|? H]; [|..|done]; [apply skip_fixint, fixint_small, H|..]; rewrite <- app_comm_cons; skips.
  - apply advance_two.
  - by apply (advance_header _ 2).
  - by apply (advance_header _ 4).
Qed.

Lemma skip_unsigned x bs rest : unsigned_format false x bs -> skip_primitive (bs ++ rest) = Ok rest.
Proof.
  intros H. destruct H as [H|H|H|H|? H]; [|..|done].
  { destruct (fixint_small x ltac:(lia)) as [Hf _]. rewrite Word.wrap_small in Hf by (split; lia). by apply skip_fixint. }
  all: rewrite <- app_comm_cons; skips.
  - apply advance_two.
  - by apply (advance_header _ 2).
  - by apply (advance_header _ 4).
Qed.

Lemma advance_both (h s rest : bytes) k : k = Z.of_nat (length h) + Z.of_nat (length s) -> advance k (h ++ s ++ rest) = Ok rest.
Proof. intros ->. rewrite app_assoc, <- Nat2Z.inj_add, <- length_app. apply advance_app. Qed.

Lemma skip_string s rest : int_length s -> skip_primitive (write_string s ++ rest) = Ok rest.
Proof.
  intros Hs. destruct (write_string_format s Hs) as (h & -> & H). rewrite <- app_assoc. unfold int_length in Hs.
  destruct H as [H|H|H|H]; unfold skip_primitive; cbn [app]; rewrite aget_first, rbind_Ok.
  - pose proof (fixed _ _ skip_fixstr H) as ->. unfold nfixstr in H. unfold is_fixstr. rewrite in_range_fix by (unfold nfixstr; lia).
    apply (advance_both [_]). cbn [length]. lia.
  - change (net_bytes 1 ?n) with [n mod 256]. cbn [app]. decides. rewrite aget_second, rbind_Ok. apply (advance_both [_; _]). cbn [length]. rewrite Z.mod_small; lia.
  - decides. unfold read_unsigned. rewrite (bytes_at_header _ 2), !rbind_Ok by done. rewrite net_value_small by (cbn; lia).
    apply (advance_both (_ :: net_bytes 2 _)). cbn [length]. rewrite length_net_bytes. lia.
  - decides. unfold read_unsigned. rewrite (bytes_at_header _ 4), !rbind_Ok by done. rewrite net_value_small by (cbn; lia).
    apply (advance_both (_ :: net_bytes 4 _)). cbn [length]. rewrite length_net_bytes. unfold Word.addw. rewrite Word.wrap_small by (split; lia). lia.
Qed.

(** ** Sequences of typed items *)

Inductive datum :=
  | DNull
  | DBool (b : bool)
  | DInt (t : int_type) (x : Z)
  | DDouble (d : Z)
  | DStr (s : bytes)
  | DArray (n : Z)
  | DJson (j : Json).

(** [unparser::operator<<] of the item's type. *)
Definition write_datum (d : datum) : bytes :=
  match d with
  | DNull => [fnull]
  | DBool b => write_bool b
  | DInt t x => write_int t x
  | DDouble x => write_double x
  | DStr s => write_string s
  | DArray n => write_array_header n
  | DJson j => unparse j
  end.

(** [parser::operator>>] for the item's type. *)
Definition read_datum (d : datum) (s : bytes) : res (datum * bytes) :=
  match d with
  | DNull => let? r := try_read_null s in let? _ := check_res (fst r) in Ok (DNull, snd r)
  | DBool _ => let? r := read_bool s in Ok (DBool (fst r), snd r)
  | DInt t _ => let? r := read_int t 0 s in Ok (DInt t (fst r), snd r)
  | DDouble _ => let? r := read_double s in Ok (DDouble (fst r), snd r)
  | DStr _ => let? r := read_str s in Ok (DStr (fst r), snd r)
  | DArray _ => let? r := read_array_header s in Ok (DArray (fst r), snd r)
  | DJson _ => let? r := read_json JNull s in Ok (DJson (fst r), snd r)
  end.

Fixpoint read_data (ds : list datum) (s : bytes) : res (list datum * bytes) :=
  match ds with
  | [] => Ok ([], s)
  | d :: ds =>
    let? r := read_datum d s in
    let? l := read_data ds (snd r) in
    Ok (fst r :: fst l, snd l)
  end.

Definition writable_datum (d : datum) : Prop :=
  match d with
  | DNull | DBool _ => True
  | DInt t x => of_type t x
  | DDouble d => 0 <= d < 2 ^ 64
  | DStr s => int_length s
  | DArray n => 0 <= n < 2 ^ 32
  | DJson j => writable j
  end.

Definition read_back_datum (d : datum) : datum := match d with DJson j => DJson (read_back j) | _ => d end.

(** What [skip_primitives] passes over. *)
Definition skippable (d : datum) : bool :=
  match d with
  | DNull | DBool _ | DStr _ => true
  | DInt t _ => it_bits t =? 32
  | _ => false
  end.

Lemma read_datum_write d rest : writable_datum d -> Forall is_byte (write_datum d ++ rest) ->
  read_datum d (write_datum d ++ rest) = Ok (read_back_datum d, rest).
Proof.
  destruct d as [|b|t x|d|s|n|j]; cbn [writable_datum write_datum read_datum read_back_datum]; intros Hd Hby.
  - cbn [app]. by rewrite try_read_null_write.
  - by rewrite read_bool_write.
  - by rewrite read_int_write.
  - by rewrite read_double_write.
  - by rewrite read_str_write.
  - by rewrite read_array_header_write.
  - by rewrite read_json_unparse.
Qed.

Lemma skip_datum d rest : writable_datum d -> skippable d = true -> skip_primitive (write_datum d ++ rest) = Ok rest.
Proof.
  destruct d as [|b|t x|d|s|n|j]; cbn [writable_datum write_datum skippable]; intros Hd Hs; try done.
  - cbn [app]. skips. apply advance_one.
  - unfold write_bool. destruct b; cbn [app]; skips; apply advance_one.
  - destruct Hd as [Ht Hx]. unfold write_int. rewrite Hs. apply Z.eqb_eq in Hs. rewrite Hs in Hx.
    destruct (it_signed t); [apply (skip_signed x), write_signed4_format|apply (skip_unsigned x), write_unsigned4_format]; lia.
  - by apply skip_string.
Qed.

(** A sequence of typed items that the unparser has written is read by the
    parser's operators of the same types as it was (64-bit values converted to
    their types, JSON values through windows of 4096 bytes), up to the byte behind
    it; and [skip_primitives] passes over the nulls, booleans, 32-bit integers and
    strings among them. *)
Lemma parser_reads_data (ds : list datum) (rest : bytes) :
  Forall writable_datum ds -> Forall is_byte (flat_map write_datum ds ++ rest) ->
  read_data ds (flat_map write_datum ds ++ rest) = Ok (map read_back_datum ds, rest) /\
  (forallb skippable ds = true -> skip_primitives (length ds) (flat_map write_datum ds ++ rest) = Ok rest).
Proof.
  intros Hds. induction Hds as [|d ds Hd _ IH]; [done|]. cbn [flat_map read_data map length forallb skip_primitives]. rewrite <- app_assoc. intros Hby.
  rewrite read_datum_write by done. rewrite rbind_Ok. cbn [fst snd]. apply Forall_app in Hby as [_ Hby]. destruct (IH Hby) as [-> Hskip].
  split; [done|]. intros [Hs Hss]%andb_prop. rewrite skip_datum by done. rewrite rbind_Ok. by apply Hskip.
Qed.

(** A log record's fields: a time stamp, a key, a JSON value, with a byte behind. *)
Definition some_data : list datum :=
  [DArray 4; DInt type_unsigned_long (2 ^ 40); DInt type_int (-1000); DStr [107; 101; 121]; DJson (JArray [JInt 1; JString [120]])].
