(* ===== verification/ValueBag.v ===== *)
(** * Rows as bags of columns (value_bag.hh)

    [value_bag<O>]: a row of columns in one allocation, the number of columns and
    their positions as integers of type [O] in front of their bytes.  The row's
    memory is a list of bytes; accesses outside it are faults. *)

From S2P Require Export MsgpackParser.

#[local] Open Scope Z_scope.
#[local] Open Scope lhm_scope.

(** ** Memory *)

(** Reading and writing bytes at an offset. *)
Definition mem_read (off n : Z) (m : bytes) : res bytes :=
  if (0 <=? off) && (0 <=? n) && (off + n <=? Z.of_nat (length m)) then Ok (take (Z.to_nat n) (drop (Z.to_nat off) m))
  else Fault OutOfBounds.
Definition mem_write (off : Z) (bs m : bytes) : res bytes :=
  if (0 <=? off) && (off + Z.of_nat (length bs) <=? Z.of_nat (length m))
  then Ok (take (Z.to_nat off) m ++ bs ++ drop (Z.to_nat off + length bs) m)
  else Fault OutOfBounds.

Section value_bag.
(** [sizeof(O)]; 2 for [row_type]. *)
Context (w : nat).

Definition obits : Z := 8 * Z.of_nat w.
(** [sizeof(bagdata)] and [sizeof(kvtimestamp_t)]. *)
Definition sizeof_bagdata : Z := 2 * Z.of_nat w.
Definition sizeof_timestamp : Z := 8.

(** [bs] is [d_.s_], from [ncol_] on. *)
Record value_bag := Bag { vb_ts : Z; vb_s : bytes }.

Definition read_o (i : Z) (s : bytes) : res Z :=
  let? bs := mem_read (i * Z.of_nat w) (Z.of_nat w) s in Ok (le_value bs).
Definition write_o (i x : Z) (s : bytes) : res bytes := mem_write (i * Z.of_nat w) (le_bytes w (Word.wrap obits x)) s.

(** [d_.ncol_] and [d_.pos_[i]]. *)
Definition bag_ncol (s : bytes) : res Z := read_o 0 s.
Definition bag_pos (i : Z) (s : bytes) : res Z := read_o (i + 1) s.

Definition empty_bag : value_bag := Bag 0 (le_bytes w 0 ++ le_bytes w sizeof_bagdata).

Definition bag_size (s : bytes) : res Z :=
  let? n := bag_ncol s in let? p := bag_pos n s in Ok (sizeof_timestamp + p).
Definition column_length (i : Z) (s : bytes) : res Z :=
  let? p' := bag_pos (i + 1) s in let? p := bag_pos i s in Ok (Word.wrap obits (p' - p)).

(** [col(i)] of an [int]; no such column has an empty string. *)
Definition bag_col (i : Z) (b : value_bag) : res bytes :=
  let? n := bag_ncol (vb_s b) in
  if Word.wrap 32 i <? n then
    let? p := bag_pos i (vb_s b) in
    let? l := column_length i (vb_s b) in
    mem_read p l (vb_s b)
  else Ok [].

Definition row_string (b : value_bag) : res bytes :=
  let? n := bag_ncol (vb_s b) in let? p := bag_pos n (vb_s b) in mem_read 0 p (vb_s b).

(** ** Updates *)

(** The first loop: the size and the number of columns of the new row. *)
Fixpoint update_size (old : bytes) (oldn : Z) (it : list Json) (sz ncol : Z) : res (Z * Z) :=
  match it with
  | [] => Ok (sz, ncol)
  | c :: v :: it =>
    let? u := as_u c in
    let idx := Word.wrap 32 u in
    let? s := as_s v in
    let sz := Word.addw 64 sz (Z.of_nat (length s)) in
    if idx <? oldn then
      let? l := column_length idx old in
      update_size old oldn it (Word.subw 64 sz l) ncol
    else update_size old oldn it sz (Word.addw 32 idx 1)
  | _ => Fault OutOfBounds
  end.

(** [for (unsigned i = col; i < end_col; ++i) row->d_.pos_[i] = d_.pos_[i] + delta] *)
Fixpoint copy_positions (k : nat) (i delta : Z) (old row : bytes) : res bytes :=
  match k with
  | O => Ok row
  | S k =>
    let? p := bag_pos i old in
    let? row := write_o (i + 1) (p + delta) row in
    copy_positions k (i + 1) delta old row
  end.

(** [while (col != this_col)]: columns between without bytes. *)
Fixpoint mark_empty (k : nat) (col sz : Z) (row : bytes) : res bytes :=
  match k with
  | O => Ok row
  | S k => let? row := write_o (col + 1) sz row in mark_empty k (col + 1) sz row
  end.

(** Columns [col] to [end_col] of the old row, from byte [sz] of the new one. *)
Definition copy_columns (old : bytes) (col end_col sz : Z) (row : bytes) : res (bytes * Z) :=
  let? p := bag_pos col old in
  let delta := sz - p in
  let? row :=
    (if delta =? 0 then
       let? ps := mem_read ((col + 1) * Z.of_nat w) ((end_col - col) * Z.of_nat w) old in
       mem_write ((col + 1) * Z.of_nat w) ps row
     else copy_positions (Z.to_nat (end_col - col)) col delta old row) in
  let? p' := bag_pos end_col old in
  let amt := p' - p in
  let? data := mem_read p amt old in
  let? row := mem_write sz data row in
  Ok (row, sz + amt).

(** From column [col] up to [this_col]: what the old row has, then none. *)
Definition fill_columns (old : bytes) (oldn col this_col sz : Z) (row : bytes) : res (bytes * Z) :=
  let? r :=
    (if negb (col =? this_col) && (col <? oldn) then
       let end_col := Z.min this_col oldn in
       let? r := copy_columns old col end_col sz row in
       Ok (r, end_col)
     else Ok ((row, sz), col)) in
  let '((row, sz), col) := r in
  let? row := mark_empty (Z.to_nat (Word.subw 32 this_col col)) col sz row in
  Ok (row, sz).

(** The loop over the changes; the last round follows the last change. *)
Fixpoint update_loop (old : bytes) (oldn ncol : Z) (it : list Json) (col sz : Z) (row : bytes) {struct it} : res (bytes * Z) :=
  let? this_col := match it with [] => Ok ncol | c :: _ => let? u := as_u c in Ok (Word.wrap 32 u) end in
  let? r := fill_columns old oldn col this_col sz row in
  let (row, sz) := (r : bytes * Z) in
  let col := this_col in
  if col =? ncol then Ok (row, sz)
  else
    match it with
    | _ :: v :: it =>
      let? row := write_o (col + 1) sz row in
      let? val := as_s v in
      let? row := mem_write sz val row in
      update_loop old oldn ncol it (Word.addw 32 col 1) (sz + Z.of_nat (length val)) row
    | _ => Fault OutOfBounds
    end.

(** The change that only overwrites a small column, if there is no other. *)
Definition short_path (changes : list Json) (ncol oldn sz size : Z) : res (option (Json * bytes)) :=
  match changes with
  | [c; v] =>
    if (ncol =? oldn) && (sz =? size) then
      let? s := as_s v in Ok (if Z.of_nat (length s) <=? 16 then Some (c, s) else None)
    else Ok None
  | _ => Ok None
  end.

(** [update(first, last, ts, ti)]; [fresh n] is what the allocator returns for
    [n] bytes. *)
Definition update (fresh : nat -> bytes) (b : value_bag) (changes : list Json) (ts : Z) : res value_bag :=
  let old := vb_s b in
  let? size := bag_size old in
  let? oldn := bag_ncol old in
  let? r := update_size old oldn changes size oldn in
  let (sz, ncol) := (r : Z * Z) in
  let sz := if oldn <? ncol then Word.addw 64 sz ((ncol - oldn) * Z.of_nat w) else sz in
  let row := fresh (Z.to_nat (sz - sizeof_timestamp)) in
  let? short := short_path changes ncol oldn sz size in
  match short with
  | Some (c, s) =>
    let? data := mem_read 0 (sz - sizeof_timestamp) old in
    let? row := mem_write 0 data row in
    let? u := as_u c in
    let? p := bag_pos u old in
    let? row := mem_write p s row in
    Ok (Bag ts row)
  | None =>
    let? row := write_o 0 ncol row in
    let? r := update_loop old oldn ncol changes 0 (sizeof_bagdata + ncol * Z.of_nat w) row in
    let? row := write_o (ncol + 1) (snd r) (fst r) in
    Ok (Bag ts row)
  end.

Definition update_col (fresh : nat -> bytes) (b : value_bag) (col : Z) (value : bytes) (ts : Z) : res value_bag :=
  update fresh b [JInt col; JString value] ts.

Definition create (fresh : nat -> bytes) (changes : list Json) (ts : Z) : res value_bag := update fresh empty_bag changes ts.

Definition create1 (fresh : nat -> bytes) (str : bytes) (ts : Z) : res value_bag :=
  let len := Z.of_nat (length str) in
  let row := fresh (Z.to_nat (sizeof_bagdata + Z.of_nat w + len)) in
  let? row := write_o 0 1 row in
  let? row := write_o 1 (sizeof_bagdata + Z.of_nat w) row in
  let? row := write_o 2 (sizeof_bagdata + Z.of_nat w + len) row in
  let? p := bag_pos 0 row in
  let? row := mem_write p str row in
  Ok (Bag ts row).

(** ** Checkpoints *)

Definition checkpoint_write (b : value_bag) : res bytes := let? s := row_string b in Ok (format.write_string s).
Definition checkpoint_read (fresh : nat -> bytes) (par : bytes) (ts : Z) : res (value_bag * bytes) :=
  let? r := read_str par in
  let (value, par) := (r : bytes * bytes) in
  let row := fresh (length value) in
  let? row := mem_write 0 value row in
  Ok (Bag ts row, par).
End value_bag.
