(* ===== verification/ValueBagFacts.v ===== *)
(** * Rows as bags of columns: the layout, and updates on the columns

    The memory of a row is the encoding of its list of columns; updating it gives
    the encoding of the updated list, byte for byte, inside the allocation. *)

From S2P Require Export ValueBag.

#[local] Open Scope Z_scope.
#[local] Open Scope lhm_scope.

Abbreviation len l := (Z.of_nat (length l)).

(** ** Reading and writing between two parts *)

Lemma mem_read_app (A X B : bytes) off n : off = len A -> n = len X -> mem_read off n (A ++ X ++ B) = Ok X.
Proof.
  intros -> ->. unfold mem_read. rewrite !length_app, (proj2 (Z.leb_le 0 _)), (proj2 (Z.leb_le 0 _)), (proj2 (Z.leb_le _ (Z.of_nat _))) by lia.
  cbn [andb]. by rewrite !Nat2Z.id, drop_app_length, take_app_length.
Qed.

Lemma mem_write_app (A X B bs : bytes) off : off = len A -> length bs = length X -> mem_write off bs (A ++ X ++ B) = Ok (A ++ bs ++ B).
Proof.
  intros -> Hl. unfold mem_write. rewrite !length_app, (proj2 (Z.leb_le 0 _)), (proj2 (Z.leb_le _ (Z.of_nat _))) by lia.
  cbn [andb]. rewrite Nat2Z.id, take_app_length, Hl. do 3 f_equal. by rewrite app_assoc, <- length_app, drop_app_length.
Qed.

Section facts.
Context (w : nat) (Hw : (0 < w <= 4)%nat).
#[local] Abbreviation W := (Z.of_nat w).

(** ** The layout *)

Definition words (l : list Z) : bytes := flat_map (le_bytes w) l.

(** The positions of columns from [p] on. *)
Fixpoint starts (p : Z) (cols : list bytes) : list Z :=
  match cols with
  | [] => []
  | c :: cols => p :: starts (p + len c) cols
  end.

Definition base (n : nat) : Z := sizeof_bagdata w + Z.of_nat n * W.

Definition encode (cols : list bytes) : bytes :=
  le_bytes w (len cols) ++ words (starts (base (length cols)) cols ++ [base (length cols) + len (concat cols)]) ++ concat cols.

(** The positions fit [O], the number of columns an [int]. *)
Definition fits (cols : list bytes) : Prop := base (length cols) + len (concat cols) < 2 ^ obits w /\ len cols < 2 ^ 31.

Definition represents (b : value_bag) (cols : list bytes) : Prop := vb_s b = encode cols /\ fits cols.

Lemma length_words l : len (words l) = len l * W.
Proof. induction l as [|x l IH]; [done|]. cbn [words flat_map]. rewrite length_app, length_le_bytes. fold (words l). cbn [length]. lia. Qed.

Lemma words_app l k : words (l ++ k) = words l ++ words k.
Proof. apply flat_map_app. Qed.

Lemma length_starts p cols : length (starts p cols) = length cols.
Proof. revert p. induction cols as [|c cols IH]; intros p; cbn; [done|]. by rewrite IH. Qed.

Lemma starts_app p l r : starts p (l ++ r) = starts p l ++ starts (p + len (concat l)) r.
Proof.
  revert p. induction l as [|c l IH]; intros p; cbn [starts app concat]; [by rewrite Z.add_0_r|]. rewrite IH, length_app. do 3 f_equal. lia.
Qed.

Lemma starts_replicate p k : starts p (replicate k []) = replicate k p.
Proof. revert p. induction k as [|k IH]; intros p; cbn [replicate starts]; [done|]. f_equal. rewrite IH. f_equal. cbn. lia. Qed.

Lemma concat_replicate_nil k : concat (replicate k []) = [] :> bytes.
Proof. by induction k. Qed.

Lemma length_encode_row cols : len (encode cols) = base (length cols) + len (concat cols).
Proof.
  unfold encode, base, sizeof_bagdata. rewrite !length_app, length_le_bytes. 
  pose proof (length_words (starts (base (length cols)) cols ++ [base (length cols) + len (concat cols)])) as H.
  unfold base, sizeof_bagdata in H. rewrite length_app, length_starts in H. cbn [length] in H. lia.
Qed.

(** ** Reading a row *)

Lemma read_word (A B : bytes) i x : i * W = len A -> 0 <= x < 2 ^ obits w -> read_o w i (A ++ le_bytes w x ++ B) = Ok x.
Proof.
  intros Hi Hx. unfold read_o. rewrite mem_read_app by (done || by rewrite length_le_bytes). rewrite rbind_Ok, le_value_bytes.
  unfold obits in Hx. by rewrite Z.mod_small.
Qed.

Lemma write_word (A X B : bytes) i x : i * W = len A -> length X = w -> 0 <= x < 2 ^ obits w ->
  write_o w i x (A ++ X ++ B) = Ok (A ++ le_bytes w x ++ B).
Proof.
  intros Hi HX Hx. unfold write_o. rewrite Word.wrap_small by done. apply mem_write_app; [done|]. by rewrite length_le_bytes.
Qed.

Lemma read_words (A B : bytes) i x l : i * W = len A -> 0 <= x < 2 ^ obits w -> read_o w i (A ++ words (x :: l) ++ B) = Ok x.
Proof. intros Hi Hx. cbn [words flat_map]. rewrite <- app_assoc. by apply read_word. Qed.

Lemma base_pos n : 0 <= Z.of_nat n <= base n.
Proof. unfold base, sizeof_bagdata. nia. Qed.

Lemma read_ncol cols : fits cols -> bag_ncol w (encode cols) = Ok (len cols).
Proof.
  intros [H _]. pose proof (base_pos (length cols)). apply (read_word [] _ 0 (len cols)); [done|]. lia.
Qed.

Lemma encode_split l r : encode (l ++ r) = (le_bytes w (len (l ++ r)) ++ words (starts (base (length (l ++ r))) l)) ++
  words (starts (base (length (l ++ r)) + len (concat l)) r ++ [base (length (l ++ r)) + len (concat (l ++ r))]) ++ concat l ++ concat r.
Proof. unfold encode. rewrite starts_app, !words_app, concat_app. by rewrite <- !app_assoc. Qed.

Lemma read_pos l r : fits (l ++ r) -> bag_pos w (len l) (encode (l ++ r)) = Ok (base (length (l ++ r)) + len (concat l)).
Proof.
  intros [H _]. unfold bag_pos. rewrite encode_split. rewrite concat_app, !length_app in H. pose proof (base_pos (length (l ++ r))) as Hb. rewrite length_app in Hb.
  assert ((len l + 1) * W = len (le_bytes w (len (l ++ r)) ++ words (starts (base (length (l ++ r))) l))) as Hl.
  { rewrite length_app, length_le_bytes. pose proof (length_words (starts (base (length (l ++ r))) l)) as Hs. rewrite length_starts in Hs. lia. }
  destruct r as [|c r]; cbn [starts app]; rewrite ?concat_app; cbn [concat] in *; rewrite ?(app_nil_r (concat l)); apply read_words; try done.
  all: rewrite length_app; cbn [length] in *; lia.
Qed.

Lemma column_length_ok l c r : fits (l ++ c :: r) -> column_length w (len l) (encode (l ++ c :: r)) = Ok (len c).
Proof.
  intros Hf. unfold column_length. pose proof (read_pos (l ++ [c]) r) as Hp. rewrite <- app_assoc in Hp. cbn [app] in Hp.
  rewrite length_app in Hp. cbn [length] in Hp. replace (Z.of_nat (length l + 1)) with (len l + 1) in Hp by lia.
  rewrite Hp, rbind_Ok, read_pos, !rbind_Ok by done. rewrite concat_app. cbn [concat]. rewrite app_nil_r, !length_app.
  destruct Hf as [Hf _]. rewrite concat_app in Hf. cbn [concat] in Hf. rewrite !length_app in Hf. pose proof (base_pos (length (l ++ c :: r))) as Hb. rewrite length_app in Hb. cbn [length] in *.
  rewrite Word.wrap_small by (split; lia). f_equal. lia.
Qed.

(** The columns, and no others. *)
Lemma read_column b cols i : represents b cols -> 0 <= i < 2 ^ 31 -> bag_col w i b = Ok (nth (Z.to_nat i) cols []).
Proof.
  intros [Hs Hf] Hi. unfold bag_col. rewrite Hs, read_ncol, rbind_Ok, Word.wrap_small by (done || split; lia).
  destruct (Z.ltb_spec i (len cols)) as [Hlt|Hge].
  - destruct (lookup_lt_is_Some_2 cols (Z.to_nat i)) as [c Hc]; [lia|]. pose proof (take_drop_middle _ _ _ Hc) as Heq.
    set (l := take (Z.to_nat i) cols) in *. set (r := drop (S (Z.to_nat i)) cols) in *.
    assert (i = len l) as Hil by (unfold l; rewrite length_take_le; lia). rewrite (nth_lookup_Some _ _ _ _ Hc). clearbody l r. subst i cols. clear Hc Hlt Hi.
    rewrite read_pos, rbind_Ok, column_length_ok, rbind_Ok by done.
    rewrite encode_split. cbn [concat]. rewrite (app_assoc (le_bytes _ _ ++ _)), (app_assoc (_ ++ _) (concat l)).
    apply mem_read_app; [|lia]. pose proof (length_encode_row (l ++ c :: r)) as He.
    assert (len (concat (l ++ c :: r)) = len (concat l) + len c + len (concat r)) as Hc by (rewrite concat_app; cbn [concat]; rewrite !length_app; lia).
    rewrite encode_split in He. cbn [concat] in He. rewrite !length_app in *. cbn [length] in *. lia.
  - rewrite nth_overflow by lia. done.
Qed.

Lemma read_size cols : fits cols -> bag_size w (encode cols) = Ok (sizeof_timestamp + len (encode cols)).
Proof.
  intros Hf. unfold bag_size. rewrite read_ncol, rbind_Ok by done. pose proof (read_pos cols []) as Hp. rewrite app_nil_r in Hp.
  rewrite Hp, rbind_Ok by done. by rewrite length_encode_row.
Qed.

Lemma read_row_string b cols : represents b cols -> row_string w b = Ok (vb_s b).
Proof.
  intros [Hs Hf]. unfold row_string. rewrite Hs, read_ncol, rbind_Ok by done. pose proof (read_pos cols []) as Hp. rewrite app_nil_r in Hp.
  rewrite Hp, rbind_Ok by done. rewrite <- length_encode_row. pose proof (mem_read_app [] (encode cols) [] 0 (len (encode cols))) as H. cbn [app] in H.
  rewrite app_nil_r in H. by apply H.
Qed.

(** ** A row being built

    [ps] are the positions written, [X] the room for the others, [D] the bytes
    written, [Y] the room for more. *)

Definition building (n : Z) (ps : list Z) (X D Y : bytes) : bytes := le_bytes w n ++ words ps ++ X ++ D ++ Y.

Lemma building_eq n ps X X' D D' Y Y' : X = X' -> D = D' -> Y = Y' -> building n ps X D Y = building n ps X' D' Y'.
Proof. by intros -> -> ->. Qed.

Lemma write_position n ps X0 X D Y i x : i = len ps -> length X0 = w -> 0 <= x < 2 ^ obits w ->
  write_o w (i + 1) x (building n ps (X0 ++ X) D Y) = Ok (building n (ps ++ [x]) X D Y).
Proof.
  intros -> HX Hx. unfold building. rewrite <- app_assoc, (app_assoc (le_bytes w n)). rewrite write_word; [|rewrite length_app, length_le_bytes; pose proof (length_words ps); lia|done|done].
  f_equal. rewrite words_app. cbn [words flat_map]. by rewrite app_nil_r, <- !app_assoc.
Qed.

Lemma write_data n ps X D Y0 Y d off : off = W + len ps * W + len X + len D -> length Y0 = length d ->
  mem_write off d (building n ps X D (Y0 ++ Y)) = Ok (building n ps X (D ++ d) Y).
Proof.
  intros -> Hd. unfold building. rewrite !(app_assoc (le_bytes w n)), !(app_assoc _ X), !(app_assoc _ D).
  rewrite mem_write_app; [by rewrite <- !app_assoc| |done]. rewrite !length_app, length_le_bytes. pose proof (length_words ps). lia.
Qed.

Lemma write_positions n ps X0 X D Y qs off : off = (len ps + 1) * W -> len X0 = len qs * W ->
  mem_write off (words qs) (building n ps (X0 ++ X) D Y) = Ok (building n (ps ++ qs) X D Y).
Proof.
  intros -> HX. unfold building. rewrite <- app_assoc, (app_assoc (le_bytes w n)). pose proof (length_words qs).
  rewrite mem_write_app; [by rewrite words_app, <- !app_assoc| |lia]. rewrite length_app, length_le_bytes. pose proof (length_words ps). lia.
Qed.

(** Room for [k] positions in front. *)
Lemma room_split (X : bytes) k : (k * w <= length X)%nat -> X = take (k * w) X ++ drop (k * w) X /\ length (take (k * w) X) = (k * w)%nat.
Proof. intros H. rewrite take_drop, length_take_le by done. done. Qed.

(** The loop that shifts the positions of a group of columns. *)
Lemma copy_positions_ok n D Y g B : forall l r ps X0 X delta,
  fits (l ++ g ++ r) -> B = base (length (l ++ g ++ r)) -> length ps = length l -> len X0 = len g * W ->
  0 <= B + len (concat l) + delta -> B + len (concat (l ++ g)) + delta < 2 ^ obits w ->
  copy_positions w (length g) (len l) delta (encode (l ++ g ++ r)) (building n ps (X0 ++ X) D Y) =
    Ok (building n (ps ++ starts (B + len (concat l) + delta) g) X D Y).
Proof.
  induction g as [|c g IH]; intros l r ps X0 X delta Hf HB Hps HX H0 H1; cbn [length copy_positions starts app].
  - destruct X0; [|cbn in HX; lia]. by rewrite app_nil_r.
  - cbn [app] in *. rewrite read_pos, rbind_Ok, <- HB by done. destruct (room_split X0 1) as [Hs Hl]; [cbn [length] in HX; nia|]. rewrite Hs, <- app_assoc.
    rewrite (concat_app l) in H1. cbn [concat] in H1. rewrite !length_app in H1.
    rewrite (write_position n ps); [|by rewrite Hps|lia|lia]. rewrite rbind_Ok.
    specialize (IH (l ++ [c]) r (ps ++ [B + len (concat l) + delta]) (drop (1 * w) X0) X delta).
    rewrite <- !app_assoc in IH. cbn [app] in IH. rewrite (concat_app l [c]), (concat_app l (c :: g)) in IH. cbn [concat] in IH. rewrite app_nil_r, !length_app in IH.
    replace (Z.of_nat (length l + length [c])) with (len l + 1) in IH by (cbn; lia).
    rewrite IH; [|done|by rewrite HB, ?length_app|cbn; lia|rewrite length_drop; cbn [length] in HX; lia|lia|lia].
    by replace (B + Z.of_nat (length (concat l) + length c) + delta) with (B + len (concat l) + delta + len c) by lia.
Qed.

(** A group of columns copied from an old row behind what is written. *)
Lemma copy_columns_ok n l g r ps X D Y k :
  fits (l ++ g ++ r) -> length ps = length l -> (length ps + k = n)%nat -> len X = Z.of_nat (k + 1) * W -> (length g <= k)%nat ->
  (length (concat g) <= length Y)%nat -> base n + len D + len (concat g) < 2 ^ obits w ->
  copy_columns w (encode (l ++ g ++ r)) (len l) (len (l ++ g)) (base n + len D) (building (Z.of_nat n) ps X D Y) =
    Ok (building (Z.of_nat n) (ps ++ starts (base n + len D) g) (drop (length g * w) X) (D ++ concat g) (drop (length (concat g)) Y),
        base n + len D + len (concat g)).
Proof.
  intros Hf Hps Hn HX Hg HY Hb. unfold copy_columns. rewrite read_pos, rbind_Ok by done.
  destruct (room_split X (length g)) as [HXs HXl]; [nia|]. set (X0 := take (length g * w) X) in *. set (X1 := drop (length g * w) X) in *.
  set (p := base (length (l ++ g ++ r)) + len (concat l)). assert (0 <= base n) as Hbn by (pose proof (base_pos n); lia).
  assert (len (concat (l ++ g)) = len (concat l) + len (concat g)) as Hcg by (rewrite concat_app, length_app; lia).
  assert ((if base n + len D - p =? 0 then
       let? qs := mem_read ((len l + 1) * W) ((len (l ++ g) - len l) * W) (encode (l ++ g ++ r)) in
       mem_write ((len l + 1) * W) qs (building (Z.of_nat n) ps X D Y)
     else copy_positions w (Z.to_nat (len (l ++ g) - len l)) (len l) (base n + len D - p) (encode (l ++ g ++ r)) (building (Z.of_nat n) ps X D Y)) =
    Ok (building (Z.of_nat n) (ps ++ starts (base n + len D) g) X1 D Y)) as Hpos.
  { rewrite HXs. replace (len (l ++ g) - len l) with (len g) by (rewrite length_app; lia). destruct (Z.eqb_spec (base n + len D - p) 0) as [E|E].
    - assert (mem_read ((len l + 1) * W) (len g * W) (encode (l ++ g ++ r)) = Ok (words (starts p g))) as ->.
      { rewrite encode_split, starts_app, <- (app_assoc (starts _ g)), words_app, <- (app_assoc (words (starts _ g))). fold p.
        apply mem_read_app; [rewrite length_app, length_le_bytes; pose proof (length_words (starts (base (length (l ++ g ++ r))) l)) as H; rewrite length_starts in H; lia|].
        rewrite length_words, length_starts. lia. }
      rewrite rbind_Ok. replace (base n + len D) with p by lia. apply write_positions; [by rewrite Hps|]. rewrite length_starts. lia.
    - rewrite Nat2Z.id. rewrite (copy_positions_ok (Z.of_nat n) D Y g _ l r ps X0 X1 _ Hf eq_refl); [|done|lia|fold p; lia|rewrite Hcg; unfold p; lia].
      fold p. do 4 f_equal. lia. }
  rewrite Hpos, rbind_Ok. pose proof (read_pos (l ++ g) r) as Hq. rewrite <- app_assoc in Hq. rewrite Hq, rbind_Ok by done.
  replace (base (length (l ++ g ++ r)) + len (concat (l ++ g)) - p) with (len (concat g)) by (rewrite Hcg; unfold p; lia).
  assert (mem_read p (len (concat g)) (encode (l ++ g ++ r)) = Ok (concat g)) as ->.
  { assert (len (concat (l ++ g ++ r)) = len (concat l) + len (concat (g ++ r))) as Hc by (rewrite concat_app, length_app; lia).
    pose proof (length_encode_row (l ++ g ++ r)) as He. rewrite encode_split in He |- *. rewrite (concat_app g r) in He |- *.
    rewrite (app_assoc (le_bytes w _ ++ _)), (app_assoc (_ ++ _) (concat l)). apply mem_read_app; [|done].
    rewrite (concat_app g r) in Hc. unfold p. rewrite !length_app in *. lia. }
  rewrite rbind_Ok. rewrite <- (take_drop (length (concat g)) Y) at 1.
  rewrite write_data; [|rewrite length_app, length_starts; unfold base, sizeof_bagdata, X1; rewrite length_drop; nia|by rewrite length_take_le].
  done.
Qed.

(** Empty columns up to the next change. *)
Lemma mark_empty_ok n ps k X D Y sz : (k * w <= length X)%nat -> 0 <= sz < 2 ^ obits w ->
  mark_empty w k (len ps) sz (building n ps X D Y) = Ok (building n (ps ++ replicate k sz) (drop (k * w) X) D Y).
Proof.
  revert ps X. induction k as [|k IH]; intros ps X Hk Hsz; cbn [mark_empty replicate]; [by rewrite app_nil_r, drop_0|].
  destruct (room_split X 1) as [HX Hl]; [lia|]. rewrite HX at 1. rewrite write_position; [|done|lia|done]. rewrite rbind_Ok.
  specialize (IH (ps ++ [sz]) (drop (1 * w) X)). rewrite length_app in IH. cbn [length] in IH. replace (Z.of_nat (length ps + 1)) with (len ps + 1) in IH by lia.
  rewrite IH; [|rewrite length_drop; lia|done]. rewrite <- app_assoc, drop_drop. cbn [app]. do 3 f_equal. lia.
Qed.

(** ** Changes *)

(** The columns [a] to [b] of a row, those it does not have without bytes. *)
Definition columns (old : list bytes) (a b : nat) : list bytes :=
  take (b - a) (drop a old) ++ replicate (b - a - length (drop a old)) [].

(** The columns from [col] on after changes in the order of their columns. *)
Fixpoint merged (old : list bytes) (chs : list (nat * bytes)) (col n : nat) : list bytes :=
  match chs with
  | [] => columns old col n
  | (i, v) :: chs => columns old col i ++ v :: merged old chs (S i) n
  end.

Fixpoint increasing (col : nat) (chs : list (nat * bytes)) (n : nat) : Prop :=
  match chs with
  | [] => (col <= n)%nat
  | (i, _) :: chs => (col <= i < n)%nat /\ increasing (S i) chs n
  end.

(** The array [column, value, column, value, ...]. *)
Inductive change_list : list (nat * bytes) -> list Json -> Prop :=
  | change_nil : change_list [] []
  | change_cons i v chs c s it : as_u c = Ok (Z.of_nat i) -> as_s s = Ok v -> change_list chs it -> change_list ((i, v) :: chs) (c :: s :: it).

Lemma length_columns old a b : (a <= b)%nat -> length (columns old a b) = (b - a)%nat.
Proof. intros H. unfold columns. rewrite length_app, length_take, length_replicate. lia. Qed.

Lemma increasing_le chs : forall col n, increasing col chs n -> (col <= n)%nat.
Proof. induction chs as [|[i v] chs IH]; intros col n; cbn; [done|]. intros [H H']. apply IH in H'. lia. Qed.

Lemma length_merged old chs : forall col n, increasing col chs n -> length (merged old chs col n) = (n - col)%nat.
Proof.
  induction chs as [|[i v] chs IH]; intros col n; cbn [merged increasing]; [apply length_columns|]. intros [H H'].
  rewrite length_app, length_columns by lia. cbn [length]. rewrite IH by done. lia.
Qed.

Lemma concat_columns old a b : concat (columns old a b) = concat (take (b - a) (drop a old)).
Proof. unfold columns. by rewrite concat_app, concat_replicate_nil, app_nil_r. Qed.

(** Filling from [col] to [this]: the old row's columns, then empty ones. *)
Lemma fill_columns_ok n old col this ps X D Y :
  fits old -> length ps = col -> (col <= this <= n)%nat -> Z.of_nat n < 2 ^ 31 -> length X = ((n + 1 - col) * w)%nat ->
  (length (concat (columns old col this)) <= length Y)%nat -> base n + len D + len (concat (columns old col this)) < 2 ^ obits w ->
  fill_columns w (encode old) (len old) (Z.of_nat col) (Z.of_nat this) (base n + len D) (building (Z.of_nat n) ps X D Y) =
    Ok (building (Z.of_nat n) (ps ++ starts (base n + len D) (columns old col this)) (drop ((this - col) * w) X)
          (D ++ concat (columns old col this)) (drop (length (concat (columns old col this))) Y),
        base n + len D + len (concat (columns old col this))).
Proof.
  intros Hf Hps Hc Hn HX HY Hb. unfold fill_columns. pose proof (base_pos n). rewrite concat_columns in *. unfold columns.
  destruct (negb (Z.of_nat col =? Z.of_nat this) && (Z.of_nat col <? len old)) eqn:E.
  - apply andb_prop in E as [E1%negb_true_iff%Z.eqb_neq E2%Z.ltb_lt].
    set (l := take col old). set (g := take (this - col) (drop col old)) in *. set (r := drop (this - col) (drop col old)).
    assert (old = l ++ g ++ r) as Ho by (unfold l, g, r; by rewrite !take_drop).
    assert (length l = col) as Hl by (unfold l; rewrite length_take_le; lia).
    assert (length g = (min this (length old) - col)%nat) as Hg by (unfold g; rewrite length_take, length_drop; lia).
    assert (length (drop col old) = (length old - col)%nat) as -> by apply length_drop.
    pose proof Hf as Hf'. rewrite Ho in Hf'.
    assert (copy_columns w (encode old) (Z.of_nat col) (Z.min (Z.of_nat this) (len old)) (base n + len D) (building (Z.of_nat n) ps X D Y) =
      Ok (building (Z.of_nat n) (ps ++ starts (base n + len D) g) (drop (length g * w) X) (D ++ concat g) (drop (length (concat g)) Y), base n + len D + len (concat g))) as ->.
    { replace (Z.of_nat col) with (len l) by lia. replace (Z.min (Z.of_nat this) (len old)) with (len (l ++ g)) by (rewrite length_app; lia). rewrite Ho at 1.
      apply (copy_columns_ok n l g r ps X D Y (n - col)); (done || lia). }
    rewrite !rbind_Ok. cbn [fst snd]. unfold Word.subw. rewrite Word.wrap_small by (split; lia).
    pose proof (mark_empty_ok (Z.of_nat n) (ps ++ starts (base n + len D) g) (this - col - (length old - col)) (drop (length g * w) X) (D ++ concat g) (drop (length (concat g)) Y)
      (base n + len D + len (concat g))) as Hm.
    rewrite length_app, length_starts in Hm. replace (Z.of_nat (length ps + length g)) with (Z.min (Z.of_nat this) (len old)) in Hm by lia.
    replace (Z.to_nat (Z.of_nat this - Z.min (Z.of_nat this) (len old))) with (this - col - (length old - col))%nat by lia.
    rewrite Hm; [|rewrite length_drop; nia|lia]. rewrite rbind_Ok, starts_app, starts_replicate, <- app_assoc, drop_drop. do 3 f_equal. f_equal. nia.
  - assert (take (this - col) (drop col old) = []) as Hg.
    { apply andb_false_iff in E as [E%negb_false_iff%Z.eqb_eq|E%Z.ltb_ge]; [by replace (this - col)%nat with 0%nat by lia|by rewrite drop_ge, take_nil by lia]. }
    assert (this - col - length (drop col old) = this - col)%nat as ->.
    { apply andb_false_iff in E as [E%negb_false_iff%Z.eqb_eq|E%Z.ltb_ge]; [lia|rewrite drop_ge by lia; cbn; lia]. }
    rewrite Hg in *. cbn [concat app length] in *. rewrite rbind_Ok. unfold Word.subw. rewrite Word.wrap_small by (split; lia).
    replace (Z.of_nat col) with (len ps) by lia. replace (Z.to_nat (Z.of_nat this - len ps)) with (this - col)%nat by lia.
    rewrite mark_empty_ok; [|nia|lia]. by rewrite rbind_Ok, starts_replicate, app_nil_r, drop_0, Z.add_0_r.
Qed.

(** ** The loop *)

Lemma update_loop_ok n old chs : forall it col ps X D Y,
  change_list chs it -> increasing col chs n -> (length old <= n)%nat ->
  fits old -> length ps = col -> Z.of_nat n < 2 ^ 31 -> length X = ((n + 1 - col) * w)%nat ->
  (length (concat (merged old chs col n)) <= length Y)%nat -> base n + len D + len (concat (merged old chs col n)) < 2 ^ obits w ->
  update_loop w (encode old) (len old) (Z.of_nat n) it (Z.of_nat col) (base n + len D) (building (Z.of_nat n) ps X D Y) =
    Ok (building (Z.of_nat n) (ps ++ starts (base n + len D) (merged old chs col n)) (drop ((n - col) * w) X)
          (D ++ concat (merged old chs col n)) (drop (length (concat (merged old chs col n))) Y),
        base n + len D + len (concat (merged old chs col n))).
Proof.
  induction chs as [|[i v] chs IH]; intros it col ps X D Y Hch Hinc Ho Hf Hps Hn HX HY Hb; inversion Hch as [|? ? ? c s it' Hc Hs Hch']; subst; cbn [merged increasing] in *; cbn [update_loop].
  - rewrite rbind_Ok. cbn beta. rewrite (fill_columns_ok n old (length ps) n ps X D Y) by (done || lia). rewrite rbind_Ok, Z.eqb_refl. done.
  - destruct Hinc as [Hi Hinc]. rewrite Hc, rbind_Ok, rbind_Ok, Word.wrap_small by (split; lia).
    rewrite concat_app in *. cbn [concat] in *. rewrite !length_app in *.
    rewrite (fill_columns_ok n old (length ps) i ps X D Y) by (done || lia). rewrite rbind_Ok, (proj2 (Z.eqb_neq _ _)) by lia.
    set (cs := columns old (length ps) i) in *. set (C := concat cs) in *.
    assert (length (ps ++ starts (base n + len D) cs) = i) as Hpi by (rewrite length_app, length_starts; unfold cs; rewrite length_columns; lia).
    pose proof (base_pos n). set (X1 := drop ((i - length ps) * w) X). assert (length X1 = ((n + 1 - i) * w)%nat) as HX1 by (unfold X1; rewrite length_drop; nia).
    destruct (room_split X1 1) as [HXs HXl]; [nia|]. rewrite HXs.
    replace (Z.of_nat i) with (len (ps ++ starts (base n + len D) cs)) by (by rewrite Hpi).
    rewrite write_position; [|done|lia|lia]. rewrite rbind_Ok, Hs, rbind_Ok.
    set (Y1 := drop (length C) Y). assert (length v <= length Y1)%nat as HY1 by (unfold Y1; rewrite length_drop; lia).
    rewrite <- (take_drop (length v) Y1). rewrite write_data; [|rewrite length_app, Hpi, length_drop, length_app; cbn [length]; unfold base, sizeof_bagdata; nia|by rewrite length_take_le].
    rewrite rbind_Ok, Hpi. unfold Word.addw. rewrite Word.wrap_small by (split; lia).
    replace (Z.of_nat i + 1) with (Z.of_nat (S i)) by lia.
    replace (base n + len D + len C + len v) with (base n + len ((D ++ C) ++ v)) by (rewrite !length_app; lia).
    rewrite (IH it' (S i)); [|done|done|done|done|rewrite length_app, Hpi; cbn; lia|done|rewrite length_drop; nia|unfold Y1; rewrite !length_drop; lia|rewrite !length_app; lia].
    rewrite starts_app, <- !app_assoc. cbn [starts app]. rewrite !drop_drop. fold C.
    replace (base n + len (D ++ C ++ v)) with (base n + len D + len C + len v) by (rewrite !length_app; lia).
    unfold X1, Y1. rewrite !drop_drop. apply f_equal, f_equal2; [|lia]. apply building_eq; [f_equal; nia|done|f_equal; lia].
Qed.

(** ** The columns after an update *)

Definition pad (cols : list bytes) (n : nat) : list bytes := cols ++ replicate (n - length cols) [].

(** Each change sets its column, after empty ones where there were none. *)
Fixpoint apply_changes (cols : list bytes) (chs : list (nat * bytes)) : list bytes :=
  match chs with
  | [] => cols
  | (i, v) :: chs => apply_changes (<[i := v]> (pad cols (S i))) chs
  end.

(** The columns of the changes increase, from [col] on. *)
Fixpoint ordered (col : nat) (chs : list (nat * bytes)) : Prop :=
  match chs with
  | [] => True
  | (i, _) :: chs => (col <= i)%nat /\ Z.of_nat i < 2 ^ 31 - 1 /\ ordered (S i) chs
  end.

(** The number of columns, as the first loop computes it. *)
Fixpoint ncol_after (oldn : nat) (chs : list (nat * bytes)) (n : nat) : nat :=
  match chs with
  | [] => n
  | (i, _) :: chs => ncol_after oldn chs (if (i <? oldn)%nat then n else S i)
  end.

Lemma ordered_increasing oldn chs : forall col n, ordered col chs -> (oldn <= n)%nat -> (col <= n)%nat ->
  increasing col chs (ncol_after oldn chs n) /\ (oldn <= ncol_after oldn chs n)%nat.
Proof.
  induction chs as [|[i v] chs IH]; intros col n; cbn [ordered increasing ncol_after]; [done|]. intros (Hi & _ & Ho) Hn Hc.
  destruct (IH (S i) (if (i <? oldn)%nat then n else S i) Ho) as [H1 H2]; [destruct (Nat.ltb_spec i oldn); lia..|].
  split; [|done]. split; [|done]. apply increasing_le in H1. lia.
Qed.

Lemma take_pad cur col i v : (col <= i)%nat -> (col <= length cur)%nat ->
  take (S i) (<[i := v]> (pad cur (S i))) = take col cur ++ columns cur col i ++ [v].
Proof.
  intros Hi Hc. assert (i < length (pad cur (S i)))%nat as Hlt by (unfold pad; rewrite length_app, length_replicate; lia).
  rewrite insert_take_drop by done. rewrite take_app_ge, length_take_le by (rewrite ?length_take_le; lia). replace (S i - i)%nat with 1%nat by lia. cbn [take].
  rewrite app_assoc. f_equal. unfold pad, columns. rewrite <- (take_drop col cur) at 1. rewrite <- app_assoc, take_app_ge by (rewrite length_take; lia).
  rewrite length_take_le by lia. f_equal. rewrite take_app. f_equal. rewrite take_replicate. f_equal. rewrite length_drop. lia.
Qed.

Lemma columns_drop old old' a b : drop a old = drop a old' -> columns old a b = columns old' a b.
Proof. intros H. unfold columns. by rewrite H. Qed.

Lemma apply_changes_merged old chs : forall cur col, ordered col chs -> (col <= length cur)%nat -> (length old <= length cur)%nat -> drop col cur = drop col old ->
  apply_changes cur chs = take col cur ++ merged old chs col (ncol_after (length old) chs (length cur)).
Proof.
  induction chs as [|[i v] chs IH]; intros cur col; cbn [ordered apply_changes merged ncol_after].
  - intros _ Hc Ho Hd. rewrite <- (columns_drop cur old col _ Hd). unfold columns. rewrite length_drop, Nat.sub_diag. cbn [replicate]. rewrite app_nil_r.
    rewrite (take_ge (drop col cur)) by (rewrite length_drop; lia). by rewrite take_drop.
  - intros (Hi & _ & Hord) Hc Ho Hd. set (cur' := <[i := v]> (pad cur (S i))).
    assert (length cur' = max (length cur) (S i)) as Hl by (unfold cur', pad; rewrite length_insert, length_app, length_replicate; lia).
    assert (length cur - col = length old - col)%nat as Hlen by (by rewrite <- !length_drop, Hd).
    rewrite (IH cur' (S i) Hord); [|lia|lia|].
    + unfold cur' at 1. rewrite (take_pad cur col), <- !app_assoc by lia. rewrite (columns_drop cur old) by done. cbn [app]. do 4 f_equal.
      f_equal. rewrite Hl. destruct (Nat.ltb_spec i (length old)); lia.
    + unfold cur'. rewrite drop_insert_lt by lia. unfold pad. rewrite drop_app, (drop_ge (replicate _ _)), app_nil_r by (rewrite length_replicate; lia).
      replace (S i) with (col + (S i - col))%nat by lia. by rewrite <- !drop_drop, Hd.
Qed.

Lemma update_size_ok old chs : forall it col n z, change_list chs it -> ordered col chs -> fits old -> (length old <= n)%nat -> (col <= n)%nat ->
  update_size w (encode old) (len old) it (Word.wrap 64 z) (Z.of_nat n) =
    Ok (Word.wrap 64 (z + len (concat (merged old chs col (ncol_after (length old) chs n))) - len (concat (drop col old))), Z.of_nat (ncol_after (length old) chs n)).
Proof.
  induction chs as [|[i v] chs IH]; intros it col n z Hch Hord Hf Hn Hc; inversion Hch as [|? ? ? c s it' Hcu Hs Hch']; subst; cbn [update_size merged ncol_after ordered] in *.
  - rewrite concat_columns, take_ge by (rewrite length_drop; lia). do 3 f_equal. lia.
  - destruct Hord as (Hi & Hi' & Hord). rewrite Hcu, rbind_Ok, Word.wrap_small by (split; lia). rewrite Hs, rbind_Ok. cbn zeta.
    rewrite concat_app. cbn [concat]. rewrite concat_columns, !length_app.
    assert (drop col old = take (i - col) (drop col old) ++ drop i old) as Hd by (rewrite <- (take_drop (i - col) (drop col old)) at 1; rewrite drop_drop; do 2 f_equal; lia).
    assert (len (concat (drop col old)) = len (concat (take (i - col) (drop col old))) + len (concat (drop i old))) as Hl by (rewrite Hd at 1; rewrite concat_app, length_app; lia).
    assert (Word.addw 64 (Word.wrap 64 z) (len v) = Word.wrap 64 (z + len v)) as -> by (unfold Word.addw, Word.wrap; by rewrite Zplus_mod_idemp_l).
    destruct (Z.ltb_spec (Z.of_nat i) (len old)) as [Hlt|Hge].
    + rewrite (proj2 (Nat.ltb_lt _ _)) by lia. destruct (lookup_lt_is_Some_2 old i) as [x Hx]; [lia|]. pose proof (take_drop_middle _ _ _ Hx) as Heq.
      assert (len (take i old) = Z.of_nat i) as Hli by (rewrite length_take_le; lia).
      assert (column_length w (Z.of_nat i) (encode old) = Ok (len x)) as ->.
      { pose proof (column_length_ok (take i old) x (drop (S i) old)) as Hcl. rewrite Heq, Hli in Hcl. by apply Hcl. }
      rewrite rbind_Ok. assert (Word.subw 64 (Word.wrap 64 (z + len v)) (len x) = Word.wrap 64 (z + len v - len x)) as -> by (unfold Word.subw, Word.wrap; by rewrite Zminus_mod_idemp_l).
      rewrite (IH it' (S i)) by (done || lia). rewrite (drop_S _ _ _ Hx) in Hl. cbn [concat] in Hl. rewrite length_app in Hl. do 3 f_equal. lia.
    + rewrite (proj2 (Nat.ltb_ge _ _)) by lia. unfold Word.addw. rewrite (Word.wrap_small 32) by (split; lia). replace (Z.of_nat i + 1) with (Z.of_nat (S i)) by lia.
      rewrite (IH it' (S i)) by (done || lia). rewrite (drop_ge old i) in Hl by lia. rewrite (drop_ge old (S i)) by lia. cbn [concat length] in *. do 3 f_equal. lia.
Qed.

(** ** The whole update *)

Lemma obits_le : 2 ^ obits w <= 2 ^ 32.
Proof. apply Z.pow_le_mono_r; unfold obits; lia. Qed.

Lemma encode_fits_small cols : fits cols -> 0 <= len (encode cols) < 2 ^ 32.
Proof. intros [H _]. pose proof obits_le. pose proof (base_pos (length cols)). rewrite length_encode_row. lia. Qed.

(** The general path: a new row is built and complete. *)
Lemma build_row old chs it row : change_list chs it -> ordered 0 chs -> fits old -> fits (apply_changes old chs) ->
  length row = length (encode (apply_changes old chs)) ->
  (let? row := write_o w 0 (len (apply_changes old chs)) row in
   let? r := update_loop w (encode old) (len old) (len (apply_changes old chs)) it 0 (sizeof_bagdata w + len (apply_changes old chs) * W) row in
   write_o w (len (apply_changes old chs) + 1) (snd r) (fst r)) = Ok (encode (apply_changes old chs)).
Proof.
  intros Hch Hord Hf Hf' Hrow. pose proof (apply_changes_merged old chs old 0 Hord) as Hm. rewrite !take_0 in Hm. cbn [app] in Hm.
  specialize (Hm ltac:(lia) ltac:(lia) eq_refl). pose proof (ordered_increasing (length old) chs 0 (length old) Hord ltac:(lia) ltac:(lia)) as [Hinc Hge].
  set (new := apply_changes old chs) in *. set (n := ncol_after (length old) chs (length old)) in *.
  assert (length new = n) as Hn by (rewrite Hm, length_merged by done; lia).
  assert (len row = base n + len (concat new)) as Hlr by (rewrite Hrow, length_encode_row, Hn; lia).
  destruct Hf' as [Hf1 Hf2]. unfold base, sizeof_bagdata in Hlr. rewrite Hn in *.
  rewrite <- (take_drop w row), <- (take_drop ((n + 1) * w) (drop w row)).
  set (X := take ((n + 1) * w) (drop w row)). set (Y := drop ((n + 1) * w) (drop w row)).
  assert (length X = ((n + 1 - 0) * w)%nat) as HX by (unfold X; rewrite length_take_le; rewrite ?length_drop; nia).
  assert (length Y = length (concat new)) as HY by (unfold Y; rewrite !length_drop; nia).
  pose proof (write_word [] (take w row) (X ++ Y) 0 (Z.of_nat n)) as Hw0. cbn [app] in Hw0. pose proof (base_pos n) as Hbp. pose proof obits_le.
  rewrite Hw0; [|done|rewrite length_take_le; nia|lia]. rewrite rbind_Ok.
  pose proof (update_loop_ok n old chs it 0%nat [] X [] Y Hch Hinc Hge Hf eq_refl ltac:(lia) HX) as Hloop.
  rewrite <- Hm in Hloop. cbn [length app] in Hloop. change (Z.of_nat 0) with 0 in Hloop. rewrite !Z.add_0_r in Hloop. specialize (Hloop ltac:(lia) Hf1).
  change (le_bytes w (Z.of_nat n) ++ X ++ Y) with (building (Z.of_nat n) [] X [] Y). change (sizeof_bagdata w + Z.of_nat n * W) with (base n).
  rewrite Hloop, rbind_Ok. cbn [fst snd]. rewrite <- (app_nil_r (drop ((n - 0) * w) X)).
  rewrite (write_position (Z.of_nat n)); [|rewrite length_starts; lia|rewrite length_drop; nia|lia].
  unfold building, encode. rewrite Hn, drop_ge, app_nil_r by lia. done.
Qed.

(** The short path: one column of the same length overwritten. *)
Lemma overwrite_column l c v r : fits (l ++ c :: r) -> length v = length c ->
  mem_write (base (length (l ++ c :: r)) + len (concat l)) v (encode (l ++ c :: r)) = Ok (encode (l ++ v :: r)).
Proof.
  intros Hf Hv. pose proof (length_encode_row (l ++ c :: r)) as He. rewrite !encode_split in *. cbn [starts concat] in *. rewrite !concat_app in *. cbn [concat] in *.
  assert (length (l ++ v :: r) = length (l ++ c :: r)) as -> by (rewrite !length_app; cbn; lia).
  assert (len (concat l ++ v ++ concat r) = len (concat l ++ c ++ concat r)) as -> by (rewrite !length_app; lia). rewrite Hv.
  rewrite (app_assoc (_ ++ _)), (app_assoc ((_ ++ _) ++ _) (concat l)), (app_assoc (_ ++ words (starts _ l)) (words _) (concat l ++ v ++ _)), (app_assoc ((_ ++ _) ++ _) (concat l) (v ++ _)).
  apply mem_write_app; [|done]. rewrite !length_app in *. lia.
Qed.

(** The first loop computes the size of the new row and its columns. *)
Lemma update_size_total old chs it : change_list chs it -> ordered 0 chs -> fits old -> fits (apply_changes old chs) ->
  exists sz, update_size w (encode old) (len old) it (sizeof_timestamp + len (encode old)) (len old) = Ok (sz, len (apply_changes old chs)) /\
    (if len old <? len (apply_changes old chs) then Word.addw 64 sz ((len (apply_changes old chs) - len old) * W) else sz) =
      sizeof_timestamp + len (encode (apply_changes old chs)).
Proof.
  intros Hch Hord Hf Hf'. pose proof (apply_changes_merged old chs old 0 Hord) as Hm. rewrite !take_0 in Hm. cbn [app] in Hm.
  specialize (Hm ltac:(lia) ltac:(lia) eq_refl). pose proof (ordered_increasing (length old) chs 0 (length old) Hord ltac:(lia) ltac:(lia)) as [Hinc Hge].
  pose proof (update_size_ok old chs it 0 (length old) (sizeof_timestamp + len (encode old)) Hch Hord Hf ltac:(lia) ltac:(lia)) as Hs.
  rewrite <- Hm, drop_0 in Hs. pose proof (encode_fits_small old Hf) as Ho. pose proof (encode_fits_small _ Hf') as Hn.
  assert (length (apply_changes old chs) = ncol_after (length old) chs (length old)) as Hl by (rewrite Hm at 1; rewrite length_merged by done; lia).
  rewrite <- Hl in Hs, Hge. unfold sizeof_timestamp in *. rewrite (Word.wrap_small 64 (8 + len (encode old))) in Hs by (split; lia).
  eexists. split; [exact Hs|]. rewrite !length_encode_row in *. unfold base, sizeof_bagdata in *.
  destruct (Z.ltb_spec (len old) (len (apply_changes old chs))) as [Hlt|Hle].
  - unfold Word.addw, Word.wrap. rewrite Zplus_mod_idemp_l, Z.mod_small by (split; nia). nia.
  - assert (len old = len (apply_changes old chs)) as He by lia. rewrite Word.wrap_small by (split; nia). nia.
Qed.

Lemma short_path_cases cols chs it sz size : change_list chs it ->
  short_path it (len (apply_changes cols chs)) (len cols) sz size = Ok None \/
  exists i v c s, it = [c; s] /\ chs = [(i, v)] /\ as_u c = Ok (Z.of_nat i) /\ len (apply_changes cols chs) = len cols /\ sz = size /\
    short_path it (len (apply_changes cols chs)) (len cols) sz size = Ok (Some (c, v)).
Proof.
  intros [|i v chs' c s it' Hc Hs [|? ? ? ? ? ? _ _ _]]; cbn [short_path]; [by left| |by left].
  destruct (Z.eqb_spec (len (apply_changes cols [(i, v)])) (len cols)) as [E1|]; [|by left]. destruct (Z.eqb_spec sz size) as [E2|]; [|by left].
  cbn [andb]. rewrite Hs, rbind_Ok. case_match; [right|by left]. by exists i, v, c, s.
Qed.

(** A change that leaves the number of columns and the size is to a column of the same length. *)
Lemma same_size_change cols i v : len (apply_changes cols [(i, v)]) = len cols -> len (encode (apply_changes cols [(i, v)])) = len (encode cols) ->
  exists l c r, cols = l ++ c :: r /\ length l = i /\ length c = length v /\ apply_changes cols [(i, v)] = l ++ v :: r.
Proof.
  cbn [apply_changes]. unfold pad. intros Hl He. assert (i < length cols)%nat as Hi by (rewrite length_insert, length_app, length_replicate in Hl; lia).
  replace (S i - length cols)%nat with 0%nat in * by lia. cbn [replicate] in *. rewrite app_nil_r in *.
  destruct (lookup_lt_is_Some_2 cols i Hi) as [c Hc]. exists (take i cols), c, (drop (S i) cols).
  rewrite (insert_take_drop cols i v Hi) in *. split_and!; [by rewrite take_drop_middle|by rewrite length_take_le by lia| |done].
  apply Nat2Z.inj in Hl. rewrite !length_encode_row, Hl in He. pose proof (take_drop_middle _ _ _ Hc) as Hcols.
  assert (len (concat (take i cols ++ c :: drop (S i) cols)) = len (concat cols)) as Hcc by (by rewrite Hcols).
  rewrite !concat_app in *. cbn [concat] in *. rewrite !length_app in *. lia.
Qed.
End facts.

(** ** What updates do *)

Lemma update_represents w fresh b cols chs it ts : (0 < w <= 4)%nat -> represents w b cols -> change_list chs it -> ordered 0 chs ->
  fits w (apply_changes cols chs) -> (forall n, length (fresh n) = n) ->
  exists b', update w fresh b it ts = Ok b' /\ represents w b' (apply_changes cols chs) /\ vb_ts b' = ts.
Proof.
  intros Hw [Hb Hf] Hch Hord Hf' Hfresh. exists (Bag ts (encode w (apply_changes cols chs))). split; [|done]. unfold update. rewrite Hb.
  rewrite read_size, rbind_Ok, read_ncol, rbind_Ok by done. destruct (update_size_total w Hw cols chs it) as (sz & Hs & Hsz); [done..|].
  rewrite Hs, rbind_Ok. cbn zeta. rewrite Hsz. unfold sizeof_timestamp.
  replace (Z.to_nat (8 + len (encode w (apply_changes cols chs)) - 8)) with (length (encode w (apply_changes cols chs))) by lia.
  destruct (short_path_cases cols chs it (8 + len (encode w (apply_changes cols chs))) (8 + len (encode w cols)) Hch) as [Hg|(i & v & c & s & -> & -> & Hc & Hl & He & Hshort)].
  - rewrite Hg, rbind_Ok. pose proof (build_row w Hw cols chs it (fresh (length (encode w (apply_changes cols chs)))) Hch Hord Hf Hf' (Hfresh _)) as Hrow.
    destruct (write_o w 0 _ _) as [row|]; [|discriminate Hrow]. cbn [rbind res_bind] in *. destruct (update_loop _ _ _ _ _ _ _ _) as [r|]; [|discriminate Hrow].
    cbn [rbind res_bind] in *. by rewrite Hrow.
  - rewrite Hshort, rbind_Ok, Hc. destruct (same_size_change w Hw cols i v) as (l & x & r & -> & <- & Hx & Hnew); [done|lia|]. rewrite Hnew in *.
    replace (8 + len (encode w (l ++ v :: r)) - 8) with (len (encode w (l ++ x :: r))) by lia. set (m := encode w (l ++ x :: r)) in *.
    pose proof (mem_read_app [] m [] 0 (len m) eq_refl eq_refl) as Hr. cbn [app] in Hr. rewrite app_nil_r in Hr. rewrite Hr, rbind_Ok.
    pose proof (mem_write_app [] (fresh (length (encode w (l ++ v :: r)))) [] m 0 eq_refl) as Hwr. cbn [app] in Hwr. rewrite !app_nil_r, Hfresh in Hwr.
    rewrite Hwr, !rbind_Ok by lia. unfold m. rewrite read_pos, rbind_Ok by done. by rewrite overwrite_column, rbind_Ok by done.
Qed.

Definition zeros (n : nat) : bytes := replicate n 0.

Lemma empty_bag_represents w : (0 < w <= 4)%nat -> represents w (empty_bag w) [].
Proof.
  intros Hw. split; [|split; [|done]].
  - unfold empty_bag, encode, words, base. cbn [vb_s length starts app flat_map concat]. rewrite !app_nil_r. do 2 f_equal. cbn. lia.
  - pose proof (Z.pow_le_mono_r 2 8 (obits w)) as H. unfold base, sizeof_bagdata, obits in *. cbn [length concat] in *. lia.
Qed.

(** One column: what the row has of it is the new value, of the others what it had. *)
Lemma nth_apply_change cols i v n : nth n (apply_changes cols [(i, v)]) [] = if (n =? i)%nat then v else nth n cols [].
Proof.
  cbn [apply_changes]. unfold pad. rewrite !nth_lookup. destruct (Nat.eqb_spec n i) as [->|Hne].
  - rewrite list_lookup_insert_eq; [done|]. rewrite length_app, length_replicate. lia.
  - rewrite list_lookup_insert_ne by done. destruct (lt_dec n (length cols)) as [H|H].
    + by rewrite lookup_app_l.
    + rewrite lookup_app_r, (lookup_ge_None_2 cols) by lia. cbn. destruct (replicate _ _ !! _) as [x|] eqn:E; [|done]. by apply lookup_replicate in E as [-> _].
Qed.

(** [update] of one column: afterwards that column reads as the value, every
    other column as before, columns the row did not have as empty. *)
Lemma bag_update_col w fresh b cols i v ts : (0 < w <= 4)%nat -> represents w b cols -> Z.of_nat i < 2 ^ 31 - 1 ->
  fits w (apply_changes cols [(i, v)]) -> (forall n, length (fresh n) = n) ->
  exists b', update_col w fresh b (Z.of_nat i) v ts = Ok b' /\
    forall n, Z.of_nat n < 2 ^ 31 -> bag_col w (Z.of_nat n) b' = if (n =? i)%nat then Ok v else bag_col w (Z.of_nat n) b.
Proof.
  intros Hw Hb Hi Hf Hfresh. unfold update_col. 
  destruct (update_represents w fresh b cols [(i, v)] [JInt (Z.of_nat i); JString v] ts) as (b' & Hu & Hr & _); try done.
  - constructor; [cbn [as_u]; f_equal; apply Word.wrap_small; split; lia|done|constructor].
  - cbn. lia.
  - exists b'. split; [done|]. intros n Hn. rewrite (read_column w Hw b' _ _ Hr), (read_column w Hw b _ _ Hb), Nat2Z.id, nth_apply_change by lia. by destruct (n =? i)%nat.
Qed.

(** Updating a row, whose memory is the encoding of its columns, gives a row
    whose memory is the encoding of the columns with the changes applied: inside
    the allocation, all of which it initialises, with every position right, on
    the short path and on the general one, whatever the allocator's memory held.
    Each column then reads as the last change to it, or as before. *)
Lemma bag_update w fresh b cols chs it ts : (0 < w <= 4)%nat -> represents w b cols -> change_list chs it -> ordered 0 chs ->
  fits w (apply_changes cols chs) -> (forall n, length (fresh n) = n) ->
  exists b', update w fresh b it ts = Ok b' /\ represents w b' (apply_changes cols chs) /\ vb_ts b' = ts /\
    forall i, 0 <= i < 2 ^ 31 -> bag_col w i b' = Ok (nth (Z.to_nat i) (apply_changes cols chs) []).
Proof.
  intros Hw Hb Hch Hord Hf Hfresh. destruct (update_represents w fresh b cols chs it ts) as (b' & Hu & Hr & Ht); [done..|].
  exists b'. split_and!; [done..|]. intros i Hi. by apply read_column.
Qed.

Definition some_changes : list (nat * bytes) := [(0%nat, [97; 98]); (3%nat, [99])].
Definition some_items : list Json := [JInt 0; JString [97; 98]; JUnsigned 3; JString [99]].


(** ** Rows of one string *)

Lemma three_positions w : (0 < w <= 4)%nat -> 3 * Z.of_nat w < 2 ^ obits w.
Proof. intros Hw. pose proof (Z.pow_le_mono_r 2 8 (obits w)) as H. pose proof (Z.pow_gt_lin_r 2 (obits w)) as H'. unfold obits in *. lia. Qed.

(** The memory that [create1] leaves, however long the string. *)
Lemma create1_memory w fresh s ts : (0 < w <= 4)%nat -> (forall n, length (fresh n) = n) ->
  create1 w fresh s ts = Ok (Bag ts (le_bytes w 1 ++ le_bytes w (3 * Z.of_nat w) ++ le_bytes w (Word.wrap (obits w) (3 * Z.of_nat w + len s)) ++ s)).
Proof.
  intros Hw Hfresh. unfold create1, sizeof_bagdata. pose proof (three_positions w Hw) as H3. assert (0 <= obits w) as Hob by (unfold obits; lia).
  set (row := fresh _). assert (length row = (3 * w + length s)%nat) as Hrow by (unfold row; rewrite Hfresh; lia). clearbody row.
  destruct (room_split w row 1) as [E1 L1]; [lia|]. set (A := take (1 * w) row) in *. set (row1 := drop (1 * w) row) in *.
  assert (length row1 = (2 * w + length s)%nat) as Hrow1 by (unfold row1; rewrite length_drop; lia). clearbody A row1. subst row.
  destruct (room_split w row1 1) as [E1 L2]; [lia|]. set (B := take (1 * w) row1) in *. set (row2 := drop (1 * w) row1) in *.
  assert (length row2 = (1 * w + length s)%nat) as Hrow2 by (unfold row2; rewrite length_drop; lia). clearbody B row2. subst row1.
  destruct (room_split w row2 1) as [E1 L3]; [lia|]. set (C := take (1 * w) row2) in *. set (D := drop (1 * w) row2) in *.
  assert (length D = length s) as L4 by (unfold D; rewrite length_drop; lia). clearbody C D. subst row2.
  rewrite Nat.mul_1_l in *. pose proof (write_word w [] A (B ++ C ++ D) 0 1) as W1. cbn [app] in W1. rewrite W1, rbind_Ok by (done || lia).
  replace (2 * Z.of_nat w + Z.of_nat w) with (3 * Z.of_nat w) by lia.
  rewrite (write_word w (le_bytes w 1) B (C ++ D) 1), rbind_Ok by (rewrite ?length_le_bytes; lia).
  rewrite (app_assoc (le_bytes w 1)). unfold write_o at 1. rewrite mem_write_app by (rewrite ?length_app, !length_le_bytes; lia). rewrite rbind_Ok.
  rewrite <- app_assoc. unfold bag_pos. rewrite (read_word w (le_bytes w 1)), rbind_Ok by (rewrite ?length_le_bytes; lia).
  rewrite app_assoc, (app_assoc (_ ++ _)). pose proof (mem_write_app ((le_bytes w 1 ++ le_bytes w (3 * Z.of_nat w)) ++ le_bytes w (Word.wrap (obits w) (3 * Z.of_nat w + len s))) D [] s (3 * Z.of_nat w)) as Wd.
  rewrite !app_nil_r in Wd. rewrite Wd, rbind_Ok by (rewrite ?length_app, ?length_le_bytes; lia). by rewrite <- !app_assoc.
Qed.

Lemma create1_represents w fresh s ts : (0 < w <= 4)%nat -> (forall n, length (fresh n) = n) -> 3 * Z.of_nat w + len s < 2 ^ obits w ->
  exists b, create1 w fresh s ts = Ok b /\ represents w b [s] /\ vb_ts b = ts.
Proof.
  intros Hw Hfresh Hs. eexists. split; [by apply create1_memory|]. split; [split|done].
  - unfold encode, words, base, sizeof_bagdata. cbn [vb_s length starts app flat_map concat]. rewrite Word.wrap_small by (split; lia).
    rewrite !app_nil_r, <- !app_assoc. cbn [app]. replace (2 * Z.of_nat w + Z.of_nat 1 * Z.of_nat w) with (3 * Z.of_nat w) by lia. done.
  - split; [|done]. unfold base, sizeof_bagdata. cbn [length concat]. rewrite app_nil_r. lia.
Qed.

(** A row of one string: while the string and the positions fit [O], the row
    is the encoding of the string.  A longer string (the constructor does not test
    its length) makes a row whose end is cut off modulo [2^bits]: its [row_string],
    what a checkpoint writes, is not all of it. *)
Lemma bag_create1_bounds w fresh s ts : (0 < w <= 4)%nat -> (forall n, length (fresh n) = n) ->
  exists b, create1 w fresh s ts = Ok b /\
    (if 3 * Z.of_nat w + len s <? 2 ^ obits w then represents w b [s] /\ row_string w b = Ok (vb_s b)
     else exists cut, row_string w b = Ok cut /\ len cut = (3 * Z.of_nat w + len s) mod 2 ^ obits w /\ len cut < len (vb_s b)).
Proof.
  intros Hw Hfresh. case_match eqn:E.
  - apply Z.ltb_lt in E. destruct (create1_represents w fresh s ts Hw Hfresh E) as (b & Hc & Hr & _). exists b. split_and!; [done..|]. by eapply read_row_string.
  - apply Z.ltb_ge in E. eexists. split; [by apply create1_memory|]. set (p := Word.wrap (obits w) (3 * Z.of_nat w + len s)). unfold row_string, bag_ncol, bag_pos. cbn [vb_s].
    pose proof (three_positions w Hw). assert (0 <= p < 2 ^ obits w) as Hp by (apply Z.mod_pos_bound; lia).
    pose proof (read_word w [] (le_bytes w (3 * Z.of_nat w) ++ le_bytes w p ++ s) 0 1) as H0. cbn [app] in H0. rewrite H0, rbind_Ok by (done || lia).
    rewrite (app_assoc (le_bytes w 1)), (read_word w (le_bytes w 1 ++ _)), rbind_Ok by (rewrite ?length_app, ?length_le_bytes; lia).
    set (m := (le_bytes w 1 ++ _) ++ _). assert (len m = 3 * Z.of_nat w + len s) as Hm by (unfold m; rewrite !length_app, !length_le_bytes; lia).
    exists (take (Z.to_nat p) m). unfold mem_read. rewrite (proj2 (Z.leb_le 0 p)), (proj2 (Z.leb_le (0 + p) _)) by lia. cbn [Z.leb Z.compare andb].
    rewrite drop_0, length_take_le by lia. split_and!; [done|unfold p, Word.wrap in *; lia|lia].
Qed.

(** ** Checkpoints *)

(** A row written to a checkpoint and read from it, whatever follows there, is
    a row of the same columns, with the time stamp of the reading. *)
Lemma bag_checkpoint_roundtrip w fresh b cols rest ts : (0 < w <= 4)%nat -> (forall n, length (fresh n) = n) ->
  represents w b cols -> len (vb_s b) < 2 ^ 31 ->
  exists par b', checkpoint_write w b = Ok par /\ checkpoint_read fresh (par ++ rest) ts = Ok (b', rest) /\ represents w b' cols /\ vb_ts b' = ts.
Proof.
  intros Hw Hfresh Hr Hl. unfold checkpoint_write. rewrite (read_row_string w Hw b cols Hr), rbind_Ok. eexists _, (Bag ts (vb_s b)).
  split; [done|]. unfold checkpoint_read. rewrite read_str_write, rbind_Ok by (unfold int_length; lia).
  pose proof (mem_write_app [] (fresh (length (vb_s b))) [] (vb_s b) 0 eq_refl) as Hwr. cbn [app] in Hwr. rewrite !app_nil_r in Hwr.
  rewrite Hwr, rbind_Ok by (by rewrite Hfresh). split_and!; [done|by destruct Hr|done].
Qed.

