(* ===== verification/ValueString.v ===== *)
(** * Rows of one string (value_string.hh)

    [value_string]: the whole value is column 0, and an index names a part of it by
    offset and length.  The object ends with [vallen_] bytes and the structure's
    padding: 16 bytes are allocated beside the value, which begins at byte 12. *)

From S2P Require Export ValueBag.

#[local] Open Scope Z_scope.
#[local] Open Scope lhm_scope.

Module value_string.
(** [sizeof(value_string)], and where [s_] begins. *)
Definition sizeof : Z := 16.
Definition s_offset : Z := 12.

(** [s] is the memory from [s_] to the end of the allocation. *)
Record row := Row { ts : Z; vallen : Z; s : bytes }.

Definition empty : row := Row 0 0 (replicate (Z.to_nat (sizeof - s_offset)) 0).

(** ** Indices *)

Definition make_index (offset length : Z) : Z := Word.addw 32 offset (Word.wrap 32 (Z.shiftl length 16)).
Definition index_offset (idx : Z) : Z := Z.land idx 0xFFFF.
Definition index_length (idx : Z) : Z := Z.shiftr idx 16.
Definition index_last_offset (idx : Z) : Z := Word.addw 32 (index_offset idx) (index_length idx).

Definition size (r : row) : Z := sizeof + vallen r.
Definition shallow_size (vallen : Z) : Z := sizeof + vallen.
(** Of an allocation of [n] bytes, what follows [s_]. *)
Definition allocate (fresh : nat -> bytes) (n : Z) : bytes := fresh (Z.to_nat (n - s_offset)).

Definition col (idx : Z) (r : row) : res bytes :=
  if idx =? 0 then mem_read 0 (vallen r) (s r)
  else
    let off := Z.min (vallen r) (index_offset idx) in
    mem_read off (Z.min (Word.subw 32 (vallen r) off) (index_length idx)) (s r).

(** ** Updates *)

(** The first loop: the length needed for the changes, and what remains of the old
    value. *)
Fixpoint update_size (it : list Json) (vallen cut : Z) : res (Z * Z) :=
  match it with
  | [] => Ok (vallen, cut)
  | c :: v :: it =>
    let? u := as_u c in
    let idx := Word.wrap 32 u in
    let? val := as_s v in
    let length := Z.of_nat (length val) in
    update_size it (Z.max vallen (Word.addw 32 (index_offset idx) length)) (if idx =? 0 then length else cut)
  | _ => Fault OutOfBounds
  end.

Fixpoint update_write (it : list Json) (m : bytes) : res bytes :=
  match it with
  | [] => Ok m
  | c :: v :: it =>
    let? val := as_s v in
    let? u := as_u c in
    let? m := mem_write (index_offset (Word.wrap 32 u)) val m in
    update_write it m
  | _ => Fault OutOfBounds
  end.

Definition update (fresh : nat -> bytes) (r : row) (changes : list Json) (t : Z) : res row :=
  let? r1 := update_size changes 0 (vallen r) in
  let (len, cut) := (r1 : Z * Z) in
  let len := Z.max len cut in
  let m := allocate fresh (shallow_size len) in
  let? kept := mem_read 0 cut (s r) in
  let? m := mem_write 0 kept m in
  let? m := update_write changes m in
  Ok (Row t len m).

Definition create (fresh : nat -> bytes) (changes : list Json) (t : Z) : res row := update fresh empty changes t.

Definition create1 (fresh : nat -> bytes) (value : bytes) (t : Z) : res row :=
  let? m := mem_write 0 value (allocate fresh (shallow_size (Z.of_nat (length value)))) in
  Ok (Row t (Z.of_nat (length value)) m).

(** ** Checkpoints *)

Definition checkpoint_write (r : row) : res bytes := let? v := mem_read 0 (vallen r) (s r) in Ok (format.write_string v).
Definition checkpoint_read (fresh : nat -> bytes) (par : bytes) (t : Z) : res (row * bytes) :=
  let? r := read_str par in
  let? v := create1 fresh (fst r) t in
  Ok (v, snd r).
End value_string.
