(* ===== verification/ValueStringFacts.v ===== *)
(** * Rows of one string: updates as overwriting

    When an update is the old value overwritten part by part, and when it reads or
    leaves bytes that are not the row's. *)

From S2P Require Export ValueString ValueBagFacts.

#[local] Open Scope Z_scope.
#[local] Open Scope lhm_scope.
Import value_string.

(** A row of a value: its bytes, and the padding behind them. *)
Definition holds (r : row) (v : bytes) : Prop :=
  vallen r = len v /\ len v < 2 ^ 31 /\ exists tail, s r = v ++ tail /\ len tail = sizeof - s_offset.

(** [v] written over [x] from [off] on, which may make it longer. *)
Definition overwrite (x : bytes) (off : nat) (v : bytes) : bytes := take off x ++ v ++ drop (off + length v) x.

Definition overwrite_all (x : bytes) (chs : list (nat * bytes)) : bytes := foldl (fun x ch => overwrite x (fst ch) (snd ch)) x chs.

(** No change begins behind what there is. *)
Fixpoint within (n : nat) (chs : list (nat * bytes)) : Prop :=
  match chs with
  | [] => True
  | (off, v) :: chs => (off <= n)%nat /\ within (max n (off + length v)) chs
  end.

(** The changes of parts, as the update reads them. *)
Inductive part_list : list (nat * bytes) -> list Json -> Prop :=
  | part_nil : part_list [] []
  | part_cons off v chs u c s it : as_u c = Ok u -> Word.wrap 32 u <> 0 -> index_offset (Word.wrap 32 u) = Z.of_nat off -> as_s s = Ok v ->
      part_list chs it -> part_list ((off, v) :: chs) (c :: s :: it).

Lemma length_overwrite x off v : (off <= length x)%nat -> length (overwrite x off v) = max (length x) (off + length v).
Proof. intros H. unfold overwrite. rewrite !length_app, length_take, length_drop. lia. Qed.

Lemma length_overwrite_all chs : forall x, within (length x) chs -> (length x <= length (overwrite_all x chs))%nat.
Proof.
  induction chs as [|[off v] chs IH]; intros x; cbn [within]; [done|]. intros [Ho Hw]. pose proof (length_overwrite x off v Ho) as Hl.
  rewrite <- Hl in Hw. specialize (IH _ Hw). change (overwrite_all x ((off, v) :: chs)) with (overwrite_all (overwrite x off v) chs). lia.
Qed.

(** The length that the first loop finds. *)
Lemma part_size chs : forall it vl cut x, part_list chs it -> within (length x) chs -> 0 <= vl <= len x -> len (overwrite_all x chs) < 2 ^ 31 ->
  exists vl', update_size it vl cut = Ok (vl', cut) /\ Z.max vl' (len x) = len (overwrite_all x chs) /\ vl <= vl'.
Proof.
  induction chs as [|[off v] chs IH]; intros it vl cut x Hp Hw Hvl Hfin; inversion Hp as [|? ? ? u c s it' Hc Hne Hoff Hs Hp']; subst; cbn [within] in *.
  - exists vl. split_and!; [done|cbn; lia|lia].
  - destruct Hw as [Ho Hw]. pose proof (length_overwrite x off v Ho) as Hl. rewrite <- Hl in Hw.
    change (overwrite_all x ((off, v) :: chs)) with (overwrite_all (overwrite x off v) chs) in *. pose proof (length_overwrite_all chs _ Hw) as Hge.
    cbn [update_size]. rewrite Hc, rbind_Ok, Hs, rbind_Ok, (proj2 (Z.eqb_neq _ _)), Hoff by done. cbn zeta. unfold Word.addw.
    rewrite Word.wrap_small by (split; lia). destruct (IH it' (Z.max vl (Z.of_nat off + len v)) cut (overwrite x off v) Hp' Hw) as (vl' & -> & Hmax & Hle); [lia|done|].
    exists vl'. split_and!; [done|lia|lia].
Qed.

Lemma mem_write_overwrite off v x R : (off <= length x)%nat -> (off + length v <= length (x ++ R))%nat ->
  mem_write (Z.of_nat off) v (x ++ R) = Ok (overwrite x off v ++ drop (off + length v - length x) R).
Proof.
  intros Ho Hl. unfold mem_write. rewrite (proj2 (Z.leb_le 0 _)), (proj2 (Z.leb_le (_ + _) _)), Nat2Z.id by lia. cbn [andb]. f_equal. unfold overwrite.
  rewrite take_app, (proj2 (Nat.sub_0_le off (length x))), take_0, app_nil_r by lia. rewrite drop_app, <- !app_assoc. done.
Qed.

Lemma part_write chs : forall it x R, part_list chs it -> within (length x) chs -> (length (overwrite_all x chs) <= length (x ++ R))%nat ->
  exists R', update_write it (x ++ R) = Ok (overwrite_all x chs ++ R') /\ length (overwrite_all x chs ++ R') = length (x ++ R).
Proof.
  induction chs as [|[off v] chs IH]; intros it x R Hp Hw Hl; inversion Hp as [|? ? ? u c s it' Hc Hne Hoff Hs Hp']; subst; cbn [within] in *.
  - by exists R.
  - destruct Hw as [Ho Hw]. pose proof (length_overwrite x off v Ho) as Hx. rewrite <- Hx in Hw.
    change (overwrite_all x ((off, v) :: chs)) with (overwrite_all (overwrite x off v) chs) in *. pose proof (length_overwrite_all chs _ Hw) as Hge.
    cbn [update_write]. rewrite Hs, rbind_Ok, Hc, rbind_Ok, Hoff, mem_write_overwrite, rbind_Ok by lia.
    rewrite length_app in Hl. destruct (IH it' (overwrite x off v) (drop (off + length v - length x) R) Hp' Hw) as (R' & -> & HR').
    + rewrite length_app, length_drop. lia.
    + exists R'. split; [done|]. rewrite HR', !length_app, length_drop. lia.
Qed.

Lemma read_held v tail : mem_read 0 (len v) (v ++ tail) = Ok v.
Proof. by apply (mem_read_app [] v tail). Qed.

Lemma length_allocate fresh n : (forall n, length (fresh n) = n) -> 0 <= n -> length (allocate fresh (shallow_size n)) = (Z.to_nat n + 4)%nat.
Proof. intros H Hn. unfold allocate, shallow_size, sizeof, s_offset. rewrite H. lia. Qed.

(** Writing in front of what is allocated. *)
Lemma write_front v m : (length v <= length m)%nat -> mem_write 0 v m = Ok (v ++ drop (length v) m).
Proof.
  intros H. rewrite <- (take_drop (length v) m) at 1. apply (mem_write_app [] (take (length v) m) (drop (length v) m) v 0); [done|].
  by rewrite length_take_le.
Qed.

(** Changes of parts, none of which begins behind the end of the value, give a
    row of the value with the parts written over it, one after the other; the copy
    and the writes stay inside the memory, and the padding is kept out of the value. *)
Lemma string_update fresh r x chs it t : (forall n, length (fresh n) = n) -> holds r x -> part_list chs it -> within (length x) chs ->
  len (overwrite_all x chs) < 2 ^ 31 ->
  exists r', update fresh r it t = Ok r' /\ holds r' (overwrite_all x chs) /\ ts r' = t /\ col 0 r' = Ok (overwrite_all x chs).
Proof.
  intros Hfresh (Hv & Hlx & tail & Hs & Ht) Hp Hw Hfin. unfold update. rewrite Hv, Hs.
  destruct (part_size chs it 0 (len x) x Hp Hw ltac:(lia) Hfin) as (vl & -> & Hmax & _). rewrite rbind_Ok. cbn zeta. rewrite Hmax, read_held, rbind_Ok.
  pose proof (length_overwrite_all chs x Hw) as Hge. pose proof (length_allocate fresh (len (overwrite_all x chs)) Hfresh ltac:(lia)) as Hm. rewrite Nat2Z.id in Hm.
  rewrite write_front, rbind_Ok by lia. destruct (part_write chs it x (drop (length x) (allocate fresh (shallow_size (len (overwrite_all x chs))))) Hp Hw) as (R & -> & HR).
  { rewrite length_app, length_drop. lia. }
  rewrite rbind_Ok. eexists. split; [done|]. rewrite !length_app, length_drop in HR. split_and!; [|done|apply read_held].
  split_and!; [done|done|]. exists R. split; [done|]. unfold sizeof, s_offset. lia.
Qed.

(** The example: the value abcd with xy at 1 and z at 4. *)
Definition abcd : row := Row 3 4 [97; 98; 99; 100; 0; 0; 0; 0].
Definition abcd_parts : list Json := [JUnsigned (make_index 1 2); JString [120; 121]; JUnsigned (make_index 4 1); JString [122]].

(** Replacing the whole value (index 0) copies as many bytes of the old value
    as the new one has before it overwrites them: when the new value fits the old
    one's allocation the result is the new value, and when it is longer the copy
    reads outside of it. *)
Lemma string_update_whole fresh r x c v t : (forall n, length (fresh n) = n) -> holds r x -> as_u c = Ok 0 -> len v < 2 ^ 31 ->
  if len v <=? len x + 4 then exists r', update fresh r [c; JString v] t = Ok r' /\ holds r' v /\ ts r' = t
  else update fresh r [c; JString v] t = Fault OutOfBounds.
Proof.
  intros Hfresh (Hv & Hlx & tail & Hs & Ht) Hc Hlv. unfold update, update_size, update_write. rewrite Hc, rbind_Ok. cbn [as_s]. rewrite !rbind_Ok.
  change (Word.wrap 32 0) with 0. change (index_offset 0) with 0. cbn [Z.eqb]. unfold Word.addw. rewrite Z.add_0_l, Word.wrap_small by first [lia | split; lia]. rewrite (Z.max_r 0), Z.max_id by lia.
  rewrite Hs. unfold sizeof, s_offset in *. unfold mem_read at 1. rewrite length_app, !(proj2 (Z.leb_le 0 _)) by lia. cbn [andb].
  destruct (Z.leb_spec (len v) (len x + 4)) as [Hle|Hgt].
  - rewrite (proj2 (Z.leb_le _ _)), rbind_Ok, Nat2Z.id, drop_0 by lia. pose proof (length_allocate fresh (len v) Hfresh ltac:(lia)) as Hm. rewrite Nat2Z.id in Hm.
    set (kept := take (length v) (x ++ tail)). assert (length kept = length v) as Hk by (unfold kept; rewrite length_take_le; rewrite ?length_app; lia).
    rewrite write_front, !rbind_Ok by lia. change (index_offset (Word.wrap 32 0)) with 0. rewrite write_front, !rbind_Ok by (rewrite length_app, length_drop; lia).
    eexists. split; [done|]. split; [|done]. split_and!; [done|done|]. eexists. split; [done|]. rewrite <- Hk at 1. rewrite drop_app_length, length_drop. unfold sizeof, s_offset. lia.
  - unfold mem_read. rewrite length_app, !(proj2 (Z.leb_le 0 _)) by lia. cbn [andb]. by rewrite (proj2 (Z.leb_gt _ _)) by lia.
Qed.

(** ** Indices of parts *)

Lemma make_index_parts off n : 0 <= off < 2 ^ 16 -> 0 <= n < 2 ^ 16 -> index_offset (make_index off n) = off /\ index_length (make_index off n) = n.
Proof.
  intros Ho Hn. assert (make_index off n = off + n * 2 ^ 16) as ->.
  { unfold make_index, Word.addw. rewrite Z.shiftl_mul_pow2 by lia. rewrite (Word.wrap_small 32 (n * 2 ^ 16)), Word.wrap_small by (split; lia). done. }
  unfold index_offset, index_length. change 0xFFFF with (Z.ones 16). rewrite Z.land_ones, Z.shiftr_div_pow2, Z.mod_add, Z.div_add, Z.mod_small, Z.div_small by lia. lia.
Qed.

(** A part that has been written reads as what was written. *)
Lemma read_part r x off v : holds r (overwrite x off v) -> (off <= length x)%nat -> Z.of_nat off < 2 ^ 16 -> 0 < len v < 2 ^ 16 ->
  col (make_index (Z.of_nat off) (len v)) r = Ok v.
Proof.
  intros (Hv & Hl & tail & Hs & _) Ho Hof Hlv. destruct (make_index_parts (Z.of_nat off) (len v)) as [Hio Hil]; [lia..|].
  unfold col. rewrite (proj2 (Z.eqb_neq _ _)) by (intros H; rewrite H in Hil; change (index_length 0) with 0 in Hil; lia). cbn zeta. rewrite Hio, Hil, Hv, Hs.
  rewrite length_overwrite in * by done. rewrite Z.min_r by lia. unfold Word.subw. rewrite Word.wrap_small, Z.min_r by first [lia | split; lia].
  unfold overwrite. rewrite <- !app_assoc. apply mem_read_app; [|done]. rewrite length_take. lia.
Qed.

(** ** New rows and checkpoints *)

Lemma empty_holds : holds empty [].
Proof. split; [done|]. split; [done|]. by exists (replicate 4 0). Qed.

Lemma create1_holds fresh v t : (forall n, length (fresh n) = n) -> len v < 2 ^ 31 -> exists r, create1 fresh v t = Ok r /\ holds r v /\ ts r = t.
Proof.
  intros Hfresh Hv. unfold create1. pose proof (length_allocate fresh (len v) Hfresh ltac:(lia)) as Hm. rewrite Nat2Z.id in Hm.
  rewrite write_front, rbind_Ok by lia. eexists. split; [done|]. split; [|done]. split_and!; [done|done|]. eexists. split; [done|].
  rewrite length_drop. unfold sizeof, s_offset. lia.
Qed.

Lemma string_checkpoint fresh r v rest t : (forall n, length (fresh n) = n) -> holds r v ->
  exists par r', checkpoint_write r = Ok par /\ checkpoint_read fresh (par ++ rest) t = Ok (r', rest) /\ holds r' v /\ ts r' = t.
Proof.
  intros Hfresh (Hv & Hl & tail & Hs & _). unfold checkpoint_write. rewrite Hv, Hs, read_held, rbind_Ok.
  destruct (create1_holds fresh v t Hfresh Hl) as (r' & Hc & Hr). eexists _, r'. split; [done|]. unfold checkpoint_read.
  rewrite read_str_write, rbind_Ok by (unfold int_length; lia). cbn [fst snd]. by rewrite Hc, rbind_Ok.
Qed.
