(* ===== verification/RowHeap.v ===== *)
(** * The memory of rows made of several objects (value_array.hh, kvthread.hh)

    Rows of type [value_array] and [value_versioned_array] point to their columns,
    each an [inline_string] of its own.  The heap maps addresses to objects with
    the size they were allocated with; [limbo] lists what [deallocate_rcu] has
    retired: it stays readable and is freed by the reclamation (files Limbo and
    Epochs).  Freeing or retiring an object twice, after it is freed or with
    another size is a fault. *)

From S2P Require Export ValueBagFacts.
From stdpp Require Export gmap fin_sets.

#[local] Open Scope Z_scope.
#[local] Open Scope lhm_scope.

Abbreviation loc := positive.

Section heap.
(** The type of the rows. *)
Context {R : Type}.

Inductive object :=
  | Column (s : bytes)   (* [inline_string] *)
  | Row (r : R).

Record threadinfo := Threadinfo {
  heap : gmap loc (Z * object);
  limbo : list loc;
}.
#[local] Abbreviation M := (sm threadinfo).

(** [allocate(sz, memtag_value)], and what is written to the memory first. *)
Definition allocate (sz : Z) (o : object) : M loc := fun ti =>
  let l := fresh (dom (heap ti)) in
  Ok (l, Threadinfo (<[l := (sz, o)]> (heap ti)) (limbo ti)).

Definition load (l : loc) : M object := fun ti =>
  match heap ti !! l with Some (_, o) => Ok (o, ti) | None => Fault OutOfBounds end.
Definition load_row (l : loc) : M R :=
  let* o := load l in match o with Row r => mret r | Column _ => fail WrongKind end.
Definition load_column (l : loc) : M bytes :=
  let* o := load l in match o with Column s => mret s | Row _ => fail WrongKind end.
Definition store_row (l : loc) (r : R) : M unit := fun ti =>
  match heap ti !! l with
  | Some (sz, Row _) => Ok (tt, Threadinfo (<[l := (sz, Row r)]> (heap ti)) (limbo ti))
  | Some (_, Column _) => Fault WrongKind
  | None => Fault OutOfBounds
  end.

Definition deallocate (l : loc) (sz : Z) : M unit := fun ti =>
  match heap ti !! l with
  | Some (sz', _) => if (sz =? sz') && negb (bool_decide (l ∈ limbo ti)) then Ok (tt, Threadinfo (delete l (heap ti)) (limbo ti)) else Fault AssertFailed
  | None => Fault OutOfBounds
  end.
Definition deallocate_rcu (l : loc) (sz : Z) : M unit := fun ti =>
  match heap ti !! l with
  | Some (sz', _) => if (sz =? sz') && negb (bool_decide (l ∈ limbo ti)) then Ok (tt, Threadinfo (heap ti) (l :: limbo ti)) else Fault AssertFailed
  | None => Fault OutOfBounds
  end.

(** ** Columns *)

(** [inline_string::size(len)]. *)
Definition inline_string_size (len : Z) : Z := 4 + len.

Definition make_column (str : bytes) : M (option loc) :=
  match str with
  | [] => mret None
  | _ => let* l := allocate (inline_string_size (Z.of_nat (length str))) (Column str) in mret (Some l)
  end.
Definition deallocate_column (col : option loc) : M unit :=
  match col with
  | Some l => let* s := load_column l in deallocate l (inline_string_size (Z.of_nat (length s)))
  | None => mret tt
  end.
Definition deallocate_column_rcu (col : option loc) : M unit :=
  match col with
  | Some l => let* s := load_column l in deallocate_rcu l (inline_string_size (Z.of_nat (length s)))
  | None => mret tt
  end.

(** ** What a column pointer holds *)

Definition column_at (h : gmap loc (Z * object)) (p : option loc) (c : bytes) : Prop :=
  match p with
  | None => c = []
  | Some l => c <> [] /\ h !! l = Some (inline_string_size (Z.of_nat (length c)), Column c)
  end.


(** ** Lemmas *)

Lemma fresh_not_in (h : gmap loc (Z * object)) : h !! fresh (dom h) = None.
Proof. apply not_elem_of_dom, is_fresh. Qed.

Lemma column_at_mono h h' p c : h ⊆ h' -> column_at h p c -> column_at h' p c.
Proof. intros Hsub. destruct p as [l|]; [|done]. intros [Hc Hl]. split; [done|]. by eapply lookup_weaken. Qed.

Lemma column_at_some h l c : column_at h (Some l) c -> is_Some (h !! l).
Proof. intros [_ ->]. by eexists. Qed.

(** [make_column]: the heap grows by the column, if there is one. *)
Lemma make_column_ok s h lim : exists p h', make_column s (Threadinfo h lim) = Ok (p, Threadinfo h' lim) /\ column_at h' p s /\
  h ⊆ h' /\ (forall q, is_Some (h' !! q) <-> is_Some (h !! q) \/ p = Some q) /\ (forall q, p = Some q -> h !! q = None).
Proof.
  destruct s as [|b s]; cbn [make_column].
  - exists None, h. split_and!; try done. naive_solver.
  - set (s' := b :: s). exists (Some (fresh (dom h))). eexists. split; [reflexivity|]. pose proof (fresh_not_in h) as Hf. cbn [heap]. split_and!.
    + split; [done|]. by rewrite lookup_insert_eq.
    + by apply insert_subseteq.
    + intros q. rewrite lookup_insert_is_Some. destruct (decide (fresh (dom h) = q)); naive_solver.
    + by intros q [= <-].
Qed.

Lemma deallocate_column_rcu_ok h lim l c : column_at h (Some l) c -> l ∉ lim ->
  deallocate_column_rcu (Some l) (Threadinfo h lim) = Ok (tt, Threadinfo h (l :: lim)).
Proof.
  intros [_ Hl] Hlim. cbn [deallocate_column_rcu]. unfold load_column, load, deallocate_rcu, sbind, sm_bind. cbn [heap limbo]. rewrite Hl. cbn.
  by rewrite Hl, Z.eqb_refl, bool_decide_eq_false_2.
Qed.
End heap.
Arguments object R : clear implicits.
Arguments threadinfo R : clear implicits.

(** The addresses of columns. *)
Definition locs (ps : list (option loc)) : list loc := omap (fun p => p) ps.
