(* ===== verification/ValueArray.v ===== *)
(** * Rows as arrays of columns (value_array.hh, value_array.cc)

    [value_array]: a row of pointers to its columns; an update makes a new row,
    which shares the columns that did not change with the old one. *)

From S2P Require Export RowHeap.

#[local] Open Scope Z_scope.
#[local] Open Scope lhm_scope.

Module value_array.
(** [cols] is the memory behind the structure, [ncol] a [short]. *)
Record row := Array { ts : Z; ncol : Z; cols : list (option loc) }.
Abbreviation M := (sm (threadinfo row)).

Definition empty : row := Array 0 0 [].

(** [sizeof(value_array)]: 16; a column pointer takes 8 bytes. *)
Definition shallow_size (ncol : Z) : Z := 16 + 8 * ncol.

(** [cols_[i]], read and written. *)
Definition get_col (i : Z) (r : row) : res (option loc) := aget (cols r) i.
Definition set_col (l : loc) (i : Z) (p : option loc) : M unit :=
  let* r := load_row l in
  let* ps := lift (aset (cols r) i p) in
  store_row l (Array (ts r) (ncol r) ps).

(** [col(i)]: no such column and a null one have an empty string. *)
Definition col (i : Z) (r : row) : M bytes :=
  if Word.wrap 32 i <? Word.wrap 32 (ncol r) then
    let* p := lift (get_col i r) in
    match p with Some l => load_column l | None => mret [] end
  else mret [].

(** [last[-2]]: the column of the last change. *)
Definition last_column (changes : list Json) : res Json :=
  match rev changes with _ :: c :: _ => Ok c | _ => Fault OutOfBounds end.

Fixpoint update_columns (l : loc) (it : list Json) : M unit :=
  match it with
  | [] => mret tt
  | c :: v :: it =>
    let* s := lift (as_s v) in
    let* p := make_column s in
    let* u := lift (as_u c) in
    let* _ := set_col l u p in
    update_columns l it
  | _ => fail OutOfBounds
  end.

Definition update (this : row) (changes : list Json) (t : Z) : M loc :=
  let* _ := check (ts this <=? t) in
  let* c := lift (last_column changes) in
  let* i := lift (as_i c) in
  let n := Word.wrap 32 (Z.max (ncol this) (Word.signed 32 (Word.signed 32 i + 1))) in
  let copied := take (Z.to_nat (ncol this)) (cols this) in
  let* row := allocate (shallow_size n) (Row (Array t (Word.signed 16 n) (copied ++ replicate (Z.to_nat (n - ncol this)) None))) in
  let* _ := update_columns row changes in
  mret row.

Definition create (changes : list Json) (t : Z) : M loc := update empty changes t.

Definition create1 (value : bytes) (t : Z) : M loc :=
  let* row := allocate (shallow_size 1) (Row (Array t 1 [None])) in
  let* p := make_column value in
  let* _ := set_col row 0 p in
  mret row.

(** ** Freeing *)

(** [for (short i = 0; i < ncol_; ++i)] over the columns, then the row. *)
Fixpoint each_column (f : option loc -> M unit) (k : nat) (i : Z) (r : row) : M unit :=
  match k with
  | O => mret tt
  | S k => let* p := lift (get_col i r) in let* _ := f p in each_column f k (i + 1) r
  end.

Definition deallocate (l : loc) : M unit :=
  let* r := load_row l in
  let* _ := each_column deallocate_column (Z.to_nat (ncol r)) 0 r in
  RowHeap.deallocate l (shallow_size (ncol r)).
Definition deallocate_rcu (l : loc) : M unit :=
  let* r := load_row l in
  let* _ := each_column deallocate_column_rcu (Z.to_nat (ncol r)) 0 r in
  RowHeap.deallocate_rcu l (shallow_size (ncol r)).

Fixpoint retire_changed (r : row) (it : list Json) : M unit :=
  match it with
  | [] => mret tt
  | c :: _ :: it =>
    let* u := lift (as_u c) in
    if u <? Word.wrap 32 (ncol r) then
      let* p := lift (get_col u r) in
      let* _ := deallocate_column_rcu p in
      retire_changed r it
    else mret tt
  | _ => fail OutOfBounds
  end.
Definition deallocate_rcu_after_update (l : loc) (changes : list Json) : M unit :=
  let* r := load_row l in
  let* _ := retire_changed r changes in
  RowHeap.deallocate_rcu l (shallow_size (ncol r)).

Fixpoint free_changed (r : row) (it : list Json) : M unit :=
  match it with
  | [] => mret tt
  | c :: _ :: it =>
    let* u := lift (as_u c) in
    let* p := lift (get_col u r) in
    let* _ := deallocate_column p in
    free_changed r it
  | _ => fail OutOfBounds
  end.
Definition deallocate_after_failed_update (l : loc) (changes : list Json) : M unit :=
  let* r := load_row l in
  let* _ := free_changed r changes in
  RowHeap.deallocate l (shallow_size (ncol r)).

(** ** Checkpoints *)

Definition make_sized_row (n t : Z) : M loc := allocate (shallow_size n) (Row (Array t (Word.signed 16 n) (replicate (Z.to_nat n) None))).

Fixpoint write_columns (k : nat) (i : Z) (r : row) : M bytes :=
  match k with
  | O => mret []
  | S k =>
    let* c := col i r in
    let* rest := write_columns k (i + 1) r in
    mret (format.write_string c ++ rest)
  end.
Definition checkpoint_write (l : loc) : M bytes :=
  let* r := load_row l in
  let* cs := write_columns (Z.to_nat (ncol r)) 0 r in
  mret (format.write_array_header (ncol r) ++ cs).

Fixpoint read_columns (row : loc) (k : nat) (i : Z) (par : bytes) : M bytes :=
  match k with
  | O => mret par
  | S k =>
    let* (c, par) := lift (read_str par) in
    let* _ := match c with [] => mret tt | _ => let* p := make_column c in set_col row i p end in
    read_columns row k (i + 1) par
  end.
Definition checkpoint_read (par : bytes) (t : Z) : M (loc * bytes) :=
  let* (n, par) := lift (read_array_header par) in
  let* row := make_sized_row n t in
  let* par := read_columns row (Z.to_nat n) 0 par in
  mret (row, par).
End value_array.
