(* ===== verification/ValueArrayFacts.v ===== *)
(** * Rows as arrays: updates and their memory

    An update followed by the retirement of what it replaces: the new row has the
    changed columns and shares the others, nothing is lost and nothing is retired
    twice, and the old row stays as it was for its readers. *)

From S2P Require Export ValueArray.

#[local] Open Scope Z_scope.
#[local] Open Scope lhm_scope.

(** ** Lists of column pointers *)

Lemma elem_of_locs ps l : l ∈ locs ps <-> Some l ∈ ps.
Proof. unfold locs. rewrite list_elem_of_omap. split; [by intros (x & Hx & ->)|by exists (Some l)]. Qed.

Lemma locs_app a b : locs (a ++ b) = locs a ++ locs b.
Proof. apply omap_app. Qed.

Lemma locs_cons p a : locs (p :: a) = option_list p ++ locs a.
Proof. by destruct p. Qed.

Lemma elem_of_option_list (p : option loc) l : l ∈ option_list p <-> p = Some l.
Proof. destruct p; cbn; [rewrite list_elem_of_singleton; naive_solver|set_solver]. Qed.

#[local] Instance set_unfold_option_list (p : option loc) l : SetUnfoldElemOf l (option_list p) (p = Some l).
Proof. constructor. apply elem_of_option_list. Qed.

Lemma NoDup_option_list (p : option loc) : NoDup (option_list p).
Proof. destruct p; cbn; repeat constructor. set_solver. Qed.

(** Replacing a pointer: the addresses afterwards. *)
Lemma locs_insert ps i q p : ps !! i = Some q -> NoDup (locs ps) -> (forall l, p = Some l -> l ∉ locs ps) ->
  NoDup (locs (<[i := p]> ps)) /\ (forall l, l ∈ locs (<[i := p]> ps) <-> p = Some l \/ l ∈ locs ps /\ q <> Some l).
Proof.
  intros Hq Hnd Hp. pose proof (lookup_lt_Some _ _ _ Hq) as Hi. pose proof (take_drop_middle _ _ _ Hq) as Hps.
  rewrite (insert_take_drop ps i p Hi). set (a := take i ps) in *. set (b := drop (S i) ps) in *. clearbody a b. subst ps. clear Hq Hi.
  rewrite !locs_app, !locs_cons in *. rewrite !NoDup_app in *. destruct Hnd as (Ha & Hab & _ & Hqb & Hb).
  pose proof (NoDup_option_list p). set_unfold. split; [split_and!; try done|]; naive_solver.
Qed.

Lemma elem_of_rev (l : list loc) q : q ∈ rev l <-> q ∈ l.
Proof. by rewrite !list_elem_of_In, <- in_rev. Qed.

Lemma NoDup_rev_list (l : list loc) : NoDup l -> NoDup (rev l).
Proof. rewrite !NoDup_ListNoDup. apply NoDup_rev. Qed.

Lemma locs_inj ps i j l : NoDup (locs ps) -> ps !! i = Some (Some l) -> ps !! j = Some (Some l) -> i = j.
Proof.
  revert i j. induction ps as [|p ps IH]; intros i j; [done|]. rewrite locs_cons, NoDup_app. intros (_ & Hd & Hnd).
  destruct i as [|i], j as [|j]; cbn; [done| | |intros; f_equal; by apply IH].
  - intros [= ->] Hj. destruct (Hd l); [set_solver|]. apply elem_of_locs. by eapply list_elem_of_lookup_2.
  - intros Hi [= ->]. destruct (Hd l); [set_solver|]. apply elem_of_locs. by eapply list_elem_of_lookup_2.
Qed.

(** ** The columns that changes replace *)

Definition replaced (ps : list (option loc)) (chs : list (nat * bytes)) : list loc := omap (fun ch => mjoin (ps !! (fst ch))) chs.

Lemma replaced_cons ps i v chs : replaced ps ((i, v) :: chs) = option_list (mjoin (ps !! i)) ++ replaced ps chs.
Proof. unfold replaced. cbn. by destruct (mjoin (ps !! i)). Qed.

Lemma replaced_insert ps i p col chs : ordered col chs -> (i < col)%nat -> replaced (<[i := p]> ps) chs = replaced ps chs.
Proof.
  revert col. induction chs as [|[j v] chs IH]; intros col; [done|]. cbn [ordered]. intros (Hj & _ & Ho) Hi.
  rewrite !replaced_cons, list_lookup_insert_ne by lia. f_equal. apply (IH (S j)); [done|lia].
Qed.

Lemma elem_of_replaced ps chs q : q ∈ replaced ps chs <-> exists i v, (i, v) ∈ chs /\ ps !! i = Some (Some q).
Proof.
  unfold replaced. rewrite list_elem_of_omap. split.
  - intros ([i v] & Hin & H). exists i, v. split; [done|]. cbn in H. by destruct (ps !! i) as [[p|]|]; naive_solver.
  - intros (i & v & Hin & H). exists (i, v). split; [done|]. cbn. by rewrite H.
Qed.

Lemma replaced_locs ps chs q : q ∈ replaced ps chs -> q ∈ locs ps.
Proof. rewrite elem_of_replaced, elem_of_locs. intros (i & v & _ & H). by eapply list_elem_of_lookup_2. Qed.

Lemma ordered_ge col chs i v : ordered col chs -> (i, v) ∈ chs -> (col <= i)%nat.
Proof.
  revert col. induction chs as [|[j x] chs IH]; intros col; cbn [ordered]; [set_solver|]. intros (Hj & _ & Ho) [[= -> ->]|Hin]%elem_of_cons; [done|].
  apply (IH (S j)) in Hin; [lia|done].
Qed.

Lemma replaced_NoDup ps chs col : NoDup (locs ps) -> ordered col chs -> NoDup (replaced ps chs).
Proof.
  intros Hnd. revert col. induction chs as [|[i v] chs IH]; intros col; [constructor|]. cbn [ordered]. intros (Hi & _ & Ho).
  rewrite replaced_cons, NoDup_app. split_and!; [apply NoDup_option_list| |by apply (IH (S i))].
  intros q Hq Hr. apply elem_of_option_list in Hq. destruct (ps !! i) as [[p|]|] eqn:E; cbn in Hq; try done. injection Hq as ->.
  apply elem_of_replaced in Hr as (j & x & Hj & Hps). pose proof (locs_inj _ _ _ _ Hnd E Hps) as <-. apply (ordered_ge (S i)) in Hj; [lia|done].
Qed.

(** ** Padding *)

Lemma length_padded cols n : length (pad cols n) = max (length cols) n.
Proof. unfold pad. rewrite length_app, length_replicate. lia. Qed.

Lemma pad_ge cols n : (n <= length cols)%nat -> pad cols n = cols.
Proof. intros H. unfold pad. replace (n - length cols)%nat with 0%nat by lia. by rewrite app_nil_r. Qed.

Lemma pad_pad cols a b : pad (pad cols a) b = pad cols (max a b).
Proof. unfold pad. rewrite <- app_assoc, <- replicate_add, length_app, length_replicate. do 2 f_equal. lia. Qed.

Lemma apply_changes_pad chs : forall cols n, apply_changes (pad cols n) chs = pad (apply_changes cols chs) n.
Proof.
  induction chs as [|[i v] chs IH]; intros cols n; cbn [apply_changes]; [done|]. rewrite <- IH. f_equal.
  rewrite pad_pad, (Nat.max_comm n), <- pad_pad. unfold pad at 1 3. rewrite length_insert. rewrite insert_app_l; [done|]. rewrite length_padded. lia.
Qed.

(** The length after changes, and the last of them. *)
Lemma last_change chs : forall i v cols it col, change_list ((i, v) :: chs) it -> ordered col ((i, v) :: chs) ->
  exists c j, value_array.last_column it = Ok c /\ as_u c = Ok (Z.of_nat j) /\ Z.of_nat j < 2 ^ 31 - 1 /\ (i <= j)%nat /\
    length (apply_changes cols ((i, v) :: chs)) = max (length cols) (S j).
Proof.
  induction chs as [|[i' v'] chs IH]; intros i v cols it col Hch Hord; inversion Hch as [|? ? ? c s it' Hc Hs Hch']; subst; destruct Hord as (Hi & Hi' & Hord).
  - inversion Hch'; subst. exists c, i. split_and!; [done..|]. cbn [apply_changes]. by rewrite length_insert, length_padded.
  - destruct (IH i' v' (<[i := v]> (pad cols (S i))) it' (S i) Hch' Hord) as (c' & j & Hl & Hu & Hj & Hle & Hlen). destruct Hord as [Hii _]. exists c', j. split_and!; [|done..|lia|].
    + unfold value_array.last_column in *. cbn [rev]. rewrite <- app_assoc. destruct (rev it') as [|x [|y z]]; done.
    + change (apply_changes cols ((i, v) :: (i', v') :: chs)) with (apply_changes (<[i := v]> (pad cols (S i))) ((i', v') :: chs)).
      rewrite Hlen, length_insert, length_padded. lia.
Qed.

(** An index that an unsigned read accepts is the same one read as [int]. *)
Lemma as_i_index c j : as_u c = Ok (Z.of_nat j) -> Z.of_nat j < 2 ^ 31 - 1 -> exists x, as_i c = Ok x /\ Word.signed 32 x = Z.of_nat j.
Proof.
  intros Hu Hj. assert (forall x, x mod 2 ^ 32 = Z.of_nat j -> Word.signed 32 x = Z.of_nat j) as Hs.
  { intros x Hx. unfold Word.signed, Word.wrap. cbn zeta. rewrite Hx, (proj2 (Z.ltb_lt _ _)) by lia. done. }
  assert (Z.of_nat j mod 2 ^ 32 = Z.of_nat j) as Hm by (apply Z.mod_small; lia).
  destruct c as [| |x|x|x|x|x|x]; try discriminate; cbn [as_u as_i] in *.
  all: try (injection Hu as Hu).
  - exists x. split; [done|]. apply Hs. unfold Word.wrap in Hu. rewrite <- Hm, <- Hu. symmetry. apply Z.mod_mod_divide. by exists (2 ^ 32).
  - subst. eexists. split; [done|]. apply Hs. unfold Word.signed. cbn zeta. rewrite Word.wrap_small, (proj2 (Z.ltb_lt _ _)) by (first [lia | split; lia]). done.
  - destruct (double_trunc x) as [v|]; [|done]. destruct ((0 <=? v) && (v <? 2 ^ 64)); [|done]. injection Hu as ->. eexists.
    rewrite (proj2 (Z.leb_le _ _)), (proj2 (Z.ltb_lt _ _)) by lia. by split; [|apply Hs].
Qed.

(** ** The new columns *)

Section columns.
Import value_array.

Lemma load_row_at h lim l sz (r : row) : h !! l = Some (sz, Row r) -> load_row l (Threadinfo h lim) = Ok (r, Threadinfo h lim).
Proof. intros H. unfold load_row, load, sbind, sm_bind. cbn. by rewrite H. Qed.

Lemma set_col_at h lim l sz t n ps i p : (i < length ps)%nat ->
  set_col l (Z.of_nat i) p (Threadinfo (<[l := (sz, Row (Array t n ps))]> h) lim) = Ok (tt, Threadinfo (<[l := (sz, Row (Array t n (<[i := p]> ps)))]> h) lim).
Proof.
  intros Hi. unfold set_col. rewrite (sbind_run _ _ _ _ _ (load_row_at _ _ _ sz _ (lookup_insert_eq _ _ _))). cbn [cols ts ncol].
  unfold aset. rewrite (proj2 (Z.leb_le 0 _)), (proj2 (Z.ltb_lt _ _)), Nat2Z.id by lia. unfold sbind, sm_bind, lift, store_row. cbn [heap limbo andb].
  by rewrite lookup_insert_eq, insert_insert_eq.
Qed.

(** A column made while the row at [l] is being filled. *)
Lemma make_column_beside s h lim l (x : Z * object row) : h !! l = None ->
  exists p h', make_column s (Threadinfo (<[l := x]> h) lim) = Ok (p, Threadinfo (<[l := x]> h') lim) /\ column_at h' p s /\ h ⊆ h' /\ h' !! l = None /\
    (forall q, is_Some (h' !! q) <-> is_Some (h !! q) \/ p = Some q) /\ (forall q, p = Some q -> h !! q = None).
Proof.
  intros Hl. destruct (make_column_ok s (<[l := x]> h) lim) as (p & h0 & Hmk & Hp & Hsub & Hdom & Hnew).
  assert (h0 !! l = Some x) as Hx by (eapply lookup_weaken; [apply lookup_insert_eq|done]).
  assert (forall q, p = Some q -> q <> l) as Hne by (intros q Hq ->; apply Hnew in Hq; by rewrite lookup_insert_eq in Hq).
  exists p, (delete l h0). rewrite insert_delete_id by done. split; [done|]. split_and!.
  - destruct p as [q|]; [|done]. destruct Hp as [Hs Hq]. split; [done|]. rewrite lookup_delete_ne; [done|]. intros ->. by eapply Hne.
  - apply map_subseteq_spec. intros q y Hq. assert (q <> l) by congruence. rewrite lookup_delete_ne by done.
    eapply lookup_weaken; [|done]. by rewrite lookup_insert_ne.
  - apply lookup_delete_eq.
  - intros q. destruct (decide (q = l)) as [->|Hq].
    + rewrite lookup_delete_eq, Hl. split; [by intros [? ?]|]. intros [[? ?]|Hq]; [done|]. by apply Hne in Hq.
    + rewrite lookup_delete_ne, Hdom, lookup_insert_ne by done. done.
  - intros q Hq. pose proof (Hne q Hq). apply Hnew in Hq. by rewrite lookup_insert_ne in Hq.
Qed.

Lemma Forall2_column_mono h h' ps cs : h ⊆ h' -> Forall2 (column_at (R := row) h) ps cs -> Forall2 (column_at h') ps cs.
Proof. intros Hs. intros H. eapply Forall2_impl; [exact H|]. intros p c. by apply column_at_mono. Qed.

Lemma locs_in_heap h ps cs q : Forall2 (column_at (R := row) h) ps cs -> q ∈ locs ps -> is_Some (h !! q).
Proof.
  intros Hat [i Hi]%elem_of_locs%list_elem_of_lookup_1. destruct (Forall2_lookup_l _ _ _ _ _ Hat Hi) as (c & _ & Hc). by eapply column_at_some.
Qed.

(** The columns of the changes are allocated and stored: the new row has the
    changed columns, the addresses it gains are new, those it loses are the
    replaced ones. *)
Lemma update_columns_ok l sz t n chs : forall it col ps cs h lim,
  change_list chs it -> ordered col chs -> Forall (fun ch => fst ch < length ps)%nat chs -> Forall2 (column_at h) ps cs -> h !! l = None -> NoDup (locs ps) ->
  exists h' ps', update_columns l it (Threadinfo (<[l := (sz, Row (Array t n ps))]> h) lim) = Ok (tt, Threadinfo (<[l := (sz, Row (Array t n ps'))]> h') lim) /\
    h ⊆ h' /\ h' !! l = None /\ Forall2 (column_at h') ps' (apply_changes cs chs) /\ NoDup (locs ps') /\
    (forall q, q ∈ locs ps' <-> is_Some (h' !! q) /\ h !! q = None \/ q ∈ locs ps /\ q ∉ replaced ps chs).
Proof.
  induction chs as [|[i v] chs IH]; intros it col ps cs h lim Hch Hord Hlt Hat Hl Hnd; inversion Hch as [|? ? ? c s it' Hc Hs Hch']; subst; cbn [update_columns].
  - exists h, ps. split_and!; try done. intros q. unfold replaced. cbn. split; [intros; right; set_solver|]. intros [[[x Hx] Hn]|[? _]]; [congruence|done].
  - destruct Hord as (Hi & Hi' & Hord). apply Forall_cons in Hlt as [Hlt1 Hlt]. cbn [fst] in Hlt1. pose proof (Forall2_length _ _ _ Hat) as Hlen.
    destruct (make_column_beside v h lim l (sz, Row (Array t n ps)) Hl) as (p & h1 & Hmk & Hp & Hsub & Hl1 & Hdom & Hnew).
    rewrite (sbind_run _ _ _ _ _ (lift_run _ _ _ Hs)), (sbind_run _ _ _ _ _ Hmk), (sbind_run _ _ _ _ _ (lift_run _ _ _ Hc)), (sbind_run _ _ _ _ _ (set_col_at _ _ _ _ _ _ _ _ _ Hlt1)).
    destruct (lookup_lt_is_Some_2 ps i Hlt1) as [q0 Hq0].
    destruct (locs_insert ps i q0 p Hq0 Hnd) as [Hnd' Hlocs].
    { intros q Hq Hin. apply Hnew in Hq. apply (locs_in_heap h ps cs) in Hin as [? ?]; [|done]. congruence. }
    destruct (IH it' (S i) (<[i := p]> ps) (<[i := v]> cs) h1 lim) as (h' & ps' & Hrun & Hsub' & Hl' & Hat' & Hnd'' & Hq); try done.
    + by rewrite length_insert.
    + apply Forall2_insert; [|done]. by apply (Forall2_column_mono h).
    + exists h', ps'. split_and!; [done|by transitivity h1|done|cbn [apply_changes]; rewrite pad_ge by lia; done|done|].
      intros q. rewrite Hq, Hlocs, (replaced_insert ps i p (S i)) by (done || lia). rewrite replaced_cons, Hq0, not_elem_of_app, elem_of_option_list. cbn [mjoin option_join].
      assert (q ∈ locs ps -> is_Some (h !! q)) as Hps by (by apply locs_in_heap with cs). pose proof (replaced_locs ps chs q) as Hrep.
      assert (is_Some (h !! q) -> is_Some (h1 !! q)) as H01 by (intros [x Hx]; exists x; by eapply lookup_weaken).
      assert (is_Some (h1 !! q) -> is_Some (h' !! q)) as H1' by (intros [x Hx]; exists x; by eapply lookup_weaken).
      specialize (Hdom q). assert (p = Some q -> ~ is_Some (h !! q)) as Hn by (rewrite <- eq_None_not_Some; apply Hnew). rewrite !eq_None_not_Some.
      clear -Hps Hrep H01 H1' Hdom Hn. destruct (decide (is_Some (h !! q))), (decide (p = Some q)), (decide (q ∈ locs ps)), (decide (q ∈ replaced ps chs)), (decide (q0 = Some q)); tauto.
Qed.

Lemma replaced_beyond ps col chs : ordered col chs -> (length ps <= col)%nat -> replaced ps chs = [].
Proof.
  intros Hord Hl. apply elem_of_nil_inv. intros q (i & v & Hin & Hps)%elem_of_replaced. apply (ordered_ge col) in Hin; [|done].
  apply lookup_lt_Some in Hps. lia.
Qed.

Lemma retire_changed_ok r h cs chs : forall it col lim,
  change_list chs it -> ordered col chs -> ncol r = len (cols r) -> ncol r < 2 ^ 15 -> Forall2 (column_at h) (cols r) cs -> NoDup (locs (cols r)) ->
  (forall q, q ∈ replaced (cols r) chs -> q ∉ lim) ->
  retire_changed r it (Threadinfo h lim) = Ok (tt, Threadinfo h (rev (replaced (cols r) chs) ++ lim)).
Proof.
  induction chs as [|[i v] chs IH]; intros it col lim Hch Hord Hn Hn' Hat Hnd Hlim; inversion Hch as [|? ? ? c s it' Hc Hs Hch']; subst; [done|].
  pose proof (replaced_NoDup _ _ _ Hnd Hord) as Hndr. destruct Hord as (Hi & Hi' & Hord). cbn [retire_changed]. rewrite (sbind_run _ _ _ _ _ (lift_run _ _ _ Hc)).
  rewrite Hn, Word.wrap_small by (split; lia). destruct (Z.ltb_spec (Z.of_nat i) (len (cols r))) as [Hlt|Hge].
  - destruct (lookup_lt_is_Some_2 (cols r) i) as [p Hp]; [lia|]. assert (get_col (Z.of_nat i) r = Ok p) as Hg.
    { unfold get_col, aget. rewrite (proj2 (Z.ltb_ge _ 0)), Nat2Z.id, Hp by lia. done. }
    rewrite (sbind_run _ _ _ _ _ (lift_run _ _ _ Hg)). rewrite replaced_cons, Hp in *. cbn [mjoin option_join] in *. apply NoDup_app in Hndr as (_ & Hd & _).
    assert (deallocate_column_rcu p (Threadinfo h lim) = Ok (tt, Threadinfo h (rev (option_list p) ++ lim))) as Hf.
    { destruct p as [q|]; [|done]. destruct (Forall2_lookup_l _ _ _ _ _ Hat Hp) as (x & _ & Hx). eapply deallocate_column_rcu_ok; [done|]. apply Hlim. set_solver. }
    rewrite (sbind_run _ _ _ _ _ Hf), (IH it' (S i)); try done.
    + by rewrite rev_app_distr, <- app_assoc.
    + intros q Hq. rewrite elem_of_app. intros [Hq'|Hq'].
      * apply (Hd q); [|done]. by destruct p.
      * apply (Hlim q); [set_solver|done].
  - by rewrite (replaced_beyond _ i) by (cbn [ordered]; (done || lia)).
Qed.

(** ** Whole rows *)

(** The row at [l] has the columns [cs]; its memory is its own and not retired. *)
Definition owns (ti : threadinfo row) (l : loc) (t : Z) (cs : list bytes) : Prop :=
  exists ps, heap ti !! l = Some (shallow_size (len cs), Row (Array t (len cs) ps)) /\ len cs < 2 ^ 15 /\
    Forall2 (column_at (heap ti)) ps cs /\ NoDup (locs ps) /\ Forall (fun q => q ∉ limbo ti) (l :: locs ps).

(** The objects of the row at [l]. *)
Definition objects (ti : threadinfo row) (l : loc) : list loc :=
  match heap ti !! l with Some (_, Row r) => l :: locs (cols r) | _ => [] end.

(** What is allocated and not retired. *)
Definition in_use (ti : threadinfo row) (q : loc) : Prop := is_Some (heap ti !! q) /\ q ∉ limbo ti.

(** What is retired is there, once. *)
Definition retired_once (ti : threadinfo row) : Prop := NoDup (limbo ti) /\ Forall (fun q => is_Some (heap ti !! q)) (limbo ti).

(** [apply_put]: the row is replaced by its update, and what the update replaced is retired. *)
Definition put (l : loc) (changes : list Json) (t : Z) : M loc :=
  let* old := load_row l in
  let* updated := update old changes t in
  let* _ := deallocate_rcu_after_update l changes in
  mret updated.

Lemma read_columns_at ti l t cs i : owns ti l t cs -> 0 <= i < 2 ^ 31 ->
  (let* r := load_row l in col i r) ti = Ok (nth (Z.to_nat i) cs [], ti).
Proof.
  intros (ps & Hl & Hn & Hat & _) Hi. destruct ti as [h lim]. cbn [heap] in *. rewrite (sbind_run _ _ _ _ _ (load_row_at _ _ _ _ _ Hl)).
  pose proof (Forall2_length _ _ _ Hat) as Hlen. unfold col. cbn [ncol]. rewrite !Word.wrap_small by (split; lia).
  destruct (Z.ltb_spec i (len cs)) as [Hlt|Hge].
  - destruct (lookup_lt_is_Some_2 ps (Z.to_nat i)) as [p Hp]; [lia|]. destruct (Forall2_lookup_l _ _ _ _ _ Hat Hp) as (c & Hc & Hpc).
    rewrite (nth_lookup_Some _ _ _ _ Hc). assert (get_col i (Array t (len cs) ps) = Ok p) as Hg.
    { unfold get_col, aget. cbn [cols]. rewrite (proj2 (Z.ltb_ge _ 0)), Hp by lia. done. }
    rewrite (sbind_run _ _ _ _ _ (lift_run _ _ _ Hg)). destruct p as [q|]; [|by rewrite Hpc].
    destruct Hpc as [_ Hq]. unfold load_column, load, sbind, sm_bind. cbn. by rewrite Hq.
  - by rewrite nth_overflow by lia.
Qed.

(** Rows with more columns, all null. *)
Lemma locs_nulls ps k : locs (ps ++ replicate k None) = locs ps.
Proof. rewrite locs_app. induction k as [|k IH]; [apply app_nil_r|done]. Qed.

Lemma replaced_nulls ps k chs : replaced (ps ++ replicate k None) chs = replaced ps chs.
Proof.
  induction chs as [|[i v] chs IH]; [done|]. rewrite !replaced_cons, IH. f_equal. f_equal. destruct (decide (i < length ps)%nat).
  - by rewrite lookup_app_l.
  - rewrite lookup_app_r, (lookup_ge_None_2 ps) by lia. destruct (replicate k None !! _) as [x|] eqn:E; [|done]. by apply lookup_replicate in E as [-> _].
Qed.

Lemma apply_changes_length chs : forall cols, (length cols <= length (apply_changes cols chs))%nat /\ Forall (fun ch => fst ch < length (apply_changes cols chs))%nat chs.
Proof.
  induction chs as [|[i v] chs IH]; intros cols; cbn [apply_changes]; [done|]. destruct (IH (<[i := v]> (pad cols (S i)))) as [Hl Hf].
  rewrite length_insert, length_padded in Hl. split; [lia|]. constructor; [cbn; lia|done].
Qed.

(** The new row, before anything is retired. *)
Lemma update_ok h lim ps t0 t cs chs it : Forall2 (column_at h) ps cs -> NoDup (locs ps) -> change_list chs it -> chs <> [] -> ordered 0 chs ->
  len (apply_changes cs chs) < 2 ^ 15 -> t0 <= t ->
  exists l h' ps', let new := apply_changes cs chs in let r := (shallow_size (len new), Row (Array t (len new) ps')) in
    update (Array t0 (len cs) ps) it t (Threadinfo h lim) = Ok (l, Threadinfo (<[l := r]> h') lim) /\
    h !! l = None /\ h ⊆ h' /\ h' !! l = None /\ Forall2 (column_at h') ps' new /\ NoDup (locs ps') /\
    (forall q, q ∈ locs ps' <-> is_Some (h' !! q) /\ h !! q = None \/ q ∈ locs ps /\ q ∉ replaced ps chs).
Proof.
  intros Hat Hnd Hch Hne Hord Hsz Ht. destruct chs as [|[i v] chs]; [done|]. set (ch := (i, v) :: chs) in *.
  destruct (last_change chs i v cs it 0 Hch Hord) as (c & j & Hlast & Hu & Hj & _ & Hlen). destruct (as_i_index c j Hu Hj) as (x & Hx & Hxj).
  fold ch in Hlen. destruct (apply_changes_length ch cs) as [Hge Hlt]. set (n := length (apply_changes cs ch)) in *. pose proof (Forall2_length _ _ _ Hat) as Hps. set (l := fresh (dom h)).
  pose proof (locs_nulls ps (n - length cs)) as HlP. set (P := ps ++ replicate (n - length cs) None) in *.
  assert (length P = n) as HP by (unfold P; rewrite length_app, length_replicate; lia).
  assert (Forall2 (column_at h) P (pad cs n)) as HatP by (apply Forall2_app; [done|]; by apply Forall2_replicate).
  destruct (update_columns_ok l (shallow_size (Z.of_nat n)) t (Z.of_nat n) ch it 0%nat P (pad cs n) h lim) as (h' & ps' & Hrun & Hsub & Hl & Hat' & Hnd' & Hq); try done.
  { by rewrite HP. }
  { apply fresh_not_in. }
  { by rewrite HlP. }
  exists l, h', ps'. cbn zeta. fold n. rewrite apply_changes_pad, pad_ge in Hat' by done. split_and!; try done.
  - unfold update. cbn [ts ncol cols]. unfold check. rewrite (proj2 (Z.leb_le _ _)) by done.
    rewrite sbind_ret, (sbind_run _ _ _ _ _ (lift_run _ _ _ Hlast)), (sbind_run _ _ _ _ _ (lift_run _ _ _ Hx)), Hxj. cbn zeta.
    assert (Word.wrap 32 (Z.max (len cs) (Word.signed 32 (Z.of_nat j + 1))) = Z.of_nat n) as ->.
    { unfold Word.signed. cbn zeta. rewrite (Word.wrap_small 32 (Z.of_nat j + 1)), (proj2 (Z.ltb_lt _ _)), Word.wrap_small by first [lia | split; lia]. lia. }
    assert (Word.signed 16 (Z.of_nat n) = Z.of_nat n) as ->.
    { unfold Word.signed. cbn zeta. rewrite Word.wrap_small, (proj2 (Z.ltb_lt _ _)) by first [lia | split; lia]. done. }
    rewrite take_ge by lia. replace (Z.to_nat (Z.of_nat n - len cs)) with (n - length cs)%nat by lia. fold P.
    unfold sbind at 1, sm_bind at 1, allocate. cbn [heap limbo]. fold l. by rewrite (sbind_run _ _ _ _ _ Hrun).
  - apply fresh_not_in.
  - intros q. rewrite Hq, HlP. unfold P. by rewrite replaced_nulls.
Qed.

(** The update and what it retires. *)
Lemma put_run h lim l ps t0 t cs chs it : h !! l = Some (shallow_size (len cs), Row (Array t0 (len cs) ps)) -> len cs < 2 ^ 15 ->
  Forall2 (column_at h) ps cs -> NoDup (locs ps) -> (forall q, q ∈ l :: locs ps -> q ∉ lim) ->
  change_list chs it -> chs <> [] -> ordered 0 chs -> len (apply_changes cs chs) < 2 ^ 15 -> t0 <= t ->
  exists l' h' ps', let new := apply_changes cs chs in let r := (shallow_size (len new), Row (Array t (len new) ps')) in
    put l it t (Threadinfo h lim) = Ok (l', Threadinfo (<[l' := r]> h') (l :: rev (replaced ps chs) ++ lim)) /\ (l ∉ locs ps) /\
    (l ∉ rev (replaced ps chs) ++ lim) /\
    h !! l' = None /\ h ⊆ h' /\ h' !! l' = None /\ Forall2 (column_at h') ps' new /\ NoDup (locs ps') /\
    (forall q, q ∈ locs ps' <-> is_Some (h' !! q) /\ h !! q = None \/ q ∈ locs ps /\ q ∉ replaced ps chs).
Proof.
  intros Hl Hn Hat Hnd Hlim Hch Hne Hord Hsz Ht. unfold put. rewrite (sbind_run _ _ _ _ _ (load_row_at _ _ _ _ _ Hl)).
  destruct (update_ok h lim ps t0 t cs chs it) as (l' & h' & ps' & Hup & Hl' & Hsub & Hnn & Hrest); [done..|]. exists l', h', ps'. cbn zeta in *.
  rewrite (sbind_run _ _ _ _ _ Hup). set (r' := (_, Row (Array t _ ps'))). assert (h ⊆ <[l' := r']> h') as Hsub' by (etransitivity; [done|by apply insert_subseteq]).
  assert (l ∉ locs ps) as Hlp.
  { intros Hin. apply elem_of_locs, list_elem_of_lookup_1 in Hin as [k Hk]. destruct (Forall2_lookup_l _ _ _ _ _ Hat Hk) as (c & _ & [_ Hc]). congruence. }
  assert (l ∉ rev (replaced ps chs) ++ lim) as Hlr.
  { rewrite elem_of_app, elem_of_rev. intros [H|H]; [by apply replaced_locs in H|by apply (Hlim l); [left|]]. }
  split; [|done]. unfold deallocate_rcu_after_update. rewrite sbind_assoc. pose proof (lookup_weaken _ _ _ _ Hl Hsub') as Hll.
  pose proof (Forall2_length _ _ _ Hat) as Hlen. rewrite (sbind_run _ _ _ _ _ (load_row_at _ _ _ _ _ Hll)), sbind_assoc.
  assert (forall q, q ∈ replaced ps chs -> q ∉ lim) as Hrl by (intros q Hq; apply Hlim; right; by eapply replaced_locs).
  rewrite (sbind_run _ _ _ _ _ (retire_changed_ok (Array t0 (len cs) ps) (<[l' := r']> h') cs chs it 0 lim Hch Hord ltac:(cbn; lia) Hn (Forall2_column_mono _ _ _ _ Hsub' Hat) Hnd Hrl)).
  cbn [cols ncol]. unfold RowHeap.deallocate_rcu at 1, sbind at 1, sm_bind at 1. cbn [heap limbo]. by rewrite Hll, Z.eqb_refl, bool_decide_eq_false_2.
Qed.

(** C30: an update of ascending columns and the retirement of what it replaced, for
    a row that has fewer than 2^15 columns afterwards and a time stamp not before
    the row's: the new row has the changed columns and the time stamp; every object of before is still there
    unchanged, so whoever reads the old row reads its columns; nothing is retired
    twice; and what is in use afterwards is what was in use without the old row's
    objects, and the new row's, so that nothing in use is retired and nothing is
    leaked. *)
Theorem array_put ti l t0 t cs chs it : owns ti l t0 cs -> retired_once ti -> change_list chs it -> chs <> [] -> ordered 0 chs ->
  len (apply_changes cs chs) < 2 ^ 15 -> t0 <= t ->
  exists l' ti', put l it t ti = Ok (l', ti') /\ owns ti' l' t (apply_changes cs chs) /\ heap ti ⊆ heap ti' /\ retired_once ti' /\
    (forall q, in_use ti' q <-> in_use ti q /\ q ∉ objects ti l \/ q ∈ objects ti' l').
Proof.
  destruct ti as [h lim]. intros (ps & Hl & Hn & Hat & Hnd & Hlim) [Hnl Hinl] Hch Hne Hord Hsz Ht. unfold objects, in_use. cbn [heap limbo] in *.
  rewrite Forall_forall in Hlim, Hinl. rewrite Hl. cbn [cols].
  destruct (put_run h lim l ps t0 t cs chs it) as (l' & h' & ps' & Hput & Hlp & Hlr & Hl' & Hsub & Hl'' & Hat' & Hnd' & Hq); [done..|]. cbn zeta in *.
  exists l'. eexists. split; [exact Hput|]. set (r' := (_, Row (Array t _ ps'))) in *. cbn [heap limbo]. rewrite lookup_insert_eq. subst r'. cbn [cols].
  assert (forall q, q ∈ locs ps -> is_Some (h !! q)) as Hin by (intros q; by apply (locs_in_heap h ps cs)). pose proof (replaced_locs ps chs) as Hrep.
  assert (l' ∉ locs ps') as Hl'p by (intros H; apply (locs_in_heap h' ps' _ _ Hat') in H as [? ?]; congruence).
  assert (forall q, is_Some (h !! q) -> is_Some (h' !! q)) as Hh by (intros q [x Hx]; exists x; by eapply lookup_weaken).
  assert (is_Some (h !! l)) as Hls by (by rewrite Hl). apply eq_None_not_Some in Hl'. setoid_rewrite eq_None_not_Some in Hq.
  assert (forall q, q ∈ l :: rev (replaced ps chs) ++ lim <-> q = l \/ q ∈ replaced ps chs \/ q ∈ lim) as Hlm by (intros q; by rewrite elem_of_cons, elem_of_app, elem_of_rev).
  pose proof (Hlim l ltac:(by left)) as Hll1. assert (forall q, q ∈ locs ps -> q ∉ lim) as Hlim' by (intros q Hx; apply Hlim; by right).
  split_and!; [|etransitivity; [done|by apply insert_subseteq]| |].
  - exists ps'. cbn [heap limbo]. rewrite lookup_insert_eq. split_and!; [done|done|eapply Forall2_column_mono; [by apply insert_subseteq|done]|done|].
    apply Forall_forall. intros q. rewrite elem_of_cons, Hlm, Hq. specialize (Hin q). specialize (Hlim' q). specialize (Hinl q). specialize (Hrep q).
    intros [->|Hq']; [|destruct (decide (q = l)); [subst|]; tauto]. intros [->|[?|?]]; tauto.
  - split; cbn [heap limbo].
    + apply NoDup_cons. split; [done|]. apply NoDup_app. split_and!; [by eapply NoDup_rev_list, replaced_NoDup| |done].
      intros q Hq'. rewrite elem_of_rev in Hq'. exact (Hlim' q (Hrep q Hq')).
    + apply Forall_forall. intros q. rewrite Hlm, lookup_insert_is_Some'. intros [->|[H|H]]; auto.
  - intros q. rewrite Hlm, lookup_insert_is_Some', !elem_of_cons, Hq. specialize (Hin q). specialize (Hlim' q). specialize (Hinl q). specialize (Hrep q). specialize (Hh q).
    assert (l' = q <-> q = l') as -> by (by split). assert (q = l' -> ~ is_Some (h !! q)) as Hql' by (by intros ->).
    assert (q = l -> is_Some (h !! q) /\ (q ∉ locs ps) /\ q ∉ lim) as Hql by (by intros ->).
    clear -Hin Hlim' Hinl Hrep Hh Hql Hql'.
    destruct (decide (q = l')), (decide (q = l)), (decide (is_Some (h !! q))), (decide (q ∈ locs ps)), (decide (q ∈ replaced ps chs)), (decide (q ∈ lim)); tauto.
Qed.

(** A row of two columns, the second without bytes; column 1 is changed and column
    2 is added. *)
Definition some_row : threadinfo row :=
  Threadinfo (<[1%positive := (32, Row (Array 5 2 [Some 2%positive; None]))]> (<[2%positive := (5, Column [97])]> (<[3%positive := (5, Column [98])]> ∅))) [3%positive].

Lemma some_row_owns : owns some_row 1%positive 5 [[97]; []].
Proof.
  exists [Some 2%positive; None]. split_and!; [reflexivity|reflexivity| | |].
  - repeat constructor. discriminate.
  - repeat constructor. set_solver.
  - repeat constructor; set_solver.
Qed.

Lemma array_put_witness : exists l' ti', put 1%positive [JInt 1; JString [98]; JInt 2; JString [99]] 9 some_row = Ok (l', ti') /\
  owns ti' l' 9 [[97]; [98]; [99]] /\ heap some_row ⊆ heap ti' /\ retired_once ti' /\
  (forall q, in_use ti' q <-> in_use some_row q /\ q ∉ objects some_row 1%positive \/ q ∈ objects ti' l').
Proof.
  apply (array_put some_row 1%positive 5 9 [[97]; []] [(1%nat, [98]); (2%nat, [99])]);
    [apply some_row_owns|split; [repeat constructor; set_solver|repeat constructor; by eexists]|repeat (constructor; try reflexivity)|discriminate|cbn; lia|reflexivity|lia].
Defined.

(** ** Checkpoints *)

Lemma write_columns_ok h lim ps cs t n : n = len cs -> n < 2 ^ 15 -> Forall2 (column_at h) ps cs -> forall a b, cs = a ++ b ->
  write_columns (length b) (len a) (Array t n ps) (Threadinfo h lim) = Ok (flat_map format.write_string b, Threadinfo h lim).
Proof.
  intros -> Hn Hat a b. revert a. induction b as [|c b IH]; intros a Hcs; [done|]. cbn [length write_columns flat_map].
  assert (col (len a) (Array t (len cs) ps) (Threadinfo h lim) = Ok (c, Threadinfo h lim)) as Hc.
  { pose proof (f_equal length Hcs) as Hl. rewrite length_app in Hl. cbn [length] in Hl. unfold col. cbn [ncol]. rewrite !Word.wrap_small, (proj2 (Z.ltb_lt _ _)) by first [lia | split; lia].
    assert (cs !! length a = Some c) as Hac by (rewrite Hcs, lookup_app_r, Nat.sub_diag by lia; done).
    destruct (Forall2_lookup_r _ _ _ _ _ Hat Hac) as (p & Hp & Hpc). assert (get_col (len a) (Array t (len cs) ps) = Ok p) as Hg.
    { unfold get_col, aget. cbn [cols]. rewrite (proj2 (Z.ltb_ge _ 0)), Nat2Z.id, Hp by lia. done. }
    rewrite (sbind_run _ _ _ _ _ (lift_run _ _ _ Hg)). destruct p as [q|]; [|by rewrite Hpc].
    destruct Hpc as [_ Hq]. unfold load_column, load, sbind, sm_bind. cbn. by rewrite Hq. }
  rewrite (sbind_run _ _ _ _ _ Hc). specialize (IH (a ++ [c])). rewrite length_app in IH. cbn [length] in IH. replace (Z.of_nat (length a + 1)) with (len a + 1) in IH by lia.
  rewrite (sbind_run _ _ _ _ _ (IH ltac:(by rewrite Hcs, <- app_assoc))). done.
Qed.

Lemma read_columns_ok l sz t n rest lim cs : forall ps done h, Forall int_length cs -> Forall2 (column_at h) ps done -> h !! l = None -> NoDup (locs ps) -> Forall (fun q => q ∉ lim) (locs ps) ->
  Forall (fun q => is_Some (h !! q)) lim ->
  exists h' ps', read_columns l (length cs) (len ps) (flat_map format.write_string cs ++ rest) (Threadinfo (<[l := (sz, Row (Array t n (ps ++ replicate (length cs) None)))]> h) lim) =
      Ok (rest, Threadinfo (<[l := (sz, Row (Array t n ps'))]> h') lim) /\
    h ⊆ h' /\ h' !! l = None /\ Forall2 (column_at h') ps' (done ++ cs) /\ NoDup (locs ps') /\ Forall (fun q => q ∉ lim) (locs ps').
Proof.
  induction cs as [|c cs IH]; intros ps dn h Hint Hat Hl Hnd Hlim Hin; cbn [length read_columns flat_map app replicate].
  - exists h, ps. rewrite !app_nil_r. done.
  - apply Forall_cons in Hint as [Hc Hint]. rewrite <- app_assoc. rewrite (sbind_run _ _ _ _ _ (lift_run _ _ _ (read_str_write _ _ Hc))).
    set (R0 := (sz, Row (Array t n (ps ++ None :: replicate (length cs) None)))).
    destruct (make_column_beside c h lim l R0 Hl) as (p & h1 & Hmk & Hp & Hsub & Hl1 & Hdom & Hnew).
    assert ((match c with [] => mret tt | _ => let* p := make_column c in set_col l (len ps) p end) (Threadinfo (<[l := R0]> h) lim) =
      Ok (tt, Threadinfo (<[l := (sz, Row (Array t n ((ps ++ [p]) ++ replicate (length cs) None)))]> h1) lim)) as Hstep.
    { destruct c as [|x c].
      - cbn in Hmk. injection Hmk as <- Hh. rewrite <- app_assoc. cbn [app]. fold R0. by rewrite <- Hh.
      - rewrite (sbind_run _ _ _ _ _ Hmk). unfold R0. rewrite set_col_at by (rewrite length_app; cbn; lia). rewrite insert_app_r_alt, Nat.sub_diag, <- app_assoc by lia. done. }
    rewrite (sbind_run _ _ _ _ _ Hstep). replace (len ps + 1) with (len (ps ++ [p])) by (rewrite length_app; cbn; lia).
    assert (locs (ps ++ [p]) = locs ps ++ option_list p) as Hlocs by (rewrite locs_app, locs_cons; f_equal; apply app_nil_r).
    destruct (IH (ps ++ [p]) (dn ++ [c]) h1) as (h' & ps' & Hrun & Hsub' & Hl' & Hat' & Hnd' & Hlim'); try done.
    + apply Forall2_app; [by apply (Forall2_column_mono h)|by constructor].
    + rewrite Hlocs, NoDup_app. split_and!; [done| |apply NoDup_option_list]. intros q Hq Hq'. rewrite elem_of_option_list in Hq'. apply Hnew in Hq'.
      apply (locs_in_heap h ps dn) in Hq as [? ?]; [congruence|done].
    + rewrite Hlocs, Forall_app. split; [done|]. apply Forall_forall. intros q Hq Hq'. rewrite elem_of_option_list in Hq. apply Hnew in Hq.
      rewrite Forall_forall in Hin. apply Hin in Hq' as [? ?]. congruence.
    + eapply Forall_impl; [exact Hin|]. intros q [x Hx]. exists x. by eapply lookup_weaken.
    + exists h', ps'. rewrite <- app_assoc in Hat'. split_and!; [done|by transitivity h1|done..].
Qed.

Lemma array_checkpoint ti l t0 t cs rest : owns ti l t0 cs -> retired_once ti -> Forall int_length cs ->
  exists par l' ti', checkpoint_write l ti = Ok (par, ti) /\ checkpoint_read (par ++ rest) t ti = Ok ((l', rest), ti') /\ owns ti' l' t cs /\ heap ti ⊆ heap ti'.
Proof.
  destruct ti as [h lim]. intros (ps & Hl & Hn & Hat & Hnd & Hlim) [_ Hin] Hint. cbn [heap limbo] in *. unfold checkpoint_write. rewrite (sbind_run _ _ _ _ _ (load_row_at _ _ _ _ _ Hl)).
  cbn [ncol]. rewrite Nat2Z.id, (sbind_run _ _ _ _ _ (write_columns_ok h lim ps cs t0 (len cs) eq_refl Hn Hat [] cs eq_refl)).
  eexists. set (l' := fresh (dom h)). pose proof (fresh_not_in h) as Hf. fold l' in Hf.
  destruct (read_columns_ok l' (shallow_size (len cs)) t (len cs) rest lim cs [] [] h Hint) as (h' & ps' & Hrun & Hsub & Hl' & Hat' & Hnd' & Hlim'); [done..|constructor|constructor|done|].
  exists l', (Threadinfo (<[l' := (shallow_size (len cs), Row (Array t (len cs) ps'))]> h') lim). split; [done|]. unfold checkpoint_read. rewrite <- app_assoc.
  rewrite (sbind_run _ _ _ _ _ (lift_run _ _ _ (read_array_header_write (len cs) _ ltac:(lia)))). unfold make_sized_row, sbind at 1, sm_bind at 1, allocate. cbn [heap limbo]. fold l'.
  assert (Word.signed 16 (len cs) = len cs) as ->.
  { unfold Word.signed. cbn zeta. rewrite Word.wrap_small, (proj2 (Z.ltb_lt _ _)) by first [lia | split; lia]. done. }
  rewrite Nat2Z.id. cbn [app length Z.of_nat] in Hrun. rewrite (sbind_run _ _ _ _ _ Hrun). split; [done|]. split.
  - exists ps'. cbn [heap limbo]. rewrite lookup_insert_eq. split_and!; [done|done|eapply Forall2_column_mono; [by apply insert_subseteq|done]|done|].
    constructor; [|done]. intros Hq. rewrite Forall_forall in Hin. apply Hin in Hq as [? ?]. congruence.
  - cbn [heap]. etransitivity; [done|by apply insert_subseteq].
Qed.
End columns.
