(* ===== verification/ValueVersioned.v ===== *)
(** * Versioned arrays of columns (value_versioned_array.hh, .cc)

    [value_versioned_array]: rows that are updated in place under a version, and
    the snapshots that readers take of them. *)

From S2P Require Export ValueArrayFacts.

#[local] Open Scope Z_scope.
#[local] Open Scope lhm_scope.

(** ** Row versions

    31 bits count the updates; the highest bit is set during one. *)
Module rowversion.
Definition dirty_bit : Z := 0x80000000.
Definition counter_bits : Z := 0x7fffffff.
Definition initial : Z := 0.
Definition dirty (u : Z) : bool := negb (Z.land u dirty_bit =? 0).
Definition ctr (u : Z) : Z := Z.land u counter_bits.
Definition setdirty (u : Z) : Z := Z.lor u dirty_bit.
Definition clear (u : Z) : Z := Z.land u counter_bits.
Definition clearandbump (u : Z) : Z := Z.land (Word.addw 32 u 1) counter_bits.
(** [stable()]: spins while the version is dirty; alone it spins forever. *)
Definition stable (u : Z) : res Z := if dirty u then Fault Deadlock else Ok u.
Definition has_changed (v1 v2 : Z) : bool := negb (ctr v2 =? ctr v1).
End rowversion.

Module versioned.
Record row := Versioned { ts : Z; ver : Z; ncol : Z; ncol_cap : Z; cols : list (option loc) }.
Abbreviation M := (sm (threadinfo row)).
Definition in_bounds (b : bool) : res unit := if b then Ok tt else Fault OutOfBounds.

Definition empty : row := Versioned 0 rowversion.initial 0 0 [].
(** [sizeof(value_versioned_array)]: 16 as well. *)
Definition shallow_size (ncol : Z) : Z := 16 + 8 * ncol.

Definition get_col (i : Z) (r : row) : res (option loc) := aget (cols r) i.
Definition set_col (l : loc) (i : Z) (p : option loc) : M unit :=
  let* r := load_row l in
  let* ps := lift (aset (cols r) i p) in
  store_row l (Versioned (ts r) (ver r) (ncol r) (ncol_cap r) ps).
Definition set_ncol (l : loc) (n : Z) : M unit :=
  let* r := load_row l in store_row l (Versioned (ts r) (ver r) (Word.signed 16 n) (ncol_cap r) (cols r)).
Definition set_ver (l : loc) (f : Z -> Z) : M unit :=
  let* r := load_row l in store_row l (Versioned (ts r) (f (ver r)) (ncol r) (ncol_cap r) (cols r)).

Definition col (i : Z) (r : row) : M bytes :=
  if Word.wrap 32 i <? Word.wrap 32 (ncol r) then
    let* p := lift (get_col i r) in
    match p with Some l => load_column l | None => mret [] end
  else mret [].

Definition make_sized_row (n t : Z) : M loc :=
  allocate (shallow_size n) (Row (Versioned t rowversion.initial (Word.signed 16 n) (Word.signed 16 n) (replicate (Z.to_nat n) None))).

Definition create1 (value : bytes) (t : Z) : M loc :=
  let* row := allocate (shallow_size 1) (Row (Versioned t rowversion.initial 1 1 [None])) in
  let* p := make_column value in
  let* _ := set_col row 0 p in
  mret row.

Fixpoint each_column (f : option loc -> M unit) (k : nat) (i : Z) (r : row) : M unit :=
  match k with
  | O => mret tt
  | S k => let* p := lift (get_col i r) in let* _ := f p in each_column f k (i + 1) r
  end.
Definition deallocate (l : loc) : M unit :=
  let* r := load_row l in
  let* _ := each_column deallocate_column (Z.to_nat (ncol r)) 0 r in
  RowHeap.deallocate l (shallow_size (ncol r)).
Definition deallocate_rcu (l : loc) : M unit :=
  let* r := load_row l in
  let* _ := each_column deallocate_column_rcu (Z.to_nat (ncol r)) 0 r in
  RowHeap.deallocate_rcu l (shallow_size (ncol r)).
Definition deallocate_rcu_after_update (l : loc) : M unit :=
  let* r := load_row l in RowHeap.deallocate_rcu l (shallow_size (ncol r)).

(** ** Updates *)

Fixpoint update_columns (l : loc) (it : list Json) : M unit :=
  match it with
  | [] => mret tt
  | c :: v :: it =>
    let* u := lift (as_u c) in
    let idx := Word.wrap 32 u in
    let* r := load_row l in
    let* p := lift (get_col idx r) in
    let* _ := deallocate_column_rcu p in
    let* s := lift (as_s v) in
    let* p := make_column s in
    let* _ := set_col l idx p in
    update_columns l it
  | _ => fail OutOfBounds
  end.

(** In place when the row has room, and in a new row otherwise.  [this] is the
    row; for a new row from nothing it is the empty one. *)
Definition update_in_place (l : loc) (this : row) (n : Z) (changes : list Json) : M loc :=
  let* _ := (if ncol this <? n then
      let* ps := lift (let? _ := in_bounds (n <=? Z.of_nat (length (cols this))) in
                       Ok (take (Z.to_nat (ncol this)) (cols this) ++ replicate (Z.to_nat (n - ncol this)) None ++ drop (Z.to_nat n) (cols this))) in
      store_row l (Versioned (ts this) (ver this) (ncol this) (ncol_cap this) ps)
    else mret tt) in
  let* _ := set_ver l rowversion.setdirty in
  let* _ := (if ncol this <? n then set_ncol l n else mret tt) in
  let* _ := update_columns l changes in
  let* _ := set_ver l rowversion.clearandbump in
  mret l.
Definition update_copy (this : row) (n : Z) (changes : list Json) (t : Z) : M loc :=
  let copied := take (Z.to_nat (ncol this)) (cols this) in
  let* _ := lift (in_bounds (ncol this <=? n)) in
  let* row := allocate (shallow_size n)
    (Row (Versioned t rowversion.initial (Word.signed 16 n) (Word.signed 16 n) (copied ++ replicate (Z.to_nat (n - ncol this)) None))) in
  let* _ := update_columns row changes in
  mret row.
Definition update (l : loc) (changes : list Json) (t : Z) : M loc :=
  let* this := load_row l in
  let* c := lift (value_array.last_column changes) in
  let* u := lift (as_u c) in
  let n := Word.signed 32 (u + 1) in
  if ncol_cap this <? n then update_copy this n changes t else update_in_place l this n changes.
Definition create (changes : list Json) (t : Z) : M loc :=
  let* c := lift (value_array.last_column changes) in
  let* u := lift (as_u c) in
  update_copy empty (Word.signed 32 (u + 1)) changes t.

(** ** Snapshots *)

(** One round of the copy, of the columns that are asked for. *)
Definition copy_round (storage : loc) (f : list Z) (r : row) : M unit :=
  match f with
  | [i] => let* p := lift (get_col i r) in set_col storage i p
  | _ =>
    let* s := load_row storage in
    let* ps := lift (let? _ := in_bounds ((ncol s <=? Z.of_nat (length (cols s))) && (ncol s <=? Z.of_nat (length (cols r)))) in
                     Ok (take (Z.to_nat (ncol s)) (cols r) ++ drop (Z.to_nat (ncol s)) (cols s))) in
    store_row storage (Versioned (ts s) (ver s) (ncol s) (ncol_cap s) ps)
  end.

(** [snapshot(storage, f, ti)] when no update interferes: one round is enough. *)
Definition snapshot (l : loc) (storage : option loc) (f : list Z) : M loc :=
  let* r := load_row l in
  let* storage :=
    match storage with
    | None => make_sized_row (ncol r) (ts r)
    | Some s =>
      let* st := load_row s in
      if ncol_cap st <? ncol r then let* _ := deallocate s in make_sized_row (ncol r) (ts r)
      else mret s
    end in
  let* _ := set_ncol storage (ncol r) in
  let* _ := lift (rowversion.stable (ver r)) in
  let* _ := copy_round storage f r in
  mret storage.

(** ** Checkpoints *)

Fixpoint write_columns (k : nat) (i : Z) (r : row) : M bytes :=
  match k with
  | O => mret []
  | S k =>
    let* c := col i r in
    let* rest := write_columns k (i + 1) r in
    mret (format.write_string c ++ rest)
  end.
Definition checkpoint_write (l : loc) : M bytes :=
  let* r := load_row l in
  let* cs := write_columns (Z.to_nat (ncol r)) 0 r in
  mret (format.write_array_header (ncol r) ++ cs).
Fixpoint read_columns (row : loc) (k : nat) (i : Z) (par : bytes) : M bytes :=
  match k with
  | O => mret par
  | S k =>
    let* (c, par) := lift (read_str par) in
    let* p := make_column c in
    let* _ := set_col row i p in
    read_columns row k (i + 1) par
  end.
Definition checkpoint_read (par : bytes) (t : Z) : M (loc * bytes) :=
  let* (n, par) := lift (read_array_header par) in
  let* row := make_sized_row n t in
  let* par := read_columns row (Z.to_nat n) 0 par in
  mret (row, par).
End versioned.
