(* ===== verification/Snapshots.v ===== *)
(** * Snapshots of rows under updates in place (value_versioned_array.cc)

    A reader copies the columns of a row while updates change them in place: the
    writer under the leaf's lock (one at a time) marks the version dirty, stores
    the columns one by one and counts the update; the reader waits for a clean
    version, copies the columns one by one, waits for a clean version again and
    starts over if the count has changed.  Each step is one access to shared
    memory, in one order that all threads see (the code's fences). *)

From S2P Require Export ValueVersioned.

#[local] Open Scope Z_scope.
#[local] Open Scope lhm_scope.
Import rowversion.

Module snapshots.
(** What the column pointers are does not matter here. *)
Section protocol.
Context {P : Type}.

(** [update] with [row == this], after [last[-2]] is known to fit. *)
Inductive writer :=
  | WIdle
  | WWriting (changes : list (nat * P)).   (* columns still to be stored *)

(** [snapshot] of the columns [f]. *)
Inductive reader :=
  | RStart                              (* before the first [stable] *)
  | RCopy (v1 : Z) (copied : list P)    (* so many columns copied *)
  | RDone (copied : list P).

(** [past] lists the columns after each update that is finished, the last one
    first: no part of the program's state. *)
Record state := State {
  ver : Z;
  cols : list P;
  wr : writer;
  rd : reader;
  past : list (list P);
}.

Inductive action :=
  | Begin (changes : list (nat * P))   (* [ver_.setdirty()] *)
  | Store                              (* [row->cols_[idx] = ...] *)
  | Finish                             (* [ver_.clearandbump()] *)
  | Read.                              (* the reader's next access *)

(** What a round copies of a row of [n] columns: one column when one is asked
    for, otherwise all of them with [memcpy]. *)
Definition places (n : nat) (f : list nat) : list nat :=
  match f with [i] => [i] | _ => seq 0 n end.

Definition read (n : nat) (f : list nat) (s : state) : option state :=
  let to r := Some (State (ver s) (cols s) (wr s) r (past s)) in
  match rd s with
  | RStart => match stable (ver s) with Ok v => to (RCopy v []) | Fault _ => to RStart end
  | RCopy v1 copied =>
    match places n f !! length copied with
    | Some i => match cols s !! i with Some p => to (RCopy v1 (copied ++ [p])) | None => None end
    | None =>
      match stable (ver s) with
      | Ok v2 => to (if has_changed v1 v2 then RCopy v2 [] else RDone copied)
      | Fault _ => to (RCopy v1 copied)
      end
    end
  | RDone _ => None
  end.

Definition step (n : nat) (f : list nat) (a : action) (s : state) : option state :=
  match a, wr s with
  | Begin chs, WIdle =>
    if forallb (fun ch => fst ch <? length (cols s))%nat chs then Some (State (setdirty (ver s)) (cols s) (WWriting chs) (rd s) (past s)) else None
  | Store, WWriting ((i, p) :: chs) => Some (State (ver s) (<[i := p]> (cols s)) (WWriting chs) (rd s) (past s))
  | Finish, WWriting [] => Some (State (clearandbump (ver s)) (cols s) WIdle (rd s) (cols s :: past s))
  | Read, _ => read n f s
  | _, _ => None
  end.

Fixpoint run (n : nat) (f : list nat) (acts : list action) (s : state) : option state :=
  match acts with
  | [] => Some s
  | a :: acts => match step n f a s with Some s => run n f acts s | None => None end
  end.

(** A snapshot begins while no update is under way, at any version. *)
Definition start (v : Z) (ps : list P) : state := State v ps WIdle RStart [ps].

(** The columns of a row that a snapshot of [f] has. *)
Definition asked (n : nat) (f : list nat) (ps : list P) : list P :=
  match f with [i] => option_list (ps !! i) | _ => take n ps end.
Definition picked (js : list nat) (ps : list P) : list P := omap (fun j => ps !! j) js.

Lemma picked_app js ks ps : picked (js ++ ks) ps = picked js ps ++ picked ks ps.
Proof. apply omap_app. Qed.

Lemma picked_seq n ps : (n <= length ps)%nat -> picked (seq 0 n) ps = take n ps.
Proof.
  intros Hn. induction n as [|n IH]; [done|]. destruct (lookup_lt_is_Some_2 ps n Hn) as [p Hp].
  rewrite seq_S, picked_app, IH, (take_S_r _ _ _ Hp) by lia. unfold picked. cbn. by rewrite Hp.
Qed.

Lemma picked_places n f ps : (n <= length ps)%nat -> picked (places n f) ps = asked n f ps.
Proof.
  intros Hn. destruct f as [|i [|j f]]; cbn [places asked]; [by apply picked_seq| |by apply picked_seq].
  unfold picked. cbn. by destruct (ps !! i).
Qed.

Lemma picked_next js ps k i p : js !! k = Some i -> ps !! i = Some p ->
  picked (take (S k) js) ps = picked (take k js) ps ++ [p].
Proof. intros Hk Hi. rewrite (take_S_r _ _ _ Hk), picked_app. unfold picked. cbn. by rewrite Hi. Qed.
End protocol.
Arguments writer P : clear implicits.
Arguments reader P : clear implicits.
Arguments state P : clear implicits.
Arguments action P : clear implicits.

(** ** Versions *)

Lemma counter_land c : Z.land c counter_bits = c mod 2 ^ 31.
Proof. change counter_bits with (Z.ones 31). by apply Z.land_ones. Qed.

Lemma dirty_land c : 0 <= c < 2 ^ 31 -> Z.land c dirty_bit = 0.
Proof.
  intros Hc. apply Z.bits_inj_0. intros i. rewrite Z.land_spec. change dirty_bit with (2 ^ 31). destruct (decide (i = 31)) as [->|Hi].
  - rewrite (Z.bits_above_log2 c 31); [done|lia|]. destruct (Z.eq_dec c 0) as [->|]; [done|]. apply Z.log2_lt_pow2; lia.
  - by rewrite Z.pow2_bits_false, andb_false_r by done.
Qed.

Lemma setdirty_clean c : 0 <= c < 2 ^ 31 -> setdirty c = c + 2 ^ 31.
Proof. intros Hc. unfold setdirty. rewrite <- Z.lxor_lor, <- Z.add_nocarry_lxor by (by apply dirty_land). done. Qed.

Lemma stable_clean c : 0 <= c < 2 ^ 31 -> stable c = Ok c.
Proof. intros Hc. unfold stable, dirty. by rewrite dirty_land. Qed.

Lemma stable_dirty c : 0 <= c < 2 ^ 31 -> stable (c + 2 ^ 31) = Fault Deadlock.
Proof.
  intros Hc. unfold stable, dirty. rewrite <- setdirty_clean by done. unfold setdirty. rewrite Z.land_comm, Z.land_lor_distr_r, (Z.land_comm _ c), dirty_land by done. done.
Qed.

Lemma ctr_clean c : 0 <= c < 2 ^ 31 -> ctr c = c.
Proof. intros Hc. unfold ctr. by rewrite counter_land, Z.mod_small. Qed.

Lemma clearandbump_dirty c : 0 <= c < 2 ^ 31 -> clearandbump (c + 2 ^ 31) = (c + 1) mod 2 ^ 31.
Proof.
  intros Hc. unfold clearandbump. rewrite counter_land. unfold Word.addw, Word.wrap. rewrite (Z.mod_mod_divide (c + 2 ^ 31 + 1) (2 ^ 32) (2 ^ 31)) by (by exists 2).
  replace (c + 2 ^ 31 + 1) with (c + 1 + 1 * 2 ^ 31) by lia. by rewrite Z.mod_add.
Qed.

(** ** What holds throughout *)

Section facts.
Context {P : Type} (n : nat) (f : list nat) (v0 : Z) (Hv0 : 0 <= v0 < 2 ^ 31) (ps0 : list P).
Abbreviation js := (places n f).
Context (Hjs : Forall (fun j => j < length ps0)%nat js).

(** The count after [k] updates. *)
Definition count (k : nat) : Z := (v0 + Z.of_nat k) mod 2 ^ 31.
Definition finished (s : state P) : nat := pred (length (past s)).

Definition reader_ok (s : state P) : Prop :=
  match rd s with
  | RStart => True
  | RCopy v1 copied => (length copied <= length js)%nat /\ exists m, (m <= finished s)%nat /\ v1 = count m /\
      (m = finished s -> wr s = WIdle -> copied = picked (take (length copied) js) (cols s))
  | RDone copied => exists ps, ps ∈ past s /\ copied = picked js ps
  end.

Record invariant (s : state P) : Prop := Invariant {
  inv_cols : length (cols s) = length ps0;
  inv_past : past s <> [];
  inv_idle : wr s = WIdle -> exists rest, past s = cols s :: rest;
  inv_ver : ver s = count (finished s) + match wr s with WIdle => 0 | WWriting _ => 2 ^ 31 end;
  inv_writes : match wr s with WIdle => True | WWriting chs => Forall (fun ch => fst ch < length ps0)%nat chs end;
  inv_reader : reader_ok s;
}.

Lemma count_range k : 0 <= count k < 2 ^ 31.
Proof. apply Z.mod_pos_bound. lia. Qed.

Lemma count_inj a b : (a <= b)%nat -> Z.of_nat b < 2 ^ 31 -> count a = count b -> a = b.
Proof.
  intros Hab Hb H. unfold count in H. pose proof (Z.div_mod (v0 + Z.of_nat a) (2 ^ 31)). pose proof (Z.div_mod (v0 + Z.of_nat b) (2 ^ 31)). lia.
Qed.

Lemma invariant_start : invariant (start v0 ps0).
Proof.
  constructor; cbn; try done.
  - intros _. by exists [].
  - unfold count, finished. cbn. by rewrite !Z.add_0_r, Z.mod_small by lia.
Qed.

(** A step of the reader. *)
Lemma read_preserves s s' : invariant s -> Z.of_nat (length (past s)) <= 2 ^ 31 -> read n f s = Some s' -> invariant s'.
Proof.
  destruct s as [v c w r p]. intros [Hc Hp Hi Hv Hw Hr] Hb. unfold read. unfold reader_ok, finished in *. cbn [ver cols wr rd past] in *. set (k := pred (length p)) in *. pose proof (count_range k) as Hcr.
  assert (forall r', reader_ok (State v c w r' p) -> invariant (State v c w r' p)) as Hto by (intros r' Hrk; by constructor).
  assert (stable v = match w with WIdle => Ok v | WWriting _ => Fault Deadlock end) as Hst.
  { rewrite Hv. destruct w; [rewrite Z.add_0_r; by apply stable_clean|by apply stable_dirty]. }
  unfold reader_ok, finished in Hto. cbn [ver cols wr rd past] in Hto. fold k in Hto.
  rewrite Hst. destruct r as [|v1 copied|copied]; [| |done].
  - destruct w as [|chs]; intros [= <-]; apply Hto; [|done]. split; [cbn; lia|]. exists k. split; [done|]. split; [by rewrite Hv, Z.add_0_r|done].
  - destruct Hr as (Hlen & m & Hm & Hv1 & Hcopied). destruct (js !! length copied) as [i|] eqn:Ei.
    + destruct (c !! i) as [q|] eqn:Ep; [|done]. intros [= <-]. apply Hto. apply lookup_lt_Some in Ei as Hlt. rewrite length_app. cbn [length]. split; [lia|].
      exists m. split; [done|]. split; [done|]. intros Hmf Hidle. rewrite Nat.add_1_r, (picked_next _ _ _ _ _ Ei Ep). f_equal. by apply Hcopied.
    + destruct w as [|chs].
      * rewrite Hv, Z.add_0_r in *. unfold has_changed. rewrite Hv1, !ctr_clean by apply count_range.
        destruct (Z.eqb_spec (count k) (count m)) as [E|E]; cbn [negb]; intros [= <-]; apply Hto.
        -- destruct (Hi eq_refl) as [rest Hrest]. exists c. split; [rewrite Hrest; apply list_elem_of_here|].
           apply eq_sym, count_inj in E; [|done|lia]. rewrite (Hcopied E eq_refl) at 1. apply lookup_ge_None_1 in Ei. by rewrite take_ge.
        -- split; [cbn; lia|]. exists k. done.
      * intros [= <-]. apply Hto. split; [done|]. exists m. done.
Qed.

(** The writer's steps. *)
Lemma begin_preserves s chs s' : invariant s -> step n f (Begin chs) s = Some s' -> invariant s'.
Proof.
  destruct s as [v c w r p]. intros [Hc Hp Hi Hv Hw Hr]. unfold reader_ok, finished in *. cbn [step ver cols wr rd past] in *. destruct w as [|]; [|done].
  destruct (forallb _ chs) eqn:E; intros [= <-]. constructor; cbn [ver cols wr rd past]; try done.
  - rewrite Hv, Z.add_0_r. apply setdirty_clean, count_range.
  - apply Forall_forall. intros ch Hch. rewrite forallb_forall in E. apply list_elem_of_In, E, Nat.ltb_lt in Hch. lia.
  - unfold reader_ok, finished. cbn [rd past wr cols]. destruct r as [|v1 copied|copied]; [done| |done]. destruct Hr as (Hl & m & Hm & Hv1 & _). split; [done|]. by exists m.
Qed.

Lemma store_preserves s s' : invariant s -> step n f Store s = Some s' -> invariant s'.
Proof.
  destruct s as [v c w r p]. intros [Hc Hp Hi Hv Hw Hr]. unfold reader_ok, finished in *. cbn [step ver cols wr rd past] in *. destruct w as [|[|[i q] chs]]; [done|done|].
  intros [= <-]. constructor; cbn [ver cols wr rd past]; try done.
  - by rewrite length_insert.
  - by apply Forall_cons in Hw as [_ Hw].
  - unfold reader_ok, finished. cbn [rd past wr cols]. destruct r as [|v1 copied|copied]; [done| |done]. destruct Hr as (Hl & m & Hm & Hv1 & _). split; [done|]. by exists m.
Qed.

Lemma finish_preserves s s' : invariant s -> step n f Finish s = Some s' -> invariant s'.
Proof.
  destruct s as [v c w r p]. intros [Hc Hp Hi Hv Hw Hr]. unfold reader_ok, finished in *. cbn [step ver cols wr rd past] in *. destruct w as [|[|[i q] chs]]; [done| |done].
  intros [= <-]. destruct p as [|p0 p]; [done|]. cbn [length pred] in *. constructor; cbn [ver cols wr rd past]; try done.
  - intros _. by exists (p0 :: p).
  - unfold finished. cbn [past length pred]. rewrite Hv, clearandbump_dirty, Z.add_0_r by apply count_range. unfold count. rewrite Zplus_mod_idemp_l. f_equal. lia.
  - unfold reader_ok, finished. cbn [rd past wr cols length pred]. destruct r as [|v1 copied|copied]; [done| |].
    + destruct Hr as (Hl & m & Hm & Hv1 & _). split; [done|]. exists m. split; [lia|]. split; [done|]. lia.
    + destruct Hr as (ps & Hin & ->). exists ps. split; [by apply list_elem_of_further|done].
Qed.

Lemma past_grows a (s s' : state P) : step n f a s = Some s' -> (length (past s) <= length (past s'))%nat.
Proof.
  destruct s as [v c w r p]. destruct a; cbn; [destruct w; [|done]; case_match|destruct w as [|[|[? ?] ?]]; try done|destruct w as [|[|[? ?] ?]]; try done|unfold read; cbn; repeat case_match]; intros [= <-]; cbn; lia.
Qed.

Lemma run_preserves acts : forall s s' : state P, invariant s -> run n f acts s = Some s' -> Z.of_nat (length (past s')) <= 2 ^ 31 -> invariant s'.
Proof.
  induction acts as [|a acts IH]; intros s s' Hinv; cbn [run]; [by intros [= <-]|]. destruct (step n f a s) as [s1|] eqn:Es; [|done].
  intros Hrun Hb. assert (length (past s1) <= length (past s'))%nat as Hg.
  { clear -Hrun Hv0. revert s1 Hrun. induction acts as [|a acts IH]; intros s1; cbn [run]; [by intros [= <-]|]. destruct (step n f a s1) as [s2|] eqn:E; [|done].
    intros H. apply IH in H. apply past_grows in E. lia. }
  apply (IH s1); [|done|done]. pose proof (past_grows _ _ _ Es).
  destruct a; [by eapply begin_preserves|by eapply store_preserves|by eapply finish_preserves|]. eapply read_preserves; [done|lia|done].
Qed.

(** ** Progress *)

Lemma run_app a b : forall s : state P, run n f (a ++ b) s = match run n f a s with Some s => run n f b s | None => None end.
Proof. induction a as [|x a IH]; intros s; cbn [app run]; [done|]. destruct (step n f x s); [apply IH|done]. Qed.

Lemma place_lookup (c : list P) k : length c = length ps0 -> (k < length js)%nat -> exists i p, js !! k = Some i /\ c !! i = Some p.
Proof using Hjs.
  intros Hc Hk. destruct (lookup_lt_is_Some_2 js k Hk) as [i Hi]. pose proof (proj1 (Forall_lookup _ _) Hjs k i Hi) as Hlt. cbn in Hlt.
  destruct (lookup_lt_is_Some_2 c i ltac:(lia)) as [p Hp]. by exists i, p.
Qed.

Lemma copy_rest v (c : list P) p v1 : length c = length ps0 -> forall k copied, (length copied + k = length js)%nat ->
  run n f (replicate k Read) (State v c WIdle (RCopy v1 copied) p) = Some (State v c WIdle (RCopy v1 (copied ++ picked (drop (length copied) js) c)) p).
Proof using Hjs.
  intros Hc k. induction k as [|k IH]; intros copied Hk; cbn [replicate run].
  - rewrite drop_ge by lia. by rewrite app_nil_r.
  - cbn [step wr]. unfold read. cbn [rd cols]. destruct (place_lookup c (length copied) Hc) as (i & q & Hi & Hq); [lia|].
    rewrite Hi, Hq. cbn [ver wr past]. rewrite IH by (rewrite length_app; cbn; lia). rewrite <- app_assoc, length_app. cbn [app length].
    rewrite (drop_S _ _ _ Hi), Nat.add_1_r. unfold picked. cbn [omap list_omap]. by rewrite Hq.
Qed.

Lemma picked_length (c : list P) ks : length c = length ps0 -> (forall k, k ∈ ks -> k ∈ js) -> length (picked ks c) = length ks.
Proof using Hjs.
  intros Hc. induction ks as [|k ks IH]; intros Hin; [done|]. change (k :: ks) with ([k] ++ ks). rewrite picked_app, !length_app, IH by (intros; apply Hin; by right).
  pose proof (proj1 (Forall_forall _ _) Hjs k (Hin k ltac:(left))) as Hk. cbn in Hk. destruct (lookup_lt_is_Some_2 c k ltac:(lia)) as [q Hq].
  unfold picked. cbn. by rewrite Hq.
Qed.

(** From the beginning of a round. *)
Lemma round_from v (c : list P) p : length c = length ps0 -> 0 <= v < 2 ^ 31 ->
  run n f (replicate (length js + 1) Read) (State v c WIdle (RCopy v []) p) = Some (State v c WIdle (RDone (picked js c)) p).
Proof using Hjs.
  intros Hc Hv. rewrite replicate_add, run_app, (copy_rest v c p v Hc (length js) []) by done. cbn [app length replicate run step wr]. rewrite drop_0. unfold read. cbn [rd cols ver wr past].
  rewrite lookup_ge_None_2 by (rewrite picked_length; auto). rewrite stable_clean by done. unfold has_changed. by rewrite Z.eqb_refl.
Qed.

Lemma reader_finishes (s : state P) : invariant s -> wr s = WIdle -> (forall copied, rd s <> RDone copied) -> Z.of_nat (length (past s)) <= 2 ^ 31 ->
  exists k, (k <= 2 * length js + 2)%nat /\ run n f (replicate k Read) s = Some (State (ver s) (cols s) WIdle (RDone (picked js (cols s))) (past s)).
Proof.
  destruct s as [v c w r p]. intros [Hc Hp Hi Hv _ Hr] Hw Hnd Hb. unfold reader_ok, finished in *. cbn [ver cols wr rd past] in *. subst w. rewrite Z.add_0_r in Hv.
  pose proof (count_range (pred (length p))) as Hcr. rewrite <- Hv in Hcr. destruct r as [|v1 copied|copied]; [| |by destruct (Hnd copied)].
  - exists (S (length js + 1)). split; [lia|]. cbn [replicate run step wr]. unfold read at 1. cbn [rd cols ver wr past]. rewrite stable_clean by done. by apply round_from.
  - destruct Hr as (Hl & m & Hm & Hv1 & Hcopied).
    set (done := copied ++ picked (drop (length copied) js) c).
    assert (length done = length js) as Hld.
    { unfold done. rewrite length_app, picked_length, length_drop; [lia|done|]. intros k Hk. by eapply subseteq_drop. }
    assert (run n f (replicate (length js - length copied) Read) (State v c WIdle (RCopy v1 copied) p) = Some (State v c WIdle (RCopy v1 done) p)) as Hcopy by (apply copy_rest; [done|lia]).
    assert (run n f (replicate (length js - length copied + 1) Read) (State v c WIdle (RCopy v1 copied) p) = Some (State v c WIdle (if has_changed v1 v then RCopy v [] else RDone done) p)) as Hround.
    { rewrite replicate_add, run_app, Hcopy. cbn [replicate run step wr]. unfold read. cbn [rd cols ver wr past]. rewrite lookup_ge_None_2 by lia. by rewrite stable_clean. }
    unfold has_changed in Hround. rewrite Hv1, Hv, !ctr_clean in Hround by apply count_range. destruct (Z.eqb_spec (count (pred (length p))) (count m)) as [E|E]; cbn [negb] in Hround; rewrite <- Hv, <- Hv1 in Hround.
    + exists (length js - length copied + 1)%nat. split; [lia|]. rewrite Hround. do 3 f_equal. apply eq_sym, count_inj in E; [|done|lia].
      unfold done. rewrite (Hcopied E eq_refl) at 1. by rewrite <- picked_app, take_drop.
    + exists (length js - length copied + 1 + (length js + 1))%nat. split; [lia|]. rewrite replicate_add, run_app, Hround. by apply round_from.
Qed.
End facts.

(** ** What snapshots are *)

(** The columns asked for are columns of the row. *)
Definition in_row {P} (n : nat) (f : list nat) (ps : list P) : Prop :=
  (n <= length ps)%nat /\ match f with [i] => (i < length ps)%nat | _ => True end.

Lemma in_row_places {P} n f (ps : list P) : in_row n f ps -> Forall (fun j => j < length ps)%nat (places n f).
Proof.
  intros [Hn Hf]. assert (Forall (fun j => j < length ps)%nat (seq 0 n)) as Hseq by (apply Forall_forall; intros j Hj%elem_of_seq; lia).
  destruct f as [|i [|j f]]; cbn [places]; [done| |done]. by repeat constructor.
Qed.

Lemma run_preserves_start {P} n f v (ps : list P) acts s : 0 <= v < 2 ^ 31 -> in_row n f ps ->
  run n f acts (start v ps) = Some s -> Z.of_nat (length (past s)) <= 2 ^ 31 -> invariant n f v ps s.
Proof. intros Hv Hn Hrun Hb. eapply run_preserves; [|exact Hrun|done]. by apply invariant_start. Qed.

Lemma past_lengths {P} n f v (ps : list P) acts s : run n f acts (start v ps) = Some s ->
  length (cols s) = length ps /\ Forall (fun ps' => length ps' = length ps) (past s).
Proof.
  assert (forall acts (s1 : state P), length (cols s1) = length ps /\ Forall (fun ps' => length ps' = length ps) (past s1) -> run n f acts s1 = Some s ->
    length (cols s) = length ps /\ Forall (fun ps' => length ps' = length ps) (past s)) as H.
  { clear. induction acts as [|a acts IH]; intros s1 Hs1; cbn [run]; [by intros [= <-]|]. destruct (step n f a s1) as [s2|] eqn:E; [|done].
    apply IH. clear -Hs1 E. destruct s1 as [v1 c w r p], Hs1 as [Hc Hp]. cbn [cols past] in *.
    destruct a, w as [|[|[i q] chs]]; cbn in E; unfold read in E; cbn in E; repeat case_match; simplify_eq E; intros <-; cbn [cols past]; rewrite ?length_insert; (split; [congruence|]); auto. }
  apply H. cbn. auto.
Qed.

(** C28: whatever the interleaving with updates in place, a snapshot that finishes
    has the columns that the row had between two updates, at some time since the
    snapshot began, none of them from another: all of them, or the one that is
    asked for, provided that the row has it and that fewer than 2^31 updates
    finish meanwhile, since the count has 31 bits. *)
Theorem snapshot_consistent {P} n f v (ps : list P) acts s copied : 0 <= v < 2 ^ 31 -> in_row n f ps ->
  run n f acts (start v ps) = Some s -> Z.of_nat (length (past s)) <= 2 ^ 31 -> rd s = RDone copied ->
  exists ps', ps' ∈ past s /\ copied = asked n f ps'.
Proof.
  intros Hv Hn Hrun Hb Hrd. pose proof (run_preserves_start n f v ps acts s Hv Hn Hrun Hb) as [_ _ _ _ _ Hr].
  unfold reader_ok in Hr. rewrite Hrd in Hr. destruct Hr as (ps' & Hin & ->). exists ps'. split; [done|]. apply picked_places.
  destruct (past_lengths _ _ _ _ _ _ Hrun) as [_ Hl]. rewrite Forall_forall in Hl. rewrite (Hl _ Hin). apply Hn.
Qed.

(** Two columns; an update of both between the copies of them. *)
Definition torn : list (action nat) := [Read; Read; Begin [(0%nat, 7%nat); (1%nat, 8%nat)]; Store; Read; Store; Finish; Read; Read; Read; Read].

Lemma snapshot_consistent_witness : exists s, run 2 [] torn (start 5 [1%nat; 2%nat]) = Some s /\ exists ps', ps' ∈ past s /\ [7%nat; 8%nat] = take 2 ps'.
Proof.
  eexists. split; [vm_compute; reflexivity|].
  apply (snapshot_consistent 2 [] 5 [1%nat; 2%nat] torn); [lia|split; [cbn; lia|done]|vm_compute; reflexivity|vm_compute; discriminate|reflexivity].
Defined.

(** The second column alone, copied before and after it is stored. *)
Lemma one_column_snapshot : exists s,
  run 2 [1%nat] [Read; Begin [(1%nat, 8%nat)]; Read; Store; Finish; Read; Read; Read] (start 5 [1%nat; 2%nat]) = Some s /\ rd s = RDone [8%nat].
Proof. eexists. split; [vm_compute; reflexivity|done]. Qed.

(** C29: a snapshot finishes once updates pause: from any state that is reached with
    no update under way, the reader alone finishes within two rounds, with the
    columns of that state, provided as for its consistency that the row has the
    column that is asked for and that fewer than 2^31 updates finished since it
    began. *)
Theorem snapshot_finishes {P} n f v (ps : list P) acts s : 0 <= v < 2 ^ 31 -> in_row n f ps ->
  run n f acts (start v ps) = Some s -> Z.of_nat (length (past s)) <= 2 ^ 31 -> wr s = WIdle -> (forall copied, rd s <> RDone copied) ->
  exists k, (k <= 2 * length (places n f) + 2)%nat /\
    run n f (replicate k Read) s = Some (State (ver s) (cols s) WIdle (RDone (asked n f (cols s))) (past s)).
Proof.
  intros Hv Hn Hrun Hb Hw Hnd. destruct (past_lengths _ _ _ _ _ _ Hrun) as [Hc _]. rewrite <- picked_places by (rewrite Hc; apply Hn).
  eapply (reader_finishes n f v); [by apply in_row_places| |done|done|done]. by apply (run_preserves_start n f v ps acts s Hv Hn Hrun Hb).
Qed.

Lemma snapshot_finishes_witness : exists s, run 2 [] (take 7 torn) (start 5 [1%nat; 2%nat]) = Some s /\
  exists k, (k <= 2 * 2 + 2)%nat /\ run 2 [] (replicate k Read) s = Some (State (ver s) (cols s) WIdle (RDone (take 2 (cols s))) (past s)).
Proof.
  eexists. split; [vm_compute; reflexivity|].
  apply (snapshot_finishes 2 [] 5 [1%nat; 2%nat] (take 7 torn)); [lia|split; [cbn; lia|done]|vm_compute; reflexivity|vm_compute; discriminate|reflexivity|discriminate].
Defined.
End snapshots.
