(* ===== verification/ValueVersionedFacts.v ===== *)
(** * Versioned arrays: what snapshots copy and free

    Snapshots without interference, and two that go wrong: of a column the row does
    not have, and into a storage that is too small. *)

From S2P Require Export Snapshots.

#[local] Open Scope Z_scope.
#[local] Open Scope lhm_scope.
Import versioned.

(** ** Steps on a heap *)

Lemma load_versioned_at h lim l sz (r : row) : h !! l = Some (sz, Row r) -> load_row l (Threadinfo h lim) = Ok (r, Threadinfo h lim).
Proof. intros H. unfold load_row, load, sbind, sm_bind. cbn. by rewrite H. Qed.

Lemma store_row_at h lim l sz (r r' : row) : h !! l = Some (sz, Row r) -> store_row l r' (Threadinfo h lim) = Ok (tt, Threadinfo (<[l := (sz, Row r')]> h) lim).
Proof. intros H. unfold store_row. cbn. by rewrite H. Qed.

Lemma set_ncol_at h lim l sz r n : h !! l = Some (sz, Row r) -> 0 <= n < 2 ^ 15 ->
  set_ncol l n (Threadinfo h lim) = Ok (tt, Threadinfo (<[l := (sz, Row (Versioned (ts r) (ver r) n (ncol_cap r) (cols r)))]> h) lim).
Proof.
  intros H Hn. unfold set_ncol. rewrite (sbind_run _ _ _ _ _ (load_versioned_at _ _ _ _ _ H)).
  assert (Word.signed 16 n = n) as ->.
  { unfold Word.signed. cbn zeta. rewrite Word.wrap_small, (proj2 (Z.ltb_lt _ _)) by first [lia | split; lia]. done. }
  by apply (store_row_at _ _ _ sz r).
Qed.

(** A row with [k] columns between updates. *)
Definition quiet (r : row) : Prop := ncol r = len (cols r) /\ ncol r < 2 ^ 15 /\ 0 <= ver r < 2 ^ 31.

(** A snapshot in new storage. *)
Lemma new_snapshot h lim r f : quiet r ->
  (let* s := make_sized_row (ncol r) (ts r) in let* _ := set_ncol s (ncol r) in let* _ := lift (rowversion.stable (ver r)) in let* _ := copy_round s f r in mret s) (Threadinfo h lim) =
    (let s := fresh (dom h) in
     (let* _ := copy_round s f r in mret s)
       (Threadinfo (<[s := (shallow_size (ncol r), Row (Versioned (ts r) rowversion.initial (ncol r) (ncol r) (replicate (length (cols r)) None)))]> h) lim)).
Proof.
  intros (Hn & Hn' & Hv). assert (0 <= ncol r < 2 ^ 15) as Hr by lia.
  unfold make_sized_row, sbind at 1, sm_bind at 1, allocate. cbn [heap limbo]. set (s := fresh (dom h)).
  assert (Word.signed 16 (ncol r) = ncol r) as ->.
  { unfold Word.signed. cbn zeta. rewrite Word.wrap_small, (proj2 (Z.ltb_lt _ _)) by first [lia | split; lia]. done. }
  rewrite (sbind_run _ _ _ _ _ (set_ncol_at _ _ _ _ _ _ (lookup_insert_eq _ _ _) Hr)). cbn [ts ver ncol_cap cols].
  rewrite insert_insert_eq, (sbind_run _ _ _ _ _ (lift_run _ _ _ (snapshots.stable_clean _ Hv))). by replace (Z.to_nat (ncol r)) with (length (cols r)) by lia.
Qed.

Lemma first_snapshot h lim l sz r f : h !! l = Some (sz, Row r) ->
  snapshot l None f (Threadinfo h lim) =
  (let* s := make_sized_row (ncol r) (ts r) in let* _ := set_ncol s (ncol r) in let* _ := lift (rowversion.stable (ver r)) in let* _ := copy_round s f r in mret s) (Threadinfo h lim).
Proof. intros Hl. unfold snapshot. by rewrite (sbind_run _ _ _ _ _ (load_versioned_at _ _ _ _ _ Hl)). Qed.

(** [snapshot] of one column does not test that the row has it: with an index
    outside the row it accesses the column array of the row, and of the snapshot,
    out of bounds. *)
Lemma snapshot_unchecked ti l sz r i : heap ti !! l = Some (sz, Row r) -> quiet r -> ~ 0 <= i < ncol r ->
  snapshot l None [i] ti = Fault OutOfBounds.
Proof.
  destruct ti as [h lim]. intros Hl Hq Hi. rewrite (first_snapshot h lim l sz r), new_snapshot by done. destruct Hq as (Hn & _ & _). cbv zeta. unfold copy_round. rewrite sbind_assoc.
  assert (get_col i r = Fault OutOfBounds) as Hg.
  { unfold get_col, aget. destruct (Z.ltb_spec i 0); [done|]. by rewrite lookup_ge_None_2 by lia. }
  unfold sbind at 1, sm_bind at 1, lift. by rewrite Hg.
Qed.

(** A row with the column a. *)
Definition one_column : threadinfo row :=
  Threadinfo (<[1%positive := (24, Row (Versioned 5 3 1 1 [Some 2%positive]))]> (<[2%positive := (5, Column [97])]> ∅)) [].

(** The whole row copied into storage of its size. *)
Lemma copy_all h lim s sz r st f : h !! s = Some (sz, Row st) -> length f <> 1%nat -> ncol st = len (cols st) -> len (cols r) = ncol st ->
  copy_round s f r (Threadinfo h lim) = Ok (tt, Threadinfo (<[s := (sz, Row (Versioned (ts st) (ver st) (ncol st) (ncol_cap st) (cols r)))]> h) lim).
Proof.
  intros Hs Hf Hn Hr. assert (copy_round s f r = (let* st := load_row s in
    let* ps := lift (let? _ := in_bounds ((ncol st <=? Z.of_nat (length (cols st))) && (ncol st <=? Z.of_nat (length (cols r)))) in
                     Ok (take (Z.to_nat (ncol st)) (cols r) ++ drop (Z.to_nat (ncol st)) (cols st))) in
    store_row s (Versioned (ts st) (ver st) (ncol st) (ncol_cap st) ps))) as -> by (by destruct f as [|? [|]]).
  rewrite (sbind_run _ _ _ _ _ (load_versioned_at _ _ _ _ _ Hs)). rewrite !(proj2 (Z.leb_le _ _)) by lia. cbn [in_bounds andb]. rewrite rbind_Ok.
  rewrite (sbind_run _ _ _ _ _ (lift_run _ _ _ eq_refl)). rewrite take_ge, drop_ge, app_nil_r by lia. by apply (store_row_at _ _ _ sz st).
Qed.

Lemma new_whole_snapshot h lim r f : quiet r -> length f <> 1%nat ->
  (let* s := make_sized_row (ncol r) (ts r) in let* _ := set_ncol s (ncol r) in let* _ := lift (rowversion.stable (ver r)) in let* _ := copy_round s f r in mret s) (Threadinfo h lim) =
    Ok (fresh (dom h), Threadinfo (<[fresh (dom h) := (shallow_size (ncol r), Row (Versioned (ts r) rowversion.initial (ncol r) (ncol r) (cols r)))]> h) lim).
Proof.
  intros Hq Hf. rewrite new_snapshot by done. cbv zeta. destruct Hq as (Hn & _).
  set (st := Versioned _ _ _ _ _). assert (ncol st = len (cols st)) as Hst by (cbn; by rewrite length_replicate).
  rewrite (sbind_run _ _ _ _ _ (copy_all _ _ _ _ r st f (lookup_insert_eq _ _ _) Hf Hst (eq_sym Hn))). by rewrite insert_insert_eq.
Qed.

(** A snapshot's storage that is too small for the next row is freed together
    with the columns it points to; but a snapshot shares its columns with the row
    it was taken of, so that the row loses them: it still points to a column that
    has been freed. *)
Lemma snapshot_frees_shared ti a b sza szb ra rb q szq c : a <> b ->
  heap ti !! a = Some (sza, Row ra) -> quiet ra -> cols ra = [Some q] -> heap ti !! b = Some (szb, Row rb) -> quiet rb -> 1 < ncol rb ->
  szq = inline_string_size (len c) -> heap ti !! q = Some (szq, Column c) -> q ∉ limbo ti -> Forall (fun l => is_Some (heap ti !! l)) (limbo ti) ->
  exists s1 s2 ti', (let* s1 := snapshot a None [] in let* s2 := snapshot b (Some s1) [] in mret (s1, s2)) ti = Ok ((s1, s2), ti') /\
    heap ti' !! a = Some (sza, Row ra) /\ ~ (exists sz s, heap ti' !! q = Some (sz, Column s)).
Proof.
  destruct ti as [h lim]. cbn [heap limbo]. intros Hab Ha Hqa Hca Hb Hqb Hnb Hsz Hq Hlim Hin. set (s1 := fresh (dom h)). pose proof (fresh_not_in h) as Hf. fold s1 in Hf.
  assert (ncol ra = 1) as Hna by (destruct Hqa as (H & _); by rewrite H, Hca).
  assert (s1 <> a /\ s1 <> b /\ s1 <> q) as (Hsa & Hsb & Hsq) by (repeat split; congruence). assert (a <> q /\ b <> q) as [Haq Hbq] by (split; congruence).
  set (S1 := (shallow_size 1, Row (Versioned (ts ra) rowversion.initial 1 1 [Some q]))).
  assert (snapshot a None [] (Threadinfo h lim) = Ok (s1, Threadinfo (<[s1 := S1]> h) lim)) as Hfirst.
  { rewrite (first_snapshot h lim a sza ra), new_whole_snapshot by done. fold s1. by rewrite Hna, Hca. }
  rewrite (sbind_run _ _ _ _ _ Hfirst). set (h1 := <[s1 := S1]> h).
  assert (h1 !! s1 = Some S1) as Hs1 by apply lookup_insert_eq. unfold S1 in Hs1.
  assert (h1 !! b = Some (szb, Row rb)) as Hb1 by (unfold h1; by rewrite lookup_insert_ne).
  assert (h1 !! q = Some (szq, Column c)) as Hq1 by (unfold h1; by rewrite lookup_insert_ne).
  assert (deallocate s1 (Threadinfo h1 lim) = Ok (tt, Threadinfo (delete s1 (delete q h1)) lim)) as Hfree.
  { unfold deallocate. rewrite (sbind_run _ _ _ _ _ (load_versioned_at _ _ _ _ _ Hs1)). cbn [ncol]. change (Z.to_nat 1) with 1%nat. cbn [each_column].
    assert (get_col 0 (Versioned (ts ra) rowversion.initial 1 1 [Some q]) = Ok (Some q)) as Hg by done. rewrite !sbind_assoc, (sbind_run _ _ _ _ _ (lift_run _ _ _ Hg)).
    cbn [deallocate_column]. unfold load_column at 1, load, RowHeap.deallocate, sbind, sm_bind. cbn. rewrite Hq1. cbn. rewrite Hq1, <- Hsz, Z.eqb_refl, bool_decide_eq_false_2 by done. cbn.
    rewrite lookup_delete_ne by done. unfold h1. rewrite lookup_insert_eq. cbn. rewrite bool_decide_eq_false_2; [done|]. intros H. rewrite Forall_forall in Hin. apply Hin in H as [? ?]. congruence. }
  set (h2 := delete s1 (delete q h1)) in *. assert (h2 !! b = Some (szb, Row rb)) as Hb2 by (unfold h2; by rewrite !lookup_delete_ne).
  assert (snapshot b (Some s1) [] (Threadinfo h1 lim) = snapshot b None [] (Threadinfo h2 lim)) as Hsecond.
  { rewrite (first_snapshot h2 lim b szb rb) by done. unfold snapshot. rewrite (sbind_run _ _ _ _ _ (load_versioned_at _ _ _ _ _ Hb1)), sbind_assoc.
    rewrite (sbind_run _ _ _ _ _ (load_versioned_at _ _ _ _ _ Hs1)). cbn [ncol_cap]. rewrite (proj2 (Z.ltb_lt _ _)), sbind_assoc by done. by rewrite (sbind_run _ _ _ _ _ Hfree). }
  rewrite (first_snapshot h2 lim b szb rb), new_whole_snapshot in Hsecond by done. rewrite (sbind_run _ _ _ _ _ Hsecond).
  eexists _, _, _. split; [done|]. cbn [heap]. pose proof (fresh_not_in h2) as Hf2.
  assert (h2 !! a = Some (sza, Row ra)) as Ha2 by (unfold h2, h1; rewrite !lookup_delete_ne, lookup_insert_ne by done; done).
  rewrite lookup_insert_ne by congruence. split; [done|]. intros (sz & s & H). destruct (decide (fresh (dom h2) = q)) as [E|E].
  - by rewrite E, lookup_insert_eq in H.
  - rewrite lookup_insert_ne in H by done. unfold h2 in H. by rewrite lookup_delete_ne, lookup_delete_eq in H by done.
Qed.

(** Rows of one and of two columns. *)
Definition two_rows : threadinfo row :=
  Threadinfo (<[3%positive := (32, Row (Versioned 6 0 2 2 [None; None]))]> (heap one_column)) [].

