(* ===== verification/Log.v ===== *)
(** * The log: records, writers and the logger (log.hh, log.cc)

    Each logging thread has a buffer in memory, which writers append records to
    under a lock and the thread writes to its file; recovery reads the files. *)

From S2P Require Export ValueBagFacts CircularInt.

#[local] Open Scope Z_scope.
#[local] Open Scope lhm_scope.

(** ** Fields in memory *)

Definition get32 (off : Z) (m : bytes) : res Z := let? bs := mem_read off 4 m in Ok (le_value bs).
Definition get64 (off : Z) (m : bytes) : res Z := let? bs := mem_read off 8 m in Ok (le_value bs).
Definition put32 (off x : Z) (m : bytes) : res bytes := mem_write off (le_bytes 4 (Word.wrap 32 x)) m.
Definition put64 (off x : Z) (m : bytes) : res bytes := mem_write off (le_bytes 8 (Word.wrap 64 x)) m.

(** [enum logcommand] *)
Definition logcmd_none : Z := 0.
Definition logcmd_put : Z := 0x5455506B.
Definition logcmd_replace : Z := 0x3155506B.
Definition logcmd_modify : Z := 0x444F4D6B.
Definition logcmd_remove : Z := 0x4D45526B.
Definition logcmd_epoch : Z := 0x4F50456B.
Definition logcmd_quiesce : Z := 0x4955516B.
Definition logcmd_wake : Z := 0x4B41576B.

(** ** Records

    Each [store] writes at [buf] and returns the size with the memory; the fields
    are where the structures have them, and [buf_] of the last two begins before
    their padding ends. *)
Module logrec_base.
Definition sizeof : Z := 8.
Definition store (buf command : Z) (m : bytes) : res (Z * bytes) :=
  let? m := put32 buf command m in
  let? m := put32 (buf + 4) sizeof m in
  Ok (sizeof, m).
Definition check (buf : Z) (m : bytes) : res bool := let? s := get32 (buf + 4) m in Ok (sizeof <=? s).
Definition command (buf : Z) (m : bytes) : res Z := get32 buf m.
Definition size_ (buf : Z) (m : bytes) : res Z := get32 (buf + 4) m.
End logrec_base.

Module logrec_epoch.
Definition sizeof : Z := 16.
Definition store (buf command epoch : Z) (m : bytes) : res (Z * bytes) :=
  let? m := put32 buf command m in
  let? m := put32 (buf + 4) sizeof m in
  let? m := put64 (buf + 8) epoch m in
  Ok (sizeof, m).
Definition check (buf : Z) (m : bytes) : res bool := let? s := get32 (buf + 4) m in Ok (sizeof <=? s).
Definition epoch_ (buf : Z) (m : bytes) : res Z := get64 (buf + 8) m.
End logrec_epoch.

Module logrec_kv.
Definition sizeof : Z := 24.
Definition buf_ : Z := 20.
Definition size (keylen vallen : Z) : Z := sizeof + keylen + vallen.
Definition store (buf command : Z) (key val : bytes) (ts : Z) (m : bytes) : res (Z * bytes) :=
  let k := Z.of_nat (length key) in
  let v := Z.of_nat (length val) in
  let? m := put32 buf command m in
  let? m := put32 (buf + 4) (sizeof + k + v) m in
  let? m := put64 (buf + 8) ts m in
  let? m := put32 (buf + 16) k m in
  let? m := mem_write (buf + buf_) key m in
  let? m := mem_write (buf + buf_ + k) val m in
  Ok (sizeof + k + v, m).
Definition check (buf : Z) (m : bytes) : res bool :=
  let? s := get32 (buf + 4) m in
  if sizeof <=? s then let? k := get32 (buf + 16) m in Ok (sizeof + k <=? s) else Ok false.
End logrec_kv.

Module logrec_kvdelta.
Definition sizeof : Z := 32.
Definition buf_ : Z := 28.
Definition size (keylen vallen : Z) : Z := sizeof + keylen + vallen.
Definition store (buf command : Z) (key val : bytes) (prev_ts ts : Z) (m : bytes) : res (Z * bytes) :=
  let k := Z.of_nat (length key) in
  let v := Z.of_nat (length val) in
  let? m := put32 buf command m in
  let? m := put32 (buf + 4) (sizeof + k + v) m in
  let? m := put64 (buf + 8) ts m in
  let? m := put64 (buf + 16) prev_ts m in
  let? m := put32 (buf + 24) k m in
  let? m := mem_write (buf + buf_) key m in
  let? m := mem_write (buf + buf_ + k) val m in
  Ok (sizeof + k + v, m).
Definition check (buf : Z) (m : bytes) : res bool :=
  let? s := get32 (buf + 4) m in
  if sizeof <=? s then let? k := get32 (buf + 24) m in Ok (sizeof + k <=? s) else Ok false.
End logrec_kvdelta.

(** ** Writers *)

Record query_times := QueryTimes { qt_epoch : Z; qt_ts : Z; qt_prev_ts : Z }.

(** [loginfo]; [waiting] holds the threads in [f_.waiting_], and [len_] is the
    length of [buf]. *)
Record loginfo := Loginfo {
  waiting : list nat;
  log_epoch : Z;
  quiescent_epoch : Z;
  wake_epoch : Z;
  flushed_epoch : Z;
  buf : bytes;
  pos : Z;
}.

Definition len_ (li : loginfo) : Z := Z.of_nat (length (buf li)).
Definition quiescent (li : loginfo) : bool := negb (quiescent_epoch li =? 0) && (quiescent_epoch li =? flushed_epoch li).

(** Appending a record that [store] makes. *)
Definition append (store : Z -> bytes -> res (Z * bytes)) (li : loginfo) : res loginfo :=
  let? r := store (pos li) (buf li) in
  let (n, b) := (r : Z * bytes) in
  Ok (Loginfo (waiting li) (log_epoch li) (quiescent_epoch li) (wake_epoch li) (flushed_epoch li) b (Word.addw 32 (pos li) n)).

Definition set_log_epoch (e : Z) (li : loginfo) : loginfo :=
  Loginfo (waiting li) e (quiescent_epoch li) (wake_epoch li) (flushed_epoch li) (buf li) (pos li).
Definition set_wake_epoch (e : Z) (li : loginfo) : loginfo :=
  Loginfo (waiting li) (log_epoch li) (quiescent_epoch li) e (flushed_epoch li) (buf li) (pos li).
Definition set_waiting (w : list nat) (li : loginfo) : loginfo :=
  Loginfo w (log_epoch li) (quiescent_epoch li) (wake_epoch li) (flushed_epoch li) (buf li) (pos li).

(** The log is no longer quiescent: [quiescent_epoch_ = 0], and what was flushed
    counts up to the query's epoch. *)
Definition leave_quiescence (epoch : Z) (li : loginfo) : loginfo :=
  Loginfo (waiting li) (log_epoch li) 0 (wake_epoch li)
    (if flushed_epoch li =? quiescent_epoch li then epoch else flushed_epoch li) (buf li) (pos li).

(** What a record takes at most. *)
Definition record_size (key value : bytes) : Z :=
  logrec_kvdelta.size (Z.of_nat (length key)) (Z.of_nat (length value)) + logrec_epoch.sizeof + logrec_base.sizeof.

(** The locked part of [record] once there is room: the log and [global_wake_epoch],
    which [cmpxchg] raises to the query's epoch. *)
Definition write_record (command : Z) (qt : query_times) (key value : bytes) (li : loginfo) (global_wake : Z) : res (loginfo * Z) :=
  let we := global_wake in
  let? li :=
    (if negb (qt_epoch qt =? log_epoch li) then append (fun p => logrec_epoch.store p logcmd_epoch (qt_epoch qt)) (set_log_epoch (qt_epoch qt) li)
     else Ok li) in
  let '(li, we, global_wake) :=
    (if negb (quiescent_epoch li =? 0) then
       let li := leave_quiescence (qt_epoch qt) li in
       if circ_lt 64 we (qt_epoch qt) then (li, qt_epoch qt, qt_epoch qt) else (li, we, global_wake)
     else (li, we, global_wake)) in
  let we := if negb (we =? wake_epoch li) && circ_lt 64 (qt_epoch qt) we then qt_epoch qt else we in
  let? li :=
    (if negb (we =? wake_epoch li) then append (fun p => logrec_base.store p logcmd_wake) (set_wake_epoch we li) else Ok li) in
  let? li :=
    (if (command =? logcmd_put) && negb (qt_prev_ts qt =? 0) && negb (Z.testbit (qt_prev_ts qt) 0)
     then append (fun p => logrec_kvdelta.store p logcmd_modify key value (qt_prev_ts qt) (qt_ts qt)) li
     else append (fun p => logrec_kv.store p command key value (qt_ts qt)) li) in
  Ok (li, global_wake).

(** One round of the loop by thread [me], with the lock held: [true] when the
    record is written, otherwise the thread waits in turn. *)
Definition try_record (me : nat) (command : Z) (qt : query_times) (key value : bytes) (li : loginfo) (global_wake : Z) : res (bool * loginfo * Z) :=
  let queued := bool_decide (me ∈ waiting li) in
  let first := match waiting li with t :: _ => bool_decide (t = me) | [] => false end in
  if (record_size key value <=? Word.subw 32 (len_ li) (pos li)) && (negb queued || first) then
    let? r := write_record command qt key value li global_wake in
    let (li, gw) := (r : loginfo * Z) in
    Ok (true, (if first then set_waiting (tail (waiting li)) li else li), gw)
  else Ok (false, (if queued then li else set_waiting (waiting li ++ [me]) li), global_wake).

(** [record(command, qtimes, key, req, end_req)]: the value of a put. *)
Definition changeset_value (req : list Json) : bytes := format.write_array_header (Z.of_nat (length req)) ++ flat_map unparse req.

(** ** The logger *)

(** [check_epoch] when its time has come. *)
Definition advance_epoch (global_log_epoch : Z) : Z := next_nonzero 64 global_log_epoch.

(** The locked part of the loop of [run]: what is to be written, with its epoch. *)
Definition collect (recovering : bool) (ge we : Z) (li : loginfo) (x_buf : bytes) : res (loginfo * option (bytes * Z)) :=
  let li := if negb (wake_epoch li =? we)
    then Loginfo (waiting li) (log_epoch li) 0 we (flushed_epoch li) (buf li) (pos li) else li in
  let? li :=
    (if negb recovering && (pos li =? 0) && (quiescent_epoch li =? 0) && negb (ge =? log_epoch li) && negb (ge =? we) && match waiting li with [] => true | _ => false end then
       let li := Loginfo (waiting li) ge ge (wake_epoch li) (flushed_epoch li) (buf li) (pos li) in
       let? r := logrec_epoch.store 0 logcmd_epoch (log_epoch li) (buf li) in
       let (p, b) := (r : Z * bytes) in
       let? r := (if log_epoch li =? wake_epoch li then logrec_base.store p logcmd_wake b else Ok (0, b)) in
       let (n, b) := (r : Z * bytes) in
       let p := p + n in
       let? r := logrec_base.store p logcmd_quiesce b in
       let (n, b) := (r : Z * bytes) in
       Ok (Loginfo (waiting li) (log_epoch li) (quiescent_epoch li) (wake_epoch li) (flushed_epoch li) b (p + n))
     else Ok li) in
  if negb recovering && (0 <? pos li) then
    let? data := mem_read 0 (pos li) (buf li) in
    Ok (Loginfo (waiting li) (log_epoch li) (quiescent_epoch li) (wake_epoch li) (flushed_epoch li) x_buf 0, Some (data, log_epoch li))
  else Ok (li, None).

(** After [write] and [fsync]. *)
Definition flushed (x_epoch : Z) (li : loginfo) : loginfo :=
  Loginfo (waiting li) (log_epoch li) (quiescent_epoch li) (wake_epoch li) x_epoch (buf li) (pos li).
