(* ===== verification/LogReplay.v ===== *)
(** * The log: reading it back (log.cc)

    Recovery maps a log file into memory: it extracts records one after the other,
    determines the epochs the log covers, replays the records that a checkpoint
    does not have and keeps their part of the file. *)

From S2P Require Export Log.

#[local] Open Scope Z_scope.
#[local] Open Scope lhm_scope.

(** [struct logrecord]; [extract] leaves the fields a record does not have as
    they were. *)
Record logrecord := Logrecord {
  lr_command : Z;
  lr_key : bytes;
  lr_val : bytes;
  lr_ts : Z;
  lr_prev_ts : Z;
  lr_epoch : Z;
}.

Definition no_record : logrecord := Logrecord logcmd_none [] [] 0 0 0.
Definition set_command (c : Z) (lr : logrecord) : logrecord := Logrecord c (lr_key lr) (lr_val lr) (lr_ts lr) (lr_prev_ts lr) (lr_epoch lr).

(** [extract(buf, end)]: the record at [buf] and the position of the next one. *)
Definition extract (buf : Z) (m : bytes) (lr : logrecord) : res (logrecord * Z) :=
  let end_ := Z.of_nat (length m) in
  let failed := Ok (set_command logcmd_none lr, end_) in
  if end_ - buf <? logrec_base.sizeof then failed
  else
    let? size := logrec_base.size_ buf m in
    let? command := logrec_base.command buf m in
    if (size <? logrec_base.sizeof) || (end_ - buf <? size) || (command =? logcmd_none) then failed
    else
      let next := buf + size in
      if (command =? logcmd_put) || (command =? logcmd_replace) || (command =? logcmd_remove) then
        if size <? logrec_kv.sizeof then failed
        else
          let? keylen := get32 (buf + 16) m in
          if (MASSTREE_MAXKEYLEN <? keylen) || (size <? logrec_kv.sizeof + keylen) then failed
          else
            let? ts := get64 (buf + 8) m in
            let? key := mem_read (buf + logrec_kv.buf_) keylen m in
            let? val := mem_read (buf + logrec_kv.buf_ + keylen) (size - logrec_kv.sizeof - keylen) m in
            Ok (Logrecord command key val ts (lr_prev_ts lr) (lr_epoch lr), next)
      else if command =? logcmd_modify then
        let? keylen := get32 (buf + 24) m in
        if (MASSTREE_MAXKEYLEN <? keylen) || (size <? logrec_kvdelta.sizeof + keylen) then failed
        else
          let? ts := get64 (buf + 8) m in
          let? prev_ts := get64 (buf + 16) m in
          let? key := mem_read (buf + logrec_kvdelta.buf_) keylen m in
          let? val := mem_read (buf + logrec_kvdelta.buf_ + keylen) (size - logrec_kvdelta.sizeof - keylen) m in
          Ok (Logrecord command key val ts prev_ts (lr_epoch lr), next)
      else if command =? logcmd_epoch then
        if size <? logrec_epoch.sizeof then failed
        else
          let? epoch := logrec_epoch.epoch_ buf m in
          Ok (Logrecord command (lr_key lr) (lr_val lr) (lr_ts lr) (lr_prev_ts lr) epoch, next)
      else Ok (set_command command lr, next).

(** [parse_changeset(changeset, jrepo)]: the array of columns and values, as
    [unsigned] and strings.  Each round reads at least two bytes. *)
Fixpoint parse_changeset_loop (fuel : nat) (s : bytes) : res (list Json) :=
  match s with
  | [] => Ok []
  | _ =>
    match fuel with
    | O => Fault OutOfFuel
    | S fuel =>
      let? r := read_int type_unsigned 0 s in
      let (index, s) := (r : Z * bytes) in
      let? r := read_str s in
      let (value, s) := (r : bytes * bytes) in
      let? rest := parse_changeset_loop fuel s in
      Ok (JUnsigned index :: JString value :: rest)
    end
  end.
Definition parse_changeset (changeset : bytes) : res (list Json) := parse_changeset_loop (length changeset) changeset.

(** ** What a log covers *)

Record info_type := Info {
  first_epoch : Z;
  last_epoch : Z;
  info_wake_epoch : Z;
  min_post_quiescent : Z;
  info_quiescent : bool;
}.

Definition known_command (c : Z) : bool :=
  (c =? logcmd_put) || (c =? logcmd_replace) || (c =? logcmd_modify) || (c =? logcmd_remove) || (c =? logcmd_quiesce).

(** One record of [info]: [None] when the log is corrupt here. *)
Definition info_record (command : Z) (epoch : res (option Z)) (x : info_type) : res (option info_type) :=
  let x := Info (first_epoch x) (last_epoch x) (info_wake_epoch x) (min_post_quiescent x) (command =? logcmd_quiesce) in
  if command =? logcmd_epoch then
    let? e := epoch in
    match e with
    | None => Ok None
    | Some e =>
      let first := if first_epoch x =? 0 then e else first_epoch x in
      let wake := if negb (info_wake_epoch x =? 0) && circ_gt 64 (info_wake_epoch x) e then 0 else info_wake_epoch x in
      Ok (Some (Info first e wake (min_post_quiescent x) (info_quiescent x)))
    end
  else if command =? logcmd_wake then Ok (Some (Info (first_epoch x) (last_epoch x) (last_epoch x) (min_post_quiescent x) (info_quiescent x)))
  else if known_command command then Ok (Some x)
  else Ok None.

(** The epoch of an epoch record that is large enough. *)
Definition epoch_at (buf size : Z) (m : bytes) : res (option Z) :=
  if size <? logrec_epoch.sizeof then Ok None else let? e := logrec_epoch.epoch_ buf m in Ok (Some e).

(** The loop of [info]; a record takes at least 8 bytes. *)
Fixpoint info_loop (fuel : nat) (buf : Z) (m : bytes) (x : info_type) : res info_type :=
  let end_ := Z.of_nat (length m) in
  if end_ <? buf + logrec_base.sizeof then Ok x
  else
    match fuel with
    | O => Fault OutOfFuel
    | S fuel =>
      let? size := logrec_base.size_ buf m in
      if size <? logrec_base.sizeof then Ok x
      else if end_ <? buf + size then Ok x
      else
        let? command := logrec_base.command buf m in
        let? r := info_record command (epoch_at buf size m) x in
        match r with
        | None => Ok (Info (first_epoch x) (last_epoch x) (info_wake_epoch x) (min_post_quiescent x) (command =? logcmd_quiesce))
        | Some x => info_loop fuel (buf + size) m x
        end
    end.
Definition info (m : bytes) : res info_type := info_loop (length m) 0 m (Info 0 0 0 0 true).

Fixpoint min_post_loop (fuel : nat) (buf : Z) (m : bytes) (quiescent_epoch e : Z) : res Z :=
  let end_ := Z.of_nat (length m) in
  if end_ <? buf + logrec_base.sizeof then Ok 0
  else
    match fuel with
    | O => Fault OutOfFuel
    | S fuel =>
      let? size := logrec_base.size_ buf m in
      if size <? logrec_base.sizeof then Ok 0
      else if end_ <? buf + size then Ok 0
      else
        let? command := logrec_base.command buf m in
        if command =? logcmd_epoch then
          let? r := epoch_at buf size m in
          match r with None => Ok 0 | Some e => min_post_loop fuel (buf + size) m quiescent_epoch e end
        else if (command =? logcmd_wake) && negb (e =? 0) && circ_ge 64 e quiescent_epoch then Ok e
        else min_post_loop fuel (buf + size) m quiescent_epoch e
    end.
Definition min_post_quiescent_wake_epoch (quiescent_epoch : Z) (m : bytes) : res Z := min_post_loop (length m) 0 m quiescent_epoch 0.

(** ** Replay *)

(** [replayandclean1] up to the rewriting of the file, over a state [T] that
    [run] applies records to: what it did, with the part of the file it keeps. *)
Section replay.
Context {T : Type} (run : logrecord -> T -> res T) (min_epoch max_epoch : Z).

Definition replayed_command (c : Z) : bool :=
  (c =? logcmd_put) || (c =? logcmd_replace) || (c =? logcmd_modify) || (c =? logcmd_remove).

Record replay_state := Replay { rp_nr : Z; repbegin : option Z; repend : option Z; rp_table : T }.

(** The record [lr] from [pos] to [next]; [true] when the loop ends. *)
Definition replay_record (lr : logrecord) (pos next : Z) (st : replay_state) : res (bool * replay_state) :=
  let ep := lr_epoch lr in
  let? r :=
    (if lr_command lr =? logcmd_epoch then
       let rb := if (negb (min_epoch =? 0) && circ_lt 64 ep min_epoch) || ((min_epoch =? 0) && negb (bool_decide (is_Some (repbegin st))))
         then Some pos else repbegin st in
       if circ_ge 64 ep max_epoch then
         let? _ := check_res (bool_decide (is_Some rb)) in
         Ok (true, Replay (rp_nr st) rb (Some next) (rp_table st))
       else Ok (false, Replay (rp_nr st) rb (repend st) (rp_table st))
     else Ok (false, st)) in
  let (stop, st) := (r : bool * replay_state) in
  if stop then Ok (true, st)
  else if (ep =? 0) || (negb (min_epoch =? 0) && circ_lt 64 ep min_epoch) then
    Ok (false, Replay (rp_nr st) (repbegin st) (if bool_decide (is_Some (repbegin st)) then Some next else repend st) (rp_table st))
  else
    let? _ := check_res (bool_decide (is_Some (repbegin st))) in
    if Z.of_nat (length (lr_key lr)) =? 0 then Ok (false, Replay (rp_nr st) (repbegin st) (Some next) (rp_table st))
    else
      let? t := (if replayed_command (lr_command lr) then run lr (rp_table st) else Ok (rp_table st)) in
      Ok (false, Replay (rp_nr st + 1) (repbegin st) (Some next) t).

Fixpoint replay_loop (fuel : nat) (pos : Z) (m : bytes) (lr : logrecord) (st : replay_state) : res (Z * replay_state) :=
  if Z.of_nat (length m) <=? pos then Ok (pos, st)
  else
    match fuel with
    | O => Fault OutOfFuel
    | S fuel =>
      let? r := extract pos m lr in
      let (lr, next) := (r : logrecord * Z) in
      if lr_command lr =? logcmd_none then Ok (pos, st)
      else
        let? r := replay_record lr pos next st in
        let (stop, st) := (r : bool * replay_state) in
        if stop then Ok (pos, st) else replay_loop fuel next m lr st
    end.

(** The file afterwards, and the table. *)
Definition replayandclean (m : bytes) (table : T) : res (bytes * Z * T) :=
  let? r := replay_loop (length m) 0 m no_record (Replay 0 None None table) in
  let (pos, st) := (r : Z * replay_state) in
  let '(b, e) :=
    match repbegin st with
    | None => (0, 0)
    | Some b => (b, match repend st with Some e => e | None => pos end)
    end in
  let? file := mem_read b (e - b) m in
  Ok (file, rp_nr st, rp_table st).
End replay.
