(* ===== verification/LogFacts.v ===== *)
(** * The log: records as entries

    What [store] writes is the encoding of an entry, and [extract] reads it back;
    replaying a file replays its entries, whatever a crash left behind the last
    complete one. *)

From S2P Require Export LogReplay.
Import format.

#[local] Open Scope Z_scope.
#[local] Open Scope lhm_scope.

(** ** Entries *)

Inductive entry :=
  | EBase (command : Z)                          (* wake, quiesce *)
  | EEpoch (epoch : Z)
  | EKv (command : Z) (key val : bytes) (ts : Z)  (* put, replace, remove *)
  | EDelta (key val : bytes) (prev_ts ts : Z).    (* modify *)

Abbreviation w32 x := (le_bytes 4 x).
Abbreviation w64 x := (le_bytes 8 x).

(** The bytes of an entry; the last four of a key's record are not written. *)
Inductive encodes : entry -> bytes -> Prop :=
  | encodes_base c : encodes (EBase c) (w32 c ++ w32 8)
  | encodes_epoch e : encodes (EEpoch e) (w32 logcmd_epoch ++ w32 16 ++ w64 e)
  | encodes_kv c k v ts pad : length pad = 4%nat ->
      encodes (EKv c k v ts) (w32 c ++ w32 (24 + len k + len v) ++ w64 ts ++ w32 (len k) ++ k ++ v ++ pad)
  | encodes_delta k v p ts pad : length pad = 4%nat ->
      encodes (EDelta k v p ts) (w32 logcmd_modify ++ w32 (32 + len k + len v) ++ w64 ts ++ w64 p ++ w32 (len k) ++ k ++ v ++ pad).

Definition entry_size (e : entry) : Z :=
  match e with EBase _ => 8 | EEpoch _ => 16 | EKv _ k v _ => 24 + len k + len v | EDelta k v _ _ => 32 + len k + len v end.

Definition valid (e : entry) : Prop :=
  entry_size e < 2 ^ 32 /\
  match e with
  | EBase c => c = logcmd_wake \/ c = logcmd_quiesce
  | EEpoch e => 0 <= e < 2 ^ 64
  | EKv c k v ts => (c = logcmd_put \/ c = logcmd_replace \/ c = logcmd_remove) /\ len k <= MASSTREE_MAXKEYLEN /\ 0 <= ts < 2 ^ 64
  | EDelta k v p ts => len k <= MASSTREE_MAXKEYLEN /\ 0 <= p < 2 ^ 64 /\ 0 <= ts < 2 ^ 64
  end.

(** What [extract] makes of an entry. *)
Definition apply_entry (e : entry) (lr : logrecord) : logrecord :=
  match e with
  | EBase c => set_command c lr
  | EEpoch e => Logrecord logcmd_epoch (lr_key lr) (lr_val lr) (lr_ts lr) (lr_prev_ts lr) e
  | EKv c k v ts => Logrecord c k v ts (lr_prev_ts lr) (lr_epoch lr)
  | EDelta k v p ts => Logrecord logcmd_modify k v ts p (lr_epoch lr)
  end.

Lemma encodes_length e bs : encodes e bs -> len bs = entry_size e.
Proof. intros [c|ep|c k v ts pad Hp|k v p ts pad Hp]; cbn [entry_size]; rewrite !length_app, !length_le_bytes, ?Hp; lia. Qed.

Lemma entry_size_pos e : 8 <= entry_size e.
Proof. destruct e; cbn; lia. Qed.

(** ** Writing *)

(** Writing behind what is written. *)
Lemma write_next (A R d : bytes) off : off = len A -> (length d <= length R)%nat -> mem_write off d (A ++ R) = Ok ((A ++ d) ++ drop (length d) R).
Proof.
  intros -> Hd. rewrite <- (take_drop (length d) R) at 1. rewrite mem_write_app by (done || by rewrite length_take_le). by rewrite <- app_assoc.
Qed.

Lemma put32_next A R off x : off = len A -> (4 <= length R)%nat -> 0 <= x < 2 ^ 32 -> put32 off x (A ++ R) = Ok ((A ++ w32 x) ++ drop 4 R).
Proof. intros Ho HR Hx. unfold put32. rewrite Word.wrap_small by done. rewrite write_next; rewrite ?length_le_bytes; done. Qed.

Lemma put64_next A R off x : off = len A -> (8 <= length R)%nat -> 0 <= x < 2 ^ 64 -> put64 off x (A ++ R) = Ok ((A ++ w64 x) ++ drop 8 R).
Proof. intros Ho HR Hx. unfold put64. rewrite Word.wrap_small by done. rewrite write_next; rewrite ?length_le_bytes; done. Qed.

Ltac write_fields :=
  repeat first [ rewrite put32_next; [rewrite rbind_Ok| rewrite ?length_app, ?length_le_bytes; lia | rewrite ?length_drop; lia | lia]
               | rewrite put64_next; [rewrite rbind_Ok| rewrite ?length_app, ?length_le_bytes; lia | rewrite ?length_drop; lia | lia] ].

Lemma base_store A R off c : off = len A -> (8 <= length R)%nat -> 0 <= c < 2 ^ 32 ->
  logrec_base.store off c (A ++ R) = Ok (8, (A ++ w32 c ++ w32 8) ++ drop 8 R).
Proof.
  intros Ho HR Hc. unfold logrec_base.store, logrec_base.sizeof. write_fields. by rewrite drop_drop, <- !app_assoc.
Qed.

Lemma epoch_store A R off e : off = len A -> (16 <= length R)%nat -> 0 <= e < 2 ^ 64 ->
  logrec_epoch.store off logcmd_epoch e (A ++ R) = Ok (16, (A ++ w32 logcmd_epoch ++ w32 16 ++ w64 e) ++ drop 16 R).
Proof.
  intros Ho HR Hc. unfold logrec_epoch.store, logrec_epoch.sizeof. assert (0 <= logcmd_epoch < 2 ^ 32) by (unfold logcmd_epoch; lia). write_fields.
  by rewrite !drop_drop, <- !app_assoc.
Qed.

Lemma kv_store A R off c k v ts : off = len A -> 24 + len k + len v <= len R -> 24 + len k + len v < 2 ^ 32 -> 0 <= c < 2 ^ 32 -> 0 <= ts < 2 ^ 64 ->
  exists bs, logrec_kv.store off c k v ts (A ++ R) = Ok (24 + len k + len v, (A ++ bs) ++ drop (24 + length k + length v) R) /\ encodes (EKv c k v ts) bs.
Proof.
  intros Ho HR Hs Hc Hts. unfold logrec_kv.store, logrec_kv.sizeof, logrec_kv.buf_. cbn zeta. write_fields.
  rewrite write_next, rbind_Ok by (rewrite ?length_app, ?length_le_bytes, ?length_drop; lia).
  rewrite write_next, rbind_Ok by (rewrite ?length_app, ?length_le_bytes, ?length_drop; lia).
  eexists. split; [|apply (encodes_kv c k v ts (take 4 (drop (20 + length k + length v) R))); rewrite length_take_le; rewrite ?length_drop; lia].
  f_equal. f_equal. rewrite !drop_drop, <- !app_assoc. replace (4 + (4 + (8 + (4 + (length k + length v)))))%nat with (20 + length k + length v)%nat by lia.
  replace (24 + length k + length v)%nat with (20 + length k + length v + 4)%nat by lia. by rewrite <- (drop_drop _ 4 (20 + length k + length v)), take_drop.
Qed.

Lemma delta_store A R off k v p ts : off = len A -> 32 + len k + len v <= len R -> 32 + len k + len v < 2 ^ 32 -> 0 <= p < 2 ^ 64 -> 0 <= ts < 2 ^ 64 ->
  exists bs, logrec_kvdelta.store off logcmd_modify k v p ts (A ++ R) = Ok (32 + len k + len v, (A ++ bs) ++ drop (32 + length k + length v) R) /\ encodes (EDelta k v p ts) bs.
Proof.
  intros Ho HR Hs Hp Hts. unfold logrec_kvdelta.store, logrec_kvdelta.sizeof, logrec_kvdelta.buf_. cbn zeta.
  assert (0 <= logcmd_modify < 2 ^ 32) by (unfold logcmd_modify; lia). write_fields.
  rewrite write_next, rbind_Ok by (rewrite ?length_app, ?length_le_bytes, ?length_drop; lia).
  rewrite write_next, rbind_Ok by (rewrite ?length_app, ?length_le_bytes, ?length_drop; lia).
  eexists. split; [|apply (encodes_delta k v p ts (take 4 (drop (28 + length k + length v) R))); rewrite length_take_le; rewrite ?length_drop; lia].
  f_equal. f_equal. rewrite !drop_drop, <- !app_assoc. replace (4 + (4 + (8 + (8 + (4 + (length k + length v))))))%nat with (28 + length k + length v)%nat by lia.
  replace (32 + length k + length v)%nat with (28 + length k + length v + 4)%nat by lia. by rewrite <- (drop_drop _ 4 (28 + length k + length v)), take_drop.
Qed.

(** ** Reading *)

Lemma get32_at P Q m off x : m = P ++ w32 x ++ Q -> off = len P -> 0 <= x < 2 ^ 32 -> get32 off m = Ok x.
Proof.
  intros -> -> Hx. unfold get32. rewrite mem_read_app by (by rewrite ?length_le_bytes). rewrite rbind_Ok, le_value_bytes. by rewrite Z.mod_small.
Qed.

Lemma get64_at P Q m off x : m = P ++ w64 x ++ Q -> off = len P -> 0 <= x < 2 ^ 64 -> get64 off m = Ok x.
Proof.
  intros -> -> Hx. unfold get64. rewrite mem_read_app by (by rewrite ?length_le_bytes). rewrite rbind_Ok, le_value_bytes. by rewrite Z.mod_small.
Qed.

Lemma mem_read_at P Q m off n x : m = P ++ x ++ Q -> off = len P -> n = len x -> mem_read off n m = Ok x.
Proof. intros -> -> ->. by apply mem_read_app. Qed.

(** The command and the size are in front of every entry. *)
Definition entry_command (e : entry) : Z :=
  match e with EBase c => c | EEpoch _ => logcmd_epoch | EKv c _ _ _ => c | EDelta _ _ _ _ => logcmd_modify end.

Lemma encodes_header e bs : encodes e bs -> exists body, bs = w32 (entry_command e) ++ w32 (entry_size e) ++ body.
Proof. intros []; cbn [entry_command entry_size]; eexists; rewrite <- ?app_assoc; try reflexivity. Qed.

Lemma valid_command e : valid e -> 0 <= entry_command e < 2 ^ 32 /\ entry_command e <> logcmd_none.
Proof.
  intros [_ H]. destruct e; cbn in H |- *; unfold logcmd_wake, logcmd_quiesce, logcmd_put, logcmd_replace, logcmd_remove, logcmd_epoch, logcmd_modify, logcmd_none in *; lia.
Qed.

Lemma read_record_header e A bs B : valid e -> encodes e bs ->
  logrec_base.size_ (len A) (A ++ bs ++ B) = Ok (entry_size e) /\ logrec_base.command (len A) (A ++ bs ++ B) = Ok (entry_command e).
Proof.
  intros Hv Henc. destruct (encodes_header e bs Henc) as [body ->]. pose proof (entry_size_pos e). destruct (valid_command e Hv) as [Hc _]. destruct Hv as [Hs _].
  unfold logrec_base.size_, logrec_base.command. split.
  - apply (get32_at (A ++ w32 (entry_command e)) (body ++ B)); [by rewrite <- !app_assoc|rewrite length_app, length_le_bytes; lia|lia].
  - apply (get32_at A (w32 (entry_size e) ++ body ++ B)); [by rewrite <- !app_assoc|done|done].
Qed.

(** [extract] reads an entry back, and goes on behind it. *)
Lemma extract_entry e A bs B lr : valid e -> encodes e bs -> extract (len A) (A ++ bs ++ B) lr = Ok (apply_entry e lr, len A + len bs).
Proof.
  intros Hv Henc. destruct (read_record_header e A bs B Hv Henc) as [Hsz Hcmd]. pose proof (encodes_length e bs Henc) as Hlen. pose proof (entry_size_pos e).
  destruct (valid_command e Hv) as [_ Hnone]. unfold extract. rewrite Hsz, Hcmd, !rbind_Ok, !length_app. unfold logrec_base.sizeof.
  rewrite (proj2 (Z.ltb_ge _ 8)), (proj2 (Z.ltb_ge (entry_size e) 8)), (proj2 (Z.ltb_ge _ (entry_size e))), (proj2 (Z.eqb_neq _ _)) by (done || lia). cbn [orb].
  rewrite Hlen. clear Hsz Hcmd Hnone. destruct Hv as [Hsz Hv]. destruct Henc as [c|ep|c k v ts pad Hp|k v p ts pad Hp]; cbn [entry_command entry_size apply_entry] in *.
  - destruct Hv as [-> | ->]; reflexivity.
  - change ((logcmd_epoch =? logcmd_put) || (logcmd_epoch =? logcmd_replace) || (logcmd_epoch =? logcmd_remove)) with false.
    change (logcmd_epoch =? logcmd_modify) with false. change (logcmd_epoch =? logcmd_epoch) with true. change (16 <? logrec_epoch.sizeof) with false. cbv iota.
    unfold logrec_epoch.epoch_. rewrite (get64_at (A ++ w32 logcmd_epoch ++ w32 16) B _ _ ep); [done|by rewrite <- !app_assoc|rewrite !length_app, !length_le_bytes; lia|lia].
  - destruct Hv as (Hc & Hk & Hts). assert ((c =? logcmd_put) || (c =? logcmd_replace) || (c =? logcmd_remove) = true) as -> by (by destruct Hc as [-> |[-> | ->]]).
    unfold logrec_kv.sizeof, logrec_kv.buf_. rewrite (proj2 (Z.ltb_ge _ 24)) by lia. set (m := A ++ _).
    rewrite (get32_at (A ++ w32 c ++ w32 (24 + len k + len v) ++ w64 ts) (k ++ v ++ pad ++ B) m _ (len k)), rbind_Ok; [|unfold m; by rewrite <- !app_assoc|rewrite !length_app, !length_le_bytes; lia|lia].
    rewrite (proj2 (Z.ltb_ge _ (len k))), (proj2 (Z.ltb_ge _ (24 + len k))) by lia. cbn [orb].
    rewrite (get64_at (A ++ w32 c ++ w32 (24 + len k + len v)) (w32 (len k) ++ k ++ v ++ pad ++ B) m _ ts), rbind_Ok; [|unfold m; by rewrite <- !app_assoc|rewrite !length_app, !length_le_bytes; lia|lia].
    rewrite (mem_read_at (A ++ w32 c ++ w32 (24 + len k + len v) ++ w64 ts ++ w32 (len k)) (v ++ pad ++ B) m _ _ k), rbind_Ok; [|unfold m; by rewrite <- !app_assoc|rewrite !length_app, !length_le_bytes; lia|done].
    rewrite (mem_read_at (A ++ w32 c ++ w32 (24 + len k + len v) ++ w64 ts ++ w32 (len k) ++ k) (pad ++ B) m _ _ v), rbind_Ok; [|unfold m; by rewrite <- !app_assoc|rewrite !length_app, !length_le_bytes; lia|lia].
    done.
  - destruct Hv as (Hk & Hpt & Hts). change ((logcmd_modify =? logcmd_put) || (logcmd_modify =? logcmd_replace) || (logcmd_modify =? logcmd_remove)) with false.
    change (logcmd_modify =? logcmd_modify) with true. cbv iota. unfold logrec_kvdelta.sizeof, logrec_kvdelta.buf_. set (m := A ++ _). set (c := logcmd_modify) in *.
    rewrite (get32_at (A ++ w32 c ++ w32 (32 + len k + len v) ++ w64 ts ++ w64 p) (k ++ v ++ pad ++ B) m _ (len k)), rbind_Ok; [|unfold m; by rewrite <- !app_assoc|rewrite !length_app, !length_le_bytes; lia|lia].
    rewrite (proj2 (Z.ltb_ge _ (len k))), (proj2 (Z.ltb_ge _ (32 + len k))) by lia. cbn [orb].
    rewrite (get64_at (A ++ w32 c ++ w32 (32 + len k + len v)) (w64 p ++ w32 (len k) ++ k ++ v ++ pad ++ B) m _ ts), rbind_Ok; [|unfold m; by rewrite <- !app_assoc|rewrite !length_app, !length_le_bytes; lia|lia].
    rewrite (get64_at (A ++ w32 c ++ w32 (32 + len k + len v) ++ w64 ts) (w32 (len k) ++ k ++ v ++ pad ++ B) m _ p), rbind_Ok; [|unfold m; by rewrite <- !app_assoc|rewrite !length_app, !length_le_bytes; lia|lia].
    rewrite (mem_read_at (A ++ w32 c ++ w32 (32 + len k + len v) ++ w64 ts ++ w64 p ++ w32 (len k)) (v ++ pad ++ B) m _ _ k), rbind_Ok; [|unfold m; by rewrite <- !app_assoc|rewrite !length_app, !length_le_bytes; lia|done].
    rewrite (mem_read_at (A ++ w32 c ++ w32 (32 + len k + len v) ++ w64 ts ++ w64 p ++ w32 (len k) ++ k) (pad ++ B) m _ _ v), rbind_Ok; [|unfold m; by rewrite <- !app_assoc|rewrite !length_app, !length_le_bytes; lia|lia].
    done.
Qed.

(** What a crash may leave behind: a part of an entry. *)
Definition torn (tail : bytes) : Prop := tail = [] \/ exists e bs more, valid e /\ encodes e bs /\ bs = tail ++ more /\ more <> [].

Lemma extract_torn A tail lr : torn tail -> tail <> [] -> extract (len A) (A ++ tail) lr = Ok (set_command logcmd_none lr, len (A ++ tail)).
Proof.
  intros [->|(e & bs & more & Hv & Henc & Hbs & Hm)] Ht; [done|]. unfold extract, logrec_base.sizeof. rewrite length_app.
  destruct (Z.ltb_spec (Z.of_nat (length A + length tail) - len A) 8) as [Hlt|Hge]; [done|].
  pose proof (encodes_length e bs Henc) as Hl. destruct (encodes_header e bs Henc) as [body Hb]. destruct (valid_command e Hv) as [Hc _]. pose proof (entry_size_pos e).
  assert (tail = w32 (entry_command e) ++ w32 (entry_size e) ++ drop 8 tail) as Htail.
  { rewrite <- (take_drop 8 tail) at 1. rewrite app_assoc. f_equal. transitivity (take 8 bs).
    - rewrite Hbs, take_app_le by lia. done.
    - rewrite Hb, app_assoc. by apply take_app_length'. }
  assert (0 < length more)%nat by (destruct more; [done|cbn; lia]). rewrite Hbs, length_app in Hl. destruct Hv as [Hsz _].
  assert (logrec_base.size_ (len A) (A ++ tail) = Ok (entry_size e)) as ->.
  { unfold logrec_base.size_. apply (get32_at (A ++ w32 (entry_command e)) (drop 8 tail)); [by rewrite <- app_assoc, <- Htail|rewrite length_app, length_le_bytes; lia|lia]. }
  assert (logrec_base.command (len A) (A ++ tail) = Ok (entry_command e)) as ->.
  { unfold logrec_base.command. apply (get32_at A (w32 (entry_size e) ++ drop 8 tail)); [by rewrite <- Htail|done|done]. }
  rewrite !rbind_Ok, (proj2 (Z.ltb_lt _ (entry_size e))), orb_true_r by lia. done.
Qed.

(** ** Replaying entries *)

Section replaying.
Context {T : Type} (run : logrecord -> T -> res T) (min_epoch max_epoch : Z).
Context (Hmin : 0 < min_epoch < 2 ^ 63) (Hmax : 0 <= max_epoch < 2 ^ 63).
#[local] Abbreviation replay_loop := (replay_loop run min_epoch max_epoch).

Definition epoch_of (e : entry) : option Z := match e with EEpoch e => Some e | _ => None end.

(** The records of keys, in order, with those of empty keys left out. *)
Fixpoint run_entries (es : list entry) (lr : logrecord) (t : T) : res (logrecord * T) :=
  match es with
  | [] => Ok (lr, t)
  | e :: es =>
    let lr := apply_entry e lr in
    match e with
    | EKv _ (_ :: _) _ _ | EDelta (_ :: _) _ _ _ => let? t := run lr t in run_entries es lr t
    | _ => run_entries es lr t
    end
  end.

Lemma loop_entry fuel A e bs B lr st : valid e -> encodes e bs ->
  replay_loop (S fuel) (len A) (A ++ bs ++ B) lr st =
    (let? r := replay_record run min_epoch max_epoch (apply_entry e lr) (len A) (len (A ++ bs)) st in
     let (stop, st) := (r : bool * replay_state) in
     if stop then Ok (len A, st) else replay_loop fuel (len (A ++ bs)) ((A ++ bs) ++ B) (apply_entry e lr) st).
Proof.
  intros Hv Henc. cbn [LogReplay.replay_loop]. pose proof (encodes_length e bs Henc). pose proof (entry_size_pos e).
  rewrite (proj2 (Z.leb_gt _ _)) by (rewrite !length_app; lia). rewrite (extract_entry e A bs B lr Hv Henc), rbind_Ok.
  assert ((lr_command (apply_entry e lr) =? logcmd_none) = false) as ->.
  { apply Z.eqb_neq. destruct (valid_command e Hv) as [_ Hn]. by destruct e. }
  replace (len A + len bs) with (len (A ++ bs)) by (rewrite length_app; lia). by rewrite <- app_assoc.
Qed.

Lemma circ_lt_small a b : 0 <= a < 2 ^ 63 -> 0 <= b < 2 ^ 63 -> circ_lt 64 a b = (a <? b).
Proof.
  intros Ha Hb. unfold circ_lt, less. rewrite (signed_mod 64 ltac:(lia) (a - b) (a - b)); [|change (64 - 1) with 63; lia|by rewrite Z.sub_diag].
  destruct (Z.ltb_spec a b), (Z.ltb_spec (a - b) 0); lia.
Qed.

Lemma circ_ge_small a b : 0 <= a < 2 ^ 63 -> 0 <= b < 2 ^ 63 -> circ_ge 64 a b = (b <=? a).
Proof. intros Ha Hb. change (circ_ge 64 a b) with (negb (circ_lt 64 a b)). rewrite circ_lt_small by done. by rewrite Z.leb_antisym. Qed.

Lemma epoch_apply e lr : lr_epoch (apply_entry e lr) = match epoch_of e with Some x => x | None => lr_epoch lr end.
Proof. by destruct e. Qed.

Lemma command_apply e lr : valid e -> (lr_command (apply_entry e lr) =? logcmd_epoch) = match epoch_of e with Some _ => true | None => false end.
Proof. intros [_ H]. destruct e; cbn in *; [by destruct H as [-> | ->]|done|by destruct H as ([-> |[-> | ->]] & _)|done]. Qed.

Definition scan (es : list entry) (lr : logrecord) : logrecord := foldl (fun lr e => apply_entry e lr) lr es.

Definition older (e : entry) : Prop := forall x, epoch_of e = Some x -> 0 <= x < min_epoch.
Definition newer (e : entry) : Prop := forall x, epoch_of e = Some x -> min_epoch <= x < max_epoch.

(** An entry from before the checkpoint is skipped; an epoch moves the beginning of
    what is kept. *)
Lemma old_record e lr pos next st : valid e -> older e -> 0 <= lr_epoch lr < min_epoch -> min_epoch <= max_epoch ->
  replay_record run min_epoch max_epoch (apply_entry e lr) pos next st =
    (let rb := match epoch_of e with Some _ => Some pos | None => repbegin st end in
     Ok (false, Replay (rp_nr st) rb (if bool_decide (is_Some rb) then Some next else repend st) (rp_table st))).
Proof.
  intros Hv Ho Hlr Hmm. unfold replay_record. rewrite command_apply, epoch_apply by done. destruct (epoch_of e) as [x|] eqn:E.
  - specialize (Ho x E). rewrite !circ_lt_small, circ_ge_small, (proj2 (Z.ltb_lt x min_epoch)), (proj2 (Z.leb_gt max_epoch x)), (proj2 (Z.eqb_neq min_epoch 0)) by lia.
    cbn [negb andb orb]. rewrite rbind_Ok, orb_true_r. done.
  - rewrite rbind_Ok, circ_lt_small, (proj2 (Z.ltb_lt _ min_epoch)), (proj2 (Z.eqb_neq min_epoch 0)) by lia. cbn [negb andb]. rewrite orb_true_r. by destruct st.
Qed.

Lemma old_entries es : forall fuel A bss B lr nr rb re t, Forall2 encodes es bss -> Forall valid es -> Forall older es -> 0 <= lr_epoch lr < min_epoch -> min_epoch <= max_epoch ->
  exists rb' re', replay_loop (length es + fuel) (len A) (A ++ concat bss ++ B) lr (Replay nr rb re t) =
      replay_loop fuel (len (A ++ concat bss)) ((A ++ concat bss) ++ B) (scan es lr) (Replay nr rb' re' t) /\
    0 <= lr_epoch (scan es lr) < min_epoch /\
    (Forall (fun e => epoch_of e = None) es -> forall p, rb = Some p -> re = Some (len A) -> rb' = rb /\ re' = Some (len (A ++ concat bss))).
Proof.
  induction es as [|e es IH]; intros fuel A bss B lr nr rb re t Henc Hv Ho Hlr Hmm; inversion Henc as [|? bs ? bss' He Henc']; subst; cbn [concat length scan foldl app].
  - rewrite !app_nil_r. by exists rb, re.
  - apply Forall_cons in Hv as [Hv1 Hv]. apply Forall_cons in Ho as [Ho1 Ho]. rewrite <- !app_assoc. cbn [Nat.add]. rewrite (loop_entry _ A e bs (concat bss' ++ B)) by done.
    rewrite old_record by done. cbv zeta. rewrite rbind_Ok. cbn [rp_nr rp_table repbegin repend].
    assert (0 <= lr_epoch (apply_entry e lr) < min_epoch) as Hlr'.
    { rewrite epoch_apply. destruct (epoch_of e) as [x|] eqn:E; [|done]. by apply Ho1. }
    set (rb1 := match epoch_of e with Some _ => Some (len A) | None => rb end). set (re1 := if bool_decide (is_Some rb1) then _ else re).
    destruct (IH fuel (A ++ bs) bss' B (apply_entry e lr) nr rb1 re1 t Henc' Hv Ho Hlr' Hmm) as (rb' & re' & -> & Hlr'' & Hno).
    exists rb', re'. rewrite <- !app_assoc. split; [done|]. split; [done|]. intros [Hn Hns]%Forall_cons p -> ->.
    assert (rb1 = Some p) as Hrb by (unfold rb1; by rewrite Hn). assert (re1 = Some (len (A ++ bs))) as Hre by (unfold re1; by rewrite Hrb).
    destruct (Hno Hns p Hrb Hre) as [-> ->]. by rewrite Hrb, <- !app_assoc.
Qed.

(** The entries of before, then the last earlier epoch with its entries, which are
    kept. *)
Lemma kept_entries pre mid e0 bpre b0 bmid rest fuel t : Forall2 encodes pre bpre -> encodes (EEpoch e0) b0 -> Forall2 encodes mid bmid ->
  Forall valid pre -> valid (EEpoch e0) -> Forall valid mid -> Forall older pre -> Forall older mid -> Forall (fun e => epoch_of e = None) mid ->
  0 <= e0 < min_epoch -> min_epoch <= max_epoch ->
  replay_loop (length pre + S (length mid + fuel)) 0 (concat bpre ++ b0 ++ concat bmid ++ rest) no_record (Replay 0 None None t) =
    replay_loop fuel (len ((concat bpre ++ b0) ++ concat bmid)) (((concat bpre ++ b0) ++ concat bmid) ++ rest) (scan (pre ++ EEpoch e0 :: mid) no_record)
      (Replay 0 (Some (len (concat bpre))) (Some (len ((concat bpre ++ b0) ++ concat bmid))) t).
Proof.
  intros Hep He0 Hem Hvp Hv0 Hvm Hop Hom Hn He Hmm.
  destruct (old_entries pre (S (length mid + fuel)) [] bpre (b0 ++ concat bmid ++ rest) no_record 0 None None t) as (rb & re & Hrun & Hlr & _); [done..|cbn; lia|lia|].
  cbn [app length] in Hrun. change (Z.of_nat 0) with 0 in Hrun. rewrite Hrun, (loop_entry _ (concat bpre) (EEpoch e0) b0 (concat bmid ++ rest)) by done.
  assert (older (EEpoch e0)) as Ho0 by (by intros x [= <-]). rewrite old_record by (done || lia). cbn [epoch_of repbegin rp_nr rp_table repend]. cbv zeta. rewrite rbind_Ok.
  rewrite bool_decide_eq_true_2 by (by eexists). set (lr1 := apply_entry (EEpoch e0) (scan pre no_record)).
  destruct (old_entries mid fuel (concat bpre ++ b0) bmid rest lr1 0 (Some (len (concat bpre))) (Some (len (concat bpre ++ b0))) t) as (rb' & re' & Hrun' & _ & Hrr); [done..|cbn; lia|lia|].
  destruct (Hrr Hn _ eq_refl eq_refl) as [-> ->]. rewrite Hrun'. unfold scan. by rewrite foldl_app.
Qed.

(** The count of entries goes by the last key, also for entries without one. *)
Definition counted (lr : logrecord) : Z := if len (lr_key lr) =? 0 then 0 else 1.
Fixpoint count_entries (es : list entry) (lr : logrecord) : Z :=
  match es with [] => 0 | e :: es => counted (apply_entry e lr) + count_entries es (apply_entry e lr) end.

(** An entry that the checkpoint may not have. *)
Lemma new_record e lr pos next nr p re t : valid e -> newer e -> min_epoch <= lr_epoch (apply_entry e lr) < max_epoch ->
  replay_record run min_epoch max_epoch (apply_entry e lr) pos next (Replay nr (Some p) re t) =
    (let? t := match e with EKv _ (_ :: _) _ _ | EDelta (_ :: _) _ _ _ => run (apply_entry e lr) t | _ => Ok t end in
     Ok (false, Replay (nr + counted (apply_entry e lr)) (Some p) (Some next) t)).
Proof.
  intros Hv Hn Hlr. unfold replay_record. rewrite command_apply by done. set (ep := lr_epoch _) in *.
  rewrite !circ_lt_small, circ_ge_small, (proj2 (Z.ltb_ge ep min_epoch)), (proj2 (Z.leb_gt max_epoch ep)), (proj2 (Z.eqb_neq min_epoch 0)), (proj2 (Z.eqb_neq ep 0)) by lia.
  cbn [negb andb orb]. assert (forall T' (a b : res T'), a = b -> (match epoch_of e with Some _ => a | None => b end) = b) as Hm by (intros; by destruct (epoch_of e)).
  set (r := if match epoch_of e with Some _ => true | None => false end then _ else _). assert (r = Ok (false, Replay nr (Some p) re t)) as -> by (unfold r; by destruct (epoch_of e)).
  rewrite rbind_Ok. cbn [repbegin rp_table rp_nr]. rewrite bool_decide_eq_true_2 by (by eexists). unfold check_res. rewrite rbind_Ok. destruct Hv as [_ Hv].
  unfold counted. destruct e as [c|x|c k v ts|k v pt ts]; cbn [apply_entry lr_key lr_command set_command] in *.
  - assert (replayed_command c = false) as -> by (by destruct Hv as [-> | ->]). destruct (len (lr_key lr) =? 0); rewrite rbind_Ok, ?Z.add_0_r; reflexivity.
  - assert (replayed_command logcmd_epoch = false) as -> by done. destruct (len (lr_key lr) =? 0); rewrite rbind_Ok, ?Z.add_0_r; reflexivity.
  - assert (replayed_command c = true) as -> by (by destruct Hv as ([-> |[-> | ->]] & _)). destruct k as [|b k]; [cbn; by rewrite Z.add_0_r|]. by rewrite (proj2 (Z.eqb_neq _ 0)) by (cbn; lia).
  - assert (replayed_command logcmd_modify = true) as -> by done. destruct k as [|b k]; [cbn; by rewrite Z.add_0_r|]. by rewrite (proj2 (Z.eqb_neq _ 0)) by (cbn; lia).
Qed.

Lemma new_entries es : forall fuel A bss B lr nr p t, Forall2 encodes es bss -> Forall valid es -> Forall newer es ->
  (min_epoch <= lr_epoch lr < max_epoch \/ es = [] \/ exists x es', es = EEpoch x :: es') ->
  replay_loop (length es + fuel) (len A) (A ++ concat bss ++ B) lr (Replay nr (Some p) (Some (len A)) t) =
    (let? r := run_entries es lr t in
     replay_loop fuel (len (A ++ concat bss)) ((A ++ concat bss) ++ B) (fst r) (Replay (nr + count_entries es lr) (Some p) (Some (len (A ++ concat bss))) (snd r))).
Proof.
  induction es as [|e es IH]; intros fuel A bss B lr nr p t Henc Hv Hn Hlr; inversion Henc as [|? bs ? bss' He Henc']; subst; cbn [concat length run_entries count_entries].
  - by rewrite !app_nil_r, rbind_Ok, Z.add_0_r.
  - apply Forall_cons in Hv as [Hv1 Hv]. apply Forall_cons in Hn as [Hn1 Hn]. rewrite <- !app_assoc. cbn [Nat.add]. rewrite (loop_entry _ A e bs (concat bss' ++ B)) by done.
    assert (min_epoch <= lr_epoch (apply_entry e lr) < max_epoch) as Hlr'.
    { rewrite epoch_apply. destruct (epoch_of e) as [x|] eqn:E; [by apply Hn1|]. destruct Hlr as [|[|(x & es' & [= -> ->])]]; done. }
    rewrite new_record by done. set (lr1 := apply_entry e lr) in *.
    assert (forall t', replay_loop (length es + fuel) (len (A ++ bs)) ((A ++ bs) ++ concat bss' ++ B) lr1 (Replay (nr + counted lr1) (Some p) (Some (len (A ++ bs))) t') =
       (let? r := run_entries es lr1 t' in
        replay_loop fuel (len (A ++ bs ++ concat bss')) (A ++ bs ++ concat bss' ++ B) (fst r)
          (Replay (nr + (counted lr1 + count_entries es lr1)) (Some p) (Some (len (A ++ bs ++ concat bss'))) (snd r)))) as HIH.
    { intros t'. rewrite (IH fuel (A ++ bs) bss' B lr1) by auto. by rewrite Z.add_assoc, <- !app_assoc. }
    destruct e as [c|x|c [|b k] v ts|[|b k] v pt ts]; try (rewrite !rbind_Ok; apply HIH).
    all: destruct (run lr1 t) as [t'|]; [rewrite !rbind_Ok; apply HIH|done].
Qed.

(** At the end of the entries, or at a torn one. *)
Lemma loop_end fuel A tail lr st : torn tail -> (tail <> [] -> (0 < fuel)%nat) -> replay_loop fuel (len A) (A ++ tail) lr st = Ok (len A, st).
Proof.
  intros Ht Hf. destruct (decide (tail = [])) as [->|Hne].
  - rewrite app_nil_r. destruct fuel; cbn [LogReplay.replay_loop]; by rewrite Z.leb_refl.
  - destruct fuel as [|fuel]; [specialize (Hf Hne); lia|]. cbn [LogReplay.replay_loop]. rewrite (proj2 (Z.leb_gt _ _)) by (rewrite length_app; destruct tail; [done|cbn; lia]).
    by rewrite (extract_torn A tail lr Ht Hne).
Qed.
End replaying.

Lemma encodes_count es bss : Forall2 encodes es bss -> (8 * length es <= length (concat bss))%nat.
Proof.
  induction 1 as [|e bs es bss He _ IH]; cbn [length concat]; [lia|]. rewrite length_app. pose proof (encodes_length _ _ He). pose proof (entry_size_pos e). lia.
Qed.

(** A log around a checkpoint's epoch: entries of before, the last earlier epoch
    with its entries, the entries of epochs from the checkpoint's on. *)
Record around (min_epoch max_epoch : Z) (pre kept post : list entry) : Prop := Around {
  around_valid : Forall valid (pre ++ kept ++ post);
  around_pre : Forall (older min_epoch) pre;
  around_kept : exists e0 mid, kept = EEpoch e0 :: mid /\ 0 <= e0 < min_epoch /\ Forall (fun e => epoch_of e = None) mid;
  around_post : Forall (newer min_epoch max_epoch) post;
  around_first : post = [] \/ exists x post', post = EEpoch x :: post';
}.

(** C16: recovery from a log that ends in what a crash has left of an entry: the
    entries of keys in the epochs from the checkpoint's on, and no others, are run
    in order, and the file becomes the part from the last earlier epoch on, without
    the torn entry. *)
Theorem replay_recovers {T} (run : logrecord -> T -> res T) min_epoch max_epoch pre kept post bpre bkept bpost tail (t : T) :
  0 < min_epoch < 2 ^ 63 -> min_epoch <= max_epoch < 2 ^ 63 -> around min_epoch max_epoch pre kept post ->
  Forall2 encodes pre bpre -> Forall2 encodes kept bkept -> Forall2 encodes post bpost -> torn tail ->
  replayandclean run min_epoch max_epoch (concat bpre ++ concat bkept ++ concat bpost ++ tail) t =
    (let lr := scan (pre ++ kept) no_record in
     let? r := run_entries run post lr t in
     Ok (concat bkept ++ concat bpost, count_entries post lr, snd r)).
Proof.
  intros Hmin Hmax [Hv Hold (e0 & mid & -> & He0 & Hmid) Hnew Hpost] Hepre Hekept Hepost Ht. unfold replayandclean.
  inversion Hekept as [|? b0 ? bmid He0' Hemid]; subst. cbn [concat]. assert (0 <= max_epoch < 2 ^ 63) as Hmax' by lia.
  apply Forall_app in Hv as [Hvpre Hv]. apply Forall_cons in Hv as [Hv0 Hv]. apply Forall_app in Hv as [Hvmid Hvpost].
  assert (Forall (older min_epoch) mid) as Homid by (eapply Forall_impl; [exact Hmid|]; intros e Hn x; congruence).
  set (P := concat bpre). set (M := concat bmid). set (Q := concat bpost).
  pose proof (encodes_count _ _ Hepre) as Cp. pose proof (encodes_count _ _ Hemid) as Cm. pose proof (encodes_count _ _ Hepost) as Cq. pose proof (encodes_length _ _ He0') as C0. cbn [entry_size] in C0.
  fold P in Cp. fold M in Cm. fold Q in Cq. rewrite <- !app_assoc. set (m := P ++ b0 ++ M ++ Q ++ tail).
  assert (exists k, length m = (length pre + (S (length mid + (length post + k))))%nat /\ (tail <> [] -> (0 < k)%nat)) as (k & Hk & Hk0).
  { exists (length m - length pre - 1 - length mid - length post)%nat. unfold m. rewrite !length_app. split; [lia|]. intros Hne. destruct tail; [done|cbn]. lia. }
  pose proof (kept_entries run min_epoch max_epoch Hmin Hmax' pre mid e0 bpre b0 bmid (Q ++ tail) (length post + k) t Hepre He0' Hemid Hvpre Hv0 Hvmid Hold Homid Hmid He0 ltac:(lia)) as Hrun.
  fold P M m in Hrun. rewrite Hk, Hrun. set (lr1 := scan _ _).
  pose proof (new_entries run min_epoch max_epoch Hmin Hmax' post k ((P ++ b0) ++ M) bpost tail lr1 0 (len P) t Hepost Hvpost Hnew (or_intror Hpost)) as Hrun2.
  fold Q in Hrun2. rewrite Hrun2, Z.add_0_l. cbv zeta. destruct (run_entries run post lr1 t) as [[lr t']|f]; [|done].
  rewrite !rbind_Ok. cbn [fst snd]. rewrite loop_end, rbind_Ok by done. cbn [repbegin repend rp_nr rp_table]. unfold m.
  rewrite (mem_read_at P tail _ _ _ (b0 ++ M ++ Q)), rbind_Ok; [done|by rewrite <- !app_assoc|done|rewrite !length_app; lia].
Qed.

(** The file around epoch 5: an old put, epoch 4, epoch 5 with a put and a modify, and
    half of an epoch record. *)
Definition old_put : entry := EKv logcmd_put [107] [1; 161; 97] 10.
Definition new_put : entry := EKv logcmd_put [107] [1; 161; 98] 20.
Definition new_modify : entry := EDelta [107] [1; 161; 99] 20 30.
Definition bytes_of (e : entry) : bytes :=
  match e with
  | EBase c => w32 c ++ w32 8
  | EEpoch e => w32 logcmd_epoch ++ w32 16 ++ w64 e
  | EKv c k v ts => w32 c ++ w32 (24 + len k + len v) ++ w64 ts ++ w32 (len k) ++ k ++ v ++ zeros 4
  | EDelta k v p ts => w32 logcmd_modify ++ w32 (32 + len k + len v) ++ w64 ts ++ w64 p ++ w32 (len k) ++ k ++ v ++ zeros 4
  end.

Lemma encodes_bytes_of e : encodes e (bytes_of e).
Proof. destruct e; by constructor. Qed.

Lemma encodes_all es : Forall2 encodes es (map bytes_of es).
Proof. induction es as [|e es IH]; constructor; [apply encodes_bytes_of|done]. Qed.

Lemma replay_recovers_witness :
  replayandclean (fun lr t => Ok (t ++ [(lr_ts lr, lr_val lr)])) 5 6
    (concat (map bytes_of [EEpoch 3; old_put]) ++ concat (map bytes_of [EEpoch 4]) ++ concat (map bytes_of [EEpoch 5; new_put; new_modify]) ++ take 12 (bytes_of (EEpoch 6))) [] =
  Ok (concat (map bytes_of [EEpoch 4]) ++ concat (map bytes_of [EEpoch 5; new_put; new_modify]), 3, [(20, [1; 161; 98]); (30, [1; 161; 99])]).
Proof.
  rewrite (replay_recovers (fun lr t => Ok (t ++ [(lr_ts lr, lr_val lr)])) 5 6 [EEpoch 3; old_put] [EEpoch 4] [EEpoch 5; new_put; new_modify]); [reflexivity|lia|lia| |apply encodes_all..|].
  - constructor.
    + cbn [app]. repeat first [apply Forall_nil; exact I | apply Forall_cons; split; [split; [cbn; lia|cbn; unfold MASSTREE_MAXKEYLEN; repeat split; auto; lia]|]].
    + repeat (apply Forall_cons; split; [intros x [=]; subst; lia|]). by apply Forall_nil.
    + exists 4, []. split_and!; [done|lia|lia|by apply Forall_nil].
    + repeat (apply Forall_cons; split; [intros x [=]; subst; lia|]). by apply Forall_nil.
    + right. by eexists _, _.
  - right. exists (EEpoch 6), (bytes_of (EEpoch 6)), (drop 12 (bytes_of (EEpoch 6))). split_and!; [split; cbn; lia|apply encodes_bytes_of|reflexivity|discriminate].
Defined.

(** ** Records that are too short *)

(** [extract] reads the key length of a modification before it has tested that
    the record is large enough to have one: at the end of the file, a modification
    whose size is less than its structure is read past the end. *)
Lemma extract_modify_overread A n pad lr : 8 <= n < 28 -> len pad = n - 8 ->
  extract (len A) (A ++ w32 logcmd_modify ++ w32 n ++ pad) lr = Fault OutOfBounds.
Proof.
  intros Hn Hp. set (m := A ++ _). assert (len m = len A + n) as Hm by (unfold m; rewrite !length_app, !length_le_bytes; lia).
  unfold extract. rewrite Hm. unfold logrec_base.sizeof. rewrite (proj2 (Z.ltb_ge _ 8)) by lia.
  assert (logrec_base.size_ (len A) m = Ok n) as -> by (apply (get32_at (A ++ w32 logcmd_modify) pad); [unfold m; by rewrite <- app_assoc|rewrite length_app, length_le_bytes; lia|lia]).
  assert (logrec_base.command (len A) m = Ok logcmd_modify) as -> by (apply (get32_at A (w32 n ++ pad)); [done|done|unfold logcmd_modify; lia]).
  rewrite !rbind_Ok, (proj2 (Z.ltb_ge n 8)), (proj2 (Z.ltb_ge _ n)) by lia. cbn [orb].
  change (logcmd_modify =? logcmd_none) with false. change ((logcmd_modify =? logcmd_put) || (logcmd_modify =? logcmd_replace) || (logcmd_modify =? logcmd_remove)) with false.
  change (logcmd_modify =? logcmd_modify) with true. cbv iota.
  assert (get32 (len A + 24) m = Fault OutOfBounds) as ->; [|done]. unfold get32, mem_read. by rewrite Hm, (proj2 (Z.leb_gt (len A + 24 + 4) _)), andb_false_r by lia.
Qed.

(** ** Values of puts *)

(** Columns and values, as a client sends them. *)
Definition write_changes (chs : list (Z * bytes)) : bytes := flat_map (fun ch => write_int type_unsigned (fst ch) ++ format.write_string (snd ch)) chs.
Definition changes_json (chs : list (Z * bytes)) : list Json := flat_map (fun ch => [JUnsigned (fst ch); JString (snd ch)]) chs.

Lemma parse_changes chs : forall fuel, Forall (fun ch => of_type type_unsigned (fst ch) /\ int_length (snd ch)) chs -> (length chs <= fuel)%nat ->
  parse_changeset_loop fuel (write_changes chs) = Ok (changes_json chs).
Proof.
  induction chs as [|[i v] chs IH]; intros fuel Hf Hl; [by destruct fuel|]. apply Forall_cons in Hf as [[Hi Hv] Hf]. cbn [fst snd length] in *.
  destruct fuel as [|fuel]; [lia|]. cbn [write_changes flat_map fst snd changes_json]. fold (write_changes chs) (changes_json chs). rewrite <- !app_assoc.
  assert (exists b s, write_int type_unsigned i ++ format.write_string v ++ write_changes chs = b :: s) as (b & s & Hs).
  { destruct (write_string_cons v) as (f & h & ->). destruct (write_int type_unsigned i) as [|b s]; [by eexists _, _|by eexists _, _]. }
  cbn [parse_changeset_loop]. rewrite Hs, <- Hs. rewrite read_int_write, rbind_Ok by done. rewrite read_str_write, rbind_Ok by done. by rewrite IH, rbind_Ok by (done || lia).
Qed.

(** The first byte of an array is none of an integer. *)
Lemma fixarray_not_int : Forall (fun n => is_fixint (ffixarray + n) = false /\ (Word.subw 32 (ffixarray + n) fuint8 <? 8) = false) (seqZ 0 nfixarray).
Proof. repeat (constructor; [split; reflexivity|]). constructor. Qed.

Lemma array_format_first n h : array_format n h -> exists b s, h = b :: s /\ forall rest, read_int type_unsigned 0 (b :: s ++ rest) = Fault AssertFailed.
Proof.
  assert (forall b s, is_fixint b = false -> (Word.subw 32 b fuint8 <? 8) = false -> forall rest, read_int type_unsigned 0 (b :: s ++ rest) = Fault AssertFailed) as Hr.
  { intros b s H1 H2 rest. unfold read_int. by rewrite aget_first, rbind_Ok, H1, H2. }
  intros [Hn|Hn|Hn]; eexists _, _; (split; [reflexivity|]); apply Hr; try reflexivity.
  all: pose proof fixarray_not_int as Hf; rewrite Forall_forall in Hf; apply (Hf n), elem_of_seqZ; lia.
Qed.

(** The value of a logged put: replay reads the columns and values of a request
    as they came; but [record] of parsed values writes them as an array with its
    header, which replay does not expect, and then every replay of the put fails its
    assertion. *)
Lemma changeset_header :
  (forall chs, Forall (fun ch => of_type type_unsigned (fst ch) /\ int_length (snd ch)) chs -> parse_changeset (write_changes chs) = Ok (changes_json chs)) /\
  (forall req, Z.of_nat (length req) < 2 ^ 32 -> parse_changeset (changeset_value req) = Fault AssertFailed).
Proof.
  split.
  - intros chs Hf. apply parse_changes; [done|]. clear Hf. induction chs as [|[i v] chs IH]; [cbn; lia|]. cbn [write_changes flat_map fst snd length]. fold (write_changes chs). rewrite !length_app.
    destruct (write_string_cons v) as (f & h & ->). cbn [length]. lia.
  - intros req Hl. unfold changeset_value, parse_changeset. destruct (array_format_first (len req) _ (write_array_header_format (len req) ltac:(lia))) as (b & s & -> & Hr).
    cbn [app length parse_changeset_loop]. by rewrite Hr.
Qed.
