(* ===== verification/LogWriter.v ===== *)
(** * The log: writers, the logger and crashes

    Records stay inside the buffer and are appended whole; what the logger has
    written, is writing and will write is all that was recorded, in order; so that
    after a crash the file is a prefix of it, at worst with a torn entry. *)

From S2P Require Export LogFacts.

#[local] Open Scope Z_scope.
#[local] Open Scope lhm_scope.

(** ** The buffer *)

(** The buffer holds the entries [es]. *)
Definition logged (li : loginfo) (es : list entry) : Prop :=
  exists bss R, buf li = concat bss ++ R /\ pos li = len (concat bss) /\ Forall2 encodes es bss /\ len_ li < 2 ^ 32.

Definition same_log (li li' : loginfo) : Prop :=
  waiting li' = waiting li /\ log_epoch li' = log_epoch li /\ quiescent_epoch li' = quiescent_epoch li /\
  wake_epoch li' = wake_epoch li /\ flushed_epoch li' = flushed_epoch li /\ length (buf li') = length (buf li).

(** A [store] that writes the entry [e] where it is told to, given room. *)
Definition stores (store : Z -> bytes -> res (Z * bytes)) (e : entry) : Prop :=
  forall A R, entry_size e <= len R -> exists bs R', store (len A) (A ++ R) = Ok (entry_size e, (A ++ bs) ++ R') /\ encodes e bs /\
    length (bs ++ R') = length R.

Lemma append_entry store e li es : stores store e -> logged li es -> pos li + entry_size e <= len_ li ->
  exists li', append store li = Ok li' /\ logged li' (es ++ [e]) /\ same_log li li' /\ pos li' = pos li + entry_size e.
Proof.
  intros Hst (bss & R & Hb & Hp & Henc & Hl) Hroom. unfold len_ in *. rewrite Hb, length_app in Hroom.
  destruct (Hst (concat bss) R) as (bs & R' & Hs & He & HR); [lia|]. unfold append. rewrite Hp, Hb, Hs, rbind_Ok. eexists. split; [done|].
  pose proof (encodes_length _ _ He) as Hbs. pose proof (entry_size_pos e). rewrite length_app in HR. rewrite Hb, length_app in Hl.
  assert (Word.addw 32 (len (concat bss)) (entry_size e) = len (concat bss) + entry_size e) as Hadd by (unfold Word.addw; apply Word.wrap_small; split; lia).
  split; [|split; [|done]].
  - exists (bss ++ [bs]), R'. cbn [buf pos]. rewrite concat_app. cbn [concat]. rewrite app_nil_r. split_and!; [done|rewrite length_app; lia|by apply Forall2_app; [|constructor]|].
    unfold len_. cbn [buf]. rewrite !length_app. lia.
  - split_and!; try done. cbn [buf]. rewrite Hb, !length_app. lia.
Qed.

Lemma base_stores c : 0 <= c < 2 ^ 32 -> stores (fun p => logrec_base.store p c) (EBase c).
Proof.
  intros Hc A R HR. cbn [entry_size] in *. eexists _, _. split; [apply base_store; [done|lia|done]|]. split; [constructor|]. rewrite !length_app, !length_le_bytes, length_drop. lia.
Qed.

Lemma epoch_stores e : 0 <= e < 2 ^ 64 -> stores (fun p => logrec_epoch.store p logcmd_epoch e) (EEpoch e).
Proof.
  intros Hc A R HR. cbn [entry_size] in *. eexists _, _. split; [apply epoch_store; [done|lia|done]|]. split; [constructor|]. rewrite !length_app, !length_le_bytes, length_drop. lia.
Qed.

Lemma kv_stores c k v ts : 24 + len k + len v < 2 ^ 32 -> 0 <= c < 2 ^ 32 -> 0 <= ts < 2 ^ 64 ->
  stores (fun p => logrec_kv.store p c k v ts) (EKv c k v ts).
Proof.
  intros Hs Hc Hts A R HR. cbn [entry_size] in *. destruct (kv_store A R (len A) c k v ts) as (bs & Hst & He); [done..|].
  eexists bs, _. split; [exact Hst|]. split; [done|]. apply encodes_length in He. cbn [entry_size] in He. rewrite length_app, length_drop. lia.
Qed.

Lemma delta_stores k v p ts : 32 + len k + len v < 2 ^ 32 -> 0 <= p < 2 ^ 64 -> 0 <= ts < 2 ^ 64 ->
  stores (fun o => logrec_kvdelta.store o logcmd_modify k v p ts) (EDelta k v p ts).
Proof.
  intros Hs Hc Hts A R HR. cbn [entry_size] in *. destruct (delta_store A R (len A) k v p ts) as (bs & Hst & He); [done..|].
  eexists bs, _. split; [exact Hst|]. split; [done|]. apply encodes_length in He. cbn [entry_size] in He. rewrite length_app, length_drop. lia.
Qed.

(** ** Records *)

(** What can be recorded. *)
Definition recordable (command : Z) (qt : query_times) (key : bytes) : Prop :=
  (command = logcmd_put \/ command = logcmd_replace \/ command = logcmd_remove) /\ len key <= MASSTREE_MAXKEYLEN /\
  0 <= qt_epoch qt < 2 ^ 64 /\ 0 <= qt_ts qt < 2 ^ 64 /\ 0 <= qt_prev_ts qt < 2 ^ 64.

(** A put of a row that another update is known of is a modification of it. *)
Definition record_entry (command : Z) (qt : query_times) (key value : bytes) : entry :=
  if (command =? logcmd_put) && negb (qt_prev_ts qt =? 0) && negb (Z.testbit (qt_prev_ts qt) 0) then EDelta key value (qt_prev_ts qt) (qt_ts qt)
  else EKv command key value (qt_ts qt).

(** The marks in front of it: a new epoch, a wake. *)
Definition record_marks (qt : query_times) (li : loginfo) (global_wake : Z) : list entry :=
  let we := if negb (quiescent_epoch li =? 0) && circ_lt 64 global_wake (qt_epoch qt) then qt_epoch qt else global_wake in
  let we := if negb (we =? wake_epoch li) && circ_lt 64 (qt_epoch qt) we then qt_epoch qt else we in
  (if negb (qt_epoch qt =? log_epoch li) then [EEpoch (qt_epoch qt)] else []) ++ (if negb (we =? wake_epoch li) then [EBase logcmd_wake] else []).

Lemma logged_fields w le qe we fe li es : logged li es -> logged (Loginfo w le qe we fe (buf li) (pos li)) es.
Proof. by intros (bss & R & ? & ? & ? & ?); exists bss, R. Qed.

Lemma write_record_ok command qt key value li gw es : recordable command qt key -> logged li es -> pos li + record_size key value <= len_ li ->
  exists li' gw', write_record command qt key value li gw = Ok (li', gw') /\
    logged li' (es ++ record_marks qt li gw ++ [record_entry command qt key value]) /\ waiting li' = waiting li /\ length (buf li') = length (buf li) /\
    log_epoch li' = qt_epoch qt /\ quiescent_epoch li' = 0.
Proof.
  intros (Hc & Hk & Hep & Hts & Hpts) Hlog Hroom. unfold write_record, record_size, logrec_kvdelta.size, logrec_kvdelta.sizeof, logrec_epoch.sizeof, logrec_base.sizeof in *.
  assert (len_ li < 2 ^ 32 /\ 0 <= pos li) as [Hlen Hpos] by (destruct Hlog as (bss & R & _ & -> & _ & ?); split; [done|lia]).
  assert (0 <= command < 2 ^ 32) as Hcr by (destruct Hc as [-> |[-> | ->]]; unfold logcmd_put, logcmd_replace, logcmd_remove; lia).
  (* the epoch *)
  assert (exists li1, (if negb (qt_epoch qt =? log_epoch li) then append (fun p => logrec_epoch.store p logcmd_epoch (qt_epoch qt)) (set_log_epoch (qt_epoch qt) li) else Ok li) = Ok li1 /\
    logged li1 (es ++ if negb (qt_epoch qt =? log_epoch li) then [EEpoch (qt_epoch qt)] else []) /\ waiting li1 = waiting li /\ log_epoch li1 = qt_epoch qt /\
    quiescent_epoch li1 = quiescent_epoch li /\ wake_epoch li1 = wake_epoch li /\ length (buf li1) = length (buf li) /\ pos li <= pos li1 <= pos li + 16) as (li1 & -> & Hl1 & Hw1 & He1 & Hq1 & Hk1 & Hb1 & Hp1).
  { destruct (Z.eqb_spec (qt_epoch qt) (log_epoch li)) as [E|E]; cbn [negb].
    - exists li. rewrite app_nil_r. split_and!; (done || lia).
    - destruct (append_entry _ _ (set_log_epoch (qt_epoch qt) li) es (epoch_stores _ Hep)) as (li1 & Ha & Hl & (W & L & Q & K & _ & B) & P); [by apply logged_fields|cbn; unfold len_ in *; cbn; lia|].
      exists li1. cbn [entry_size pos set_log_epoch] in P. split_and!; (done || lia). }
  rewrite rbind_Ok. cbv zeta. set (gw2 := if negb (quiescent_epoch li =? 0) && circ_lt 64 gw (qt_epoch qt) then qt_epoch qt else gw).
  (* quiescence *)
  set (li2 := if negb (quiescent_epoch li1 =? 0) then leave_quiescence (qt_epoch qt) li1 else li1).
  assert ((if negb (quiescent_epoch li1 =? 0) then (if circ_lt 64 gw (qt_epoch qt) then (leave_quiescence (qt_epoch qt) li1, qt_epoch qt, qt_epoch qt) else (leave_quiescence (qt_epoch qt) li1, gw, gw)) else (li1, gw, gw)) =
    (li2, gw2, gw2)) as -> by (unfold li2, gw2; rewrite Hq1; destruct (negb (quiescent_epoch li =? 0)); cbn [andb]; cbv zeta; [by destruct (circ_lt 64 gw (qt_epoch qt))|done]).
  assert (logged li2 (es ++ if negb (qt_epoch qt =? log_epoch li) then [EEpoch (qt_epoch qt)] else [])) as Hl2 by (unfold li2; destruct (negb (quiescent_epoch li1 =? 0)); [exact (logged_fields _ _ _ _ _ _ _ Hl1)|exact Hl1]).
  assert (waiting li2 = waiting li /\ log_epoch li2 = qt_epoch qt /\ quiescent_epoch li2 = 0 /\ wake_epoch li2 = wake_epoch li /\ length (buf li2) = length (buf li) /\ pos li2 = pos li1) as (Hw2 & He2 & Hq2 & Hk2 & Hb2 & Hp2).
  { unfold li2. destruct (Z.eqb_spec (quiescent_epoch li1) 0); cbn [negb]; split_and!; done. }
  cbv zeta. set (we := if negb (gw2 =? wake_epoch li2) && circ_lt 64 (qt_epoch qt) gw2 then qt_epoch qt else gw2). clearbody li2.
  (* the wake *)
  assert (exists li3, (if negb (we =? wake_epoch li2) then append (fun p => logrec_base.store p logcmd_wake) (set_wake_epoch we li2) else Ok li2) = Ok li3 /\
    logged li3 (es ++ record_marks qt li gw) /\ waiting li3 = waiting li /\ log_epoch li3 = qt_epoch qt /\
    quiescent_epoch li3 = 0 /\ length (buf li3) = length (buf li) /\ pos li <= pos li3 <= pos li + 24) as (li3 & -> & Hl3 & Hw3 & He3 & Hq3 & Hb3 & Hp3).
  { assert (record_marks qt li gw = (if negb (qt_epoch qt =? log_epoch li) then [EEpoch (qt_epoch qt)] else []) ++ (if negb (we =? wake_epoch li2) then [EBase logcmd_wake] else [])) as ->
      by (unfold record_marks, we, gw2; by rewrite Hk2).
    destruct (Z.eqb_spec we (wake_epoch li2)) as [E|E]; cbn [negb].
    - exists li2. rewrite app_nil_r. split_and!; (done || lia).
    - assert (0 <= logcmd_wake < 2 ^ 32) as Hwk by (unfold logcmd_wake; lia).
      destruct (append_entry (fun p => logrec_base.store p logcmd_wake) (EBase logcmd_wake) (set_wake_epoch we li2) _ (base_stores _ Hwk) (logged_fields _ _ _ _ _ li2 _ Hl2)) as (li3 & Ha & Hl & (W & L & Q & K & _ & B) & P);
        [cbn; unfold len_ in *; cbn; lia|]. rewrite <- app_assoc in Hl. exists li3. cbn [entry_size pos set_wake_epoch waiting log_epoch quiescent_epoch buf] in *. split_and!; (done || congruence || lia). }
  rewrite rbind_Ok.
  (* the record *)
  assert (exists store, stores store (record_entry command qt key value) /\
    (if (command =? logcmd_put) && negb (qt_prev_ts qt =? 0) && negb (Z.testbit (qt_prev_ts qt) 0)
     then append (fun p => logrec_kvdelta.store p logcmd_modify key value (qt_prev_ts qt) (qt_ts qt)) li3
     else append (fun p => logrec_kv.store p command key value (qt_ts qt)) li3) = append store li3) as (store & Hst & ->).
  { unfold record_entry. destruct (_ && negb (Z.testbit _ _)); eexists; (split; [|reflexivity]); [apply delta_stores|apply kv_stores]; lia. }
  assert (entry_size (record_entry command qt key value) <= 32 + len key + len value) as Hes by (unfold record_entry; destruct (_ && negb (Z.testbit _ _)); cbn [entry_size]; lia).
  destruct (append_entry _ _ _ _ Hst Hl3) as (li' & Ha & Hl' & (W & L & Q & K & _ & B) & _); [unfold len_ in *; rewrite Hb3; lia|].
  exists li', gw2. rewrite Ha, rbind_Ok. rewrite <- app_assoc in Hl'. split_and!; congruence || done.
Qed.

(** One round of [record]: nothing is written outside the buffer; the record is
    appended whole, or, without room or out of turn, the thread waits and the buffer
    is as before. *)
Lemma try_record_ok me command qt key value li gw es : recordable command qt key -> logged li es -> record_size key value < 2 ^ 32 ->
  exists done li' gw', try_record me command qt key value li gw = Ok (done, li', gw') /\
    if (done : bool) then logged li' (es ++ record_marks qt li gw ++ [record_entry command qt key value])
    else logged li' es /\ me ∈ waiting li' /\ gw' = gw.
Proof.
  intros Hrec Hlog Hrs. unfold try_record. destruct (_ && (negb _ || _)) eqn:E.
  - apply andb_prop in E as [E _]. apply Z.leb_le in E. assert (pos li + record_size key value <= len_ li) as Hroom.
    { destruct Hlog as (bss & R & Hb & Hp & _ & Hl). unfold len_ in *. rewrite Hb, length_app in *. unfold Word.subw in E. rewrite Word.wrap_small in E by (split; lia). lia. }
    destruct (write_record_ok command qt key value li gw es Hrec Hlog Hroom) as (li' & gw' & -> & Hl' & _). rewrite rbind_Ok. eexists true, _, _. split; [done|].
    case_match; [by apply logged_fields|done].
  - eexists false, _, _. split; [done|]. case_bool_decide; [done|]. split; [by apply logged_fields|]. cbn. set_solver.
Qed.

(** ** The logger *)

(** What the logger itself writes when the log becomes quiescent: an epoch and the
    mark (the wake that may come between them cannot, the epochs differ). *)
Definition collect_marks (recovering : bool) (ge we : Z) (li : loginfo) : list entry :=
  let qe := if negb (wake_epoch li =? we) then 0 else quiescent_epoch li in
  if negb recovering && (pos li =? 0) && (qe =? 0) && negb (ge =? log_epoch li) && negb (ge =? we) && match waiting li with [] => true | _ => false end
  then [EEpoch ge; EBase logcmd_quiesce] else [].

(** One round with the lock held: the logger takes everything that is in the
    buffer, after its own marks if it has any, or nothing. *)
Lemma collect_ok recovering ge we li x_buf es : logged li es -> 32 <= len_ li -> length x_buf = length (buf li) -> 0 <= ge < 2 ^ 64 ->
  exists li' w, collect recovering ge we li x_buf = Ok (li', w) /\ length (buf li') = length (buf li) /\
    match w with
    | None => logged li' es /\ collect_marks recovering ge we li = []
    | Some (data, _) => logged li' [] /\ exists bss, data = concat bss /\ Forall2 encodes (es ++ collect_marks recovering ge we li) bss
    end.
Proof.
  intros (bss & R & Hb & Hp & Henc & Hl) H32 Hx Hge. unfold collect. cbv zeta.
  set (li1 := if negb (wake_epoch li =? we) then _ else li).
  assert (buf li1 = buf li /\ pos li1 = pos li /\ wake_epoch li1 = we) as (Hb1 & Hp1 & Hw1) by (unfold li1; destruct (Z.eqb_spec (wake_epoch li) we); cbn [negb]; done).
  set (quiesce := negb recovering && _ && _ && _ && _ && _). set (marks := collect_marks recovering ge we li).
  assert (marks = if quiesce then [EEpoch ge; EBase logcmd_quiesce] else []) as Hmarks.
  { unfold marks, collect_marks, quiesce, li1. cbv zeta. by destruct (negb (wake_epoch li =? we)). }
  clearbody marks li1.
  assert (exists li2 bss2 R2, (if quiesce then
       let? r := logrec_epoch.store 0 logcmd_epoch ge (buf li1) in
       let (p, b) := (r : Z * bytes) in
       let? r := (if ge =? wake_epoch li1 then logrec_base.store p logcmd_wake b else Ok (0, b)) in
       let (n, b) := (r : Z * bytes) in
       let? r := logrec_base.store (p + n) logcmd_quiesce b in
       let (n0, b) := (r : Z * bytes) in
       Ok (Loginfo (waiting li1) ge ge (wake_epoch li1) (flushed_epoch li1) b (p + n + n0))
     else Ok li1) = Ok li2 /\ buf li2 = concat bss2 ++ R2 /\ pos li2 = len (concat bss2) /\
     Forall2 encodes (es ++ marks) bss2 /\ length (buf li2) = length (buf li) /\ (pos li2 = 0 -> marks = []) /\ (recovering = true -> marks = [])) as (li2 & bss2 & R2 & Hq & Hb2 & Hp2 & He2 & Hl2 & Hz & Hr).
  { destruct quiesce eqn:E.
    - subst quiesce. repeat (apply andb_prop in E as [E ?]). apply negb_true_iff in E. assert (pos li = 0) as Hp0 by (rewrite <- Hp1; by apply Z.eqb_eq).
      assert (bss = []) as ->. { destruct bss as [|b bss]; [done|]. apply Forall2_cons_inv_r in Henc as (e & es' & He & _ & _). apply encodes_length in He. pose proof (entry_size_pos e). cbn [concat] in Hp. rewrite length_app in Hp. lia. }
      apply Forall2_nil_inv_r in Henc as ->. cbn [concat app] in Hb, Hp. unfold len_ in H32. rewrite Hb1.
      pose proof (epoch_store [] (buf li) 0 ge eq_refl ltac:(lia) Hge) as Hs. cbn [app] in Hs. rewrite Hs, rbind_Ok.
      set (b1 := w32 logcmd_epoch ++ w32 16 ++ w64 ge). assert (len b1 = 16) as Hl1 by (unfold b1; rewrite !length_app, !length_le_bytes; lia).
      assert (0 <= logcmd_wake < 2 ^ 32 /\ 0 <= logcmd_quiesce < 2 ^ 32) as [Hcw Hcq] by (unfold logcmd_wake, logcmd_quiesce; lia). rewrite Hw1.
      match goal with H : negb (ge =? we) = true |- _ => apply negb_true_iff in H; rewrite H end.
      rewrite rbind_Ok, Z.add_0_r. rewrite (base_store b1 (drop 16 (buf li)) 16), rbind_Ok by (rewrite ?length_drop; (done || lia)).
      eexists _, [b1; w32 logcmd_quiesce ++ w32 8], (drop 8 (drop 16 (buf li))). split; [done|]. cbn [buf pos concat]. rewrite app_nil_r, Hmarks.
      split_and!; [reflexivity|rewrite !length_app, !length_le_bytes; lia| |rewrite !length_app, !length_drop, !length_le_bytes; lia|lia|congruence].
      cbn [app]. repeat constructor.
    - exists li1, bss, R. rewrite Hmarks, app_nil_r. split_and!; [done|congruence|congruence|done|by rewrite Hb1|done|done]. }
  match goal with |- context [rbind (if quiesce then ?x else Ok li1) _] =>
    assert ((if quiesce then x else Ok li1) = Ok li2) as -> by (rewrite <- Hq; destruct quiesce; done) end. rewrite rbind_Ok.
  destruct recovering; cbn [negb andb].
  - rewrite Hr in * by done. rewrite app_nil_r in He2. eexists _, None. split; [done|]. split; [done|]. split; [|done].
    exists bss2, R2. unfold len_ in *. split_and!; [done..|by rewrite Hl2].
  - destruct (Z.ltb_spec 0 (pos li2)) as [Hpos|Hpos].
    + assert (mem_read 0 (pos li2) (buf li2) = Ok (concat bss2)) as -> by (rewrite Hp2, Hb2; by apply (mem_read_app [] (concat bss2) R2)). rewrite rbind_Ok.
      eexists _, (Some _). split; [done|]. split; [done|]. split; [|by exists bss2]. exists [], x_buf. unfold len_. cbn [buf pos]. split_and!; [done|done|constructor|]. unfold len_ in Hl. by rewrite Hx.
    + assert (pos li2 = 0) as Hz0 by lia. rewrite Hz in * by done. rewrite app_nil_r in He2. eexists _, None. split; [done|]. split; [done|]. split; [|done].
      exists bss2, R2. unfold len_ in *. split_and!; [done..|by rewrite Hl2].
Qed.


(** ** The log as a whole *)

(** The log, the two global epochs, the file, and what the logger is writing with
    the lock released. *)
Record system := System {
  sys_log : loginfo;
  sys_global : Z;
  sys_wake : Z;
  sys_file : bytes;
  sys_writing : option (bytes * Z);
}.

(** The steps, with the entries they record. *)
Inductive log_step : system -> list entry -> system -> Prop :=
  | step_record me command qt key value li ge gw f w ok li' gw' :
      recordable command qt key -> record_size key value < 2 ^ 32 -> try_record me command qt key value li gw = Ok (ok, li', gw') ->
      log_step (System li ge gw f w)
        (if (ok : bool) then record_marks qt li gw ++ [record_entry command qt key value] else [])
        (System li' ge gw' f w)
  | step_collect recovering li ge gw f x_buf li' w :
      length x_buf = length (buf li) -> collect recovering ge gw li x_buf = Ok (li', w) ->
      log_step (System li ge gw f None) (collect_marks recovering ge gw li) (System li' ge gw f w)
  | step_write li ge gw f data e : log_step (System li ge gw f (Some (data, e))) [] (System (flushed e li) ge gw (f ++ data) None)
  | step_epoch li ge gw f w : log_step (System li ge gw f w) [] (System li (advance_epoch ge) gw f w).

(** A log in use, with all that it has recorded. *)
Inductive log_reach (s0 : system) : system -> list entry -> Prop :=
  | reach_start : log_reach s0 s0 []
  | reach_step s es s' new : log_reach s0 s es -> log_step s new s' -> log_reach s0 s' (es ++ new).

(** A new log, over an empty file. *)
Definition new_log (size : nat) (ge gw : Z) : system := System (Loginfo [] 0 0 0 0 (zeros size) 0) ge gw [] None.

Record log_invariant (s : system) (all : list entry) : Prop := LogInvariant {
  inv_valid : Forall valid all;
  inv_room : 32 <= len_ (sys_log s);
  inv_global : 0 <= sys_global s < 2 ^ 64;
  inv_parts : exists ef ew eb bf bw, all = ef ++ ew ++ eb /\ sys_file s = concat bf /\ Forall2 encodes ef bf /\ Forall2 encodes ew bw /\
    match sys_writing s with None => ew = [] | Some (data, _) => data = concat bw end /\ logged (sys_log s) eb;
}.

Lemma record_valid command qt key value li gw : recordable command qt key -> record_size key value < 2 ^ 32 ->
  Forall valid (record_marks qt li gw ++ [record_entry command qt key value]).
Proof.
  intros (Hc & Hk & He & Hts & Hp) Hs. unfold record_size, logrec_kvdelta.size, logrec_kvdelta.sizeof, logrec_epoch.sizeof, logrec_base.sizeof in Hs.
  unfold record_marks, record_entry. rewrite !Forall_app. split; [split; case_match; constructor; try constructor; cbn; auto; lia|].
  constructor; [|constructor]. destruct (_ && negb (Z.testbit _ _)); split; cbn [entry_size]; auto; lia.
Qed.

Lemma same_length_room li li' : length (buf li') = length (buf li) -> 32 <= len_ li -> 32 <= len_ li'.
Proof. unfold len_. by intros ->. Qed.

Lemma try_record_length me command qt key value li gw ok li' gw' es : recordable command qt key -> logged li es -> try_record me command qt key value li gw = Ok (ok, li', gw') ->
  length (buf li') = length (buf li).
Proof.
  intros Hrec Hlog. unfold try_record. destruct (_ && (negb _ || _)) eqn:E.
  - apply andb_prop in E as [E _]. apply Z.leb_le in E. assert (pos li + record_size key value <= len_ li) as Hroom.
    { destruct Hlog as (bss & R & Hb & Hp & _ & Hl). unfold len_ in *. rewrite Hb, length_app in *. unfold Word.subw in E. rewrite Word.wrap_small in E by (split; lia). lia. }
    destruct (write_record_ok command qt key value li gw es Hrec Hlog Hroom) as (li1 & gw1 & -> & _ & _ & Hl & _). rewrite rbind_Ok. intros [= _ <- _]. by case_match.
  - intros [= _ <- _]. by destruct (bool_decide _).
Qed.

Lemma step_preserves s new s' all : log_invariant s all -> log_step s new s' -> log_invariant s' (all ++ new).
Proof.
  intros [Hv Hroom Hge (ef & ew & eb & bf & bw & -> & Hf & Hef & Hew & Hwr & Hlog)] Hstep. destruct Hstep as [me c qt key value li ge gw f w ok li' gw' Hrec Hs Htry|recovering li ge gw f x_buf li' w Hx Hcol|li ge gw f data e|li ge gw f w]; cbn [sys_log sys_global sys_wake sys_file sys_writing] in *.
  - destruct (try_record_ok me c qt key value li gw eb Hrec Hlog Hs) as (ok' & li1 & gw1 & Htry' & Hres). rewrite Htry in Htry'. injection Htry' as <- <- <-.
    pose proof (try_record_length _ _ _ _ _ _ _ _ _ _ _ Hrec Hlog Htry) as Hlen. destruct ok.
    + constructor; cbn; [apply Forall_app; split; [done|by apply record_valid]|by eapply same_length_room|done|]. exists ef, ew, (eb ++ record_marks qt li gw ++ [record_entry c qt key value]), bf, bw. rewrite <- !app_assoc. done.
    + constructor; cbn; [by rewrite app_nil_r|by eapply same_length_room|done|]. destruct Hres as (Hl & _). exists ef, ew, eb, bf, bw. rewrite app_nil_r. done.
  - subst ew. inversion Hew; subst. destruct (collect_ok recovering ge gw li x_buf eb Hlog Hroom Hx Hge) as (li1 & w1 & Hcol' & Hlen & Hres). rewrite Hcol in Hcol'. injection Hcol' as <- <-.
    constructor; cbn; [|by eapply same_length_room|done|].
    + apply Forall_app. split; [done|]. unfold collect_marks. cbv zeta. match goal with |- Forall _ (if ?b then _ else _) => destruct b end; [|constructor]. repeat constructor; cbn; auto; lia.
    + destruct w as [[data e]|].
      * destruct Hres as (Hl & bss & -> & Henc). exists ef, (eb ++ collect_marks recovering ge gw li), [], bf, bss. by rewrite app_nil_r, <- app_assoc.
      * destruct Hres as (Hl & ->). exists ef, [], eb, bf, []. by rewrite app_nil_r.
  - subst data. constructor; cbn; [by rewrite app_nil_r|done|done|]. exists (ef ++ ew), [], eb, (bf ++ bw), []. rewrite app_nil_r, <- app_assoc, concat_app. cbn [app].
    split_and!; [done|by rewrite Hf|by apply Forall2_app|constructor|done|by apply logged_fields].
  - constructor; cbn; [by rewrite app_nil_r|done|by apply (next_nonzero_word 64 ltac:(lia))|]. exists ef, ew, eb, bf, bw. rewrite app_nil_r. done.
Qed.

Lemma reach_invariant s0 s all : log_invariant s0 [] -> log_reach s0 s all -> log_invariant s all.
Proof. intros H0 Hr. induction Hr as [|s es s' new Hr IH Hs]; [done|]. by eapply step_preserves. Qed.

Lemma new_log_invariant size ge gw : 32 <= Z.of_nat size < 2 ^ 32 -> 0 <= ge < 2 ^ 64 -> log_invariant (new_log size ge gw) [].
Proof.
  intros Hs Hge. assert (len_ (sys_log (new_log size ge gw)) = Z.of_nat size) as Hl by (unfold len_; cbn; unfold zeros; by rewrite length_replicate).
  constructor; [constructor|lia|done|]. exists [], [], [], [], []. cbn [sys_file sys_writing sys_log new_log]. split_and!; try done; try constructor.
  exists [], (zeros size). split_and!; [done|done|constructor|]. cbn [sys_log new_log] in Hl. rewrite Hl. lia.
Qed.

(** A part of entries: complete ones and a torn one. *)
Lemma take_entries es bss n : Forall2 encodes es bss -> Forall valid es ->
  exists es1 es2 bss1 tail, es = es1 ++ es2 /\ take n (concat bss) = concat bss1 ++ tail /\ Forall2 encodes es1 bss1 /\ torn tail.
Proof.
  intros H. revert n. induction H as [|e bs es bss He _ IH]; intros n Hv; cbn [concat].
  - exists [], [], [], []. rewrite take_nil. split_and!; try done. by left.
  - apply Forall_cons in Hv as [Hv1 Hv]. destruct (decide (length bs <= n)%nat) as [Hn|Hn].
    + destruct (IH (n - length bs)%nat Hv) as (es1 & es2 & bss1 & tail & -> & Ht & Henc & Htorn). exists (e :: es1), es2, (bs :: bss1), tail.
      rewrite take_app_ge, Ht by done. cbn [concat]. rewrite <- app_assoc. split_and!; [done|done|by constructor|done].
    + exists [], (e :: es), [], (take n bs). rewrite take_app_le by lia. split_and!; [done|done|constructor|]. right. exists e, bs, (drop n bs).
      split_and!; [done|done|by rewrite take_drop|]. intros Hd. apply (f_equal length) in Hd. rewrite length_drop in Hd. cbn in Hd. lia.
Qed.

(** The file if the machine stops when [n] bytes of what is being written are there. *)
Definition crash_file (s : system) (n : nat) : bytes := sys_file s ++ match sys_writing s with Some (data, _) => take n data | None => [] end.

(** C15: at any time, after any records of any threads and rounds of the logger, a
    crash leaves the file with complete entries, which are the first of all that
    were recorded and include all whose writing had finished, and at most a torn
    one behind them; and a further record or round stays inside the buffer. *)
Theorem log_crash size ge gw s all n : 32 <= Z.of_nat size < 2 ^ 32 -> 0 <= ge < 2 ^ 64 -> log_reach (new_log size ge gw) s all ->
  (exists es1 es2 bss tail, all = es1 ++ es2 /\ crash_file s n = concat bss ++ tail /\ Forall valid es1 /\ Forall2 encodes es1 bss /\ torn tail /\
    (length (sys_file s) <= length (concat bss))%nat) /\
  (forall me command qt key value, recordable command qt key -> record_size key value < 2 ^ 32 ->
    exists r, try_record me command qt key value (sys_log s) (sys_wake s) = Ok r) /\
  (forall recovering x_buf, length x_buf = length (buf (sys_log s)) -> exists r, collect recovering (sys_global s) (sys_wake s) (sys_log s) x_buf = Ok r).
Proof.
  intros Hsz Hge Hr. destruct (reach_invariant _ _ _ (new_log_invariant size ge gw Hsz Hge) Hr) as [Hv Hroom Hg (ef & ew & eb & bf & bw & -> & Hf & Hef & Hew & Hwr & Hlog)].
  split; [|split].
  - apply Forall_app in Hv as [Hvf Hv]. apply Forall_app in Hv as [Hvw _]. unfold crash_file. rewrite Hf.
    destruct (take_entries ew bw n Hew Hvw) as (es1 & es2 & bss & tail & -> & Ht & Henc & Htorn). apply Forall_app in Hvw as [Hvw _]. destruct (sys_writing s) as [[data e]|].
    + exists (ef ++ es1), (es2 ++ eb), (bf ++ bss), tail. rewrite Hwr, Ht, concat_app, <- !app_assoc, length_app. split_and!; [done|done|by apply Forall_app|by apply Forall2_app|done|lia].
    + exists ef, eb, bf, []. apply app_eq_nil in Hwr as [-> ->]. rewrite !app_nil_r. split_and!; [done|done|done|done|by left|done].
  - intros me command qt key value Hrec Hs. destruct (try_record_ok me command qt key value _ (sys_wake s) eb Hrec Hlog Hs) as (d & li' & gw' & -> & _). by eexists.
  - intros recovering x_buf Hx. destruct (collect_ok recovering (sys_global s) (sys_wake s) _ x_buf eb Hlog Hroom Hx Hg) as (li' & w & -> & _). by eexists.
Qed.

(** A record by thread 0 in epoch 1, and the logger takes it. *)
Definition a_put : query_times := QueryTimes 1 20 0.
Definition recorded : system :=
  match try_record 0 logcmd_put a_put [107] [1; 161; 97] (sys_log (new_log 128 1 0)) 0 with
  | Ok (_, li, gw) => System li 1 gw [] None
  | Fault _ => new_log 128 1 0
  end.
Definition being_written : system :=
  match collect false 1 0 (sys_log recorded) (zeros 128) with Ok (li, w) => System li 1 0 [] w | Fault _ => recorded end.

Lemma log_crash_witness : exists all, log_reach (new_log 128 1 0) being_written all /\ all = [EEpoch 1; EKv logcmd_put [107] [1; 161; 97] 20] /\
  (exists es1 es2 bss tail, all = es1 ++ es2 /\ crash_file being_written 20 = concat bss ++ tail /\ Forall valid es1 /\ Forall2 encodes es1 bss /\ torn tail /\
    (length (sys_file being_written) <= length (concat bss))%nat).
Proof.
  eexists. assert (log_reach (new_log 128 1 0) being_written (([] ++ [EEpoch 1; EKv logcmd_put [107] [1; 161; 97] 20]) ++ [])) as Hr.
  { eapply reach_step; [eapply reach_step; [apply reach_start|]|].
    - refine (step_record 0 logcmd_put a_put [107] [1; 161; 97] _ 1 0 [] None true (sys_log recorded) 0 _ _ _).
      + split; [by left|]. cbn. unfold MASSTREE_MAXKEYLEN. lia.
      + reflexivity.
      + vm_compute. reflexivity.
    - refine (step_collect false (sys_log recorded) 1 0 [] (zeros 128) (sys_log being_written) (sys_writing being_written) _ _); vm_compute; reflexivity. }
  split; [exact Hr|]. split; [reflexivity|]. refine (proj1 (log_crash 128 1 0 being_written _ 20 _ _ Hr)); lia.
Defined.
