(* ===== verification/Recovery.v ===== *)
(** * Recovery from logs and checkpoints (mtd.cc, log.cc)

    [recover] analyses the logs together, computes the range of epochs to replay, and
    has each log replayed.  The steps of its threads are in file RecoveryPhases. *)

From S2P Require Export LogFacts.

#[local] Open Scope Z_scope.
#[local] Open Scope lhm_scope.

Section recovery.
(** The epochs of the checkpoint, zero when there is none. *)
Context (rec_ckp_min_epoch rec_ckp_max_epoch : Z).

(** A loop over [rec_log_infos] for a maximum epoch. *)
Definition max_step (epoch : info_type -> Z) (m : Z) (it : info_type) : Z :=
  if circ_bool (epoch it) && (negb (circ_bool m) || circ_lt 64 m (epoch it)) then epoch it else m.
Definition max_of (epoch : info_type -> Z) (m : Z) (infos : list info_type) : Z := foldl (max_step epoch) m infos.

Definition max_epoch (infos : list info_type) : Z :=
  max_of last_epoch (if circ_bool rec_ckp_max_epoch then next_nonzero 64 rec_ckp_max_epoch else rec_ckp_max_epoch) infos.
Definition max_first_epoch (infos : list info_type) : Z := max_of first_epoch 0 infos.
Definition max_wake_epoch (infos : list info_type) : Z := max_of info_wake_epoch 0 infos.

Definition quiescent_step (m : Z) (it : info_type) : Z :=
  if info_quiescent it && (negb (circ_bool m) || circ_gt 64 m (last_epoch it)) then last_epoch it else m.
Definition min_quiescent_last_epoch (infos : list info_type) : Z := foldl quiescent_step 0 infos.

(** [rec_replay_min_quiescent_last_epoch] *)
Definition replay_min_quiescent (infos : list info_type) : Z :=
  let wake := max_wake_epoch infos in
  let q := min_quiescent_last_epoch infos in
  if circ_bool wake && circ_le 64 q wake then q else 0.

(** The log's part of REC_LOG_TS: a log without a file leaves its entry, whose flag
    [junk] nobody has written. *)
Definition log_info (junk : bool) (file : option bytes) : res info_type :=
  match file with Some m => info m | None => Ok (Info 0 0 0 0 junk) end.

Definition set_min_post (e : Z) (x : info_type) : info_type := Info (first_epoch x) (last_epoch x) (info_wake_epoch x) e (info_quiescent x).

(** Its part of REC_LOG_ANALYZE_WAKE. *)
Definition analyze_wake (q : Z) (file : option bytes) (x : info_type) : res info_type :=
  match file with
  | Some m =>
    if circ_bool q && circ_le 64 q (info_wake_epoch x) then let? e := min_post_quiescent_wake_epoch q m in Ok (set_min_post e x)
    else Ok x
  | None => Ok x
  end.

(** The upper bound of the epochs to replay. *)
Definition upper_step (m : Z) (it : info_type) : Z :=
  let m := if negb (info_quiescent it) && circ_bool (last_epoch it) && circ_lt 64 (last_epoch it) m then last_epoch it else m in
  if circ_bool (min_post_quiescent it) && circ_lt 64 (min_post_quiescent it) m then min_post_quiescent it else m.
Definition replay_max_epoch (infos : list info_type) : Z := foldl upper_step (max_epoch infos) infos.

Fixpoint each_log {A B} (f : A -> B -> res B) (xs : list A) (ys : list B) : res (list B) :=
  match xs, ys with
  | x :: xs, y :: ys => let? y := f x y in let? ys := each_log f xs ys in Ok (y :: ys)
  | _, _ => Ok []
  end.

(** [recover] up to the replay: the lower and the upper bound.  [infos0] is what
    the new array holds. *)
Definition recover_range (files : list (option bytes)) (infos0 : list info_type) : res (Z * Z) :=
  let? infos := each_log (fun file x => log_info (info_quiescent x) file) files infos0 in
  let q := replay_min_quiescent infos in
  let? infos := each_log (analyze_wake q) files infos in
  let hi := replay_max_epoch infos in
  let? _ :=
    (if circ_bool rec_ckp_min_epoch then
       check_res (circ_gt 64 rec_ckp_min_epoch (max_first_epoch infos) && circ_lt 64 rec_ckp_min_epoch hi && circ_lt 64 rec_ckp_max_epoch hi)
     else Ok tt) in
  Ok (rec_ckp_min_epoch, hi).

(** The replay of each log, one after another on the table. *)
Section replays.
Context {T : Type} (run : logrecord -> T -> res T).

Fixpoint replay_logs (lo hi : Z) (files : list (option bytes)) (table : T) : res (list (option bytes) * T) :=
  match files with
  | [] => Ok ([], table)
  | None :: files => let? r := replay_logs lo hi files table in Ok (None :: r.1, r.2)
  | Some m :: files =>
    let? r := replayandclean run lo hi m table in
    let '(file, _, table) := (r : bytes * Z * T) in
    let? r := replay_logs lo hi files table in
    Ok (Some file :: r.1, r.2)
  end.

(** [recover], of the logs: the files and the table after, and [global_log_epoch]. *)
Definition recover_logs (files : list (option bytes)) (infos0 : list info_type) (table : T) : res (list (option bytes) * T * Z) :=
  let? range := recover_range files infos0 in
  let (lo, hi) := (range : Z * Z) in
  let? r := replay_logs lo hi files table in
  Ok (r.1, r.2, next_nonzero 64 hi).
End replays.
End recovery.

(** ** Epochs far from the end of the range *)

Definition plain_epoch (x : Z) : Prop := 0 <= x < 2 ^ 62.
Definition plain_info (x : info_type) : Prop :=
  plain_epoch (first_epoch x) /\ plain_epoch (last_epoch x) /\ plain_epoch (info_wake_epoch x) /\ plain_epoch (min_post_quiescent x).

Lemma plain_lt a b : plain_epoch a -> plain_epoch b -> circ_lt 64 a b = (a <? b) /\ circ_gt 64 a b = (b <? a) /\ circ_le 64 a b = (a <=? b).
Proof.
  intros Ha Hb. unfold plain_epoch in *.
  assert (forall x y, 0 <= x < 2 ^ 62 -> 0 <= y < 2 ^ 62 -> less 64 x y = (x <? y)) as H.
  { intros x y Hx Hy. unfold less. rewrite (signed_mod 64 ltac:(lia) (x - y) (x - y)); [|change (64 - 1) with 63; lia|by rewrite Z.sub_diag].
    destruct (Z.ltb_spec x y), (Z.ltb_spec (x - y) 0); lia. }
  unfold circ_lt, circ_gt, circ_le. rewrite !H by done. split; [done|]. split; [done|]. destruct (Z.ltb_spec b a), (Z.leb_spec a b); cbn; lia.
Qed.

Lemma circ_bool_plain x : circ_bool x = negb (x =? 0).
Proof. done. Qed.

(** The loops for maxima compute maxima. *)
Lemma max_step_plain epoch m it : plain_epoch m -> plain_epoch (epoch it) -> max_step epoch m it = Z.max m (epoch it).
Proof.
  intros Hm He. unfold max_step. rewrite !circ_bool_plain, (proj1 (plain_lt _ _ Hm He)). unfold plain_epoch in *.
  destruct (Z.eqb_spec (epoch it) 0), (Z.eqb_spec m 0), (Z.ltb_spec m (epoch it)); cbn [negb orb andb]; lia.
Qed.

Lemma max_of_plain epoch infos : (forall it, it ∈ infos -> plain_epoch (epoch it)) -> forall m, plain_epoch m ->
  plain_epoch (max_of epoch m infos) /\ m <= max_of epoch m infos /\ (forall it, it ∈ infos -> epoch it <= max_of epoch m infos) /\
  (max_of epoch m infos = m \/ exists it, it ∈ infos /\ max_of epoch m infos = epoch it).
Proof.
  induction infos as [|it infos IH]; intros Hp m Hm; cbn [max_of foldl].
  { split; [done|]. split; [lia|]. split; [by intros ? ?%not_elem_of_nil|by left]. }
  assert (plain_epoch (epoch it)) as He by (apply Hp; left). rewrite max_step_plain by done.
  destruct (IH (fun it' H => Hp it' (list_elem_of_further _ _ _ H)) (Z.max m (epoch it))) as (H1 & H2 & H3 & H4); [unfold plain_epoch in *; lia|].
  unfold max_of in *. split; [done|]. split; [lia|]. split.
  - intros x [->|Hx]%elem_of_cons; [lia|by apply H3].
  - destruct H4 as [H4|(x & Hx & H4)]; [|right; exists x; split; [by right|done]].
    destruct (Z.max_spec m (epoch it)) as [[? E]|[? E]]; rewrite E in *; [right; exists it; split; [left|done]|by left].
Qed.

(** The bound is what a log says, or the maximum. *)
Definition bounds_replay (it : info_type) (e : Z) : Prop :=
  (info_quiescent it = false /\ last_epoch it <> 0 /\ e = last_epoch it) \/ (min_post_quiescent it <> 0 /\ e = min_post_quiescent it).

Lemma upper_step_plain m it : plain_epoch m -> plain_info it ->
  plain_epoch (upper_step m it) /\ upper_step m it <= m /\ (forall e, bounds_replay it e -> upper_step m it <= e) /\
  (upper_step m it = m \/ bounds_replay it (upper_step m it)).
Proof.
  intros Hm (_ & Hl & _ & Hp). unfold upper_step, bounds_replay. rewrite !circ_bool_plain, (proj1 (plain_lt _ _ Hl Hm)).
  set (m1 := if negb (info_quiescent it) && negb (last_epoch it =? 0) && (last_epoch it <? m) then last_epoch it else m).
  assert (plain_epoch m1 /\ m1 <= m /\ (info_quiescent it = false -> last_epoch it <> 0 -> m1 <= last_epoch it) /\
    (m1 = m \/ info_quiescent it = false /\ last_epoch it <> 0 /\ m1 = last_epoch it)) as (H1 & H2 & H3 & H4).
  { unfold m1. destruct (info_quiescent it), (Z.eqb_spec (last_epoch it) 0), (Z.ltb_spec (last_epoch it) m); cbn [negb andb]; (split; [done|]); (split; [lia|]);
      (split; [intros; try done; lia|]); auto. }
  clearbody m1. rewrite (proj1 (plain_lt _ _ Hp H1)).
  destruct (Z.eqb_spec (min_post_quiescent it) 0) as [E|E], (Z.ltb_spec (min_post_quiescent it) m1) as [L|L]; cbn [negb andb];
    (split; [done|]); (split; [lia|]); (split; [intros e [(? & ? & ->)|(? & ->)]; [assert (m1 <= last_epoch it) by auto; lia|lia]|]); intuition.
Qed.

Lemma quiescent_plain infos : (forall it, it ∈ infos -> plain_info it) -> plain_epoch (min_quiescent_last_epoch infos).
Proof.
  unfold min_quiescent_last_epoch. assert (plain_epoch 0) as H0 by (unfold plain_epoch; lia). revert H0. generalize 0 as m.
  induction infos as [|it infos IH]; intros m Hm Hp; [done|]. cbn [foldl]. apply IH; [|intros x Hx; apply Hp; by right].
  unfold quiescent_step. destruct (_ && _); [apply Hp; left|done].
Qed.

(** The upper bound, among the epochs that bound it. *)
Lemma replay_bounds_all ckp_max infos : 0 <= ckp_max < 2 ^ 62 - 1 -> Forall plain_info infos ->
  let top := max_epoch ckp_max infos in
  let hi := replay_max_epoch ckp_max infos in
  ((ckp_max <> 0 -> ckp_max < top) /\ (forall it, it ∈ infos -> last_epoch it <= top) /\
     (top = 0 \/ (ckp_max <> 0 /\ top = ckp_max + 1) \/ exists it, it ∈ infos /\ top = last_epoch it)) /\
  plain_epoch hi /\ hi <= top /\ (forall it e, it ∈ infos -> bounds_replay it e -> hi <= e) /\ (hi = top \/ exists it, it ∈ infos /\ bounds_replay it hi).
Proof.
  intros Hc Hp top hi. rewrite Forall_forall in Hp.
  set (m0 := if circ_bool ckp_max then next_nonzero 64 ckp_max else ckp_max).
  assert (m0 = if ckp_max =? 0 then 0 else ckp_max + 1) as Em0.
  { unfold m0. rewrite circ_bool_plain. destruct (Z.eqb_spec ckp_max 0); [done|]. cbn [negb].
    destruct (next_nonzero_later 64 ckp_max) as (_ & _ & -> & _); [lia|split; lia|]. by rewrite (proj2 (Z.eqb_neq _ _)) by lia. }
  assert (plain_epoch m0) as Hm0 by (rewrite Em0; unfold plain_epoch; destruct (Z.eqb_spec ckp_max 0); lia).
  destruct (max_of_plain last_epoch infos (fun it H => proj1 (proj2 (Hp it H))) m0 Hm0) as (T1 & T2 & T3 & T4).
  change (max_of last_epoch m0 infos) with top in *. split.
  { split; [intros Hne; rewrite Em0, (proj2 (Z.eqb_neq _ _)) in T2 by done; lia|]. split; [done|].
    destruct T4 as [T4|T4]; [|by right; right]. rewrite T4, Em0. destruct (Z.eqb_spec ckp_max 0); [by left|by right; left]. }
  unfold hi, replay_max_epoch. change (max_epoch ckp_max infos) with top. clearbody top. clear Em0 Hm0 T2 T3 T4 hi m0.
  revert top T1. induction infos as [|it infos IH]; intros top Ht; cbn [foldl].
  { split; [done|]. split; [lia|]. split; [by intros ? ? ?%not_elem_of_nil|by left]. }
  destruct (upper_step_plain top it Ht (Hp it (list_elem_of_here _ _))) as (S1 & S2 & S3 & S4).
  destruct (IH (fun x H => Hp x (list_elem_of_further _ _ _ H)) _ S1) as (I0 & I1 & I2 & I3). split; [done|]. split; [lia|]. split.
  - intros x e [->|Hx]%elem_of_cons Hb; [specialize (S3 e Hb); lia|by apply (I2 x)].
  - destruct I3 as [I3|(x & Hx & I3)]; [|right; exists x; split; [by right|done]]. rewrite I3 in *.
    destruct S4 as [S4|S4]; [by left|right; exists it; split; [left|done]].
Qed.

Lemma replay_bounds ckp_max infos : 0 <= ckp_max < 2 ^ 62 - 1 -> Forall plain_info infos ->
  (ckp_max <> 0 -> ckp_max < max_epoch ckp_max infos) /\ plain_epoch (replay_max_epoch ckp_max infos) /\
  (replay_max_epoch ckp_max infos = max_epoch ckp_max infos \/ exists it, it ∈ infos /\ bounds_replay it (replay_max_epoch ckp_max infos)).
Proof. intros Hc Hp. destruct (replay_bounds_all ckp_max infos Hc Hp) as ((H & _) & Hh & _ & _ & Ho). done. Qed.

(** ** Properties *)

(** With epochs that have not wrapped, the upper bound of the replay is the
    smallest of: one more than the checkpoint's last epoch or the last epoch of any
    log, whichever is larger; the last epoch of each log that did not end quiescent;
    and each epoch whose wake a quiescent log missed. *)
Lemma replay_upper_bound ckp_max infos : 0 <= ckp_max < 2 ^ 62 - 1 -> Forall plain_info infos ->
  let top := max_epoch ckp_max infos in
  let hi := replay_max_epoch ckp_max infos in
  ((ckp_max <> 0 -> ckp_max < top) /\ (forall it, it ∈ infos -> last_epoch it <= top) /\
     (top = 0 \/ (ckp_max <> 0 /\ top = ckp_max + 1) \/ exists it, it ∈ infos /\ top = last_epoch it)) /\
  hi <= top /\ (forall it e, it ∈ infos -> bounds_replay it e -> hi <= e) /\ (hi = top \/ exists it, it ∈ infos /\ bounds_replay it hi).
Proof.
  intros Hc Hp top hi. destruct (replay_bounds_all ckp_max infos Hc Hp) as (H & _ & Hrest). done.
Qed.

(** A log without a file decides, by a flag nobody has written, whether the wakes
    that quiescent logs missed are looked for: when the flag reads as true and the
    log is the last one they are not, and when it reads as false the log does not
    count. *)
Lemma missing_log_flag infos : Forall plain_info infos ->
  (forall junk, log_info junk None = Ok (Info 0 0 0 0 junk)) /\
  replay_min_quiescent (infos ++ [Info 0 0 0 0 true]) = 0 /\
  replay_min_quiescent (infos ++ [Info 0 0 0 0 false]) = replay_min_quiescent infos.
Proof.
  intros Hp. split; [done|]. rewrite Forall_forall in Hp.
  assert (forall j, max_wake_epoch (infos ++ [Info 0 0 0 0 j]) = max_wake_epoch infos) as Hw by (intros j; unfold max_wake_epoch, max_of; by rewrite foldl_app).
  assert (plain_epoch (min_quiescent_last_epoch infos)) as Hq by by apply quiescent_plain.
  assert (forall j, min_quiescent_last_epoch (infos ++ [Info 0 0 0 0 j]) = quiescent_step (min_quiescent_last_epoch infos) (Info 0 0 0 0 j)) as Hj
    by (intros j; unfold min_quiescent_last_epoch; by rewrite foldl_app).
  unfold replay_min_quiescent. rewrite !Hw, !Hj. split; [|reflexivity].
  unfold quiescent_step. cbn [info_quiescent last_epoch andb]. rewrite !circ_bool_plain, (proj1 (proj2 (plain_lt _ 0 Hq ltac:(unfold plain_epoch; lia)))).
  assert ((if negb (negb (min_quiescent_last_epoch infos =? 0)) || (0 <? min_quiescent_last_epoch infos) then 0 else min_quiescent_last_epoch infos) = 0) as ->.
  { unfold plain_epoch in Hq. destruct (Z.eqb_spec (min_quiescent_last_epoch infos) 0) as [->|], (Z.ltb_spec 0 (min_quiescent_last_epoch infos)); cbn; lia. }
  by destruct (_ && _).
Qed.

(** ** Logs of three threads *)

Definition infos_of (junk : bool) : list info_type := [Info 0 0 0 0 false; Info 0 0 0 0 false; Info 0 0 0 0 junk].

(** The first log ends quiescent at epoch 5, the second one wakes at 7 and ends at 9;
    the third has no file. *)
Definition three_logs : list (option bytes) :=
  [Some (flat_map LogFacts.bytes_of [EEpoch 5; EBase logcmd_quiesce]);
   Some (flat_map LogFacts.bytes_of [EEpoch 4; EEpoch 7; EBase logcmd_wake; EEpoch 9; EKv logcmd_put [107] [] 2]);
   None].

Lemma three_logs_ranges :
  recover_range 0 0 three_logs (infos_of false) = Ok (0, 7) /\ recover_range 0 0 three_logs (infos_of true) = Ok (0, 9).
Proof. vm_compute. split; reflexivity. Qed.

