(* ===== verification/RecoveryPhases.v ===== *)
(** * The phases of recovery (mtd.cc, log.cc)

    The main thread goes through the phases with [recphase]; each checkpointing and
    logging thread waits for its phases with [waituntilphase], does its part, and
    reports with [inactive].  The accesses to [rec_state] and [rec_nactive] are under
    one mutex, so a step is what a thread does between waiting. *)

From stdpp Require Import relations.
From S2P Require Export Prelude.

(** ** The threads *)

(** [REC_NONE] is 0. *)
Definition REC_CKP : nat := 1.
Definition REC_LOG_TS : nat := 2.
Definition REC_LOG_ANALYZE_WAKE : nat := 3.
Definition REC_LOG_REPLAY : nat := 4.
Definition REC_DONE : nat := 5.

Inductive thread_kind := Checkpointer | Logger.

(** The phases that [recovercheckpoint] and [logreplay::replay] wait for. *)
Definition phases_of (k : thread_kind) : list nat :=
  match k with Checkpointer => [REC_CKP] | Logger => [REC_LOG_TS; REC_LOG_ANALYZE_WAKE; REC_LOG_REPLAY] end.

(** How many phases a thread has reported, and whether it is in the next one. *)
Record rec_thread := RecThread { rt_kind : thread_kind; reported : nat; active : bool }.

(** How many calls of [recphase] have returned, and whether the next one waits. *)
Record rec_system := RecSystem {
  returned : nat;
  waiting : bool;
  rec_state : nat;
  rec_nactive : Z;
  rec_threads : list rec_thread;
}.

Section phases.
Context (nckthreads nlogger : nat).

(** The calls of [recphase] in [recover]. *)
Definition recphases : list (nat * nat) :=
  [(nckthreads, REC_CKP); (nlogger, REC_LOG_TS); (nlogger, REC_LOG_ANALYZE_WAKE); (nlogger, REC_LOG_REPLAY); (0, REC_DONE)].

Definition start : rec_system :=
  RecSystem 0 false 0 0%Z (replicate nckthreads (RecThread Checkpointer 0 false) ++ replicate nlogger (RecThread Logger 0 false)).

Inductive rec_step : rec_system -> rec_system -> Prop :=
  | recphase_enters s n p : waiting s = false -> recphases !! returned s = Some (n, p) ->
      rec_step s (RecSystem (returned s) true p (Z.of_nat n) (rec_threads s))
  | recphase_returns s : waiting s = true -> rec_nactive s = 0%Z ->
      rec_step s (RecSystem (S (returned s)) false (rec_state s) 0%Z (rec_threads s))
  | waituntilphase_returns s i t p : rec_threads s !! i = Some t -> active t = false -> phases_of (rt_kind t) !! reported t = Some p ->
      rec_state s = p ->
      rec_step s (RecSystem (returned s) (waiting s) (rec_state s) (rec_nactive s) (<[i := RecThread (rt_kind t) (reported t) true]> (rec_threads s)))
  | inactive_returns s i t : rec_threads s !! i = Some t -> active t = true ->
      rec_step s (RecSystem (returned s) (waiting s) (rec_state s) (rec_nactive s - 1)%Z (<[i := RecThread (rt_kind t) (S (reported t)) false]> (rec_threads s))).

(** ** The invariant *)

(** How many of the first [m] phases a thread takes part in. *)
Definition due (k : thread_kind) (m : nat) : nat := match k with Checkpointer => Nat.min 1 m | Logger => Nat.min 3 (m - 1) end.

Lemma phases_due k i p : phases_of k !! i = Some p -> p <> 0 /\ due k (p - 1) = i /\ due k p = S i.
Proof. destruct k; destruct i as [|[|[|i]]]; cbn; intros H; try done; injection H as <-; done. Qed.

Lemma due_phase k m : due k m <> due k (S m) -> due k (S m) = S (due k m) /\ phases_of k !! due k m = Some (S m).
Proof. destruct k; destruct m as [|[|[|[|m]]]]; cbn; try done; lia. Qed.

(** Whether the thread has yet to report the phase [m]. *)
Definition owes (m : nat) (t : rec_thread) : bool := negb (bool_decide (reported t = due (rt_kind t) m)).

Definition on_time (m : nat) (t : rec_thread) : Prop :=
  (reported t = due (rt_kind t) (S m) /\ active t = false) \/ (reported t = due (rt_kind t) m /\ due (rt_kind t) m <> due (rt_kind t) (S m)).

Definition count_owing (m : nat) (ts : list rec_thread) : Z := Z.of_nat (length (filter (fun t => Is_true (owes m t)) ts)).

Record phase_inv (s : rec_system) : Prop := {
  pi_state : rec_state s = if waiting s then S (returned s) else returned s;
  pi_returned : returned s + (if waiting s then 1 else 0) <= 5;
  pi_kinds : map rt_kind (rec_threads s) = replicate nckthreads Checkpointer ++ replicate nlogger Logger;
  pi_between : waiting s = false -> rec_nactive s = 0%Z /\ forall t, t ∈ rec_threads s -> reported t = due (rt_kind t) (returned s) /\ active t = false;
  pi_waiting : waiting s = true -> rec_nactive s = count_owing (S (returned s)) (rec_threads s) /\ forall t, t ∈ rec_threads s -> on_time (returned s) t
}.

Lemma count_owing_insert m ts i t t' : ts !! i = Some t ->
  count_owing m (<[i := t']> ts) = (count_owing m ts - Z.b2z (owes m t) + Z.b2z (owes m t'))%Z.
Proof.
  intros (l1 & l2 & -> & ->)%list_elem_of_split_length. unfold count_owing.
  rewrite insert_app_r_alt, Nat.sub_diag by done. cbn [insert list_insert]. rewrite !filter_app, !length_app.
  assert (forall x l, length (filter (fun t => Is_true (owes m t)) (x :: l)) = (if owes m x then 1 else 0) + length (filter (fun t => Is_true (owes m t)) l)) as Hc.
  { intros x l. destruct (owes m x) eqn:E; [rewrite filter_cons_True by (by rewrite E)|rewrite filter_cons_False by (rewrite E; by intros [])]; done. }
  rewrite !Hc. destruct (owes m t), (owes m t'); cbn [Z.b2z]; lia.
Qed.

Lemma length_filter_replicate {A} (P : A -> Prop) `{!forall x, Decision (P x)} j x :
  length (filter P (replicate j x)) = if decide (P x) then j else 0.
Proof.
  induction j as [|j IH]; cbn [replicate]; [by destruct (decide (P x))|].
  destruct (decide (P x)); [rewrite filter_cons_True by done; cbn; by rewrite IH|by rewrite filter_cons_False].
Qed.

(** Entering a phase: the threads that owe it are those of its kind. *)
Lemma count_entering m n p (ts : list rec_thread) : recphases !! m = Some (n, p) ->
  map rt_kind ts = replicate nckthreads Checkpointer ++ replicate nlogger Logger ->
  (forall t, t ∈ ts -> reported t = due (rt_kind t) m) -> p = S m /\ count_owing (S m) ts = Z.of_nat n.
Proof.
  intros Hp Hk Hr. split; [do 5 (destruct m as [|m]; [by injection Hp as <- <-|]); done|].
  assert (forall l, (forall t, t ∈ l -> reported t = due (rt_kind t) m) ->
    length (filter (fun t => Is_true (owes (S m) t)) l) = length (filter (fun k => due k m <> due k (S m)) (map rt_kind l))) as Hc.
  { intros l. induction l as [|t l IH]; intros Hl; [done|]. cbn [map]. pose proof (Hl t (list_elem_of_here _ _)) as Ht.
    assert (owes (S m) t = bool_decide (due (rt_kind t) m <> due (rt_kind t) (S m))) as E.
    { unfold owes. rewrite Ht. by repeat case_bool_decide. }
    case_bool_decide as Hd.
    - rewrite !filter_cons_True by (by rewrite ?E). cbn. f_equal. apply IH. intros x Hx. apply Hl. by right.
    - rewrite !filter_cons_False by (rewrite ?E; by intros []). apply IH. intros x Hx. apply Hl. by right. }
  unfold count_owing. rewrite Hc, Hk by done. f_equal. rewrite filter_app, length_app, !length_filter_replicate.
  do 5 (destruct m as [|m]; [injection Hp as <- <-; repeat case_decide; cbn in *; lia|]); done.
Qed.

Lemma not_owing m t : on_time m t -> owes (S m) t = false -> reported t = due (rt_kind t) (S m) /\ active t = false.
Proof. unfold owes. rewrite negb_false_iff, bool_decide_eq_true. intros [H|[H Hd]] E; [done|by rewrite H in E]. Qed.

Lemma owing m t : on_time m t -> owes (S m) t = true -> reported t = due (rt_kind t) m /\ phases_of (rt_kind t) !! reported t = Some (S m) /\
  due (rt_kind t) (S m) = S (due (rt_kind t) m).
Proof.
  unfold owes. rewrite negb_true_iff, bool_decide_eq_false. intros [[H _]|[H Hd]] E; [by destruct E|].
  destruct (due_phase _ _ Hd) as [-> Hp]. by rewrite H.
Qed.

Lemma count_owing_zero m ts t : count_owing m ts = 0%Z -> t ∈ ts -> owes m t = false.
Proof.
  unfold count_owing. intros H Ht. destruct (owes m t) eqn:E; [|done]. exfalso.
  assert (t ∈ filter (fun t => Is_true (owes m t)) ts) as Hin by (rewrite list_elem_of_filter, E; done).
  destruct (filter _ ts); [by apply not_elem_of_nil in Hin|cbn in H; lia].
Qed.

Lemma count_owing_pos m ts : count_owing m ts <> 0%Z -> exists i t, ts !! i = Some t /\ owes m t = true.
Proof.
  unfold count_owing. intros H. destruct (filter (fun t => Is_true (owes m t)) ts) as [|t l] eqn:E; [done|].
  assert (t ∈ filter (fun t => Is_true (owes m t)) ts) as Hin by (rewrite E; by left).
  rewrite list_elem_of_filter in Hin. destruct Hin as [Ho [i Hi]%list_elem_of_lookup]. exists i, t. by destruct (owes m t).
Qed.

Lemma elem_of_insert {A} (l : list A) i x y : y ∈ <[i := x]> l -> y = x \/ y ∈ l.
Proof.
  intros [j Hj]%list_elem_of_lookup. apply list_lookup_insert_Some in Hj.
  destruct Hj as [(_ & -> & _)|[_ Hj]]; [by left|right; by eapply list_elem_of_lookup_2].
Qed.

Lemma phase_inv_start : phase_inv start.
Proof.
  split; cbn; try done; try lia; [by rewrite map_app, !fmap_replicate|]. intros _. split; [done|].
  intros t [Ht|Ht]%elem_of_app; apply elem_of_replicate in Ht as [-> _]; done.
Qed.

Lemma phase_inv_step s s' : rec_step s s' -> phase_inv s -> phase_inv s'.
Proof.
  intros Hs [Hst Hret Hk Hb Hw]. inversion Hs as [? n p E Hp|? E Hn|? i t p Hi Ha Hp Hrs|? i t Hi Ha]; subst; clear Hs.
  - destruct (Hb E) as [Hn Ht]. destruct (count_entering _ _ _ _ Hp Hk (fun t H => proj1 (Ht t H))) as [-> Hc].
    apply lookup_lt_Some in Hp. cbn in Hp. split; cbn; try done; try lia. intros _. split; [done|].
    intros t Hin. destruct (Ht t Hin) as [Hr Ha].
    destruct (decide (due (rt_kind t) (returned s) = due (rt_kind t) (S (returned s)))) as [Hd|Hd]; [left|right]; [by rewrite Hr|done].
  - destruct (Hw E) as [Hc Ht]. rewrite E in Hst, Hret. split; cbn; try done; try lia. intros _. split; [done|].
    intros t Hin. apply not_owing; [by apply Ht|]. eapply count_owing_zero; [|done]. congruence.
  - destruct (phases_due _ _ _ Hp) as (Hp0 & Hd1 & Hd2).
    assert (t ∈ rec_threads s) as Hin by (by eapply list_elem_of_lookup_2).
    destruct (waiting s) eqn:E; [|destruct (proj2 (Hb eq_refl) t Hin) as [Hr _]; exfalso; rewrite <- Hst, Hd2 in Hr; lia].
    destruct (Hw eq_refl) as [Hc Ht]. rewrite Hst in Hd1, Hd2. replace (S (returned s) - 1) with (returned s) in Hd1 by lia.
    split; cbn; try done; [by rewrite list_fmap_insert, list_insert_id by (by rewrite list_lookup_fmap, Hi)|intros _].
    rewrite (count_owing_insert _ _ _ t) by done. split; [unfold owes; cbn; rewrite Hc; unfold owes; lia|].
    intros t' [->|H']%elem_of_insert; [right; cbn; lia|by apply Ht].
  - assert (t ∈ rec_threads s) as Hin by (by eapply list_elem_of_lookup_2).
    destruct (waiting s) eqn:E; [|destruct (proj2 (Hb eq_refl) t Hin) as [_ Hr]; congruence].
    destruct (Hw eq_refl) as [Hc Ht].
    destruct (owes (S (returned s)) t) eqn:Eo; [|destruct (not_owing _ _ (Ht t Hin) Eo); congruence].
    destruct (owing _ _ (Ht t Hin) Eo) as (Hr & _ & Hd).
    split; cbn; try done; [by rewrite list_fmap_insert, list_insert_id by (by rewrite list_lookup_fmap, Hi)|intros _].
    rewrite (count_owing_insert _ _ _ t) by done. split.
    + rewrite Eo, Hc. unfold owes. cbn. rewrite bool_decide_true by lia. cbn. lia.
    + intros t' [->|H']%elem_of_insert; [left; cbn; lia|by apply Ht].
Qed.

Lemma phase_inv_reachable s : rtc rec_step start s -> phase_inv s.
Proof. intros H. pose proof phase_inv_start as Hi. induction H; [done|]. eauto using phase_inv_step. Qed.

(** ** Counting the steps *)

Definition thread_progress (t : rec_thread) : nat := 2 * reported t + Nat.b2n (active t).

Definition progress (s : rec_system) : nat :=
  2 * returned s + Nat.b2n (waiting s) + sum_list_with thread_progress (rec_threads s).

Definition finished (s : rec_system) : Prop :=
  returned s = 5 /\ waiting s = false /\ forall t, t ∈ rec_threads s -> reported t = length (phases_of (rt_kind t)) /\ active t = false.

Definition all_steps : nat := 10 + 2 * nckthreads + 6 * nlogger.

Lemma sum_list_with_insert {A} (f : A -> nat) l i x y : l !! i = Some x -> sum_list_with f (<[i := y]> l) + f x = sum_list_with f l + f y.
Proof.
  intros (l1 & l2 & -> & ->)%list_elem_of_split_length. rewrite insert_app_r_alt, Nat.sub_diag by done.
  cbn [insert list_insert]. rewrite !sum_list_with_app. cbn. lia.
Qed.

Lemma progress_step s s' : rec_step s s' -> progress s' = S (progress s).
Proof.
  unfold progress. intros [? n p E Hp|? E Hn|? i t p Hi Ha Hp Hrs|? i t Hi Ha]; cbn; rewrite ?E; cbn; try lia.
  - pose proof (sum_list_with_insert thread_progress _ i t (RecThread (rt_kind t) (reported t) true) Hi) as H.
    unfold thread_progress in H at 2 4. rewrite Ha in H. cbn in H. lia.
  - pose proof (sum_list_with_insert thread_progress _ i t (RecThread (rt_kind t) (S (reported t)) false) Hi) as H.
    unfold thread_progress in H at 2 4. rewrite Ha in H. cbn in H. lia.
Qed.

Lemma phases_total ts : map rt_kind ts = replicate nckthreads Checkpointer ++ replicate nlogger Logger ->
  sum_list_with (fun t => 2 * length (phases_of (rt_kind t))) ts = 2 * nckthreads + 6 * nlogger.
Proof.
  intros Hk. assert (forall l, sum_list_with (fun t => 2 * length (phases_of (rt_kind t))) l = sum_list_with (fun k => 2 * length (phases_of k)) (map rt_kind l)) as ->.
  { intros l. induction l as [|t l IH]; [done|]. cbn [sum_list_with map]. by rewrite IH. }
  rewrite Hk, sum_list_with_app. assert (forall (f : thread_kind -> nat) n k, sum_list_with f (replicate n k) = n * f k) as Hr
    by (intros f n k; induction n as [|n IH]; cbn; lia).
  rewrite !Hr. cbn. lia.
Qed.

Lemma finished_progress s : phase_inv s -> finished s -> progress s = all_steps.
Proof.
  intros Hi (Hr & Hw & Ht). unfold progress, all_steps. rewrite Hr, Hw. pose proof (phases_total _ (pi_kinds _ Hi)) as Hp. cbn [Nat.b2n].
  assert (forall l, (forall t, t ∈ l -> reported t = length (phases_of (rt_kind t)) /\ active t = false) ->
    sum_list_with thread_progress l = sum_list_with (fun t => 2 * length (phases_of (rt_kind t))) l) as H; [|rewrite (H _ Ht); lia].
  intros l Hl. induction l as [|t l IH]; [done|]. cbn [sum_list_with].
  destruct (Hl t (list_elem_of_here _ _)) as [Hn Ha]. unfold thread_progress at 1. rewrite Hn, Ha. cbn [Nat.b2n].
  rewrite IH; [lia|]. intros x Hx. apply Hl. by right.
Qed.

Lemma finished_stuck s : phase_inv s -> finished s -> ~ exists s', rec_step s s'.
Proof.
  intros Hi (Hr & Hw & Ht) [s' Hs]. inversion Hs as [? n p E Hp|? E Hn|? i t p Hl Ha Hp Hrs|? i t Hl Ha]; subst.
  - by rewrite Hr in Hp.
  - congruence.
  - apply list_elem_of_lookup_2 in Hl. destruct (Ht t Hl) as [Hn _]. apply lookup_lt_Some in Hp. lia.
  - apply list_elem_of_lookup_2 in Hl. destruct (Ht t Hl) as [_ Hn]. congruence.
Qed.

Lemma step_or_finished s : phase_inv s -> (exists s', rec_step s s') \/ finished s.
Proof.
  intros [Hst Hret Hk Hb Hw]. destruct (waiting s) eqn:E.
  - left. destruct (Hw eq_refl) as [Hc Ht]. destruct (decide (rec_nactive s = 0%Z)) as [Hn|Hn]; [by eexists; apply recphase_returns|].
    rewrite Hc in Hn. apply count_owing_pos in Hn as (i & t & Hi & Ho).
    destruct (owing _ _ (Ht t (list_elem_of_lookup_2 _ _ _ Hi)) Ho) as (_ & Hp & _).
    destruct (active t) eqn:Ea; eexists; [by eapply inactive_returns|by eapply waituntilphase_returns].
  - destruct (decide (returned s = 5)) as [H5|H5].
    + right. split; [done|]. split; [done|]. intros t Ht. destruct (proj2 (Hb eq_refl) t Ht) as [Hr Ha].
      split; [rewrite Hr, H5; by destruct (rt_kind t)|done].
    + left. destruct (recphases !! returned s) as [[n p]|] eqn:Ep; [by eexists; eapply recphase_enters|].
      apply lookup_ge_None in Ep. cbn in Ep. lia.
Qed.

Lemma progress_bounded s : phase_inv s -> progress s <= all_steps.
Proof.
  intros [Hst Hret Hk Hb Hw]. unfold progress, all_steps. pose proof (phases_total _ Hk) as Hp.
  assert (forall l, (forall t, t ∈ l -> thread_progress t <= 2 * length (phases_of (rt_kind t))) ->
    sum_list_with thread_progress l <= sum_list_with (fun t => 2 * length (phases_of (rt_kind t))) l) as H.
  { intros l Hl. induction l as [|t l IH]; [done|]. cbn [sum_list_with].
    pose proof (Hl t (list_elem_of_here _ _)). assert (forall x, x ∈ l -> thread_progress x <= 2 * length (phases_of (rt_kind x))) as H'
      by (intros x Hx; apply Hl; by right). specialize (IH H'). lia. }
  assert (2 * returned s + Nat.b2n (waiting s) <= 10) by (destruct (waiting s); cbn; lia).
  enough (forall t, t ∈ rec_threads s -> thread_progress t <= 2 * length (phases_of (rt_kind t))) as Ha by (specialize (H _ Ha); lia).
  intros t Ht. unfold thread_progress.
  assert (forall k m, due k m <= length (phases_of k)) as Hd by (intros [] m; unfold due; cbn [length phases_of]; lia).
  destruct (waiting s).
  - destruct (proj2 (Hw eq_refl) t Ht) as [[-> ->]|[Hr Hn]]; [pose proof (Hd (rt_kind t) (S (returned s))); cbn; lia|].
    destruct (due_phase _ _ Hn) as [E _]. pose proof (Hd (rt_kind t) (S (returned s))). destruct (active t); cbn; lia.
  - destruct (proj2 (Hb eq_refl) t Ht) as [-> ->]. pose proof (Hd (rt_kind t) (returned s)). cbn. lia.
Qed.

Lemma nsteps_reachable n s : nsteps rec_step n start s -> phase_inv s /\ progress s = n.
Proof.
  intros H. split; [apply phase_inv_reachable; by eapply rtc_nsteps_2|].
  assert (forall k a b, nsteps rec_step k a b -> progress b = progress a + k) as Hn.
  { intros k a b Hk. induction Hk as [|k a b c Hab _ IH]; [lia|]. apply progress_step in Hab. lia. }
  rewrite (Hn _ _ _ H). unfold progress, start. cbn [returned waiting rec_threads]. rewrite sum_list_with_app.
  assert (forall j k, sum_list_with thread_progress (replicate j (RecThread k 0 false)) = 0) as Hz by (intros j k; induction j; done).
  by rewrite !Hz.
Qed.
End phases.

(** ** Properties *)

(** C24: recovery's phases do not overlap.  In every state the threads can reach, a
    thread that is at work does the phase that [recphase] waits in; and when [recphase]
    has returned for the k-th time no thread is at work, each thread has reported
    exactly its phases among the first k, and [rec_nactive] is back to 0.  So what a
    phase reads ([rec_log_infos], the replay bounds, the checkpointed rows) is what all
    the threads of the phases before it have written. *)
Theorem recovery_phases nckthreads nlogger s : rtc (rec_step nckthreads nlogger) (start nckthreads nlogger) s ->
  (forall t, t ∈ rec_threads s -> active t = true ->
     waiting s = true /\ rec_state s = S (returned s) /\ phases_of (rt_kind t) !! reported t = Some (S (returned s))) /\
  (waiting s = false -> rec_nactive s = 0%Z /\
     forall t, t ∈ rec_threads s -> active t = false /\
       forall i p, phases_of (rt_kind t) !! i = Some p -> i < reported t <-> p <= returned s).
Proof.
  intros Hi%phase_inv_reachable. destruct Hi as [Hst Hret Hk Hb Hw]. split.
  - intros t Ht Ha. destruct (waiting s); [|destruct (proj2 (Hb eq_refl) t Ht); congruence].
    split; [done|]. split; [done|]. destruct (proj2 (Hw eq_refl) t Ht) as [[_ H]|[Hr Hd]]; [congruence|].
    rewrite Hr. by apply due_phase.
  - intros E. destruct (Hb E) as [Hn Ht]. split; [done|]. intros t Hin. destruct (Ht t Hin) as [-> Ha]. split; [done|].
    intros i p Hp. destruct (rt_kind t); destruct i as [|[|[|i]]]; cbn in Hp; try done; injection Hp as <-;
      unfold due, REC_CKP, REC_LOG_TS, REC_LOG_ANALYZE_WAKE, REC_LOG_REPLAY; lia.
Qed.

(** C25: recovery's phases end, however the threads are scheduled.  Every run takes at
    most [10 + 2 * nckthreads + 6 * nlogger] steps; a run of that many steps has ended,
    with [recphase] returned from [REC_DONE] and every thread having reported all of
    its phases; and a shorter one can always go on, so no [recphase] or
    [waituntilphase] waits for ever. *)
Theorem recovery_ends nckthreads nlogger n s : nsteps (rec_step nckthreads nlogger) n (start nckthreads nlogger) s ->
  n <= all_steps nckthreads nlogger /\
  (n = all_steps nckthreads nlogger <-> finished s) /\
  (n < all_steps nckthreads nlogger <-> exists s', rec_step nckthreads nlogger s s').
Proof.
  intros [Hi <-]%nsteps_reachable. pose proof (progress_bounded _ _ _ Hi) as Hle.
  assert ((exists s', rec_step nckthreads nlogger s s') -> progress s < all_steps nckthreads nlogger) as Hlt.
  { intros [s' Hs]. pose proof (progress_bounded _ _ _ (phase_inv_step _ _ _ _ Hs Hi)). apply progress_step in Hs. lia. }
  pose proof (finished_progress _ _ _ Hi) as Hf. destruct (step_or_finished _ _ _ Hi) as [H|H].
  - specialize (Hlt H). split; [done|]. split; split; auto; intros E; lia.
  - specialize (Hf H). split; [done|]. split; split; auto; intros; lia.
Qed.

Lemma recovery_phases_witness : let s := RecSystem 0 true REC_CKP 1 [RecThread Checkpointer 0 true] in
  waiting s = true /\ rec_state s = S (returned s) /\ phases_of Checkpointer !! 0 = Some (S (returned s)).
Proof.
  apply (proj1 (recovery_phases 1 0 (RecSystem 0 true REC_CKP 1 [RecThread Checkpointer 0 true])
    (rtc_l _ _ _ _ (recphase_enters 1 0 (start 1 0) 1 REC_CKP eq_refl eq_refl)
      (rtc_once _ _ (waituntilphase_returns 1 0 (RecSystem 0 true REC_CKP 1 [RecThread Checkpointer 0 false]) 0
         (RecThread Checkpointer 0 false) REC_CKP eq_refl eq_refl eq_refl eq_refl)))) (RecThread Checkpointer 0 true));
    [by left|done].
Defined.

Lemma recovery_ends_witness : 1 <= all_steps 0 0.
Proof.
  apply (recovery_ends 0 0 1 (RecSystem 0 true 1 0%Z [])). eapply nsteps_l; [|apply nsteps_O].
  by apply (recphase_enters 0 0 (start 0 0) 0 1).
Defined.
