(* ===== verification/Query.v ===== *)
(** * Queries on the table of rows (kvrow.hh, mtd.cc)

    [query<R>] runs the server's commands on a table of rows: gets, puts, removes
    and scans with their time stamps, the reply in the place of the request, and
    what is to be logged.  It uses a row type and a table through the interfaces
    below. *)

From S2P Require Export Log MsgpackParser ValueBagFacts.

#[local] Open Scope Z_scope.
#[local] Open Scope lhm_scope.

(** ** Interfaces *)

(** What a query calls of its row type [R]. *)
Class RowType (R : Type) := {
  timestamp : R -> Z;
  ncol : R -> Z;
  col : Z -> R -> res bytes;
  to_index : Z -> Z;                           (* conversion to [index_type] *)
  update : R -> list Json -> Z -> res R;
  create : list Json -> Z -> res R;
  create1 : bytes -> Z -> res R;
}.

(** What a row type promises: rows of column lists, as [ValueBagFacts] has them. *)
Class RowLaws (R : Type) `{RowType R} := {
  row_is : R -> list bytes -> Prop;
  row_fits : list bytes -> Prop;
  to_index_small i : 0 <= i < 2 ^ 15 -> to_index i = i;
  row_short r cs : row_is r cs -> len cs < 2 ^ 31;
  ncol_is r cs : row_is r cs -> ncol r = len cs;
  col_is r cs i : row_is r cs -> 0 <= i < 2 ^ 31 -> col i r = Ok (nth (Z.to_nat i) cs []);
  update_is r cs chs it t : row_is r cs -> change_list chs it -> ordered 0 chs -> row_fits (apply_changes cs chs) ->
    exists r', update r it t = Ok r' /\ row_is r' (apply_changes cs chs) /\ timestamp r' = t;
  create_is chs it t : change_list chs it -> ordered 0 chs -> row_fits (apply_changes [] chs) ->
    exists r, create it t = Ok r /\ row_is r (apply_changes [] chs) /\ timestamp r = t;
  create1_is v t : row_fits [v] -> exists r, create1 v t = Ok r /\ row_is r [v] /\ timestamp r = t;
}.

(** What a query calls of its table [T]: a lookup; storing and erasing under the
    leaf's lock; the epoch that the key's leaf keeps for phantoms; a scan. *)
Class Table (T R : Type) := {
  find : T -> bytes -> option R;
  store : T -> bytes -> R -> T;
  erase : T -> bytes -> T;
  phantom_epoch : T -> bytes -> Z;
  set_phantom_epoch : T -> bytes -> Z -> T;
  scan : T -> bytes -> list (bytes * R);        (* from the key on, in order *)
  rscan : T -> bytes -> list (bytes * R);
}.

(** What a table promises: it is a map, and each leaf keeps a phantom epoch for
    the keys it is responsible for.  Setting the epoch of a key's leaf sets the one
    of every key of that leaf; erasing the last key of a leaf removes the leaf, and
    the one that takes over the keys raises its epoch to the removed leaf's. *)
Class TableLaws (T R : Type) `{Table T R} := {
  find_store t k r k' : find (store t k r) k' = if bool_decide (k' = k) then Some r else find t k';
  find_erase t k k' : find (erase t k) k' = if bool_decide (k' = k) then None else find t k';
  find_set_phantom t k e k' : find (set_phantom_epoch t k e) k' = find t k';
  phantom_set t k e : phantom_epoch (set_phantom_epoch t k e) k = e;
  phantom_set_other t k e k' : phantom_epoch (set_phantom_epoch t k e) k' = e \/ phantom_epoch (set_phantom_epoch t k e) k' = phantom_epoch t k';
  phantom_erase t k : phantom_epoch (erase t k) k = phantom_epoch t k \/
    exists k', phantom_epoch (erase t k) k = phantom_epoch t k' /\ less 64 (phantom_epoch t k') (phantom_epoch t k) = false;
}.

(** ** State *)

(** Of the thread: its time stamp, and whether it logs. *)
Record thread := Thread { ts_ : Z; logging : bool }.

(** [update_timestamp()], [update_timestamp(x)], [observe_phantoms(n)]. *)
Definition update_timestamp_min (ti : thread) (x : Z) : thread :=
  if less_equal 64 (ts_ ti) x then Thread (Word.addw 64 (Z.lor x 1) 1) (logging ti) else ti.
Definition observe_phantoms (ti : thread) (epoch : Z) : thread :=
  if less 64 (ts_ ti) epoch then Thread epoch (logging ti) else ti.

Definition row_is_marker {R} `{RowType R} (r : R) : bool := Z.testbit (timestamp r) 0.

(** [f_] and [qtimes_] of [query]. *)
Record query := Query { q_f : list Z; qtimes : query_times }.

Inductive result_t := NotFound | Retry | OutOfDate | Inserted | Updated | Found | ScanDone.
Definition result_value (r : result_t) : Z :=
  match r with NotFound => -2 | Retry => -1 | OutOfDate => 0 | Inserted => 1 | Updated => 2 | Found => 3 | ScanDone => 4 end.

Section query.
Context {T R : Type} `{RowType R} `{Table T R}.
(** [global_log_epoch]. *)
Context (global_log_epoch : Z).

(** [request[i]] read as a value: null when there is none. *)
Definition request_item (req : list Json) (i : nat) : Json := nth i req JNull.

(** [f_.push_back(req[i].as_i())] from [i] on. *)
Fixpoint read_fields (js : list Json) : res (list Z) :=
  match js with
  | [] => Ok []
  | j :: js => let? x := as_i j in let? f := read_fields js in Ok (to_index x :: f)
  end.

(** The columns [f], or all of them. *)
Fixpoint read_cols (ixs : list Z) (r : R) : res (list bytes) :=
  match ixs with
  | [] => Ok []
  | i :: ixs => let? c := col i r in let? cs := read_cols ixs r in Ok (c :: cs)
  end.
Definition all_cols (r : R) : list Z := seqZ 0 (ncol r).
Definition emit_fields (f : list Z) (r : R) (req : list Json) : res (list Json) :=
  let? cs := read_cols (match f with [] => all_cols r | _ => f end) r in Ok (req ++ map JString cs).

(** One value of a scan: a string for a row of one column, otherwise an array;
    [req] is null before. *)
Definition emit_fields1 (f : list Z) (r : R) : res Json :=
  if (match f with [] => ncol r =? 1 | [_] => true | _ => false end) then
    let? c := col (match f with i :: _ => i | [] => 0 end) r in Ok (JString c)
  else
    let? cs := read_cols (match f with [] => all_cols r | _ => f end) r in
    Ok (match cs with [] => JNull | _ => JArray (map JString cs) end).

Definition live (o : option R) : option R := match o with Some r => if row_is_marker r then None else Some r | None => None end.

Definition run_get (t : T) (q : query) (req : list Json) : res (query * list Json) :=
  let? key := as_s (request_item req 2) in
  match live (find t key) with
  | Some r =>
    let? f := read_fields (drop 3 req) in
    let? req := emit_fields f r (take 2 req) in
    Ok (Query f (qtimes q), req)
  | None => Ok (q, req)
  end.

Definition run_get1 (t : T) (key : bytes) (i : Z) : res (option bytes) :=
  match live (find t key) with
  | Some r => let? c := col i r in Ok (Some c)
  | None => Ok None
  end.

(** [assign_timestamp(ti)] and [assign_timestamp(ti, min_ts)]. *)
Definition assign_timestamp (q : query) (ti : thread) : query * thread :=
  (Query (q_f q) (QueryTimes (qt_epoch (qtimes q)) (ts_ ti) 0), ti).
Definition assign_timestamp_min (q : query) (ti : thread) (min_ts : Z) : query * thread :=
  let ti := update_timestamp_min ti min_ts in
  (Query (q_f q) (QueryTimes (qt_epoch (qtimes q)) (ts_ ti) min_ts), ti).

(** With the log acquired, the query belongs to the current epoch. *)
Definition log_acquire (q : query) (ti : thread) : query :=
  if logging ti then Query (q_f q) (QueryTimes global_log_epoch (qt_ts (qtimes q)) (qt_prev_ts (qtimes q))) else q.

(** The row that replaces [value] (in place for no type that [update] copies). *)
Definition apply_put (value : option R) (req : list Json) (q : query) (ti : thread) : res (bool * R * query * thread) :=
  let q := log_acquire q ti in
  match value with
  | None =>
    let (q, ti) := assign_timestamp q ti in
    let? r := create req (qt_ts (qtimes q)) in
    Ok (true, r, q, ti)
  | Some old =>
    let (q, ti) := assign_timestamp_min q ti (timestamp old) in
    if row_is_marker old then
      let (q, ti) := assign_timestamp q ti in
      let? r := create req (qt_ts (qtimes q)) in
      Ok (true, r, q, ti)
    else
      let? r := update old req (qt_ts (qtimes q)) in
      Ok (false, r, q, ti)
  end.

Definition run_put (t : T) (key : bytes) (req : list Json) (q : query) (ti : thread) : res (result_t * T * query * thread) :=
  let value := find t key in
  let ti := match value with None => observe_phantoms ti (phantom_epoch t key) | Some _ => ti end in
  let? r := apply_put value req q ti in
  let '(inserted, row, q, ti) := (r : bool * R * query * thread) in
  Ok (if inserted then Inserted else Updated, store t key row, q, ti).

Definition apply_replace (value : option R) (new_value : bytes) (q : query) (ti : thread) : res (bool * R * query * thread) :=
  let q := log_acquire q ti in
  let inserted := match live value with None => true | Some _ => false end in
  let (q, ti) := match value with None => assign_timestamp q ti | Some old => assign_timestamp_min q ti (timestamp old) end in
  let? r := create1 new_value (qt_ts (qtimes q)) in
  Ok (inserted, r, q, ti).

Definition run_replace (t : T) (key value : bytes) (q : query) (ti : thread) : res (result_t * T * query * thread) :=
  let old := find t key in
  let ti := match old with None => observe_phantoms ti (phantom_epoch t key) | Some _ => ti end in
  let? r := apply_replace old value q ti in
  let '(inserted, row, q, ti) := (r : bool * R * query * thread) in
  Ok (if inserted then Inserted else Updated, store t key row, q, ti).

(** The phantom epoch of the leaf after a removal. *)
Definition apply_remove (old : R) (node_ts : Z) (q : query) (ti : thread) : Z * query * thread :=
  let q := log_acquire q ti in
  let (q, ti) := assign_timestamp_min q ti (timestamp old) in
  (if less_equal 64 node_ts (qt_ts (qtimes q)) then Word.addw 64 (qt_ts (qtimes q)) 2 else node_ts, q, ti).

Definition run_remove (t : T) (key : bytes) (q : query) (ti : thread) : bool * T * query * thread :=
  match find t key with
  | Some old =>
    let '(node_ts, q, ti) := apply_remove old (phantom_epoch t key) q ti in
    (true, erase (set_phantom_epoch t key node_ts) key, q, ti)
  | None => (false, t, q, ti)
  end.

(** [query_json_scanner::visit_value] on the rows of the scan; [nleft_] is an
    [int], and the scan ends when it becomes zero. *)
Fixpoint scan_values (f : list Z) (items : list (bytes * R)) (nleft : Z) (request : list Json) : res (list Json) :=
  match items with
  | [] => Ok request
  | (key, r) :: items =>
    if row_is_marker r then scan_values f items nleft request
    else
      let? v := emit_fields1 f r in
      let request := request ++ [JString key; v] in
      let nleft := Word.signed 32 (nleft - 1) in
      if nleft =? 0 then Ok request else scan_values f items nleft request
  end.

Definition run_scan_with (items : bytes -> list (bytes * R)) (q : query) (request : list Json) : res (query * list Json) :=
  let? n := as_i (request_item request 3) in
  let? _ := check_res (0 <? n) in
  let? f := read_fields (drop 4 request) in
  let? firstkey := as_s (request_item request 2) in
  let? request := scan_values f (items firstkey) (Word.signed 32 n) (take 2 request) in
  Ok (Query f (qtimes q), request).
Definition run_scan (t : T) : query -> list Json -> res (query * list Json) := run_scan_with (scan t).
Definition run_rscan (t : T) : query -> list Json -> res (query * list Json) := run_scan_with (rscan t).

(** ** The server's commands (mtd.cc) *)

Definition Cmd_Get : Z := 2.
Definition Cmd_Scan : Z := 4.
Definition Cmd_Put : Z := 6.
Definition Cmd_Replace : Z := 8.
Definition Cmd_Remove : Z := 10.
Definition Cmd_Checkpoint : Z := 12.

(** What a command logs: the arguments of [record]. *)
Definition log_entry : Type := Z * query_times * bytes * bytes.

(** [operator=] on an item, which extends the array. *)
Definition set_request (req : list Json) (i : nat) (v : Json) : list Json := <[i := v]> (req ++ replicate (S i - length req) JNull).

(** [onego]: the reply, what becomes of the table, and what is logged; [request_str]
    is the client's text of the request, empty when there is none. *)
Definition onego (t : T) (q : query) (ti : thread) (request : list Json) (request_str : bytes) :
    res (Z * list Json * T * query * thread * list log_entry) :=
  let? command := as_i (request_item request 1) in
  let command := Word.signed 32 command in
  let done req t q ti logs := Ok (1, set_request req 1 (JInt (Word.signed 32 (command + 1))), t, q, ti, logs) in
  if command =? Cmd_Checkpoint then done (take 2 request) t q ti []
  else if command =? Cmd_Get then
    let? r := run_get t q request in
    let (q, request) := (r : query * list Json) in
    done request t q ti []
  else if (command =? Cmd_Put) && (3 <? len request) && (len request mod 2 =? 1) then
    let? key := as_s (request_item request 2) in
    let req := drop 3 request in
    let? r := run_put t key req q ti in
    let '(result, t, q, ti) := (r : result_t * T * query * thread) in
    let? logs :=
      (if logging ti then
         match request_str with
         | [] => Ok [(logcmd_put, qtimes q, key, changeset_value req)]
         | _ => let? s := skip_array_size request_str in let? s := skip_primitives 3 s in Ok [(logcmd_put, qtimes q, key, s)]
         end
       else Ok []) in
    done (take 3 (set_request request 2 (JInt (result_value result)))) t q ti logs
  else if command =? Cmd_Replace then
    let? key := as_s (request_item request 2) in
    let? value := as_s (request_item request 3) in
    let? r := run_replace t key value q ti in
    let '(result, t, q, ti) := (r : result_t * T * query * thread) in
    done (take 3 (set_request request 2 (JInt (result_value result)))) t q ti
      (if logging ti then [(logcmd_replace, qtimes q, key, value)] else [])
  else if command =? Cmd_Remove then
    let? key := as_s (request_item request 2) in
    let '(removed, t, q, ti) := run_remove t key q ti in
    done (take 3 (set_request request 2 (JBool removed))) t q ti
      (if removed && logging ti then [(logcmd_remove, qtimes q, key, [])] else [])
  else if command =? Cmd_Scan then
    let? r := run_scan t q request in
    let (q, request) := (r : query * list Json) in
    done request t q ti []
  else Ok (-1, take 2 (set_request request 1 (JInt (-1))), t, q, ti, []).
End query.
