(* ===== verification/QueryFacts.v ===== *)
(** * Queries: what gets read after puts, and in which order they are

    The commands on any table and row type that keep the laws, and the instances
    for [value_bag] and for a finite map. *)

From stdpp Require Import sorting.
From S2P Require Export Query.

#[local] Open Scope Z_scope.
#[local] Open Scope lhm_scope.

(** ** Time stamps

    Far from the end of the range, the circular order is the order of integers. *)

Definition plain (x : Z) : Prop := 0 <= x < 2 ^ 62.

Lemma less_plain a b : plain a -> plain b -> less 64 a b = (a <? b) /\ less_equal 64 a b = (a <=? b).
Proof.
  intros Ha Hb. unfold plain in *. unfold less, less_equal. rewrite (signed_mod 64 ltac:(lia) (a - b) (a - b)); [|change (64 - 1) with 63; lia|by rewrite Z.sub_diag].
  split; [destruct (Z.ltb_spec a b), (Z.ltb_spec (a - b) 0)|destruct (Z.leb_spec a b), (Z.leb_spec (a - b) 0)]; lia.
Qed.

Lemma lor_one x : Z.lor x 1 = 2 * (x / 2) + 1.
Proof.
  apply Z.bits_inj'. intros n Hn. rewrite Z.lor_spec. destruct (Z.eq_dec n 0) as [->|Hn0].
  - by rewrite Z.testbit_odd_0, orb_true_r.
  - replace n with (Z.succ (n - 1)) by lia. rewrite Z.testbit_odd_succ by lia. rewrite <- Z.div2_div, Z.div2_spec, Z.shiftr_spec by lia.
    replace (n - 1 + 1) with (Z.succ (n - 1)) by lia. change 1 with (2 * 0 + 1) at 2. rewrite Z.testbit_odd_succ by lia. by rewrite Z.testbit_0_l, orb_false_r.
Qed.

(** A marker's time stamp is odd. *)
Lemma marker_odd {R} `{RowType R} (r : R) : row_is_marker r = Z.odd (timestamp r).
Proof. unfold row_is_marker. by rewrite Z.bit0_odd. Qed.

(** The clock never goes back, and passes the time stamp it sees. *)
Lemma clock_passes ti x : plain (ts_ ti) -> plain x ->
  ts_ ti <= ts_ (update_timestamp_min ti x) <= Z.max (ts_ ti) (x + 2) /\ x < ts_ (update_timestamp_min ti x) /\
  (Z.even (ts_ ti) = true -> Z.even (ts_ (update_timestamp_min ti x)) = true) /\ logging (update_timestamp_min ti x) = logging ti.
Proof.
  intros Ht Hx. unfold update_timestamp_min. rewrite (proj2 (less_plain _ _ Ht Hx)). destruct (Z.leb_spec (ts_ ti) x) as [Hle|Hgt]; cbn [ts_ logging].
  - rewrite lor_one. unfold plain in *. unfold Word.addw, Word.wrap. rewrite Z.mod_small by (pose proof (Z.div_mod x 2); pose proof (Z.mod_pos_bound x 2); lia).
    pose proof (Z.div_mod x 2). pose proof (Z.mod_pos_bound x 2). replace (2 * (x / 2) + 1 + 1) with (2 * (x / 2 + 1)) by lia.
    rewrite Z.even_mul. repeat split; lia || done.
  - repeat split; lia || done.
Qed.

Lemma observes ti e : plain (ts_ ti) -> plain e ->
  ts_ (observe_phantoms ti e) = Z.max (ts_ ti) e /\ logging (observe_phantoms ti e) = logging ti.
Proof.
  intros Ht He. unfold observe_phantoms. rewrite (proj1 (less_plain _ _ Ht He)). destruct (Z.ltb_spec (ts_ ti) e); cbn [ts_ logging]; split; lia || done.
Qed.

(** ** Reads and writes of one key *)

Section facts.
Context {T R : Type} `{HR : RowType R} `{!RowLaws R} `{HT : Table T R} `{!TableLaws T R}.
Context (global_log_epoch : Z).

(** What a get of [k] finds: the columns of its row, or nothing. *)
Definition holds (t : T) (k : bytes) (found : option (list bytes)) : Prop :=
  match live (find t k), found with
  | Some r, Some cs => row_is r cs
  | None, None => True
  | _, _ => False
  end.

(** The time stamp that the table has for [k]: of its row, or its leaf's epoch. *)
Definition key_stamp (t : T) (k : bytes) : Z :=
  match find t k with Some r => timestamp r | None => phantom_epoch t k end.

Lemma read_all cs r : forall n ixs, row_is r cs -> ixs = seqZ n (len cs - n) -> 0 <= n <= len cs -> read_cols ixs r = Ok (drop (Z.to_nat n) cs).
Proof.
  intros n ixs. revert n. induction ixs as [|i ixs IH]; intros n Hr Hs Hn.
  - cbn. rewrite drop_ge; [done|]. apply (f_equal length) in Hs. rewrite length_seqZ in Hs. cbn in Hs. lia.
  - assert (n < len cs) as Hlt by (apply (f_equal length) in Hs; rewrite length_seqZ in Hs; cbn in Hs; lia).
    rewrite seqZ_cons in Hs by lia. injection Hs as -> ->. cbn [read_cols].
    rewrite (col_is _ cs) by (pose proof (row_short r cs Hr); done || lia). rewrite rbind_Ok.
    rewrite (IH (Z.succ n)) by (done || lia || (f_equal; lia)). rewrite rbind_Ok. f_equal.
    destruct (drop (Z.to_nat n) cs) as [|c rest] eqn:E; [apply (f_equal length) in E; rewrite length_drop in E; cbn in E; lia|].
    replace (Z.to_nat (Z.succ n)) with (Z.to_nat n + 1)%nat by lia. rewrite <- drop_drop, E. f_equal.
    replace (nth (Z.to_nat n) cs []) with (nth 0 (drop (Z.to_nat n) cs) []); [by rewrite E|].
    rewrite !nth_lookup, lookup_drop. by rewrite Nat.add_0_r.
Qed.

Lemma read_row cs r : row_is r cs -> read_cols (all_cols r) r = Ok cs.
Proof. intros Hr. unfold all_cols. rewrite (ncol_is r cs) by done. rewrite (read_all cs r 0) by (done || lia || (f_equal; lia)). done. Qed.

(** A get of every column, and of one. *)
Lemma get_holds t k found q seq cmd i : holds t k found -> 0 <= i < 2 ^ 31 ->
  run_get t q [seq; cmd; JString k] =
    Ok (match found with
        | Some cs => (Query [] (qtimes q), [seq; cmd] ++ map JString cs)
        | None => (q, [seq; cmd; JString k])
        end) /\
  run_get1 t k i = Ok (option_map (fun cs => nth (Z.to_nat i) cs []) found).
Proof.
  unfold holds, run_get, run_get1. cbn [request_item nth as_s]. rewrite rbind_Ok. intros Hh Hi. change (as_s (JString k)) with (Ok k). rewrite ?rbind_Ok.
  destruct (live (find t k)) as [r|], found as [cs|]; [|done..]. split.
  - cbn [drop read_fields]. rewrite rbind_Ok. unfold emit_fields. by rewrite (read_row cs), !rbind_Ok.
  - by rewrite (col_is r cs), rbind_Ok.
Qed.

Lemma live_stored t k r k' : row_is_marker r = false -> live (find (store t k r) k') = if bool_decide (k' = k) then Some r else live (find t k').
Proof. intros Hm. rewrite find_store. destruct (bool_decide (k' = k)); cbn [live]; [by rewrite Hm|done]. Qed.

(** The row that a put makes, and its time stamp. *)
Lemma put_row value req q ti chs cs : (forall r, live value = Some r -> row_is r cs) -> (live value = None -> cs = []) ->
  change_list chs req -> ordered 0 chs -> row_fits (apply_changes cs chs) -> plain (ts_ ti) -> (forall r, value = Some r -> plain (timestamp r)) ->
  exists row q' ti', apply_put global_log_epoch value req q ti = Ok (bool_decide (live value = None), row, q', ti') /\
    row_is row (apply_changes cs chs) /\ timestamp row = ts_ ti' /\ qt_ts (qtimes q') = ts_ ti' /\
    ts_ ti <= ts_ ti' /\ (forall r, value = Some r -> timestamp r < ts_ ti') /\ (Z.even (ts_ ti) = true -> Z.even (ts_ ti') = true) /\ logging ti' = logging ti.
Proof.
  intros Hl Hn Hch Hord Hfit Hti Hr. unfold apply_put. set (q1 := log_acquire _ _ _). destruct value as [old|].
  - destruct (clock_passes ti (timestamp old) Hti (Hr old eq_refl)) as (H1 & H2 & H3 & H4). unfold assign_timestamp_min, assign_timestamp.
    set (ti' := update_timestamp_min ti (timestamp old)) in *. cbn [live] in *. destruct (row_is_marker old).
    + rewrite Hn in * by done. destruct (create_is chs req (ts_ ti')) as (r & Hc & Hi & Ht); [done..|].
      cbn [qtimes qt_ts]. rewrite Hc. cbn [rbind res_bind]. exists r. do 2 eexists. split; [reflexivity|].
      cbn [qtimes qt_ts]. split_and!; try done; [lia|]. intros x [= <-]. done.
    + destruct (update_is old cs chs req (ts_ ti')) as (r & Hc & Hi & Ht); [by apply Hl|done..|].
      cbn [qtimes qt_ts]. rewrite Hc. cbn [rbind res_bind]. exists r. do 2 eexists. split; [reflexivity|].
      cbn [qtimes qt_ts]. split_and!; try done; [lia|]. intros x [= <-]. done.
  - cbn [live] in *. rewrite Hn in * by done. unfold assign_timestamp. destruct (create_is chs req (ts_ ti)) as (r & Hc & Hi & Ht); [done..|].
    cbn [qtimes qt_ts]. rewrite Hc. cbn [rbind res_bind]. exists r. do 2 eexists. split; [reflexivity|].
    cbn [qtimes qt_ts]. split_and!; done || lia.
Qed.

(** A put on the table. *)
Lemma put_table t k found req q ti chs : holds t k found -> change_list chs req -> ordered 0 chs ->
  row_fits (apply_changes (default [] found) chs) -> plain (ts_ ti) -> plain (key_stamp t k) ->
  exists t' q' ti', run_put global_log_epoch t k req q ti = Ok (match found with Some _ => Updated | None => Inserted end, t', q', ti') /\
    (Z.even (ts_ ti) = true -> Z.even (phantom_epoch t k) = true -> holds t' k (Some (apply_changes (default [] found) chs)) /\
      forall k' other, k' <> k -> holds t k' other -> holds t' k' other) /\
    (exists row, find t' k = Some row /\ timestamp row = ts_ ti') /\
    qt_ts (qtimes q') = ts_ ti' /\ ts_ ti <= ts_ ti' /\ key_stamp t k <= ts_ ti' /\ (find t k <> None -> key_stamp t k < ts_ ti') /\ logging ti' = logging ti.
Proof.
  intros Hh Hch Hord Hfit Hti Hks. unfold run_put, key_stamp, holds in *.
  set (ti1 := match find t k with Some _ => ti | None => observe_phantoms ti (phantom_epoch t k) end).
  assert (plain (ts_ ti1) /\ ts_ ti <= ts_ ti1 /\ (find t k = None -> phantom_epoch t k <= ts_ ti1) /\
    (Z.even (ts_ ti) = true -> Z.even (phantom_epoch t k) = true -> Z.even (ts_ ti1) = true) /\ logging ti1 = logging ti) as (P1 & P2 & P3 & P4 & P5).
  { unfold ti1. destruct (find t k); [done|]. destruct (observes ti (phantom_epoch t k) Hti Hks) as [He Hg]. rewrite He, Hg.
    destruct (Z.max_spec (ts_ ti) (phantom_epoch t k)) as [[? ->]|[? ->]]; split_and!; done || lia. }
  destruct (put_row (find t k) req q ti1 chs (default [] found)) as (row & q' & ti' & Hp & Hi & Ht & Hq & L1 & L2 & L3 & L4); try done.
  { intros r Hr. rewrite Hr in Hh. by destruct found. }
  { intros Hr. rewrite Hr in Hh. by destruct found. }
  { intros r Hr. by rewrite Hr in Hks. }
  rewrite Hp. cbn [rbind res_bind]. exists (store t k row), q', ti'. split_and!; try done.
  - destruct (live (find t k)), found; try done.
  - intros He He'. assert (row_is_marker row = false) as Hm by (rewrite marker_odd, Ht, <- Z.negb_even, L3; auto).
    split; [by rewrite live_stored, bool_decide_true|]. intros k' other Hk. by rewrite live_stored, bool_decide_false.
  - exists row. by rewrite find_store, bool_decide_true.
  - lia.
  - destruct (find t k) as [r|] eqn:E; [specialize (L2 r eq_refl); lia|specialize (P3 eq_refl); lia].
  - destruct (find t k) as [r|] eqn:E; [by intros _; apply L2|done].
  - by rewrite L4.
Qed.

(** Whatever leaf takes over an erased key, its epoch is not older. *)
Lemma erased_epoch t k e : (forall k', plain (phantom_epoch t k')) -> plain e ->
  e <= phantom_epoch (erase (set_phantom_epoch t k e) k) k /\ plain (phantom_epoch (erase (set_phantom_epoch t k e) k) k).
Proof.
  intros Hph He. assert (forall k', plain (phantom_epoch (set_phantom_epoch t k e) k')) as Hset.
  { intros k'. by destruct (phantom_set_other t k e k') as [-> | ->]. }
  destruct (phantom_erase (set_phantom_epoch t k e) k) as [-> | (k' & -> & Hle)]; rewrite ?phantom_set in *; [split; [lia|done]|].
  rewrite (proj1 (less_plain _ _ (Hset k') He)) in Hle. apply Z.ltb_ge in Hle. split; [lia|apply Hset].
Qed.

(** A removal leaves nothing, and a phantom epoch past the time stamp it logs. *)
Lemma remove_table t k q ti old : find t k = Some old -> plain (timestamp old + 4) -> plain (ts_ ti + 4) -> (forall k', plain (phantom_epoch t k')) -> 0 <= timestamp old -> 0 <= ts_ ti ->
  exists t' q' ti', run_remove global_log_epoch t k q ti = (true, t', q', ti') /\ find t' k = None /\
    (forall k', k' <> k -> find t' k' = find t k') /\
    timestamp old < qt_ts (qtimes q') < phantom_epoch t' k /\ ts_ ti <= qt_ts (qtimes q') /\ plain (phantom_epoch t' k) /\ logging ti' = logging ti.
Proof.
  intros Hf Ho Hti Hph Hp1 Hp2. unfold run_remove. rewrite Hf. unfold apply_remove, assign_timestamp_min. set (q1 := log_acquire _ _ _).
  assert (plain (ts_ ti)) as Hti' by (unfold plain in *; lia). assert (plain (timestamp old)) as Ho' by (unfold plain in *; lia).
  destruct (clock_passes ti (timestamp old) Hti' Ho') as (H1 & H2 & _ & H4). set (ti' := update_timestamp_min ti (timestamp old)) in *.
  cbn [qtimes qt_ts]. assert (plain (ts_ ti' + 2)) as Hn by (unfold plain in *; lia). assert (plain (ts_ ti')) as Hn' by (unfold plain in *; lia).
  rewrite (proj2 (less_plain _ _ (Hph k) Hn')). do 3 eexists. split; [reflexivity|]. rewrite find_erase, bool_decide_true by done.
  split; [done|]. split; [intros k' Hk; by rewrite find_erase, bool_decide_false, find_set_phantom|]. cbn [qtimes qt_ts].
  set (node_ts := if _ <=? _ then _ else _). assert (ts_ ti' < node_ts /\ plain node_ts) as [Hlt Hnode].
  { unfold node_ts, Word.addw. rewrite Word.wrap_small by (unfold plain in *; split; lia). pose proof (Hph k).
    destruct (Z.leb_spec (phantom_epoch t k) (ts_ ti')); split; (done || unfold plain in *; lia). }
  destruct (erased_epoch t k node_ts Hph Hnode) as [Hge Hpl]. split_and!; (done || lia).
Qed.

(** ** Commands *)

Definition get_request (seq : Json) (k : bytes) : list Json := [seq; JInt Cmd_Get; JString k].
Definition put_request (seq : Json) (k : bytes) (req : list Json) : list Json := [seq; JInt Cmd_Put; JString k] ++ req.
Definition remove_request (seq : Json) (k : bytes) : list Json := [seq; JInt Cmd_Remove; JString k].

(** The reply to a get of every column. *)
Definition get_reply (seq : Json) (k : bytes) (found : option (list bytes)) : list Json :=
  match found with Some cs => seq :: JInt 3 :: map JString cs | None => [seq; JInt 3; JString k] end.

(** What a thread logs. *)
Definition logged (ti : thread) (l : log_entry) : list log_entry := if logging ti then [l] else [].

Lemma set_request_inside req i v : (i < length req)%nat -> set_request req i v = <[i := v]> req.
Proof. intros Hi. unfold set_request. replace (S i - length req)%nat with 0%nat by lia. cbn [replicate]. by rewrite app_nil_r. Qed.

Lemma onego_get t k found q ti seq : holds t k found ->
  exists q', onego global_log_epoch t q ti (get_request seq k) [] = Ok (1, get_reply seq k found, t, q', ti, []).
Proof.
  intros Hh. destruct (get_holds t k found q seq (JInt Cmd_Get) 0 Hh) as [Hg _]; [lia|]. unfold onego, get_request.
  cbn [request_item nth as_i rbind res_bind]. change (Word.signed 32 Cmd_Get) with 2. cbn [Z.eqb Pos.eqb Cmd_Checkpoint Cmd_Get].
  change (2 =? Cmd_Checkpoint) with false. change (2 =? Cmd_Get) with true. cbv iota. rewrite Hg.
  destruct found; cbn [rbind res_bind]; rewrite set_request_inside by (cbn; lia); eexists; reflexivity.
Qed.

Lemma change_list_length chs req : change_list chs req -> length req = (2 * length chs)%nat.
Proof. induction 1; cbn [length]; lia. Qed.

Lemma onego_put t k found q ti seq req chs : holds t k found -> change_list chs req -> chs <> [] -> ordered 0 chs ->
  row_fits (apply_changes (default [] found) chs) -> plain (ts_ ti) -> plain (key_stamp t k) ->
  exists t' q' ti', onego global_log_epoch t q ti (put_request seq k req) [] =
      Ok (1, [seq; JInt 7; JInt (match found with Some _ => 2 | None => 1 end)], t', q', ti',
          logged ti (logcmd_put, qtimes q', k, changeset_value req)) /\
    (Z.even (ts_ ti) = true -> Z.even (phantom_epoch t k) = true -> holds t' k (Some (apply_changes (default [] found) chs)) /\
      forall k' other, k' <> k -> holds t k' other -> holds t' k' other) /\
    (exists row, find t' k = Some row /\ timestamp row = qt_ts (qtimes q')) /\
    ts_ ti <= qt_ts (qtimes q') /\ key_stamp t k <= qt_ts (qtimes q') /\ (find t k <> None -> key_stamp t k < qt_ts (qtimes q')).
Proof.
  intros Hh Hch Hne Hord Hfit Hti Hks. destruct (put_table t k found req q ti chs Hh Hch Hord Hfit Hti Hks) as (t' & q' & ti' & Hp & P1 & P2 & P3 & P4 & P5 & P6 & P7).
  exists t', q', ti'. rewrite P3. split; [|done]. unfold onego, put_request. cbn [request_item nth app as_i rbind res_bind].
  change (Word.signed 32 Cmd_Put) with 6. change (6 =? Cmd_Checkpoint) with false. change (6 =? Cmd_Get) with false. change (6 =? Cmd_Put) with true. cbn [andb].
  pose proof (change_list_length _ _ Hch) as Hl. cbn [length]. rewrite Hl.
  assert (0 < length chs)%nat as Hpos by (destruct chs; [done|cbn; lia]).
  rewrite (proj2 (Z.ltb_lt 3 _)) by lia. replace (Z.of_nat (S (S (S (2 * length chs)))) mod 2) with 1.
  2: { replace (Z.of_nat (S (S (S (2 * length chs))))) with (1 + (Z.of_nat (length chs) + 1) * 2) by lia. by rewrite Z.mod_add. }
  cbn [andb Z.eqb Pos.eqb as_s drop rbind res_bind]. rewrite drop_0, Hp. cbn [rbind res_bind]. unfold logged. rewrite P7.
  destruct found, (logging ti); reflexivity.
Qed.

Lemma onego_remove t k q ti seq old : find t k = Some old -> 0 <= timestamp old -> plain (timestamp old + 4) -> 0 <= ts_ ti -> plain (ts_ ti + 4) -> (forall k', plain (phantom_epoch t k')) ->
  exists t' q' ti', onego global_log_epoch t q ti (remove_request seq k) [] =
      Ok (1, [seq; JInt 11; JBool true], t', q', ti', logged ti (logcmd_remove, qtimes q', k, [])) /\
    find t' k = None /\ (forall k', k' <> k -> find t' k' = find t k') /\
    timestamp old < qt_ts (qtimes q') < phantom_epoch t' k /\ ts_ ti <= qt_ts (qtimes q') /\ plain (phantom_epoch t' k).
Proof.
  intros Hf Ho1 Ho2 Ht1 Ht2 Hph. destruct (remove_table t k q ti old) as (t' & q' & ti' & Hr & H1 & H2 & H3 & H4 & H5 & H6); [done..|].
  exists t', q', ti'. split; [|done]. unfold onego, remove_request. cbn [request_item nth as_i rbind res_bind].
  change (Word.signed 32 Cmd_Remove) with 10. change (10 =? Cmd_Checkpoint) with false. change (10 =? Cmd_Get) with false. change (10 =? Cmd_Put) with false.
  change (10 =? Cmd_Replace) with false. change (10 =? Cmd_Remove) with true. cbn [andb as_s rbind res_bind]. rewrite Hr. cbn [rbind res_bind]. unfold logged. rewrite H6. reflexivity.
Qed.

(** ** Scans *)

(** How a scan replies with a row. *)
Definition shown (cs : list bytes) : Json :=
  match cs with [] => JNull | [c] => JString c | _ => JArray (map JString cs) end.
Definition shown_items (items : list (bytes * list bytes)) : list Json := flat_map (fun kc => [JString (fst kc); shown (snd kc)]) items.

(** The rows of a scan that are not markers, with their columns. *)
Inductive rows_are : list (bytes * R) -> list (bytes * list bytes) -> Prop :=
  | rows_nil : rows_are [] []
  | rows_marker k r items shown : row_is_marker r = true -> rows_are items shown -> rows_are ((k, r) :: items) shown
  | rows_row k r cs items shown : row_is_marker r = false -> row_is r cs -> rows_are items shown -> rows_are ((k, r) :: items) ((k, cs) :: shown).

Lemma emit_row r cs : row_is r cs -> emit_fields1 [] r = Ok (shown cs).
Proof.
  intros Hr. unfold emit_fields1. rewrite (ncol_is r cs) by done. rewrite (read_row cs) by done. destruct cs as [|c [|c' cs]]; [done| |].
  - change (len [c] =? 1) with true. cbv iota. by rewrite (col_is r [c]).
  - rewrite (proj2 (Z.eqb_neq _ _)) by (cbn [length]; lia). done.
Qed.

Lemma scan_values_all items rows : rows_are items rows -> forall n req, 0 < n < 2 ^ 31 ->
  scan_values [] items n req = Ok (req ++ shown_items (take (Z.to_nat n) rows)).
Proof.
  induction 1 as [|k r items rows Hm Hi IH|k r cs items rows Hm Hr Hi IH]; intros n req Hn; cbn [scan_values].
  - by rewrite take_nil, app_nil_r.
  - rewrite Hm. by apply IH.
  - rewrite Hm, (emit_row r cs), rbind_Ok by done. cbn zeta. rewrite (signed_mod 32 ltac:(lia) (n - 1) (n - 1)) by (change (32 - 1) with 31; lia || by rewrite Z.sub_diag).
    replace (Z.to_nat n) with (S (Z.to_nat (n - 1))) by lia. cbn [take]. unfold shown_items in *. cbn [flat_map fst snd app]. destruct (Z.eqb_spec (n - 1) 0) as [Hz|Hz].
    + rewrite Hz. change (Z.to_nat 0) with 0%nat. by rewrite take_0.
    + rewrite IH by lia. by rewrite <- app_assoc.
Qed.
End facts.

(** ** Rows that are value bags *)

(** [value_bag<uint16_t>] as the row type; [fresh] is what allocations hold. *)
Section bags.
Context (fresh : nat -> bytes) (fresh_length : forall n, length (fresh n) = n).

#[export] Instance bag_row : RowType value_bag := {|
  timestamp := vb_ts;
  ncol b := match bag_ncol 2 (vb_s b) with Ok n => n | Fault _ => 0 end;
  col i b := bag_col 2 i b;
  to_index i := Word.signed 16 i;
  update b it t := ValueBag.update 2 fresh b it t;
  create it t := ValueBag.create 2 fresh it t;
  create1 v t := ValueBag.create1 2 fresh v t;
|}.

#[export] Instance bag_laws : RowLaws value_bag.
Proof using fresh_length.
  refine {| row_is := represents 2; row_fits := fits 2 |}.
  - intros i Hi. apply (signed_mod 16 ltac:(lia)); [change (16 - 1) with 15; lia|by rewrite Z.sub_diag].
  - by intros r cs [_ [_ H]].
  - intros r cs [Hs Hf]. cbn. by rewrite Hs, read_ncol by (lia || done).
  - intros r cs i Hr Hi. cbn. by rewrite (read_column 2 ltac:(lia) r cs).
  - intros r cs chs it t Hr Hc Ho Hf. apply update_represents; done || lia.
  - intros chs it t Hc Ho Hf. apply (update_represents 2 fresh (empty_bag 2) [] chs it t); done || lia || (apply empty_bag_represents; lia).
  - intros v t Hf. apply create1_represents; [lia|done|]. destruct Hf as [Hf _]. revert Hf. unfold base, sizeof_bagdata. cbn [concat]. rewrite app_nil_r. cbn [length]. lia.
Defined.
End bags.

(** ** A table that is a map

    With the phantom epoch of each key's leaf beside it. *)
Record map_table (R : Type) := MapTable { rows : gmap bytes R; epochs : gmap bytes Z }.
Arguments MapTable {R} _ _.
Arguments rows {R} _.
Arguments epochs {R} _.

Fixpoint key_leb (a b : bytes) : bool :=
  match a, b with
  | [], _ => true
  | _, [] => false
  | x :: a, y :: b => if x =? y then key_leb a b else x <? y
  end.

#[export] Instance map_table_ops R : Table (map_table R) R := {|
  find t k := rows t !! k;
  store t k r := MapTable (<[k := r]> (rows t)) (epochs t);
  erase t k := MapTable (delete k (rows t)) (epochs t);
  phantom_epoch t k := default 0 (epochs t !! k);
  set_phantom_epoch t k e := MapTable (rows t) (<[k := e]> (epochs t));
  scan t k := merge_sort (fun a b => Is_true (key_leb a.1 b.1)) (filter (fun kr => Is_true (key_leb k kr.1)) (map_to_list (rows t)));
  rscan t k := merge_sort (fun a b => Is_true (key_leb b.1 a.1)) (filter (fun kr => Is_true (key_leb kr.1 k)) (map_to_list (rows t)));
|}.

#[export] Instance map_table_laws R : TableLaws (map_table R) R.
Proof.
  split; cbn.
  - intros t k r k'. destruct (decide (k' = k)) as [->|Hn]; [by rewrite lookup_insert_eq, bool_decide_true|by rewrite lookup_insert_ne, bool_decide_false].
  - intros t k k'. destruct (decide (k' = k)) as [->|Hn]; [by rewrite lookup_delete_eq, bool_decide_true|by rewrite lookup_delete_ne, bool_decide_false].
  - done.
  - intros t k e. by rewrite lookup_insert_eq.
  - intros t k e k'. destruct (decide (k' = k)) as [->|Hn]; [left; by rewrite lookup_insert_eq|right; by rewrite lookup_insert_ne].
  - by left.
Qed.

(** ** What clients see *)

Section theorems.
Context {T R : Type} `{HR : RowType R} `{!RowLaws R} `{HT : Table T R} `{!TableLaws T R}.

(** C11: the server's reply to a put, and to any get after it: the key has the
    columns that it had (none when it was absent, or a marker) with the changes of
    the request applied, whichever thread reads, and other keys are unchanged.  The
    put logs its changes with a time stamp past the one the key had. *)
Theorem put_get g (t : T) k found q ti seq req chs : holds t k found -> change_list chs req -> chs <> [] -> ordered 0 chs ->
  row_fits (apply_changes (default [] found) chs) -> plain (ts_ ti) -> plain (key_stamp t k) ->
  Z.even (ts_ ti) = true -> Z.even (phantom_epoch t k) = true ->
  exists t' q' ti', onego g t q ti (put_request seq k req) [] =
      Ok (1, [seq; JInt 7; JInt (match found with Some _ => 2 | None => 1 end)], t', q', ti',
          logged ti (logcmd_put, qtimes q', k, changeset_value req)) /\
    key_stamp t k <= qt_ts (qtimes q') /\ (find t k <> None -> key_stamp t k < qt_ts (qtimes q')) /\
    forall k' other q0 ti0 seq0, holds t k' other -> exists q1, onego g t' q0 ti0 (get_request seq0 k') [] =
      Ok (1, get_reply seq0 k' (if bool_decide (k' = k) then Some (apply_changes (default [] found) chs) else other), t', q1, ti0, []).
Proof.
  intros Hh Hch Hne Hord Hfit Hti Hks He Hpe.
  destruct (onego_put g t k found q ti seq req chs) as (t' & q' & ti' & Hp & Hholds & _ & H1 & H2 & H3); [done..|].
  destruct (Hholds He Hpe) as [Hk Hother]. exists t', q', ti'. split_and!; [done..|]. intros k' other q0 ti0 seq0 Ho.
  apply onego_get. case_bool_decide; subst; auto.
Qed.

(** C12: time stamps of one key grow in the order of its changes even when the key
    is removed in between and another thread, whose clock may be behind, puts it
    back: the put's record has a larger time stamp than the removal's, and that
    one a larger than the removed row's, which is the order that recovery replays
    the records in.  Clocks and epochs are in range, so that comparing them
    circularly is comparing them. *)
Theorem remove_put_ordered g (t : T) k q ti old seq q2 ti2 seq2 req chs : find t k = Some old ->
  0 <= timestamp old -> plain (timestamp old + 4) -> 0 <= ts_ ti -> plain (ts_ ti + 4) -> (forall k', plain (phantom_epoch t k')) ->
  plain (ts_ ti2) -> change_list chs req -> chs <> [] -> ordered 0 chs -> row_fits (apply_changes [] chs) ->
  exists t1 q1 ti1, onego g t q ti (remove_request seq k) [] =
      Ok (1, [seq; JInt 11; JBool true], t1, q1, ti1, logged ti (logcmd_remove, qtimes q1, k, [])) /\
    holds t1 k None /\
    exists t2 q3 ti3, onego g t1 q2 ti2 (put_request seq2 k req) [] =
      Ok (1, [seq2; JInt 7; JInt 1], t2, q3, ti3, logged ti2 (logcmd_put, qtimes q3, k, changeset_value req)) /\
      timestamp old < qt_ts (qtimes q1) < qt_ts (qtimes q3).
Proof.
  intros Hf Ho1 Ho2 Ht1 Ht2 Hph Ht3 Hch Hne Hord Hfit. destruct (onego_remove g t k q ti seq old) as (t1 & q1 & ti1 & Hr & Hn & _ & Hlt & _ & Hp); [done..|].
  exists t1, q1, ti1. split; [done|]. assert (holds t1 k None) as Hh by (unfold holds; by rewrite Hn). split; [done|].
  assert (key_stamp t1 k = phantom_epoch t1 k) as Hks by (unfold key_stamp; by rewrite Hn).
  destruct (onego_put g t1 k None q2 ti2 seq2 req chs) as (t2 & q3 & ti3 & Hput & _ & _ & _ & Hle & _); [done..|by rewrite Hks|].
  exists t2, q3, ti3. split; [done|]. rewrite Hks in Hle. lia.
Qed.

(** A scan replies with the first [n] rows from its key on, in order, that are
    not markers: each key and its columns. *)
Lemma scan_reply g (t : T) k q ti seq n rows : rows_are (scan t k) rows -> 0 < n < 2 ^ 31 ->
  exists q', onego g t q ti [seq; JInt Cmd_Scan; JString k; JInt n] [] =
    Ok (1, seq :: JInt 5 :: shown_items (take (Z.to_nat n) rows), t, q', ti, []).
Proof.
  intros Hr Hn. unfold onego. cbn [request_item nth as_i rbind res_bind]. change (Word.signed 32 Cmd_Scan) with 4.
  change (4 =? Cmd_Checkpoint) with false. change (4 =? Cmd_Get) with false. change (4 =? Cmd_Put) with false. change (4 =? Cmd_Replace) with false.
  change (4 =? Cmd_Remove) with false. change (4 =? Cmd_Scan) with true. cbn [andb]. unfold run_scan, run_scan_with. cbn [request_item nth as_i as_s drop read_fields rbind res_bind].
  rewrite (proj2 (Z.ltb_lt 0 n)) by lia. cbn [check_res rbind res_bind]. rewrite (signed_mod 32 ltac:(lia) n n) by (change (32 - 1) with 31; lia || by rewrite Z.sub_diag).
  rewrite (scan_values_all _ rows) by done. cbn [rbind res_bind]. rewrite set_request_inside by (cbn; lia). eexists. reflexivity.
Qed.

(** The reply to a get of an absent key is the request itself with the command
    changed, so it is also the reply for a row whose one column is the key: a
    client cannot tell the two apart. *)
Lemma get_ambiguous g (t1 t2 : T) k q1 q2 ti1 ti2 seq : holds t1 k None -> holds t2 k (Some [k]) ->
  exists q1' q2' reply, onego g t1 q1 ti1 (get_request seq k) [] = Ok (1, reply, t1, q1', ti1, []) /\
    onego g t2 q2 ti2 (get_request seq k) [] = Ok (1, reply, t2, q2', ti2, []).
Proof.
  intros H1 H2. destruct (onego_get g t1 k None q1 ti1 seq H1) as [q1' E1]. destruct (onego_get g t2 k (Some [k]) q2 ti2 seq H2) as [q2' E2].
  exists q1', q2', [seq; JInt 3; JString k]. by rewrite E1, E2.
Qed.
End theorems.

(** ** On a table *)

#[local] Instance zeros_row : RowType value_bag := bag_row zeros.
#[local] Instance zeros_laws : RowLaws value_bag := bag_laws zeros (fun n => length_replicate n 0).

Definition bag_of (t : Z) (cs : list bytes) : value_bag := Bag t (encode 2 cs).
Definition some_table : map_table value_bag :=
  MapTable (list_to_map [([107], bag_of 8 [[1]; [2; 3]]); ([109], bag_of 6 [[109]])]) ∅.
Definition no_query : query := Query [] (QueryTimes 0 0 0).

Lemma some_row t cs : fits 2 cs -> represents 2 (bag_of t cs) cs.
Proof. done. Qed.

Lemma put_get_witness :
  holds some_table [107] (Some [[1]; [2; 3]]) /\
  exists t' q' ti', onego 1 some_table no_query (Thread 4 true) (put_request (JInt 1) [107] some_items) [] =
      Ok (1, [JInt 1; JInt 7; JInt 2], t', q', ti', [(logcmd_put, qtimes q', [107], changeset_value some_items)]) /\
    key_stamp some_table [107] <= qt_ts (qtimes q') /\ (find some_table [107] <> None -> key_stamp some_table [107] < qt_ts (qtimes q')) /\
    forall k' other q0 ti0 seq0, holds some_table k' other -> exists q1, onego 1 t' q0 ti0 (get_request seq0 k') [] =
      Ok (1, get_reply seq0 k' (if bool_decide (k' = [107]) then Some [[97; 98]; [2; 3]; []; [99]] else other), t', q1, ti0, []).
Proof.
  assert (holds some_table [107] (Some [[1]; [2; 3]])) as Hh by (apply some_row; split; vm_compute; reflexivity). split; [exact Hh|].
  apply (put_get (HR := zeros_row) 1 some_table [107] (Some [[1]; [2; 3]]) no_query (Thread 4 true) (JInt 1) some_items some_changes);
    [exact Hh|repeat (constructor; try reflexivity)|discriminate|cbn; lia|split; vm_compute; reflexivity|unfold plain; cbn; lia|
     split; vm_compute; (discriminate || reflexivity)|reflexivity|reflexivity].
Defined.

Lemma remove_put_ordered_witness :
  exists t1 q1 ti1, onego 1 some_table no_query (Thread 4 true) (remove_request (JInt 1) [107]) [] =
      Ok (1, [JInt 1; JInt 11; JBool true], t1, q1, ti1, [(logcmd_remove, qtimes q1, [107], [])]) /\
    holds t1 [107] None /\
    exists t2 q3 ti3, onego 1 t1 no_query (Thread 2 true) (put_request (JInt 9) [107] some_items) [] =
      Ok (1, [JInt 9; JInt 7; JInt 1], t2, q3, ti3, [(logcmd_put, qtimes q3, [107], changeset_value some_items)]) /\
      8 < qt_ts (qtimes q1) < qt_ts (qtimes q3).
Proof.
  apply (remove_put_ordered (HR := zeros_row) 1 some_table [107] no_query (Thread 4 true) (bag_of 8 [[1]; [2; 3]]) (JInt 1) no_query (Thread 2 true) (JInt 9) some_items some_changes);
    try (unfold plain; cbn; lia); [reflexivity|split; vm_compute; (discriminate || reflexivity)|repeat (constructor; try reflexivity)|discriminate|split; vm_compute; reflexivity].
Defined.

