(* ===== verification/LogApply.v ===== *)
(** * The log: applying a record (log.cc, log.hh)

    Replay applies the records of several logs, each in its own order: a
    modification may come before the record it modifies.  It waits in the key's
    slot as a delta marker, a row that holds the modification and points to the
    rest of the slot's chain, until the record before it has been applied. *)

From S2P Require Export LogReplay RowHeap Query.

#[local] Open Scope Z_scope.
#[local] Open Scope lhm_scope.

(** ** Rows and markers

    The rows are [row_type], [value_bag<uint16_t>]. *)

Abbreviation row_heap := (threadinfo value_bag).
Abbreviation row_bytes := 2%nat.

(** [sizeof(row_delta_marker<R>)]: the type at byte 0, [prev_ts_] at 8 and [prev_]
    at 16. *)
Definition sizeof_delta_marker : Z := 24.
Definition mt_remove : Z := 1.
Definition mt_delta : Z := 2.

(** A pointer in memory is its address in one of its eight cells. *)
Definition pointer_cells (p : option loc) : bytes := match p with Some l => Zpos l | None => 0 end :: replicate 7 0.
Definition cells_pointer (cs : bytes) : option loc := match cs with Zpos l :: _ => Some l | _ => None end.

Definition is_marker (b : value_bag) : bool := Z.testbit (vb_ts b) 0.

(** [col(0).s], as an offset. *)
Definition col0 (b : value_bag) : res Z :=
  let? n := bag_ncol row_bytes (vb_s b) in
  if 0 <? n then bag_pos row_bytes 0 (vb_s b) else Fault NullPointer.

Definition row_is_delta_marker (b : value_bag) : res bool :=
  if is_marker b then
    let? p := col0 b in
    let? t := mem_read p 4 (vb_s b) in
    Ok (le_value t =? mt_delta)
  else Ok false.

(** The fields of [*row_get_delta_marker(row)]. *)
Definition delta_prev_ts (b : value_bag) : res Z := let? p := col0 b in let? t := mem_read (p + 8) 8 (vb_s b) in Ok (le_value t).
Definition delta_prev (b : value_bag) : res (option loc) := let? p := col0 b in let? c := mem_read (p + 16) 8 (vb_s b) in Ok (cells_pointer c).
Definition set_delta_prev (prev : option loc) (b : value_bag) : res value_bag :=
  let? p := col0 b in let? s := mem_write (p + 16) (pointer_cells prev) (vb_s b) in Ok (Bag (vb_ts b) s).
Definition set_delta (prev_ts : Z) (prev : option loc) (b : value_bag) : res value_bag :=
  let? p := col0 b in
  let? s := mem_write p (le_bytes 4 mt_delta) (vb_s b) in
  let? s := mem_write (p + 8) (le_bytes 8 prev_ts) s in
  let? s := mem_write (p + 16) (pointer_cells prev) s in
  Ok (Bag (vb_ts b) s).

(** The change in a delta marker: [col(0)] without the marker. *)
Definition delta_change (b : value_bag) : res bytes :=
  let? c := bag_col row_bytes 0 b in
  let? _ := check_res (sizeof_delta_marker <=? Z.of_nat (length c)) in
  Ok (drop (Z.to_nat sizeof_delta_marker) c).

(** ** The slot and its chain *)

(** The state: the slot of the key in its leaf, [value], and the heap of rows. *)
Record slot_state := Slot { sl_value : option loc; sl_heap : row_heap }.
#[local] Abbreviation M := (sm slot_state).

Definition on_heap {A} (m : sm row_heap A) : M A := fun s =>
  match m (sl_heap s) with Ok (a, h) => Ok (a, Slot (sl_value s) h) | Fault f => Fault f end.

(** What [R**] points to: [value], or the [prev_] of a delta marker. *)
Inductive place := InSlot | InMarker (l : loc).

Definition load_bag (l : loc) : M value_bag := on_heap (load_row l).

Definition get_place (p : place) : M (option loc) :=
  match p with
  | InSlot => fun s => Ok (sl_value s, s)
  | InMarker l => let* b := load_bag l in lift (delta_prev b)
  end.
Definition set_place (p : place) (v : option loc) : M unit :=
  match p with
  | InSlot => fun s => Ok (tt, Slot v (sl_heap s))
  | InMarker l => let* b := load_bag l in let* b := lift (set_delta_prev v b) in on_heap (store_row l b)
  end.

(** [ti.allocate] of what [update] and [create] make, and [deallocate(ti)]. *)
Definition allocate_bag (b : value_bag) : M loc := on_heap (allocate (sizeof_timestamp + Z.of_nat (length (vb_s b))) (Row b)).
Definition deallocate_bag (l : loc) : M unit :=
  let* b := load_bag l in
  let* n := lift (bag_size row_bytes (vb_s b)) in
  on_heap (deallocate l n).

(** The loops are bounded by the number of rows. *)
Definition chain_fuel : M nat := fun s => Ok (S (base.size (heap (sl_heap s))), s).

(** Find the point to insert the change: after some delta markers. *)
Fixpoint find_point (fuel : nat) (cur : place) (ts : Z) : M place :=
  match fuel with
  | O => fail OutOfFuel
  | S fuel =>
    let* v := get_place cur in
    match v with
    | None => mret cur
    | Some l =>
      let* b := load_bag l in
      let* d := lift (row_is_delta_marker b) in
      if d && (ts <? vb_ts b) then find_point fuel (InMarker l) ts else mret cur
    end
  end.

(** If not modifying, delete everything earlier. *)
Fixpoint delete_earlier (fuel : nat) (cur : place) : M unit :=
  match fuel with
  | O => fail OutOfFuel
  | S fuel =>
    let* v := get_place cur in
    match v with
    | None => mret tt
    | Some l =>
      let* b := load_bag l in
      let* d := lift (row_is_delta_marker b) in
      let* _ := (if d then let* p := lift (delta_prev b) in set_place cur p else set_place cur None) in
      let* _ := deallocate_bag l in
      delete_earlier fuel cur
    end
  end.

(** The last delta marker of the chain, from one at [prev] on. *)
Fixpoint last_delta (fuel : nat) (prev trav : place) : M (place * place) :=
  match fuel with
  | O => fail OutOfFuel
  | S fuel =>
    let* v := get_place trav in
    match v with
    | None => mret (prev, trav)
    | Some l =>
      let* b := load_bag l in
      let* d := lift (row_is_delta_marker b) in
      if d then last_delta fuel trav (InMarker l) else mret (prev, trav)
    end
  end.

Section apply.
(** The contents of fresh memory. *)
Context (junk : nat -> bytes).

(** Replace the last delta marker and the row behind it by the changed row;
    [false] when they do not fit together. *)
Definition merge_delta (prev trav : place) : M bool :=
  let* p := get_place prev in
  let* t := get_place trav in
  match p, t with
  | Some lp, Some lt =>
    let* bp := load_bag lp in
    let* bt := load_bag lt in
    let* pts := lift (delta_prev_ts bp) in
    if pts =? vb_ts bt then
      let* req := lift (delta_change bp) in
      let* changes := lift (parse_changeset req) in
      let* b := lift (ValueBag.update row_bytes junk bt changes (Word.subw 64 (vb_ts bp) 1)) in
      let* l := allocate_bag b in
      let* _ := set_place prev (Some l) in
      let* _ := deallocate_bag lt in
      let* _ := deallocate_bag lp in
      mret true
    else mret false
  | _, _ => mret false
  end.

Fixpoint clean_up (fuel : nat) : M unit :=
  match fuel with
  | O => fail OutOfFuel
  | S fuel =>
    let* v := get_place InSlot in
    match v with
    | None => mret tt
    | Some l =>
      let* b := load_bag l in
      let* d := lift (row_is_delta_marker b) in
      if d then
        let* n := chain_fuel in
        let* (prev, trav) := last_delta n InSlot InSlot in
        let* again := merge_delta prev trav in
        if again then clean_up fuel else mret tt
      else mret tt
    end
  end.

(** The change itself, at its place; [before] is the memory in front of the value in
    the log's record. *)
Definition apply_at (cur : place) (lr : logrecord) (before : bytes) : M unit :=
  let command := lr_command lr in
  let* v := get_place cur in
  if command =? logcmd_replace then
    let* b := lift (ValueBag.create1 row_bytes junk (lr_val lr) (lr_ts lr)) in
    let* l := allocate_bag b in
    set_place cur (Some l)
  else
    let* fits :=
      (if negb (command =? logcmd_modify) then mret true
       else match v with
            | Some l => let* b := load_bag l in mret (vb_ts b =? lr_prev_ts lr)
            | None => mret false
            end) in
    if fits then
      let* changes := lift (parse_changeset (lr_val lr)) in
      if negb (command =? logcmd_modify) then
        let* b := lift (ValueBag.create row_bytes junk changes (lr_ts lr)) in
        let* l := allocate_bag b in
        set_place cur (Some l)
      else
        match v with
        | Some old =>
          let* b := load_bag old in
          let* b := lift (ValueBag.update row_bytes junk b changes (lr_ts lr)) in
          let* l := allocate_bag b in
          let* _ := set_place cur (Some l) in
          deallocate_bag old
        | None => fail NullPointer
        end
    else
      let room := drop (length before - Z.to_nat sizeof_delta_marker) before in
      let* b := lift (ValueBag.create1 row_bytes junk (room ++ lr_val lr) (Z.lor (lr_ts lr) 1)) in
      let* b := lift (set_delta (lr_prev_ts lr) v b) in
      let* l := allocate_bag b in
      set_place cur (Some l).

(** [logrecord::apply]. *)
Definition apply (lr : logrecord) (before : bytes) : M unit :=
  let* n := chain_fuel in
  let* cur := find_point n InSlot (lr_ts lr) in
  let* v := get_place cur in
  let* old := (match v with Some l => let* b := load_bag l in mret (lr_ts lr <=? vb_ts b) | None => mret false end) in
  if old then mret tt
  else
    let* _ := (if negb (lr_command lr =? logcmd_modify) then delete_earlier n cur else mret tt) in
    let* _ := apply_at cur lr before in
    let* n := chain_fuel in
    clean_up n.

(** ** The table *)

Section run.
Context {T : Type} `{Table T (option loc)}.

(** What [run] changes: the table, the rows, the thread's clock. *)
Definition run (lr : logrecord) (before : bytes) (st : T * row_heap * thread) : res (T * row_heap * thread) :=
  let '(table, rows, ti) := st in
  let lr :=
    if lr_command lr =? logcmd_remove
    then Logrecord (lr_command lr) (lr_key lr) (le_bytes 4 mt_remove) (Z.lor (lr_ts lr) 1) (lr_prev_ts lr) (lr_epoch lr)
    else lr in
  let found := find table (lr_key lr) in
  let ti := match found with None => observe_phantoms ti (phantom_epoch table (lr_key lr)) | Some _ => ti end in
  let? r := apply lr before (Slot (match found with Some v => v | None => None end) rows) in
  let s := snd (r : unit * slot_state) in
  Ok (store table (lr_key lr) (sl_value s), sl_heap s, ti).
End run.
End apply.
