(* ===== verification/LogApplyFacts.v ===== *)
(** * The log: what the chain of a slot holds

    A slot's chain is a list of pending modifications, the last one first, in front
    of a row or of nothing.  Applying a record changes the lists as [insert_change]
    and [settle] do, and the heap has exactly the chain's rows afterwards. *)

From S2P Require Export LogApply QueryFacts LogFacts.

#[local] Open Scope Z_scope.
#[local] Open Scope lhm_scope.

(** ** Markers *)

(** A modification whose predecessor has not been applied. *)
Record pending := Pending { pd_ts : Z; pd_prev : Z; pd_val : bytes; pd_changes : list (nat * bytes) }.

(** The changes that a record's value has. *)
Definition changes_of (val : bytes) (chs : list (nat * bytes)) : Prop := exists it, parse_changeset val = Ok it /\ change_list chs it /\ ordered 0 chs.

Definition pending_ok (d : pending) : Prop :=
  changes_of (pd_val d) (pd_changes d) /\ Z.even (pd_ts d) = true /\ 0 <= pd_ts d < 2 ^ 63 /\ 0 <= pd_prev d < 2 ^ 63 /\ 30 + len (pd_val d) < 2 ^ 16.

Definition marker_cells (pad : bytes) (prev_ts : Z) (p : option loc) : bytes := le_bytes 4 mt_delta ++ pad ++ le_bytes 8 prev_ts ++ pointer_cells p.

(** The row [b] is the marker of [d] and points to [p]. *)
Definition is_delta (b : value_bag) (d : pending) (p : option loc) : Prop :=
  vb_ts b = Z.lor (pd_ts d) 1 /\ exists pad, length pad = 4%nat /\ vb_s b = encode 2 [marker_cells pad (pd_prev d) p ++ pd_val d].

Definition one_header (c : bytes) : bytes := le_bytes 2 1 ++ le_bytes 2 6 ++ le_bytes 2 (6 + len c).

Lemma encode_one c : encode 2 [c] = one_header c ++ c.
Proof. unfold encode, words, base, sizeof_bagdata, one_header. cbn [length starts flat_map concat app]. by rewrite !app_nil_r, <- !app_assoc. Qed.

Lemma length_one_header c : length (one_header c) = 6%nat.
Proof. unfold one_header. by rewrite !length_app, !length_le_bytes. Qed.

Lemma length_marker_cells pad t p : length pad = 4%nat -> length (marker_cells pad t p) = 24%nat.
Proof. intros Hp. unfold marker_cells, pointer_cells. rewrite !length_app, !length_le_bytes, Hp. destruct p; reflexivity. Qed.

Lemma fits_one c : 6 + len c < 2 ^ 16 -> fits 2 [c].
Proof. intros H. split; [|done]. unfold base, sizeof_bagdata. cbn [length concat]. rewrite app_nil_r. change (obits 2) with 16. lia. Qed.

Lemma odd_lor t : Z.testbit (Z.lor t 1) 0 = true.
Proof. by rewrite Z.lor_spec, orb_true_r. Qed.

Lemma lor_even t : Z.even t = true -> Z.lor t 1 = t + 1.
Proof. intros He. rewrite QueryFacts.lor_one. apply Z.even_spec in He as [k ->]. pose proof (Z.div_mul k 2 ltac:(lia)) as E. rewrite (Z.mul_comm 2 k), E. lia. Qed.

(** The memory of a row of one column. *)
Lemma col0_one b c : vb_s b = encode 2 [c] -> 6 + len c < 2 ^ 16 -> col0 b = Ok 6.
Proof.
  intros Hb Hc. unfold col0. rewrite Hb, (read_ncol 2 ltac:(lia)), rbind_Ok by (by apply fits_one). change (0 <? len [c]) with true. cbv iota.
  exact (read_pos 2 ltac:(lia) [] [c] (fits_one c Hc)).
Qed.

Lemma read_one c A X B n off : c = A ++ X ++ B -> off = 6 + len A -> n = len X -> mem_read off n (encode 2 [c]) = Ok X.
Proof. intros -> -> ->. rewrite encode_one, app_assoc. apply mem_read_app; [rewrite length_app, length_one_header; lia|done]. Qed.

Lemma write_one A X Y B off : off = 6 + len A -> length X = length Y -> mem_write off Y (encode 2 [A ++ X ++ B]) = Ok (encode 2 [A ++ Y ++ B]).
Proof.
  intros -> Hl. rewrite !encode_one, (app_assoc (one_header _)). rewrite mem_write_app; [|rewrite length_app, length_one_header; lia|done].
  f_equal. rewrite <- app_assoc. f_equal. unfold one_header. do 4 f_equal. rewrite !length_app, Hl. done.
Qed.

Section delta.
Context (b : value_bag) (d : pending) (p : option loc) (Hb : is_delta b d p) (Hd : pending_ok d).

Lemma delta_small pad : length pad = 4%nat -> 6 + len (marker_cells pad (pd_prev d) p ++ pd_val d) < 2 ^ 16.
Proof using Hd. intros Hp. rewrite length_app, length_marker_cells by done. destruct Hd as (_ & _ & _ & _ & H). lia. Qed.

Lemma delta_is_delta : row_is_delta_marker b = Ok true.
Proof using Hb Hd.
  destruct Hb as (Ht & pad & Hp & Hs). unfold row_is_delta_marker, is_marker. rewrite Ht, odd_lor, (col0_one b _ Hs), rbind_Ok by (by apply delta_small).
  rewrite Hs, (read_one _ [] (le_bytes 4 mt_delta) (pad ++ le_bytes 8 (pd_prev d) ++ pointer_cells p ++ pd_val d)); [done|unfold marker_cells; by rewrite <- !app_assoc|done|done].
Qed.

Lemma delta_prev_is : delta_prev b = Ok p.
Proof using Hb Hd.
  destruct Hb as (Ht & pad & Hp & Hs). unfold delta_prev. rewrite (col0_one b _ Hs), rbind_Ok by (by apply delta_small). rewrite Hs.
  rewrite (read_one _ (le_bytes 4 mt_delta ++ pad ++ le_bytes 8 (pd_prev d)) (pointer_cells p) (pd_val d)); [by destruct p|unfold marker_cells; by rewrite <- !app_assoc| |by destruct p].
  rewrite !length_app, !length_le_bytes, Hp. done.
Qed.

Lemma delta_prev_ts_is : delta_prev_ts b = Ok (pd_prev d).
Proof using Hb Hd.
  destruct Hb as (Ht & pad & Hp & Hs). unfold delta_prev_ts. rewrite (col0_one b _ Hs), rbind_Ok by (by apply delta_small). rewrite Hs.
  rewrite (read_one _ (le_bytes 4 mt_delta ++ pad) (le_bytes 8 (pd_prev d)) (pointer_cells p ++ pd_val d)); [|unfold marker_cells; by rewrite <- !app_assoc|by rewrite !length_app, !length_le_bytes, Hp|by rewrite length_le_bytes].
  rewrite rbind_Ok, le_value_bytes. f_equal. apply Z.mod_small. destruct Hd as (_ & _ & _ & H & _). change (8 * Z.of_nat 8) with 64. lia.
Qed.

Lemma delta_change_is : delta_change b = Ok (pd_val d).
Proof using Hb Hd.
  destruct Hb as (Ht & pad & Hp & Hs). unfold delta_change. rewrite (read_column 2 ltac:(lia) b [marker_cells pad (pd_prev d) p ++ pd_val d]); [|split; [done|by apply fits_one, delta_small]|lia].
  rewrite rbind_Ok. change (nth (Z.to_nat 0) [marker_cells pad (pd_prev d) p ++ pd_val d] []) with (marker_cells pad (pd_prev d) p ++ pd_val d). rewrite length_app, length_marker_cells by done. unfold check_res. rewrite (proj2 (Z.leb_le _ _)) by (unfold sizeof_delta_marker; lia). rewrite rbind_Ok.
  by rewrite drop_app_length' by (by rewrite length_marker_cells).
Qed.

Lemma delta_set_prev v : exists b', set_delta_prev v b = Ok b' /\ is_delta b' d v /\ length (vb_s b') = length (vb_s b).
Proof using Hb Hd.
  destruct Hb as (Ht & pad & Hp & Hs). unfold set_delta_prev. rewrite (col0_one b _ Hs), rbind_Ok by (by apply delta_small). rewrite Hs. unfold marker_cells.
  replace ((le_bytes 4 mt_delta ++ pad ++ le_bytes 8 (pd_prev d) ++ pointer_cells p) ++ pd_val d) with ((le_bytes 4 mt_delta ++ pad ++ le_bytes 8 (pd_prev d)) ++ pointer_cells p ++ pd_val d) by (by rewrite <- !app_assoc).
  rewrite (write_one _ (pointer_cells p) (pointer_cells v)); [|by rewrite !length_app, !length_le_bytes, Hp|by destruct p, v]. rewrite rbind_Ok.
  eexists. split; [reflexivity|]. split; [split; [done|]|].
  - exists pad. split; [done|]. cbn [vb_s]. unfold marker_cells. by rewrite <- !app_assoc.
  - cbn [vb_s]. rewrite !encode_one, !length_app, !length_one_header. by destruct p, v.
Qed.

Lemma delta_size : bag_size 2 (vb_s b) = Ok (8 + len (vb_s b)).
Proof using Hb Hd. destruct Hb as (Ht & pad & Hp & Hs). rewrite Hs. apply read_size; [lia|]. by apply fits_one, delta_small. Qed.
End delta.

(** A marker is made of a row of one column. *)
Lemma make_delta junk d room v : (forall n, length (junk n) = n) -> pending_ok d -> length room = 24%nat ->
  exists b0 b, ValueBag.create1 2 junk (room ++ pd_val d) (Z.lor (pd_ts d) 1) = Ok b0 /\ set_delta (pd_prev d) v b0 = Ok b /\ is_delta b d v.
Proof.
  intros Hj Hd Hr. pose proof Hd as (_ & _ & _ & _ & Hlen). set (c := room ++ pd_val d). assert (6 + len c < 2 ^ 16) as Hc by (unfold c; rewrite length_app, Hr; lia).
  destruct (create1_represents 2 junk c (Z.lor (pd_ts d) 1)) as (b0 & Hb0 & [Hs Hf] & Ht); [lia|done|change (obits 2) with 16; lia|].
  exists b0. unfold set_delta. rewrite (col0_one b0 c), rbind_Ok, Hs by done.
  assert (exists r1 pad r2 r3, room = r1 ++ pad ++ r2 ++ r3 /\ length r1 = 4%nat /\ length pad = 4%nat /\ length r2 = 8%nat /\ length r3 = 8%nat) as (r1 & pad & r2 & r3 & -> & L1 & L2 & L3 & L4).
  { exists (take 4 room), (take 4 (drop 4 room)), (take 8 (drop 8 room)), (drop 16 room). rewrite !length_take, !length_drop, Hr. split_and!; try done.
    rewrite <- (take_drop 4 room) at 1. f_equal. rewrite <- (take_drop 4 (drop 4 room)) at 1. f_equal. rewrite drop_drop. rewrite <- (take_drop 8 (drop (4 + 4) room)) at 1. f_equal. by rewrite drop_drop. }
  eexists. split; [done|]. unfold c. rewrite <- !app_assoc.
  pose proof (write_one [] r1 (le_bytes 4 mt_delta) (pad ++ r2 ++ r3 ++ pd_val d) 6 eq_refl) as W1. cbn [app] in W1. rewrite W1, rbind_Ok by (by rewrite length_le_bytes).
  pose proof (write_one (le_bytes 4 mt_delta ++ pad) r2 (le_bytes 8 (pd_prev d)) (r3 ++ pd_val d) (6 + 8)) as W2. rewrite <- !app_assoc in W2.
  rewrite W2, rbind_Ok by (rewrite ?length_app, ?length_le_bytes, ?L2; lia || done).
  pose proof (write_one (le_bytes 4 mt_delta ++ pad ++ le_bytes 8 (pd_prev d)) r3 (pointer_cells v) (pd_val d) (6 + 16)) as W3. rewrite <- !app_assoc in W3.
  rewrite W3, rbind_Ok by (rewrite ?length_app, ?length_le_bytes, ?L2, ?L4; (lia || by destruct v)).
  split; [reflexivity|]. split; [done|]. exists pad. split; [done|]. cbn [vb_s]. unfold marker_cells. by rewrite <- !app_assoc.
Qed.

(** ** Segments of chains *)

Abbreviation row_object b := (8 + len (vb_s b), Row b).
Abbreviation rows_at s := (heap (sl_heap s)).

(** From [p] on, [ls] are the markers of [ds], and then comes [q]. *)
Fixpoint segment (h : gmap loc (Z * object value_bag)) (p : option loc) (ls : list loc) (ds : list pending) (q : option loc) : Prop :=
  match ls, ds with
  | [], [] => p = q
  | l :: ls, d :: ds => p = Some l /\ pending_ok d /\ exists b p', h !! l = Some (row_object b) /\ is_delta b d p' /\ segment h p' ls ds q
  | _, _ => False
  end.

(** What [q] points to behind the markers. *)
Definition base_at (h : gmap loc (Z * object value_bag)) (q : option loc) (lb : list loc) (row : option (Z * list bytes)) : Prop :=
  match row with
  | None => q = None /\ lb = []
  | Some (t, cs) => exists l b, q = Some l /\ lb = [l] /\ h !! l = Some (row_object b) /\ represents 2 b cs /\ vb_ts b = t /\ Z.even t = true
  end.

(** The place behind the markers [ls]. *)
Definition place_of (ls : list loc) : place := match last ls with None => InSlot | Some l => InMarker l end.

Lemma place_of_snoc ls l : place_of (ls ++ [l]) = InMarker l.
Proof. unfold place_of. by rewrite last_snoc. Qed.

Lemma segment_frame h h' ls : forall p ds q, segment h p ls ds q -> (forall l, l ∈ ls -> h' !! l = h !! l) -> segment h' p ls ds q.
Proof.
  induction ls as [|l ls IH]; intros p [|d ds] q; cbn [segment]; try done. intros (-> & Hd & b & p' & Hl & Hb & Hs) Hf.
  split_and!; [done..|]. exists b, p'. split_and!; [|done|]. { rewrite Hf; [done|by left]. } apply (IH p'); [done|]. intros x Hx. apply Hf. by right.
Qed.

Lemma base_frame h h' q lb row : base_at h q lb row -> (forall l, l ∈ lb -> h' !! l = h !! l) -> base_at h' q lb row.
Proof. destruct row as [[t cs]|]; [|done]. intros (l & b & -> & -> & Hl & H) Hf. exists l, b. split_and!; [done|done| |naive_solver..]. rewrite Hf; [done|by left]. Qed.

Lemma segment_app h ls1 : forall p ds1 m ls2 ds2 q, segment h p ls1 ds1 m -> segment h m ls2 ds2 q -> segment h p (ls1 ++ ls2) (ds1 ++ ds2) q.
Proof.
  induction ls1 as [|l ls1 IH]; intros p [|d ds1] m ls2 ds2 q; cbn [segment app]; try done; [by intros ->|]. intros (-> & Hd & b & p' & Hl & Hb & Hs) H2.
  split_and!; [done..|]. exists b, p'. split_and!; [done..|]. by apply (IH p' ds1 m).
Qed.

Lemma segment_split h ds1 : forall p ls ds2 q, segment h p ls (ds1 ++ ds2) q -> exists ls1 ls2 m, ls = ls1 ++ ls2 /\ segment h p ls1 ds1 m /\ segment h m ls2 ds2 q.
Proof.
  induction ds1 as [|d ds1 IH]; intros p ls ds2 q; [by exists [], ls, p|]. destruct ls as [|l ls]; [done|]. cbn [segment app]. intros (-> & Hd & b & p' & Hl & Hb & Hs).
  destruct (IH _ _ _ _ Hs) as (ls1 & ls2 & m & -> & H1 & H2). exists (l :: ls1), ls2, m. split_and!; [done| |done]. cbn [segment]. split_and!; [done..|]. by exists b, p'.
Qed.

Lemma segment_length h p ls ds q : segment h p ls ds q -> length ls = length ds.
Proof. revert p ds. induction ls as [|l ls IH]; intros p [|d ds]; cbn [segment]; try done. intros (_ & _ & b & p' & _ & _ & Hs). cbn. f_equal. by eapply IH. Qed.

Lemma segment_last h p ls l ds d q : segment h p (ls ++ [l]) (ds ++ [d]) q -> segment h p ls ds (Some l) /\ pending_ok d /\ exists b, h !! l = Some (row_object b) /\ is_delta b d q.
Proof.
  intros Hs. destruct (segment_split _ _ _ _ _ _ Hs) as (ls1 & ls2 & m & Heq & H1 & H2). destruct ls2 as [|l2 [|? ?]]; cbn [segment] in H2; try done.
  - destruct H2 as (-> & Hd & b & p' & Hl & Hb & ->). apply app_inj_tail in Heq as [-> ->]. split_and!; [done..|]. by exists b.
  - by destruct H2 as (_ & _ & ? & ? & _ & _ & []).
Qed.

(** ** Steps on the state *)

Lemma load_bag_run (s : slot_state) l b sz : rows_at s !! l = Some (sz, Row b) -> load_bag l s = Ok (b, s).
Proof. intros Hl. destruct s as [v [h lim]]. cbn in Hl. unfold load_bag, on_heap, load_row, RowHeap.load, sbind, sm_bind. cbn. by rewrite Hl. Qed.

Lemma bind_load {A} (s : slot_state) l b sz (k : value_bag -> sm slot_state A) : rows_at s !! l = Some (sz, Row b) -> (let* b := load_bag l in k b) s = k b s.
Proof. intros Hl. by rewrite (sbind_run _ _ _ _ _ (load_bag_run s l b sz Hl)). Qed.

Lemma bind_lift {A B} (s : slot_state) (r : res A) (a : A) (k : A -> sm slot_state B) : r = Ok a -> (let* a := lift r in k a) s = k a s.
Proof. intros ->. by rewrite (sbind_run _ _ _ _ _ (lift_run _ _ _ eq_refl)). Qed.

Lemma get_place_run (s : slot_state) ls ds q : segment (rows_at s) (sl_value s) ls ds q -> get_place (place_of ls) s = Ok (q, s).
Proof.
  intros Hs. destruct ls as [|l ls _] using rev_ind.
  - destruct ds; [|done]. cbn in *. by subst.
  - destruct ds as [|d ds _] using rev_ind; [by apply segment_length in Hs; rewrite length_app in Hs; cbn in Hs; lia|].
    apply segment_last in Hs as (_ & Hd & b & Hl & Hb). rewrite place_of_snoc. cbn [get_place]. rewrite (bind_load s l b _ _ Hl). by apply lift_run, (delta_prev_is b d).
Qed.

(** Redirecting the end of a segment. *)
Lemma set_place_run (s : slot_state) ls ds q v : segment (rows_at s) (sl_value s) ls ds q -> NoDup ls ->
  exists s', set_place (place_of ls) v s = Ok (tt, s') /\ segment (rows_at s') (sl_value s') ls ds v /\
    (forall l, l ∉ ls -> rows_at s' !! l = rows_at s !! l) /\ dom (rows_at s') = dom (rows_at s) /\ limbo (sl_heap s') = limbo (sl_heap s).
Proof.
  intros Hs Hnd. destruct ls as [|l ls _] using rev_ind.
  - destruct ds; [|done]. by exists (Slot v (sl_heap s)).
  - destruct ds as [|d ds _] using rev_ind; [by apply segment_length in Hs; rewrite length_app in Hs; cbn in Hs; lia|].
    pose proof Hs as Hs0. apply segment_last in Hs as (Hs & Hd & b & Hl & Hb). destruct (delta_set_prev b d q Hb Hd v) as (b' & Hset & Hb' & Hlen).
    rewrite place_of_snoc. cbn [set_place]. rewrite (bind_load s l b _ _ Hl), (bind_lift s _ b' _ Hset). unfold on_heap, store_row. cbn beta. rewrite Hl.
    eexists. split; [reflexivity|]. cbn [sl_heap sl_value heap limbo]. apply NoDup_app in Hnd as (Hnd & Hdis & _). rewrite <- Hlen.
    split_and!; [|intros x Hx; rewrite lookup_insert_ne; [done|set_solver]|rewrite dom_insert_lookup_L; [done|by eexists]|done].
    apply segment_app with (m := Some l).
    + apply (segment_frame (rows_at s)); [done|]. intros x Hx. rewrite lookup_insert_ne; [done|]. intros ->. apply (Hdis _ Hx). set_solver.
    + cbn [segment]. split_and!; [done..|]. exists b', v. by rewrite lookup_insert_eq.
Qed.

Lemma allocate_bag_run (s : slot_state) b : exists l, allocate_bag b s = Ok (l, Slot (sl_value s) (Threadinfo (<[l := row_object b]> (rows_at s)) (limbo (sl_heap s)))) /\ rows_at s !! l = None.
Proof. exists (fresh (dom (rows_at s))). split; [done|]. apply fresh_not_in. Qed.

Lemma deallocate_bag_run (s : slot_state) l b : rows_at s !! l = Some (row_object b) -> bag_size 2 (vb_s b) = Ok (8 + len (vb_s b)) -> l ∉ limbo (sl_heap s) ->
  deallocate_bag l s = Ok (tt, Slot (sl_value s) (Threadinfo (delete l (rows_at s)) (limbo (sl_heap s)))).
Proof.
  intros Hl Hsz Hlim. unfold deallocate_bag. rewrite (bind_load s l b _ _ Hl), (bind_lift s _ _ _ Hsz). unfold on_heap, deallocate. cbn beta. by rewrite Hl, Z.eqb_refl, bool_decide_eq_false_2.
Qed.

(** ** Chains with their memory *)

(** The rows [ls] are on the heap beside those of [F], and none else. *)
Record owned (F : gmap loc (Z * object value_bag)) (s : slot_state) (ls : list loc) : Prop := Owned {
  own_nodup : NoDup ls;
  own_new l : l ∈ ls -> F !! l = None /\ is_Some (rows_at s !! l);
  own_frame l : l ∉ ls -> rows_at s !! l = F !! l;
  own_limbo l : l ∈ limbo (sl_heap s) -> is_Some (F !! l);
}.

Definition chain (F : gmap loc (Z * object value_bag)) (s : slot_state) (ls : list loc) (ds : list pending) (lb : list loc) (row : option (Z * list bytes)) : Prop :=
  exists q, segment (rows_at s) (sl_value s) ls ds q /\ base_at (rows_at s) q lb row /\ owned F s (ls ++ lb).

Lemma owned_perm F s ls ls' : owned F s ls -> ls ≡ₚ ls' -> owned F s ls'.
Proof. intros [H1 H2 H3 H4] Hp. split; [by rewrite <- Hp|intros l; rewrite <- Hp; auto|intros l; rewrite <- Hp; auto|done]. Qed.

Lemma owned_size F s ls : owned F s ls -> (length ls <= base.size (rows_at s))%nat.
Proof.
  intros [H1 H2 _ _]. rewrite <- (size_list_to_set (C := gset loc) ls) by done. rewrite <- size_dom. apply subseteq_size. intros l Hl. apply elem_of_dom, H2. by apply elem_of_list_to_set in Hl.
Qed.

(** The pointer in front of the rest of the chain, and the rows of the rest. *)
Lemma redirect F s ls ds q rest v : segment (rows_at s) (sl_value s) ls ds q -> owned F s (ls ++ rest) ->
  exists s', set_place (place_of ls) v s = Ok (tt, s') /\ segment (rows_at s') (sl_value s') ls ds v /\
    (forall l, l ∉ ls -> rows_at s' !! l = rows_at s !! l) /\ owned F s' (ls ++ rest).
Proof.
  intros Hs [H1 H2 H3 H4]. destruct (set_place_run s ls ds q v Hs) as (s' & Hset & Hs' & Hrest & Hdom & Hlim); [apply NoDup_app in H1; tauto|].
  exists s'. split_and!; [done..|]. split; [done| | |by rewrite Hlim].
  - intros l Hl. destruct (H2 l Hl) as [Hf Hin]. split; [done|]. apply elem_of_dom. rewrite Hdom. by apply elem_of_dom.
  - intros l Hl. rewrite <- H3 by done. apply Hrest. set_solver.
Qed.

Lemma free_row F s l rest b : owned F s (l :: rest) -> rows_at s !! l = Some (row_object b) -> bag_size 2 (vb_s b) = Ok (8 + len (vb_s b)) ->
  exists s', deallocate_bag l s = Ok (tt, s') /\ sl_value s' = sl_value s /\ (forall x, x <> l -> rows_at s' !! x = rows_at s !! x) /\ owned F s' rest.
Proof.
  intros [H1 H2 H3 H4] Hl Hsz. destruct (H2 l) as [Hf _]; [by left|]. apply NoDup_cons in H1 as [Hn H1]. eexists. split; [apply (deallocate_bag_run s l b Hl Hsz)|].
  - intros Hin. apply H4 in Hin as [? ?]. congruence.
  - cbn [sl_value sl_heap heap limbo]. split_and!; [done|intros x Hx; by rewrite lookup_delete_ne|]. split; cbn [sl_heap heap limbo]; [done| | |done].
    + intros x Hx. destruct (H2 x) as [H5 H6]; [by right|]. split; [done|]. rewrite lookup_delete_ne; [done|]. by intros ->.
    + intros x Hx. destruct (decide (x = l)) as [->|Hne]; [by rewrite lookup_delete_eq|]. rewrite lookup_delete_ne by done. apply H3. set_solver.
Qed.

(** A new row at a place. *)
Lemma place_row F s ls ds q rest b : segment (rows_at s) (sl_value s) ls ds q -> owned F s (ls ++ rest) ->
  exists l s', (let* l := allocate_bag b in set_place (place_of ls) (Some l)) s = Ok (tt, s') /\
    (forall A (k : loc -> sm slot_state A), (let* l := allocate_bag b in let* _ := set_place (place_of ls) (Some l) in k l) s = k l s') /\
    segment (rows_at s') (sl_value s') ls ds (Some l) /\ rows_at s' !! l = Some (row_object b) /\
    (forall x, x ∈ rest -> rows_at s' !! x = rows_at s !! x) /\ owned F s' (l :: ls ++ rest).
Proof.
  intros Hs Ho. destruct (allocate_bag_run s b) as (l & Ha & Hl). set (s1 := Slot _ _) in Ha.
  assert (l ∉ ls ++ rest) as Hnl by (intros Hin; apply (own_new _ _ _ Ho) in Hin as [_ [? ?]]; congruence).
  assert (owned F s1 (l :: ls ++ rest)) as Ho1.
  { destruct Ho as [H1 H2 H3 H4]. split; cbn [sl_heap heap limbo s1].
    - by apply NoDup_cons.
    - intros x [->|Hx]%elem_of_cons; [rewrite lookup_insert_eq; split; [by rewrite <- H3|by eexists]|]. destruct (H2 x Hx) as [H5 H6]. split; [done|]. rewrite lookup_insert_ne; [done|]. by intros ->.
    - intros x Hx. rewrite not_elem_of_cons in Hx. destruct Hx as [Hx1 Hx2]. rewrite lookup_insert_ne by done. by apply H3.
    - done. }
  assert (segment (rows_at s1) (sl_value s1) ls ds q) as Hs1.
  { apply (segment_frame (rows_at s)); [done|]. intros x Hx. cbn [sl_heap heap s1]. rewrite lookup_insert_ne; [done|]. intros ->. apply Hnl. set_solver. }
  destruct (redirect F s1 ls ds q (l :: rest) (Some l) Hs1) as (s' & Hset & Hs' & Hrest & Ho'); [by eapply owned_perm; [|apply Permutation_middle]|].
  exists l, s'. pose proof (own_nodup _ _ _ Ho') as Hnd. apply NoDup_app in Hnd as (_ & Hdis & _).
  split_and!; [by rewrite (sbind_run _ _ _ _ _ Ha)|intros A k; by rewrite (sbind_run _ _ _ _ _ Ha), (sbind_run _ _ _ _ _ Hset)|done| | |by eapply owned_perm; [|symmetry; apply Permutation_middle]].
  - rewrite Hrest by set_solver. cbn [sl_heap heap s1]. by rewrite lookup_insert_eq.
  - intros x Hx. rewrite Hrest by (intros Hx'; apply (Hdis _ Hx'); set_solver). cbn [sl_heap heap s1]. rewrite lookup_insert_ne; [done|]. intros ->. apply Hnl. set_solver.
Qed.

(** ** The loops *)

(** The pending modifications that a record of time [ts] comes before, and the others. *)
Definition comes_before (ts : Z) (d : pending) : bool := ts <? Z.lor (pd_ts d) 1.
Fixpoint newer_than (ts : Z) (ds : list pending) : list pending :=
  match ds with d :: ds => if comes_before ts d then d :: newer_than ts ds else [] | [] => [] end.
Fixpoint older_than (ts : Z) (ds : list pending) : list pending :=
  match ds with d :: ds' => if comes_before ts d then older_than ts ds' else ds | [] => [] end.

Lemma newer_older ts ds : newer_than ts ds ++ older_than ts ds = ds.
Proof. induction ds as [|d ds IH]; [done|]. cbn. destruct (comes_before ts d); cbn; by rewrite ?IH. Qed.

Lemma base_not_delta b t : vb_ts b = t -> Z.even t = true -> row_is_delta_marker b = Ok false.
Proof. intros <- He. unfold row_is_delta_marker, is_marker. by rewrite Z.bit0_odd, <- Z.negb_even, He. Qed.

Lemma find_point_run F s lb row ts : forall ds fuel la da m ls, segment (rows_at s) (sl_value s) la da m -> segment (rows_at s) m ls ds (hd_error lb) -> base_at (rows_at s) (hd_error lb) lb row ->
  owned F s (la ++ ls ++ lb) -> (length ds < fuel)%nat ->
  find_point fuel (place_of la) ts s = Ok (place_of (la ++ take (length (newer_than ts ds)) ls), s).
Proof.
  induction ds as [|d ds IH]; intros [|fuel] la da m ls Ha Hs Hb Ho Hf; try (cbn in Hf; lia); cbn [find_point]; rewrite (sbind_run _ _ _ _ _ (get_place_run s la da m Ha)).
  - destruct ls; [|done]. cbn in Hs. subst m. rewrite app_nil_r. destruct lb as [|l lb]; cbn [hd_error] in *; [done|].
    destruct row as [[t cs]|]; [|by destruct Hb]. destruct Hb as (l' & b & [= <-] & _ & Hl & Hr & Ht & He). rewrite (bind_load s l b _ _ Hl), (bind_lift s _ _ _ (base_not_delta b t Ht He)). done.
  - destruct ls as [|l ls]; [done|]. destruct Hs as (-> & Hd & b & p' & Hl & Hdb & Hs). rewrite (bind_load s l b _ _ Hl), (bind_lift s _ _ _ (delta_is_delta b d p' Hdb Hd)).
    destruct Hdb as (Ht & Hdb). rewrite Ht. cbn [andb newer_than]. fold (comes_before ts d). destruct (comes_before ts d); [|by rewrite take_0, app_nil_r].
    cbn [length take]. rewrite <- (place_of_snoc la l).
    replace (la ++ l :: take (length (newer_than ts ds)) ls) with ((la ++ [l]) ++ take (length (newer_than ts ds)) ls) by (by rewrite <- app_assoc). apply (IH fuel (la ++ [l]) (da ++ [d]) p').
    + eapply segment_app; [done|]. cbn [segment]. split_and!; [done..|]. by exists b, p'.
    + done.
    + done.
    + by rewrite <- app_assoc.
    + cbn in Hf. lia.
Qed.

(** Deleting what is behind a place. *)
Lemma delete_earlier_run F : forall ds fuel s la da m ls lb row, segment (rows_at s) (sl_value s) la da m -> segment (rows_at s) m ls ds (hd_error lb) ->
  base_at (rows_at s) (hd_error lb) lb row -> owned F s (la ++ ls ++ lb) -> (length ls + length lb < fuel)%nat ->
  exists s', delete_earlier fuel (place_of la) s = Ok (tt, s') /\ segment (rows_at s') (sl_value s') la da None /\ owned F s' la.
Proof.
  induction ds as [|d ds IH]; intros [|fuel] s la da m ls lb row Ha Hs Hb Ho Hf; try lia; cbn [delete_earlier]; rewrite (sbind_run _ _ _ _ _ (get_place_run s la da m Ha)).
  - destruct ls; [|done]. cbn in Hs. subst m. destruct lb as [|l lb]; cbn [hd_error] in *; [exists s; rewrite app_nil_r in Ho; by split_and!|].
    destruct row as [[t cs]|]; [|by destruct Hb]. destruct Hb as (l' & b & [= <-] & [= ->] & Hl & Hr & Ht & He). rewrite (bind_load s l b _ _ Hl), (bind_lift s _ _ _ (base_not_delta b t Ht He)).
    destruct (redirect F s la da (Some l) [l] None Ha Ho) as (s1 & Hset & Ha1 & Hrest & Ho1). rewrite (sbind_run _ _ _ _ _ Hset).
    assert (l ∉ la) as Hn by (pose proof (own_nodup _ _ _ Ho) as Hnd; apply NoDup_app in Hnd as (_ & Hdis & _); intros H; apply (Hdis _ H); set_solver).
    destruct (free_row F s1 l la b) as (s2 & Hfree & Hv & Hsame & Ho2); [by eapply owned_perm; [exact Ho1|]; rewrite Permutation_app_comm|by rewrite Hrest|by destruct Hr as [-> ?]; apply read_size; [lia|]|].
    rewrite (sbind_run _ _ _ _ _ Hfree). destruct fuel as [|fuel]; [cbn in Hf; lia|]. cbn [delete_earlier].
    assert (segment (rows_at s2) (sl_value s2) la da None) as Ha2 by (rewrite Hv; apply (segment_frame (rows_at s1)); [done|]; intros x Hx; apply Hsame; by intros ->).
    rewrite (sbind_run _ _ _ _ _ (get_place_run s2 la da None Ha2)). by exists s2.
  - destruct ls as [|l ls]; [done|]. destruct Hs as (-> & Hd & b & p' & Hl & Hdb & Hs). rewrite (bind_load s l b _ _ Hl), (bind_lift s _ _ _ (delta_is_delta b d p' Hdb Hd)).
    cbv iota. rewrite sbind_assoc, (bind_lift s _ _ _ (delta_prev_is b d p' Hdb Hd)).
    destruct (redirect F s la da (Some l) ((l :: ls) ++ lb) p' Ha Ho) as (s1 & Hset & Ha1 & Hrest & Ho1). rewrite (sbind_run _ _ _ _ _ Hset).
    pose proof (own_nodup _ _ _ Ho) as Hnd. apply NoDup_app in Hnd as (_ & Hdis & Hnd). cbn [app] in Hnd. apply NoDup_cons in Hnd as [Hnl Hnd].
    assert (l ∉ la) as Hn by (intros H; apply (Hdis _ H); set_solver).
    destruct (free_row F s1 l (la ++ ls ++ lb) b) as (s2 & Hfree & Hv & Hsame & Ho2); [by eapply owned_perm; [exact Ho1|]; symmetry; apply Permutation_middle|by rewrite Hrest|by apply (delta_size b d p')|].
    rewrite (sbind_run _ _ _ _ _ Hfree). apply (IH fuel s2 la da p' ls lb row).
    + rewrite Hv. apply (segment_frame (rows_at s1)); [done|]. intros x Hx. apply Hsame. by intros ->.
    + apply (segment_frame (rows_at s)); [done|]. intros x Hx. rewrite Hsame by (intros ->; set_solver). apply Hrest. intros Hx'. apply (Hdis _ Hx'). set_solver.
    + apply (base_frame (rows_at s)); [done|]. intros x Hx. rewrite Hsame by (intros ->; set_solver). apply Hrest. intros Hx'. apply (Hdis _ Hx'). set_solver.
    + done.
    + cbn in Hf. lia.
Qed.

(** The last marker. *)
Lemma last_delta_run s lb row : base_at (rows_at s) (hd_error lb) lb row -> forall ds fuel la da m ls l d prev, segment (rows_at s) (sl_value s) la da m -> segment (rows_at s) m (ls ++ [l]) (ds ++ [d]) (hd_error lb) ->
  (length ds + 1 < fuel)%nat -> last_delta fuel prev (place_of la) s = Ok ((place_of (la ++ ls), InMarker l), s).
Proof.
  intros Hb. induction ds as [|d0 ds IH]; intros [|fuel] la da m ls l d prev Ha Hs Hf; try lia; cbn [last_delta]; rewrite (sbind_run _ _ _ _ _ (get_place_run s la da m Ha)).
  - destruct ls as [|l0 ls]; [|apply segment_length in Hs; rewrite !length_app in Hs; cbn in Hs; lia]. cbn [app] in *. destruct Hs as (-> & Hd & b & p' & Hl & Hdb & ->).
    rewrite (bind_load s l b _ _ Hl), (bind_lift s _ _ _ (delta_is_delta b d _ Hdb Hd)). cbv iota. rewrite app_nil_r. destruct fuel as [|fuel]; [cbn in Hf; lia|]. cbn [last_delta].
    assert (get_place (InMarker l) s = Ok (hd_error lb, s)) as Hg by (cbn [get_place]; rewrite (bind_load s l b _ _ Hl); by apply lift_run, (delta_prev_is b d)).
    rewrite (sbind_run _ _ _ _ _ Hg). destruct lb as [|l1 lb]; [done|]. cbn [hd_error] in *. destruct row as [[t cs]|]; [|by destruct Hb].
    destruct Hb as (l' & b1 & [= <-] & _ & Hl1 & Hr & Ht & He). rewrite (bind_load s l1 b1 _ _ Hl1), (bind_lift s _ _ _ (base_not_delta b1 t Ht He)). done.
  - destruct ls as [|l0 ls]; [apply segment_length in Hs; rewrite !length_app in Hs; cbn in Hs; lia|]. cbn [app] in Hs. destruct Hs as (-> & Hd & b & p' & Hl & Hdb & Hs).
    rewrite (bind_load s l0 b _ _ Hl), (bind_lift s _ _ _ (delta_is_delta b d0 _ Hdb Hd)). cbv iota. rewrite <- (place_of_snoc la l0). replace (la ++ l0 :: ls) with ((la ++ [l0]) ++ ls) by (by rewrite <- app_assoc).
    apply (IH fuel (la ++ [l0]) (da ++ [d0]) p' ls l d); [|done|cbn in Hf; lia]. eapply segment_app; [done|]. cbn [segment]. split_and!; [done..|]. by exists b, p'.
Qed.

(** ** Merging *)

(** What the pending modifications, the earliest first, become with the row behind
    them. *)
Fixpoint settle (ps : list pending) (row : option (Z * list bytes)) : list pending * option (Z * list bytes) :=
  match ps, row with
  | d :: ps', Some (t, cs) => if pd_prev d =? t then settle ps' (Some (pd_ts d, apply_changes cs (pd_changes d))) else (ps, row)
  | _, _ => (ps, row)
  end.

Lemma row_size b cs : represents 2 b cs -> bag_size 2 (vb_s b) = Ok (8 + len (vb_s b)).
Proof. intros [-> Hf]. by apply read_size; [lia|]. Qed.

(** A changed row in place of the row [lb] behind the markers [ls]; [more] is a
    marker that goes with it. *)
Lemma base_row l b t cs h : h !! l = Some (row_object b) -> represents 2 b cs -> vb_ts b = t -> Z.even t = true -> base_at h (Some l) [l] (Some (t, cs)).
Proof. intros. by exists l, b. Qed.

Section rows.
(** Rows that come up: their columns fit, and modifications lead to others. *)
Context (junk : nat -> bytes) (Hjunk : forall n, length (junk n) = n).
Context (good : Z -> list bytes -> Prop) (change : pending -> Prop).
Context (good_fits : forall t cs, good t cs -> fits 2 cs /\ Z.even t = true /\ 0 <= t < 2 ^ 63).
Context (good_next : forall d cs, change d -> good (pd_prev d) cs -> good (pd_ts d) (apply_changes cs (pd_changes d))).

Definition row_good (row : option (Z * list bytes)) : Prop := match row with Some (t, cs) => good t cs | None => True end.

Lemma changed_row d cs b (k : Z) : change d -> pending_ok d -> good (pd_prev d) cs -> represents 2 b cs ->
  exists it b', parse_changeset (pd_val d) = Ok it /\ ValueBag.update 2 junk b it k = Ok b' /\ represents 2 b' (apply_changes cs (pd_changes d)) /\ vb_ts b' = k.
Proof using Hjunk good_fits good_next.
  intros Hc ((it & Hp & Hch & Hord) & _) Hg Hr. destruct (update_represents 2 junk b cs (pd_changes d) it k) as (b' & Hu & Hr' & Ht); [lia|done..| |done|].
  - by apply (good_fits (pd_ts d)), good_next.
  - by exists it, b'.
Qed.

Lemma merge_run F s ls l ds d lb row : chain F s (ls ++ [l]) (ds ++ [d]) lb row -> change d -> row_good row ->
  (exists t cs s' l', row = Some (t, cs) /\ pd_prev d = t /\ merge_delta junk (place_of ls) (InMarker l) s = Ok (true, s') /\ chain F s' ls ds [l'] (Some (pd_ts d, apply_changes cs (pd_changes d)))) \/
  (settle [d] row = ([d], row) /\ merge_delta junk (place_of ls) (InMarker l) s = Ok (false, s)).
Proof using Hjunk good_fits good_next.
  intros (q & Hs & Hb & Ho) Hc Hg. pose proof (segment_last _ _ _ _ _ _ _ Hs) as (Hs1 & Hd & b & Hl & Hdb). unfold merge_delta.
  rewrite (sbind_run _ _ _ _ _ (get_place_run s ls ds (Some l) Hs1)).
  assert (get_place (InMarker l) s = Ok (q, s)) as Hg2 by (cbn [get_place]; rewrite (bind_load s l b _ _ Hl); by apply lift_run, (delta_prev_is b d)).
  rewrite (sbind_run _ _ _ _ _ Hg2). destruct row as [[t cs]|]; [|right; destruct Hb as [-> _]; done].
  destruct Hb as (lt & bt & -> & -> & Hlt & Hr & Ht & He). rewrite (bind_load s l b _ _ Hl), (bind_load s lt bt _ _ Hlt), (bind_lift s _ _ _ (delta_prev_ts_is b d _ Hdb Hd)), Ht.
  cbn [settle]. destruct (Z.eqb_spec (pd_prev d) t) as [Heq|Hne]; [left|right; done].
  destruct (changed_row d cs bt (pd_ts d)) as (it & b' & Hp & Hu & Hr' & Ht'); [done|done|rewrite Heq; exact Hg|done|].
  assert (Word.subw 64 (vb_ts b) 1 = pd_ts d) as Hts.
  { destruct Hdb as [-> _]. destruct Hd as (_ & Hev & Hrg & _). rewrite lor_even by done. unfold Word.subw. rewrite Word.wrap_small by (split; lia). lia. }
  rewrite (bind_lift s _ _ _ (delta_change_is b d _ Hdb Hd)), (bind_lift s _ _ _ Hp), Hts, (bind_lift s _ _ _ Hu).
  rewrite <- app_assoc in Ho. destruct (place_row F s ls ds (Some l) [l; lt] b' Hs1 Ho) as (l' & s1 & _ & Hrun & Hs2 & Hl' & Hsame & Ho1).
  destruct (free_row F s1 lt (l :: l' :: ls) bt) as (s2 & Hf2 & Hv2 & Hsame2 & Ho2).
  { eapply owned_perm; [exact Ho1|]. change (l' :: ls ++ [l; lt]) with ((l' :: ls) ++ [l; lt]). rewrite Permutation_app_comm. apply perm_swap. }
  { rewrite Hsame by set_solver. done. }
  { by apply (row_size bt cs). }
  pose proof (own_nodup _ _ _ Ho1) as Hnd. pose proof (own_nodup _ _ _ Ho) as Hnd0. apply NoDup_app in Hnd0 as (_ & Hdis & Hlt2). apply NoDup_cons in Hlt2 as [Hllt _].
  destruct (free_row F s2 l (l' :: ls) b) as (s3 & Hf3 & Hv3 & Hsame3 & Ho3); [done|rewrite Hsame2, Hsame by set_solver; done|by apply (delta_size b d (Some lt))|].
  apply NoDup_cons in Hnd as [Hl'n _].
  exists t, cs, s3, l'. split; [done|]. split; [done|]. split.
  - by rewrite Hrun, (sbind_run _ _ _ _ _ Hf2), (sbind_run _ _ _ _ _ Hf3).
  - exists (Some l'). assert (forall x, x <> l -> x <> lt -> rows_at s3 !! x = rows_at s1 !! x) as Hs31 by (intros x H1 H2; by rewrite Hsame3, Hsame2).
    split_and!; [|eapply base_row; [|done..|]|].
    + rewrite Hv3, Hv2. apply (segment_frame (rows_at s1)); [done|]. intros x Hx. apply Hs31; intros ->; apply (Hdis _ Hx); set_solver.
    + rewrite Hs31 by (intros ->; set_solver). done.
    + by apply (good_fits (pd_ts d) (apply_changes cs (pd_changes d))), good_next; [|rewrite Heq].
    + by eapply owned_perm; [exact Ho3|]; rewrite Permutation_app_comm.
Qed.

Lemma base_hd h q lb row : base_at h q lb row -> q = hd_error lb.
Proof. destruct row as [[t cs]|]; [by intros (l & b & -> & -> & _)|by intros [-> ->]]. Qed.

Lemma clean_up_run F : forall ds fuel s ls lb row, chain F s ls ds lb row -> Forall change ds -> row_good row -> (length ds < fuel)%nat ->
  exists s' ls' lb', clean_up junk fuel s = Ok (tt, s') /\ chain F s' ls' (rev (settle (rev ds) row).1) lb' (settle (rev ds) row).2.
Proof using Hjunk good_fits good_next.
  induction ds as [|d ds IH] using rev_ind; intros [|fuel] s ls lb row Hc Hch Hg Hf; try lia; cbn [clean_up get_place]; unfold sbind at 1, sm_bind at 1.
  - exists s, ls, lb. split; [|by destruct row]. destruct Hc as (q & Hs & Hb & _). destruct ls; [|done]. cbn in Hs. rewrite Hs. destruct row as [[t cs]|]; [|by destruct Hb as [-> _]].
    destruct Hb as (l & b & -> & _ & Hl & Hr & Ht & He). by rewrite (bind_load s l b _ _ Hl), (bind_lift s _ _ _ (base_not_delta b t Ht He)).
  - pose proof Hc as (q & Hs & Hb & Ho). rewrite length_app in Hf. cbn in Hf. apply Forall_app in Hch as [Hch Hd]. apply Forall_cons in Hd as [Hd _].
    destruct ls as [|l ls _] using rev_ind; [apply segment_length in Hs; rewrite length_app in Hs; cbn in Hs; lia|].
    assert (exists l0 b0 d0 p0, sl_value s = Some l0 /\ rows_at s !! l0 = Some (row_object b0) /\ is_delta b0 d0 p0 /\ pending_ok d0) as (l0 & b0 & d0 & p0 & Hv & Hl0 & Hd0 & Hok).
    { destruct ls, ds; cbn [segment app] in Hs; destruct Hs as (Hv & Hok & b1 & p1 & Hl1 & Hd1 & _); by eexists _, b1, _, p1. }
    rewrite Hv, (bind_load s l0 b0 _ _ Hl0), (bind_lift s _ _ _ (delta_is_delta b0 d0 p0 Hd0 Hok)). cbv iota. unfold chain_fuel. unfold sbind at 1, sm_bind at 1.
    pose proof (base_hd _ _ _ _ Hb) as ->. pose proof (owned_size _ _ _ Ho) as Hsz. pose proof (segment_length _ _ _ _ _ Hs) as Hlen. rewrite !length_app in Hlen, Hsz. cbn in Hlen, Hsz.
    pose proof (last_delta_run s lb row Hb ds (S (base.size (rows_at s))) [] [] (sl_value s) ls l d InSlot eq_refl Hs ltac:(lia)) as Hlast.
    change (place_of []) with InSlot in Hlast. rewrite (sbind_run _ _ _ _ _ Hlast). cbn [app]. rewrite rev_app_distr. cbn [rev app].
    destruct (merge_run F s ls l ds d lb row Hc Hd Hg) as [(t & cs & s' & l' & -> & Heq & Hm & Hc')|[Hset Hm]]; rewrite (sbind_run _ _ _ _ _ Hm).
    + cbn [settle]. rewrite (proj2 (Z.eqb_eq _ _)) by done. apply (IH fuel s' ls [l']); [done|done| |lia]. cbn. subst t. by apply good_next.
    + exists s, (ls ++ [l]), lb. split; [done|]. assert (settle (d :: rev ds) row = (d :: rev ds, row)) as ->.
      { revert Hset. cbn [settle]. destruct row as [[t cs]|]; [|done]. by destruct (Z.eqb_spec (pd_prev d) t). }
      cbn [fst snd]. rewrite rev_involutive || (cbn [rev]; rewrite rev_involutive). done.
Qed.

(** ** Records *)

(** What a record does to the row: it makes a whole one, or changes the one that has
    the time stamp it was made for. *)
Inductive effect := Whole (t : Z) (cs : list bytes) | Part (d : pending).

Definition effect_ts (e : effect) : Z := match e with Whole t _ => t | Part d => pd_ts d end.

Definition record_effect (lr : logrecord) (before : bytes) (e : effect) : Prop :=
  match e with
  | Whole t cs => lr_ts lr = t /\ good t cs /\
      (lr_command lr = logcmd_replace /\ cs = [lr_val lr] \/
       lr_command lr = logcmd_put /\ exists chs, changes_of (lr_val lr) chs /\ cs = apply_changes [] chs)
  | Part d => lr_command lr = logcmd_modify /\ pending_ok d /\ change d /\ lr_ts lr = pd_ts d /\ lr_prev_ts lr = pd_prev d /\ lr_val lr = pd_val d /\
      Z.even (pd_prev d) = true /\ (24 <= length before)%nat
  end.

(** The row behind the pending modifications has the record, or a later one. *)
Definition out_of_date (e : effect) (ds : list pending) (row : option (Z * list bytes)) : bool :=
  match older_than (effect_ts e) ds, row with [], Some (t, _) => effect_ts e <=? t | _, _ => false end.

(** The record among the pending modifications and the row, before anything is merged. *)
Definition insert_effect (e : effect) (ds : list pending) (row : option (Z * list bytes)) : list pending * option (Z * list bytes) :=
  let n := newer_than (effect_ts e) ds in
  match e with
  | Whole t cs => (n, Some (t, cs))
  | Part d =>
    match older_than (effect_ts e) ds, row with
    | [], Some (t, cs) => if pd_prev d =? t then (n, Some (pd_ts d, apply_changes cs (pd_changes d))) else (n ++ [d], row)
    | r, _ => (n ++ d :: r, row)
    end
  end.

Definition apply_effect (e : effect) (ds : list pending) (row : option (Z * list bytes)) : list pending * option (Z * list bytes) :=
  if out_of_date e ds row then (ds, row)
  else
    let i := insert_effect e ds row in
    let p := settle (rev i.1) i.2 in (rev p.1, p.2).

Lemma apply_whole F s ls ds lr before t cs : segment (rows_at s) (sl_value s) ls ds None -> owned F s ls -> record_effect lr before (Whole t cs) ->
  exists s' l, apply_at junk (place_of ls) lr before s = Ok (tt, s') /\ chain F s' ls ds [l] (Some (t, cs)).
Proof using Hjunk good_fits.
  intros Hs Ho (Ht & Hg & Hcmd). pose proof (good_fits t cs Hg) as (Hf & He & _).
  assert (exists b, represents 2 b cs /\ vb_ts b = t /\
    forall k, apply_at junk (place_of ls) lr before s = k -> (let* l := allocate_bag b in set_place (place_of ls) (Some l)) s = k) as (b & Hr & Hb & Hk).
  { unfold apply_at. rewrite (sbind_run _ _ _ _ _ (get_place_run s ls ds None Hs)). destruct Hcmd as [[-> ->]|[-> (chs & (it & Hp & Hch & Hord) & ->)]].
    - change (logcmd_replace =? logcmd_replace) with true. cbv iota.
      destruct (create1_represents 2 junk (lr_val lr) (lr_ts lr)) as (b & Hc & Hr & Hb); [lia|done| |].
      { destruct Hf as [Hf _]. revert Hf. unfold base, sizeof_bagdata. cbn [length concat]. rewrite app_nil_r. lia. }
      exists b. rewrite Hb. split_and!; [done|done|]. intros k <-. by rewrite (bind_lift s _ _ _ Hc).
    - change (logcmd_put =? logcmd_replace) with false. change (negb (logcmd_put =? logcmd_modify)) with true. cbv iota. rewrite sbind_ret. cbv iota. rewrite (bind_lift s _ _ _ Hp).
      destruct (update_represents 2 junk (empty_bag 2) [] chs it (lr_ts lr)) as (b & Hc & Hr & Hb); [lia|apply empty_bag_represents; lia|done..|].
      exists b. rewrite Hb. split_and!; [done|done|]. intros k <-. by rewrite (bind_lift s (ValueBag.create 2 junk it (lr_ts lr)) b _ Hc). }
  destruct (place_row F s ls ds None [] b Hs) as (l & s' & Hrun & _ & Hs' & Hl & _ & Ho'); [by rewrite app_nil_r|].
  exists s', l. rewrite (Hk _ eq_refl) in Hrun. split; [done|]. exists (Some l). split_and!; [done|by eapply base_row|]. rewrite app_nil_r in Ho'. by eapply owned_perm; [exact Ho'|]; rewrite Permutation_app_comm.
Qed.

Lemma apply_update F s ls ds lb lr before d cs : chain F s ls ds lb (Some (pd_prev d, cs)) -> good (pd_prev d) cs -> record_effect lr before (Part d) ->
  exists s' l, apply_at junk (place_of ls) lr before s = Ok (tt, s') /\ chain F s' ls ds [l] (Some (pd_ts d, apply_changes cs (pd_changes d))).
Proof using Hjunk good_fits good_next.
  intros (q & Hs & Hb & Ho) Hg (Hcmd & Hd & Hc & Ht & Hp & Hv & _). destruct Hb as (lo & bo & -> & -> & Hlo & Hr & Hto & Heo).
  destruct (changed_row d cs bo (pd_ts d)) as (it & b & Hparse & Hu & Hrb & Htb); [done..|].
  pose proof (good_fits (pd_ts d) _ (good_next d cs Hc Hg)) as (_ & He & _).
  destruct (place_row F s ls ds (Some lo) [lo] b Hs Ho) as (l & s1 & _ & Hrun & Hs1 & Hl & Hsame & Ho1).
  destruct (free_row F s1 lo (l :: ls) bo) as (s2 & Hfree & Hv2 & Hsame2 & Ho2); [by eapply owned_perm; [exact Ho1|]; change (l :: ls ++ [lo]) with ((l :: ls) ++ [lo]); rewrite Permutation_app_comm|by rewrite Hsame by set_solver|by apply (row_size bo cs)|].
  pose proof (own_nodup _ _ _ Ho1) as Hnd. apply NoDup_cons in Hnd as [Hnl Hnd]. apply NoDup_app in Hnd as (_ & Hdis & _).
  exists s2, l. split.
  - unfold apply_at. rewrite (sbind_run _ _ _ _ _ (get_place_run s ls ds (Some lo) Hs)), Hcmd. change (logcmd_modify =? logcmd_replace) with false. change (logcmd_modify =? logcmd_modify) with true. cbn [negb].
    cbv iota. rewrite sbind_assoc, (bind_load s lo bo _ _ Hlo), sbind_ret, Hto, Hp, Z.eqb_refl, Hv, (bind_lift s _ _ _ Hparse). cbv iota.
    rewrite (bind_load s lo bo _ _ Hlo), Ht, (bind_lift s _ _ _ Hu), Hrun. exact Hfree.
  - exists (Some l). split_and!; [|eapply base_row; [|done..]|by eapply owned_perm; [exact Ho2|]; rewrite Permutation_app_comm].
    + rewrite Hv2. apply (segment_frame (rows_at s1)); [done|]. intros x Hx. apply Hsame2. intros ->. apply (Hdis _ Hx). set_solver.
    + rewrite Hsame2; [done|]. intros ->. set_solver.
Qed.

Lemma apply_delta F s ls1 ds1 m ls2 ds2 q lb row lr before d : segment (rows_at s) (sl_value s) ls1 ds1 m -> segment (rows_at s) m ls2 ds2 q -> base_at (rows_at s) q lb row ->
  owned F s ((ls1 ++ ls2) ++ lb) -> record_effect lr before (Part d) -> (ds2 = [] -> forall t cs, row = Some (t, cs) -> t <> pd_prev d) ->
  exists s' l, apply_at junk (place_of ls1) lr before s = Ok (tt, s') /\ chain F s' (ls1 ++ l :: ls2) (ds1 ++ d :: ds2) lb row.
Proof using Hjunk good_fits good_next.
  intros Hs1 Hs2 Hb Ho (Hcmd & Hd & Hc & Ht & Hp & Hv & Hev & Hbefore) Hno.
  destruct (make_delta junk d (drop (length before - 24) before) m Hjunk Hd) as (b0 & b & Hb0 & Hset & Hdb); [rewrite length_drop; lia|].
  rewrite <- app_assoc in Ho. destruct (place_row F s ls1 ds1 m (ls2 ++ lb) b Hs1 Ho) as (l & s' & Hrun & _ & Hs' & Hl & Hsame & Ho').
  exists s', l. split.
  - unfold apply_at. rewrite (sbind_run _ _ _ _ _ (get_place_run s ls1 ds1 m Hs1)), Hcmd. change (logcmd_modify =? logcmd_replace) with false. change (logcmd_modify =? logcmd_modify) with true. cbn [negb]. cbv iota.
    assert ((match m with Some l => let* b := load_bag l in mret (vb_ts b =? lr_prev_ts lr) | None => mret false end) s = Ok (false, s)) as Hfits.
    { rewrite Hp. destruct ds2 as [|d2 ds2]; (destruct ls2 as [|l2 ls2]; [|]); try done.
      - cbn in Hs2. subst m. destruct row as [[t cs]|]; [|by destruct Hb as [-> _]]. destruct Hb as (lo & bo & -> & _ & Hlo & _ & Hto & _).
        rewrite (bind_load s lo bo _ _ Hlo), Hto, (proj2 (Z.eqb_neq _ _)) by (by eapply Hno). done.
      - destruct Hs2 as (-> & Hd2 & b2 & p2 & Hl2 & [Ht2 _] & _). rewrite (bind_load s l2 b2 _ _ Hl2), Ht2, (proj2 (Z.eqb_neq _ _)); [done|].
        intros Heq. pose proof (odd_lor (pd_ts d2)) as Hodd. rewrite Heq, Z.bit0_odd, <- Z.negb_even, Hev in Hodd. done. }
    rewrite (sbind_run _ _ _ _ _ Hfits), Ht, Hp, Hv. cbv iota. change (Z.to_nat sizeof_delta_marker) with 24%nat.
    rewrite (bind_lift s _ _ _ Hb0), (bind_lift s _ _ _ Hset). exact Hrun.
  - assert (forall x, x ∈ ls2 ++ lb -> rows_at s' !! x = rows_at s !! x) as Hsame' by exact Hsame.
    exists q. split_and!; [|apply (base_frame (rows_at s)); [done|]; intros x Hx; apply Hsame'; set_solver|].
    + eapply segment_app; [exact Hs'|]. cbn [segment]. split_and!; [done..|]. exists b, m. split_and!; [done..|]. apply (segment_frame (rows_at s)); [done|]. intros x Hx. apply Hsame'. set_solver.
    + eapply owned_perm; [exact Ho'|]. rewrite <- app_assoc. cbn [app]. apply Permutation_middle.
Qed.

Lemma effect_even lr before e : record_effect lr before e -> lr_ts lr = effect_ts e /\ Z.even (effect_ts e) = true.
Proof using good_fits.
  destruct e as [t cs|d]; cbn [record_effect effect_ts]; [intros (-> & Hg & _); split; [done|by apply good_fits in Hg as (_ & ? & _)]|].
  intros (_ & Hd & _ & -> & _). split; [done|]. by destruct Hd as (_ & ? & _).
Qed.

Lemma older_head ts d ds r : older_than ts ds = d :: r -> Z.even ts = true -> Z.lor (pd_ts d) 1 < ts.
Proof.
  induction ds as [|d0 ds IH]; [done|]. cbn. destruct (comes_before ts d0) eqn:E; [done|]. intros [= -> ->] He. unfold comes_before in E. apply Z.ltb_ge in E.
  pose proof (odd_lor (pd_ts d)) as Hodd. rewrite Z.bit0_odd, <- Z.negb_even in Hodd. assert (Z.lor (pd_ts d) 1 <> ts) by (intros Heq; rewrite Heq, He in Hodd; done). lia.
Qed.

Lemma insert_good lr before e ds row : record_effect lr before e -> Forall change ds -> row_good row ->
  Forall change (insert_effect e ds row).1 /\ row_good (insert_effect e ds row).2.
Proof using good_next.
  intros He Hds Hg. rewrite <- (newer_older (effect_ts e) ds) in Hds. apply Forall_app in Hds as [Hn Hr].
  unfold insert_effect. destruct e as [t cs|d]; cbn [record_effect effect_ts] in *; [by destruct He as (_ & Hgt & _)|].
  destruct He as (_ & _ & Hc & _). assert (forall r, Forall change r -> Forall change (newer_than (pd_ts d) ds ++ d :: r)) as Happ by (intros r Hr'; apply Forall_app; split; [done|by constructor]).
  destruct (older_than (pd_ts d) ds) as [|d' r]; [|by split; [apply Happ|]]. destruct row as [[t0 cs0]|]; [|by split; [apply Happ|]].
  destruct (Z.eqb_spec (pd_prev d) t0) as [Heq|]; [|by split; [apply Happ|]]. cbn [fst snd row_good]. split; [done|]. apply good_next; [done|]. by rewrite Heq.
Qed.

(** The record's place in the chain. *)
Lemma apply_found F s ls ds lb row lr before e : chain F s ls ds lb row -> record_effect lr before e ->
  exists ls1 ls2 m, ls = ls1 ++ ls2 /\ segment (rows_at s) (sl_value s) ls1 (newer_than (effect_ts e) ds) m /\ segment (rows_at s) m ls2 (older_than (effect_ts e) ds) (hd_error lb) /\
    LogApply.apply junk lr before s =
      if out_of_date e ds row then Ok (tt, s)
      else (let* _ := (if negb (lr_command lr =? logcmd_modify) then delete_earlier (S (base.size (rows_at s))) (place_of ls1) else mret tt) in
            let* _ := apply_at junk (place_of ls1) lr before in let* n := chain_fuel in clean_up junk n) s.
Proof using good_fits.
  intros (q & Hs & Hb & Ho) He. pose proof (base_hd _ _ _ _ Hb) as ->. destruct (effect_even _ _ _ He) as [Hts Hev].
  pose proof (newer_older (effect_ts e) ds) as Hno. pose proof Hs as Hs0. rewrite <- Hno in Hs0. destruct (segment_split _ _ _ _ _ _ Hs0) as (ls1 & ls2 & m & -> & Hs1 & Hs2).
  exists ls1, ls2, m. split_and!; [done..|]. unfold LogApply.apply, chain_fuel at 1. unfold sbind at 1, sm_bind at 1.
  pose proof (owned_size _ _ _ Ho) as Hsz. pose proof (segment_length _ _ _ _ _ Hs) as Hlen. rewrite !length_app in Hsz. rewrite length_app in Hlen.
  pose proof (find_point_run F s lb row (effect_ts e) ds (S (base.size (rows_at s))) [] [] (sl_value s) (ls1 ++ ls2) eq_refl Hs Hb Ho ltac:(lia)) as Hfind.
  rewrite <- (segment_length _ _ _ _ _ Hs1), take_app_length in Hfind. change (place_of []) with InSlot in Hfind. rewrite Hts, (sbind_run _ _ _ _ _ Hfind). cbn [app].
  rewrite (sbind_run _ _ _ _ _ (get_place_run s ls1 _ m Hs1)).
  assert ((match m with Some l => let* b := load_bag l in mret (effect_ts e <=? vb_ts b) | None => mret false end) s = Ok (out_of_date e ds row, s)) as Hold.
  { unfold out_of_date. destruct (older_than (effect_ts e) ds) as [|d r] eqn:Er; (destruct ls2 as [|l ls2]; [|]); try done.
    - cbn in Hs2. subst m. destruct row as [[t cs]|]; [|by destruct Hb as [-> _]]. destruct Hb as (l & b & -> & _ & Hl & _ & Ht & _). by rewrite (bind_load s l b _ _ Hl), Ht.
    - destruct Hs2 as (-> & Hd & b & p & Hl & [Ht _] & _). rewrite (bind_load s l b _ _ Hl), Ht. pose proof (older_head _ _ _ _ Er Hev). rewrite (proj2 (Z.leb_gt _ _)) by lia. by destruct row as [[? ?]|]. }
  rewrite (sbind_run _ _ _ _ _ Hold). by destruct (out_of_date e ds row).
Qed.

(** Applying a record. *)
Lemma apply_run F s ls ds lb row lr before e : chain F s ls ds lb row -> record_effect lr before e -> Forall change ds -> row_good row ->
  exists s' ls' lb', LogApply.apply junk lr before s = Ok (tt, s') /\ chain F s' ls' (apply_effect e ds row).1 lb' (apply_effect e ds row).2.
Proof using Hjunk good_fits good_next.
  intros Hc He Hds Hg. destruct (apply_found F s ls ds lb row lr before e Hc He) as (ls1 & ls2 & m & -> & Hs1 & Hs2 & ->). unfold apply_effect.
  destruct (out_of_date e ds row); [by exists s, (ls1 ++ ls2), lb|]. destruct (insert_good lr before e ds row He Hds Hg) as [Hds' Hg'].
  assert (exists s1 ls' lb', (let* _ := (if negb (lr_command lr =? logcmd_modify) then delete_earlier (S (base.size (rows_at s))) (place_of ls1) else mret tt) in
     apply_at junk (place_of ls1) lr before) s = Ok (tt, s1) /\ chain F s1 ls' (insert_effect e ds row).1 lb' (insert_effect e ds row).2) as (s1 & ls' & lb' & Hrun & Hc1).
  { destruct Hc as (q & _ & Hb & Ho). pose proof (base_hd _ _ _ _ Hb) as ->. destruct e as [t cs|d]; cbn [effect_ts insert_effect] in *.
    - assert (negb (lr_command lr =? logcmd_modify) = true) as -> by (destruct He as (_ & _ & [[-> _]|[-> _]]); done).
      pose proof (owned_size _ _ _ Ho) as Hsz. rewrite !length_app in Hsz. rewrite <- app_assoc in Ho.
      destruct (delete_earlier_run F (older_than t ds) (S (base.size (rows_at s))) s ls1 (newer_than t ds) m ls2 lb row) as (s1 & Hdel & Hs1' & Ho1); [done..|lia|].
      destruct (apply_whole F s1 ls1 (newer_than t ds) lr before t cs Hs1' Ho1 He) as (s2 & l & Hat & Hc2). exists s2, ls1, [l]. by rewrite (sbind_run _ _ _ _ _ Hdel).
    - assert (negb (lr_command lr =? logcmd_modify) = false) as -> by (by destruct He as (-> & _)). rewrite sbind_ret.
      assert ((older_than (pd_ts d) ds = [] -> forall t cs, row = Some (t, cs) -> t <> pd_prev d) ->
        exists s1 ls' lb', apply_at junk (place_of ls1) lr before s = Ok (tt, s1) /\ chain F s1 ls' (newer_than (pd_ts d) ds ++ d :: older_than (pd_ts d) ds) lb' row) as Hdelta.
      { intros Hno. destruct (apply_delta F s ls1 _ m ls2 _ _ lb row lr before d Hs1 Hs2 Hb Ho He Hno) as (s1 & l & H1 & H2). by eexists _, _, _. }
      destruct (older_than (pd_ts d) ds) as [|d' r] eqn:Er; [|by apply Hdelta]. destruct row as [[t cs]|]; [|by apply Hdelta].
      destruct (Z.eqb_spec (pd_prev d) t) as [Heq|Hne]; [|apply Hdelta; intros _ t' cs' [= <- <-]; done]. subst t.
      destruct ls2; [|done]. cbn in Hs2. subst m. rewrite app_nil_r in Ho. assert (chain F s ls1 (newer_than (pd_ts d) ds) lb (Some (pd_prev d, cs))) as Hc0 by (by exists (hd_error lb)).
      destruct (apply_update F s ls1 _ lb lr before d cs Hc0 Hg He) as (s1 & l & H1 & H2). by exists s1, ls1, [l]. }
  rewrite <- (sbind_assoc (if negb _ then _ else _) (fun _ => apply_at junk (place_of ls1) lr before)), (sbind_run _ _ _ _ _ Hrun). unfold chain_fuel. unfold sbind at 1, sm_bind at 1.
  apply (clean_up_run F (insert_effect e ds row).1 _ s1 ls' lb'); [done..|]. destruct Hc1 as (q & Hs & _ & Ho). pose proof (owned_size _ _ _ Ho) as Hsz. rewrite length_app in Hsz.
  pose proof (segment_length _ _ _ _ _ Hs). lia.
Qed.
End rows.
