(* ===== verification/LogOrder.v ===== *)
(** * The log: replaying in any order

    The records of a key are spread over the logs of the threads that made them and
    are replayed in whatever order those are read.  The result is the row that the
    changes made in their own order. *)

From stdpp Require Import sorting.
From Stdlib Require Import Sorting.Sorted.
From S2P Require Export LogApplyFacts.

#[local] Open Scope Z_scope.
#[local] Open Scope lhm_scope.

(** ** The history of a key *)

(** The row after a change of the row before. *)
Definition changed (e : effect) (prev : option (Z * list bytes)) : Z * list bytes :=
  match e, prev with
  | Whole t cs, _ => (t, cs)
  | Part d, Some (_, cs) => (pd_ts d, apply_changes cs (pd_changes d))
  | Part d, None => (pd_ts d, [])
  end.

(** A change that follows the row [prev]: later, even and of columns that fit; and a
    modification is of that row. *)
Definition follows (e : effect) (prev : option (Z * list bytes)) : Prop :=
  (forall t cs, prev = Some (t, cs) -> t < effect_ts e) /\ fits 2 (changed e prev).2 /\ Z.even (effect_ts e) = true /\ 0 <= effect_ts e < 2 ^ 63 /\
  match e with Whole _ _ => True | Part d => exists cs, prev = Some (pd_prev d, cs) end.

Fixpoint history (prev : option (Z * list bytes)) (es : list effect) : Prop :=
  match es with [] => True | e :: es => follows e prev /\ history (Some (changed e prev)) es end.
(** The rows in between, and the last one. *)
Fixpoint states (prev : option (Z * list bytes)) (es : list effect) : list (Z * list bytes) :=
  match es with [] => [] | e :: es => changed e prev :: states (Some (changed e prev)) es end.
Fixpoint final (prev : option (Z * list bytes)) (es : list effect) : option (Z * list bytes) :=
  match es with [] => prev | e :: es => final (Some (changed e prev)) es end.

Lemma changed_ts e prev : (changed e prev).1 = effect_ts e.
Proof. destruct e; [done|]. by destruct prev as [[? ?]|]. Qed.

Lemma history_later es : forall prev e t cs, history prev es -> prev = Some (t, cs) -> e ∈ es -> t < effect_ts e.
Proof.
  induction es as [|e0 es IH]; intros prev e t cs Hh -> He; [by apply elem_of_nil in He|]. destruct Hh as [[Hf _] Hh].
  apply elem_of_cons in He as [->|He]; [by eapply Hf|]. specialize (Hf t cs eq_refl). pose proof (changed_ts e0 (Some (t, cs))) as Hc.
  destruct (changed e0 (Some (t, cs))) as [t' cs'] eqn:E. cbn in Hc. subst t'. specialize (IH _ e _ _ Hh eq_refl He). lia.
Qed.

Lemma history_unique es : forall prev e e', history prev es -> e ∈ es -> e' ∈ es -> effect_ts e = effect_ts e' -> e = e'.
Proof.
  induction es as [|e0 es IH]; intros prev e e' Hh He He' Ht; [by apply elem_of_nil in He|]. destruct Hh as [Hf Hh]. pose proof (changed_ts e0 prev) as Hc. destruct (changed e0 prev) as [t' cs'] eqn:E. cbn in Hc. subst t'.
  apply elem_of_cons in He as [->|He], He' as [->|He']; [done| | |by eapply IH].
  - pose proof (history_later _ _ _ _ _ Hh eq_refl He'). lia.
  - pose proof (history_later _ _ _ _ _ Hh eq_refl He). lia.
Qed.

Lemma states_effect es : forall prev t cs, (t, cs) ∈ states prev es -> exists e, e ∈ es /\ effect_ts e = t.
Proof.
  induction es as [|e0 es IH]; intros prev t cs Hs; cbn in Hs; [by apply elem_of_nil in Hs|]. apply elem_of_cons in Hs as [Heq|Hs].
  - exists e0. split; [by left|]. rewrite <- (changed_ts e0 prev), <- Heq. done.
  - destruct (IH _ _ _ Hs) as (e & He & Ht). exists e. split; [by right|done].
Qed.

Lemma states_good es : forall prev t cs, history prev es -> (t, cs) ∈ states prev es -> fits 2 cs /\ Z.even t = true /\ 0 <= t < 2 ^ 63.
Proof.
  induction es as [|e0 es IH]; intros prev t cs Hh Hs; cbn in Hs; [by apply elem_of_nil in Hs|]. destruct Hh as [(_ & Hf & He & Hr & _) Hh]. apply elem_of_cons in Hs as [Heq|Hs]; [|by eapply IH].
  pose proof (changed_ts e0 prev) as Hc. rewrite <- Heq in *. cbn in *. by subst t.
Qed.

Lemma states_unique es : forall prev t cs cs', history prev es -> (t, cs) ∈ states prev es -> (t, cs') ∈ states prev es -> cs = cs'.
Proof.
  induction es as [|e0 es IH]; intros prev t cs cs' Hh H1 H2; cbn in *; [by apply elem_of_nil in H1|]. destruct Hh as [Hf Hh]. pose proof (changed_ts e0 prev) as Hc.
  destruct (changed e0 prev) as [t0 cs0] eqn:E. cbn in Hc. subst t0.
  assert (forall cs1, (effect_ts e0, cs1) ∉ states (Some (effect_ts e0, cs0)) es) as Hno.
  { intros cs1 Hin. apply states_effect in Hin as (e & He & Ht). pose proof (history_later _ _ _ _ _ Hh eq_refl He). lia. }
  apply elem_of_cons in H1 as [[= -> ->]|H1], H2 as [Heq|H2].
  - by injection Heq as ->.
  - by apply Hno in H2.
  - injection Heq as -> ->. by apply Hno in H1.
  - by eapply IH.
Qed.

Lemma part_prev es : forall t0 cs0 d, history (Some (t0, cs0)) es -> Part d ∈ es -> t0 <= pd_prev d.
Proof.
  induction es as [|e0 es IH]; intros t0 cs0 d Hh Hd; [by apply elem_of_nil in Hd|]. destruct Hh as [Hf Hh]. apply elem_of_cons in Hd as [<-|Hd].
  - destruct Hf as (_ & _ & _ & _ & (cs & [= -> _])). lia.
  - pose proof (changed_ts e0 (Some (t0, cs0))) as Hc. destruct (changed e0 (Some (t0, cs0))) as [t1 cs1]. cbn in Hc. subst t1. specialize (IH _ _ _ Hh Hd).
    destruct Hf as (Hlt & _). specialize (Hlt _ _ eq_refl). lia.
Qed.

(** A modification in the history makes the next row of the one it is of. *)
Lemma states_next es : forall prev d cs, history prev es -> Part d ∈ es -> (pd_prev d, cs) ∈ states prev es \/ prev = Some (pd_prev d, cs) ->
  (pd_ts d, apply_changes cs (pd_changes d)) ∈ states prev es.
Proof.
  induction es as [|e0 es IH]; intros prev d cs Hh Hd Hs; [by apply elem_of_nil in Hd|]. cbn in *. destruct Hh as [Hf Hh]. pose proof (changed_ts e0 prev) as Hc.
  destruct (changed e0 prev) as [t0 cs0] eqn:E. cbn in Hc. subst t0. apply elem_of_cons in Hd as [<-|Hd].
  - destruct Hf as (Hlt & _ & _ & _ & (cs1 & ->)). specialize (Hlt _ _ eq_refl). cbn in E, Hlt. injection E as <-.
    destruct Hs as [[[= H1 H2]|Hs]%elem_of_cons|[= ->]]; [cbn in H1; lia| |by left].
    apply states_effect in Hs as (e & He & Ht). pose proof (history_later _ _ _ _ _ Hh eq_refl He). cbn in *. lia.
  - right. apply IH; [done|done|]. destruct Hs as [[Hs|Hs]%elem_of_cons|Hs]; [right; by rewrite Hs|by left|].
    exfalso. pose proof (part_prev _ _ _ _ Hh Hd). destruct Hf as (Hlt & _). specialize (Hlt _ _ Hs). lia.
Qed.

(** The change after a row that is not the last. *)
Lemma next_effect es : forall prev t cs, history prev es -> (t, cs) ∈ states prev es \/ prev = Some (t, cs) ->
  final prev es = Some (t, cs) /\ (forall e, e ∈ es -> effect_ts e <= t) \/
  exists e, e ∈ es /\ t < effect_ts e /\ (forall e', e' ∈ es -> t < effect_ts e' -> effect_ts e <= effect_ts e') /\ match e with Part d => pd_prev d = t | Whole _ _ => True end.
Proof.
  induction es as [|e0 es IH]; intros prev t cs Hh Hs; cbn in *.
  - left. destruct Hs as [Hs| ->]; [by apply elem_of_nil in Hs|]. split; [done|]. intros e He. by apply elem_of_nil in He.
  - destruct Hh as [Hf Hh]. pose proof (changed_ts e0 prev) as Hc. destruct (changed e0 prev) as [t0 cs0] eqn:E. cbn in Hc. subst t0.
    destruct (decide (prev = Some (t, cs))) as [->|Hne].
    + right. exists e0. destruct Hf as (Hlt & _ & _ & _ & Hd). split_and!; [by left|by eapply Hlt| |].
      * intros e' [->|He']%elem_of_cons _; [done|]. pose proof (history_later _ _ _ _ _ Hh eq_refl He'). lia.
      * destruct e0 as [|d]; [done|]. by destruct Hd as (cs' & [= -> _]).
    + assert ((t, cs) ∈ states (Some (effect_ts e0, cs0)) es \/ Some (effect_ts e0, cs0) = Some (t, cs)) as Hs' by (destruct Hs as [[Heq|Hs]%elem_of_cons|Hs]; [right; by rewrite Heq|by left|done]).
      assert (effect_ts e0 <= t) as Hle.
      { destruct Hs' as [Hs'|[= -> _]]; [|done]. apply states_effect in Hs' as (e & He & <-). pose proof (history_later _ _ _ _ _ Hh eq_refl He). lia. }
      destruct (IH _ _ _ Hh Hs') as [[Hfin Hall]|(e & He & Hlt & Hmin & Hd)]; [left|right].
      * split; [done|]. intros e [->|He]%elem_of_cons; [done|by apply Hall].
      * exists e. split_and!; [by right|done| |done]. intros e' [->|He']%elem_of_cons Hlt'; [lia|by apply Hmin].
Qed.

(** ** Any order *)

Section order.
Context (hist : list effect) (Hhist : history None hist).

Definition in_history (t : Z) (cs : list bytes) : Prop := (t, cs) ∈ states None hist.
Definition part_of_history (d : pending) : Prop := Part d ∈ hist.

Definition row_ts (row : option (Z * list bytes)) : Z := match row with Some (t, _) => t | None => -1 end.

(** The changes [es] have been applied: those after the row wait, in order. *)
Record replayed (es : list effect) (ds : list pending) (row : option (Z * list bytes)) : Prop := Replayed {
  rp_in e : e ∈ es -> e ∈ hist;
  rp_part d : d ∈ ds <-> Part d ∈ es /\ row_ts row < pd_ts d;
  rp_whole t cs : Whole t cs ∈ es -> t <= row_ts row;
  rp_sorted : StronglySorted (fun d d' => pd_ts d' < pd_ts d) ds;
  rp_row : row_good in_history row;
}.

Lemma newer_in ts ds : StronglySorted (fun d d' => pd_ts d' < pd_ts d) ds -> Z.even ts = true -> (forall d, d ∈ ds -> pd_ts d <> ts /\ Z.even (pd_ts d) = true) ->
  (forall d, d ∈ newer_than ts ds <-> d ∈ ds /\ ts < pd_ts d) /\ (forall d, d ∈ older_than ts ds <-> d ∈ ds /\ pd_ts d < ts) /\
  StronglySorted (fun d d' => pd_ts d' < pd_ts d) (newer_than ts ds).
Proof.
  intros Hs He Hd. induction Hs as [|d ds Hs IH Hall]; cbn [newer_than older_than].
  - split_and!; [..|constructor]; intros d; split; try (intros H; by apply elem_of_nil in H); intros [H _]; by apply elem_of_nil in H.
  - destruct IH as (I1 & I2 & I3); [intros x Hx; apply Hd; by right|]. destruct (Hd d) as [Hne Hev]; [by left|]. unfold comes_before. rewrite lor_even by done. rewrite Forall_forall in Hall.
    destruct (Z.ltb_spec ts (pd_ts d + 1)) as [Hlt|Hge].
    + split_and!.
      * intros x. rewrite !elem_of_cons, I1. split; [intros [->|[? ?]]; [split; [by left|lia]|by split; [right|]]|intros [[->|?] ?]; [by left|by right]].
      * intros x. rewrite elem_of_cons, I2. split; [intros [? ?]; by split; [right|]|]. intros [[->|?] ?]; [lia|done].
      * constructor; [done|]. apply Forall_forall. intros x Hx. apply I1 in Hx as [Hx _]. by apply Hall.
    + split_and!; [..|constructor].
      * intros x. split; [intros H; by apply elem_of_nil in H|]. rewrite elem_of_cons. intros [[->|Hx] Hlt]; [lia|]. specialize (Hall x Hx). lia.
      * intros x. split; [|by intros [? _]]. intros Hx. split; [done|]. apply elem_of_cons in Hx as [->|Hx]; [lia|]. specialize (Hall x Hx). lia.
Qed.

(** Merging keeps it, and leaves nothing that could be merged. *)
Lemma settle_replayed es : forall ds row, replayed es ds row -> let p := settle (rev ds) row in replayed es (rev p.1) p.2 /\ settle p.1 p.2 = p.
Proof using Hhist.
  induction ds as [|d ds IH] using rev_ind; intros row Hr; cbn zeta; [by destruct row as [[? ?]|]|]. rewrite rev_app_distr. cbn [rev app settle].
  assert (replayed es (rev (d :: rev ds)) row) as Hr' by (cbn [rev]; by rewrite rev_involutive).
  destruct row as [[t cs]|]; [|done]. destruct (Z.eqb_spec (pd_prev d) t) as [Heq|Hne]; cbn [fst snd]; [|split; [done|]; cbn [settle]; by rewrite (proj2 (Z.eqb_neq _ _) Hne)].
  apply IH. destruct Hr as [H1 H2 H3 H4 H5]. cbn [row_ts row_good] in *. apply StronglySorted_app in H4 as (Hs & Hsd & _). assert (d ∈ ds ++ [d]) as Hd by set_solver. apply H2 in Hd as [Hd Ht].
  split; cbn [row_ts row_good].
  - done.
  - intros d'. split.
    + intros Hd'. assert (d' ∈ ds ++ [d]) as Hin by set_solver. apply H2 in Hin as [? _]. split; [done|]. apply (Hs d' d Hd'). set_solver.
    + intros [Hd' Hlt]. assert (d' ∈ ds ++ [d]) as Hin by (apply H2; split; [done|lia]). apply elem_of_app in Hin as [?|Hin%list_elem_of_singleton]; [done|]. subst. lia.
  - intros t' cs' Hw. specialize (H3 _ _ Hw). lia.
  - done.
  - apply states_next; [done|by apply H1|]. left. by rewrite Heq.
Qed.

Lemma effect_in_order e : e ∈ hist -> Z.even (effect_ts e) = true /\ 0 <= effect_ts e < 2 ^ 63 /\ match e with Whole t cs => in_history t cs | Part _ => True end.
Proof using Hhist.
  clear -Hhist. unfold in_history. revert Hhist. generalize (@None (Z * list bytes)). induction hist as [|e0 es IH]; intros prev Hh He; [by apply elem_of_nil in He|].
  destruct Hh as [(_ & _ & Hev & Hr & _) Hh]. apply elem_of_cons in He as [->|He].
  - split_and!; [done|lia..|]. destruct e0 as [t cs|]; [|done]. by left.
  - destruct (IH _ Hh He) as (H1 & H2 & H3). split_and!; [done|lia..|]. destruct e; [|done]. by right.
Qed.

Lemma insert_replayed es ds row e : replayed es ds row -> e ∈ hist -> e ∉ es -> out_of_date e ds row = false ->
  replayed (e :: es) (insert_effect e ds row).1 (insert_effect e ds row).2.
Proof using Hhist.
  intros [H1 H2 H3 H4 H5] He Hne Hold. destruct (effect_in_order e He) as (Hev & Hrng & Hgood). pose proof (newer_older (effect_ts e) ds) as Hno.
  assert (forall d, d ∈ ds -> pd_ts d <> effect_ts e /\ Z.even (pd_ts d) = true) as Hds.
  { intros d Hd. apply H2 in Hd as [Hd _]. split; [|by apply (effect_in_order (Part d)), H1]. intros Heq. apply Hne. by rewrite (history_unique hist None e (Part d)) by auto. }
  destruct (newer_in _ _ H4 Hev Hds) as (Hnew & Holder & Hsort).
  assert (forall e', e' ∈ e :: es -> e' ∈ hist) as Hin by (intros e' [->|?]%elem_of_cons; auto).
  assert (row_ts row < effect_ts e) as Hlt.
  { unfold out_of_date in Hold. destruct (older_than (effect_ts e) ds) as [|d r] eqn:Eo.
    - destruct row as [[t cs]|]; cbn [row_ts]; [by apply Z.leb_gt in Hold|lia].
    - assert (d ∈ d :: r) as Hd by (by left). apply Holder in Hd as [Hd Hlt]. apply H2 in Hd as [_ ?]. lia. }
  assert (forall d, d ∈ newer_than (effect_ts e) ds <-> Part d ∈ e :: es /\ effect_ts e < pd_ts d) as Hnew'.
  { intros d. rewrite Hnew, H2, elem_of_cons. split; [intros [[? ?] ?]; auto|]. intros [[Heq|?] ?]; [rewrite <- Heq in *; cbn in *; lia|split; [split; [done|lia]|done]]. }
  assert (forall t cs, Whole t cs ∈ e :: es -> t <= Z.max (effect_ts e) (row_ts row)) as Hwhole by (intros t cs [Heq|Hw]%elem_of_cons; [rewrite <- Heq; cbn; lia|specialize (H3 _ _ Hw); lia]).
  destruct e as [t cs|d]; cbn [insert_effect effect_ts fst snd] in *.
  - split; cbn [row_ts row_good]; try done. intros t' cs' Hw. specialize (Hwhole _ _ Hw). lia.
  - assert (replayed (Part d :: es) (newer_than (pd_ts d) ds ++ d :: older_than (pd_ts d) ds) row) as Hwait.
    { split; [done| | | |done].
      - intros d'. rewrite elem_of_app, elem_of_cons, Hnew, Holder, elem_of_cons, !H2. split.
        + intros [[[? ?] ?]|[->|[[? ?] ?]]]; split; auto.
        + intros [[[= ->]|Hd'] Hlt']; [auto|]. assert (d' ∈ ds) as Hd'' by (by apply H2). destruct (Hds d' Hd'') as [Hne' _]. destruct (decide (pd_ts d < pd_ts d')); [auto|]. right. right. split; [done|lia].
      - intros t cs [?|Hw]%elem_of_cons; [done|by eapply H3].
      - rewrite <- Hno in H4. apply StronglySorted_app in H4 as (Hx & _ & Hs2). apply StronglySorted_app. split_and!; [|done|].
        + intros x1 x2 Hx1 [->|Hx2]%elem_of_cons; [by apply Hnew in Hx1 as [_ ?]|by apply Hx].
        + constructor; [done|]. apply Forall_forall. intros x Hx'. by apply Holder in Hx' as [_ ?]. }
    destruct (older_than (pd_ts d) ds) as [|d' r]; [|done]. destruct row as [[t cs]|]; [|done]. destruct (Z.eqb_spec (pd_prev d) t) as [Heq|]; [|done].
    split; cbn [row_ts row_good fst snd] in *; try done.
    + intros t' cs' Hw. specialize (Hwhole _ _ Hw). lia.
    + apply states_next; [done|done|]. left. by rewrite Heq.
Qed.

Lemma apply_replayed es ds row e : replayed es ds row -> settle (rev ds) row = (rev ds, row) -> e ∈ hist -> e ∉ es ->
  replayed (e :: es) (apply_effect e ds row).1 (apply_effect e ds row).2 /\ settle (rev (apply_effect e ds row).1) (apply_effect e ds row).2 = (rev (apply_effect e ds row).1, (apply_effect e ds row).2).
Proof using Hhist.
  intros Hr Hset He Hne. unfold apply_effect. destruct (out_of_date e ds row) eqn:Eo; cbn [fst snd].
  - split; [|done]. destruct Hr as [H1 H2 H3 H4 H5]. unfold out_of_date in Eo. destruct (older_than (effect_ts e) ds); [|done]. destruct row as [[t cs]|]; [|done]. apply Z.leb_le in Eo.
    split; [|intros d|intros t' cs'|done|done]; [by intros e' [->|?]%elem_of_cons; auto| |].
    + rewrite H2, elem_of_cons. split; [intros [? ?]; auto|]. intros [[<-|?] Hlt]; [cbn in *; lia|done].
    + intros [Heq|Hw]%elem_of_cons; [rewrite <- Heq in Eo; done|by eapply H3].
  - destruct (settle_replayed (e :: es) _ _ (insert_replayed es ds row e Hr He Hne Eo)) as [Hr' Hs']. split; [done|]. rewrite rev_involutive, Hs'. apply surjective_pairing.
Qed.

Lemma settle_shrinks ps : forall row, (length (settle ps row).1 <= length ps)%nat.
Proof. induction ps as [|d ps IH]; intros row; [by destruct row|]. cbn. destruct row as [[t cs]|]; [|done]. destruct (pd_prev d =? t); [|done]. specialize (IH (Some (pd_ts d, apply_changes cs (pd_changes d)))). cbn. lia. Qed.

(** With every change applied, nothing waits and the row is the last one. *)
Lemma all_replayed es ds row : replayed es ds row -> settle (rev ds) row = (rev ds, row) -> (forall e, e ∈ hist -> e ∈ es) -> hist <> [] ->
  (forall d, head hist <> Some (Part d)) -> ds = [] /\ row = final None hist.
Proof using Hhist.
  intros [H1 H2 H3 H4 H5] Hset Hall Hne Hfirst. destruct row as [[t cs]|].
  - destruct (next_effect hist None t cs Hhist (or_introl H5)) as [[Hfin Hmax]|(e & He & Hlt & Hmin & Hprev)].
    + split; [|done]. destruct ds as [|d ds]; [done|]. assert (d ∈ d :: ds) as Hd by (by left). apply H2 in Hd as [Hd Hlt]. cbn in Hlt. apply H1, Hmax in Hd. cbn in Hd. lia.
    + exfalso. destruct e as [t' cs'|d]; [specialize (H3 _ _ (Hall _ He)); cbn in *; lia|]. cbn [effect_ts row_ts] in *.
      assert (d ∈ ds) as Hd by (apply H2; auto). destruct ds as [|dl ds _] using rev_ind; [by apply elem_of_nil in Hd|].
      assert (Part dl ∈ es /\ t < pd_ts dl) as [Hdl Hlt'] by (apply H2; set_solver). specialize (Hmin _ (H1 _ Hdl) Hlt'). cbn in Hmin.
      assert (d = dl) as <-.
      { apply elem_of_app in Hd as [Hd|Hd%list_elem_of_singleton]; [|done]. pose proof (StronglySorted_app_1_elem_of _ _ _ d dl H4 Hd ltac:(set_solver)). cbn in *. lia. }
      rewrite rev_app_distr in Hset. cbn [rev app settle] in Hset. rewrite (proj2 (Z.eqb_eq _ _) Hprev) in Hset.
      pose proof (settle_shrinks (rev ds) (Some (pd_ts d, apply_changes cs (pd_changes d)))) as Hl. rewrite Hset in Hl. cbn in Hl. lia.
  - exfalso. destruct hist as [|e0 hist'] eqn:Eh; [done|]. destruct e0 as [t cs|d]; [|by apply (Hfirst d)].
    assert (Whole t cs ∈ es) as Hw by (apply Hall; by left). specialize (H3 _ _ Hw). destruct Hhist as [(_ & _ & _ & Hr & _) _]. cbn in *. lia.
Qed.
End order.

(** ** Records in any order *)

(** The record [lr], with [before] in front of its value, is of the effect [e]. *)
Definition logged_as (lr : logrecord) (before : bytes) (e : effect) : Prop :=
  lr_ts lr = effect_ts e /\
  match e with
  | Whole t cs =>
    lr_command lr = logcmd_replace /\ cs = [lr_val lr] \/
    lr_command lr = logcmd_put /\ exists chs, changes_of (lr_val lr) chs /\ cs = apply_changes [] chs
  | Part d => lr_command lr = logcmd_modify /\ lr_prev_ts lr = pd_prev d /\ lr_val lr = pd_val d /\ changes_of (pd_val d) (pd_changes d) /\
      30 + len (pd_val d) < 2 ^ 16 /\ (24 <= length before)%nat
  end.

Fixpoint apply_all (junk : nat -> bytes) (records : list (logrecord * bytes)) : sm slot_state unit :=
  match records with
  | [] => mret tt
  | (lr, before) :: records => let* _ := LogApply.apply junk lr before in apply_all junk records
  end.

Lemma part_state es : forall prev d, history prev es -> Part d ∈ es -> exists cs, (pd_prev d, cs) ∈ states prev es \/ prev = Some (pd_prev d, cs).
Proof.
  induction es as [|e0 es IH]; intros prev d Hh Hd; [by apply elem_of_nil in Hd|]. destruct Hh as [Hf Hh]. apply elem_of_cons in Hd as [<-|Hd].
  - destruct Hf as (_ & _ & _ & _ & (cs & ->)). exists cs. by right.
  - destruct (IH _ _ Hh Hd) as (cs & [Hs|[= Hs]]); exists cs; left; cbn [states]; [by right|]. rewrite Hs. by left.
Qed.

Lemma history_NoDup es : forall prev, history prev es -> NoDup es.
Proof.
  induction es as [|e es IH]; intros prev Hh; [constructor|]. destruct Hh as [Hf Hh]. constructor; [|by eapply IH]. intros He.
  pose proof (changed_ts e prev) as Hc. destruct (changed e prev) as [t cs]. cbn in Hc. subst t. pose proof (history_later _ _ _ _ _ Hh eq_refl He). lia.
Qed.

Lemma logged_record hist lr before e : history None hist -> e ∈ hist -> logged_as lr before e -> record_effect (in_history hist) (part_of_history hist) lr before e.
Proof.
  intros Hh He [Ht Hl]. destruct (effect_in_order hist Hh e He) as (Hev & Hr & Hg). destruct e as [t cs|d]; [done|]. cbn [effect_ts] in *.
  destruct Hl as (Hc & Hp & Hv & Hch & Hlen & Hb). destruct (part_state hist None d Hh He) as (cs & [Hs|]); [|done].
  destruct (states_good hist None _ _ Hh Hs) as (_ & Hevp & Hrp). by split_and!.
Qed.

Lemma final_Some es : forall p, final (Some p) es <> None.
Proof. induction es as [|e es IH]; intros p; [done|]. apply IH. Qed.

Section any_order.
Context (junk : nat -> bytes) (Hjunk : forall n, length (junk n) = n) (hist : list effect) (Hhist : history None hist).

Lemma apply_all_run F : forall records es done s ls ds lb row, chain F s ls ds lb row -> replayed hist done ds row -> settle (rev ds) row = (rev ds, row) ->
  Forall2 (fun r e => logged_as r.1 r.2 e) records es -> (forall e, e ∈ es -> e ∈ hist) -> NoDup (done ++ es) ->
  exists s' ls' ds' lb' row', apply_all junk records s = Ok (tt, s') /\ chain F s' ls' ds' lb' row' /\ replayed hist (rev es ++ done) ds' row' /\ settle (rev ds') row' = (rev ds', row').
Proof using Hjunk Hhist.
  induction records as [|[lr before] records IH]; intros es done s ls ds lb row Hc Hr Hset Hrec Hin Hnd; inversion Hrec as [|? e ? es' Hlog Hrec']; subst; cbn [apply_all rev app].
  - by eexists s, ls, ds, lb, row.
  - assert (e ∈ hist) as He by (apply Hin; by left). apply NoDup_app in Hnd as (Hnd1 & Hdis & Hnd2). apply NoDup_cons in Hnd2 as [Hne Hnd2].
    assert (e ∉ done) as Hned by (intros H; apply (Hdis e H); by left).
    assert (Forall (part_of_history hist) ds) as Hds by (apply Forall_forall; intros d Hd; apply (rp_part _ _ _ _ Hr) in Hd as [Hd _]; by apply (rp_in _ _ _ _ Hr)).
    destruct (apply_run junk Hjunk (in_history hist) (part_of_history hist) (fun t cs => states_good hist None t cs Hhist) (fun d cs Hd Hs => states_next hist None d cs Hhist Hd (or_introl Hs))
      F s ls ds lb row lr before e Hc (logged_record hist lr before e Hhist He Hlog) Hds (rp_row _ _ _ _ Hr)) as (s1 & ls1 & lb1 & Hrun & Hc1).
    destruct (apply_replayed hist Hhist done ds row e Hr Hset He Hned) as [Hr1 Hset1]. rewrite (sbind_run _ _ _ _ _ Hrun).
    destruct (IH es' (e :: done) s1 ls1 _ lb1 _ Hc1 Hr1 Hset1 Hrec') as (s' & ls' & ds' & lb' & row' & H1 & H2 & H3 & H4).
    + intros e' He'. apply Hin. by right.
    + apply NoDup_cons. split; [set_solver|]. apply NoDup_app. split_and!; [done| |done]. intros x Hx Hx'. apply (Hdis x Hx). by right.
    + exists s', ls', ds', lb', row'. split_and!; [done|done| |done]. by rewrite <- app_assoc.
Qed.
End any_order.

(** C17: the records of a key's changes, replayed in any order from an empty slot:
    the slot then has one row, of the last change's time stamp and columns, and
    every other row that replay made has been freed. *)
Theorem replay_any_order junk F lim hist es records : (forall n, length (junk n) = n) -> history None hist -> (exists t cs, head hist = Some (Whole t cs)) ->
  es ≡ₚ hist -> Forall2 (fun r e => logged_as r.1 r.2 e) records es -> Forall (fun l => is_Some (F !! l)) lim ->
  exists s' t cs l b, final None hist = Some (t, cs) /\ apply_all junk records (Slot None (Threadinfo F lim)) = Ok (tt, s') /\
    sl_value s' = Some l /\ F !! l = None /\ rows_at s' = <[l := row_object b]> F /\ represents 2 b cs /\ vb_ts b = t.
Proof.
  intros Hjunk Hh (t0 & cs0 & Hhd) Hp Hrec Hlim. set (s := Slot None (Threadinfo F lim)).
  assert (chain F s [] [] [] None) as Hc.
  { exists None. split_and!; [done|done|]. split; [constructor|intros l Hl; by apply elem_of_nil in Hl|done|]. intros l Hl. rewrite Forall_forall in Hlim. by apply Hlim. }
  assert (replayed hist [] [] None) as Hr.
  { split; [intros e He; by apply elem_of_nil in He| |intros t cs Ht; by apply elem_of_nil in Ht|constructor|done]. intros d. split; [intros Hd; by apply elem_of_nil in Hd|intros [Hd _]; by apply elem_of_nil in Hd]. }
  destruct (apply_all_run junk Hjunk hist Hh F records es [] s [] [] [] None Hc Hr eq_refl Hrec) as (s' & ls & ds & lb & row & Hrun & (q & Hs & Hb & Ho) & Hr' & Hset).
  { intros e He. by rewrite <- Hp. }
  { cbn [app]. rewrite Hp. by eapply history_NoDup. }
  destruct (all_replayed hist Hh (rev es ++ []) ds row Hr' Hset) as [-> ->]; [intros e He; rewrite app_nil_r; by rewrite <- Permutation_rev, Hp|by destruct hist|intros d; by rewrite Hhd|].
  destruct (final None hist) as [[t cs]|] eqn:Ef; [|destruct hist as [|e0 hist']; [done|by apply final_Some in Ef]].
  destruct ls; [|done]. cbn in Hs. destruct Hb as (l & b & -> & -> & Hl & Hrep & Ht & _). exists s', t, cs, l, b. cbn [app] in Ho. destruct Ho as [_ Hnew Hframe _].
  split_and!; [done|done|done|by apply Hnew; left| |done|done].
  apply map_eq. intros x. destruct (decide (x = l)) as [->|Hne]; [by rewrite lookup_insert_eq|]. rewrite lookup_insert_ne by done. apply Hframe. intros Hx%list_elem_of_singleton. done.
Qed.

(** A put of two columns, a change of the second and a change of both, replayed as
    the logs of three threads may have them; position 1 has a row of another key. *)
Definition first_put : logrecord := Logrecord logcmd_put [107] [0; 161; 97; 1; 161; 120] 10 0 0.
Definition second_change : logrecord := Logrecord logcmd_modify [107] [1; 161; 98] 20 10 0.
Definition third_change : logrecord := Logrecord logcmd_modify [107] [0; 161; 99; 2; 161; 100] 30 20 0.
Definition second_part : pending := Pending 20 10 [1; 161; 98] [(1%nat, [98])].
Definition third_part : pending := Pending 30 20 [0; 161; 99; 2; 161; 100] [(0%nat, [99]); (2%nat, [100])].
Definition three_changes : list effect := [Whole 10 [[97]; [120]]; Part second_part; Part third_part].
Definition other_row : gmap loc (Z * object value_bag) := {[1%positive := row_object (Bag 2 (encode 2 [[5]]))]}.

Lemma three_changes_history : history None three_changes.
Proof.
  repeat split; try (vm_compute; congruence); try (intros t cs [= <- _]; cbn; lia); try done; by eexists.
Qed.

Lemma replay_any_order_witness : exists s' t cs l b, final None three_changes = Some (t, cs) /\
  apply_all zeros [(third_change, zeros 24); (first_put, []); (second_change, zeros 30)] (Slot None (Threadinfo other_row [])) = Ok (tt, s') /\
  sl_value s' = Some l /\ other_row !! l = None /\ rows_at s' = <[l := row_object b]> other_row /\ represents 2 b cs /\ vb_ts b = t.
Proof.
  apply (replay_any_order zeros other_row [] three_changes [Part third_part; Whole 10 [[97]; [120]]; Part second_part]).
  - intros n. apply length_replicate.
  - apply three_changes_history.
  - by eexists _, _.
  - apply (Permutation_app_comm [_] [_; _]).
  - apply Forall2_cons. split; [|apply Forall2_cons; split; [|apply Forall2_cons; split; [|constructor]]].
    + split; [done|]. split_and!; [done..| |done|cbn; lia]. eexists. split; [vm_compute; reflexivity|]. split; [repeat (constructor; try reflexivity)|cbn; lia].
    + split; [done|]. right. split; [done|]. exists [(0%nat, [97]); (1%nat, [120])]. split; [|done].
      eexists. split; [vm_compute; reflexivity|]. split; [repeat (constructor; try reflexivity)|cbn; lia].
    + split; [done|]. split_and!; [done..| |done|cbn; lia]. eexists. split; [vm_compute; reflexivity|]. split; [repeat (constructor; try reflexivity)|cbn; lia].
  - constructor.
Defined.

(** ** Removals *)

(** Replay cannot run a removal: [run] makes a removal marker of four bytes the
    record's value, and [apply], which tells only replacements and modifications
    from puts, reads it as the columns and values of a put; the byte of its first
    value is no string's, and the parser's assertion fails, whether the slot is
    empty or has an earlier row. *)
Lemma replay_remove_fails {T} `{Table T (option loc)} junk before (table : T) F rows ti key val ts prev_ts epoch lb row :
  chain F (Slot (match Query.find table key with Some v => v | None => None end) rows) [] [] lb row -> (forall t cs, row = Some (t, cs) -> t < Z.lor ts 1) ->
  LogApply.run junk (Logrecord logcmd_remove key val ts prev_ts epoch) before (table, rows, ti) = Fault AssertFailed.
Proof.
  intros Hc Hrow. unfold LogApply.run. cbn [lr_command lr_key lr_ts lr_val lr_prev_ts lr_epoch]. change (logcmd_remove =? logcmd_remove) with true. cbv iota. set (s := Slot _ rows) in *. set (lr := Logrecord _ key _ _ _ _).
  assert (LogApply.apply junk lr before s = Fault AssertFailed) as ->; [|done]. destruct Hc as (q & Hs & Hb & Ho). cbn [segment] in Hs. pose proof (base_hd _ _ _ _ Hb) as Hq. cbn [app] in Ho.
  unfold LogApply.apply, chain_fuel at 1. unfold sbind at 1, sm_bind at 1. pose proof (owned_size _ _ _ Ho) as Hsz.
  pose proof (find_point_run F s lb row (lr_ts lr) [] (S (base.size (rows_at s))) [] [] (sl_value s) [] eq_refl) as Hfind. cbn [app length newer_than take place_of last segment] in Hfind.
  rewrite <- Hq in Hfind. specialize (Hfind Hs Hb Ho ltac:(lia)). change (place_of []) with InSlot in Hfind. rewrite (sbind_run _ _ _ _ _ Hfind).
  unfold get_place at 1. unfold sbind at 1, sm_bind at 1. rewrite Hs.
  assert ((match q with Some l => let* b := load_bag l in mret (lr_ts lr <=? vb_ts b) | None => mret false end) s = Ok (false, s)) as Hold.
  { destruct row as [[t cs]|]; [|by destruct Hb as [-> _]]. destruct Hb as (l & b & -> & _ & Hl & _ & Ht & _). specialize (Hrow t cs eq_refl).
    rewrite (bind_load s l b _ _ Hl), Ht, (proj2 (Z.leb_gt _ _)) by (cbn [lr lr_ts]; lia). done. }
  rewrite (sbind_run _ _ _ _ _ Hold). change (negb (lr_command lr =? logcmd_modify)) with true. cbv iota.
  pose proof (delete_earlier_run F [] (S (base.size (rows_at s))) s [] [] (sl_value s) [] lb row eq_refl) as Hdel. cbn [app length segment] in Hdel. rewrite <- Hq in Hdel.
  destruct (Hdel Hs Hb Ho ltac:(lia)) as (s1 & Hrun & Hs1 & _). change (place_of []) with InSlot in Hrun. rewrite (sbind_run _ _ _ _ _ Hrun).
  unfold apply_at. change (lr_command lr =? logcmd_replace) with false. change (negb (lr_command lr =? logcmd_modify)) with true. cbv iota.
  rewrite sbind_assoc. unfold get_place at 1. unfold sbind at 1, sm_bind at 1. rewrite sbind_assoc, sbind_ret. cbv iota. rewrite sbind_assoc. unfold sbind at 1, sm_bind at 1. reflexivity.
Qed.

