(* ===== verification/Kvout.v ===== *)
(** * Output buffers (kvio.hh, kvio.cc)

    A [kvout] collects bytes for a file descriptor, or in memory when it has none.
    What the calls of [write] answer is given with the buffer; what they have taken
    is [kv_sent]. *)

From S2P Require Export MsgpackParser ValueBagFacts.

#[local] Open Scope Z_scope.
#[local] Open Scope lhm_scope.

(** [write] takes [cc] bytes and one, or as many as it is given; or it fails with
    [EWOULDBLOCK], or otherwise. *)
Inductive write_result := Wrote (cc : nat) | WouldBlock | Failed.

Record kvout := Kvout {
  kv_fd : bool;                  (* [fd >= 0] *)
  kv_buf : bytes;                (* the first [n] bytes of [buf] *)
  capacity : Z;
  kv_sent : bytes;
  kv_io : list write_result;
}.

Definition kv_n (kv : kvout) : Z := len (kv_buf kv).
Definition set_buf (b : bytes) (kv : kvout) : kvout := Kvout (kv_fd kv) b (capacity kv) (kv_sent kv) (kv_io kv).
Definition set_capacity (c : Z) (kv : kvout) : kvout := Kvout (kv_fd kv) (kv_buf kv) c (kv_sent kv) (kv_io kv).

Definition new_kvout (buflen : Z) (io : list write_result) : kvout := Kvout true [] buflen [] io.
Definition new_bufkvout : kvout := Kvout false [] 256 [] [].
Definition kvout_reset (kv : kvout) : res kvout := let? _ := check_res (negb (kv_fd kv)) in Ok (set_buf [] kv).

(** The loop of [kvflush]: [sent] bytes of the buffer are gone.  When [write] fails
    the whole buffer stays. *)
Fixpoint kvflush_loop (io : list write_result) (sent : nat) (kv : kvout) : res kvout :=
  if kv_n kv <=? Z.of_nat sent then Ok (Kvout (kv_fd kv) [] (capacity kv) (kv_sent kv) io)
  else
    match io with
    | [] => Fault Deadlock
    | Wrote cc :: io =>
      let taken := take (S cc) (drop sent (kv_buf kv)) in
      kvflush_loop io (sent + length taken) (Kvout (kv_fd kv) (kv_buf kv) (capacity kv) (kv_sent kv ++ taken) io)
    | WouldBlock :: io => kvflush_loop io sent (Kvout (kv_fd kv) (kv_buf kv) (capacity kv) (kv_sent kv) io)
    | Failed :: io => Ok (Kvout (kv_fd kv) (kv_buf kv) (capacity kv) (kv_sent kv) io)
    end.
Definition kvflush (kv : kvout) : res kvout :=
  let? _ := check_res (kv_fd kv) in kvflush_loop (kv_io kv) 0 kv.

(** [while (want > capacity) capacity *= 2] on 32 bits. *)
Fixpoint grow_loop (fuel : nat) (want cap : Z) : res Z :=
  if want <=? cap then Ok cap
  else match fuel with O => Fault OutOfFuel | S fuel => grow_loop fuel want (Word.mulw 32 cap 2) end.

Section kvout.
(** How often [grow] tries: from a power of two 31 times are enough, or none is. *)
Context (grow_fuel : nat).

Definition grow (want : Z) (kv : kvout) : res kvout :=
  let? kv := (if kv_fd kv then kvflush kv else Ok kv) in
  let want := if want =? 0 then Word.addw 32 (capacity kv) 1 else want in
  let? c := grow_loop grow_fuel want (capacity kv) in
  Ok (set_capacity c kv).

(** [n], bytes, at the end of the buffer, which must have room. *)
Definition put_bytes (bs : bytes) (kv : kvout) : res kvout :=
  if kv_n kv + len bs <=? capacity kv then Ok (set_buf (kv_buf kv ++ bs) kv) else Fault OutOfBounds.

Definition append (c : Z) (kv : kvout) : res kvout :=
  let? kv := (if kv_n kv =? capacity kv then grow 0 kv else Ok kv) in put_bytes [c] kv.

Definition reserve (nchars : Z) (kv : kvout) : res kvout :=
  if capacity kv <? Word.addw 32 (kv_n kv) nchars then grow (Word.addw 32 (kv_n kv) nchars) kv else Ok kv.

Definition kvwrite (bs : bytes) (kv : kvout) : res kvout :=
  let full kv := capacity kv <? Word.addw 32 (kv_n kv) (len bs) in
  let? kv := (if full kv && kv_fd kv then kvflush kv else Ok kv) in
  let? kv := (if full kv then grow (Word.addw 32 (kv_n kv) (len bs)) kv else Ok kv) in
  put_bytes bs kv.

(** ** The unparser on a buffer (msgpack.hh)

    Each item reserves the most it can take: strings, array headers, and unsigned
    integers written wide. *)

Inductive piece := PString (s : bytes) | PArray (n : Z) | PWide (x : Z).

Definition reserve_size (p : piece) : Z :=
  match p with PString s => 5 + len s | PArray _ => 5 | PWide _ => 8 + 1 end.
Definition piece_bytes (p : piece) : bytes :=
  match p with
  | PString s => format.write_string s
  | PArray n => format.write_array_header n
  | PWide x => format.write_wide_unsigned x
  end.
Definition unparse_piece (p : piece) (kv : kvout) : res kvout := let? kv := reserve (reserve_size p) kv in put_bytes (piece_bytes p) kv.
Fixpoint unparse_pieces (ps : list piece) (kv : kvout) : res kvout :=
  match ps with [] => Ok kv | p :: ps => let? kv := unparse_piece p kv in unparse_pieces ps kv end.

Definition put_reserved (n : Z) (bs : bytes) (kv : kvout) : res kvout := let? kv := reserve n kv in put_bytes bs kv.

(** [operator<<(const Json& j)] *)
Fixpoint unparse_json (j : Json) (kv : kvout) : res kvout :=
  match j with
  | JNull => append format.fnull kv
  | JBool b => append (format.ffalse + Z.b2z b) kv
  | JUnsigned x => put_reserved 9 (format.write_unsigned8 x) kv
  | JInt x => put_reserved 9 (format.write_signed8 x) kv
  | JDouble d => put_reserved 9 (format.write_double d) kv
  | JString s => put_reserved (len s + 5) (format.write_string s) kv
  | JArray a =>
    let? kv := put_reserved 5 (format.write_array_header (len a)) kv in
    (fix items (a : list Json) (kv : kvout) : res kvout :=
       match a with [] => Ok kv | x :: a => let? kv := unparse_json x kv in items a kv end) a kv
  | JObject o =>
    let? kv := put_reserved 5 (format.write_map_header (len o)) kv in
    (fix members (o : list (bytes * Json)) (kv : kvout) : res kvout :=
       match o with
       | [] => Ok kv
       | (key, x) :: o =>
         let? kv := put_reserved (len key + 5) (format.write_string key) kv in
         let? kv := unparse_json x kv in members o kv
       end) o kv
  end.
End kvout.

(** ** Lengths *)

Fixpoint list_sum_with {A} (f : A -> Z) (l : list A) : Z := match l with [] => 0 | x :: l => f x + list_sum_with f l end.

Lemma list_sum_with_pos {A} (f : A -> Z) l : (forall x, 0 <= f x) -> 0 <= list_sum_with f l.
Proof. intros Hf. induction l as [|x l IH]; cbn; [done|]. pose proof (Hf x). lia. Qed.

Lemma len_write_string s : len (format.write_string s) <= len s + 5.
Proof. unfold format.write_string. repeat destruct (_ <? _); rewrite ?length_app; cbn [length]; rewrite ?length_app, ?length_net_bytes; lia. Qed.
Lemma len_write_array_header n : len (format.write_array_header n) <= 5.
Proof. unfold format.write_array_header. repeat destruct (_ <? _); cbn [length]; rewrite ?length_net_bytes; lia. Qed.
Lemma len_write_map_header n : len (format.write_map_header n) <= 5.
Proof. unfold format.write_map_header. repeat destruct (_ <? _); cbn [length]; rewrite ?length_net_bytes; lia. Qed.
Lemma len_write_unsigned8 x : len (format.write_unsigned8 x) <= 9.
Proof. unfold format.write_unsigned8, format.write_unsigned4. cbn zeta. repeat case_match; cbn [length]; rewrite ?length_net_bytes; lia. Qed.
Lemma len_write_signed8 x : len (format.write_signed8 x) <= 9.
Proof. unfold format.write_signed8, format.write_signed4. cbn zeta. repeat case_match; cbn [length]; rewrite ?length_net_bytes; lia. Qed.

(** ** Growing *)

Lemma mulw_pow2 c : 0 <= c < 31 -> Word.mulw 32 (2 ^ c) 2 = 2 ^ (c + 1).
Proof.
  intros Hc. unfold Word.mulw. rewrite Z.pow_add_r by lia. apply Word.wrap_small. split; [lia|].
  assert (2 ^ c <= 2 ^ 30) by (apply Z.pow_le_mono_r; lia). lia.
Qed.

(** The smallest of the doubles that is large enough. *)
Lemma grow_loop_enough fuel want : forall c, 0 < c < 2 ^ 32 -> want <= 2 ^ 31 -> want <= c * 2 ^ Z.of_nat fuel ->
  exists c', grow_loop fuel want c = Ok c' /\ c <= c' < 2 ^ 32 /\ want <= c' /\ (c' = c \/ exists d, c' = 2 * d /\ d < want /\ c < want).
Proof.
  induction fuel as [|fuel IH]; intros c Hc Hw Hf; cbn [grow_loop]; (destruct (Z.leb_spec want c) as [Hle|Hgt]; [exists c; split_and!; lia || auto|]); [lia|].
  unfold Word.mulw. rewrite Word.wrap_small by (split; lia). destruct (IH (c * 2)) as (c' & -> & Hc' & Hwc & Hmin); [lia|done| |].
  - rewrite Nat2Z.inj_succ, Z.pow_succ_r in Hf by lia. lia.
  - exists c'. split; [done|]. split; [lia|]. split; [done|]. right. destruct Hmin as [->|(d & ? & ? & ?)]; [exists c; lia|exists d; lia].
Qed.

Lemma enough_fuel fuel c want : (32 <= fuel)%nat -> 0 < c -> want <= 2 ^ 31 -> want <= c * 2 ^ Z.of_nat fuel.
Proof. intros Hf Hc Hw. assert (2 ^ 32 <= 2 ^ Z.of_nat fuel) by (apply Z.pow_le_mono_r; lia). nia. Qed.

(** Past half of the range the doubling reaches zero and stays there. *)
Lemma grow_loop_never fuel want c : 0 <= c <= 31 -> 2 ^ 31 < want -> grow_loop fuel want (2 ^ c) = Fault OutOfFuel.
Proof.
  intros Hc Hw. assert (forall fuel, grow_loop fuel want 0 = Fault OutOfFuel) as H0.
  { intros f. induction f as [|f IH]; cbn [grow_loop]; rewrite (proj2 (Z.leb_gt _ _)) by lia; done. }
  revert c Hc. induction fuel as [|fuel IH]; intros c Hc; cbn [grow_loop]; rewrite (proj2 (Z.leb_gt _ _));
    try (assert (2 ^ c <= 2 ^ 31) by (apply Z.pow_le_mono_r; lia); lia); [done|].
  destruct (decide (c = 31)) as [->|]; [apply H0|]. rewrite mulw_pow2 by lia. apply IH. lia.
Qed.

Definition kvout_ok (kv : kvout) : Prop := 0 < capacity kv < 2 ^ 32 /\ kv_n kv <= capacity kv.

Section facts.
Context (fuel : nat) (Hfuel : (32 <= fuel)%nat).

Lemma grow_ok want kv : kvout_ok kv -> kv_fd kv = false -> 0 < want <= 2 ^ 31 ->
  exists c, grow fuel want kv = Ok (set_capacity c kv) /\ capacity kv <= c < 2 ^ 32 /\ want <= c /\ (c = capacity kv \/ c < 2 * want).
Proof using Hfuel.
  intros [Hcap Hn] Hfd Hw. unfold grow. rewrite Hfd, rbind_Ok, (proj2 (Z.eqb_neq _ _)) by lia.
  destruct (grow_loop_enough fuel want (capacity kv) Hcap) as (c & -> & Hc & Hwc & Hmin); [lia|apply enough_fuel; lia|].
  exists c. split; [done|]. split; [done|]. split; [done|]. destruct Hmin as [?|(d & ? & ? & ?)]; [by left|right; lia].
Qed.

Lemma reserve_ok n kv : kvout_ok kv -> kv_fd kv = false -> 0 <= n -> kv_n kv + n <= 2 ^ 31 ->
  exists kv', reserve fuel n kv = Ok kv' /\ kvout_ok kv' /\ kv_fd kv' = false /\ kv_buf kv' = kv_buf kv /\ kv_n kv + n <= capacity kv'.
Proof using Hfuel.
  intros Hok Hfd Hp Hs. unfold reserve, Word.addw. rewrite Word.wrap_small by (split; unfold kv_n in *; lia).
  destruct (Z.ltb_spec (capacity kv) (kv_n kv + n)) as [Hlt|Hge]; [|by exists kv].
  destruct (grow_ok (kv_n kv + n) kv Hok Hfd) as (c & -> & Hc & Hw & _); [destruct Hok; lia|].
  eexists. split; [done|]. destruct Hok as [Hcap Hn]. split; [|done]. split; unfold kv_n in *; cbn; lia.
Qed.
End facts.

Lemma piece_fits p : len (piece_bytes p) <= reserve_size p.
Proof.
  destruct p as [s|n|x]; cbn [piece_bytes reserve_size].
  - pose proof (len_write_string s). lia.
  - apply len_write_array_header.
  - unfold format.write_wide_unsigned. cbn [length]. rewrite length_net_bytes. lia.
Qed.

Lemma put_bytes_ok bs kv : kvout_ok kv -> kv_n kv + len bs <= capacity kv ->
  put_bytes bs kv = Ok (set_buf (kv_buf kv ++ bs) kv) /\ kvout_ok (set_buf (kv_buf kv ++ bs) kv).
Proof.
  intros [Hcap _] Hn. unfold put_bytes. rewrite (proj2 (Z.leb_le _ _)) by done. split; [done|].
  split; [done|]. unfold kv_n in *. cbn. rewrite length_app. lia.
Qed.

Definition reserve_sizes (ps : list piece) : Z := foldr (fun p n => reserve_size p + n) 0 ps.

Lemma reserve_size_pos p : 0 < reserve_size p.
Proof. destruct p; cbn [reserve_size]; lia. Qed.
Lemma reserve_sizes_pos ps : 0 <= reserve_sizes ps.
Proof. induction ps as [|p ps IH]; [done|]. cbn. pose proof (reserve_size_pos p). fold (reserve_sizes ps). lia. Qed.
Lemma reserve_sizes_app ps qs : reserve_sizes (ps ++ qs) = reserve_sizes ps + reserve_sizes qs.
Proof. induction ps as [|p ps IH]; cbn; [done|]. fold (reserve_sizes (ps ++ qs)) (reserve_sizes ps). lia. Qed.

Lemma pieces_fit ps : len (flat_map piece_bytes ps) <= reserve_sizes ps.
Proof.
  induction ps as [|p ps IH]; [done|]. cbn [flat_map]. rewrite length_app. cbn. fold (reserve_sizes ps). pose proof (piece_fits p). lia.
Qed.

(** In memory the pieces follow one another. *)
Lemma unparse_pieces_ok fuel ps kv : (32 <= fuel)%nat -> kvout_ok kv -> kv_fd kv = false ->
  kv_n kv + reserve_sizes ps <= 2 ^ 31 ->
  exists kv', unparse_pieces fuel ps kv = Ok kv' /\ kvout_ok kv' /\ kv_fd kv' = false /\ kv_buf kv' = kv_buf kv ++ flat_map piece_bytes ps.
Proof.
  intros Hf. revert kv. induction ps as [|p ps IH]; intros kv Hok Hfd Hs; cbn [unparse_pieces flat_map]; cbn [reserve_sizes foldr] in Hs; try fold (reserve_sizes ps) in Hs.
  { exists kv. by rewrite app_nil_r. }
  pose proof (reserve_size_pos p) as Hp. pose proof (reserve_sizes_pos ps). assert (len (piece_bytes p) <= reserve_size p) as Hfit by apply piece_fits.
  destruct (reserve_ok fuel Hf (reserve_size p) kv) as (kv1 & Hr & Hok1 & Hfd1 & Hb1 & Hc1); [done|done|lia|lia|].
  unfold unparse_piece. rewrite Hr, rbind_Ok. assert (kv_n kv1 = kv_n kv) as Hn1 by (unfold kv_n; by rewrite Hb1).
  destruct (put_bytes_ok (piece_bytes p) kv1 Hok1 ltac:(lia)) as [-> Hok2]. rewrite rbind_Ok.
  destruct (IH (set_buf (kv_buf kv1 ++ piece_bytes p) kv1)) as (kv' & -> & Hok' & Hfd' & Hb'); [done|done| |].
  { unfold kv_n in *. cbn. rewrite length_app, Hb1. lia. }
  exists kv'. split; [done|]. split; [done|]. split; [done|]. rewrite Hb'. cbn. by rewrite Hb1, app_assoc.
Qed.

(** ** A buffer for a descriptor carries a stream *)

Inductive kvop := OpWrite (bs : bytes) | OpAppend (c : Z) | OpFlush.
Definition op_bytes (op : kvop) : bytes := match op with OpWrite bs => bs | OpAppend c => [c] | OpFlush => [] end.
Definition run_op (fuel : nat) (op : kvop) (kv : kvout) : res kvout :=
  match op with OpWrite bs => kvwrite fuel bs kv | OpAppend c => append fuel c kv | OpFlush => kvflush kv end.
Fixpoint run_ops (fuel : nat) (ops : list kvop) (kv : kvout) : res kvout :=
  match ops with [] => Ok kv | op :: ops => let? kv := run_op fuel op kv in run_ops fuel ops kv end.

(** All that was written to it. *)
Definition stream (kv : kvout) : bytes := kv_sent kv ++ kv_buf kv.
Definition never_fails (io : list write_result) : Prop := Failed ∉ io.

(** The result, or waiting for the descriptor. *)
Definition or_waits {A} (r : res A) (Q : A -> Prop) : Prop := r = Fault Deadlock \/ exists a, r = Ok a /\ Q a.

Lemma or_waits_bind {A B} (r : res A) Q Q' (k : A -> res B) :
  or_waits r Q -> (forall kv, Q kv -> or_waits (k kv) Q') -> or_waits (rbind r k) Q'.
Proof. intros [->|(kv & -> & H)] Hk; [by left|by apply Hk]. Qed.

Lemma rbind_assoc {A B C} (r : res A) (f : A -> res B) (g : B -> res C) : rbind (rbind r f) g = rbind r (fun x => rbind (f x) g).
Proof. by destruct r. Qed.

Lemma or_waits_Ok {A} (kv : A) (Q : A -> Prop) : Q kv -> or_waits (Ok kv) Q.
Proof. right. by exists kv. Qed.

Lemma kvflush_loop_stream io sent kv : never_fails io -> (sent <= length (kv_buf kv))%nat ->
  or_waits (kvflush_loop io sent kv) (fun kv' =>
    kv_fd kv' = kv_fd kv /\ capacity kv' = capacity kv /\ kv_buf kv' = [] /\ kv_sent kv' = kv_sent kv ++ drop sent (kv_buf kv) /\ never_fails (kv_io kv')).
Proof.
  unfold never_fails. revert sent kv. induction io as [|r io IH]; intros sent kv Hio Hs; cbn [kvflush_loop]; unfold kv_n.
  - destruct (Z.leb_spec (len (kv_buf kv)) (Z.of_nat sent)); [|by left]. apply or_waits_Ok. cbn. rewrite drop_ge, app_nil_r by lia. done.
  - destruct (Z.leb_spec (len (kv_buf kv)) (Z.of_nat sent)); [apply or_waits_Ok; cbn; rewrite drop_ge, app_nil_r by lia; done|].
    apply not_elem_of_cons in Hio as [Hr Hio]. destruct r as [cc| |]; [| |done].
    + set (taken := take (S cc) (drop sent (kv_buf kv))).
      assert (length taken <= length (kv_buf kv) - sent)%nat as Ht by (unfold taken; rewrite length_take, length_drop; lia).
      destruct (IH (sent + length taken)%nat (Kvout (kv_fd kv) (kv_buf kv) (capacity kv) (kv_sent kv ++ taken) io) Hio ltac:(cbn; lia)) as [E|(kv' & E & H1 & H2 & H3 & H4 & H5)]; [by left|right].
      exists kv'. split; [done|]. split_and!; [done..| |done]. rewrite H4. cbn. rewrite <- app_assoc. f_equal. rewrite <- drop_drop.
      unfold taken. rewrite length_take. destruct (Nat.le_ge_cases (S cc) (length (drop sent (kv_buf kv)))) as [Hle|Hge].
      * by rewrite Nat.min_l, take_drop.
      * rewrite Nat.min_r, drop_all, take_ge by done. by rewrite app_nil_r.
    + by apply (IH sent (Kvout (kv_fd kv) (kv_buf kv) (capacity kv) (kv_sent kv) io)).
Qed.

(** A buffer of a descriptor; [w] is the most that was ever written to it. *)
Definition fd_ok (cap0 w : Z) (kv : kvout) : Prop :=
  kv_fd kv = true /\ never_fails (kv_io kv) /\ kvout_ok kv /\ capacity kv <= Z.max cap0 (2 * w).

Lemma kvflush_ok cap0 w kv : fd_ok cap0 w kv ->
  or_waits (kvflush kv) (fun kv' => fd_ok cap0 w kv' /\ kv_buf kv' = [] /\ stream kv' = stream kv /\ capacity kv' = capacity kv).
Proof.
  intros (Hfd & Hio & [Hcap Hn] & Hb). unfold kvflush. rewrite Hfd. cbn [check_res]. rewrite rbind_Ok.
  destruct (kvflush_loop_stream (kv_io kv) 0 kv Hio ltac:(lia)) as [E|(kv' & E & H1 & H2 & H3 & H4 & H5)]; [by left|right].
  exists kv'. split; [done|]. split; [|split; [done|split; [|done]]].
  - split; [congruence|]. split; [done|]. split; [|lia]. split; [lia|]. unfold kv_n. rewrite H3. cbn. lia.
  - unfold stream. rewrite H3, H4, app_nil_r. done.
Qed.

Lemma kv_grow fuel cap0 w w' want kv : (32 <= fuel)%nat -> cap0 <= 2 ^ 30 -> 0 <= w <= w' -> w' < 2 ^ 30 -> fd_ok cap0 w kv -> 0 <= want ->
  let want' := if want =? 0 then capacity kv + 1 else want in
  (capacity kv < want' -> want' <= w' + 1) ->
  or_waits (grow fuel want kv) (fun kv' => fd_ok cap0 w' kv' /\ kv_buf kv' = [] /\ stream kv' = stream kv /\ want' <= capacity kv').
Proof.
  intros Hf Hc0 Hw Hw' Hok H0 want' Hle. unfold grow. rewrite (proj1 Hok). eapply or_waits_bind; [by eapply kvflush_ok|].
  intros kv1 (Hok1 & Hb1 & Hs1 & Hcap1). destruct Hok1 as (Hfd1 & Hio1 & [Hcap Hn] & Hbound). rewrite Hcap1 in *.
  assert ((if want =? 0 then Word.addw 32 (capacity kv) 1 else want) = want') as ->.
  { unfold want'. destruct (want =? 0); [|done]. apply Word.wrap_small. split; lia. }
  assert (want' <= 2 ^ 31) as Hw31 by (destruct (Z.lt_ge_cases (capacity kv) want') as [H|H]; [specialize (Hle H)|]; lia).
  destruct (grow_loop_enough fuel want' (capacity kv) Hcap Hw31) as (c & -> & Hc & Hwc & Hmin); [apply enough_fuel; lia|]. rewrite rbind_Ok.
  apply or_waits_Ok. split; [|done]. split; [done|]. split; [done|]. split; [split; [cbn; lia|unfold kv_n in *; cbn; rewrite Hb1; cbn; lia]|cbn].
  destruct (Z.lt_ge_cases (capacity kv) want') as [H|H]; [specialize (Hle H)|]; destruct Hmin as [?|(d & ? & ? & ?)]; lia.
Qed.

Lemma put_stream cap0 w bs kv : fd_ok cap0 w kv -> kv_n kv + len bs <= capacity kv -> kv_n kv + len bs <= w ->
  exists kv', put_bytes bs kv = Ok kv' /\ fd_ok cap0 w kv' /\ kv_n kv' <= w /\ stream kv' = stream kv ++ bs.
Proof.
  intros (Hfd & Hio & Hok & Hb) Hn Hw. destruct (put_bytes_ok bs kv Hok Hn) as [-> Hok']. eexists. split; [done|].
  split; [by split|]. split; [unfold kv_n in *; cbn; rewrite length_app; lia|]. unfold stream. cbn. by rewrite app_assoc.
Qed.

Lemma fd_ok_mono cap0 w w' kv : fd_ok cap0 w kv -> w <= w' -> fd_ok cap0 w' kv.
Proof. intros (? & ? & ? & ?) ?. split_and!; [done..|lia]. Qed.

Lemma run_op_ok fuel cap0 w op kv : (32 <= fuel)%nat -> cap0 <= 2 ^ 30 -> fd_ok cap0 w kv -> kv_n kv <= w -> w + len (op_bytes op) < 2 ^ 30 ->
  or_waits (run_op fuel op kv) (fun kv' => fd_ok cap0 (w + len (op_bytes op)) kv' /\ kv_n kv' <= w + len (op_bytes op) /\ stream kv' = stream kv ++ op_bytes op).
Proof.
  intros Hf Hc0 Hok Hn Hw. assert (0 <= kv_n kv) as H0 by (unfold kv_n; lia).
  assert (forall bs kv1, fd_ok cap0 (w + len bs) kv1 -> kv_n kv1 + len bs <= capacity kv1 -> kv_n kv1 <= w -> stream kv1 = stream kv ->
    or_waits (put_bytes bs kv1) (fun kv' => fd_ok cap0 (w + len bs) kv' /\ kv_n kv' <= w + len bs /\ stream kv' = stream kv ++ bs)) as Hput.
  { intros bs kv1 Hok1 Hr Hn1 <-. destruct (put_stream cap0 (w + len bs) bs kv1 Hok1 Hr ltac:(lia)) as (kv' & -> & ? & ? & ?). by apply or_waits_Ok. }
  destruct op as [bs|c|]; cbn [run_op op_bytes] in *.
  - unfold kvwrite.
    assert (or_waits (if (capacity kv <? Word.addw 32 (kv_n kv) (len bs)) && kv_fd kv then kvflush kv else Ok kv) (fun kv1 =>
      fd_ok cap0 w kv1 /\ kv_n kv1 <= w /\ stream kv1 = stream kv /\ (capacity kv1 < kv_n kv1 + len bs -> kv_n kv1 = 0))) as H1.
    { rewrite (proj1 Hok), andb_true_r. unfold Word.addw. rewrite Word.wrap_small by (split; lia).
      destruct (Z.ltb_spec (capacity kv) (kv_n kv + len bs)); [|apply or_waits_Ok; split_and!; [done..|lia]].
      destruct (kvflush_ok cap0 w kv Hok) as [->|(kv1 & -> & ? & Hb & ? & ?)]; [by left|]. apply or_waits_Ok. unfold kv_n. rewrite Hb. cbn. split_and!; [done|lia|done..]. }
    eapply or_waits_bind; [exact H1|]. clear H1. intros kv1 (Hok1 & Hn1 & Hs1 & Hz). assert (0 <= kv_n kv1) by (unfold kv_n; lia).
    unfold Word.addw. rewrite Word.wrap_small by (split; lia). destruct (Z.ltb_spec (capacity kv1) (kv_n kv1 + len bs)) as [Hlt|Hge].
    + rewrite Hz in * by done. eapply or_waits_bind.
      * apply (kv_grow fuel cap0 w (w + len bs) (0 + len bs) kv1 Hf Hc0); [lia|done|done|lia|]. destruct (Z.eqb_spec (0 + len bs) 0); [|lia].
        destruct Hok1 as (_ & _ & [? ?] & _). lia.
      * intros kv2 (Hok2 & Hb2 & Hs2 & Hc2). apply Hput; [done| |unfold kv_n; rewrite Hb2; cbn; lia|congruence].
        assert (kv_n kv2 = 0) as -> by (unfold kv_n; by rewrite Hb2). destruct Hok1 as (_ & _ & [? ?] & _).
        revert Hc2. destruct (Z.eqb_spec (0 + len bs) 0); lia.
    + rewrite rbind_Ok. apply Hput; [eapply fd_ok_mono; [done|lia]|lia|done|done].
  - unfold append. destruct (Z.eqb_spec (kv_n kv) (capacity kv)) as [He|He].
    + eapply or_waits_bind; [apply (kv_grow fuel cap0 w (w + 1) 0 kv Hf Hc0); [lia|cbn in Hw; lia|done|lia|cbn; lia]|].
      intros kv2 (Hok2 & Hb2 & Hs2 & Hc2). cbn [Z.eqb] in Hc2. apply (Hput [c]); [done| |unfold kv_n; rewrite Hb2; cbn; lia|done].
      unfold kv_n. rewrite Hb2. cbn. lia.
    + rewrite rbind_Ok. apply (Hput [c]); [eapply fd_ok_mono; [done|cbn; lia]| |done|done]. destruct Hok as (_ & _ & [? ?] & _). cbn. lia.
  - destruct (kvflush_ok cap0 w kv Hok) as [->|(kv1 & -> & ? & Hb & Hs & ?)]; [by left|]. apply or_waits_Ok. rewrite app_nil_r, Z.add_0_r. split_and!; [done| |done].
    unfold kv_n. rewrite Hb. cbn. lia.
Qed.

(** *** Values *)

(** The most an item of a value reserves. *)
Fixpoint room (j : Json) : Z :=
  match j with
  | JNull | JBool _ => 1
  | JUnsigned _ | JInt _ | JDouble _ => 9
  | JString s => len s + 5
  | JArray a => 5 + list_sum_with room a
  | JObject o => 5 + list_sum_with (fun kv => len (fst kv) + 5 + room (snd kv)) o
  end.

(** At most [n] bytes more, by which the stream goes on. *)
Definition puts (cap0 w n : Z) (bs : bytes) (kv kv' : kvout) : Prop :=
  fd_ok cap0 w kv' /\ kv_n kv' <= kv_n kv + n /\ stream kv' = stream kv ++ bs.

Lemma puts_then cap0 w n m bs bs' kv (k : kvout -> res kvout) r :
  or_waits r (puts cap0 w n bs kv) ->
  (forall kv', puts cap0 w n bs kv kv' -> or_waits (k kv') (puts cap0 w m bs' kv')) ->
  or_waits (rbind r k) (puts cap0 w (n + m) (bs ++ bs') kv).
Proof.
  intros Hr Hk. eapply or_waits_bind; [exact Hr|]. intros kv' H. destruct (Hk kv' H) as [->|(kv2 & -> & H1 & H2 & H3)]; [by left|].
  apply or_waits_Ok. destruct H as (_ & Hn & Hs). split; [done|]. split; [lia|]. by rewrite H3, Hs, app_assoc.
Qed.

Lemma room_pos j : 1 <= room j.
Proof.
  induction j as [|b|x|x|d|s|a IH|o IH] using json_ind'; cbn [room]; try lia.
  - induction IH as [|x a H _ IHa]; cbn [list_sum_with]; lia.
  - induction IH as [|x a H _ IHa]; cbn [list_sum_with]; lia.
Qed.

Section values.
Context (fuel : nat) (Hf : (32 <= fuel)%nat) (cap0 w : Z) (Hc0 : cap0 <= 2 ^ 30) (Hw : w < 2 ^ 30).

Lemma put_reserved_ok n bs kv : fd_ok cap0 w kv -> len bs <= n -> kv_n kv + n <= w ->
  or_waits (put_reserved fuel n bs kv) (puts cap0 w n bs kv).
Proof using Hf Hc0 Hw.
  intros Hok Hn Hr. assert (0 <= kv_n kv) as H0 by (unfold kv_n; lia). unfold put_reserved, reserve, Word.addw. rewrite Word.wrap_small by (split; lia).
  assert (forall kv1, fd_ok cap0 w kv1 -> kv_n kv1 <= kv_n kv -> stream kv1 = stream kv -> kv_n kv1 + len bs <= capacity kv1 ->
    or_waits (put_bytes bs kv1) (puts cap0 w n bs kv)) as Hput.
  { intros kv1 Hok1 Hn1 Hs1 Hc1. destruct (put_stream cap0 w bs kv1 Hok1 Hc1 ltac:(lia)) as (kv' & E & Hok' & _ & Hs'). rewrite E.
    apply or_waits_Ok. split; [done|]. rewrite Hs', Hs1. split; [|done]. unfold put_bytes in E. destruct (_ <=? _); [|done].
    injection E as <-. unfold kv_n in *. cbn. rewrite length_app. lia. }
  destruct (Z.ltb_spec (capacity kv) (kv_n kv + n)) as [Hlt|Hge]; [|rewrite rbind_Ok; apply Hput; done || lia].
  assert (kv_n kv + n <> 0) by (destruct Hok as (_ & _ & [? ?] & _); lia).
  eapply or_waits_bind.
  - apply (kv_grow fuel cap0 w w (kv_n kv + n) kv Hf Hc0); [lia|done|done|lia|]. destruct (Z.eqb_spec (kv_n kv + n) 0); lia.
  - intros kv1 (Hok1 & Hb1 & Hs1 & Hc1). destruct (Z.eqb_spec (kv_n kv + n) 0); [lia|]. apply Hput; [done| |done|]; unfold kv_n in *; rewrite Hb1; cbn; lia.
Qed.

Lemma append_ok c kv : fd_ok cap0 w kv -> kv_n kv + 1 <= w -> or_waits (append fuel c kv) (puts cap0 w 1 [c] kv).
Proof using Hf Hc0 Hw.
  intros Hok Hr. assert (0 <= kv_n kv) as H0 by (unfold kv_n; lia). unfold append.
  assert (forall kv1, fd_ok cap0 w kv1 -> kv_n kv1 <= kv_n kv -> stream kv1 = stream kv -> kv_n kv1 + len [c] <= capacity kv1 ->
    or_waits (put_bytes [c] kv1) (puts cap0 w 1 [c] kv)) as Hput.
  { intros kv1 Hok1 Hn1 Hs1 Hc1. destruct (put_stream cap0 w [c] kv1 Hok1 Hc1 ltac:(cbn; lia)) as (kv' & E & Hok' & _ & Hs'). rewrite E.
    apply or_waits_Ok. split; [done|]. rewrite Hs', Hs1. split; [|done]. unfold put_bytes in E. destruct (_ <=? _); [|done].
    injection E as <-. unfold kv_n in *. cbn. rewrite length_app. cbn. lia. }
  destruct (Z.eqb_spec (kv_n kv) (capacity kv)) as [He|He].
  - eapply or_waits_bind; [apply (kv_grow fuel cap0 w w 0 kv Hf Hc0); [lia|done|done|lia|cbn; lia]|].
    intros kv1 (Hok1 & Hb1 & Hs1 & Hc1). cbn [Z.eqb] in Hc1. apply Hput; [done| |done|]; unfold kv_n in *; rewrite Hb1; cbn; lia.
  - rewrite rbind_Ok. apply Hput; [done|done|done|]. destruct Hok as (_ & _ & [? ?] & _). cbn. lia.
Qed.

(** A value goes behind what was written, however the descriptor takes it. *)
Lemma unparse_json_ok j : forall kv, fd_ok cap0 w kv -> kv_n kv + room j <= w ->
  or_waits (unparse_json fuel j kv) (puts cap0 w (room j) (unparse j) kv).
Proof using Hf Hc0 Hw.
  induction j as [|b|x|x|d|s|a IH|o IH] using json_ind'; intros kv Hok Hr; cbn [room unparse_json unparse] in *.
  - by apply append_ok.
  - by apply append_ok.
  - apply put_reserved_ok; [done| |lia]. apply len_write_signed8.
  - apply put_reserved_ok; [done| |lia]. apply len_write_unsigned8.
  - apply put_reserved_ok; [done| |lia]. unfold format.write_double. cbn [length]. rewrite length_net_bytes. lia.
  - apply put_reserved_ok; [done|apply len_write_string|lia].
  - pose proof (list_sum_with_pos room a ltac:(intros; pose proof (room_pos x); lia)).
    apply puts_then; [apply put_reserved_ok; [done|apply len_write_array_header|lia]|]. intros kv1 (Hok1 & Hn1 & _).
    assert (kv_n kv1 + list_sum_with room a <= w) as Hr1 by lia. clear Hok Hr Hn1 kv H. revert kv1 Hok1 Hr1.
    induction IH as [|x a Hx _ IHa]; intros kv Hok Hr; cbn [list_sum_with flat_map] in *.
    + apply or_waits_Ok. split; [done|]. split; [lia|]. by rewrite app_nil_r.
    + pose proof (list_sum_with_pos room a ltac:(intros; pose proof (room_pos x0); lia)).
      apply puts_then; [apply Hx; [done|lia]|]. intros kv1 (Hok1 & Hn1 & _). apply IHa; [done|lia].
  - set (mroom := fun kv : bytes * Json => len (fst kv) + 5 + room (snd kv)) in *.
    assert (forall x, 0 <= mroom x) as Hm by (intros x; unfold mroom; pose proof (room_pos (snd x)); lia).
    pose proof (list_sum_with_pos mroom o Hm).
    apply puts_then; [apply put_reserved_ok; [done|apply len_write_map_header|lia]|]. intros kv1 (Hok1 & Hn1 & _).
    assert (kv_n kv1 + list_sum_with mroom o <= w) as Hr1 by lia. clear Hok Hr Hn1 kv H. revert kv1 Hok1 Hr1.
    induction IH as [|[key x] o Hx _ IHo]; intros kv Hok Hr; cbn [list_sum_with flat_map fst snd] in *.
    + apply or_waits_Ok. split; [done|]. split; [lia|]. by rewrite app_nil_r.
    + pose proof (list_sum_with_pos mroom o Hm). unfold mroom in Hr at 1. cbn [fst snd] in Hr. unfold mroom at 1. cbn [fst snd].
      pose proof (room_pos x). rewrite <- app_assoc. replace (len key + 5 + room x + list_sum_with mroom o) with ((len key + 5) + (room x + list_sum_with mroom o)) by lia.
      apply puts_then; [apply put_reserved_ok; [done|pose proof (len_write_string key); lia|lia]|]. intros kv1 (Hok1 & Hn1 & _).
      apply puts_then; [apply Hx; [done|lia]|]. intros kv2 (Hok2 & Hn2 & _). apply IHo; [done|lia].
Qed.
End values.

(** ** Properties *)

(** Whatever [write] takes at a time, and however often it would block, a
    buffer of a descriptor sends all that was written and appended to it, in order
    and once, the rest being in the buffer; no operation fails, writes behind the
    buffer or grows it for ever while less than 2^30 bytes go through it, and only
    waiting for the descriptor stops it. *)
Lemma kvout_stream fuel ops kv : (32 <= fuel)%nat -> kv_fd kv = true -> never_fails (kv_io kv) -> kvout_ok kv -> capacity kv <= 2 ^ 30 ->
  kv_n kv + len (flat_map op_bytes ops) < 2 ^ 30 ->
  run_ops fuel ops kv = Fault Deadlock \/
  exists kv', run_ops fuel ops kv = Ok kv' /\ kvout_ok kv' /\ stream kv' = stream kv ++ flat_map op_bytes ops.
Proof.
  intros Hf Hfd Hio Hok Hcap Hs.
  assert (forall w kv0, fd_ok (capacity kv) w kv0 -> kv_n kv0 <= w -> w + len (flat_map op_bytes ops) < 2 ^ 30 ->
    or_waits (run_ops fuel ops kv0) (fun kv' => kvout_ok kv' /\ stream kv' = stream kv0 ++ flat_map op_bytes ops)) as H.
  { clear Hs. induction ops as [|op ops IH]; intros w kv0 Hok0 Hn0 Hw; cbn [run_ops flat_map] in *.
    - apply or_waits_Ok. rewrite app_nil_r. split; [by apply Hok0|done].
    - rewrite length_app in Hw. eapply or_waits_bind; [apply (run_op_ok fuel (capacity kv) w); [done|done|done|done|lia]|].
      intros kv1 (Hok1 & Hn1 & Hs1). destruct (IH _ kv1 Hok1 Hn1 ltac:(lia)) as [->|(kv' & -> & Hok' & Hs')]; [by left|].
      apply or_waits_Ok. split; [done|]. by rewrite Hs', Hs1, app_assoc. }
  apply (H (kv_n kv) kv); [|lia|done]. split; [done|]. split; [done|]. split; [done|lia].
Qed.

(** C26: a buffer in memory doubles until it is large enough, its bytes unchanged, up to
    2^31 bytes; past that a reservation of a buffer whose capacity is a power of two,
    as [new_bufkvout]'s is, never returns, the capacity wrapping to zero and staying
    there. *)
Theorem kvout_limit fuel n kv : kvout_ok kv -> kv_fd kv = false -> 0 <= n -> kv_n kv + n < 2 ^ 32 ->
  (kv_n kv + n <= 2 ^ 31 -> (32 <= fuel)%nat ->
     exists c, reserve fuel n kv = Ok (set_capacity c kv) /\ kv_n kv + n <= c /\ (c = capacity kv \/ c < 2 * (kv_n kv + n))) /\
  ((exists c, 0 <= c <= 31 /\ capacity kv = 2 ^ c) -> 2 ^ 31 < kv_n kv + n -> reserve fuel n kv = Fault OutOfFuel).
Proof.
  intros Hok Hfd Hn Hs. assert (0 <= kv_n kv) by (unfold kv_n; lia). unfold reserve, Word.addw. rewrite Word.wrap_small by (split; lia). split.
  - intros Hle Hf. destruct (Z.ltb_spec (capacity kv) (kv_n kv + n)) as [Hlt|Hge]; [|exists (capacity kv); split; [by destruct kv|split; [done|by left]]].
    destruct (grow_ok fuel Hf (kv_n kv + n) kv Hok Hfd) as (c & -> & Hc & Hw & Hmin); [destruct Hok; lia|]. by exists c.
  - intros [c [Hc Hcap]] Hgt. assert (2 ^ c <= 2 ^ 31) by (apply Z.pow_le_mono_r; lia).
    rewrite (proj2 (Z.ltb_lt _ _)) by lia. unfold grow. rewrite Hfd, rbind_Ok, (proj2 (Z.eqb_neq _ _)) by lia. rewrite Hcap, grow_loop_never by lia. done.
Qed.

(** ** On buffers *)

Lemma kvout_limit_witness :
  (exists c, reserve 32 300 new_bufkvout = Ok (set_capacity c new_bufkvout) /\ 0 + 300 <= c /\ (c = 256 \/ c < 2 * (0 + 300))) /\
  reserve 1000 (2 ^ 31 + 1) new_bufkvout = Fault OutOfFuel.
Proof.
  assert (kvout_ok new_bufkvout) as Hok by (split; [split; reflexivity|vm_compute; discriminate]). split.
  - apply (kvout_limit 32 300 new_bufkvout Hok eq_refl); [lia|reflexivity|vm_compute; discriminate|]. apply Nat.leb_le. reflexivity.
  - apply (kvout_limit 1000 (2 ^ 31 + 1) new_bufkvout Hok eq_refl); [lia|reflexivity|exists 8; split; [lia|reflexivity]|reflexivity].
Defined.
