(* ===== verification/Checkpoint.v ===== *)
(** * Checkpoints (checkpoint.hh, checkpoint.cc, mtd.cc)

    Each checkpointing thread scans a range of the keys and writes every row that is
    not a marker to a buffer, then to a file behind a header; recovery reads the
    files into an empty table. *)

From Stdlib Require Import Sorting.Sorted.
From S2P Require Export Kvout StringOrder QueryFacts.

#[local] Open Scope Z_scope.
#[local] Open Scope lhm_scope.

(** ** Rows in checkpoints *)

(** What a checkpoint calls of the row type: the items it writes of a row, and
    reading one from what is left of a file. *)
Class CheckpointRow (R : Type) := {
  checkpoint_write : R -> res (list piece);
  checkpoint_read : bytes -> Z -> res (R * bytes);
}.

Class CheckpointRowLaws (R : Type) `{HR : RowType R, !RowLaws R, !CheckpointRow R} := {
  storable : R -> Prop;
  checkpoint_row r cs : row_is r cs -> storable r -> exists ps, checkpoint_write r = Ok ps /\ Forall is_byte (flat_map piece_bytes ps) /\
    forall rest t, exists r', checkpoint_read (flat_map piece_bytes ps ++ rest) t = Ok (r', rest) /\ row_is r' cs /\ timestamp r' = t;
}.

(** What a table's scan promises: the rows from the key on, in order. *)
Class ScanLaws (T R : Type) `{Table T R} := {
  scan_in (t : T) k0 k (r : R) : (k, r) ∈ scan t k0 <-> find t k = Some r /\ string_le k0 k = true;
  scan_sorted (t : T) k0 : StronglySorted (fun a b : bytes * R => string_lt a.1 b.1 = true) (scan t k0);
}.

(** ** State *)

(** [ckstate], without its thread and condition variable. *)
Record ckstate := Ckstate {
  vals : kvout;
  ck_count : Z;
  ck_bytes : Z;
  startkey : bytes;
  endkey : bytes;
}.
Definition set_vals (v : kvout) (c : ckstate) : ckstate := Ckstate v (ck_count c) (ck_bytes c) (startkey c) (endkey c).
Definition set_count (n : Z) (c : ckstate) : ckstate := Ckstate (vals c) n (ck_bytes c) (startkey c) (endkey c).
Definition set_bytes (n : Z) (c : ckstate) : ckstate := Ckstate (vals c) (ck_count c) n (startkey c) (endkey c).

Section checkpoint.
Context {T R : Type} `{RowType R} `{!CheckpointRow R} `{Table T R}.
(** [fuel] for the growth of buffers; [ckp_gen]. *)
Context (fuel : nat) (ckp_gen : Z).

(** [ckstate::visit_value]: whether the scan goes on. *)
Definition visit_value (key : bytes) (value : R) (c : ckstate) : res (bool * ckstate) :=
  if negb (bool_decide (endkey c = [])) && string_ge key (endkey c) then Ok (false, c)
  else if row_is_marker value then Ok (true, c)
  else
    let? v := unparse_piece fuel (PString key) (vals c) in
    let? v := unparse_piece fuel (PWide (timestamp value)) v in
    let? ps := checkpoint_write value in
    let? v := unparse_pieces fuel ps v in
    Ok (true, set_count (Word.addw 64 (ck_count c) 1) (set_vals v c)).

(** The scan's calls of it. *)
Fixpoint visit_values (items : list (bytes * R)) (c : ckstate) : res ckstate :=
  match items with
  | [] => Ok c
  | (key, r) :: items =>
    let? v := visit_value key r c in
    let (go, c) := (v : bool * ckstate) in
    if go then visit_values items c else Ok c
  end.

Definition key_generation : bytes := [103; 101; 110; 101; 114; 97; 116; 105; 111; 110].
Definition key_size : bytes := [115; 105; 122; 101].
Definition key_firstkey : bytes := [102; 105; 114; 115; 116; 107; 101; 121].

(** The header of a checkpoint file. *)
Definition header (c : ckstate) : Json :=
  set_key (set_key (set_key JNull key_generation (JUnsigned ckp_gen)) key_size (JUnsigned (ck_count c))) key_firstkey (JString (startkey c)).

(** [writecheckpoint]: what it writes to the file. *)
Definition writecheckpoint (c : ckstate) : bytes * ckstate :=
  (unparse (header c) ++ kv_buf (vals c), set_bytes (kv_n (vals c)) c).

(** [conc_filecheckpoint]: the file, and the thread's state after. *)
Definition conc_filecheckpoint (t : T) (c : ckstate) : res (bytes * ckstate) :=
  let c := set_vals new_bufkvout c in
  let? c := visit_values (scan t (startkey c)) c in
  let (file, c) := writecheckpoint c in
  Ok (file, set_count 0 c).

(** The ranges that [conc_checkpointer] gives the threads, of the pivots. *)
Definition range_of (pv : list bytes) (nckthreads i : nat) : bytes * bytes :=
  (nth i pv [], if bool_decide (i = nckthreads - 1)%nat then [] else nth (S i) pv []).

Definition start_range (pv : list bytes) (nckthreads i : nat) (c : ckstate) : ckstate :=
  let r := range_of pv nckthreads i in Ckstate (vals c) (ck_count c) (ck_bytes c) r.1 r.2.

(** ** Recovery *)

(** [ckstate::insert], of the rest of the file. *)
Definition ck_insert (t : T) (par : bytes) (ti : thread) : res (T * bytes * thread) :=
  let? r := read_str par in
  let (key, par) := (r : bytes * bytes) in
  let? r := read_int type_unsigned_long 0 par in
  let (ts, par) := (r : Z * bytes) in
  let? r := checkpoint_read par ts in
  let (row, par) := (r : R * bytes) in
  let? _ := check_res (match find t key with None => true | Some _ => false end) in
  let ti := observe_phantoms ti (phantom_epoch t key) in
  Ok (store t key row, par, ti).

Fixpoint ck_inserts (n : nat) (t : T) (par : bytes) (ti : thread) : res (T * bytes * thread) :=
  match n with
  | O => Ok (t, par, ti)
  | S n => let? r := ck_insert t par ti in let '(t, par, ti) := (r : T * bytes * thread) in ck_inserts n t par ti
  end.

(** [j[key]] for a key that is not a number: null when there is none. *)
Definition json_member (j : Json) (key : bytes) : Json :=
  match j with
  | JObject o => match find_key o key with Some i => match o !! i with Some kv => snd kv | None => JNull end | None => JNull end
  | _ => JNull
  end.

(** [read_checkpoint]; the file may not be there. *)
Definition read_checkpoint (file : option bytes) (t : T) (ti : thread) : res (Z * T * thread) :=
  match file with
  | None => Ok (0, t, ti)
  | Some p =>
    let? r := read_json JNull p in
    let (j, par) := (r : Json * bytes) in
    let? _ := check_res (is_i (json_member j key_generation) && is_i (json_member j key_size)) in
    let? gen := as_i (json_member j key_generation) in
    let? n := as_i (json_member j key_size) in
    let? r := ck_inserts (Z.to_nat (Word.wrap 64 n)) t par ti in
    let '(t, _, ti) := (r : T * bytes * thread) in
    Ok (Word.wrap 64 gen, t, ti)
  end.

(** [recovercheckpoint], of the thread's file. *)
Definition recovercheckpoint (file : option bytes) (t : T) (ti : thread) : res (T * thread) :=
  let? r := read_checkpoint file t ti in
  let '(gen, t, ti) := (r : Z * T * thread) in
  let? _ := check_res (ckp_gen =? gen) in
  Ok (t, ti).

(** The checkpointing threads' recoveries, one after another. *)
Fixpoint recover_files (files : list (option bytes)) (t : T) (ti : thread) : res (T * thread) :=
  match files with
  | [] => Ok (t, ti)
  | file :: files => let? r := recovercheckpoint file t ti in let (t, ti) := (r : T * thread) in recover_files files t ti
  end.
End checkpoint.
