(* ===== verification/CheckpointFacts.v ===== *)
(** * What checkpoints recover

    A thread's file holds the rows of its range that are not markers; reading the
    files of all threads, in any order, gives back every such row once. *)

From Stdlib Require Import Sorting.Sorted.
From stdpp Require Import sorting.
From S2P Require Export Checkpoint.

#[local] Open Scope Z_scope.
#[local] Open Scope lhm_scope.

(** ** Reading what was written *)

Lemma read_wide x rest : 0 <= x < 2 ^ 64 -> read_int type_unsigned_long 0 (format.write_wide_unsigned x ++ rest) = Ok (x, rest).
Proof.
  intros Hx. unfold format.write_wide_unsigned. rewrite <- app_comm_cons, read_int_header; [|by refine (bool_decide_unpack _ _)|done].
  change (format.fuint64 <? format.fint8) with true. cbn iota. rewrite net_value_small by (cbn; lia). unfold convert. cbn [it_signed type_unsigned_long it_bits].
  by rewrite Word.wrap_small.
Qed.

Lemma wide_bytes x : Forall is_byte (format.write_wide_unsigned x).
Proof. constructor; [by split|]. apply Forall_rev_byte, le_bytes_range. Qed.

Lemma string_bytes s : Forall is_byte s -> Forall is_byte (format.write_string s).
Proof.
  intros Hs. unfold format.write_string, format.nfixstr, format.ffixstr. apply Forall_app. split; [|done]. destruct (Z.ltb_spec (len s) 32).
  { constructor; [|done]. unfold is_byte. lia. }
  destruct (Z.ltb_spec (len s) 256); [constructor; [by split|constructor; [unfold is_byte; lia|constructor]]|].
  destruct (_ <? _); (constructor; [by split|apply Forall_rev_byte, le_bytes_range]).
Qed.

Section facts.
Context {T R : Type} `{HR : RowType R} `{!RowLaws R} `{!CheckpointRow R} `{!CheckpointRowLaws R} `{HT : Table T R} `{!TableLaws T R} `{!ScanLaws T R}.

(** ** Entries *)

Definition pieces_of (r : R) : list piece := match checkpoint_write r with Ok ps => ps | Fault _ => [] end.
Definition entry_pieces (kr : bytes * R) : list piece := PString kr.1 :: PWide (timestamp kr.2) :: pieces_of kr.2.
Definition all_pieces (es : list (bytes * R)) : list piece := flat_map entry_pieces es.

Definition good_key (k : bytes) : Prop := int_length k /\ Forall is_byte k.
Definition good_row (r : R) : Prop := 0 <= timestamp r < 2 ^ 64 /\ storable r /\ exists cs, row_is r cs.
Definition good_entry (kr : bytes * R) : Prop := good_key kr.1 /\ good_row kr.2.

(** A row of the same columns and time stamp. *)
Definition copy (r r' : R) : Prop := timestamp r' = timestamp r /\ exists cs, row_is r cs /\ row_is r' cs.

Lemma good_pieces r : good_row r -> checkpoint_write r = Ok (pieces_of r) /\ Forall is_byte (flat_map piece_bytes (pieces_of r)) /\
  forall rest, exists r', checkpoint_read (flat_map piece_bytes (pieces_of r) ++ rest) (timestamp r) = Ok (r', rest) /\ copy r r'.
Proof.
  intros (Ht & Hs & cs & Hr). destruct (checkpoint_row r cs Hr Hs) as (ps & Hw & Hb & Hread). unfold pieces_of. rewrite Hw. split; [done|]. split; [done|].
  intros rest. destruct (Hread rest (timestamp r)) as (r' & -> & Hr' & Ht'). exists r'. split; [done|]. split; [done|]. by exists cs.
Qed.

Lemma entry_bytes kr : good_entry kr -> Forall is_byte (flat_map piece_bytes (entry_pieces kr)).
Proof.
  intros [[_ Hk] Hr]. unfold entry_pieces. cbn [flat_map piece_bytes]. rewrite !Forall_app. split; [by apply string_bytes|]. split; [apply wide_bytes|].
  by apply good_pieces.
Qed.

Lemma entries_bytes es : Forall good_entry es -> Forall is_byte (flat_map piece_bytes (all_pieces es)).
Proof.
  induction 1 as [|kr es Hk _ IH]; [done|]. unfold all_pieces. cbn [flat_map]. rewrite flat_map_app, Forall_app. split; [by apply entry_bytes|done].
Qed.

(** ** Writing a range *)

(** In the range that ends at [e]. *)
Definition before_end (e k : bytes) : bool := bool_decide (e = []) || string_lt k e.
Definition in_range (r : bytes * bytes) (k : bytes) : bool := string_le r.1 k && before_end r.2 k.

(** The entries that a scan of a range writes. *)
Definition selected (e : bytes) (items : list (bytes * R)) : list (bytes * R) :=
  filter (fun kr => Is_true (before_end e kr.1 && negb (row_is_marker kr.2))) items.

Definition before (a b : bytes * R) : Prop := string_lt a.1 b.1 = true.

Lemma stops e k : negb (bool_decide (e = [])) && string_ge k e = negb (before_end e k).
Proof. unfold before_end. rewrite string_ge_le, string_lt_nle. by destruct (bool_decide (e = [])), (string_le e k). Qed.

Lemma selected_cons e kr items :
  selected e (kr :: items) = if before_end e kr.1 && negb (row_is_marker kr.2) then kr :: selected e items else selected e items.
Proof.
  unfold selected. destruct (before_end e kr.1 && negb (row_is_marker kr.2)) eqn:E.
  - by rewrite filter_cons_True by (by rewrite E).
  - rewrite filter_cons_False; [done|]. rewrite E. by intros [].
Qed.

Lemma selected_none e kr items : before_end e kr.1 = false -> Forall (before kr) items -> selected e (kr :: items) = [].
Proof.
  intros He Hf. rewrite selected_cons, He. cbn [andb]. induction Hf as [|x items Hx _ IH]; [done|]. rewrite selected_cons.
  assert (before_end e x.1 = false) as ->; [|done]. revert He Hx. unfold before_end, before. rewrite !string_lt_nle, !orb_false_iff, negb_true_iff, !negb_false_iff.
  intros [-> Hk] Hx. split; [done|]. eapply string_le_trans; [done|]. by destruct (string_le_total kr.1 x.1) as [?|?]; [|congruence].
Qed.

Lemma visit_values_run fuel items : (32 <= fuel)%nat -> StronglySorted before items -> forall c,
  (forall kr, kr ∈ selected (endkey c) items -> good_row kr.2) -> kvout_ok (vals c) -> kv_fd (vals c) = false ->
  Word.is_word 64 (ck_count c) -> kv_n (vals c) + reserve_sizes (all_pieces (selected (endkey c) items)) <= 2 ^ 31 ->
  exists c', visit_values fuel items c = Ok c' /\ kv_buf (vals c') = kv_buf (vals c) ++ flat_map piece_bytes (all_pieces (selected (endkey c) items)) /\
    ck_count c' = Word.wrap 64 (ck_count c + len (selected (endkey c) items)) /\ startkey c' = startkey c /\ endkey c' = endkey c.
Proof.
  intros Hfuel Hs. induction Hs as [|kr items Hs IH Hf]; intros c Hg Hok Hfd Hw Hsz; cbn [visit_values].
  { exists c. cbn. rewrite app_nil_r, Z.add_0_r, Word.wrap_small; done. }
  destruct kr as [k r]. unfold visit_value. rewrite stops. destruct (before_end (endkey c) k) eqn:He; cbn [negb]; cycle 1.
  { rewrite rbind_Ok, (selected_none _ (k, r)) by done. exists c. cbn. rewrite app_nil_r, Z.add_0_r, Word.wrap_small; done. }
  rewrite selected_cons in *. cbn [fst snd] in *. rewrite He in *. cbn [andb] in *. destruct (row_is_marker r) eqn:Hm; cbn [negb] in *.
  { rewrite rbind_Ok. by apply IH. }
  destruct (good_pieces r) as (Hwr & _ & _); [by apply (Hg (k, r)); left|].
  unfold all_pieces in Hsz. cbn [flat_map] in Hsz. rewrite reserve_sizes_app in Hsz. fold (all_pieces (selected (endkey c) items)) in Hsz.
  pose proof (reserve_sizes_pos (all_pieces (selected (endkey c) items))).
  destruct (unparse_pieces_ok fuel (entry_pieces (k, r)) (vals c) Hfuel Hok Hfd ltac:(lia)) as (v & Hv & Hok' & Hfd' & Hb').
  assert (forall A (f : kvout -> res A), (let? v := unparse_piece fuel (PString k) (vals c) in let? v := unparse_piece fuel (PWide (timestamp r)) v in
    let? ps := checkpoint_write r in let? v := unparse_pieces fuel ps v in f v) = f v) as Hrun.
  { intros A f. unfold entry_pieces in Hv. cbn [unparse_pieces fst snd] in Hv. rewrite Hwr. revert Hv. destruct (unparse_piece fuel (PString k) (vals c)) as [v1|]; [|done].
    rewrite !rbind_Ok. destruct (unparse_piece fuel (PWide (timestamp r)) v1) as [v2|]; [|done]. rewrite !rbind_Ok. intros ->. by rewrite rbind_Ok. }
  rewrite Hrun, rbind_Ok. destruct (IH (set_count (Word.addw 64 (ck_count c) 1) (set_vals v c))) as (c' & -> & Hb & Hc & Hst & Hen); cbn [vals ck_count endkey startkey set_count set_vals] in *.
  - intros kr Hin. apply Hg. by right.
  - done.
  - done.
  - apply Word.wrap_range. lia.
  - unfold kv_n in *. rewrite Hb', length_app. pose proof (pieces_fit (entry_pieces (k, r))). lia.
  - exists c'. split; [done|]. split; [|split; [|done]].
    + rewrite Hb, Hb'. unfold all_pieces. cbn [flat_map]. by rewrite flat_map_app, app_assoc.
    + rewrite Hc. cbn [length]. unfold Word.addw, Word.wrap. rewrite Z.add_mod_idemp_l by lia. f_equal. lia.
Qed.

(** ** Reading entries *)

(** The entries [es] are in [t'], beside what is in [t]. *)
Definition added (es : list (bytes * R)) (t t' : T) : Prop :=
  (forall k r, (k, r) ∈ es -> exists r', find t' k = Some r' /\ copy r r') /\
  (forall k, k ∉ es.*1 -> find t' k = find t k).

Lemma ck_insert_run t ti kr rest : good_entry kr -> find t kr.1 = None ->
  exists r' ti', ck_insert t (flat_map piece_bytes (entry_pieces kr) ++ rest) ti = Ok (store t kr.1 r', rest, ti') /\ copy kr.2 r'.
Proof.
  destruct kr as [k r]. cbn [fst snd]. intros [[Hk _] Hr] Hn. destruct (good_pieces r Hr) as (_ & _ & Hread). destruct (Hread rest) as (r' & Hrd & Hcopy).
  exists r'. eexists. split; [|done]. unfold ck_insert, entry_pieces. cbn [fst snd flat_map piece_bytes]. rewrite <- !app_assoc, read_str_write, rbind_Ok by done.
  rewrite read_wide, rbind_Ok by apply Hr. rewrite Hrd, rbind_Ok, Hn. cbn [check_res]. by rewrite rbind_Ok.
Qed.

Lemma ck_inserts_run es : forall t ti rest, Forall good_entry es -> NoDup es.*1 -> (forall k, k ∈ es.*1 -> find t k = None) ->
  exists t' ti', ck_inserts (length es) t (flat_map piece_bytes (all_pieces es) ++ rest) ti = Ok (t', rest, ti') /\ added es t t'.
Proof.
  induction es as [|[k r] es IH]; intros t ti rest Hg Hnd Hn; cbn [ck_inserts length].
  { exists t, ti. split; [done|]. split; [by intros ? ? ?%not_elem_of_nil|done]. }
  apply Forall_cons in Hg as [Hk Hg]. cbn [fmap list_fmap fst] in Hnd, Hn. apply NoDup_cons in Hnd as [Hkn Hnd].
  unfold all_pieces. cbn [flat_map]. rewrite flat_map_app, <- app_assoc. fold (all_pieces es).
  destruct (ck_insert_run t ti (k, r) (flat_map piece_bytes (all_pieces es) ++ rest) Hk) as (r' & ti1 & -> & Hc); [apply Hn; left|]. rewrite rbind_Ok. cbn [fst snd] in *.
  destruct (IH (store t k r') ti1 rest Hg Hnd) as (t' & ti' & -> & Hin & Hout).
  { intros k' Hk'. rewrite find_store, bool_decide_false by (intros ->; done). apply Hn. by right. }
  exists t', ti'. split; [done|]. split.
  - intros k' q [[= -> ->]|Hq]%elem_of_cons; [|by apply Hin]. exists r'. split; [|done]. rewrite Hout by done. by rewrite find_store, bool_decide_true.
  - intros k' [Hne Hk']%not_elem_of_cons. rewrite Hout by done. by rewrite find_store, bool_decide_false.
Qed.

(** ** Reading a file *)

Lemma unsigned_member j x : Word.is_word 64 x -> j = JInt x /\ x < 65536 \/ j = JUnsigned x -> is_i j = true /\ exists y, as_i j = Ok y /\ Word.wrap 64 y = x.
Proof.
  intros Hx [[-> Hs]| ->]; (split; [done|]); eexists; (split; [done|]); [by apply Word.wrap_small|].
  unfold Word.signed. cbn zeta. rewrite !(Word.wrap_small 64 x) by done. destruct (x <? 2 ^ (64 - 1)); [by apply Word.wrap_small|].
  unfold Word.wrap. replace (x - 2 ^ 64) with (x + (-1) * 2 ^ 64) by lia. rewrite Z.mod_add by done. by apply Z.mod_small.
Qed.

Lemma read_back_unsigned x : read_back (JUnsigned x) = JInt x /\ x < 65536 \/ read_back (JUnsigned x) = JUnsigned x.
Proof. cbn. destruct (Z.ltb_spec x 65536); [by left|by right]. Qed.

Lemma header_members gen c : header gen c = JObject [(key_generation, JUnsigned gen); (key_size, JUnsigned (ck_count c)); (key_firstkey, JString (startkey c))].
Proof. reflexivity. Qed.

Lemma read_checkpoint_inserts gen c es t ti : Word.is_word 64 gen -> good_key (startkey c) -> len es < 2 ^ 64 -> ck_count c = len es ->
  kv_buf (vals c) = flat_map piece_bytes (all_pieces es) -> Forall is_byte (unparse (header gen c)) -> Forall good_entry es ->
  recovercheckpoint gen (Some (writecheckpoint gen c).1) t ti =
    let? r := ck_inserts (length es) t (flat_map piece_bytes (all_pieces es)) ti in Ok (r.1.1, r.2).
Proof.
  intros Hgen [Hst Hstb] Hlen Hc Hb Hhb Hg. unfold recovercheckpoint, read_checkpoint, writecheckpoint. cbn [fst].
  rewrite read_json_unparse; cycle 1.
  { rewrite header_members. cbn. unfold Word.is_word in *. split; [unfold int_length; cbn; lia|]. split; [refine (bool_decide_unpack _ _); exact I|].
    unfold int_length in *. cbn. repeat split; lia || done. }
  { rewrite Hb. apply Forall_app. split; [done|by apply entries_bytes]. }
  rewrite rbind_Ok, header_members. set (j := read_back _).
  assert (json_member j key_generation = read_back (JUnsigned gen)) as -> by reflexivity.
  assert (json_member j key_size = read_back (JUnsigned (ck_count c))) as -> by reflexivity.
  destruct (unsigned_member (read_back (JUnsigned gen)) gen Hgen (read_back_unsigned gen)) as (-> & y & -> & Hy).
  assert (Word.is_word 64 (ck_count c)) as Hcw by (rewrite Hc; split; lia).
  destruct (unsigned_member (read_back (JUnsigned (ck_count c))) (ck_count c) Hcw (read_back_unsigned _)) as (-> & z & -> & Hz).
  cbn [andb check_res]. rewrite !rbind_Ok, Hz, Hc, Nat2Z.id, Hb. destruct (ck_inserts _ _ _ _) as [[[t' par] ti']|]; [|done].
  rewrite !rbind_Ok, Hy, Z.eqb_refl. done.
Qed.

(** Either no key is there yet, or the assertion fails at the first that is. *)
Definition fresh_entries (es : list (bytes * R)) (t : T) : Prop := NoDup es.*1 /\ forall k, k ∈ es.*1 -> find t k = None.

Lemma fresh_cons k r es t : fresh_entries ((k, r) :: es) t <-> find t k = None /\ forall r', fresh_entries es (store t k r').
Proof.
  unfold fresh_entries. cbn [fmap list_fmap fst]. split.
  - intros [[Hk Hnd]%NoDup_cons Hf]. split; [apply Hf; left|]. intros r'. split; [done|]. intros k' Hk'.
    rewrite find_store, bool_decide_false by (intros ->; done). apply Hf. by right.
  - intros [Hk Hf]. destruct (Hf r) as [Hnd Hfr]. assert (forall k', k' ∈ es.*1 -> k' <> k /\ find t k' = None) as H1.
    { intros k' Hk'. specialize (Hfr k' Hk'). rewrite find_store in Hfr. by destruct (bool_decide_reflect (k' = k)). }
    split; [apply NoDup_cons; split; [intros Hin; by apply (H1 k Hin)|done]|]. intros k' [->|Hk']%elem_of_cons; [done|by apply H1].
Qed.

Lemma ck_inserts_fails es : forall t ti, Forall good_entry es -> ~ fresh_entries es t ->
  ck_inserts (length es) t (flat_map piece_bytes (all_pieces es)) ti = Fault AssertFailed.
Proof.
  induction es as [|[k r] es IH]; intros t ti Hg Hn; cbn [ck_inserts length]; [destruct Hn; split; [constructor|by intros ? ?%not_elem_of_nil]|].
  apply Forall_cons in Hg as [[Hk Hr] Hg]. unfold all_pieces. cbn [flat_map]. rewrite flat_map_app. fold (all_pieces es). destruct (find t k) as [r0|] eqn:Hf.
  - destruct (good_pieces r Hr) as (_ & _ & Hread). destruct (Hread (flat_map piece_bytes (all_pieces es))) as (r' & Hrd & _).
    unfold ck_insert, entry_pieces. cbn [fst snd flat_map piece_bytes]. rewrite <- !app_assoc, read_str_write, rbind_Ok by apply Hk.
    rewrite read_wide, rbind_Ok by apply Hr. by rewrite Hrd, rbind_Ok, Hf.
  - destruct (ck_insert_run t ti (k, r) (flat_map piece_bytes (all_pieces es)) (conj Hk Hr) Hf) as (r' & ti1 & -> & _). rewrite rbind_Ok. cbn [fst snd].
    apply IH; [done|]. intros Hfr. apply Hn, fresh_cons. split; [done|]. intros r2. destruct Hfr as [Hnd Hfr]. split; [done|].
    intros k' Hk'. specialize (Hfr k' Hk'). rewrite !find_store in *. by destruct (bool_decide (k' = k)).
Qed.

Lemma unsigned_bytes x : 0 <= x < 2 ^ 64 -> Forall is_byte (format.write_unsigned8 x).
Proof.
  intros Hx. unfold format.write_unsigned8, format.write_unsigned4, format.nfixuint.
  assert (forall f n, is_byte f -> Forall is_byte (f :: net_bytes n x)) as Hh by (constructor; [done|apply Forall_rev_byte, le_bytes_range]).
  destruct (Z.ltb_spec x 4294967296); [|by apply Hh]. destruct (Z.ltb_spec x 128); [constructor; [unfold is_byte; lia|constructor]|].
  destruct (Z.ltb_spec x 256); [constructor; [by split|constructor; [unfold is_byte; lia|constructor]]|]. destruct (_ <? _); by apply Hh.
Qed.

Lemma header_bytes gen c : Word.is_word 64 gen -> Word.is_word 64 (ck_count c) -> Forall is_byte (startkey c) -> Forall is_byte (unparse (header gen c)).
Proof.
  intros Hg Hc Hs. rewrite header_members. cbn [unparse length flat_map fst snd]. rewrite !Forall_app.
  split; [by refine (bool_decide_unpack _ _)|]. repeat split; try (apply string_bytes); try (by apply unsigned_bytes); try done; by refine (bool_decide_unpack _ _).
Qed.

(** ** One thread *)

Definition range_entries (t : T) (r : bytes * bytes) : list (bytes * R) := selected r.2 (scan t r.1).

Lemma range_entries_in t r k v : (k, v) ∈ range_entries t r <-> find t k = Some v /\ in_range r k = true /\ row_is_marker v = false.
Proof.
  unfold range_entries, selected, in_range. rewrite list_elem_of_filter, scan_in. cbn [fst snd].
  destruct (before_end r.2 k), (row_is_marker v), (string_le r.1 k); cbn; intuition discriminate.
Qed.

Lemma before_irrefl kr : ~ before kr kr.
Proof. unfold before, string_lt. by rewrite String_compare_refl. Qed.

Lemma sorted_keys items : StronglySorted before items -> NoDup items.*1.
Proof.
  induction 1 as [|kr items _ IH Hf]; cbn; constructor; [|done]. intros (x & Hk & Hx)%list_elem_of_fmap.
  rewrite Forall_forall in Hf. specialize (Hf x Hx). unfold before in Hf. rewrite <- Hk in Hf. by apply (before_irrefl kr).
Qed.

Lemma range_entries_NoDup t r : NoDup (range_entries t r).*1.
Proof.
  pose proof (sorted_keys _ (scan_sorted t r.1)) as H. unfold range_entries, selected. eapply sublist_NoDup; [done|].
  apply fmap_sublist. apply sublist_filter.
Qed.

Definition good_table (t : T) : Prop := forall k r, find t k = Some r -> good_entry (k, r).

Lemma range_entries_good t r : good_table t -> Forall good_entry (range_entries t r).
Proof. intros Ht. apply Forall_forall. intros [k v] Hin. by apply Ht, (range_entries_in t r). Qed.

Lemma entries_fewer es : len es <= reserve_sizes (all_pieces es).
Proof.
  induction es as [|kr es IH]; [done|]. unfold all_pieces in *. cbn [flat_map length]. rewrite reserve_sizes_app.
  change (reserve_sizes (entry_pieces kr)) with (reserve_size (PString kr.1) + (reserve_size (PWide (timestamp kr.2)) + reserve_sizes (pieces_of kr.2))).
  pose proof (reserve_sizes_pos (pieces_of kr.2)). pose proof (reserve_size_pos (PString kr.1)). pose proof (reserve_size_pos (PWide (timestamp kr.2))). lia.
Qed.

(** The file of a range, whatever was in the thread's buffer before. *)
Lemma conc_filecheckpoint_run fuel gen t c : (32 <= fuel)%nat -> good_table t -> ck_count c = 0 ->
  reserve_sizes (all_pieces (range_entries t (startkey c, endkey c))) <= 2 ^ 31 ->
  exists c1 c', conc_filecheckpoint fuel gen t c = Ok ((writecheckpoint gen c1).1, c') /\ ck_count c' = 0 /\ startkey c1 = startkey c /\
    ck_count c1 = len (range_entries t (startkey c, endkey c)) /\
    kv_buf (vals c1) = flat_map piece_bytes (all_pieces (range_entries t (startkey c, endkey c))).
Proof.
  intros Hf Ht Hc Hsz. unfold conc_filecheckpoint. pose proof (entries_fewer (range_entries t (startkey c, endkey c))) as Hlen.
  destruct (visit_values_run fuel (scan t (startkey c)) Hf (scan_sorted t (startkey c)) (set_vals new_bufkvout c)) as (c1 & Hv & Hb & Hn & Hst & _);
    cbn [vals ck_count endkey startkey set_vals] in *.
  - intros [k v] [_ (Hfind & _)%scan_in]%list_elem_of_filter. by apply (Ht k v).
  - split; [by split|]. vm_compute. discriminate.
  - done.
  - rewrite Hc. by split.
  - exact Hsz.
  - exists c1, (set_count 0 (writecheckpoint gen c1).2). rewrite Hv, rbind_Ok. split; [done|]. split; [done|]. split; [done|]. split; [|done].
    rewrite Hn, Hc. apply Word.wrap_small. unfold range_entries in *. cbn [fst snd] in *. split; lia.
Qed.

(** ** All threads *)

(** What a thread writes: its state, and the entries. *)
Definition written (gen : Z) (w : ckstate * list (bytes * R)) : Prop :=
  let (c, es) := w in
  good_key (startkey c) /\ len es < 2 ^ 64 /\ ck_count c = len es /\ kv_buf (vals c) = flat_map piece_bytes (all_pieces es) /\ Forall good_entry es.
Definition file_of (gen : Z) (w : ckstate * list (bytes * R)) : option bytes := Some (writecheckpoint gen w.1).1.

Lemma recover_file gen w t ti : Word.is_word 64 gen -> written gen w ->
  recovercheckpoint gen (file_of gen w) t ti = let? r := ck_inserts (length w.2) t (flat_map piece_bytes (all_pieces w.2)) ti in Ok (r.1.1, r.2).
Proof.
  destruct w as [c es]. intros Hgen (Hst & Hlen & Hc & Hb & Hg). apply read_checkpoint_inserts; [done..| |done].
  cbn [fst]. apply header_bytes; [done|rewrite Hc; split; lia|apply Hst].
Qed.

Lemma recover_files_run gen ws : Word.is_word 64 gen -> forall t ti, Forall (written gen) ws -> fresh_entries (concat ws.*2) t ->
  exists t' ti', recover_files gen (map (file_of gen) ws) t ti = Ok (t', ti') /\ added (concat ws.*2) t t'.
Proof.
  intros Hgen. induction ws as [|[c es] ws IH]; intros t ti Hw [Hnd Hn]; cbn [map recover_files].
  { exists t, ti. split; [done|]. split; [by intros ? ? ?%not_elem_of_nil|done]. }
  apply Forall_cons in Hw as [Hce Hw]. cbn [fmap list_fmap concat snd] in *. rewrite fmap_app in *. apply NoDup_app in Hnd as (Hnd1 & Hdis & Hnd2).
  destruct (ck_inserts_run es t ti [] ltac:(apply Hce) Hnd1) as (t1 & ti1 & Hr & Hin1 & Hout1); [intros; apply Hn, elem_of_app; by left|].
  rewrite recover_file by done. rewrite app_nil_r in Hr. cbn [snd]. rewrite Hr, !rbind_Ok. cbn [fst snd].
  destruct (IH t1 ti1 Hw) as (t' & ti' & -> & Hin & Hout).
  { split; [done|]. intros k Hk. rewrite Hout1 by (intros Hk1; by apply (Hdis k)). apply Hn, elem_of_app. by right. }
  exists t', ti'. split; [done|]. split.
  - intros k r [Hkr|Hkr]%elem_of_app; [|by apply Hin]. destruct (Hin1 k r Hkr) as (r' & Hf & Hcp). exists r'. split; [|done]. rewrite Hout; [done|].
    apply Hdis. apply list_elem_of_fmap. by exists (k, r).
  - intros k Hk. rewrite fmap_app, elem_of_app in Hk. rewrite Hout by (intros ?; apply Hk; by right). apply Hout1. intros ?. apply Hk. by left.
Qed.

Lemma recover_files_fails gen ws : Word.is_word 64 gen -> forall t ti, Forall (written gen) ws -> ~ fresh_entries (concat ws.*2) t ->
  recover_files gen (map (file_of gen) ws) t ti = Fault AssertFailed.
Proof.
  intros Hgen. induction ws as [|[c es] ws IH]; intros t ti Hw Hn; cbn [map recover_files].
  { destruct Hn. split; [constructor|by intros ? ?%not_elem_of_nil]. }
  apply Forall_cons in Hw as [Hce Hw]. cbn [fmap list_fmap concat snd] in *. rewrite recover_file by done. cbn [snd].
  destruct (decide (NoDup es.*1)) as [Hnd|Hnd]; [|rewrite ck_inserts_fails; [done|apply Hce|by intros [? _]]].
  assert ((forall k, k ∈ es.*1 -> find t k = None) \/ exists k, k ∈ es.*1 /\ find t k <> None) as [Hf|(k & Hk & Hf)].
  { clear. induction es.*1 as [|k ks IH]; [left; by intros ? ?%not_elem_of_nil|]. destruct (find t k) eqn:E; [right; exists k; split; [left|congruence]|].
    destruct IH as [IH|(k' & ? & ?)]; [left|right; exists k'; split; [by right|done]]. intros k' [->|?]%elem_of_cons; auto. }
  2: { rewrite ck_inserts_fails; [done|apply Hce|]. intros [_ Hfr]. by apply Hf, Hfr. }
  destruct (ck_inserts_run es t ti [] ltac:(apply Hce) Hnd Hf) as (t1 & ti1 & Hr & Hin1 & Hout1). rewrite app_nil_r in Hr. rewrite Hr, !rbind_Ok. cbn [fst snd].
  apply IH; [done|]. intros [Hnd2 Hfr]. apply Hn. unfold fresh_entries. rewrite fmap_app.
  assert (forall k, k ∈ (concat ws.*2).*1 -> k ∉ es.*1) as Hdis.
  { intros k Hk ([k' r] & Hkk & Hkr)%list_elem_of_fmap. cbn in Hkk. subst k'. destruct (Hin1 k r Hkr) as (r' & Hf1 & _). by rewrite (Hfr k Hk) in Hf1. }
  split; [apply NoDup_app; split_and!; [done|intros k Hk Hk2; by apply (Hdis k)|done]|]. intros k [Hk|Hk]%elem_of_app; [by apply Hf|].
  rewrite <- Hout1 by (by apply Hdis). by apply Hfr.
Qed.

(** *** Each key has one range *)

Section ranges.
Context (pv : list bytes) (n : nat) (Hn : (0 < n)%nat).

Definition pivots_ordered : Prop :=
  nth 0 pv [] = [] /\
  forall i j, (0 < i <= j)%nat -> (j < n)%nat -> nth i pv [] <> [] /\ nth j pv [] <> [] /\ string_le (nth i pv []) (nth j pv []) = true.
Context (Hpv : pivots_ordered).

Lemma last_pivot k m : (0 < m <= n)%nat ->
  exists i, (i < m)%nat /\ string_le (nth i pv []) k = true /\ forall j, (i < j < m)%nat -> string_le (nth j pv []) k = false.
Proof.
  intros Hm. induction m as [|m IH]; [lia|]. destruct (decide (m = 0)%nat) as [->|Hm0].
  { exists 0%nat. rewrite (proj1 Hpv). split; [lia|]. split; [apply string_le_nil|lia]. }
  destruct (string_le (nth m pv []) k) eqn:E; [exists m; split; [lia|]; split; [done|lia]|].
  destruct IH as (i & Hi & Hle & Hj); [lia|]. exists i. split; [lia|]. split; [done|]. intros j Hjm. destruct (decide (j = m)) as [->|]; [done|apply Hj; lia].
Qed.

Lemma range_owner k : exists i, (i < n)%nat /\ in_range (range_of pv n i) k = true /\ forall j, (j < n)%nat -> in_range (range_of pv n j) k = true -> j = i.
Proof.
  destruct (last_pivot k n ltac:(lia)) as (i & Hi & Hle & Hmax). exists i. split; [done|]. unfold in_range, range_of, before_end. cbn [fst snd]. split.
  - rewrite Hle. cbn [andb]. destruct (decide (i = n - 1)%nat) as [E|E]; [by rewrite (bool_decide_true (i = n - 1)%nat)|].
    rewrite (bool_decide_false (i = n - 1)%nat) by done. destruct (proj2 Hpv (S i) (S i)) as (Hne & _); [lia|lia|].
    rewrite bool_decide_false by done. cbn [orb]. by rewrite string_lt_nle, Hmax by lia.
  - intros j Hj [Hjle Hjend]%andb_prop. destruct (Nat.lt_trichotomy i j) as [Hlt|[->|Hlt]]; [|done|].
    + rewrite Hmax in Hjle by lia. done.
    + rewrite (bool_decide_false (j = n - 1)%nat) in Hjend by lia. destruct (proj2 Hpv (S j) i) as (Hne & _ & Hji); [lia|lia|]. rewrite bool_decide_false in Hjend by done.
      cbn [orb] in Hjend. rewrite string_lt_nle, (string_le_trans _ _ _ Hji Hle) in Hjend. done.
Qed.

Lemma ranges_NoDup (tables : nat -> T) : NoDup (concat (map (fun i => range_entries (tables i) (range_of pv n i)) (seq 0 n))).*1.
Proof.
  assert (forall l, (concat (map (fun i => range_entries (tables i) (range_of pv n i)) l)).*1 =
    l ≫= fun i => (range_entries (tables i) (range_of pv n i)).*1) as ->.
  { intros l. induction l as [|i l IH]; [done|]. cbn. by rewrite fmap_app, IH. }
  apply NoDup_bind.
  - intros i j k Hi%elem_of_seq Hj%elem_of_seq ([k0 r] & -> & Hk)%list_elem_of_fmap ([k' r'] & Hkk & Hk')%list_elem_of_fmap. cbn in Hkk. subst k'.
    apply range_entries_in in Hk as (_ & Hk & _), Hk' as (_ & Hk' & _). destruct (range_owner k0) as (o & _ & _ & Ho).
    rewrite (Ho i ltac:(lia) Hk), (Ho j ltac:(lia) Hk'). done.
  - intros i _. apply range_entries_NoDup.
  - apply NoDup_seq.
Qed.
End ranges.
End facts.

(** One choice for each number. *)
Lemma choice_list {A} (P : nat -> A -> Prop) n : (forall i, (i < n)%nat -> exists a, P i a) ->
  exists l, length l = n /\ forall i a, l !! i = Some a -> P i a.
Proof.
  induction n as [|n IH]; intros H; [by exists []|]. destruct IH as (l & Hl & Hp); [intros i Hi; apply H; lia|].
  destruct (H n ltac:(lia)) as [a Ha]. exists (l ++ [a]). split; [rewrite length_app; cbn; lia|].
  intros i b [Hb|[Hi [Hi0 <-]%list_lookup_singleton_Some]]%lookup_app_Some; [by apply Hp|]. by replace i with n by lia.
Qed.

(** ** The threads' files *)

Section files.
Context {T R : Type} `{HR : RowType R} `{!RowLaws R} `{!CheckpointRow R} `{!CheckpointRowLaws R} `{HT : Table T R} `{!TableLaws T R} `{!ScanLaws T R}.
Context (fuel : nat) (gen : Z) (n : nat) (pv : list bytes) (tables : nat -> T) (c : nat -> ckstate).

(** Good keys and rows, threads that have written nothing yet, and ranges whose rows
    take at most 2^31 bytes. *)
Definition ready : Prop :=
  Forall good_key pv /\ (forall i, good_table (tables i) /\ ck_count (c i) = 0) /\
  (forall i, (i < n)%nat -> reserve_sizes (all_pieces (range_entries (tables i) (range_of pv n i))) <= 2 ^ 31).

Lemma files_written : (32 <= fuel)%nat -> ready -> exists ws, length ws = n /\ Forall (written gen) ws /\
  ws.*2 = map (fun i => range_entries (tables i) (range_of pv n i)) (seq 0 n) /\
  forall i w, ws !! i = Some w -> exists c', conc_filecheckpoint fuel gen (tables i) (start_range pv n i (c i)) = Ok ((writecheckpoint gen w.1).1, c').
Proof.
  intros Hf (Hgp & Ht & Hsz). destruct (choice_list (fun i w => w.2 = range_entries (tables i) (range_of pv n i) /\ written gen w /\
    exists c', conc_filecheckpoint fuel gen (tables i) (start_range pv n i (c i)) = Ok ((writecheckpoint gen w.1).1, c')) n) as (ws & Hlen & Hws).
  { intros i Hi. destruct (Ht i) as [Hti Hci].
    destruct (conc_filecheckpoint_run fuel gen (tables i) (start_range pv n i (c i)) Hf Hti Hci) as (c1 & c' & Hr & _ & Hst & Hcn & Hb).
    { by apply Hsz. }
    cbn [start_range startkey endkey] in *. rewrite <- surjective_pairing in Hcn, Hb.
    exists (c1, range_entries (tables i) (range_of pv n i)). split; [done|]. split; [|by exists c'].
    pose proof (entries_fewer (range_entries (tables i) (range_of pv n i))). specialize (Hsz i Hi).
    split; [|split; [lia|split; [done|split; [done|by apply range_entries_good]]]]. rewrite Hst. unfold range_of. cbn [fst].
    destruct (nth_in_or_default i pv []) as [Hin| ->]; [|by split]. rewrite Forall_forall in Hgp. by apply Hgp, list_elem_of_In. }
  exists ws. split; [done|]. split; [|split].
  - apply Forall_lookup. intros i w Hi. by apply (Hws i w).
  - apply list_eq. intros i. change (map ?f ?l) with (f <$> l). rewrite !list_lookup_fmap. destruct (ws !! i) as [w|] eqn:E.
    + pose proof (lookup_lt_Some _ _ _ E). rewrite lookup_seq_lt by lia. cbn. f_equal. by apply (Hws i w).
    + apply lookup_ge_None in E. rewrite lookup_seq_ge by lia. done.
  - intros i w Hi. by apply (Hws i w).
Qed.

(** The files in another order are the files of the threads in another order. *)
Lemma files_order (ws : list (ckstate * list (bytes * R))) order : order ≡ₚ map (file_of gen) ws ->
  exists ws', order = map (file_of gen) ws' /\ ws' ≡ₚ ws /\ concat ws'.*2 ≡ₚ concat ws.*2.
Proof.
  intros Hord. destruct (Permutation_map_inv _ _ Hord) as (ws' & -> & Hperm). exists ws'. split; [done|]. split; [done|].
  assert (forall l : list (list (bytes * R)), concat l = mjoin l) as Hj by (induction l as [|x l IH]; [done|cbn; by rewrite IH]). by rewrite !Hj, Hperm.
Qed.

Lemma in_all k r : (k, r) ∈ concat (map (fun i => range_entries (tables i) (range_of pv n i)) (seq 0 n)) <->
  exists i, (i < n)%nat /\ (k, r) ∈ range_entries (tables i) (range_of pv n i).
Proof.
  rewrite list_elem_of_In, in_concat. setoid_rewrite in_map_iff. split.
  - intros (es & (i & <- & Hi%in_seq) & Hkr%list_elem_of_In). exists i. split; [lia|done].
  - intros (i & Hi & Hkr). exists (range_entries (tables i) (range_of pv n i)). split; [|by apply list_elem_of_In]. exists i. split; [done|]. apply in_seq. lia.
Qed.

Lemma live_entry i k r : live (find (tables i) k) = Some r -> in_range (range_of pv n i) k = true -> (k, r) ∈ range_entries (tables i) (range_of pv n i).
Proof.
  intros Hl Hr. apply range_entries_in. unfold live in Hl. destruct (find (tables i) k) as [r0|]; [|done].
  destruct (row_is_marker r0) eqn:Hm; [done|]. by injection Hl as <-.
Qed.
End files.

(** ** Properties *)

Section theorems.
Context {T R : Type} `{HR : RowType R} `{!RowLaws R} `{!CheckpointRow R} `{!CheckpointRowLaws R} `{HT : Table T R} `{!TableLaws T R} `{!ScanLaws T R}.

(** C18: checkpointing threads whose pivots are in order and not empty write files
    from which recovery makes, reading them in any order into an empty table, a table
    with exactly the rows that are not markers: each with its columns and time stamp,
    as it was in the table when the thread of its range scanned it. *)
Theorem checkpoint_recovers fuel gen n pv (tables : nat -> T) (c : nat -> ckstate) : (32 <= fuel)%nat -> Word.is_word 64 gen ->
  (0 < n)%nat -> pivots_ordered pv n -> ready n pv tables c ->
  exists files : list bytes, length files = n /\
    (forall i file, files !! i = Some file -> exists c', conc_filecheckpoint fuel gen (tables i) (start_range pv n i (c i)) = Ok (file, c')) /\
    forall order t0 ti, order ≡ₚ map Some files -> (forall k, find t0 k = None) ->
      exists t ti', recover_files gen order t0 ti = Ok (t, ti') /\
        forall k, exists i, (i < n)%nat /\ in_range (range_of pv n i) k = true /\
          match live (find (tables i) k) with Some r => exists r', find t k = Some r' /\ copy r r' | None => find t k = None end.
Proof.
  intros Hf Hgen Hn Hpv Hready. destruct (files_written fuel gen n pv tables c Hf Hready) as (ws & Hlen & Hw & Hes & Hws).
  exists (map (fun w => (writecheckpoint gen w.1).1) ws). split; [by rewrite length_map|]. split.
  { intros i file Hi. change (map ?f ?l) with (f <$> l) in Hi. apply list_lookup_fmap_Some in Hi as (w & -> & Hwi). by apply (Hws i w). }
  intros order t0 ti Hord Ht0. rewrite map_map in Hord. change (map _ ws) with (map (file_of gen) ws) in Hord.
  destruct (files_order gen ws order Hord) as (ws' & -> & Hperm & Hpc). rewrite Hes in Hpc.
  destruct (recover_files_run gen ws' Hgen t0 ti) as (t & ti' & Hrun & Hadd & Hold); [by rewrite Hperm| |].
  { split; [|intros k _; apply Ht0]. rewrite Hpc. by apply ranges_NoDup. }
  exists t, ti'. split; [done|]. intros k. destruct (range_owner pv n Hn Hpv k) as (i & Hi & Hr & Huniq). exists i. split; [done|]. split; [done|].
  destruct (live (find (tables i) k)) as [r|] eqn:Hlive.
  - apply Hadd. rewrite Hpc. apply (in_all n pv tables). exists i. split; [done|]. by apply live_entry.
  - rewrite Hold; [apply Ht0|]. rewrite Hpc. intros ([k' r] & Hkk & (j & Hj & Hkr)%(in_all n pv tables))%list_elem_of_fmap. cbn in Hkk. subst k'.
    apply range_entries_in in Hkr as (Hfk & Hrk & Hmk). rewrite (Huniq j Hj Hrk) in Hfk. unfold live in Hlive. by rewrite Hfk, Hmk in Hlive.
Qed.

(** When two threads' ranges share a key with a row, as they do when a pivot
    between them is empty, the checkpoint cannot be recovered: in every order of its
    files the assertion that a key is new fails. *)
Lemma overlap_unrecoverable fuel gen n pv (tables : nat -> T) (c : nat -> ckstate) i j k ri rj : (32 <= fuel)%nat -> Word.is_word 64 gen ->
  ready n pv tables c -> (i < j < n)%nat -> in_range (range_of pv n i) k = true -> in_range (range_of pv n j) k = true ->
  live (find (tables i) k) = Some ri -> live (find (tables j) k) = Some rj ->
  exists files : list bytes, length files = n /\
    (forall i file, files !! i = Some file -> exists c', conc_filecheckpoint fuel gen (tables i) (start_range pv n i (c i)) = Ok (file, c')) /\
    forall order t0 ti, order ≡ₚ map Some files -> recover_files gen order t0 ti = Fault AssertFailed.
Proof.
  intros Hf Hgen Hready Hij Hki Hkj Hli Hlj. destruct (files_written fuel gen n pv tables c Hf Hready) as (ws & Hlen & Hw & Hes & Hws).
  exists (map (fun w => (writecheckpoint gen w.1).1) ws). split; [by rewrite length_map|]. split.
  { intros a file Hi. change (map ?f ?l) with (f <$> l) in Hi. apply list_lookup_fmap_Some in Hi as (w & -> & Hwi). by apply (Hws a w). }
  intros order t0 ti Hord. rewrite map_map in Hord. change (map _ ws) with (map (file_of gen) ws) in Hord.
  destruct (files_order gen ws order Hord) as (ws' & -> & Hperm & Hpc). rewrite Hes in Hpc.
  apply recover_files_fails; [done|by rewrite Hperm|]. intros [Hnd _]. rewrite Hpc in Hnd.
  replace (seq 0 n) with (seq 0 (S i) ++ seq (S i) (n - S i)) in Hnd by (rewrite <- seq_app; f_equal; lia).
  rewrite map_app, concat_app, fmap_app in Hnd. apply NoDup_app in Hnd as (_ & Hdis & _). apply (Hdis k); apply list_elem_of_fmap.
  - exists (k, ri). split; [done|]. rewrite list_elem_of_In, in_concat. exists (range_entries (tables i) (range_of pv n i)). split; [|by apply list_elem_of_In, live_entry].
    apply in_map_iff. exists i. split; [done|]. apply in_seq. lia.
  - exists (k, rj). split; [done|]. rewrite list_elem_of_In, in_concat. exists (range_entries (tables j) (range_of pv n j)). split; [|by apply list_elem_of_In, live_entry].
    apply in_map_iff. exists j. split; [done|]. apply in_seq. lia.
Qed.
End theorems.

(** ** Rows that are value bags, and a table that is a map *)

Section bags.
Context (fresh : nat -> bytes) (fresh_length : forall n, length (fresh n) = n).

#[local] Existing Instance bag_row.
#[local] Existing Instance bag_laws.

#[export] Instance bag_checkpoint : CheckpointRow value_bag := {|
  Checkpoint.checkpoint_write b := let? s := row_string 2 b in Ok [PString s];
  Checkpoint.checkpoint_read := ValueBag.checkpoint_read fresh;
|}.

#[export] Instance bag_checkpoint_laws : @CheckpointRowLaws value_bag (bag_row fresh) (bag_laws fresh fresh_length) bag_checkpoint.
Proof.
  refine (Build_CheckpointRowLaws _ (bag_row fresh) (bag_laws fresh fresh_length) bag_checkpoint
    (fun b => len (vb_s b) < 2 ^ 31 /\ Forall is_byte (vb_s b)) _).
  intros b cs Hr [Hl Hb]. cbn [Checkpoint.checkpoint_write bag_checkpoint]. rewrite (read_row_string 2 ltac:(lia) b cs Hr), rbind_Ok.
  exists [PString (vb_s b)]. split; [done|]. cbn [flat_map piece_bytes]. rewrite app_nil_r. split; [by apply string_bytes|]. intros rest t.
  destruct (bag_checkpoint_roundtrip 2 fresh b cs rest t ltac:(lia) fresh_length Hr Hl) as (par & b' & Hw & Hrd & Hr' & Ht).
  unfold ValueBag.checkpoint_write in Hw. rewrite (read_row_string 2 ltac:(lia) b cs Hr), rbind_Ok in Hw. injection Hw as <-. by exists b'.
Defined.
End bags.

Lemma key_leb_le a b : key_leb a b = string_le a b.
Proof.
  revert b. induction a as [|x a IH]; intros [|y b]; cbn [key_leb]; [done|by rewrite string_le_nil|..].
  - unfold string_le. rewrite String_compare_nil_r. cbn [length]. by rewrite (proj2 (Z.leb_gt _ _)) by lia.
  - unfold string_le. rewrite String_compare_cons. destruct (Z.eqb_spec x y) as [->|Hne]; [rewrite Z.ltb_irrefl; apply IH|].
    destruct (Z.ltb_spec x y); [done|]. by rewrite (proj2 (Z.ltb_lt y x)) by lia.
Qed.

#[export] Instance map_table_scan R : ScanLaws (map_table R) R.
Proof.
  split; cbn.
  - intros t k0 k r. rewrite merge_sort_Permutation, list_elem_of_filter, elem_of_map_to_list. cbn. rewrite key_leb_le. destruct (string_le k0 k); cbn; intuition discriminate.
  - intros t k0. set (l := filter _ _). assert (NoDup l.*1) as Hnd.
    { eapply sublist_NoDup; [apply (NoDup_fst_map_to_list (rows t))|]. apply fmap_sublist, sublist_filter. }
    set (R0 := fun a b : bytes * R => Is_true (key_leb a.1 b.1)).
    assert (StronglySorted R0 (merge_sort R0 l)) as Hs.
    { apply StronglySorted_merge_sort.
      - intros x y z. unfold R0. rewrite !key_leb_le, !Is_true_true. apply string_le_trans.
      - intros x y. unfold R0. rewrite !key_leb_le. destruct (string_le_total x.1 y.1) as [-> | ->]; [by left|by right]. }
    assert (NoDup (merge_sort R0 l).*1) as Hnd' by (by rewrite merge_sort_Permutation).
    revert Hs Hnd'. generalize (merge_sort R0 l) as m. clear. intros m Hs Hnd. induction Hs as [|x m _ IH Hf]; constructor.
    + apply IH. by apply NoDup_cons in Hnd as [_ ?].
    + cbn in Hnd. apply NoDup_cons in Hnd as [Hx _]. apply Forall_forall. intros y Hy. rewrite Forall_forall in Hf. specialize (Hf y Hy).
      unfold R0 in Hf. rewrite key_leb_le, Is_true_true in Hf. rewrite string_lt_nle. destruct (string_le y.1 x.1) eqn:E; [|done].
      destruct Hx. rewrite (string_le_antisym _ _ Hf E). apply list_elem_of_fmap. by exists y.
Qed.

(** ** A checkpoint by two threads *)

#[local] Instance z_row : RowType value_bag := bag_row zeros.
#[local] Instance z_laws : RowLaws value_bag := bag_laws zeros (fun n => length_replicate n 0).
#[local] Instance z_checkpoint : CheckpointRow value_bag := bag_checkpoint zeros.
#[local] Instance z_checkpoint_laws : CheckpointRowLaws value_bag := bag_checkpoint_laws zeros (fun n => length_replicate n 0).

Definition no_ckstate : ckstate := Ckstate new_bufkvout 0 0 [] [].
Definition two_ranges : list bytes := [[]; [108]; [255]].
Definition empty_pivot : list bytes := [[]; []; [255]].

Lemma some_table_good : good_table some_table.
Proof.
  intros k r Hr. cbn in Hr. apply lookup_insert_Some in Hr as [[<- <-]|[_ Hr]]; [|apply lookup_insert_Some in Hr as [[<- <-]|[_ Hr]]; [|by rewrite lookup_empty in Hr]].
  all: (split; [split; [reflexivity|repeat constructor; cbn; lia]|]); (split; [cbn; lia|]); (split; [split; [reflexivity|refine (bool_decide_unpack _ _); vm_compute; exact I]|]);
    eexists; apply some_row; split; vm_compute; reflexivity.
Qed.

Lemma checkpoint_recovers_witness : exists files : list bytes, length files = 2%nat /\ forall order, order ≡ₚ map Some files ->
  exists t ti', recover_files 1 order (MapTable ∅ ∅ : map_table value_bag) (Thread 4 true) = Ok (t, ti') /\
    exists i, (i < 2)%nat /\ in_range (range_of two_ranges 2 i) [109] = true /\ exists r', find t [109] = Some r' /\ copy (bag_of 6 [[109]]) r'.
Proof.
  destruct (checkpoint_recovers 32 1 2 two_ranges (fun _ => some_table) (fun _ => no_ckstate)) as (files & Hl & _ & H).
  - apply Nat.leb_le. reflexivity.
  - split; reflexivity || discriminate.
  - apply Nat.ltb_lt. reflexivity.
  - split; [reflexivity|]. intros i j Hij Hj. assert (i = 1 /\ j = 1)%nat as [-> ->] by lia. split; [discriminate|split; [discriminate|reflexivity]].
  - split; [|split].
    + repeat constructor; cbn; lia || discriminate.
    + intros i. split; [exact some_table_good|reflexivity].
    + intros [|[|i]] Hi; [vm_compute; discriminate..|lia].
  - exists files. split; [exact Hl|]. intros order Hord. destruct (H order (MapTable ∅ ∅) (Thread 4 true) Hord (fun k => lookup_empty k)) as (t & ti' & Hr & Hk).
    exists t, ti'. split; [exact Hr|]. exact (Hk [109]).
Defined.

