(* ===== verification/Checkpointer.v ===== *)
(** * Taking checkpoints (mtd.cc)

    The first checkpointing thread starts a checkpoint, joins the others, and commits
    the files once the logs are flushed past it.  The commit's rule is related to what
    [recover] asserts; the threads are a step relation, with crashes. *)

From S2P Require Export Recovery Checkpoint.

#[local] Open Scope Z_scope.
#[local] Open Scope lhm_scope.

(** ** The description of a checkpoint *)

Definition key_kvdb_checkpoint : bytes := [107; 118; 100; 98; 95; 99; 104; 101; 99; 107; 112; 111; 105; 110; 116].
Definition key_min_epoch : bytes := [109; 105; 110; 95; 101; 112; 111; 99; 104].
Definition key_max_epoch : bytes := [109; 97; 120; 95; 101; 112; 111; 99; 104].
Definition key_nckthreads : bytes := [110; 99; 107; 116; 104; 114; 101; 97; 100; 115].
Definition key_pivots : bytes := [112; 105; 118; 111; 116; 115].

(** [pivots] are [pv[1]] to [pv[nckthreads - 1]]. *)
Definition prepare_checkpoint (global_log_epoch ckp_gen min_epoch : Z) (nckthreads : Z) (pivots : list bytes) : Json :=
  let j := set_key JNull key_kvdb_checkpoint (JBool true) in
  let j := set_key j key_min_epoch (JUnsigned min_epoch) in
  let j := set_key j key_max_epoch (JUnsigned global_log_epoch) in
  let j := set_key j key_generation (JUnsigned ckp_gen) in
  let j := set_key j key_nckthreads (JInt nckthreads) in
  set_key j key_pivots (match pivots with [] => JNull | _ => JArray (map JString pivots) end).

(** ** When it is committed *)

Definition max_flushed_step (ge mfe : Z) (li : loginfo) : Z :=
  let fe := if quiescent li then ge else flushed_epoch li in
  if negb (circ_bool mfe) || circ_lt 64 fe mfe then fe else mfe.
Definition max_flushed_epoch (ge : Z) (logs : list loginfo) : Z := foldl (max_flushed_step ge) 0 logs.

Definition may_commit (mfe : Z) (ckpj : Json) : res bool :=
  let? m := as_u (json_member ckpj key_max_epoch) in
  Ok (negb (circ_bool mfe) || circ_gt 64 mfe m).

(** ** The threads *)

(** A thread waits, is told to go, or has created its file and not yet closed it. *)
Inductive ck_phase := CkReady | CkGo | CkWriting.
Inductive main_phase := MainWaits | MainWrites | MainJoins.

Record ck_system := CkSystem {
  generation : Z;                        (* [ckp_gen] *)
  uncommitted : bool;                    (* [uncommitted_ckp] *)
  main_at : main_phase;
  cks : list ck_phase;
  on_disk : Z;                           (* the generation in kvd-ckp-gen *)
  complete : gset (Z * nat);             (* the files that were written to the end *)
}.

Section steps.
Context (nckthreads : nat).

Definition fresh_system (g : Z) (files : gset (Z * nat)) : ck_system := CkSystem g false MainWaits (replicate nckthreads CkReady) g files.

Definition files_of (g : Z) : gset (Z * nat) := list_to_set (map (fun i => (g, i)) (seq 0 nckthreads)).

Inductive ck_step : ck_system -> ck_system -> Prop :=
  (** [ckp_gen.next_nonzero()], and all threads go *)
  | ck_start s : main_at s = MainWaits -> uncommitted s = false ->
      ck_step s (CkSystem (next_nonzero 64 (generation s)) false MainWrites (replicate nckthreads CkGo) (on_disk s) (complete s))
  (** [creat] in [writecheckpoint]; the first thread does its part in the main loop *)
  | ck_creat s i : cks s !! i = Some CkGo ->
      ck_step s (CkSystem (generation s) (uncommitted s) (main_at s) (<[i := CkWriting]> (cks s)) (on_disk s) (complete s ∖ {[(generation s, i)]}))
  (** [fsync] and [close], and the thread is ready *)
  | ck_written s i : cks s !! i = Some CkWriting ->
      ck_step s (CkSystem (generation s) (uncommitted s) (if bool_decide (i = 0%nat) then MainJoins else main_at s) (<[i := CkReady]> (cks s)) (on_disk s)
        ({[(generation s, i)]} ∪ complete s))
  (** every thread is ready: [prepare_checkpoint] *)
  | ck_join s : main_at s = MainJoins -> (forall c, c ∈ cks s -> c = CkReady) ->
      ck_step s (CkSystem (generation s) true MainWaits (cks s) (on_disk s) (complete s))
  (** [commit_checkpoint]: kvd-ckp-gen is replaced; the old files go after that *)
  | ck_commit s : main_at s = MainWaits -> uncommitted s = true ->
      ck_step s (CkSystem (generation s) false MainWaits (cks s) (generation s) (complete s))
  | ck_unlink s i : main_at s = MainWaits -> uncommitted s = false ->
      ck_step s (CkSystem (generation s) (uncommitted s) (main_at s) (cks s) (on_disk s) (complete s ∖ {[(Word.subw 64 (generation s) 1, i)]}))
  (** the server ends at any moment and recovers: [ckp_gen] is what kvd-ckp-gen says *)
  | ck_crash s : ck_step s (fresh_system (on_disk s) (complete s)).

(** ** The invariant *)

Record ck_inv (s : ck_system) : Prop := {
  ci_word : Word.is_word 64 (on_disk s);
  ci_generation : generation s = on_disk s \/ generation s = next_nonzero 64 (on_disk s);
  ci_idle : generation s = on_disk s -> main_at s = MainWaits /\ uncommitted s = false;
  ci_waits : main_at s = MainWaits -> forall c, c ∈ cks s -> c = CkReady;
  ci_new : generation s <> on_disk s -> main_at s = MainWaits -> uncommitted s = true;
  ci_uncommitted : uncommitted s = true -> main_at s = MainWaits;
  ci_count : length (cks s) = nckthreads;
  ci_disk : on_disk s <> 0 -> forall i, (i < nckthreads)%nat -> (on_disk s, i) ∈ complete s;
  ci_written : generation s <> on_disk s -> forall i, cks s !! i = Some CkReady -> (generation s, i) ∈ complete s;
}.

Lemma next_differs g : Word.is_word 64 g -> next_nonzero 64 g <> g /\ Word.is_word 64 (next_nonzero 64 g) /\ Word.subw 64 g 1 <> g.
Proof.
  intros Hg. destruct (next_nonzero_later 64 g ltac:(lia) Hg) as (_ & Hw & E & _). split; [rewrite E; destruct (Z.eqb_spec g (2 ^ 64 - 1)); lia|].
  split; [done|]. unfold Word.subw, Word.wrap. destruct Hg as [Hg0 Hg1]. destruct (decide (g = 0)) as [->|]; [done|].
  rewrite Z.mod_small; lia.
Qed.

Lemma fresh_inv g files : Word.is_word 64 g -> (g <> 0 -> forall i, (i < nckthreads)%nat -> (g, i) ∈ files) -> ck_inv (fresh_system g files).
Proof.
  intros Hg Hf. split; cbn; try done; auto.
  - intros _ c Hc. by apply elem_of_replicate in Hc as [-> _].
  - apply length_replicate.
Qed.

Lemma inv_step s s' : ck_step s s' -> ck_inv s -> ck_inv s'.
Proof.
  intros Hs [Hw Hg Hi Hr Hn Hu0 Hc Hd Hf]. destruct (next_differs _ Hw) as (Hn1 & Hn2 & Hn3).
  assert (forall i c, cks s !! i = Some c -> c <> CkReady -> main_at s <> MainWaits /\ generation s <> on_disk s) as Hbusy.
  { intros i c Hl Hne. assert (main_at s <> MainWaits) as Hm by (intros Hm; apply Hne, (Hr Hm); by eapply list_elem_of_lookup_2). split; [done|]. intros E. by destruct (Hi E). }
  inversion Hs as [? Hm Hu|? i Hl|? i Hl|? Hm Ha|? Hm Hu|? i Hm Hu|?]; subst; clear Hs.
  - assert (generation s = on_disk s) as E by (destruct (decide (generation s = on_disk s)) as [|Hne]; [done|]; rewrite (Hn Hne Hm) in Hu; done).
    rewrite E. split; cbn; try done; auto; [apply length_replicate|]. intros _ i Hl. by apply lookup_replicate in Hl as [? _].
  - destruct (Hbusy i CkGo Hl ltac:(done)) as [Hm Hne]. split; cbn; try done; [by rewrite length_insert| |].
    + intros H0 j Hj. apply elem_of_difference. split; [by apply Hd|]. rewrite elem_of_singleton. congruence.
    + intros _ j Hj. apply list_lookup_insert_Some in Hj as [(_ & ? & _)|[Hij Hj]]; [done|]. apply elem_of_difference.
      split; [by apply Hf|]. rewrite elem_of_singleton. congruence.
  - destruct (Hbusy i CkWriting Hl ltac:(done)) as [Hm Hne]. split; cbn; try done.
    + intros Hm'. by case_bool_decide.
    + intros _. by case_bool_decide.
    + intros Hu. by rewrite (Hu0 Hu) in Hm.
    + by rewrite length_insert.
    + intros H0 j Hj. apply elem_of_union. right. by apply Hd.
    + intros _ j Hj. apply elem_of_union. rewrite elem_of_singleton. apply list_lookup_insert_Some in Hj as [(-> & _ & _)|[Hij Hj]]; [by left|right; by apply Hf].
  - assert (generation s <> on_disk s) as Hne by (intros E; destruct (Hi E); congruence). split; cbn; try done.
  - assert (generation s <> on_disk s) as Hne by (intros E; destruct (Hi E); congruence). destruct Hg as [?|Hg]; [done|]. rewrite Hg in *. split; cbn; try done; auto.
    intros _ i Hlt. apply Hf; [done|]. destruct (lookup_lt_is_Some_2 (cks s) i) as [c Hl]; [by rewrite Hc|].
    rewrite Hl. f_equal. apply (Hr Hm). by eapply list_elem_of_lookup_2.
  - assert (generation s = on_disk s) as E by (destruct (decide (generation s = on_disk s)) as [|Hne]; [done|]; rewrite (Hn Hne Hm) in Hu; done).
    split; cbn; try done. intros H0 j Hj. apply elem_of_difference. split; [by apply Hd|]. rewrite elem_of_singleton. congruence.
  - by apply fresh_inv.
Qed.
End steps.

(** ** Flushed epochs *)

(** What a log counts as flushed. *)
Definition counts_flushed (ge : Z) (li : loginfo) : Z := if quiescent li then ge else flushed_epoch li.

Lemma max_flushed_plain ge logs : (forall li, li ∈ logs -> plain_epoch (counts_flushed ge li) /\ counts_flushed ge li <> 0) ->
  forall m, plain_epoch m -> let mfe := foldl (max_flushed_step ge) m logs in
  plain_epoch mfe /\ (m <> 0 -> mfe <> 0 /\ mfe <= m) /\ (forall li, li ∈ logs -> mfe <= counts_flushed ge li /\ mfe <> 0) /\
  (mfe = m \/ exists li, li ∈ logs /\ mfe = counts_flushed ge li).
Proof.
  induction logs as [|li logs IH]; intros Hp m Hm; cbn [foldl].
  { split; [done|]. split; [lia|]. split; [by intros ? ?%not_elem_of_nil|by left]. }
  destruct (Hp li (list_elem_of_here _ _)) as [Hf Hf0].
  assert (max_flushed_step ge m li = if (m =? 0) || (counts_flushed ge li <? m) then counts_flushed ge li else m) as ->.
  { unfold max_flushed_step. cbn zeta. fold (counts_flushed ge li). by rewrite circ_bool_plain, negb_involutive, (proj1 (plain_lt _ _ Hf Hm)). }
  set (m1 := if _ || _ then _ else _). assert (plain_epoch m1 /\ m1 <> 0 /\ m1 <= counts_flushed ge li /\ (m <> 0 -> m1 <= m) /\ (m1 = m \/ m1 = counts_flushed ge li)) as (H1 & H2 & H3 & H4 & H5).
  { unfold m1. destruct (Z.eqb_spec m 0), (Z.ltb_spec (counts_flushed ge li) m); cbn [orb]; split_and!; done || lia || auto. }
  destruct (IH (fun x H => Hp x (list_elem_of_further _ _ _ H)) m1 H1) as (I1 & I2 & I3 & I4). specialize (I2 H2).
  split; [done|]. split; [lia|]. split.
  - intros x [->|Hx]%elem_of_cons; [lia|by apply I3].
  - destruct I4 as [->|(x & Hx & ->)]; [|right; exists x; split; [by right|done]]. destruct H5 as [->| ->]; [by left|right; exists li; split; [left|done]].
Qed.

Lemma json_max_epoch ge gen mn n pivots : as_u (json_member (prepare_checkpoint ge gen mn n pivots) key_max_epoch) = Ok ge.
Proof. by destruct pivots. Qed.

(** ** Properties *)

(** C20: a checkpoint is committed exactly when every log is flushed past its last
    epoch, a quiescent log counting as flushed up to the present, provided that every
    log has been flushed at all: when the last log never was, the checkpoint is
    committed whatever the others say. *)
Theorem commit_rule ge gen mn mx n pivots logs : plain_epoch mx ->
  (forall li, li ∈ logs -> plain_epoch (counts_flushed ge li) /\ counts_flushed ge li <> 0) ->
  (exists b, may_commit (max_flushed_epoch ge logs) (prepare_checkpoint mx gen mn n pivots) = Ok b /\
     (b = true <-> forall li, li ∈ logs -> mx < counts_flushed ge li)) /\
  (forall li, counts_flushed ge li = 0 -> may_commit (max_flushed_epoch ge (logs ++ [li])) (prepare_checkpoint mx gen mn n pivots) = Ok true).
Proof.
  intros Hmx Hp. destruct (max_flushed_plain ge logs Hp 0 ltac:(unfold plain_epoch; lia)) as (H1 & _ & H3 & H4).
  fold (max_flushed_epoch ge logs) in *. set (mfe := max_flushed_epoch ge logs) in *. unfold may_commit. rewrite json_max_epoch, rbind_Ok. split.
  - eexists. split; [done|]. rewrite circ_bool_plain, negb_involutive, (proj1 (proj2 (plain_lt _ _ H1 Hmx))). split.
    + intros Hb li Hli. destruct (H3 li Hli) as [Hle Hne]. apply orb_true_iff in Hb as [Hb|Hb]; [apply Z.eqb_eq in Hb; done|apply Z.ltb_lt in Hb; lia].
    + intros Hall. apply orb_true_iff. destruct H4 as [E|(li & Hli & E)]; [left; by apply Z.eqb_eq|right; apply Z.ltb_lt; rewrite E; by apply Hall].
  - intros li Hz. rewrite rbind_Ok. f_equal. unfold max_flushed_epoch. rewrite foldl_app. cbn [foldl]. fold (max_flushed_epoch ge logs). fold mfe.
    unfold max_flushed_step. cbn zeta. fold (counts_flushed ge li). rewrite Hz, !circ_bool_plain, negb_involutive.
    rewrite (proj1 (plain_lt 0 mfe ltac:(unfold plain_epoch; lia) H1)).
    rewrite negb_involutive. assert ((if (mfe =? 0) || (0 <? mfe) then 0 else mfe) = 0) as ->; [|done].
    unfold plain_epoch in H1. destruct (Z.eqb_spec mfe 0), (Z.ltb_spec 0 mfe); cbn [orb]; lia.
Qed.

(** C21: a checkpoint that was committed passes recovery's checks on the replay's upper
    bound, when each log's file ends as late as the log counted as flushed or ends
    quiescent, and no quiescent log missed a wake: the bound is past the checkpoint's
    epochs. *)
Theorem committed_recovers ge gen mn mx n pivots logs infos : plain_epoch mn -> 0 < mx < 2 ^ 62 - 1 -> mn <= mx ->
  (forall li, li ∈ logs -> plain_epoch (counts_flushed ge li) /\ counts_flushed ge li <> 0) ->
  may_commit (max_flushed_epoch ge logs) (prepare_checkpoint mx gen mn n pivots) = Ok true ->
  Forall2 (fun li it => plain_info it /\ min_post_quiescent it = 0 /\ (info_quiescent it = false -> counts_flushed ge li <= last_epoch it)) logs infos ->
  circ_lt 64 mn (replay_max_epoch mx infos) = true /\ circ_lt 64 mx (replay_max_epoch mx infos) = true.
Proof.
  intros Hmn Hmx Hle Hp Hc Hi. assert (plain_epoch mx) as Hpx by (unfold plain_epoch; lia).
  destruct (max_flushed_plain ge logs Hp 0 ltac:(unfold plain_epoch; lia)) as (H1 & _ & H3 & _). fold (max_flushed_epoch ge logs) in *.
  unfold may_commit in Hc. rewrite json_max_epoch, rbind_Ok in Hc. injection Hc as Hc. rewrite circ_bool_plain, negb_involutive, (proj1 (proj2 (plain_lt _ _ H1 Hpx))) in Hc.
  assert (forall it, it ∈ infos -> plain_info it /\ min_post_quiescent it = 0 /\ (info_quiescent it = false -> mx < last_epoch it)) as Hall.
  { intros it Hit. apply list_elem_of_lookup in Hit as [i Hit]. destruct (Forall2_lookup_r _ _ _ _ _ Hi Hit) as (li & Hli & Hpl & Hm & Hq).
    split; [done|]. split; [done|]. intros Hnq. apply list_elem_of_lookup_2 in Hli. destruct (H3 li Hli) as [? ?].
    apply orb_true_iff in Hc as [Hc|Hc]; [apply Z.eqb_eq in Hc; done|apply Z.ltb_lt in Hc]. specialize (Hq Hnq). lia. }
  destruct (replay_bounds mx infos ltac:(lia) ltac:(apply Forall_forall; intros it Hit; by apply Hall)) as (Htop & Hpt & Hhi).
  assert (mx < replay_max_epoch mx infos) as Hlt.
  { destruct Hhi as [->|(it & Hit & [(Hq & _ & ->)|(Hq & _)])]; [apply Htop; lia|by apply Hall|]. by destruct (Hall it Hit) as (_ & ? & _). }
  rewrite (proj1 (plain_lt _ _ Hmn Hpt)), (proj1 (plain_lt _ _ Hpx Hpt)). split; apply Z.ltb_lt; lia.
Qed.

(** C19: whenever the server ends, a whole checkpoint is on disk.  However the
    checkpointing threads interleave and wherever a crash comes, the files of the
    generation that kvd-ckp-gen names were all written to the end and are neither
    created anew nor removed; and a checkpoint is only prepared for committing when
    every thread has written its file. *)
Theorem checkpoint_survives nckthreads g files s : Word.is_word 64 g -> (g <> 0 -> files_of nckthreads g ⊆ files) ->
  rtc (ck_step nckthreads) (fresh_system nckthreads g files) s ->
  (on_disk s <> 0 -> files_of nckthreads (on_disk s) ⊆ complete s) /\
  (uncommitted s = true -> generation s <> on_disk s /\ files_of nckthreads (generation s) ⊆ complete s) /\
  (main_at s <> MainWaits -> generation s <> on_disk s).
Proof.
  intros Hg Hf Hs. assert (forall g' i, (g', i) ∈ files_of nckthreads g' <-> (i < nckthreads)%nat) as Hin.
  { intros g' i. unfold files_of. rewrite elem_of_list_to_set, list_elem_of_fmap. split; [intros (j & [= <-] & ?%elem_of_seq); lia|].
    intros Hi. exists i. split; [done|]. apply elem_of_seq. lia. }
  assert (forall g' (x : Z * nat), x ∈ files_of nckthreads g' -> exists i, x = (g', i) /\ (i < nckthreads)%nat) as Hout.
  { intros g' x. unfold files_of. rewrite elem_of_list_to_set, list_elem_of_fmap. intros (j & -> & ?%elem_of_seq). exists j. split; [done|lia]. }
  assert (ck_inv nckthreads s) as [Hw Hgen Hi Hr Hn Hu0 Hc Hd Hwr].
  { assert (ck_inv nckthreads (fresh_system nckthreads g files)) as H0 by (apply fresh_inv; [done|]; intros Hne i Hi; apply (Hf Hne); by apply Hin).
    clear Hg Hf. induction Hs as [|a b c Hab _ IH]; [done|]. apply IH. by eapply inv_step. }
  split; [|split].
  - intros Hne x (i & -> & Hlt)%Hout. by apply Hd.
  - intros Hu. assert (generation s <> on_disk s) as Hne by (intros E; destruct (Hi E); congruence). split; [done|].
    intros x (i & -> & Hlt)%Hout. apply Hwr; [done|]. destruct (lookup_lt_is_Some_2 (cks s) i) as [c Hl]; [by rewrite Hc|]. rewrite Hl. f_equal.
    apply (Hr (Hu0 Hu)). by eapply list_elem_of_lookup_2.
  - intros Hm E. by destruct (Hi E).
Qed.

(** ** On logs and threads *)

(** A log that was flushed up to epoch [e], and one that is quiescent since. *)
Definition flushed_log (e : Z) : loginfo := Loginfo [] e 0 0 e [] 0.
Definition quiescent_log (e : Z) : loginfo := Loginfo [] e e 0 e [] 0.

(** A quiescent log that has not yet seen the wake of another one counts as flushed;
    recovery then finds that it missed the wake, and its check fails. *)
Definition woken_logs : list (option bytes) :=
  [Some (flat_map LogFacts.bytes_of [EEpoch 3; EBase logcmd_quiesce]);
   Some (flat_map LogFacts.bytes_of [EEpoch 3; EEpoch 5; EBase logcmd_wake; EKv logcmd_put [107] [] 2; EEpoch 6; EKv logcmd_put [107] [] 4])].
Lemma commit_missed_wake :
  may_commit (max_flushed_epoch 6 [quiescent_log 3; flushed_log 6]) (prepare_checkpoint 5 1 4 2 [[]]) = Ok true /\
  recover_range 4 5 woken_logs [Info 0 0 0 0 false; Info 0 0 0 0 false] = Fault AssertFailed /\
  recover_range 0 0 woken_logs [Info 0 0 0 0 false; Info 0 0 0 0 false] = Ok (0, 5).
Proof. vm_compute. repeat split; reflexivity. Qed.

Lemma commit_rule_witness :
  (exists b, may_commit (max_flushed_epoch 9 [quiescent_log 3; flushed_log 7]) (prepare_checkpoint 6 1 4 2 [[]]) = Ok b /\
     (b = true <-> forall li, li ∈ [quiescent_log 3; flushed_log 7] -> 6 < counts_flushed 9 li)) /\
  may_commit (max_flushed_epoch 9 ([quiescent_log 3; flushed_log 5] ++ [flushed_log 0])) (prepare_checkpoint 6 1 4 2 [[]]) = Ok true.
Proof.
  assert (forall e, plain_epoch e -> e <> 0 -> forall li, li ∈ [quiescent_log 3; flushed_log e] -> plain_epoch (counts_flushed 9 li) /\ counts_flushed 9 li <> 0) as Hp.
  { intros e He Hne li [->|[->|[]%not_elem_of_nil]%elem_of_cons]%elem_of_cons; [split; [unfold plain_epoch; cbn; lia|discriminate]|exact (conj He Hne)]. }
  split.
  - apply (commit_rule 9 1 4 6 2 [[]] [quiescent_log 3; flushed_log 7]); [unfold plain_epoch; lia|apply Hp; [unfold plain_epoch; lia|lia]].
  - apply (commit_rule 9 1 4 6 2 [[]] [quiescent_log 3; flushed_log 5]); [unfold plain_epoch; lia|apply Hp; [unfold plain_epoch; lia|lia]|reflexivity].
Defined.

Lemma committed_recovers_witness :
  circ_lt 64 4 (replay_max_epoch 6 [Info 3 3 0 0 true; Info 2 8 0 0 false]) = true /\
  circ_lt 64 6 (replay_max_epoch 6 [Info 3 3 0 0 true; Info 2 8 0 0 false]) = true.
Proof.
  apply (committed_recovers 9 1 4 6 2 [[]] [quiescent_log 3; flushed_log 7]); [unfold plain_epoch; lia|lia|lia| |reflexivity|].
  - intros li [->|[->|[]%not_elem_of_nil]%elem_of_cons]%elem_of_cons; (split; [unfold plain_epoch; cbn; lia|discriminate]).
  - repeat constructor; cbn; try lia; discriminate.
Defined.

(** The first checkpoint of one thread, from its start to its commit. *)
Lemma checkpoint_survives_witness :
  let s := CkSystem 1 false MainWaits [CkReady] 1 ({[(1, 0%nat)]} ∪ (∅ ∖ {[(1, 0%nat)]})) in
  files_of 1 1 ⊆ complete s.
Proof.
  refine (proj1 (checkpoint_survives 1 0 ∅ (CkSystem 1 false MainWaits [CkReady] 1 ({[(1, 0%nat)]} ∪ (∅ ∖ {[(1, 0%nat)]}))) _ _ _) _);
    [split; lia|intros H; by destruct H| |discriminate].
  eapply rtc_l; [by apply ck_start|]. eapply rtc_l; [by apply (ck_creat 1 _ 0)|]. eapply rtc_l; [by apply (ck_written 1 _ 0)|].
  eapply rtc_l; [apply ck_join; [done|by intros c [->|[]%not_elem_of_nil]%elem_of_cons]|]. eapply rtc_l; [by apply ck_commit|].
  apply rtc_refl.
Defined.
