(* ===== verification/CheckpointText.v ===== *)
(** * The committed checkpoint's description (mtd.cc, json.hh)

    The description of a checkpoint is committed as JSON text in kvd-ckp-gen, and
    [recover] reads the generation and the epochs of the checkpoint from it. *)

From S2P Require Import Checkpointer JsonTextReread.

#[local] Open Scope Z_scope.
#[local] Open Scope lhm_scope.

(** ** Values of JSON *)

Definition is_number (j : Json) : bool := match j with JInt _ | JUnsigned _ | JDouble _ => true | _ => false end.

Section description.
Context (double_text : Z -> bytes) (strtod string_to_u : bytes -> Z) (constant_empty : bool).

(** [truthy()]; of an empty string when its storage is a constant, whose memo offset
    is 0 and reads as the type of null. *)
Definition truthy (j : Json) : bool :=
  match j with
  | JNull => false
  | JBool b => b
  | JInt x | JUnsigned x => negb (x =? 0)
  | JDouble d => negb (d =? 0)
  | JString s => bool_decide (s <> []) || constant_empty
  | JArray _ | JObject _ => true
  end.

(** [to_u()], with [strtoul] and [strtod] of a string as a parameter. *)
Definition to_u (j : Json) : res Z :=
  match j with
  | JNull => Ok 0
  | JBool b => Ok (Z.b2z b)
  | JInt _ | JUnsigned _ | JDouble _ => as_u j
  | JString s => Ok (string_to_u s)
  | JArray _ | JObject _ => size j
  end.

(** [Json::parse(str)]: null when the text cannot be parsed. *)
Definition json_parse (s : bytes) : res Json := let? r := assign_parse strtod s in Ok (default JNull r).

(** [commit_checkpoint]: the contents of kvd-ckp-gen. *)
Definition commit_checkpoint (ckpj : Json) : bytes := unparse double_text default_manipulator ckpj.

(** The start of [recover]: [ckp_gen], [rec_ckp_min_epoch], [rec_ckp_max_epoch]. *)
Definition read_generation (file : option bytes) : res (Z * Z * Z) :=
  match file with
  | None => Ok (0, 0, 0)
  | Some s =>
    let? ckpj := json_parse s in
    if truthy ckpj && truthy (json_member ckpj key_kvdb_checkpoint) && is_number (json_member ckpj key_generation) then
      let? gen := to_u (json_member ckpj key_generation) in
      let? min_epoch := to_u (json_member ckpj key_min_epoch) in
      let? max_epoch := to_u (json_member ckpj key_max_epoch) in
      Ok (gen, min_epoch, max_epoch)
    else Ok (0, 0, 0)
  end.

(** ** The text that is read back *)

(** The members before the pivots. *)
Definition members (mx gen mn n : Z) : list (bytes * Json) :=
  [(key_kvdb_checkpoint, JBool true); (key_min_epoch, JUnsigned mn); (key_max_epoch, JUnsigned mx); (key_generation, JUnsigned gen);
   (key_nckthreads, JInt n)].

Lemma prepare_members mx gen mn n pivots :
  prepare_checkpoint mx gen mn n pivots
    = JObject (members mx gen mn n ++ [(key_pivots, match pivots with [] => JNull | _ => JArray (map JString pivots) end)]).
Proof. by destruct pivots. Qed.

Lemma height_strings l : height (JArray (map JString l)) = 1.
Proof.
  change (1 + fold_right (fun x h => Z.max (height x) h) 0 (map JString l) = 1).
  assert (fold_right (fun x h => Z.max (height x) h) 0 (map JString l) = 0) as ->; [|done]. induction l as [|x l IH]; cbn; [done|by rewrite IH].
Qed.

Definition key_string (k : bytes) : Prop := Forall (fun c => 0 < c < 0x80) k.

Lemma key_text k : key_string k -> text_string k.
Proof.
  intros Hk. exists (map (fun c => [c]) k). split; [by induction k as [|c k IH]; [|inversion Hk; cbn; f_equal; auto]|].
  induction Hk as [|c k Hc _ IH]; cbn; [constructor|]. constructor; [by constructor|done].
Qed.

Ltac key_is_text := apply key_text; unfold key_string; rewrite <- (Forall_iff (fun c => (0 <? c) && (c <? 0x80) = true)) by lia; by repeat constructor.

Section generation.
Context (mx gen mn n : Z) (Hmx : 0 <= mx < 2 ^ 64) (Hgen : 0 <= gen < 2 ^ 64) (Hmn : 0 <= mn < 2 ^ 64) (Hn : 0 <= n < 2 ^ 31).

Lemma members_readable : Forall (fun kv => text_string (fst kv) /\ readable (snd kv)) (members mx gen mn n).
Proof using Hmx Hgen Hmn Hn.
  unfold members. repeat (apply Forall_cons; split; [split; cbn [fst snd readable]; [key_is_text|lia || done]|]). constructor.
Qed.


Lemma to_u_reread x : 0 <= x < 2 ^ 64 -> to_u (reread_int x) = Ok x.
Proof. intros Hx. unfold reread_int. destruct (Z.ltb_spec x 10); cbn; [|done]. by rewrite Word.wrap_small. Qed.

Lemma generation_read pivots : Forall text_string pivots ->
  read_generation (Some (commit_checkpoint (prepare_checkpoint mx gen mn n pivots))) = Ok (gen, mn, mx).
Proof using Hmx Hgen Hmn Hn.
  intros Hp. set (j := prepare_checkpoint mx gen mn n pivots). set (pv := match pivots with [] => JNull | _ => JArray (map JString pivots) end).
  assert (readable pv) as Hpv.
  { unfold pv. destruct pivots as [|x l]; [done|]. change (fold_right (fun x Q => readable x /\ Q) True (map JString (x :: l))).
    rewrite fold_and_Forall. by apply Forall_map. }
  assert (readable j) as Hr.
  { unfold j. rewrite prepare_members. split; [by refine (bool_decide_unpack _ _)|].
    rewrite (fold_and_Forall (fun kv => text_string (fst kv) /\ readable (snd kv))). apply Forall_app. split; [apply members_readable|].
    constructor; [|constructor]. split; [cbn [fst]; key_is_text|exact Hpv]. }
  assert (height j <= 2048) as Hh.
  { assert (height pv <= 1) as H1.
    { unfold pv. destruct pivots; [done|]. by rewrite height_strings. }
    unfold j. rewrite prepare_members. fold pv. cbn. lia. }
  destruct (root_read strtod double_text default_manipulator j Hr Hh) as (p' & Hc & Hs & Hj).
  unfold read_generation, json_parse, assign_parse, commit_checkpoint. rewrite Hc, rbind_Ok. unfold success. rewrite Hs, Hj. cbn [newline newline_terminator default_manipulator].
  unfold j. rewrite prepare_members. fold pv. change (bool_decide ([] = []) && (st_final =? st_final)) with true. cbn iota. rewrite rbind_Ok.
  set (r := reread _). change (default JNull (Some r)) with r. rewrite rbind_Ok. change (truthy r && truthy (json_member r key_kvdb_checkpoint)) with true. cbn [andb].
  change (json_member r key_generation) with (reread_int gen). change (json_member r key_min_epoch) with (reread_int mn).
  change (json_member r key_max_epoch) with (reread_int mx).
  assert (is_number (reread_int gen) = true) as -> by (unfold reread_int; by destruct (gen <? 10)).
  by rewrite !to_u_reread.
Qed.

End generation.

(** ** The text that is not *)

(** Bytes that are in no text: NUL and the bytes that start no character. *)
Definition no_text_byte (c : Z) : Prop := c = 0 \/ 0x80 <= c < 0xC2 \/ 0xF5 <= c < 256.

Lemma encode_text_app u t : text_string u -> encode_json (u ++ t) = encode_json u ++ encode_json t.
Proof using.
  intros (cs & -> & Hcs). induction Hcs as [|u cs Hu _ IH]; [done|]. cbn [concat].
  destruct (run_char 0 [] u [] Hu) as (e & He & _). by rewrite <- app_assoc, !He, IH, app_assoc.
Qed.

Lemma bad_string_read st u c s rest : text_string u -> no_text_byte c ->
  exists r, string_body st [] (encode_json (u ++ c :: s) ++ rest) = Ok (st_error, [], r).
Proof using.
  intros Hu Hc. rewrite (encode_text_app _ _ Hu), <- app_assoc. unfold string_body.
  destruct (run_string st u (encode_json (c :: s) ++ rest) Hu [] _ (le_n _)) as (fuel & Hf & ->). cbn [app].
  assert (c = 0 \/ (0x80 <= c < 0xC2 \/ 0xF5 <= c < 256)) as [->|Hc'] by (destruct Hc; auto).
  - assert (exists t, encode_json (0 :: s) = escape 0 ++ t) as [t Ht].
    { destruct s as [|c1 [|c2 s]]; cbn; by eexists. }
    rewrite Ht in *. destruct fuel as [|fuel]; [cbn in Hf; lia|]. by eexists.
  - rewrite encode_high in * by lia. cbn [app] in *. destruct fuel as [|fuel]; [cbn in Hf; lia|]. cbn [string_loop].
    rewrite in_range_spec by lia. rewrite (proj2 (Z.ltb_ge c 128)), andb_false_r by lia. cbn [andb].
    rewrite (proj2 (Z.eqb_neq c 34)), (proj2 (Z.eqb_neq c 92)) by lia. unfold consume_utf8. rewrite in_range_spec by lia.
    assert ((0xC2 <=? c) && (c <? 0xF5) = false) as -> by lia. by eexists.
Qed.

(** The step that reads such a string. *)
Lemma bad_string_step p u c s rest : jp_state p ∈ value_states -> text_string u -> no_text_byte c ->
  exists p' r, consume_step strtod true p 34 (encode_json (u ++ c :: s) ++ rest) = Ok (Continue p' r) /\ jp_state p' = st_error.
Proof using.
  intros Hp Hu Hc. destruct (value_state_cases _ Hp) as (H0 & Hle & Hf). unfold consume_step. change (is_space 34) with false. cbn [Z.eqb Pos.eqb].
  rewrite Hle. unfold string_value, consume_string. cbn [jp_state set_str jp_str]. rewrite full_len by done. cbn [Z.eqb rbind res_bind].
  rewrite (proj2 (Z.eqb_neq _ st_error)) by (unfold st_error; lia).
  destruct (bad_string_read (jp_state p) u c s rest Hu Hc) as (r & ->). cbn. by eexists _, _.
Qed.

Lemma array_text_app sep ind f a2 : forall a b,
  array_text sep ind f b (a ++ a2) = array_text sep ind f b a ++ array_text sep ind f (b || negb (bool_decide (a = []))) a2.
Proof using.
  induction a as [|x a IH]; intros b; cbn [app array_text]; [by rewrite orb_false_r|]. rewrite IH, <- !app_assoc, orb_true_r. done.
Qed.

Lemma object_text_app sep ind colon f o2 : forall o b,
  object_text sep ind colon f b (o ++ o2) = object_text sep ind colon f b o ++ object_text sep ind colon f (b || negb (bool_decide (o = []))) o2.
Proof using.
  induction o as [|[k v] o IH]; intros b; cbn [app object_text]; [by rewrite orb_false_r|].
  rewrite IH, orb_true_r. rewrite <- !app_assoc. cbn [app]. rewrite <- !app_assoc. cbn [app]. by rewrite <- !app_assoc.
Qed.

(** An array of strings of which one is no text, in a place for a value. *)
Lemma bad_array_read p v p' ps u c s qs rest d : accepts p v p' -> is_a v = true -> stack_size p < 2047 -> 1 <= d ->
  Forall text_string ps -> text_string u -> no_text_byte c ->
  exists p2 bs p3 r, runs strtod p (hard_unparse double_text default_manipulator d (JArray (map JString ps ++ JString (u ++ c :: s) :: qs)) ++ rest) p2 (34 :: bs)
    /\ 0 <= jp_state p2 /\ consume_step strtod true p2 34 bs = Ok (Continue p3 r) /\ jp_state p3 = st_error.
Proof using.
  intros Hacc Hk Hn Hd Hps Hu Hc. destruct (unparse_array double_text default_manipulator d (map JString ps ++ JString (u ++ c :: s) :: qs))
    as (sp & ind1 & ind2 & Hsp & Hi1 & _ & _ & ->).
  rewrite (proj2 (Z.eqb_neq d 0)), app_nil_r, array_text_app by lia. cbn [app orb]. set (f := hard_unparse double_text default_manipulator (d + 1)).
  assert (forall y, is_o (JArray y) = is_o v) as Ho by (intros y; by destruct v).
  set (tl := array_text (44 :: sp) ind1 f (negb (bool_decide (map JString ps = []))) (JString (u ++ c :: s) :: qs)).
  rewrite <- !app_assoc. set (rest' := ind2 ++ [93] ++ rest).
  destruct (open_runs strtod p v p' 91 (JArray []) (array_text (44 :: sp) ind1 f false (map JString ps) ++ tl ++ rest') Hacc) as (p1 & Hr1 & Hl1 & Hs1 & Hn1);
    [by split; [|apply Ho]|by left|lia|].
  assert (Forall (reads strtod f) (map JString ps)) as Hreads.
  { apply Forall_map. eapply Forall_impl; [exact Hps|]. intros x Hx. by apply unparse_reads; [lia|]. }
  destruct (array_read strtod ind1 sp f Hi1 Hsp _ Hreads true [] p1 (tl ++ rest') Hl1 Hs1) as (p2 & Hr2 & Hk2 & Hj2 & Hs2).
  { rewrite height_strings. unfold member_room in Hn1. destruct (_ =? _); lia. }
  { intros Hne. unfold tl. rewrite bool_decide_false by done. cbn. position. }
  set (more := array_text (44 :: sp) ind1 f true qs ++ rest').
  assert (exists p3, runs strtod p2 (tl ++ rest') p3 (34 :: encode_json (u ++ c :: s) ++ 34 :: more) /\ jp_state p3 ∈ value_states) as (p3 & Hr3 & Hs3).
  { assert (tl ++ rest' = (if bool_decide (map JString ps = []) then [] else 44 :: sp) ++ ind1 ++ 34 :: encode_json (u ++ c :: s) ++ 34 :: more) as ->.
    { unfold tl, more, f. cbn [array_text hard_unparse]. rewrite (proj2 (Z.eqb_neq (d + 1) 0)) by lia. cbn [andb]. rewrite app_nil_r.
      destruct (bool_decide _); cbn [negb app]; rewrite <- !app_assoc; cbn [app]; by rewrite <- ?app_assoc. }
    destruct (bool_decide (map JString ps = [])); cbn [andb] in Hs2.
    - exists p2. split; [|rewrite Hs2; position]. cbn [app]. apply runs_spaces; [by rewrite Hs2|done].
    - exists (set_state st_array_value p2). split; [|position]. cbn [app]. eapply runs_trans; [by apply comma_array|].
      eapply runs_trans; [by apply runs_spaces|]. by apply runs_spaces. }
  destruct (bad_string_step p3 u c s (34 :: more) Hs3 Hu Hc) as (p4 & r & Hstep & Hs4). exists p3, (encode_json (u ++ c :: s) ++ 34 :: more), p4, r.
  split; [|split; [apply value_state_cases, Hs3|by split]].
  eapply runs_trans; [exact Hr1|]. eapply runs_trans; [exact Hr2|exact Hr3].
Qed.

Lemma runs_fail p s p2 c bs p3 r : runs strtod p s p2 (c :: bs) -> 0 <= jp_state p2 ->
  consume_step strtod true p2 c bs = Ok (Continue p3 r) -> jp_state p3 = st_error ->
  consume_loop strtod (length s) true p s = Ok (p3, r).
Proof using.
  intros Hr H0 Hs He. destruct (Hr _ (le_n _)) as ([|fuel] & Hf & ->); [cbn in Hf; lia|]. cbn [consume_loop].
  rewrite (proj2 (Z.ltb_ge _ _) H0), Hs, rbind_Ok. by destruct fuel; cbn; rewrite He.
Qed.

Lemma generation_unread mx gen mn n ps u c s qs : 0 <= mx < 2 ^ 64 -> 0 <= gen < 2 ^ 64 -> 0 <= mn < 2 ^ 64 -> 0 <= n < 2 ^ 31 ->
  Forall text_string ps -> text_string u -> no_text_byte c ->
  read_generation (Some (commit_checkpoint (prepare_checkpoint mx gen mn n (ps ++ (u ++ c :: s) :: qs)))) = Ok (0, 0, 0).
Proof.
  intros Hmx Hgen Hmn Hn Hps Hu Hc. unfold commit_checkpoint. rewrite prepare_members.
  assert (match ps ++ (u ++ c :: s) :: qs with [] => JNull | _ => JArray (map JString (ps ++ (u ++ c :: s) :: qs)) end
    = JArray (map JString ps ++ JString (u ++ c :: s) :: map JString qs)) as -> by (by destruct ps; cbn; rewrite ?map_app).
  set (pv := JArray _). unfold read_generation, json_parse, assign_parse, consume, unparse. cbn [jp_state new_streaming_parser].
  change ((0 <=? st_initial) && _) with false. cbn iota.
  destruct (unparse_object double_text default_manipulator 0 (members mx gen mn n ++ [(key_pivots, pv)]))
    as (sp1 & sp2 & ind1 & ind2 & Hsp1 & Hsp2 & Hi1 & _ & _ & ->). cbn [Z.eqb newline newline_terminator default_manipulator].
  rewrite app_nil_r, object_text_app. change (false || negb (bool_decide (members mx gen mn n = []))) with true. change (0 + 1) with 1.
  set (f := hard_unparse double_text default_manipulator 1). cbn [object_text]. rewrite app_nil_r.
  set (text := 123 :: _).
  enough (exists p r, consume_loop strtod (length text) true new_streaming_parser text = Ok (p, r) /\ jp_state p = st_error) as (p & r & -> & E).
  { rewrite !rbind_Ok. unfold success. rewrite E, andb_false_r. done. }
  set (o := map (fun kv => (fst kv, reread (snd kv))) (members mx gen mn n)).
  destruct (object_read strtod ind1 sp2 f Hi1 Hsp2 sp1 Hsp1 (members mx gen mn n)) with (first := true) (acc := @nil (bytes * Json))
    (p := StreamingParser st_object_initial [] [] (JObject []))
    (tl := 44 :: sp2 ++ ind1 ++ 34 :: encode_json key_pivots ++ 34 :: 58 :: sp1 ++ f pv ++ ind2 ++ [125])
    as (p1 & Hr1 & Hk1 & Hj1 & Hs1).
  { eapply Forall_impl; [by apply members_readable|]. intros x [H1 H2]. split; [done|]. by apply unparse_reads. }
  { by refine (bool_decide_unpack _ _). }
  { done. }
  { done. }
  { done. }
  { cbn. position. }
  change (jp_state p1 = st_object_delim) in Hs1. change (jp_json p1 = JObject o) in Hj1. cbn [jp_stack] in Hk1.
  set (p2 := set_state st_object_key p1).
  assert (load (current p2) p2 = Ok (JObject o)) as Hl2 by (unfold load, current, p2; cbn; by rewrite Hk1, Hj1).
  assert (stack_size (behind_key p2 o key_pivots) < 2047) as Hsz by (unfold stack_size; cbn; by rewrite Hk1).
  destruct (bad_array_read _ _ _ ps u c s (map JString qs) (ind2 ++ [125]) 1 (accepts_behind p2 o key_pivots (JArray []) Hl2) eq_refl Hsz ltac:(lia) Hps Hu Hc)
    as (p3 & bs & p4 & r & Hr3 & H03 & Hstep & Hs4). exists p4, r. split; [|done].
  eapply runs_fail; [|exact H03|exact Hstep|exact Hs4]. unfold text.
  eapply runs_trans; [apply (root_open strtod 123 (JObject [])); by right|]. repeat (rewrite <- !app_assoc; cbn [app]).
  eapply runs_trans; [exact Hr1|]. eapply runs_trans; [apply (runs_step strtod p1 44 _ p2); [by rewrite Hs1|unfold consume_step; by rewrite Hs1|done]|].
  eapply runs_trans; [by apply runs_spaces|]. eapply runs_trans; [by apply runs_spaces|].
  eapply runs_trans; [apply key_read; [done|by right|exact Hl2| |key_is_text]|exact Hr3].
  by refine (bool_decide_unpack _ _).
Qed.

(** C22: the description of a committed checkpoint is read back by recovery, with its
    generation and epochs, when its pivots are texts.  A pivot is a key of the table,
    which may be any bytes: when one has a NUL or a byte that starts no character,
    behind a text, the description is committed all the same and recovery finds no
    checkpoint. *)
Theorem committed_generation mx gen mn n pivots : 0 <= mx < 2 ^ 64 -> 0 <= gen < 2 ^ 64 -> 0 <= mn < 2 ^ 64 -> 0 <= n < 2 ^ 31 ->
  let file := commit_checkpoint (prepare_checkpoint mx gen mn n pivots) in
  (Forall text_string pivots -> read_generation (Some file) = Ok (gen, mn, mx))
  /\ forall ps u c s qs, pivots = ps ++ (u ++ c :: s) :: qs -> Forall text_string ps -> text_string u -> no_text_byte c ->
     read_generation (Some file) = Ok (0, 0, 0).
Proof.
  intros Hmx Hgen Hmn Hn. cbn zeta. split; [by apply generation_read|]. intros ps u c s qs -> Hps Hu Hc. by apply generation_unread.
Qed.
End description.

Lemma committed_generation_witness :
  let file pivots := commit_checkpoint (fun _ => []) (prepare_checkpoint 9 4 7 3 pivots) in
  read_generation (fun _ => 0) (fun _ => 0) false (Some (file [[107]; [109; 0xC3; 0xA9]])) = Ok (4, 7, 9)
  /\ read_generation (fun _ => 0) (fun _ => 0) false (Some (file [[107]; [109; 0xFF; 1]])) = Ok (0, 0, 0).
Proof.
  assert (text_string [107]) as Hk by (exists [[107]]; split; [done|]; constructor; [constructor; lia|constructor]).
  cbn zeta. split.
  - apply (committed_generation (fun _ => []) (fun _ => 0) (fun _ => 0) false 9 4 7 3 [[107]; [109; 0xC3; 0xA9]]); [lia..|].
    constructor; [exact Hk|]. constructor; [|constructor]. exists [[109]; [0xC3; 0xA9]]. split; [done|].
    constructor; [constructor; lia|]. constructor; [constructor; unfold cont_byte; lia|constructor].
  - apply (committed_generation (fun _ => []) (fun _ => 0) (fun _ => 0) false 9 4 7 3 [[107]; [109; 0xFF; 1]]) with (ps := [[107]]) (u := [109]) (c := 0xFF) (s := [1]) (qs := []);
      [lia..|done|by constructor| |right; right; lia].
    exists [[109]]. split; [done|]. constructor; [constructor; lia|constructor].
Defined.
