(* ===== verification/Server.v ===== *)
(** * The server's connections (mtd.cc)

    A connection's requests come in reads of any size; [receive] parses the next one,
    [onego] executes it, and the reply goes to the connection's output buffer, which
    is flushed before the server waits for more input.  What the reads answer is given
    with the connection. *)

From S2P Require Export Query QueryFacts Kvout MsgpackStream.
From S2P Require Import Checkpoint.

#[local] Open Scope Z_scope.
#[local] Open Scope lhm_scope.

(** ** Connections *)

(** What the descriptor has for [read]: nothing yet, bytes (more may stay for the
    next [read]), the end, or an error. *)
Inductive read_event := NotReady | Arrives (bs : bytes) | EndOfFile | ReadError.

Definition inbufsz : Z := 20 * 1024.

Record conn := Conn {
  inbuf_ : bytes;                (* the first [inbuflen_] bytes *)
  inbufpos_ : Z;
  oldinbuf_ : list bytes;
  parser_ : streaming_parser;
  c_kvout : kvout;
  inbuftotal_ : Z;
  c_io : list read_event;
}.
Definition inbuflen_ (c : conn) : Z := len (inbuf_ c).
Definition set_parser p c := Conn (inbuf_ c) (inbufpos_ c) (oldinbuf_ c) p (c_kvout c) (inbuftotal_ c) (c_io c).
Definition set_kvout kv c := Conn (inbuf_ c) (inbufpos_ c) (oldinbuf_ c) (parser_ c) kv (inbuftotal_ c) (c_io c).
Definition set_result j c := set_parser (Msgpack.set_json j (parser_ c)) c.

Definition new_conn (out : list write_result) (io : list read_event) : conn :=
  Conn [] 0 [] new_streaming_parser (new_kvout (20 * 1024) out) 0 io.

(** [read(fd, ..., room)]: -1, or the bytes, none at the end. *)
Fixpoint read_fd (room : Z) (io : list read_event) : res (option bytes * list read_event) :=
  match io with
  | [] => Fault Deadlock
  | NotReady :: io | Arrives [] :: io => read_fd room io
  | Arrives bs :: io =>
    if len bs <=? room then Ok (Some bs, io) else Ok (Some (take (Z.to_nat room) bs), Arrives (drop (Z.to_nat room) bs) :: io)
  | EndOfFile :: _ => Ok (Some [], io)
  | ReadError :: io => Ok (None, io)
  end.

Definition read_more (c : conn) : res conn :=
  let? r := read_fd (inbufsz - inbufpos_ c) (c_io c) in
  Ok (Conn (inbuf_ c ++ default [] (fst r)) (inbufpos_ c) (oldinbuf_ c) (parser_ c) (c_kvout c) (inbuftotal_ c) (snd r)).

(** The buffer is used again between requests; within one a full buffer is kept for
    the strings that point into it. *)
Definition renew_buffer (c : conn) : conn :=
  if empty (parser_ c) then Conn [] 0 [] (parser_ c) (c_kvout c) (Word.addw 64 (inbuftotal_ c) (inbufpos_ c)) (c_io c)
  else if inbufpos_ c =? inbufsz then
    Conn [] 0 (oldinbuf_ c ++ [inbuf_ c]) (parser_ c) (c_kvout c) (Word.addw 64 (inbuftotal_ c) (inbufpos_ c)) (c_io c)
  else c.

Definition hard_check (tryhard : Z) (c : conn) : res conn :=
  let? _ := check_res (inbufpos_ c =? inbuflen_ c) in
  let c := renew_buffer c in
  if tryhard =? 1 then match c_io c with [] | NotReady :: _ => Ok c | _ => read_more c end
  else let? kv := kvflush (c_kvout c) in read_more (set_kvout kv c).

Definition check (tryhard : Z) (c : conn) : res (Z * conn) :=
  let? c := (if (inbufpos_ c =? inbuflen_ c) && negb (tryhard =? 0) then hard_check tryhard c else Ok c) in
  Ok (inbuflen_ c - inbufpos_ c, c).

Definition pending (c : conn) : bytes := drop (Z.to_nat (inbufpos_ c)) (inbuf_ c).

(** The loop of [receive]; each round takes a byte at least. *)
Fixpoint receive_loop (fuel : nat) (c : conn) : res conn :=
  if done (parser_ c) then Ok c
  else
    let? r := check 2 c in
    let (n, c) := (r : Z * conn) in
    if n =? 0 then Ok c
    else
      match fuel with
      | O => Fault OutOfFuel
      | S fuel =>
        let? r := consume (parser_ c) (pending c) in
        let taken := len (pending c) - len (snd r) in
        receive_loop fuel (Conn (inbuf_ c) (inbufpos_ c + taken) (oldinbuf_ c) (fst r) (c_kvout c) (inbuftotal_ c) (c_io c))
      end.

Definition receive (fuel : nat) (c : conn) : res conn :=
  let? c := receive_loop fuel c in
  if success (parser_ c) && is_a (sp_json (parser_ c)) then Ok (set_parser (reset (parser_ c)) c) else Ok (set_result JNull c).

Definition xposition (c : conn) : Z := Word.addw 64 (inbuftotal_ c) (inbufpos_ c).
Definition recent_string (x : Z) (c : conn) : bytes :=
  let from := Word.subw 64 x (inbuftotal_ c) in
  if from <=? inbufpos_ c then take (Z.to_nat (inbufpos_ c - from)) (drop (Z.to_nat from) (inbuf_ c)) else [].

(** ** Serving *)

(** The connection is ready again, is waited for, or is closed. *)
Inductive outcome := Ready | Waits | Closed.

(** What a thread changes by its commands. *)
Record server (T : Type) := Server { s_table : T; s_query : query; s_thread : thread; s_log : list log_entry }.
Arguments Server {T}.
Arguments s_table {T}.
Arguments s_query {T}.
Arguments s_thread {T}.
Arguments s_log {T}.

Section server.
Context {T R : Type} `{RowType R} `{Table T R}.
Context (global_log_epoch : Z).
Context (grow_fuel : nat).

Definition run_command (s : server T) (request : list Json) (request_str : bytes) : res (Z * list Json * server T) :=
  let? r := onego global_log_epoch (s_table s) (s_query s) (s_thread s) request request_str in
  let '(ret, reply, t, q, ti, logs) := (r : Z * list Json * T * query * thread * list log_entry) in
  Ok (ret, reply, Server t q ti (s_log s ++ logs)).

Definition close_conn (c : conn) : res conn := let? kv := kvflush (c_kvout c) in Ok (set_kvout kv c).

(** What [tcp_threadfunc] does for a connection that is ready. *)
Definition serve (fuel : nat) (c : conn) (s : server T) : res (outcome * conn * server T) :=
  let x := xposition c in
  let? c := receive fuel c in
  match sp_json (parser_ c) with
  | JArray request =>
    let? r := run_command s request (recent_string x c) in
    let '(ret, reply, s) := (r : Z * list Json * server T) in
    let? kv := unparse_json grow_fuel (JArray reply) (c_kvout c) in
    let c := set_result (clear (JArray reply)) (set_kvout kv c) in
    if 0 <=? ret then
      let? r := check 0 c in
      let (n, c) := (r : Z * conn) in
      if negb (n =? 0) then Ok (Ready, c, s)
      else let? kv := kvflush (c_kvout c) in Ok (Waits, set_kvout kv c, s)
    else let? c := close_conn c in Ok (Closed, c, s)
  | _ => let? c := close_conn c in Ok (Closed, c, s)
  end.

(** A connection is served, in its turns and when there is input, until it is closed. *)
Fixpoint serve_all (turns fuel : nat) (c : conn) (s : server T) : res (conn * server T) :=
  match turns with
  | O => Fault OutOfFuel
  | S turns =>
    let? r := serve fuel c s in
    let '(o, c, s) := (r : outcome * conn * server T) in
    match o with Closed => Ok (c, s) | _ => serve_all turns fuel c s end
  end.

(** [udp_threadfunc] with a datagram: its buffer of 4096 bytes, the parser, and the
    reply.  The whole buffer is parsed, whatever came. *)
Definition udp_serve (buf : bytes) (p : streaming_parser) (datagram : bytes) (s : server T) :
    res (bytes * streaming_parser * option bytes * server T) :=
  let buf := take (length buf) (datagram ++ drop (length datagram) buf) in
  let? r := consume (reset p) buf in
  let (p, rest) := (r : streaming_parser * bytes) in
  match (if success p then sp_json p else JNull) with
  | JArray request =>
    let? r := run_command s request (take (length buf - length rest) buf) in
    let '(ret, reply, s) := (r : Z * list Json * server T) in
    Ok (buf, Msgpack.set_json (JArray reply) p, if 0 <=? ret then Some (unparse (JArray reply)) else None, s)
  | _ => Ok (buf, p, None, s)
  end.

(** The requests in order, each with the text it is logged from: the replies, and what
    the server becomes or the fault it stops with.  A command that is not known is
    answered and ends the connection. *)
Fixpoint run_commands (s : server T) (reqs : list (list Json * bytes)) : list (list Json) * res (server T) :=
  match reqs with
  | [] => ([], Ok s)
  | (request, str) :: reqs =>
    match run_command s request str with
    | Fault f => ([], Fault f)
    | Ok (ret, reply, s) =>
      if 0 <=? ret then let (replies, r) := run_commands s reqs in (reply :: replies, r) else ([reply], Ok s)
    end
  end.
End server.

(** ** Handshakes *)

Definition Cmd_Handshake : Z := 14.
Definition key_maxkeylen : bytes := [109; 97; 120; 107; 101; 121; 108; 101; 110].
Definition key_core : bytes := [99; 111; 114; 101].
Definition bad_maxkeylen : bytes := [98; 97; 100; 32] ++ key_maxkeylen.

Section handshake.
(** The longest key and the row type are configured. *)
Context (maxkeylen : Z) (row_name : bytes).
Context (tcpthreads : Z).
Context (grow_fuel : nat).

(** The start of a connection in [main]: what the first [read] answers is parsed as the
    handshake, which is passed to the thread of the core it names or of the next one. *)
Definition target_core (next : Z) (request : list Json) : res (Z * Z) :=
  let core := json_member (request_item request 2) key_core in
  let? x := (if (3 <=? len request) && is_o (request_item request 2) && is_i core then as_i core else Ok (-1)) in
  let x := Word.signed 32 x in
  Ok (if (x <? 0) || (tcpthreads <=? x) then (next mod tcpthreads, next + 1) else (x, next)).

Definition accept_handshake (next : Z) (buf : option bytes) : res (option (list Json * Z) * Z) :=
  match buf with
  | None | Some [] => Ok (None, next)
  | Some buf =>
    let? r := consume new_streaming_parser buf in
    match sp_json (fst r), snd r with
    | JArray request, [] =>
      if (2 <=? len request) && is_i (request_item request 1) then
        let? x := as_i (request_item request 1) in
        if x =? Cmd_Handshake then
          let? t := target_core next request in
          Ok (Some (request, fst t), snd t)
        else Ok (None, next)
      else Ok (None, next)
    | _, _ => Ok (None, next)
    end
  end.

(** [handshake], in the thread [index]. *)
Definition handshake (index : Z) (request : list Json) : res (list Json * Z) :=
  let item := request_item request in
  let? _ := check_res ((2 <=? len request) && is_i (item 1%nat)) in
  let? x := as_i (item 1%nat) in
  let? _ := check_res ((x =? Cmd_Handshake) && ((len request =? 2) || is_o (item 2%nat))) in
  let m := json_member (item 2%nat) key_maxkeylen in
  let? n := (if is_i m then as_i m else Ok 0) in
  let '(request, ok) :=
    (if is_i m && (maxkeylen <? n) then
       (take 4 (set_request (set_request request 2 (JBool false)) 3 (JString bad_maxkeylen)), false)
     else
       (take 5 (set_request (set_request (set_request request 2 (JBool true)) 3 (JInt index)) 4 (JString row_name)), true)) in
  Ok (set_request request 1 (JInt (Cmd_Handshake + 1)), if ok then 1 else -1).

(** The thread's part: the answer is sent, and a connection that failed is closed. *)
Definition new_connection (index : Z) (request : list Json) (c : conn) : res (outcome * conn) :=
  let? r := handshake index request in
  let? kv := unparse_json grow_fuel (JArray (fst r)) (c_kvout c) in
  let? kv := kvflush kv in
  Ok (if snd r <? 0 then Closed else Waits, set_kvout kv c).
End handshake.

(** ** Reading *)

(** The bytes that arrive until the end of the input, when there is one. *)
Fixpoint input (io : list read_event) : option bytes :=
  match io with
  | [] | ReadError :: _ => None
  | NotReady :: io => input io
  | Arrives bs :: io => match input io with Some x => Some (bs ++ x) | None => None end
  | EndOfFile :: _ => Some []
  end.

Lemma read_fd_input room io : forall x, 0 < room -> input io = Some x ->
  exists bs io' x', read_fd room io = Ok (Some bs, io') /\ input io' = Some x' /\ x = bs ++ x' /\ len bs <= room /\ (bs = [] -> x = []).
Proof.
  induction io as [|[|bs| |] io IH]; intros x Hr Hx; cbn [input read_fd] in *; try done.
  - by apply IH.
  - destruct (input io) as [y|] eqn:E; [|done]. injection Hx as <-. destruct bs as [|b bs]; [by apply IH|].
    destruct (Z.leb_spec (len (b :: bs)) room) as [Hle|Hgt].
    + exists (b :: bs), io, y. done.
    + eexists _, _, _. split; [done|]. cbn [input]. rewrite E. split; [done|]. split; [by rewrite app_assoc, take_drop|].
      split; [rewrite length_take; lia|]. intros Hn%(f_equal length). rewrite length_take in Hn. cbn in *. lia.
  - injection Hx as <-. exists [], (EndOfFile :: io), []. cbn. split_and!; done || lia.
Qed.

(** A connection, [x] being the input that it has not read. *)
Record conn_ok (c : conn) (x : bytes) : Prop := {
  ok_pos : 0 <= inbufpos_ c <= inbuflen_ c;
  ok_len : inbuflen_ c <= inbufsz;
  ok_total : 0 <= inbuftotal_ c;
  ok_end : inbuftotal_ c + inbuflen_ c + len x < 2 ^ 62;
  ok_input : input (c_io c) = Some x
}.

(** [s] is what was taken since position [x0]; the buffer has it while [x0] is in it. *)
Definition since (x0 : Z) (s : bytes) (c : conn) : Prop :=
  inbuftotal_ c + inbufpos_ c = x0 + len s /\
  (inbuftotal_ c <= x0 -> take (Z.to_nat (inbufpos_ c - (x0 - inbuftotal_ c))) (drop (Z.to_nat (x0 - inbuftotal_ c)) (inbuf_ c)) = s).

Section reading.
Context (cap0 w : Z) (x0 : Z) (Hx0 : 0 <= x0).

(** The rest of the input is the same, and the output buffer's stream. *)
Record reads (c c' : conn) (x x' : bytes) : Prop := {
  rd_ok : conn_ok c' x';
  rd_rest : pending c' ++ x' = pending c ++ x;
  rd_parser : parser_ c' = parser_ c;
  rd_out : fd_ok cap0 w (c_kvout c');
  rd_stream : stream (c_kvout c') = stream (c_kvout c);
  rd_n : kv_n (c_kvout c') <= kv_n (c_kvout c);
  rd_since s : since x0 s c -> since x0 s c'
}.

Lemma renew_reads c x : conn_ok c x -> fd_ok cap0 w (c_kvout c) -> inbufpos_ c = inbuflen_ c ->
  reads c (renew_buffer c) x x /\ c_kvout (renew_buffer c) = c_kvout c /\ inbufpos_ (renew_buffer c) = inbuflen_ (renew_buffer c) /\
  inbuflen_ (renew_buffer c) < inbufsz.
Proof using Hx0.
  intros Hc Hk Hp. destruct Hc as [H1 H2 H3 H4 H5]. assert (0 <= len x) by lia. assert (pending c = []) as Hpd.
  { unfold pending. rewrite Hp. unfold inbuflen_. rewrite drop_ge; [done|lia]. }
  assert (forall old, reads c (Conn [] 0 old (parser_ c) (c_kvout c) (Word.addw 64 (inbuftotal_ c) (inbufpos_ c)) (c_io c)) x x) as Hnew.
  { intros old. unfold Word.addw. rewrite Word.wrap_small by (split; lia). unfold inbuflen_ in *. split; cbn; try done; try lia.
    - split; cbn; unfold inbuflen_, inbufsz; cbn; try done; lia.
    - by rewrite Hpd.
    - intros s [Hs1 Hs2]. split; cbn; [lia|]. intros Hle. assert (len s = 0) as Hz by lia. destruct s; [|cbn in Hz; lia].
      rewrite drop_nil. by rewrite take_nil. }
  unfold renew_buffer. destruct (empty (parser_ c)).
  { split; [apply Hnew|]. cbn. split; [done|]. unfold inbuflen_, inbufsz. cbn. lia. }
  destruct (Z.eqb_spec (inbufpos_ c) inbufsz) as [He|He].
  { split; [apply Hnew|]. cbn. split; [done|]. unfold inbuflen_, inbufsz. cbn. lia. }
  split; [by split|]. split; [done|]. split; [done|]. lia.
Qed.

Lemma read_more_reads c x : conn_ok c x -> fd_ok cap0 w (c_kvout c) -> inbufpos_ c = inbuflen_ c -> inbuflen_ c < inbufsz ->
  exists c' x', read_more c = Ok c' /\ reads c c' x x' /\ c_kvout c' = c_kvout c /\ (pending c' = [] -> x = []).
Proof using.
  intros [H1 H2 H3 H4 H5] Hk Hp Hl. destruct (read_fd_input (inbufsz - inbufpos_ c) (c_io c) x ltac:(lia) H5) as (bs & io' & x' & Hr & Hi & -> & Hb & Hn).
  unfold read_more. rewrite Hr, rbind_Ok. cbn [fst snd default from_option id]. eexists _, x'. split; [done|].
  unfold inbuflen_ in *. rewrite length_app in H4.
  assert (pending c = []) as Hpd by (unfold pending; rewrite Hp, drop_ge; [done|lia]).
  assert (drop (Z.to_nat (inbufpos_ c)) (inbuf_ c ++ bs) = bs) as Hd by (rewrite Hp; apply drop_app_length'; lia).
  split; [|split; [done|]].
  - split; try done.
    + split; unfold inbuflen_; cbn; rewrite ?length_app; try done; lia.
    + unfold pending at 1. cbn. rewrite Hd, Hpd. done.
    + intros s [Hs1 Hs2]. split; [done|]. cbn. intros Hle. rewrite <- (Hs2 Hle), drop_app_le, take_app_le; [done|rewrite length_drop; lia|lia].
  - unfold pending. cbn. rewrite Hd. exact Hn.
Qed.

Lemma reads_trans c1 c2 c3 x1 x2 x3 : reads c1 c2 x1 x2 -> reads c2 c3 x2 x3 -> reads c1 c3 x1 x3.
Proof using.
  intros [] []. split; try done; try congruence; try lia. auto.
Qed.

(** [check(2)] gets something from the input unless it has ended, the output having
    been flushed before it waits. *)
Lemma check_reads c x : conn_ok c x -> fd_ok cap0 w (c_kvout c) ->
  or_waits (check 2 c) (fun r => exists x', reads c (snd r) x x' /\ fst r = len (pending (snd r)) /\
    (pending c = [] -> kv_buf (c_kvout (snd r)) = []) /\ (pending (snd r) = [] -> pending c ++ x = [])).
Proof using Hx0.
  intros Hc Hk. assert (forall c x, conn_ok c x -> inbuflen_ c - inbufpos_ c = len (pending c)) as Hlen.
  { intros c0 y [? ? ? ? ?]. unfold pending. rewrite length_drop. unfold inbuflen_ in *. lia. }
  unfold check. change (2 =? 0) with false. cbn [negb]. rewrite andb_true_r. destruct (Z.eqb_spec (inbufpos_ c) (inbuflen_ c)) as [He|Hne].
  - unfold hard_check. rewrite (proj2 (Z.eqb_eq _ _)) by done. cbn [check_res]. rewrite rbind_Ok. change (2 =? 1) with false. cbn iota zeta.
    destruct (renew_reads c x Hc Hk He) as (Hr1 & Hk1 & Hp1 & Hl1). set (c1 := renew_buffer c) in *. clearbody c1.
    rewrite rbind_assoc. eapply or_waits_bind; [apply (kvflush_ok cap0 w), Hr1|]. intros kv (Hkv & Hb & Hs & _).
    assert (reads c (set_kvout kv c1) x x) as Hr2.
    { destruct Hr1. split; try done; [by destruct rd_ok0|cbn; congruence|]. cbn. unfold kv_n. rewrite Hb. cbn. lia. }
    destruct (read_more_reads (set_kvout kv c1) x (rd_ok _ _ _ _ Hr2) Hkv Hp1 Hl1) as (c2 & x2 & -> & Hr3 & Hk3 & Hn). rewrite rbind_Ok.
    apply or_waits_Ok. exists x2. cbn [fst snd]. split; [by eapply reads_trans|]. split; [by eapply Hlen, rd_ok|].
    rewrite Hk3. split; [done|]. intros Hz. rewrite Hn by done. unfold pending. rewrite He. unfold inbuflen_. rewrite drop_ge; [done|lia].
  - rewrite rbind_Ok. apply or_waits_Ok. exists x. cbn [fst snd]. split; [by split|]. split; [by eapply Hlen|].
    assert (pending c <> []) as Hnn.
    { intros Hz. apply (f_equal (@length Z)) in Hz. pose proof (Hlen c x Hc). rewrite Hz in H. cbn in H. lia. }
    split; intros; congruence.
Qed.

Lemma pending_length c x : conn_ok c x -> len (pending c) = inbuflen_ c - inbufpos_ c.
Proof. intros [? ? ? ? ?]. unfold pending. rewrite length_drop. unfold inbuflen_ in *. lia. Qed.

(** After [consume] has left [l] of what was pending. *)
Lemma take_reads c x s p l bs : conn_ok c x -> pending c = bs ++ l -> since x0 s c ->
  let c' := Conn (inbuf_ c) (inbufpos_ c + (len (pending c) - len l)) (oldinbuf_ c) p (c_kvout c) (inbuftotal_ c) (c_io c) in
  conn_ok c' x /\ pending c' = l /\ since x0 (s ++ bs) c'.
Proof using.
  intros Hc Hp [Hs1 Hs2] c'. pose proof (pending_length _ _ Hc) as Hl. destruct Hc as [H1 H2 H3 H4 H5].
  rewrite Hp, length_app in Hl. assert (len (pending c) - len l = len bs) as Hb by (rewrite Hp, length_app; lia).
  unfold c'. rewrite Hb. unfold inbuflen_ in *. split; [split; cbn; try done; unfold inbuflen_; cbn; lia|]. split; [|split; cbn].
  - unfold pending. cbn. rewrite Z2Nat.inj_add, <- drop_drop by lia. fold (pending c). rewrite Hp. apply drop_app_length'. lia.
  - rewrite length_app. lia.
  - intros Hle. assert (Z.to_nat (inbufpos_ c + len bs - (x0 - inbuftotal_ c)) = Z.to_nat (inbufpos_ c - (x0 - inbuftotal_ c)) + length bs)%nat as -> by lia.
    rewrite <- take_take_drop. rewrite Hs2 by done. f_equal. rewrite drop_drop.
    replace (Z.to_nat (x0 - inbuftotal_ c) + Z.to_nat (inbufpos_ c - (x0 - inbuftotal_ c)))%nat with (Z.to_nat (inbufpos_ c)) by lia.
    fold (pending c). rewrite Hp. apply take_app_length.
Qed.

(** The loop of [receive] stops where the parser is done. *)
Lemma receive_loop_reads fuel : forall c x s p rest, conn_ok c x -> fd_ok cap0 w (c_kvout c) -> resumable (parser_ c) -> Forall is_byte (pending c ++ x) ->
  feed (parser_ c) (pending c ++ x) ≈ Ok (p, rest) -> done p = true -> (done (parser_ c) = true \/ length (pending c ++ x) <= fuel)%nat -> since x0 s c ->
  or_waits (receive_loop fuel c) (fun c' => exists x' bs, conn_ok c' x' /\ fd_ok cap0 w (c_kvout c') /\ stream (c_kvout c') = stream (c_kvout c) /\
    kv_n (c_kvout c') <= kv_n (c_kvout c) /\ parser_eq (parser_ c') p /\ pending c' ++ x' = rest /\ pending c ++ x = bs ++ rest /\ since x0 (s ++ bs) c').
Proof using Hx0.
  induction fuel as [|fuel IH]; intros c x s p rest Hc Hk Hres Hby Hf Hd Hfuel Hs; cbn [receive_loop]; destruct (done (parser_ c)) eqn:Ed.
  1, 3: unfold done in Ed; rewrite feed_done in Hf by (by apply Z.ltb_lt); destruct Hf as [Hpe Hrest]; cbn [fst snd] in *; apply or_waits_Ok;
    exists x, []; rewrite !app_nil_r; split_and!; done || lia.
  - eapply or_waits_bind; [by apply check_reads|]. intros [n c1] (x1 & Hr & Hn & _ & He). cbn [fst snd] in *. exfalso.
    destruct Hfuel as [?|Hle]; [done|]. destruct (pending c ++ x); [|cbn in Hle; lia]. rewrite feed_nil in Hf. destruct Hf as [Hpe _]. cbn in Hpe.
    unfold done in *. rewrite (pe_state _ _ Hpe) in Ed. congruence.
  - eapply or_waits_bind; [by apply check_reads|]. intros [n c1] (x1 & Hr & Hn & _ & He). cbn [fst snd] in *.
    destruct Hr as [Hc1 Hrest Hpar Hk1 Hst Hkn Hsince]. apply Hsince in Hs. clear Hsince. rewrite <- Hrest, <- Hpar in *. unfold done in Ed.
    destruct (Z.eqb_spec n 0) as [Hz|Hnz].
    { exfalso. rewrite He in Hf by (apply nil_length_inv; lia). rewrite feed_nil in Hf. destruct Hf as [Hpe _]. cbn in Hpe.
      unfold done in Hd. rewrite (pe_state _ _ Hpe) in Ed. congruence. }
    apply Forall_app in Hby as [Hby1 Hby2]. apply Z.ltb_ge in Ed. assert (pending c1 <> []) as Hne by (intros Hz; rewrite Hz in Hn; done).
    pose proof (feed_app (parser_ c1) (pending c1) x1 Hres Hby1 Hby2) as Happ.
    assert (then_feed (feed (parser_ c1) (pending c1)) x1 ≈ Ok (p, rest)) as Hf1 by (etrans; [symmetry; exact Happ|done]).
    rewrite feed_consume in Hf1 by done.
    destruct (consume (parser_ c1) (pending c1)) as [[p1 l]|] eqn:Econs; [|by destruct Hf1]. rewrite rbind_Ok. cbn [rbind] in Hf1. cbn [fst snd] in *.
    destruct (consume_return _ _ _ _ Hres Ed Hne Hby1 Econs) as (Hres1 & Hbyl & Hlt). apply consume_left in Econs as [bs Hbs].
    destruct (take_reads c1 x1 s p1 l bs Hc1 Hbs Hs) as (Hc2 & Hp2 & Hs2). set (c2 := Conn _ _ _ _ _ _ _) in *.
    assert (feed p1 (l ++ x1) ≈ Ok (p, rest)) as Hf2 by (etrans; [by apply feed_app|done]).
    destruct (IH c2 x1 (s ++ bs) p rest) as [->|(c' & -> & x' & bs' & H1 & H2 & H3 & H4 & H5 & H6 & H7 & H8)]; try done.
    + rewrite Hp2. by apply Forall_app.
    + by rewrite Hp2.
    + destruct Hfuel as [Hdn|Hle]; [done|].
      destruct Hlt as [Hlt|Hlt]; [left; by apply Z.ltb_lt|right]. rewrite Hp2. rewrite length_app in *. lia.
    + by left.
    + apply or_waits_Ok. exists x', (bs ++ bs'). split; [done|]. split; [done|]. split; [rewrite H3; exact Hst|]. split; [cbn in H4; lia|].
      split; [done|]. split; [done|]. split; [|by rewrite app_assoc]. rewrite Hbs, <- !app_assoc, <- H7, Hp2. done.
Qed.

Lemma recent_since c x s : conn_ok c x -> x0 < 2 ^ 62 -> since x0 s c -> recent_string x0 c = [] \/ recent_string x0 c = s.
Proof using Hx0.
  intros [H1 H2 H3 H4 H5] Hb [Hs1 Hs2]. unfold recent_string, Word.subw, inbufsz, inbuflen_ in *.
  destruct (Z.le_gt_cases (inbuftotal_ c) x0) as [Hle|Hgt].
  - rewrite Word.wrap_small by (split; lia). rewrite (proj2 (Z.leb_le _ _)) by lia. right. by apply Hs2.
  - left. assert (Word.wrap 64 (x0 - inbuftotal_ c) = x0 - inbuftotal_ c + 2 ^ 64) as ->.
    { unfold Word.wrap. symmetry. apply (Z.mod_unique _ _ (-1)); lia. }
    by rewrite (proj2 (Z.leb_gt _ _)) by lia.
Qed.
End reading.

(** ** Requests *)

Definition idle (c : conn) : Prop := reset (parser_ c) = parser_ c.

Lemma idle_reset p c : idle (set_parser (reset p) c).
Proof. done. Qed.

Lemma idle_result j c : idle c -> idle (set_result j c).
Proof. unfold idle. intros Hi. cbn. rewrite <- Hi. done. Qed.

Lemma idle_not_done c : idle c -> resumable (parser_ c) /\ done (parser_ c) = false.
Proof. unfold idle. intros <-. split; [by apply resume_normal|done]. Qed.

Lemma xposition_ok c x : conn_ok c x -> xposition c = inbuftotal_ c + inbufpos_ c /\ 0 <= xposition c < 2 ^ 62.
Proof. intros [H1 H2 H3 H4 H5]. unfold xposition, Word.addw, inbuflen_ in *. rewrite Word.wrap_small by (split; lia). split; lia. Qed.

Section requests.
Context (cap0 w : Z) (fuel : nat).

(** The next request, with its text or none. *)
Lemma receive_request c x r rest : conn_ok c x -> fd_ok cap0 w (c_kvout c) -> idle c -> writable (JArray r) ->
  pending c ++ x = unparse (JArray r) ++ rest -> Forall is_byte (pending c ++ x) -> (length (pending c ++ x) <= fuel)%nat ->
  or_waits (receive fuel c) (fun c' => exists x', conn_ok c' x' /\ fd_ok cap0 w (c_kvout c') /\ stream (c_kvout c') = stream (c_kvout c) /\
    kv_n (c_kvout c') <= kv_n (c_kvout c) /\ idle c' /\ sp_json (parser_ c') = JArray (map read_back r) /\ pending c' ++ x' = rest /\
    (recent_string (xposition c) c' = [] \/ recent_string (xposition c) c' = unparse (JArray r))).
Proof.
  intros Hc Hk Hi Hw Hp Hby Hf. destruct (xposition_ok _ _ Hc) as (Hx & Hx0 & Hx1). destruct (idle_not_done c Hi) as [Hres Hnd].
  destruct (consume_unparse (JArray r) (parser_ c) rest Hw) as (p & Hcons & Hsucc & Hj). rewrite Hi, <- Hp in Hcons.
  assert (pending c ++ x <> []) as Hne by (rewrite Hp; pose proof (unparse_nonempty (JArray r)); by destruct (unparse (JArray r))).
  assert (done p = true) as Hd by (unfold done; unfold success in Hsucc; apply Z.eqb_eq in Hsucc; by rewrite Hsucc).
  assert (feed (parser_ c) (pending c ++ x) ≈ Ok (p, rest)) as Hfeed.
  { rewrite feed_consume; [|done|unfold done in Hnd; by apply Z.ltb_ge|done|done]. rewrite Hcons, rbind_Ok. cbn [fst snd].
    rewrite feed_done; [done|by apply Z.ltb_lt]. }
  unfold receive. eapply or_waits_bind.
  - apply (receive_loop_reads cap0 w (xposition c) Hx0 fuel c x [] p rest); try done; [by right|].
    split; [rewrite Hx; cbn; lia|]. intros _. rewrite Hx. by replace (inbufpos_ c - (inbuftotal_ c + inbufpos_ c - inbuftotal_ c)) with 0 by lia.
  - intros c' (x' & bs & H1 & H2 & H3 & H4 & H5 & H6 & H7 & H8). cbn [app] in H8.
    assert (bs = unparse (JArray r)) as -> by (rewrite Hp in H7; by apply app_inv_tail in H7).
    assert (success (parser_ c') = true) as -> by (unfold success; by rewrite (pe_state _ _ H5)).
    rewrite (pe_json _ _ H5), Hj. cbn [read_back is_a andb]. apply or_waits_Ok. exists x'.
    split; [destruct H1; by split|]. split; [done|]. split; [done|]. split; [done|]. split; [apply idle_reset|].
    split; [cbn; by rewrite (pe_json _ _ H5), Hj|]. split; [done|].
    apply (recent_since (xposition c) Hx0 c' x'); done.
Qed.

(** The end of the input between requests. *)
Lemma receive_end c x : conn_ok c x -> fd_ok cap0 w (c_kvout c) -> idle c -> pending c ++ x = [] ->
  or_waits (receive fuel c) (fun c' => fd_ok cap0 w (c_kvout c') /\ stream (c_kvout c') = stream (c_kvout c) /\ sp_json (parser_ c') = JNull).
Proof.
  intros Hc Hk Hi Hp. destruct (xposition_ok _ _ Hc) as (Hx & Hx0 & Hx1). destruct (idle_not_done c Hi) as [Hres Hnd].
  unfold receive.
  assert (or_waits (receive_loop fuel c) (fun c' => fd_ok cap0 w (c_kvout c') /\ stream (c_kvout c') = stream (c_kvout c) /\ parser_ c' = parser_ c)) as Hl.
  { destruct fuel as [|f]; cbn [receive_loop]; rewrite Hnd; (eapply or_waits_bind; [by apply (check_reads cap0 w (xposition c) Hx0 c x)|]);
      intros [n c'] (x' & Hr & Hn & _ & He); cbn [fst snd] in *; destruct Hr;
      rewrite Hp in rd_rest0; apply app_eq_nil in rd_rest0 as [Hz _]; rewrite Hz in Hn; rewrite Hn; apply or_waits_Ok; done. }
  eapply or_waits_bind; [exact Hl|]. intros c' (H1 & H2 & H3). rewrite H3, <- Hi. cbn. by apply or_waits_Ok.
Qed.
End requests.

Section session.
Context {T R : Type} `{RowType R} `{Table T R}.
Context (global_log_epoch : Z) (grow_fuel fuel : nat) (Hgf : (32 <= grow_fuel)%nat).
Context (cap0 w : Z) (Hc0 : cap0 <= 2 ^ 30) (Hw : w < 2 ^ 30).
#[local] Notation run := (run_command global_log_epoch).
#[local] Notation serve1 := (serve global_log_epoch grow_fuel fuel).

Lemma close_ok c : fd_ok cap0 w (c_kvout c) ->
  or_waits (close_conn c) (fun c' => kv_buf (c_kvout c') = [] /\ stream (c_kvout c') = stream (c_kvout c)).
Proof.
  intros Hk. unfold close_conn. eapply or_waits_bind; [by apply (kvflush_ok cap0 w)|]. intros kv (_ & Hb & Hs & _). by apply or_waits_Ok.
Qed.

(** Serving a connection that has a request: the reply follows what was written
    before, and the connection is closed only when the command is not known. *)
Definition served (c : conn) (rest : bytes) (ret : Z) (reply : list Json) (s' : server T) (r : outcome * conn * server T) : Prop :=
  let '(o, c', s'') := r in
  s'' = s' /\ stream (c_kvout c') = stream (c_kvout c) ++ unparse (JArray reply) /\
  if 0 <=? ret then
    o <> Closed /\ fd_ok cap0 w (c_kvout c') /\ kv_n (c_kvout c') <= kv_n (c_kvout c) + room (JArray reply) /\ idle c' /\
    exists x', conn_ok c' x' /\ pending c' ++ x' = rest
  else o = Closed /\ kv_buf (c_kvout c') = [].

Lemma serve_request c x r rest s : conn_ok c x -> fd_ok cap0 w (c_kvout c) -> idle c -> writable (JArray r) ->
  pending c ++ x = unparse (JArray r) ++ rest -> Forall is_byte (pending c ++ x) -> (length (pending c ++ x) <= fuel)%nat ->
  exists str, (str = [] \/ str = unparse (JArray r)) /\
    match run s (map read_back r) str with
    | Ok (ret, reply, s') => kv_n (c_kvout c) + room (JArray reply) <= w -> or_waits (serve1 c s) (served c rest ret reply s')
    | Fault f => serve1 c s = Fault Deadlock \/ serve1 c s = Fault f
    end.
Proof using Hgf Hc0 Hw.
  intros Hc Hk Hi Hwr Hp Hby Hf. unfold serve.
  destruct (receive_request cap0 w fuel c x r rest Hc Hk Hi Hwr Hp Hby Hf) as [E|(c' & E & x' & H1 & H2 & H3 & H4 & H5 & H6 & H7 & H8)]; rewrite E.
  - exists []. split; [by left|]. destruct (run _ _ _) as [[[ret reply] s']|f]; intros; by left.
  - exists (recent_string (xposition c) c'). split; [done|]. rewrite rbind_Ok, H6.
    destruct (run s _ _) as [[[ret reply] s']|f] eqn:Erun; rewrite ?Erun; [|by right]. intros Hroom. rewrite rbind_Ok.
    eapply or_waits_bind; [apply (unparse_json_ok grow_fuel Hgf cap0 w Hc0 Hw (JArray reply)); [done|lia]|].
    intros kv (Hkv & Hn & Hst). rewrite H3 in Hst. set (c2 := set_result _ _).
    assert (conn_ok c2 x') as Hc2 by (destruct H1; by split).
    assert (idle c2) as Hi2 by (apply (idle_result _ (set_kvout kv c')), H5).
    destruct (0 <=? ret) eqn:Eret.
    + unfold check. change (0 =? 0) with true. cbn [negb]. rewrite andb_false_r, !rbind_Ok. destruct (negb _).
      * apply or_waits_Ok. unfold served. rewrite Eret. split_and!; try done; [change (c_kvout c2) with kv; lia|]. by exists x'.
      * eapply or_waits_bind; [by apply (kvflush_ok cap0 w kv)|]. intros kv' (Hk' & Hb' & Hs' & _). apply or_waits_Ok. unfold served. rewrite Eret.
        split_and!; try done; [change (c_kvout (set_kvout kv' c2)) with kv'; congruence|change (c_kvout (set_kvout kv' c2)) with kv'; unfold kv_n at 1; rewrite Hb'; change (len []) with 0; pose proof (room_pos (JArray reply)); unfold kv_n; lia|].
        exists x'. split; [destruct Hc2; by split|done].
    + eapply or_waits_bind; [by apply (close_ok c2)|]. intros c3 (Hb3 & Hs3). apply or_waits_Ok. unfold served. rewrite Eret.
      split; [done|]. split; [rewrite Hs3; done|done].
Qed.

(** All the requests, then the end. *)
Lemma serve_requests : forall rs turns c x s, conn_ok c x -> fd_ok cap0 w (c_kvout c) -> idle c -> Forall (fun r => writable (JArray r)) rs ->
  pending c ++ x = flat_map (fun r => unparse (JArray r)) rs -> Forall is_byte (pending c ++ x) -> (length (pending c ++ x) <= fuel)%nat ->
  (length rs < turns)%nat ->
  exists strs, Forall2 (fun str r => str = [] \/ str = unparse (JArray r)) strs rs /\
    let (replies, r) := run_commands global_log_epoch s (combine (map (map read_back) rs) strs) in
    kv_n (c_kvout c) + list_sum_with (fun reply => room (JArray reply)) replies <= w ->
    serve_all global_log_epoch grow_fuel turns fuel c s = Fault Deadlock \/
    match r with
    | Ok s' => exists c', serve_all global_log_epoch grow_fuel turns fuel c s = Ok (c', s') /\ kv_buf (c_kvout c') = [] /\
        stream (c_kvout c') = stream (c_kvout c) ++ flat_map (fun reply => unparse (JArray reply)) replies
    | Fault f => serve_all global_log_epoch grow_fuel turns fuel c s = Fault f
    end.
Proof using Hgf Hc0 Hw.
  assert (forall rs : list (list Json), Forall2 (fun str r => str = [] \/ str = unparse (JArray r)) (map (fun _ => []) rs) rs) as Hnil.
  { intros rs. induction rs; cbn; constructor; auto. }
  intros rs. induction rs as [|r rs IH]; intros turns c x s Hc Hk Hi Hwr Hp Hby Hf Ht; (destruct turns as [|turns]; [cbn in Ht; lia|]); cbn [serve_all].
  - exists []. split; [constructor|]. cbn. intros _. unfold serve.
    destruct (receive_end cap0 w fuel c x Hc Hk Hi Hp) as [->|(c' & -> & Hk' & Hs' & Hj)]; [by left|]. rewrite rbind_Ok, Hj.
    destruct (close_ok c' Hk') as [->|(c2 & -> & Hb & Hs)]; [by left|]. right. exists c2. split; [done|]. split; [done|].
    rewrite app_nil_r. congruence.
  - apply Forall_cons in Hwr as [Hwr1 Hwr]. cbn [flat_map] in Hp.
    destruct (serve_request c x r _ s Hc Hk Hi Hwr1 Hp Hby Hf) as (str & Hstr & Hrun). cbn [map].
    destruct (run s (map read_back r) str) as [[[ret reply] s1]|f] eqn:Erun.
    2: { exists (str :: map (fun _ => []) rs). split; [by constructor|]. cbn [combine run_commands]. rewrite Erun. intros _. destruct Hrun as [-> | ->]; [by left|by right]. }
    assert (forall strs, kv_n (c_kvout c) + list_sum_with (fun reply => room (JArray reply)) (fst (run_commands global_log_epoch s (combine (map read_back r :: map (map read_back) rs) (str :: strs)))) <= w ->
      kv_n (c_kvout c) + room (JArray reply) <= w) as Hroom.
    { intros strs. cbn [combine run_commands]. rewrite Erun. pose proof (fun l => list_sum_with_pos (fun reply => room (JArray reply)) l ltac:(intros y; pose proof (room_pos (JArray y)); lia)) as Hpos.
      destruct (0 <=? ret); [destruct (run_commands _ _ _) as [l ?]|]; cbn [fst list_sum_with]; [specialize (Hpos l)|]; lia. }
    destruct (serve1 c s) as [[[o c'] s2]|f] eqn:Es.
    2: { exists (str :: map (fun _ => []) rs). split; [by constructor|].
      specialize (Hroom (map (fun _ => []) rs)). destruct (run_commands _ _ _) as [replies rr]. cbn [fst] in Hroom. intros Hr. left.
      destruct (Hrun (Hroom Hr)) as [E|(? & E & _)]; [|done]. injection E as ->. done. }
    destruct (decide (kv_n (c_kvout c) + room (JArray reply) <= w)) as [Hle|Hgt].
    2: { exists (str :: map (fun _ => []) rs). split; [by constructor|]. specialize (Hroom (map (fun _ => []) rs)).
      destruct (run_commands _ _ _) as [replies rr]. cbn [fst] in Hroom. intros Hr. by destruct Hgt; apply Hroom. }
    destruct (Hrun Hle) as [E|(r' & E & Hsv)]; [done|]. injection E as <-.
    destruct Hsv as (-> & Hst & Hrest). destruct (0 <=? ret) eqn:Eret.
    + destruct Hrest as (Ho & Hk' & Hn' & Hi' & x' & Hc' & Hp').
      destruct (IH turns c' x' s1 Hc' Hk' Hi' Hwr Hp') as (strs & Hstrs & Hall).
      { rewrite Hp in Hby. rewrite Hp'. by apply Forall_app in Hby as [_ ?]. }
      { rewrite Hp', Hp in *. rewrite length_app in Hf. lia. }
      { cbn in Ht. lia. }
      exists (str :: strs). split; [by constructor|]. cbn [combine run_commands]. rewrite Erun, Eret.
      destruct (run_commands _ s1 _) as [replies rr]. cbn [list_sum_with flat_map]. intros Hr. rewrite rbind_Ok.
      assert (match o with Closed => Ok (c', s1) | _ => serve_all global_log_epoch grow_fuel turns fuel c' s1 end = serve_all global_log_epoch grow_fuel turns fuel c' s1) as -> by (by destruct o).
      destruct (Hall ltac:(lia)) as [?|Hres]; [by left|right]. destruct rr as [s'|f]; [|done].
      destruct Hres as (c2 & -> & Hb & Hs). exists c2. split; [done|]. split; [done|]. by rewrite Hs, Hst, app_assoc.
    + destruct Hrest as [-> Hb]. exists (str :: map (fun _ => []) rs). split; [by constructor|]. cbn [combine run_commands]. rewrite Erun, Eret.
      intros _. right. rewrite rbind_Ok. exists c'. split; [done|]. split; [done|]. cbn [flat_map]. by rewrite app_nil_r.
Qed.
End session.

(** ** Datagrams *)

Section datagrams.
Context {T R : Type} `{RowType R} `{Table T R}.
Context (global_log_epoch : Z).

(** A buffer that starts with a request is answered by the request. *)
Lemma udp_request buf p datagram s r rest : writable (JArray r) -> take (length buf) (datagram ++ drop (length datagram) buf) = unparse (JArray r) ++ rest ->
  exists q, success q = true /\ udp_serve global_log_epoch buf p datagram s =
    let? x := run_command global_log_epoch s (map read_back r) (unparse (JArray r)) in
    let '(ret, reply, s) := (x : Z * list Json * server T) in
    Ok (unparse (JArray r) ++ rest, Msgpack.set_json (JArray reply) q, if 0 <=? ret then Some (unparse (JArray reply)) else None, s).
Proof.
  intros Hw Hb. unfold udp_serve. rewrite Hb. destruct (consume_unparse (JArray r) p rest Hw) as (q & Hc & Hs & Hj). exists q. split; [done|].
  rewrite Hc, rbind_Ok, Hs, Hj. cbn [read_back].
  replace (length (unparse (JArray r) ++ rest) - length rest)%nat with (length (unparse (JArray r))) by (rewrite length_app; lia).
  by rewrite take_app_length.
Qed.
End datagrams.

(** *** Handshakes *)

Lemma target_core_total tcpthreads next request : 0 < tcpthreads ->
  exists core next', target_core tcpthreads next request = Ok (core, next') /\ 0 <= core < tcpthreads.
Proof.
  intros Ht. unfold target_core. set (core := json_member _ _).
  assert (exists x, (if (3 <=? len request) && is_o (request_item request 2) && is_i core then as_i core else Ok (-1)) = Ok x) as [x ->].
  { destruct (_ && is_o _); cbn [andb]; [|by eexists]. destruct core; cbn; by eexists. }
  rewrite rbind_Ok. cbn zeta.
  destruct (Z.ltb_spec (Word.signed 32 x) 0); [|destruct (Z.leb_spec tcpthreads (Word.signed 32 x))]; cbn [orb]; do 2 eexists;
    (split; [done|]); try (apply Z.mod_pos_bound; lia); lia.
Qed.

(** ** Properties *)

(** C13: a connection is served as its requests say, however they arrive and however
    the replies are taken.  The requests of a client come cut into reads of any size
    and number; unless the server waits for the client to take the output, each is
    executed once and in order, as the MessagePack value that was sent, and the
    bytes that go out are the replies in order, all of them before the connection is
    closed.  A command is logged from the client's own text of the request, or from
    the parsed request when the text does not lie in one buffer.  A request that the
    server fails on fails the connection in the same way. *)
Theorem session {T R} `{RowType R} `{Table T R} g grow_fuel fuel turns out io rs (s : server T) :
  (32 <= grow_fuel)%nat -> never_fails out -> input io = Some (flat_map (fun r => unparse (JArray r)) rs) ->
  Forall (fun r => writable (JArray r)) rs -> Forall is_byte (flat_map (fun r => unparse (JArray r)) rs) ->
  len (flat_map (fun r => unparse (JArray r)) rs) < 2 ^ 62 ->
  (length (flat_map (fun r => unparse (JArray r)) rs) <= fuel)%nat -> (length rs < turns)%nat ->
  exists strs, Forall2 (fun str r => str = [] \/ str = unparse (JArray r)) strs rs /\
    let (replies, r) := run_commands g s (combine (map (map read_back) rs) strs) in
    list_sum_with (fun reply => room (JArray reply)) replies < 2 ^ 30 ->
    serve_all g grow_fuel turns fuel (new_conn out io) s = Fault Deadlock \/
    match r with
    | Ok s' => exists c', serve_all g grow_fuel turns fuel (new_conn out io) s = Ok (c', s') /\ kv_buf (c_kvout c') = [] /\
        kv_sent (c_kvout c') = flat_map (fun reply => unparse (JArray reply)) replies
    | Fault f => serve_all g grow_fuel turns fuel (new_conn out io) s = Fault f
    end.
Proof.
  intros Hgf Hout Hin Hw Hby Hlen Hf Ht.
  destruct (serve_requests g grow_fuel fuel Hgf (20 * 1024) (2 ^ 30 - 1) ltac:(lia) ltac:(lia) rs turns (new_conn out io) (flat_map (fun r => unparse (JArray r)) rs) s) as (strs & Hstrs & Hall);
    [| | |done|reflexivity|done|done|done|].
  - split; cbn; unfold inbuflen_, inbufsz; cbn; try done; lia.
  - split; [done|]. split; [done|]. split; [|cbn; lia]. by split; [split; reflexivity|].
  - done.
  - exists strs. split; [done|]. destruct (run_commands _ _ _) as [replies r]. intros Hr.
    destruct (Hall ltac:(change (kv_n (c_kvout (new_conn out io))) with 0; lia)) as [?|Hres]; [by left|right]. destruct r as [s'|f]; [|done].
    destruct Hres as (c' & -> & Hb & Hst). exists c'. split; [done|]. split; [done|].
    unfold stream in Hst. rewrite Hb, app_nil_r in Hst. exact Hst.
Qed.

(** C14: what becomes of a handshake is decided by its third item.  [main] accepts every
    array of two or more items whose second is the handshake's command, and gives it to
    one of the threads.  The thread answers with its index and the row type's name when
    there is no third item, or an object that does not ask for longer keys than the
    server's, and refuses longer keys; any other third item fails the thread's
    assertion, which ends the server. *)
Theorem handshake_outcome maxkeylen name tcpthreads next index seq more : 0 < tcpthreads -> 0 <= maxkeylen ->
  writable (JArray (seq :: JInt 14 :: more)) ->
  exists core next', accept_handshake tcpthreads next (Some (unparse (JArray (seq :: JInt 14 :: more)))) =
      Ok (Some (read_back seq :: JInt 14 :: map read_back more, core), next') /\ 0 <= core < tcpthreads /\
    let answer items ret := Ok (read_back seq :: JInt 15 :: items, ret) in
    let welcome := answer [JBool true; JInt index; JString name] 1 in
    let got := handshake maxkeylen name index (read_back seq :: JInt 14 :: map read_back more) in
    match map read_back more with
    | [] => got = welcome
    | JObject o :: _ =>
      let asks := match json_member (JObject o) key_maxkeylen with JInt n => n | JUnsigned n => Word.signed 64 n | _ => 0 end in
      got = if maxkeylen <? asks then answer [JBool false; JString bad_maxkeylen] (-1) else welcome
    | _ :: _ => got = Fault AssertFailed
    end.
Proof.
  intros Ht Hm Hw. set (request := read_back seq :: JInt 14 :: map read_back more).
  destruct (target_core_total tcpthreads next request Ht) as (core & next' & Hcore & Hr). exists core, next'. split; [|split; [done|]].
  - unfold accept_handshake. destruct (consume_unparse _ new_streaming_parser [] Hw) as (p & Hc & Hs & Hj). rewrite app_nil_r in Hc.
    pose proof (unparse_nonempty (JArray (seq :: JInt 14 :: more))) as Hne. destruct (unparse _) as [|b buf]; [done|].
    change (reset new_streaming_parser) with new_streaming_parser in Hc. rewrite Hc, rbind_Ok. cbn [fst snd]. rewrite Hj. cbn [read_back map].
    fold request. rewrite (proj2 (Z.leb_le _ _)) by (cbn; lia). cbn [andb]. change (request_item request 1) with (JInt 14). cbn [is_i as_i]. rewrite rbind_Ok.
    change (14 =? Cmd_Handshake) with true. cbn iota. by rewrite Hcore.
  - cbn zeta. unfold handshake, request. destruct (map read_back more) as [|third items].
    + cbn. done.
    + change (request_item (read_back seq :: JInt 14 :: third :: items) 2) with third.
      change (request_item (read_back seq :: JInt 14 :: third :: items) 1) with (JInt 14).
      rewrite (proj2 (Z.leb_le _ _)), (proj2 (Z.eqb_neq (len _) _)) by (cbn; lia). cbn [is_i is_o andb check_res as_i orb]. rewrite !rbind_Ok.
      change (14 =? Cmd_Handshake) with true. cbn [andb].
      destruct third as [|b|x|x|d|k|a|o]; try reflexivity. cbn [is_o check_res]. rewrite rbind_Ok.
      set (m := json_member (JObject o) key_maxkeylen).
      assert ((if is_i m then as_i m else Ok 0) = Ok (match m with JInt n => n | JUnsigned n => Word.signed 64 n | _ => 0 end)) as -> by (by destruct m).
      rewrite rbind_Ok. set (n := match m with JInt n => n | JUnsigned n => Word.signed 64 n | _ => 0 end).
      assert (is_i m && (maxkeylen <? n) = (maxkeylen <? n)) as ->.
      { unfold n. destruct m; cbn [is_i andb]; try done; symmetry; apply Z.ltb_ge; lia. }
      destruct (maxkeylen <? n); cbn; destruct items as [|i1 [|i2 items]]; reflexivity.
Qed.

(** A datagram that is a first part of the one before it, down to an empty one,
    is answered as that one: the parser is given the whole buffer, where the rest of
    the earlier request still is, and the command is executed again. *)
Lemma udp_repeats {T R} `{RowType R} `{Table T R} g buf p r (s : server T) k :
  writable (JArray r) -> (length (unparse (JArray r)) <= length buf)%nat ->
  match run_command g s (map read_back r) (unparse (JArray r)) with
  | Fault f => udp_serve g buf p (unparse (JArray r)) s = Fault f
  | Ok (ret, reply, s1) => exists buf1 p1,
      udp_serve g buf p (unparse (JArray r)) s = Ok (buf1, p1, if 0 <=? ret then Some (unparse (JArray reply)) else None, s1) /\
      match run_command g s1 (map read_back r) (unparse (JArray r)) with
      | Fault f => udp_serve g buf1 p1 (take k (unparse (JArray r))) s1 = Fault f
      | Ok (ret, reply, s2) => exists p2,
          udp_serve g buf1 p1 (take k (unparse (JArray r))) s1 = Ok (buf1, p2, if 0 <=? ret then Some (unparse (JArray reply)) else None, s2)
      end
  end.
Proof.
  intros Hw Hl. set (d := unparse (JArray r)) in *.
  assert (take (length buf) (d ++ drop (length d) buf) = d ++ drop (length d) buf) as E by (apply take_ge; rewrite length_app, length_drop; lia).
  destruct (udp_request g buf p d s r _ Hw E) as (q & _ & Hu). fold d in Hu. rewrite Hu.
  destruct (run_command g s (map read_back r) d) as [[[ret reply] s1]|f]; [|done]. rewrite rbind_Ok. eexists _, _. split; [done|].
  set (buf1 := d ++ drop (length d) buf).
  assert (take (length buf1) (take k d ++ drop (length (take k d)) buf1) = d ++ drop (length d) buf) as E1.
  { assert (take k d ++ drop (length (take k d)) buf1 = buf1) as ->; [|by apply take_ge].
    assert (buf1 = take k d ++ (drop k d ++ drop (length d) buf)) as -> by (by rewrite app_assoc, take_drop).
    by rewrite drop_app_length. }
  destruct (udp_request g buf1 (Msgpack.set_json (JArray reply) q) (take k d) s1 r _ Hw E1) as (q2 & _ & Hu2). fold d in Hu2. rewrite Hu2.
  destruct (run_command g s1 (map read_back r) d) as [[[ret2 reply2] s2]|f]; [|done]. rewrite rbind_Ok. by eexists.
Qed.

(** ** On connections *)

#[local] Existing Instance zeros_row.

Definition some_server : server (map_table value_bag) := Server some_table no_query (Thread 4 true) [].
Definition some_requests : list (list Json) := [[JInt 1; JInt Cmd_Checkpoint]; [JInt 2; JInt Cmd_Get; JString [107]]; [JInt 3; JInt Cmd_Remove; JString [107]]].
Definition some_reads : list read_event := [Arrives [146; 1]; NotReady; Arrives [12; 147; 2; 2; 161; 107; 147; 3]; Arrives [10; 161; 107]; EndOfFile].

Example three_requests : input some_reads = Some (flat_map (fun r => unparse (JArray r)) some_requests) /\
  match serve_all 1 32 4 20 (new_conn [Wrote 1; Wrote 100; Wrote 100; Wrote 100; Wrote 100; Wrote 100] some_reads) some_server with
  | Ok (c, s) => kv_sent (c_kvout c) = flat_map unparse [JArray [JInt 1; JInt 13]; JArray [JInt 2; JInt 3; JString [1]; JString [2; 3]]; JArray [JInt 3; JInt 11; JBool true]] /\
      find (s_table s) [107] = None /\ length (s_log s) = 1%nat
  | Fault _ => False
  end.
Proof. vm_compute. repeat split; reflexivity. Qed.

Lemma session_witness : exists strs, Forall2 (fun str r => str = [] \/ str = unparse (JArray r)) strs some_requests /\
  let (replies, r) := run_commands 1 some_server (combine some_requests strs) in
  list_sum_with (fun reply => room (JArray reply)) replies < 2 ^ 30 ->
  serve_all 1 32 4 20 (new_conn [WouldBlock; Wrote 3] some_reads) some_server = Fault Deadlock \/
  match r with
  | Ok s' => exists c', serve_all 1 32 4 20 (new_conn [WouldBlock; Wrote 3] some_reads) some_server = Ok (c', s') /\ kv_buf (c_kvout c') = [] /\
      kv_sent (c_kvout c') = flat_map (fun reply => unparse (JArray reply)) replies
  | Fault f => serve_all 1 32 4 20 (new_conn [WouldBlock; Wrote 3] some_reads) some_server = Fault f
  end.
Proof.
  apply (session 1 32 20 4 [WouldBlock; Wrote 3] some_reads some_requests some_server).
  - apply Nat.leb_le. reflexivity.
  - intros H. repeat (apply elem_of_cons in H as [H|H]; [discriminate|]). by apply not_elem_of_nil in H.
  - reflexivity.
  - unfold some_requests. repeat (apply Forall_cons_2; [cbn; unfold int_length; cbn; repeat split; unfold Cmd_Checkpoint, Cmd_Get, Cmd_Remove; lia|]). apply Forall_nil_2.
  - vm_compute. repeat constructor; vm_compute; (discriminate || reflexivity).
  - reflexivity.
  - apply Nat.leb_le. reflexivity.
  - apply Nat.ltb_lt. reflexivity.
Defined.

(** The third item is [true], which the client takes from the server's answer. *)
Lemma handshake_outcome_witness : exists core next',
  accept_handshake 4 0 (Some [147; 0; 14; 195]) = Ok (Some ([JInt 0; JInt 14; JBool true], core), next') /\ 0 <= core < 4 /\
  handshake MASSTREE_MAXKEYLEN [] 0 [JInt 0; JInt 14; JBool true] = Fault AssertFailed.
Proof.
  apply (handshake_outcome MASSTREE_MAXKEYLEN [] 4 0 0 (JInt 0) [JBool true]); [lia|unfold MASSTREE_MAXKEYLEN; lia|]. cbn. unfold int_length. cbn. repeat split; lia.
Defined.

