(* ===== verification/LeafFacts.v ===== *)
(** * What a leaf holds

    The items of a leaf in key order, and what the operations that write slots
    do to them: shared by the theorems on splits, lookups and insertions. *)

From S2P Require Export Insert.
From S2P Require Import NodeVersion KPermuter StringBag.

#[local] Open Scope Z_scope.
#[local] Open Scope lhm_scope.

#[local] Existing Instance np_config.

Section leaf_facts.
Context {P : nodeparams}.

Abbreviation LW := leaf_width.

(** ** Items *)

(** The key slice, the key length code and the value of a slot. *)
Record item := Item {
  it_ikey : Z;
  it_keylenx : Z;
  it_lv : leafvalue
}.

Definition slot_item (l : leaf) (s : Z) : item :=
  Item (leaf_ikey l s) (leaf_keylenx l s) (nth (Z.to_nat s) (l_lv l) lv_make_empty).

(** The items in use, in key order. *)
Definition leaf_items (l : leaf) : list item := slot_item l <$> active LW (l_permutation l).

(** What [assign] makes of a key; the value comes later. *)
Definition key_item (ka : key) : item :=
  Item (k_ikey ka) (if has_suffix ka then ksuf_keylenx else Word.wrap 8 (k_len ka)) lv_make_empty.

Record arrays_ok (l : leaf) : Prop := {
  ao_ikey : Z.of_nat (length (l_ikey0 l)) = LW;
  ao_keylenx : Z.of_nat (length (l_keylenx l)) = LW;
  ao_lv : Z.of_nat (length (l_lv l)) = LW
}.

Record leaf_ok (l : leaf) : Prop := {
  lo_arrays : arrays_ok l;
  lo_perm : KPermuter.wf LW (l_permutation l)
}.

(** The fields that writing slots leaves alone. *)
Record leaf_frame (l l' : leaf) : Prop := {
  lf_version : l_version l' = l_version l;
  lf_modstate : l_modstate l' = l_modstate l;
  lf_permutation : l_permutation l' = l_permutation l;
  lf_next_marked : l_next_marked l' = l_next_marked l;
  lf_next : l_next l' = l_next l;
  lf_prev : l_prev l' = l_prev l;
  lf_parent : l_parent l' = l_parent l;
  lf_meta : l_meta l' = l_meta l;
  lf_meta_extra : l_root_meta_extra64 l' = l_root_meta_extra64 l
}.

(** [l'] is [l] with the item [e] in slot [p]. *)
Record slot_written (l l' : leaf) (p : Z) (e : item) : Prop := {
  sw_frame : leaf_frame l l';
  sw_arrays : arrays_ok l';
  sw_at : slot_item l' p = e;
  sw_other : forall s, 0 <= s -> s <> p -> slot_item l' s = slot_item l s
}.

Lemma leaf_frame_refl l : leaf_frame l l.
Proof. by split. Qed.

Lemma leaf_frame_trans l1 l2 l3 : leaf_frame l1 l2 -> leaf_frame l2 l3 -> leaf_frame l1 l3.
Proof. intros [] []. split; congruence. Qed.

(** Suffix storage is not part of the items. *)
Lemma assign_ksuf_fields l p s b l' :
  assign_ksuf l p s b = Ok l' ->
  leaf_frame l l' /\ l_ikey0 l' = l_ikey0 l /\ l_keylenx l' = l_keylenx l /\ l_lv l' = l_lv l.
Proof.
  unfold assign_ksuf. intros ([r1 l1] & H1 & H)%rbind_ok.
  assert (leaf_frame l l1 /\ l_ikey0 l1 = l_ikey0 l /\ l_keylenx l1 = l_keylenx l /\ l_lv l1 = l_lv l)
    as (F1 & E1).
  { destruct (l_ksuf l).
    - apply rbind_ok in H1 as (x & _ & [= _ <-]). repeat split.
    - injection H1 as _ <-. repeat split. }
  cbn [fst snd] in H. destruct r1; [injection H as <-; done|].
  apply rbind_ok in H as ([r2 l2] & H2 & H).
  assert (leaf_frame l l2 /\ l_ikey0 l2 = l_ikey0 l /\ l_keylenx l2 = l_keylenx l /\ l_lv l2 = l_lv l)
    as (F2 & E2).
  { destruct (0 <? l_extrasize64 l); [destruct (l_iksuf l); [|done]|].
    - apply rbind_ok in H2 as (x & _ & [= _ <-]). repeat split.
    - injection H2 as _ <-. repeat split. }
  cbn [fst snd] in H. destruct r2; [injection H as <-; done|].
  repeat (apply rbind_ok in H as (? & _ & H)). cbn zeta in H. injection H as <-.
  destruct (0 <=? l_extrasize64 _); repeat split.
Qed.

(** ** Writing slots *)

Lemma nthZ_insert d (xs : list Z) p s x :
  0 <= p < Z.of_nat (length xs) -> 0 <= s ->
  nthZ d (<[Z.to_nat p := x]> xs) s = if s =? p then x else nthZ d xs s.
Proof.
  intros Hp Hs. unfold nthZ. rewrite !nth_lookup. destruct (Z.eqb_spec s p) as [->|Hne].
  - by rewrite list_lookup_insert_eq by lia.
  - by rewrite list_lookup_insert_ne by lia.
Qed.

Lemma nth_insert {A} (d : A) (xs : list A) p s x :
  0 <= p < Z.of_nat (length xs) -> 0 <= s ->
  nth (Z.to_nat s) (<[Z.to_nat p := x]> xs) d = if s =? p then x else nth (Z.to_nat s) xs d.
Proof.
  intros Hp Hs. rewrite !nth_lookup. destruct (Z.eqb_spec s p) as [->|Hne].
  - by rewrite list_lookup_insert_eq by lia.
  - by rewrite list_lookup_insert_ne by lia.
Qed.

(** A leaf whose three arrays are those of [l] with slot [p] written. *)
Lemma slot_written_intro l l' p ik kx lv :
  arrays_ok l -> 0 <= p < LW -> leaf_frame l l' ->
  l_ikey0 l' = <[Z.to_nat p := ik]> (l_ikey0 l) ->
  l_keylenx l' = <[Z.to_nat p := kx]> (l_keylenx l) ->
  l_lv l' = <[Z.to_nat p := lv]> (l_lv l) ->
  slot_written l l' p (Item ik kx lv).
Proof.
  intros [A1 A2 A3] Hp Hf E1 E2 E3. split; [done| | |].
  - split; rewrite ?E1, ?E2, ?E3, length_insert; done.
  - unfold slot_item, leaf_ikey, leaf_keylenx. rewrite E1, E2, E3, !nthZ_insert, nth_insert by lia.
    by rewrite Z.eqb_refl.
  - intros s Hs Hne. unfold slot_item, leaf_ikey, leaf_keylenx.
    rewrite E1, E2, E3, !nthZ_insert, nth_insert by lia. by destruct (Z.eqb_spec s p).
Qed.

Lemma leaf_assign_gen_written b l p ka l' :
  arrays_ok l -> leaf_assign_gen b l p ka = Ok l' ->
  0 <= p < LW /\ slot_written l l' p (key_item ka).
Proof.
  intros HA (l1 & (x1 & [Hp ->]%aset_ok & [= <-])%rbind_ok & H)%rbind_ok.
  apply rbind_ok in H as (l2 & (x2 & [_ ->]%aset_ok & [= <-])%rbind_ok & H).
  pose proof HA as [A1 A2 A3]. split; [lia|]. unfold key_item.
  destruct (has_suffix ka); cbn [negb] in H.
  - apply rbind_ok in H as (l3 & (x3 & [_ ->]%aset_ok & [= <-])%rbind_ok & H).
    apply assign_ksuf_fields in H as (F & E1 & E2 & E3).
    apply slot_written_intro; [done|lia| |by rewrite ?E1, ?E2, ?E3..].
    eapply leaf_frame_trans; [|exact F]. done.
  - apply rbind_ok in H as (x3 & [_ ->]%aset_ok & [= <-]).
    apply slot_written_intro; [done|lia|done..].
Qed.

Lemma leaf_assign_gen_total b l p ka :
  arrays_ok l -> 0 <= p < LW -> has_suffix ka = false -> exists l', leaf_assign_gen b l p ka = Ok l'.
Proof.
  intros [A1 A2 A3] Hp Hs. unfold leaf_assign_gen, leaf_set_lv, leaf_set_ikey, leaf_set_keylenx.
  rewrite Hs. cbn. rewrite aset_total by lia. cbn. rewrite aset_total by (cbn; lia). cbn.
  rewrite aset_total by (cbn; lia). cbn. by eexists.
Qed.

Lemma aget_nthZ (xs : list Z) i x : aget xs i = Ok x -> nthZ 0 xs i = x.
Proof. intros [_ H]%aget_ok. unfold nthZ. by rewrite nth_lookup, H. Qed.

Lemma leaf_assign_from_written l p x xp l' :
  arrays_ok l -> leaf_assign_from l p x xp = Ok l' ->
  0 <= p < LW /\ slot_written l l' p (slot_item x xp).
Proof.
  intros HA (v & Hv & H)%rbind_ok.
  apply rbind_ok in H as (l1 & (x1 & [Hp ->]%aset_ok & [= <-])%rbind_ok & H).
  apply rbind_ok in H as (ik & Hik & H).
  apply rbind_ok in H as (l2 & (x2 & [_ ->]%aset_ok & [= <-])%rbind_ok & H).
  apply rbind_ok in H as (kx & Hkx & H).
  apply rbind_ok in H as (l3 & (x3 & [_ ->]%aset_ok & [= <-])%rbind_ok & H).
  pose proof HA as [A1 A2 A3]. split; [lia|].
  assert (slot_item x xp = Item ik kx v) as ->.
  { unfold slot_item, leaf_ikey, leaf_keylenx. rewrite (aget_nthZ _ _ _ Hik), (aget_nthZ _ _ _ Hkx).
    apply aget_ok in Hv as [_ Hv]. by rewrite nth_lookup, Hv. }
  destruct (has_ksuf x xp).
  - apply rbind_ok in H as (s & _ & H). apply assign_ksuf_fields in H as (F & E1 & E2 & E3).
    apply slot_written_intro; [done|lia| |by rewrite ?E1, ?E2, ?E3..].
    eapply leaf_frame_trans; [|exact F]. done.
  - injection H as <-. apply slot_written_intro; [done|lia|done..].
Qed.

Lemma leaf_assign_from_total l p x xp :
  arrays_ok l -> arrays_ok x -> 0 <= p < LW -> 0 <= xp < LW -> has_ksuf x xp = false ->
  exists l', leaf_assign_from l p x xp = Ok l'.
Proof.
  intros [A1 A2 A3] [B1 B2 B3] Hp Hx Hs. unfold leaf_assign_from, leaf_set_lv, leaf_set_ikey, leaf_set_keylenx.
  destruct (aget_total (l_lv x) xp) as [v Hv]; [lia|].
  destruct (aget_total (l_ikey0 x) xp) as [ik Hik]; [lia|].
  destruct (aget_total (l_keylenx x) xp) as [kx Hkx]; [lia|].
  rewrite Hv, Hs. cbn. rewrite aset_total by lia. cbn. rewrite Hik. cbn.
  rewrite aset_total by (cbn; lia). cbn. rewrite Hkx. cbn. rewrite aset_total by (cbn; lia). cbn.
  by eexists.
Qed.

Lemma slot_written_items l l' p e :
  slot_written l l' p e -> (p ∉ active LW (l_permutation l)) -> leaf_items l' = leaf_items l.
Proof.
  intros [F _ _ Ho] Hp. unfold leaf_items. rewrite (lf_permutation _ _ F).
  apply list_fmap_ext. intros i s Hs. apply Ho.
  - unfold active in Hs. apply lookup_take_Some in Hs as [Hs _].
    apply list_elem_of_lookup_2 in Hs. apply list_elem_of_fmap in Hs as (y & -> & _).
    apply KPermuter.get_range.
  - intros ->. apply Hp. by apply list_elem_of_lookup_2 in Hs.
Qed.
End leaf_facts.
