(* ===== verification/SplitFacts.v ===== *)
(** * Splitting a full leaf partitions its items

    The items of a leaf with the new key inserted at its rank are cut where the
    key slice changes; the right leaf gets the upper part, the permutation that
    [make_split] leaves in the left leaf keeps the lower part. *)

From S2P Require Export LeafFacts.
From S2P Require Import Namespace NodeVersion KPermuter.

#[local] Open Scope Z_scope.
#[local] Open Scope lhm_scope.

#[local] Existing Instance np_config.

Section split_facts.
Context {P : nodeparams}.

Abbreviation LW := leaf_width.

(** ** The items after the insertion *)

Definition insert_at {A} (p : nat) (x : A) (xs : list A) : list A := take p xs ++ x :: drop p xs.

(** All items of the leaf and the new one, in order. *)
Definition full_items (l : leaf) (ka : key) (p : Z) : list item :=
  insert_at (Z.to_nat p) (key_item ka) (leaf_items l).

(** The item at rank [i]. *)
Definition full_item (l : leaf) (ka : key) (p i : Z) : item :=
  if i <? p then slot_item l (KPermuter.get (l_permutation l) i)
  else if i =? p then key_item ka
  else slot_item l (KPermuter.get (l_permutation l) (i - 1)).

Lemma length_leaf_items l : leaf_ok l -> 1 <= LW <= 15 -> Z.of_nat (length (leaf_items l)) = leaf_size l.
Proof.
  intros [_ [Hs _]] HW. unfold leaf_items. rewrite length_fmap, length_active by done.
  pose proof (KPermuter.size_range (l_permutation l)). unfold leaf_size. lia.
Qed.

Lemma leaf_items_lookup l (i : nat) :
  leaf_ok l -> 1 <= LW <= 15 -> Z.of_nat i < leaf_size l ->
  leaf_items l !! i = Some (slot_item l (KPermuter.get (l_permutation l) (Z.of_nat i))).
Proof.
  intros [_ [Hs _]] HW Hi. unfold leaf_items. rewrite list_lookup_fmap, active_lookup by done. done.
Qed.

Lemma length_insert_at {A} p (x : A) xs : (p <= length xs)%nat -> length (insert_at p x xs) = S (length xs).
Proof. intros. unfold insert_at. rewrite length_app. cbn. rewrite length_take, length_drop. lia. Qed.

Lemma insert_at_lookup {A} p (x : A) xs (i : nat) :
  (p <= length xs)%nat ->
  insert_at p x xs !! i =
    if (i <? p)%nat then xs !! i else if (i =? p)%nat then Some x else xs !! (i - 1)%nat.
Proof.
  intros Hp. unfold insert_at. destruct (Nat.ltb_spec i p).
  - by rewrite lookup_app_l, lookup_take_lt by (rewrite ?length_take; lia).
  - rewrite lookup_app_r, length_take by (rewrite length_take; lia).
    replace (p `min` length xs)%nat with p by lia. destruct (Nat.eqb_spec i p) as [->|].
    + by rewrite Nat.sub_diag.
    + rewrite lookup_cons_ne_0, lookup_drop by lia. f_equal. lia.
Qed.

Lemma take_insert_at {A} p k (x : A) xs :
  (p <= length xs)%nat -> take (S (p + k)) (insert_at p x xs) = insert_at p x (take (p + k) xs).
Proof.
  intros Hp. unfold insert_at. rewrite take_app, !take_take, length_take.
  replace (S (p + k) `min` p)%nat with p by lia. replace (p `min` (p + k))%nat with p by lia.
  replace (S (p + k) - p `min` length xs)%nat with (S k) by lia.
  by rewrite firstn_cons, take_drop_commute.
Qed.

Lemma take_insert_at_low {A} p m (x : A) xs :
  (m <= p <= length xs)%nat -> take m (insert_at p x xs) = take m xs.
Proof.
  intros Hp. unfold insert_at. rewrite take_app_le, take_take by (rewrite length_take; lia). f_equal. lia.
Qed.

(** The new item completes the side it belongs to. *)
Definition with_new (b : bool) (i : Z) (ka : key) (xs : list item) : list item :=
  if b then insert_at (Z.to_nat i) (key_item ka) xs else xs.

Context (HW : 3 <= LW <= 15).

Section one_leaf.
Context (l : leaf) (Hl : leaf_ok l) (ka : key) (p : Z) (Hp : 0 <= p <= leaf_size l).

Abbreviation perm := (l_permutation l).
Abbreviation width := (leaf_size l).

Lemma width_bound : width <= LW.
Proof. by destruct Hl as [_ [Hs _]]. Qed.

Lemma full_items_lookup (i : nat) :
  Z.of_nat i <= width -> full_items l ka p !! i = Some (full_item l ka p (Z.of_nat i)).
Proof using Hl HW Hp.
  intros Hi. pose proof (length_leaf_items l Hl ltac:(lia)) as Hlen. unfold full_items, full_item.
  rewrite insert_at_lookup by lia.
  destruct (Nat.ltb_spec i (Z.to_nat p)), (Z.ltb_spec (Z.of_nat i) p); try lia.
  - by apply leaf_items_lookup; [|lia..].
  - destruct (Nat.eqb_spec i (Z.to_nat p)), (Z.eqb_spec (Z.of_nat i) p); try lia; [done|].
    rewrite leaf_items_lookup by (done || lia). do 3 f_equal. lia.
Qed.

Lemma length_full_items : Z.of_nat (length (full_items l ka p)) = width + 1.
Proof using Hl HW Hp.
  pose proof (length_leaf_items l Hl ltac:(lia)) as Hlen.
  unfold full_items. rewrite length_insert_at; lia.
Qed.

Lemma ikey_after_insert_full i :
  ikey_after_insert l perm i p (k_ikey ka) = it_ikey (full_item l ka p i).
Proof. unfold ikey_after_insert, full_item. destruct (i <? p); [done|]. by destruct (i =? p). Qed.

(** ** The split point *)

Lemma adjust_mid_sound after mid_ikey m fuel midl midr :
  (forall i, midl < i < midr -> 0 <= i <= width -> after i = mid_ikey) ->
  midl < width -> midl + 1 < midr -> 0 < midr -> adjust_mid fuel after width mid_ikey midl midr = Ok m ->
  0 < m <= width /\ after (m - 1) <> after m.
Proof.
  revert midl midr. induction fuel as [|fuel IH]; intros midl midr Heq Hl1 Hlr Hr H; [done|].
  cbn in H. destruct (Z.leb_spec midr width) as [Hrw|Hrw]; cbn [andb] in H.
  - destruct (Z.eqb_spec mid_ikey (after midr)) as [He|He]; cbn [negb] in H.
    + destruct (Z.leb_spec 0 midl) as [Hl0|Hl0]; cbn [andb] in H.
      * destruct (Z.eqb_spec mid_ikey (after midl)) as [He'|He']; cbn [negb] in H.
        -- apply (IH (midl - 1) (midr + 1)); [|lia..|done]. intros i Hi Hi'.
           destruct (Z.eq_dec i midl) as [->|]; [done|]. destruct (Z.eq_dec i midr) as [->|]; [done|].
           apply Heq; lia.
        -- injection H as <-. split; [lia|]. replace (midl + 1 - 1) with midl by lia.
           rewrite (Heq (midl + 1)) by lia. congruence.
      * apply (IH (midl - 1) (midr + 1)); [|lia..|done]. intros i Hi Hi'.
        destruct (Z.eq_dec i midr) as [->|]; [done|]. apply Heq; lia.
    + injection H as <-. split; [lia|]. rewrite Heq by lia. congruence.
  - destruct (Z.leb_spec 0 midl) as [Hl0|Hl0]; cbn [andb] in H.
    + destruct (Z.eqb_spec mid_ikey (after midl)) as [He'|He']; cbn [negb] in H.
      * apply (IH (midl - 1) (midr + 1)); [|lia..|done]. intros i Hi Hi'.
        destruct (Z.eq_dec i midl) as [->|]; [done|]. apply Heq; lia.
      * injection H as <-. split; [lia|]. replace (midl + 1 - 1) with midl by lia.
        rewrite (Heq (midl + 1)) by lia. congruence.
    + apply (IH (midl - 1) (midr + 1)); [|lia..|done]. intros i Hi Hi'. apply Heq; lia.
Qed.

Lemma adjust_mid_total after mid_ikey j fuel midl midr :
  0 <= j <= width -> after j <> mid_ikey ->
  (j <= midl /\ midl - j < Z.of_nat fuel) \/ (midr <= j /\ j - midr < Z.of_nat fuel) ->
  exists m, adjust_mid fuel after width mid_ikey midl midr = Ok m.
Proof.
  intros Hj Hne. revert midl midr. induction fuel as [|fuel IH]; intros midl midr H; [lia|]. cbn.
  destruct ((midr <=? width) && negb (mid_ikey =? after midr)) eqn:H1; [by eexists|].
  destruct ((0 <=? midl) && negb (mid_ikey =? after midl)) eqn:H2; [by eexists|].
  assert (j <> midl /\ j <> midr) as [? ?].
  { split; intros ->.
    - apply andb_false_iff in H2 as [H2%Z.leb_gt|H2%negb_false_iff%Z.eqb_eq]; [lia|congruence].
    - apply andb_false_iff in H1 as [H1%Z.leb_gt|H1%negb_false_iff%Z.eqb_eq]; [lia|congruence]. }
  apply IH. lia.
Qed.

Abbreviation after := (fun i => ikey_after_insert l perm i p (k_ikey ka)).

Definition first_mid : Z :=
  if (p =? 0) && negb (parent_exists (l_prev l)) then 1
  else if (p =? width) && negb (parent_exists (l_next l)) && negb (l_next_marked l) then width
  else LW / 2 + 1.

Lemma first_mid_bound : LW - 1 <= width -> 0 < first_mid <= width.
Proof using Hl HW Hp.
  intros Hw. unfold first_mid. assert (1 <= LW / 2 /\ LW / 2 + 1 <= LW - 1) as [? ?]
    by (Z.to_euclidean_division_equations; lia).
  repeat case_match; lia.
Qed.

Lemma choose_mid_sound mid :
  LW - 1 <= width -> choose_mid l perm p (k_ikey ka) width = Ok mid ->
  0 < mid <= width /\ after (mid - 1) <> after mid.
Proof using Hl HW Hp.
  intros Hw. pose proof (first_mid_bound Hw) as Hm. unfold choose_mid. fold first_mid.
  destruct (Z.eqb_spec (after first_mid) (after (first_mid - 1))) as [He|He].
  - intros (m & Ha & H)%rbind_ok. apply rbind_ok in H as (_ & _ & [= ->]).
    apply adjust_mid_sound in Ha; [done| |lia..].
    intros i Hi _. cbn beta in He |- *. assert (i = first_mid \/ i = first_mid - 1) as [->| ->] by lia; done.
  - intros [= <-]. split; [done|]. cbn beta in *. congruence.
Qed.

Lemma choose_mid_total :
  LW - 1 <= width -> LW < Z.of_nat np_fuel ->
  (exists i, 0 < i <= width /\ after (i - 1) <> after i) ->
  exists mid, choose_mid l perm p (k_ikey ka) width = Ok mid.
Proof using Hl HW Hp.
  intros Hw Hfuel (i & Hi & Hne). pose proof (first_mid_bound Hw) as Hm. unfold choose_mid. fold first_mid.
  destruct (Z.eqb_spec (after first_mid) (after (first_mid - 1))) as [He|He]; [|by eexists].
  assert (exists j, 0 <= j <= width /\ after j <> after first_mid) as (j & Hj & Hnj).
  { destruct (Z.eq_dec (after i) (after first_mid)); [exists (i - 1)|exists i]; split; (lia || congruence). }
  cbn beta in *.
  destruct (adjust_mid_total after (after first_mid) j np_fuel (first_mid - 2) (first_mid + 1) Hj Hnj)
    as [m Hmm].
  { pose proof width_bound. assert (j <> first_mid) by congruence.
    assert (j <> first_mid - 1) by congruence. lia. }
  cbn beta in Hmm. rewrite Hmm. cbn [rbind res_bind].
  apply adjust_mid_sound in Hmm; [| |lia..].
  - unfold rbind, res_bind. rewrite (proj2 (Z.ltb_lt 0 m)), (proj2 (Z.leb_le m width)) by lia. cbn. by eexists.
  - intros k Hk _. assert (k = first_mid \/ k = first_mid - 1) as [->| ->] by lia; done.
Qed.

(** ** Moving the items *)

Lemma value_from_digit x j : 0 <= j -> Z.land (KPermuter.value_from x j) 15 = KPermuter.get x j.
Proof. intros. unfold KPermuter.value_from, KPermuter.get. by rewrite !KPermuter.shl2, Z.mul_add_distr_l. Qed.

Lemma value_from_next x j : 0 <= j -> Z.shiftr (KPermuter.value_from x j) 4 = KPermuter.value_from x (j + 1).
Proof.
  intros. unfold KPermuter.value_from. rewrite !KPermuter.shl2, Z.shiftr_shiftr by lia. f_equal. lia.
Qed.

Lemma perm_slot_range i : 0 <= i < LW -> 0 <= KPermuter.get perm i < LW.
Proof using Hl HW.
  destruct Hl as [_ [_ Hperm]]. intros Hi.
  assert (KPermuter.get perm i ∈ KPermuter.elems LW perm) as Hin.
  { apply list_elem_of_fmap. exists i. split; [done|]. apply elem_of_seqZ. lia. }
  rewrite Hperm in Hin. apply elem_of_seqZ in Hin. lia.
Qed.

Lemma perm_slot_active i : 0 <= i < width -> KPermuter.get perm i ∈ KPermuter.active LW perm.
Proof using Hl HW.
  destruct Hl as [_ [Hs _]]. intros Hi. apply (list_elem_of_lookup_2 _ (Z.to_nat i)).
  rewrite active_lookup by (done || (unfold leaf_size in Hi; lia)). f_equal. f_equal. lia.
Qed.

(** The old index that goes to rank [x]. *)
Definition old_rank (x : Z) : Z := x - (if p <? x then 1 else 0).

Lemma full_item_old x : x <> p -> full_item l ka p x = slot_item l (KPermuter.get perm (old_rank x)).
Proof.
  intros Hx. unfold full_item, old_rank. destruct (Z.ltb_spec x p), (Z.ltb_spec p x); try lia.
  - f_equal. f_equal. lia.
  - by destruct (Z.eqb_spec x p).
Qed.

Lemma old_rank_next x : old_rank (x + 1) = if x =? p then old_rank x else old_rank x + 1.
Proof.
  unfold old_rank. destruct (Z.eqb_spec x p), (Z.ltb_spec p (x + 1)), (Z.ltb_spec p x); lia.
Qed.

Lemma move_items_sound mid cnt : forall nr x nr',
  arrays_ok nr -> 0 < mid <= x -> x + Z.of_nat cnt = width + 1 ->
  move_items cnt nr l ka p mid x (KPermuter.value_from perm (old_rank x)) = Ok nr' ->
  leaf_frame nr nr' /\ arrays_ok nr' /\
  (forall s, 0 <= s -> slot_item nr' s =
     if (x - mid <=? s) && (s <? width + 1 - mid) then full_item l ka p (s + mid) else slot_item nr s).
Proof using Hp.
  induction cnt as [|cnt IH]; intros nr x nr' Ha Hx Hc H.
  - injection H as <-. split; [apply leaf_frame_refl|]. split; [done|]. intros s Hs.
    destruct (Z.leb_spec (x - mid) s), (Z.ltb_spec s (width + 1 - mid)); cbn [andb]; (lia || done).
  - assert (exists nr1, slot_written nr nr1 (x - mid) (full_item l ka p x) /\
      move_items cnt nr1 l ka p mid (x + 1) (KPermuter.value_from perm (old_rank (x + 1))) = Ok nr')
      as (nr1 & Hw & Hrest).
    { assert (0 <= old_rank x) by (unfold old_rank; case_match; lia).
      cbn [move_items] in H. destruct (Z.eqb_spec x p) as [Hxp|Hxp].
      - apply rbind_ok in H as (nr1 & Hn & H). apply leaf_assign_gen_written in Hn as [_ Hn]; [|done].
        exists nr1. rewrite old_rank_next. destruct (Z.eqb_spec x p); [|done]. split; [|done].
        unfold full_item. destruct (Z.ltb_spec x p); [lia|]. by destruct (Z.eqb_spec x p).
      - apply rbind_ok in H as (nr1 & Hn & H). apply leaf_assign_from_written in Hn as [_ Hn]; [|done].
        exists nr1. rewrite old_rank_next. destruct (Z.eqb_spec x p); [done|].
        rewrite value_from_digit in Hn by done. rewrite value_from_next in H by done.
        split; [|done]. by rewrite full_item_old. }
    destruct Hw as [F A At O]. apply IH in Hrest as (F' & A' & S'); [|done|lia..].
    split; [by eapply leaf_frame_trans|]. split; [done|]. intros s Hs. rewrite S' by done.
    destruct (Z.eq_dec s (x - mid)) as [->|Hne].
    + destruct (Z.leb_spec (x + 1 - mid) (x - mid)), (Z.leb_spec (x - mid) (x - mid)),
        (Z.ltb_spec (x - mid) (width + 1 - mid)); cbn [andb]; try lia.
      rewrite At. f_equal. lia.
    + rewrite O by done. destruct (Z.leb_spec (x + 1 - mid) s), (Z.leb_spec (x - mid) s); try lia; done.
Qed.

Definition no_suffixes : Prop :=
  has_suffix ka = false /\ forall s, s ∈ KPermuter.active LW perm -> has_ksuf l s = false.

Lemma move_items_total mid cnt : forall nr x,
  no_suffixes -> arrays_ok nr -> 0 < mid <= x -> x + Z.of_nat cnt = width + 1 ->
  exists nr', move_items cnt nr l ka p mid x (KPermuter.value_from perm (old_rank x)) = Ok nr'.
Proof using Hp Hl HW.
  induction cnt as [|cnt IH]; intros nr x Hns Ha Hx Hc; [by eexists|].
  assert (0 <= old_rank x < width \/ x = p) by (unfold old_rank; case_match; lia).
  assert (0 <= old_rank x) by (unfold old_rank; case_match; lia). pose proof width_bound.
  cbn [move_items]. destruct (Z.eqb_spec x p) as [Hxp|Hxp].
  - destruct (leaf_assign_gen_total true nr (x - mid) ka) as [nr1 Hn]; [done|lia|apply Hns|].
    unfold leaf_assign_initialize. rewrite Hn. cbn [rbind res_bind].
    destruct (IH nr1 (x + 1)) as [nr' Hr]; [done| |lia..|].
    { by apply leaf_assign_gen_written in Hn as [_ []]. }
    exists nr'. rewrite old_rank_next in Hr. by destruct (Z.eqb_spec x p).
  - rewrite value_from_digit, value_from_next by done.
    destruct (leaf_assign_from_total nr (x - mid) l (KPermuter.get perm (old_rank x))) as [nr1 Hn].
    + done.
    + apply Hl.
    + lia.
    + apply perm_slot_range. lia.
    + apply Hns, perm_slot_active. lia.
    + rewrite Hn. cbn [rbind res_bind].
      destruct (IH nr1 (x + 1)) as [nr' Hr]; [done| |lia..|].
      { by apply leaf_assign_from_written in Hn as [_ []]. }
      exists nr'. rewrite old_rank_next in Hr. by destruct (Z.eqb_spec x p).
Qed.

(** ** The left leaf *)

Lemma left_permutation_spec rsize :
  0 <= rsize <= width -> LW - 1 <= width ->
  KPermuter.wf LW (left_permutation perm rsize) /\
  KPermuter.active LW (left_permutation perm rsize) =
    take (Z.to_nat (width - rsize)) (KPermuter.active LW perm).
Proof using Hl HW.
  intros Hr Hw. destruct Hl as [_ Hwf]. pose proof Hwf as [Hs _]. unfold leaf_size in *.
  unfold left_permutation. set (s := KPermuter.size perm) in *.
  assert (KPermuter.wf LW (KPermuter.set_size LW perm (s - rsize))) as Hwf' by (apply set_size_wf; (done || lia)).
  assert (KPermuter.active LW (KPermuter.set_size LW perm (s - rsize)) =
    take (Z.to_nat (s - rsize)) (KPermuter.active LW perm)) as Ha by (apply set_size_active; lia).
  destruct (Z.eqb_spec s LW); cbn [negb]; [done|]. rewrite set_size_size by lia.
  replace (s - rsize) with (Z.of_nat (Z.to_nat (s - rsize))) at 2 4 by lia.
  replace (LW - 1) with (Z.of_nat (Z.to_nat (LW - 1))) by lia.
  split; [apply exchange_wf; (done || lia)|].
  rewrite exchange_active; [done|lia|rewrite set_size_size by lia; lia..].
Qed.

Lemma left_items rsize :
  0 <= rsize <= width -> LW - 1 <= width ->
  leaf_items (set_l_permutation (left_permutation perm rsize) l) =
    take (Z.to_nat (width - rsize)) (leaf_items l).
Proof using Hl HW.
  intros Hr Hw. unfold leaf_items. cbn [l_permutation set_l_permutation].
  rewrite (proj2 (left_permutation_spec rsize Hr Hw)), fmap_take. done.
Qed.

(** ** The right leaf *)

(** The permutation of the right leaf: the new key's slot waits at the back. *)
Definition right_permutation (mid : Z) : Z :=
  let permr := make_sorted LW (width + 1 - mid) in
  if mid <=? p then remove_to_back LW permr (p - mid) else permr.

Lemma right_permutation_spec mid :
  0 < mid <= width ->
  let s := right_permutation mid in
  KPermuter.wf LW s /\ KPermuter.size s = width + 1 - mid - (if mid <=? p then 1 else 0) /\
  (p < mid -> KPermuter.active LW s = seqZ 0 (width + 1 - mid)) /\
  (mid <= p -> KPermuter.active LW s = delete (Z.to_nat (p - mid)) (seqZ 0 (width + 1 - mid)) /\
     KPermuter.back LW s = p - mid).
Proof using Hl HW Hp.
  intros Hm s. pose proof width_bound as Hwb. assert (1 <= LW <= 15) as HW1 by lia.
  assert (0 <= width + 1 - mid <= LW) as Hn by lia.
  pose proof (make_sorted_wf LW HW1 (width + 1 - mid) Hn) as Hwf.
  pose proof (make_sorted_active LW HW1 (width + 1 - mid) Hn) as Ha.
  pose proof (make_sorted_spec LW HW1 (width + 1 - mid) Hn) as [He Hs].
  unfold s, right_permutation. destruct (Z.leb_spec mid p) as [Hmp|Hmp]; [|repeat split_and; (done || lia)].
  assert (exists j : nat, p - mid = Z.of_nat j) as [j Hj] by (exists (Z.to_nat (p - mid)); lia).
  rewrite Hj, Nat2Z.id.
  split; [apply remove_to_back_wf; (done || lia)|].
  split; [rewrite remove_to_back_size; lia|]. split; [lia|]. intros _.
  rewrite remove_to_back_active, remove_to_back_back, Ha by lia. split; [done|].
  pose proof (active_lookup LW (make_sorted LW (width + 1 - mid)) j) as Hg.
  rewrite Ha, lookup_seqZ_lt in Hg by lia. specialize (Hg ltac:(lia) ltac:(lia)).
  injection Hg as <-. lia.
Qed.

Lemma drop_full_items mid f :
  0 < mid <= width -> (forall s, 0 <= s < width + 1 - mid -> f s = full_item l ka p (s + mid)) ->
  f <$> seqZ 0 (width + 1 - mid) = drop (Z.to_nat mid) (full_items l ka p).
Proof using Hl HW Hp.
  intros Hm Hf. pose proof length_full_items as Hlen. apply list_eq. intros i. rewrite list_lookup_fmap, lookup_drop.
  destruct (decide (Z.of_nat i < width + 1 - mid)).
  - rewrite lookup_seqZ_lt, full_items_lookup by lia. cbn. rewrite Hf by lia. do 2 f_equal. lia.
  - rewrite lookup_seqZ_ge, lookup_ge_None_2 by lia. done.
Qed.

Lemma insert_at_delete {A} (xs : list A) i x : xs !! i = Some x -> insert_at i x (delete i xs) = xs.
Proof.
  intros Hx. assert (i < length xs)%nat by by apply lookup_lt_Some in Hx.
  unfold insert_at. rewrite delete_take_drop, take_app_le, take_take, Nat.min_id by (rewrite length_take; lia).
  rewrite drop_app_ge, length_take by (rewrite length_take; lia).
  replace (i - i `min` length xs)%nat with 0%nat by lia. rewrite drop_0.
  by apply take_drop_middle.
Qed.

(** ** The split *)

Lemma split_leaf_ok nr r :
  split_leaf l nr ka p = Ok r ->
  exists mid nr1 sk, choose_mid l perm p (k_ikey ka) width = Ok mid /\
    move_items (Z.to_nat (width + 1 - mid)) nr l ka p mid mid (KPermuter.value_from perm (old_rank mid)) = Ok nr1 /\
    aget (l_ikey0 nr1) 0 = Ok sk /\
    r = (set_l_permutation (right_permutation mid) nr1, sk,
         if p <? mid then 0 else 1 + (if mid =? width then 1 else 0)).
Proof.
  intros (mid & Hmid & (nr1 & Hn & (sk & Hsk & [= <-])%rbind_ok)%rbind_ok)%rbind_ok.
  by exists mid, nr1, sk.
Qed.

Lemma split_leaf_total nr :
  LW - 1 <= width -> LW < Z.of_nat np_fuel -> arrays_ok nr -> no_suffixes ->
  (exists i, 0 < i <= width /\ after (i - 1) <> after i) ->
  exists r, split_leaf l nr ka p = Ok r.
Proof using Hl HW Hp.
  intros Hw Hf Ha Hns Hex. destruct (choose_mid_total Hw Hf Hex) as [mid Hmid].
  pose proof (choose_mid_sound mid Hw Hmid) as [Hm _].
  destruct (move_items_total mid (Z.to_nat (width + 1 - mid)) nr mid Hns Ha) as [nr1 Hn]; [lia..|].
  assert (arrays_ok nr1) as [A1 _ _] by (by apply move_items_sound in Hn as (_ & ? & _); [|done|lia..]).
  destruct (aget_total (l_ikey0 nr1) 0) as [sk Hsk]; [lia|].
  unfold split_leaf. fold width. rewrite Hmid. cbn [rbind res_bind].
  fold (old_rank mid). rewrite Hn. cbn [rbind res_bind]. cbn [l_ikey0 set_l_permutation].
  rewrite Hsk. by eexists.
Qed.
End one_leaf.

(** C35: [leaf::split_into] on a leaf with [width] or [width - 1] keys.  Put the
    new key at its rank [p] among the leaf's items: when not all the key slices
    are equal, there is a cut [mid] between two different key slices, the right
    leaf holds the items from [mid] on and the permutation that [make_split]
    stores in the left leaf keeps those before, where on the side of the new key
    the item is missing and its slot waits to be inserted at its rank; the
    separator is the right leaf's first key slice.  Without suffixes the split
    cannot fail. *)
Theorem split_leaf_partition (l nr : leaf) (ka : key) (p : Z) :
  leaf_ok l -> arrays_ok nr -> LW - 1 <= leaf_size l -> 0 <= p <= leaf_size l -> LW < Z.of_nat np_fuel ->
  (exists i e e', full_items l ka p !! i = Some e /\ full_items l ka p !! S i = Some e' /\
     it_ikey e <> it_ikey e') ->
  (no_suffixes l ka -> exists r, split_leaf l nr ka p = Ok r) /\
  (forall nr' split_ikey split_type, split_leaf l nr ka p = Ok (nr', split_ikey, split_type) ->
   exists mid e e',
     full_items l ka p !! (mid - 1)%nat = Some e /\ full_items l ka p !! mid = Some e' /\
     (0 < mid)%nat /\ it_ikey e <> split_ikey /\ it_ikey e' = split_ikey /\
     let new_left := p <? Z.of_nat mid in
     let left := set_l_permutation (left_permutation (l_permutation l) (leaf_size nr')) l in
     leaf_ok nr' /\ leaf_ok left /\
     with_new new_left p ka (leaf_items left) = take mid (full_items l ka p) /\
     with_new (negb new_left) (p - Z.of_nat mid) ka (leaf_items nr') = drop mid (full_items l ka p) /\
     split_type = (if new_left then 0 else if Z.of_nat mid =? leaf_size l then 2 else 1) /\
     (new_left = false -> KPermuter.back LW (l_permutation nr') = p - Z.of_nat mid /\
        slot_item nr' (p - Z.of_nat mid) = key_item ka)).
Proof.
  intros Hl Ha Hw Hp Hf (i & x & x' & Hx & Hx' & Hne). split.
  - intros Hns. apply split_leaf_total; [done..|]. exists (Z.of_nat (S i)).
    pose proof (length_full_items l Hl ka p Hp). pose proof (lookup_lt_Some _ _ _ Hx').
    split; [lia|]. rewrite full_items_lookup in Hx, Hx' by (done || lia).
    rewrite !ikey_after_insert_full. replace (Z.of_nat (S i) - 1) with (Z.of_nat i) by lia. congruence.
  - intros nr' sk ty (m & nr1 & sk' & Hm & Hn & Hsk & [= -> -> ->])%split_leaf_ok.
    apply choose_mid_sound in Hm as [Hm Hcut]; [|done..].
    apply move_items_sound in Hn as (_ & Ha1 & Hs); [|done..|lia|lia].
    rewrite !ikey_after_insert_full in Hcut.
    assert (forall s, 0 <= s < leaf_size l + 1 - m -> slot_item nr1 s = full_item l ka p (s + m)) as Hs'.
    { intros s Hs1. rewrite Hs by lia. destruct (Z.leb_spec (m - m) s), (Z.ltb_spec s (leaf_size l + 1 - m)); (done || lia). }
    assert (sk' = it_ikey (full_item l ka p m)) as ->.
    { replace m with (0 + m) by lia. rewrite <- Hs' by lia. by rewrite <- (aget_nthZ _ _ _ Hsk). }
    exists (Z.to_nat m), (full_item l ka p (m - 1)), (full_item l ka p m).
    rewrite !full_items_lookup by (done || lia).
    split; [do 2 f_equal; lia|]. split; [do 2 f_equal; lia|]. split; [lia|]. split; [done|].
    split; [done|]. rewrite Z2Nat.id by lia. intros new_left left.
    pose proof (right_permutation_spec l Hl p Hp m Hm) as (Hrwf & Hrs & Hrl & Hrr).
    set (nr' := set_l_permutation (right_permutation l p m) nr1) in *.
    assert (leaf_size nr' = leaf_size l + 1 - m - (if m <=? p then 1 else 0)) as Hsz by done.
    assert (0 <= leaf_size nr' <= leaf_size l) as Hszr by (destruct (Z.leb_spec m p); lia).
    pose proof (left_permutation_spec l Hl (leaf_size nr') Hszr Hw) as [Hlwf _].
    pose proof (left_items l Hl (leaf_size nr') Hszr Hw) as Hli. fold left in Hli.
    pose proof (length_leaf_items l Hl ltac:(lia)) as Hlen.
    assert (slot_item nr' <$> seqZ 0 (leaf_size l + 1 - m) = drop (Z.to_nat m) (full_items l ka p)) as Hd
      by by apply drop_full_items.
    split; [split; [destruct Ha1; by split|done]|].
    split; [split; [destruct (lo_arrays l Hl); by split|done]|].
    unfold with_new. rewrite Hli. subst new_left.
    change (leaf_items nr') with (slot_item nr' <$> KPermuter.active LW (right_permutation l p m)).
    destruct (Z.ltb_spec p m) as [Hpm|Hpm]; cbn [negb].
    + rewrite Hrl by done.
      destruct (Z.leb_spec m p) as [|_]; [lia|]. split; [|by repeat split; try case_match].
      unfold full_items. rewrite Hsz.
      replace (Z.to_nat m) with (S (Z.to_nat p + Z.to_nat (m - 1 - p))) by lia.
      rewrite take_insert_at by lia. do 2 f_equal. lia.
    + destruct (Hrr ltac:(lia)) as [-> Hb].
      destruct (Z.leb_spec m p) as [_|]; [|lia]. rewrite list_fmap_delete, Hd. split; [|split; [|split]].
      * unfold full_items. rewrite Hsz, take_insert_at_low by lia. f_equal. lia.
      * apply insert_at_delete. rewrite lookup_drop, full_items_lookup by (done || lia).
        unfold full_item. replace (Z.of_nat (Z.to_nat m + Z.to_nat (p - m))) with p by lia.
        destruct (Z.ltb_spec p p); [lia|]. by rewrite Z.eqb_refl.
      * by case_match.
      * intros _. split; [done|]. change (slot_item nr' (p - m)) with (slot_item nr1 (p - m)).
        rewrite Hs' by lia. unfold full_item. replace (p - m + m) with p by lia.
        destruct (Z.ltb_spec p p); [lia|]. by rewrite Z.eqb_refl.
Qed.

(** The loop of [leaf::split_into] that moves the split point has no exit
    but a change of key slice: when the new key and all keys of the leaf share
    their slice it fails to end, whatever the number of iterations.  (Nine
    different keys can share a slice, and a leaf holds seven.) *)
Lemma split_equal_slices_diverges (l : leaf) (ka : key) (p : Z) :
  leaf_ok l -> LW - 1 <= leaf_size l -> 0 <= p <= leaf_size l ->
  (forall e, e ∈ full_items l ka p -> it_ikey e = k_ikey ka) ->
  choose_mid l (l_permutation l) p (k_ikey ka) (leaf_size l) = Fault OutOfFuel.
Proof.
  intros Hl Hw Hp Heq.
  assert (forall i, 0 <= i <= leaf_size l ->
    ikey_after_insert l (l_permutation l) i p (k_ikey ka) = k_ikey ka) as Ha.
  { intros i Hi. rewrite ikey_after_insert_full. apply Heq, (list_elem_of_lookup_2 _ (Z.to_nat i)).
    rewrite full_items_lookup by (done || lia). do 2 f_equal. lia. }
  pose proof (first_mid_bound l Hl p Hp Hw) as Hm. unfold choose_mid. fold (first_mid l p).
  rewrite (Ha (first_mid l p)), (Ha (first_mid l p - 1)), Z.eqb_refl by lia.
  enough (forall fuel midl midr, midl < leaf_size l -> 0 < midr ->
    adjust_mid fuel (fun i => ikey_after_insert l (l_permutation l) i p (k_ikey ka)) (leaf_size l)
      (k_ikey ka) midl midr = Fault OutOfFuel) as -> by (done || lia).
  induction fuel as [|fuel IH]; intros midl midr Hml Hmr; [done|]. cbn.
  destruct (Z.leb_spec midr (leaf_size l)), (Z.leb_spec 0 midl); cbn [andb];
    rewrite ?Ha, ?Z.eqb_refl by lia; cbn [negb]; apply IH; lia.
Qed.
End split_facts.

(** ** A leaf of the namespace table *)

Section witness.
#[local] Existing Instance x86_config.
#[local] Instance fuel : Fuel := 60%nat.

(** Seven keys of eight bytes with the given slices. *)
Definition example_leaf (ikeys : list Z) : leaf :=
  Leaf 0 0 0 modstate_insert (replicate 7 8) (make_sorted 7 7) ikeys (replicate 7 lv_make_empty)
    None false None None None 0 None None.

Lemma example_leaf_ok ikeys : length ikeys = 7%nat -> leaf_ok (example_leaf ikeys).
Proof.
  intros Hk. split; [by split; cbn; rewrite ?Hk|]. apply (make_sorted_wf 7); lia.
Defined.

Lemma split_leaf_partition_witness :
  let l := example_leaf [10; 20; 30; 40; 50; 60; 70] in
  exists r, split_leaf l l (key_of_ikey_len 45 8) 4 = Ok r.
Proof.
  intros l. apply (split_leaf_partition ltac:(vm_compute; split; discriminate) l l (key_of_ikey_len 45 8) 4).
  - by apply example_leaf_ok.
  - by apply (example_leaf_ok [10; 20; 30; 40; 50; 60; 70]).
  - by vm_compute.
  - by vm_compute.
  - by vm_compute.
  - exists 0%nat. do 2 eexists. by vm_compute.
  - split; [done|]. intros s Hs. vm_compute in Hs. repeat (apply elem_of_cons in Hs as [->|Hs]; [done|]).
    by apply elem_of_nil in Hs.
Defined.

End witness.
