(* ===== verification/LayerTree.v ===== *)
(** * Looking up an edge in a layer

    A layer is a B+tree of leaves under internodes; [layer_tree] says that a
    heap holds a well-formed one and lists its leaves.  The searches reach the
    leaf responsible for a key slice from any node of the tree. *)

From Stdlib Require Import Sorting.Sorted.
From S2P Require Export LeafFacts.
From S2P Require Import NodeVersion KPermuter.

#[local] Open Scope Z_scope.
#[local] Open Scope lhm_scope.

#[local] Existing Instance np_config.

(** In which order the items of a leaf are: by key slice in the layer of a
    directory, by slice and length in a general one. *)
Class ItemOrder {P : nodeparams} := {
  items_sorted : list item -> Prop;
  items_sorted_nil : items_sorted [];
  items_sorted_app xs ys :
    items_sorted xs -> items_sorted ys -> (forall x y, x ∈ xs -> y ∈ ys -> it_ikey x < it_ikey y) ->
    items_sorted (xs ++ ys)
}.

Section layer_tree.
Context {P : nodeparams} {Ord : ItemOrder}.

Abbreviation NV := nodeversion_type.
Abbreviation LW := leaf_width.
Abbreviation IW := internode_width.

Definition is_leaf_node (nd : node) : bool := match nd with NLeaf _ => true | NInternode _ => false end.
Definition node_parent (nd : node) : ptr := match nd with NLeaf l => l_parent l | NInternode i => i_parent i end.

(** A node's directory metadata, when it was allocated with room for any. *)
Definition node_meta (nd : node) : option directory_meta :=
  match nd with
  | NLeaf l => if 0 <? l_root_meta_extra64 l then l_meta l else None
  | NInternode i => if 0 <? i_root_meta_extra64 i then i_meta i else None
  end.

(** A node nobody is changing, whose leaf bit tells the truth. *)
Record node_calm (nd : node) : Prop := {
  nc_dirty : is_dirty NV (node_version nd) = false;
  nc_deleted : NodeVersion.deleted NV (node_version nd) = false;
  nc_leaf : NodeVersion.isleaf NV (node_version nd) = is_leaf_node nd
}.

Lemma get_node_run n nd s : m_heap s !! n = Some nd -> get_node n s = Ok (nd, s).
Proof. intros H. unfold get_node. by rewrite H. Qed.

Lemma get_leaf_run n l s : m_heap s !! n = Some (NLeaf l) -> get_leaf n s = Ok (l, s).
Proof. intros H. unfold get_leaf. by rewrite (sbind_run _ _ _ _ _ (get_node_run _ _ _ H)). Qed.

Lemma get_internode_run n i s : m_heap s !! n = Some (NInternode i) -> get_internode n s = Ok (i, s).
Proof. intros H. unfold get_internode. by rewrite (sbind_run _ _ _ _ _ (get_node_run _ _ _ H)). Qed.

Lemma version_run n nd s : m_heap s !! n = Some nd -> version n s = Ok (node_version nd, s).
Proof. intros H. unfold version. by rewrite (sbind_run _ _ _ _ _ (get_node_run _ _ _ H)). Qed.

Lemma isleaf_run n nd s :
  m_heap s !! n = Some nd -> node_calm nd -> Node.isleaf n s = Ok (is_leaf_node nd, s).
Proof.
  intros H Hc. unfold Node.isleaf. rewrite (sbind_run _ _ _ _ _ (version_run _ _ _ H)).
  by rewrite (nc_leaf _ Hc).
Qed.

Lemma stable_run n nd s :
  m_heap s !! n = Some nd -> node_calm nd -> Node.stable n s = Ok (node_version nd, s).
Proof.
  intros H Hc. unfold Node.stable. rewrite (sbind_run _ _ _ _ _ (version_run _ _ _ H)).
  unfold NodeVersion.stable. by rewrite (nc_dirty _ Hc).
Qed.

Lemma not_changed v : NodeVersion.has_changed NV v v = false.
Proof.
  unfold NodeVersion.has_changed. rewrite Z.lxor_nilpotent, Z.gtb_ltb. apply Z.ltb_ge.
  unfold lock_bit. by apply Z.shiftl_nonneg.
Qed.

Lemma has_changed_run n nd s :
  m_heap s !! n = Some nd -> Node.has_changed n (node_version nd) s = Ok (false, s).
Proof.
  intros H. unfold Node.has_changed. rewrite (sbind_run _ _ _ _ _ (version_run _ _ _ H)).
  by rewrite not_changed.
Qed.

Lemma parent_run n nd s :
  m_heap s !! n = Some nd -> node_calm nd -> parent n s = Ok (node_parent nd, s).
Proof.
  intros H Hc. unfold parent. rewrite (sbind_run _ _ _ _ _ (isleaf_run _ _ _ H Hc)).
  destruct nd; cbn.
  - by rewrite (sbind_run _ _ _ _ _ (get_leaf_run _ _ _ H)).
  - by rewrite (sbind_run _ _ _ _ _ (get_internode_run _ _ _ H)).
Qed.

Lemma maybe_parent_run n nd s :
  m_heap s !! n = Some nd -> node_calm nd -> maybe_parent n s = Ok (default n (node_parent nd), s).
Proof.
  intros H Hc. unfold maybe_parent. rewrite (sbind_run _ _ _ _ _ (parent_run _ _ _ H Hc)).
  by destruct (node_parent nd).
Qed.

(** ** Climbing to the root of a layer *)

(** From [n], [k] parent pointers lead to [m], the first node with a root bit. *)
Inductive climbs (h : gmap loc node) : loc -> loc -> nat -> Prop :=
| climbs_root n nd :
    h !! n = Some nd -> node_calm nd -> NodeVersion.is_root NV (node_version nd) = true ->
    climbs h n n 0
| climbs_parent n nd p m k :
    h !! n = Some nd -> node_calm nd -> NodeVersion.is_root NV (node_version nd) = false ->
    node_parent nd = Some p -> climbs h p m k -> climbs h n m (S k).

Lemma find_root_run s n m k fuel :
  climbs (m_heap s) n m k -> (k < fuel)%nat ->
  exists nd, m_heap s !! m = Some nd /\ find_root_loop fuel n s = Ok ((m, node_version nd), s).
Proof.
  intros H. revert fuel. induction H as [n nd Hn Hc Hr|n nd p m k Hn Hc Hr Hp _ IH]; intros fuel Hk.
  - destruct fuel as [|fuel]; [lia|]. exists nd. split; [done|]. cbn [find_root_loop].
    rewrite (sbind_run _ _ _ _ _ (stable_run _ _ _ Hn Hc)). by rewrite Hr.
  - destruct fuel as [|fuel]; [lia|]. destruct (IH fuel) as (nd' & Hm & Hrun); [lia|].
    exists nd'. split; [done|]. cbn [find_root_loop].
    rewrite (sbind_run _ _ _ _ _ (stable_run _ _ _ Hn Hc)), Hr.
    rewrite (sbind_run _ _ _ _ _ (maybe_parent_run _ _ _ Hn Hc)). by rewrite Hp.
Qed.

(** ** Well-formed layers *)

(** [lo <= k < hi], where an absent bound does not restrict. *)
Definition within (lo hi : option Z) (k : Z) : Prop :=
  (forall x, lo = Some x -> x <= k) /\ (forall x, hi = Some x -> k < x).

(** The bounds of the [j]th child. *)
Definition low_bound (lo : option Z) (i : internode) (j : nat) : option Z :=
  match j with O => lo | S j => Some (internode_ikey i (Z.of_nat j)) end.
Definition high_bound (hi : option Z) (i : internode) (j : nat) : option Z :=
  if Z.of_nat j =? i_nkeys i then hi else Some (internode_ikey i (Z.of_nat j)).

Record internode_ok (lo hi : option Z) (i : internode) : Prop := {
  io_nkeys : 0 <= i_nkeys i <= IW;
  io_sorted : forall a b, 0 <= a -> a < b -> b < i_nkeys i -> internode_ikey i a < internode_ikey i b;
  io_within : forall a, 0 <= a < i_nkeys i -> within lo hi (internode_ikey i a)
}.

Definition tree_items (ls : list (loc * leaf)) : list item := flat_map (fun x => leaf_items (snd x)) ls.

(** [layer_tree h d n lo hi ls]: the tree at [n] has [d] levels of internodes
    and the leaves [ls], whose key slices lie between [lo] and [hi]; the children
    of an internode are different nodes that point back at it. *)
Inductive layer_tree (h : gmap loc node) : nat -> loc -> option Z -> option Z -> list (loc * leaf) -> Prop :=
| layer_leaf n l lo hi :
    h !! n = Some (NLeaf l) -> node_calm (NLeaf l) -> leaf_ok l -> deleted_layer l = false ->
    items_sorted (leaf_items l) -> Forall (fun e => within lo hi (it_ikey e)) (leaf_items l) ->
    layer_tree h 0 n lo hi [(n, l)]
| layer_internode d n i lo hi (child : nat -> loc) (sub : nat -> list (loc * leaf)) :
    h !! n = Some (NInternode i) -> node_calm (NInternode i) -> internode_ok lo hi i ->
    (forall j, Z.of_nat j <= i_nkeys i -> i_child i !! j = Some (Some (child j))) ->
    (forall j, Z.of_nat j <= i_nkeys i ->
       exists nd, h !! child j = Some nd /\ node_parent nd = Some n) ->
    (forall j j', Z.of_nat j <= i_nkeys i -> Z.of_nat j' <= i_nkeys i -> child j = child j' -> j = j') ->
    (forall j, Z.of_nat j <= i_nkeys i ->
       layer_tree h d (child j) (low_bound lo i j) (high_bound hi i j) (sub j)) ->
    layer_tree h (S d) n lo hi (flat_map sub (seq 0 (S (Z.to_nat (i_nkeys i))))).

Lemma within_child lo hi i j k :
  internode_ok lo hi i -> Z.of_nat j <= i_nkeys i ->
  within (low_bound lo i j) (high_bound hi i j) k -> within lo hi k.
Proof.
  intros [Hn _ Hw] Hj [Hl Hh]. split; intros x Hx.
  - destruct j as [|j]; [by apply Hl|]. pose proof (Hl _ eq_refl).
    destruct (Hw (Z.of_nat j)) as [Hw1 _]; [lia|]. specialize (Hw1 x Hx). lia.
  - unfold high_bound in Hh. destruct (Z.eqb_spec (Z.of_nat j) (i_nkeys i)); [by apply Hh|].
    pose proof (Hh _ eq_refl). destruct (Hw (Z.of_nat j)) as [_ Hw2]; [lia|]. specialize (Hw2 x Hx). lia.
Qed.

(** The ranges of two children do not meet. *)
Lemma children_disjoint lo hi i j j' k k' :
  internode_ok lo hi i -> (j < j')%nat -> Z.of_nat j' <= i_nkeys i ->
  within (low_bound lo i j) (high_bound hi i j) k ->
  within (low_bound lo i j') (high_bound hi i j') k' -> k < k'.
Proof.
  intros [Hn Hs _] Hj Hj' [_ Hh] [Hl _]. destruct j' as [|j']; [lia|]. pose proof (Hl _ eq_refl) as H1.
  unfold high_bound in Hh. destruct (Z.eqb_spec (Z.of_nat j) (i_nkeys i)); [lia|].
  pose proof (Hh _ eq_refl) as H2. destruct (decide (j = j')) as [->|]; [lia|].
  pose proof (Hs (Z.of_nat j) (Z.of_nat j') ltac:(lia) ltac:(lia) ltac:(lia)). lia.
Qed.

Lemma elem_of_tree_items e ls : e ∈ tree_items ls <-> exists x, x ∈ ls /\ e ∈ leaf_items (snd x).
Proof. unfold tree_items. rewrite list_elem_of_In, in_flat_map. by setoid_rewrite <- list_elem_of_In. Qed.

Lemma tree_items_flat_map (sub : nat -> list (loc * leaf)) js :
  tree_items (flat_map sub js) = flat_map (fun j => tree_items (sub j)) js.
Proof.
  unfold tree_items. induction js as [|j js IH]; cbn; [done|]. by rewrite flat_map_app, IH.
Qed.

Lemma layer_items_within h d n lo hi ls e :
  layer_tree h d n lo hi ls -> e ∈ tree_items ls -> within lo hi (it_ikey e).
Proof.
  intros H. revert e. induction H as [n l lo hi ? ? ? ? _ Hw|d n i lo hi child sub _ _ Hi _ _ _ _ IH]; intros e He.
  - unfold tree_items in He. cbn in He. rewrite app_nil_r in He.
    rewrite Forall_forall in Hw. by apply Hw.
  - rewrite tree_items_flat_map, list_elem_of_In, in_flat_map in He. destruct He as (j & Hj & He).
    apply in_seq in Hj. rewrite <- list_elem_of_In in He.
    pose proof (io_nkeys _ _ _ Hi). eapply within_child; [done| |apply IH, He]; lia.
Qed.

(** The items increase from leaf to leaf. *)
Lemma layer_items_sorted h d n lo hi ls :
  layer_tree h d n lo hi ls -> items_sorted (tree_items ls).
Proof.
  induction 1 as [n l lo hi ? ? ? ? Hs _|d n i lo hi child sub _ _ Hi _ _ _ Ht IH].
  - unfold tree_items. cbn. by rewrite app_nil_r.
  - pose proof (io_nkeys _ _ _ Hi) as Hn. rewrite tree_items_flat_map.
    assert (forall cnt a, (a + cnt <= S (Z.to_nat (i_nkeys i)))%nat ->
      items_sorted (flat_map (fun j => tree_items (sub j)) (seq a cnt))) as Hgen; [|by apply Hgen].
    induction cnt as [|cnt IHc]; intros a Ha; [apply items_sorted_nil|]. cbn.
    apply items_sorted_app; [apply IH; lia|apply IHc; lia|]. intros e e' He He'.
    apply list_elem_of_In, in_flat_map in He' as (j & Hj & He'). apply in_seq in Hj.
    apply list_elem_of_In in He'.
    eapply (children_disjoint lo hi i a j); [done|lia|lia|..]; (eapply layer_items_within; [apply Ht; lia|done]).
Qed.

(** ** Searching internodes *)

Lemma compare_sign a b :
  (compare a b = 0 /\ a = b) \/ (compare a b = -1 /\ a < b) \/ (compare a b = 1 /\ b < a).
Proof. unfold compare. destruct (Z.eqb_spec a b), (Z.ltb_spec a b); lia. Qed.

Lemma internode_upper_child lo hi i ka :
  internode_ok lo hi i -> within lo hi (k_ikey ka) ->
  exists u : nat, internode_upper_key ka i = Ok (Z.of_nat u) /\ Z.of_nat u <= i_nkeys i /\
    within (low_bound lo i u) (high_bound hi i u) (k_ikey ka).
Proof.
  intros [Hn Hs Hw] [Hlo Hhi].
  destruct (bound_upper_by_correct (compare_key (KA := key) (T := internode)) IW bound_method_of ka i)
    as (u & Hu & Hr & Hle & Hgt).
  { split; [cbn; unfold identity_size; lia|]. intros a b Ha Hab Hb. cbn in Hb |- *.
    unfold identity_size, identity_get, compare_key, internode_compare_key in *.
    pose proof (Hs a b Ha Hab Hb). pose proof (compare_sign (k_ikey ka) (internode_ikey i a)).
    pose proof (compare_sign (k_ikey ka) (internode_ikey i b)). lia. }
  cbn in Hr, Hle, Hgt. unfold identity_size, identity_get, compare_key, internode_compare_key in *.
  exists (Z.to_nat u). rewrite Z2Nat.id by lia. split; [done|]. split; [lia|]. split; intros x Hx.
  - destruct (Z.to_nat u) as [|j] eqn:Hj; cbn in Hx; [by apply Hlo|]. injection Hx as <-.
    specialize (Hle (Z.of_nat j) ltac:(lia)). pose proof (compare_sign (k_ikey ka) (internode_ikey i (Z.of_nat j))). lia.
  - unfold high_bound in Hx. destruct (Z.eqb_spec (Z.of_nat (Z.to_nat u)) (i_nkeys i)); [by apply Hhi|].
    injection Hx as <-. rewrite Z2Nat.id by lia. specialize (Hgt u ltac:(lia)).
    pose proof (compare_sign (k_ikey ka) (internode_ikey i u)). lia.
Qed.

(** ** Changing one leaf *)

(** [d] parent pointers lead from [m] to [c]. *)
Inductive up (h : gmap loc node) : nat -> loc -> loc -> Prop :=
| up_here m : up h 0 m m
| up_parent d m nd p c : h !! m = Some nd -> node_parent nd = Some p -> up h d p c -> up h (S d) m c.

Lemma up_snoc h d m c nd n :
  up h d m c -> h !! c = Some nd -> node_parent nd = Some n -> up h (S d) m n.
Proof.
  intros H Hc Hp. induction H as [m|d m ndm p c Hm Hpm _ IH].
  - eapply up_parent; [done..|constructor].
  - eapply up_parent; [done..|]. by apply IH.
Qed.

Lemma up_det h d m a b : up h d m a -> up h d m b -> a = b.
Proof.
  intros H. revert b. induction H as [m|d m nd p c Hm Hp _ IH]; intros b Hb.
  - by inversion Hb.
  - inversion Hb as [|? ? nd' p' ? Hm' Hp' Hb']; subst. rewrite Hm in Hm'. injection Hm' as <-.
    rewrite Hp in Hp'. injection Hp' as <-. by apply IH.
Qed.

Lemma elem_of_flat_map {A B} (f : A -> list B) xs y : y ∈ flat_map f xs <-> exists x, x ∈ xs /\ y ∈ f x.
Proof. rewrite list_elem_of_In, in_flat_map. by setoid_rewrite <- list_elem_of_In. Qed.

Lemma tree_leaf_up h d n lo hi ls m l :
  layer_tree h d n lo hi ls -> (m, l) ∈ ls -> up h d m n /\ h !! m = Some (NLeaf l).
Proof.
  induction 1 as [n l0 lo hi Hn|d n i lo hi child sub _ _ Hi _ Hpar _ _ IH]; intros Hin.
  - apply list_elem_of_singleton in Hin as [= -> ->]. split; [constructor|done].
  - apply elem_of_flat_map in Hin as (j & Hj & Hin). apply elem_of_seq in Hj. pose proof (io_nkeys _ _ _ Hi).
    destruct (IH j ltac:(lia) Hin) as [Hup Hl]. destruct (Hpar j ltac:(lia)) as (nd & Hc & Hp).
    split; [by eapply up_snoc|done].
Qed.

(** A node written without moving it in the tree. *)
Record same_shape (nd nd' : node) : Prop := {
  ss_leaf : is_leaf_node nd' = is_leaf_node nd;
  ss_parent : node_parent nd' = node_parent nd;
  ss_meta : node_meta nd' = node_meta nd;
  ss_root : NodeVersion.is_root NV (node_version nd') = NodeVersion.is_root NV (node_version nd);
  ss_calm : node_calm nd'
}.

(** [h'] is [h] with the leaf at [x] written and maybe fresh nodes. *)
Record leaf_update (h h' : gmap loc node) (x : loc) (l l' : leaf) : Prop := {
  lu_old : h !! x = Some (NLeaf l);
  lu_new : h' !! x = Some (NLeaf l');
  lu_shape : same_shape (NLeaf l) (NLeaf l');
  lu_other : forall m nd, m <> x -> h !! m = Some nd -> h' !! m = Some nd
}.

Lemma leaf_update_node h h' x l l' m nd :
  leaf_update h h' x l l' -> h !! m = Some nd -> node_calm nd ->
  exists nd', h' !! m = Some nd' /\ same_shape nd nd'.
Proof.
  intros [Ho Hn Hs Hf] Hm Hc. destruct (decide (m = x)) as [->|Hne].
  - rewrite Ho in Hm. injection Hm as <-. by exists (NLeaf l').
  - exists nd. split; [by apply Hf|]. by split.
Qed.

Lemma leaf_update_parent h h' x l l' m nd :
  leaf_update h h' x l l' -> h !! m = Some nd ->
  exists nd', h' !! m = Some nd' /\ node_parent nd' = node_parent nd.
Proof.
  intros [Ho Hn Hs Hf] Hm. destruct (decide (m = x)) as [->|Hne].
  - rewrite Ho in Hm. injection Hm as <-. exists (NLeaf l'). split; [done|]. apply Hs.
  - exists nd. split; [by apply Hf|done].
Qed.

Lemma layer_tree_frame h h' x l l' d n lo hi ls :
  leaf_update h h' x l l' -> layer_tree h d n lo hi ls -> (forall y, (x, y) ∉ ls) ->
  layer_tree h' d n lo hi ls.
Proof.
  intros Hu. pose proof Hu as [Ho Hn _ Hf].
  induction 1 as [n l0 lo hi Hn0|d n i lo hi child sub Hi0 Hc Hi Hch Hpar Hinj _ IH]; intros Hx.
  - apply layer_leaf; try done. apply Hf; [|done]. intros ->. by apply (Hx l0), list_elem_of_singleton.
  - apply (layer_internode _ _ _ _ _ _ child); try done.
    + apply Hf; [|done]. intros ->. by rewrite Ho in Hi0.
    + intros j Hj. destruct (Hpar j Hj) as (nd & Hnd & Hp).
      destruct (leaf_update_parent _ _ _ _ _ _ _ Hu Hnd) as (nd' & Hnd' & Hp'). exists nd'.
      split; [done|congruence].
    + intros j Hj. apply IH; [done|]. intros y Hy. apply (Hx y), elem_of_flat_map. exists j.
      split; [apply elem_of_seq; lia|done].
Qed.

(** What may replace the leaf responsible for slices between [lo] and [hi]. *)
Record leaf_fits (lo hi : option Z) (l : leaf) : Prop := {
  fit_ok : leaf_ok l;
  fit_live : deleted_layer l = false;
  fit_sorted : items_sorted (leaf_items l);
  fit_within : Forall (fun e => within lo hi (it_ikey e)) (leaf_items l)
}.

(** ** Reaching the leaf *)

(** [l] at [n] is the leaf of the tree at [root] responsible for the slice [k]:
    it holds whatever the layer has under the slice, and writing it changes the
    layer's leaves at one place. *)
Record leaf_for (h : gmap loc node) (d : nat) (root : loc) (lo0 hi0 : option Z)
    (ls : list (loc * leaf)) (k : Z) (n : loc) (l : leaf) : Prop := {
  lfor_at : h !! n = Some (NLeaf l);
  lfor_in : (n, l) ∈ ls;
  lfor_calm : node_calm (NLeaf l);
  lfor_ok : leaf_ok l;
  lfor_live : deleted_layer l = false;
  lfor_sorted : items_sorted (leaf_items l);
  lfor_all : forall e, e ∈ tree_items ls -> it_ikey e = k -> e ∈ leaf_items l;
  lfor_update : exists lo hi ls1 ls2, ls = ls1 ++ (n, l) :: ls2 /\ within lo hi k /\ leaf_fits lo hi l /\
    forall h' l', leaf_update h h' n l l' -> leaf_fits lo hi l' ->
      layer_tree h' d root lo0 hi0 (ls1 ++ (n, l') :: ls2)
}.

Lemma tree_node h d n lo hi ls :
  layer_tree h d n lo hi ls -> exists nd, h !! n = Some nd /\ node_calm nd.
Proof. destruct 1; by eexists. Qed.

Lemma mget_run {A} (xs : list A) (j : nat) x (s : mstate) :
  xs !! j = Some x -> mget xs (Z.of_nat j) s = Ok (x, s).
Proof. intros H. apply lift_run, aget_ok. rewrite Nat2Z.id. split; [lia|done]. Qed.

Lemma flat_map_ext_in {A B} (f g : A -> list B) xs :
  (forall x, In x xs -> f x = g x) -> flat_map f xs = flat_map g xs.
Proof. intros H. rewrite !flat_map_concat_map. f_equal. by apply map_ext_in. Qed.

Lemma flat_map_change {A} (sub : nat -> list A) u xs cnt a :
  (a <= u < a + cnt)%nat ->
  flat_map (fun j => if decide (j = u) then xs else sub j) (seq a cnt) =
    flat_map sub (seq a (u - a)) ++ xs ++ flat_map sub (seq (S u) (a + cnt - S u)).
Proof.
  intros Hu. replace cnt with ((u - a) + S (a + cnt - S u))%nat at 1 by lia.
  rewrite seq_app, flat_map_app. cbn [seq flat_map]. replace (a + (u - a))%nat with u by lia.
  destruct (decide (u = u)) as [_|]; [|done]. f_equal; [|f_equal];
    apply flat_map_ext_in; intros j Hj%in_seq; destruct (decide (j = u)); (lia || done).
Qed.

(** The responsible leaf of a child is that of its parent. *)
Lemma leaf_for_child h d n i lo hi child sub u k x l :
  h !! n = Some (NInternode i) -> node_calm (NInternode i) -> internode_ok lo hi i ->
  (forall j, Z.of_nat j <= i_nkeys i -> i_child i !! j = Some (Some (child j))) ->
  (forall j, Z.of_nat j <= i_nkeys i ->
     exists nd, h !! child j = Some nd /\ node_parent nd = Some n) ->
  (forall j j', Z.of_nat j <= i_nkeys i -> Z.of_nat j' <= i_nkeys i -> child j = child j' -> j = j') ->
  (forall j, Z.of_nat j <= i_nkeys i ->
     layer_tree h d (child j) (low_bound lo i j) (high_bound hi i j) (sub j)) ->
  Z.of_nat u <= i_nkeys i -> within (low_bound lo i u) (high_bound hi i u) k ->
  leaf_for h d (child u) (low_bound lo i u) (high_bound hi i u) (sub u) k x l ->
  leaf_for h (S d) n lo hi (flat_map sub (seq 0 (S (Z.to_nat (i_nkeys i))))) k x l.
Proof.
  intros Hn Hc Hi Hch Hpar Hinj Ht Hun Hku [Hat Hin Hcl Hok Hlv Hst Hall (lo' & hi' & ls1 & ls2 & Hls & Hw & Hfit & Hupd)].
  split; try done.
  - apply elem_of_flat_map. exists u. split; [apply elem_of_seq; lia|done].
  - intros e He Hek. apply Hall; [|done]. rewrite tree_items_flat_map in He.
    apply elem_of_flat_map in He as (j & Hj & He). apply elem_of_seq in Hj.
    pose proof (layer_items_within _ _ _ _ _ _ _ (Ht j ltac:(lia)) He) as Hwe.
    destruct (Nat.lt_trichotomy j u) as [Hju|[->|Hju]]; [|done|].
    + pose proof (children_disjoint _ _ _ _ _ _ _ Hi Hju Hun Hwe Hku). lia.
    + pose proof (children_disjoint _ _ _ _ _ _ _ Hi Hju ltac:(lia) Hku Hwe). lia.
  - set (N := Z.to_nat (i_nkeys i)).
    assert (forall xs, flat_map (fun j => if decide (j = u) then xs else sub j) (seq 0 (S N)) =
      flat_map sub (seq 0 u) ++ xs ++ flat_map sub (seq (S u) (N - u))) as Hchg.
    { intros xs. rewrite flat_map_change by lia. by replace (u - 0)%nat with u by lia. }
    assert (flat_map sub (seq 0 (S N)) = flat_map (fun j => if decide (j = u) then sub u else sub j) (seq 0 (S N))) as Hsame.
    { apply flat_map_ext. intros j. by destruct (decide (j = u)) as [->|]. }
    exists lo', hi', (flat_map sub (seq 0 u) ++ ls1), (ls2 ++ flat_map sub (seq (S u) (N - u))).
    split; [rewrite Hsame, Hchg, Hls; by rewrite <- !app_assoc|]. split; [done|]. split; [done|].
    intros h' l' Hu Hfit'.
    replace ((flat_map sub (seq 0 u) ++ ls1) ++ (x, l') :: ls2 ++ flat_map sub (seq (S u) (N - u)))
      with (flat_map sub (seq 0 u) ++ (ls1 ++ (x, l') :: ls2) ++ flat_map sub (seq (S u) (N - u)))
      by by rewrite <- !app_assoc.
    rewrite <- Hchg. apply (layer_internode _ _ _ _ _ _ child); try done.
    + apply (lu_other _ _ _ _ _ Hu); [|done]. intros ->. by rewrite Hat in Hn.
    + intros j Hj. destruct (Hpar j Hj) as (nd & Hnd & Hp).
      destruct (leaf_update_parent _ _ _ _ _ _ _ Hu Hnd) as (nd' & Hnd' & Hp'). exists nd'.
      split; [done|congruence].
    + intros j Hj. destruct (decide (j = u)) as [->|Hju]; [by apply Hupd|].
      eapply layer_tree_frame; [done|by apply Ht|]. intros y Hy. apply Hju, Hinj; [done|done|].
      eapply up_det; [by eapply tree_leaf_up, Hy; apply Ht|]. by eapply tree_leaf_up, Hin; apply Ht.
Qed.

Lemma descend_run s d n lo hi ls ka nd fuel :
  layer_tree (m_heap s) d n lo hi ls -> m_heap s !! n = Some nd -> within lo hi (k_ikey ka) ->
  (d < fuel)%nat ->
  exists n' l', descend_loop fuel ka n (node_version nd) s = Ok (Some (n', l_version l'), s) /\
    leaf_for (m_heap s) d n lo hi ls (k_ikey ka) n' l'.
Proof.
  intros H. revert nd fuel.
  induction H as [n l lo hi Hn Hc Hok Hd Hs Hw|d n i lo hi child sub Hn Hc Hi Hch Hpar Hinj Ht IH];
    intros nd fuel Hnd Hk Hf; (destruct fuel as [|fuel]; [lia|]).
  - rewrite Hn in Hnd. injection Hnd as <-. exists n, l. cbn [descend_loop].
    rewrite (nc_leaf _ Hc). split; [done|]. split; try done.
    + by apply list_elem_of_singleton.
    + intros e He _. unfold tree_items in He. cbn in He. by rewrite app_nil_r in He.
    + exists lo, hi, [], []. split; [done|]. split; [done|]. split; [done|].
      intros h' l' [_ Hn' Hsh _] [? ? ? ?]. apply layer_leaf; try done. apply Hsh.
  - rewrite Hn in Hnd. injection Hnd as <-. cbn [descend_loop]. rewrite (nc_leaf _ Hc). cbn [is_leaf_node].
    destruct (internode_upper_child _ _ _ _ Hi Hk) as (u & Hu & Hun & Hku).
    destruct (tree_node _ _ _ _ _ _ (Ht u Hun)) as (ndc & Hndc & Hcc).
    destruct (IH u Hun ndc fuel Hndc Hku ltac:(lia)) as (n' & l' & Hrun & Hfor).
    exists n', l'. split; [|by eapply leaf_for_child].
    rewrite (sbind_run _ _ _ _ _ (get_internode_run _ _ _ Hn)).
    rewrite (sbind_run _ _ _ _ _ (lift_run _ _ _ Hu)).
    rewrite (sbind_run _ _ _ _ _ (mget_run _ _ _ _ (Hch u Hun))).
    rewrite (sbind_run _ _ _ _ _ (stable_run _ _ _ Hndc Hcc)).
    by rewrite (sbind_run _ _ _ _ _ (has_changed_run _ _ _ Hn)).
Qed.

(** A layer whose tree can be reached from [r0] within the fuel; its root has
    no parent. *)
Record layer_at (h : gmap loc node) (r0 : loc) (d : nat) (root : loc) (ls : list (loc * leaf)) : Prop := {
  la_climbs : exists k, climbs h r0 root k /\ (k < np_fuel)%nat;
  la_tree : layer_tree h d root None None ls;
  la_depth : (d < np_fuel)%nat;
  la_top : exists nd, h !! root = Some nd /\ node_parent nd = None
}.

Lemma reach_leaf_run s r0 d root ls ka :
  layer_at (m_heap s) r0 d root ls ->
  exists n l, reach_leaf r0 ka s = Ok ((n, l_version l), s) /\
    leaf_for (m_heap s) d root None None ls (k_ikey ka) n l.
Proof.
  intros [(k & Hcl & Hk) Ht Hd _].
  destruct (find_root_run s r0 root k np_fuel Hcl Hk) as (nd & Hnd & Hroot).
  destruct (descend_run s d root None None ls ka nd np_fuel Ht Hnd) as (n & l & Hrun & Hl); [by split|done|].
  exists n, l. split; [|done]. unfold reach_leaf. destruct np_fuel as [|fuel] eqn:Hf; [lia|].
  cbn [reach_leaf_loop]. rewrite <- Hf in *. rewrite (sbind_run _ _ _ _ _ Hroot). cbn [fst snd].
  by rewrite (sbind_run _ _ _ _ _ Hrun).
Qed.

(** The children an internode's size covers. *)
Lemma internode_children i (child : nat -> loc) :
  0 <= i_nkeys i -> (forall j, Z.of_nat j <= i_nkeys i -> i_child i !! j = Some (Some (child j))) ->
  take (Z.to_nat (internode_size i + 1)) (i_child i) =
    map (fun j => Some (child j)) (seq 0 (S (Z.to_nat (i_nkeys i)))).
Proof.
  intros HN Hch. apply list_eq. intros j. unfold internode_size.
  destruct (Nat.lt_ge_cases j (S (Z.to_nat (i_nkeys i)))) as [Hj|Hj].
  - rewrite lookup_take_lt by lia. rewrite Hch by lia.
    change (map ?f ?xs) with (f <$> xs). rewrite list_lookup_fmap, lookup_seq_lt by lia. done.
  - rewrite lookup_take_ge, lookup_ge_None_2 by (rewrite ?length_map, ?length_seq; lia). done.
Qed.

End layer_tree.
