(* ===== verification/LayerEdge.v ===== *)
(** * Looking an edge up in a layer

    The layer of a directory holds keys of one slice.  The edge search agrees with
    the finite map that the items of the leaves make up. *)

From Stdlib Require Import Sorting.Sorted.
From S2P Require Export LayerTree.
From S2P Require Import NodeVersion KPermuter.

#[local] Open Scope Z_scope.
#[local] Open Scope lhm_scope.

#[local] Existing Instance np_config.

Section layer_edge.
Context {P : nodeparams}.

Abbreviation NV := nodeversion_type.
Abbreviation LW := leaf_width.

(** ** The map of a layer *)

Definition ikeys_sorted (es : list item) : Prop := StronglySorted Z.lt (it_ikey <$> es).

Lemma sorted_app (xs ys : list Z) :
  StronglySorted Z.lt xs -> StronglySorted Z.lt ys -> (forall x y, x ∈ xs -> y ∈ ys -> x < y) ->
  StronglySorted Z.lt (xs ++ ys).
Proof.
  intros Hx Hy Hxy. induction Hx as [|x xs Hxs IH Hf]; cbn; [done|]. constructor.
  - apply IH. intros a b Ha. apply Hxy. by apply list_elem_of_further.
  - apply Forall_app. split; [done|]. apply Forall_forall. intros y Hy'. apply Hxy; [left|done].
Qed.

#[export] Instance by_ikey : ItemOrder.
Proof.
  refine {| items_sorted := ikeys_sorted |}; unfold ikeys_sorted.
  - constructor.
  - intros xs ys Hx Hy Hxy. rewrite fmap_app. apply sorted_app; [done..|].
    intros x y (e & -> & He)%list_elem_of_fmap (e' & -> & He')%list_elem_of_fmap. by apply Hxy.
Defined.

(** The slices of a directory's layer increase. *)
Lemma layer_ikeys_sorted h d n lo hi ls : layer_tree h d n lo hi ls -> ikeys_sorted (tree_items ls).
Proof. apply (layer_items_sorted (Ord := by_ikey)). Qed.

(** A directory's layer holds keys of one slice: files ([keylenx] 8) and layers. *)
Definition edge_item (e : item) : Prop := it_keylenx e = ikey_size \/ it_keylenx e = layer_keylenx.

(** What the search reports for an item: negative for a layer. *)
Definition edge_state (e : item) : Z := if it_keylenx e =? layer_keylenx then - ikey_size else 1.

Definition items_map (es : list item) : gmap Z item := list_to_map ((fun e => (it_ikey e, e)) <$> es).
Definition layer_map (ls : list (loc * leaf)) : gmap Z item := items_map (tree_items ls).

Lemma sorted_NoDup (xs : list Z) : StronglySorted Z.lt xs -> NoDup xs.
Proof.
  induction 1 as [|x xs _ IH Hf]; constructor; [|done]. intros Hx.
  rewrite Forall_forall in Hf. specialize (Hf x Hx). lia.
Qed.

Lemma sorted_lookup (xs : list Z) i j a b :
  StronglySorted Z.lt xs -> xs !! i = Some a -> xs !! j = Some b -> (i < j)%nat -> a < b.
Proof.
  intros Hs. revert i j. induction Hs as [|x xs _ IH Hf]; intros i j Hi Hj Hij; [done|].
  destruct j as [|j]; [lia|]. cbn in Hj. destruct i as [|i]; cbn in Hi.
  - injection Hi as <-. rewrite Forall_forall in Hf. apply Hf. by eapply list_elem_of_lookup_2.
  - by apply (IH i j); [..|lia].
Qed.

Lemma items_map_lookup es k e :
  ikeys_sorted es -> items_map es !! k = Some e <-> e ∈ es /\ it_ikey e = k.
Proof.
  intros Hs. unfold items_map. rewrite <- elem_of_list_to_map.
  - rewrite list_elem_of_fmap. split.
    + by intros (e' & [= -> ->] & He).
    + intros [He <-]. by exists e.
  - rewrite <- list_fmap_compose. by apply sorted_NoDup.
Qed.

Lemma leaf_item_slot l e :
  leaf_ok l -> 1 <= LW <= 15 -> e ∈ leaf_items l ->
  exists j, 0 <= j < leaf_size l /\ e = slot_item l (KPermuter.get (l_permutation l) j).
Proof.
  intros [_ [Hs _]] HW (sl & -> & (j & Hj)%list_elem_of_lookup)%list_elem_of_fmap.
  pose proof (lookup_lt_Some _ _ _ Hj) as Hlt. rewrite length_active in Hlt by done.
  rewrite active_lookup in Hj by lia. injection Hj as <-.
  exists (Z.of_nat j). unfold leaf_size. split; [lia|done].
Qed.

Lemma leaf_slot_item l j :
  leaf_ok l -> 0 <= j < leaf_size l -> slot_item l (KPermuter.get (l_permutation l) j) ∈ leaf_items l.
Proof.
  intros [_ [Hs _]] Hj. apply list_elem_of_fmap. eexists. split; [done|].
  apply (list_elem_of_lookup_2 _ (Z.to_nat j)). unfold leaf_size in Hj.
  rewrite active_lookup by lia. f_equal. f_equal. lia.
Qed.

(** The key slice at rank [j]. *)
Definition rank_ikey (l : leaf) (j : Z) : Z := leaf_ikey l (KPermuter.get (l_permutation l) j).

Lemma leaf_ikeys_increase l i j :
  leaf_ok l -> ikeys_sorted (leaf_items l) -> 0 <= i -> i < j -> j < leaf_size l ->
  rank_ikey l i < rank_ikey l j.
Proof.
  intros [_ [Hsz _]] Hs Hi Hij Hj. unfold ikeys_sorted in Hs. unfold leaf_size in Hj.
  assert (forall m, 0 <= m < leaf_size l -> (it_ikey <$> leaf_items l) !! Z.to_nat m =
    Some (rank_ikey l m)) as Hl.
  { intros m Hm. unfold leaf_items, leaf_size in *. rewrite !list_lookup_fmap, active_lookup by lia.
    by rewrite Z2Nat.id by lia. }
  eapply (sorted_lookup (it_ikey <$> leaf_items l) (Z.to_nat i) (Z.to_nat j));
    [done|apply Hl..|lia]; unfold leaf_size; lia.
Qed.

(** ** The edge search *)

Lemma edge_comparator_edge ka l sl :
  k_len ka = ikey_size -> edge_item (slot_item l sl) ->
  edge_comparator ka l sl = compare (k_ikey ka) (leaf_ikey l sl).
Proof.
  intros Hlen He. unfold edge_comparator.
  destruct (Z.eqb_spec (compare (k_ikey ka) (leaf_ikey l sl)) 0) as [Hz|]; cbn [negb]; [|done].
  rewrite Hz. unfold is_layer, keylenx_is_layer. destruct He as [He|He]; cbn in He; rewrite He; [|done].
  cbn. unfold compare_key, leaf_compare_key, key_compare. rewrite Hz, Hlen, He. done.
Qed.

Lemma ksuf_matches_edge ka l sl :
  edge_item (slot_item l sl) -> ksuf_matches l sl ka = Ok (edge_state (slot_item l sl)).
Proof.
  unfold ksuf_matches, edge_state. intros [He|He]; cbn in He; cbn [it_keylenx slot_item]; rewrite He; done.
Qed.

(** What the lower-bound search finds in a leaf of edges. *)
Record edge_found (l : leaf) (k : Z) (found : option item) (kx : key_indexed_position) : Prop := {
  ef_rank : 0 <= kp_i kx <= leaf_size l;
  ef_before : forall j, 0 <= j < kp_i kx -> rank_ikey l j < k;
  ef_after : forall j, kp_i kx <= j < leaf_size l -> found = None ->
    k < rank_ikey l j;
  ef_pos : match found with
    | Some e => kp_i kx < leaf_size l /\ kp_p kx = KPermuter.get (l_permutation l) (kp_i kx) /\
                slot_item l (kp_p kx) = e
    | None => kp_p kx = -1
    end
}.

Lemma leaf_ikey_search (comparator : key -> leaf -> Z -> Z) l ka :
  1 <= LW <= 15 -> leaf_ok l -> ikeys_sorted (leaf_items l) ->
  (forall j, 0 <= j < leaf_size l ->
    comparator ka l (KPermuter.get (l_permutation l) j) = compare (k_ikey ka) (rank_ikey l j)) ->
  exists kx, leaf_lower_by comparator ka l = Ok kx /\
    edge_found l (k_ikey ka) (items_map (leaf_items l) !! k_ikey ka) kx.
Proof.
  intros HW Hok Hs Hcmp.
  destruct (bound_lower_by_correct comparator LW bound_method_of ka l) as (kx & Hrun & Hr & Hb & Ha).
  { split; [apply KPermuter.size_range|]. intros i j Hi Hij Hj. cbn [permutation_of leaf_permuter perm_get perm_size] in *.
    fold (leaf_size l) in Hj. rewrite !Hcmp by lia. pose proof (leaf_ikeys_increase l i j Hok Hs Hi Hij Hj).
    pose proof (compare_sign (k_ikey ka) (rank_ikey l i)). pose proof (compare_sign (k_ikey ka) (rank_ikey l j)). lia. }
  cbn [permutation_of leaf_permuter perm_get perm_size] in *. fold (leaf_size l) in *.
  exists kx. split; [done|].
  assert (forall j, 0 <= j < kp_i kx -> rank_ikey l j < k_ikey ka) as Hbefore.
  { intros j Hj. specialize (Hb j Hj). rewrite Hcmp in Hb by lia.
    pose proof (compare_sign (k_ikey ka) (rank_ikey l j)). lia. }
  destruct (items_map (leaf_items l) !! k_ikey ka) as [e|] eqn:Hm.
  - apply items_map_lookup in Hm as [Hin Hk]; [|done].
    destruct (leaf_item_slot l e Hok HW Hin) as (j & Hj & ->). cbn in Hk. fold (rank_ikey l j) in Hk.
    assert (kp_i kx <= j) by (destruct (Z.le_gt_cases (kp_i kx) j); [done|]; specialize (Hbefore j ltac:(lia)); lia).
    destruct Ha as [(Hlt & Hz & Hp)|[_ Hafter]].
    + rewrite Hcmp in Hz by lia. pose proof (compare_sign (k_ikey ka) (rank_ikey l (kp_i kx))).
      assert (kp_i kx = j) as Hij.
      { destruct (Z.eq_dec (kp_i kx) j); [done|].
        pose proof (leaf_ikeys_increase l (kp_i kx) j Hok Hs ltac:(lia) ltac:(lia) ltac:(lia)).
        lia. }
      split; [done|done|done|]. split; [done|]. split; [done|]. by rewrite Hp, Hij.
    + specialize (Hafter j ltac:(lia)). rewrite Hcmp in Hafter by lia.
      pose proof (compare_sign (k_ikey ka) (rank_ikey l j)). lia.
  - assert (forall j, 0 <= j < leaf_size l -> rank_ikey l j <> k_ikey ka) as Hno.
    { intros j Hj Hk. enough (items_map (leaf_items l) !! k_ikey ka =
        Some (slot_item l (KPermuter.get (l_permutation l) j))) by congruence.
      apply items_map_lookup; [done|]. split; [by apply leaf_slot_item|done]. }
    destruct Ha as [(Hlt & Hz & Hp)|[Hp Hafter]].
    + rewrite Hcmp in Hz by lia. pose proof (compare_sign (k_ikey ka) (rank_ikey l (kp_i kx))).
      specialize (Hno (kp_i kx)). lia.
    + split; [done|done| |done]. intros j Hj _. specialize (Hafter j Hj). rewrite Hcmp in Hafter by lia.
      pose proof (compare_sign (k_ikey ka) (rank_ikey l j)). fold (rank_ikey l j). lia.
Qed.

Lemma leaf_edge_search l ka :
  1 <= LW <= 15 -> leaf_ok l -> ikeys_sorted (leaf_items l) -> (forall e, e ∈ leaf_items l -> edge_item e) ->
  k_len ka = ikey_size ->
  exists kx, leaf_lower_by edge_comparator ka l = Ok kx /\
    edge_found l (k_ikey ka) (items_map (leaf_items l) !! k_ikey ka) kx.
Proof.
  intros HW Hok Hs He Hlen. apply leaf_ikey_search; [done..|].
  intros j Hj. apply edge_comparator_edge; [done|]. by apply He, leaf_slot_item.
Qed.

(** With the slice free, the search by slice and length finds its rank too. *)
Lemma leaf_free_search l ka :
  1 <= LW <= 15 -> leaf_ok l -> ikeys_sorted (leaf_items l) -> items_map (leaf_items l) !! k_ikey ka = None ->
  exists kx, leaf_lower ka l = Ok kx /\ edge_found l (k_ikey ka) None kx.
Proof.
  intros HW Hok Hs Hn. rewrite <- Hn. apply (leaf_ikey_search compare_key); [done..|].
  intros j Hj. unfold compare_key, leaf_compare_key, key_compare.
  destruct (Z.eqb_spec (compare (k_ikey ka) (leaf_ikey l (KPermuter.get (l_permutation l) j))) 0) as [Hz|]; [|done].
  pose proof (compare_sign (k_ikey ka) (leaf_ikey l (KPermuter.get (l_permutation l) j))) as Hc.
  enough (items_map (leaf_items l) !! k_ikey ka = Some (slot_item l (KPermuter.get (l_permutation l) j))) by congruence.
  apply items_map_lookup; [done|]. split; [by apply leaf_slot_item|]. cbn. lia.
Qed.

(** In a layer the leaf's map and the layer's agree on the leaf's slices. *)
Lemma leaf_for_map h d root ls k n l :
  layer_tree h d root None None ls -> leaf_for h d root None None ls k n l ->
  items_map (leaf_items l) !! k = layer_map ls !! k.
Proof.
  intros Ht Hl. apply option_eq. intros e. unfold layer_map.
  rewrite !items_map_lookup; [|by eapply layer_ikeys_sorted|apply Hl].
  split; intros [He Hk]; (split; [|done]).
  - apply elem_of_tree_items. exists (n, l). split; [apply Hl|done].
  - by eapply lfor_all.
Qed.

(** [layer_at] with what the edge searches need. *)
Record edge_layer (h : gmap loc node) (r0 : loc) (d : nat) (root : loc) (ls : list (loc * leaf)) : Prop := {
  el_at : layer_at h r0 d root ls;
  el_items : forall e, e ∈ tree_items ls -> edge_item e
}.

(** What both edge searches have found when they have the leaf. *)
Lemma edge_layer_search s r0 d root ls ka :
  1 <= LW <= 15 -> edge_layer (m_heap s) r0 d root ls -> k_len ka = ikey_size ->
  exists n l kx, reach_leaf r0 ka s = Ok ((n, l_version l), s) /\
    leaf_for (m_heap s) d root None None ls (k_ikey ka) n l /\ leaf_lower_by edge_comparator ka l = Ok kx /\
    edge_found l (k_ikey ka) (layer_map ls !! k_ikey ka) kx.
Proof.
  intros HW [Ha Hi] Hlen. destruct (reach_leaf_run s r0 d root ls ka Ha) as (n & l & Hrun & Hl).
  pose proof (la_tree _ _ _ _ _ Ha) as Ht.
  destruct (leaf_edge_search l ka HW (lfor_ok _ _ _ _ _ _ _ _ _ Hl) (lfor_sorted _ _ _ _ _ _ _ _ _ Hl)) as (kx & Hlow & Hf);
    [|done|].
  { intros e He. apply Hi, elem_of_tree_items. exists (n, l). split; [apply Hl|done]. }
  rewrite (leaf_for_map _ _ _ _ _ _ _ Ht Hl) in Hf. by exists n, l, kx.
Qed.

Lemma perm_get_range l i : leaf_ok l -> 0 <= i < LW -> 0 <= KPermuter.get (l_permutation l) i < LW.
Proof.
  intros [_ [_ Hperm]] Hi.
  assert (KPermuter.get (l_permutation l) i ∈ KPermuter.elems LW (l_permutation l)) as Hin.
  { apply list_elem_of_fmap. exists i. split; [done|]. apply elem_of_seqZ. lia. }
  rewrite Hperm in Hin. apply elem_of_seqZ in Hin. lia.
Qed.

Lemma edge_found_slot l k e kx :
  leaf_ok l -> edge_found l k (Some e) kx ->
  0 <= kp_p kx < LW /\ slot_item l (kp_p kx) = e /\ aget (l_lv l) (kp_p kx) = Ok (it_lv e).
Proof.
  intros Hok [Hr _ _ (Hlt & Hp & He)]. pose proof Hok as [[_ _ A3] [Hs _]]. unfold leaf_size in Hlt, Hr.
  assert (0 <= kp_p kx < LW) as Hpr by (rewrite Hp; apply perm_get_range; [done|lia]).
  split; [done|]. split; [done|]. destruct (aget_total (l_lv l) (kp_p kx)) as [v Hv]; [lia|].
  rewrite Hv. apply aget_ok in Hv as [_ Hv]. rewrite <- He. cbn. by rewrite nth_lookup, Hv.
Qed.

Lemma edge_found_edge n l d root ls h k e kx :
  (forall e, e ∈ tree_items ls -> edge_item e) -> leaf_for h d root None None ls k n l -> edge_found l k (Some e) kx -> edge_item e.
Proof.
  intros Hi Hl [Hr _ _ (Hlt & Hpp & <-)]. apply Hi, elem_of_tree_items. exists (n, l).
  split; [apply Hl|]. cbn. rewrite Hpp. apply leaf_slot_item; [apply Hl|lia].
Qed.

Lemma find_unlocked_edge_loop_run s r0 d root ls c fuel :
  1 <= LW <= 15 -> edge_layer (m_heap s) r0 d root ls -> k_len (uc_ka c) = ikey_size ->
  let found := layer_map ls !! k_ikey (uc_ka c) in
  exists n l, find_unlocked_edge_loop (S fuel) r0 None c s =
    Ok (UCursor n (uc_ka c) (l_version l) (l_permutation l)
          (match found with Some e => it_lv e | None => uc_lv c end) (uc_root c)
          (match found with Some e => edge_state e | None => 0 end), s).
Proof.
  intros HW He Hlen.
  destruct (edge_layer_search s r0 d root ls (uc_ka c) HW He Hlen) as (n & l & kx & Hreach & Hl & Hlow & Hf).
  pose proof (lfor_at _ _ _ _ _ _ _ _ _ Hl) as Hat. pose proof (lfor_calm _ _ _ _ _ _ _ _ _ Hl) as Hc.
  intros found. fold found in Hf. exists n, l. cbn [find_unlocked_edge_loop].
  rewrite (sbind_run _ _ _ _ _ Hreach). change (l_version l) with (node_version (NLeaf l)).
  rewrite (nc_deleted _ Hc), (sbind_run _ _ _ _ _ (get_leaf_run _ _ _ Hat)).
  rewrite (sbind_run _ _ _ _ _ (lift_run _ _ _ Hlow)). destruct found as [e|].
  - destruct (edge_found_slot l _ e kx (lfor_ok _ _ _ _ _ _ _ _ _ Hl) Hf) as (Hp & Hs & Hlv).
    pose proof (edge_found_edge _ _ _ _ _ _ _ _ _ (el_items _ _ _ _ _ He) Hl Hf) as Hedge. rewrite <- Hs in Hedge.
    rewrite (proj2 (Z.leb_le 0 (kp_p kx))), sbind_assoc by lia.
    rewrite (sbind_run _ _ _ _ _ (lift_run _ _ _ Hlv : mget _ _ s = _)), sbind_assoc.
    rewrite (sbind_run _ _ _ _ _ (lift_run _ _ _ (ksuf_matches_edge _ l _ Hedge))).
    rewrite Hs, sbind_ret, (sbind_run _ _ _ _ _ (has_changed_run _ _ _ Hat)), (lfor_live _ _ _ _ _ _ _ _ _ Hl).
    reflexivity.
  - rewrite (ef_pos _ _ _ _ Hf). cbn [Z.leb Z.compare]. rewrite sbind_ret.
    rewrite (sbind_run _ _ _ _ _ (has_changed_run _ _ _ Hat)), (lfor_live _ _ _ _ _ _ _ _ _ Hl). reflexivity.
Qed.

Lemma find_unlocked_edge_run s r0 d root ls ka :
  1 <= LW <= 15 -> edge_layer (m_heap s) r0 d root ls -> k_len ka = ikey_size ->
  exists c, find_unlocked_edge (make_unlocked_tcursor r0 ka) s = Ok ((negb (uc_state c =? 0), c), s) /\
    uc_ka c = ka /\ uc_root c = r0 /\
    match layer_map ls !! k_ikey ka with
    | Some e => uc_lv c = it_lv e /\ uc_state c = edge_state e
    | None => uc_state c = 0
    end.
Proof.
  intros HW He Hlen. pose proof (la_depth _ _ _ _ _ (el_at _ _ _ _ _ He)) as Hd.
  destruct (find_unlocked_edge_loop_run s r0 d root ls (make_unlocked_tcursor r0 ka) (Nat.pred np_fuel)) as (n & l & Hrun);
    [done..|].
  rewrite Nat.succ_pred in Hrun by lia. cbn zeta in Hrun. cbn [uc_ka make_unlocked_tcursor] in Hrun.
  eexists. split; [unfold find_unlocked_edge; cbn [uc_root make_unlocked_tcursor] in Hrun |- *;
    rewrite (sbind_run _ _ _ _ _ Hrun); reflexivity|].
  cbn [uc_ka uc_root uc_state uc_lv]. split; [done|]. split; [done|].
  by destruct (layer_map ls !! k_ikey ka).
Qed.

(** C7: [unlocked_tcursor::find_unlocked_edge] looks a component up in a
    directory's layer: for a well-formed layer, of any depth, reached from any
    of its nodes, the search returns, changes nothing, and answers as the finite
    map of the items in the layer's leaves: the value or layer stored under the
    slice, with a negative state for a layer, or nothing. *)
Theorem find_unlocked_edge_map (s : mstate) (r0 : loc) (d : nat) (root : loc) (ls : list (loc * leaf)) (ka : key) :
  1 <= LW <= 15 -> edge_layer (m_heap s) r0 d root ls -> k_len ka = ikey_size ->
  exists found c, find_unlocked_edge (make_unlocked_tcursor r0 ka) s = Ok ((found, c), s) /\
    uc_ka c = ka /\ uc_root c = r0 /\
    match layer_map ls !! k_ikey ka with
    | Some e => found = true /\ uc_lv c = it_lv e /\ uc_state c = edge_state e
    | None => found = false /\ uc_state c = 0
    end.
Proof.
  intros HW He Hlen. destruct (find_unlocked_edge_run s r0 d root ls ka HW He Hlen) as (c & Hrun & Hka & Hr & Hc).
  do 2 eexists. split; [exact Hrun|]. split; [done|]. split; [done|].
  destruct (layer_map ls !! k_ikey ka) as [e|].
  - destruct Hc as [Hlv Hst]. split; [|done]. rewrite Hst. unfold edge_state.
    by destruct (it_keylenx e =? layer_keylenx).
  - by rewrite Hc.
Qed.
End layer_edge.
