(* ===== verification/TrieGet.v ===== *)
(** * Looking a key up in the whole table

    A table is a trie of layers: a slot of a layer's leaf holds the value of a
    key that ends in the slice, the value and remaining bytes of one that does
    not, or the next layer.  [trie_at] says which finite map of strings a heap
    holds; [basic_table::get] looks a string up in it. *)

From Stdlib Require Import Sorting.Sorted.
From S2P Require Export LayerEdge.
From S2P Require Import Namespace NodeVersion KPermuter SplitFacts.

#[local] Open Scope Z_scope.
#[local] Open Scope lhm_scope.

#[local] Existing Instance np_config.

Section trie.
Context {P : nodeparams}.

Abbreviation NV := nodeversion_type.
Abbreviation LW := leaf_width.

(** ** Items in key order *)

(** What the length code says of a key: its length up to eight, nine for more. *)
Definition length_code (len : Z) : Z := if len <=? ikey_size then len else 9.
Definition item_code (e : item) : Z := length_code (it_keylenx e).

Definition item_before (a b : item) : Prop :=
  it_ikey a < it_ikey b \/ (it_ikey a = it_ikey b /\ item_code a < item_code b).

Lemma sorted_app_gen {A} (R : A -> A -> Prop) xs ys :
  StronglySorted R xs -> StronglySorted R ys -> (forall x y, x ∈ xs -> y ∈ ys -> R x y) ->
  StronglySorted R (xs ++ ys).
Proof.
  intros Hx Hy Hxy. induction Hx as [|x xs Hxs IH Hf]; cbn; [done|]. constructor.
  - apply IH. intros a b Ha. apply Hxy. by right.
  - apply Forall_app. split; [done|]. apply Forall_forall. intros y Hy'. apply Hxy; [left|done].
Qed.

Lemma sorted_lookup_gen {A} (R : A -> A -> Prop) xs i j a b :
  StronglySorted R xs -> xs !! i = Some a -> xs !! j = Some b -> (i < j)%nat -> R a b.
Proof.
  intros Hs. revert i j. induction Hs as [|x xs _ IH Hf]; intros i j Hi Hj Hij; [done|].
  destruct j as [|j]; [lia|]. cbn in Hj. destruct i as [|i]; cbn in Hi.
  - injection Hi as <-. rewrite Forall_forall in Hf. apply Hf. by eapply list_elem_of_lookup_2.
  - by apply (IH i j); [..|lia].
Qed.

(** The items of a general layer, by slice and length. *)
#[local] Instance by_key : ItemOrder.
Proof.
  refine {| items_sorted := StronglySorted item_before |}.
  - constructor.
  - intros xs ys Hx Hy Hxy. apply sorted_app_gen; [done..|]. intros x y Hx' Hy'. left. by apply Hxy.
Defined.

(** ** The map a trie holds *)

(** The eight bytes of a slice. *)
Definition slice_string (ikey : Z) : list Z := rev (le_bytes 8 ikey).
Definition string_slice (s : list Z) : Z := be_value (pad 8 (take 8 s)).

(** The slot [p] of the leaf [l] agrees with the map [m]; [down q m'] says that
    the layer at [q] holds [m']. *)
Definition slot_holds (down : loc -> gmap (list Z) value_type -> Prop) (l : leaf) (p : Z)
    (m : gmap (list Z) value_type) : Prop :=
  let e := slot_item l p in
  (0 <= it_keylenx e <= ikey_size /\
     exists v, it_lv e = lv_value v /\ m !! take (Z.to_nat (it_keylenx e)) (slice_string (it_ikey e)) = Some v) \/
  (it_keylenx e = ksuf_keylenx /\
     exists suf v, ksuf l p = Ok suf /\ it_lv e = lv_value v /\
       forall t, t <> [] -> m !! (slice_string (it_ikey e) ++ t) = if decide (t = suf) then Some v else None) \/
  (it_keylenx e = layer_keylenx /\
     exists q m', it_lv e = lv_layer (Some q) /\ down q m' /\
       forall t, t <> [] -> m !! (slice_string (it_ikey e) ++ t) = m' !! t).

Lemma slot_holds_mono (down1 down2 : loc -> gmap (list Z) value_type -> Prop) l p m :
  (forall q m', down1 q m' -> down2 q m') -> slot_holds down1 l p m -> slot_holds down2 l p m.
Proof.
  intros Hd [H|[H|(Hx & q & m' & Hq & Hm & Ht)]]; [by left|by right; left|]. right. right. split; [done|].
  exists q, m'. split; [done|]. split; [by apply Hd|done].
Qed.

(** The layer reached from [r0] and what lies below it hold the map [m], in at
    most [n] layers. *)
Fixpoint trie_at (n : nat) (h : gmap loc node) (r0 : loc) (m : gmap (list Z) value_type) : Prop :=
  match n with
  | O => False
  | S n =>
    exists d root ls, layer_at h r0 d root ls /\
      (forall x l p, (x, l) ∈ ls -> p ∈ active LW (l_permutation l) -> slot_holds (trie_at n h) l p m) /\
      (forall s, is_Some (m !! s) -> Forall is_byte s -> exists e, e ∈ tree_items ls /\
         it_ikey e = string_slice s /\ item_code e = length_code (Z.of_nat (length s)))
  end.

(** ** Strings and slices *)

Lemma string_slice_bytes s :
  Forall is_byte s -> slice_string (string_slice s) = pad 8 (take 8 s).
Proof.
  intros Hs. unfold slice_string, string_slice, be_value.
  assert (length (rev (pad 8 (take 8 s))) = 8%nat) as Hl.
  { rewrite length_rev. unfold pad, zeros. rewrite length_app, length_take, length_replicate. lia. }
  assert (Forall is_byte (rev (pad 8 (take 8 s)))) as Hb.
  { apply Forall_rev_byte. unfold pad. apply Forall_app. split; [by apply Forall_take|].
    apply Forall_replicate. unfold is_byte. lia. }
  rewrite <- Hl at 1. by rewrite le_bytes_value, rev_involutive.
Qed.

Lemma short_string s :
  Forall is_byte s -> (length s <= 8)%nat -> take (length s) (slice_string (string_slice s)) = s.
Proof.
  intros Hs Hl. rewrite string_slice_bytes by done. unfold pad. rewrite (take_ge s) by lia. by rewrite take_app_length.
Qed.

Lemma long_string s :
  Forall is_byte s -> (8 < length s)%nat -> slice_string (string_slice s) ++ drop 8 s = s.
Proof.
  intros Hs Hl. rewrite string_slice_bytes by done. unfold pad.
  rewrite length_take, Nat.min_l, Nat.sub_diag by lia. cbn [zeros replicate]. rewrite app_nil_r. apply take_drop.
Qed.

(** ** Searching a leaf *)

Definition valid_code (x : Z) : Prop := 0 <= x <= ikey_size \/ x = ksuf_keylenx \/ x = layer_keylenx.

(** [key::compare] orders by slice and length code. *)
Lemma key_compare_code ka ikey x :
  0 <= k_len ka -> valid_code x ->
  (key_compare ka ikey x < 0 /\ (k_ikey ka < ikey \/ (k_ikey ka = ikey /\ length_code (k_len ka) < length_code x))) \/
  (key_compare ka ikey x = 0 /\ k_ikey ka = ikey /\ length_code (k_len ka) = length_code x) \/
  (0 < key_compare ka ikey x /\ (ikey < k_ikey ka \/ (k_ikey ka = ikey /\ length_code x < length_code (k_len ka)))).
Proof.
  intros Hlen Hx. unfold key_compare, length_code, valid_code, ikey_size, ksuf_keylenx, layer_keylenx in *.
  pose proof (compare_sign (k_ikey ka) ikey).
  destruct (Z.eqb_spec (compare (k_ikey ka) ikey) 0); [|lia].
  destruct (Z.ltb_spec 8 (k_len ka)), (Z.leb_spec x 8), (Z.leb_spec (k_len ka) 8); lia.
Qed.

Section leaf_search.
Context (l : leaf) (ka : key) (HW : 1 <= LW <= 15) (Hl : leaf_ok l).
Context (Hs : items_sorted (leaf_items l)) (Hlen : 0 <= k_len ka).
Context (Hv : forall p, p ∈ active LW (l_permutation l) -> valid_code (leaf_keylenx l p)).

Abbreviation rank j := (KPermuter.get (l_permutation l) j).

Lemma rank_active j : 0 <= j < leaf_size l -> rank j ∈ active LW (l_permutation l).
Proof using Hl.
  intros Hj. destruct Hl as [_ [Hsz _]]. apply (list_elem_of_lookup_2 _ (Z.to_nat j)).
  unfold leaf_size in Hj. rewrite active_lookup by lia. f_equal. f_equal. lia.
Qed.

Lemma active_rank p : p ∈ active LW (l_permutation l) -> exists j, 0 <= j < leaf_size l /\ p = rank j.
Proof using Hl HW.
  destruct Hl as [_ [Hsz _]]. intros (j & Hj)%list_elem_of_lookup.
  pose proof (lookup_lt_Some _ _ _ Hj) as Hlt. rewrite length_active in Hlt by done.
  rewrite active_lookup in Hj by lia. injection Hj as <-. exists (Z.of_nat j). unfold leaf_size. split; [lia|done].
Qed.

(** The slot for the key's slice and length, or none. *)
Lemma leaf_key_search :
  exists kx, view_lower ka (View (l_permutation l) l) = Ok kx /\
    ((0 <= kp_p kx < LW /\ kp_p kx ∈ active LW (l_permutation l) /\
      leaf_ikey l (kp_p kx) = k_ikey ka /\ length_code (leaf_keylenx l (kp_p kx)) = length_code (k_len ka)) \/
     (kp_p kx = -1 /\ forall p, p ∈ active LW (l_permutation l) ->
        leaf_ikey l p = k_ikey ka -> length_code (leaf_keylenx l p) <> length_code (k_len ka))).
Proof using HW Hl Hs Hlen Hv.
  pose proof Hl as [_ [Hsz _]].
  assert (forall i j, 0 <= i -> i < j -> j < leaf_size l -> item_before (slot_item l (rank i)) (slot_item l (rank j))) as Hinc.
  { intros i j Hi Hij Hj. unfold leaf_size in Hj.
    eapply (sorted_lookup_gen item_before (leaf_items l) (Z.to_nat i) (Z.to_nat j) _ _ Hs); [| |lia];
      unfold leaf_items; rewrite list_lookup_fmap, active_lookup, Z2Nat.id by lia; done. }
  destruct (bound_lower_by_correct (compare_key (KA := key) (T := cursor_view)) LW bound_method_of ka (View (l_permutation l) l))
    as (kx & Hrun & Hr & Hb & Ha).
  { split; [apply KPermuter.size_range|]. intros i j Hi Hij Hj.
    cbn [permutation_of cursor_view_permuter perm_get perm_size cv_perm] in *. fold (leaf_size l) in Hj.
    unfold compare_key, cursor_view_compare, compare_key, leaf_compare_key. cbn [cv_leaf].
    pose proof (Hinc i j Hi Hij Hj) as Hbef. unfold item_before, item_code in Hbef. cbn [slot_item it_ikey it_keylenx] in Hbef.
    pose proof (key_compare_code ka (leaf_ikey l (rank i)) _ Hlen (Hv _ (rank_active i ltac:(lia)))) as Hci.
    pose proof (key_compare_code ka (leaf_ikey l (rank j)) _ Hlen (Hv _ (rank_active j ltac:(lia)))) as Hcj. lia. }
  cbn [permutation_of cursor_view_permuter perm_get perm_size cv_perm] in *. fold (leaf_size l) in *.
  unfold compare_key, cursor_view_compare, compare_key, leaf_compare_key in Hb, Ha. cbn [cv_leaf] in Hb, Ha.
  exists kx. split; [done|]. destruct Ha as [(Hlt & Hz & Hp)|[Hp Hafter]].
  - left. rewrite Hp. pose proof (rank_active (kp_i kx) ltac:(lia)) as Hact.
    pose proof (key_compare_code ka (leaf_ikey l (rank (kp_i kx))) _ Hlen (Hv _ Hact)).
    split; [apply perm_get_range; [done|]; unfold leaf_size in *; lia|]. split; [done|lia].
  - right. split; [done|]. intros p Hpa Hk Hcode. destruct (active_rank p Hpa) as (j & Hj & ->).
    pose proof (key_compare_code ka (leaf_ikey l (rank j)) _ Hlen (Hv _ Hpa)) as Hc.
    destruct (Z.lt_ge_cases j (kp_i kx)) as [Hji|Hji]; [specialize (Hb j ltac:(lia))|specialize (Hafter j ltac:(lia))]; lia.
Qed.
End leaf_search.

(** ** The lookup *)

Lemma slot_holds_valid down l p m : slot_holds down l p m -> valid_code (leaf_keylenx l p).
Proof. unfold slot_holds, valid_code. cbn [slot_item it_keylenx]. tauto. Qed.

Lemma key_rep_suffix k s : key_rep k s -> (8 < length s)%nat -> Key.suffix k = drop 8 s.
Proof.
  intros (_ & _ & Hlen & _ & Hl) Hs. unfold Key.suffix, Key.suffix_length, ikey_size. rewrite Hlen.
  rewrite <- Hl at 2. rewrite drop_load by lia. f_equal. lia.
Qed.

Lemma suffix_equals_spec s t : suffix_equals s t = bool_decide (t = s).
Proof.
  unfold suffix_equals. case_bool_decide as He.
  - subst t. by rewrite Z.eqb_refl, memcmp_refl.
  - destruct (Z.eqb_spec (Z.of_nat (length s)) (Z.of_nat (length t))) as [Hl|]; [|done]. cbn [andb].
    apply Z.eqb_neq. intros Hm. apply He. symmetry. apply memcmp_eq; [lia|done].
Qed.

Lemma leaf_slot_value l p : leaf_ok l -> 0 <= p < LW -> aget (l_lv l) p = Ok (it_lv (slot_item l p)).
Proof.
  intros [[_ _ A3] _] Hp. destruct (aget_total (l_lv l) p) as [v Hv]; [lia|]. rewrite Hv.
  apply aget_ok in Hv as [_ Hv]. cbn [slot_item it_lv]. by rewrite nth_lookup, Hv.
Qed.

(** What the search answers at a leaf, from the slot found. *)
Definition found_in (m : gmap (list Z) value_type) (s : list Z) (r : Z) (lv : leafvalue) : Prop :=
  match m !! s with Some v => r = 1 /\ lv = lv_value v | None => r = 0 end.

(** The matching slot answers for the key or sends the search down. *)
Lemma slot_answer down l p m ka s :
  leaf_ok l -> 0 <= p < LW -> slot_holds down l p m -> key_rep ka s ->
  leaf_ikey l p = k_ikey ka -> length_code (leaf_keylenx l p) = length_code (k_len ka) ->
  exists r, ksuf_matches l p ka = Ok r /\
    ((0 <= r /\ found_in m s r (it_lv (slot_item l p))) \/
     (r = - ikey_size /\ (8 < length s)%nat /\
      exists q m', it_lv (slot_item l p) = lv_layer (Some q) /\ down q m' /\ m !! s = m' !! drop 8 s)).
Proof.
  intros Hl Hp Hh Hka Hik Hcode. pose proof Hka as (_ & Hb & Hlen & Hk & _).
  assert (leaf_ikey l p = string_slice s) as Hsl by (rewrite Hik; exact Hk). rewrite Hlen in Hcode.
  unfold length_code, ikey_size in Hcode. unfold ksuf_matches, found_in.
  destruct Hh as [(Hx & v & Hv & Hm)|[(Hx & suf & v & Hsuf & Hv & Hm)|(Hx & q & m' & Hq & Hd & Hm)]];
    cbn [slot_item it_keylenx it_ikey] in Hx, Hm; rewrite Hsl in Hm; unfold ikey_size in *.
  - rewrite (proj2 (Z.ltb_lt _ _)) by (unfold ksuf_keylenx; lia). exists 1. split; [done|]. left. split; [lia|].
    destruct (Z.leb_spec (leaf_keylenx l p) 8), (Z.leb_spec (Z.of_nat (length s)) 8); try lia.
    rewrite Hcode, Nat2Z.id, short_string in Hm by (done || lia). rewrite Hm. done.
  - unfold ksuf in Hsuf. rewrite Hx in Hcode, Hsuf |- *. cbn [Z.ltb Z.eqb Z.compare Z.leb ksuf_keylenx layer_keylenx Pos.compare Pos.eqb] in *.
    change (64 ?= 8)%positive with Gt in Hcode. cbn in Hcode.
    destruct (Z.leb_spec (Z.of_nat (length s)) 8); [lia|].
    change (64 <? ksuf_keylenx) with false. change (64 =? layer_keylenx) with false. rewrite Hsuf. unfold rbind, res_bind. cbn iota.
    rewrite suffix_equals_spec, (key_rep_suffix _ _ Hka) by lia. eexists. split; [reflexivity|]. left.
    specialize (Hm (drop 8 s)). rewrite long_string in Hm by (done || lia).
    rewrite Hm by (intros He; apply (f_equal length) in He; rewrite length_drop in He; cbn in He; lia).
    case_bool_decide as He; destruct (decide (drop 8 s = suf)); done.
  - rewrite Hx in Hcode |- *. exists (-8). split; [done|]. right. split; [done|].
    assert (8 < length s)%nat as Hlong by (destruct (Z.leb_spec (Z.of_nat (length s)) 8); cbn in Hcode; lia).
    split; [done|]. exists q, m'. split; [done|]. split; [done|].
    rewrite <- (Hm (drop 8 s)), long_string; [done..|].
    intros He; apply (f_equal length) in He; rewrite length_drop in He; cbn in He; lia.
Qed.
(** One layer of the search: the leaf, its slot and the answer. *)
Lemma layer_step n s r0 m c str :
  1 <= LW <= 15 -> trie_at (S n) (m_heap s) r0 m -> key_rep (uc_ka c) str ->
  exists x l (lv : leafvalue) r,
    (forall fuel, find_unlocked_loop (S fuel) r0 None c s =
      (if r <? 0 then
         let* root' := layer_of lv in
         find_unlocked_loop fuel root' None (UCursor x (shift_by (- r) (uc_ka c)) (l_version l) (l_permutation l) lv (uc_root c) (uc_state c))
       else mret (r, UCursor x (uc_ka c) (l_version l) (l_permutation l) lv (uc_root c) (uc_state c))) s) /\
    ((0 <= r /\ found_in m str r lv) \/
     (r = - ikey_size /\ (8 < length str)%nat /\
      exists q m', lv = lv_layer (Some q) /\ trie_at n (m_heap s) q m' /\ m !! str = m' !! drop 8 str)).
Proof.
  intros HW (d & root & ls & Hat & Hslots & Hcomplete) Hka. pose proof Hka as (_ & Hb & Hlen & Hik & _).
  destruct (reach_leaf_run s r0 d root ls (uc_ka c) Hat) as (x & l & Hreach & Hl).
  pose proof (lfor_ok _ _ _ _ _ _ _ _ _ Hl) as Hok. pose proof (lfor_at _ _ _ _ _ _ _ _ _ Hl) as Hx.
  assert (forall p, p ∈ active LW (l_permutation l) -> slot_holds (trie_at n (m_heap s)) l p m) as Hsl.
  { intros p Hp. by eapply Hslots; [apply Hl|]. }
  destruct (leaf_key_search l (uc_ka c) HW Hok (lfor_sorted _ _ _ _ _ _ _ _ _ Hl)) as (kx & Hlow & Hfound).
  { rewrite Hlen. lia. }
  { intros p Hp. eapply slot_holds_valid. by apply Hsl. }
  assert (forall fuel lv r, (if 0 <=? kp_p kx then
        let* lv := mget (l_lv l) (kp_p kx) in
        let* m := lift (ksuf_matches l (kp_p kx) (uc_ka c)) in mret (lv, m)
      else mret (uc_lv c, 0)) s = Ok ((lv, r), s) ->
    find_unlocked_loop (S fuel) r0 None c s =
      (if r <? 0 then
         let* root' := layer_of lv in
         find_unlocked_loop fuel root' None (UCursor x (shift_by (- r) (uc_ka c)) (l_version l) (l_permutation l) lv (uc_root c) (uc_state c))
       else mret (r, UCursor x (uc_ka c) (l_version l) (l_permutation l) lv (uc_root c) (uc_state c))) s) as Hloop.
  { intros fuel lv r Hlm. cbn [find_unlocked_loop]. rewrite (sbind_run _ _ _ _ _ Hreach).
    change (l_version l) with (node_version (NLeaf l)) at 1.
    rewrite (nc_deleted _ (lfor_calm _ _ _ _ _ _ _ _ _ Hl)), (sbind_run _ _ _ _ _ (get_leaf_run _ _ _ Hx)).
    rewrite (sbind_run _ _ _ _ _ (lift_run _ _ _ Hlow)), (sbind_run _ _ _ _ _ Hlm).
    by rewrite (sbind_run _ _ _ _ _ (has_changed_run _ _ _ Hx)). }
  destruct Hfound as [(Hp & Hact & Hsame & Hcode)|[Hp Hnone]].
  - destruct (slot_answer _ l _ m _ str Hok Hp (Hsl _ Hact) Hka Hsame Hcode) as (r & Hr & Hans).
    exists x, l, (it_lv (slot_item l (kp_p kx))), r. split; [|done]. intros fuel. apply Hloop.
    rewrite (proj2 (Z.leb_le 0 (kp_p kx))) by lia.
    assert (mget (l_lv l) (kp_p kx) s = Ok (it_lv (slot_item l (kp_p kx)), s)) as Hv.
    { apply lift_run. by apply leaf_slot_value. }
    rewrite (sbind_run _ _ _ _ _ Hv). by rewrite (sbind_run _ _ _ _ _ (lift_run _ _ _ Hr)).
  - exists x, l, (uc_lv c), 0. split; [intros fuel; apply Hloop; by rewrite Hp|]. left. split; [done|].
    unfold found_in. destruct (m !! str) as [v|] eqn:Hm; [|done]. exfalso.
    destruct (Hcomplete str ltac:(by exists v) Hb) as (e & He & Hek & Hec).
    assert (e ∈ leaf_items l) as Hel.
    { apply (lfor_all _ _ _ _ _ _ _ _ _ Hl); [done|]. rewrite Hek. exact (eq_sym Hik). }
    apply list_elem_of_fmap in Hel as (p & -> & Hact). apply (Hnone p Hact).
    + cbn in Hek. rewrite Hek. exact (eq_sym Hik).
    + unfold item_code in Hec. cbn in Hec. by rewrite Hec, Hlen.
Qed.

Lemma find_unlocked_loop_run n s r0 m c str fuel :
  1 <= LW <= 15 -> trie_at n (m_heap s) r0 m -> key_rep (uc_ka c) str -> (length str < 8 * fuel)%nat ->
  exists r c', find_unlocked_loop fuel r0 None c s = Ok ((r, c'), s) /\ found_in m str r (uc_lv c').
Proof.
  intros HW. revert n r0 m c str. induction fuel as [|fuel IH]; intros n r0 m c str Ht Hka Hf; [lia|].
  destruct n as [|n]; [done|].
  destruct (layer_step n s r0 m c str HW Ht Hka) as (x & l & lv & r & Hstep & [[Hr Hfound]|(-> & Hlong & q & m' & -> & Hq & Hm)]).
  - exists r. eexists. rewrite Hstep. destruct (Z.ltb_spec r 0); [lia|]. split; [reflexivity|done].
  - rewrite Hstep. change (- ikey_size <? 0) with true. cbn iota.
    assert (layer_of (lv_layer (Some q)) s = Ok (q, s)) as Hlay by done.
    rewrite (sbind_run _ _ _ _ _ Hlay).
    destruct (IH n q m' (UCursor x (shift_by (- - ikey_size) (uc_ka c)) (l_version l) (l_permutation l) (lv_layer (Some q)) (uc_root c) (uc_state c))
      (drop 8 str) Hq) as (r' & c' & Hrun & Hans).
    + cbn [uc_ka]. apply (shift_by_rep _ _ 8); [done|lia].
    + rewrite length_drop. lia.
    + exists r', c'. split; [done|]. unfold found_in in *. by rewrite Hm.
Qed.

(** C6: [basic_table::get] is the lookup of the map that the table's trie holds:
    for every string, through as many layers as it has slices, in layers of any
    depth entered at any of their nodes, it returns, changes nothing, and gives
    the value stored under exactly that string, or nothing. *)
Theorem table_get_map (s : mstate) (r0 : loc) (n : nat) (m : gmap (list Z) value_type) (str : list Z) :
  1 <= LW <= 15 -> m_root s = Some r0 -> trie_at n (m_heap s) r0 m ->
  Forall is_byte str -> (length str < 8 * np_fuel)%nat ->
  table_get str s = Ok (m !! str, s).
Proof.
  intros HW Hr Ht Hb Hf. unfold table_get, unlocked_cursor_const_table.
  assert (table_root s = Ok (Some r0, s)) as Hroot by (unfold table_root; by rewrite Hr).
  rewrite sbind_assoc, (sbind_run _ _ _ _ _ Hroot). cbn [deref]. rewrite sbind_assoc, !sbind_ret.
  destruct (find_unlocked_loop_run n s r0 m (make_unlocked_tcursor r0 (key_of_str str)) str np_fuel HW Ht)
    as (r & c' & Hrun & Hans); [by apply key_of_str_rep|done|].
  unfold find_unlocked. rewrite sbind_assoc. cbn [uc_root make_unlocked_tcursor].
  rewrite (sbind_run _ _ _ _ _ Hrun), sbind_ret. cbn [fst snd]. unfold found_in in Hans.
  destruct (m !! str) as [v|]; [|by rewrite Hans]. destruct Hans as [-> Hlv]. cbn [Z.eqb negb].
  unfold uc_value. by rewrite Hlv.
Qed.
End trie.

(** ** A table of two layers *)

Section witness.
#[local] Existing Instance x86_config.
#[local] Instance fuel : Fuel := 60%nat.

Definition one_leaf (kxs ikeys : list Z) (lvs : list leafvalue) : leaf :=
  Leaf (NodeVersion.mark_root nodeversion_type (NodeVersion.make_version nodeversion_type true)) 0 0 modstate_insert
    (kxs ++ replicate (7 - length kxs) 0) (make_sorted 7 (Z.of_nat (length kxs))) (ikeys ++ replicate (7 - length ikeys) 0)
    (lvs ++ replicate (7 - length lvs) lv_make_empty) None false None None None 0 None None.

(** ["ab"] and ["abcdefghij"], the second one's tail in a layer of its own. *)
Definition key_ab : list Z := [97; 98].
Definition key_long : list Z := [97; 98; 99; 100; 101; 102; 103; 104; 105; 106].
Definition first_value : namespace_entry := empty_entry.
Definition second_value : namespace_entry := Entry kind_file (InodeRef 7 0) 0 (zeros 64).

Definition upper_leaf : leaf :=
  one_leaf [2; layer_keylenx] [string_slice key_ab; string_slice key_long] [lv_value first_value; lv_layer (Some 2%positive)].
Definition lower_leaf : leaf := one_leaf [2] [string_slice (drop 8 key_long)] [lv_value second_value].

Definition two_layers : mstate :=
  MState (list_to_map [(1, NLeaf upper_leaf); (2, NLeaf lower_leaf)])%positive 3 [] [] (Some 1%positive).
Definition two_keys : gmap (list Z) namespace_entry := {[ key_ab := first_value; key_long := second_value ]}.

Lemma one_leaf_layer x l :
  m_heap two_layers !! x = Some (NLeaf l) -> node_calm (NLeaf l) -> leaf_ok l -> deleted_layer l = false ->
  StronglySorted item_before (leaf_items l) -> l_parent l = None ->
  NodeVersion.is_root nodeversion_type (l_version l) = true ->
  layer_at (Ord := by_key) (m_heap two_layers) x 0 x [(x, l)].
Proof.
  intros Hx Hc Hok Hd Hs Hp Hr. split.
  - exists 0%nat. split; [by eapply climbs_root|]. apply (bool_decide_unpack (0 < 60)%nat). exact I.
  - apply layer_leaf; try done. apply Forall_forall. by split.
  - apply (bool_decide_unpack (0 < 60)%nat). exact I.
  - by exists (NLeaf l).
Qed.

Lemma active_of l p xs : active 7 (l_permutation l) = xs -> p ∈ active 7 (l_permutation l) -> In p xs.
Proof. intros <-. apply list_elem_of_In. Qed.

Lemma lower_trie : trie_at 1 (m_heap two_layers) 2%positive {[ drop 8 key_long := second_value ]}.
Proof.
  exists 0%nat, 2%positive, [(2%positive, lower_leaf)]. split; [|split].
  - apply one_leaf_layer; try done.
    + split; [by split|]. by apply (make_sorted_wf 7).
    + repeat constructor.
  - intros x l p [= -> ->]%list_elem_of_singleton Hp. apply (active_of lower_leaf _ [0] eq_refl) in Hp as [<-|[]].
    left. split; [by vm_compute|]. exists second_value. split; [done|]. vm_compute. reflexivity.
  - intros s [v Hv] _.
    apply lookup_singleton_Some in Hv as [<- <-]. exists (slot_item lower_leaf 0). split; [|by split].
    vm_compute. left.
Qed.
Lemma two_layers_trie : trie_at 2 (m_heap two_layers) 1%positive two_keys.
Proof.
  exists 0%nat, 1%positive, [(1%positive, upper_leaf)]. split; [|split].
  - apply one_leaf_layer; try done.
    + split; [by split|]. by apply (make_sorted_wf 7).
    + constructor; [repeat constructor|]. constructor; [|done]. left. by vm_compute.
  - intros x l p [= -> ->]%list_elem_of_singleton Hp. apply (active_of upper_leaf _ [0; 1] eq_refl) in Hp as [<-|[<-|[]]].
    + left. split; [by vm_compute|]. exists first_value. split; [done|]. vm_compute. reflexivity.
    + right. right. split; [done|]. exists 2%positive, {[ drop 8 key_long := second_value ]}.
      split; [done|]. split; [apply lower_trie|]. intros t _.
      change (slice_string (it_ikey (slot_item upper_leaf 1))) with (take 8 key_long).
      unfold two_keys. rewrite lookup_insert_ne by done. destruct (decide (t = drop 8 key_long)) as [->|Hne].
      * by rewrite take_drop, !lookup_singleton_eq.
      * rewrite !lookup_singleton_ne; [done|by apply not_eq_sym|].
        rewrite <- (take_drop 8 key_long). by intros ?%(inj (app _)).
  - intros s [v Hv] _. unfold two_keys in Hv. apply lookup_insert_Some in Hv as [[<- <-]|[_ [<- <-]%lookup_singleton_Some]].
    + exists (slot_item upper_leaf 0). split; [vm_compute; left|]. by split.
    + exists (slot_item upper_leaf 1). split; [vm_compute; right; left|]. by split.
Qed.

Lemma table_get_map_witness :
  table_get key_long two_layers = Ok (Some second_value, two_layers) /\
  table_get (take 9 key_long) two_layers = Ok (None, two_layers).
Proof.
  assert (forall str, Forall is_byte str -> (length str < 480)%nat ->
    table_get str two_layers = Ok (two_keys !! str, two_layers)) as Hget.
  { intros str Hb Hl. apply (table_get_map two_layers 1%positive 2 two_keys str); try done. apply two_layers_trie. }
  split; apply Hget; try (apply (bool_decide_unpack (_ < _)%nat); exact I); repeat constructor; done.
Defined.
End witness.
