(* ===== verification/Pivots.v ===== *)
(** * Pivots of a table (query_masstree.cc)

    [findpivots] cuts the keys of a table into ranges for the threads that write a
    checkpoint.  Each pivot is the slice of a key or separator near the root, without
    its trailing null characters. *)

From Stdlib Require Import Sorting.Sorted.
From S2P Require Import CircularInt.
From S2P Require Export TrieGet.
From S2P Require Import NodeVersion KPermuter SplitFacts.

#[local] Open Scope Z_scope.
#[local] Open Scope lhm_scope.

#[local] Existing Instance np_config.

(** ** The functions *)

Section pivots.
Context {P : nodeparams}.

(** [while (!n->is_root()) n = n->maybe_parent();] *)
Fixpoint climb (fuel : nat) (n : loc) : M loc :=
  match fuel with
  | O => fail OutOfFuel
  | S fuel =>
    let* b := Node.is_root n in
    if b then mret n else let* n := maybe_parent n in climb fuel n
  end.

(** [size]: the keys of a leaf, the children of an internode. *)
Definition pv_size (n : loc) : M Z :=
  let* b := Node.isleaf n in
  if b then let* l := get_leaf n in mret (leaf_size l)
  else let* i := get_internode n in mret (internode_size i + 1).

(** [pv_offset] before it is clamped; [int] arithmetic. *)
Definition pv_offset (branchid size total pvi npv : Z) : Z :=
  Z.quot (Word.signed 32 (pvi * total)) npv - Word.signed 32 (branchid * size).

Definition clamp (x hi : Z) : Z := Z.min (Z.max x 0) hi.

(** The slice that the pivot is taken from. *)
Definition pv_ikey (n : loc) (isleaf : bool) (offset : Z) : M Z :=
  if isleaf then let* l := get_leaf n in mget (l_ikey0 l) (KPermuter.get (l_permutation l) offset)
  else let* i := get_internode n in mget (i_ikey0 i) offset.

(** The main loop; [None] stands for [Str()], otherwise the slice. *)
Fixpoint findpv_loop (fuel : nat) (n : loc) (nbranch branchid pvi npv : Z) : M (option Z) :=
  match fuel with
  | O => fail OutOfFuel
  | S fuel =>
    let* v := Node.stable n in
    let* size := pv_size n in
    if size =? 0 then mret None
    else
      let total := Word.signed 32 (nbranch * size) in
      let first := Word.signed 32 (branchid * size) in
      let offset := pv_offset branchid size total pvi npv in
      let* leaf := Node.isleaf n in
      if negb leaf && (total <? npv) then
        let* i := get_internode n in
        let offset := clamp offset (size - 1) in
        let* next := mget (i_child i) offset in
        let* hc := Node.has_changed n v in
        if negb hc then let* next := deref next in findpv_loop fuel next total (first + offset) pvi npv
        else findpv_loop fuel n nbranch branchid pvi npv
      else
        let offset := clamp offset (size - 1 - (if leaf then 0 else 1)) in
        let* ikey0 := pv_ikey n leaf offset in
        let* hc := Node.has_changed n v in
        if negb hc then mret (Some ikey0) else findpv_loop fuel n nbranch branchid pvi npv
  end.

(** The pivot's characters. *)
Definition pivot_of (o : option Z) : list Z :=
  match o with Some k => unparse_comparable 8 cfg_big_endian ikey_size k | None => [] end.

Definition findpv (n : loc) (pvi npv : Z) : M (list Z) :=
  let* n := climb np_fuel n in
  let* o := findpv_loop np_fuel n 1 0 pvi npv in
  mret (pivot_of o).

(** [findpv(table_.root(), i, npv - 1)] from [i] on, [k] of them. *)
Fixpoint findpivots_loop (k : nat) (root : loc) (i npv : Z) : M (list (list Z)) :=
  match k with
  | O => mret []
  | S k =>
    let* pv := findpv root i (npv - 1) in
    let* pvs := findpivots_loop k root (i + 1) npv in
    mret (pv :: pvs)
  end.

Definition max_pivot : list Z := replicate (Z.to_nat MASSTREE_MAXKEYLEN) 255.

(** [findpivots(pv, npv)], for at least two. *)
Definition findpivots (npv : Z) : M (list (list Z)) :=
  let* root := table_root in
  let* root := deref root in
  let* pvs := findpivots_loop (Z.to_nat (npv - 2)) root 1 npv in
  mret ([] :: pvs ++ [max_pivot]).
End pivots.

(** ** Pivots are in the order of their slices *)

Section order.
Context {P : nodeparams}.

Lemma pivot_bytes k : Word.is_word 64 k ->
  pivot_of (Some k) ++ zeros (8 - length (pivot_of (Some k))) = slice_string k /\ (length (pivot_of (Some k)) <= 8)%nat.
Proof.
  intros Hk. unfold pivot_of, unparse_comparable, slice_string.
  assert (bytes_of 8 cfg_big_endian (host_to_net_order 8 cfg_big_endian k) = rev (le_bytes 8 k)) as E.
  { rewrite <- (bytes_of_net_order 8 cfg_big_endian (rev (le_bytes 8 k))) by
      (rewrite ?length_rev, ?length_le_bytes; done || apply Forall_rev_byte, le_bytes_range).
    do 2 f_equal. unfold be_value. rewrite rev_involutive, le_value_bytes. symmetry. by apply Z.mod_small. }
  rewrite E. set (u := rev (le_bytes 8 k)). assert (length u = 8%nat) as Lu by (unfold u; by rewrite length_rev, length_le_bytes).
  destruct (trim_length_spec u 8 ltac:(lia)) as (Ht & Htake & _). set (t := trim_length u 8) in *.
  change ikey_size with 8. rewrite Z.min_l, Nat2Z.id by lia. rewrite length_take, Lu, Nat.min_l by lia.
  rewrite <- Htake, take_ge by lia. done.
Qed.

Lemma pivot_string_slice k : Word.is_word 64 k -> Forall is_byte (pivot_of (Some k)) /\ pad 8 (take 8 (pivot_of (Some k))) = slice_string k.
Proof.
  intros Hk. destruct (pivot_bytes k Hk) as [E Hl]. split.
  - assert (Forall is_byte (slice_string k)) as Hb by apply Forall_rev_byte, le_bytes_range. rewrite <- E in Hb. by apply Forall_app in Hb as [? _].
  - by rewrite take_ge.
Qed.

(** Comparing pivots is comparing slices. *)
Lemma pivot_compare a b : Word.is_word 64 a -> Word.is_word 64 b ->
  Z.sgn (String_compare (pivot_of (Some a)) (pivot_of (Some b))) = compare a b.
Proof.
  intros Ha Hb. destruct (pivot_string_slice a Ha) as [Fa Ea], (pivot_string_slice b Hb) as [Fb Eb].
  rewrite (String_compare_prefix 8) by done. rewrite Ea, Eb. cbn zeta.
  assert (forall k, Word.is_word 64 k -> be_value (slice_string k) = k) as Hv.
  { intros k Hk. unfold be_value, slice_string. rewrite rev_involutive, le_value_bytes. by apply Z.mod_small. }
  assert (forall k, Forall is_byte (slice_string k)) as Hr by (intros; apply Forall_rev_byte, le_bytes_range).
  rewrite <- (be_value_compare (slice_string a) (slice_string b)), !Hv by (by rewrite ?length_rev, ?length_le_bytes || done).
  destruct (Z.eqb_spec (compare a b) 0) as [E|]; [|done]. cbn [negb].
  assert (a = b) as <-. { unfold compare in E. destruct (Z.eqb_spec a b); [done|]. destruct (a <? b); done. }
  rewrite Z.sub_diag, E. destruct (pivot_bytes a Ha) as [_ Hl].
  rewrite (proj2 (Nat.ltb_ge _ _)) by lia. done.
Qed.

(** The pivot of a slice is empty for no slice but zero. *)
Lemma pivot_empty k : Word.is_word 64 k -> pivot_of (Some k) = [] -> k = 0.
Proof.
  intros Hk He. destruct (pivot_bytes k Hk) as [E _]. rewrite He in E. cbn [app length Nat.sub] in E.
  assert (be_value (slice_string k) = k) as <-.
  { unfold be_value, slice_string. rewrite rev_involutive, le_value_bytes. by apply Z.mod_small. }
  rewrite <- E. done.
Qed.
End order.

(** ** The pivots of a well-formed layer *)

Section findpivots.
Context {P : nodeparams}.

Abbreviation NV := nodeversion_type.
Abbreviation LW := leaf_width.
Abbreviation IW := internode_width.

(** Slices are words, in arrays of the nodes' widths. *)
Record word_slices (h : gmap loc node) : Prop := {
  ws_leaf n l : h !! n = Some (NLeaf l) -> Forall (Word.is_word 64) (l_ikey0 l);
  ws_internode n i : h !! n = Some (NInternode i) -> Z.of_nat (length (i_ikey0 i)) = IW /\ Forall (Word.is_word 64) (i_ikey0 i)
}.

Lemma climb_run s n m k fuel : climbs (m_heap s) n m k -> (k < fuel)%nat -> climb fuel n s = Ok (m, s).
Proof.
  intros H. revert fuel. induction H as [n nd Hn Hc Hr|n nd p m k Hn Hc Hr Hp _ IH]; intros [|fuel] Hk; try lia; cbn [climb]; unfold Node.is_root.
  - rewrite sbind_assoc, (sbind_run _ _ _ _ _ (version_run _ _ _ Hn)), sbind_ret. by rewrite Hr.
  - rewrite sbind_assoc, (sbind_run _ _ _ _ _ (version_run _ _ _ Hn)), sbind_ret, Hr.
    rewrite (sbind_run _ _ _ _ _ (maybe_parent_run _ _ _ Hn Hc)), Hp. apply IH. lia.
Qed.

Lemma word_at (xs : list Z) a : Forall (Word.is_word 64) xs -> 0 <= a < Z.of_nat (length xs) ->
  exists k, aget xs a = Ok k /\ nthZ 0 xs a = k /\ Word.is_word 64 k.
Proof.
  intros Hf Ha. destruct (aget_total xs a Ha) as [k Hk]. exists k. split; [done|]. split; [by apply aget_nthZ|].
  apply aget_ok in Hk as [_ Hk]. rewrite Forall_lookup in Hf. by eapply Hf.
Qed.

(** *** Offsets *)

Section offsets.
Context (npv nbranch branchid size : Z) (Hnpv : 2 <= npv <= 2 ^ 13) (Hnb : 0 < nbranch < npv) (Hbr : 0 <= branchid < nbranch) (Hsz : 0 < size <= 16).

Lemma small_signed x : 0 <= x < 2 ^ 31 -> Word.signed 32 x = x.
Proof. intros Hx. apply (signed_mod 32); [lia|change (32 - 1) with 31; lia|by rewrite Z.sub_diag]. Qed.

Lemma total_exact : Word.signed 32 (nbranch * size) = nbranch * size.
Proof. apply small_signed. nia. Qed.
Lemma first_exact : Word.signed 32 (branchid * size) = branchid * size.
Proof. apply small_signed. nia. Qed.

Lemma pv_offset_mono a b : 0 <= a <= b -> b < npv ->
  pv_offset branchid size (nbranch * size) a npv <= pv_offset branchid size (nbranch * size) b npv.
Proof.
  intros Ha Hb. assert (0 < nbranch * size <= 2 ^ 17) as Ht by nia. unfold pv_offset. revert Ht. generalize (nbranch * size). intros t Ht.
  rewrite (small_signed (a * t)), (small_signed (b * t)) by nia. apply Z.sub_le_mono_r, Z.quot_le_mono; nia.
Qed.

Lemma clamp_mono hi x y : x <= y -> clamp x hi <= clamp y hi.
Proof. unfold clamp. lia. Qed.
Lemma clamp_range hi x : 0 <= hi -> 0 <= clamp x hi <= hi.
Proof. unfold clamp. lia. Qed.
End offsets.

(** Two pivots found from the same node, the first one no later. *)
Definition pivots_in (lo hi : option Z) (oa ob : option Z) : Prop :=
  (forall k, oa = Some k \/ ob = Some k -> within lo hi k /\ Word.is_word 64 k) /\
  (forall k k', oa = Some k -> ob = Some k' -> k <= k').

Section descent.
Context (s : mstate) (npv : Z) (Hws : word_slices (m_heap s)) (HW : 3 <= LW <= 15) (HI : IW <= 15) (Hnpv : 2 <= npv <= 2 ^ 13).

Lemma leaf_pivots n l lo hi (x y : Z) : m_heap s !! n = Some (NLeaf l) -> leaf_ok l ->
  StronglySorted item_before (leaf_items l) -> Forall (fun e => within lo hi (it_ikey e)) (leaf_items l) ->
  0 <= x <= y -> y < leaf_size l ->
  exists ka kb, pv_ikey n true x s = Ok (ka, s) /\ pv_ikey n true y s = Ok (kb, s) /\ pivots_in lo hi (Some ka) (Some kb).
Proof.
  intros Hn Hok Hs Hw Hx Hy.
  assert (forall x, 0 <= x < leaf_size l -> exists k, pv_ikey n true x s = Ok (k, s) /\ within lo hi k /\ Word.is_word 64 k /\
    exists e, leaf_items l !! Z.to_nat x = Some e /\ it_ikey e = k) as Hat.
  { clear x y Hx Hy. intros x Hx. pose proof (leaf_items_lookup l (Z.to_nat x) Hok ltac:(lia) ltac:(lia)) as He. rewrite Z2Nat.id in He by lia.
    assert (0 <= KPermuter.get (l_permutation l) x < LW) as Hg by (apply perm_slot_range; [lia|done|unfold leaf_size in Hx; destruct Hok as [_ [? _]]; lia]).
    destruct (word_at (l_ikey0 l) (KPermuter.get (l_permutation l) x)) as (k & Hk & Hkn & Hkw).
    { by eapply ws_leaf. } { rewrite (ao_ikey _ (lo_arrays _ Hok)). done. }
    exists k. split.
    - unfold pv_ikey. rewrite (sbind_run _ _ _ _ _ (get_leaf_run _ _ _ Hn)). unfold mget. by apply lift_run.
    - assert (it_ikey (slot_item l (KPermuter.get (l_permutation l) x)) = k) as Hik by exact Hkn.
      split; [|split; [done|by eexists]]. rewrite <- Hik. rewrite Forall_lookup in Hw. by eapply Hw. }
  destruct (Hat x ltac:(lia)) as (ka & Ra & Wa & Ba & ea & Ea & <-), (Hat y ltac:(lia)) as (kb & Rb & Wb & Bb & eb & Eb & <-).
  eexists _, _. split; [done|]. split; [done|]. split; [intros k [[= <-]|[= <-]]; by split|].
  intros k k' [= <-] [= <-]. destruct (decide (x = y)) as [->|Hxy]; [rewrite Ea in Eb; injection Eb as ->; lia|].
  destruct (sorted_lookup_gen item_before _ _ _ _ _ Hs Ea Eb ltac:(lia)) as [?|[? _]]; lia.
Qed.

Lemma internode_pivots n i lo hi (x y : Z) : m_heap s !! n = Some (NInternode i) -> internode_ok lo hi i ->
  0 <= x <= y -> y < i_nkeys i ->
  exists ka kb, pv_ikey n false x s = Ok (ka, s) /\ pv_ikey n false y s = Ok (kb, s) /\ pivots_in lo hi (Some ka) (Some kb).
Proof.
  intros Hn Hi Hx Hy. destruct (ws_internode _ Hws _ _ Hn) as [Hlen Hword]. pose proof (io_nkeys _ _ _ Hi).
  destruct (word_at (i_ikey0 i) x) as (ka & Ka & Na & Wa); [done|lia|]. destruct (word_at (i_ikey0 i) y) as (kb & Kb & Nb & Wb); [done|lia|].
  exists ka, kb. unfold pv_ikey. rewrite !(sbind_run _ _ _ _ _ (get_internode_run _ _ _ Hn)). unfold mget.
  split; [by apply lift_run|]. split; [by apply lift_run|].
  split; [intros k [[= <-]|[= <-]]; (split; [|done]); [rewrite <- Na|rewrite <- Nb]; apply Hi; lia|].
  intros k k' [= <-] [= <-]. rewrite <- Na, <- Nb. fold (internode_ikey i x) (internode_ikey i y).
  destruct (decide (x = y)) as [->|]; [lia|]. apply Z.lt_le_incl, Hi; lia.
Qed.

(** An internode with fewer children under it than there are ranges is descended
    into; the last one left has a separator. *)
Lemma findpv_loop_run d n lo hi ls : layer_tree (Ord := by_key) (m_heap s) d n lo hi ls ->
  forall fuel nbranch branchid a b, (d < fuel)%nat -> 0 < nbranch < npv -> 0 <= branchid < nbranch -> 0 <= a <= b -> b < npv ->
  exists oa ob, findpv_loop fuel n nbranch branchid a npv s = Ok (oa, s) /\
    findpv_loop fuel n nbranch branchid b npv s = Ok (ob, s) /\ pivots_in lo hi oa ob.
Proof.
  induction 1 as [n l lo hi Hn Hc Hok Hd Hs Hw|d n i lo hi child sub Hn Hc Hi Hch Hpar Hinj Ht IH];
    intros [|fuel] nbranch branchid a b Hf Hnb Hbr Ha Hb; try lia; cbn [findpv_loop].
  - rewrite !(sbind_run _ _ _ _ _ (stable_run _ _ _ Hn Hc)).
    assert (pv_size n s = Ok (leaf_size l, s)) as Hsz.
    { unfold pv_size. rewrite (sbind_run _ _ _ _ _ (isleaf_run _ _ _ Hn Hc)). cbn [is_leaf_node].
      by rewrite (sbind_run _ _ _ _ _ (get_leaf_run _ _ _ Hn)). }
    rewrite !(sbind_run _ _ _ _ _ Hsz). destruct (Z.eqb_spec (leaf_size l) 0) as [He|He].
    { exists None, None. split; [done|]. split; [done|]. split; [intros k [|]; done|done]. }
    assert (0 < leaf_size l <= 16) as Hsize.
    { destruct Hok as [_ [Hsize _]]. pose proof (KPermuter.size_range (l_permutation l)). unfold leaf_size in *. lia. }
    rewrite (total_exact npv nbranch branchid (leaf_size l)) by done. rewrite (first_exact npv nbranch branchid (leaf_size l)) by done.
    rewrite !(sbind_run _ _ _ _ _ (isleaf_run _ _ _ Hn Hc)). cbn [is_leaf_node negb andb]. rewrite Z.sub_0_r.
    pose proof (pv_offset_mono npv nbranch branchid (leaf_size l) Hnpv Hnb Hbr Hsize a b Ha Hb) as Hm.
    set (x := clamp _ _). set (y := clamp _ _).
    assert (0 <= x <= y /\ y < leaf_size l) as [Hx Hy] by (subst x y; unfold clamp; lia).
    destruct (leaf_pivots n l lo hi x y Hn Hok Hs Hw Hx Hy) as (ka & kb & Ra & Rb & Hin).
    exists (Some ka), (Some kb). rewrite (sbind_run _ _ _ _ _ Ra), (sbind_run _ _ _ _ _ Rb).
    by rewrite !(sbind_run _ _ _ _ _ (has_changed_run _ _ _ Hn)).
  - pose proof (io_nkeys _ _ _ Hi) as Hnk. rewrite !(sbind_run _ _ _ _ _ (stable_run _ _ _ Hn Hc)).
    assert (pv_size n s = Ok (i_nkeys i + 1, s)) as Hsz.
    { unfold pv_size. rewrite (sbind_run _ _ _ _ _ (isleaf_run _ _ _ Hn Hc)). cbn [is_leaf_node].
      by rewrite (sbind_run _ _ _ _ _ (get_internode_run _ _ _ Hn)). }
    rewrite !(sbind_run _ _ _ _ _ Hsz). destruct (Z.eqb_spec (i_nkeys i + 1) 0) as [He|He]; [lia|].
    assert (0 < i_nkeys i + 1 <= 16) as Hsize by lia.
    rewrite (total_exact npv nbranch branchid (i_nkeys i + 1)) by done. rewrite (first_exact npv nbranch branchid (i_nkeys i + 1)) by done.
    rewrite !(sbind_run _ _ _ _ _ (isleaf_run _ _ _ Hn Hc)). cbn [is_leaf_node negb andb].
    pose proof (pv_offset_mono npv nbranch branchid (i_nkeys i + 1) Hnpv Hnb Hbr Hsize a b Ha Hb) as Hm.
    destruct (Z.ltb_spec (nbranch * (i_nkeys i + 1)) npv) as [Hlt|Hge].
    + rewrite !(sbind_run _ _ _ _ _ (get_internode_run _ _ _ Hn)).
      set (x := clamp _ _). set (y := clamp (pv_offset _ _ _ b _) _).
      assert (0 <= x <= y /\ y <= i_nkeys i) as [Hx Hy] by (subst x y; unfold clamp; lia).
      assert (forall z fuel pvi, 0 <= z <= i_nkeys i ->
        (let* next := mget (i_child i) z in let* hc := Node.has_changed n (node_version (NInternode i)) in
         if negb hc then let* next := deref next in findpv_loop fuel next (nbranch * (i_nkeys i + 1)) (branchid * (i_nkeys i + 1) + z) pvi npv
         else findpv_loop fuel n nbranch branchid pvi npv) s =
        findpv_loop fuel (child (Z.to_nat z)) (nbranch * (i_nkeys i + 1)) (branchid * (i_nkeys i + 1) + z) pvi npv s) as Hdown.
      { intros z fu pvi Hz. pose proof (Hch (Z.to_nat z) ltac:(lia)) as Hcz.
        pose proof (mget_run (i_child i) (Z.to_nat z) _ s Hcz) as Hg. rewrite Z2Nat.id in Hg by lia.
        rewrite (sbind_run _ _ _ _ _ Hg). rewrite (sbind_run _ _ _ _ _ (has_changed_run _ _ _ Hn)). done. }
      rewrite !Hdown by lia. clear Hdown. destruct (decide (x = y)) as [->|Hxy].
      * destruct (IH (Z.to_nat y) ltac:(lia) fuel (nbranch * (i_nkeys i + 1)) (branchid * (i_nkeys i + 1) + y) a b) as (oa & ob & Ra & Rb & Hin & Hle); [lia|nia|nia|done|done|].
        exists oa, ob. split; [done|]. split; [done|]. split; [|done]. intros k Hk. destruct (Hin k Hk) as [Hwi Hwo]. split; [|done].
        eapply within_child; [done| |done]. lia.
      * destruct (IH (Z.to_nat x) ltac:(lia) fuel (nbranch * (i_nkeys i + 1)) (branchid * (i_nkeys i + 1) + x) a a) as (oa & oa' & Ra & _ & Hina & _); [lia|nia|nia|lia|lia|].
        destruct (IH (Z.to_nat y) ltac:(lia) fuel (nbranch * (i_nkeys i + 1)) (branchid * (i_nkeys i + 1) + y) b b) as (ob & ob' & Rb & _ & Hinb & _); [lia|nia|nia|lia|lia|].
        exists oa, ob. split; [done|]. split; [done|]. split.
        -- intros k [Hk|Hk]; [destruct (Hina k (or_introl Hk)) as [Hwi Hwo]|destruct (Hinb k (or_introl Hk)) as [Hwi Hwo]]; (split; [|done]);
             (eapply within_child; [done| |done]); lia.
        -- intros k k' Hk Hk'. apply Z.lt_le_incl. destruct (Hina k (or_introl Hk)) as [Hwa _], (Hinb k' (or_introl Hk')) as [Hwb _].
           eapply (children_disjoint lo hi i (Z.to_nat x) (Z.to_nat y)); [done|lia|lia|done|done].
    + set (x := clamp _ _). set (y := clamp (pv_offset _ _ _ b _) _).
      assert (0 < i_nkeys i) as Hpos by nia.
      assert (0 <= x <= y /\ y < i_nkeys i) as [Hx Hy] by (subst x y; unfold clamp; lia).
      destruct (internode_pivots n i lo hi x y Hn Hi Hx Hy) as (ka & kb & Ra & Rb & Hin).
      exists (Some ka), (Some kb). rewrite (sbind_run _ _ _ _ _ Ra), (sbind_run _ _ _ _ _ Rb).
      by rewrite !(sbind_run _ _ _ _ _ (has_changed_run _ _ _ Hn)).
Qed.
End descent.
End findpivots.

Section table_pivots.
Context {P : nodeparams} (s : mstate) (r0 root : loc) (d : nat) (ls : list (loc * leaf)).
Context (Hlayer : layer_at (Ord := by_key) (m_heap s) r0 d root ls) (Hws : word_slices (m_heap s)).
Context (HW : 3 <= leaf_width <= 15) (HI : internode_width <= 15).

Lemma findpv_run npv a b : 2 <= npv <= 2 ^ 13 -> 0 <= a <= b -> b < npv ->
  exists oa ob, findpv r0 a npv s = Ok (pivot_of oa, s) /\ findpv r0 b npv s = Ok (pivot_of ob, s) /\ pivots_in None None oa ob.
Proof.
  intros Hn Ha Hb. destruct Hlayer as [(k & Hcl & Hk) Ht Hd _].
  destruct (findpv_loop_run s npv Hws HW HI Hn d root None None ls Ht np_fuel 1 0 a b) as (oa & ob & Ra & Rb & Hin); [lia..|].
  exists oa, ob. unfold findpv. rewrite !(sbind_run _ _ _ _ _ (climb_run _ _ _ _ _ Hcl Hk)).
  by rewrite (sbind_run _ _ _ _ _ Ra), (sbind_run _ _ _ _ _ Rb).
Qed.

Lemma findpivots_loop_run npv k i : 3 <= npv <= 2 ^ 13 -> 0 <= i -> i + Z.of_nat k < npv ->
  exists pvs, findpivots_loop k r0 i npv s = Ok (pvs, s) /\ length pvs = k /\
    forall j p, pvs !! j = Some p -> findpv r0 (i + Z.of_nat j) (npv - 1) s = Ok (p, s).
Proof.
  intros Hn. revert i. induction k as [|k IH]; intros i Hi Hk; cbn [findpivots_loop]; [by exists []|].
  destruct (findpv_run (npv - 1) i i ltac:(lia) ltac:(lia) ltac:(lia)) as (o & _ & Hr & _ & _).
  destruct (IH (i + 1) ltac:(lia) ltac:(lia)) as (pvs & Hl & Hlen & Hat). exists (pivot_of o :: pvs).
  rewrite (sbind_run _ _ _ _ _ Hr), (sbind_run _ _ _ _ _ Hl). split; [done|]. split; [by cbn; rewrite Hlen|].
  intros [|j] p; [intros [= <-]; by rewrite Z.add_0_r|]. intros Hp. replace (i + Z.of_nat (S j)) with (i + 1 + Z.of_nat j) by lia. by apply Hat.
Qed.

(** Any two pivots between the ends are in order, where neither is empty. *)
Lemma findpivots_run npv : m_root s = Some r0 -> 2 <= npv <= 2 ^ 13 ->
  exists pvs, findpivots npv s = Ok ([] :: pvs ++ [max_pivot], s) /\ Z.of_nat (length pvs) = npv - 2 /\
    forall i j p q, (i <= j)%nat -> pvs !! i = Some p -> pvs !! j = Some q -> p <> [] -> q <> [] -> String_compare p q <= 0.
Proof.
  intros Hr Hn. assert (exists pvs, findpivots_loop (Z.to_nat (npv - 2)) r0 1 npv s = Ok (pvs, s) /\ length pvs = Z.to_nat (npv - 2) /\
    forall i j p q, (i <= j)%nat -> pvs !! i = Some p -> pvs !! j = Some q -> p <> [] -> q <> [] -> String_compare p q <= 0) as (pvs & Hl & Hlen & Ho).
  { destruct (decide (npv = 2)) as [->|Hn2]; [by exists []|].
    destruct (findpivots_loop_run npv (Z.to_nat (npv - 2)) 1) as (pvs & Hl & Hlen & Hat); [lia..|]. exists pvs. split; [done|]. split; [done|].
    intros i j p q Hij Hi Hj Hp Hq. pose proof (lookup_lt_Some _ _ _ Hj).
    destruct (findpv_run (npv - 1) (1 + Z.of_nat i) (1 + Z.of_nat j) ltac:(lia) ltac:(lia) ltac:(lia)) as (oa & ob & Ra & Rb & Hw & Hle).
    rewrite (Hat i p Hi) in Ra. rewrite (Hat j q Hj) in Rb. injection Ra as ->. injection Rb as ->.
    destruct oa as [ka|], ob as [kb|]; try done. specialize (Hle ka kb eq_refl eq_refl).
    destruct (Hw ka (or_introl eq_refl)) as [_ Hwa], (Hw kb (or_intror eq_refl)) as [_ Hwb].
    pose proof (pivot_compare ka kb Hwa Hwb) as Hc. destruct (compare_sign ka kb) as [[E ?]|[[E ?]|[E ?]]]; rewrite E in Hc; lia. }
  exists pvs. unfold findpivots, table_root, sbind, sm_bind. rewrite Hr. cbn [deref mret sm_ret]. rewrite Hl. cbn. rewrite Hlen. split; [done|]. split; [lia|done].
Qed.
End table_pivots.
