(* ===== verification/CheckpointRanges.v ===== *)
(** * The ranges of a table's keys

    The pivots that [findpivots] takes from a well-formed tree are the bounds that
    the checkpointing threads need, unless one of them is empty. *)

From Stdlib Require Import Sorting.Sorted.
From S2P Require Import Pivots.
From S2P Require Import Namespace KPermuter TrieGet CheckpointFacts.

#[local] Open Scope Z_scope.
#[local] Open Scope lhm_scope.

#[local] Existing Instance np_config.

Lemma max_pivot_good : good_key max_pivot.
Proof. split; [reflexivity|]. unfold max_pivot. apply Forall_replicate. by split. Qed.

Section ranges.
Context {P : nodeparams}.

Lemma pivot_good o : (forall k, o = Some k -> Word.is_word 64 k) -> good_key (pivot_of o).
Proof.
  destruct o as [k|]; intros Hk; [|by split]. destruct (pivot_bytes k (Hk k eq_refl)) as [_ Hl]. split; [unfold int_length; lia|].
  by apply (pivot_string_slice k), Hk.
Qed.
End ranges.

(** ** Properties *)

(** C23: [findpivots] of a well-formed tree, asked for fewer than 2^13 ranges, gives each key to exactly one
    checkpointing thread, or one of the pivots between the ends is empty: then the
    thread before it has no end, and the next one starts at the first key. *)
Theorem pivots_cover {P : nodeparams} s r0 root d ls (n : nat) :
  layer_at (Ord := by_key) (m_heap s) r0 d root ls -> word_slices (m_heap s) -> 3 <= leaf_width <= 15 -> internode_width <= 15 ->
  m_root s = Some r0 -> 1 <= Z.of_nat n < 2 ^ 13 ->
  exists pv, findpivots (Z.of_nat n + 1) s = Ok (pv, s) /\ length pv = S n /\
    ((forall k, exists i, (i < n)%nat /\ in_range (range_of pv n i) k = true /\
        forall j, (j < n)%nat -> in_range (range_of pv n j) k = true -> j = i) \/
     exists i, (0 < i < n)%nat /\ (range_of pv n (i - 1)).2 = [] /\ (range_of pv n i).1 = []).
Proof.
  intros Hlayer Hws HW HI Hroot Hn.
  destruct (findpivots_run s r0 root d ls Hlayer Hws HW HI (Z.of_nat n + 1) Hroot) as (pvs & Hr & Hlen & Hord); [lia|].
  exists ([] :: pvs ++ [max_pivot]). split; [done|]. split; [cbn; rewrite length_app; cbn; lia|].
  set (pv := [] :: pvs ++ [max_pivot]).
  assert (forall i, (0 < i < n)%nat -> exists p, pvs !! (i - 1)%nat = Some p /\ nth i pv [] = p) as Hat.
  { intros [|i] Hi; [lia|]. destruct (lookup_lt_is_Some_2 pvs i ltac:(lia)) as [p Hp]. exists p. cbn [Nat.sub]. rewrite Nat.sub_0_r. split; [done|].
    unfold pv. cbn [nth]. rewrite app_nth1 by lia. by apply nth_lookup_Some. }
  assert ((forall i, (0 < i < n)%nat -> nth i pv [] <> []) \/ exists i, (0 < i < n)%nat /\ nth i pv [] = []) as [Hne|(i & Hi & He)].
  { clear. induction n as [|m [IH|(i & Hi & He)]].
    - left. lia.
    - destruct (decide (0 < m)%nat) as [Hm|]; [|left; intros; lia]. destruct (decide (nth m pv [] = [])) as [E|E]; [right; exists m; split; [lia|done]|].
      left. intros i Hi. destruct (decide (i = m)) as [->|]; [done|apply IH; lia].
    - right. exists i. split; [lia|done]. }
  - left. apply range_owner; [lia|]. split; [done|]. intros i j Hij Hj. split; [apply Hne; lia|]. split; [apply Hne; lia|].
    destruct (Hat i ltac:(lia)) as (p & Hp & Ep), (Hat j ltac:(lia)) as (q & Hq & Eq). rewrite Ep, Eq. apply Z.leb_le.
    apply (Hord (i - 1)%nat (j - 1)%nat); [lia|done|done|rewrite <- Ep; apply Hne; lia|rewrite <- Eq; apply Hne; lia].
  - right. exists i. split; [done|]. unfold range_of. cbn [fst snd]. replace (S (i - 1)) with i by lia. split; [|done]. by case_bool_decide.
Qed.

(** ** On tables of a few keys *)

Section witness.
#[local] Existing Instance x86_config.
#[local] Instance fuel : Fuel := 60%nat.

Lemma layers_words : word_slices (m_heap two_layers).
Proof.
  split.
  - intros n l Hn. cbn in Hn. apply lookup_insert_Some in Hn as [[<- [= <-]]|[_ Hn]]; [|apply lookup_insert_Some in Hn as [[<- [= <-]]|[_ Hn]]; [|by rewrite lookup_empty in Hn]].
    all: unfold Word.is_word; refine (bool_decide_unpack _ _); vm_compute; exact I.
  - intros n i Hn. cbn in Hn. apply lookup_insert_Some in Hn as [[<- ?]|[_ Hn]]; [done|apply lookup_insert_Some in Hn as [[<- ?]|[_ Hn]]; [done|by rewrite lookup_empty in Hn]].
Qed.

Lemma upper_layer : layer_at (Ord := by_key) (m_heap two_layers) 1%positive 0 1%positive [(1%positive, upper_leaf)].
Proof.
  apply one_leaf_layer; try done.
  - split; [by split|]. by apply (make_sorted_wf 7).
  - constructor; [repeat constructor|]. constructor; [|done]. left. by vm_compute.
Qed.

Lemma pivots_cover_witness : exists pv, findpivots (Z.of_nat 2 + 1) two_layers = Ok (pv, two_layers) /\ length pv = 3%nat /\
  ((forall k, exists i, (i < 2)%nat /\ in_range (range_of pv 2 i) k = true /\
      forall j, (j < 2)%nat -> in_range (range_of pv 2 j) k = true -> j = i) \/
   exists i, (0 < i < 2)%nat /\ (range_of pv 2 (i - 1)).2 = [] /\ (range_of pv 2 i).1 = []).
Proof.
  apply (pivots_cover two_layers 1%positive 1%positive 0 [(1%positive, upper_leaf)] 2).
  - exact upper_layer.
  - exact layers_words.
  - vm_compute. split; discriminate.
  - vm_compute. discriminate.
  - reflexivity.
  - vm_compute. split; [discriminate|reflexivity].
Defined.

(** The pivot of two threads is in the middle of the root leaf. *)
Lemma two_layers_pivots : findpivots 3 two_layers = Ok ([[]; take 8 key_long; max_pivot], two_layers).
Proof. vm_compute. reflexivity. Qed.

(** Keys of null characters have the slice zero, which is an empty pivot. *)
Definition null_keys : mstate :=
  MState {[1%positive := NLeaf (one_leaf [0; 2] [0; 0] [lv_value first_value; lv_value second_value])]} 2 [] [] (Some 1%positive).
Lemma null_keys_pivots : findpivots 3 null_keys = Ok ([[]; []; max_pivot], null_keys).
Proof. vm_compute. reflexivity. Qed.
End witness.
