(* ===== verification/LayerInsert.v ===== *)
(** * Inserting a layer slot into a leaf with room

    The locked edge search, the preparation of a slot and its publication,
    composed as [attach_existing_layer] and the directory creation compose them:
    on a leaf with room they add one item to the layer's map. *)

From stdpp Require Import sorting.
From S2P Require Export LayerEdge.
From S2P Require Import NodeVersion KPermuter SplitFacts.

#[local] Open Scope Z_scope.
#[local] Open Scope lhm_scope.

#[local] Existing Instance np_config.

Section layer_insert.
Context {P : nodeparams} `{HP : !ParamsOk nodeversion_type}.

Abbreviation NV := nodeversion_type.
Abbreviation LW := leaf_width.

(** ** Writing nodes *)

(** The state with a node written. *)
Definition wr (n : loc) (nd : node) (s : mstate) : mstate := set_heap (<[n := nd]> (m_heap s)) s.

Lemma wr_at n nd s : m_heap (wr n nd s) !! n = Some nd.
Proof. apply lookup_insert_eq. Qed.
Lemma wr_other n m nd s : m <> n -> m_heap (wr n nd s) !! m = m_heap s !! m.
Proof. intros. by apply lookup_insert_ne. Qed.
Lemma wr_wr n a b s : wr n a (wr n b s) = wr n a s.
Proof. unfold wr, set_heap. cbn. by rewrite insert_insert_eq. Qed.

Lemma upd_leaf_run n f l s :
  m_heap s !! n = Some (NLeaf l) -> upd_leaf n f s = Ok (tt, wr n (NLeaf (f l)) s).
Proof. intros H. unfold upd_leaf. by rewrite (sbind_run _ _ _ _ _ (get_leaf_run _ _ _ H)). Qed.

Lemma upd_leaf_res_run n f l l' s :
  m_heap s !! n = Some (NLeaf l) -> f l = Ok l' -> upd_leaf_res n f s = Ok (tt, wr n (NLeaf l') s).
Proof.
  intros H Hf. unfold upd_leaf_res. rewrite (sbind_run _ _ _ _ _ (get_leaf_run _ _ _ H)).
  by rewrite (sbind_run _ _ _ _ _ (lift_run _ _ _ Hf)).
Qed.

Lemma upd_version_run n f nd s :
  m_heap s !! n = Some nd ->
  upd_version n f s = Ok (tt, wr n (set_node_version (f (node_version nd)) nd) s).
Proof. intros H. unfold upd_version. by rewrite (sbind_run _ _ _ _ _ (get_node_run _ _ _ H)). Qed.

Lemma upd_locked_run n f nd s :
  m_heap s !! n = Some nd -> NodeVersion.locked NV (node_version nd) = true ->
  upd_locked n f s = Ok (tt, wr n (set_node_version (f (node_version nd)) nd) s).
Proof.
  intros H Hl. unfold upd_locked, Node.locked. rewrite sbind_assoc.
  rewrite (sbind_run _ _ _ _ _ (version_run _ _ _ H)), sbind_ret, Hl. by apply upd_version_run.
Qed.

(** ** Version words *)

(** A word at rest: well formed, unlocked and clean. *)
Record at_rest (v : Z) : Prop := {
  ar_ok : version_ok NV v;
  ar_unlocked : NodeVersion.locked NV v = false;
  ar_clean : is_dirty NV v = false
}.

Definition lock_word (v : Z) : Z := Z.lor v (lock_bit NV).

Lemma lock_word_testbit v n :
  0 <= n -> Z.testbit (lock_word v) n = Z.testbit v n || (n =? lock_pos NV).
Proof using HP.
  intros Hn. destruct HP. unfold lock_word, lock_bit. by rewrite Z.lor_spec, shiftl1_testbit by lia.
Qed.

Lemma lock_word_spec v :
  at_rest v ->
  NodeVersion.lock NV v v = Some (lock_word v) /\ version_ok NV (lock_word v) /\
  NodeVersion.locked NV (lock_word v) = true /\ is_dirty NV (lock_word v) = false /\
  NodeVersion.has_changed NV (lock_word v) v = false.
Proof using HP.
  intros [Hok Hl Hd]. assert (try_cas_lock NV v v = Some (lock_word v)) as Ht.
  { unfold try_cas_lock. by rewrite Hl, Z.eqb_refl. }
  destruct (Protocol.try_cas_lock_spec NV _ _ Hok Ht) as (_ & Hok' & Hl' & _ & Hd').
  split; [unfold NodeVersion.lock; by rewrite Ht|]. split; [done|]. split; [done|]. split; [congruence|].
  unfold NodeVersion.has_changed. rewrite Z.gtb_ltb. apply Z.ltb_ge.
  replace (Z.lxor v (lock_word v)) with (lock_bit NV); [done|]. apply Z.bits_inj'. intros n Hn.
  destruct HP. rewrite Z.lxor_spec, lock_word_testbit by lia. unfold lock_bit. rewrite shiftl1_testbit by lia.
  destruct (Z.eqb_spec n (lock_pos NV)) as [->|].
  - rewrite locked_bit in Hl by done. by rewrite Hl.
  - by rewrite orb_false_r, xorb_nilpotent.
Qed.

(** Unlocking a word keeps the flags unless it was split. *)
Lemma unlock_word_spec v :
  version_ok NV v -> NodeVersion.splitting NV v = false ->
  at_rest (NodeVersion.unlock NV v) /\
  NodeVersion.deleted NV (NodeVersion.unlock NV v) = NodeVersion.deleted NV v /\
  NodeVersion.is_root NV (NodeVersion.unlock NV v) = NodeVersion.is_root NV v /\
  NodeVersion.isleaf NV (NodeVersion.unlock NV v) = NodeVersion.isleaf NV v.
Proof using HP.
  intros Hok Hs. destruct (Protocol.unlock_clean NV v Hok) as [Hl Hc].
  split; [split; [by apply unlock_ok|done|done]|].
  pose proof HP as [? ? ?]. rewrite !deleted_testbit, !is_root_testbit, !isleaf_testbit by done.
  assert (forall n, vwidth NV - 4 < n < vwidth NV ->
    Z.testbit (NodeVersion.unlock NV v) n = Z.testbit v n) as Hbit.
  { intros n Hn. rewrite unlock_testbit by (done || lia). rewrite Hs. cbn [andb negb].
    assert (unlock_pos NV v <= n) by (unfold unlock_pos; case_match; lia).
    destruct (Z.leb_spec (unlock_pos NV v) n), (Z.eqb_spec n (vwidth NV - 4)), (Z.ltb_spec n (vwidth NV)); try lia.
    cbn. apply unlock_add_high; (done || lia). }
  split; [apply Hbit; lia|]. split; apply Hbit; lia.
Qed.

(** ** The locked search *)

Definition lock_leaf (l : leaf) : leaf := set_l_version (lock_word (l_version l)) l.

Lemma lock_run n l s :
  m_heap s !! n = Some (NLeaf l) -> at_rest (l_version l) ->
  Node.lock n (l_version l) s = Ok (tt, wr n (NLeaf (lock_leaf l)) s).
Proof using HP.
  intros H Hr. destruct (lock_word_spec _ Hr) as (Hl & _).
  unfold Node.lock. rewrite (sbind_run _ _ _ _ _ (version_run _ _ _ H)). cbn [node_version]. rewrite Hl.
  rewrite (ar_clean _ Hr). cbn [negb]. rewrite (mbind_run _ _ _ _ _ (check_true true s eq_refl)).
  by rewrite (upd_version_run _ _ _ _ H).
Qed.

(** The state the edge searches give a cursor. *)
Definition found_state (found : option item) : Z :=
  match found with Some e => edge_state e | None => 0 end.

Lemma find_locked_edge_run s r0 d root ls ka :
  1 <= LW <= 15 -> edge_layer (m_heap s) r0 d root ls -> k_len ka = ikey_size ->
  (forall n l, (n, l) ∈ ls -> at_rest (l_version l)) ->
  let found := layer_map ls !! k_ikey ka in
  exists n l kx, leaf_for (m_heap s) d root None None ls (k_ikey ka) n l /\
    edge_found l (k_ikey ka) found kx /\
    find_locked_edge (make_tcursor r0 ka) s =
      Ok ((negb (found_state found =? 0), TCursor n ka kx r0 (found_state found) r0 0 0 []),
          wr n (NLeaf (lock_leaf l)) s).
Proof using HP.
  intros HW He Hlen Hrest found.
  destruct (edge_layer_search s r0 d root ls ka HW He Hlen) as (n & l & kx & Hreach & Hl & Hlow & Hf).
  fold found in Hf. exists n, l, kx. split; [done|]. split; [done|].
  pose proof (lfor_at _ _ _ _ _ _ _ _ _ Hl) as Hat. pose proof (lfor_calm _ _ _ _ _ _ _ _ _ Hl) as Hc.
  pose proof (Hrest n l (lfor_in _ _ _ _ _ _ _ _ _ Hl)) as Hr.
  destruct (lock_word_spec _ Hr) as (_ & _ & _ & _ & Hch).
  assert (forall fuel, find_locked_edge_loop (S fuel) r0 None (make_tcursor r0 ka) s =
    Ok (TCursor n ka kx r0 (found_state found) r0 0 0 [], wr n (NLeaf (lock_leaf l)) s)) as Hloop.
  { intros fuel. cbn [find_locked_edge_loop]. unfold make_tcursor at 1. cbn [tc_ka].
    rewrite (sbind_run _ _ _ _ _ Hreach). change (l_version l) with (node_version (NLeaf l)) at 1.
    rewrite (nc_deleted _ Hc), (sbind_run _ _ _ _ _ (get_leaf_run _ _ _ Hat)).
    rewrite (sbind_run _ _ _ _ _ (lift_run _ _ _ Hlow)).
    assert ((if 0 <=? kp_p kx then lift (ksuf_matches l (kp_p kx) ka) else mret 0) s =
      Ok (found_state found, s)) as Hst.
    { destruct found as [e|].
      - destruct (edge_found_slot l _ e kx (lfor_ok _ _ _ _ _ _ _ _ _ Hl) Hf) as (Hp & Hs & _).
        pose proof (edge_found_edge _ _ _ _ _ _ _ _ _ (el_items _ _ _ _ _ He) Hl Hf) as Hedge.
        rewrite <- Hs in Hedge. rewrite (proj2 (Z.leb_le 0 (kp_p kx))) by lia.
        rewrite (lift_run _ _ _ (ksuf_matches_edge ka l _ Hedge)). by rewrite Hs.
      - by rewrite (ef_pos _ _ _ _ Hf). }
    rewrite (sbind_run _ _ _ _ _ Hst), (mbind_run _ _ _ _ _ (lock_run _ _ _ Hat Hr)).
    unfold Node.has_changed. rewrite sbind_assoc, (sbind_run _ _ _ _ _ (version_run _ _ _ (wr_at _ _ _))), sbind_ret.
    rewrite (sbind_run _ _ _ _ _ (get_leaf_run _ _ _ (wr_at _ _ _))).
    cbn [node_version lock_leaf l_version l_permutation set_l_version]. rewrite Hch, Z.eqb_refl. cbn [negb orb].
    change (deleted_layer (lock_leaf l)) with (deleted_layer l).
    by rewrite (lfor_live _ _ _ _ _ _ _ _ _ Hl). }
  unfold find_locked_edge. pose proof (la_depth _ _ _ _ _ (el_at _ _ _ _ _ He)) as Hd.
  destruct np_fuel as [|fuel]; [lia|]. cbn [tc_root make_tcursor].
  by rewrite (sbind_run _ _ _ _ _ (Hloop fuel)).
Qed.

(** ** Preparing a slot *)

(** The leaf can take the slice [k] without a split. *)
Record has_room (l : leaf) (k : Z) : Prop := {
  hr_size : leaf_size l < LW;
  hr_slot : KPermuter.back LW (l_permutation l) <> 0 \/ l_prev l = None \/ ikey_bound l = k;
  hr_state : l_modstate l = modstate_insert \/ l_modstate l = modstate_remove
}.

Definition enter_leaf (l : leaf) : leaf :=
  if negb (l_modstate l =? modstate_insert)
  then set_l_modstate modstate_insert (set_l_version (NodeVersion.mark_insert NV (l_version l)) l)
  else l.

Lemma enter_insert_run n l s :
  m_heap s !! n = Some (NLeaf l) -> NodeVersion.locked NV (l_version l) = true ->
  l_modstate l = modstate_insert \/ l_modstate l = modstate_remove ->
  enter_insert_state n s = Ok (tt, wr n (NLeaf (enter_leaf l)) s).
Proof.
  intros H Hl Hm. unfold enter_insert_state, enter_leaf.
  rewrite (sbind_run _ _ _ _ _ (get_leaf_run _ _ _ H)).
  destruct (Z.eqb_spec (l_modstate l) modstate_insert) as [He|He]; cbn [negb].
  - unfold wr, set_heap. rewrite insert_id by done. by destruct s.
  - destruct Hm as [Hm|Hm]; [done|]. rewrite Hm. cbn [Z.eqb modstate_remove Pos.eqb].
    rewrite (mbind_run _ _ _ _ _ (check_true true s eq_refl)).
    rewrite (mbind_run _ _ _ _ _ (upd_locked_run n (NodeVersion.mark_insert NV) (NLeaf l) s H Hl : Node.mark_insert n s = _)).
    cbn [set_node_version node_version]. by rewrite (upd_leaf_run _ _ _ _ (wr_at _ _ _)), wr_wr.
Qed.

Lemma full_version_run n l s :
  m_heap s !! n = Some (NLeaf l) ->
  full_unlocked_version_value n s = Ok (leaf_full_unlocked_version_value l, s).
Proof. intros H. unfold full_unlocked_version_value. by rewrite (sbind_run _ _ _ _ _ (get_leaf_run _ _ _ H)). Qed.

Lemma back_range l : leaf_ok l -> 1 <= LW <= 15 -> 0 <= KPermuter.back LW (l_permutation l) < LW.
Proof. intros Hl HW. apply perm_get_range; [done|lia]. Qed.

Lemma assign_slot_run n l ka i s c :
  m_heap s !! n = Some (NLeaf l) -> leaf_ok l -> 1 <= LW <= 15 -> has_suffix ka = false ->
  leaf_size l < LW ->
  KPermuter.back LW (l_permutation l) <> 0 \/ l_prev l = None \/ ikey_bound l = k_ikey ka ->
  tc_n c = n -> tc_ka c = ka -> kp_i (tc_kx c) = i ->
  exists l', slot_written l l' (KPermuter.back LW (l_permutation l)) (key_item ka) /\
    assign_or_split c s =
      Ok ((false, set_tc_kx (KPos i (KPermuter.back LW (l_permutation l))) c), wr n (NLeaf l') s).
Proof.
  intros H Hl HW Hsuf Hsz Hslot Hn Hka Hi. pose proof (back_range l Hl HW) as Hb.
  destruct (leaf_assign_gen_total false l (KPermuter.back LW (l_permutation l)) ka (lo_arrays _ Hl) Hb Hsuf)
    as [l' Hl'].
  exists l'. split; [by eapply leaf_assign_gen_written, Hl'; apply Hl|].
  unfold assign_or_split. rewrite Hn, (sbind_run _ _ _ _ _ (get_leaf_run _ _ _ H)).
  rewrite (proj2 (Z.ltb_lt _ _)) by done.
  set (p := KPermuter.back LW (l_permutation l)) in *.
  assert (negb (p =? 0) || negb (parent_exists (l_prev l)) || (ikey_bound l =? k_ikey ka) = true) as Hcond.
  { destruct Hslot as [Hp|[->|Hk]].
    - destruct (Z.eqb_spec p 0); [lia|done].
    - by rewrite orb_true_r.
    - rewrite Hk, Z.eqb_refl. apply orb_true_r. }
  cbn [tc_n tc_ka tc_kx set_tc_kx]. rewrite Hka, Hcond, Hi.
  by rewrite (mbind_run _ _ _ _ _ (upd_leaf_res_run _ _ _ _ _ H Hl')).
Qed.

(** The locked leaf enters the insert state and takes the key in its back slot. *)
Lemma enter_assign_run s n l ka i c :
  m_heap s !! n = Some (NLeaf l) -> leaf_ok l -> at_rest (l_version l) -> 1 <= LW <= 15 ->
  has_suffix ka = false -> has_room l (k_ikey ka) ->
  tc_n c = n -> tc_ka c = ka -> kp_i (tc_kx c) = i ->
  exists l1, slot_written (enter_leaf (lock_leaf l)) l1 (KPermuter.back LW (l_permutation l)) (key_item ka) /\
    (enter_insert_state n ;; assign_or_split c) (wr n (NLeaf (lock_leaf l)) s) =
      Ok ((false, set_tc_kx (KPos i (KPermuter.back LW (l_permutation l))) c), wr n (NLeaf l1) s).
Proof using HP.
  intros Hat Hok Hrs HW Hsuf Hr Hn Hka Hi. destruct (lock_word_spec _ Hrs) as (_ & _ & Hlk & _ & _).
  set (l0 := enter_leaf (lock_leaf l)).
  assert (leaf_ok l0 /\ l_permutation l0 = l_permutation l /\ l_prev l0 = l_prev l /\ ikey_bound l0 = ikey_bound l)
    as (Hok0 & Hperm0 & Hprev0 & Hbound0).
  { destruct Hok as [[? ? ?] ?]. unfold l0, enter_leaf.
    case_match; (split; [split; [by split|done]|done]). }
  destruct (assign_slot_run n l0 ka i (wr n (NLeaf l0) s) c) as (l1 & Hw & Hassign);
    [apply wr_at|done|done|done|..|done|done|done|].
  - unfold leaf_size. rewrite Hperm0. apply Hr.
  - rewrite Hperm0, Hprev0, Hbound0. apply Hr.
  - rewrite Hperm0 in Hw, Hassign. rewrite wr_wr in Hassign. exists l1. split; [done|].
    rewrite (mbind_run _ _ _ _ _ (enter_insert_run n (lock_leaf l) _ (wr_at _ _ _) Hlk (hr_state _ _ Hr))), wr_wr.
    exact Hassign.
Qed.

(** The prepared leaf: locked, in the insert state, with the key in the slot. *)
Lemma prepare_slot_run s r0 d root ls ka :
  1 <= LW <= 15 -> edge_layer (m_heap s) r0 d root ls -> k_len ka = ikey_size ->
  (forall n l, (n, l) ∈ ls -> at_rest (l_version l)) -> layer_map ls !! k_ikey ka = None ->
  (forall n l, leaf_for (m_heap s) d root None None ls (k_ikey ka) n l -> has_room l (k_ikey ka)) ->
  exists n l kx l1 c, leaf_for (m_heap s) d root None None ls (k_ikey ka) n l /\
    edge_found l (k_ikey ka) None kx /\ has_room l (k_ikey ka) /\
    slot_written (enter_leaf (lock_leaf l)) l1 (KPermuter.back LW (l_permutation l)) (key_item ka) /\
    prepare_slot (make_tcursor r0 ka) s = Ok (slot_ready c, wr n (NLeaf l1) s) /\
    tc_n c = n /\ tc_kx c = KPos (kp_i kx) (KPermuter.back LW (l_permutation l)).
Proof using HP.
  intros HW He Hlen Hrest Hnone Hroom.
  destruct (find_locked_edge_run s r0 d root ls ka HW He Hlen Hrest) as (n & l & kx & Hl & Hf & Hrun).
  rewrite Hnone in Hf, Hrun. pose proof (Hroom n l Hl) as Hr.
  pose proof (Hrest n l (lfor_in _ _ _ _ _ _ _ _ _ Hl)) as Hat.
  set (c0 := set_tc_state 2 (set_tc_original n (leaf_full_unlocked_version_value (lock_leaf l))
    (TCursor n ka kx r0 0 r0 0 0 []))).
  destruct (enter_assign_run s n l ka (kp_i kx) c0 (lfor_at _ _ _ _ _ _ _ _ _ Hl) (lfor_ok _ _ _ _ _ _ _ _ _ Hl) Hat HW)
    as (l1 & Hw & Hassign); [unfold has_suffix; by rewrite Hlen|done..|].
  exists n, l, kx, l1. eexists. split; [exact Hl|]. split; [exact Hf|]. split; [exact Hr|]. split; [exact Hw|]. split.
  - unfold prepare_slot. rewrite (sbind_run _ _ _ _ _ Hrun). cbn [snd tc_n].
    rewrite (sbind_run _ _ _ _ _ (full_version_run _ _ _ (wr_at _ _ _))).
    cbn [tc_state set_tc_original found_state Z.eqb negb]. fold c0.
    rewrite <- sbind_mbind, (sbind_run _ _ _ _ _ Hassign). reflexivity.
  - done.
Qed.

(** ** Publishing a layer slot *)

(** The leaf when its slot [p] has the length code [c] and the value [lv] and
    has been published at rank [i]. *)
Definition published (l : leaf) (p i c : Z) (lv : leafvalue) : leaf :=
  set_l_version (NodeVersion.unlock NV (l_version l))
    (set_l_permutation (fst (insert_from_back LW (l_permutation l) i))
      (set_l_keylenx (<[Z.to_nat p := c]> (l_keylenx l))
        (set_l_lv (<[Z.to_nat p := lv]> (l_lv l)) l))).

Lemma publish_layer_run n l c i root s :
  let p := KPermuter.back LW (l_permutation l) in
  m_heap s !! n = Some (NLeaf l) -> arrays_ok l -> NodeVersion.locked NV (l_version l) = true ->
  0 <= p < LW -> tc_n c = n -> tc_kx c = KPos i p ->
  exists c', publish_layer c root s = Ok (c', wr n (NLeaf (published l p i layer_keylenx (lv_layer root))) s).
Proof.
  intros p H [A1 A2 A3] Hlk Hp Hn Hkx. unfold publish_layer. rewrite Hn, Hkx. cbn [kp_p].
  assert (leaf_set_lv l p (lv_layer root) = Ok (set_l_lv (<[Z.to_nat p := lv_layer root]> (l_lv l)) l)) as E1.
  { unfold leaf_set_lv. by rewrite aset_total by lia. }
  rewrite (mbind_run _ _ _ _ _ (upd_leaf_res_run n _ _ _ s H E1)).
  set (l1 := set_l_lv (<[Z.to_nat p := lv_layer root]> (l_lv l)) l).
  assert (leaf_set_keylenx l1 p layer_keylenx =
    Ok (set_l_keylenx (<[Z.to_nat p := layer_keylenx]> (l_keylenx l)) l1)) as E2.
  { unfold leaf_set_keylenx. cbn [l_keylenx l1 set_l_lv]. by rewrite aset_total by lia. }
  rewrite (mbind_run _ _ _ _ _ (upd_leaf_res_run n _ _ _ _ (wr_at _ _ _) E2)), wr_wr.
  set (l2 := set_l_keylenx _ l1).
  assert (finish_insert c (wr n (NLeaf l2) s) = Ok (tt, wr n (NLeaf (set_l_permutation
    (fst (insert_from_back LW (l_permutation l) i)) l2)) s)) as E3.
  { unfold finish_insert. rewrite Hn, Hkx, (sbind_run _ _ _ _ _ (get_leaf_run _ _ _ (wr_at _ _ _))).
    cbn [kp_p kp_i]. change (l_permutation l2) with (l_permutation l). fold p. rewrite Z.eqb_refl.
    rewrite (mbind_run _ _ _ _ _ (check_true true _ eq_refl)).
    by rewrite (upd_leaf_run _ _ _ _ (wr_at _ _ _)), wr_wr. }
  rewrite (mbind_run _ _ _ _ _ E3). unfold finish_unlock. rewrite Hn.
  set (l3 := set_l_permutation _ l2).
  rewrite (sbind_run _ _ _ _ _ (full_version_run _ _ _ (wr_at n (NLeaf l3) s))).
  rewrite (mbind_run _ _ _ _ _ (upd_locked_run n (NodeVersion.unlock NV) (NLeaf l3) _ (wr_at _ _ _) Hlk : Node.unlock n _ = _)).
  rewrite wr_wr. by eexists.
Qed.

Lemma back_not_active l :
  leaf_ok l -> 1 <= LW <= 15 -> leaf_size l < LW ->
  KPermuter.back LW (l_permutation l) ∉ KPermuter.active LW (l_permutation l).
Proof.
  intros [_ Hwf] HW Hsz Hin. pose proof (wf_NoDup LW _ Hwf) as Hnd.
  rewrite (elems_split_back LW HW) in Hnd. apply NoDup_app in Hnd as (_ & Hnd & _).
  unfold leaf_size in Hsz. apply (Hnd (KPermuter.back LW (l_permutation l))); [|by apply list_elem_of_singleton].
  unfold KPermuter.active in Hin. apply list_elem_of_lookup in Hin as (j & Hj).
  apply lookup_take_Some in Hj as [Hj Hlt]. apply (list_elem_of_lookup_2 _ j).
  rewrite lookup_take_lt by lia. done.
Qed.

Lemma sorted_insert_at (xs : list Z) i k :
  StronglySorted Z.lt xs -> (forall j x, xs !! j = Some x -> (j < i)%nat -> x < k) ->
  (forall j x, xs !! j = Some x -> (i <= j)%nat -> k < x) ->
  StronglySorted Z.lt (insert_at i k xs).
Proof.
  intros Hs Hlo Hhi. unfold insert_at. rewrite <- (take_drop i xs) in Hs.
  assert (StronglySorted Z.lt (take i xs) /\ StronglySorted Z.lt (drop i xs)) as [H1 H2].
  { split; [by eapply StronglySorted_app_1_l|by eapply StronglySorted_app_1_r]. }
  assert (Forall (Z.lt k) (drop i xs)) as Hk.
  { apply Forall_forall. intros x (j & Hj)%list_elem_of_lookup. rewrite lookup_drop in Hj.
    apply (Hhi (i + j)%nat); [done|lia]. }
  apply sorted_app; [done|by constructor|].
  intros x y (j & Hj)%list_elem_of_lookup [->|Hy]%elem_of_cons; apply lookup_take_Some in Hj as [Hj Hji].
  - by apply (Hlo j).
  - rewrite Forall_forall in Hk. specialize (Hk y Hy). specialize (Hlo j x Hj Hji). lia.
Qed.

(** ** The leaf after an insertion *)

Section published.
Context (l l1 : leaf) (k i c : Z) (lv : leafvalue) (ka : key).
Context (HW : 1 <= LW <= 15) (Hl : leaf_ok l) (Hsz : leaf_size l < LW) (Hi : 0 <= i <= leaf_size l).
Abbreviation p := (KPermuter.back LW (l_permutation l)).
Context (Hw : slot_written (enter_leaf (lock_leaf l)) l1 p (key_item ka)) (Hk : k_ikey ka = k).

Abbreviation new_item := (Item k c lv).
Abbreviation l3 := (published l1 p i c lv).

Lemma entered_permutation : l_permutation l1 = l_permutation l.
Proof using Hw. rewrite (lf_permutation _ _ (sw_frame _ _ _ _ Hw)). unfold enter_leaf. by case_match. Qed.

Lemma entered_slot s : slot_item (enter_leaf (lock_leaf l)) s = slot_item l s.
Proof. unfold enter_leaf. by case_match. Qed.

Lemma published_ok : leaf_ok l3.
Proof using Hl Hsz Hi Hw HW.
  destruct (sw_arrays _ _ _ _ Hw) as [A1 A2 A3]. split.
  - split; cbn; rewrite ?length_insert; done.
  - cbn. rewrite entered_permutation. replace i with (Z.of_nat (Z.to_nat i)) by lia.
    unfold leaf_size in *. apply insert_from_back_wf; [done|apply Hl|lia|done].
Qed.

Lemma published_slot s :
  0 <= s < LW -> slot_item l3 s = if s =? p then new_item else slot_item l s.
Proof using Hl Hw HW Hk.
  intros Hs. pose proof (back_range l Hl HW) as Hp. destruct (sw_arrays _ _ _ _ Hw) as [A1 A2 A3].
  pose proof (sw_at _ _ _ _ Hw) as Hat.
  assert (slot_item l3 s = Item (leaf_ikey l1 s)
    (nthZ 0 (<[Z.to_nat p := c]> (l_keylenx l1)) s)
    (nth (Z.to_nat s) (<[Z.to_nat p := lv]> (l_lv l1)) lv_make_empty)) as -> by done.
  rewrite nthZ_insert, nth_insert by lia. destruct (Z.eqb_spec s p) as [->|Hne].
  - f_equal. apply (f_equal it_ikey) in Hat. cbn in Hat. by rewrite Hat.
  - rewrite <- entered_slot, <- (sw_other _ _ _ _ Hw) by (done || lia). done.
Qed.

Lemma published_items : leaf_items l3 = insert_at (Z.to_nat i) new_item (leaf_items l).
Proof using Hl Hsz Hi Hw HW Hk.
  unfold leaf_items. cbn [l_permutation published set_l_version set_l_permutation].
  rewrite entered_permutation.
  assert (KPermuter.active LW (fst (insert_from_back LW (l_permutation l) i)) =
    take (Z.to_nat i) (KPermuter.active LW (l_permutation l)) ++
      p :: drop (Z.to_nat i) (KPermuter.active LW (l_permutation l))) as ->.
  { unfold leaf_size in *. replace i with (Z.of_nat (Z.to_nat i)) at 1 by lia.
    apply insert_from_back_active; (done || lia). }
  unfold insert_at. rewrite fmap_app, fmap_cons, !fmap_take, !fmap_drop.
  pose proof (back_range l Hl HW) as Hp.
  assert (slot_item l3 <$> KPermuter.active LW (l_permutation l) = slot_item l <$> KPermuter.active LW (l_permutation l)) as ->.
  { apply list_fmap_ext. intros j s Hs. apply list_elem_of_lookup_2 in Hs as Hin.
    assert (0 <= s < LW) as Hr.
    { destruct Hl as [_ [_ Hperm]]. assert (s ∈ KPermuter.elems LW (l_permutation l)) as He.
      { unfold KPermuter.active in Hs. apply lookup_take_Some in Hs as [Hs _]. by apply list_elem_of_lookup_2 in Hs. }
      rewrite Hperm in He. apply elem_of_seqZ in He. lia. }
    rewrite published_slot by done. destruct (Z.eqb_spec s p) as [->|]; [|done].
    by destruct (back_not_active l Hl HW Hsz). }
  rewrite published_slot, Z.eqb_refl by done. done.
Qed.

Lemma published_fits lo hi kx :
  leaf_fits lo hi l -> within lo hi k -> edge_found l k None kx -> kp_i kx = i ->
  l_modstate l = modstate_insert \/ l_modstate l = modstate_remove -> leaf_fits lo hi l3.
Proof using Hl Hsz Hi Hw HW Hk.
  intros [_ _ Hs Hwi] Hin Hf Hkx Hm. split.
  - apply published_ok.
  - change (deleted_layer l3) with (deleted_layer l1). unfold deleted_layer.
    rewrite (lf_modstate _ _ (sw_frame _ _ _ _ Hw)). unfold enter_leaf.
    change (l_modstate (lock_leaf l)) with (l_modstate l).
    destruct Hm as [Hm|Hm]; rewrite Hm; cbn; rewrite ?Hm; done.
  - change (ikeys_sorted (leaf_items l3)). unfold ikeys_sorted. rewrite published_items. unfold insert_at.
    rewrite fmap_app, fmap_cons, fmap_take, fmap_drop. cbn [it_ikey].
    change (take ?a ?xs ++ k :: drop ?a ?xs) with (insert_at a k xs).
    destruct Hf as [Hr Hb Ha _]. rewrite Hkx in *.
    assert (forall j x, (it_ikey <$> leaf_items l) !! j = Some x ->
      x = rank_ikey l (Z.of_nat j) /\ Z.of_nat j < leaf_size l) as Hget.
    { intros j x Hj. pose proof (lookup_lt_Some _ _ _ Hj) as Hlt.
      rewrite length_fmap in Hlt. pose proof (length_leaf_items l Hl HW).
      rewrite list_lookup_fmap, leaf_items_lookup in Hj by (done || lia). cbn in Hj. injection Hj as <-.
      split; [done|lia]. }
    apply sorted_insert_at; [done|..]; intros j x Hj Hji; destruct (Hget j x Hj) as [-> Hlt].
    + apply Hb. lia.
    + apply Ha; [lia|done].
  - rewrite published_items. unfold insert_at. apply Forall_app. split; [by apply Forall_take|].
    constructor; [done|]. by apply Forall_drop.
Qed.
End published.

(** ** The layer after an insertion *)

Lemma climbs_update h h' x l l' a b k :
  leaf_update h h' x l l' -> climbs h a b k -> climbs h' a b k.
Proof.
  intros Hu. induction 1 as [n nd Hn Hc Hr|n nd p m k Hn Hc Hr Hp _ IH];
    destruct (leaf_update_node _ _ _ _ _ _ _ Hu Hn Hc) as (nd' & Hn' & [? Hp' ? Hr' Hc']).
  - eapply climbs_root; [done|done|congruence].
  - eapply climbs_parent; [done|done|congruence| |done]. congruence.
Qed.

Lemma insert_items_map es i e :
  ikeys_sorted es -> ikeys_sorted (insert_at i e es) ->
  items_map (insert_at i e es) = <[it_ikey e := e]> (items_map es).
Proof.
  intros Hs Hs'. apply map_eq. intros k. apply option_eq. intros x.
  rewrite items_map_lookup by done. rewrite lookup_insert_Some, items_map_lookup by done.
  assert (forall y, y ∈ insert_at i e es <-> y = e \/ y ∈ es) as Hin.
  { intros y. unfold insert_at. rewrite elem_of_app, elem_of_cons. rewrite <- (take_drop i es) at 3.
    rewrite elem_of_app. tauto. }
  rewrite Hin. split.
  - intros [[->|Hx] <-]; [by left|]. right. split; [|done]. intros He.
    unfold ikeys_sorted, insert_at in Hs'. rewrite fmap_app, fmap_cons in Hs'.
    apply sorted_NoDup in Hs'. rewrite <- (take_drop i es) in Hx. apply elem_of_app in Hx.
    apply NoDup_app in Hs' as (_ & Hd & Hc). apply NoDup_cons in Hc as [Hc _].
    destruct Hx as [Hx|Hx].
    + apply (Hd (it_ikey x)); [by apply list_elem_of_fmap_2|]. rewrite He. left.
    + apply Hc. rewrite He. by apply list_elem_of_fmap_2.
  - intros [[<- <-]|[Hne [Hx <-]]]; [split; [by left|done]|]. split; [by right|done].
Qed.

(** ** The version of the leaf *)

(** A word at rest that was locked and maybe marked for an insertion. *)
Lemma marked_version v0 w :
  at_rest v0 -> w = lock_word v0 \/ w = NodeVersion.mark_insert NV (lock_word v0) ->
  version_ok NV w /\ NodeVersion.splitting NV w = false /\ NodeVersion.locked NV w = true /\
  (forall n, lock_pos NV + 3 <= n -> Z.testbit w n = Z.testbit v0 n).
Proof using HP.
  intros Hr Hw. destruct (lock_word_spec _ Hr) as (_ & Hok & Hlk & Hd & _). pose proof HP as [? ? ?].
  set (v := lock_word v0) in *.
  assert (NodeVersion.splitting NV v = false) as Hs.
  { rewrite dirty_testbit, <- splitting_testbit in Hd by done. by apply orb_false_elim in Hd as [_ ?]. }
  destruct Hw as [-> | ->].
  - split; [done|]. split; [done|]. split; [done|]. intros n Hn. unfold v.
    rewrite lock_word_testbit by lia. destruct (Z.eqb_spec n (lock_pos NV)); [lia|]. apply orb_false_r.
  - destruct (Protocol.marked_spec NV _ _ (Protocol.marked_insert NV v (proj1 Hok)) Hok) as (Hok' & Hl' & _).
    split; [done|]. split; [|split].
    + rewrite splitting_testbit, mark_insert_testbit, <- splitting_testbit, Hs by (done || lia).
      apply Z.eqb_neq. lia.
    + by rewrite Hl'.
    + intros n Hn. unfold v. rewrite mark_insert_testbit, lock_word_testbit by (done || lia).
      destruct (Z.eqb_spec n (lock_pos NV)), (Z.eqb_spec n (lock_pos NV + 1)); try lia. by rewrite !orb_false_r.
Qed.

Lemma entered_version l :
  at_rest (l_version l) ->
  let w := l_version (enter_leaf (lock_leaf l)) in
  version_ok NV w /\ NodeVersion.splitting NV w = false /\ NodeVersion.locked NV w = true /\
  (forall n, lock_pos NV + 3 <= n -> Z.testbit w n = Z.testbit (l_version l) n).
Proof using HP. intros Hr. apply marked_version; [done|]. unfold enter_leaf. case_match; auto. Qed.

(** Unlocking such a word gives a node of the same shape, at rest. *)
Lemma unlocked_shape l l' w :
  at_rest (l_version l) -> node_calm (NLeaf l) ->
  w = lock_word (l_version l) \/ w = NodeVersion.mark_insert NV (lock_word (l_version l)) ->
  l_version l' = NodeVersion.unlock NV w -> l_parent l' = l_parent l -> node_meta (NLeaf l') = node_meta (NLeaf l) ->
  same_shape (NLeaf l) (NLeaf l') /\ at_rest (l_version l').
Proof using HP.
  intros Hr [Hd Hdel Hleaf] Hw Hv Hpar Hmeta. cbn in Hd, Hdel, Hleaf.
  destruct (marked_version _ _ Hr Hw) as (Hok & Hs & _ & Hbits). pose proof HP as [? ? ?].
  destruct (unlock_word_spec _ Hok Hs) as (Hrest & Hdel' & Hroot' & Hleaf').
  rewrite !deleted_testbit in Hdel' by done. rewrite !is_root_testbit in Hroot' by done.
  rewrite !isleaf_testbit in Hleaf' by done. split; [|by rewrite Hv]. split; [done|done|done|..].
  - cbn [node_version]. rewrite Hv, !is_root_testbit, Hroot' by done. apply Hbits. lia.
  - split; cbn [node_version is_leaf_node]; rewrite Hv.
    + apply Hrest.
    + rewrite deleted_testbit, Hdel', Hbits, <- deleted_testbit by (done || lia). done.
    + rewrite isleaf_testbit, Hleaf', Hbits, <- isleaf_testbit by (done || lia). done.
Qed.

Lemma published_shape l l1 p i x lv e :
  at_rest (l_version l) -> node_calm (NLeaf l) -> slot_written (enter_leaf (lock_leaf l)) l1 p e ->
  same_shape (NLeaf l) (NLeaf (published l1 p i x lv)) /\ at_rest (l_version (published l1 p i x lv)).
Proof using HP.
  intros Hr Hc [F _ _ _]. apply (unlocked_shape l _ (l_version (enter_leaf (lock_leaf l)))); [done|done|..].
  - unfold enter_leaf. case_match; auto.
  - cbn. by rewrite (lf_version _ _ F).
  - cbn. rewrite (lf_parent _ _ F). unfold enter_leaf. by case_match.
  - cbn [node_meta published l_root_meta_extra64 l_meta set_l_version set_l_permutation set_l_keylenx set_l_lv].
    rewrite (lf_meta _ _ F), (lf_meta_extra _ _ F). unfold enter_leaf.
    by destruct (negb (l_modstate (lock_leaf l) =? modstate_insert)).
Qed.

(** The layer once the leaf responsible for [k] has been written: under [k] the
    map has what the leaf has, elsewhere what it had. *)
Lemma edge_layer_rewritten h h' d root ls k n l l' :
  leaf_for h d root None None ls k n l -> layer_tree h d root None None ls ->
  (d < np_fuel)%nat -> (exists nd, h !! root = Some nd /\ node_parent nd = None) ->
  (forall e, e ∈ tree_items ls -> edge_item e) ->
  leaf_update h h' n l l' ->
  (forall lo hi, leaf_fits lo hi l -> within lo hi k -> leaf_fits lo hi l') ->
  (forall e, e ∈ leaf_items l' -> it_ikey e = k -> edge_item e) ->
  (forall e, it_ikey e <> k -> e ∈ leaf_items l' <-> e ∈ leaf_items l) ->
  exists ls', (forall k', layer_map ls' !! k' = if decide (k' = k) then items_map (leaf_items l') !! k else layer_map ls !! k') /\
    forall r1 c, climbs h r1 root c -> (c < np_fuel)%nat -> edge_layer h' r1 d root ls'.
Proof.
  intros Hl Ht Hd (nd & Hnd & Hnp) Hit Hu Hfits Hedge Hsame.
  destruct (lfor_update _ _ _ _ _ _ _ _ _ Hl) as (lo & hi & ls1 & ls2 & -> & Hw & Hfit & Hupd).
  specialize (Hfits lo hi Hfit Hw). specialize (Hupd h' l' Hu Hfits). exists (ls1 ++ (n, l') :: ls2).
  assert (forall x e, e ∈ tree_items (ls1 ++ (n, x) :: ls2) <-> e ∈ leaf_items x \/ e ∈ tree_items ls1 \/ e ∈ tree_items ls2) as Hel.
  { intros x e. unfold tree_items. rewrite flat_map_app. cbn [flat_map snd]. rewrite !elem_of_app. tauto. }
  assert (forall e, it_ikey e <> k -> e ∈ tree_items (ls1 ++ (n, l') :: ls2) <-> e ∈ tree_items (ls1 ++ (n, l) :: ls2)) as Hother.
  { intros e He. by rewrite !Hel, Hsame. }
  assert (forall e, e ∈ tree_items ls1 \/ e ∈ tree_items ls2 -> it_ikey e <> k) as Hout.
  { intros e He Hk. assert (e ∈ leaf_items l) as Hin by (apply (lfor_all _ _ _ _ _ _ _ _ _ Hl); [apply Hel; tauto|done]).
    pose proof (layer_ikeys_sorted _ _ _ _ _ _ Ht) as Hs. unfold ikeys_sorted, tree_items in Hs.
    rewrite flat_map_app in Hs. cbn [flat_map snd] in Hs. rewrite !fmap_app in Hs. apply sorted_NoDup in Hs.
    apply NoDup_app in Hs as (_ & H1 & Hs). apply NoDup_app in Hs as (_ & H2 & _).
    destruct He as [He|He]; apply (list_elem_of_fmap_2 it_ikey) in He, Hin.
    - apply (H1 _ He), elem_of_app. by left.
    - by apply (H2 _ Hin). }
  assert (ikeys_sorted (leaf_items l')) as Hsl by apply Hfits.
  split.
  - intros k'. apply option_eq. intros e. unfold layer_map.
    rewrite items_map_lookup by by eapply layer_ikeys_sorted. destruct (decide (k' = k)) as [->|Hne].
    + rewrite items_map_lookup by done. split; intros [He Hk]; (split; [|done]); [|apply Hel; by left].
      apply Hel in He as [He|He]; [done|]. by destruct (Hout e He).
    + rewrite items_map_lookup by by eapply layer_ikeys_sorted.
      split; intros [He Hk]; (split; [|done]); apply Hother; (done || congruence).
  - intros r1 c Hc Hcf. split; [split|].
    + exists c. split; [by eapply climbs_update|done].
    + done.
    + done.
    + destruct (leaf_update_parent _ _ _ _ _ _ _ Hu Hnd) as (nd' & Hnd' & Hp'). exists nd'.
      split; [done|congruence].
    + intros e He. destruct (decide (it_ikey e = k)) as [Hk|Hk].
      * apply Hel in He as [He|He]; [by apply Hedge|]. by destruct (Hout e He).
      * apply Hother in He; [by apply Hit|done].
Qed.

(** An insertion into the leaf for [k], once published: the heap [h'] has the
    leaf and every other node of [h]. *)
Lemma insertion_published h h' d root ls ka n l kx l1 x lv :
  let k := k_ikey ka in
  let l3 := published l1 (KPermuter.back LW (l_permutation l)) (kp_i kx) x lv in
  1 <= LW <= 15 -> layer_tree h d root None None ls -> (d < np_fuel)%nat ->
  (exists nd, h !! root = Some nd /\ node_parent nd = None) ->
  (forall e, e ∈ tree_items ls -> edge_item e) ->
  leaf_for h d root None None ls k n l -> edge_found l k None kx -> has_room l k -> at_rest (l_version l) ->
  slot_written (enter_leaf (lock_leaf l)) l1 (KPermuter.back LW (l_permutation l)) (key_item ka) ->
  edge_item (Item k x lv) -> h' !! n = Some (NLeaf l3) ->
  (forall m nd, m <> n -> h !! m = Some nd -> h' !! m = Some nd) ->
  leaf_update h h' n l l3 /\ at_rest (l_version l3) /\
  exists ls', layer_map ls' = <[k := Item k x lv]> (layer_map ls) /\
    forall r1 c, climbs h r1 root c -> (c < np_fuel)%nat -> edge_layer h' r1 d root ls'.
Proof using HP.
  intros k l3 HW Ht Hd Htop Hit Hl Hf Hr Hrs Hw He Hn Hother.
  pose proof (lfor_ok _ _ _ _ _ _ _ _ _ Hl) as Hok. pose proof (length_leaf_items l Hok HW) as Hlen.
  pose proof (ef_rank _ _ _ _ Hf) as Hrank.
  destruct (published_shape l l1 (KPermuter.back LW (l_permutation l)) (kp_i kx) x lv _ Hrs (lfor_calm _ _ _ _ _ _ _ _ _ Hl) Hw)
    as [Hshape Hrest3].
  assert (leaf_update h h' n l l3) as Hu by (split; [apply Hl|done|done|done]).
  split; [done|]. split; [done|].
  assert (leaf_items l3 = insert_at (Z.to_nat (kp_i kx)) (Item k x lv) (leaf_items l)) as Hitems
    by (by apply (published_items l l1 _ _ _ _ ka); (done || apply Hr)).
  assert (forall lo hi, leaf_fits lo hi l -> within lo hi k -> leaf_fits lo hi l3) as Hfits.
  { intros lo hi Hfit Hin. by apply (published_fits l l1 k (kp_i kx) x lv ka HW Hok (hr_size _ _ Hr)
      Hrank Hw eq_refl lo hi kx Hfit Hin Hf eq_refl (hr_state _ _ Hr)). }
  assert (ikeys_sorted (leaf_items l3)) as Hs3.
  { destruct (lfor_update _ _ _ _ _ _ _ _ _ Hl) as (lo & hi & _ & _ & _ & Hwi & Hfit & _). by apply (Hfits lo hi). }
  assert (items_map (leaf_items l3) = <[k := Item k x lv]> (items_map (leaf_items l))) as Hmap.
  { rewrite Hitems. apply (insert_items_map (leaf_items l) _ (Item k x lv)); [apply Hl|by rewrite <- Hitems]. }
  destruct (edge_layer_rewritten h h' d root ls k n l l3 Hl Ht Hd Htop Hit Hu Hfits) as (ls' & Hmap' & Hedge).
  - intros e' He' Hk. assert (items_map (leaf_items l3) !! k = Some e') as Hke by by apply items_map_lookup.
    rewrite Hmap, lookup_insert_eq in Hke. by injection Hke as <-.
  - intros e' Hk. rewrite Hitems. unfold insert_at. rewrite elem_of_app, elem_of_cons.
    rewrite <- (take_drop (Z.to_nat (kp_i kx)) (leaf_items l)) at 3. rewrite elem_of_app.
    assert (e' <> Item k x lv) by (intros ->; done). tauto.
  - exists ls'. split; [|done]. apply map_eq. intros k'. rewrite Hmap'. destruct (decide (k' = k)) as [->|Hne].
    + by rewrite Hmap, !lookup_insert_eq.
    + by rewrite lookup_insert_ne.
Qed.

(** ** The operations on a layer *)

Lemma unlock_lock_run n l s :
  m_heap s !! n = Some (NLeaf l) -> at_rest (l_version l) ->
  Node.unlock n (wr n (NLeaf (lock_leaf l)) s) = Ok (tt, s).
Proof using HP.
  intros H Hr. destruct (lock_word_spec _ Hr) as (_ & _ & Hlk & _).
  rewrite (upd_locked_run n (NodeVersion.unlock NV) (NLeaf (lock_leaf l)) _ (wr_at _ _ _) Hlk : Node.unlock n _ = _).
  rewrite wr_wr. cbn [node_version set_node_version].
  assert (NodeVersion.unlock NV (l_version (lock_leaf l)) = l_version l) as ->.
  { apply (unlock_locked NV); apply Hr. }
  assert (set_l_version (l_version l) (lock_leaf l) = l) as -> by by destruct l.
  unfold wr, set_heap. rewrite insert_id by done. by destruct s.
Qed.

(** The slot is taken: nothing changes. *)
Lemma prepare_slot_present s r0 d root ls ka e :
  1 <= LW <= 15 -> edge_layer (m_heap s) r0 d root ls -> k_len ka = ikey_size ->
  (forall n l, (n, l) ∈ ls -> at_rest (l_version l)) -> layer_map ls !! k_ikey ka = Some e ->
  (it_keylenx e = layer_keylenx -> exists p, it_lv e = lv_layer p) ->
  exists layer c, prepare_slot (make_tcursor r0 ka) s = Ok (slot_present layer c, s) /\
    (it_keylenx e = layer_keylenx -> it_lv e = lv_layer layer).
Proof using HP.
  intros HW He Hlen Hrest Hm Hlay.
  destruct (find_locked_edge_run s r0 d root ls ka HW He Hlen Hrest) as (n & l & kx & Hl & Hf & Hrun).
  rewrite Hm in Hf, Hrun. pose proof (Hrest n l (lfor_in _ _ _ _ _ _ _ _ _ Hl)) as Hat.
  destruct (edge_found_slot l _ e kx (lfor_ok _ _ _ _ _ _ _ _ _ Hl) Hf) as (Hp & _ & Hlv).
  unfold prepare_slot. eexists (if it_keylenx e =? layer_keylenx then match it_lv e with lv_layer p => p | _ => None end else None), _.
  split.
  - rewrite (sbind_run _ _ _ _ _ Hrun). cbn [snd tc_n].
    rewrite (sbind_run _ _ _ _ _ (full_version_run _ _ _ (wr_at _ _ _))).
    cbn [tc_state set_tc_original found_state].
    assert ((edge_state e =? 0) = false) as -> by (unfold edge_state; by case_match). cbn [negb].
    assert ((if edge_state e <? 0 then
        tc_layer_root (set_tc_original n (leaf_full_unlocked_version_value (lock_leaf l))
          (TCursor n ka kx r0 (edge_state e) r0 0 0 []))
      else mret None) (wr n (NLeaf (lock_leaf l)) s) =
      Ok (if it_keylenx e =? layer_keylenx then match it_lv e with lv_layer p => p | _ => None end else None,
          wr n (NLeaf (lock_leaf l)) s)) as Hlayer.
    { unfold edge_state. destruct (Z.eqb_spec (it_keylenx e) layer_keylenx) as [Hk|Hk]; [|done].
      destruct (Hlay Hk) as [p Hpe]. change (- ikey_size <? 0) with true. unfold tc_layer_root.
      cbn [tc_n tc_kx set_tc_original]. rewrite (sbind_run _ _ _ _ _ (get_leaf_run _ _ _ (wr_at _ _ _))).
      rewrite (sbind_run _ _ _ _ _ (lift_run _ _ _ Hlv : mget _ _ _ = _)). by rewrite Hpe. }
    rewrite (sbind_run _ _ _ _ _ Hlayer), (sbind_run _ _ _ _ _ (full_version_run _ _ _ (wr_at _ _ _))).
    rewrite (mbind_run _ _ _ _ _ (unlock_lock_run _ _ _ (lfor_at _ _ _ _ _ _ _ _ _ Hl) Hat)). reflexivity.
  - intros Hk. rewrite Hk. destruct (Hlay Hk) as [p ->]. done.
Qed.

(** C8: [tcursor::attach_existing_layer] on a well-formed layer whose leaf for
    the slice has room.  When the slice is free the operation succeeds, writes
    one node, leaves it unlocked, and the layer is well formed again with the
    slice mapped to the given root and every other slice as before; when the
    slice is taken it fails and the state is exactly what it was. *)
Theorem attach_existing_layer_map (s : mstate) (r0 : loc) (d : nat) (root : loc)
    (ls : list (loc * leaf)) (ka : key) (child : ptr) :
  1 <= LW <= 15 -> edge_layer (m_heap s) r0 d root ls -> k_len ka = ikey_size ->
  (forall n l, (n, l) ∈ ls -> at_rest (l_version l)) ->
  (forall e k, layer_map ls !! k = Some e -> it_keylenx e = layer_keylenx -> exists p, it_lv e = lv_layer p) ->
  (forall n l, leaf_for (m_heap s) d root None None ls (k_ikey ka) n l -> has_room l (k_ikey ka)) ->
  match layer_map ls !! k_ikey ka with
  | Some _ => exists c, attach_existing_layer (make_tcursor r0 ka) child s = Ok ((false, c), s)
  | None =>
    exists c n l ls', attach_existing_layer (make_tcursor r0 ka) child s = Ok ((true, c), wr n (NLeaf l) s) /\
      at_rest (l_version l) /\ is_Some (m_heap s !! n) /\
      edge_layer (m_heap (wr n (NLeaf l) s)) r0 d root ls' /\
      layer_map ls' = <[k_ikey ka := Item (k_ikey ka) layer_keylenx (lv_layer child)]> (layer_map ls)
  end.
Proof using HP.
  intros HW He Hlen Hrest Hlay Hroom. destruct (layer_map ls !! k_ikey ka) as [e|] eqn:Hm.
  - destruct (prepare_slot_present s r0 d root ls ka e HW He Hlen Hrest Hm (Hlay _ _ Hm)) as (layer & c & Hrun & _).
    exists c. unfold attach_existing_layer. by rewrite (sbind_run _ _ _ _ _ Hrun).
  - destruct (prepare_slot_run s r0 d root ls ka HW He Hlen Hrest Hm Hroom)
      as (n & l & kx & l1 & c & Hl & Hf & Hr & Hw & Hrun & Hcn & Hckx).
    pose proof (lfor_ok _ _ _ _ _ _ _ _ _ Hl) as Hok. pose proof (lfor_at _ _ _ _ _ _ _ _ _ Hl) as Hat.
    pose proof (Hrest n l (lfor_in _ _ _ _ _ _ _ _ _ Hl)) as Hrs.
    destruct (entered_version l Hrs) as (_ & _ & Hlk & _).
    pose proof (entered_permutation _ _ _ Hw) as Hperm.
    destruct (publish_layer_run n l1 c (kp_i kx) child (wr n (NLeaf l1) s)) as (c' & Hpub).
    + apply wr_at.
    + apply (sw_arrays _ _ _ _ Hw).
    + by rewrite (lf_version _ _ (sw_frame _ _ _ _ Hw)).
    + rewrite Hperm. by apply back_range.
    + done.
    + by rewrite Hperm.
    + rewrite wr_wr, Hperm in Hpub. destruct He as [[(kk & Hkk & Hkf) Ht Hd Htop] Hit].
      destruct (insertion_published (m_heap s) (m_heap (wr n (NLeaf (published l1 (KPermuter.back LW (l_permutation l))
        (kp_i kx) layer_keylenx (lv_layer child))) s)) d root ls ka n l kx l1 layer_keylenx (lv_layer child))
        as (_ & Hrest3 & ls' & Hmap & Hedge); try done.
      * by right.
      * apply wr_at.
      * intros m nd Hmn. by rewrite wr_other.
      * exists c', n, (published l1 (KPermuter.back LW (l_permutation l)) (kp_i kx) layer_keylenx (lv_layer child)), ls'.
        split; [|split; [done|split; [by eexists|split; [by eapply Hedge|done]]]].
        unfold attach_existing_layer. rewrite (sbind_run _ _ _ _ _ Hrun). by rewrite (sbind_run _ _ _ _ _ Hpub).
Qed.
End layer_insert.
