(* ===== verification/LayerRemove.v ===== *)
(** * Removing an edge from a leaf

    [finish_remove] on a leaf that stays in its tree: it keeps an item, or it is
    the leftmost leaf of a directory.  The layer's map loses one slice; replacing
    the value of a slot changes the map at one slice. *)

From Stdlib Require Import Sorting.Sorted.
From S2P Require Export LayerInsert Remove.
From S2P Require Import NodeVersion KPermuter SplitFacts.

#[local] Open Scope Z_scope.
#[local] Open Scope lhm_scope.

#[local] Existing Instance np_config.

Section layer_remove.
Context {P : nodeparams} `{HP : !ParamsOk nodeversion_type}.

Abbreviation NV := nodeversion_type.
Abbreviation LW := leaf_width.

(** ** The leaf after a removal *)

(** The leaf leaves the insert state. *)
Definition leave_leaf (l : leaf) : leaf :=
  if l_modstate l =? modstate_insert
  then set_l_modstate modstate_remove (set_l_version (NodeVersion.mark_insert NV (l_version l)) l)
  else l.

Definition without_slot (l : leaf) (i : Z) : leaf :=
  set_l_permutation (KPermuter.remove LW (l_permutation l) i) (leave_leaf (lock_leaf l)).

(** The same leaf unlocked. *)
Definition removed (l : leaf) (i : Z) : leaf :=
  set_l_version (NodeVersion.unlock NV (l_version (without_slot l i))) (without_slot l i).

(** The leaf stays in its layer's tree when it loses an item. *)
Definition can_shrink (l : leaf) : Prop := 2 <= leaf_size l \/ l_prev l = None.

Lemma leave_leaf_run n l s :
  m_heap s !! n = Some (NLeaf l) -> NodeVersion.locked NV (l_version l) = true ->
  (if l_modstate l =? modstate_insert then
     Node.mark_insert n ;; upd_leaf n (set_l_modstate modstate_remove)
   else mret tt) s = Ok (tt, wr n (NLeaf (leave_leaf l)) s).
Proof.
  intros H Hl. unfold leave_leaf. destruct (Z.eqb_spec (l_modstate l) modstate_insert) as [He|He].
  - rewrite (mbind_run _ _ _ _ _ (upd_locked_run n (NodeVersion.mark_insert NV) (NLeaf l) s H Hl : Node.mark_insert n s = _)).
    cbn [set_node_version node_version]. by rewrite (upd_leaf_run _ _ _ _ (wr_at _ _ _)), wr_wr.
  - unfold wr, set_heap. rewrite insert_id by done. by destruct s.
Qed.

Lemma left_permutation_eq l : l_permutation (leave_leaf (lock_leaf l)) = l_permutation l.
Proof. unfold leave_leaf. by case_match. Qed.

Lemma finish_remove_run n l c s :
  at_rest (l_version l) -> leaf_ok l -> 1 <= LW <= 15 ->
  tc_n c = n -> 0 <= kp_i (tc_kx c) < leaf_size l -> can_shrink l -> prefix_string (tc_ka c) = [] ->
  finish_remove c (wr n (NLeaf (lock_leaf l)) s) = Ok (false, wr n (NLeaf (without_slot l (kp_i (tc_kx c)))) s).
Proof using HP.
  intros Hr Hok HW Hn Hi Hs Hpre. destruct (lock_word_spec _ Hr) as (_ & _ & Hlk & _). unfold finish_remove. rewrite Hn.
  rewrite (sbind_run _ _ _ _ _ (get_leaf_run _ _ _ (wr_at _ _ _))).
  rewrite (mbind_run _ _ _ _ _ (leave_leaf_run _ _ _ (wr_at n (NLeaf (lock_leaf l)) s) Hlk)), wr_wr.
  rewrite (sbind_run _ _ _ _ _ (get_leaf_run _ _ _ (wr_at _ _ _))), left_permutation_eq. cbn zeta.
  rewrite (mbind_run _ _ _ _ _ (upd_leaf_run _ _ _ _ (wr_at _ _ _))), wr_wr. fold (without_slot l (kp_i (tc_kx c))).
  destruct (Z.eqb_spec (KPermuter.size (KPermuter.remove LW (l_permutation l) (kp_i (tc_kx c)))) 0) as [Hz|Hz]; [|done].
  cbn [negb]. unfold leaf_size in *. destruct Hok as [_ [Hsz _]].
  replace (kp_i (tc_kx c)) with (Z.of_nat (Z.to_nat (kp_i (tc_kx c)))) in Hz at 1 by lia.
  rewrite remove_size in Hz by lia. unfold can_shrink, leaf_size in Hs. destruct Hs as [Hs|Hs]; [lia|].
  unfold remove_leaf. rewrite (sbind_run _ _ _ _ _ (get_leaf_run _ _ _ (wr_at _ _ _))).
  assert (l_prev (without_slot l (kp_i (tc_kx c))) = None) as ->.
  { unfold without_slot, leave_leaf. cbn [l_prev set_l_permutation]. rewrite <- Hs. by case_match. }
  rewrite Hpre, bool_decide_eq_true_2, andb_false_r by done. reflexivity.
Qed.

(** [finish_remove] and the unlock that follows it. *)
Lemma unlock_removed_run n l i s :
  at_rest (l_version l) ->
  Node.unlock n (wr n (NLeaf (without_slot l i)) s) = Ok (tt, wr n (NLeaf (removed l i)) s).
Proof using HP.
  intros Hr. destruct (marked_version (l_version l) (l_version (without_slot l i)) Hr) as (_ & _ & Hlk & _).
  { unfold without_slot, leave_leaf. case_match; auto. }
  rewrite (upd_locked_run n (NodeVersion.unlock NV) (NLeaf (without_slot l i)) _ (wr_at _ _ _) Hlk : Node.unlock n _ = _).
  by rewrite wr_wr.
Qed.

Lemma removed_shape l i :
  at_rest (l_version l) -> node_calm (NLeaf l) ->
  same_shape (NLeaf l) (NLeaf (removed l i)) /\ at_rest (l_version (removed l i)).
Proof using HP.
  intros Hr Hc. apply (unlocked_shape l _ (l_version (without_slot l i))); [done|done|..].
  - unfold without_slot, leave_leaf. case_match; auto.
  - done.
  - unfold removed, without_slot, leave_leaf. by case_match.
  - unfold removed, without_slot, leave_leaf. by case_match.
Qed.

Lemma removed_ok l i : leaf_ok l -> 1 <= LW <= 15 -> 0 <= i < leaf_size l -> leaf_ok (removed l i).
Proof.
  intros [[A1 A2 A3] Hp] HW Hi. split.
  - unfold removed, without_slot, leave_leaf. by case_match; split.
  - unfold leaf_size in Hi. change (KPermuter.wf LW (KPermuter.remove LW (l_permutation l) i)).
    replace i with (Z.of_nat (Z.to_nat i)) by lia. apply remove_wf; (done || lia).
Qed.

Lemma removed_items l i :
  leaf_ok l -> 1 <= LW <= 15 -> 0 <= i < leaf_size l ->
  leaf_items (removed l i) = delete (Z.to_nat i) (leaf_items l).
Proof.
  intros [_ [Hs _]] HW Hi. unfold leaf_size in Hi. unfold leaf_items.
  change (l_permutation (removed l i)) with (KPermuter.remove LW (l_permutation l) i).
  replace i with (Z.of_nat (Z.to_nat i)) at 2 by lia. rewrite remove_active by lia.
  rewrite list_fmap_delete. f_equal. apply list_fmap_ext. intros j x _.
  unfold removed, without_slot, leave_leaf. by case_match.
Qed.

Lemma sublist_sorted (xs : list Z) i : StronglySorted Z.lt xs -> StronglySorted Z.lt (delete i xs).
Proof.
  intros Hs. revert i. induction Hs as [|x xs Hs IH Hf]; intros i; [destruct i; constructor|].
  destruct i as [|i]; [exact Hs|]. change (delete (S i) (x :: xs)) with (x :: delete i xs). constructor; [apply IH|]. apply Forall_forall. intros y Hy.
  rewrite Forall_forall in Hf. apply Hf. rewrite delete_take_drop in Hy.
  apply elem_of_app in Hy as [Hy|Hy]; [by eapply subseteq_take|by eapply subseteq_drop].
Qed.

Lemma removed_fits l i lo hi :
  1 <= LW <= 15 -> 0 <= i < leaf_size l -> leaf_fits lo hi l -> leaf_fits lo hi (removed l i).
Proof.
  intros HW Hi [Hok Hd Hs Hw]. split.
  - by apply removed_ok.
  - unfold deleted_layer in *. unfold removed, without_slot, leave_leaf. by case_match.
  - change (ikeys_sorted (leaf_items (removed l i))). unfold ikeys_sorted.
    rewrite removed_items, list_fmap_delete by done. by apply sublist_sorted.
  - rewrite removed_items, delete_take_drop by done. apply Forall_app. split; [by apply Forall_take|by apply Forall_drop].
Qed.

(** ** The layer after a removal *)

Lemma rank_lookup l k e kx :
  leaf_ok l -> 1 <= LW <= 15 -> edge_found l k (Some e) kx ->
  leaf_items l !! Z.to_nat (kp_i kx) = Some e /\ 0 <= kp_i kx < leaf_size l.
Proof.
  intros Hok HW [Hr _ _ (Hlt & Hp & He)]. split; [|lia].
  rewrite leaf_items_lookup by (done || lia). rewrite Z2Nat.id by lia. by rewrite <- Hp, He.
Qed.

Lemma delete_elements (es : list item) i e x :
  ikeys_sorted es -> es !! i = Some e -> x ∈ delete i es <-> x ∈ es /\ it_ikey x <> it_ikey e.
Proof.
  intros Hs He. pose proof (take_drop_middle _ _ _ He) as Hmid. unfold ikeys_sorted in Hs. rewrite <- Hmid in Hs.
  rewrite fmap_app, fmap_cons in Hs. apply sorted_NoDup, NoDup_app in Hs as (_ & H1 & (H2 & _)%NoDup_cons).
  rewrite delete_take_drop, elem_of_app.
  replace (x ∈ es) with (x ∈ take i es ++ e :: drop (S i) es) by by rewrite Hmid.
  rewrite elem_of_app, elem_of_cons.
  split; [|intros [[Hx|[->|Hx]] Hne]; [by left|done|by right]].
  intros [Hx|Hx]; (split; [tauto|]); intros Heq; apply (list_elem_of_fmap_2 it_ikey) in Hx; rewrite Heq in Hx.
  - apply (H1 _ Hx). left.
  - by apply H2.
Qed.

Lemma removal_published h h' d root ls k n l kx e :
  1 <= LW <= 15 -> layer_tree h d root None None ls -> (d < np_fuel)%nat ->
  (exists nd, h !! root = Some nd /\ node_parent nd = None) ->
  (forall e, e ∈ tree_items ls -> edge_item e) ->
  leaf_for h d root None None ls k n l -> edge_found l k (Some e) kx -> it_ikey e = k -> at_rest (l_version l) ->
  h' !! n = Some (NLeaf (removed l (kp_i kx))) ->
  (forall m nd, m <> n -> h !! m = Some nd -> h' !! m = Some nd) ->
  leaf_update h h' n l (removed l (kp_i kx)) /\ at_rest (l_version (removed l (kp_i kx))) /\
  exists ls', layer_map ls' = delete k (layer_map ls) /\
    forall r1 c, climbs h r1 root c -> (c < np_fuel)%nat -> edge_layer h' r1 d root ls'.
Proof using HP.
  intros HW Ht Hd Htop Hit Hl Hf Hk Hrs Hn Hother. pose proof (lfor_ok _ _ _ _ _ _ _ _ _ Hl) as Hok.
  destruct (rank_lookup l k e kx Hok HW Hf) as [Hat Hi].
  destruct (removed_shape l (kp_i kx) Hrs (lfor_calm _ _ _ _ _ _ _ _ _ Hl)) as [Hshape Hrest].
  assert (leaf_update h h' n l (removed l (kp_i kx))) as Hu by (split; [apply Hl|done..]).
  split; [done|]. split; [done|].
  assert (forall x, x ∈ leaf_items (removed l (kp_i kx)) <-> x ∈ leaf_items l /\ it_ikey x <> k) as Hel.
  { intros x. rewrite removed_items by done. rewrite (delete_elements _ _ _ _ (lfor_sorted _ _ _ _ _ _ _ _ _ Hl) Hat). by rewrite Hk. }
  destruct (edge_layer_rewritten h h' d root ls k n l (removed l (kp_i kx)) Hl Ht Hd Htop Hit Hu) as (ls' & Hmap & Hedge).
  - intros lo hi Hfit _. by apply removed_fits.
  - intros x Hx Hkx. by apply Hel in Hx as [_ ?].
  - intros x Hx. rewrite Hel. tauto.
  - exists ls'. split; [|done]. apply map_eq. intros k'. rewrite Hmap. destruct (decide (k' = k)) as [->|Hne].
    + rewrite lookup_delete_eq. destruct (items_map (leaf_items (removed l (kp_i kx))) !! k) as [x|] eqn:Hx; [|done].
      apply items_map_lookup in Hx as [Hx Hkx].
      * by apply Hel in Hx as [_ ?].
      * destruct (lfor_update _ _ _ _ _ _ _ _ _ Hl) as (lo & hi & _ & _ & _ & _ & Hfit & _).
        by destruct (removed_fits l (kp_i kx) lo hi HW Hi Hfit).
    + by rewrite lookup_delete_ne.
Qed.

(** ** Replacing the value of a slot *)

Definition revalued (l : leaf) (p : Z) (lv : leafvalue) : leaf := set_l_lv (<[Z.to_nat p := lv]> (l_lv l)) l.

Lemma set_value_run n l c v s :
  leaf_ok l -> tc_n c = n -> 0 <= kp_p (tc_kx c) < LW -> at_rest (l_version l) ->
  (tc_set_value c v ;; Node.unlock n) (wr n (NLeaf (lock_leaf l)) s) =
    Ok (tt, wr n (NLeaf (revalued l (kp_p (tc_kx c)) (lv_value v))) s).
Proof using HP.
  intros [[_ _ A3] _] Hn Hp Hr. destruct (lock_word_spec _ Hr) as (_ & _ & Hlk & _). unfold tc_set_value. rewrite Hn.
  assert (leaf_set_lv (lock_leaf l) (kp_p (tc_kx c)) (lv_value v) =
    Ok (lock_leaf (revalued l (kp_p (tc_kx c)) (lv_value v)))) as E.
  { unfold leaf_set_lv. change (l_lv (lock_leaf l)) with (l_lv l). by rewrite aset_total by lia. }
  rewrite (mbind_run _ _ _ _ _ (upd_leaf_res_run n _ _ _ _ (wr_at _ _ _) E)), wr_wr.
  rewrite (upd_locked_run n (NodeVersion.unlock NV) (NLeaf (lock_leaf (revalued l (kp_p (tc_kx c)) (lv_value v)))) _ (wr_at _ _ _) Hlk : Node.unlock n _ = _).
  rewrite wr_wr. cbn [node_version set_node_version].
  assert (NodeVersion.unlock NV (l_version (lock_leaf (revalued l (kp_p (tc_kx c)) (lv_value v)))) = l_version l) as ->.
  { apply (unlock_locked NV); apply Hr. }
  by destruct l.
Qed.

Lemma fmap_update {A} (f : Z -> A) (xs : list Z) i p b :
  NoDup xs -> xs !! i = Some p -> (fun x => if x =? p then b else f x) <$> xs = <[i := b]> (f <$> xs).
Proof.
  intros Hnd Hi. apply list_eq. intros j. rewrite list_lookup_fmap. destruct (decide (i = j)) as [<-|Hne].
  - rewrite Hi, list_lookup_insert_eq by (rewrite length_fmap; by eapply lookup_lt_Some). cbn. by rewrite Z.eqb_refl.
  - rewrite list_lookup_insert_ne, list_lookup_fmap by done. destruct (xs !! j) as [x|] eqn:Hj; cbn; [|done].
    destruct (Z.eqb_spec x p) as [->|]; [|done]. by destruct (Hne (NoDup_lookup _ _ _ _ Hnd Hi Hj)).
Qed.

Lemma active_in_width l x : leaf_ok l -> x ∈ KPermuter.active LW (l_permutation l) -> 0 <= x < LW.
Proof.
  intros [_ [_ Hperm]] Hx. assert (x ∈ KPermuter.elems LW (l_permutation l)) as Hin by by eapply subseteq_take.
  rewrite Hperm in Hin. apply elem_of_seqZ in Hin. lia.
Qed.

Lemma revalued_items l k e kx lv :
  leaf_ok l -> 1 <= LW <= 15 -> edge_found l k (Some e) kx ->
  leaf_items (revalued l (kp_p kx) lv) = <[Z.to_nat (kp_i kx) := Item (it_ikey e) (it_keylenx e) lv]> (leaf_items l).
Proof.
  intros Hok HW Hf. destruct (edge_found_slot l k e kx Hok Hf) as (Hp & Hs & _). pose proof Hf as [Hr _ _ (Hlt & Hpp & _)].
  pose proof Hok as [[_ _ A3] Hwf]. unfold leaf_items. change (l_permutation (revalued l (kp_p kx) lv)) with (l_permutation l).
  rewrite <- (fmap_update (slot_item l) _ _ (kp_p kx)).
  - apply list_fmap_ext. intros j x Hj%list_elem_of_lookup_2. pose proof (active_in_width l x Hok Hj).
    assert (slot_item (revalued l (kp_p kx) lv) x =
      Item (leaf_ikey l x) (leaf_keylenx l x) (nth (Z.to_nat x) (<[Z.to_nat (kp_p kx) := lv]> (l_lv l)) lv_make_empty)) as -> by done.
    rewrite nth_insert by lia. by destruct (Z.eqb_spec x (kp_p kx)) as [->|]; [rewrite <- Hs|].
  - eapply sublist_NoDup; [apply (wf_NoDup LW _ Hwf)|apply sublist_take].
  - unfold leaf_size in *. destruct Hwf as [Hsz _]. rewrite active_lookup by lia. rewrite Z2Nat.id by lia. by rewrite Hpp.
Qed.

Lemma insert_elements (es : list item) i e e' x :
  ikeys_sorted es -> es !! i = Some e -> it_ikey e' = it_ikey e ->
  x ∈ <[i := e']> es <-> x = e' \/ (x ∈ es /\ it_ikey x <> it_ikey e).
Proof.
  intros Hs He Hk. rewrite <- (delete_elements es i e x Hs He).
  rewrite insert_take_drop by (by eapply lookup_lt_Some). rewrite delete_take_drop, !elem_of_app, elem_of_cons. tauto.
Qed.

Lemma revaluation_published h h' d root ls k n l kx e v :
  let l' := revalued l (kp_p kx) (lv_value v) in
  1 <= LW <= 15 -> layer_tree h d root None None ls -> (d < np_fuel)%nat ->
  (exists nd, h !! root = Some nd /\ node_parent nd = None) ->
  (forall e, e ∈ tree_items ls -> edge_item e) ->
  leaf_for h d root None None ls k n l -> edge_found l k (Some e) kx -> it_ikey e = k -> it_keylenx e = ikey_size ->
  h' !! n = Some (NLeaf l') ->
  (forall m nd, m <> n -> h !! m = Some nd -> h' !! m = Some nd) ->
  leaf_update h h' n l l' /\
  exists ls', layer_map ls' = <[k := Item k ikey_size (lv_value v)]> (layer_map ls) /\
    forall r1 c, climbs h r1 root c -> (c < np_fuel)%nat -> edge_layer h' r1 d root ls'.
Proof using HP.
  intros l' HW Ht Hd Htop Hit Hl Hf Hk Hx Hn Hother. pose proof (lfor_ok _ _ _ _ _ _ _ _ _ Hl) as Hok.
  destruct (rank_lookup l k e kx Hok HW Hf) as [Hat Hi]. pose proof (lfor_sorted _ _ _ _ _ _ _ _ _ Hl) as Hs.
  pose proof (revalued_items l k e kx (lv_value v) Hok HW Hf) as Hitems. rewrite Hk, Hx in Hitems.
  set (e' := Item k ikey_size (lv_value v)) in *.
  assert (leaf_update h h' n l l') as Hu.
  { split; [apply Hl|done| |done]. destruct (lfor_calm _ _ _ _ _ _ _ _ _ Hl). by split. }
  split; [done|].
  assert (forall x, x ∈ leaf_items l' <-> x = e' \/ (x ∈ leaf_items l /\ it_ikey x <> k)) as Hel.
  { intros x. unfold l'. rewrite Hitems. rewrite (insert_elements _ _ _ _ _ Hs Hat) by done. by rewrite Hk. }
  assert (ikeys_sorted (leaf_items l')) as Hs'.
  { unfold ikeys_sorted, l'. rewrite Hitems, list_fmap_insert. rewrite list_insert_id; [apply Hs|].
    rewrite list_lookup_fmap, Hat. cbn. by rewrite Hk. }
  destruct (edge_layer_rewritten h h' d root ls k n l l' Hl Ht Hd Htop Hit Hu) as (ls' & Hmap & Hedge).
  - intros lo hi [Hok' Hdl _ Hw] Hin. split; [|done|done|].
    + destruct Hok' as [[A1 A2 A3] Hp]. split; [split; [done|done|]|done]. cbn. by rewrite length_insert.
    + apply Forall_forall. intros x [->|[Hxin _]]%Hel; [done|]. rewrite Forall_forall in Hw. by apply Hw.
  - intros x [->|[_ ?]]%Hel Hkx; [by left|done].
  - intros x Hxk. rewrite Hel. split; [intros [->|[? _]]; [by destruct Hxk|done]|by right].
  - exists ls'. split; [|done]. apply map_eq. intros k'. rewrite Hmap. destruct (decide (k' = k)) as [->|Hne].
    + rewrite lookup_insert_eq. apply items_map_lookup; [done|]. split; [|done]. apply Hel. by left.
    + by rewrite lookup_insert_ne.
Qed.
End layer_remove.
