(* ===== verification/LeafLinks.v ===== *)
(** * The list of leaves (btree_leaflink.hh)

    The leaves of a layer form a doubly linked list; a split links the new leaf
    after the old one and the removal of an empty leaf unlinks it. *)

From S2P Require Export LayerInsert.
From S2P Require Import Namespace NodeVersion KPermuter.

#[local] Open Scope Z_scope.
#[local] Open Scope lhm_scope.

#[local] Existing Instance np_config.

Section leaf_links.
Context {P : nodeparams}.

(** The leaves [ns] in order, the first one's [prev_] being [prev]; no link is
    locked. *)
Fixpoint linked (h : gmap loc node) (prev : ptr) (ns : list loc) : Prop :=
  match ns with
  | [] => True
  | n :: ns' =>
    (exists l, h !! n = Some (NLeaf l) /\ l_prev l = prev /\ l_next l = head ns' /\ l_next_marked l = false) /\
    linked h (Some n) ns'
  end.

(** A node with the same contents, whatever its links. *)
Definition same_but_links (nd nd' : node) : Prop :=
  match nd, nd' with
  | NLeaf l, NLeaf l' =>
    set_l_prev None (set_l_next None (set_l_next_marked false l')) =
    set_l_prev None (set_l_next None (set_l_next_marked false l))
  | _, _ => nd' = nd
  end.

Definition relinked (h h' : gmap loc node) : Prop :=
  forall m, option_relation same_but_links (fun _ => False) (fun _ => False) (h !! m) (h' !! m).

Lemma same_but_links_refl nd : same_but_links nd nd.
Proof. by destruct nd. Qed.

Lemma linked_frame h h' prev ns :
  linked h prev ns -> (forall n, n ∈ ns -> h' !! n = h !! n) -> linked h' prev ns.
Proof.
  revert prev. induction ns as [|n ns IH]; intros prev; [done|]. cbn. intros [(l & Hn & Hl) Hns] Heq. split.
  - exists l. by rewrite Heq by (by left).
  - apply IH; [done|]. intros m Hm. apply Heq. by right.
Qed.

Lemma linked_app h prev xs ys :
  linked h prev (xs ++ ys) ->
  linked h (match last xs with Some x => Some x | None => prev end) ys.
Proof.
  revert prev. induction xs as [|x xs IH]; intros prev; [done|]. cbn [app linked]. intros [_ H].
  apply IH in H. rewrite last_cons. by destruct (last xs).
Qed.

(** Replacing the tail of a list of leaves, its head staying the same. *)
Lemma linked_replace h h' prev xs ys zs :
  linked h prev (xs ++ ys) -> (forall n, n ∈ xs -> h' !! n = h !! n) -> head zs = head ys ->
  linked h' (match last xs with Some x => Some x | None => prev end) zs -> linked h' prev (xs ++ zs).
Proof.
  revert prev. induction xs as [|x xs IH]; intros prev; [done|]. cbn [app linked].
  intros [(l & Hx & Hp & Hn & Hm) Hxs] Heq Hhead Hzs. split.
  - exists l. rewrite Heq by (by left). repeat (split; [done|]). split; [|done].
    rewrite Hn. destruct xs; [|done]. cbn [app]. by rewrite Hhead.
  - apply IH; [done| |done|].
    + intros n Hxn. apply Heq. by right.
    + rewrite last_cons in Hzs. by destruct (last xs).
Qed.

Lemma lock_next_run n l s :
  m_heap s !! n = Some (NLeaf l) -> l_next_marked l = false ->
  lock_next n s = Ok (l_next l, match l_next l with
    | Some _ => wr n (NLeaf (set_l_next_marked true l)) s | None => s end).
Proof.
  intros H Hm. unfold lock_next. rewrite (sbind_run _ _ _ _ _ (get_leaf_run _ _ _ H)), Hm.
  destruct (l_next l); [|done]. by rewrite (mbind_run _ _ _ _ _ (upd_leaf_run _ _ _ _ H)).
Qed.

Definition relink (l : leaf) (next : ptr) : leaf := set_l_next next (set_l_next_marked false l).

Lemma set_next_run n l p s :
  m_heap s !! n = Some (NLeaf l) -> set_next n p s = Ok (tt, wr n (NLeaf (relink l p)) s).
Proof. intros H. unfold set_next. by rewrite (upd_leaf_run _ _ _ _ H). Qed.

(** [link_split] puts the new leaf right after the split one in the list of
    leaves, in both directions and with every link unlocked, and changes nothing
    but links. *)
Lemma link_split_links (s : mstate) (xs ys : list loc) (n nr : loc) (r : leaf) :
  linked (m_heap s) None (xs ++ n :: ys) -> NoDup (nr :: xs ++ n :: ys) ->
  m_heap s !! nr = Some (NLeaf r) ->
  exists s', link_split n nr s = Ok (tt, s') /\ linked (m_heap s') None (xs ++ n :: nr :: ys) /\
    relinked (m_heap s) (m_heap s').
Proof.
  intros Hlk Hnd Hr. pose proof (linked_app _ _ _ _ Hlk) as Hn. cbn [linked] in Hn.
  destruct Hn as [(l & Hn & Hp & Hnx & Hm) Hys].
  apply NoDup_cons in Hnd as [Hnr Hnd]. apply not_elem_of_app in Hnr as [Hnrx Hnr].
  apply not_elem_of_cons in Hnr as [Hnrn Hnry]. apply NoDup_app in Hnd as (_ & Hdx & Hnd).
  apply NoDup_cons in Hnd as [Hny Hndy].
  set (r1 := relink (set_l_prev (Some n) r) (head ys)). set (l1 := relink l (Some nr)).
  unfold link_split. rewrite (mbind_run _ _ _ _ _ (upd_leaf_run _ _ _ _ Hr)).
  set (s1 := wr nr (NLeaf (set_l_prev (Some n) r)) s).
  assert (m_heap s1 !! n = Some (NLeaf l)) as Hn1 by (unfold s1; by rewrite wr_other).
  rewrite (sbind_run _ _ _ _ _ (lock_next_run _ _ _ Hn1 Hm)), Hnx.
  destruct ys as [|x ys]; cbn [head hd_error] in *.
  - assert (m_heap s1 !! nr = Some (NLeaf (set_l_prev (Some n) r))) as Hr1 by apply wr_at.
    rewrite (mbind_run _ _ _ _ _ (set_next_run _ _ _ _ Hr1)). unfold s1. rewrite wr_wr. fold r1.
    rewrite mbind_ret_run.
    assert (m_heap (wr nr (NLeaf r1) s) !! n = Some (NLeaf l)) as Hn2 by by rewrite wr_other.
    rewrite (set_next_run _ _ _ _ Hn2). fold l1. eexists. split; [done|]. split.
    + eapply linked_replace; [exact Hlk| |done|].
      * intros m Hmx. rewrite !wr_other; [done| |]; intros ->; [done|]. by apply (Hdx n Hmx), list_elem_of_here.
      * cbn [linked head hd_error]. split; [exists l1; split; [apply wr_at|done]|]. split; [|done].
        exists r1. rewrite wr_other by done. split; [apply wr_at|done].
    + intros m. destruct (decide (m = n)) as [->|Hmn]; [by rewrite Hn, wr_at|].
      destruct (decide (m = nr)) as [->|Hmr]; [by rewrite Hr, wr_other, wr_at by done|].
      rewrite !wr_other by done. destruct (m_heap s !! m); [apply same_but_links_refl|done].
  - cbn [linked] in Hys. destruct Hys as [(lx & Hx & Hpx & Hnx' & Hmx) Hys].
    apply not_elem_of_cons in Hny as [Hnx2 Hny]. apply not_elem_of_cons in Hnry as [Hnrx2 Hnry].
    apply NoDup_cons in Hndy as [Hxy _].
    set (lx1 := set_l_prev (Some nr) lx). set (s2 := wr n (NLeaf (set_l_next_marked true l)) s1).
    assert (m_heap s2 !! nr = Some (NLeaf (set_l_prev (Some n) r))) as Hr2.
    { unfold s2, s1. rewrite wr_other by done. apply wr_at. }
    rewrite (mbind_run _ _ _ _ _ (set_next_run _ _ _ _ Hr2)). fold r1. set (s3 := wr nr (NLeaf r1) s2).
    assert (m_heap s3 !! x = Some (NLeaf lx)) as Hx3.
    { unfold s3, s2, s1. rewrite !wr_other; done. }
    rewrite (mbind_run _ _ _ _ _ (upd_leaf_run _ _ _ _ Hx3)). fold lx1. set (s4 := wr x (NLeaf lx1) s3).
    assert (m_heap s4 !! n = Some (NLeaf (set_l_next_marked true l))) as Hn4.
    { unfold s4, s3, s2. rewrite !wr_other by done. apply wr_at. }
    rewrite (set_next_run _ _ _ _ Hn4). change (relink (set_l_next_marked true l) (Some nr)) with l1.
    set (s5 := wr n (NLeaf l1) s4).
    assert (forall m, m <> n -> m <> nr -> m <> x -> m_heap s5 !! m = m_heap s !! m) as Hsame.
    { intros m ? ? ?. unfold s5, s4, s3, s2, s1. by rewrite !wr_other. }
    assert (m_heap s5 !! x = Some (NLeaf lx1)) as Hx5 by (unfold s5, s4; rewrite wr_other by done; apply wr_at).
    assert (m_heap s5 !! nr = Some (NLeaf r1)) as Hr5.
    { unfold s5, s4, s3. rewrite !wr_other by done. apply wr_at. }
    exists s5. split; [done|]. split.
    + eapply linked_replace; [exact Hlk| |done|].
      * intros m Hmxs. apply Hsame; intros ->; [|done|].
        -- by apply (Hdx n Hmxs), list_elem_of_here.
        -- apply (Hdx x Hmxs). right. left.
      * cbn [linked]. split; [exists l1; split; [apply wr_at|done]|]. split; [exists r1; by split|].
        split; [exists lx1; by split|]. eapply linked_frame; [exact Hys|].
        intros m Hmy. apply Hsame; intros ->; done.
    + intros m. destruct (decide (m = n)) as [->|Hmn]; [by rewrite Hn; unfold s5; rewrite wr_at|].
      destruct (decide (m = nr)) as [->|Hmr]; [by rewrite Hr, Hr5|].
      destruct (decide (m = x)) as [->|Hmxx]; [by rewrite Hx, Hx5|].
      rewrite Hsame by done. destruct (m_heap s !! m); [apply same_but_links_refl|done].
Qed.

(** [unlink] takes a leaf that is not the first out of the list of leaves:
    its neighbours are linked to each other with every link unlocked, and
    nothing but links changes. *)
Lemma unlink_links (s : mstate) (xs ys : list loc) (p n : loc) :
  linked (m_heap s) None (xs ++ p :: n :: ys) -> NoDup (xs ++ p :: n :: ys) ->
  exists s', unlink n s = Ok (tt, s') /\ linked (m_heap s') None (xs ++ p :: ys) /\
    relinked (m_heap s) (m_heap s').
Proof.
  intros Hlk Hnd. pose proof (linked_app _ _ _ _ Hlk) as Hpn. cbn [linked] in Hpn.
  destruct Hpn as [(lp & Hp & Hpp & Hpx & Hpm) [(l & Hn & Hnp & Hnx & Hnm) Hys]]. cbn [head hd_error] in Hpx.
  apply NoDup_app in Hnd as (_ & Hdx & Hnd). apply NoDup_cons in Hnd as [Hpy Hnd].
  apply not_elem_of_cons in Hpy as [Hpn Hpy]. apply NoDup_cons in Hnd as [Hny Hndy].
  unfold unlink. rewrite (sbind_run _ _ _ _ _ (lock_next_run _ _ _ Hn Hnm)), Hnx.
  destruct ys as [|x ys]; cbn [head hd_error] in *.
  - rewrite (sbind_run _ _ _ _ _ (get_leaf_run _ _ _ Hn)), Hnp. cbn [deref]. rewrite sbind_ret.
    rewrite (sbind_run _ _ _ _ _ (get_leaf_run _ _ _ Hp)), Hpx, Hpm, bool_decide_eq_true_2 by done. cbn [negb andb].
    rewrite (mbind_run _ _ _ _ _ (upd_leaf_run _ _ _ _ Hp)), mbind_ret_run.
    rewrite (set_next_run _ _ _ _ (wr_at _ _ _)), wr_wr.
    change (relink (set_l_next_marked true lp) None) with (relink lp None).
    eexists. split; [done|]. split.
    + eapply linked_replace; [exact Hlk| |done|].
      * intros m Hmx. rewrite wr_other; [done|]. intros ->. by apply (Hdx p Hmx), list_elem_of_here.
      * cbn [linked head hd_error]. split; [|done]. exists (relink lp None). split; [apply wr_at|done].
    + intros m. destruct (decide (m = p)) as [->|Hmp]; [by rewrite Hp, wr_at|].
      rewrite wr_other by done. destruct (m_heap s !! m); [apply same_but_links_refl|done].
  - cbn [linked] in Hys. destruct Hys as [(lx & Hx & Hpx' & Hnx' & Hmx) Hys].
    apply not_elem_of_cons in Hny as [Hnx2 Hny]. apply not_elem_of_cons in Hpy as [Hpx2 Hpy].
    apply NoDup_cons in Hndy as [Hxy _].
    set (l1 := set_l_next_marked true l). set (s1 := wr n (NLeaf l1) s).
    assert (m_heap s1 !! n = Some (NLeaf l1)) as Hn1 by apply wr_at.
    rewrite (sbind_run _ _ _ _ _ (get_leaf_run _ _ _ Hn1)). change (l_prev l1) with (l_prev l).
    rewrite Hnp. cbn [deref]. rewrite sbind_ret.
    assert (m_heap s1 !! p = Some (NLeaf lp)) as Hp1 by (unfold s1; by rewrite wr_other).
    rewrite (sbind_run _ _ _ _ _ (get_leaf_run _ _ _ Hp1)), Hpx, Hpm, bool_decide_eq_true_2 by done. cbn [negb andb].
    rewrite (mbind_run _ _ _ _ _ (upd_leaf_run _ _ _ _ Hp1)). set (s2 := wr p (NLeaf (set_l_next_marked true lp)) s1).
    assert (m_heap s2 !! x = Some (NLeaf lx)) as Hx2 by (unfold s2, s1; by rewrite !wr_other).
    rewrite (mbind_run _ _ _ _ _ (upd_leaf_run _ _ _ _ Hx2)). set (lx1 := set_l_prev (Some p) lx).
    set (s3 := wr x (NLeaf lx1) s2).
    assert (m_heap s3 !! p = Some (NLeaf (set_l_next_marked true lp))) as Hp3.
    { unfold s3, s2. rewrite wr_other by done. apply wr_at. }
    rewrite (set_next_run _ _ _ _ Hp3). change (relink (set_l_next_marked true lp) (Some x)) with (relink lp (Some x)).
    set (s4 := wr p (NLeaf (relink lp (Some x))) s3).
    assert (forall m, m <> n -> m <> p -> m <> x -> m_heap s4 !! m = m_heap s !! m) as Hsame.
    { intros m ? ? ?. unfold s4, s3, s2, s1. by rewrite !wr_other. }
    assert (m_heap s4 !! x = Some (NLeaf lx1)) as Hx4 by (unfold s4, s3; rewrite wr_other by done; apply wr_at).
    assert (m_heap s4 !! n = Some (NLeaf l1)) as Hn4.
    { unfold s4, s3, s2. rewrite !wr_other by done. apply wr_at. }
    exists s4. split; [done|]. split.
    + eapply linked_replace; [exact Hlk| |done|].
      * intros m Hmxs. apply Hsame; intros ->.
        -- apply (Hdx n Hmxs). right. left.
        -- by apply (Hdx p Hmxs), list_elem_of_here.
        -- apply (Hdx x Hmxs). right. right. left.
      * cbn [linked]. split; [exists (relink lp (Some x)); split; [apply wr_at|done]|].
        split; [exists lx1; by split|]. eapply linked_frame; [exact Hys|].
        intros m Hmy. apply Hsame; intros ->; done.
    + intros m. destruct (decide (m = p)) as [->|Hmp]; [by rewrite Hp; unfold s4; rewrite wr_at|].
      destruct (decide (m = n)) as [->|Hmn]; [by rewrite Hn, Hn4|].
      destruct (decide (m = x)) as [->|Hmxx]; [by rewrite Hx, Hx4|].
      rewrite Hsame by done. destruct (m_heap s !! m); [apply same_but_links_refl|done].
Qed.
End leaf_links.

(** ** Three leaves of the namespace table *)

Section witness.
#[local] Existing Instance x86_config.
#[local] Instance fuel : Fuel := 60%nat.

Definition linked_leaf (prev next : ptr) : node :=
  NLeaf (Leaf 0 0 0 modstate_insert (replicate 7 0) (make_empty 7) (replicate 7 0) (replicate 7 lv_make_empty)
    None false next prev None 0 None None).

(** Leaves 1, 2 and 3 in order, and leaf 4, not linked yet. *)
Definition three_leaves : mstate :=
  MState (list_to_map [(1, linked_leaf None (Some 2)); (2, linked_leaf (Some 1) (Some 3));
                       (3, linked_leaf (Some 2) None); (4, linked_leaf None None)])%positive 5 [] [] None.

Lemma three_leaves_linked : linked (m_heap three_leaves) None [1; 2; 3]%positive.
Proof. cbn [linked]. repeat split; eexists; (split; [vm_compute; reflexivity|done]). Defined.

End witness.
