(* ===== verification/NamespaceFacts.v ===== *)
(** * Looking paths up in the namespace

    The abstract namespace is a finite graph: every directory, named by the
    canonical root of its layer, has its metadata and a finite map from
    component hashes to files and directories.  When the heap represents a
    graph, the lookups walk the graph. *)

From S2P Require Export LayerEdge NamespaceOps NamespacePaths.
From S2P Require Import NodeVersion KPermuter.

#[local] Open Scope Z_scope.
#[local] Open Scope lhm_scope.

Section namespace_facts.
Context {cfg : Config} {fuel : Fuel}.

(** ** The key of an edge *)

Lemma single_component_key_bytes h :
  Word.is_word 64 h -> make_single_component_key h = rev (le_bytes 8 h).
Proof. apply encode1_be. Qed.

Lemma edge_key_ikey h :
  Word.is_word 64 h ->
  let key := make_single_component_key h in
  k_ikey (key_of_buf key (Z.of_nat (length key))) = h /\ Z.of_nat (length key) = 8.
Proof.
  intros Hh key. assert (key = rev (le_bytes 8 h)) as -> by by apply single_component_key_bytes.
  assert (length (rev (le_bytes 8 h)) = 8%nat) as Hl by by rewrite length_rev, length_le_bytes.
  rewrite Hl. split; [|done]. unfold key_of_buf. cbn [k_ikey]. unfold ikey_make_comparable.
  rewrite make_comparable_spec by apply buf_memory_bytes, Forall_rev_byte, le_bytes_range.
  unfold slice_bytes, pad. rewrite load_buf_drop by (rewrite ?Hl; cbn; lia). rewrite drop_0, take_ge by (rewrite Hl; cbn; lia).
  rewrite Hl. cbn [Nat.sub zeros replicate]. rewrite app_nil_r.
  unfold be_value. rewrite rev_involutive, le_value_bytes. by apply Z.mod_small.
Qed.

(** ** The canonical root *)

(** From [n], parent pointers lead to [m], which has no parent. *)
Inductive canon (h : gmap loc node) : loc -> loc -> nat -> Prop :=
| canon_root n nd : h !! n = Some nd -> node_calm nd -> node_parent nd = None -> canon h n n 0
| canon_parent n nd p m k :
    h !! n = Some nd -> node_calm nd -> node_parent nd = Some p -> p <> n -> canon h p m k ->
    canon h n m (S k).

Lemma canonicalize_run s n m k f :
  canon (m_heap s) n m k -> (k < f)%nat -> canonicalize_loop f n s = Ok (m, s).
Proof.
  intros H. revert f. induction H as [n nd Hn Hc Hp|n nd p m k Hn Hc Hp Hne _ IH]; intros f Hk;
    (destruct f as [|f]; [lia|]); cbn [canonicalize_loop];
    rewrite (sbind_run _ _ _ _ _ (maybe_parent_run _ _ _ Hn Hc)), Hp; cbn [default].
  - by rewrite bool_decide_eq_true_2.
  - rewrite bool_decide_eq_false_2 by done. apply IH. lia.
Qed.

(** ** The abstract namespace *)

Inductive edge :=
  | edge_dir (root : loc)
  | edge_value (v : namespace_entry).

Record directory := Directory {
  d_meta : option directory_meta;
  d_edges : gmap Z edge
}.

Abbreviation graph := (gmap loc directory).

(** An item of a leaf represents an edge; a layer pointer may be stale. *)
Definition edge_of (h : gmap loc node) (e : item) (a : edge) : Prop :=
  match a with
  | edge_dir r => it_keylenx e = layer_keylenx /\
      exists p k, it_lv e = lv_layer (Some p) /\ canon h p r k /\ (k < np_fuel)%nat
  | edge_value v => it_keylenx e = ikey_size /\ it_lv e = lv_value v
  end.

(** The layer reached from [r0] has the edges [m]. *)
Definition edges_at (h : gmap loc node) (r0 root : loc) (m : gmap Z edge) : Prop :=
  exists depth ls, edge_layer h r0 depth root ls /\
    forall k, option_relation (edge_of h) (fun _ => False) (fun _ => False) (layer_map ls !! k) (m !! k).

Lemma layer_item_pointer h ls (m : gmap Z edge) :
  (forall k, option_relation (edge_of h) (fun _ => False) (fun _ => False) (layer_map ls !! k) (m !! k)) ->
  forall e k, layer_map ls !! k = Some e -> it_keylenx e = layer_keylenx -> exists p, it_lv e = lv_layer p.
Proof.
  intros Hrel e k He Hx. specialize (Hrel k). rewrite He in Hrel. destruct (m !! k) as [[r|v]|]; [| |done].
  - destruct Hrel as [_ (p & c & Hp & _)]. by exists (Some p).
  - destruct Hrel as [Hs _]. by rewrite Hx in Hs.
Qed.

Record directory_at (h : gmap loc node) (root : loc) (d : directory) : Prop := {
  da_edges : edges_at h root root (d_edges d);
  da_meta : exists nd, h !! root = Some nd /\ node_calm nd /\ node_meta nd = d_meta d;
  da_name : forall m, d_meta d = Some m -> Z.of_nat (length (directory_meta_name m)) <= kMaxEntryNameBytes
}.

(** The heap represents the graph, whose edges stay inside it. *)
Definition represents (h : gmap loc node) (G : graph) : Prop :=
  forall r d, G !! r = Some d ->
    directory_at h r d /\ (forall k r', d_edges d !! k = Some (edge_dir r') -> is_Some (G !! r')).

(** Following component hashes from a directory. *)
Definition step_edge (G : graph) (r : loc) (k : Z) : option edge :=
  match G !! r with Some d => d_edges d !! k | None => None end.

Fixpoint walk (G : graph) (r : loc) (hs : list Z) : option loc :=
  match hs with
  | [] => Some r
  | k :: hs =>
    match step_edge G r k with
    | Some (edge_dir r') => walk G r' hs
    | _ => None
    end
  end.

(** ** Following a path *)

Lemma find_edge_run s r0 root m h :
  edges_at (m_heap s) r0 root m -> Word.is_word 64 h ->
  exists c, find_unlocked_edge (edge_unlocked_cursor r0 h) s = Ok ((negb (uc_state c =? 0), c), s) /\
    match m !! h with
    | Some (edge_dir r') => uc_state c = -8 /\ exists p k, uc_lv c = lv_layer (Some p) /\
        canon (m_heap s) p r' k /\ (k < np_fuel)%nat
    | Some (edge_value v) => uc_state c = 1 /\ uc_lv c = lv_value v
    | None => uc_state c = 0
    end.
Proof.
  intros (depth & ls & He & Hrel) Hh. destruct (edge_key_ikey h Hh) as [Hk Hlen].
  unfold edge_unlocked_cursor, unlocked_cursor_node. cbn zeta in Hk |- *.
  set (ka := key_of_buf (make_single_component_key h) (Z.of_nat (length (make_single_component_key h)))) in *.
  destruct (find_unlocked_edge_run s r0 depth root ls ka) as (c & Hrun & _ & _ & Hc); [done|done|exact Hlen|].
  exists c. split; [exact Hrun|]. specialize (Hrel h). rewrite Hk in Hc.
  destruct (layer_map ls !! h) as [e|], (m !! h) as [a|]; cbn in Hrel; try done.
  destruct Hc as [-> ->]. unfold edge_state. destruct a as [r'|v]; cbn in Hrel.
  - destruct Hrel as [-> (p & k & -> & Hcan & Hkf)]. split; [done|]. by exists p, k.
  - destruct Hrel as [-> ->]. done.
Qed.

Lemma canonical_layer_run s p r k :
  canon (m_heap s) p r k -> (k < np_fuel)%nat ->
  canonical_layer (Ok (Some p)) s = Ok (r, s).
Proof. intros Hc Hk. exact (canonicalize_run s p r k np_fuel Hc Hk). Qed.

(** The levels counted: the directories stepped into. *)
Fixpoint walked (G : graph) (r : loc) (hs : list Z) (n : Z) : Z :=
  match hs with
  | [] => n
  | k :: hs =>
    match step_edge G r k with
    | Some (edge_dir r') => walked G r' hs (Word.addw 32 n 1)
    | _ => n
    end
  end.

Lemma locate_loop_run s G r d hs st :
  represents (m_heap s) G -> Forall (Word.is_word 64) hs -> G !! r = Some d ->
  locate_loop hs r st s =
    Ok ((walk G r hs, Stats (walked G r hs (directory_levels_walked st)) (child_slot_lookups st)), s).
Proof.
  intros HG Hhs. revert r d st. induction Hhs as [|h hs Hh _ IH]; intros r d st Hr; [by destruct st|].
  destruct (HG r d Hr) as [[Hed _ _] Hin]. destruct (find_edge_run s r r _ h Hed Hh) as (c & Hrun & Hc).
  cbn [locate_loop walk walked]. rewrite (sbind_run _ _ _ _ _ Hrun). cbn [snd]. unfold step_edge. rewrite Hr.
  destruct (d_edges d !! h) as [[r'|v]|] eqn:Hd.
  - destruct Hc as [Hst (p & k & Hlv & Hcan & Hk)]. unfold uc_is_layer, uc_layer_root. rewrite Hst, Hlv. cbn [Z.leb Z.ltb Z.compare negb orb].
    rewrite (sbind_run _ _ _ _ _ (canonical_layer_run s p r' k Hcan Hk)).
    destruct (Hin h r' Hd) as [d' Hd']. by rewrite (IH r' d' _ Hd').
  - destruct Hc as [Hst _]. rewrite Hst. cbn. by destruct st.
  - rewrite Hc. cbn. by destruct st.
Qed.

(** ** Looking a child up *)

Definition directory_entry (m : directory_meta) : namespace_entry :=
  let name := directory_meta_name m in
  Entry kind_directory (dm_ref m) (Word.wrap 8 (Z.of_nat (length name)))
    (name ++ zeros (Z.to_nat (kMaxEntryNameBytes + 1) - length name)).

(** The entry of a name in a directory: the directory behind the edge when its
    metadata has the name, else the value or the member of its conflict chain. *)
Definition child_entry (G : graph) (buckets : gmap Z (list namespace_entry)) (r : loc)
    (name : byte_string) (h : Z) : option namespace_entry :=
  match step_edge G r h with
  | Some (edge_dir r') =>
    match G !! r' with
    | Some d =>
      match d_meta d with
      | Some m => if directory_meta_name_equals m name then Some (directory_entry m) else None
      | None => None
      end
    | None => None
    end
  | Some (edge_value v) =>
    if entry_is_conflict_chain v then
      match buckets !! block_id (ne_ref v) with
      | Some es => List.find (fun e => entry_name_equals e name) es
      | None => None
      end
    else if entry_name_equals v name then Some v else None
  | None => None
  end.

Lemma mem_run {A} (m : M A) (a : A) (s : nstate) : m (ns_mem s) = Ok (a, ns_mem s) -> mem m s = Ok (a, s).
Proof. intros H. unfold mem. rewrite H. by destruct s. Qed.

Lemma has_meta_run n nd s :
  m_heap s !! n = Some nd -> node_calm nd ->
  Node.has_directory_meta n s = Ok (match nd with NLeaf l => 0 <? l_root_meta_extra64 l
                                              | NInternode i => 0 <? i_root_meta_extra64 i end, s).
Proof.
  intros Hn Hc. unfold Node.has_directory_meta. rewrite (sbind_run _ _ _ _ _ (isleaf_run _ _ _ Hn Hc)).
  destruct nd; cbn [is_leaf_node].
  - by rewrite (sbind_run _ _ _ _ _ (get_leaf_run _ _ _ Hn)).
  - by rewrite (sbind_run _ _ _ _ _ (get_internode_run _ _ _ Hn)).
Qed.

Lemma node_meta_run n nd s :
  m_heap s !! n = Some nd -> node_calm nd -> node_directory_meta n s = Ok (node_meta nd, s).
Proof.
  intros Hn Hc. unfold node_directory_meta. rewrite (sbind_run _ _ _ _ _ (isleaf_run _ _ _ Hn Hc)).
  destruct nd; cbn [is_leaf_node node_meta].
  - by rewrite (sbind_run _ _ _ _ _ (get_leaf_run _ _ _ Hn)).
  - by rewrite (sbind_run _ _ _ _ _ (get_internode_run _ _ _ Hn)).
Qed.

Lemma directory_entry_run r d name s :
  directory_at (m_heap s) r d ->
  directory_entry_of r (Some name) s =
    Ok (match d_meta d with
        | Some m => if directory_meta_name_equals m name then Some (directory_entry m) else None
        | None => None end, s).
Proof.
  intros [_ (nd & Hn & Hc & Hm) Hname]. unfold directory_entry_of.
  rewrite (sbind_run _ _ _ _ _ (has_meta_run _ _ _ Hn Hc)).
  set (has := match nd with NLeaf l => 0 <? l_root_meta_extra64 l | NInternode i => 0 <? i_root_meta_extra64 i end).
  destruct has eqn:Hhas; cbn [negb].
  - rewrite (sbind_run _ _ _ _ _ (node_meta_run _ _ _ Hn Hc)), Hm.
    destruct (d_meta d) as [m|] eqn:Hd; [|done]. destruct (directory_meta_name_equals m name); [|done].
    specialize (Hname m eq_refl). unfold make_namespace_entry.
    rewrite (proj2 (Z.leb_le _ _)) by (unfold kMaxEntryNameBytes in *; lia). done.
  - assert (node_meta nd = None) as Hnone by (destruct nd; unfold has in Hhas; cbn; by rewrite Hhas).
    rewrite Hnone in Hm. by rewrite <- Hm.
Qed.

Lemma lookup_slot_run s p root m h :
  edges_at (m_heap s) p root m -> Word.is_word 64 h ->
  lookup_child_slot_from_parent_root p h s =
    Ok (match m !! h with
        | Some (edge_dir r') => Some (ChildSlot true (Some r') empty_entry)
        | Some (edge_value v) => Some (ChildSlot false None v)
        | None => None end, s).
Proof.
  intros Hm Hh. destruct (find_edge_run s p root m h Hm Hh) as (c & Hrun & Hc).
  unfold lookup_child_slot_from_parent_root. rewrite (sbind_run _ _ _ _ _ Hrun). cbn [snd].
  unfold uc_is_layer, uc_layer_root, uc_value. destruct (m !! h) as [[r'|v]|].
  - destruct Hc as [-> (q & k & -> & Hcan & Hk)]. cbn [Z.ltb Z.compare andb].
    by rewrite (sbind_run _ _ _ _ _ (canonical_layer_run s q r' k Hcan Hk)).
  - destruct Hc as [-> ->]. done.
  - by rewrite Hc.
Qed.

Definition one_lookup (st : lookup_probe_stats) : lookup_probe_stats :=
  Stats (directory_levels_walked st) (Word.addw 32 (child_slot_lookups st) 1).

Lemma lookup_child_run s G p root d name h st :
  represents (m_heap (ns_mem s)) G -> G !! root = Some d ->
  edges_at (m_heap (ns_mem s)) p root (d_edges d) -> Word.is_word 64 h ->
  lookup_child_from_parent_root_stats p name h st s =
    Ok ((child_entry G (ns_buckets s) root name h, one_lookup st), s).
Proof.
  intros HG Hr Hm Hh. unfold lookup_child_from_parent_root_stats, child_entry, step_edge. rewrite Hr.
  rewrite (sbind_run _ _ _ _ _ (mem_run _ _ _ (lookup_slot_run _ _ _ _ _ Hm Hh))).
  destruct (d_edges d !! h) as [[r'|v]|] eqn:Hd; [| |done]; cbn [cs_is_layer cs_child_root cs_value].
  - cbn [deref]. rewrite sbind_ret. destruct (HG root d Hr) as [_ Hin]. destruct (Hin h r' Hd) as [d' Hd'].
    destruct (HG r' d' Hd') as [Hdir _].
    rewrite (sbind_run _ _ _ _ _ (mem_run _ _ _ (directory_entry_run _ _ name _ Hdir))). by rewrite Hd'.
  - destruct (entry_is_conflict_chain v); cbn [negb]; [|done].
    unfold find_bucket, sbind at 1, sm_bind. by destruct (ns_buckets s !! block_id (ne_ref v)).
Qed.

(** ** Looking a path up *)

Definition root_entry : namespace_entry :=
  Entry kind_directory (make_inode_ref 0 0) 1 (slash :: zeros 63).

(** The entry of a path, by its components. *)
Definition path_entry (G : graph) (buckets : gmap Z (list namespace_entry)) (root : loc)
    (cs : list byte_string) : option namespace_entry :=
  match last cs with
  | None => Some root_entry
  | Some c =>
    match walk G root (map hash_component (removelast cs)) with
    | Some r => child_entry G buckets r c (hash_component c)
    | None => None
    end
  end.

Lemma parse_shape path parsed :
  parse_absolute_path path = Ok parsed ->
  exists cs, Forall is_component cs /\ parsed = Parsed (normalize cs) cs (map hash_component cs).
Proof.
  destruct path as [|c r]; [done|]. intros H. assert (c = slash) as ->.
  { unfold parse_absolute_path in H. destruct (Z.eqb_spec c slash); [done|]. done. }
  rewrite parse_absolute_path_slash in H. cbn zeta in H. destruct (existsb _ _); [done|]. injection H as <-.
  eexists. split; [|done]. apply path_components_ok.
Qed.

Lemma normalize_root cs : Forall is_component cs -> normalize cs = [slash] <-> cs = [].
Proof.
  intros H. rewrite normalize_flat by done. destruct cs as [|c cs]; [done|].
  split; [|done]. intros He. by destruct (flat_nonslash (c :: cs) H ltac:(done)).
Qed.

Lemma hashes_words cs : Forall (Word.is_word 64) (map hash_component cs).
Proof. apply Forall_map, Forall_true. intros c. apply hash_component_word. Qed.

(** The heap, its table and the namespace's graph. *)
Record namespace_at (s : nstate) (G : graph) (root : loc) : Prop := {
  na_graph : represents (m_heap (ns_mem s)) G;
  na_root : exists r0 d, m_root (ns_mem s) = Some r0 /\ G !! root = Some d /\
    edges_at (m_heap (ns_mem s)) r0 root (d_edges d)
}.

(** The directory found for a path of components [cs]. *)
Lemma locate_run s G root cs st :
  namespace_at s G root -> Forall is_component cs ->
  let found := walk G root (map hash_component cs) in
  exists p, locate_directory_root_stats (Parsed (normalize cs) cs (map hash_component cs)) st (ns_mem s) =
    Ok ((p, Stats (walked G root (map hash_component cs) (directory_levels_walked st)) (child_slot_lookups st)), ns_mem s) /\
    match found with
    | Some r => exists q d, p = Some q /\ G !! r = Some d /\ edges_at (m_heap (ns_mem s)) q r (d_edges d) /\
        (cs <> [] -> q = r)
    | None => p = None
    end.
Proof.
  intros [HG (r0 & d & Hr0 & Hd & He)] Hcs found. unfold locate_directory_root_stats.
  assert (table_root (ns_mem s) = Ok (Some r0, ns_mem s)) as Hroot by (unfold table_root; by rewrite Hr0).
  rewrite (sbind_run _ _ _ _ _ Hroot). cbn [deref]. rewrite sbind_ret. unfold is_root_path. cbn [normalized_path].
  case_bool_decide as Hn; rewrite normalize_root in Hn by done.
  - subst cs found. exists (Some r0). cbn. split; [by destruct st|]. by exists r0, d.
  - destruct cs as [|c cs]; [done|]. pose proof (hashes_words (c :: cs)) as Hw. cbn [map hashes] in *.
    inversion Hw as [|? ? Hwc Hwcs]; subst. destruct (find_edge_run _ _ _ _ _ He Hwc) as (u & Hrun & Hu).
    subst found. cbn [locate_loop walk walked]. rewrite (sbind_run _ _ _ _ _ Hrun). cbn [snd].
    unfold step_edge. rewrite Hd. destruct (d_edges d !! hash_component c) as [[r'|v]|] eqn:Hc.
    + destruct Hu as [Hst (q & k & Hlv & Hcan & Hk)]. unfold uc_is_layer, uc_layer_root. rewrite Hst, Hlv.
      cbn [Z.leb Z.ltb Z.compare negb orb]. rewrite (sbind_run _ _ _ _ _ (canonical_layer_run _ q r' k Hcan Hk)).
      destruct (HG root d Hd) as [_ Hin]. destruct (Hin _ r' Hc) as [d' Hd'].
      rewrite (locate_loop_run _ G r' d' _ _ HG Hwcs Hd'). eexists. split; [reflexivity|].
      assert (forall hs a, is_Some (G !! a) -> match walk G a hs with Some r => is_Some (G !! r) | None => True end) as Hw'.
      { induction hs as [|h hs IH]; intros a Ha; [done|]. cbn. unfold step_edge. destruct Ha as [da Hda]. rewrite Hda.
        destruct (d_edges da !! h) as [[b|]|] eqn:Hb; [|done..]. apply IH. by eapply (HG a da Hda). }
      specialize (Hw' (map hash_component cs) r' ltac:(by exists d')).
      destruct (walk G r' (map hash_component cs)) as [r|]; [|done]. destruct Hw' as [dr Hdr].
      exists r, dr. split; [done|]. split; [done|]. split; [|done]. by destruct (HG r dr Hdr) as [[? _ _] _].
    + destruct Hu as [Hst _]. rewrite Hst. exists None. split; [by destruct st|done].
    + rewrite Hu. exists None. split; [by destruct st|done].
Qed.

(** The parsed path of the components [cs]. *)
Definition parsed_of (cs : list byte_string) : ParsedPath := Parsed (normalize cs) cs (map hash_component cs).

Lemma locate_directory_run s G root cs :
  namespace_at s G root -> Forall is_component cs ->
  exists p, locate_directory_root (parsed_of cs) (ns_mem s) = Ok (p, ns_mem s) /\
    match walk G root (map hash_component cs) with
    | Some r => exists q d, p = Some q /\ G !! r = Some d /\ edges_at (m_heap (ns_mem s)) q r (d_edges d) /\
        (cs <> [] -> q = r)
    | None => p = None
    end.
Proof.
  intros Hs Hcs. destruct (locate_run s G root cs (Stats 0 0) Hs Hcs) as (p & Hrun & Hp). exists p. split; [|done].
  unfold locate_directory_root, parsed_of. by rewrite (sbind_run _ _ _ _ _ Hrun).
Qed.

(** A parsed path that is not the root: its parent and its last component. *)
Record is_child_path (pp : ParsedPath) (cs : list byte_string) (c : byte_string) : Prop := {
  cp_root : is_root_path pp = false;
  cp_components : no_components pp = false;
  cp_parent : parent_of pp = parsed_of cs;
  cp_name : forall A (k : byte_string -> sm nstate A) s, (let* name := back_component pp in k name) s = k c s;
  cp_hash : forall A (k : Z -> sm nstate A) s, (let* h := back_hash pp in k h) s = k (hash_component c) s
}.

Lemma child_path cs c : Forall is_component (cs ++ [c]) -> is_child_path (parsed_of (cs ++ [c])) cs c.
Proof.
  intros Hcs. unfold parsed_of. split; unfold is_root_path, no_components, parent_of, back_component, back_hash;
    cbn [normalized_path components hashes].
  - apply bool_decide_eq_false_2. rewrite normalize_root by done. by destruct cs.
  - apply bool_decide_eq_false_2. by destruct cs.
  - rewrite parent_path_spec, map_app by done. cbn [map]. by rewrite !removelast_last.
  - intros A k s. by rewrite last_snoc, sbind_ret.
  - intros A k s. rewrite map_app. cbn [map]. by rewrite last_snoc, sbind_ret.
Qed.

Lemma lookup_entry_run (s : nstate) (G : graph) (root : loc) (path : byte_string) :
  namespace_at s G root ->
  lookup_entry path s =
    match parse_absolute_path path with
    | Ok parsed => Ok (path_entry G (ns_buckets s) root (components parsed), s)
    | Fault f => Fault f
    end.
Proof.
  intros Hs. unfold lookup_entry. destruct (parse_absolute_path path) as [parsed|f] eqn:Hparse; [|done].
  rewrite (sbind_run _ _ _ _ _ (lift_run _ _ _ eq_refl)).
  destruct (parse_shape _ _ Hparse) as (cs & Hcs & ->). clear Hparse. cbn [components].
  unfold lookup_entry_from_parsed, lookup_entry_from_parsed_stats, is_root_path, no_components, path_entry.
  cbn [normalized_path components hashes]. case_bool_decide as Hn; rewrite normalize_root in Hn by done.
  { subst cs. reflexivity. }
  destruct (@exists_last _ cs Hn) as (cs0 & c & ->). rewrite last_snoc, removelast_last.
  rewrite !bool_decide_eq_false_2 by (destruct cs0; done). cbn [orb].
  unfold parent_of, back_component, back_hash. cbn [normalized_path components hashes].
  rewrite parent_path_spec, map_app by done. cbn [map]. rewrite !removelast_last, !last_snoc.
  pose proof Hcs as [Hcs0 Hc]%Forall_app.
  destruct (locate_run s G root cs0 (Stats 0 0) Hs Hcs0) as (p & Hrun & Hp). rewrite sbind_assoc.
  rewrite (sbind_run _ _ _ _ _ (mem_run _ _ _ Hrun)).
  destruct (walk G root (map hash_component cs0)) as [r|].
  - destruct Hp as (q & d & -> & Hd & Hq & _). rewrite sbind_assoc, sbind_ret, sbind_assoc, sbind_ret.
    rewrite (sbind_run _ _ _ _ _ (lookup_child_run s G q r d c _ _ (na_graph _ _ _ Hs) Hd Hq (hash_component_word c))).
    done.
  - by subst p.
Qed.

(** C4: [lookup_entry] on a namespace whose heap represents a graph of
    directories: every path is parsed and followed component by component
    through the directories' layers, however deep their trees and however stale
    the layer pointers stored in them are, and the answer is the one the graph
    gives; the lookup changes nothing, and fails only on a path that does not
    parse. *)
Theorem lookup_entry_walks (s : nstate) (G : graph) (root : loc) (path : byte_string) :
  namespace_at s G root ->
  lookup_entry path s =
    match parse_absolute_path path with
    | Ok parsed => Ok (path_entry G (ns_buckets s) root (components parsed), s)
    | Fault f => Fault f
    end.
Proof. apply lookup_entry_run. Qed.
End namespace_facts.
