(* ===== verification/Readdir.v ===== *)
(** * Listing a directory

    [readdir] on a heap that represents a graph walks the whole tree of the
    directory's layer and gives one record per child, in the order of the
    component hashes. *)

From Stdlib Require Import Sorting.Sorted.
From S2P Require Export NamespaceFacts.
From S2P Require Import NodeVersion KPermuter SplitFacts.

#[local] Open Scope Z_scope.
#[local] Open Scope lhm_scope.

Section readdir.
Context {cfg : Config} {fuel : Fuel}.

Abbreviation graph := (gmap loc directory).

(** The records of the edge [a] under the hash [k]: a file, the members of a
    conflict chain, or the directory as its metadata names it. *)
Definition edge_records (G : graph) (buckets : gmap Z (list namespace_entry)) (hs : list Z) (ka : Z * edge) :
    list readdir_record :=
  match snd ka with
  | edge_value v =>
    if entry_is_conflict_chain v then
      match buckets !! block_id (ne_ref v) with
      | Some es => map (readdir_record_of hs (fst ka)) es
      | None => []
      end
    else [readdir_record_of hs (fst ka) v]
  | edge_dir r =>
    match G !! r with
    | Some d =>
      match d_meta d with
      | Some m => [Readdir (hs ++ [dm_component_hash m]) (dm_component_hash m) (directory_meta_name m) (directory_entry m)]
      | None => []
      end
    | None => []
    end
  end.

Section one_directory.
Context (s : nstate) (G : graph) (hs : list Z) (HG : represents (m_heap (ns_mem s)) G).

(** An item of a leaf is the edge [ka], whose target is a directory of the graph. *)
Definition item_edge (e : item) (ka : Z * edge) : Prop :=
  it_ikey e = fst ka /\ edge_of (m_heap (ns_mem s)) e (snd ka) /\
  (forall r, snd ka = edge_dir r -> is_Some (G !! r)).

Abbreviation records := (edge_records G (ns_buckets s) hs).

Lemma append_slot_run l p out ka :
  arrays_ok l -> 0 <= p < leaf_width -> item_edge (slot_item l p) ka ->
  append_slot l p hs out s = Ok (out ++ records ka, s).
Proof using HG.
  intros [A1 A2 A3] Hp (Hk & Ha & Hin). destruct ka as [k a]. cbn [fst snd] in *.
  destruct (aget_total (l_lv l) p) as [lv Hlv]; [lia|].
  assert (nth (Z.to_nat p) (l_lv l) lv_make_empty = lv) as Hlv'.
  { apply aget_ok in Hlv as [_ Hlv]. by rewrite nth_lookup, Hlv. }
  unfold append_slot. rewrite (sbind_run _ _ _ _ _ (lift_run _ _ _ Hlv)). unfold is_layer, keylenx_is_layer.
  cbn [slot_item it_ikey] in Hk. rewrite Hk. unfold edge_records. cbn [fst snd]. destruct a as [r|v].
  - destruct Ha as (Hx & q & c & Hq & Hcan & Hc). cbn [slot_item it_keylenx it_lv] in Hx, Hq.
    rewrite Hlv' in Hq. subst lv. rewrite Hx. cbn [negb layer_keylenx Z.ltb Z.compare].
    destruct (Hin r eq_refl) as [d Hd]. destruct (HG r d Hd) as [[_ (nd & Hnd & Hcalm & Hm) Hname] _].
    unfold lv_get_layer.
    match goal with |- (if ?b then _ else _) _ = _ => change b with false; cbn iota end.
    rewrite (sbind_run _ _ _ _ _ (mem_run _ _ _ (canonical_layer_run _ q r c Hcan Hc))).
    rewrite (sbind_run _ _ _ _ _ (mem_run _ _ _ (has_meta_run _ _ _ Hnd Hcalm))). rewrite Hd.
    set (has := match nd with NLeaf l => 0 <? l_root_meta_extra64 l | NInternode i => 0 <? i_root_meta_extra64 i end).
    destruct has eqn:Hhas; cbn [negb].
    + rewrite (sbind_run _ _ _ _ _ (mem_run _ _ _ (node_meta_run _ _ _ Hnd Hcalm))), Hm.
      destruct (d_meta d) as [m|] eqn:Hdm; [|by rewrite app_nil_r]. specialize (Hname m eq_refl).
      assert (make_namespace_entry kind_directory (dm_ref m) (directory_meta_name m) = Ok (directory_entry m)) as Hmk.
      { unfold make_namespace_entry. by rewrite (proj2 (Z.leb_le _ _)) by (unfold kMaxEntryNameBytes in *; lia). }
      by rewrite (sbind_run _ _ _ _ _ (lift_run _ _ _ Hmk)).
    + assert (node_meta nd = None) as Hnone by (destruct nd; unfold has in Hhas; cbn; by rewrite Hhas).
      rewrite Hnone in Hm. rewrite <- Hm. by rewrite app_nil_r.
  - destruct Ha as (Hx & Hv). cbn [slot_item it_keylenx it_lv] in Hx, Hv. rewrite Hlv' in Hv. subst lv. rewrite Hx.
    match goal with |- (if ?b then _ else _) _ = _ => change b with true; cbn iota end.
    assert (lv_get_value (@lv_value namespace_table_params v) = Ok v) as Hget by done.
    rewrite (sbind_run _ _ _ _ _ (lift_run _ _ _ Hget)).
    destruct (entry_is_conflict_chain v); cbn [negb]; [|done].
    unfold find_bucket, sbind, sm_bind. destruct (ns_buckets s !! block_id (ne_ref v)); [done|by rewrite app_nil_r].
Qed.
Lemma append_slots_run l out kvs (i : nat) :
  leaf_ok l -> Forall2 item_edge (drop i (leaf_items l)) kvs ->
  append_slots (length kvs) l (Z.of_nat i) hs out s = Ok (out ++ flat_map records kvs, s).
Proof using HG.
  intros Hl. revert i out. induction kvs as [|ka kvs IH]; intros i out Hall; cbn; [by rewrite app_nil_r|].
  assert (1 <= leaf_width <= 15) as HW by (cbn; lia).
  destruct (drop i (leaf_items l)) as [|e es] eqn:Hd; [by inversion Hall|].
  apply Forall2_cons in Hall as [He Hall].
  assert (leaf_items l !! i = Some e) as Hi by (rewrite <- (Nat.add_0_r i), <- lookup_drop, Hd; done).
  pose proof (length_leaf_items l Hl HW) as Hlen. pose proof (lookup_lt_Some _ _ _ Hi) as Hlt.
  assert (Z.of_nat i < leaf_width) as Hiw.
  { pose proof (KPermuter.size_range (l_permutation l)). destruct Hl as [_ [Hsz _]]. unfold leaf_size in Hlen. lia. }
  rewrite leaf_items_lookup in Hi by (done || lia). injection Hi as <-.
  rewrite (sbind_run _ _ _ _ _ (append_slot_run l _ out ka (lo_arrays _ Hl) (perm_get_range l (Z.of_nat i) Hl ltac:(lia)) He)).
  replace (Z.of_nat i + 1) with (Z.of_nat (S i)) by lia. rewrite (IH (S i)), app_assoc; [done|].
  by rewrite <- (Nat.add_1_r i), <- drop_drop, Hd.
Qed.

(** The walk over the tree at a node gives the records of its items. *)
Lemma append_from_node_run d n lo hi ls fuel0 out kvs :
  layer_tree (m_heap (ns_mem s)) d n lo hi ls -> (d < fuel0)%nat -> Forall2 item_edge (tree_items ls) kvs ->
  append_directory_children_from_node fuel0 n hs out s = Ok (out ++ flat_map records kvs, s).
Proof using HG.
  intros Ht. revert fuel0 out kvs.
  induction Ht as [n l lo hi Hn Hc Hok _ _ _|d n i lo hi child sub Hn Hc Hi Hch _ _ _ IH]; intros fuel0 out kvs Hf Hall;
    (destruct fuel0 as [|fuel0]; [lia|]); cbn [append_directory_children_from_node];
    rewrite (sbind_run _ _ _ _ _ (mem_run _ _ _ (isleaf_run _ _ _ Hn Hc))); cbn [is_leaf_node].
  - rewrite (sbind_run _ _ _ _ _ (mem_run _ _ _ (get_leaf_run _ _ _ Hn))).
    unfold tree_items in Hall. cbn in Hall. rewrite app_nil_r in Hall.
    assert (1 <= leaf_width <= 15) as HW by (cbn; lia). pose proof (length_leaf_items l Hok HW) as Hlen.
    pose proof (Forall2_length _ _ _ Hall) as Hlen'.
    replace (Z.to_nat (leaf_size l)) with (length kvs) by lia. by apply (append_slots_run l out kvs 0).
  - rewrite (sbind_run _ _ _ _ _ (mem_run _ _ _ (get_internode_run _ _ _ Hn))).
    set (N := Z.to_nat (i_nkeys i)). pose proof (io_nkeys _ _ _ Hi) as HN.
    rewrite (internode_children i child) by (done || lia). fold N.
    match goal with |- ?g (map _ _) out s = _ => set (go := g) end.
    enough (forall cnt a out kvs, (a + cnt <= S N)%nat ->
      Forall2 item_edge (flat_map (fun j => tree_items (sub j)) (seq a cnt)) kvs ->
      go (map (fun j => Some (child j)) (seq a cnt)) out s = Ok (out ++ flat_map records kvs, s)) as Hgo.
    { apply Hgo; [lia|]. by rewrite <- tree_items_flat_map. }
    clear out kvs Hall. induction cnt as [|cnt IHc]; intros a out kvs Ha Hall; cbn [seq map flat_map] in *.
    + apply Forall2_nil_inv_l in Hall. subst kvs. cbn. by rewrite app_nil_r.
    + apply Forall2_app_inv_l in Hall as (kvs1 & kvs2 & H1 & H2 & ->).
      change (go (Some (child a) :: ?cs) out) with
        (sbind (append_directory_children_from_node fuel0 (child a) hs out) (fun o => go cs o)).
      rewrite (sbind_run _ _ _ _ _ (IH a ltac:(lia) fuel0 out kvs1 ltac:(lia) H1)).
      rewrite (IHc (S a) _ kvs2 ltac:(lia) H2). by rewrite flat_map_app, app_assoc.
Qed.

(** The edges of a directory in the order of its items. *)
Lemma edges_in_order q r depth ls (m : gmap Z edge) :
  edge_layer (m_heap (ns_mem s)) q depth r ls ->
  (forall k, option_relation (edge_of (m_heap (ns_mem s))) (fun _ => False) (fun _ => False) (layer_map ls !! k) (m !! k)) ->
  (forall k r', m !! k = Some (edge_dir r') -> is_Some (G !! r')) ->
  exists kvs, Forall2 item_edge (tree_items ls) kvs /\ StronglySorted Z.lt (fst <$> kvs) /\ list_to_map kvs = m.
Proof using HG.
  intros [[_ Ht _ _] _] Hrel Hin. pose proof (layer_ikeys_sorted _ _ _ _ _ _ Ht) as Hs.
  assert (forall e, e ∈ tree_items ls -> exists ka, item_edge e ka /\ m !! fst ka = Some (snd ka)) as Hone.
  { intros e He. specialize (Hrel (it_ikey e)). unfold layer_map in Hrel.
    rewrite (proj2 (items_map_lookup _ _ e Hs)) in Hrel by done.
    destruct (m !! it_ikey e) as [a|] eqn:Hm; [|done]. exists (it_ikey e, a). split; [|done].
    split; [done|]. split; [done|]. intros r' Hr'. cbn in Hr'. subst a. by eapply Hin. }
  assert (exists kvs, Forall2 item_edge (tree_items ls) kvs /\ Forall (fun ka => m !! fst ka = Some (snd ka)) kvs)
    as (kvs & Hall & Hm).
  { revert Hone. generalize (tree_items ls). clear. induction l as [|e es IH]; intros Hone; [by exists []|].
    destruct IH as (kvs & Hall & Hm); [intros e' He'; apply Hone; by right|].
    destruct (Hone e ltac:(left)) as (ka & Hka & Hmk). exists (ka :: kvs). split; by constructor. }
  exists kvs. split; [done|].
  assert (fst <$> kvs = it_ikey <$> tree_items ls) as Hkeys.
  { clear - Hall. induction Hall as [|e ka es kvs [Hk _] _ IH]; [done|]. rewrite !fmap_cons. by rewrite IH, Hk. }
  split; [by rewrite Hkeys|]. apply map_eq. intros k. apply option_eq. intros a.
  rewrite <- elem_of_list_to_map by (rewrite Hkeys; by apply sorted_NoDup). split.
  - intros Hka. rewrite Forall_forall in Hm. by apply (Hm (k, a)).
  - intros Hk. specialize (Hrel k). rewrite Hk in Hrel. destruct (layer_map ls !! k) as [e|] eqn:He; [|done].
    apply items_map_lookup in He as [He Hek]; [|done]. apply list_elem_of_lookup in He as (i & Hi).
    destruct (Forall2_lookup_l _ _ _ _ _ Hall Hi) as ([k' a'] & Hi' & Hk' & _). cbn in Hk'.
    apply list_elem_of_lookup_2 in Hi' as Hel. rewrite Forall_forall in Hm. specialize (Hm _ Hel). cbn in Hm.
    subst k'. rewrite Hek, Hk in Hm. injection Hm as ->. by rewrite Hek in Hel.
Qed.

Lemma append_children_run q r (d : directory) :
  edges_at (m_heap (ns_mem s)) q r (d_edges d) ->
  (forall k r', d_edges d !! k = Some (edge_dir r') -> is_Some (G !! r')) ->
  exists kvs, StronglySorted Z.lt (fst <$> kvs) /\ list_to_map kvs = d_edges d /\
    append_directory_children r hs [] s = Ok (flat_map records kvs, s).
Proof using HG.
  intros (depth & ls & He & Hrel) Hin. destruct (edges_in_order q r depth ls _ He Hrel Hin) as (kvs & Hall & Hs & Hm).
  exists kvs. split; [done|]. split; [done|]. destruct He as [[_ Ht Hd _] _].
  unfold append_directory_children. by rewrite (append_from_node_run _ _ _ _ _ _ [] kvs Ht Hd Hall).
Qed.
End one_directory.

(** C5: [readdir] on a heap that represents a graph: for the path of a
    directory it returns one record for each of the directory's children, all of
    them, in increasing order of their hashes, however many nodes the layer's
    tree has, with the members of a conflict chain in the chain's order; for any
    other path it returns nothing; it changes nothing and fails only on a path
    that does not parse.  For ["/"] this needs the table's root pointer to be the
    root of its layer, which a split of the root node makes it not be: then the
    listing of ["/"] is incomplete (readdir_split_root of Scenarios). *)
Theorem readdir_lists_children (s : nstate) (G : graph) (root : loc) (path : byte_string) :
  namespace_at s G root ->
  match parse_absolute_path path with
  | Fault f => readdir path s = Fault f
  | Ok parsed =>
    (components parsed = [] -> m_root (ns_mem s) = Some root) ->
    match filter_entry entry_is_directory (path_entry G (ns_buckets s) root (components parsed)),
          walk G root (hashes parsed) with
    | Some _, Some r =>
      exists d kvs, G !! r = Some d /\ StronglySorted Z.lt (fst <$> kvs) /\ list_to_map kvs = d_edges d /\
        readdir path s = Ok (flat_map (edge_records G (ns_buckets s) (hashes parsed)) kvs, s)
    | _, _ => readdir path s = Ok ([], s)
    end
  end.
Proof.
  intros Hs. unfold readdir. destruct (parse_absolute_path path) as [parsed|f] eqn:Hparse; [|done].
  rewrite (sbind_run _ _ _ _ _ (lift_run _ _ _ eq_refl)). intros Hroot.
  pose proof (parse_again _ _ Hparse) as Hagain.
  destruct (parse_shape _ _ Hparse) as (cs & Hcs & ->). clear Hparse. cbn [components hashes normalized_path] in *.
  unfold is_root_path. cbn [normalized_path]. pose proof (na_graph _ _ _ Hs) as HG.
  case_bool_decide as Hn; rewrite normalize_root in Hn by done; cbn [negb].
  - subst cs. specialize (Hroot eq_refl). destruct Hs as [_ (r0 & d & Hr0 & Hd & He)].
    rewrite Hr0 in Hroot. injection Hroot as ->.
    change (filter_entry entry_is_directory (path_entry G (ns_buckets s) root [])) with (Some root_entry). cbn [map walk].
    destruct (append_children_run s G [] HG root root d He) as (kvs & Hsort & Hm & Hrun); [by eapply HG|].
    exists d, kvs. split; [done|]. split; [done|]. split; [done|]. rewrite <- Hrun.
    assert (mem table_root s = Ok (Some root, s)) as Ht by (apply mem_run; unfold table_root; by rewrite Hr0).
    by rewrite (sbind_run _ _ _ _ _ Ht).
  - pose proof (lookup_entry_run s G root (normalize cs) Hs) as Hlook. rewrite Hagain in Hlook. cbn [components] in Hlook.
    assert (lookup_directory (normalize cs) s =
      Ok (filter_entry entry_is_directory (path_entry G (ns_buckets s) root cs), s)) as Hdir.
    { unfold lookup_directory. by rewrite (sbind_run _ _ _ _ _ Hlook). }
    rewrite (sbind_run _ _ _ _ _ Hdir).
    destruct (filter_entry entry_is_directory (path_entry G (ns_buckets s) root cs)) as [e|]; [|done].
    destruct (locate_directory_run s G root cs Hs Hcs) as (p & Hloc & Hp).
    unfold parsed_of in Hloc.
    rewrite (sbind_run _ _ _ _ _ (mem_run _ _ _ Hloc)).
    destruct (walk G root (map hash_component cs)) as [r|]; [|by subst p].
    destruct Hp as (q & d & -> & Hd & Hq & Hqr). specialize (Hqr Hn). subst q.
    destruct (append_children_run s G (map hash_component cs) HG r r d Hq) as (kvs & Hsort & Hm & Happ); [by eapply HG|].
    by exists d, kvs.
Qed.
End readdir.
