(* ===== verification/GraphUpdate.v ===== *)
(** * Heaps that represent a changed graph

    Writing one leaf of a directory's layer changes that directory and no other:
    the facts the theorems on creation and removal share. *)

From S2P Require Export LayerInsert NamespaceFacts.
From S2P Require Import NodeVersion KPermuter SplitFacts.

#[local] Open Scope Z_scope.
#[local] Open Scope lhm_scope.

(** ** Layers that an update does not touch *)

Section frames.
Context {P : nodeparams}.

(** The chain of parents from a node ends at one root. *)
Lemma up_top h d d' m a b nda ndb :
  up h d m a -> up h d' m b -> h !! a = Some nda -> node_parent nda = None ->
  h !! b = Some ndb -> node_parent ndb = None -> a = b.
Proof.
  intros H. revert d' b. induction H as [m|d m nd p c Hm Hp _ IH]; intros d' b Hb Ha Hpa Hnb Hpb.
  - inversion Hb as [|? ? nd' p' ? Hm' Hp']; subst; [done|]. rewrite Ha in Hm'. injection Hm' as <-.
    by rewrite Hpa in Hp'.
  - inversion Hb as [|? ? nd' p' ? Hm' Hp' Hb']; subst.
    + rewrite Hm in Hnb. injection Hnb as <-. by rewrite Hpb in Hp.
    + rewrite Hm in Hm'. injection Hm' as <-. rewrite Hp in Hp'. injection Hp' as <-. by eapply IH.
Qed.

(** Writing a leaf of one layer leaves the other layers as they are. *)
Lemma edge_layer_frame h h' x l l' r0 d root ls r1 d1 root1 ls1 :
  leaf_update h h' x l l' -> edge_layer h r0 d root ls -> (x, l) ∈ ls ->
  edge_layer h r1 d1 root1 ls1 -> root1 <> root -> edge_layer h' r1 d1 root1 ls1.
Proof.
  intros Hu [[_ Ht _ (nd & Hnd & Hp)] _] Hin [[(k & Hc & Hk) Ht1 Hd1 (nd1 & Hnd1 & Hp1)] Hi1] Hne.
  split; [split|done].
  - exists k. split; [by eapply climbs_update|done].
  - eapply layer_tree_frame; [done..|]. intros y Hy. apply Hne.
    eapply up_top; [by eapply tree_leaf_up; [exact Ht1|exact Hy]|by eapply tree_leaf_up; [exact Ht|exact Hin]|done..].
  - done.
  - destruct (leaf_update_parent _ _ _ _ _ _ _ Hu Hnd1) as (nd' & Hnd' & Hp'). exists nd'.
    split; [done|congruence].
Qed.
End frames.

Section graph_update.
Context {cfg : Config} {fuel : Fuel}.

Abbreviation graph := (gmap loc directory).

Lemma canon_update h h' x l l' a b k :
  leaf_update h h' x l l' -> canon h a b k -> canon h' a b k.
Proof.
  intros Hu. induction 1 as [n nd Hn Hc Hp|n nd p m k Hn Hc Hp Hne _ IH];
    destruct (leaf_update_node _ _ _ _ _ _ _ Hu Hn Hc) as (nd' & Hn' & [? Hp' ? Hr' Hc']).
  - eapply canon_root; [done|done|congruence].
  - eapply canon_parent; [done|done| |done|done]. congruence.
Qed.

Lemma edge_of_update h h' x l l' e a :
  leaf_update h h' x l l' -> edge_of h e a -> edge_of h' e a.
Proof.
  intros Hu. destruct a as [r|v]; [|done]. intros (Hk & p & k & Hlv & Hc & Hf). split; [done|].
  exists p, k. split; [done|]. split; [by eapply canon_update|done].
Qed.

Lemma edges_rel_update h h' x l l' (m : gmap Z item) (es : gmap Z edge) k :
  leaf_update h h' x l l' ->
  option_relation (edge_of h) (fun _ => False) (fun _ => False) (m !! k) (es !! k) ->
  option_relation (edge_of h') (fun _ => False) (fun _ => False) (m !! k) (es !! k).
Proof.
  intros Hu. destruct (m !! k), (es !! k); cbn; try done. by apply edge_of_update with (1 := Hu).
Qed.

Lemma directory_node_update h h' x l l' r (meta : option directory_meta) :
  leaf_update h h' x l l' ->
  (exists nd, h !! r = Some nd /\ node_calm nd /\ node_meta nd = meta) ->
  exists nd, h' !! r = Some nd /\ node_calm nd /\ node_meta nd = meta.
Proof.
  intros Hu (nd & Hn & Hc & <-). destruct (leaf_update_node _ _ _ _ _ _ _ Hu Hn Hc) as (nd' & Hn' & Hs).
  exists nd'. split; [done|]. split; apply Hs.
Qed.

(** A graph with an edge added to one of its directories. *)
Definition add_edge (k : Z) (a : edge) (d : directory) : directory :=
  Directory (d_meta d) (<[k := a]> (d_edges d)).

Definition edges_agree (h : gmap loc node) (ls : list (loc * leaf)) (m : gmap Z edge) : Prop :=
  forall k, option_relation (edge_of h) (fun _ => False) (fun _ => False) (layer_map ls !! k) (m !! k).

Lemma edges_agree_insert h h' x l l' ls ls' m k e a :
  leaf_update h h' x l l' -> edges_agree h ls m -> layer_map ls' = <[k := e]> (layer_map ls) ->
  edge_of h' e a -> edges_agree h' ls' (<[k := a]> m).
Proof.
  intros Hu Hrel Hmap He k'. rewrite Hmap. destruct (decide (k' = k)) as [->|Hne].
  - by rewrite !lookup_insert_eq.
  - rewrite !lookup_insert_ne by done. by eapply edges_rel_update.
Qed.

(** The heap [h'] has one leaf of the directory [r] written, so that [r] has
    become [d'], and maybe fresh empty directories. *)
Lemma represents_update h h' G G' r d d' n l l' r0 depth ls ls' :
  represents h G -> G !! r = Some d ->
  edge_layer h r0 depth r ls -> (n, l) ∈ ls -> leaf_update h h' n l l' ->
  edges_agree h' ls' (d_edges d') -> d_meta d' = d_meta d ->
  (forall r1 c, climbs h r1 r c -> (c < np_fuel)%nat -> edge_layer h' r1 depth r ls') ->
  G' !! r = Some d' ->
  (forall r1 d1, r1 <> r -> G !! r1 = Some d1 -> G' !! r1 = Some d1) ->
  (forall r1 d1, r1 <> r -> G' !! r1 = Some d1 ->
     G !! r1 = Some d1 \/ (directory_at h' r1 d1 /\ d_edges d1 = ∅)) ->
  (forall k x, d_edges d' !! k = Some (edge_dir x) -> is_Some (G' !! x)) ->
  represents h' G' /\
  (forall q c, climbs h q r c -> (c < np_fuel)%nat -> edges_at h' q r (d_edges d')) /\
  (forall q r1 d1, G !! r1 = Some d1 -> r1 <> r -> edges_at h q r1 (d_edges d1) -> edges_at h' q r1 (d_edges d1)).
Proof.
  intros HG Hr Hel Hin Hu Hrel Hdm Hnew Hr' Hkeep Hfrom Hcl.
  assert (forall q c, climbs h q r c -> (c < np_fuel)%nat -> edges_at h' q r (d_edges d')) as Hedges.
  { intros q c Hc Hcf. exists depth, ls'. split; [by eapply Hnew|done]. }
  assert (forall q r1 d1, G !! r1 = Some d1 -> r1 <> r -> edges_at h q r1 (d_edges d1) -> edges_at h' q r1 (d_edges d1)) as Hother.
  { intros q r1 d1 Hr1 Hne (depth1 & ls1 & He1 & Hrel1). exists depth1, ls1. split.
    - by eapply (edge_layer_frame _ _ _ _ _ r0 depth r ls).
    - intros k'. by eapply edges_rel_update. }
  assert (forall x, is_Some (G !! x) -> is_Some (G' !! x)) as Hdom.
  { intros x [dx Hx]. destruct (decide (x = r)) as [->|]; [by eexists|]. eexists. by apply Hkeep. }
  split; [|by split]. intros r1 d1 Hr1. destruct (decide (r1 = r)) as [->|Hne].
  - rewrite Hr' in Hr1. injection Hr1 as <-.
    destruct (HG r d Hr) as [[(depth0 & ls0 & [[(c & Hc & Hcf) _ _ _] _] & _) Hmeta Hname] _].
    split; [split|done].
    + by eapply Hedges.
    + rewrite Hdm. by eapply directory_node_update.
    + by rewrite Hdm.
  - destruct (Hfrom r1 d1 Hne Hr1) as [Hold|[Hdir Hempty]].
    + destruct (HG r1 d1 Hold) as [[He Hmeta Hname] Hcl1]. split; [split|].
      * by apply Hother.
      * by eapply directory_node_update.
      * done.
      * intros k x Hk. by eapply Hdom, Hcl1.
    + split; [done|]. intros k x. by rewrite Hempty, lookup_empty.
Qed.

(** The root keeps its place when a directory changes. *)
Lemma namespace_at_update s s' G G' root r d d' n l l' r0 depth ls ls' :
  namespace_at s G root -> m_root (ns_mem s') = m_root (ns_mem s) -> G !! r = Some d ->
  edge_layer (m_heap (ns_mem s)) r0 depth r ls -> (n, l) ∈ ls ->
  leaf_update (m_heap (ns_mem s)) (m_heap (ns_mem s')) n l l' ->
  edges_agree (m_heap (ns_mem s')) ls' (d_edges d') -> d_meta d' = d_meta d ->
  (forall r1 c, climbs (m_heap (ns_mem s)) r1 r c -> (c < np_fuel)%nat -> edge_layer (m_heap (ns_mem s')) r1 depth r ls') ->
  G' !! r = Some d' ->
  (forall r1 d1, r1 <> r -> G !! r1 = Some d1 -> G' !! r1 = Some d1) ->
  (forall r1 d1, r1 <> r -> G' !! r1 = Some d1 ->
     G !! r1 = Some d1 \/ (directory_at (m_heap (ns_mem s')) r1 d1 /\ d_edges d1 = ∅)) ->
  (forall k x, d_edges d' !! k = Some (edge_dir x) -> is_Some (G' !! x)) ->
  namespace_at s' G' root.
Proof.
  intros [HG (q0 & droot & Hq0 & Hdroot & Hroot)] Hm Hr Hel Hin Hu Hrel Hdm Hnew Hr' Hkeep Hfrom Hcl.
  destruct (represents_update _ _ _ _ _ _ _ _ _ _ _ _ _ _ HG Hr Hel Hin Hu Hrel Hdm Hnew Hr' Hkeep Hfrom Hcl)
    as (HG' & Hedges & Hother).
  split; [done|]. exists q0. destruct (decide (root = r)) as [->|Hne].
  - rewrite Hr in Hdroot. injection Hdroot as <-. exists d'. split; [congruence|]. split; [done|].
    destruct Hroot as (depth0 & ls0 & [[(cl & Hcl0 & Hclf) _ _ _] _] & _). by eapply Hedges.
  - exists droot. split; [congruence|]. split; [by apply Hkeep|by apply Hother].
Qed.

(** ** Between operations *)

(** Every version word is at rest and the allocator's next locations are free. *)
Record settled (s : mstate) : Prop := {
  st_rest : forall m nd, m_heap s !! m = Some nd -> at_rest (node_version nd);
  st_fresh : forall m, (m_next s <= m)%positive -> m_heap s !! m = None
}.

(** The leaf of the directory [r] responsible for the hash [k] can take a key. *)
Definition room_for (h : gmap loc node) (r : loc) (k : Z) : Prop :=
  forall q depth ls n l, edge_layer h q depth r ls -> leaf_for h depth r None None ls k n l -> has_room l k.

Lemma layer_at_rest s q depth r ls n l :
  settled s -> edge_layer (m_heap s) q depth r ls -> (n, l) ∈ ls -> at_rest (l_version l).
Proof.
  intros Hs Hel Hnl. apply (st_rest _ Hs n (NLeaf l)).
  eapply tree_leaf_up, Hnl. apply (la_tree _ _ _ _ _ (el_at _ _ _ _ _ Hel)).
Qed.

(** A step on the table within the namespace's state. *)
Lemma mem_step {A} (m : M A) (a : A) (s : nstate) m' :
  m (ns_mem s) = Ok (a, m') -> mem m s = Ok (a, NState m' (ns_buckets s) (ns_next_bucket s)).
Proof. intros H. unfold mem. by rewrite H. Qed.

Lemma settled_write s n l l' :
  settled s -> m_heap s !! n = Some (NLeaf l) -> at_rest (l_version l') -> settled (wr n (NLeaf l') s).
Proof.
  intros [Hr Hf] Hn Hrest. split.
  - intros m nd Hm. destruct (decide (m = n)) as [->|Hne].
    + rewrite wr_at in Hm. by injection Hm as <-.
    + rewrite wr_other in Hm by done. by eapply Hr.
  - intros m Hm. cbn in Hm. rewrite wr_other; [by apply Hf|]. intros ->. by rewrite Hf in Hn.
Qed.
End graph_update.
