(* ===== verification/NamespaceUpdate.v ===== *)
(** * Creating directories in the namespace

    [mkdir] on a heap that represents a graph of directories: the new heap
    represents the graph with the new directory under its parent, and every other
    directory is untouched. *)

From S2P Require Export GraphUpdate.
From S2P Require Import NodeVersion KPermuter SplitFacts.

#[local] Open Scope Z_scope.
#[local] Open Scope lhm_scope.

Section namespace_update.
Context {cfg : Config} {fuel : Fuel}.

Abbreviation graph := (gmap loc directory).

(** ** The new directory's root *)

(** The state with a node allocated. *)
Definition alloc (nd : node) (s : mstate) : mstate :=
  MState (<[m_next s := nd]> (m_heap s)) (Pos.succ (m_next s)) (m_limbo s) (m_callbacks s) (m_root s).

Lemma alloc_at nd s : m_heap (alloc nd s) !! m_next s = Some nd.
Proof. apply lookup_insert_eq. Qed.
Lemma wr_alloc nd nd' s : wr (m_next s) nd' (alloc nd s) = alloc nd' s.
Proof. unfold wr, alloc, set_heap. cbn. by rewrite insert_insert_eq. Qed.

(** The leaf [make_root_with_meta] builds. *)
Definition directory_leaf (epoch : Z) (meta : directory_meta) : leaf :=
  Leaf (NodeVersion.mark_root nodeversion_type (NodeVersion.make_version nodeversion_type true)) 0 2 modstate_insert
    (replicate 7 0) (KPermuter.make_empty 7) (replicate 7 0) (replicate 7 lv_make_empty)
    None false None None None epoch None (Some meta).

Lemma directory_leaf_calm epoch meta : node_calm (NLeaf (directory_leaf epoch meta)).
Proof. by split. Qed.

Lemma upd_version_leaf n f l s :
  m_heap s !! n = Some (NLeaf l) ->
  upd_version n f s = Ok (tt, wr n (NLeaf (set_l_version (f (l_version l)) l)) s).
Proof. intros H. by rewrite (upd_version_run _ _ _ _ H). Qed.

Lemma set_parent_leaf n l p s :
  m_heap s !! n = Some (NLeaf l) -> node_calm (NLeaf l) ->
  set_parent n p s = Ok (tt, wr n (NLeaf (set_l_parent p l)) s).
Proof.
  intros H Hc. unfold set_parent. rewrite (sbind_run _ _ _ _ _ (isleaf_run _ _ _ H Hc)).
  cbn [is_leaf_node]. by rewrite (upd_leaf_run _ _ _ _ H).
Qed.

Lemma assign_meta_leaf n l meta s :
  m_heap s !! n = Some (NLeaf l) -> node_calm (NLeaf l) -> (0 <? l_root_meta_extra64 l) = true ->
  assign_directory_meta n meta s = Ok (tt, wr n (NLeaf (set_l_meta (Some meta) l)) s).
Proof.
  intros H Hc Hx. unfold assign_directory_meta. rewrite (sbind_run _ _ _ _ _ (has_meta_run _ _ _ H Hc)).
  rewrite Hx, (sbind_run _ _ _ _ _ (get_node_run _ _ _ H)). by rewrite (upd_leaf_run _ _ _ _ H).
Qed.

Lemma make_directory_run n l meta s :
  m_heap s !! n = Some (NLeaf l) ->
  leaf_make_root_with_meta 0 (Some n) meta s =
    Ok (m_next s, alloc (NLeaf (directory_leaf (l_phantom_epoch l) meta)) s).
Proof.
  intros H. unfold leaf_make_root_with_meta.
  assert (parent_epoch (Some n) s = Ok (l_phantom_epoch l, s)) as He.
  { unfold parent_epoch. by rewrite (sbind_run _ _ _ _ _ (get_leaf_run _ _ _ H)). }
  rewrite (sbind_run _ _ _ _ _ He). set (epoch := l_phantom_epoch l).
  assert (leaf_new (iceil (sizeof_leaf + Z.min 0 128) 64)
    (iceil (iceil (sizeof_leaf + Z.min 0 128) 64 + sizeof_directory_meta) 64) epoch =
    Ok (Leaf (NodeVersion.make_version nodeversion_type true) 0 2 modstate_insert (replicate 7 0)
      (KPermuter.make_empty 7) (replicate 7 0) (replicate 7 lv_make_empty) None false None None None epoch None None))
    as Hnew by reflexivity.
  rewrite (sbind_run _ _ _ _ _ (lift_run _ _ _ Hnew)). clear Hnew.
  match goal with |- context[Leaf ?a ?b ?c ?d ?e ?f ?g ?h None false None None None epoch None None] =>
    set (l0 := Leaf a b c d e f g h None false None None None epoch None None) end.
  assert (node_calm (NLeaf l0)) as Hc0 by by split.
  set (l1 := set_l_version (NodeVersion.mark_root nodeversion_type (l_version l0)) l0).
  assert (node_calm (NLeaf l1)) as Hc1 by by split.
  assert (allocate (NLeaf l0) s = Ok (m_next s, alloc (NLeaf l0) s)) as Ha by done.
  rewrite (sbind_run _ _ _ _ _ Ha).
  assert (init_root_links (m_next s) (alloc (NLeaf l0) s) = Ok (tt, alloc (NLeaf l0) s)) as Hi.
  { unfold init_root_links. rewrite (sbind_run _ _ _ _ _ (get_leaf_run _ _ _ (alloc_at _ _))).
    assert (mset (l_ikey0 l0) 0 0 (alloc (NLeaf l0) s) = Ok (l_ikey0 l0, alloc (NLeaf l0) s)) as Hm by done.
    rewrite (sbind_run _ _ _ _ _ Hm). unfold put_node. f_equal. f_equal. apply (wr_alloc (NLeaf l0)). }
  rewrite (mbind_run _ _ _ _ _ Hi).
  assert (make_layer_root (m_next s) (alloc (NLeaf l0) s) =
    Ok (tt, alloc (NLeaf l1) s)) as Hr.
  { unfold make_layer_root.
    rewrite (mbind_run _ _ _ _ _ (set_parent_leaf _ _ None _ (alloc_at _ _) Hc0)), wr_alloc.
    unfold Node.mark_root. rewrite (upd_version_leaf _ _ _ _ (alloc_at _ _)), wr_alloc. done. }
  rewrite (mbind_run _ _ _ _ _ Hr).
  rewrite (mbind_run _ _ _ _ _ (assign_meta_leaf _ _ meta _ (alloc_at _ _) Hc1 eq_refl)), wr_alloc.
  done.
Qed.

Lemma directory_leaf_items epoch meta : leaf_items (directory_leaf epoch meta) = [].
Proof. done. Qed.

Lemma directory_leaf_ok epoch meta : leaf_ok (directory_leaf epoch meta).
Proof.
  split; [by split|]. change (KPermuter.wf 7 (KPermuter.make_empty 7)).
  change (KPermuter.make_empty 7) with (make_sorted 7 0). apply make_sorted_wf; lia.
Qed.

(** A fresh directory: no edges, its metadata, its own root. *)
Lemma directory_leaf_at h x epoch meta :
  h !! x = Some (NLeaf (directory_leaf epoch meta)) -> (0 < np_fuel)%nat ->
  Z.of_nat (length (directory_meta_name meta)) <= kMaxEntryNameBytes ->
  directory_at h x (Directory (Some meta) ∅) /\ canon h x x 0.
Proof.
  intros Hx Hf Hn. pose proof (directory_leaf_calm epoch meta) as Hc.
  split; [|by eapply canon_root]. split.
  - exists 0%nat, [(x, directory_leaf epoch meta)]. split; [split; [split|]|].
    + exists 0%nat. split; [|done]. by eapply climbs_root.
    + apply layer_leaf; try done; [apply directory_leaf_ok|..]; by rewrite directory_leaf_items; constructor.
    + done.
    + by exists (NLeaf (directory_leaf epoch meta)).
    + intros e He. cbn in He. by apply elem_of_nil in He.
    + intros k. cbn. by rewrite !lookup_empty.
  - by exists (NLeaf (directory_leaf epoch meta)).
  - by intros m [= <-].
Qed.

(** ** The edge to the new directory *)

(** What [create_layer_with_meta] does to the heap [h] of a state: the leaf [l]
    at [n] becomes [l'] and the fresh node [x] is a directory's root. *)
Record directory_created (s s' : mstate) (meta : directory_meta) (n : loc) (l l' : leaf) : Prop := {
  dc_update : leaf_update (m_heap s) (m_heap s') n l l';
  dc_rest : at_rest (l_version l');
  dc_new : exists epoch, m_heap s' !! m_next s = Some (NLeaf (directory_leaf epoch meta));
  dc_same : forall m, m <> n -> m <> m_next s -> m_heap s' !! m = m_heap s !! m;
  dc_next : m_next s' = Pos.succ (m_next s);
  dc_root : m_root s' = m_root s
}.

Lemma create_layer_run s q depth r ls ka meta :
  edge_layer (m_heap s) q depth r ls -> k_len ka = ikey_size ->
  (forall n l, (n, l) ∈ ls -> at_rest (l_version l)) -> layer_map ls !! k_ikey ka = None ->
  (forall n l, leaf_for (m_heap s) depth r None None ls (k_ikey ka) n l -> has_room l (k_ikey ka)) ->
  m_heap s !! m_next s = None ->
  exists c s' n l l' ls', create_layer_with_meta (make_tcursor q ka) meta s = Ok ((true, Some (m_next s), c), s') /\
    directory_created s s' meta n l l' /\ (n, l) ∈ ls /\
    layer_map ls' = <[k_ikey ka := Item (k_ikey ka) layer_keylenx (lv_layer (Some (m_next s)))]> (layer_map ls) /\
    forall r1 c, climbs (m_heap s) r1 r c -> (c < np_fuel)%nat -> edge_layer (m_heap s') r1 depth r ls'.
Proof.
  assert (1 <= leaf_width <= 15) as HW by (cbn; lia).
  intros He Hlen Hrest Hm Hroom Hfresh.
  destruct (prepare_slot_run s q depth r ls ka HW He Hlen Hrest Hm Hroom)
    as (n & l & kx & l1 & c & Hl & Hf & Hr & Hw & Hrun & Hcn & Hckx).
  pose proof (lfor_ok _ _ _ _ _ _ _ _ _ Hl) as Hok. pose proof (lfor_at _ _ _ _ _ _ _ _ _ Hl) as Hat.
  pose proof (Hrest n l (lfor_in _ _ _ _ _ _ _ _ _ Hl)) as Hrs.
  destruct (entered_version l Hrs) as (_ & _ & Hlk & _).
  pose proof (entered_permutation _ _ _ Hw) as Hperm.
  assert (n <> m_next s) as Hne by (intros ->; by rewrite Hat in Hfresh).
  set (s1 := wr n (NLeaf l1) s). set (x := m_next s).
  set (s2 := alloc (NLeaf (directory_leaf (l_phantom_epoch l1) meta)) s1).
  pose proof (make_directory_run n l1 meta s1 (wr_at _ _ _)) as Hmake. fold s2 in Hmake. change (m_next s1) with x in Hmake.
  assert (m_heap s2 !! n = Some (NLeaf l1)) as Hat2.
  { unfold s2, alloc. cbn [m_heap]. rewrite lookup_insert_ne by done. apply wr_at. }
  destruct (publish_layer_run n l1 c (kp_i kx) (Some x) s2) as (c' & Hpub).
  { done. }
  { apply (sw_arrays _ _ _ _ Hw). }
  { by rewrite (lf_version _ _ (sw_frame _ _ _ _ Hw)). }
  { rewrite Hperm. by apply back_range. }
  { done. }
  { by rewrite Hperm. }
  rewrite Hperm in Hpub. set (l3 := published l1 _ _ _ (lv_layer (Some x))) in *.
  assert (forall m, m <> n -> m <> x -> m_heap (wr n (NLeaf l3) s2) !! m = m_heap s !! m) as Hsame.
  { intros m Hmn Hmx. rewrite wr_other by done. unfold s2, alloc. cbn [m_heap].
    rewrite lookup_insert_ne by (intros Hx; by apply Hmx). by apply wr_other. }
  destruct He as [[Hcl Ht Hd Htop] Hit].
  destruct (insertion_published (m_heap s) (m_heap (wr n (NLeaf l3) s2)) depth r ls ka n l kx l1 layer_keylenx
    (lv_layer (Some x))) as (Hu & Hrest3 & ls' & Hmap & Hedge); try done.
  { by right. }
  { apply wr_at. }
  { intros m nd Hmn Hnd. rewrite Hsame; [done|done|]. intros ->. unfold x in Hnd. by rewrite Hfresh in Hnd. }
  exists c', (wr n (NLeaf l3) s2), n, l, l3, ls'. split; [|split; [|split; [apply Hl|by split]]].
  - unfold create_layer_with_meta. rewrite (sbind_run _ _ _ _ _ Hrun), Hcn. fold s1.
    rewrite (sbind_run _ _ _ _ _ Hmake). by rewrite (sbind_run _ _ _ _ _ Hpub).
  - split; try done. eexists. rewrite wr_other by done. exact (alloc_at _ s1).
Qed.

(** ** Creating a directory *)

Lemma make_directory_meta_name ref h name :
  Z.of_nat (length name) <= kMaxEntryNameBytes ->
  exists meta, make_directory_meta ref h name = Ok meta /\ directory_meta_name meta = name.
Proof.
  intros Hn. unfold make_directory_meta, kMaxEntryNameBytes in *.
  destruct (Z.leb_spec (Z.of_nat (length name)) (63 + 1)); [|lia].
  eexists. split; [done|]. unfold directory_meta_name. cbn [dm_name dm_name_length].
  rewrite Word.wrap_small by (split; cbn; lia). by rewrite Nat2Z.id, take_app_length.
Qed.

Lemma settled_created s s' meta n l l' :
  settled s -> directory_created s s' meta n l l' -> settled s'.
Proof.
  intros [Hr Hf] [[Ho Hn _ _] Hrest (epoch & Hx) Hsame Hnext _]. split.
  - intros m nd Hm. destruct (decide (m = n)) as [->|Hmn].
    { rewrite Hn in Hm. by injection Hm as <-. }
    destruct (decide (m = m_next s)) as [->|Hmx].
    { rewrite Hx in Hm. injection Hm as <-. split; [|done|done].
      split; [by split|]. split; [intros k Hk; cbn in Hk; lia|done]. }
    rewrite Hsame in Hm by done. by apply (Hr m).
  - intros m Hm. rewrite Hnext in Hm. rewrite Hsame; [apply Hf; lia| |lia].
    intros ->. by rewrite Hf in Ho by lia.
Qed.

(** [create_directory_from_parsed] up to the creation of the layer. *)
Lemma create_directory_start s G root cs c ref r d :
  namespace_at s G root -> Forall is_component (cs ++ [c]) ->
  Z.of_nat (length c) <= kMaxEntryNameBytes ->
  walk G root (map hash_component cs) = Some r -> G !! r = Some d ->
  exists q meta, edges_at (m_heap (ns_mem s)) q r (d_edges d) /\
    make_directory_meta ref (hash_component c) c = Ok meta /\ directory_meta_name meta = c /\
    create_directory_from_parsed
      (Parsed (normalize (cs ++ [c])) (cs ++ [c]) (map hash_component (cs ++ [c]))) ref s =
    match d_edges d !! hash_component c with
    | Some _ => Ok (false, s)
    | None => (let* r := mem (create_layer_with_meta (edge_cursor q (hash_component c)) meta) in
               mret (fst (fst r))) s
    end.
Proof.
  intros Hs Hcs Hfit Hwalk Hd. destruct (make_directory_meta_name ref (hash_component c) c Hfit) as (meta & Hmeta & Hname).
  pose proof Hcs as [Hcs0 _]%Forall_app. fold (parsed_of (cs ++ [c])). destruct (child_path cs c Hcs) as [Hr Hn Hpar Hback Hhash].
  destruct (locate_directory_run s G root cs Hs Hcs0) as (p & Hloc & Hp).
  rewrite Hwalk in Hp. destruct Hp as (q & d' & -> & Hd' & Hq & _). rewrite Hd in Hd'. injection Hd' as <-.
  exists q, meta. split; [done|]. split; [done|]. split; [done|].
  unfold create_directory_from_parsed. rewrite Hr, Hn, Hback. unfold entry_name_fits.
  rewrite (proj2 (Z.leb_le _ _)), Hpar by done. cbn [negb].
  rewrite (sbind_run _ _ _ _ _ (mem_run _ _ _ Hloc)), Hhash.
  rewrite (sbind_run _ _ _ _ _ (mem_run _ _ _ (lookup_slot_run _ _ _ _ _ Hq (hash_component_word c)))).
  destruct (d_edges d !! hash_component c) as [[r'|v]|]; [done..|].
  by rewrite (sbind_run _ _ _ _ _ (lift_run _ _ _ Hmeta)).
Qed.

(** C1: [mkdir] of a name that is free in an existing directory, whose leaf for
    the name's hash has room: it succeeds, and the heap then represents the graph
    in which a fresh, empty directory with the name and inode hangs under its
    parent and everything else is as before; no lock is left held and no
    conflict bucket is touched. *)
Theorem mkdir_adds_directory (s : nstate) (G : graph) (root r : loc) (d : directory)
    (path : byte_string) (ref : inode_ref) (parsed : ParsedPath) (cs : list byte_string) (c : byte_string) :
  namespace_at s G root -> settled (ns_mem s) ->
  parse_absolute_path path = Ok parsed -> components parsed = cs ++ [c] ->
  Z.of_nat (length c) <= kMaxEntryNameBytes ->
  walk G root (map hash_component cs) = Some r -> G !! r = Some d ->
  d_edges d !! hash_component c = None -> room_for (m_heap (ns_mem s)) r (hash_component c) ->
  exists s' x meta, mkdir path ref s = Ok (true, s') /\
    make_directory_meta ref (hash_component c) c = Ok meta /\ G !! x = None /\
    namespace_at s' (<[x := Directory (Some meta) ∅]>
                      (<[r := add_edge (hash_component c) (edge_dir x) d]> G)) root /\
    settled (ns_mem s') /\ ns_buckets s' = ns_buckets s.
Proof.
  intros Hs Hset Hparse Hcomp Hfit Hwalk Hd Hfree Hroom.
  destruct (parse_shape _ _ Hparse) as (cs' & Hcs & ->). cbn [components] in Hcomp. subst cs'.
  destruct (create_directory_start s G root cs c ref r d Hs Hcs Hfit Hwalk Hd)
    as (q & meta & (depth & ls & Hel & Hrel) & Hmeta & Hname & Hrun).
  rewrite Hfree in Hrun. set (k := hash_component c) in *.
  destruct (edge_key_ikey k (hash_component_word c)) as [Hk Hlen].
  set (ka := key_of_buf (make_single_component_key k) (Z.of_nat (length (make_single_component_key k)))) in *.
  pose proof (na_graph _ _ _ Hs) as HG.
  assert (layer_map ls !! k_ikey ka = None) as Hnone.
  { rewrite Hk. specialize (Hrel k). rewrite Hfree in Hrel. by destruct (layer_map ls !! k). }
  destruct (create_layer_run (ns_mem s) q depth r ls ka meta) as (cu & m' & n & l & l' & ls' & Hcreate & Hdc & Hin & Hmap & Hnew);
    [done|done|intros ? ?; by eapply layer_at_rest|done| |apply (st_fresh _ Hset); lia|].
  { intros n l Hl. rewrite Hk in Hl |- *. by eapply Hroom. }
  set (x := m_next (ns_mem s)) in *. rewrite Hk in Hmap.
  assert (G !! x = None) as HGx.
  { destruct (G !! x) as [dx|] eqn:Hx; [|done]. destruct (HG x dx Hx) as [[_ (nd & Hnd & _) _] _].
    rewrite (st_fresh _ Hset) in Hnd by (unfold x; lia). done. }
  assert (0 < np_fuel)%nat as Hf by (pose proof (la_depth _ _ _ _ _ (el_at _ _ _ _ _ Hel)); lia).
  destruct (dc_new _ _ _ _ _ _ Hdc) as (epoch & Hx).
  destruct (directory_leaf_at (m_heap m') x epoch meta Hx Hf) as [Hdx Hcx]; [by rewrite Hname|].
  pose proof (dc_update _ _ _ _ _ _ Hdc) as Hu. set (s' := NState m' (ns_buckets s) (ns_next_bucket s)).
  assert (x <> r) as Hxr by (intros ->; by rewrite Hd in HGx).
  exists s', x, meta. split; [|split; [done|split; [done|split; [|split; [by eapply settled_created|done]]]]].
  - unfold mkdir. rewrite (sbind_run _ _ _ _ _ (lift_run _ _ _ Hparse)). rewrite Hrun.
    unfold edge_cursor, cursor_node. cbn zeta. fold k. fold ka.
    assert (mem (create_layer_with_meta (make_tcursor q ka) meta) s = Ok ((true, Some x, cu), s')) as Hm.
    { unfold mem. by rewrite Hcreate. }
    by rewrite (sbind_run _ _ _ _ _ Hm).
  - apply (namespace_at_update s s' G _ root r d (add_edge k (edge_dir x) d) n l l' q depth ls ls'); try done.
    + exact (dc_root _ _ _ _ _ _ Hdc).
    + eapply edges_agree_insert; [exact Hu|done..|]. split; [done|]. by exists x, 0%nat.
    + rewrite lookup_insert_ne by done. apply lookup_insert_eq.
    + intros r1 d1 Hne Hr1. rewrite !lookup_insert_ne; [done|done|]. intros ->. by rewrite Hr1 in HGx.
    + intros r1 d1 Hne [[<- <-]|[_ Hr1]]%lookup_insert_Some; [by right|].
      rewrite lookup_insert_ne in Hr1 by done. by left.
    + intros k' x' Hx'. cbn in Hx'. apply lookup_insert_Some in Hx' as [[_ [= <-]]|[_ Hk']]; [rewrite lookup_insert_eq; by eexists|].
      destruct (HG r d Hd) as [_ Hcl]. destruct (Hcl k' x' Hk') as [d' Hd']. exists (if decide (x' = r) then add_edge k (edge_dir x) d else d').
      rewrite lookup_insert_ne by (intros ->; by rewrite Hd' in HGx).
      destruct (decide (x' = r)) as [->|]; [apply lookup_insert_eq|by rewrite lookup_insert_ne].
Qed.

(** C9: [mkdir] refuses, leaving the state exactly as it was, the root path, a
    name longer than an entry holds, a path whose parent is not a directory, and
    a name whose hash is taken in its parent, be it by a file, a directory or a
    chain; on a path that does not parse it fails. *)
Theorem mkdir_rejects (s : nstate) (G : graph) (root : loc) (path : byte_string) (ref : inode_ref) :
  namespace_at s G root ->
  match parse_absolute_path path with
  | Fault f => mkdir path ref s = Fault f
  | Ok parsed =>
    match last (components parsed) with
    | None => mkdir path ref s = Ok (false, s)
    | Some c =>
      kMaxEntryNameBytes < Z.of_nat (length c) \/
      match walk G root (map hash_component (removelast (components parsed))) with
      | Some r => is_Some (step_edge G r (hash_component c))
      | None => True
      end -> mkdir path ref s = Ok (false, s)
    end
  end.
Proof.
  intros Hs. unfold mkdir. destruct (parse_absolute_path path) as [parsed|f] eqn:Hparse; [|done].
  rewrite (sbind_run _ _ _ _ _ (lift_run _ _ _ eq_refl)).
  destruct (parse_shape _ _ Hparse) as (cs' & Hcs & ->). clear Hparse. cbn [components].
  destruct cs' as [|c0 cs0 _] using rev_ind.
  { unfold create_directory_from_parsed. cbn. done. }
  rename c0 into c, cs0 into cs. rewrite last_snoc, removelast_last.
  pose proof Hcs as [Hcs0 _]%Forall_app. intros Hcase.
  destruct (Z.le_gt_cases (Z.of_nat (length c)) kMaxEntryNameBytes) as [Hfit|Hlong].
  - destruct Hcase as [|Hcase]; [lia|]. destruct (walk G root (map hash_component cs)) as [r|] eqn:Hwalk.
    + destruct Hcase as [a Ha]. unfold step_edge in Ha. destruct (G !! r) as [d|] eqn:Hd; [|done].
      destruct (create_directory_start s G root cs c ref r d Hs Hcs Hfit Hwalk Hd) as (q & meta & _ & _ & _ & Hrun).
      by rewrite Ha in Hrun.
    + destruct (locate_directory_run s G root cs Hs Hcs0) as (p & Hloc & Hp). rewrite Hwalk in Hp. subst p.
      fold (parsed_of (cs ++ [c])). destruct (child_path cs c Hcs) as [Hr Hn Hpar Hback _].
      unfold create_directory_from_parsed. rewrite Hr, Hn, Hback. unfold entry_name_fits.
      rewrite (proj2 (Z.leb_le _ _)), Hpar by done. cbn [negb].
      by rewrite (sbind_run _ _ _ _ _ (mem_run _ _ _ Hloc)).
  - fold (parsed_of (cs ++ [c])). destruct (child_path cs c Hcs) as [Hr Hn _ Hback _].
    unfold create_directory_from_parsed. rewrite Hr, Hn, Hback. unfold entry_name_fits.
    by rewrite (proj2 (Z.leb_gt _ _)) by lia.
Qed.

(** ** The empty namespace *)

(** The root leaf [initialize] makes: no room for metadata. *)
Definition empty_root_leaf : leaf :=
  Leaf (NodeVersion.mark_root nodeversion_type (NodeVersion.make_version nodeversion_type true)) 0 0 modstate_insert
    (replicate 7 0) (KPermuter.make_empty 7) (replicate 7 0) (replicate 7 lv_make_empty)
    None false None None None 0 None None.

Lemma make_root_run s : leaf_make_root 0 None s = Ok (m_next s, alloc (NLeaf empty_root_leaf) s).
Proof.
  unfold leaf_make_root. assert (parent_epoch None s = Ok (0, s)) as He by done.
  rewrite (sbind_run _ _ _ _ _ He). set (l0 := set_l_version (NodeVersion.make_version nodeversion_type true) empty_root_leaf).
  assert (leaf_make 0 0 s = Ok (m_next s, alloc (NLeaf l0) s)) as Hm by done.
  rewrite (sbind_run _ _ _ _ _ Hm).
  assert (init_root_links (m_next s) (alloc (NLeaf l0) s) = Ok (tt, alloc (NLeaf l0) s)) as Hi.
  { unfold init_root_links. rewrite (sbind_run _ _ _ _ _ (get_leaf_run _ _ _ (alloc_at _ _))).
    assert (mset (l_ikey0 l0) 0 0 (alloc (NLeaf l0) s) = Ok (l_ikey0 l0, alloc (NLeaf l0) s)) as Hs by done.
    rewrite (sbind_run _ _ _ _ _ Hs). unfold put_node. f_equal. f_equal. apply (wr_alloc (NLeaf l0)). }
  rewrite (mbind_run _ _ _ _ _ Hi). assert (node_calm (NLeaf l0)) as Hc0 by by split.
  unfold make_layer_root. rewrite mbind_assoc_run.
  rewrite (mbind_run _ _ _ _ _ (set_parent_leaf _ _ None _ (alloc_at _ _) Hc0)), wr_alloc.
  unfold Node.mark_root. rewrite (mbind_run _ _ _ _ _ (upd_version_leaf _ _ _ _ (alloc_at _ _))), wr_alloc. done.
Qed.

(** [LhmNamespace::initialize] on a state without a table: the heap then
    represents the graph of one empty directory, the root, and is settled, so
    every property of operations on a represented namespace applies to the
    states that creations reach from it. *)
Lemma initialize_namespace (s : nstate) :
  m_root (ns_mem s) = None -> settled (ns_mem s) -> (0 < fuel_bound)%nat ->
  let x := m_next (ns_mem s) in
  exists s', ns_initialize s = Ok (tt, s') /\ namespace_at s' {[x := Directory None ∅]} x /\
    settled (ns_mem s') /\ m_heap (ns_mem s') = <[x := NLeaf empty_root_leaf]> (m_heap (ns_mem s)).
Proof.
  intros Hroot [Hr Hfr] Hf x. set (m := ns_mem s) in *.
  set (m1 := alloc (NLeaf empty_root_leaf) m).
  set (m2 := MState (m_heap m1) (m_next m1) (m_limbo m1) (m_callbacks m1) (Some x)).
  assert (initialize m = Ok (tt, m2)) as Hinit.
  { unfold initialize. assert (table_root m = Ok (None, m)) as Ht by (unfold table_root; by rewrite Hroot).
    rewrite (sbind_run _ _ _ _ _ Ht), (mbind_run _ _ _ _ _ (check_true true m eq_refl)).
    by rewrite (sbind_run _ _ _ _ _ (make_root_run m)). }
  assert (m_heap m2 !! x = Some (NLeaf empty_root_leaf)) as Hx by apply lookup_insert_eq.
  assert (node_calm (NLeaf empty_root_leaf)) as Hc by by split.
  assert (edges_at (m_heap m2) x x ∅) as He.
  { exists 0%nat, [(x, empty_root_leaf)]. split; [split; [split|]|].
    - exists 0%nat. split; [|done]. by eapply climbs_root.
    - assert (leaf_ok empty_root_leaf) as Hok.
      { split; [by split|]. change (KPermuter.wf 7 (make_sorted 7 0)). apply make_sorted_wf; lia. }
      apply layer_leaf; try done; by constructor.
    - done.
    - by exists (NLeaf empty_root_leaf).
    - intros e He. cbn in He. by apply elem_of_nil in He.
    - intros k. cbn. by rewrite !lookup_empty. }
  exists (NState m2 (ns_buckets s) (ns_next_bucket s)). split; [|split; [split|split; [split|done]]].
  - unfold ns_initialize, mem. fold m. by rewrite Hinit.
  - intros r d [<- <-]%lookup_singleton_Some. split; [split|].
    + done.
    + by exists (NLeaf empty_root_leaf).
    + done.
    + intros k r'. cbn. by rewrite lookup_empty.
  - exists x, (Directory None ∅). split; [done|]. split; [apply lookup_singleton_eq|done].
  - intros n nd. cbn. intros [[<- <-]|[_ Hn]]%lookup_insert_Some; [|by eapply Hr].
    split; [|done|done]. split; [by split|]. split; [intros k Hk; cbn in Hk; lia|done].
  - intros n Hn. cbn in Hn |- *. rewrite lookup_insert_ne by (unfold x; lia). apply Hfr. lia.
Qed.
End namespace_update.
