(* ===== verification/FileCreate.v ===== *)
(** * Creating files in the namespace

    [creat_file] on a heap that represents a graph: the insertion of a value
    into a directory's layer ([find_insert], [finish]), the conflict chains and
    the refusals. *)

From S2P Require Export NamespaceUpdate.
From S2P Require Import NodeVersion KPermuter SplitFacts.

#[local] Open Scope Z_scope.
#[local] Open Scope lhm_scope.

#[local] Existing Instance np_config.

(** ** Inserting a value *)

Section value_insert.
Context {P : nodeparams} `{HP : !ParamsOk nodeversion_type}.

Abbreviation NV := nodeversion_type.
Abbreviation LW := leaf_width.

Lemma find_locked_free s r0 d root ls ka :
  1 <= LW <= 15 -> edge_layer (m_heap s) r0 d root ls ->
  (forall n l, (n, l) ∈ ls -> at_rest (l_version l)) -> layer_map ls !! k_ikey ka = None ->
  exists n l kx, leaf_for (m_heap s) d root None None ls (k_ikey ka) n l /\
    edge_found l (k_ikey ka) None kx /\
    find_locked (make_tcursor r0 ka) s =
      Ok ((false, TCursor n ka kx r0 0 r0 0 0 []), wr n (NLeaf (lock_leaf l)) s).
Proof using HP.
  intros HW He Hrest Hnone.
  destruct (reach_leaf_run s r0 d root ls ka (el_at _ _ _ _ _ He)) as (n & l & Hreach & Hl).
  pose proof (la_tree _ _ _ _ _ (el_at _ _ _ _ _ He)) as Ht. rewrite <- (leaf_for_map _ _ _ _ _ _ _ Ht Hl) in Hnone.
  destruct (leaf_free_search l ka HW (lfor_ok _ _ _ _ _ _ _ _ _ Hl) (lfor_sorted _ _ _ _ _ _ _ _ _ Hl) Hnone)
    as (kx & Hlow & Hf).
  exists n, l, kx. split; [done|]. split; [done|].
  pose proof (lfor_at _ _ _ _ _ _ _ _ _ Hl) as Hat. pose proof (lfor_calm _ _ _ _ _ _ _ _ _ Hl) as Hc.
  pose proof (Hrest n l (lfor_in _ _ _ _ _ _ _ _ _ Hl)) as Hr.
  destruct (lock_word_spec _ Hr) as (_ & _ & _ & _ & Hch).
  assert (forall fuel, find_locked_loop (S fuel) r0 None (make_tcursor r0 ka) s =
    Ok (TCursor n ka kx r0 0 r0 0 0 [], wr n (NLeaf (lock_leaf l)) s)) as Hloop.
  { intros fuel. cbn [find_locked_loop]. unfold make_tcursor at 1. cbn [tc_ka].
    rewrite (sbind_run _ _ _ _ _ Hreach). change (l_version l) with (node_version (NLeaf l)) at 1.
    rewrite (nc_deleted _ Hc), (sbind_run _ _ _ _ _ (get_leaf_run _ _ _ Hat)).
    rewrite (sbind_run _ _ _ _ _ (lift_run _ _ _ Hlow)), (ef_pos _ _ _ _ Hf). cbn [Z.leb Z.compare].
    rewrite sbind_ret, (mbind_run _ _ _ _ _ (lock_run _ _ _ Hat Hr)).
    unfold Node.has_changed. rewrite sbind_assoc, (sbind_run _ _ _ _ _ (version_run _ _ _ (wr_at _ _ _))), sbind_ret.
    rewrite (sbind_run _ _ _ _ _ (get_leaf_run _ _ _ (wr_at _ _ _))).
    cbn [node_version lock_leaf l_version l_permutation set_l_version]. rewrite Hch, Z.eqb_refl. cbn [negb orb Z.ltb Z.compare].
    change (deleted_layer (lock_leaf l)) with (deleted_layer l).
    by rewrite (lfor_live _ _ _ _ _ _ _ _ _ Hl). }
  unfold find_locked. pose proof (la_depth _ _ _ _ _ (el_at _ _ _ _ _ He)) as Hd.
  destruct np_fuel as [|fuel]; [lia|]. cbn [tc_root make_tcursor].
  by rewrite (sbind_run _ _ _ _ _ (Hloop fuel)).
Qed.

Lemma find_insert_free s r0 d root ls ka :
  1 <= LW <= 15 -> edge_layer (m_heap s) r0 d root ls -> k_len ka = ikey_size ->
  (forall n l, (n, l) ∈ ls -> at_rest (l_version l)) -> layer_map ls !! k_ikey ka = None ->
  (forall n l, leaf_for (m_heap s) d root None None ls (k_ikey ka) n l -> has_room l (k_ikey ka)) ->
  exists n l kx l1 c, leaf_for (m_heap s) d root None None ls (k_ikey ka) n l /\
    edge_found l (k_ikey ka) None kx /\ has_room l (k_ikey ka) /\
    slot_written (enter_leaf (lock_leaf l)) l1 (KPermuter.back LW (l_permutation l)) (key_item ka) /\
    find_insert (make_tcursor r0 ka) s = Ok ((false, c), wr n (NLeaf l1) s) /\
    tc_n c = n /\ tc_kx c = KPos (kp_i kx) (KPermuter.back LW (l_permutation l)) /\ tc_state c = 2.
Proof using HP.
  intros HW He Hlen Hrest Hnone Hroom.
  destruct (find_locked_free s r0 d root ls ka HW He Hrest Hnone) as (n & l & kx & Hl & Hf & Hrun).
  pose proof (Hroom n l Hl) as Hr. pose proof (Hrest n l (lfor_in _ _ _ _ _ _ _ _ _ Hl)) as Hat.
  set (c0 := set_tc_state 2 (set_tc_original n (leaf_full_unlocked_version_value (lock_leaf l))
    (TCursor n ka kx r0 0 r0 0 0 []))).
  destruct (enter_assign_run s n l ka (kp_i kx) c0 (lfor_at _ _ _ _ _ _ _ _ _ Hl) (lfor_ok _ _ _ _ _ _ _ _ _ Hl) Hat HW)
    as (l1 & Hw & Hassign); [unfold has_suffix; by rewrite Hlen|done..|].
  exists n, l, kx, l1. eexists. split; [exact Hl|]. split; [exact Hf|]. split; [exact Hr|]. split; [exact Hw|]. split.
  - unfold find_insert. rewrite (sbind_run _ _ _ _ _ Hrun). cbn [snd tc_n].
    rewrite (sbind_run _ _ _ _ _ (full_version_run _ _ _ (wr_at _ _ _))).
    cbn [tc_state set_tc_original Z.eqb negb tc_kx set_tc_state tc_n]. rewrite (ef_pos _ _ _ _ Hf). cbn [Z.leb Z.compare].
    fold c0. exact Hassign.
  - done.
Qed.

(** The value stored, the slot published and the leaf unlocked. *)
Lemma publish_value_run n l c i v s :
  let p := KPermuter.back LW (l_permutation l) in
  m_heap s !! n = Some (NLeaf l) -> arrays_ok l -> NodeVersion.locked NV (l_version l) = true ->
  0 <= p < LW -> leaf_keylenx l p = ikey_size -> tc_n c = n -> tc_kx c = KPos i p -> tc_state c = 2 ->
  exists c', (tc_set_value c v ;; tcursor_finish c 1) s =
    Ok (c', wr n (NLeaf (published l p i ikey_size (lv_value v))) s).
Proof.
  intros p H [A1 A2 A3] Hlk Hp Hx Hn Hkx Hst. unfold tc_set_value. rewrite Hn, Hkx. cbn [kp_p].
  set (l1 := set_l_lv (<[Z.to_nat p := lv_value v]> (l_lv l)) l).
  assert (leaf_set_lv l p (lv_value v) = Ok l1) as E1 by (unfold leaf_set_lv; by rewrite aset_total by lia).
  rewrite (mbind_run _ _ _ _ _ (upd_leaf_res_run n _ _ _ s H E1)).
  unfold tcursor_finish, finish. rewrite Hst. cbn [Z.ltb Z.eqb Pos.eqb Z.compare andb].
  set (l2 := set_l_permutation (fst (insert_from_back LW (l_permutation l) i)) l1).
  assert (finish_insert c (wr n (NLeaf l1) s) = Ok (tt, wr n (NLeaf l2) s)) as E3.
  { unfold finish_insert. rewrite Hn, Hkx, (sbind_run _ _ _ _ _ (get_leaf_run _ _ _ (wr_at _ _ _))).
    cbn [kp_p kp_i]. change (l_permutation l1) with (l_permutation l). fold p. rewrite Z.eqb_refl.
    rewrite (mbind_run _ _ _ _ _ (check_true true _ eq_refl)).
    by rewrite (upd_leaf_run _ _ _ _ (wr_at _ _ _)), wr_wr. }
  rewrite (mbind_run _ _ _ _ _ E3). unfold finish_unlock. rewrite Hn.
  rewrite (sbind_run _ _ _ _ _ (full_version_run _ _ _ (wr_at n (NLeaf l2) s))).
  rewrite (mbind_run _ _ _ _ _ (upd_locked_run n (NodeVersion.unlock NV) (NLeaf l2) _ (wr_at _ _ _) Hlk : Node.unlock n _ = _)).
  rewrite wr_wr. eexists. cbn [set_node_version node_version].
  assert (set_l_version (NodeVersion.unlock NV (l_version l2)) l2 = published l p i ikey_size (lv_value v)) as ->; [|done].
  unfold published, l2, l1. rewrite (list_insert_id (l_keylenx l)); [done|].
  unfold leaf_keylenx, nthZ in Hx. rewrite nth_lookup in Hx.
  destruct (l_keylenx l !! Z.to_nat p) as [x|] eqn:Hlx; [by cbn in Hx; subst|].
  apply lookup_ge_None in Hlx. lia.
Qed.
End value_insert.

(** ** Creating a file *)

Section file_create.
Context {cfg : Config} {fuel : Fuel}.

Abbreviation graph := (gmap loc directory).

Definition file_entry (ref : inode_ref) (name : byte_string) : namespace_entry :=
  Entry kind_file ref (Z.of_nat (length name)) (name ++ zeros (64 - length name)).

Lemma make_file_entry ref name :
  Z.of_nat (length name) <= kMaxEntryNameBytes ->
  make_namespace_entry kind_file ref name = Ok (file_entry ref name) /\ entry_name (file_entry ref name) = name.
Proof.
  unfold make_namespace_entry, kMaxEntryNameBytes. intros Hn. rewrite (proj2 (Z.leb_le _ _)) by lia.
  split; [unfold file_entry; by rewrite Word.wrap_small by (split; cbn; lia)|].
  unfold entry_name. cbn [ne_name ne_name_length file_entry]. by rewrite Nat2Z.id, take_app_length.
Qed.

(** [create_entry_from_parsed] up to the use of the slot. *)
Lemma create_file_start s G root cs c ref r d :
  namespace_at s G root -> Forall is_component (cs ++ [c]) ->
  Z.of_nat (length c) <= kMaxEntryNameBytes ->
  walk G root (map hash_component cs) = Some r -> G !! r = Some d ->
  let h := hash_component c in
  exists q, edges_at (m_heap (ns_mem s)) q r (d_edges d) /\
    create_entry_from_parsed
      (Parsed (normalize (cs ++ [c])) (cs ++ [c]) (map hash_component (cs ++ [c]))) kind_file ref s =
    match d_edges d !! h with
    | Some (edge_dir _) => Ok (false, s)
    | Some (edge_value v) => insert_into_conflict_chain (make_single_component_key h) v (file_entry ref c) s
    | None => (let* r := mem (find_insert (edge_cursor q h)) in
               let (already_present, c0) := (r : bool * tcursor) in
               if already_present then let* _ := mem (tcursor_finish c0 0) in mret false
               else mem (tc_set_value c0 (file_entry ref c)) ;;
                    let* _ := mem (tcursor_finish c0 1) in mret true) s
    end.
Proof.
  intros Hs Hcs Hfit Hwalk Hd h. destruct (make_file_entry ref c Hfit) as [Hmake _].
  pose proof Hcs as [Hcs0 _]%Forall_app. fold (parsed_of (cs ++ [c])). destruct (child_path cs c Hcs) as [Hr Hn Hpar Hname Hhash].
  destruct (locate_directory_run s G root cs Hs Hcs0) as (p & Hloc & Hp).
  rewrite Hwalk in Hp. destruct Hp as (q & d' & -> & Hd' & Hq & _). rewrite Hd in Hd'. injection Hd' as <-.
  exists q. split; [done|]. unfold create_entry_from_parsed.
  rewrite (bool_decide_eq_false_2 (kind_file = kind_directory)), Hr, Hn, Hname by done.
  unfold entry_name_fits. rewrite (proj2 (Z.leb_le _ _)), Hpar by done. cbn [negb].
  rewrite (sbind_run _ _ _ _ _ (mem_run _ _ _ Hloc)), (sbind_run _ _ _ _ _ (lift_run _ _ _ Hmake)), Hhash.
  rewrite (sbind_run _ _ _ _ _ (mem_run _ _ _ (lookup_slot_run _ _ _ _ _ Hq (hash_component_word c)))).
  fold h. by destruct (d_edges d !! h) as [[r'|v]|].
Qed.

(** C2: [creat_file] of a name that is free in an existing directory whose leaf
    for the name's hash has room: it succeeds, and the heap then represents the
    graph in which the directory has the file under the name's hash and
    everything else is as before; no lock is left held and no conflict bucket is
    touched. *)
Theorem creat_file_adds_file (s : nstate) (G : graph) (root r : loc) (d : directory)
    (path : byte_string) (ref : inode_ref) (parsed : ParsedPath) (cs : list byte_string) (c : byte_string) :
  namespace_at s G root -> settled (ns_mem s) ->
  parse_absolute_path path = Ok parsed -> components parsed = cs ++ [c] ->
  Z.of_nat (length c) <= kMaxEntryNameBytes ->
  walk G root (map hash_component cs) = Some r -> G !! r = Some d ->
  d_edges d !! hash_component c = None -> room_for (m_heap (ns_mem s)) r (hash_component c) ->
  exists s', creat_file path ref s = Ok (true, s') /\
    namespace_at s' (<[r := add_edge (hash_component c) (edge_value (file_entry ref c)) d]> G) root /\
    settled (ns_mem s') /\ ns_buckets s' = ns_buckets s.
Proof.
  intros Hs Hset Hparse Hcomp Hfit Hwalk Hd Hfree Hroom.
  destruct (parse_shape _ _ Hparse) as (cs' & Hcs & ->). cbn [components] in Hcomp. subst cs'.
  destruct (create_file_start s G root cs c ref r d Hs Hcs Hfit Hwalk Hd) as (q & (depth & ls & Hel & Hrel) & Hrun).
  rewrite Hfree in Hrun. set (k := hash_component c) in *.
  destruct (edge_key_ikey k (hash_component_word c)) as [Hk Hlen]. unfold edge_cursor, cursor_node in Hrun.
  set (ka := key_of_buf (make_single_component_key k) (Z.of_nat (length (make_single_component_key k)))) in *.
  assert (1 <= leaf_width <= 15) as HW by (cbn; lia).
  assert (layer_map ls !! k_ikey ka = None) as Hnone.
  { rewrite Hk. specialize (Hrel k). rewrite Hfree in Hrel. by destruct (layer_map ls !! k). }
  destruct (find_insert_free (ns_mem s) q depth r ls ka) as (n & l & kx & l1 & cu & Hl & Hf & Hr & Hw & Hfind & Hcn & Hckx & Hcst);
    [done|done|done|intros ? ?; by eapply layer_at_rest|done| |].
  { intros n l Hl. rewrite Hk in Hl |- *. by eapply Hroom. }
  pose proof (lfor_ok _ _ _ _ _ _ _ _ _ Hl) as Hok. pose proof (lfor_at _ _ _ _ _ _ _ _ _ Hl) as Hat.
  pose proof (layer_at_rest _ _ _ _ _ _ _ Hset Hel (lfor_in _ _ _ _ _ _ _ _ _ Hl)) as Hrs.
  destruct (entered_version l Hrs) as (_ & _ & Hlk & _). pose proof (entered_permutation _ _ _ Hw) as Hperm.
  destruct (publish_value_run n l1 cu (kp_i kx) (file_entry ref c) (wr n (NLeaf l1) (ns_mem s))) as (c' & Hpub);
    rewrite ?Hperm; [apply wr_at|apply Hw| |by apply back_range| |done..|].
  { by rewrite (lf_version _ _ (sw_frame _ _ _ _ Hw)). }
  { change (it_keylenx (slot_item l1 (KPermuter.back leaf_width (l_permutation l))) = ikey_size).
    rewrite (sw_at _ _ _ _ Hw). unfold key_item, has_suffix. cbn [it_keylenx]. subst ka. unfold key_of_buf. cbn [k_len].
    by rewrite Hlen. }
  rewrite wr_wr, Hperm in Hpub. set (l3 := published _ _ _ _ _) in Hpub.
  pose proof (el_at _ _ _ _ _ Hel) as [_ Ht Hdep Htop].
  destruct (insertion_published (P := namespace_table_params) (m_heap (ns_mem s)) (m_heap (wr n (NLeaf l3) (ns_mem s))) depth r ls ka n l kx l1 ikey_size
    (@lv_value namespace_table_params (file_entry ref c))) as (Hu & Hrest3 & ls' & Hmap & Hnew);
    [done|done|done|done|apply Hel|done|done|done|done|done|by left|apply wr_at|intros m nd Hmn; by rewrite wr_other|].
  rewrite Hk in Hmap. set (s' := NState (wr n (NLeaf l3) (ns_mem s)) (ns_buckets s) (ns_next_bucket s)).
  exists s'. split; [|split; [|split; [by eapply settled_write|done]]].
  - unfold creat_file, create_entry. rewrite (sbind_run _ _ _ _ _ (lift_run _ _ _ Hparse)), Hrun.
    apply sm_bind_ok in Hpub as ([] & m2 & Hset2 & Hfin).
    rewrite (sbind_run _ _ _ _ _ (mem_step _ _ _ _ Hfind)).
    rewrite (mbind_run _ _ _ _ _ (mem_step _ _ (NState _ _ _) _ Hset2)).
    by rewrite (sbind_run _ _ _ _ _ (mem_step _ _ (NState _ _ _) _ Hfin)).
  - pose proof (na_graph _ _ _ Hs) as HG.
    eapply (namespace_at_update s s' G _ root r d (add_edge k (edge_value (file_entry ref c)) d) n l l3 q depth ls ls'); try done.
    + apply Hl.
    + by eapply edges_agree_insert; [exact Hu|done..|].
    + apply lookup_insert_eq.
    + intros r1 d1 Hne Hr1. by rewrite lookup_insert_ne.
    + intros r1 d1 Hne Hr1. rewrite lookup_insert_ne in Hr1 by done. by left.
    + intros k' x' Hx'. cbn in Hx'. apply lookup_insert_Some in Hx' as [[_ ?]|[_ Hk']]; [done|].
      destruct (HG r d Hd) as [_ Hcl]. destruct (Hcl k' x' Hk') as [d' Hd'].
      destruct (decide (x' = r)) as [->|]; [rewrite lookup_insert_eq; by eexists|]. rewrite lookup_insert_ne by done. by eexists.
Qed.
(** The state with a bucket's entries replaced. *)
Definition with_bucket (id : Z) (es : list namespace_entry) (s : nstate) : nstate :=
  NState (ns_mem s) (<[id := es]> (ns_buckets s)) (ns_next_bucket s).

(** What [creat_file] does with a slot that is taken by [a]. *)
Definition taken_outcome (c : byte_string) (ref : inode_ref) (a : edge) (s : nstate) : option (bool * nstate) :=
  match a with
  | edge_dir _ => Some (false, s)
  | edge_value v =>
    if entry_is_conflict_chain v then
      match ns_buckets s !! block_id (ne_ref v) with
      | None => Some (false, s)
      | Some es =>
        if existsb (fun e => entry_name_equals e c) es then Some (false, s)
        else Some (true, with_bucket (block_id (ne_ref v)) (es ++ [file_entry ref c]) s)
      end
    else if entry_name_equals v c then Some (false, s) else None
  end.

(** [creat_file] when nothing can be added to a leaf: it refuses, leaving
    the state exactly as it was, the root path, a name longer than an entry
    holds, a path whose parent is not a directory, a name taken by a directory or
    a file and a name already in its slot's conflict chain; a new name whose slot
    is a chain joins the chain's bucket, the table untouched; on a path that does
    not parse it fails. *)
Lemma creat_file_taken (s : nstate) (G : graph) (root : loc) (path : byte_string) (ref : inode_ref) :
  namespace_at s G root ->
  match parse_absolute_path path with
  | Fault f => creat_file path ref s = Fault f
  | Ok parsed =>
    match last (components parsed) with
    | None => creat_file path ref s = Ok (false, s)
    | Some c =>
      if kMaxEntryNameBytes <? Z.of_nat (length c) then creat_file path ref s = Ok (false, s)
      else match walk G root (map hash_component (removelast (components parsed))) with
      | None => creat_file path ref s = Ok (false, s)
      | Some r =>
        forall a o, step_edge G r (hash_component c) = Some a -> taken_outcome c ref a s = Some o ->
        creat_file path ref s = Ok o
      end
    end
  end.
Proof.
  intros Hs. unfold creat_file, create_entry. destruct (parse_absolute_path path) as [parsed|f] eqn:Hparse; [|done].
  rewrite (sbind_run _ _ _ _ _ (lift_run _ _ _ eq_refl)).
  destruct (parse_shape _ _ Hparse) as (cs' & Hcs & ->). clear Hparse. cbn [components].
  destruct cs' as [|c cs _] using rev_ind; [done|]. rewrite last_snoc, removelast_last.
  pose proof Hcs as [Hcs0 _]%Forall_app.
  fold (parsed_of (cs ++ [c])). destruct (child_path cs c Hcs) as [Hr Hn Hpar Hback _].
  destruct (Z.ltb_spec kMaxEntryNameBytes (Z.of_nat (length c))) as [Hlong|Hfit].
  { unfold create_entry_from_parsed. rewrite bool_decide_eq_false_2, Hr, Hn, Hback by done.
    unfold entry_name_fits. by rewrite (proj2 (Z.leb_gt _ _)) by done. }
  destruct (walk G root (map hash_component cs)) as [r|] eqn:Hwalk.
  - intros a o Ha Ho. unfold step_edge in Ha. destruct (G !! r) as [d|] eqn:Hd; [|done].
    destruct (create_file_start s G root cs c ref r d Hs Hcs Hfit Hwalk Hd) as (q & _ & Hstart).
    unfold parsed_of. rewrite Hstart, Ha.
    destruct (make_file_entry ref c Hfit) as [_ Hname]. destruct a as [x|v]; cbn in Ho; [by injection Ho as <-|].
    unfold insert_into_conflict_chain. rewrite Hname. destruct (entry_is_conflict_chain v).
    + unfold find_bucket, sbind at 1, sm_bind. destruct (ns_buckets s !! block_id (ne_ref v)) as [es|]; [|by injection Ho as <-].
      destruct (existsb (fun e => entry_name_equals e c) es); by injection Ho as <-.
    + destruct (entry_name_equals v c); [by injection Ho as <-|done].
  - destruct (locate_directory_run s G root cs Hs Hcs0) as (p & Hloc & Hp). rewrite Hwalk in Hp. subst p.
    unfold create_entry_from_parsed. rewrite bool_decide_eq_false_2, Hr, Hn, Hback by done.
    unfold entry_name_fits. rewrite (proj2 (Z.leb_le _ _)), Hpar by done. cbn [negb].
    by rewrite (sbind_run _ _ _ _ _ (mem_run _ _ _ Hloc)).
Qed.
End file_create.
