(* ===== verification/NamespaceRemove.v ===== *)
(** * Removing files and directories

    [remove_entry] on a heap that represents a graph: the locked search, the
    checks made under the lock, the removal of the edge and the conflict chains. *)

From S2P Require Export LayerRemove GraphUpdate.
From S2P Require Import NodeVersion KPermuter SplitFacts.

#[local] Open Scope Z_scope.
#[local] Open Scope lhm_scope.

(** ** A heap with one leaf locked *)

Section locked.
Context {P : nodeparams} `{HP : !ParamsOk nodeversion_type}.

Lemma lock_shape l :
  at_rest (l_version l) -> node_calm (NLeaf l) -> same_shape (NLeaf l) (NLeaf (lock_leaf l)).
Proof using HP.
  intros Hr [_ Hdel Hleaf]. destruct (lock_word_spec _ Hr) as (_ & _ & _ & Hd & _). pose proof HP as [? ? ?].
  cbn in Hdel, Hleaf. rewrite deleted_testbit in Hdel by done. rewrite isleaf_testbit in Hleaf by done.
  assert (forall n, lock_pos nodeversion_type < n ->
    Z.testbit (lock_word (l_version l)) n = Z.testbit (l_version l) n) as Hbit.
  { intros n Hn. rewrite lock_word_testbit by lia. destruct (Z.eqb_spec n (lock_pos nodeversion_type)); [lia|apply orb_false_r]. }
  split; [done|done|done|..|split]; cbn; rewrite ?is_root_testbit, ?deleted_testbit, ?isleaf_testbit, ?Hbit by (done || lia); done.
Qed.

Lemma lock_update s n l :
  m_heap s !! n = Some (NLeaf l) -> at_rest (l_version l) -> node_calm (NLeaf l) ->
  leaf_update (m_heap s) (m_heap (wr n (NLeaf (lock_leaf l)) s)) n l (lock_leaf l).
Proof using HP.
  intros Hn Hr Hc. split; [done|apply wr_at|by apply lock_shape|]. intros m nd Hm ?. by rewrite wr_other.
Qed.

End locked.

Section namespace_remove.
Context {cfg : Config} {fuel : Fuel}.

Abbreviation graph := (gmap loc directory).

(** A directory's layer has children exactly when it has items. *)
Lemma has_children_run s d n lo hi ls depth :
  layer_tree (m_heap s) d n lo hi ls -> (d < depth)%nat ->
  directory_root_has_children depth n s = Ok (negb (bool_decide (tree_items ls = [])), s).
Proof.
  intros Ht. assert (1 <= leaf_width <= 15) as HW by (cbn; lia). revert depth. induction Ht as [n l lo hi Hn Hc Hok _ _ _|d n i lo hi child sub Hn Hc Hi Hch _ _ _ IH];
    intros depth Hf; (destruct depth as [|depth]; [lia|]); cbn [directory_root_has_children];
    rewrite (sbind_run _ _ _ _ _ (isleaf_run _ _ _ Hn Hc)); cbn [is_leaf_node].
  - rewrite (sbind_run _ _ _ _ _ (get_leaf_run _ _ _ Hn)). unfold tree_items. cbn. rewrite app_nil_r.
    pose proof (length_leaf_items l Hok HW) as Hlen. pose proof (KPermuter.size_range (l_permutation l)). unfold leaf_size in *.
    case_bool_decide as He; [rewrite He in Hlen|destruct (leaf_items l); [done|]]; cbn in Hlen;
      destruct (Z.eqb_spec (KPermuter.size (l_permutation l)) 0); (done || lia).
  - rewrite (sbind_run _ _ _ _ _ (get_internode_run _ _ _ Hn)).
    pose proof (io_nkeys _ _ _ Hi) as HN. rewrite (internode_children i child) by (done || lia). set (N := Z.to_nat (i_nkeys i)).
    match goal with |- ?g (map _ _) s = _ => set (go := g) end.
    enough (forall cnt a, (a + cnt <= S N)%nat ->
      go (map (fun j => Some (child j)) (seq a cnt)) s =
        Ok (negb (bool_decide (flat_map (fun j => tree_items (sub j)) (seq a cnt) = [])), s)) as Hgo.
    { rewrite tree_items_flat_map. apply Hgo. lia. }
    induction cnt as [|cnt IHc]; intros a Ha; [done|]. cbn [seq map flat_map].
    change (go (Some (child a) :: ?cs)) with
      (let* b := directory_root_has_children depth (child a) in if b then mret true else go cs).
    rewrite (sbind_run _ _ _ _ _ (IH a ltac:(lia) depth ltac:(lia))).
    destruct (tree_items (sub a)) as [|e es]; [by apply IHc; lia|done].
Qed.
Lemma edges_agree_empty q h depth r ls m :
  edge_layer h q depth r ls -> edges_agree h ls m -> tree_items ls = [] <-> m = ∅.
Proof.
  intros [[_ Ht _ _] _] Hrel. pose proof (layer_ikeys_sorted _ _ _ _ _ _ Ht) as Hs. unfold edges_agree, layer_map in Hrel. split.
  - intros He. apply map_eq. intros k. specialize (Hrel k). rewrite He in Hrel. change (items_map []) with (∅ : gmap Z item) in Hrel.
    rewrite lookup_empty in *. by destruct (m !! k).
  - intros ->. destruct (tree_items ls) as [|e es] eqn:He; [done|]. specialize (Hrel (it_ikey e)). rewrite lookup_empty in Hrel.
    rewrite (proj2 (items_map_lookup (e :: es) (it_ikey e) e Hs)) in Hrel; [done|]. split; [left|done].
Qed.

(** Locking the leaf responsible for [k] leaves the graph as it is. *)
Lemma represents_locked s G r d q depth ls k n l :
  represents (m_heap s) G -> G !! r = Some d ->
  edge_layer (m_heap s) q depth r ls -> edges_agree (m_heap s) ls (d_edges d) ->
  leaf_for (m_heap s) depth r None None ls k n l -> at_rest (l_version l) ->
  represents (m_heap (wr n (NLeaf (lock_leaf l)) s)) G.
Proof.
  intros HG Hr Hel Hrel Hl Hrest. pose proof (lfor_at _ _ _ _ _ _ _ _ _ Hl) as Hat.
  assert (leaf_update (m_heap s) (m_heap (wr n (NLeaf (lock_leaf l)) s)) n l (lock_leaf l)) as Hu
    by (apply lock_update; [done|done|apply Hl]).
  pose proof Hel as [[_ Ht Hd Htop] Hit]. pose proof (lfor_sorted _ _ _ _ _ _ _ _ _ Hl) as Hs.
  destruct (edge_layer_rewritten (m_heap s) _ depth r ls k n l (lock_leaf l) Hl Ht Hd Htop Hit Hu) as (ls' & Hmap & Hnew).
  - intros lo hi [[[? ? ?] ?] ? ? ?] _. by split.
  - intros e He _. apply Hit, elem_of_tree_items. exists (n, l). split; [apply Hl|done].
  - done.
  - assert (layer_map ls' = layer_map ls) as Hsame.
    { apply map_eq. intros k'. rewrite Hmap. destruct (decide (k' = k)) as [->|]; [|done].
      by apply (leaf_for_map _ _ _ _ _ _ _ Ht Hl). }
    refine (proj1 (represents_update _ _ G G r d d n l (lock_leaf l) q depth ls ls' HG Hr Hel _ Hu _ eq_refl Hnew Hr _ _ _)).
    + apply Hl.
    + intros k'. rewrite Hsame. by eapply edges_rel_update.
    + done.
    + by left.
    + intros k1 x1 Hx1. destruct (HG r d Hr) as [_ Hin]. by eapply Hin.
Qed.

(** ** The locked search of a name *)

(** The slot of the hash [k] in the directory [r], entered through [q]. *)
Record slot_of (s : mstate) (q r : loc) (d : directory) (k : Z) (depth : nat) (ls : list (loc * leaf))
    (n : loc) (l : leaf) (kx : key_indexed_position) : Prop := {
  so_layer : edge_layer (m_heap s) q depth r ls;
  so_edges : edges_agree (m_heap s) ls (d_edges d);
  so_leaf : leaf_for (m_heap s) depth r None None ls k n l;
  so_found : edge_found l k (layer_map ls !! k) kx;
  so_rest : at_rest (l_version l)
}.

Definition slot_cursor (q : loc) (k : Z) (n : loc) (kx : key_indexed_position) (state : Z) : tcursor :=
  set_tc_state state (set_tc_kx kx (set_tc_n n (edge_cursor q k))).

Lemma find_slot_run s q r d k :
  settled s -> edges_at (m_heap s) q r (d_edges d) -> Word.is_word 64 k ->
  exists depth ls n l kx, slot_of s q r d k depth ls n l kx /\
    find_locked_edge (edge_cursor q k) s =
      Ok ((negb (found_state (layer_map ls !! k) =? 0), slot_cursor q k n kx (found_state (layer_map ls !! k))),
          wr n (NLeaf (lock_leaf l)) s).
Proof.
  intros Hset (depth & ls & Hel & Hrel) Hk. destruct (edge_key_ikey k Hk) as [Hik Hlen].
  destruct (find_locked_edge_run s q depth r ls (tc_ka (edge_cursor q k))) as (n & l & kx & Hl & Hf & Hrun);
    [cbn; lia|done|exact Hlen|intros ? ?; by eapply layer_at_rest|].
  change (k_ikey (tc_ka (edge_cursor q k)) = k) in Hik. rewrite Hik in Hl, Hf, Hrun.
  exists depth, ls, n, l, kx. split; [|exact Hrun]. split; [done|done|done|done|]. eapply layer_at_rest; [done|done|apply Hl].
Qed.

(** The namespace with the table's state replaced. *)
Definition with_mem (m : mstate) (s : nstate) : nstate := NState m (ns_buckets s) (ns_next_bucket s).
Definition locked_at (n : loc) (l : leaf) (s : nstate) : nstate := with_mem (wr n (NLeaf (lock_leaf l)) (ns_mem s)) s.

Lemma with_mem_same s : NState (ns_mem s) (ns_buckets s) (ns_next_bucket s) = s.
Proof. by destruct s. Qed.

Section slot.
Context (s : nstate) (G : graph) (root q r : loc) (d : directory) (k : Z).
Context (depth : nat) (ls : list (loc * leaf)) (n : loc) (l : leaf) (kx : key_indexed_position).
Context (Hs : namespace_at s G root) (Hset : settled (ns_mem s)) (Hd : G !! r = Some d).
Context (Hso : slot_of (ns_mem s) q r d k depth ls n l kx).

Let Hl := so_leaf _ _ _ _ _ _ _ _ _ _ Hso.
Let Hok := lfor_ok _ _ _ _ _ _ _ _ _ Hl.
Let Hat := lfor_at _ _ _ _ _ _ _ _ _ Hl.
Let Hrest := so_rest _ _ _ _ _ _ _ _ _ _ Hso.

Lemma width_ok : 1 <= @leaf_width namespace_table_params <= 15.
Proof using Type. cbn. lia. Qed.

(** Giving up under the lock restores the state. *)
Lemma finish_read_run st : finish_read (slot_cursor q k n kx st) (wr n (NLeaf (lock_leaf l)) (ns_mem s)) = Ok (tt, ns_mem s).
Proof using Hso. exact (unlock_lock_run n l (ns_mem s) Hat Hrest). Qed.

Lemma give_up_run st : mem (finish_read (slot_cursor q k n kx st)) (locked_at n l s) = Ok (tt, s).
Proof using Hso. unfold mem. cbn [ns_mem locked_at with_mem]. rewrite finish_read_run. exact (f_equal (fun x => Ok (tt, x)) (with_mem_same s)). Qed.

Lemma give_up_false st :
  (mem (finish_read (slot_cursor q k n kx st)) ;; mret false) (locked_at n l s) = Ok (false, s).
Proof using Hso. by rewrite (mbind_run _ _ _ _ _ (give_up_run st)). Qed.

(** The item in the slot. *)
Lemma slot_item_run e :
  layer_map ls !! k = Some e -> it_ikey e = k /\ edge_found l k (Some e) kx /\
  0 <= kp_i kx < leaf_size l /\ 0 <= kp_p kx < leaf_width /\ slot_item l (kp_p kx) = e /\
  aget (l_lv l) (kp_p kx) = Ok (it_lv e).
Proof using Hso.
  intros He. pose proof (so_found _ _ _ _ _ _ _ _ _ _ Hso) as Hf. rewrite He in Hf.
  destruct (rank_lookup l k e kx Hok width_ok Hf) as [_ Hi].
  destruct (edge_found_slot l k e kx Hok Hf) as (Hp & Hsl & Hlv). split; [|by repeat (split; [done|])].
  pose proof (la_tree _ _ _ _ _ (el_at _ _ _ _ _ (so_layer _ _ _ _ _ _ _ _ _ _ Hso))) as Ht.
  by apply items_map_lookup in He as [_ ?]; [|by eapply layer_ikeys_sorted].
Qed.

(** The edge removed. *)
Definition del_edge (d : directory) : directory := Directory (d_meta d) (delete k (d_edges d)).
Definition after_removal : mstate := wr n (NLeaf (removed l (kp_i kx))) (ns_mem s).

Lemma edge_removal_run e st :
  layer_map ls !! k = Some e -> can_shrink l ->
  finish_remove (slot_cursor q k n kx st) (wr n (NLeaf (lock_leaf l)) (ns_mem s)) =
    Ok (false, wr n (NLeaf (without_slot l (kp_i kx))) (ns_mem s)) /\
  Node.unlock n (wr n (NLeaf (without_slot l (kp_i kx))) (ns_mem s)) = Ok (tt, after_removal).
Proof using Hso.
  intros He Hsh. destruct (slot_item_run e He) as (_ & _ & Hi & _). split.
  - by apply (finish_remove_run n l (slot_cursor q k n kx st)); [done|done|apply width_ok|..].
  - by apply unlock_removed_run.
Qed.

Lemma edge_removal_graph e bs :
  layer_map ls !! k = Some e -> can_shrink l ->
  namespace_at (NState after_removal bs (ns_next_bucket s)) (<[r := del_edge d]> G) root /\ settled after_removal.
Proof using Hs Hset Hd Hso.
  intros He Hsh. destruct (slot_item_run e He) as (Hk & Hf & _). pose proof (so_layer _ _ _ _ _ _ _ _ _ _ Hso) as Hel.
  pose proof Hel as [[_ Ht Hdep Htop] Hit].
  destruct (removal_published (m_heap (ns_mem s)) (m_heap after_removal) depth r ls k n l kx e)
    as (Hu & Hrest' & ls' & Hmap & Hnew); [apply width_ok|done..|apply wr_at|intros m nd Hm Hmn; unfold after_removal; by rewrite wr_other|].
  split; [|by eapply settled_write]. pose proof (na_graph _ _ _ Hs) as HG.
  eapply (namespace_at_update s _ G _ root r d (del_edge d) n l _ q depth ls ls'); try done.
  - apply Hl.
  - intros k'. cbn [d_edges del_edge]. rewrite Hmap. destruct (decide (k' = k)) as [->|Hne].
    + by rewrite !lookup_delete_eq.
    + rewrite !lookup_delete_ne by done. eapply edges_rel_update; [exact Hu|]. apply (so_edges _ _ _ _ _ _ _ _ _ _ Hso).
  - apply lookup_insert_eq.
  - intros r1 d1 Hne Hr1. by rewrite lookup_insert_ne.
  - intros r1 d1 Hne Hr1. rewrite lookup_insert_ne in Hr1 by done. by left.
  - intros k' x' Hx'. cbn in Hx'. apply lookup_delete_Some in Hx' as [_ Hk'].
    destruct (HG r d Hd) as [_ Hcl]. destruct (Hcl k' x' Hk') as [d' Hd'].
    destruct (decide (x' = r)) as [->|]; [rewrite lookup_insert_eq; by eexists|]. rewrite lookup_insert_ne by done. by eexists.
Qed.

(** The slot's value replaced. *)
Definition after_set (v : namespace_entry) : mstate :=
  wr n (NLeaf (revalued l (kp_p kx) (@lv_value namespace_table_params v))) (ns_mem s).

Lemma value_set_graph e v bs :
  layer_map ls !! k = Some e -> it_keylenx e = ikey_size ->
  namespace_at (NState (after_set v) bs (ns_next_bucket s)) (<[r := add_edge k (edge_value v) d]> G) root /\
  settled (after_set v).
Proof using Hs Hset Hd Hso.
  intros He Hx. destruct (slot_item_run e He) as (Hk & Hf & _). pose proof (so_layer _ _ _ _ _ _ _ _ _ _ Hso) as Hel.
  pose proof Hel as [[_ Ht Hdep Htop] Hit].
  destruct (revaluation_published (m_heap (ns_mem s)) (m_heap (after_set v)) depth r ls k n l kx e v)
    as (Hu & ls' & Hmap & Hnew); [apply width_ok|done..|apply wr_at|intros m nd Hm Hmn; unfold after_set; by rewrite wr_other|].
  split; [|by eapply settled_write]. pose proof (na_graph _ _ _ Hs) as HG.
  eapply (namespace_at_update s _ G _ root r d (add_edge k (edge_value v) d) n l _ q depth ls ls'); try done.
  - apply Hl.
  - eapply edges_agree_insert; [exact Hu|apply (so_edges _ _ _ _ _ _ _ _ _ _ Hso)|exact Hmap|done].
  - apply lookup_insert_eq.
  - intros r1 d1 Hne Hr1. by rewrite lookup_insert_ne.
  - intros r1 d1 Hne Hr1. rewrite lookup_insert_ne in Hr1 by done. by left.
  - intros k' x' Hx'. cbn in Hx'. apply lookup_insert_Some in Hx' as [[_ ?]|[_ Hk']]; [done|].
    destruct (HG r d Hd) as [_ Hcl]. destruct (Hcl k' x' Hk') as [d' Hd'].
    destruct (decide (x' = r)) as [->|]; [rewrite lookup_insert_eq; by eexists|]. rewrite lookup_insert_ne by done. by eexists.
Qed.

(** ** The kinds of slots *)

(** [finish] after an unlock that is known. *)
Lemma finish_unlock_run c y m m' :
  m_heap m !! n = Some (NLeaf y) -> tc_n c = n -> Node.unlock n m = Ok (tt, m') -> exists c', finish_unlock c m = Ok (c', m').
Proof using Type.
  intros Hy Hn Hu. unfold finish_unlock. rewrite Hn, (sbind_run _ _ _ _ _ (full_version_run _ _ _ Hy)).
  rewrite (mbind_run _ _ _ _ _ Hu). by eexists.
Qed.

Lemma finish_removal_run e :
  layer_map ls !! k = Some e -> can_shrink l ->
  exists c', tcursor_finish (slot_cursor q k n kx 1) (-1) (wr n (NLeaf (lock_leaf l)) (ns_mem s)) = Ok (c', after_removal).
Proof using Hso.
  intros He Hsh. destruct (edge_removal_run e 1 He Hsh) as [Hrem Hun]. unfold tcursor_finish, finish.
  cbn [Z.ltb Z.compare tc_state slot_cursor set_tc_state Z.eqb Pos.eqb andb]. rewrite (sbind_run _ _ _ _ _ Hrem).
  by eapply finish_unlock_run; [apply wr_at| |].
Qed.

Lemma finish_nothing_run m' y :
  m_heap m' !! n = Some (NLeaf y) -> forall m'', Node.unlock n m' = Ok (tt, m'') ->
  exists c', tcursor_finish (slot_cursor q k n kx 1) 0 m' = Ok (c', m'').
Proof using Type. intros Hy m'' Hu. by eapply finish_unlock_run. Qed.

(** A directory: removed when it has the name and no edges. *)
Definition named_empty (dx : directory) (name : byte_string) : bool :=
  match d_meta dx with Some m => directory_meta_name_equals m name | None => false end && bool_decide (d_edges dx = ∅).

Lemma directory_slot_run x dx name :
  d_edges d !! k = Some (edge_dir x) -> G !! x = Some dx -> (named_empty dx name = true -> can_shrink l) ->
  remove_directory_slot (slot_cursor q k n kx (- ikey_size)) name (wr n (NLeaf (lock_leaf l)) (ns_mem s)) =
    Ok (if named_empty dx name then (true, after_removal) else (false, ns_mem s)).
Proof using Hs Hset Hd Hso.
  intros Hk Hx Hsh. pose proof (so_edges _ _ _ _ _ _ _ _ _ _ Hso k) as Hrel. rewrite Hk in Hrel.
  destruct (layer_map ls !! k) as [e|] eqn:He; [|done]. destruct Hrel as (Hlx & p & c & Hlv & Hcan & Hc).
  destruct (slot_item_run e He) as (_ & _ & Hi & Hp & Hsl & Hget).
  set (m1 := wr n (NLeaf (lock_leaf l)) (ns_mem s)).
  assert (represents (m_heap m1) G) as HG1.
  { eapply represents_locked; [apply Hs|exact Hd|apply (so_layer _ _ _ _ _ _ _ _ _ _ Hso)|apply (so_edges _ _ _ _ _ _ _ _ _ _ Hso)|exact Hl|done]. }
  assert (leaf_update (m_heap (ns_mem s)) (m_heap m1) n l (lock_leaf l)) as Hu
    by (apply lock_update; [done|done|apply Hl]).
  destruct (HG1 x dx Hx) as [Hdx _]. pose proof Hdx as [(depth' & ls' & Hel' & Hrel') _ _].
  pose proof (edges_agree_empty _ _ _ _ _ _ Hel' Hrel') as Hemp. destruct Hel' as [[_ Ht' Hd' _] _].
  unfold remove_directory_slot, tc_layer_root. rewrite sbind_assoc.
  rewrite (sbind_run _ _ _ _ _ (get_leaf_run n (lock_leaf l) m1 (wr_at _ _ _))), sbind_assoc.
  rewrite (sbind_run _ _ _ _ _ (lift_run _ _ m1 Hget : mget _ _ m1 = _)), Hlv. cbn [lv_get_layer].
  rewrite (sbind_run _ _ _ _ _ (lift_run _ _ m1 eq_refl)). cbn [deref]. rewrite sbind_ret.
  rewrite (sbind_run _ _ _ _ _ (canonicalize_run m1 p x c _ (canon_update _ _ _ _ _ _ _ _ Hu Hcan) Hc : canonicalize_directory_root p m1 = _)).
  rewrite (sbind_run _ _ _ _ _ (directory_entry_run x dx name m1 Hdx)).
  assert ((finish_read (slot_cursor q k n kx (- ikey_size)) ;; mret false) m1 = Ok (false, ns_mem s)) as Hgive.
  { by rewrite (mbind_run _ _ _ _ _ (finish_read_run _)). }
  unfold named_empty in *. destruct (d_meta dx) as [meta|]; [|exact Hgive].
  destruct (directory_meta_name_equals meta name); [|exact Hgive].
  rewrite (sbind_run _ _ _ _ _ (has_children_run m1 _ _ _ _ _ _ Ht' Hd')). cbn [andb] in *.
  case_bool_decide as Ht0; case_bool_decide as Hd0; cbn [negb]; try by tauto. specialize (Hsh eq_refl).
  destruct (edge_removal_run e (- ikey_size) He Hsh) as [Hrem Hun]. unfold remove_layer_edge.
  rewrite (mbind_run _ _ _ _ _ (check_true true _ eq_refl)).
  rewrite (sbind_run _ _ _ _ _ (get_leaf_run n (lock_leaf l) m1 (wr_at _ _ _))).
  assert (is_layer (lock_leaf l) (kp_p kx) = true) as Hlay.
  { apply (f_equal it_keylenx) in Hsl. cbn in Hsl. unfold is_layer, keylenx_is_layer.
    change (leaf_keylenx (lock_leaf l) (kp_p kx)) with (leaf_keylenx l (kp_p kx)). by rewrite Hsl, Hlx. }
  rewrite (mbind_run _ _ _ _ _ (check_true _ _ Hlay)), (sbind_run _ _ _ _ _ Hrem). cbn [negb].
  by rewrite (mbind_run _ _ _ _ _ Hun).
Qed.
End slot.

(** ** What a removal does *)

(** The effect of [remove_entry] on the abstract namespace. *)
Inductive removal :=
  | rm_refused
  | rm_edge (r : loc) (k : Z) (buckets : gmap Z (list namespace_entry))
  | rm_member (buckets : gmap Z (list namespace_entry))
  | rm_survivor (r : loc) (k : Z) (v : namespace_entry) (buckets : gmap Z (list namespace_entry)).

(** A file of a conflict chain: the last one takes the edge with it, the last
    but one leaves its survivor in the slot. *)
Definition chain_removal (buckets : gmap Z (list namespace_entry)) (r : loc) (k id : Z) (c : byte_string) : removal :=
  match buckets !! id with
  | None => rm_refused
  | Some es =>
    match List.find (fun e => entry_name_equals e c) es with
    | None => rm_refused
    | Some m =>
      if negb (entry_is_file m) then rm_refused
      else if (length es =? 1)%nat then rm_edge r k (delete id buckets)
      else match erase_named c es with
           | [v] => rm_survivor r k v (delete id buckets)
           | es' => rm_member (<[id := es']> buckets)
           end
    end
  end.

Definition child_removal (G : graph) (buckets : gmap Z (list namespace_entry)) (r : loc) (d : directory) (c : byte_string) : removal :=
  let k := hash_component c in
  match d_edges d !! k with
  | None => rm_refused
  | Some (edge_dir x) =>
    match G !! x with
    | Some dx =>
      if named_empty dx c then rm_edge r k buckets else rm_refused
    | None => rm_refused
    end
  | Some (edge_value v) =>
    if entry_is_conflict_chain v then chain_removal buckets r k (block_id (ne_ref v)) c
    else if entry_name_equals v c && entry_is_file v then rm_edge r k buckets else rm_refused
  end.

Definition path_removal (G : graph) (buckets : gmap Z (list namespace_entry)) (root : loc) (cs : list byte_string) : removal :=
  match last cs with
  | None => rm_refused
  | Some c =>
    match walk G root (map hash_component (removelast cs)) with
    | Some r => match G !! r with Some d => child_removal G buckets r d c | None => rm_refused end
    | None => rm_refused
    end
  end.

(** The leaf of the directory [r] responsible for the hash [k] does not become
    empty, or is the leftmost one. *)
Definition shrinks_at (h : gmap loc node) (r : loc) (k : Z) : Prop :=
  forall q depth ls n l, edge_layer h q depth r ls -> leaf_for h depth r None None ls k n l -> can_shrink l.

(** A run of [remove_entry] has the effect [o]. *)
Definition removal_done (s : nstate) (G : graph) (root : loc) (o : removal) (r0 : res (bool * nstate)) : Prop :=
  match o with
  | rm_refused => r0 = Ok (false, s)
  | rm_member bs => r0 = Ok (true, NState (ns_mem s) bs (ns_next_bucket s))
  | rm_edge r k bs =>
    exists m', r0 = Ok (true, NState m' bs (ns_next_bucket s)) /\ settled m' /\ m_limbo m' = m_limbo (ns_mem s) /\
      forall d, G !! r = Some d -> namespace_at (NState m' bs (ns_next_bucket s)) (<[r := del_edge k d]> G) root
  | rm_survivor r k v bs =>
    exists m', r0 = Ok (true, NState m' bs (ns_next_bucket s)) /\ settled m' /\ m_limbo m' = m_limbo (ns_mem s) /\
      forall d, G !! r = Some d -> namespace_at (NState m' bs (ns_next_bucket s)) (<[r := add_edge k (edge_value v) d]> G) root
  end.

Section outcome.
Context (s : nstate) (G : graph) (root q r : loc) (d : directory) (c : byte_string).
Context (depth : nat) (ls : list (loc * leaf)) (n : loc) (l : leaf) (kx : key_indexed_position).
Abbreviation k := (hash_component c).
Context (Hs : namespace_at s G root) (Hset : settled (ns_mem s)) (Hd : G !! r = Some d).
Context (Hso : slot_of (ns_mem s) q r d k depth ls n l kx).

Lemma removal_done_edge e bs :
  layer_map ls !! k = Some e -> can_shrink l ->
  removal_done s G root (rm_edge r k bs) (Ok (true, NState (after_removal s n l kx) bs (ns_next_bucket s))).
Proof using Hs Hset Hd Hso.
  intros He Hsh. destruct (edge_removal_graph s G root q r d k depth ls n l kx Hs Hset Hd Hso e bs He Hsh) as [Hat Hst].
  eexists. split; [done|]. split; [done|]. split; [done|]. intros d' Hd'. rewrite Hd in Hd'. by injection Hd' as <-.
Qed.

(** A value under its own name. *)
Lemma value_item v : d_edges d !! k = Some (edge_value v) ->
  exists e, layer_map ls !! k = Some e /\ it_keylenx e = ikey_size /\ it_lv e = lv_value v /\
    mem (tc_value (slot_cursor q k n kx 1)) (locked_at n l s) = Ok (v, locked_at n l s).
Proof using Hso.
  intros Hk. pose proof (so_edges _ _ _ _ _ _ _ _ _ _ Hso k) as Hrel. rewrite Hk in Hrel.
  destruct (layer_map ls !! k) as [e|] eqn:He; [|done]. destruct Hrel as [Hx Hlv].
  exists e. split; [done|]. split; [done|]. split; [done|].
  destruct (slot_item_run s q r d k depth ls n l kx Hso e He) as (_ & _ & _ & _ & _ & Hget).
  apply mem_run. unfold tc_value. cbn [ns_mem locked_at with_mem].
  rewrite (sbind_run _ _ _ _ _ (get_leaf_run n (lock_leaf l) _ (wr_at _ _ _))).
  rewrite (sbind_run _ _ _ _ _ (lift_run _ _ _ Hget : mget _ _ _ = _)). by rewrite Hlv.
Qed.

Lemma chain_run v :
  d_edges d !! k = Some (edge_value v) ->
  (forall bs, chain_removal (ns_buckets s) r k (block_id (ne_ref v)) c = rm_edge r k bs -> can_shrink l) ->
  removal_done s G root (chain_removal (ns_buckets s) r k (block_id (ne_ref v)) c)
    (remove_from_chain (slot_cursor q k n kx 1) v c (locked_at n l s)).
Proof using Hs Hset Hd Hso.
  intros Hk Hsh. destruct (value_item v Hk) as (e & He & Hx & _ & _).
  pose proof (give_up_false s q r d k depth ls n l kx Hso 1) as Hgive.
  unfold remove_from_chain, chain_removal in *. set (id := block_id (ne_ref v)) in *.
  assert (find_bucket id (locked_at n l s) = Ok (ns_buckets s !! id, locked_at n l s)) as Hfind by done.
  rewrite (sbind_run _ _ _ _ _ Hfind). destruct (ns_buckets s !! id) as [es|]; [|exact Hgive].
  destruct (List.find _ es) as [m|]; [|exact Hgive]. destruct (entry_is_file m); cbn [negb] in *; [|exact Hgive].
  destruct (length es =? 1)%nat.
  - specialize (Hsh _ eq_refl). destruct (finish_removal_run s q r d k depth ls n l kx Hso e He Hsh) as (c' & Hrun).
    assert (erase_bucket id (locked_at n l s) =
      Ok (tt, NState (wr n (NLeaf (lock_leaf l)) (ns_mem s)) (delete id (ns_buckets s)) (ns_next_bucket s))) as Her by done.
    rewrite (mbind_run _ _ _ _ _ Her). rewrite (sbind_run _ _ _ _ _ (mem_step _ _ (NState _ _ _) _ Hrun)).
    by apply (removal_done_edge e).
  - clear Hsh. set (es' := erase_named c es).
    assert (set_bucket id es' (locked_at n l s) =
      Ok (tt, NState (wr n (NLeaf (lock_leaf l)) (ns_mem s)) (<[id := es']> (ns_buckets s)) (ns_next_bucket s))) as Hst by done.
    rewrite (mbind_run _ _ _ _ _ Hst).
    pose proof (unlock_lock_run n l (ns_mem s) (lfor_at _ _ _ _ _ _ _ _ _ (so_leaf _ _ _ _ _ _ _ _ _ _ Hso)) (so_rest _ _ _ _ _ _ _ _ _ _ Hso)) as Hun.
    assert (forall es0, removal_done s G root (rm_member (<[id := es0]> (ns_buckets s)))
      ((let* _ := mem (tcursor_finish (slot_cursor q k n kx 1) 0) in mret true)
         (NState (wr n (NLeaf (lock_leaf l)) (ns_mem s)) (<[id := es0]> (ns_buckets s)) (ns_next_bucket s)))) as Hmem.
    { intros es0. destruct (finish_nothing_run q k n kx _ _ (wr_at n (NLeaf (lock_leaf l)) (ns_mem s)) _ Hun) as (c' & Hrun).
      by rewrite (sbind_run _ _ _ _ _ (mem_step _ _ (NState _ _ _) _ Hrun)). }
    destruct es' as [|v' [|w es']].
    + apply Hmem.
    + destruct (slot_item_run s q r d k depth ls n l kx Hso e He) as (_ & _ & _ & Hp & _).
      pose proof (set_value_run n l (slot_cursor q k n kx 1) v' (ns_mem s) (lfor_ok _ _ _ _ _ _ _ _ _ (so_leaf _ _ _ _ _ _ _ _ _ _ Hso))
        eq_refl Hp (so_rest _ _ _ _ _ _ _ _ _ _ Hso)) as Hset'.
      apply sm_bind_ok in Hset' as ([] & m2 & Hsv & Hun2).
      assert (exists y, m_heap m2 !! n = Some (NLeaf y)) as (y & Hy).
      { unfold tc_set_value, upd_leaf_res in Hsv. rewrite (sbind_run _ _ _ _ _ (get_leaf_run n (lock_leaf l) _ (wr_at _ _ _))) in Hsv.
        unfold lift, sbind, sm_bind in Hsv. destruct (leaf_set_lv _ _ _) as [y|]; [|done]. exists y.
        injection Hsv as <-. apply lookup_insert_eq. }
      destruct (finish_nothing_run q k n kx _ _ Hy _ Hun2) as (c' & Hrun). rewrite mbind_assoc_run.
      assert (erase_bucket id (NState (wr n (NLeaf (lock_leaf l)) (ns_mem s)) (<[id := [v']]> (ns_buckets s)) (ns_next_bucket s)) =
        Ok (tt, NState (wr n (NLeaf (lock_leaf l)) (ns_mem s)) (delete id (ns_buckets s)) (ns_next_bucket s))) as Her
        by (unfold erase_bucket; cbn; by rewrite delete_insert_eq).
      rewrite (mbind_run _ _ _ _ _ Her), (mbind_run _ _ _ _ _ (mem_step _ _ (NState _ _ _) _ Hsv)).
      rewrite (sbind_run _ _ _ _ _ (mem_step _ _ (NState _ _ _) _ Hrun)). cbn [ns_buckets ns_next_bucket].
      destruct (value_set_graph s G root q r d k depth ls n l kx Hs Hset Hd Hso e v' (delete id (ns_buckets s)) He Hx) as [Hns Hst'].
      eexists. split; [done|]. split; [exact Hst'|]. split; [done|]. intros d' Hd'. rewrite Hd in Hd'. by injection Hd' as <-.
    + apply Hmem.
Qed.

(** The locked search and what follows it. *)
Lemma child_run :
  (forall k' bs, child_removal G (ns_buckets s) r d c = rm_edge r k' bs -> can_shrink l) ->
  removal_done s G root (child_removal G (ns_buckets s) r d c)
    ((let cu := slot_cursor q k n kx (found_state (layer_map ls !! k)) in
      if (tc_state cu <? 0) && tc_is_layer cu then mem (remove_directory_slot cu c)
      else if tc_state cu <=? 0 then mem (finish_read cu) ;; mret false
      else
        let* slot_value := mem (tc_value cu) in
        if negb (entry_is_conflict_chain slot_value) then
          if negb (entry_name_equals slot_value c) || negb (entry_is_file slot_value) then
            mem (finish_read cu) ;; mret false
          else let* _ := mem (tcursor_finish cu (-1)) in mret true
        else remove_from_chain cu slot_value c) (locked_at n l s)).
Proof using Hs Hset Hd Hso.
  intros Hsh. cbn zeta. unfold child_removal in *. pose proof (so_edges _ _ _ _ _ _ _ _ _ _ Hso k) as Hrel.
  destruct (d_edges d !! k) as [[x|v]|] eqn:Hk.
  - destruct (layer_map ls !! k) as [e|] eqn:He; [|done]. destruct Hrel as (Hx & _). cbn [found_state]. unfold edge_state. rewrite Hx.
    cbn [Z.eqb Pos.eqb layer_keylenx]. cbn [tc_state slot_cursor set_tc_state]. change (- ikey_size <? 0) with true.
    change (tc_is_layer (slot_cursor q k n kx (- ikey_size))) with true. cbn [andb].
    destruct (na_graph _ _ _ Hs r d Hd) as [_ Hcl]. destruct (Hcl k x Hk) as [dx Hdx]. rewrite Hdx in *.
    pose proof (directory_slot_run s G root q r d k depth ls n l kx Hs Hset Hd Hso x dx c Hk Hdx) as Hrun.
    unfold mem. cbn [ns_mem locked_at with_mem]. destruct (named_empty dx c).
    + rewrite Hrun by (intros _; by eapply Hsh). apply (removal_done_edge e); [done|by eapply Hsh].
    + rewrite Hrun by done. exact (f_equal (fun x => Ok (false, x)) (with_mem_same s)).
  - destruct (value_item v Hk) as (e & He & Hx & _ & Hv). rewrite He in Hrel |- *. cbn [found_state]. unfold edge_state. rewrite Hx.
    change (if ikey_size =? layer_keylenx then - ikey_size else 1) with 1. cbn [tc_state slot_cursor set_tc_state Z.ltb Z.leb Z.compare andb].
    rewrite (sbind_run _ _ _ _ _ Hv). destruct (entry_is_conflict_chain v); cbn [negb].
    + apply chain_run; [done|]. intros bs Hbs. by eapply Hsh.
    + destruct (entry_name_equals v c), (entry_is_file v); cbn [negb orb andb] in *;
        try exact (give_up_false s q r d k depth ls n l kx Hso 1).
      destruct (finish_removal_run s q r d k depth ls n l kx Hso e He) as (c' & Hrun); [by eapply Hsh|].
      rewrite (sbind_run _ _ _ _ _ (mem_step _ _ (locked_at n l s) _ Hrun)).
      apply (removal_done_edge e); [done|by eapply Hsh].
  - destruct (layer_map ls !! k) as [e|] eqn:He; [done|]. cbn [found_state tc_state slot_cursor set_tc_state Z.ltb Z.leb Z.compare andb].
    exact (give_up_false s q r d k depth ls n l kx Hso 0).
Qed.
End outcome.

(** C3: [remove_entry] (as [remove_path_for_test]) on a heap that represents a
    graph.  A file, or a directory that is empty and has the name, goes: the heap
    then represents the graph without the edge.  A member of a conflict chain
    goes from its bucket; the last one takes the edge with it, the last but one
    leaves its survivor in the slot as a value.  In every other case (the root, a
    missing parent or name, another name under the hash, a directory with
    children, a chain whose bucket is gone) it refuses and leaves the state
    exactly as it was; on a path that does not parse it fails.  No lock is left
    held and no node is handed to the reclamation, the removed directory's root
    node included.  Removing an edge needs the leaf to keep an item or to be the
    leftmost of its layer ([shrinks_at]): what [remove_leaf] does to take any other
    emptied leaf out of the list and the tree is not covered.  Refusals and members
    of longer chains need nothing. *)
Theorem remove_entry_effect (s : nstate) (G : graph) (root : loc) (path : byte_string) :
  namespace_at s G root -> settled (ns_mem s) ->
  match parse_absolute_path path with
  | Fault f => remove_path_for_test path s = Fault f
  | Ok parsed =>
    let o := path_removal G (ns_buckets s) root (components parsed) in
    match o with rm_edge r k _ => shrinks_at (m_heap (ns_mem s)) r k | _ => True end ->
    removal_done s G root o (remove_path_for_test path s)
  end.
Proof.
  intros Hs Hset. unfold remove_path_for_test, remove_entry. destruct (parse_absolute_path path) as [parsed|f] eqn:Hparse; [|done].
  rewrite (sbind_run _ _ _ _ _ (lift_run _ _ _ eq_refl)).
  destruct (parse_shape _ _ Hparse) as (cs' & Hcs & ->). clear Hparse. cbn [components]. fold (parsed_of cs').
  unfold path_removal. destruct cs' as [|c cs _] using rev_ind; [done|]. rewrite last_snoc, removelast_last.
  pose proof Hcs as [Hcs0 _]%Forall_app. destruct (child_path cs c Hcs) as [Hr Hn Hpar Hname Hhash].
  destruct (locate_directory_run s G root cs Hs Hcs0) as (p & Hloc & Hp).
  rewrite Hr, Hn, Hpar. cbn [orb]. rewrite (sbind_run _ _ _ _ _ (mem_run _ _ _ Hloc)).
  destruct (walk G root (map hash_component cs)) as [r|]; [|by subst p]. destruct Hp as (q & d & -> & Hd & Hq & _).
  rewrite Hd, Hname, Hhash. intros Hsh.
  destruct (find_slot_run (ns_mem s) q r d (hash_component c) Hset Hq (hash_component_word c))
    as (depth & ls & n & l & kx & Hso & Hrun).
  rewrite (sbind_run _ _ _ _ _ (mem_step _ _ _ _ Hrun)). cbn [snd].
  apply (child_run s G root q r d c depth ls n l kx Hs Hset Hd Hso).
  intros k bs Ho. rewrite Ho in Hsh.
  assert (k = hash_component c) as ->; [|eapply Hsh; [apply (so_layer _ _ _ _ _ _ _ _ _ _ Hso)|apply (so_leaf _ _ _ _ _ _ _ _ _ _ Hso)]].
  clear -Ho. unfold child_removal, chain_removal in Ho. repeat case_match; congruence.
Qed.
End namespace_remove.
