(* ===== verification/Checker.v ===== *)
(** * Deciding that a heap represents a namespace

    Executable checks of well-formedness, sound for the invariants of the other
    files: they read the graph of directories off a concrete heap, so that the
    properties apply to the states that programs of operations compute. *)

From stdpp Require Import sorting.
From S2P Require Export NamespaceRemove NamespaceUpdate.
From S2P Require Import NodeVersion KPermuter.

#[local] Open Scope Z_scope.
#[local] Open Scope lhm_scope.

#[local] Existing Instance np_config.

(** ** Layers *)

Section layers.
Context {P : nodeparams}.

Definition check_calm (nd : node) : bool :=
  negb (is_dirty nodeversion_type (node_version nd)) &&
  negb (NodeVersion.deleted nodeversion_type (node_version nd)) &&
  Bool.eqb (NodeVersion.isleaf nodeversion_type (node_version nd)) (is_leaf_node nd).

Definition check_within (lo hi : option Z) (k : Z) : bool :=
  match lo with Some x => x <=? k | None => true end && match hi with Some x => k <? x | None => true end.

Definition check_perm (x : Z) : bool :=
  (KPermuter.size x <=? leaf_width) &&
  forallb (fun i => bool_decide (i ∈ KPermuter.elems leaf_width x)) (seqZ 0 leaf_width).

Definition check_leaf (lo hi : option Z) (l : leaf) : bool :=
  (Z.of_nat (length (l_ikey0 l)) =? leaf_width) && (Z.of_nat (length (l_keylenx l)) =? leaf_width) &&
  (Z.of_nat (length (l_lv l)) =? leaf_width) && check_perm (l_permutation l) &&
  check_calm (NLeaf l) && negb (deleted_layer l) &&
  bool_decide (StronglySorted Z.lt (it_ikey <$> leaf_items l)) &&
  forallb (fun e => check_within lo hi (it_ikey e)) (leaf_items l).

Definition check_internode (lo hi : option Z) (i : internode) : bool :=
  (0 <=? i_nkeys i) && (i_nkeys i <=? internode_width) &&
  forallb (fun a => forallb (fun b => internode_ikey i a <? internode_ikey i b)
    (seqZ (a + 1) (i_nkeys i - (a + 1)))) (seqZ 0 (i_nkeys i)) &&
  forallb (fun a => check_within lo hi (internode_ikey i a)) (seqZ 0 (i_nkeys i)) &&
  check_calm (NInternode i).

Definition child_at (i : internode) (n : loc) (j : nat) : loc :=
  match i_child i !! j with Some (Some c) => c | _ => n end.

(** The tree of depth [d] at [n], as its leaves. *)
Fixpoint check_tree (d : nat) (h : gmap loc node) (n : loc) (lo hi : option Z) : option (list (loc * leaf)) :=
  match d, h !! n with
  | O, Some (NLeaf l) => if check_leaf lo hi l then Some [(n, l)] else None
  | S d, Some (NInternode i) =>
    let js := seq 0 (S (Z.to_nat (i_nkeys i))) in
    if check_internode lo hi i &&
       forallb (fun j => bool_decide (i_child i !! j = Some (Some (child_at i n j))) &&
                         bool_decide (h !! child_at i n j ≫= node_parent = Some n)) js &&
       bool_decide (NoDup (child_at i n <$> js))
    then mjoin <$> mapM (fun j => check_tree d h (child_at i n j) (low_bound lo i j) (high_bound hi i j)) js
    else None
  | _, _ => None
  end.

Lemma check_calm_sound nd : check_calm nd = true -> node_calm nd.
Proof.
  unfold check_calm. rewrite !andb_true_iff, !negb_true_iff, Bool.eqb_true_iff. intros [[? ?] ?]. by split.
Qed.

Lemma check_within_sound lo hi k : check_within lo hi k = true -> within lo hi k.
Proof.
  unfold check_within. rewrite andb_true_iff. intros [Hl Hh].
  split; intros x ->; [by apply Z.leb_le|by apply Z.ltb_lt].
Qed.

Lemma check_perm_sound x : check_perm x = true -> 0 <= leaf_width -> KPermuter.wf leaf_width x.
Proof.
  unfold check_perm. rewrite andb_true_iff. intros [Hs Hp] HW. split; [by apply Z.leb_le|].
  symmetry. apply submseteq_length_Permutation.
  - apply NoDup_submseteq; [apply NoDup_seqZ|]. intros i Hi.
    by apply (forallb_elem _ _ _ Hp), bool_decide_eq_true in Hi.
  - rewrite length_elems, length_seqZ. lia.
Qed.

Lemma check_leaf_sound h n lo hi l :
  0 <= leaf_width -> h !! n = Some (NLeaf l) -> check_leaf lo hi l = true -> layer_tree h 0 n lo hi [(n, l)].
Proof.
  intros HW Hn. unfold check_leaf. rewrite !andb_true_iff, !Z.eqb_eq, negb_true_iff.
  intros [[[[[[[? ?] ?] Hp] Hc] Hd] Hs] Hw]. apply layer_leaf; try done.
  - by apply check_calm_sound.
  - split; [by split|by apply check_perm_sound].
  - by apply bool_decide_eq_true in Hs.
  - apply Forall_forall. intros e He. by apply check_within_sound, (forallb_elem _ _ _ Hw).
Qed.

Lemma check_internode_sound lo hi i :
  check_internode lo hi i = true -> internode_ok lo hi i /\ node_calm (NInternode i).
Proof.
  unfold check_internode. rewrite !andb_true_iff, !Z.leb_le. intros [[[[? ?] Hs] Hw] Hc].
  split; [|by apply check_calm_sound]. split; [lia|..].
  - intros a b Ha Hab Hb. apply Z.ltb_lt.
    apply (forallb_elem _ _ a) in Hs; [|by apply elem_of_seqZ; lia].
    apply (forallb_elem _ _ b) in Hs; [done|apply elem_of_seqZ; lia].
  - intros a Ha. apply check_within_sound, (forallb_elem _ _ _ Hw), elem_of_seqZ. lia.
Qed.

Lemma mapM_flat_map {A B} (f : A -> option (list B)) xs yss :
  mapM f xs = Some yss -> mjoin yss = flat_map (fun x => default [] (f x)) xs.
Proof.
  intros H%mapM_Some. induction H as [|x ys xs yss Hf _ IH]; [done|].
  cbn [flat_map]. rewrite Hf, <- IH. done.
Qed.

Lemma check_tree_sound d h n lo hi ls :
  0 <= leaf_width -> check_tree d h n lo hi = Some ls -> layer_tree h d n lo hi ls.
Proof.
  intros HW. revert n lo hi ls. induction d as [|d IH]; intros n lo hi ls; cbn [check_tree];
    destruct (h !! n) as [[l|i]|] eqn:Hn; try done.
  - destruct (check_leaf lo hi l) eqn:Hl; [|done]. intros [= <-]. by apply check_leaf_sound.
  - destruct (check_internode lo hi i && _ && _) eqn:Hc; [|done]. rewrite !andb_true_iff in Hc.
    destruct Hc as [[Hi Hch] Hnd%bool_decide_eq_true].
    apply check_internode_sound in Hi as [Hi Hcalm].
    intros (yss & Hm & ->)%fmap_Some. rewrite (mapM_flat_map _ _ _ Hm).
    pose proof (io_nkeys _ _ _ Hi) as Hnk.
    assert (forall j, Z.of_nat j <= i_nkeys i -> j ∈ seq 0 (S (Z.to_nat (i_nkeys i)))) as Hin
      by (intros j Hj; apply elem_of_seq; lia).
    apply (layer_internode _ _ _ _ _ _ (child_at i n)); try done.
    + intros j Hj. pose proof (forallb_elem _ _ _ Hch (Hin j Hj)) as [Hb _]%andb_true_iff.
      by apply bool_decide_eq_true in Hb.
    + intros j Hj. pose proof (forallb_elem _ _ _ Hch (Hin j Hj)) as [_ Hb]%andb_true_iff.
      apply bool_decide_eq_true, bind_Some in Hb as (nd & ? & ?). by exists nd.
    + intros j j' Hj Hj' He. eapply (NoDup_lookup _ j j' (child_at i n j)); [exact Hnd|..];
        rewrite list_lookup_fmap, lookup_seq_lt by lia; cbn; congruence.
    + intros j Hj. apply IH. apply mapM_Some in Hm.
      destruct (Forall2_lookup_l _ _ _ j j Hm) as (ys & _ & Hys); [by rewrite lookup_seq_lt by lia|].
      by rewrite Hys.
Qed.

(** Climbing to a root, and the depth of the tree there. *)
Fixpoint find_climb (f : nat) (h : gmap loc node) (n : loc) : option loc :=
  match f, h !! n with
  | S f, Some nd =>
    if negb (check_calm nd) then None
    else if NodeVersion.is_root nodeversion_type (node_version nd) then Some n
    else match node_parent nd with Some p => find_climb f h p | None => None end
  | _, _ => None
  end.

Lemma find_climb_sound f h n m :
  find_climb f h n = Some m -> exists k, climbs h n m k /\ (k < f)%nat.
Proof.
  revert n. induction f as [|f IH]; intros n; cbn [find_climb]; [done|].
  destruct (h !! n) as [nd|] eqn:Hn; [|done]. destruct (check_calm nd) eqn:Hc; [|done]. cbn [negb].
  apply check_calm_sound in Hc. destruct (NodeVersion.is_root _ _) eqn:Hr.
  - intros [= <-]. exists 0%nat. split; [by eapply climbs_root|lia].
  - destruct (node_parent nd) as [p|] eqn:Hp; [|done]. intros (k & Hk & Hlt)%IH.
    exists (S k). split; [by eapply climbs_parent|lia].
Qed.

Fixpoint tree_depth (f : nat) (h : gmap loc node) (n : loc) : nat :=
  match f, h !! n with
  | S f, Some (NInternode i) => match i_child i !! 0%nat with Some (Some c) => S (tree_depth f h c) | _ => 0 end
  | _, _ => 0
  end.

(** The leaves of the layer entered at [r0] with root [root]. *)
Definition check_layer (h : gmap loc node) (r0 root : loc) : option (list (loc * leaf)) :=
  let d := tree_depth np_fuel h root in
  match check_tree d h root None None with
  | Some ls =>
    if bool_decide (find_climb np_fuel h r0 = Some root) && (d <? np_fuel)%nat &&
       bool_decide (node_parent <$> h !! root = Some None) &&
       forallb (fun e => (it_keylenx e =? ikey_size) || (it_keylenx e =? layer_keylenx)) (tree_items ls)
    then Some ls else None
  | None => None
  end.

Lemma check_layer_sound h r0 root ls :
  0 <= leaf_width -> check_layer h r0 root = Some ls -> exists d, edge_layer h r0 d root ls.
Proof.
  intros HW. unfold check_layer. destruct (check_tree _ h root None None) as [ls'|] eqn:Ht; [|done].
  destruct (_ && _ && _ && _) eqn:Hc; [|done]. intros [= <-]. rewrite !andb_true_iff in Hc.
  destruct Hc as [[[Hcl%bool_decide_eq_true Hd%Nat.ltb_lt] Hp%bool_decide_eq_true] Hi].
  exists (tree_depth np_fuel h root). split; [split|].
  - by apply find_climb_sound.
  - by apply check_tree_sound.
  - done.
  - apply fmap_Some in Hp as (nd & Hnd & Hp). by exists nd.
  - intros e He. apply (forallb_elem _ _ _ Hi), orb_prop in He as [He|He]; apply Z.eqb_eq in He; [by left|by right].
Qed.
End layers.

(** ** The namespace *)

Section namespace.
Context {cfg : Config} {fuel : Fuel}.

Abbreviation graph := (gmap loc directory).

#[export] Instance edge_eq_dec : EqDecision edge.
Proof. solve_decision. Defined.

Fixpoint find_canon (f : nat) (h : gmap loc node) (n : loc) : option loc :=
  match f, h !! n with
  | S f, Some nd =>
    if negb (check_calm nd) then None
    else match node_parent nd with
         | None => Some n
         | Some p => if bool_decide (p = n) then None else find_canon f h p
         end
  | _, _ => None
  end.

Lemma find_canon_sound f h n m : find_canon f h n = Some m -> exists k, canon h n m k /\ (k < f)%nat.
Proof.
  revert n. induction f as [|f IH]; intros n; cbn [find_canon]; [done|].
  destruct (h !! n) as [nd|] eqn:Hn; [|done]. destruct (check_calm nd) eqn:Hc; [|done]. cbn [negb].
  apply check_calm_sound in Hc. destruct (node_parent nd) as [p|] eqn:Hp.
  - case_bool_decide as Hne; [done|]. intros (k & Hk & Hlt)%IH. exists (S k). split; [by eapply canon_parent|lia].
  - intros [= <-]. exists 0%nat. split; [by eapply canon_root|lia].
Qed.

(** The edge an item stands for. *)
Definition item_edge (h : gmap loc node) (e : item) : option edge :=
  if it_keylenx e =? layer_keylenx then
    match it_lv e with lv_layer (Some p) => edge_dir <$> find_canon np_fuel h p | _ => None end
  else if it_keylenx e =? ikey_size then
    match it_lv e with lv_value v => Some (edge_value v) | _ => None end
  else None.

Lemma item_edge_sound h e a : item_edge h e = Some a -> edge_of h e a.
Proof.
  unfold item_edge. destruct (Z.eqb_spec (it_keylenx e) layer_keylenx) as [Hk|].
  - destruct (it_lv e) as [|[p|]] eqn:Hlv; try done. intros (r & Hr & ->)%fmap_Some.
    apply find_canon_sound in Hr as (k & Hc & Hf). split; [done|]. by exists p, k.
  - destruct (Z.eqb_spec (it_keylenx e) ikey_size); [|done]. by destruct (it_lv e) eqn:Hlv; intros [= <-].
Qed.

(** The edges of the layer entered at [r0]. *)
Definition check_edges (h : gmap loc node) (r0 root : loc) : option (gmap Z edge) :=
  match check_layer h r0 root with
  | Some ls =>
    let m := layer_map ls in
    if forallb (fun kv => match item_edge h (snd kv) with Some _ => true | None => false end) (map_to_list m)
    then Some (omap (item_edge h) m) else None
  | None => None
  end.

Lemma check_edges_sound h r0 root m : check_edges h r0 root = Some m -> edges_at h r0 root m.
Proof.
  unfold check_edges. destruct (check_layer h r0 root) as [ls|] eqn:Hl; [|done].
  apply check_layer_sound in Hl as (d & Hl); [|done]. destruct (forallb _ _) eqn:Hf; [|done]. intros [= <-].
  exists d, ls. split; [done|]. intros k. rewrite lookup_omap.
  destruct (layer_map ls !! k) as [e|] eqn:He; [|done]. cbn.
  apply elem_of_map_to_list in He. apply (forallb_elem _ _ _ Hf) in He. cbn in He.
  destruct (item_edge h e) as [a|] eqn:Ha; [|done]. by apply item_edge_sound.
Qed.

Definition check_directory (h : gmap loc node) (r : loc) : option directory :=
  match check_edges h r r, h !! r with
  | Some m, Some nd =>
    if check_calm nd &&
       match node_meta nd with
       | Some meta => Z.of_nat (length (directory_meta_name meta)) <=? kMaxEntryNameBytes
       | None => true end
    then Some (Directory (node_meta nd) m) else None
  | _, _ => None
  end.

Lemma check_directory_sound h r d : check_directory h r = Some d -> directory_at h r d.
Proof.
  unfold check_directory. destruct (check_edges h r r) as [m|] eqn:Hm; [|done].
  destruct (h !! r) as [nd|] eqn:Hr; [|done]. destruct (_ && _) eqn:Hc; [|done]. intros [= <-].
  apply andb_true_iff in Hc as [Hc Hn]. apply check_calm_sound in Hc. split.
  - by apply check_edges_sound.
  - by exists nd.
  - intros meta Hmeta. cbn in Hmeta. rewrite Hmeta in Hn. by apply Z.leb_le.
Qed.

(** The graph of the directories [rs], whose edges must stay among them. *)
Definition check_graph (h : gmap loc node) (rs : list loc) : option graph :=
  match mapM (fun r => pair r <$> check_directory h r) rs with
  | Some ds =>
    let G : graph := list_to_map ds in
    if forallb (fun rd => forallb (fun ka => match snd ka with
        | edge_dir r' => bool_decide (is_Some (G !! r')) | edge_value _ => true end)
      (map_to_list (d_edges (snd rd)))) ds
    then Some G else None
  | None => None
  end.

Lemma check_graph_sound h rs G : check_graph h rs = Some G -> represents h G.
Proof.
  unfold check_graph. destruct (mapM _ rs) as [ds|] eqn:Hm; [|done]. cbn zeta.
  destruct (forallb _ ds) eqn:Hf; [|done]. intros [= <-]. intros r d Hr.
  apply elem_of_list_to_map_2 in Hr. split.
  - apply list_elem_of_lookup in Hr as (j & Hj). apply mapM_Some in Hm.
    destruct (Forall2_lookup_r _ _ _ _ _ Hm Hj) as (r' & _ & (d' & Hd & [= -> ->])%fmap_Some).
    by apply check_directory_sound.
  - intros k r' Hk. apply (forallb_elem _ _ _ Hf) in Hr. cbn in Hr. apply elem_of_map_to_list in Hk.
    apply (forallb_elem _ _ _ Hr) in Hk. by apply bool_decide_eq_true in Hk.
Qed.

(** The canonical roots of a heap: the nodes at rest without a parent. *)
Definition directory_roots (h : gmap loc node) : list loc :=
  (map_to_list h) ≫= (fun kv =>
    if check_calm (snd kv) && bool_decide (node_parent (snd kv) = None) then [fst kv] else []).

(** The graph a namespace's heap represents and its root directory. *)
Definition check_namespace (s : nstate) : option (graph * loc) :=
  let h := m_heap (ns_mem s) in
  match m_root (ns_mem s), check_graph h (directory_roots h) with
  | Some r0, Some G =>
    match find_climb np_fuel h r0 with
    | Some root =>
      match G !! root, check_edges h r0 root with
      | Some d, Some m => if bool_decide (m = d_edges d) then Some (G, root) else None
      | _, _ => None
      end
    | None => None
    end
  | _, _ => None
  end.

Lemma check_namespace_sound s G root : check_namespace s = Some (G, root) -> namespace_at s G root.
Proof.
  unfold check_namespace. destruct (m_root (ns_mem s)) as [r0|] eqn:Hr0; [|done].
  destruct (check_graph _ _) as [G'|] eqn:HG; [|done]. destruct (find_climb _ _ r0) as [root'|]; [|done].
  destruct (G' !! root') as [d|] eqn:Hd; [|done]. destruct (check_edges _ r0 root') as [m|] eqn:Hm; [|done].
  case_bool_decide as He; [|done]. intros [= <- <-]. subst m. split.
  - by apply check_graph_sound in HG.
  - exists r0, d. split; [done|]. split; [done|]. by apply check_edges_sound.
Qed.

(** Words at rest, free locations, and room in every leaf. *)
Definition check_word (v : Z) : bool :=
  (0 <=? v) && (v <? 2 ^ 32) && negb (Z.testbit v 28) &&
  negb (NodeVersion.locked NodeVersion.params32 v) && negb (is_dirty NodeVersion.params32 v).

Definition check_settled (s : mstate) : bool :=
  forallb (fun kv => check_word (node_version (snd kv)) && (fst kv <? m_next s)%positive) (map_to_list (m_heap s)).

Definition check_room (h : gmap loc node) : bool :=
  forallb (fun kv => match snd kv with
    | NLeaf l => (leaf_size l <? 7) && (negb (KPermuter.back 7 (l_permutation l) =? 0) || bool_decide (l_prev l = None)) &&
                 ((l_modstate l =? modstate_insert) || (l_modstate l =? modstate_remove))
    | NInternode _ => true end) (map_to_list h).

Lemma check_settled_sound s : check_settled s = true -> settled s.
Proof.
  intros Hc. assert (forall m nd, m_heap s !! m = Some nd ->
    check_word (node_version nd) = true /\ (m < m_next s)%positive) as H.
  { intros m nd Hm%elem_of_map_to_list. apply (forallb_elem _ _ _ Hc), andb_true_iff in Hm as [Hw Hlt].
    split; [done|]. by apply Pos.ltb_lt. }
  split.
  - intros m nd Hm. apply H in Hm as [Hw _]. unfold check_word in Hw. rewrite !andb_true_iff, !negb_true_iff in Hw.
    destruct Hw as [[[[Hl%Z.leb_le Hh%Z.ltb_lt] Hu] Hlk] Hd]. split; [|done|done].
    split; [done|]. split; [intros n Hn; cbn in Hn; lia|done].
  - intros m Hm. destruct (m_heap s !! m) as [nd|] eqn:He; [|done]. apply H in He as [_ He]. lia.
Qed.

Lemma check_room_sound h r k : check_room h = true -> room_for h r k.
Proof.
  intros Hc q depth ls n l _ Hl. pose proof (lfor_at _ _ _ _ _ _ _ _ _ Hl) as Hat.
  apply elem_of_map_to_list in Hat. apply (forallb_elem _ _ _ Hc) in Hat. cbn [snd] in Hat.
  rewrite !andb_true_iff, !orb_true_iff, negb_true_iff in Hat. destruct Hat as [[Hs Hb] Hm].
  split.
  - by apply Z.ltb_lt.
  - destruct Hb as [Hb|Hb]; [left; by apply Z.eqb_neq|right; left; by apply bool_decide_eq_true in Hb].
  - destruct Hm as [Hm|Hm]; apply Z.eqb_eq in Hm; [by left|by right].
Qed.

(** Every leaf keeps an item or is the leftmost when it loses one. *)
Definition check_shrinks (h : gmap loc node) : bool :=
  forallb (fun kv => match snd kv with
    | NLeaf l => (2 <=? leaf_size l) || bool_decide (l_prev l = None)
    | NInternode _ => true end) (map_to_list h).

Lemma check_shrinks_sound h r k : check_shrinks h = true -> shrinks_at h r k.
Proof.
  intros Hc q depth ls n l _ Hl. pose proof (lfor_at _ _ _ _ _ _ _ _ _ Hl) as Hat.
  apply elem_of_map_to_list in Hat. apply (forallb_elem _ _ _ Hc) in Hat. cbn [snd] in Hat.
  apply orb_true_iff in Hat as [Hat|Hat]; [left; by apply Z.leb_le|right; by apply bool_decide_eq_true in Hat].
Qed.
End namespace.
