(* ===== verification/Scenarios.v ===== *)
(** * Executions

    Programs of namespace operations run by evaluation: the properties of the
    other files applied to the states they reach, and executions in which an
    operation does not do what it means to. *)

From S2P Require Export Checker FileCreate Readdir.
From S2P Require Import NodeVersion KPermuter.
From Stdlib Require Import String Ascii.

#[local] Open Scope Z_scope.
#[local] Open Scope lhm_scope.

#[local] Existing Instance x86_config.
#[local] Instance fuel : Fuel := 60%nat.

(** ** Running programs *)

Definition path (s : string) : byte_string :=
  map (fun a => Z.of_nat (nat_of_ascii a)) (list_ascii_of_string s).

(** No table, no nodes, the first bucket id of the source. *)
Definition no_table : nstate := NState (MState ∅ 1%positive [] [] None) ∅ 1.

Definition outcome {A} (m : sm nstate A) : res A :=
  match m no_table with Ok (a, _) => Ok a | Fault f => Fault f end.
Definition after {A} (m : sm nstate A) : nstate :=
  match m no_table with Ok (_, s) => s | Fault _ => no_table end.

Definition inode (n : Z) : inode_ref := InodeRef n 0.

(** [n] files ["/fa"], ["/fb"], ... in the directory [pre]. *)
Fixpoint make_files (n : nat) (pre : byte_string) : sm nstate bool :=
  match n with
  | O => mret true
  | S n =>
    let* b := make_files n pre in
    let* c := creat_file (pre ++ path "/f" ++ [97 + Z.of_nat n]) (inode (100 + Z.of_nat n)) in
    mret (b && c)
  end.

Definition graph_of (s : nstate) : gmap loc directory :=
  match check_namespace s with Some (G, _) => G | None => ∅ end.
Definition root_of (s : nstate) : loc :=
  match check_namespace s with Some (_, root) => root | None => 1%positive end.

Lemma checked_namespace s :
  (match check_namespace s with Some _ => true | None => false end) = true ->
  namespace_at s (graph_of s) (root_of s).
Proof.
  unfold graph_of, root_of. destruct (check_namespace s) as [[G root]|] eqn:Hc; [|done].
  intros _. by apply check_namespace_sound.
Qed.

(** ** States the properties apply to *)

(** A namespace whose root and whose directory ["/a"] have split. *)
Definition split_namespace : nstate :=
  after (let* _ := ns_initialize in
         let* _ := mkdir (path "/a") (inode 1) in
         let* _ := make_files 9 (path "/a") in
         let* _ := make_files 9 [] in
         mkdir (path "/a/b") (inode 5)).

Lemma split_namespace_at : namespace_at split_namespace (graph_of split_namespace) (root_of split_namespace).
Proof. apply checked_namespace. vm_compute. reflexivity. Qed.

(** A small one, with room everywhere. *)
Definition small_namespace : nstate :=
  after (let* _ := ns_initialize in
         let* _ := mkdir (path "/a") (inode 1) in
         creat_file (path "/a/x") (inode 2)).

Lemma small_namespace_at : namespace_at small_namespace (graph_of small_namespace) (root_of small_namespace).
Proof. apply checked_namespace. vm_compute. reflexivity. Qed.

Lemma small_settled : settled (ns_mem small_namespace).
Proof. apply check_settled_sound. vm_compute. reflexivity. Qed.

Lemma small_room : check_room (m_heap (ns_mem small_namespace)) = true.
Proof. vm_compute. reflexivity. Qed.

Lemma lookup_entry_walks_witness :
  lookup_entry (path "//a/fc/") split_namespace =
    Ok (Some (Entry kind_file (inode 102) 2 (path "fc" ++ zeros 62)), split_namespace) /\
  lookup_entry (path "/a/zz") split_namespace = Ok (None, split_namespace).
Proof.
  split.
  - rewrite (lookup_entry_walks _ _ _ (path "//a/fc/") split_namespace_at). vm_compute. reflexivity.
  - rewrite (lookup_entry_walks _ _ _ (path "/a/zz") split_namespace_at). vm_compute. reflexivity.
Defined.

Lemma find_unlocked_edge_map_witness :
  let h := hash_component (path "a") in
  exists found c, find_unlocked_edge (edge_unlocked_cursor 1%positive h) (ns_mem split_namespace) =
    Ok ((found, c), ns_mem split_namespace).
Proof.
  intros h. destruct split_namespace_at as [_ (r0 & d & Hr0 & _ & (depth & ls & He & _))].
  assert (r0 = 1%positive) as -> by (vm_compute in Hr0; congruence).
  destruct (find_unlocked_edge_map (ns_mem split_namespace) 1%positive depth (root_of split_namespace) ls
    (key_of_buf (make_single_component_key h) 8)) as (found & c & Hrun & _).
  - vm_compute. split; discriminate.
  - exact He.
  - vm_compute. reflexivity.
  - exists found, c. exact Hrun.
Defined.

Lemma attach_existing_layer_map_witness :
  let ka := key_of_buf (make_single_component_key (hash_component (path "new"))) 8 in
  exists b c s', attach_existing_layer (make_tcursor 1%positive ka) (Some 2%positive) (ns_mem small_namespace) = Ok ((b, c), s').
Proof.
  intros ka. destruct small_namespace_at as [HG (r0 & d & Hr0 & Hd & (depth & ls & He & Hrel))].
  assert (r0 = 1%positive) as -> by (vm_compute in Hr0; congruence).
  assert (forall n l, (n, l) ∈ ls -> at_rest (l_version l)) as Hrest.
  { intros n l Hnl. apply (st_rest _ small_settled n (NLeaf l)).
    eapply tree_leaf_up, Hnl. apply (la_tree _ _ _ _ _ (el_at _ _ _ _ _ He)). }
  assert (forall n l, leaf_for (m_heap (ns_mem small_namespace)) depth (root_of small_namespace) None None ls (k_ikey ka) n l ->
    has_room l (k_ikey ka)) as Hroom.
  { intros n l Hl. exact (check_room_sound _ (root_of small_namespace) (k_ikey ka) small_room _ _ _ _ _ He Hl). }
  assert (1 <= leaf_width <= 15) as HW by (vm_compute; split; discriminate).
  assert (k_len ka = ikey_size) as Hlen by (vm_compute; reflexivity).
  pose proof (attach_existing_layer_map (ns_mem small_namespace) 1%positive depth (root_of small_namespace) ls ka
    (Some 2%positive) HW He Hlen Hrest (layer_item_pointer _ _ _ Hrel) Hroom) as H.
  destruct (layer_map ls !! k_ikey ka) as [e|].
  - destruct H as (c & Hrun). exact (ex_intro _ false (ex_intro _ c (ex_intro _ _ Hrun))).
  - destruct H as (c & n & l & ls' & Hrun & _). exact (ex_intro _ true (ex_intro _ c (ex_intro _ _ Hrun))).
Defined.

Lemma mkdir_adds_directory_witness :
  exists s', mkdir (path "/a/d") (inode 7) small_namespace = Ok (true, s') /\ settled (ns_mem s').
Proof.
  assert (exists r d, walk (graph_of small_namespace) (root_of small_namespace) (map hash_component [path "a"]) = Some r /\
    graph_of small_namespace !! r = Some d /\ d_edges d !! hash_component (path "d") = None) as (r & d & Hw & Hd & Hf).
  { eexists 2%positive, _. split; [vm_compute; reflexivity|]. split; vm_compute; reflexivity. }
  destruct (mkdir_adds_directory small_namespace (graph_of small_namespace) (root_of small_namespace) r d
    (path "/a/d") (inode 7) (Parsed (path "/a/d") [path "a"; path "d"] (map hash_component [path "a"; path "d"]))
    [path "a"] (path "d")) as (s' & x & meta & Hrun & _ & _ & _ & Hs & _).
  - apply small_namespace_at.
  - apply small_settled.
  - vm_compute. reflexivity.
  - reflexivity.
  - vm_compute. discriminate.
  - exact Hw.
  - exact Hd.
  - exact Hf.
  - apply check_room_sound, small_room.
  - exists s'. split; [exact Hrun|exact Hs].
Defined.

Lemma creat_file_adds_file_witness :
  exists s', creat_file (path "/a/y") (inode 7) small_namespace = Ok (true, s') /\ settled (ns_mem s').
Proof.
  assert (exists r d, walk (graph_of small_namespace) (root_of small_namespace) (map hash_component [path "a"]) = Some r /\
    graph_of small_namespace !! r = Some d /\ d_edges d !! hash_component (path "y") = None) as (r & d & Hw & Hd & Hf).
  { eexists 2%positive, _. split; [vm_compute; reflexivity|]. split; vm_compute; reflexivity. }
  destruct (creat_file_adds_file small_namespace (graph_of small_namespace) (root_of small_namespace) r d
    (path "/a/y") (inode 7) (Parsed (path "/a/y") [path "a"; path "y"] (map hash_component [path "a"; path "y"]))
    [path "a"] (path "y")) as (s' & Hrun & _ & Hs & _).
  - apply small_namespace_at.
  - apply small_settled.
  - vm_compute. reflexivity.
  - reflexivity.
  - vm_compute. discriminate.
  - exact Hw.
  - exact Hd.
  - exact Hf.
  - apply check_room_sound, small_room.
  - exists s'. split; [exact Hrun|exact Hs].
Defined.

(** The nine files of ["/a"], whose root node has split, and the directory in it. *)
Lemma readdir_lists_children_witness :
  exists rs, readdir (path "/a/") split_namespace = Ok (rs, split_namespace) /\ List.length rs = 10%nat.
Proof.
  pose proof (readdir_lists_children split_namespace (graph_of split_namespace) (root_of split_namespace)
    (path "/a/") split_namespace_at) as H.
  assert (parse_absolute_path (path "/a/") = Ok (Parsed (path "/a") [path "a"] (map hash_component [path "a"]))) as Hp
    by (vm_compute; reflexivity).
  rewrite Hp in H. cbn [components hashes] in H. specialize (H ltac:(discriminate)).
  assert (exists e, filter_entry entry_is_directory (path_entry (graph_of split_namespace) (ns_buckets split_namespace)
    (root_of split_namespace) [path "a"]) = Some e) as (e & He) by (eexists; vm_compute; reflexivity).
  assert (walk (graph_of split_namespace) (root_of split_namespace) (map hash_component [path "a"]) = Some 4%positive) as Hw
    by (vm_compute; reflexivity).
  rewrite He, Hw in H. destruct H as (d & kvs & _ & _ & _ & Hrun).
  eexists. split; [exact Hrun|].
  assert (match readdir (path "/a/") split_namespace with Ok (rs, _) => List.length rs | Fault _ => 0%nat end = 10%nat) as Hlen
    by (vm_compute; reflexivity).
  rewrite Hrun in Hlen. exact Hlen.
Defined.

Lemma mkdir_rejects_witness : mkdir (path "/a/fc/d") (inode 9) split_namespace = Ok (false, split_namespace).
Proof.
  pose proof (mkdir_rejects split_namespace (graph_of split_namespace) (root_of split_namespace)
    (path "/a/fc/d") (inode 9) split_namespace_at) as H.
  set (r := parse_absolute_path (path "/a/fc/d")) in H. vm_compute in r. cbn in H. apply H.
  right. vm_compute. exact I.
Defined.

(** The file of ["/a"], the only item of a leftmost leaf; the directory has a child. *)
Lemma remove_entry_effect_witness :
  (exists s', remove_path_for_test (path "/a/x") small_namespace = Ok (true, s') /\ settled (ns_mem s')) /\
  remove_path_for_test (path "/a") small_namespace = Ok (false, small_namespace).
Proof.
  split.
  - pose proof (remove_entry_effect small_namespace (graph_of small_namespace) (root_of small_namespace)
      (path "/a/x") small_namespace_at small_settled) as H.
    assert (parse_absolute_path (path "/a/x") = Ok (Parsed (path "/a/x") [path "a"; path "x"]
      (map hash_component [path "a"; path "x"]))) as Hp by (vm_compute; reflexivity).
    rewrite Hp in H. cbn [components] in H.
    assert (path_removal (graph_of small_namespace) (ns_buckets small_namespace) (root_of small_namespace) [path "a"; path "x"] =
      rm_edge 2%positive (hash_component (path "x")) ∅) as Ho by (vm_compute; reflexivity).
    rewrite Ho in H. destruct H as (m' & Hrun & Hset & _).
    + apply check_shrinks_sound. vm_compute. reflexivity.
    + exists (NState m' ∅ (ns_next_bucket small_namespace)). split; [exact Hrun|exact Hset].
  - pose proof (remove_entry_effect small_namespace (graph_of small_namespace) (root_of small_namespace)
      (path "/a") small_namespace_at small_settled) as H.
    assert (parse_absolute_path (path "/a") = Ok (Parsed (path "/a") [path "a"] (map hash_component [path "a"]))) as Hp
      by (vm_compute; reflexivity).
    rewrite Hp in H. cbn [components] in H.
    assert (path_removal (graph_of small_namespace) (ns_buckets small_namespace) (root_of small_namespace) [path "a"] = rm_refused)
      as Ho by (vm_compute; reflexivity).
    rewrite Ho in H. exact (H I).
Defined.

(** ** Executions that go wrong *)

Definition names (rs : list readdir_record) : list byte_string := map rd_child_name rs.
Definition is_found {A} (e : option A) : bool := match e with Some _ => true | None => false end.

(** Renaming a directory whose root has split: the comparison of the slot's
    pointer with the canonical root fails after the new edge is attached, so
    [rename_path] reports failure and leaves the directory under both names. *)
Example rename_split_directory :
  outcome (let* _ := ns_initialize in
           let* _ := mkdir (path "/a") (inode 1) in
           let* _ := make_files 9 (path "/a") in
           let* renamed := rename_path (path "/a") (path "/b") in
           let* f1 := lookup_inode (path "/b/fc") in
           let* f2 := lookup_inode (path "/a/fc") in
           let* b := lookup_entry (path "/b") in
           mret (renamed, f1, f2, is_found b)) =
  Ok (false, Some (inode 102), Some (inode 102), true).
Proof. vm_compute. reflexivity. Qed.

(** Listing the root after it has split: the walk starts at the table's root
    pointer, which is now one of two leaves. *)
Example readdir_split_root :
  outcome (let* _ := ns_initialize in
           let* _ := make_files 9 [] in
           let* rs := readdir (path "/") in
           let* f := lookup_inode (path "/fc") in
           mret (List.length rs, f)) =
  Ok (2%nat, Some (inode 102)).
Proof. vm_compute. reflexivity. Qed.

(** A colliding name in a subdirectory: the chain is inserted through the
    table's root, where the hash is not, so the creation fails. *)
Example collision_in_subdirectory :
  let h := hash_component (path "a") in
  outcome (let* _ := ns_initialize in
           let* _ := mkdir (path "/d") (inode 1) in
           let* b1 := creat_file (path "/d/a") (inode 2) in
           let* b2 := creat_file_with_forced_last_hash_for_test (path "/d/b") (inode 3) h in
           let* e := lookup_file_with_forced_last_hash_for_test (path "/d/b") h in
           mret (b1, b2, is_found e)) =
  Ok (true, false, false).
Proof. vm_compute. reflexivity. Qed.

(** The same with a file of that hash in the root: the creation reports success,
    the new file is not found, the root's own file is lost, and the two files of
    the subdirectory appear in the root. *)
Example collision_overwrites_root :
  let h := hash_component (path "a") in
  outcome (let* _ := ns_initialize in
           let* _ := mkdir (path "/d") (inode 1) in
           let* _ := creat_file_with_forced_last_hash_for_test (path "/x") (inode 9) h in
           let* _ := creat_file (path "/d/a") (inode 2) in
           let* created := creat_file_with_forced_last_hash_for_test (path "/d/b") (inode 3) h in
           let* e := lookup_file_with_forced_last_hash_for_test (path "/d/b") h in
           let* x := lookup_file_with_forced_last_hash_for_test (path "/x") h in
           let* rs := readdir (path "/") in
           mret (created, is_found e, is_found x, names rs)) =
  Ok (true, false, false, [path "d"; path "a"; path "b"]).
Proof. vm_compute. reflexivity. Qed.

(** Renaming one of two files that share a slot: both members of the chain are
    planned for the same path, so the second creation fails after the first and
    the rename reports failure with the file under both names. *)
Example rename_in_chain :
  let h := hash_component (path "a") in
  outcome (let* _ := ns_initialize in
           let* _ := creat_file (path "/a") (inode 1) in
           let* _ := creat_file_with_forced_last_hash_for_test (path "/b") (inode 2) h in
           let* renamed := rename_path (path "/a") (path "/c") in
           let* a := lookup_inode (path "/a") in
           let* c := lookup_inode (path "/c") in
           mret (renamed, is_found a, is_found c)) =
  Ok (false, true, true).
Proof. vm_compute. reflexivity. Qed.
